(* ===== verification/_CoqProject ===== *)
-Q . S2P
Prelude.v
Params.v
Bytes.v
Cache.v
RlpEncode.v
RlpDecode.v
RlpRoundtrip.v
RlpRaw.v
TrieEncoding.v
Trie.v
TrieHasher.v
TrieSpec.v
TrieCodec.v
TrieRefine.v
TrieHashProps.v
TrieClaims.v
TrieProof.v
TriePersist.v
TrieGc.v
Consensus.v
Clique.v
CliqueVotes.v
CliqueApply.v
CliqueSeal.v
CliqueClaims.v
ConsensusDef.v
VerifyHeaders.v
ChainDb.v
ChainDbProps.v
Genesis.v
HeaderChain.v
HeaderChainProps.v
HeaderChainClaims.v
Queue.v
QueueProps.v
Packager.v
GigPeriod.v
DposHandler.v
DVoteHandler.v
StateDB.v
Receipt.v
Heap.v
TxTypes.v
TxPriced.v
Block.v
BlockProps.v
BlockChain.v
BlockChainProps.v
BlockWrite.v
BlockInsert.v
BlockOpen.v
BlockChainClaims.v
StateDBSpec.v
StateDBRefine.v
StateDBProps.v
Evm.v
EvmProps.v
StateTransition.v
StateTransitionProps.v
VmBase.v
VmGas.v
VmInstr.v
VmInterp.v
VmSim.v
VmBaseProps.v
VmSafe.v
VmPrice.v
VmExec.v
VmLaws.v
VmArith.v
TxList.v
TxListProps.v
TxOrderProps.v
ManagedState.v
TxPool.v
TxPoolProps.v
TxPoolInv.v
TxPoolReset.v
TxPoolClaims.v
