(* ===== verification/Prelude.v ===== *)
(** * go-juchain: a verification library

    go-juchain is a Go node of a blockchain derived from go-ethereum in which a small
    set of elected nodes packages blocks (delegated proof of stake).  This library
    models its core in Rocq and proves what makes it correct.  Paths below are relative
    to [src/].

    ** The program and how its parts interact

    A transaction reaches the node over the network or by RPC and enters the
    transaction pool ([core/tx_pool.go]), which keeps it queued until its account has no
    nonce gap and pending from then on.  When a node has its turn - fixed by the voting
    process ([p2p/protocol/dvotehandler.go]) or by the big-period table of the delegated
    process ([p2p/protocol/dposhandler.go]) - its packager ([consensus/dpos/worker.go])
    builds a header, draws pending transactions by price and nonce
    ([core/types/transaction.go]) and applies each of them as a message
    ([core/state_transition.go]): gas is bought, the EVM ([vm/solc/evm.go]) executes the
    call on the state database ([core/state]), and the rest of the gas is refunded.  The
    consensus engine ([consensus/dpos/handler.go]) verifies headers and uncles and
    credits the rewards.  Everything that is hashed, stored or sent is RLP
    ([common/rlp]).  A new head of the chain sends the pool through [reset].  States are
    Merkle-Patricia tries ([core/trie]) whose nodes live in a reference-counted database;
    headers, their total difficulties and the canonical index live in the chain database
    ([core/database_util.go]), which the genesis block ([core/genesis.go]) fills and the
    header chain ([core/headerchain.go]) extends by fork choice.  Whole blocks
    ([core/types]) enter through the block chain ([core/blockchain.go]), which has them
    validated and executed, keeps them with their receipts and states, and makes the
    heaviest line canonical.  A node that is behind
    fetches blocks through the download queue ([p2p/protocol/downloader/queue.go]).  A
    private chain runs the clique engine ([consensus/solo]) instead.

    ** Files

    - [Prelude]: this header, machine-width arithmetic, outcomes with panics, the state
      monad [SM], generic lemmas, tactics and hint databases.  [Params]: protocol
      constants.  [Bytes]: big-endian conversions ([common/types.go],
      [common/bytes.go]).
    - RLP. [RlpEncode] is [common/rlp/encode.go] with its two buffers and a reference
      encoder; [RlpDecode] is the [Stream] and the decoders of [common/rlp/decode.go];
      [RlpRoundtrip] relates the two; [RlpRaw] is [common/rlp/raw.go].
    - Tries. [TrieEncoding], [Trie], [TrieHasher] are the keys, nodes, operations and
      hashing of [core/trie]; [TrieSpec], [TrieCodec], [TrieRefine], [TrieHashProps] relate
      them to finite maps and to node encodings, [TrieClaims] states the results;
      [TrieProof] is [proof.go]; [TriePersist] and [TrieGc] are the node database
      ([database.go]) with its commits and its garbage collection.
    - Chain. [Cache] is the interface of the LRU caches; [ChainDb] is the schema of the
      chain database and [ChainDbProps] its records read back; [Genesis] is the genesis
      block and the compatibility of configurations;
      [HeaderChain], [HeaderChainProps] and [HeaderChainClaims] are the header chain.
    - Blocks. [Receipt] is receipts, logs and blooms; [Block] is blocks, their encoding
      and roots, and the queries of the database that decode them, [BlockProps] their round
      trips; [BlockChain] is [core/blockchain.go] with [core/block_validator.go] over
      interfaces for the state and its tries, the caches and the engine;
      [BlockChainProps] proves its reads, [insert] and [reorg], [BlockWrite] the
      invariant and [WriteBlockWithState], [BlockInsert] the insertion of chains,
      [BlockOpen] the start of a node; [BlockChainClaims] states the results and has a small
      chain on which they are run.
    - Download. [Queue] is the download queue over an interface of priority queues,
      [QueueProps] its invariant and theorems.
    - Clique. [Clique] is [consensus/solo]; [CliqueVotes], [CliqueApply], [CliqueSeal] are
      its lemmas on votes, snapshots and seals, [CliqueClaims] its theorems.
    - Consensus. [Consensus] (module [Dpos]) is the engine of
      [consensus/dpos/handler.go]; [ConsensusDef] is its copy [consensus/defhandler.go];
      [VerifyHeaders] is the concurrent batch verification as a step relation;
      [Packager] is header construction and uncle selection of
      [consensus/dpos/worker.go], [CalcGasLimit], and [consensus/dpos/unconfirmed.go].
    - Delegation. [GigPeriod] is [GigPeriodTable] and the guard on propagated blocks,
      [DposHandler] the delegated packaging process, [DVoteHandler] the voting process.
      The package-level variables are one record, a handler is one transition because
      it holds its manager's lock, what it sends or schedules is a list of actions.
    - State. [StateDB] is [core/state/statedb.go], [state_object.go] and [journal.go]
      over classes for the trie and the database; [StateDBSpec] is the abstract
      specification (accounts as a function of the address, snapshots as saved copies);
      [StateDBRefine] and [StateDBProps] prove the refinement; its module [StateRewards] discharges
      the engine's interface [BalanceDB] with the state database.
    - Execution. [Evm] is [Call], [CallCode], [DelegateCall], [StaticCall] and [Create]
      of [vm/solc/evm.go], written against the interface [StateOps] ([vm.StateDB]);
      [EvmProps] proves it on the specification and transfers it to the state database
      by simulation, for any interpreter that keeps [InterpreterLaws].  [StateTransition]
      and [StateTransitionProps] are [core/state_transition.go] and [core/gaspool.go].
    - Interpreter. [VmBase] holds the helpers of [common/math], stack, memory, data
      slices, [callGas] and the analysis of jump destinations; [VmGas] is
      [vm/solc/gas_table.go], [VmInstr] is [instructions.go], [VmInterp] is
      [jump_table.go] and [interpreter.go], closed over the nested calls level by level.
      [VmBaseProps], [VmSafe], [VmPrice] and [VmExec] prove that each instruction is safe
      for its price, [VmSim] that the interpreter touches the state through the
      interface only, [VmLaws] discharges [InterpreterLaws], [VmArith] relates the
      arithmetic to integers modulo 2^256, its module [VmClaims] states the result on the
      state database.
    - Transactions. [Heap] is [container/heap]; [TxTypes] is
      [core/types/transaction.go] (with the pointers of a transaction to its DApp
      fields, which the pool compares) and [TransactionsByPriceAndNonce]; [TxList],
      [TxListProps], [TxPriced] are [core/tx_list.go]; [TxOrderProps] is
      the packaging order; [ManagedState] is [core/state/managed_state.go]; [TxPool] is
      [core/tx_pool.go], with [TxPoolProps], [TxPoolInv], [TxPoolReset] its invariant
      and [TxPoolClaims] its theorems.

    ** What the theorems show

    - State: the cached, journalled state database gives the results of the
      specification on every sequence of operations and panics exactly where the
      specification has no step; reverting to a snapshot restores everything; rewards
      change exactly the balances they should.
    - Execution: a message call that fails leaves the whole state as before and spends
      no more than its gas; the effects of each error of a creation; exact accounting of
      gas and value between sender, recipient, coinbase and gas pool on every branch of
      [ApplyMessage].
    - Interpreter: on every code, input and state it returns, within the gas, without a
      panic, and changes nothing when read-only; the arithmetic instructions are the
      operations modulo 2^256, jumps go exactly to the destinations of the code, the
      price of memory is exact below 2^32 words.
    - Consensus: [verifyHeader] accepts exactly the valid headers, what the packager
      prepares is accepted or, on a parent ahead of the clock, a future block, accepted uncles are distinct, recent and rewarded once, the
      difficulty is bounded below and antitone in time, batch verification delivers its
      verdicts in order under every interleaving and ends.
    - Delegation: turns are a round robin, tables are signed, elections have a unique
      winner that no later message changes; the reachable panics are characterised.
    - RLP: the encoder is its reference, decoding inverts encoding, whatever is accepted
      is canonical, decoding ends; the two inputs on which the code misbehaves.
    - Tries: the trie is a finite map through every insertion, deletion, hashing and
      reload; two tries have the same root hash exactly when all lookups agree; proofs verify
      exactly the entries; a commit writes all nodes before it drops any; collection keeps
      all that is reachable from a referenced root, in memory or on disk.
    - Chain: after any insertions every stored header carries the sum of the difficulties
      of its line, the head is a heaviest header and the canonical index is its line;
      insertions store a prefix and report the first failure; rewinding deletes exactly the
      line above the new head; setting up a genesis block writes it once, and a later setup
      changes nothing and compares the hash of the block it builds, which for the main chain
      depends on the order of a map.
    - Blocks: after any insertions the heads in memory and on disk are one block, a
      heaviest stored one, whose line is canonical; an archive node's insertions always
      return; transactions are found by hash exactly when they are on this line above the
      genesis block; a restart
      restores all of it; the roots of a header bind the body; blooms are complete.
    - Download: every scheduled header is in exactly one place, results come in chain
      order with the contents their headers commit to, an idle queue has delivered all; a
      reservation that reports an invalid chain ends the run, as it ends the synchronisation.
    - Clique: a snapshot is the count of all votes since the genesis block, signers change
      by majority only, what the engine seals it accepts.
    - Pool: each list refines a list sorted by nonce, the packager gets the dearest
      next transaction, every operation keeps the maps, lists, nonces and the price heap
      in step, limits hold after each promotion, a new head leaves the pool on its state and
      gas limit unless data is missing or the blocks of the DApps cannot be made, a
      reorganisation returns exactly the transactions the new branch lacks.

    Theorems numbered [C1], [C2], ... state the properties; each with a hypothesis has a
    witness, the same name followed by [_witness], that applies it at a concrete input.

    ** Integers, panics, fuel

    A [uint64] is a [Z] with its wrap-around written out ([u64] and the operators of
    [go_scope]); a [big.Int] is a [Z]; a byte is a [Z] below 256.  A Go panic is the
    outcome [Panic].  Loops that are not structural carry fuel, always a bound the input
    gives: the length of a byte slice for decoders, the size of the heap for sifting, the
    number of transactions for the limits of the pool, the distance of block numbers
    for reorganisations and rewinding, the height of the highest block for the nested
    insertion of a side line, the size of the database for the index above a new
    head, the length of keys and the number of nodes for tries, the number of tasks for
    reservations, the gas for the turns of the interpreter and the limit
    on the depth for its nesting; the theorems are about complete runs, so too little fuel would
    falsify them.  Go's map iteration order is a parameter ([Orders], [ord_txs]) over
    which the theorems quantify.

    ** Not modelled, and why

    Keccak, signatures and the precompiled contracts are parameters with the laws used
    of them; LevelDB is a finite map whose writes succeed, LRU caches and priority queues
    are interfaces.  Of the interpreter, tracing, the abort flag and the switch that
    disables gas are left out; the cache of jump destinations, which the code shares
    between a contract and its callees by code hash, belongs to the frame.  The genesis
    block of the main chain is an argument, since it is built by running two contracts; it is
    given the allocations in the order in which the call visits them.
    The download queue keeps an average block size in floating point; the cap on slots
    computed from it is an argument.  Networking, RPC, peers and their timers, wallets,
    the console, metrics and logs are left out: they move data or present it.  The
    execution of a block's transactions ([core/state_processor.go]) is a parameter of the
    block chain, and the state is an interface whose laws say that what was committed can be
    opened.  The theorems on whole blocks are about archive nodes or allow the panic of the
    others in the collection of tries, whose cause is a missing canonical header.

    ** Plan

    The loop of [core/state_processor.go] on the state database and the EVM as an instance
    of the block chain's interfaces; bloom bits; the block fetcher; trie iteration and
    synchronisation. *)

From stdpp Require Export base gmap list sets strings fin_maps sorting.
From Stdlib Require Export ZArith Lia.

#[global] Open Scope Z_scope.

(** ** Machine integers

    A Go [uint64]/[uint32]/[int64] is a [Z] kept in range; the arithmetic that
    can wrap around in the source is written with the functions below. *)

Declare Scope go_scope.
Delimit Scope go_scope with go.

Definition MaxUint64 : Z := 18446744073709551615.
Definition MaxUint32 : Z := 4294967295.
Definition MaxInt64 : Z := 9223372036854775807.

Definition u64 (z : Z) : Z := z mod 2 ^ 64.
Definition u32 (z : Z) : Z := z mod 2 ^ 32.
Definition u8 (z : Z) : Z := z mod 2 ^ 8.

(** Conversion to a signed 64-bit integer (two's complement). *)
Definition i64 (z : Z) : Z := (z + 2 ^ 63) mod 2 ^ 64 - 2 ^ 63.

Definition is_u64 (z : Z) : Prop := 0 <= z <= MaxUint64.
Definition is_u32 (z : Z) : Prop := 0 <= z <= MaxUint32.
Definition is_byte (z : Z) : Prop := 0 <= z <= 255.

Notation "x +64 y" := (u64 (x + y)) (at level 50, left associativity) : go_scope.
Notation "x -64 y" := (u64 (x - y)) (at level 50, left associativity) : go_scope.
Notation "x *64 y" := (u64 (x * y)) (at level 40, left associativity) : go_scope.

(** [(x *big.Int).Uint64()] keeps the low 64 bits of the absolute value. *)
Definition big_Uint64 (z : Z) : Z := u64 (Z.abs z).

#[export] Instance is_u64_dec z : Decision (is_u64 z).
Proof. unfold is_u64. apply _. Defined.
#[export] Instance is_u32_dec z : Decision (is_u32 z).
Proof. unfold is_u32. apply _. Defined.
#[export] Instance is_byte_dec z : Decision (is_byte z).
Proof. unfold is_byte. apply _. Defined.

(** ** Results of Go functions

    [Ret]: the function returned; [Panic]: a run-time panic (nil pointer
    dereference, index out of range, explicit [panic]). *)

Inductive outcome (A : Type) : Type :=
| Ret (a : A)
| Panic.
Arguments Ret {A} a.
Arguments Panic {A}.

#[export] Instance outcome_ret : MRet outcome := @Ret.
#[export] Instance outcome_bind : MBind outcome := fun A B k m =>
  match m with Ret a => k a | Panic => Panic end.

(** Dereference of a pointer that may be nil. *)
Definition deref {A} (p : option A) : outcome A :=
  match p with Some a => Ret a | None => Panic end.

(** Code that threads a state. *)
Definition SM (St A : Type) : Type := St -> outcome (St * A).
#[export] Instance SM_ret {St} : MRet (SM St) := fun A x s => Ret (s, x).
#[export] Instance SM_bind {St} : MBind (SM St) := fun A B k m s =>
  match m s with Ret (s, x) => k x s | Panic => Panic end.

(** A run-time panic; a step without the state; reading and changing the state; a loop. *)
Definition panic {St A} : SM St A := fun _ => Panic.
Definition lift {St A} (m : outcome A) : SM St A := fun s => x ← m; Ret (s, x).
Definition gets {St A} (f : St -> A) : SM St A := fun s => Ret (s, f s).
Definition modify {St} (f : St -> St) : SM St unit := fun s => Ret (f s, tt).
Fixpoint for_each {St A} (l : list A) (body : A -> SM St unit) : SM St unit :=
  match l with
  | [] => mret tt
  | x :: l => _ ← body x; for_each l body
  end.

(** ** Tactics and hint databases *)

Create HintDb juchain discriminated.
Create HintDb go_arith discriminated.
Create Rewrite HintDb go_norm.

(** Case on the first [if]/[match] scrutinee found in the goal or a hypothesis. *)
Ltac case_step :=
  match goal with
  | |- context [if ?b then _ else _] => destruct b eqn:?
  | |- context [match ?x with _ => _ end] => destruct x eqn:?
  | H : context [if ?b then _ else _] |- _ => destruct b eqn:?
  | H : context [match ?x with _ => _ end] |- _ => destruct x eqn:?
  end.
Ltac case_all := repeat (case_step; simplify_eq/=; try done).

(** Turn the boolean comparisons of the code into propositions. *)
Ltac bool_to_prop :=
  repeat match goal with
  | H : (_ && _)%bool = true |- _ => apply andb_true_iff in H; destruct H
  | H : (_ && _)%bool = false |- _ => apply andb_false_iff in H
  | H : (_ || _)%bool = true |- _ => apply orb_true_iff in H
  | H : (_ || _)%bool = false |- _ => apply orb_false_iff in H; destruct H
  | H : negb _ = true |- _ => apply negb_true_iff in H
  | H : negb _ = false |- _ => apply negb_false_iff in H
  | H : (_ <? _) = true |- _ => apply Z.ltb_lt in H
  | H : (_ <? _) = false |- _ => apply Z.ltb_ge in H
  | H : (_ <=? _) = true |- _ => apply Z.leb_le in H
  | H : (_ <=? _) = false |- _ => apply Z.leb_gt in H
  | H : (_ =? _) = true |- _ => apply Z.eqb_eq in H
  | H : (_ =? _) = false |- _ => apply Z.eqb_neq in H
  | H : bool_decide _ = true |- _ => apply bool_decide_eq_true in H
  | H : bool_decide _ = false |- _ => apply bool_decide_eq_false in H
  end.

(** Close an arithmetic goal after unfolding the machine-integer ranges. *)
Ltac go_lia :=
  unfold is_u64, is_u32, is_byte, MaxUint64, MaxUint32, MaxInt64 in *;
  bool_to_prop; lia.

(** The same with division and modulo by constants. *)
Ltac div_lia :=
  unfold is_u64, is_u32, is_byte, MaxUint64, MaxUint32, MaxInt64 in *;
  bool_to_prop; Z.to_euclidean_division_equations; lia.

(** ** Lemmas on machine integers *)

Lemma u64_id z : is_u64 z -> u64 z = z.
Proof. intros H. apply Z.mod_small. go_lia. Qed.

Lemma u64_range z : is_u64 (u64 z).
Proof. unfold u64. pose proof (Z.mod_pos_bound z (2^64)). go_lia. Qed.

Lemma u32_id z : is_u32 z -> u32 z = z.
Proof. intros H. apply Z.mod_small. go_lia. Qed.

Lemma u32_range z : is_u32 (u32 z).
Proof. unfold u32. pose proof (Z.mod_pos_bound z (2^32)). go_lia. Qed.

Lemma i64_id z : - 2 ^ 63 <= z < 2 ^ 63 -> i64 z = z.
Proof. intros H. unfold i64. rewrite Z.mod_small; lia. Qed.

Lemma big_Uint64_id z : is_u64 z -> big_Uint64 z = z.
Proof. intros H. unfold big_Uint64. rewrite Z.abs_eq by go_lia. by apply u64_id. Qed.

#[export] Hint Resolve u64_range u32_range : go_arith.
#[export] Hint Rewrite u64_id u32_id i64_id big_Uint64_id using go_lia : go_norm.

Lemma bind_Ret {A B} (m : outcome A) (k : A -> outcome B) b :
  m ≫= k = Ret b <-> exists a, m = Ret a /\ k a = Ret b.
Proof. destruct m; simpl; naive_solver. Qed.

(** Evaluation in the state monad. *)
Lemma bind_eval {St A B} (m : SM St A) (k : A -> SM St B) s s' a : m s = Ret (s', a) -> (m ≫= k) s = k a s'.
Proof. intros E. unfold mbind, SM_bind. by rewrite E. Qed.
Lemma bind_gets {St A B} (f : St -> A) (k : A -> SM St B) s : (gets f ≫= k) s = k (f s) s.
Proof. done. Qed.
Lemma bind_modify {St B} (f : St -> St) (k : unit -> SM St B) s : (modify f ≫= k) s = k tt (f s).
Proof. done. Qed.
Lemma bind_lift {St A B} (m : outcome A) (k : A -> SM St B) s a : m = Ret a -> (lift m ≫= k) s = k a s.
Proof. by intros ->. Qed.

Lemma deref_Ret {A} (p : option A) a : deref p = Ret a <-> p = Some a.
Proof. destruct p; simpl; naive_solver. Qed.

(** A chain of guards [if c then return err] returns nil exactly when no guard fires. *)
Lemma guard_None {E} (b : bool) (e : E) r :
  (if b then Some e else r) = None <-> b = false /\ r = None.
Proof. destruct b; naive_solver. Qed.

(** ** Lemmas on lists *)

(** Generalised index of the code's search loops [for i := 0; ...; i++]. *)
Fixpoint exists_from {A} (f : nat -> A -> bool) (i : nat) (l : list A) : bool :=
  match l with
  | [] => false
  | x :: l => f i x || exists_from f (S i) l
  end.

Lemma exists_from_spec {A} (f : nat -> A -> bool) l i :
  exists_from f i l = true <-> exists k x, l !! k = Some x /\ f (i + k)%nat x = true.
Proof.
  revert i; induction l as [|y l IH]; intros i; simpl.
  - split; [done|]. intros (k & x & Hk & _). done.
  - rewrite orb_true_iff, IH. split.
    + intros [H|(k & x & Hk & Hf)].
      * exists 0%nat, y. by rewrite Nat.add_0_r.
      * exists (S k), x. by rewrite Nat.add_succ_r.
    + intros ([|k] & x & Hk & Hf); simplify_eq/=.
      * left. by rewrite Nat.add_0_r in Hf.
      * right. exists k, x. by rewrite Nat.add_succ_r in Hf.
Qed.

Lemma filter_all {A} (P : A -> Prop) `{forall x, Decision (P x)} (l : list A) :
  Forall P l -> filter P l = l.
Proof. induction 1; [done|]. rewrite filter_cons, decide_True by done. by f_equal. Qed.

Lemma filter_none {A} (P : A -> Prop) `{forall x, Decision (P x)} (l : list A) :
  Forall (fun x => ~ P x) l -> filter P l = [].
Proof. induction 1; [done|]. by rewrite filter_cons, decide_False. Qed.

Lemma Forall_filter {A} (P Q : A -> Prop) `{forall x, Decision (P x)} (l : list A) :
  Forall Q l -> Forall Q (filter P l).
Proof. induction 1; [constructor|]. rewrite filter_cons. case_decide; by try constructor. Qed.

Lemma StronglySorted_filter {A} (R : A -> A -> Prop) (P : A -> Prop)
    `{forall x, Decision (P x)} (l : list A) :
  StronglySorted R l -> StronglySorted R (filter P l).
Proof.
  induction 1 as [|x l Hl IH Hx]; [constructor|]. rewrite filter_cons.
  case_decide; [|done]. constructor; [done|]. by apply Forall_filter.
Qed.

Lemma StronglySorted_snoc {A} (R : A -> A -> Prop) (l : list A) x :
  StronglySorted R l -> Forall (fun y => R y x) l -> StronglySorted R (l ++ [x]).
Proof.
  intros Hl Hx. apply StronglySorted_app. split_and!; [|done|repeat constructor].
  intros y z Hy ->%list_elem_of_singleton. rewrite Forall_forall in Hx. auto.
Qed.

Lemma StronglySorted_lookup {A} (R : A -> A -> Prop) (l : list A) i j x y :
  StronglySorted R l -> l !! i = Some x -> l !! j = Some y -> (i < j)%nat -> R x y.
Proof.
  intros Hl. revert i j. induction Hl as [|z l Hl IH Hz]; intros [|i] [|j] Hi Hj Hlt; simplify_eq/=; try lia.
  - rewrite Forall_forall in Hz. apply Hz. by eapply list_elem_of_lookup_2.
  - apply (IH i j); [done|done|lia].
Qed.
