(* ===== verification/Params.v ===== *)
(** Protocol constants of [config/protocol_params.go] and the identifier types
    shared by every component ([common/types.go]). *)

From S2P Require Import Prelude.

(** [common.Address] is a [20]byte array and [common.Hash] a [32]byte array;
    both are represented by their big-endian value, so that the zero value of
    Go is [0] and array equality is equality of integers. *)
Abbreviation Address := Z.
Abbreviation Hash := Z.

(** ** config/protocol_params.go *)
Definition GasLimitBoundDivisor : Z := 1024.
Definition MinGasLimit : Z := 5000.
Definition GenesisGasLimit : Z := 41424776.
Definition TargetGasLimit : Z := GenesisGasLimit.
Definition MaximumExtraDataSize : Z := 32.
Definition TxGas : Z := 21000.
Definition TxGasContractCreation : Z := 53000.
Definition TxDataZeroGas : Z := 4.
Definition TxDataNonZeroGas : Z := 68.
Definition DifficultyBoundDivisor : Z := 2048.
Definition MinimumDifficulty : Z := 131072.

(** [types.EmptyDAppIdHash] is the zero address (core/types/block.go). *)
Definition EmptyDAppIdHash : Address := 0.
(** [math.MaxBig256] (common/math/big.go). *)
Definition MaxBig256 : Z := 2 ^ 256 - 1.
