(* ===== verification/Bytes.v ===== *)
(** Byte strings: the big-endian conversions used by [common/types.go],
    [common/bytes.go], [math/big] and the RLP package, and their inverse laws.

    A byte is a [Z] in [0..255]; a Go [[]byte] is a [list Z]. *)

From S2P Require Import Prelude Params.

Abbreviation bytes := (list Z).

(** Every element is a byte; decidable, so that witnesses evaluate it. *)
Definition is_bytes (b : bytes) : Prop := Forall is_byte b.

#[export] Instance is_bytes_dec b : Decision (is_bytes b).
Proof. unfold is_bytes. apply _. Defined.

(** Go's [len]. *)
Definition len {A} (l : list A) : Z := Z.of_nat (length l).

(** Big-endian value of a byte string: [big.Int.SetBytes],
    [binary.BigEndian.Uint64]. *)
Fixpoint be_value_acc (acc : Z) (b : bytes) : Z :=
  match b with
  | [] => acc
  | x :: b => be_value_acc (acc * 256 + x) b
  end.
Definition be_value (b : bytes) : Z := be_value_acc 0 b.

(** The low [n] bytes of [z], most significant first. *)
Fixpoint be_bytes (n : nat) (z : Z) : bytes :=
  match n with
  | O => []
  | S n => (z / 256 ^ Z.of_nat n) mod 256 :: be_bytes n z
  end.

(** Number of bytes of the magnitude of a positive integer. *)
Definition byte_len (z : Z) : nat :=
  if z <=? 0 then O else Z.to_nat (Z.log2 z / 8 + 1).

(** [big.Int.Bytes]: the minimal big-endian bytes of the absolute value. *)
Definition big_Bytes (z : Z) : bytes := be_bytes (byte_len (Z.abs z)) (Z.abs z).

(** [common.BytesToHash] / [common.BytesToAddress]: the last 32 (20) bytes, left-padded. *)
Definition HashLength : nat := 32.
Definition AddressLength : nat := 20.
Definition BytesToHash (b : bytes) : Hash := be_value (drop (length b - HashLength) b).
Definition BytesToAddress (b : bytes) : Address := be_value (drop (length b - AddressLength) b).
(** A Go string as its bytes, and back. *)
Definition string_bytes (s : string) : bytes := map (fun c => Z.of_N (Ascii.N_of_ascii c)) (String.list_ascii_of_string s).
Definition bytes_string (b : bytes) : string := String.string_of_list_ascii (map (fun z => Ascii.ascii_of_N (Z.to_N z)) b).
(** [h[:]] for an array held as its value. *)
Definition hash_bytes (h : Hash) : bytes := be_bytes HashLength h.
Definition address_bytes (a : Address) : bytes := be_bytes AddressLength a.

(** [bytes.TrimLeft] of zero bytes *)
Fixpoint trim_left_zeros (b : bytes) : bytes :=
  match b with
  | x :: b' => if x =? 0 then trim_left_zeros b' else b
  | [] => []
  end.

(** ** Lemmas *)

Lemma len_nil {A} : len ([] : list A) = 0.
Proof. done. Qed.
Lemma len_cons {A} (x : A) l : len (x :: l) = 1 + len l.
Proof. unfold len. rewrite length_cons. lia. Qed.
Lemma len_app {A} (l k : list A) : len (l ++ k) = len l + len k.
Proof. unfold len. rewrite length_app. lia. Qed.
Lemma len_nonneg {A} (l : list A) : 0 <= len l.
Proof. unfold len. lia. Qed.
Lemma len_0 {A} (l : list A) : len l = 0 -> l = [].
Proof. unfold len. destruct l; simpl; [done|lia]. Qed.
Lemma len_drop {A} n (l : list A) : len (drop n l) = Z.max 0 (len l - Z.of_nat n).
Proof. unfold len. rewrite length_drop. lia. Qed.
Lemma len_take {A} n (l : list A) : len (take n l) = Z.min (Z.of_nat n) (len l).
Proof. unfold len. rewrite length_take. lia. Qed.
Lemma len_replicate {A} n (x : A) : len (replicate n x) = Z.of_nat n.
Proof. unfold len. by rewrite length_replicate. Qed.
#[export] Hint Rewrite @len_nil @len_cons @len_app @len_drop @len_take @len_replicate : go_norm.

Lemma be_value_acc_eq acc b : be_value_acc acc b = acc * 256 ^ len b + be_value b.
Proof.
  revert acc. induction b as [|x b IH]; intros acc.
  - unfold be_value. simpl. unfold len. simpl. lia.
  - unfold be_value. simpl be_value_acc. rewrite (IH (acc * 256 + x)), (IH (0 * 256 + x)), len_cons.
    rewrite Z.pow_add_r by (pose proof (len_nonneg b); lia). lia.
Qed.

Lemma be_value_cons x b : be_value (x :: b) = x * 256 ^ len b + be_value b.
Proof. unfold be_value at 1. simpl. rewrite be_value_acc_eq. lia. Qed.

Lemma be_value_nil : be_value [] = 0.
Proof. done. Qed.

Lemma be_value_app a b : be_value (a ++ b) = be_value a * 256 ^ len b + be_value b.
Proof.
  induction a as [|x a IH]; [by rewrite be_value_nil|].
  change ((x :: a) ++ b) with (x :: (a ++ b)).
  rewrite !be_value_cons, IH, len_app, Z.pow_add_r by apply len_nonneg. lia.
Qed.

Lemma be_value_zeros n b : be_value (replicate n 0 ++ b) = be_value b.
Proof.
  rewrite be_value_app. enough (be_value (replicate n 0) = 0) as -> by lia.
  induction n as [|n IH]; [done|]. simpl. rewrite be_value_cons, IH. lia.
Qed.

Lemma be_value_bound b : is_bytes b -> 0 <= be_value b < 256 ^ len b.
Proof.
  induction 1 as [|x b Hx Hb IH]; [by split|].
  rewrite be_value_cons, len_cons, Z.pow_add_r by (pose proof (len_nonneg b); lia).
  unfold is_byte in Hx. nia.
Qed.

Lemma be_value_pos x b : is_bytes (x :: b) -> x <> 0 -> 256 ^ len b <= be_value (x :: b).
Proof.
  intros [Hx Hb]%Forall_cons Hn. rewrite be_value_cons.
  pose proof (be_value_bound b Hb). unfold is_byte in Hx.
  pose proof (Z.pow_pos_nonneg 256 (len b)). pose proof (len_nonneg b). nia.
Qed.

Lemma length_be_bytes n z : length (be_bytes n z) = n.
Proof. induction n; simpl; congruence. Qed.

Lemma len_be_bytes n z : len (be_bytes n z) = Z.of_nat n.
Proof. unfold len. by rewrite length_be_bytes. Qed.
#[export] Hint Rewrite len_be_bytes : go_norm.

Lemma be_bytes_is_bytes n z : is_bytes (be_bytes n z).
Proof.
  induction n; simpl; constructor; [|done].
  unfold is_byte. pose proof (Z.mod_pos_bound (z / 256 ^ Z.of_nat n) 256). lia.
Qed.

Lemma be_value_be_bytes n z : be_value (be_bytes n z) = z mod 256 ^ Z.of_nat n.
Proof.
  induction n as [|n IH]; simpl be_bytes.
  - rewrite be_value_nil. change (256 ^ Z.of_nat 0) with 1. by rewrite Z.mod_1_r.
  - rewrite be_value_cons, IH, len_be_bytes, Nat2Z.inj_succ, Z.pow_succ_r by lia.
    rewrite (Z.mul_comm 256), Z.rem_mul_r by lia. lia.
Qed.

Lemma be_bytes_mod n z : be_bytes n (z mod 256 ^ Z.of_nat n) = be_bytes n z.
Proof.
  assert (Hk : forall k, (k <= n)%nat -> be_bytes k (z mod 256 ^ Z.of_nat n) = be_bytes k z);
    [|by apply Hk].
  induction k as [|k IH]; intros Hk; [done|]. simpl. f_equal; [|apply IH; lia].
  replace (Z.of_nat n) with (Z.of_nat k + Z.of_nat (n - k)) by lia.
  rewrite Z.pow_add_r, Z.rem_mul_r by lia.
  rewrite Z.add_comm, (Z.mul_comm (256 ^ Z.of_nat k)), Z.div_add_l by lia.
  rewrite (Z.div_small (z mod _)) by (apply Z.mod_pos_bound; lia).
  rewrite Z.add_0_r. replace (Z.of_nat (n - k)) with (1 + (Z.of_nat (n - k) - 1)) by lia.
  rewrite Z.pow_add_r, Z.rem_mul_r by lia.
  change (256 ^ 1) with 256.
  rewrite (Z.mul_comm 256), Z.mod_add by lia. apply Z.mod_mod. lia.
Qed.

Lemma be_bytes_be_value b : is_bytes b -> be_bytes (length b) (be_value b) = b.
Proof.
  induction 1 as [|x b Hx Hb IH]; [done|]. simpl length. simpl be_bytes.
  pose proof (be_value_bound b Hb) as Hv. fold (len b).
  rewrite be_value_cons. f_equal.
  - rewrite Z.div_add_l by lia. rewrite (Z.div_small (be_value b)) by lia.
    rewrite Z.add_0_r. unfold is_byte in Hx. apply Z.mod_small. lia.
  - transitivity (be_bytes (length b) (be_value b)); [|done].
    rewrite <- (be_bytes_mod (length b) (_ + _)). fold (len b). rewrite Z.add_comm, Z.mod_add by lia.
    by rewrite (Z.mod_small (be_value b)) by lia.
Qed.

Lemma byte_len_spec z : 0 < z -> 256 ^ (Z.of_nat (byte_len z) - 1) <= z < 256 ^ Z.of_nat (byte_len z).
Proof.
  intros Hz. unfold byte_len. rewrite (proj2 (Z.leb_gt _ _)) by lia.
  pose proof (Z.log2_nonneg z). pose proof (Z.log2_spec z Hz) as [Hl Hu].
  rewrite Z2Nat.id by (pose proof (Z.div_pos (Z.log2 z) 8); lia).
  replace (Z.log2 z / 8 + 1 - 1) with (Z.log2 z / 8) by lia.
  change 256 with (2 ^ 8). rewrite <- !Z.pow_mul_r by (pose proof (Z.div_pos (Z.log2 z) 8); lia).
  split.
  - etransitivity; [|exact Hl]. apply Z.pow_le_mono_r; [lia|]. apply Z.mul_div_le. lia.
  - eapply Z.lt_le_trans; [exact Hu|]. apply Z.pow_le_mono_r; [lia|].
    pose proof (Z.mul_succ_div_gt (Z.log2 z) 8). lia.
Qed.

Lemma byte_len_pos z : 0 < z -> (0 < byte_len z)%nat.
Proof.
  intros Hz. unfold byte_len. rewrite (proj2 (Z.leb_gt _ _)) by lia.
  pose proof (Z.log2_nonneg z). pose proof (Z.div_pos (Z.log2 z) 8). lia.
Qed.

Lemma byte_len_unique n z : 0 < z -> 256 ^ (Z.of_nat n - 1) <= z < 256 ^ Z.of_nat n ->
  byte_len z = n.
Proof.
  intros Hz [Hl Hu]. destruct (byte_len_spec z Hz) as [Bl Bu].
  pose proof (byte_len_pos z Hz). destruct (decide (n = 0%nat)) as [->|Hn].
  { change (256 ^ Z.of_nat 0) with 1 in Hu. lia. }
  assert (Z.of_nat n - 1 < Z.of_nat (byte_len z))
    by (apply (Z.pow_lt_mono_r_iff 256); lia).
  assert (Z.of_nat (byte_len z) - 1 < Z.of_nat n)
    by (apply (Z.pow_lt_mono_r_iff 256); lia).
  lia.
Qed.

Lemma be_value_big_Bytes z : 0 <= z -> be_value (big_Bytes z) = z.
Proof.
  intros Hz. unfold big_Bytes. rewrite Z.abs_eq, be_value_be_bytes by done.
  destruct (decide (z = 0)) as [->|]; [by rewrite Zmod_0_l|].
  pose proof (byte_len_spec z). apply Z.mod_small. lia.
Qed.

(** A byte string without a leading zero is the [Bytes()] of its value. *)
Lemma big_Bytes_be_value b : is_bytes b -> head b <> Some 0 -> big_Bytes (be_value b) = b.
Proof.
  intros Hb Hh. unfold big_Bytes. rewrite Z.abs_eq by (pose proof (be_value_bound b Hb); lia).
  destruct b as [|x b]; [done|].
  pose proof (be_value_pos x b Hb ltac:(simpl in Hh; congruence)) as Hp.
  pose proof (Z.pow_pos_nonneg 256 (len b)). pose proof (len_nonneg b).
  pose proof (be_value_bound _ Hb) as Hv.
  rewrite (byte_len_unique (length (x :: b))); [by apply be_bytes_be_value|lia|].
  fold (len (x :: b)). split; [|lia]. rewrite len_cons.
  replace (1 + len b - 1) with (len b) by lia. done.
Qed.

Lemma big_Bytes_is_bytes z : is_bytes (big_Bytes z).
Proof. apply be_bytes_is_bytes. Qed.

Lemma big_Bytes_head z : head (big_Bytes z) <> Some 0.
Proof.
  unfold big_Bytes. destruct (decide (z = 0)) as [->|Hz]; [done|].
  assert (0 < Z.abs z) as Hp by lia. revert Hp. generalize (Z.abs z) as y. intros y Hp.
  pose proof (byte_len_spec y Hp) as [Hl Hu]. pose proof (byte_len_pos y Hp).
  destruct (byte_len y) as [|n]; [lia|]. simpl. intros [= He].
  rewrite Nat2Z.inj_succ, Z.pow_succ_r in Hu by lia.
  replace (Z.of_nat (S n) - 1) with (Z.of_nat n) in Hl by lia.
  rewrite Z.mod_small in He.
  - apply Z.div_small_iff in He; [lia|]. lia.
  - split; [apply Z.div_pos; lia|]. apply Z.div_lt_upper_bound; lia.
Qed.

Lemma BytesToHash_hash_bytes h : 0 <= h < 2 ^ 256 -> BytesToHash (hash_bytes h) = h.
Proof.
  intros Hh. unfold BytesToHash, hash_bytes. rewrite length_be_bytes, Nat.sub_diag, drop_0.
  rewrite be_value_be_bytes. apply Z.mod_small. exact Hh.
Qed.

Lemma hash_bytes_BytesToHash b :
  is_bytes b -> length b = HashLength -> hash_bytes (BytesToHash b) = b.
Proof.
  intros Hb Hl. unfold BytesToHash, hash_bytes. rewrite Hl, Nat.sub_diag, drop_0, <- Hl.
  by apply be_bytes_be_value.
Qed.

Lemma be_value_trim_left b : be_value (trim_left_zeros b) = be_value b.
Proof.
  induction b as [|x b IH]; [done|]. simpl. destruct (x =? 0) eqn:E; [|done].
  apply Z.eqb_eq in E as ->. by rewrite IH, be_value_cons.
Qed.

Lemma bytes_string_bytes s : bytes_string (string_bytes s) = s.
Proof.
  unfold bytes_string, string_bytes. rewrite map_map. rewrite <- (String.string_of_list_ascii_of_string s) at 2. f_equal.
  rewrite <- map_id. apply map_ext. intros c. by rewrite N2Z.id, Ascii.ascii_N_embedding.
Qed.
Lemma string_bytes_is_bytes s : is_bytes (string_bytes s).
Proof.
  apply Forall_forall. intros z Hz. apply list_elem_of_fmap in Hz as (c & -> & _). unfold is_byte.
  pose proof (Ascii.N_ascii_bounded c). lia.
Qed.
