(* ===== verification/Cache.v ===== *)
(** Bounded caches ([golang-lru]) as an interface: a cache may forget at any time but
    returns nothing that was not put in. *)

From S2P Require Import Prelude Params.

(** [cached] is what the cache holds; [cache_Get] may change the order of eviction. *)
Class CacheOps (C V : Type) := {
  cached : C -> gmap Hash V;
  cache_Get : C -> Hash -> C * option V;
  cache_Add : C -> Hash -> V -> C;
  cache_Contains : C -> Hash -> bool;
  cache_Purge : C -> C
}.

Class CacheLaws {C V : Type} (ops : CacheOps C V) : Prop := {
  cache_Get_found : forall c h v, snd (cache_Get c h) = Some v -> cached c !! h = Some v;
  cache_Get_held : forall c h, cached (fst (cache_Get c h)) ⊆ cached c;
  cache_Add_held : forall c h v, cached (cache_Add c h v) ⊆ <[h := v]> (cached c);
  cache_Contains_held : forall c h, cache_Contains c h = true -> is_Some (cached c !! h);
  cache_Purge_empty : forall c, cached (cache_Purge c) = ∅
}.

(** The unbounded cache. *)
#[export] Instance map_cache V : CacheOps (gmap Hash V) V := {|
  cached := id; cache_Get c h := (c, c !! h); cache_Add c h v := <[h := v]> c; cache_Contains c h := bool_decide (is_Some (c !! h)); cache_Purge _ := ∅ |}.
#[export] Instance map_cache_laws V : CacheLaws (map_cache V).
Proof. split; try done. intros c h H. by apply bool_decide_eq_true in H. Qed.

(** What is said of every cached entry survives an addition. *)
Lemma cache_Add_forall {C V} {ops : CacheOps C V} {laws : CacheLaws ops} (Q : Hash -> V -> Prop) c k v :
  (forall x s, cached c !! x = Some s -> Q x s) -> Q k v -> forall x s, cached (cache_Add c k v) !! x = Some s -> Q x s.
Proof.
  intros Hc Hk x s Hx. eapply lookup_weaken in Hx; [|apply cache_Add_held]. destruct (decide (x = k)) as [->|Hne].
  - rewrite lookup_insert, decide_True in Hx by done. by injection Hx as <-.
  - rewrite lookup_insert_ne in Hx by done. by apply Hc.
Qed.

Lemma cache_Get_forall {C V} {ops : CacheOps C V} {laws : CacheLaws ops} (Q : Hash -> V -> Prop) c k :
  (forall x s, cached c !! x = Some s -> Q x s) -> forall x s, cached (fst (cache_Get c k)) !! x = Some s -> Q x s.
Proof. intros Hc x s Hx. apply Hc. eapply lookup_weaken; [exact Hx|apply cache_Get_held]. Qed.
