(* ===== verification/RlpEncode.v ===== *)
(** RLP encoder ([common/rlp/encode.go]): the two-buffer encoder [encbuf] and the
    writers that [makeWriter] selects by reflection on the Go type, with a
    reference encoder and the proof that the optimised encoder implements it. *)

From S2P Require Import Prelude Params Bytes.

Module Rlp.

(** Errors of the package ([common/rlp/decode.go], [encode.go]). *)
Inductive rlp_error :=
| EOL | ErrExpectedString | ErrExpectedList | ErrCanonInt | ErrCanonSize
| ErrElemTooLarge | ErrValueTooLarge | ErrMoreThanOneValue
| errNotInList | errNotAtEOL | errUintOverflow
| io_EOF | io_ErrUnexpectedEOF
| ErrNegativeBigInt | ErrInvalidBool
| ErrTooFewElements | ErrTooLong | ErrTooShort
| OutOfFuel.

#[export] Instance rlp_error_eq_dec : EqDecision rlp_error.
Proof. solve_decision. Defined.

(** The struct tags that change a codec: [rlp:nil] and [rlp:tail]. *)
Record tags := Tags { nilOK : bool; tail : bool }.
Definition notags : tags := Tags false false.

(** The Go types that [makeWriter] and [makeDecoder] distinguish, without the
    types that bring their own [EncodeRLP]/[DecodeRLP]. A struct lists its
    exported, not ignored fields ([structFields]). *)
Inductive typ :=
| TRaw                       (* RawValue *)
| TUint (bits : Z)           (* uint8 .. uint64 *)
| TBool
| TString
| TBig                       (* pointer to big.Int *)
| TBytes                     (* []byte *)
| TByteArray (n : nat)       (* [n]byte *)
| TSlice (t : typ)
| TArray (n : nat) (t : typ)
| TStruct (fs : list (typ * tags))
| TPtr (t : typ)
| TInterface.                (* interface{} *)

(** Values of these types. An [interface{}] holds nil, a byte string or a list
    of such values, which is what the decoder stores in it. *)
Inductive val :=
| VUint (n : Z)
| VBool (b : bool)
| VBig (i : option Z)
| VBytes (b : bytes)
| VList (vs : list val)
| VPtr (p : option val)
| VNil.

(** ** Headers *)

(** [putint]: the bytes it writes to the beginning of its buffer. *)
Definition putint (i : Z) : bytes :=
  let byte_at k := u8 (Z.shiftr i k) in
  if i <? Z.shiftl 1 8 then [byte_at 0]
  else if i <? Z.shiftl 1 16 then map byte_at [8; 0]
  else if i <? Z.shiftl 1 24 then map byte_at [16; 8; 0]
  else if i <? Z.shiftl 1 32 then map byte_at [24; 16; 8; 0]
  else if i <? Z.shiftl 1 40 then map byte_at [32; 24; 16; 8; 0]
  else if i <? Z.shiftl 1 48 then map byte_at [40; 32; 24; 16; 8; 0]
  else if i <? Z.shiftl 1 56 then map byte_at [48; 40; 32; 24; 16; 8; 0]
  else map byte_at [56; 48; 40; 32; 24; 16; 8; 0].

(** [intsize]: the loop [for size = 1; ; size++ { if i >>= 8; i == 0 ... }] on a
    [uint64] runs at most eight times. *)
Fixpoint intsize_loop (fuel : nat) (size i : Z) : Z :=
  let i := Z.shiftr i 8 in
  match fuel with
  | O => size
  | S fuel => if i =? 0 then size else intsize_loop fuel (size + 1) i
  end.
Definition intsize (i : Z) : Z := intsize_loop 8 1 i.

Definition headsize (size : Z) : Z := if size <? 56 then 1 else 1 + intsize size.

(** [puthead]: the header bytes it writes; its result is their number. *)
Definition puthead (smalltag largetag size : Z) : bytes :=
  if size <? 56 then [u8 (smalltag + u8 size)]
  else let s := putint size in u8 (largetag + u8 (len s)) :: s.

(** ** The encoding buffer *)

Record listhead := Listhead { offset : Z; size : Z }.
Record encbuf := Encbuf { str : bytes; lheads : list listhead; lhsize : Z }.

Definition listhead_encode (head : listhead) : bytes := puthead 0xC0 0xF7 (u64 (size head)).

(** A buffer after [reset]. *)
Definition reset : encbuf := Encbuf [] [] 0.

Definition append_str (w : encbuf) (b : bytes) : encbuf := Encbuf (str w ++ b) (lheads w) (lhsize w).

Definition encodeStringHeader (w : encbuf) (size : Z) : encbuf :=
  if size <? 56 then append_str w [u8 (0x80 + u8 size)]
  else let s := putint (u64 size) in
       append_str w (u8 (0xB7 + u8 (len s)) :: s).

Definition encodeString (w : encbuf) (b : bytes) : encbuf :=
  match b with
  | [x] => if x <=? 0x7F then append_str w [x]
           else append_str (encodeStringHeader w (len b)) b
  | _ => append_str (encodeStringHeader w (len b)) b
  end.

Definition encbuf_size (w : encbuf) : Z := len (str w) + lhsize w.

(** [list]: the new header is at the index returned (the source returns its address). *)
Definition list_ (w : encbuf) : encbuf * nat :=
  (Encbuf (str w) (lheads w ++ [Listhead (len (str w)) (lhsize w)]) (lhsize w), length (lheads w)).

Definition listEnd (w : encbuf) (i : nat) : encbuf :=
  match lheads w !! i with
  | None => w
  | Some lh =>
      let sz := encbuf_size w - offset lh - size lh in
      Encbuf (str w) (<[i := Listhead (offset lh) sz]> (lheads w))
        (if sz <? 56 then lhsize w + 1 else lhsize w + (1 + intsize (u64 sz)))
  end.

(** [toBytes] fills [out], a slice of [w.size()] zero bytes: [acc] are the bytes
    already written, [copy] truncates at the end of [out] and writing a header
    past the end panics. *)
Definition copy_to (cap : Z) (acc b : bytes) : bytes := acc ++ take (Z.to_nat (cap - len acc)) b.

Fixpoint toBytes_loop (cap : Z) (s : bytes) (heads : list listhead) (strpos : Z) (acc : bytes)
    : outcome (Z * bytes) :=
  match heads with
  | [] => Ret (strpos, acc)
  | head :: heads =>
      if (offset head <? strpos) || (len s <? offset head) then Panic else
      let piece := take (Z.to_nat (offset head - strpos)) (drop (Z.to_nat strpos) s) in
      let acc' := copy_to cap acc piece in
      let n := len acc' - len acc in
      let enc := listhead_encode head in
      if cap - len acc' <? len enc then Panic
      else toBytes_loop cap s heads (strpos + n) (acc' ++ enc)
  end.

Definition toBytes (w : encbuf) : outcome bytes :=
  let cap := encbuf_size w in
  match toBytes_loop cap (str w) (lheads w) 0 [] with
  | Panic => Panic
  | Ret (strpos, acc) =>
      if len (str w) <? strpos then Panic else
      let acc := copy_to cap acc (drop (Z.to_nat strpos) (str w)) in
      Ret (acc ++ replicate (Z.to_nat (cap - len acc)) 0)
  end.

(** ** Writers

    A writer mutates the buffer and returns an error or nil; applying it to a
    value of another kind is a panic of the [reflect] package. *)

Definition writer := val -> encbuf -> outcome (encbuf * option rlp_error).

Definition writeRawValue : writer := fun v w =>
  match v with VBytes b => Ret (append_str w b, None) | _ => Panic end.

Definition writeUint : writer := fun v w =>
  match v with
  | VUint i =>
      let i := u64 i in
      if i =? 0 then Ret (append_str w [0x80], None)
      else if i <? 128 then Ret (append_str w [u8 i], None)
      else let s := putint i in Ret (append_str w (u8 (0x80 + u8 (len s)) :: s), None)
  | _ => Panic
  end.

Definition writeBool : writer := fun v w =>
  match v with
  | VBool b => Ret (append_str w [if b then 0x01 else 0x80], None)
  | _ => Panic
  end.

Definition writeBigInt (i : Z) (w : encbuf) : encbuf * option rlp_error :=
  if i <? 0 then (w, Some ErrNegativeBigInt)
  else if i =? 0 then (append_str w [0x80], None)
  else (encodeString w (big_Bytes i), None).

Definition writeBigIntPtr : writer := fun v w =>
  match v with
  | VBig None => Ret (append_str w [0x80], None)
  | VBig (Some i) => Ret (writeBigInt i w)
  | _ => Panic
  end.

Definition writeBytes : writer := fun v w =>
  match v with VBytes b => Ret (encodeString w b, None) | _ => Panic end.

(** A [[n]byte] value has exactly [n] bytes. *)
Definition writeByteArray (n : nat) : writer := fun v w =>
  match v with
  | VBytes b => if decide (length b = n) then Ret (encodeString w b, None) else Panic
  | _ => Panic
  end.

Definition writeString : writer := fun v w =>
  match v with
  | VBytes ([x] as s) =>
      if x <=? 0x7f then Ret (append_str w [x], None)
      else Ret (append_str (encodeStringHeader w (len s)) s, None)
  | VBytes s => Ret (append_str (encodeStringHeader w (len s)) s, None)
  | _ => Panic
  end.

(** The loop over the elements, which stops at the first error. *)
Fixpoint write_elems (wr : writer) (vs : list val) (w : encbuf) : outcome (encbuf * option rlp_error) :=
  match vs with
  | [] => Ret (w, None)
  | v :: vs =>
      match wr v w with
      | Panic => Panic
      | Ret (w, Some e) => Ret (w, Some e)
      | Ret (w, None) => write_elems wr vs w
      end
  end.

(** The writer of [makeSliceWriter]; [listEnd] is deferred, so it also runs on errors. *)
Definition write_slice (ts : tags) (wr : writer) (vs : list val) (w : encbuf) :=
  if tail ts then write_elems wr vs w
  else let '(w, i) := list_ w in
       '(w, e) ← write_elems wr vs w; Ret (listEnd w i, e).

(** The fields of a struct, each with the writer of its type. *)
Fixpoint write_fields (wrs : list writer) (vs : list val) (w : encbuf)
    : outcome (encbuf * option rlp_error) :=
  match wrs, vs with
  | [], [] => Ret (w, None)
  | wr :: wrs, v :: vs =>
      match wr v w with
      | Panic => Panic
      | Ret (w, Some e) => Ret (w, Some e)
      | Ret (w, None) => write_fields wrs vs w
      end
  | _, _ => Panic
  end.

(** The writer of [makeStructWriter]: [listEnd] only after all fields succeeded. *)
Definition write_struct (wrs : list writer) (vs : list val) (w : encbuf) :=
  let '(w, i) := list_ w in
  '(w, e) ← write_fields wrs vs w;
  match e with
  | Some e => Ret (w, Some e)
  | None => Ret (listEnd w i, None)
  end.

(** [writeInterface]: nil, or the writer of the dynamic type ([[]byte] or
    [[]interface{}]). *)
Fixpoint writeInterface (v : val) (w : encbuf) : outcome (encbuf * option rlp_error) :=
  match v with
  | VNil => Ret (append_str w [0xC0], None)
  | VBytes b => Ret (encodeString w b, None)
  | VList vs =>
      let '(w, i) := list_ w in
      '(w, e) ← (fix go vs w :=
          match vs with
          | [] => Ret (w, None)
          | v :: vs =>
              match writeInterface v w with
              | Panic => Panic
              | Ret (w, Some e) => Ret (w, Some e)
              | Ret (w, None) => go vs w
              end
          end) vs w;
      Ret (listEnd w i, e)
  | _ => Panic
  end.

(** The zero value of a type, which [makePtrWriter] writes for nil pointers to it. *)
Fixpoint zero (t : typ) : val :=
  match t with
  | TUint _ => VUint 0
  | TBool => VBool false
  | TBig => VBig None
  | TRaw | TString | TBytes => VBytes []
  | TByteArray n => VBytes (replicate n 0)
  | TSlice _ => VList []
  | TArray n t => VList (replicate n (zero t))
  | TStruct fs => VList (map (fun f => zero (fst f)) fs)
  | TPtr _ => VPtr None
  | TInterface => VNil
  end.

(** The pointer writer of [makePtrWriter]. *)
Definition write_ptr (t : typ) (wr : writer) : writer := fun v w =>
  match v with
  | VPtr (Some v) => wr v w
  | VPtr None =>
      match t with
      | TByteArray _ => Ret (append_str w [0x80], None)
      | TStruct _ | TArray _ _ => let '(w, i) := list_ w in Ret (listEnd w i, None)
      | _ => wr (zero t) w
      end
  | _ => Panic
  end.

Fixpoint makeWriter (t : typ) (ts : tags) : writer :=
  match t with
  | TRaw => writeRawValue
  | TInterface => writeInterface
  | TBig => writeBigIntPtr
  | TUint _ => writeUint
  | TBool => writeBool
  | TString => writeString
  | TBytes => writeBytes
  | TByteArray n => writeByteArray n
  | TSlice t => fun v w =>
      match v with VList vs => write_slice ts (makeWriter t notags) vs w | _ => Panic end
  | TArray n t => fun v w =>
      match v with
      | VList vs => if decide (length vs = n) then write_slice ts (makeWriter t notags) vs w else Panic
      | _ => Panic
      end
  | TStruct fs => fun v w =>
      match v with
      | VList vs => write_struct (map (fun f => makeWriter (fst f) (snd f)) fs) vs w
      | _ => Panic
      end
  | TPtr t => write_ptr t (makeWriter t notags)
  end.

Definition EncodeToBytes (t : typ) (v : val) : outcome (rlp_error + bytes) :=
  match makeWriter t notags v reset with
  | Panic => Panic
  | Ret (_, Some e) => Ret (inl e)
  | Ret (w, None) => b ← toBytes w; Ret (inr b)
  end.

End Rlp.

(** ** Reference encoder *)

Module RlpRef.
Import Rlp.

(** The header of the RLP definition: the length in the tag, or the length of
    the minimal big-endian length, followed by it. *)
Definition header (small large n : Z) : bytes :=
  if n <? 56 then [small + n] else large + Z.of_nat (byte_len n) :: be_bytes (byte_len n) n.

Definition enc_str (b : bytes) : bytes :=
  match b with
  | [x] => if x <=? 0x7F then [x] else header 0x80 0xB7 1 ++ b
  | _ => header 0x80 0xB7 (len b) ++ b
  end.

Definition enc_list (payload : bytes) : bytes := header 0xC0 0xF7 (len payload) ++ payload.

Abbreviation encoded := (outcome (rlp_error + bytes)).
Definition ebind (x : encoded) (k : bytes -> encoded) : encoded :=
  match x with Ret (inr b) => k b | _ => x end.

Fixpoint enc_elems (f : val -> encoded) (vs : list val) : encoded :=
  match vs with
  | [] => Ret (inr [])
  | v :: vs => ebind (f v) (fun b => ebind (enc_elems f vs) (fun c => Ret (inr (b ++ c))))
  end.

Fixpoint enc_fields (fs : list (val -> encoded)) (vs : list val) : encoded :=
  match fs, vs with
  | [], [] => Ret (inr [])
  | f :: fs, v :: vs => ebind (f v) (fun b => ebind (enc_fields fs vs) (fun c => Ret (inr (b ++ c))))
  | _, _ => Panic
  end.

Definition as_list (ts : tags) (x : encoded) : encoded :=
  if tail ts then x else ebind x (fun p => Ret (inr (enc_list p))).

Fixpoint enc_iface (v : val) : encoded :=
  match v with
  | VNil => Ret (inr (enc_list []))
  | VBytes b => Ret (inr (enc_str b))
  | VList vs => ebind
      ((fix go vs := match vs with
        | [] => Ret (inr [])
        | v :: vs => ebind (enc_iface v) (fun b => ebind (go vs) (fun c => Ret (inr (b ++ c))))
        end) vs) (fun p => Ret (inr (enc_list p)))
  | _ => Panic
  end.

(** The RLP encoding of a typed value. *)
Fixpoint enc (t : typ) (ts : tags) (v : val) : encoded :=
  match t, v with
  | TRaw, VBytes b => Ret (inr b)
  | TUint _, VUint i => Ret (inr (enc_str (big_Bytes (u64 i))))
  | TBool, VBool b => Ret (inr (enc_str (if b then [1] else [])))
  | TBig, VBig i =>
      let i := default 0 i in
      if i <? 0 then Ret (inl ErrNegativeBigInt) else Ret (inr (enc_str (big_Bytes i)))
  | (TString | TBytes), VBytes b => Ret (inr (enc_str b))
  | TByteArray n, VBytes b => if decide (length b = n) then Ret (inr (enc_str b)) else Panic
  | TSlice t, VList vs => as_list ts (enc_elems (enc t notags) vs)
  | TArray n t, VList vs =>
      if decide (length vs = n) then as_list ts (enc_elems (enc t notags) vs) else Panic
  | TStruct fs, VList vs =>
      as_list notags (enc_fields (map (fun f => enc (fst f) (snd f)) fs) vs)
  | TPtr t, VPtr (Some v) => enc t notags v
  | TPtr t, VPtr None =>
      match t with
      | TByteArray _ => Ret (inr (enc_str []))
      | TStruct _ | TArray _ _ => Ret (inr (enc_list []))
      | _ => enc t notags (zero t)
      end
  | TInterface, _ => enc_iface v
  | _, _ => Panic
  end.

End RlpRef.

(** ** The encoder implements the reference *)

Module RlpEncodeProps.
Import Rlp RlpRef.

(** Induction on types with the hypothesis for the fields of a struct. *)
Lemma typ_ind_fields (P : typ -> Prop) :
  P TRaw -> (forall n, P (TUint n)) -> P TBool -> P TString -> P TBig -> P TBytes ->
  (forall n, P (TByteArray n)) -> (forall t, P t -> P (TSlice t)) ->
  (forall n t, P t -> P (TArray n t)) ->
  (forall fs, Forall (fun f => P (fst f)) fs -> P (TStruct fs)) ->
  (forall t, P t -> P (TPtr t)) -> P TInterface -> forall t, P t.
Proof.
  intros H1 H2 H3 H4 H5 H6 H7 Hsl Har Hs Hp Hi. fix IH 1.
  intros [| | | | | | |t|n t|fs|t|];
    [exact H1|apply H2|exact H3|exact H4|exact H5|exact H6|apply H7
    |apply Hsl, IH|apply Har, IH| |apply Hp, IH|exact Hi].
  apply Hs. induction fs as [|[t ts] fs IHfs]; constructor; [apply IH|exact IHfs].
Qed.

(** Induction on interface values with the hypothesis for the elements of a list. *)
Lemma val_ind_elems (P : val -> Prop) :
  (forall n, P (VUint n)) -> (forall b, P (VBool b)) -> (forall i, P (VBig i)) ->
  (forall b, P (VBytes b)) -> (forall vs, Forall P vs -> P (VList vs)) ->
  (forall p, P (VPtr p)) -> P VNil -> forall v, P v.
Proof.
  intros H1 H2 H3 H4 Hl H5 H6. fix IH 1.
  intros [| | | |vs| |]; [apply H1|apply H2|apply H3|apply H4| |apply H5|exact H6].
  apply Hl. induction vs as [|v vs IHvs]; constructor; [apply IH|exact IHvs].
Qed.

Lemma u8_shiftr i k : 0 <= k -> u8 (Z.shiftr i k) = (i / 2 ^ k) mod 256.
Proof. intros. unfold u8. by rewrite Z.shiftr_div_pow2. Qed.

Ltac putint_case n :=
  rewrite (byte_len_unique n) by lia; simpl map; rewrite !u8_shiftr by lia; reflexivity.

Lemma putint_be_bytes i : 0 < i < 2 ^ 64 -> putint i = be_bytes (byte_len i) i.
Proof.
  intros Hi. unfold putint.
  change (Z.shiftl 1 8) with 256. change (Z.shiftl 1 16) with (256 ^ 2).
  change (Z.shiftl 1 24) with (256 ^ 3). change (Z.shiftl 1 32) with (256 ^ 4).
  change (Z.shiftl 1 40) with (256 ^ 5). change (Z.shiftl 1 48) with (256 ^ 6).
  change (Z.shiftl 1 56) with (256 ^ 7).
  repeat match goal with |- context [if ?b then _ else _] => destruct b eqn:? end; bool_to_prop.
  - putint_case 1%nat.
  - putint_case 2%nat.
  - putint_case 3%nat.
  - putint_case 4%nat.
  - putint_case 5%nat.
  - putint_case 6%nat.
  - putint_case 7%nat.
  - putint_case 8%nat.
Qed.

Lemma intsize_loop_spec n fuel sz i :
  (n <= fuel)%nat -> 0 <= i < 256 ^ Z.of_nat (S n) -> (256 ^ Z.of_nat n <= i \/ n = O) ->
  intsize_loop (S fuel) sz i = sz + Z.of_nat n.
Proof.
  revert fuel sz i. induction n as [|n IH]; intros fuel sz i Hf Hi Hl.
  - simpl. rewrite Z.shiftr_div_pow2, Z.div_small by (simpl in *; lia). simpl. lia.
  - destruct fuel as [|fuel]; [lia|].
    change (intsize_loop (S (S fuel)) sz i) with
      (let i := Z.shiftr i 8 in if i =? 0 then sz else intsize_loop (S fuel) (sz + 1) i).
    cbv zeta. rewrite Z.shiftr_div_pow2 by lia. change (2 ^ 8) with 256.
    assert (256 ^ Z.of_nat n <= i / 256) as Hd.
    { apply Z.div_le_lower_bound; [lia|]. destruct Hl as [Hl|]; [|done].
      rewrite Nat2Z.inj_succ, Z.pow_succ_r in Hl by lia. lia. }
    pose proof (Z.pow_pos_nonneg 256 (Z.of_nat n)).
    rewrite (proj2 (Z.eqb_neq _ _)) by lia. rewrite IH; [lia|lia| |by left].
    split; [lia|]. apply Z.div_lt_upper_bound; [lia|].
    rewrite (Nat2Z.inj_succ (S n)), Z.pow_succ_r in Hi by lia. lia.
Qed.

Lemma intsize_byte_len i : 0 < i < 2 ^ 64 -> intsize i = Z.of_nat (byte_len i).
Proof.
  intros Hi. pose proof (byte_len_spec i ltac:(lia)) as [Hl Hu].
  pose proof (byte_len_pos i ltac:(lia)).
  assert (byte_len i <= 8)%nat.
  { assert (Z.of_nat (byte_len i) - 1 < 8); [|lia]. apply (Z.pow_lt_mono_r_iff 256); lia. }
  unfold intsize. destruct (byte_len i) as [|n]; [lia|].
  rewrite (intsize_loop_spec n 7); [lia|lia|lia|left].
  by replace (Z.of_nat (S n) - 1) with (Z.of_nat n) in Hl by lia.
Qed.

Lemma byte_len_le n z : 0 < z < 256 ^ Z.of_nat n -> (byte_len z <= n)%nat.
Proof.
  intros Hz. pose proof (byte_len_spec z ltac:(lia)) as [Hl Hu].
  assert (Z.of_nat (byte_len z) - 1 < Z.of_nat n); [|lia].
  apply (Z.pow_lt_mono_r_iff 256); lia.
Qed.

(** Both header functions of the source write the header of the definition. *)
Lemma puthead_header small large n :
  0 <= n < 2 ^ 63 -> 0 <= small <= 0xC0 -> 0 <= large <= 0xF7 ->
  puthead small large n = header small large n.
Proof.
  intros Hn Hs Hl. unfold puthead, header. destruct (n <? 56) eqn:E; bool_to_prop.
  - unfold u8. by rewrite (Z.mod_small n), Z.mod_small by lia.
  - pose proof (byte_len_le 8 n ltac:(lia)).
    rewrite putint_be_bytes, len_be_bytes by lia. unfold u8.
    by rewrite (Z.mod_small (Z.of_nat _)), Z.mod_small by lia.
Qed.

Lemma len_header small large n :
  0 <= n < 2 ^ 63 ->
  len (header small large n) = if n <? 56 then 1 else 1 + intsize (u64 n).
Proof.
  intros Hn. unfold header. destruct (n <? 56) eqn:E; bool_to_prop; [done|].
  rewrite u64_id, intsize_byte_len by go_lia. by rewrite len_cons, len_be_bytes.
Qed.

(** What a part of the buffer renders to: string data with the list headers
    written at their offsets. *)
Fixpoint render (s : bytes) (H : list listhead) (pos : Z) : bytes :=
  match H with
  | [] => drop (Z.to_nat pos) s
  | h :: H => take (Z.to_nat (offset h - pos)) (drop (Z.to_nat pos) s)
              ++ listhead_encode h ++ render s H (offset h)
  end.

Definition shift (k : Z) (h : listhead) : listhead := Listhead (k + offset h) (size h).
Definition hsum (H : list listhead) : Z := foldr (fun h n => len (listhead_encode h) + n) 0 H.

Fixpoint heads_ok (pos hi : Z) (H : list listhead) : Prop :=
  match H with
  | [] => pos <= hi
  | h :: H => pos <= offset h /\ heads_ok (offset h) hi H
  end.

Lemma heads_ok_le pos hi H : heads_ok pos hi H -> pos <= hi.
Proof. revert pos. induction H as [|h H IH]; simpl; intros pos; [done|]. intros [? ?%IH]. lia. Qed.

Lemma hsum_app H1 H2 : hsum (H1 ++ H2) = hsum H1 + hsum H2.
Proof. induction H1 as [|h H1 IH]; simpl in *; lia. Qed.

Lemma hsum_shift k H : hsum (map (shift k) H) = hsum H.
Proof. induction H as [|h H IH]; simpl in *; [done|]. rewrite IH. done. Qed.

Lemma shift_shift a b H : map (shift a) (map (shift b) H) = map (shift (a + b)) H.
Proof.
  rewrite map_map. apply map_ext. intros [o z]. unfold shift. simpl. f_equal. lia.
Qed.

Lemma len_render s H pos :
  0 <= pos -> heads_ok pos (len s) H -> len (render s H pos) = len s - pos + hsum H.
Proof.
  revert pos. induction H as [|h H IH]; simpl; intros pos Hp Hok.
  - rewrite len_drop. lia.
  - destruct Hok as [Hle Hok]. pose proof (heads_ok_le _ _ _ Hok).
    rewrite !len_app, IH, len_take, len_drop by (done || lia). lia.
Qed.

Lemma heads_ok_shift k lo hi H :
  heads_ok lo hi H -> heads_ok (k + lo) (k + hi) (map (shift k) H).
Proof.
  revert lo. induction H as [|h H IH]; simpl; intros lo Hok; [lia|].
  destruct Hok as [? Hok]. split; [lia|]. by apply IH.
Qed.

Lemma heads_ok_weaken pos' pos hi H : pos' <= pos -> heads_ok pos hi H -> heads_ok pos' hi H.
Proof. destruct H; simpl; [lia|]. intros ? [? ?]. split; [lia|done]. Qed.

Lemma heads_ok_app (s1 s2 : bytes) H1 H2 pos :
  heads_ok pos (len s1) H1 -> heads_ok 0 (len s2) H2 ->
  heads_ok pos (len (s1 ++ s2)) (H1 ++ map (shift (len s1)) H2).
Proof.
  intros Hok1 Hok2. rewrite len_app. revert pos Hok1.
  induction H1 as [|h H1 IH]; simpl; intros pos Hok1.
  - apply (heads_ok_weaken pos (len s1 + 0)); [lia|]. by apply heads_ok_shift.
  - destruct Hok1 as [? Hok1]. split; [done|]. by apply IH.
Qed.

Lemma take_drop_app_le {A} (a b : list A) (n m : nat) :
  (n + m <= length a)%nat -> take n (drop m (a ++ b)) = take n (drop m a).
Proof. intros. rewrite drop_app_le, take_app_le by (rewrite ?length_drop; lia). done. Qed.

Lemma render_shift (s1 s2 : bytes) H lo pos :
  0 <= pos -> heads_ok pos (len s2) H ->
  lo = len s1 + pos -> render (s1 ++ s2) (map (shift (len s1)) H) lo = render s2 H pos.
Proof.
  revert lo pos. induction H as [|h H IH]; simpl; intros lo pos Hp Hok ->.
  - replace (Z.to_nat (len s1 + pos)) with (length s1 + Z.to_nat pos)%nat by (unfold len; lia).
    by rewrite drop_app_add.
  - destruct Hok as [? Hok].
    replace (Z.to_nat (len s1 + pos)) with (length s1 + Z.to_nat pos)%nat by (unfold len; lia).
    rewrite drop_app_add. f_equal; [f_equal; lia|]. f_equal. apply IH; [lia|done|done].
Qed.

Lemma render_app (s1 s2 : bytes) H1 H2 pos :
  0 <= pos -> heads_ok pos (len s1) H1 -> heads_ok 0 (len s2) H2 ->
  render (s1 ++ s2) (H1 ++ map (shift (len s1)) H2) pos = render s1 H1 pos ++ render s2 H2 0.
Proof.
  revert pos. induction H1 as [|h H1 IH]; simpl; intros pos Hp Hok1 Hok2.
  - destruct H2 as [|h H2].
    + simpl. rewrite drop_0, drop_app_le by (unfold len in *; lia). done.
    + simpl. simpl in Hok2. destruct Hok2 as [? Hok2]. pose proof (heads_ok_le _ _ _ Hok2).
      rewrite drop_app_le by (unfold len in *; lia). rewrite take_app, length_drop.
      rewrite (take_ge (drop _ _)) by (rewrite length_drop; unfold len in *; lia).
      rewrite <- app_assoc. f_equal. f_equal; [|f_equal].
      * rewrite drop_0. f_equal. unfold len in *. lia.
      * apply render_shift; [lia|done|done].
  - destruct Hok1 as [? Hok1]. pose proof (heads_ok_le _ _ _ Hok1).
    rewrite take_drop_app_le by (unfold len in *; lia).
    rewrite <- !app_assoc. do 2 f_equal. apply IH; [lia|done|done].
Qed.

(** [delta w w' b]: the buffer grew from [w] to [w'] by data that renders to [b]. *)
Definition delta (w w' : encbuf) (b : bytes) : Prop :=
  exists S H, str w' = str w ++ S /\ lheads w' = lheads w ++ map (shift (len (str w))) H /\
    lhsize w' = lhsize w + hsum H /\ heads_ok 0 (len S) H /\ render S H 0 = b.

Lemma delta_refl w : delta w w [].
Proof. exists [], []. simpl. rewrite !app_nil_r. split_and!; done || lia. Qed.

Lemma delta_trans w1 w2 w3 b c : delta w1 w2 b -> delta w2 w3 c -> delta w1 w3 (b ++ c).
Proof.
  intros (S1 & H1 & Hs1 & Hh1 & Hl1 & Ho1 & Hr1) (S2 & H2 & Hs2 & Hh2 & Hl2 & Ho2 & Hr2).
  exists (S1 ++ S2), (H1 ++ map (shift (len S1)) H2).
  split_and!.
  - by rewrite Hs2, Hs1, app_assoc.
  - rewrite Hh2, Hh1, Hs1, map_app, shift_shift, len_app, app_assoc. done.
  - rewrite hsum_app, hsum_shift. lia.
  - by apply heads_ok_app.
  - by rewrite render_app, Hr1, Hr2.
Qed.

Lemma delta_append w b : delta w (append_str w b) b.
Proof.
  pose proof (len_nonneg b). exists b, []. simpl. rewrite app_nil_r, drop_0.
  split_and!; done || lia.
Qed.

Lemma delta_len w w' b : delta w w' b -> encbuf_size w' = encbuf_size w + len b.
Proof.
  intros (S & H & Hs & _ & Hl & Ho & <-). unfold encbuf_size.
  rewrite Hs, Hl, len_app, len_render by (done || lia). lia.
Qed.

(** Opening a list, writing its elements and closing it adds the list encoding. *)
Lemma delta_list w w2 b :
  len b < 2 ^ 63 -> delta (list_ w).1 w2 b -> delta w (listEnd w2 (list_ w).2) (enc_list b).
Proof.
  intros Hb (S & H & Hs & Hh & Hl & Ho & Hr). simpl in *.
  assert (Hlen : len b = len S + hsum H) by (rewrite <- Hr, len_render by (done || lia); lia).
  assert (Hat : lheads w2 !! length (lheads w) = Some (Listhead (len (str w)) (lhsize w))).
  { rewrite Hh, <- app_assoc. by apply list_lookup_middle. }
  unfold listEnd. rewrite Hat. simpl.
  replace (encbuf_size w2 - len (str w) - lhsize w) with (len b)
    by (unfold encbuf_size; rewrite Hs, len_app; lia).
  pose proof (len_nonneg b).
  assert (Henc : listhead_encode (Listhead 0 (len b)) = header 0xC0 0xF7 (len b)).
  { unfold listhead_encode. simpl. rewrite u64_id by go_lia. apply puthead_header; lia. }
  exists S, (Listhead 0 (len b) :: H). simpl. split_and!.
  - done.
  - rewrite Hh, <- app_assoc. rewrite insert_app_r_alt by lia.
    rewrite Nat.sub_diag. unfold shift at 2. simpl. by rewrite Z.add_0_r.
  - rewrite Henc, len_header, Hl by lia. destruct (len b <? 56); lia.
  - lia.
  - done.
  - rewrite Henc, Hr. done.
Qed.

(** A buffer filled from [reset] flattens to what it renders to: no header is
    written past the end of the output and no byte is left over. *)
Lemma toBytes_loop_spec cap s H pos acc :
  0 <= pos -> heads_ok pos (len s) H -> cap - len acc = len (render s H pos) ->
  exists pos' acc', toBytes_loop cap s H pos acc = Ret (pos', acc') /\
    0 <= pos' <= len s /\ acc' ++ drop (Z.to_nat pos') s = acc ++ render s H pos.
Proof.
  revert pos acc. induction H as [|h H IH]; simpl; intros pos acc Hp Hok Hcap.
  { exists pos, acc. split_and!; done || lia. }
  destruct Hok as [Hle Hok]. pose proof (heads_ok_le _ _ _ Hok) as Hhi.
  rewrite (proj2 (Z.ltb_ge _ _)), (proj2 (Z.ltb_ge _ _)) by lia. simpl.
  set (piece := take _ _). set (e := listhead_encode h) in *.
  assert (Hpl : len piece = offset h - pos) by (subst piece; rewrite len_take, len_drop; lia).
  rewrite !len_app in Hcap. fold piece in Hcap.
  pose proof (len_nonneg (render s H (offset h))). pose proof (len_nonneg e).
  assert (Hcopy : copy_to cap acc piece = acc ++ piece).
  { unfold copy_to. rewrite take_ge; [done|]. unfold len in *. lia. }
  rewrite Hcopy, len_app. rewrite (proj2 (Z.ltb_ge _ _)) by lia.
  replace (pos + _) with (offset h) by lia.
  destruct (IH (offset h) ((acc ++ piece) ++ e)) as (p' & a' & -> & Hp' & Ha').
  - lia.
  - done.
  - rewrite !len_app. lia.
  - exists p', a'. split_and!; [done|lia|lia|]. by rewrite Ha', <- !app_assoc.
Qed.

Lemma toBytes_reset w b : delta reset w b -> toBytes w = Ret b.
Proof.
  intros Hd. pose proof (delta_len _ _ _ Hd) as Hlen.
  destruct Hd as (S & H & Hs & Hh & Hl & Ho & Hr). simpl in *.
  assert (Hh' : lheads w = H).
  { rewrite Hh. rewrite <- (map_id H) at 2. apply map_ext. by intros []. }
  unfold toBytes. rewrite Hs, Hh'. change (encbuf_size reset) with 0 in Hlen.
  destruct (toBytes_loop_spec (encbuf_size w) S H 0 []) as (p & a & -> & Hp & Ha).
  - lia.
  - done.
  - rewrite Hr, len_nil. lia.
  - rewrite (proj2 (Z.ltb_ge _ _)) by lia. simpl in Ha. rewrite Hr in Ha.
    assert (Hal : len a + len (drop (Z.to_nat p) S) = len b) by (rewrite <- Ha, len_app; lia).
    unfold copy_to. rewrite take_ge by (unfold len in *; lia). rewrite Ha, Hlen.
    replace (Z.to_nat _) with 0%nat by lia. simpl. by rewrite app_nil_r.
Qed.

(** The writer [wr] implements the reference [f] on [v]. *)
Definition writes_at (wr : writer) (f : val -> encoded) (v : val) : Prop := forall w,
  match f v with
  | Panic => wr v w = Panic
  | Ret (inl e) => exists w', wr v w = Ret (w', Some e)
  | Ret (inr b) => exists w', wr v w = Ret (w', None) /\ (len b < 2 ^ 63 -> delta w w' b)
  end.

Definition writes (wr : writer) (f : val -> encoded) : Prop := forall v, writes_at wr f v.

Lemma encodeStringHeader_delta w n :
  0 <= n < 2 ^ 63 -> encodeStringHeader w n = append_str w (header 0x80 0xB7 n).
Proof.
  intros Hn. rewrite <- puthead_header by lia. unfold encodeStringHeader, puthead.
  destruct (n <? 56) eqn:E; [done|]. by rewrite u64_id by go_lia.
Qed.

Lemma delta_string w b :
  len b < 2 ^ 63 -> delta w (append_str (encodeStringHeader w (len b)) b) (header 0x80 0xB7 (len b) ++ b).
Proof.
  intros Hb. pose proof (len_nonneg b). rewrite encodeStringHeader_delta by lia.
  eapply delta_trans; apply delta_append.
Qed.

Lemma len_enc_str b : len b <= len (enc_str b).
Proof.
  unfold enc_str. destruct b as [|x [|y b]]; [by apply len_nonneg| |];
    repeat case_match; rewrite ?len_app; unfold len; simpl; lia.
Qed.

Lemma delta_encodeString w b : len (enc_str b) < 2 ^ 63 -> delta w (encodeString w b) (enc_str b).
Proof.
  intros Hb. pose proof (len_enc_str b).
  pose proof (fun H => delta_string w b H) as Hd. unfold encodeString, enc_str in *.
  destruct b as [|x [|y b]]; [by apply Hd; unfold len; simpl; lia| |by apply Hd; lia].
  destruct (x <=? 127); [apply delta_append|]. apply Hd. unfold len. simpl. lia.
Qed.

Lemma writes_elems wr f vs : Forall (writes_at wr f) vs -> forall w,
  match enc_elems f vs with
  | Panic => write_elems wr vs w = Panic
  | Ret (inl e) => exists w', write_elems wr vs w = Ret (w', Some e)
  | Ret (inr b) => exists w', write_elems wr vs w = Ret (w', None) /\ (len b < 2 ^ 63 -> delta w w' b)
  end.
Proof.
  induction 1 as [|v vs Hw _ IH]; intros w; simpl; [eauto using delta_refl|].
  specialize (Hw w). destruct (f v) as [[e|b]|]; simpl.
  - destruct Hw as [w' ->]. eauto.
  - destruct Hw as (w1 & -> & Hd1). specialize (IH w1).
    destruct (enc_elems f vs) as [[e|c]|]; simpl; [by naive_solver| |done].
    destruct IH as (w2 & -> & Hd2). exists w2. split; [done|].
    rewrite len_app. pose proof (len_nonneg b). pose proof (len_nonneg c).
    intros. eapply delta_trans; [apply Hd1|apply Hd2]; lia.
  - by rewrite Hw.
Qed.

Lemma writes_fields wrs fs : Forall2 writes wrs fs -> forall vs w,
  match enc_fields fs vs with
  | Panic => write_fields wrs vs w = Panic
  | Ret (inl e) => exists w', write_fields wrs vs w = Ret (w', Some e)
  | Ret (inr b) => exists w', write_fields wrs vs w = Ret (w', None) /\ (len b < 2 ^ 63 -> delta w w' b)
  end.
Proof.
  induction 1 as [|wr f wrs fs Hw _ IH]; intros [|v vs] w; simpl; try done;
    [eauto using delta_refl|].
  specialize (Hw v w). destruct (f v) as [[e|b]|]; simpl.
  - destruct Hw as [w' ->]. eauto.
  - destruct Hw as (w1 & -> & Hd1). specialize (IH vs w1).
    destruct (enc_fields fs vs) as [[e|c]|]; simpl; [by naive_solver| |done].
    destruct IH as (w2 & -> & Hd2). exists w2. split; [done|].
    rewrite len_app. pose proof (len_nonneg b). pose proof (len_nonneg c).
    intros. eapply delta_trans; [apply Hd1|apply Hd2]; lia.
  - by rewrite Hw.
Qed.

Lemma len_enc_list b : len b <= len (enc_list b).
Proof. unfold enc_list. rewrite len_app. pose proof (len_nonneg (header 192 247 (len b))). lia. Qed.

Lemma writes_slice ts wr f vs : Forall (writes_at wr f) vs -> forall w,
  match as_list ts (enc_elems f vs) with
  | Panic => write_slice ts wr vs w = Panic
  | Ret (inl e) => exists w', write_slice ts wr vs w = Ret (w', Some e)
  | Ret (inr b) => exists w', write_slice ts wr vs w = Ret (w', None) /\ (len b < 2 ^ 63 -> delta w w' b)
  end.
Proof.
  intros Hw w. unfold as_list, write_slice. destruct (tail ts); [by apply writes_elems|].
  pose proof (writes_elems wr f vs Hw (list_ w).1) as He. simpl in *.
  destruct (enc_elems f vs) as [[e|b]|]; simpl.
  - destruct He as [w' ->]. eauto.
  - destruct He as (w' & -> & Hd). simpl. eexists. split; [done|].
    pose proof (len_enc_list b). intros. apply delta_list; [lia|]. apply Hd. lia.
  - by rewrite He.
Qed.

Lemma writes_struct wrs fs : Forall2 writes wrs fs -> forall vs w,
  match as_list notags (enc_fields fs vs) with
  | Panic => write_struct wrs vs w = Panic
  | Ret (inl e) => exists w', write_struct wrs vs w = Ret (w', Some e)
  | Ret (inr b) => exists w', write_struct wrs vs w = Ret (w', None) /\ (len b < 2 ^ 63 -> delta w w' b)
  end.
Proof.
  intros Hw vs w. unfold as_list, write_struct. simpl.
  pose proof (writes_fields wrs fs Hw vs (list_ w).1) as He. simpl in *.
  destruct (enc_fields fs vs) as [[e|b]|]; simpl.
  - destruct He as [w' ->]. simpl. eauto.
  - destruct He as (w' & -> & Hd). simpl. eexists. split; [done|].
    pose proof (len_enc_list b). intros. apply delta_list; [lia|]. apply Hd. lia.
  - by rewrite He.
Qed.

Lemma writeInterface_list vs w :
  writeInterface (VList vs) w = write_slice notags writeInterface vs w.
Proof.
  unfold write_slice. simpl. f_equal. generalize (Encbuf (str w)
    (lheads w ++ [Listhead (len (str w)) (lhsize w)]) (lhsize w)).
  induction vs as [|v vs IH]; intros w'; simpl; [done|].
  destruct (writeInterface v w') as [[w1 [e|]]|]; auto.
Qed.

Lemma enc_iface_list vs : enc_iface (VList vs) = as_list notags (enc_elems enc_iface vs).
Proof.
  unfold as_list. simpl. f_equal. induction vs as [|v vs IH]; simpl; [done|]. by rewrite IH.
Qed.

Lemma writes_interface : writes writeInterface enc_iface.
Proof.
  intros v. induction v as [| | |b|vs IH| |] using val_ind_elems; intros w; try done.
  - simpl. eexists. split; [done|]. apply delta_encodeString.
  - rewrite enc_iface_list, writeInterface_list. by apply writes_slice.
  - simpl. eexists. split; [done|]. intros _. apply delta_append.
Qed.

Lemma writes_uint : writes writeUint (enc (TUint 64) notags).
Proof.
  intros v w. destruct v; try done. simpl.
  pose proof (u64_range n) as Hr. generalize dependent (u64 n). clear n. intros n Hr.
  destruct (n =? 0) eqn:E; bool_to_prop.
  { subst. eexists. split; [done|]. intros _. apply delta_append. }
  destruct (n <? 128) eqn:E2; bool_to_prop; eexists; (split; [done|]); intros _.
  - replace (enc_str (big_Bytes n)) with [u8 n]; [apply delta_append|].
    unfold big_Bytes. rewrite Z.abs_eq, (byte_len_unique 1) by go_lia. simpl.
    rewrite Z.div_1_r. unfold u8. change (2 ^ 8) with 256. rewrite !Z.mod_small by go_lia.
    rewrite (proj2 (Z.leb_le _ _)) by lia. done.
  - replace (enc_str (big_Bytes n)) with (u8 (128 + u8 (len (putint n))) :: putint n);
      [apply delta_append|].
    rewrite putint_be_bytes by go_lia. pose proof (byte_len_le 8 n ltac:(go_lia)).
    unfold big_Bytes. rewrite Z.abs_eq by go_lia.
    destruct (decide (byte_len n = 1%nat)) as [H1|H1].
    + rewrite H1. simpl. rewrite Z.div_1_r. pose proof (byte_len_spec n ltac:(lia)) as Hs.
      rewrite H1 in Hs. change (Z.of_nat 1) with 1 in Hs. rewrite Z.mod_small by lia.
      by rewrite (proj2 (Z.leb_gt _ _)) by lia.
    + pose proof (byte_len_pos n ltac:(lia)). unfold enc_str.
      assert (Hl : len (be_bytes (byte_len n) n) = Z.of_nat (byte_len n)) by apply len_be_bytes.
      destruct (be_bytes (byte_len n) n) as [|x [|y b]] eqn:Eb.
      * rewrite len_nil in Hl. lia.
      * rewrite len_cons, len_nil in Hl. lia.
      * rewrite Hl. unfold header. rewrite (proj2 (Z.ltb_lt _ _)) by lia.
        unfold u8. rewrite (Z.mod_small (Z.of_nat _)), Z.mod_small by lia. done.
Qed.

(** Every writer [makeWriter] selects implements the reference encoding of its type. *)
Lemma makeWriter_writes t ts : writes (makeWriter t ts) (enc t ts).
Proof.
  revert ts. induction t as [|n| | | | |n|t IH|n t IH|fs IH|t IH|] using typ_ind_fields; intros ts v w.
  - destruct v; try done. simpl. eexists. split; [done|]. intros _. apply delta_append.
  - apply writes_uint.
  - destruct v as [|b| | | | |]; try done. simpl. eexists. split; [done|]. intros _.
    destruct b; apply delta_append.
  - destruct v as [| | |b| | |]; try done. pose proof (delta_encodeString w b) as Hd.
    simpl. exists (encodeString w b). split; [|done].
    by destruct b as [|x [|y b]]; simpl; repeat case_match.
  - destruct v as [| |[i|]| | | |]; try done; simpl.
    + unfold writeBigInt. destruct (i <? 0) eqn:E; [by eauto|]. destruct (i =? 0) eqn:E2.
      * apply Z.eqb_eq in E2 as ->. eexists. split; [done|]. intros _. apply delta_append.
      * eexists. split; [done|]. apply delta_encodeString.
    + eexists. split; [done|]. intros _. apply delta_append.
  - destruct v; try done. simpl. eexists. split; [done|]. apply delta_encodeString.
  - destruct v; try done. simpl. case_decide; [|done].
    eexists. split; [done|]. apply delta_encodeString.
  - destruct v as [| | | |vs| |]; try done. simpl.
    apply writes_slice, Forall_true. intros x. apply IH.
  - destruct v as [| | | |vs| |]; try done. simpl. case_decide; [|done].
    apply writes_slice, Forall_true. intros x. apply IH.
  - destruct v as [| | | |vs| |]; try done. apply writes_struct.
    induction IH as [|f fs Hf _ IHf]; simpl; constructor; auto.
  - destruct v as [| | | | |[v|]|]; try done; [by apply IH|].
    pose proof (IH notags (zero t) w) as IHz.
    destruct t as [| | | | | | | |k t|fs| |]; try exact IHz; simpl.
    + eexists. split; [done|]. intros _. apply delta_append.
    + eexists. split; [done|]. intros _. apply (delta_list w _ []); [done|apply delta_refl].
    + eexists. split; [done|]. intros _. apply (delta_list w _ []); [done|apply delta_refl].
  - apply writes_interface.
Qed.

Lemma EncodeToBytes_enc t v b :
  enc t notags v = Ret (inr b) -> len b < 2 ^ 63 -> EncodeToBytes t v = Ret (inr b).
Proof.
  intros He Hb. pose proof (makeWriter_writes t notags v reset) as Hw. rewrite He in Hw.
  destruct Hw as (w' & Hw & Hd). unfold EncodeToBytes. by rewrite Hw, (toBytes_reset w' b (Hd Hb)).
Qed.

(** [EncodeToBytes] computes the RLP encoding of its value: for every Go type
    covered by [makeWriter] and every value of it, the two-buffer encoder
    (string data and list headers kept apart, sizes patched at [listEnd], merged
    by [toBytes]) returns exactly the reference encoding, and it fails with the
    reference's error ([cannot encode negative big.Int]) otherwise; the merge
    never writes past its output. *)
Theorem rlp_encode_is_reference t v :
  match enc t notags v with
  | Panic => EncodeToBytes t v = Panic
  | Ret (inl e) => EncodeToBytes t v = Ret (inl e)
  | Ret (inr b) => len b < 2 ^ 63 -> EncodeToBytes t v = Ret (inr b)
  end.
Proof.
  pose proof (makeWriter_writes t notags v reset) as Hw.
  pose proof (EncodeToBytes_enc t v) as Hok. unfold EncodeToBytes in *.
  destruct (enc t notags v) as [[e|b]|]; [by destruct Hw as [w' ->]|by apply Hok|by rewrite Hw].
Qed.

End RlpEncodeProps.
