(* ===== verification/RlpDecode.v ===== *)
(** RLP decoder ([common/rlp/decode.go]): the [Stream] over a byte slice with its
    list stack and sticky kind, its reading operations, and the decoders that
    [makeDecoder] selects by reflection on the Go type.

    The reader is the [bytes.Reader] of [DecodeBytes]: [input] are the bytes not
    yet read. Decoding targets are zero values, as in [var x T; Decode(&x)]. *)

From S2P Require Import Prelude Params Bytes RlpEncode.

Module RlpStream.
Import Rlp.

Inductive Kind := Byte | String | List.
#[export] Instance Kind_eq_dec : EqDecision Kind.
Proof. solve_decision. Defined.

Record listpos := Listpos { lpos : Z; lsize : Z }.

(** [kind = None] is the source's [-1]; the innermost list is the head of [stack]. *)
Record Stream := MkStream {
  input : bytes;
  remaining : Z;
  limited : bool;
  kind : option Kind;
  ksize : Z;
  byteval : Z;
  kinderr : option rlp_error;
  stack : list listpos
}.

(** A stream operation returns an error or a value, and the stream it leaves. *)
Definition D (A : Type) : Type := Stream -> (rlp_error + A) * Stream.
Definition dret {A} (a : A) : D A := fun s => (inr a, s).
Definition derr {A} (e : rlp_error) : D A := fun s => (inl e, s).
Definition dbind {A B} (m : D A) (k : A -> D B) : D B := fun s =>
  match m s with
  | (inl e, s) => (inl e, s)
  | (inr a, s) => k a s
  end.

(** [Reset] and [NewStream] over a byte slice: the input limit is the given one,
    or the length of the slice when that is zero. *)
Definition NewStream (r : bytes) (inputLimit : Z) : Stream :=
  MkStream r (if 0 <? inputLimit then inputLimit else len r) true None 0 0 None [].

Definition set_kind (k : option Kind) (s : Stream) : Stream :=
  MkStream (input s) (remaining s) (limited s) k (ksize s) (byteval s) (kinderr s) (stack s).

Definition willRead (n : Z) : D () := fun s =>
  let s := set_kind None s in
  match stack s with
  | tos :: st =>
      if u64 (lsize tos - lpos tos) <? n then (inl ErrElemTooLarge, s)
      else
        let s := MkStream (input s) (remaining s) (limited s) (kind s) (ksize s) (byteval s)
                   (kinderr s) (Listpos (lpos tos + n) (lsize tos) :: st) in
        if limited s then
          if remaining s <? n then (inl ErrValueTooLarge, s)
          else (inr (), MkStream (input s) (remaining s - n) (limited s) (kind s) (ksize s)
                  (byteval s) (kinderr s) (stack s))
        else (inr (), s)
  | [] =>
      if limited s then
        if remaining s <? n then (inl ErrValueTooLarge, s)
        else (inr (), MkStream (input s) (remaining s - n) (limited s) (kind s) (ksize s)
                (byteval s) (kinderr s) (stack s))
      else (inr (), s)
  end.

Definition set_input (b : bytes) (s : Stream) : Stream :=
  MkStream b (remaining s) (limited s) (kind s) (ksize s) (byteval s) (kinderr s) (stack s).

(** [readFull] of [n] bytes: the bytes read. *)
Definition readFull (n : Z) : D bytes :=
  dbind (willRead n) (fun _ s =>
    if len (input s) <? n then (inl io_ErrUnexpectedEOF, set_input [] s)
    else (inr (take (Z.to_nat n) (input s)), set_input (drop (Z.to_nat n) (input s)) s)).

Definition readByte : D Z :=
  dbind (willRead 1) (fun _ s =>
    match input s with
    | [] => (inl io_ErrUnexpectedEOF, s)
    | b :: r => (inr b, set_input r s)
    end).

Definition readUint (size : Z) : D Z :=
  if size =? 0 then fun s => (inr 0, set_kind None s)
  else if size =? 1 then readByte
  else dbind (readFull size) (fun b =>
    if default 0 (head b) =? 0 then derr ErrCanonSize
    else dret (be_value (replicate (Z.to_nat (8 - size)) 0 ++ b))).

Definition set_byteval (b : Z) (s : Stream) : Stream :=
  MkStream (input s) (remaining s) (limited s) (kind s) (ksize s) b (kinderr s) (stack s).

(** The two long forms of [readKind]: [n] bytes of size information follow the tag. *)
Definition readSized (k : Kind) (n : Z) (s : Stream) : (Kind * Z * option rlp_error) * Stream :=
  match readUint n s with
  | (inl e, s) => ((k, 0, Some e), s)
  | (inr size, s) => ((k, size, if size <? 56 then Some ErrCanonSize else None), s)
  end.

(** [readKind] returns kind and size even with an error; both are stored by [Kind]. *)
Definition readKind (s : Stream) : (Kind * Z * option rlp_error) * Stream :=
  match readByte s with
  | (inl err, s) =>
      let err := match stack s with
                 | [] => match err with io_ErrUnexpectedEOF | ErrValueTooLarge => io_EOF | e => e end
                 | _ => err
                 end in
      ((Byte, 0, Some err), s)
  | (inr b, s) =>
      let s := set_byteval 0 s in
      if b <? 0x80 then ((Byte, 0, None), set_byteval b s)
      else if b <? 0xB8 then ((String, b - 0x80, None), s)
      else if b <? 0xC0 then readSized String (b - 0xB7) s
      else if b <? 0xF8 then ((List, b - 0xC0, None), s)
      else readSized List (b - 0xF7) s
  end.

(** [Stream.Kind]: reads the next tag unless one is already ahead. *)
Definition StreamKind : D (Kind * Z) := fun s =>
  match kind s with
  | Some k =>
      match kinderr s with
      | None => (inr (k, ksize s), s)
      | Some e => (inl e, s)
      end
  | None =>
      let tos := head (stack s) in
      let s := MkStream (input s) (remaining s) (limited s) None (ksize s) (byteval s) None (stack s) in
      if match tos with Some t => lpos t =? lsize t | None => false end then (inl EOL, s)
      else
        let '((k, size, err), s') := readKind s in
        let err :=
          match err with
          | Some e => Some e
          | None =>
              match head (stack s') with
              | None => if limited s' && (remaining s' <? size) then Some ErrValueTooLarge else None
              | Some t => if u64 (lsize t - lpos t) <? size then Some ErrElemTooLarge else None
              end
          end in
        let s' := MkStream (input s') (remaining s') (limited s') (Some k) size (byteval s') err (stack s') in
        match err with
        | None => (inr (k, size), s')
        | Some e => (inl e, s')
        end
  end.

(** [s.kind = -1] *)
Definition rearm : D () := fun s => (inr (), set_kind None s).

(** [Stream.Bytes] *)
Definition StreamBytes : D bytes :=
  dbind StreamKind (fun '(k, size) =>
    match k with
    | Byte => dbind rearm (fun _ s => (inr [byteval s], s))
    | String =>
        dbind (readFull size) (fun b =>
          if (size =? 1) && (default 0 (head b) <? 128) then derr ErrCanonSize else dret b)
    | List => derr ErrExpectedString
    end).

(** [Stream.Raw] *)
Definition StreamRaw : D bytes :=
  dbind StreamKind (fun '(k, size) =>
    match k with
    | Byte => dbind rearm (fun _ s => (inr [byteval s], s))
    | String => dbind (readFull size) (fun b => dret (puthead 0x80 0xB7 size ++ b))
    | List => dbind (readFull size) (fun b => dret (puthead 0xC0 0xF7 size ++ b))
    end).

(** [Stream.uint] *)
Definition Stream_uint (maxbits : Z) : D Z :=
  dbind StreamKind (fun '(k, size) =>
    match k with
    | Byte => fun s =>
        if byteval s =? 0 then (inl ErrCanonInt, s)
        else (inr (byteval s), set_kind None s)
    | String =>
        if maxbits / 8 <? size then derr errUintOverflow
        else fun s =>
          match readUint size s with
          | (inl ErrCanonSize, s) => (inl ErrCanonInt, s)
          | (inl e, s) => (inl e, s)
          | (inr v, s) => if (0 <? size) && (v <? 128) then (inl ErrCanonSize, s) else (inr v, s)
          end
    | List => derr ErrExpectedString
    end).

(** [Stream.Bool] *)
Definition StreamBool : D bool :=
  dbind (Stream_uint 8) (fun num =>
    if num =? 0 then dret false else if num =? 1 then dret true else derr ErrInvalidBool).

(** [Stream.List] *)
Definition StreamList : D Z :=
  dbind StreamKind (fun '(k, size) =>
    match k with
    | List => fun s =>
        (inr size, MkStream (input s) (remaining s) (limited s) None 0 (byteval s) (kinderr s)
                     (Listpos 0 size :: stack s))
    | _ => derr ErrExpectedList
    end).

(** [Stream.ListEnd] *)
Definition ListEnd : D () := fun s =>
  match stack s with
  | [] => (inl errNotInList, s)
  | tos :: st =>
      if negb (lpos tos =? lsize tos) then (inl errNotAtEOL, s)
      else
        let st := match st with
                  | t :: st => Listpos (lpos t + lsize tos) (lsize t) :: st
                  | [] => []
                  end in
        (inr (), MkStream (input s) (remaining s) (limited s) None 0 (byteval s) (kinderr s) st)
  end.

(** ** Decoders *)

Definition decoder := D val.
Definition dmap {A B} (f : A -> B) (m : D A) : D B := dbind m (fun a => dret (f a)).

Definition decodeRawValue : decoder := dmap VBytes StreamRaw.
Definition decodeUint (bits : Z) : decoder := dmap VUint (Stream_uint bits).
Definition decodeBool : decoder := dmap VBool StreamBool.
Definition decodeString : decoder := dmap VBytes StreamBytes.
Definition decodeByteSlice : decoder := dmap VBytes StreamBytes.

Definition decodeBigInt : decoder :=
  dbind StreamBytes (fun b =>
    match b with
    | x :: _ => if x =? 0 then derr ErrCanonInt else dret (VBig (Some (be_value b)))
    | [] => dret (VBig (Some (be_value b)))
    end).

Definition decodeByteArray (vlen : nat) : decoder :=
  dbind StreamKind (fun '(k, size) =>
    match k with
    | Byte =>
        if (vlen =? 0)%nat then derr ErrTooLong
        else if (1 <? vlen)%nat then derr ErrTooShort
        else fun s =>
          (* bv, _ := s.Uint(): the error is dropped and bv is 0 then *)
          match Stream_uint 64 s with
          | (inl _, s) => (inr (VBytes [u8 0]), s)
          | (inr bv, s) => (inr (VBytes [u8 bv]), s)
          end
    | String =>
        if Z.of_nat vlen <? size then derr ErrTooLong
        else if size <? Z.of_nat vlen then derr ErrTooShort
        else dbind (readFull (Z.of_nat vlen)) (fun b =>
          if (size =? 1) && (default 0 (head b) <? 128) then derr ErrCanonSize
          else dret (VBytes b))
    | List => derr ErrExpectedString
    end).

(** [decodeSliceElems]: elements until the decoder reports the end of the list. *)
Fixpoint decodeSliceElems (elemdec : decoder) (fuel : nat) : D (list val) :=
  match fuel with
  | O => derr OutOfFuel
  | S fuel => fun s =>
      match elemdec s with
      | (inl EOL, s) => (inr [], s)
      | (inl e, s) => (inl e, s)
      | (inr v, s) => dmap (cons v) (decodeSliceElems elemdec fuel) s
      end
  end.

Definition decodeListSlice (elemdec : decoder) (fuel : nat) : decoder :=
  dbind StreamList (fun size =>
    if size =? 0 then dbind ListEnd (fun _ => dret (VList []))
    else dbind (decodeSliceElems elemdec fuel) (fun vs => dbind ListEnd (fun _ => dret (VList vs)))).

(** The element loop of [decodeListArray]. *)
Fixpoint decodeArrayElems (elemdec : decoder) (n : nat) : D (list val) :=
  match n with
  | O => dret []
  | S n => fun s =>
      match elemdec s with
      | (inl EOL, s) => (inl ErrTooFewElements, s)
      | (inl e, s) => (inl e, s)
      | (inr v, s) => dmap (cons v) (decodeArrayElems elemdec n) s
      end
  end.

Definition decodeListArray (elemdec : decoder) (n : nat) : decoder :=
  dbind StreamList (fun _ =>
    dbind (decodeArrayElems elemdec n) (fun vs => dbind ListEnd (fun _ => dret (VList vs)))).

(** The field loop of [makeStructDecoder]. *)
Fixpoint decodeFields (decs : list decoder) : D (list val) :=
  match decs with
  | [] => dret []
  | dec :: decs => fun s =>
      match dec s with
      | (inl EOL, s) => (inl ErrTooFewElements, s)
      | (inl e, s) => (inl e, s)
      | (inr v, s) => dmap (cons v) (decodeFields decs) s
      end
  end.

Definition decodeStruct (decs : list decoder) : decoder :=
  dbind StreamList (fun _ =>
    dbind (decodeFields decs) (fun vs => dbind ListEnd (fun _ => dret (VList vs)))).

Definition decodePtr (dec : decoder) : decoder := dmap (fun v => VPtr (Some v)) dec.

(** The decoder of [makeOptionalPtrDecoder]. *)
Definition decodeOptionalPtr (dec : decoder) : decoder := fun s =>
  match StreamKind s with
  | (inl e, s) => (inl e, set_kind None s)
  | (inr (k, size), s) =>
      if (size =? 0) && negb (bool_decide (k = Byte)) then (inr (VPtr None), set_kind None s)
      else decodePtr dec s
  end.

(** [decodeInterface]; [fuel] bounds the nesting depth, [n] the list loops. *)
Fixpoint decodeInterface (n fuel : nat) : decoder :=
  match fuel with
  | O => derr OutOfFuel
  | S fuel =>
      dbind StreamKind (fun '(k, _) =>
        match k with
        | List => decodeListSlice (decodeInterface n fuel) n
        | _ => dmap VBytes StreamBytes
        end)
  end.

(** [makeDecoder]; [n] is the fuel of the loops that the input bounds. *)
Fixpoint makeDecoder (n : nat) (t : typ) (ts : tags) : decoder :=
  match t with
  | TRaw => decodeRawValue
  | TBig => decodeBigInt
  | TUint bits => decodeUint bits
  | TBool => decodeBool
  | TString => decodeString
  | TBytes => decodeByteSlice
  | TByteArray k => decodeByteArray k
  | TSlice t =>
      if tail ts then dmap VList (decodeSliceElems (makeDecoder n t notags) n)
      else decodeListSlice (makeDecoder n t notags) n
  | TArray k t => decodeListArray (makeDecoder n t notags) k
  | TStruct fs => decodeStruct (map (fun f => makeDecoder n (fst f) (snd f)) fs)
  | TPtr t =>
      if nilOK ts then decodeOptionalPtr (makeDecoder n t notags)
      else decodePtr (makeDecoder n t notags)
  | TInterface => decodeInterface n n
  end.

(** [Decode] from a [bytes.Reader]: one value; what follows it is not looked at. *)
Definition Decode (t : typ) (b : bytes) : rlp_error + val :=
  fst (makeDecoder (S (length b)) t notags (NewStream b 0)).

(** [DecodeBytes]: exactly one value and no trailing data. *)
Definition DecodeBytes (t : typ) (b : bytes) : rlp_error + val :=
  match makeDecoder (S (length b)) t notags (NewStream b (len b)) with
  | (inl e, _) => inl e
  | (inr v, s) => if 0 <? len (input s) then inl ErrMoreThanOneValue else inr v
  end.

End RlpStream.

(** ** Reading primitives, in both directions *)

Module RlpStreamProps.
Import Rlp RlpRef RlpEncodeProps RlpStream.

(** The innermost list, if any, has room for [n] more bytes. *)
Definition room (st : list listpos) (n : Z) : Prop :=
  match st with [] => True | t :: _ => lpos t + n <= lsize t end.

Definition bump (n : Z) (st : list listpos) : list listpos :=
  match st with [] => [] | t :: st => Listpos (lpos t + n) (lsize t) :: st end.

(** Streams over a byte slice, as [DecodeBytes] makes them. *)
Record wf (s : Stream) : Prop := {
  wf_limited : limited s = true;
  wf_remaining : remaining s = len (input s);
  wf_bytes : is_bytes (input s);
  wf_small : len (input s) < 2 ^ 63;
  wf_stack : match stack s with [] => True | t :: _ => 0 <= lpos t <= lsize t /\ lsize t < 2 ^ 64 end
}.

(** [step s b s']: reading consumed exactly [b]. *)
Record step (s : Stream) (b : bytes) (s' : Stream) : Prop := {
  step_input : input s = b ++ input s';
  step_limited : limited s' = true;
  step_remaining : remaining s' = len (input s');
  step_room : room (stack s) (len b);
  step_stack : stack s' = bump (len b) (stack s)
}.

Lemma step_wf s b s' : wf s -> step s b s' -> wf s'.
Proof.
  intros [? ? Hb Hs Hst] [Hi ? ? Hr Hst']. rewrite Hi in Hb, Hs. apply Forall_app in Hb as [? ?].
  rewrite len_app in Hs. pose proof (len_nonneg b). split; try done; [lia|].
  rewrite Hst'. destruct (stack s) as [|t st]; simpl in *; [done|]. lia.
Qed.

Lemma step_bytes s b s' : wf s -> step s b s' -> is_bytes b.
Proof. intros [? ? Hb _ _] [Hi _ _ _ _]. rewrite Hi in Hb. by apply Forall_app in Hb as [? _]. Qed.

Lemma bump_bump n m st : bump m (bump n st) = bump (n + m) st.
Proof. destruct st; simpl; [done|]. do 2 f_equal. lia. Qed.

Lemma step_trans s1 b s2 c s3 : step s1 b s2 -> step s2 c s3 -> step s1 (b ++ c) s3.
Proof.
  intros [Hi1 ? ? Hr1 Hs1] [Hi2 ? ? Hr2 Hs2]. split; try done.
  - by rewrite Hi1, Hi2, app_assoc.
  - rewrite len_app. rewrite Hs1 in Hr2. destruct (stack s1); simpl in *; [done|]. lia.
  - by rewrite Hs2, Hs1, bump_bump, len_app.
Qed.

(** The fields of the cached tag do not matter for a step. *)
Lemma step_same s b s1 s2 :
  input s1 = input s2 -> limited s1 = limited s2 -> remaining s1 = remaining s2 ->
  stack s1 = stack s2 -> step s b s1 -> step s b s2.
Proof. intros Hi Hl Hr Hs []. split; congruence. Qed.

Lemma step_from s1 s2 b s' :
  input s1 = input s2 -> stack s1 = stack s2 -> step s1 b s' -> step s2 b s'.
Proof. intros Hi Hs []. split; congruence. Qed.

Lemma wf_same s1 s2 :
  input s1 = input s2 -> limited s1 = limited s2 -> remaining s1 = remaining s2 ->
  stack s1 = stack s2 -> wf s1 -> wf s2.
Proof. intros Hi Hl Hr Hs []. split; try congruence. by rewrite <- Hs. Qed.

Lemma step_nil s : wf s -> step s [] s.
Proof.
  intros [? ? ? ? Hst]. split; try done; destruct (stack s) as [|[p z] st]; simpl in *;
    rewrite ?len_nil, ?Z.add_0_r; try done. lia.
Qed.

Lemma u64_diff p z : 0 <= p <= z -> z < 2 ^ 64 -> u64 (z - p) = z - p.
Proof. intros. apply u64_id. go_lia. Qed.

Lemma willRead_inv n s s' : wf s -> 0 <= n -> willRead n s = (inr (), s') ->
  n <= len (input s) /\ room (stack s) n /\
  s' = MkStream (input s) (len (input s) - n) true None (ksize s) (byteval s) (kinderr s) (bump n (stack s)).
Proof.
  intros [Hl Hr _ _ Hst] Hn. unfold willRead. simpl. rewrite Hl, Hr.
  destruct (stack s) as [|[p z] st]; simpl in *.
  - destruct (len (input s) <? n) eqn:E; intros [= <-]. bool_to_prop. done.
  - rewrite u64_diff by lia. destruct (z - p <? n) eqn:E1; [done|].
    destruct (len (input s) <? n) eqn:E; intros [= <-]. bool_to_prop. split_and!; [lia|lia|done].
Qed.

Lemma willRead_fwd n s : wf s -> n <= len (input s) -> room (stack s) n ->
  willRead n s = (inr (), MkStream (input s) (len (input s) - n) true None (ksize s) (byteval s)
                    (kinderr s) (bump n (stack s))).
Proof.
  intros [Hl Hr _ _ Hst] Hn Hro. unfold willRead. simpl. rewrite Hl, Hr.
  destruct (stack s) as [|[p z] st]; simpl in *.
  - by rewrite (proj2 (Z.ltb_ge _ _)) by lia.
  - rewrite u64_diff, (proj2 (Z.ltb_ge _ _)) by lia. by rewrite (proj2 (Z.ltb_ge _ _)) by lia.
Qed.

(** The stream left by reading [b], the rest of the input being [r]. *)
Definition after (s : Stream) (b r : bytes) : Stream :=
  MkStream r (len r) true None (ksize s) (byteval s) (kinderr s) (bump (len b) (stack s)).

Lemma after_step s b r : input s = b ++ r -> room (stack s) (len b) -> step s b (after s b r).
Proof. intros Hi Hr. by split. Qed.

Lemma readFull_inv n s b s' : wf s -> 0 <= n -> readFull n s = (inr b, s') ->
  len b = n /\ s' = after s b (input s') /\ step s b s'.
Proof.
  intros Hw Hn. unfold readFull, dbind. destruct (willRead n s) as [[e|[]] s1] eqn:Ew; [done|].
  apply willRead_inv in Ew as (Hle & Hro & ->); [|done..]. simpl.
  rewrite (proj2 (Z.ltb_ge _ _)) by done. intros [= <- <-].
  assert (Hlb : len (take (Z.to_nat n) (input s)) = n) by (rewrite len_take; lia).
  assert (Hi : input s = take (Z.to_nat n) (input s) ++ drop (Z.to_nat n) (input s))
    by (by rewrite take_drop).
  split_and!; [done| |].
  - unfold after, set_input. simpl. rewrite Hlb, len_drop. f_equal. lia.
  - apply (step_same _ _ (after s (take (Z.to_nat n) (input s)) (drop (Z.to_nat n) (input s))));
      try done; [unfold after, set_input; simpl; rewrite len_drop; lia
                |unfold after; simpl; by rewrite Hlb|].
    apply after_step; [done|]. by rewrite Hlb.
Qed.

Lemma readFull_fwd n s b r : wf s -> input s = b ++ r -> len b = n -> room (stack s) n ->
  readFull n s = (inr b, after s b r).
Proof.
  intros Hw Hi <- Hro. unfold readFull, dbind.
  rewrite willRead_fwd by (try done; rewrite Hi, len_app; pose proof (len_nonneg r); lia). simpl.
  rewrite Hi, len_app, (proj2 (Z.ltb_ge _ _)) by (pose proof (len_nonneg r); lia).
  unfold len at 1 2 3. rewrite Nat2Z.id, take_app_length, drop_app_length.
  unfold set_input, after. simpl. do 2 f_equal. unfold len. lia.
Qed.

Lemma readByte_inv s b s' : wf s -> readByte s = (inr b, s') ->
  s' = after s [b] (input s') /\ step s [b] s'.
Proof.
  intros Hw. unfold readByte, dbind. destruct (willRead 1 s) as [[e|[]] s1] eqn:Ew; [done|].
  apply willRead_inv in Ew as (Hle & Hro & ->); [|done..]. simpl.
  destruct (input s) as [|x r] eqn:Ei; [done|]. intros [= <- <-].
  assert (set_input r (MkStream (x :: r) (len (x :: r) - 1) true None (ksize s) (byteval s)
    (kinderr s) (bump 1 (stack s))) = after s [x] r) as ->.
  { unfold set_input, after. simpl. f_equal. rewrite len_cons. lia. }
  split; [done|]. by apply after_step.
Qed.

Lemma readByte_fwd s b r : wf s -> input s = b :: r -> room (stack s) 1 ->
  readByte s = (inr b, after s [b] r).
Proof.
  intros Hw Hi Hro. unfold readByte, dbind. pose proof (len_nonneg r).
  rewrite willRead_fwd by (try done; rewrite Hi, len_cons; lia). simpl. rewrite Hi.
  unfold set_input, after. simpl. do 2 f_equal. rewrite len_cons. lia.
Qed.

Lemma after_wf s b r : wf s -> input s = b ++ r -> room (stack s) (len b) -> wf (after s b r).
Proof. intros Hw Hi Hr. eapply step_wf; [done|]. by apply after_step. Qed.

Lemma readUint_inv k s v s' : wf s -> 1 <= k <= 8 -> readUint k s = (inr v, s') ->
  exists b, len b = k /\ v = be_value b /\ s' = after s b (input s') /\ step s b s' /\
    (2 <= k -> head b <> Some 0).
Proof.
  intros Hw Hk. unfold readUint. rewrite (proj2 (Z.eqb_neq _ _)) by lia.
  destruct (k =? 1) eqn:E; bool_to_prop.
  - subst k. intros Hr. pose proof (readByte_inv _ _ _ Hw Hr) as [Ha Hs]. exists [v].
    by split_and!.
  - unfold dbind. destruct (readFull k s) as [[e|b] s1] eqn:Er; [done|].
    apply readFull_inv in Er as (Hl & Ha & Hs); [|done|lia].
    destruct (default 0 (head b) =? 0) eqn:Eh; [done|]. intros [= <- <-].
    exists b. rewrite be_value_zeros. split_and!; try done.
    intros _ Hh. by rewrite Hh in Eh.
Qed.

Lemma readUint_fwd k s b r : wf s -> 1 <= k <= 8 -> input s = b ++ r -> len b = k ->
  room (stack s) k -> (2 <= k -> head b <> Some 0) ->
  readUint k s = (inr (be_value b), after s b r).
Proof.
  intros Hw Hk Hi Hl Hr Hh. unfold readUint. rewrite (proj2 (Z.eqb_neq _ _)) by lia.
  destruct (k =? 1) eqn:E; bool_to_prop.
  - subst k. destruct b as [|x [|y b]]; [done| |rewrite !len_cons in E; pose proof (len_nonneg b); lia].
    rewrite (readByte_fwd s x r) by (done || by rewrite <- E). done.
  - unfold dbind. rewrite (readFull_fwd k s b r) by done.
    destruct b as [|x b]; [rewrite len_nil in Hl; lia|]. simpl.
    rewrite (proj2 (Z.eqb_neq _ _)); [by rewrite be_value_zeros|].
    intros ->. by apply Hh; [lia|].
Qed.

(** The tag [b] announces a value of kind [k] and size [n]. *)
Definition tag (k : Kind) (n : Z) (b : bytes) (bv : Z) : Prop :=
  match k with
  | Byte => n = 0 /\ b = [bv] /\ 0 <= bv < 128
  | String => b = header 0x80 0xB7 n /\ 0 <= n < 2 ^ 64
  | List => b = header 0xC0 0xF7 n /\ 0 <= n < 2 ^ 64
  end.

Lemma header_large_inv large n b :
  is_bytes b -> 1 <= len b <= 8 -> n = be_value b -> 56 <= n -> (2 <= len b -> head b <> Some 0) ->
  header 0 large n = large + len b :: b /\ n < 2 ^ 64.
Proof.
  intros Hb Hl -> Hn Hh. unfold header. rewrite (proj2 (Z.ltb_ge _ _)) by lia.
  pose proof (be_value_bound b Hb) as [_ Hub].
  assert (Hh' : head b <> Some 0).
  { destruct b as [|x [|y b]]; [done| |apply Hh; rewrite !len_cons; pose proof (len_nonneg b); lia].
    intros [= ->]. change (be_value [0]) with 0 in Hn. lia. }
  pose proof (big_Bytes_be_value b Hb Hh') as Hbb. unfold big_Bytes in Hbb.
  rewrite Z.abs_eq in Hbb by lia. split.
  - assert (Z.of_nat (byte_len (be_value b)) = len b) as -> by (rewrite <- Hbb at 2; by rewrite len_be_bytes).
    by rewrite Hbb.
  - eapply Z.lt_le_trans; [exact Hub|]. change (2 ^ 64) with (256 ^ 8). apply Z.pow_le_mono_r; lia.
Qed.

Lemma header_small small small' large n : 56 <= n -> header small large n = header small' large n.
Proof. intros. unfold header. by rewrite (proj2 (Z.ltb_ge _ _)) by lia. Qed.

Lemma readSized_inv kd sz s k n s' : wf s -> 1 <= sz <= 8 -> readSized kd sz s = ((k, n, None), s') ->
  k = kd /\ 56 <= n < 2 ^ 64 /\ kind s' = None /\
  exists c, step s c s' /\ forall large, header 0 large n = large + sz :: c.
Proof.
  intros Hw Hsz. unfold readSized. destruct (readUint sz s) as [[e|v] s3] eqn:Eu; [done|].
  apply readUint_inv in Eu as (c & Hl & -> & Ha3 & Hs3 & Hh); [|done|done].
  destruct (be_value c <? 56) eqn:E56; [done|]. bool_to_prop. intros [= -> <- <-].
  assert (Hhd : forall large, header 0 large (be_value c) = large + len c :: c /\ be_value c < 2 ^ 64).
  { intros large. apply header_large_inv; [by eapply step_bytes|lia|done|lia|by rewrite Hl]. }
  split_and!; [done|lia|apply (Hhd 0)|by rewrite Ha3|].
  exists c. split; [done|]. intros large. rewrite <- Hl. apply Hhd.
Qed.

Lemma readKind_inv s k n s' : wf s -> readKind s = ((k, n, None), s') ->
  exists b, step s b s' /\ kind s' = None /\ tag k n b (byteval s').
Proof.
  intros Hw. unfold readKind. destruct (readByte s) as [[e|b] s1] eqn:Eb; [done|].
  pose proof (readByte_inv _ _ _ Hw Eb) as [Ha Hs1].
  pose proof (step_bytes _ _ _ Hw Hs1) as [Hb _]%Forall_cons. unfold is_byte in Hb.
  pose proof (step_wf _ _ _ Hw Hs1) as Hw1.
  set (s2 := set_byteval 0 s1).
  assert (Hw2 : wf s2) by (by apply (wf_same s1)).
  assert (Hs2 : step s [b] s2) by (by apply (step_same _ _ s1)).
  assert (Hk2 : kind s2 = None) by (unfold s2; rewrite Ha; done).
  assert (Hshort : forall small large n, b = small + n -> 0 <= n < 56 -> [b] = header small large n).
  { intros small large m -> Hm. unfold header. by rewrite (proj2 (Z.ltb_lt _ _)) by lia. }
  assert (Hlong : forall kd small large, 1 <= b - large <= 8 ->
    readSized kd (b - large) s2 = ((k, n, None), s') ->
    k = kd /\ 0 <= n < 2 ^ 64 /\ kind s' = None /\
    exists c, step s c s' /\ c = header small large n).
  { intros kd small large Hl Hr. apply readSized_inv in Hr as (-> & Hn & Hkd & c & Hst & Hhd); [|done|done].
    split_and!; [done|lia|lia|done|]. exists ([b] ++ c). split; [by eapply step_trans|].
    rewrite (header_small small 0), Hhd by lia. simpl. f_equal. lia. }
  destruct (b <? 128) eqn:E1; bool_to_prop.
  { intros [= <- <- <-]. exists [b].
    split_and!; [by apply (step_same _ _ s2)|done|]. simpl. split_and!; done || lia. }
  destruct (b <? 184) eqn:E2; bool_to_prop.
  { intros [= <- <- <-]. exists [b]. split_and!; [done|done|]. split; [apply Hshort; lia|lia]. }
  destruct (b <? 192) eqn:E3; bool_to_prop.
  { intros Hr. destruct (Hlong String 128 183) as (-> & Hn & Hkd & c & Hst & Hc); [lia|done|].
    exists c. by split_and!. }
  destruct (b <? 248) eqn:E4; bool_to_prop.
  { intros [= <- <- <-]. exists [b]. split_and!; [done|done|]. split; [apply Hshort; lia|lia]. }
  intros Hr. destruct (Hlong List 192 247) as (-> & Hn & Hkd & c & Hst & Hc); [lia|done|].
  exists c. by split_and!.
Qed.

(** [ahead s k n]: the tag of the next value was read. *)
Record ahead (s : Stream) (k : Kind) (n : Z) : Prop := {
  ahead_kind : kind s = Some k;
  ahead_size : ksize s = n;
  ahead_err : kinderr s = None;
  ahead_room : room (stack s) n
}.

Lemma StreamKind_ahead s k n : ahead s k n -> StreamKind s = (inr (k, n), s).
Proof. intros [Hk Hn He _]. unfold StreamKind. by rewrite Hk, He, Hn. Qed.

Lemma StreamKind_inv s k n s' : wf s -> kind s = None -> StreamKind s = (inr (k, n), s') ->
  ahead s' k n /\ (stack s' = [] -> n <= len (input s')) /\
  exists b, step s b s' /\ tag k n b (byteval s').
Proof.
  intros Hw Hk. unfold StreamKind. rewrite Hk. simpl.
  destruct (match head (stack s) with Some t => lpos t =? lsize t | None => false end); [done|].
  set (s0 := MkStream _ _ _ _ _ _ _ _).
  assert (Hw0 : wf s0) by (by apply (wf_same s)).
  destruct (readKind s0) as [[[k' n'] [e|]] s1] eqn:Er; [done|].
  apply readKind_inv in Er as (b & Hs & Hk1 & Ht); [|done].
  pose proof (step_wf _ _ _ Hw0 Hs) as Hw1. pose proof Hw1 as [Hl1 Hr1 _ _ Hst1].
  destruct (stack s1) as [|[p z] st] eqn:Est; simpl in *.
  - rewrite Hl1, Hr1. simpl. destruct (len (input s1) <? n') eqn:El; [done|]. intros [= <- <- <-].
    split_and!; [by split|by intros; bool_to_prop|].
    exists b. split; [|done]. apply (step_from s0); [done..|].
    apply (step_same _ _ s1); try done; simpl; by rewrite ?Hl1, ?Hr1.
  - rewrite u64_diff by lia. destruct (z - p <? n') eqn:El; [done|]. intros [= <- <- <-].
    bool_to_prop. split_and!; [split; simpl; try done; lia|done|].
    exists b. split; [|done]. apply (step_from s0); [done..|].
    by apply (step_same _ _ s1).
Qed.

Lemma header_large_fwd n : 56 <= n < 2 ^ 64 ->
  let c := be_bytes (byte_len n) n in
  1 <= len c <= 8 /\ be_value c = n /\ head c <> Some 0 /\
  forall small large, header small large n = large + len c :: c.
Proof.
  intros Hn. simpl. pose proof (byte_len_le 8 n ltac:(lia)). pose proof (byte_len_pos n ltac:(lia)).
  pose proof (byte_len_spec n ltac:(lia)).
  rewrite len_be_bytes, be_value_be_bytes, Z.mod_small by lia. split_and!; [lia|lia|done| |].
  - pose proof (big_Bytes_head n) as Hh. unfold big_Bytes in Hh. by rewrite Z.abs_eq in Hh by lia.
  - intros. unfold header. by rewrite (proj2 (Z.ltb_ge _ _)) by lia.
Qed.

Lemma readKind_fwd s k n b bv r : wf s -> tag k n b bv -> input s = b ++ r ->
  room (stack s) (len b) -> exists s', readKind s = ((k, n, None), s') /\
    step s b s' /\ kind s' = None /\ (k = Byte -> byteval s' = bv).
Proof.
  intros Hw Ht Hi Hro. unfold readKind.
  assert (Hshort : forall x, b = [x] -> readByte s = (inr x, after s [x] r)).
  { intros x ->. by apply readByte_fwd. }
  assert (Hlong : forall kd small large, b = header small large n -> 56 <= n < 2 ^ 64 ->
    exists x s1 s', b = x :: be_bytes (byte_len n) n /\ 1 <= x - large <= 8 /\
      readByte s = (inr x, s1) /\
      readSized kd (x - large) (set_byteval 0 s1) = ((kd, n, None), s') /\ step s b s' /\ kind s' = None).
  { intros kd small large -> Hn. destruct (header_large_fwd n Hn) as (Hl & Hv & Hh & Hhd).
    rewrite Hhd in *. set (c := be_bytes (byte_len n) n) in *.
    rewrite len_cons in Hro.
    assert (Hr1 : room (stack s) 1) by (destruct (stack s); simpl in *; [done|lia]).
    exists (large + len c). eexists. eexists. split_and!; [done|lia|lia|by apply readByte_fwd| | |].
    3: shelve.
    - set (s1 := set_byteval _ _).
      assert (Hs1 : step s [large + len c] s1) by (by split).
      pose proof (step_wf _ _ _ Hw Hs1) as Hw1.
      unfold readSized. rewrite (readUint_fwd _ s1 c r); [|done|lia|done|lia| |done].
      + rewrite Hv. rewrite (proj2 (Z.ltb_ge _ _)) by lia. reflexivity.
      + replace (large + len c - large) with (len c) by lia.
        rewrite (step_stack _ _ _ Hs1). change (len [large + len c]) with 1.
        destruct (stack s); simpl in *; [done|lia].
    - split; simpl; try done; rewrite ?bump_bump, !len_cons, ?len_nil, ?Z.add_0_r; done.
    Unshelve. all: done. }
  destruct k; simpl in Ht.
  - destruct Ht as (-> & -> & Hbv). rewrite (Hshort bv) by done.
    rewrite (proj2 (Z.ltb_lt _ _)) by lia. eexists. split; [done|]. by split_and!.
  - destruct Ht as (-> & Hn). destruct (decide (n < 56)) as [Hlt|Hge].
    + unfold header in *. rewrite (proj2 (Z.ltb_lt _ _)) in * by lia.
      rewrite (Hshort (128 + n)) by done.
      rewrite (proj2 (Z.ltb_ge _ _)), (proj2 (Z.ltb_lt _ _)) by lia.
      replace (128 + n - 128) with n by lia. eexists. split; [done|]. by split_and!.
    + destruct (Hlong String 128 183) as (x & s1 & s' & Hb & Hx & -> & Hsz & Hst & Hk); [done|lia|].
      rewrite (proj2 (Z.ltb_ge _ _)), (proj2 (Z.ltb_ge x _)), (proj2 (Z.ltb_lt _ _)) by lia.
      rewrite Hsz. eexists. split; [done|]. by split_and!.
  - destruct Ht as (-> & Hn). destruct (decide (n < 56)) as [Hlt|Hge].
    + unfold header in *. rewrite (proj2 (Z.ltb_lt _ _)) in * by lia.
      rewrite (Hshort (192 + n)) by done.
      rewrite !(proj2 (Z.ltb_ge _ _)), (proj2 (Z.ltb_lt _ _)) by lia.
      replace (192 + n - 192) with n by lia. eexists. split; [done|]. by split_and!.
    + destruct (Hlong List 192 247) as (x & s1 & s' & Hb & Hx & -> & Hsz & Hst & Hk); [done|lia|].
      rewrite !(proj2 (Z.ltb_ge _ _)) by lia.
      rewrite Hsz. eexists. split; [done|]. by split_and!.
Qed.

Lemma tag_nonempty k n b bv : tag k n b bv -> 1 <= len b.
Proof.
  assert (Hh : forall small large, 1 <= len (header small large n)).
  { intros. unfold header. destruct (n <? 56); rewrite len_cons; [unfold len; simpl; lia|].
    pose proof (len_nonneg (be_bytes (byte_len n) n)). lia. }
  destruct k; simpl; [|intros [-> _]; apply Hh|intros [-> _]; apply Hh].
  intros (_ & -> & _). done.
Qed.

Lemma StreamKind_fwd s k n b bv r : wf s -> kind s = None -> tag k n b bv -> input s = b ++ r ->
  room (stack s) (len b + n) -> n <= len r ->
  exists s', StreamKind s = (inr (k, n), s') /\ step s b s' /\ ahead s' k n /\
    (k = Byte -> byteval s' = bv).
Proof.
  intros Hw Hk Ht Hi Hro Hn. pose proof (tag_nonempty _ _ _ _ Ht) as Hne.
  assert (Hn0 : 0 <= n) by (destruct k; simpl in Ht; lia).
  unfold StreamKind. rewrite Hk. simpl.
  assert (match head (stack s) with Some t => lpos t =? lsize t | None => false end = false) as ->.
  { destruct (stack s) as [|t st]; simpl in *; [done|]. apply Z.eqb_neq. lia. }
  set (s0 := MkStream _ _ _ _ _ _ _ _).
  assert (Hw0 : wf s0) by (by apply (wf_same s)).
  destruct (readKind_fwd s0 k n b bv r) as (s1 & -> & Hs & Hk1 & Hbv); [done..| |].
  { destruct (stack s); simpl in *; [done|lia]. }
  pose proof (step_wf _ _ _ Hw0 Hs) as Hw1. pose proof Hw1 as [Hl1 Hr1 _ _ Hst1].
  assert (Hir : input s1 = r).
  { destruct Hs as [Hi1 _ _ _ _]. simpl in Hi1. rewrite Hi in Hi1. by apply app_inv_head in Hi1. }
  assert (match head (stack s1) with
    | None => if limited s1 && (remaining s1 <? n) then Some ErrValueTooLarge else None
    | Some t => if u64 (lsize t - lpos t) <? n then Some ErrElemTooLarge else None
    end = None) as ->.
  { pose proof (step_stack _ _ _ Hs) as Hb. simpl in Hb. destruct (stack s) as [|t st].
    - rewrite Hb. simpl. rewrite Hr1, Hir, Hl1. simpl. by rewrite (proj2 (Z.ltb_ge _ _)) by lia.
    - rewrite Hb in *. simpl in *. rewrite u64_diff by lia. by rewrite (proj2 (Z.ltb_ge _ _)) by lia. }
  eexists. split; [done|]. split_and!.
  - apply (step_from s0); [done..|]. by apply (step_same _ _ s1).
  - split; try done. simpl. rewrite (step_stack _ _ _ Hs). simpl.
    destruct (stack s); simpl in *; [done|lia].
  - done.
Qed.

End RlpStreamProps.
