(* ===== verification/RlpRoundtrip.v ===== *)
(** RLP round trip and canonicality: what [DecodeBytes] accepts is exactly what
    [EncodeToBytes] writes. *)

From S2P Require Import Prelude Params Bytes RlpEncode RlpDecode.

Module RlpCodec.
Import Rlp RlpRef RlpEncodeProps RlpStream RlpStreamProps.

(** [decodes n d b a]: on any input that starts with [b] and has room for it, [d]
    returns [a] and consumes exactly [b]; [n] bounds the input length. *)
Definition decodes {A} (n : nat) (d : D A) (b : bytes) (a : A) : Prop :=
  forall s r, wf s -> kind s = None -> (length (input s) < n)%nat -> input s = b ++ r ->
    room (stack s) (len b) ->
    exists s', d s = (inr a, s') /\ step s b s' /\ kind s' = None.

(** The same where [b] is all that remains of the innermost list. *)
Definition decodes_in {A} (n : nat) (d : D A) (b : bytes) (a : A) : Prop :=
  forall s r t st, wf s -> kind s = None -> (length (input s) < n)%nat -> input s = b ++ r ->
    stack s = t :: st -> lpos t + len b = lsize t ->
    exists s', d s = (inr a, s') /\ step s b s' /\ kind s' = None.

(** [parses d E]: whenever [d] succeeds it consumed some [b] with [E a b]. *)
Definition parses {A} (d : D A) (E : A -> bytes -> Prop) : Prop :=
  forall s a s', wf s -> kind s = None -> d s = (inr a, s') ->
    exists b, E a b /\ step s b s' /\ kind s' = None.

Definition same (s s' : Stream) : Prop :=
  input s' = input s /\ remaining s' = remaining s /\ limited s' = limited s /\
  stack s' = stack s /\ kind s' = None.

(** At the end of the innermost list the decoder reports [EOL] and nothing moves. *)
Definition eol {A} (d : D A) : Prop := forall s t st, kind s = None -> stack s = t :: st ->
  lpos t = lsize t -> exists s', d s = (inl EOL, s') /\ same s s'.

(** [EOL] is only ever reported before anything is read. *)
Definition eol_only {A} (d : D A) : Prop := forall s s', wf s -> kind s = None ->
  d s = (inl EOL, s') -> same s s'.

Lemma step_input_tail s b s' r : step s b s' -> input s = b ++ r -> input s' = r.
Proof. intros [Hi _ _ _ _] H. rewrite H in Hi. by apply app_inv_head in Hi. Qed.

Lemma step_length s b s' : step s b s' -> (length (input s) = length b + length (input s'))%nat.
Proof. intros [Hi _ _ _ _]. by rewrite Hi, length_app. Qed.

Lemma room_split st a b : 0 <= a -> 0 <= b -> room st (a + b) -> room st a /\ room (bump a st) b.
Proof. destruct st; simpl; [done|lia]. Qed.

Lemma room_le st a b : a <= b -> room st b -> room st a.
Proof. destruct st; simpl; [done|lia]. Qed.

(** ** Strings *)

Lemma enc_str_cases b : is_bytes b ->
  (exists x, b = [x] /\ 0 <= x < 128 /\ enc_str b = [x]) \/
  (enc_str b = header 0x80 0xB7 (len b) ++ b /\ (len b = 1 -> 128 <= default 0 (head b))).
Proof.
  intros Hb. destruct b as [|x [|y b]].
  - right. done.
  - apply Forall_cons in Hb as [Hx _]. unfold is_byte in Hx. simpl.
    destruct (x <=? 127) eqn:E; bool_to_prop; [left; exists x; split_and!; done || lia|right].
    split; [done|]. simpl. lia.
  - right. split; [done|]. rewrite !len_cons. pose proof (len_nonneg b). lia.
Qed.

Lemma readFull_after s k m n r : wf s -> ahead s k m -> 0 <= n <= m -> input s = r -> n <= len r ->
  exists s', readFull n s = (inr (take (Z.to_nat n) r), s') /\
    step s (take (Z.to_nat n) r) s' /\ kind s' = None.
Proof.
  intros Hw [_ _ _ Hro] Hn Hi Hl.
  assert (Hlen : len (take (Z.to_nat n) r) = n) by (rewrite len_take; lia).
  assert (Hr : room (stack s) n) by (apply (room_le _ _ m); [lia|done]).
  assert (Hi' : input s = take (Z.to_nat n) r ++ drop (Z.to_nat n) r) by (by rewrite take_drop).
  eexists. split; [by apply (readFull_fwd n s _ _ Hw Hi')|]. split; [|done].
  apply after_step; [done|]. by rewrite Hlen.
Qed.

Lemma StreamBytes_fwd n b : is_bytes b -> decodes n StreamBytes (enc_str b) b.
Proof.
  intros Hb s r Hw Hk _ Hi Hro. unfold StreamBytes, dbind.
  pose proof (wf_small _ Hw) as Hsm. rewrite Hi, len_app in Hsm.
  pose proof (len_nonneg r). pose proof (len_nonneg b).
  destruct (enc_str_cases b Hb) as [(x & -> & Hx & He)|[He H1]]; rewrite He in *.
  - destruct (StreamKind_fwd s Byte 0 [x] x r) as (s1 & -> & Hs & Ha & Hbv); try done.
    simpl. rewrite Hbv by done. eexists. split; [done|]. split; [|done]. by apply (step_same _ _ s1).
  - rewrite len_app in *. pose proof (len_nonneg (header 128 183 (len b))).
    destruct (StreamKind_fwd s String (len b) (header 128 183 (len b)) 0 (b ++ r))
      as (s1 & -> & Hs & Ha & _); try done.
    { split; [done|lia]. }
    { by rewrite Hi, <- app_assoc. }
    { rewrite len_app. lia. }
    pose proof (step_wf _ _ _ Hw Hs) as Hw1.
    assert (Hi1 : input s1 = b ++ r) by (apply (step_input_tail _ _ _ _ Hs); by rewrite Hi, <- app_assoc).
    rewrite (readFull_fwd (len b) s1 b r) by (done || apply Ha).
    assert ((len b =? 1) && (default 0 (head b) <? 128) = false) as ->.
    { destruct (len b =? 1) eqn:E; [|done]. bool_to_prop. simpl. apply Z.ltb_ge. auto. }
    eexists. split; [done|]. split; [|done]. eapply step_trans; [done|].
    apply after_step; [done|apply Ha].
Qed.

Lemma StreamBytes_inv : parses StreamBytes (fun b c => c = enc_str b /\ is_bytes b).
Proof.
  intros s b s' Hw Hk. unfold StreamBytes, dbind.
  destruct (StreamKind s) as [[e|[k n]] s1] eqn:Ek; [done|].
  apply StreamKind_inv in Ek as (Ha & _ & h & Hs & Ht); [|done..].
  pose proof (step_wf _ _ _ Hw Hs) as Hw1. destruct k; [| |done].
  - simpl in Ht. destruct Ht as (-> & -> & Hbv). intros [= <- <-].
    exists [byteval s1]. split_and!; [| |by apply (step_same _ _ s1)|done].
    + simpl. by rewrite (proj2 (Z.leb_le _ _)) by lia.
    + repeat constructor; unfold is_byte; lia.
  - simpl in Ht. destruct Ht as (-> & Hn).
    destruct (readFull n s1) as [[e|c] s2] eqn:Er; [done|].
    apply readFull_inv in Er as (Hl & Haf & Hs2); [|done|lia].
    pose proof (step_bytes _ _ _ Hw1 Hs2) as Hc.
    destruct ((n =? 1) && (default 0 (head c) <? 128)) eqn:E1; [done|]. intros [= <- <-].
    exists (header 128 183 n ++ c). split_and!; [|done|by eapply step_trans|by rewrite Haf].
    destruct (enc_str_cases c Hc) as [(x & -> & Hx & _)|[-> _]]; [|by rewrite Hl].
    change (len [x]) with 1 in Hl. subst n. simpl in E1. bool_to_prop. lia.
Qed.

(** ** Unsigned integers *)

Lemma enc_str_big i : 0 <= i ->
  (i = 0 /\ enc_str (big_Bytes i) = [0x80]) \/
  (0 < i < 128 /\ enc_str (big_Bytes i) = [i]) \/
  (128 <= i /\ big_Bytes i = be_bytes (byte_len i) i /\
   enc_str (big_Bytes i) = header 0x80 0xB7 (Z.of_nat (byte_len i)) ++ be_bytes (byte_len i) i).
Proof.
  intros Hi. pose proof (be_value_big_Bytes i Hi) as Hv.
  destruct (enc_str_cases (big_Bytes i) (big_Bytes_is_bytes i)) as [(x & Hx & Hr & He)|[He H1]].
  - rewrite Hx in Hv. change (be_value [x]) with x in Hv. subst x.
    destruct (decide (i = 0)) as [->|]; [left; done|right; left]. split; [lia|done].
  - destruct (decide (i = 0)) as [->|Hn]; [left; done|right; right].
    assert (Hbb : big_Bytes i = be_bytes (byte_len i) i) by (unfold big_Bytes; by rewrite Z.abs_eq).
    rewrite Hbb in *. rewrite He, len_be_bytes. split_and!; try done.
    destruct (decide (128 <= i)) as [|Hlt]; [done|exfalso].
    rewrite (byte_len_unique 1 i) in H1 by lia. simpl in H1.
    rewrite Z.div_1_r, Z.mod_small in H1 by lia. specialize (H1 eq_refl). lia.
Qed.

Definition uint_bits (bits : Z) : Prop := bits = 8 \/ bits = 16 \/ bits = 32 \/ bits = 64.

Lemma uint_bits_pow bits : uint_bits bits -> 256 ^ (bits / 8) = 2 ^ bits /\ 1 <= bits / 8 <= 8.
Proof. intros [->|[->|[->| ->]]]; done. Qed.

Lemma Stream_uint_fwd n bits i : uint_bits bits -> 0 <= i < 2 ^ bits ->
  decodes n (Stream_uint bits) (enc_str (big_Bytes i)) i.
Proof.
  intros Hbits Hi s r Hw Hk _ Hin Hro. unfold Stream_uint, dbind.
  destruct (uint_bits_pow bits Hbits) as [Hp Hb8]. pose proof (len_nonneg r).
  destruct (enc_str_big i ltac:(lia)) as [[-> He]|[[Hr He]|(Hr & Hbb & He)]]; rewrite He in *.
  - destruct (StreamKind_fwd s String 0 [0x80] 0 r) as (s1 & -> & Hs & Ha & _); try done.
    rewrite (proj2 (Z.ltb_ge _ _)) by lia. simpl. eexists. split; [done|]. split; [|done].
    by apply (step_same _ _ s1).
  - destruct (StreamKind_fwd s Byte 0 [i] i r) as (s1 & -> & Hs & Ha & Hbv); try done.
    { simpl. split_and!; done || lia. }
    rewrite Hbv by done. rewrite (proj2 (Z.eqb_neq _ _)) by lia.
    eexists. split; [done|]. split; [|done]. by apply (step_same _ _ s1).
  - set (m := byte_len i) in *. set (c := be_bytes m i) in *.
    assert (Hlc : len c = Z.of_nat m) by apply len_be_bytes.
    rewrite <- Hlc in *. rewrite len_app in *.
    assert (Hm : (m <= Z.to_nat (bits / 8))%nat).
    { apply byte_len_le. rewrite Z2Nat.id, Hp by lia. lia. }
    pose proof (byte_len_pos i ltac:(lia)). fold m in H0.
    assert (Hc8 : 1 <= len c <= 8) by lia.
    destruct (StreamKind_fwd s String (len c) (header 128 183 (len c)) 0 (c ++ r))
      as (s1 & -> & Hs & Ha & _); try done.
    { split; [done|lia]. }
    { by rewrite Hin, <- app_assoc. }
    { rewrite len_app. lia. }
    rewrite (proj2 (Z.ltb_ge _ _)) by lia.
    pose proof (step_wf _ _ _ Hw Hs) as Hw1.
    assert (Hi1 : input s1 = c ++ r) by (apply (step_input_tail _ _ _ _ Hs); by rewrite Hin, <- app_assoc).
    assert (Hh : head c <> Some 0) by (rewrite <- Hbb; apply big_Bytes_head).
    assert (Hv : be_value c = i) by (rewrite <- Hbb; by apply be_value_big_Bytes; lia).
    rewrite (readUint_fwd (len c) s1 c r) by (done || apply Ha). rewrite Hv.
    rewrite (proj2 (Z.ltb_ge i 128)), andb_false_r by lia.
    eexists. split; [done|]. split; [|done]. eapply step_trans; [done|].
    apply after_step; [done|apply Ha].
Qed.

Lemma Stream_uint_inv bits : uint_bits bits ->
  parses (Stream_uint bits) (fun i c => c = enc_str (big_Bytes i) /\ 0 <= i < 2 ^ bits).
Proof.
  intros Hbits s i s' Hw Hk. unfold Stream_uint, dbind.
  destruct (uint_bits_pow bits Hbits) as [Hp Hb8].
  assert (H128 : 128 < 2 ^ bits) by (destruct Hbits as [->|[->|[->| ->]]]; done).
  destruct (StreamKind s) as [[e|[k n]] s1] eqn:Ek; [done|].
  apply StreamKind_inv in Ek as (Ha & _ & h & Hs & Ht); [|done..].
  pose proof (step_wf _ _ _ Hw Hs) as Hw1. destruct k; [| |done].
  - simpl in Ht. destruct Ht as (-> & -> & Hbv). destruct (byteval s1 =? 0) eqn:E0; [done|].
    bool_to_prop. intros [= <- <-]. exists [byteval s1].
    split_and!; [|lia|lia|by apply (step_same _ _ s1)|done].
    destruct (enc_str_big (byteval s1)) as [[? _]|[[_ ?]|[? _]]]; [lia|lia|done|lia].
  - simpl in Ht. destruct Ht as (-> & Hn). destruct (bits / 8 <? n) eqn:Eb; [done|]. bool_to_prop.
    destruct (decide (n = 0)) as [->|Hn0].
    { simpl. intros [= <- <-]. exists [0x80]. split_and!; [done|lia|lia|by apply (step_same _ _ s1)|done]. }
    destruct (readUint n s1) as [[e|v] s2] eqn:Er; [by destruct e|].
    apply readUint_inv in Er as (c & Hl & -> & Haf & Hs2 & Hh); [|done|lia].
    pose proof (step_bytes _ _ _ Hw1 Hs2) as Hc.
    rewrite (proj2 (Z.ltb_lt 0 n)) by lia. simpl.
    destruct (be_value c <? 128) eqn:E1; [done|]. bool_to_prop. intros [= <- <-].
    assert (Hh' : head c <> Some 0).
    { destruct (decide (2 <= n)) as [|Hlt]; [auto|]. destruct c as [|x [|y c]]; [done| |].
      - intros [= ->]. change (be_value [0]) with 0 in E1. lia.
      - rewrite !len_cons in Hl. pose proof (len_nonneg c). lia. }
    pose proof (big_Bytes_be_value c Hc Hh') as Hbb.
    pose proof (be_value_bound c Hc) as [Hge Hub].
    exists (header 128 183 n ++ c).
    split_and!; [|done| |by eapply step_trans|by rewrite Haf].
    + destruct (enc_str_cases c Hc) as [(x & -> & Hx & _)|[He _]].
      * change (be_value [x]) with x in E1. lia.
      * by rewrite Hbb, He, Hl.
    + rewrite <- Hp. eapply Z.lt_le_trans; [exact Hub|]. rewrite Hl. apply Z.pow_le_mono_r; lia.
Qed.

(** ** Lists *)

Lemma StreamKind_eol : eol StreamKind.
Proof.
  intros s t st Hk Hst He. unfold StreamKind. rewrite Hk, Hst. simpl.
  rewrite (proj2 (Z.eqb_eq _ _)) by done. eexists. split; [done|]. by rewrite <- Hst.
Qed.

Lemma eol_bind {A B} (d : D A) (k : A -> D B) : eol d -> eol (dbind d k).
Proof.
  intros Hd s t st Hk Hst He. destruct (Hd s t st Hk Hst He) as (s' & Hs' & Hsame).
  exists s'. split; [|done]. unfold dbind. by rewrite Hs'.
Qed.

(** The decoder of the contents of a list between [List] and [ListEnd]. *)
Definition in_list {A B} (body : D A) (f : A -> B) : D B :=
  dbind StreamList (fun _ => dbind body (fun a => dbind ListEnd (fun _ => dret (f a)))).

Lemma StreamList_fwd s p r : wf s -> kind s = None -> input s = enc_list p ++ r ->
  room (stack s) (len (enc_list p)) ->
  exists s', StreamList s = (inr (len p), s') /\ wf s' /\ kind s' = None /\ input s' = p ++ r /\
    stack s' = Listpos 0 (len p) :: bump (len (header 0xC0 0xF7 (len p))) (stack s) /\
    step s (header 0xC0 0xF7 (len p)) (MkStream (input s') (remaining s') (limited s') None 0 0 None
      (bump (len (header 0xC0 0xF7 (len p))) (stack s))).
Proof.
  intros Hw Hk Hi Hro. unfold enc_list in *. set (h := header 192 247 (len p)) in *.
  pose proof (wf_small _ Hw) as Hsm. rewrite Hi, !len_app in Hsm. rewrite len_app in Hro.
  pose proof (len_nonneg h). pose proof (len_nonneg p). pose proof (len_nonneg r).
  destruct (StreamKind_fwd s List (len p) h 0 (p ++ r)) as (s1 & Hsk & Hs & Ha & _); try done.
  { split; [done|lia]. }
  { by rewrite Hi, <- app_assoc. }
  { rewrite len_app. lia. }
  assert (Hi1 : input s1 = p ++ r) by (apply (step_input_tail _ _ _ _ Hs); by rewrite Hi, <- app_assoc).
  unfold StreamList, dbind. rewrite Hsk. eexists. split; [done|].
  pose proof (step_wf _ _ _ Hw Hs) as [? ? ? ? ?]. simpl.
  split_and!; try done.
  - split; try done. simpl. lia.
  - by rewrite (step_stack _ _ _ Hs).
  - apply (step_same _ _ s1); try done. by rewrite (step_stack _ _ _ Hs).
Qed.

(** Closing a list whose contents [p] were consumed. *)
Lemma ListEnd_fwd s0 s1 s2 h p : step s0 h (MkStream (input s1) (remaining s1) (limited s1) None 0 0 None
      (bump (len h) (stack s0))) ->
  stack s1 = Listpos 0 (len p) :: bump (len h) (stack s0) -> room (stack s0) (len h + len p) ->
  step s1 p s2 ->
  exists s3, ListEnd s2 = (inr (), s3) /\ step s0 (h ++ p) s3 /\ kind s3 = None.
Proof.
  intros Hh Hst1 Hro Hp. unfold ListEnd. rewrite (step_stack _ _ _ Hp), Hst1. simpl.
  rewrite Z.eqb_refl. simpl. eexists. split; [done|]. split; [|done].
  destruct Hh as [Hi0 _ _ _ _], Hp as [Hi1 ? ? _ _]. split; simpl; try done.
  - rewrite Hi0. simpl. by rewrite Hi1, app_assoc.
  - by rewrite len_app.
  - rewrite len_app, <- bump_bump. destruct (stack s0); simpl; done.
Qed.

Lemma in_list_fwd {A B} n (body : D A) (f : A -> B) p a :
  decodes_in n body p a -> decodes n (in_list body f) (enc_list p) (f a).
Proof.
  intros Hbody s r Hw Hk Hn Hi Hro. unfold in_list, dbind.
  destruct (StreamList_fwd s p r Hw Hk Hi Hro) as (s1 & -> & Hw1 & Hk1 & Hi1 & Hst1 & Hs1).
  destruct (Hbody s1 r (Listpos 0 (len p)) (bump (len (header 192 247 (len p))) (stack s)))
    as (s2 & -> & Hs2 & Hk2); try done.
  { rewrite Hi in Hn. rewrite Hi1. unfold enc_list in Hn. rewrite !length_app in *. lia. }
  destruct (ListEnd_fwd s s1 s2 (header 192 247 (len p)) p) as (s3 & -> & Hs3 & Hk3); try done.
  { unfold enc_list in Hro. by rewrite len_app in Hro. }
  eexists. by split_and!.
Qed.

Lemma StreamList_inv s n s' : wf s -> kind s = None -> StreamList s = (inr n, s') ->
  wf s' /\ kind s' = None /\ 0 <= n < 2 ^ 64 /\ room (stack s) (len (header 0xC0 0xF7 n) + n) /\
  stack s' = Listpos 0 n :: bump (len (header 0xC0 0xF7 n)) (stack s) /\
  step s (header 0xC0 0xF7 n) (MkStream (input s') (remaining s') (limited s') None 0 0 None
      (bump (len (header 0xC0 0xF7 n)) (stack s))).
Proof.
  intros Hw Hk. unfold StreamList, dbind.
  destruct (StreamKind s) as [[e|[k m]] s1] eqn:Ek; [done|].
  apply StreamKind_inv in Ek as (Ha & _ & h & Hs & Ht); [|done..].
  destruct k; [done..|]. simpl in Ht. destruct Ht as (-> & Hn). intros [= <- <-]. simpl.
  pose proof (step_wf _ _ _ Hw Hs) as [? ? ? ? ?].
  split_and!; try done; try lia.
  - split; try done. simpl. lia.
  - pose proof (ahead_room _ _ _ Ha) as Hr. rewrite (step_stack _ _ _ Hs) in Hr.
    destruct (stack s); simpl in *; [done|lia].
  - by rewrite (step_stack _ _ _ Hs).
  - apply (step_same _ _ s1); try done. by rewrite (step_stack _ _ _ Hs).
Qed.

Lemma in_list_inv {A B} (body : D A) (f : A -> B) E :
  parses body E -> parses (in_list body f) (fun v c => exists a p, v = f a /\ E a p /\ c = enc_list p).
Proof.
  intros Hbody s v s' Hw Hk. unfold in_list, dbind.
  destruct (StreamList s) as [[e|n] s1] eqn:El; [done|].
  apply StreamList_inv in El as (Hw1 & Hk1 & Hn & Hro & Hst1 & Hs1); [|done..].
  destruct (body s1) as [[e|a] s2] eqn:Eb; [done|].
  destruct (Hbody s1 a s2 Hw1 Hk1 Eb) as (p & HE & Hs2 & Hk2).
  destruct (ListEnd s2) as [[e|[]] s3] eqn:Ee; [done|]. intros [= <- <-].
  assert (Hlen : len p = n).
  { unfold ListEnd in Ee. rewrite (step_stack _ _ _ Hs2), Hst1 in Ee. simpl in Ee.
    destruct (0 + len p =? n) eqn:E0; [bool_to_prop; lia|done]. }
  subst n. destruct (ListEnd_fwd s s1 s2 (header 192 247 (len p)) p) as (s3' & He3 & Hs3 & Hk3); try done.
  rewrite He3 in Ee. simplify_eq. exists (enc_list p). split_and!; eauto.
Qed.

(** ** Element loops *)

Lemma elems_fwd n (d : decoder) vs bs fuel :
  eol d -> Forall2 (fun v b => decodes n d b v /\ b <> []) vs bs -> (length vs < fuel)%nat ->
  decodes_in n (decodeSliceElems d fuel) (mjoin bs) vs.
Proof.
  intros Heol HF. revert fuel. induction HF as [|v b vs bs [Hd Hb] HF IH]; intros fuel Hf s r t st Hw Hk Hn Hi Hst He;
    (destruct fuel as [|fuel]; [lia|]); simpl.
  - destruct (Heol s t st Hk Hst) as (s' & -> & Hi' & Hr' & Hl' & Hst' & Hk'); [unfold len in He; simpl in He; lia|].
    eexists. split; [done|]. split; [|done]. apply (step_same _ _ s); try done. by apply step_nil.
  - simpl in Hi, He. rewrite len_app in He.
    pose proof (len_nonneg (mjoin bs)).
    destruct (Hd s (mjoin bs ++ r)) as (s1 & -> & Hs1 & Hk1); try done.
    { by rewrite Hi, app_assoc. }
    { rewrite Hst. simpl. lia. }
    pose proof (step_length _ _ _ Hs1).
    destruct (IH fuel ltac:(simpl in Hf; lia) s1 r (Listpos (lpos t + len b) (lsize t)) st)
      as (s2 & Hs2 & Hst2 & Hk2).
    { by eapply step_wf. } { done. } { lia. }
    { apply (step_input_tail _ _ _ _ Hs1). by rewrite Hi, app_assoc. }
    { by rewrite (step_stack _ _ _ Hs1), Hst. }
    { simpl. lia. }
    unfold dmap, dbind. rewrite Hs2. eexists. split; [done|]. split; [|done]. by eapply step_trans.
Qed.

Definition elems_rel {A} (E : A -> bytes -> Prop) (vs : list A) (c : bytes) : Prop :=
  exists bs, Forall2 E vs bs /\ c = mjoin bs.

Lemma elems_inv (d : decoder) E fuel :
  eol_only d -> parses d E -> parses (decodeSliceElems d fuel) (elems_rel E).
Proof.
  intros Heol Hd. induction fuel as [|fuel IH]; intros s vs s' Hw Hk; simpl; [done|].
  destruct (d s) as [[e|v] s1] eqn:Ed.
  - destruct e; try done. intros [= <- <-]. destruct (Heol s s1 Hw Hk Ed) as (Hi & Hr & Hl & Hst & Hk1).
    exists []. split_and!; [by exists []| |done]. apply (step_same _ _ s); try done. by apply step_nil.
  - destruct (Hd s v s1 Hw Hk Ed) as (b & HE & Hs1 & Hk1). unfold dmap, dbind.
    destruct (decodeSliceElems d fuel s1) as [[e|ws] s2] eqn:Ee; [done|]. intros [= <- <-].
    destruct (IH s1 ws s2) as (c & (bs & HF & ->) & Hs2 & Hk2); [by eapply step_wf|done..|].
    exists (b ++ mjoin bs). split_and!; [|by eapply step_trans|done].
    exists (b :: bs). by split; [constructor|].
Qed.

Lemma array_fwd n (d : decoder) vs bs :
  Forall2 (fun v b => decodes n d b v) vs bs ->
  decodes_in n (decodeArrayElems d (length vs)) (mjoin bs) vs.
Proof.
  induction 1 as [|v b vs bs Hd HF IH]; intros s r t st Hw Hk Hn Hi Hst He; simpl.
  - exists s. split_and!; [done|by apply step_nil|done].
  - simpl in Hi, He. rewrite len_app in He. pose proof (len_nonneg (mjoin bs)).
    destruct (Hd s (mjoin bs ++ r)) as (s1 & -> & Hs1 & Hk1); try done.
    { by rewrite Hi, app_assoc. }
    { rewrite Hst. simpl. lia. }
    pose proof (step_length _ _ _ Hs1).
    destruct (IH s1 r (Listpos (lpos t + len b) (lsize t)) st) as (s2 & Hs2 & Hst2 & Hk2).
    { by eapply step_wf. } { done. } { lia. }
    { apply (step_input_tail _ _ _ _ Hs1). by rewrite Hi, app_assoc. }
    { by rewrite (step_stack _ _ _ Hs1), Hst. }
    { simpl. lia. }
    unfold dmap, dbind. rewrite Hs2. eexists. split; [done|]. split; [|done]. by eapply step_trans.
Qed.

(** ** Decoders that start by reading a tag *)

(** [EOL] and [OutOfFuel] are never errors of the reading primitives. *)
Class Special (e : rlp_error) : Prop := special_cases : e = EOL \/ e = OutOfFuel.
#[local] Instance special_EOL : Special EOL.
Proof. by left. Qed.
#[local] Instance special_fuel : Special OutOfFuel.
Proof. by right. Qed.

Definition never {A} (e : rlp_error) (d : D A) : Prop := forall s s', d s <> (inl e, s').
Ltac special := match goal with H : Special ?e |- _ => destruct H as [-> | ->] end.

Lemma never_bind {A B} e (d : D A) (k : A -> D B) :
  never e d -> (forall a, never e (k a)) -> never e (dbind d k).
Proof.
  intros Hd Hk s s'. unfold dbind. destruct (d s) as [[x|a] s1] eqn:E; [|apply Hk].
  intros [= -> ->]. by apply Hd in E.
Qed.

Lemma never_dret {A} e (a : A) : never e (dret a).
Proof. by intros s s'. Qed.

Lemma never_derr {A} `{Special e} x : x <> EOL -> x <> OutOfFuel -> never e (@derr A x).
Proof. intros ? ? s s' [= -> _]. by special. Qed.

Lemma never_willRead `{Special e} n : never e (willRead n).
Proof. intros s s'. special; unfold willRead; by repeat case_match. Qed.

Lemma never_readFull `{Special e} n : never e (readFull n).
Proof.
  apply never_bind; [by apply never_willRead|]. intros _ s s'. simpl. special; by case_match.
Qed.

Lemma never_readByte `{Special e} : never e readByte.
Proof. apply never_bind; [by apply never_willRead|]. intros _ s s'. simpl. special; by case_match. Qed.

Lemma never_readUint `{Special e} n : never e (readUint n).
Proof.
  unfold readUint. destruct (n =? 0); [by intros s s'|].
  destruct (n =? 1); [by apply never_readByte|]. apply never_bind; [by apply never_readFull|].
  intros b. case_match; [by apply never_derr|apply never_dret].
Qed.

Lemma never_ListEnd `{Special e} : never e ListEnd.
Proof. intros s s'. special; unfold ListEnd; by repeat case_match. Qed.

#[local] Hint Resolve special_EOL special_fuel never_bind never_dret never_readFull never_readByte never_readUint never_ListEnd : juchain.

Lemma readKind_never `{Special e} s k n s' : readKind s <> ((k, n, Some e), s').
Proof.
  unfold readKind. destruct (readByte s) as [[x|b] s1] eqn:Eb.
  - pose proof (never_readByte s s1 : readByte s <> (inl e, s1)) as Hne. rewrite Eb in Hne.
    special; destruct (stack s1), x; congruence.
  - unfold readSized.
    repeat case_match; try congruence; intros Heq; simplify_eq;
      try (match goal with H : Special _ |- _ => by destruct H end);
      eapply never_readUint; eassumption.
Qed.

Lemma StreamKind_eol_only : eol_only StreamKind.
Proof.
  intros s s' Hw Hk. unfold StreamKind. rewrite Hk. simpl.
  destruct (match head (stack s) with Some t => lpos t =? lsize t | None => false end).
  { intros [= <-]. done. }
  destruct (readKind _) as [[[k n] e] s1] eqn:Er.
  assert (e <> Some EOL) by (intros ->; by apply readKind_never in Er).
  destruct e as [e|]; [intros [= -> _]; done|].
  repeat case_match; simplify_eq; done.
Qed.

Lemma StreamKind_idem s r s1 : StreamKind s = (inr r, s1) -> StreamKind s1 = (inr r, s1).
Proof.
  unfold StreamKind at 1. destruct (kind s) eqn:Ek.
  - destruct (kinderr s) eqn:Ee; intros [= <- <-]. unfold StreamKind. by rewrite Ek, Ee.
  - case_match; [done|]. destruct (readKind _) as [[[k n] e] s2].
    match goal with |- match ?x with _ => _ end = _ -> _ => destruct x end; intros Heq; by simplify_eq.
Qed.

Definition headed {A} (e : rlp_error) (d : D A) : Prop :=
  exists k, (forall r, never e (k r)) /\ forall s, d s = dbind StreamKind k s.

Lemma headed_kind {A} e (k : Kind * Z -> D A) : (forall r, never e (k r)) -> headed e (dbind StreamKind k).
Proof. intros Hk. by exists k. Qed.

Lemma headed_bind {A B} e (d : D A) (k : A -> D B) :
  headed e d -> (forall a, never e (k a)) -> headed e (dbind d k).
Proof.
  intros (k0 & Hn & Hd) Hk. exists (fun r => dbind (k0 r) k). split; [auto with juchain|].
  intros s. unfold dbind at 1. rewrite Hd. unfold dbind. by destruct (StreamKind s) as [[]].
Qed.

Lemma headed_eol {A} (d : D A) : headed EOL d -> eol d.
Proof.
  intros (k & _ & Hd) s t st Hk Hst He. rewrite Hd.
  by apply (eol_bind StreamKind k StreamKind_eol s t st).
Qed.

Lemma headed_eol_only {A} (d : D A) : headed EOL d -> eol_only d.
Proof.
  intros (k & Hn & Hd) s s' Hw Hk. rewrite Hd. unfold dbind.
  destruct (StreamKind s) as [[e|r] s1] eqn:E.
  - intros [= -> ->]. by apply StreamKind_eol_only.
  - intros Hr. by apply Hn in Hr.
Qed.

(** Looking at the tag first does not change what such a decoder does. *)
Lemma headed_peek {A} e (d : D A) s r s1 : headed e d -> StreamKind s = (inr r, s1) -> d s1 = d s.
Proof.
  intros (k & _ & Hd) Hs. rewrite !Hd. unfold dbind. by rewrite Hs, (StreamKind_idem _ _ _ Hs).
Qed.

Lemma headed_StreamBytes `{Special e} : headed e StreamBytes.
Proof.
  apply headed_kind. intros [[] n]; [by intros s s'| |by apply never_derr].
  apply never_bind; [by apply never_readFull|]. intros b. case_match; [by apply never_derr|apply never_dret].
Qed.

Lemma headed_StreamRaw `{Special e} : headed e StreamRaw.
Proof. apply headed_kind. intros [[] n]; [by intros s s'|auto with juchain..]. Qed.

Lemma headed_uint `{Special e} bits : headed e (Stream_uint bits).
Proof.
  apply headed_kind. intros [[] n]; [|case_match; [by apply never_derr|]|by apply never_derr].
  - intros s s'. special; by case_match.
  - intros s s'. destruct (readUint n s) as [[x|v] s1] eqn:E; [|special; by case_match].
    pose proof (never_readUint n s s1 : readUint n s <> (inl e, s1)) as Hne. rewrite E in Hne.
    special; destruct x; congruence.
Qed.

Lemma headed_StreamList `{Special e} : headed e StreamList.
Proof. apply headed_kind. intros [[] n]; [by apply never_derr..|by intros s s']. Qed.

Lemma headed_dmap {A B} e (f : A -> B) d : headed e d -> headed e (dmap f d).
Proof. intros Hd. apply headed_bind; auto with juchain. Qed.

Lemma never_sliceElems d fuel : never EOL (decodeSliceElems d fuel).
Proof.
  induction fuel as [|fuel IH]; simpl; [by intros s s'|]. intros s s'.
  destruct (d s) as [[e|v] s1]; [destruct e; congruence|].
  apply never_bind; auto with juchain.
Qed.

Lemma never_arrayElems d n : never EOL (decodeArrayElems d n).
Proof.
  induction n as [|n IH]; simpl; [apply never_dret|]. intros s s'.
  destruct (d s) as [[e|v] s1]; [destruct e; congruence|]. apply never_bind; auto with juchain.
Qed.

Lemma never_fields decs : never EOL (decodeFields decs).
Proof.
  induction decs as [|d decs IH]; simpl; [apply never_dret|]. intros s s'.
  destruct (d s) as [[e|v] s1]; [destruct e; congruence|]. apply never_bind; auto with juchain.
Qed.

#[local] Hint Resolve never_sliceElems never_arrayElems never_fields : juchain.

Lemma headed_choice {A} e (P : Kind -> bool) (d1 d2 : D A) : headed e d1 -> headed e d2 ->
  headed e (dbind StreamKind (fun r => if P r.1 then d1 else d2)).
Proof.
  intros (k1 & Hn1 & H1) (k2 & Hn2 & H2). exists (fun r => if P r.1 then k1 r else k2 r). split.
  - intros r. by destruct (P r.1).
  - intros s. unfold dbind. destruct (StreamKind s) as [[x|r] s1] eqn:E; [done|].
    destruct (P r.1); rewrite ?H1, ?H2; unfold dbind; by rewrite (StreamKind_idem _ _ _ E).
Qed.

Lemma headed_listSlice d n : headed EOL (decodeListSlice d n).
Proof. apply headed_bind; [apply headed_StreamList|]. intros a. case_match; auto 10 with juchain. Qed.

Lemma headed_interface n fuel : headed EOL (decodeInterface n (S fuel)).
Proof.
  destruct (headed_choice EOL (fun k => bool_decide (k = List))
    (decodeListSlice (decodeInterface n fuel) n) (dmap VBytes StreamBytes)) as (k & Hn & Hk).
  - apply headed_listSlice.
  - apply headed_dmap, headed_StreamBytes.
  - exists k. split; [done|]. intros s. rewrite <- Hk. simpl. unfold dbind.
    destruct (StreamKind s) as [[e|[[] m]] s1]; done.
Qed.

(** Every decoder of an untagged type starts with the tag of its value. *)
Lemma headed_makeDecoder n t : headed EOL (makeDecoder (S n) t notags).
Proof.
  induction t as [|m| | | | |m|t IH|m t IH|fs IH|t IH|] using typ_ind_fields; cbn [makeDecoder].
  - apply headed_dmap, headed_StreamRaw.
  - apply headed_dmap, headed_uint.
  - apply headed_dmap. apply headed_bind; [apply headed_uint|]. intros i.
    repeat case_match; auto with juchain. by apply never_derr.
  - apply headed_dmap, headed_StreamBytes.
  - apply headed_bind; [apply headed_StreamBytes|]. intros b.
    repeat case_match; auto with juchain. by apply never_derr.
  - apply headed_dmap, headed_StreamBytes.
  - apply headed_kind. intros [[] k]; [| |by apply never_derr].
    + repeat case_match; [by apply never_derr..|]. intros s s'. by repeat case_match.
    + repeat case_match; [by apply never_derr..|]. apply never_bind; [apply never_readFull|].
      intros b. case_match; [by apply never_derr|apply never_dret].
  - apply headed_listSlice.
  - apply headed_bind; [apply headed_StreamList|]. auto 10 with juchain.
  - apply headed_bind; [apply headed_StreamList|]. auto 10 with juchain.
  - apply headed_dmap, IH.
  - apply headed_interface.
Qed.

(** ** Round trip *)

Definition is_slice (t : typ) : bool := match t with TSlice _ => true | _ => false end.

(** [interface{}] values that the decoder produces. *)
Fixpoint iface_ok (v : val) : Prop :=
  match v with
  | VBytes b => is_bytes b
  | VList vs => (fix go vs := match vs with [] => True | v :: vs => iface_ok v /\ go vs end) vs
  | _ => False
  end.

(** The values of a type that survive encoding and decoding. Excluded are nil
    pointers (they come back as pointers to zero values) unless the field has the
    [nil] tag, tagged pointers to values with an empty encoding (they come back
    nil), nil [interface{}] values, raw values that are not one encoded item, and
    the array [[1]byte{0}]. *)
Fixpoint rt_ok (t : typ) (ts : tags) (v : val) : Prop :=
  match t, v with
  | TRaw, VBytes b => exists c, is_bytes c /\ (b = enc_str c \/ b = enc_list c)
  | TUint bits, VUint i => uint_bits bits /\ 0 <= i < 2 ^ bits
  | TBool, VBool _ => True
  | TBig, VBig (Some i) => 0 <= i
  | (TString | TBytes), VBytes b => is_bytes b
  | TByteArray n, VBytes b => is_bytes b /\ length b = n /\ b <> [0]
  | TSlice t, VList vs => Forall (rt_ok t notags) vs
  | TArray n t, VList vs => tail ts = false /\ length vs = n /\ Forall (rt_ok t notags) vs
  | TStruct fs, VList vs =>
      (fix go (fs : list (typ * tags)) (vs : list val) : Prop :=
        match fs, vs with
        | [], [] => True
        | (t, ts) :: fs, v :: vs =>
            rt_ok t ts v /\ (tail ts = true -> fs = [] /\ is_slice t = true) /\ go fs vs
        | _, _ => False
        end) fs vs
  | TPtr t, VPtr (Some v) =>
      rt_ok t notags v /\
      (nilOK ts = true -> enc t notags v <> Ret (inr [0x80]) /\ enc t notags v <> Ret (inr [0xC0]))
  | TPtr t, VPtr None =>
      nilOK ts = true /\
      (enc (TPtr t) ts v = Ret (inr [0x80]) \/ enc (TPtr t) ts v = Ret (inr [0xC0]))
  | TInterface, v => iface_ok v
  | _, _ => False
  end.

(** [b] is one complete item: a tag followed by the content it announces. *)
Definition item (b : bytes) : Prop :=
  exists k n bv h c, tag k n h bv /\ b = h ++ c /\ len c = n.

Lemma item_nonempty b : item b -> b <> [].
Proof.
  intros (k & n & bv & h & c & Ht & -> & _) He. apply tag_nonempty in Ht.
  apply app_eq_nil in He as [-> _]. done.
Qed.

Lemma item_header k small large c : (k = String /\ small = 0x80 /\ large = 0xB7) \/
    (k = List /\ small = 0xC0 /\ large = 0xF7) -> len c < 2 ^ 64 -> item (header small large (len c) ++ c).
Proof.
  intros Hk Hc. pose proof (len_nonneg c). exists k, (len c), 0, (header small large (len c)), c.
  by destruct Hk as [(-> & -> & ->)|(-> & -> & ->)].
Qed.

Lemma header_bytes small large n : 0 <= n < 2 ^ 63 -> 0 <= small <= 0xC0 -> 0 <= large <= 0xF7 ->
  is_bytes (header small large n).
Proof.
  intros Hn Hs Hl. unfold header. destruct (n <? 56) eqn:E; bool_to_prop.
  - repeat constructor; unfold is_byte; lia.
  - pose proof (byte_len_le 8 n ltac:(lia)). constructor; [|apply be_bytes_is_bytes].
    unfold is_byte. lia.
Qed.

(** What is shown of every encoding [b] of a value: it is one item made of bytes. *)
Definition good_enc (b : bytes) : Prop := len b < 2 ^ 63 -> item b /\ is_bytes b.

Lemma enc_str_good b : is_bytes b -> good_enc (enc_str b).
Proof.
  intros Hb Hl. pose proof (len_enc_str b). pose proof (len_nonneg b).
  destruct (enc_str_cases b Hb) as [(x & -> & Hx & ->)|[-> _]].
  - split; [|done]. by exists Byte, 0, x, [x], [].
  - split; [apply (item_header String); [by left|lia]|].
    apply Forall_app. split; [apply header_bytes; lia|done].
Qed.

Lemma enc_list_good p : (len p < 2 ^ 63 -> is_bytes p) -> good_enc (enc_list p).
Proof.
  intros Hp Hl. pose proof (len_enc_list p). pose proof (len_nonneg p).
  split; [apply (item_header List); [by right|lia]|].
  apply Forall_app. split; [apply header_bytes; lia|]. apply Hp. lia.
Qed.

Lemma dmap_fwd {A B} n (f : A -> B) d b a : decodes n d b a -> decodes n (dmap f d) b (f a).
Proof.
  intros Hd s r Hw Hk Hn Hi Hro. destruct (Hd s r Hw Hk Hn Hi Hro) as (s' & Hs & Hst & Hk').
  exists s'. split; [|done]. unfold dmap, dbind. by rewrite Hs.
Qed.

Lemma StreamRaw_fwd n c b : is_bytes c -> b = enc_str c \/ b = enc_list c -> decodes n StreamRaw b b.
Proof.
  intros Hc Hb s r Hw Hk _ Hi Hro. unfold StreamRaw, dbind.
  pose proof (wf_small _ Hw) as Hsm. rewrite Hi, len_app in Hsm.
  pose proof (len_nonneg r). pose proof (len_nonneg c).
  assert (Hlong : forall k small large, (k = String /\ small = 0x80 /\ large = 0xB7) \/
      (k = List /\ small = 0xC0 /\ large = 0xF7) -> b = header small large (len c) ++ c ->
    exists s1, StreamKind s = (inr (k, len c), s1) /\
      readFull (len c) s1 = (inr c, after s1 c r) /\ puthead small large (len c) ++ c = b /\
      step s b (after s1 c r)).
  { intros k small large Hk' ->. rewrite len_app in *.
    pose proof (len_nonneg (header small large (len c))).
    destruct (StreamKind_fwd s k (len c) (header small large (len c)) 0 (c ++ r))
      as (s1 & Hsk & Hs & Ha & _); try done.
    { destruct Hk' as [(-> & -> & ->)|(-> & -> & ->)]; split; done || lia. }
    { by rewrite Hi, <- app_assoc. }
    { rewrite len_app. lia. }
    pose proof (step_wf _ _ _ Hw Hs) as Hw1.
    assert (Hi1 : input s1 = c ++ r) by (apply (step_input_tail _ _ _ _ Hs); by rewrite Hi, <- app_assoc).
    exists s1. split_and!; [done|apply readFull_fwd; try done; apply Ha| |].
    - f_equal. apply puthead_header; lia.
    - eapply step_trans; [done|]. apply after_step; [done|apply Ha]. }
  destruct Hb as [Hb|Hb].
  - destruct (enc_str_cases c Hc) as [(x & -> & Hx & He)|[He _]]; rewrite He in Hb.
    + subst b. destruct (StreamKind_fwd s Byte 0 [x] x r) as (s1 & -> & Hs & Ha & Hbv); try done.
      simpl. rewrite Hbv by done. eexists. split; [done|]. split; [|done]. by apply (step_same _ _ s1).
    + destruct (Hlong String 128 183) as (s1 & -> & -> & Hp & Hst); [by left|done|].
      unfold dret. rewrite Hp. eexists. by split_and!.
  - destruct (Hlong List 192 247) as (s1 & -> & -> & Hp & Hst); [by right|done|].
    unfold dret. rewrite Hp. eexists. by split_and!.
Qed.

Lemma decodeByteArray_fwd n b : is_bytes b -> b <> [0] ->
  decodes n (decodeByteArray (length b)) (enc_str b) (VBytes b).
Proof.
  intros Hb Hz s r Hw Hk _ Hi Hro. unfold decodeByteArray, dbind.
  pose proof (wf_small _ Hw) as Hsm. rewrite Hi, len_app in Hsm.
  pose proof (len_nonneg r). pose proof (len_nonneg b).
  destruct (enc_str_cases b Hb) as [(x & -> & Hx & He)|[He H1]]; rewrite He in *.
  - destruct (StreamKind_fwd s Byte 0 [x] x r) as (s1 & -> & Hs & Ha & Hbv); try done. simpl.
    unfold Stream_uint, dbind. rewrite (StreamKind_ahead _ _ _ Ha), Hbv by done.
    rewrite (proj2 (Z.eqb_neq x 0)) by congruence. unfold u8. rewrite Z.mod_small by lia.
    eexists. split; [done|]. split; [|done]. by apply (step_same _ _ s1).
  - rewrite len_app in *. pose proof (len_nonneg (header 128 183 (len b))).
    destruct (StreamKind_fwd s String (len b) (header 128 183 (len b)) 0 (b ++ r))
      as (s1 & -> & Hs & Ha & _); try done.
    { split; [done|lia]. }
    { by rewrite Hi, <- app_assoc. }
    { rewrite len_app. lia. }
    fold (len b). rewrite Z.ltb_irrefl.
    pose proof (step_wf _ _ _ Hw Hs) as Hw1.
    assert (Hi1 : input s1 = b ++ r) by (apply (step_input_tail _ _ _ _ Hs); by rewrite Hi, <- app_assoc).
    rewrite (readFull_fwd (len b) s1 b r) by (done || apply Ha).
    assert ((len b =? 1) && (default 0 (head b) <? 128) = false) as ->.
    { destruct (len b =? 1) eqn:E; [|done]. bool_to_prop. simpl. apply Z.ltb_ge. auto. }
    eexists. split; [done|]. split; [|done]. eapply step_trans; [done|].
    apply after_step; [done|apply Ha].
Qed.

Lemma decodeBigInt_fwd n i : 0 <= i -> decodes n decodeBigInt (enc_str (big_Bytes i)) (VBig (Some i)).
Proof.
  intros Hi s r Hw Hk Hn Hin Hro.
  destruct (StreamBytes_fwd n (big_Bytes i) (big_Bytes_is_bytes i) s r Hw Hk Hn Hin Hro) as (s' & Hs & Hst & Hk').
  exists s'. split; [|done]. unfold decodeBigInt, dbind. rewrite Hs.
  pose proof (be_value_big_Bytes i Hi) as Hv. pose proof (big_Bytes_head i) as Hh.
  destruct (big_Bytes i) as [|x b]; [by rewrite Hv|].
  rewrite (proj2 (Z.eqb_neq x 0)) by (intros ->; done). by rewrite Hv.
Qed.

Lemma length_elems {A} (P : A -> bytes -> Prop) vs bs :
  Forall2 (fun v b => P v b /\ b <> []) vs bs -> (length vs <= length (mjoin bs))%nat.
Proof.
  induction 1 as [|v b vs bs [_ Hb] _ IH]; simpl; [done|]. rewrite length_app.
  destruct b; simpl in *; [done|lia].
Qed.

Lemma listSlice_fwd n d vs bs :
  eol d -> Forall2 (fun v b => decodes n d b v /\ b <> []) vs bs ->
  decodes n (decodeListSlice d n) (enc_list (mjoin bs)) (VList vs).
Proof.
  intros Heol HF s r Hw Hk Hn Hi Hro. set (p := mjoin bs) in *.
  pose proof (length_elems _ _ _ HF) as Hlv. fold p in Hlv.
  destruct (decide (len p = 0)) as [H0|H0].
  - apply len_0 in H0. rewrite H0 in *. destruct vs; [|simpl in Hlv; lia].
    unfold decodeListSlice, dbind.
    destruct (StreamList_fwd s [] r Hw Hk Hi Hro) as (s1 & -> & Hw1 & Hk1 & Hi1 & Hst1 & Hs1).
    destruct (ListEnd_fwd s s1 s1 (header 192 247 (len ([] : bytes))) [])
      as (s3 & He & Hs3 & Hk3); try done.
    { by apply step_nil. }
    simpl. rewrite He. eexists. by split_and!.
  - assert (Hlen : (length vs < n)%nat).
    { rewrite Hi in Hn. unfold enc_list in Hn. rewrite !length_app in Hn.
      assert (1 <= len p) by (pose proof (len_nonneg p); lia). unfold len in *. lia. }
    destruct (in_list_fwd n _ VList p vs (elems_fwd n d vs bs n Heol HF Hlen) s r Hw Hk Hn Hi Hro)
      as (s' & Hs & Hst & Hk').
    exists s'. split; [|done]. unfold decodeListSlice, in_list, dbind in *.
    destruct (StreamList_fwd s p r Hw Hk Hi Hro) as (s1 & Hsl & _). rewrite Hsl in *.
    by rewrite (proj2 (Z.eqb_neq _ _)).
Qed.

(** The encoding of a value of a struct field or of an untagged type: what the
    round trip of its type gives. *)
Definition rt_type (t : typ) : Prop := forall ts v, rt_ok t ts v ->
  exists b, enc t ts v = Ret (inr b) /\
    (tail ts = false -> good_enc b /\ (len b < 2 ^ 63 -> forall n, decodes (S n) (makeDecoder (S n) t ts) b v)) /\
    (tail ts = true -> is_slice t = true ->
       (len b < 2 ^ 63 -> is_bytes b /\ forall n, decodes_in (S n) (makeDecoder (S n) t ts) b v)).

(** A type whose decoder ignores the [tail] tag. *)
Lemma rt_type_plain t : is_slice t = false ->
  (forall ts v, rt_ok t ts v -> exists b, enc t ts v = Ret (inr b) /\ good_enc b /\
     (len b < 2 ^ 63 -> forall n, decodes (S n) (makeDecoder (S n) t ts) b v)) -> rt_type t.
Proof.
  intros Ht H ts v Hv. destruct (H ts v Hv) as (b & He & Hg & Hd). exists b.
  split_and!; [done|done|]. congruence.
Qed.

(** Encodings of the elements of a slice or array. *)
Lemma rt_elems t vs : rt_type t -> Forall (rt_ok t notags) vs ->
  exists bs, enc_elems (enc t notags) vs = Ret (inr (mjoin bs)) /\ length bs = length vs /\
    (len (mjoin bs) < 2 ^ 63 -> is_bytes (mjoin bs) /\
     forall n, Forall2 (fun v b => decodes (S n) (makeDecoder (S n) t notags) b v /\ b <> []) vs bs).
Proof.
  intros Ht. induction 1 as [|v vs Hv _ IH]; [exists []; split_and!; try done; intros _; split; [apply Forall_nil_2|intros n; constructor]|].
  destruct (Ht notags v Hv) as (b & He & Hplain & _). destruct (Hplain eq_refl) as [Hg Hd].
  destruct IH as (bs & Hes & Hlen & Hds). exists (b :: bs). simpl. rewrite He. simpl. rewrite Hes. simpl.
  split_and!; [done|by f_equal|]. rewrite len_app.
  pose proof (len_nonneg b). pose proof (len_nonneg (mjoin bs)). intros Hl.
  destruct (Hg ltac:(lia)) as [Hit Hby]. destruct (Hds ltac:(lia)) as [Hbs Hf].
  split; [by apply Forall_app|]. intros n. constructor; [|apply Hf].
  split; [apply Hd; lia|by apply item_nonempty].
Qed.

Lemma rt_slice t : rt_type t -> rt_type (TSlice t).
Proof.
  intros Ht ts v Hv. destruct v as [| | | |vs| |]; try done. simpl in Hv.
  destruct (rt_elems t vs Ht Hv) as (bs & He & Hlen & Hd). cbn [enc makeDecoder is_slice]. unfold as_list.
  destruct (tail ts) eqn:Ets; rewrite He; cbn [ebind]; eexists; (split; [done|]); split; try done.
  - intros _ _ Hl. destruct (Hd Hl) as [Hby Hf]. split; [done|]. intros n.
    intros s r t0 st Hw Hk Hn Hi Hst Hpos.
    destruct (elems_fwd (S n) (makeDecoder (S n) t notags) vs bs (S n)) with (s := s) (r := r) (t := t0) (st := st)
      as (s' & Hs & Hst' & Hk'); try done.
    { apply headed_eol, headed_makeDecoder. }
    { pose proof (length_elems _ _ _ (Hf n)). rewrite Hi, length_app in Hn. lia. }
    exists s'. split; [|done]. unfold dmap, dbind. by rewrite Hs.
  - intros _. split; [apply enc_list_good; intros; by apply Hd|].
    intros Hl n. pose proof (len_enc_list (mjoin bs)).
    apply listSlice_fwd; [apply headed_eol, headed_makeDecoder|]. apply Hd. lia.
Qed.

Lemma rt_array k t : rt_type t -> rt_type (TArray k t).
Proof.
  intros Ht. apply rt_type_plain; [done|]. intros ts v Hv. destruct v as [| | | |vs| |]; try done.
  simpl in Hv. destruct Hv as (Hts & Hk & Hv).
  destruct (rt_elems t vs Ht Hv) as (bs & He & Hlen & Hd). simpl. unfold as_list.
  rewrite decide_True, Hts, He by done. simpl. eexists. split; [done|]. split.
  - apply enc_list_good. intros. by apply Hd.
  - intros Hl n. pose proof (len_enc_list (mjoin bs)). destruct (Hd ltac:(lia)) as [_ Hf].
    apply (in_list_fwd (S n) (decodeArrayElems (makeDecoder (S n) t notags) k) VList). subst k.
    apply array_fwd. eapply Forall2_impl; [apply Hf|]. by intros ? ? [? _].
Qed.

Definition fields_ok : list (typ * tags) -> list val -> Prop :=
  fix go (fs : list (typ * tags)) (vs : list val) : Prop :=
    match fs, vs with
    | [], [] => True
    | (t, ts) :: fs, v :: vs =>
        rt_ok t ts v /\ (tail ts = true -> fs = [] /\ is_slice t = true) /\ go fs vs
    | _, _ => False
    end.

Lemma fields_cons_fwd n d ds b v p vs :
  (decodes n d b v \/ (p = [] /\ decodes_in n d b v)) -> decodes_in n (decodeFields ds) p vs ->
  decodes_in n (decodeFields (d :: ds)) (b ++ p) (v :: vs).
Proof.
  intros Hd Hds s r t st Hw Hk Hn Hi Hst He. rewrite len_app in He.
  pose proof (len_nonneg p). pose proof (len_nonneg b).
  assert (exists s1, d s = (inr v, s1) /\ step s b s1 /\ kind s1 = None) as (s1 & Hd1 & Hs1 & Hk1).
  { destruct Hd as [Hd|[-> Hd]].
    - apply (Hd s (p ++ r)); try done; [by rewrite Hi, app_assoc|]. rewrite Hst. simpl. lia.
    - rewrite app_nil_r in Hi. apply (Hd s r t st); try done. change (len ([] : bytes)) with 0 in He. lia. }
  simpl. rewrite Hd1. pose proof (step_length _ _ _ Hs1).
  destruct (Hds s1 r (Listpos (lpos t + len b) (lsize t)) st) as (s2 & Hs2 & Hst2 & Hk2).
  { by eapply step_wf. } { done. } { lia. }
  { apply (step_input_tail _ _ _ _ Hs1). by rewrite Hi, app_assoc. }
  { by rewrite (step_stack _ _ _ Hs1), Hst. }
  { simpl. lia. }
  unfold dmap, dbind. rewrite Hs2. eexists. split; [done|]. split; [|done]. by eapply step_trans.
Qed.

Lemma rt_fields fs vs : Forall (fun f => rt_type (fst f)) fs -> fields_ok fs vs ->
  exists b, enc_fields (map (fun f => enc (fst f) (snd f)) fs) vs = Ret (inr b) /\
    (len b < 2 ^ 63 -> is_bytes b /\ forall n,
      decodes_in (S n) (decodeFields (map (fun f => makeDecoder (S n) (fst f) (snd f)) fs)) b vs).
Proof.
  intros HF. revert vs. induction HF as [|[t ts] fs Ht HF IH]; intros [|v vs] Hok; try done.
  - exists []. split_and!; [done|]. intros _. split; [apply Forall_nil_2|].
    intros n s r t st Hw Hk Hn Hi Hst He. exists s. split_and!; [done|by apply step_nil|done].
  - simpl in Hok. destruct Hok as (Hv & Htail & Hok). simpl in Ht.
    destruct (Ht ts v Hv) as (b & He & Hp & Hta). destruct (IH vs Hok) as (p & Hep & Hdp).
    cbn [map enc_fields fst snd]. rewrite He. cbn [ebind]. rewrite Hep. cbn [ebind].
    exists (b ++ p). split; [done|]. rewrite len_app.
    pose proof (len_nonneg b). pose proof (len_nonneg p). intros Hl.
    destruct (Hdp ltac:(lia)) as [Hbp Hdp']. destruct (tail ts) eqn:Ets.
    + destruct (Htail eq_refl) as [-> Hsl]. destruct (Hta eq_refl Hsl ltac:(lia)) as [Hbb Hd].
      destruct vs; [|done]. simpl in Hep. injection Hep as <-.
      split; [by apply Forall_app|]. intros n. apply fields_cons_fwd; [right; split; [done|apply Hd]|apply Hdp'].
    + destruct (Hp eq_refl) as [Hg Hd]. destruct (Hg ltac:(lia)) as [_ Hbb].
      split; [by apply Forall_app|]. intros n. apply fields_cons_fwd; [left; apply Hd; lia|apply Hdp'].
Qed.

Lemma rt_struct fs : Forall (fun f => rt_type (fst f)) fs -> rt_type (TStruct fs).
Proof.
  intros HF. apply rt_type_plain; [done|]. intros ts v Hv. destruct v as [| | | |vs| |]; try done.
  destruct (rt_fields fs vs HF Hv) as (b & He & Hd). cbn [enc]. unfold as_list. simpl. rewrite He. simpl.
  eexists. split; [done|]. split.
  - apply enc_list_good. intros. by apply Hd.
  - intros Hl n. pose proof (len_enc_list b).
    apply (in_list_fwd (S n) (decodeFields _) VList). apply Hd. lia.
Qed.

(** The tag of an item is what [Kind] reports of it. *)
Lemma item_kind s b r : wf s -> kind s = None -> item b -> input s = b ++ r ->
  room (stack s) (len b) ->
  exists k n s1, StreamKind s = (inr (k, n), s1) /\
    ((n =? 0) && negb (bool_decide (k = Byte)) = true -> b = [0x80] \/ b = [0xC0]).
Proof.
  intros Hw Hk (k & n & bv & h & c & Ht & -> & Hl) Hi Hro. rewrite len_app in *.
  pose proof (len_nonneg c). pose proof (len_nonneg r).
  destruct (StreamKind_fwd s k n h bv (c ++ r)) as (s1 & Hs & _); try done.
  { by rewrite Hi, app_assoc. }
  { by rewrite <- Hl. }
  { rewrite len_app. lia. }
  exists k, n, s1. split; [done|]. intros [Hn Hb]%andb_true_iff. apply Z.eqb_eq in Hn.
  rewrite Hn in Hl. apply len_0 in Hl as ->.
  destruct k; [done| |]; simpl in Ht; destruct Ht as [-> _]; rewrite Hn; [by left|by right].
Qed.

Lemma rt_ptr t : rt_type t -> rt_type (TPtr t).
Proof.
  intros Ht. apply rt_type_plain; [done|]. intros ts v Hv. destruct v as [| | | | |[v|]|]; try done.
  - simpl in Hv. destruct Hv as [Hv Hnil]. destruct (Ht notags v Hv) as (b & He & Hp & _).
    destruct (Hp eq_refl) as [Hg Hd]. exists b. cbn [enc makeDecoder].
    split_and!; [done|done|]. intros Hl n. specialize (Hd Hl n).
    pose proof (dmap_fwd (S n) (fun v => VPtr (Some v)) _ _ _ Hd) as Hdp.
    destruct (nilOK ts) eqn:Enil; [|done].
    destruct (Hnil eq_refl) as [Hn1 Hn2]. intros s r Hw Hk Hn Hi Hro.
    destruct (Hg Hl) as [Hit _]. unfold decodeOptionalPtr.
    destruct (item_kind s b r Hw Hk Hit Hi Hro) as (k & m & s1 & Hs & H0). rewrite Hs.
    destruct ((m =? 0) && negb (bool_decide (k = Byte))) eqn:E0.
    + exfalso. destruct (H0 eq_refl) as [-> | ->]; congruence.
    + unfold decodePtr.
      rewrite (headed_peek EOL (dmap _ _) s (k, m) s1); [by apply (Hdp s r)| |done].
      apply headed_dmap, headed_makeDecoder.
  - change (rt_ok (TPtr t) ts (VPtr None)) with
      (nilOK ts = true /\ (enc (TPtr t) ts (VPtr None) = Ret (inr [0x80]) \/
                            enc (TPtr t) ts (VPtr None) = Ret (inr [0xC0]))) in Hv.
    destruct Hv as [Hnil Henc]. cbn [makeDecoder]. rewrite Hnil.
    assert (Hgo : forall k x, (k = String /\ x = 0x80) \/ (k = List /\ x = 0xC0) ->
      good_enc [x] /\ forall n, decodes (S n) (decodeOptionalPtr (makeDecoder (S n) t notags)) [x] (VPtr None)).
    { intros k x Hkx. split.
      - intros _. split; [|destruct Hkx as [[_ ->]|[_ ->]]; by apply (bool_decide_unpack _)].
        exists k, 0, 0, [x], []. split_and!; try done.
        by destruct Hkx as [[-> ->]|[-> ->]].
      - intros n s r Hw Hk Hn Hi Hro. unfold decodeOptionalPtr.
        destruct (StreamKind_fwd s k 0 [x] 0 r) as (s1 & -> & Hs & Ha & _); try done.
        { by destruct Hkx as [[-> ->]|[-> ->]]. }
        { apply len_nonneg. }
        destruct k; [by destruct Hkx as [[? _]|[? _]]|..]; simpl; eexists; (split; [done|]);
          (split; [|done]); by apply (step_same _ _ s1). }
    destruct Henc as [-> | ->]; eexists; (split; [done|]).
    + destruct (Hgo String 0x80) as [? ?]; [by left|]. by split.
    + destruct (Hgo List 0xC0) as [? ?]; [by right|]. by split.
Qed.

Definition rt_iface (v : val) : Prop := iface_ok v ->
  exists b, enc_iface v = Ret (inr b) /\ good_enc b /\
    (len b < 2 ^ 63 -> forall n fuel, (length b <= fuel)%nat ->
       decodes (S n) (decodeInterface (S n) (S fuel)) b v).

Lemma rt_iface_elems vs : Forall rt_iface vs -> iface_ok (VList vs) ->
  exists bs, enc_elems enc_iface vs = Ret (inr (mjoin bs)) /\
    (len (mjoin bs) < 2 ^ 63 -> is_bytes (mjoin bs) /\ forall n fuel, (length (mjoin bs) <= fuel)%nat ->
      Forall2 (fun v b => decodes (S n) (decodeInterface (S n) (S fuel)) b v /\ b <> []) vs bs).
Proof.
  induction 1 as [|v vs Hv _ IH]; intros Hok.
  { exists []. split; [done|]. intros _. split; [apply Forall_nil_2|]. intros. constructor. }
  simpl in Hok. destruct Hok as [Hokv Hok]. destruct (Hv Hokv) as (b & He & Hg & Hd).
  destruct (IH Hok) as (bs & Hes & Hds). exists (b :: bs). simpl. rewrite He. simpl. rewrite Hes. simpl.
  split; [done|]. rewrite len_app. pose proof (len_nonneg b). pose proof (len_nonneg (mjoin bs)).
  intros Hl. destruct (Hg ltac:(lia)) as [Hit Hby]. destruct (Hds ltac:(lia)) as [Hbs Hf].
  split; [by apply Forall_app|]. intros n fuel Hfu. rewrite length_app in Hfu.
  constructor; [|apply Hf; lia]. split; [apply Hd; lia|by apply item_nonempty].
Qed.

Lemma rt_interface_val v : rt_iface v.
Proof.
  induction v as [| | |b|vs IH| |] using val_ind_elems; intros Hok; try done.
  - exists (enc_str b). split; [done|]. split; [by apply enc_str_good|]. intros Hl n fuel Hfu.
    intros s r Hw Hk Hn Hi Hro.
    destruct (dmap_fwd _ VBytes _ _ _ (StreamBytes_fwd (S n) b Hok) s r Hw Hk Hn Hi Hro) as (s' & Hs & Hst).
    exists s'. split; [|done]. rewrite <- Hs. cbn [decodeInterface]. unfold dbind at 1.
    pose proof (headed_dmap EOL VBytes _ headed_StreamBytes) as Hh.
    destruct (StreamKind s) as [[e|[k m]] s1] eqn:Ek.
    + destruct Hh as (k & _ & Hh). rewrite Hh. unfold dbind. by rewrite Ek.
    + destruct k; [by apply (headed_peek _ _ _ _ _ Hh Ek)..|]. exfalso.
      destruct Hh as (kk & _ & Hh). unfold dmap, dbind, StreamBytes, dbind in Hs. by rewrite Ek in Hs.
  - destruct (rt_iface_elems vs IH Hok) as (bs & He & Hd).
    exists (enc_list (mjoin bs)). rewrite enc_iface_list. unfold as_list. rewrite He. split; [done|].
    split; [apply enc_list_good; intros; by apply Hd|]. intros Hl n fuel Hfu.
    pose proof (len_enc_list (mjoin bs)). destruct (Hd ltac:(lia)) as [_ Hf].
    assert (Hlt : (length (mjoin bs) < length (enc_list (mjoin bs)))%nat).
    { unfold enc_list. rewrite length_app. unfold header. case_match; simpl; lia. }
    destruct fuel as [|fuel]; [lia|].
    intros s r Hw Hk Hn Hi Hro.
    assert (Hls : decodes (S n) (decodeListSlice (decodeInterface (S n) (S fuel)) (S n))
      (enc_list (mjoin bs)) (VList vs)).
    { apply listSlice_fwd; [apply headed_eol, headed_interface|]. apply Hf. lia. }
    destruct (Hls s r Hw Hk Hn Hi Hro) as (s' & Hs & Hst).
    exists s'. split; [|done]. rewrite <- Hs.
    destruct (StreamList_fwd s _ r Hw Hk Hi Hro) as (s1 & Hsl & _).
    change (decodeInterface (S n) (S (S fuel)) s) with
      (dbind StreamKind (fun '(k, _) => match k with
         | List => decodeListSlice (decodeInterface (S n) (S fuel)) (S n)
         | _ => dmap VBytes StreamBytes end) s).
    unfold dbind at 1. unfold StreamList, dbind in Hsl.
    destruct (StreamKind s) as [[e|[k m]] s2] eqn:Ek; [done|]. destruct k; [done..|].
    apply (headed_peek EOL _ s (List, m) s2); [apply headed_listSlice|done].
Qed.

Lemma rt_all t : rt_type t.
Proof.
  induction t as [|m| | | | |m|t IH|m t IH|fs IH|t IH|] using typ_ind_fields;
    [..|by apply rt_slice|by apply rt_array|by apply rt_struct|by apply rt_ptr|];
    (apply rt_type_plain; [done|]); intros ts v Hv.
  - destruct v; try done. destruct Hv as (c & Hc & Hb). eexists. split; [done|]. split.
    + destruct Hb as [-> | ->]; [by apply enc_str_good|by apply enc_list_good].
    + intros _ n. apply dmap_fwd. by eapply StreamRaw_fwd.
  - destruct v as [i| | | | | |]; try done. destruct Hv as [Hb Hi].
    assert (Hu : u64 i = i).
    { apply u64_id. unfold is_u64, MaxUint64.
      destruct Hb as [->|[->|[->| ->]]]; lia. }
    simpl. rewrite Hu. eexists. split; [done|].
    split; [apply enc_str_good, big_Bytes_is_bytes|]. intros _ n. apply dmap_fwd. by apply Stream_uint_fwd.
  - destruct v as [|b| | | | |]; try done. eexists. split; [done|]. split.
    + apply enc_str_good. destruct b; by apply (bool_decide_unpack _).
    + intros _ n. apply (dmap_fwd _ VBool). intros s r Hw Hk Hn Hi Hro.
      destruct (Stream_uint_fwd (S n) 8 (if b then 1 else 0)) with (s := s) (r := r) as (s' & Hs & Hst);
        try done; [by left|by destruct b|by destruct b|by destruct b|].
      exists s'. unfold StreamBool, dbind. rewrite Hs. by destruct b.
  - destruct v; try done. eexists. split; [done|]. split; [by apply enc_str_good|].
    intros _ n. apply dmap_fwd. by apply StreamBytes_fwd.
  - destruct v as [| |[i|]| | | |]; try done. simpl in Hv. simpl. rewrite (proj2 (Z.ltb_ge _ _)) by lia.
    eexists. split; [done|]. split; [apply enc_str_good, big_Bytes_is_bytes|].
    intros _ n. by apply decodeBigInt_fwd.
  - destruct v; try done. eexists. split; [done|]. split; [by apply enc_str_good|].
    intros _ n. apply dmap_fwd. by apply StreamBytes_fwd.
  - destruct v; try done. destruct Hv as (Hb & <- & Hz). simpl. rewrite decide_True by done.
    eexists. split; [done|]. split; [by apply enc_str_good|]. intros _ n. by apply decodeByteArray_fwd.
  - destruct (rt_interface_val v) as (b & He & Hg & Hd); [by destruct v|]. exists b.
    split_and!; [by destruct v|done|]. intros Hl n s r Hw Hk Hn Hi Hro.
    assert (length b <= n)%nat as Hb by (rewrite Hi, length_app in Hn; lia).
    by apply (Hd Hl n n Hb s r).
Qed.

(** ** Canonicality *)

(** Types without one-byte arrays, with the integer widths of Go and with [tail]
    only on slices. *)
Fixpoint sane (t : typ) (ts : tags) : bool :=
  match t with
  | TUint bits => (bits =? 8) || (bits =? 16) || (bits =? 32) || (bits =? 64)
  | TByteArray n => negb (n =? 1)%nat
  | TSlice t => sane t notags
  | TArray _ t => negb (tail ts) && sane t notags
  | TStruct fs => forallb (fun f => sane (fst f) (snd f) && (negb (tail (snd f)) || is_slice (fst f))) fs
  | TPtr t => sane t notags
  | _ => true
  end.

(** Types without pointers tagged [nil]. *)
Fixpoint untagged (t : typ) (ts : tags) : bool :=
  match t with
  | TSlice t | TArray _ t => untagged t notags
  | TStruct fs => forallb (fun f => untagged (fst f) (snd f)) fs
  | TPtr t => negb (nilOK ts) && untagged t notags
  | _ => true
  end.

(** What a successful decoding consumed: at least a byte, and the encoding of the result. *)
Definition read_enc (t : typ) (ts : tags) (v : val) (b : bytes) : Prop :=
  (tail ts = false \/ is_slice t = false -> b <> []) /\
  (untagged t ts = true -> enc t ts v = Ret (inr b)).

Lemma header_nonempty small large n c : header small large n ++ c <> [].
Proof. unfold header. by case_match. Qed.

Lemma enc_str_nonempty b : enc_str b <> [].
Proof.
  unfold enc_str. repeat case_match; try done; apply header_nonempty.
Qed.

Lemma enc_list_nonempty b : enc_list b <> [].
Proof. apply header_nonempty. Qed.

Lemma parses_impl {A} (d : D A) (E F : A -> bytes -> Prop) :
  (forall a b, E a b -> F a b) -> parses d E -> parses d F.
Proof.
  intros HEF Hd s a s' Hw Hk Hs. destruct (Hd s a s' Hw Hk Hs) as (b & HE & Hst & Hk').
  exists b. auto.
Qed.

Lemma dmap_inv {A B} (f : A -> B) (d : D A) E :
  parses d E -> parses (dmap f d) (fun v b => exists a, v = f a /\ E a b).
Proof.
  intros Hd s v s' Hw Hk. unfold dmap, dbind. destruct (d s) as [[e|a] s1] eqn:Ed; [done|].
  intros [= <- <-]. destruct (Hd s a s1 Hw Hk Ed) as (b & HE & Hst & Hk'). exists b. eauto.
Qed.

Lemma StreamRaw_inv : parses StreamRaw (fun v b => v = b /\ b <> []).
Proof.
  intros s v s' Hw Hk. unfold StreamRaw, dbind.
  destruct (StreamKind s) as [[e|[k n]] s1] eqn:Ek; [done|].
  apply StreamKind_inv in Ek as (Ha & _ & h & Hs & Ht); [|done..].
  pose proof (step_wf _ _ _ Hw Hs) as Hw1.
  assert (Hlong : forall small large, h = header small large n -> 0 <= n < 2 ^ 64 ->
    0 <= small <= 0xC0 -> 0 <= large <= 0xF7 -> forall r s2,
    match readFull n s1 with
    | (inl e, s) => (inl e, s)
    | (inr b, s) => dret (puthead small large n ++ b) s
    end = (inr r, s2) -> exists b, (r = b /\ b <> []) /\ step s b s2 /\ kind s2 = None).
  { intros small large -> Hn Hs0 Hl0 r s2. destruct (readFull n s1) as [[e|c] s3] eqn:Er; [done|].
    apply readFull_inv in Er as (Hl & Haf & Hs2); [|done|lia]. intros [= <- <-].
    assert (n < 2 ^ 63).
    { pose proof (wf_small _ Hw1) as Hsm. rewrite (step_input _ _ _ Hs2), len_app in Hsm.
      pose proof (len_nonneg (input s3)). lia. }
    rewrite puthead_header by lia. eexists. split_and!; [done|apply header_nonempty|by eapply step_trans|].
    by rewrite Haf. }
  destruct k; simpl in Ht.
  - destruct Ht as (-> & -> & Hbv). intros [= <- <-]. exists [byteval s1].
    split_and!; [done|done|by apply (step_same _ _ s1)|done].
  - destruct Ht as [Hh Hn]. by apply Hlong.
  - destruct Ht as [Hh Hn]. by apply Hlong.
Qed.

Lemma decodeByteArray_inv n : n <> 1%nat ->
  parses (decodeByteArray n) (fun v b => exists c, v = VBytes c /\ length c = n /\ b = enc_str c).
Proof.
  intros Hn1 s v s' Hw Hk. unfold decodeByteArray, dbind.
  destruct (StreamKind s) as [[e|[k m]] s1] eqn:Ek; [done|].
  apply StreamKind_inv in Ek as (Ha & _ & h & Hs & Ht); [|done..].
  pose proof (step_wf _ _ _ Hw Hs) as Hw1. destruct k; simpl in Ht; [| |done].
  - destruct n as [|[|n]]; simpl; done.
  - destruct Ht as [-> Hm]. destruct (Z.of_nat n <? m) eqn:E1; [done|].
    destruct (m <? Z.of_nat n) eqn:E2; [done|]. bool_to_prop.
    assert (m = Z.of_nat n) by lia. subst m.
    destruct (readFull (Z.of_nat n) s1) as [[e|c] s2] eqn:Er; [done|].
    apply readFull_inv in Er as (Hl & Haf & Hs2); [|done|lia].
    rewrite (proj2 (Z.eqb_neq _ _)) by lia. simpl. intros [= <- <-].
    exists (header 128 183 (Z.of_nat n) ++ c). split_and!; [|by eapply step_trans|by rewrite Haf].
    exists c. split_and!; [done|unfold len in Hl; lia|].
    destruct (enc_str_cases c (step_bytes _ _ _ Hw1 Hs2)) as [(x & -> & _)|[-> _]]; [|by rewrite Hl].
    change (len [x]) with 1 in Hl. lia.
Qed.

Lemma decodeBigInt_inv : parses decodeBigInt (fun v b =>
  exists i, v = VBig (Some i) /\ 0 <= i /\ b = enc_str (big_Bytes i)).
Proof.
  intros s v s' Hw Hk. unfold decodeBigInt, dbind.
  destruct (StreamBytes s) as [[e|c] s1] eqn:Es; [done|].
  destruct (StreamBytes_inv s c s1 Hw Hk Es) as (b & [-> Hc] & Hst & Hk1). intros Hr.
  assert (Hh : head c <> Some 0 /\ v = VBig (Some (be_value c)) /\ s' = s1).
  { unfold dret in Hr. destruct c as [|x c]; [by simplify_eq|]. destruct (x =? 0) eqn:E; [done|]. bool_to_prop.
    simplify_eq. split_and!; [simpl; congruence|done|done]. }
  destruct Hh as (Hh & -> & ->). exists (enc_str c). split_and!; [|done|done].
  exists (be_value c). rewrite big_Bytes_be_value by done.
  split_and!; [done|by apply be_value_bound|done].
Qed.

Lemma listSlice_inv d n E :
  eol_only d -> parses d E ->
  parses (decodeListSlice d n) (fun v b => exists vs p, v = VList vs /\ elems_rel E vs p /\ b = enc_list p).
Proof.
  intros Heol Hd s v s' Hw Hk Hr.
  pose proof (in_list_inv (decodeSliceElems d n) VList _ (elems_inv d E n Heol Hd)) as Hin.
  unfold decodeListSlice, dbind in Hr. destruct (StreamList s) as [[e|m] s1] eqn:El; [done|].
  destruct (m =? 0) eqn:E0.
  - bool_to_prop. subst m.
    pose proof (StreamList_inv s 0 s1 Hw Hk El) as (Hw1 & Hk1 & Hn & Hro & Hst1 & Hs1).
    destruct (ListEnd_fwd s s1 s1 (header 192 247 0) []) as (s3 & He & Hs3 & Hk3); try done.
    { by apply step_nil. }
    rewrite He in Hr. unfold dret in Hr. simplify_eq. exists (enc_list []). split_and!; [|done|done].
    exists [], []. split_and!; [done|by exists []|done].
  - apply (Hin s v s' Hw Hk). unfold in_list, dbind. by rewrite El.
Qed.

Lemma array_inv d n E : parses d E ->
  parses (decodeArrayElems d n) (fun vs b => length vs = n /\ elems_rel E vs b).
Proof.
  intros Hd. induction n as [|n IH]; intros s vs s' Hw Hk; simpl.
  - intros [= <- <-]. exists []. split_and!; [done|by exists []|by apply step_nil|done].
  - destruct (d s) as [[e|v] s1] eqn:Ed; [by destruct e|].
    destruct (Hd s v s1 Hw Hk Ed) as (b & HE & Hs1 & Hk1). unfold dmap, dbind.
    destruct (decodeArrayElems d n s1) as [[e|ws] s2] eqn:Ee; [done|]. intros [= <- <-].
    destruct (IH s1 ws s2) as (c & (Hl & bs & HF & ->) & Hs2 & Hk2); [by eapply step_wf|done..|].
    exists (b ++ mjoin bs). split_and!; [by simpl; f_equal| |by eapply step_trans|done].
    exists (b :: bs). by split; [constructor|].
Qed.

(** Encodings of the elements determine the encoding of the sequence. *)
Lemma elems_rel_enc (f : val -> encoded) vs b :
  elems_rel (fun v b => f v = Ret (inr b)) vs b -> enc_elems f vs = Ret (inr b).
Proof.
  intros (bs & HF & ->). induction HF as [|v b vs bs He _ IH]; simpl; [done|]. by rewrite He, IH.
Qed.

Lemma elems_rel_impl {A} (E F : A -> bytes -> Prop) vs b :
  (forall v b, E v b -> F v b) -> elems_rel E vs b -> elems_rel F vs b.
Proof. intros HEF (bs & HF & ->). exists bs. split; [|done]. by eapply Forall2_impl. Qed.

Definition canon_type (t : typ) : Prop := forall ts n, sane t ts = true ->
  (tail ts = true -> is_slice t = true) ->
  parses (makeDecoder (S n) t ts) (read_enc t ts).

Lemma sane_uint bits ts : sane (TUint bits) ts = true -> uint_bits bits.
Proof. simpl. rewrite !orb_true_iff, !Z.eqb_eq. unfold uint_bits. tauto. Qed.

Lemma canon_slice t : canon_type t -> canon_type (TSlice t).
Proof.
  intros Ht ts n Hs Htl. simpl in Hs. pose proof (Ht notags n Hs ltac:(done)) as Hp.
  pose proof (headed_eol_only _ (headed_makeDecoder n t)) as Heol. cbn [makeDecoder].
  destruct (tail ts) eqn:Ets.
  - eapply parses_impl; [|apply dmap_inv, (elems_inv _ _ (S n) Heol Hp)].
    intros v b (vs & -> & Hel). split; [intros [?|?]; [congruence|done]|]. intros Hu. simpl in Hu.
    cbn [enc]. unfold as_list. rewrite Ets. apply elems_rel_enc.
    eapply elems_rel_impl; [|exact Hel]. intros w c [_ He]. auto.
  - eapply parses_impl; [|apply (listSlice_inv _ (S n) _ Heol Hp)].
    intros v b (vs & p & -> & Hel & ->). split; [intros _; apply enc_list_nonempty|].
    intros Hu. simpl in Hu. cbn [enc]. unfold as_list. rewrite Ets.
    rewrite (elems_rel_enc (enc t notags) vs p); [done|].
    eapply elems_rel_impl; [|exact Hel]. intros w c [_ He]. auto.
Qed.

Lemma canon_array k t : canon_type t -> canon_type (TArray k t).
Proof.
  intros Ht ts n Hs Htl. simpl in Hs. apply andb_true_iff in Hs as [Hts Hs].
  apply negb_true_iff in Hts. pose proof (Ht notags n Hs ltac:(done)) as Hp.
  cbn [makeDecoder].
  eapply parses_impl; [|apply (in_list_inv (decodeArrayElems _ k) VList _ (array_inv _ k _ Hp))].
  intros v b (vs & p & -> & [Hl Hel] & ->). split; [intros _; apply enc_list_nonempty|].
  intros Hu. simpl in Hu. cbn [enc]. rewrite decide_True by done. unfold as_list. rewrite Hts.
  rewrite (elems_rel_enc (enc t notags) vs p); [done|].
  eapply elems_rel_impl; [|exact Hel]. intros w c [_ He]. auto.
Qed.

Lemma fields_inv n fs : Forall (fun f => canon_type (fst f)) fs ->
  forallb (fun f => sane (fst f) (snd f) && (negb (tail (snd f)) || is_slice (fst f))) fs = true ->
  parses (decodeFields (map (fun f => makeDecoder (S n) (fst f) (snd f)) fs)) (fun vs b =>
    forallb (fun f => untagged (fst f) (snd f)) fs = true ->
    enc_fields (map (fun f => enc (fst f) (snd f)) fs) vs = Ret (inr b)).
Proof.
  induction 1 as [|[t ts] fs Ht _ IH]; intros Hsane s vs s' Hw Hk; simpl.
  - intros [= <- <-]. exists []. split_and!; [done|by apply step_nil|done].
  - cbn [forallb fst snd] in Hsane. apply andb_true_iff in Hsane as [Hst Hsf].
    apply andb_true_iff in Hst as [Hst Htl]. simpl in Ht.
    destruct (makeDecoder (S n) t ts s) as [[e|v] s1] eqn:Ed; [by destruct e|].
    destruct (Ht ts n Hst) with (s := s) (a := v) (s' := s1) as (b & [_ HE] & Hs1 & Hk1); try done.
    { intros Hta. rewrite Hta in Htl. done. }
    unfold dmap, dbind.
    destruct (decodeFields _ s1) as [[e|ws] s2] eqn:Ee; [done|]. intros [= <- <-].
    destruct (IH Hsf s1 ws s2) as (c & Hc & Hs2 & Hk2); [by eapply step_wf|done..|].
    exists (b ++ c). split_and!; [|by eapply step_trans|done].
    intros [Hu1 Hu2]%andb_true_iff. by rewrite (HE Hu1), (Hc Hu2).
Qed.

Lemma canon_struct fs : Forall (fun f => canon_type (fst f)) fs -> canon_type (TStruct fs).
Proof.
  intros HF ts n Hs Htl. cbn [makeDecoder].
  eapply parses_impl; [|apply (in_list_inv (decodeFields _) VList _ (fields_inv n fs HF Hs))].
  intros v b (vs & p & -> & Hel & ->). split; [intros _; apply enc_list_nonempty|].
  intros Hu. cbn [enc]. unfold as_list. simpl. by rewrite (Hel Hu).
Qed.

Lemma canon_ptr t : canon_type t -> canon_type (TPtr t).
Proof.
  intros Ht ts n Hs Htl. simpl in Hs. pose proof (Ht notags n Hs ltac:(done)) as Hp.
  assert (Hptr : parses (decodePtr (makeDecoder (S n) t notags)) (read_enc (TPtr t) ts)).
  { eapply parses_impl; [|apply dmap_inv, Hp]. intros v b (w & -> & Hne & He). split.
    - intros _. apply Hne. by left.
    - simpl. intros [_ Hu]%andb_true_iff. auto. }
  cbn [makeDecoder]. destruct (nilOK ts) eqn:Enil; [|done].
  intros s v s' Hw Hk Hr. unfold decodeOptionalPtr in Hr.
  destruct (StreamKind s) as [[e|[k m]] s1] eqn:Ek; [done|].
  destruct ((m =? 0) && negb (bool_decide (k = Byte))) eqn:E0.
  - simplify_eq. apply StreamKind_inv in Ek as (Ha & _ & h & Hst & Ht'); [|done..].
    exists h. split_and!; [|by apply (step_same _ _ s1)|done]. split.
    + intros _ ->. apply tag_nonempty in Ht'. done.
    + simpl. by rewrite Enil.
  - apply (Hptr s v s' Hw Hk). rewrite <- Hr. symmetry. apply (headed_peek EOL _ s (k, m) s1); [|done].
    apply headed_dmap, headed_makeDecoder.
Qed.

(** One unfolding of [decodeInterface]: the peek at the tag can be undone. *)
Lemma interface_unfold n fuel s r s' : decodeInterface n (S fuel) s = (r, s') ->
  (exists e s1, StreamKind s = (inl e, s1) /\ r = inl e) \/
  dmap VBytes StreamBytes s = (r, s') \/
  (exists m s1, StreamKind s = (inr (List, m), s1)) /\
    decodeListSlice (decodeInterface n fuel) n s = (r, s').
Proof.
  change (decodeInterface n (S fuel) s) with (dbind StreamKind (fun '(k, _) => match k with
    | List => decodeListSlice (decodeInterface n fuel) n
    | _ => dmap VBytes StreamBytes end) s).
  unfold dbind at 1. destruct (StreamKind s) as [[e|[k m]] s1] eqn:Ek.
  { intros [= <- <-]. left. eauto. }
  pose proof (headed_peek EOL _ s (k, m) s1 (headed_dmap EOL VBytes _ headed_StreamBytes) Ek) as Hb.
  pose proof (headed_peek EOL _ s (k, m) s1 (headed_listSlice (decodeInterface n fuel) n) Ek) as Hl.
  destruct k; rewrite ?Hb, ?Hl; [by auto..|]. right; right. eauto.
Qed.

Lemma interface_inv n fuel : parses (decodeInterface n fuel)
  (fun v b => b <> [] /\ enc_iface v = Ret (inr b)).
Proof.
  induction fuel as [|fuel IH]; intros s v s' Hw Hk Hr; [done|].
  destruct (interface_unfold _ _ _ _ _ Hr) as [(e & _ & _ & ?)|[Hd|[_ Hd]]]; [done| |].
  - destruct (dmap_inv VBytes _ _ StreamBytes_inv s v s' Hw Hk Hd) as (b & (c & -> & -> & _) & Hst & Hk').
    exists (enc_str c). split_and!; [apply enc_str_nonempty|done|done|done].
  - assert (Heol : eol_only (decodeInterface n fuel)).
    { destruct fuel; [done|]. apply headed_eol_only, headed_interface. }
    destruct (listSlice_inv _ n _ Heol IH s v s' Hw Hk Hd) as (b & (vs & p & -> & Hel & ->) & Hst & Hk').
    exists (enc_list p). split_and!; [apply enc_list_nonempty| |done|done].
    rewrite enc_iface_list. unfold as_list. simpl. rewrite (elems_rel_enc enc_iface vs p); [done|].
    eapply elems_rel_impl; [|exact Hel]. by intros w c [_ He].
Qed.

Lemma canon_all t : canon_type t.
Proof.
  induction t as [|m| | | | |m|t IH|m t IH|fs IH|t IH|] using typ_ind_fields;
    [..|by apply canon_slice|by apply canon_array|by apply canon_struct|by apply canon_ptr|];
    intros ts n Hs Htl; cbn [makeDecoder].
  - eapply parses_impl; [|apply dmap_inv, StreamRaw_inv]. intros v b (c & -> & -> & Hb). by split.
  - pose proof (sane_uint _ _ Hs) as Hb.
    eapply parses_impl; [|apply dmap_inv, (Stream_uint_inv m Hb)].
    intros v b (i & -> & -> & Hi). split; [intros _; apply enc_str_nonempty|]. intros _. simpl.
    rewrite u64_id; [done|]. unfold is_u64, MaxUint64.
    destruct Hb as [->|[->|[->| ->]]]; lia.
  - eapply parses_impl; [|apply dmap_inv].
    2: { intros s v s' Hw Hk Hr. unfold StreamBool, dbind in Hr.
      destruct (Stream_uint 8 s) as [[e|i] s1] eqn:Eu; [done|].
      destruct (Stream_uint_inv 8 ltac:(by left) s i s1 Hw Hk Eu) as (b & [-> _] & Hst & Hk').
      unfold dret in Hr. destruct (i =? 0) eqn:E0; [|destruct (i =? 1) eqn:E1; [|done]]; bool_to_prop;
        simplify_eq; eexists; (split; [|done]).
      - instantiate (1 := fun v b => b = enc_str (if v then [1] else [])). done.
      - done. }
    intros v b (c & -> & ->). split; [intros _; apply enc_str_nonempty|done].
  - eapply parses_impl; [|apply dmap_inv, StreamBytes_inv]. intros v b (c & -> & -> & _).
    split; [intros _; apply enc_str_nonempty|done].
  - eapply parses_impl; [|apply decodeBigInt_inv]. intros v b (i & -> & Hi & ->).
    split; [intros _; apply enc_str_nonempty|]. intros _. simpl. by rewrite (proj2 (Z.ltb_ge _ _)).
  - eapply parses_impl; [|apply dmap_inv, StreamBytes_inv]. intros v b (c & -> & -> & _).
    split; [intros _; apply enc_str_nonempty|done].
  - simpl in Hs. apply negb_true_iff, Nat.eqb_neq in Hs.
    eapply parses_impl; [|apply (decodeByteArray_inv m Hs)]. intros v b (c & -> & Hl & ->).
    split; [intros _; apply enc_str_nonempty|]. intros _. simpl. by rewrite decide_True.
  - eapply parses_impl; [|apply interface_inv]. intros v b [Hb He]. split; [done|]. by destruct v.
Qed.

(** ** Termination: the fuel of [DecodeBytes] is never used up *)

Definition fuel_ok {A} (n : nat) (d : D A) : Prop := forall s s', wf s -> kind s = None ->
  (length (input s) < n)%nat -> d s <> (inl OutOfFuel, s').

Lemma StreamKind_fuel s s' : kind s = None -> StreamKind s <> (inl OutOfFuel, s').
Proof.
  intros Hk. unfold StreamKind. rewrite Hk. simpl. case_match; [done|].
  destruct (readKind _) as [[[k n] e] s1] eqn:Er.
  assert (e <> Some OutOfFuel) by (intros ->; by apply readKind_never in Er).
  destruct e as [e|]; [congruence|]. by repeat case_match; simplify_eq.
Qed.

Lemma headed_fuel {A} n (d : D A) : headed OutOfFuel d -> fuel_ok n d.
Proof.
  intros (k & Hn & Hd) s s' Hw Hk _. rewrite Hd. unfold dbind.
  destruct (StreamKind s) as [[e|r] s1] eqn:E; [|apply Hn].
  intros [= -> ->]. by apply StreamKind_fuel in E.
Qed.

Lemma StreamList_shrinks s m s1 : wf s -> kind s = None -> StreamList s = (inr m, s1) ->
  wf s1 /\ kind s1 = None /\ (length (input s1) < length (input s))%nat.
Proof.
  intros Hw Hk Hs. destruct (StreamList_inv s m s1 Hw Hk Hs) as (Hw1 & Hk1 & _ & _ & _ & Hst).
  split_and!; [done|done|]. apply step_length in Hst. simpl in Hst.
  pose proof (header_nonempty 192 247 m []) as Hne. rewrite app_nil_r in Hne.
  destruct (header 192 247 m); simpl in *; [done|lia].
Qed.

Lemma in_list_fuel {A B} n (body : D A) (f : A -> B) : fuel_ok n body -> fuel_ok n (in_list body f).
Proof.
  intros Hb s s' Hw Hk Hn. unfold in_list, dbind.
  destruct (StreamList s) as [[e|m] s1] eqn:El.
  - intros [= -> ->]. by eapply (headed_fuel n StreamList headed_StreamList).
  - destruct (StreamList_shrinks s m s1 Hw Hk El) as (Hw1 & Hk1 & Hlt).
    destruct (body s1) as [[e|a] s2] eqn:Eb.
    + intros [= -> ->]. eapply Hb; [exact Hw1|done|lia|done].
    + destruct (ListEnd s2) as [[e|[]] s3] eqn:Ee; [|done].
      intros [= -> ->]. by eapply never_ListEnd.
Qed.

Lemma sliceElems_fuel n d E k s s' : fuel_ok n d -> parses d (fun v b => b <> [] /\ E v b) ->
  wf s -> kind s = None -> (length (input s) < n)%nat -> (length (input s) < k)%nat ->
  decodeSliceElems d k s <> (inl OutOfFuel, s').
Proof.
  intros Hd Hp. revert s. induction k as [|k IH]; intros s Hw Hk Hn Hlk; [lia|]. simpl.
  destruct (d s) as [[e|v] s1] eqn:Ed.
  - destruct e; try done. intros _. by eapply Hd.
  - destruct (Hp s v s1 Hw Hk Ed) as (b & [Hb _] & Hst & Hk1).
    pose proof (step_length _ _ _ Hst). assert (length b <> 0)%nat by (by destruct b).
    unfold dmap, dbind. destruct (decodeSliceElems d k s1) as [[e|vs] s2] eqn:Ee; [|done].
    intros [= -> ->]. eapply IH; [by eapply step_wf|done|..|done]; lia.
Qed.

(** A list of values whose decoder has fuel for inputs shorter than [n]. *)
Lemma listSlice_fuel n k d E : fuel_ok n d -> parses d (fun v b => b <> [] /\ E v b) ->
  (n <= k)%nat -> fuel_ok (S n) (decodeListSlice d k).
Proof.
  intros Hd Hp Hnk s s' Hw Hk Hn. unfold decodeListSlice, dbind.
  destruct (StreamList s) as [[e|m] s1] eqn:El.
  { intros [= -> ->]. by eapply (headed_fuel (S n) StreamList headed_StreamList). }
  destruct (StreamList_shrinks s m s1 Hw Hk El) as (Hw1 & Hk1 & Hlt).
  assert (He : forall s3 s4, ListEnd s3 <> (inl OutOfFuel, s4)) by (intros ? ?; apply never_ListEnd).
  destruct (m =? 0).
  - destruct (ListEnd s1) as [[e|[]] s2] eqn:Ee; [|done]. intros [= -> ->]. by apply He in Ee.
  - destruct (decodeSliceElems d k s1) as [[e|vs] s2] eqn:Es.
    + intros [= -> ->]. eapply (sliceElems_fuel n d E k s1); try done; lia.
    + destruct (ListEnd s2) as [[e|[]] s3] eqn:Ee; [|done]. intros [= -> ->]. by apply He in Ee.
Qed.

Lemma arrayElems_fuel n d E k : fuel_ok n d -> parses d E -> fuel_ok n (decodeArrayElems d k).
Proof.
  intros Hd Hp. induction k as [|k IH]; intros s s' Hw Hk Hn; simpl; [done|].
  destruct (d s) as [[e|v] s1] eqn:Ed.
  - destruct e; try done. intros _. by eapply Hd.
  - destruct (Hp s v s1 Hw Hk Ed) as (b & _ & Hst & Hk1). pose proof (step_length _ _ _ Hst).
    unfold dmap, dbind. destruct (decodeArrayElems d k s1) as [[e|vs] s2] eqn:Ee; [|done].
    intros [= -> ->]. eapply IH; [by eapply step_wf|done|lia|done].
Qed.

Definition fuel_type (t : typ) : Prop := forall ts n, sane t ts = true ->
  (tail ts = true -> is_slice t = true) -> fuel_ok (S n) (makeDecoder (S n) t ts).

Lemma fields_fuel n fs : Forall (fun f => fuel_type (fst f)) fs ->
  forallb (fun f => sane (fst f) (snd f) && (negb (tail (snd f)) || is_slice (fst f))) fs = true ->
  fuel_ok (S n) (decodeFields (map (fun f => makeDecoder (S n) (fst f) (snd f)) fs)).
Proof.
  induction 1 as [|[t ts] fs Ht _ IH]; intros Hsane s s' Hw Hk Hn; simpl; [done|].
  cbn [forallb fst snd] in Hsane. apply andb_true_iff in Hsane as [Hst Hsf].
  apply andb_true_iff in Hst as [Hst Htl]. simpl in Ht.
  assert (Htl' : tail ts = true -> is_slice t = true) by (intros Hta; by rewrite Hta in Htl).
  destruct (makeDecoder (S n) t ts s) as [[e|v] s1] eqn:Ed.
  - destruct e; try done. intros _. by eapply (Ht ts n Hst Htl').
  - destruct (canon_all t ts n Hst Htl' s v s1 Hw Hk Ed) as (b & _ & Hs1 & Hk1).
    pose proof (step_length _ _ _ Hs1). unfold dmap, dbind.
    destruct (decodeFields _ s1) as [[e|ws] s2] eqn:Ee; [|done].
    intros [= -> ->]. eapply (IH Hsf); [by eapply step_wf|done|lia|done].
Qed.

Lemma interface_fuel n fuel : (fuel <= n)%nat -> fuel_ok fuel (decodeInterface n fuel).
Proof.
  induction fuel as [|fuel IH]; intros Hf s s' Hw Hk Hn Hr; [lia|].
  destruct (interface_unfold _ _ _ _ _ Hr) as [(e & s1 & He & [= <-])|[Hd|[_ Hd]]].
  - by apply StreamKind_fuel in He.
  - by eapply (headed_fuel (S fuel) _ (headed_dmap _ VBytes _ headed_StreamBytes)).
  - eapply (listSlice_fuel fuel n _ (fun v b => enc_iface v = Ret (inr b))); [apply IH; lia| |lia| | | |]; try done.
    apply interface_inv.
Qed.

Lemma fuel_all t : fuel_type t.
Proof.
  induction t as [|m| | | | |m|t IH|m t IH|fs IH|t IH|] using typ_ind_fields;
    intros ts n Hs Htl; cbn [makeDecoder].
  1-7: apply headed_fuel.
  - apply headed_dmap, headed_StreamRaw.
  - apply headed_dmap, headed_uint.
  - apply headed_dmap, headed_bind; [apply headed_uint|]. intros i.
    repeat case_match; auto with juchain. by intros s s'.
  - apply headed_dmap, headed_StreamBytes.
  - apply headed_bind; [apply headed_StreamBytes|]. intros b.
    repeat case_match; auto with juchain. by intros s s'.
  - apply headed_dmap, headed_StreamBytes.
  - apply headed_kind. intros [[] k]; [| |by intros s s'].
    + repeat case_match; [by intros s s'..|]. intros s s'. by repeat case_match.
    + repeat case_match; [by intros s s'..|]. apply never_bind; [apply never_readFull|].
      intros b. case_match; [by intros s s'|apply never_dret].
  - simpl in Hs. pose proof (IH notags n Hs ltac:(done)) as Hd.
    assert (Hp : parses (makeDecoder (S n) t notags) (fun v b => b <> [] /\ True)).
    { eapply parses_impl; [|apply (canon_all t notags n Hs); done].
      intros v b [Hb _]. split; [|done]. apply Hb. by left. }
    destruct (tail ts).
    + intros s s' Hw Hk Hn. unfold dmap, dbind.
      destruct (decodeSliceElems _ (S n) s) as [[e|vs] s1] eqn:Es; [|done].
      intros [= -> ->].
      eapply (sliceElems_fuel (S n) _ (fun _ _ => True) (S n) s); [exact Hd|exact Hp|done..|exact Es].
    + intros s s' Hw Hk Hn. eapply (listSlice_fuel (S n)); [exact Hd|exact Hp|lia|done|done|lia].
  - simpl in Hs. apply andb_true_iff in Hs as [_ Hs]. pose proof (IH notags n Hs ltac:(done)) as Hd.
    apply (in_list_fuel (S n) (decodeArrayElems _ m) VList).
    eapply arrayElems_fuel; [done|]. by apply (canon_all t notags n Hs).
  - apply (in_list_fuel (S n) (decodeFields _) VList). by apply fields_fuel.
  - simpl in Hs. pose proof (IH notags n Hs ltac:(done)) as Hd.
    assert (Hptr : fuel_ok (S n) (decodePtr (makeDecoder (S n) t notags))).
    { intros s s' Hw Hk Hn. unfold decodePtr, dmap, dbind.
      destruct (makeDecoder _ t notags s) as [[e|v] s1] eqn:Es; [|done].
      intros [= -> ->]. by eapply Hd. }
    destruct (nilOK ts); [|done]. intros s s' Hw Hk Hn. unfold decodeOptionalPtr.
    destruct (StreamKind s) as [[e|[k m]] s1] eqn:Ek.
    + intros [= -> _]. by apply StreamKind_fuel in Ek.
    + case_match; [done|].
      rewrite (headed_peek EOL (decodePtr _) s (k, m) s1); [by apply Hptr| |done].
      apply headed_dmap, headed_makeDecoder.
  - by apply interface_fuel.
Qed.

End RlpCodec.

Module RlpClaims.
Import Rlp RlpRef RlpEncodeProps RlpStream RlpStreamProps RlpCodec.

Lemma NewStream_wf b : is_bytes b -> len b < 2 ^ 63 -> wf (NewStream b (len b)).
Proof.
  intros Hb Hl. split; try done. simpl. destruct (0 <? len b) eqn:E; done.
Qed.

Lemma NewStream_len b : NewStream b 0 = NewStream b (len b).
Proof. unfold NewStream. by destruct (0 <? len b). Qed.

(** Encoding and both ways of decoding. *)
Lemma encode_decode t v : rt_ok t notags v ->
  exists b, enc t notags v = Ret (inr b) /\ b <> [] /\
    (len b < 2 ^ 63 -> EncodeToBytes t v = Ret (inr b) /\ DecodeBytes t b = inr v /\ Decode t b = inr v).
Proof.
  intros Hv. destruct (rt_all t notags v Hv) as (b & He & Hp & _).
  destruct (Hp eq_refl) as [Hg Hd]. exists b. split; [done|]. split; [intros ->; by destruct (item_nonempty [] (proj1 (Hg eq_refl)))|]. intros Hl.
  split; [by apply EncodeToBytes_enc|]. unfold DecodeBytes, Decode. rewrite NewStream_len. destruct (Hg Hl) as [_ Hb].
  destruct (Hd Hl (length b) (NewStream b (len b)) []) as (s' & -> & Hst & _);
    [by apply NewStream_wf|done|simpl; lia|simpl; by rewrite app_nil_r|done|].
  by rewrite (step_input_tail _ _ _ [] Hst) by (simpl; by rewrite app_nil_r).
Qed.

(** C14: Decoding inverts encoding: every value of a Go type that RLP can represent
    faithfully ([rt_ok]) is encoded by [EncodeToBytes] without error, and
    [DecodeBytes] of the encoding into the same type returns the value. This covers
    integers of every width, big integers, strings, byte slices and arrays, slices,
    arrays, structs with [nil] and [tail] fields, pointers and [interface{}]. *)
Theorem rlp_roundtrip t v : rt_ok t notags v ->
  exists b, enc t notags v = Ret (inr b) /\
    (len b < 2 ^ 63 -> EncodeToBytes t v = Ret (inr b) /\ DecodeBytes t b = inr v).
Proof.
  intros Hv. destruct (encode_decode t v Hv) as (b & He & _ & Hd). exists b. split; [done|]. intros Hl.
  destruct (Hd Hl) as (? & ? & _). done.
Qed.

(** The layout of [types.Account]-like and [txdata]-like records. *)
Definition sample_type : typ := TStruct
  [(TUint 64, notags); (TBig, notags); (TPtr (TByteArray 20), Tags true false);
   (TByteArray 32, notags); (TBytes, notags); (TSlice (TUint 8), Tags false true)].
Definition sample_value : val := VList
  [VUint 9; VBig (Some (10 ^ 18)); VPtr None; VBytes (replicate 32 171); VBytes [1; 2; 3];
   VList [VUint 7; VUint 200]].

Lemma rlp_roundtrip_witness : DecodeBytes sample_type
  match EncodeToBytes sample_type sample_value with Ret (inr b) => b | _ => [] end = inr sample_value.
Proof.
  destruct (rlp_roundtrip sample_type sample_value) as (b & He & Hb).
  - simpl. split_and!; try done; try (by apply (bool_decide_unpack _)).
    + by left.
    + repeat constructor; done.
  - destruct Hb as [-> Hd]; [|exact Hd].
    assert (b = match enc sample_type notags sample_value with Ret (inr b) => b | _ => [] end) as ->
      by (by rewrite He).
    vm_compute. reflexivity.
Defined.

(** The decoder is canonical: for types without pointers tagged [nil], whatever
    byte string [DecodeBytes] accepts is the encoding of the value it returns, so no
    two byte strings decode to the same value. *)
Theorem rlp_canonical t b v : sane t notags = true -> untagged t notags = true ->
  is_bytes b -> len b < 2 ^ 63 -> DecodeBytes t b = inr v -> EncodeToBytes t v = Ret (inr b).
Proof.
  intros Hs Hu Hb Hl. unfold DecodeBytes.
  destruct (makeDecoder _ t notags _) as [[e|w] s'] eqn:Ed; [done|].
  destruct (canon_all t notags (length b) Hs ltac:(done) _ w s' (NewStream_wf b Hb Hl) eq_refl Ed)
    as (c & [_ He] & Hst & _).
  destruct (0 <? len (input s')) eqn:E0; [done|]. intros [= <-].
  assert (input s' = []) as Hn. { apply len_0. bool_to_prop. pose proof (len_nonneg (input s')). lia. }
  pose proof (step_input _ _ _ Hst) as Hi. rewrite Hn, app_nil_r in Hi. simpl in Hi. subst c.
  apply EncodeToBytes_enc; auto.
Qed.

Lemma rlp_canonical_witness :
  EncodeToBytes (TSlice (TUint 16)) (VList [VUint 1; VUint 1024]) = Ret (inr [0xC4; 0x01; 0x82; 0x04; 0x00]).
Proof. apply rlp_canonical; [done|done|by apply (bool_decide_unpack _)|done|vm_compute; reflexivity]. Defined.

(** Decoding terminates on every input: for types without one-byte arrays the
    loops of the decoder consume input at each turn, so a number of turns bounded by
    the length of the input is enough ([OutOfFuel] is never returned). *)
Theorem rlp_decode_terminates t b : sane t notags = true -> is_bytes b -> len b < 2 ^ 63 ->
  DecodeBytes t b <> inl OutOfFuel.
Proof.
  intros Hs Hb Hl. unfold DecodeBytes.
  destruct (makeDecoder _ t notags _) as [[e|w] s'] eqn:Ed; [|by case_match].
  intros [= ->]. eapply (fuel_all t notags (length b)); [done|done|by apply NewStream_wf|done| |exact Ed].
  simpl. lia.
Qed.

Lemma rlp_decode_terminates_witness : DecodeBytes TInterface [0xC3; 0xC1; 0xC0; 0x05] <> inl OutOfFuel.
Proof. apply rlp_decode_terminates; [done|by apply (bool_decide_unpack _)|done]. Defined.

(** Decoding a slice of one-byte arrays does not terminate on its own encoding:
    [[][1]byte{{0}}] is encoded as [C1 00], and [decodeByteArray] drops the error of
    [Uint] on the zero byte without rearming [Kind], so the element loop sees the same
    cached byte again and never reaches the end of the list, whatever number of turns
    it is given. *)
Theorem rlp_byte_array_loop :
  EncodeToBytes (TSlice (TByteArray 1)) (VList [VBytes [0]]) = Ret (inr [0xC1; 0x00]) /\
  forall n, fst (makeDecoder n (TSlice (TByteArray 1)) notags (NewStream [0xC1; 0x00] 2)) = inl OutOfFuel.
Proof.
  split; [done|]. intros n. cbn [makeDecoder tail notags]. unfold decodeListSlice.
  assert (Hl : StreamList (NewStream [0xC1; 0x00] 2) =
    (inr 1, MkStream [0x00] 1 true None 0 0 None [Listpos 0 1])) by done.
  unfold dbind. rewrite Hl. change (1 =? 0) with false. cbv iota. clear Hl.
  assert (Hloop : forall k, fst (decodeSliceElems (decodeByteArray 1) k
    (MkStream [] 0 true (Some Byte) 0 0 None [Listpos 1 1])) = inl OutOfFuel).
  { induction k as [|k IH]; [done|]. simpl. unfold dmap, dbind.
    by destruct (decodeSliceElems _ k _) as [[e|vs] s2]; simpl in IH; simplify_eq. }
  destruct n as [|n]; [done|]. simpl. unfold dmap, dbind.
  specialize (Hloop n). by destruct (decodeSliceElems _ n _) as [[e|vs] s2]; simpl in Hloop; simplify_eq.
Qed.

(** A pointer tagged [nil] accepts both empty encodings: the string and the list. *)
Lemma nil_pointer_two_encodings :
  let t := TStruct [(TPtr (TByteArray 20), Tags true false)] in
  DecodeBytes t [0xC1; 0x80] = inr (VList [VPtr None]) /\
  DecodeBytes t [0xC1; 0xC0] = inr (VList [VPtr None]).
Proof. done. Qed.

End RlpClaims.
