(* ===== verification/RlpRaw.v ===== *)
(** Raw RLP access ([common/rlp/raw.go]): splitting the first value off a byte
    slice and counting values, without a [Stream]. *)

From S2P Require Import Prelude Params Bytes RlpEncode RlpDecode RlpRoundtrip.

Module RlpRaw.
Import Rlp RlpStream.

Definition ListSize (contentSize : Z) : Z := u64 (headsize contentSize + contentSize).

(** The shifted bytes of [readSize], joined with [|]. *)
Fixpoint or_bytes (acc : Z) (b : bytes) : Z :=
  match b with
  | [] => acc
  | x :: b => or_bytes (Z.lor (Z.shiftl acc 8) x) b
  end.

(** [readSize]; [slen] is between 1 and 8. *)
Definition readSize (b : bytes) (slen : Z) : rlp_error + Z :=
  if len b <? slen then inl io_ErrUnexpectedEOF
  else
    let s := or_bytes 0 (take (Z.to_nat slen) b) in
    if (s <? 56) || (default 0 (head b) =? 0) then inl ErrCanonSize else inr s.

(** The check shared by all kinds: reject values larger than the input slice. *)
Definition fits (buf : bytes) (k : Kind) (tagsize : Z) (r : rlp_error + Z)
    : rlp_error + (Kind * Z * Z) :=
  match r with
  | inl e => inl e
  | inr contentsize =>
      if u64 (len buf - tagsize) <? contentsize then inl ErrValueTooLarge
      else inr (k, tagsize, contentsize)
  end.

(** [readKind] on a slice; indexing past its end panics. *)
Definition readKind_raw (buf : bytes) : outcome (rlp_error + (Kind * Z * Z)) :=
  match buf with
  | [] => Ret (inl io_ErrUnexpectedEOF)
  | b :: rest =>
      if b <? 0x80 then Ret (fits buf Byte 0 (inr 1))
      else if b <? 0xB8 then
        let contentsize := b - 0x80 in
        if contentsize =? 1 then
          match rest with
          | [] => Panic
          | x :: _ => Ret (if x <? 128 then inl ErrCanonSize else fits buf String 1 (inr contentsize))
          end
        else Ret (fits buf String 1 (inr contentsize))
      else if b <? 0xC0 then Ret (fits buf String (b - 0xB7 + 1) (readSize rest (b - 0xB7)))
      else if b <? 0xF8 then Ret (fits buf List 1 (inr (b - 0xC0)))
      else Ret (fits buf List (b - 0xF7 + 1) (readSize rest (b - 0xF7)))
  end.

(** [Split]: kind, content and rest. *)
Definition Split (b : bytes) : outcome (rlp_error + (Kind * bytes * bytes)) :=
  r ← readKind_raw b;
  Ret match r with
      | inl e => inl e
      | inr (k, ts, cs) =>
          inr (k, take (Z.to_nat cs) (drop (Z.to_nat ts) b), drop (Z.to_nat (ts + cs)) b)
      end.

Definition SplitString (b : bytes) : outcome (rlp_error + (bytes * bytes)) :=
  r ← Split b;
  Ret match r with
      | inl e => inl e
      | inr (List, _, _) => inl ErrExpectedString
      | inr (_, content, rest) => inr (content, rest)
      end.

Definition SplitList (b : bytes) : outcome (rlp_error + (bytes * bytes)) :=
  r ← Split b;
  Ret match r with
      | inl e => inl e
      | inr (List, content, rest) => inr (content, rest)
      | inr (_, _, _) => inl ErrExpectedList
      end.

(** The loop of [CountValues]; [fuel] bounds the number of values, which the length
    of the slice bounds. *)
Fixpoint count_loop (fuel : nat) (i : Z) (b : bytes) : outcome (rlp_error + Z) :=
  match b, fuel with
  | [], _ => Ret (inr i)
  | _, O => Ret (inl OutOfFuel)
  | _, S fuel =>
      r ← readKind_raw b;
      match r with
      | inl e => Ret (inl e)
      | inr (_, tagsize, size) => count_loop fuel (i + 1) (drop (Z.to_nat (tagsize + size)) b)
      end
  end.
Definition CountValues (b : bytes) : outcome (rlp_error + Z) := count_loop (length b) 0 b.

End RlpRaw.

Module RlpRawProps.
Import Rlp RlpRef RlpEncodeProps RlpStream RlpStreamProps RlpCodec RlpRaw.

Lemma lor_shift acc x : 0 <= acc -> is_byte x -> Z.lor (Z.shiftl acc 8) x = acc * 256 + x.
Proof.
  intros Ha [Hx0 Hx]. rewrite Z.shiftl_mul_pow2 by lia. change (2 ^ 8) with 256.
  rewrite <- Z.lxor_lor, <- Z.add_nocarry_lxor; [done|..]; apply Z.bits_inj'; intros n Hn;
    rewrite Z.land_spec, Z.bits_0; change 256 with (2 ^ 8);
    (destruct (decide (n < 8)); [by rewrite Z.mul_pow2_bits_low|]);
    rewrite (Z.bits_above_log2 x), andb_false_r; try done;
    (destruct (decide (x = 0)) as [->|]; [simpl; lia|]);
    (apply Z.log2_lt_pow2; [lia|]); eapply Z.lt_le_trans;
    [|apply (Z.pow_le_mono_r 2 8 n); lia|..|apply (Z.pow_le_mono_r 2 8 n); lia]; lia.
Qed.

Lemma or_bytes_value acc b : 0 <= acc -> is_bytes b -> or_bytes acc b = be_value_acc acc b.
Proof.
  intros Ha Hb. revert acc Ha. induction Hb as [|x b Hx Hb IH]; intros acc Ha; [done|]. simpl.
  rewrite lor_shift by done. apply IH. unfold is_byte in Hx. lia.
Qed.

(** The item announced by a tag, as [Split] and the decoder see it. *)
Definition enc_kind (k : Kind) (c : bytes) : bytes :=
  match k with List => enc_list c | _ => enc_str c end.

Definition kind_of (k : Kind) (c : bytes) : Prop :=
  match k with
  | Byte => exists x, c = [x] /\ 0 <= x < 128
  | String => forall x, c = [x] -> 128 <= x
  | List => True
  end.

Lemma readSize_inv b slen n : is_bytes b -> 1 <= slen <= 8 -> readSize b slen = inr n ->
  exists c r, b = c ++ r /\ len c = slen /\ 56 <= n < 2 ^ 64 /\
    forall small large, header small large n = large + slen :: c.
Proof.
  intros Hb Hs. unfold readSize. destruct (len b <? slen) eqn:El; [done|]. bool_to_prop.
  set (c := take (Z.to_nat slen) b). assert (Hc : is_bytes c) by (by apply Forall_take).
  assert (Hlc : len c = slen) by (subst c; rewrite len_take; lia).
  rewrite or_bytes_value by done. fold (be_value c).
  destruct (be_value c <? 56) eqn:E56; [done|]. simpl.
  destruct (default 0 (head b) =? 0) eqn:Eh; [done|]. bool_to_prop. intros [= <-].
  exists c, (drop (Z.to_nat slen) b). split; [unfold c; by rewrite take_drop|]. split; [done|].
  assert (Hh : head c <> Some 0).
  { subst c. destruct b as [|x b]; [rewrite len_nil in El; lia|].
    destruct (Z.to_nat slen) as [|m] eqn:Em; [lia|]. simpl in *. congruence. }
  assert (Hhd : forall large, header 0 large (be_value c) = large + len c :: c /\ be_value c < 2 ^ 64).
  { intros large. apply header_large_inv; [done|lia|done|lia|done]. }
  split; [split; [lia|apply (Hhd 0)]|].
  intros. rewrite (header_small small 0), <- Hlc by lia. apply Hhd.
Qed.

Lemma readSize_fwd n c r : 56 <= n < 2 ^ 64 -> c = be_bytes (byte_len n) n -> readSize (c ++ r) (len c) = inr n.
Proof.
  intros Hn ->. destruct (header_large_fwd n Hn) as (Hl & Hv & Hh & _).
  set (c := be_bytes (byte_len n) n) in *. unfold readSize.
  rewrite (proj2 (Z.ltb_ge _ _)) by (rewrite len_app; pose proof (len_nonneg r); lia).
  assert (Hor : or_bytes 0 (take (Z.to_nat (len c)) (c ++ r)) = n).
  { unfold len. rewrite Nat2Z.id, take_app_length.
    by rewrite or_bytes_value by (done || apply be_bytes_is_bytes). }
  rewrite Hor, (proj2 (Z.ltb_ge _ _)) by lia. clear Hor.
  clearbody c. destruct c as [|x c]; [rewrite len_nil in Hl; lia|]. simpl in *.
  by rewrite (proj2 (Z.eqb_neq _ _)) by congruence.
Qed.

(** What [readKind] accepts is the canonical encoding of the value it delimits. *)
Lemma readKind_raw_inv b k ts cs : is_bytes b -> len b < 2 ^ 63 ->
  readKind_raw b = Ret (inr (k, ts, cs)) ->
  exists c r, b = enc_kind k c ++ r /\ kind_of k c /\ len c = cs /\
    ts + cs = len (enc_kind k c) /\ drop (Z.to_nat ts) b = c ++ r /\ 0 <= ts.
Proof.
  intros Hb Hl. destruct b as [|x b]; [done|].
  pose proof Hb as [Hx Hb']%Forall_cons. unfold is_byte in Hx.
  assert (Hlen : len (x :: b) = 1 + len b) by apply len_cons. pose proof (len_nonneg b).
  assert (Hgen : forall kd small large h r n,
    (kd = String /\ small = 0x80 /\ large = 0xB7) \/ (kd = List /\ small = 0xC0 /\ large = 0xF7) ->
    x :: b = h ++ r -> h = header small large n -> 0 <= n ->
    (kd = String -> n = 1 -> 128 <= default 0 (head r)) ->
    fits (x :: b) kd (len h) (inr n) = inr (k, ts, cs) ->
    exists c r, x :: b = enc_kind k c ++ r /\ kind_of k c /\ len c = cs /\
      ts + cs = len (enc_kind k c) /\ drop (Z.to_nat ts) (x :: b) = c ++ r /\ 0 <= ts).
  { intros kd small large h r n Hkd Heq Hh Hn H1 Hf. unfold fits in Hf.
    pose proof (len_nonneg h). pose proof (len_nonneg r).
    rewrite Heq, len_app in Hf, Hl.
    replace (len h + len r - len h) with (len r) in Hf by lia.
    rewrite u64_id in Hf by go_lia. destruct (len r <? n) eqn:En; [done|]. bool_to_prop. injection Hf as <- <- <-.
    set (c := take (Z.to_nat n) r).
    assert (Hlc : len c = n) by (subst c; rewrite len_take; lia).
    assert (Hc : is_bytes c).
    { rewrite Heq in Hb. apply Forall_app in Hb as [_ Hr]. by apply Forall_take. }
    assert (Hstr : kd = String -> forall y, c = [y] -> 128 <= y).
    { intros -> y Hy. assert (n = 1) as -> by (rewrite <- Hlc, Hy; done).
      specialize (H1 eq_refl eq_refl). destruct r as [|z r]; [done|]. subst c. simpl in *. congruence. }
    assert (Henc : enc_kind kd c = header small large n ++ c).
    { destruct Hkd as [(-> & -> & ->)|(-> & -> & ->)]; simpl; [|unfold enc_list; by rewrite Hlc].
      destruct (enc_str_cases c Hc) as [(y & Hy & Hr & _)|[-> _]]; [|by rewrite Hlc].
      specialize (Hstr eq_refl y Hy). lia. }
    exists c, (drop (Z.to_nat n) r). rewrite Henc, Heq.
    assert (drop (Z.to_nat (len h)) (h ++ r) = r) as -> by (unfold len; by rewrite Nat2Z.id, drop_app_length).
    split_and!; [subst c; rewrite <- Hh; by rewrite <- app_assoc, take_drop| |done| | |lia].
    - destruct Hkd as [(-> & _)|(-> & _)]; [exact (Hstr eq_refl)|done].
    - rewrite len_app, <- Hh. lia.
    - subst c. by rewrite take_drop. }
  unfold readKind_raw. destruct (x <? 0x80) eqn:E1; bool_to_prop.
  { unfold fits. rewrite Hlen, u64_id by go_lia. rewrite (proj2 (Z.ltb_ge _ _)) by lia.
    intros [= <- <- <-]. exists [x], b. simpl. rewrite (proj2 (Z.leb_le _ _)) by lia.
    split_and!; try done. exists x. split; [done|lia]. }
  assert (Hone : forall small large n, x = small + n -> 0 <= n < 56 -> [x] = header small large n).
  { intros ? ? ? -> ?. unfold header. by rewrite (proj2 (Z.ltb_lt _ _)) by lia. }
  destruct (x <? 0xB8) eqn:E2; bool_to_prop.
  { assert (Hh : [x] = header 0x80 0xB7 (x - 0x80)) by (apply Hone; lia).
    destruct (x - 128 =? 1) eqn:Ec; bool_to_prop.
    - destruct b as [|y b]; [done|]. destruct (y <? 128) eqn:Ey; [done|]. bool_to_prop. intros [= Hf].
      apply (Hgen String 0x80 0xB7 [x] (y :: b) (x - 128)); auto with lia.
    - intros [= Hf]. apply (Hgen String 0x80 0xB7 [x] b (x - 128)); auto with lia. }
  assert (Hlong : forall kd small large, (kd = String /\ small = 0x80 /\ large = 0xB7) \/
      (kd = List /\ small = 0xC0 /\ large = 0xF7) -> 1 <= x - large <= 8 ->
      fits (x :: b) kd (x - large + 1) (readSize b (x - large)) = inr (k, ts, cs) ->
    exists c r, x :: b = enc_kind k c ++ r /\ kind_of k c /\ len c = cs /\
      ts + cs = len (enc_kind k c) /\ drop (Z.to_nat ts) (x :: b) = c ++ r /\ 0 <= ts).
  { intros kd small large Hkd Hsl Hf. destruct (readSize b (x - large)) as [e|n] eqn:Er; [done|].
    destruct (readSize_inv b (x - large) n Hb' Hsl Er) as (c & r & -> & Hlc & Hn & Hhd).
    apply (Hgen kd small large (x :: c) r n); try done; [|lia|lia|].
    - rewrite Hhd. f_equal. lia.
    - replace (len (x :: c)) with (x - large + 1) by (rewrite len_cons; lia). done. }
  destruct (x <? 0xC0) eqn:E3; bool_to_prop.
  { intros [= Hf]. apply (Hlong String 0x80 0xB7); auto with lia. }
  destruct (x <? 0xF8) eqn:E4; bool_to_prop.
  { intros [= Hf]. apply (Hgen List 0xC0 0xF7 [x] b (x - 0xC0)); try done; auto with lia. }
  intros [= Hf]. apply (Hlong List 0xC0 0xF7); auto with lia.
Qed.

Lemma fits_fwd buf k h c r : buf = h ++ c ++ r -> len buf < 2 ^ 63 ->
  fits buf k (len h) (inr (len c)) = inr (k, len h, len c).
Proof.
  intros -> Hl. unfold fits. rewrite !len_app in *.
  pose proof (len_nonneg h). pose proof (len_nonneg c). pose proof (len_nonneg r).
  rewrite u64_id by go_lia. by rewrite (proj2 (Z.ltb_ge _ _)) by lia.
Qed.

(** [readKind] delimits every canonical encoding. *)
Lemma readKind_raw_fwd k c r : is_bytes c -> kind_of k c -> len (enc_kind k c ++ r) < 2 ^ 63 ->
  exists h, enc_kind k c = h ++ c /\ readKind_raw (enc_kind k c ++ r) = Ret (inr (k, len h, len c)).
Proof.
  intros Hc Hk Hl. pose proof (len_nonneg r). pose proof (len_nonneg c).
  assert (Hbyte : forall x, c = [x] -> 0 <= x < 128 -> k = Byte ->
    exists h, enc_kind k c = h ++ c /\ readKind_raw (enc_kind k c ++ r) = Ret (inr (k, len h, len c))).
  { intros x -> Hx ->. exists []. simpl in *. rewrite (proj2 (Z.leb_le _ _)) in * by lia.
    split; [done|]. simpl. rewrite (proj2 (Z.ltb_lt _ _)) by lia. f_equal.
    by apply (fits_fwd (x :: r) Byte [] [x] r). }
  assert (Hgen : forall small large, (k = String /\ small = 0x80 /\ large = 0xB7) \/
      (k = List /\ small = 0xC0 /\ large = 0xF7) -> enc_kind k c = header small large (len c) ++ c ->
    exists h, enc_kind k c = h ++ c /\ readKind_raw (enc_kind k c ++ r) = Ret (inr (k, len h, len c))).
  { intros small large Hkd He. rewrite He in *. exists (header small large (len c)). split; [done|].
    assert (Hcl : len c < 2 ^ 63).
    { rewrite !len_app in Hl. pose proof (len_nonneg (header small large (len c))). lia. }
    pose proof (fits_fwd _ k (header small large (len c)) c r (eq_sym (app_assoc _ _ _)) Hl) as Hf.
    destruct (decide (len c < 56)) as [Hs|Hs].
    - unfold header in *. rewrite (proj2 (Z.ltb_lt _ _)) in * by lia.
      change (len [small + len c]) with 1 in *. cbn [app] in *. unfold readKind_raw.
      rewrite (proj2 (Z.ltb_ge _ _)) by (destruct Hkd as [(_ & -> & _)|(_ & -> & _)]; lia).
      destruct Hkd as [(-> & -> & ->)|(-> & -> & ->)].
      + rewrite (proj2 (Z.ltb_lt _ _)) by lia. replace (128 + len c - 128) with (len c) by lia.
        destruct (len c =? 1) eqn:E1; [|by rewrite Hf]. bool_to_prop.
        destruct c as [|y [|z c]]; [done| |rewrite !len_cons in E1; pose proof (len_nonneg c); lia].
        specialize (Hk y eq_refl). cbn [app] in *. rewrite (proj2 (Z.ltb_ge _ _)) by lia. by rewrite Hf.
      + rewrite !(proj2 (Z.ltb_ge _ _)), (proj2 (Z.ltb_lt _ _)) by lia.
        replace (192 + len c - 192) with (len c) by lia. by rewrite Hf.
    - destruct (header_large_fwd (len c)) as (Hlc & _ & _ & Hhd); [lia|]. rewrite Hhd in *.
      set (d := be_bytes (byte_len (len c)) (len c)) in *. rewrite len_cons in *.
      pose proof (readSize_fwd (len c) d (c ++ r) ltac:(lia) eq_refl) as Hr. cbn [app] in *.
      unfold readKind_raw. rewrite <- app_assoc in *.
      destruct Hkd as [(-> & -> & ->)|(-> & -> & ->)].
      + rewrite !(proj2 (Z.ltb_ge _ _)), (proj2 (Z.ltb_lt _ _)) by lia.
        replace (183 + len d - 183) with (len d) by lia. rewrite Hr.
        replace (len d + 1) with (1 + len d) by lia. by rewrite Hf.
      + rewrite !(proj2 (Z.ltb_ge _ _)) by lia.
        replace (247 + len d - 247) with (len d) by lia. rewrite Hr.
        replace (len d + 1) with (1 + len d) by lia. by rewrite Hf. }
  destruct k.
  - destruct Hk as (x & -> & Hx). by apply (Hbyte x).
  - apply (Hgen 0x80 0xB7); [by left|]. simpl.
    destruct (enc_str_cases c Hc) as [(x & -> & Hx & _)|[He _]]; [|done].
    specialize (Hk x eq_refl). lia.
  - by apply (Hgen 0xC0 0xF7); [right|].
Qed.

Lemma readKind_raw_panic b : is_bytes b -> readKind_raw b = Panic <-> b = [0x81].
Proof.
  intros Hb. split; [|by intros ->]. unfold readKind_raw.
  destruct b as [|x b]; [done|]. repeat case_match; try done. bool_to_prop. intros _.
  f_equal. lia.
Qed.

Lemma Split_kind b : Split b = Panic <-> readKind_raw b = Panic.
Proof. unfold Split. destruct (readKind_raw b) as [[e|[[k ts] cs]]|]; done. Qed.

(** [Split] takes the first value off. *)
Lemma Split_fwd k c r : is_bytes c -> kind_of k c -> len (enc_kind k c ++ r) < 2 ^ 63 ->
  Split (enc_kind k c ++ r) = Ret (inr (k, c, r)).
Proof.
  intros Hc Hk Hl. destruct (readKind_raw_fwd k c r Hc Hk Hl) as (h & He & Hr). unfold Split. rewrite Hr. simpl. rewrite He.
  rewrite <- app_assoc.
  replace (Z.to_nat (len h + len c)) with (length h + length c)%nat by (unfold len; lia).
  replace (Z.to_nat (len h)) with (length h) by (unfold len; lia).
  replace (Z.to_nat (len c)) with (length c) by (unfold len; lia).
  by rewrite drop_app_add, !drop_app_length, take_app_length.
Qed.

(** [CountValues] counts the values of a concatenation of encodings. *)
Lemma count_values items fuel i :
  Forall (fun kc => is_bytes (snd kc) /\ kind_of (fst kc) (snd kc)) items ->
  let b := mjoin (map (fun kc => enc_kind (fst kc) (snd kc)) items) in
  len b < 2 ^ 63 -> (length b <= fuel)%nat -> count_loop fuel i b = Ret (inr (i + len items)).
Proof.
  intros HF. revert fuel i. induction HF as [|[k c] items [Hc Hk] _ IH]; intros fuel i b Hl Hf.
  - subst b. destruct fuel; simpl; rewrite len_nil; do 2 f_equal; lia.
  - subst b. cbn [map mjoin list_join fst snd] in *. simpl in Hc, Hk.
    destruct (readKind_raw_fwd k c _ Hc Hk Hl) as (h & He & Hr).
    assert (Hne : enc_kind k c <> []) by (destruct k; simpl; (apply enc_str_nonempty || apply enc_list_nonempty)).
    rewrite length_app in Hf. destruct (enc_kind k c) as [|x e] eqn:Ee; [done|].
    destruct fuel as [|fuel]; [simpl in Hf; lia|].
    cbn [app count_loop] in *. rewrite Hr. simpl mbind. unfold mbind, outcome_bind.
    assert (Hn : Z.to_nat (len h + len c) = length (x :: e)).
    { rewrite He, length_app. unfold len. lia. }
    rewrite Hn. set (r := mjoin _) in *.
    change (drop (length (x :: e)) (x :: e ++ r)) with (drop (length (x :: e)) ((x :: e) ++ r)).
    rewrite drop_app_length. subst r. rewrite IH; [do 2 f_equal; rewrite len_cons; lia| |simpl in Hf; lia].
    rewrite len_cons, len_app in Hl. pose proof (len_nonneg e). lia.
Qed.

(** [Split] is exact: on any byte slice it panics if and only if the slice is the
    single byte [0x81] (the check for a one-byte string indexes past the end), and
    otherwise it returns [(k, content, rest)] if and only if the slice is the
    canonical encoding of [content] with kind [k] followed by [rest]. *)
Theorem raw_split_exact b : is_bytes b -> len b < 2 ^ 63 ->
  (Split b = Panic <-> b = [0x81]) /\
  (forall k c r, Split b = Ret (inr (k, c, r)) <-> b = enc_kind k c ++ r /\ kind_of k c).
Proof.
  intros Hb Hl. split; [by rewrite Split_kind, readKind_raw_panic|]. intros k c r. split.
  - unfold Split. destruct (readKind_raw b) as [[e|[[k' ts] cs]]|] eqn:Er; [done| |done].
    intros [= <- <- <-].
    destruct (readKind_raw_inv b k' ts cs Hb Hl Er) as (c & r & Hbe & Hk & Hlc & Hts & Hd & Ht0).
    rewrite Hd. assert (Hcs : Z.to_nat cs = length c) by (unfold len in Hlc; lia).
    assert (take (Z.to_nat cs) (c ++ r) = c) as -> by (rewrite Hcs; apply take_app_length).
    assert (drop (Z.to_nat (ts + cs)) b = r) as ->; [|done].
    rewrite Hts, Hbe. unfold len. by rewrite Nat2Z.id, drop_app_length.
  - intros [-> Hk].
    assert (Hc : is_bytes c).
    { apply Forall_app in Hb as [Hb _]. destruct k; simpl in Hb.
      - destruct Hk as (x & -> & Hx). repeat constructor; unfold is_byte; lia.
      - unfold enc_str in Hb. repeat case_match; try by apply Forall_app in Hb as [_ ?]. done.
      - by apply Forall_app in Hb as [_ ?]. }
    by apply Split_fwd.
Qed.

Lemma raw_split_exact_witness :
  Split [0x82; 0x04; 0x00; 0xC0] = Ret (inr (String, [0x04; 0x00], [0xC0])).
Proof.
  apply (raw_split_exact [0x82; 0x04; 0x00; 0xC0]); [by apply (bool_decide_unpack _)|done|].
  split; [done|]. by intros x [=].
Defined.

End RlpRawProps.
