(* ===== verification/TrieEncoding.v ===== *)
(** The three encodings of trie keys ([core/trie/encoding.go]): bytes, one nibble for each
    element with an optional terminator, and the compact form stored on disk. *)

From S2P Require Import Prelude Params Bytes.

Module TrieEnc.

(** [hasTerm] *)
Definition hasTerm (s : bytes) : bool := match last s with Some x => x =? 16 | None => false end.

(** Two nibbles for each byte; indexing past an odd end panics. *)
Fixpoint decodeNibbles (nibbles : bytes) : outcome bytes :=
  match nibbles with
  | [] => Ret []
  | [_] => Panic
  | a :: b :: nibbles => rest ← decodeNibbles nibbles; Ret (Z.lor (u8 (Z.shiftl a 4)) b :: rest)
  end.

Definition keybytesToHex (str : bytes) : bytes := (str ≫= fun b => [b / 16; b mod 16]) ++ [16].

Definition hexToCompact (hex : bytes) : outcome bytes :=
  let '(terminator, hex) := if hasTerm hex then (1, removelast hex) else (0, hex) in
  let b0 := u8 (Z.shiftl terminator 5) in
  let '(b0, hex) := if Z.land (len hex) 1 =? 1 then (Z.lor (Z.lor b0 (Z.shiftl 1 4)) (default 0 (head hex)), tail hex) else (b0, hex) in
  rest ← decodeNibbles hex;
  Ret (b0 :: rest).

Definition compactToHex (compact : bytes) : outcome bytes :=
  let base := removelast (keybytesToHex compact) in
  b0 ← deref (head base);
  let base := if 2 <=? b0 then base ++ [16] else base in
  Ret (drop (Z.to_nat (2 - Z.land b0 1)) base).

Definition hexToKeybytes (hex : bytes) : outcome bytes :=
  let hex := if hasTerm hex then removelast hex else hex in
  if negb (Z.land (len hex) 1 =? 0) then Panic else decodeNibbles hex.

Fixpoint prefixLen (a b : bytes) : nat :=
  match a, b with
  | x :: a, y :: b => if x =? y then S (prefixLen a b) else O
  | _, _ => O
  end.

End TrieEnc.

Module TrieEncProps.
Import TrieEnc.

Definition is_nibble (x : Z) : Prop := 0 <= x < 16.
(** A key in hex form, with or without terminator. *)
Definition is_hex (k : bytes) : Prop := Forall is_nibble k \/ exists k', k = k' ++ [16] /\ Forall is_nibble k'.

Abbreviation nibbles b := (b ≫= fun x => [x / 16; x mod 16]).

Lemma nibbles_cons x b : nibbles (x :: b) = x / 16 :: x mod 16 :: nibbles b.
Proof. done. Qed.

Lemma nibbles_range b : is_bytes b -> Forall is_nibble (nibbles b).
Proof.
  induction 1 as [|x b Hx _ IH]; [constructor|]. rewrite nibbles_cons. unfold is_nibble. constructor; [div_lia|]. constructor; [div_lia|done].
Qed.

Lemma pair_nibbles a b : is_nibble a -> is_nibble b -> Z.lor (u8 (Z.shiftl a 4)) b = 16 * a + b.
Proof.
  intros Ha Hb. assert (Hall : forallb (fun a => forallb (fun b => Z.lor (u8 (Z.shiftl a 4)) b =? 16 * a + b) (seqZ 0 16)) (seqZ 0 16) = true) by (by vm_compute).
  rewrite forallb_forall in Hall. specialize (Hall a). rewrite <- list_elem_of_In, elem_of_seqZ in Hall. specialize (Hall Ha).
  rewrite forallb_forall in Hall. specialize (Hall b). rewrite <- list_elem_of_In, elem_of_seqZ in Hall. apply Z.eqb_eq, Hall, Hb.
Qed.

Lemma decodeNibbles_spec k : Forall is_nibble k -> len k mod 2 = 0 -> exists b, decodeNibbles k = Ret b /\ nibbles b = k /\ is_bytes b.
Proof.
  assert (Hn : exists n, (length k <= n)%nat) by (by exists (length k)). destruct Hn as [n Hn]. revert k Hn.
  induction n as [|n IH]; intros [|x [|y k]] Hn Hk Hl; try (by exists []; split_and!; [..|constructor]); try (simpl in Hn; lia); try (unfold len in Hl; simpl in Hl; done).
  apply Forall_cons in Hk as [Hx [Hy Hk]%Forall_cons]. destruct (IH k) as (b & Hb & Hnb & Hr); [simpl in Hn; lia|done|unfold len in *; simpl in Hl; div_lia|].
  cbn [decodeNibbles]. rewrite Hb. cbn [mbind outcome_bind]. rewrite pair_nibbles by done. eexists. split; [done|]. rewrite nibbles_cons, Hnb. unfold is_nibble in *. split.
  - f_equal; [div_lia|f_equal; div_lia].
  - constructor; [go_lia|done].
Qed.

Lemma removelast_app_one {A} (l : list A) x : removelast (l ++ [x]) = l.
Proof. by rewrite removelast_app, app_nil_r. Qed.
Lemma hasTerm_app l x : hasTerm (l ++ [x]) = (x =? 16).
Proof. unfold hasTerm. by rewrite last_snoc. Qed.
Lemma hasTerm_nibbles k : Forall is_nibble k -> hasTerm k = false.
Proof.
  intros Hk. unfold hasTerm. destruct (last k) as [x|] eqn:E; [|done]. apply last_Some in E as [k' ->].
  apply Forall_app in Hk as [_ [Hx _]%Forall_cons]. unfold is_nibble in Hx. apply Z.eqb_neq. lia.
Qed.
Lemma odd_land n : Z.land n 1 = n mod 2.
Proof. change 1 with (Z.ones 1) at 1. by rewrite Z.land_ones. Qed.

(** Keys as bytes survive the hex form. *)
Lemma hexToKeybytes_keybytesToHex b : is_bytes b -> hexToKeybytes (keybytesToHex b) = Ret b.
Proof.
  intros Hb. unfold hexToKeybytes, keybytesToHex. rewrite hasTerm_app. simpl. rewrite removelast_app_one.
  assert (Hl : forall b, len (nibbles b) = 2 * len b).
  { clear. induction b as [|x b IH]; [done|]. rewrite nibbles_cons. rewrite !len_cons, IH. lia. }
  rewrite odd_land, Hl. rewrite Z.mul_comm, Z.mod_mul by done. simpl. induction Hb as [|x b Hx _ IH]; [done|]. rewrite nibbles_cons. cbn [decodeNibbles].
  rewrite IH. cbn [mbind outcome_bind]. do 2 f_equal. rewrite pair_nibbles by (unfold is_nibble; div_lia). div_lia.
Qed.

Lemma keybytesToHex_hex b : is_bytes b -> exists k, keybytesToHex b = k ++ [16] /\ Forall is_nibble k.
Proof. intros Hb. eexists. split; [done|]. by apply nibbles_range. Qed.

Lemma flag_nibble t x : 0 <= t <= 1 -> is_nibble x -> Z.lor (Z.lor (u8 (Z.shiftl t 5)) (Z.shiftl 1 4)) x = 32 * t + 16 + x.
Proof.
  intros Ht Hx. assert (Hall : forall t, t = 0 \/ t = 1 -> forallb (fun x => Z.lor (Z.lor (u8 (Z.shiftl t 5)) (Z.shiftl 1 4)) x =? 32 * t + 16 + x) (seqZ 0 16) = true)
    by (by intros ? [-> | ->]; vm_compute).
  specialize (Hall t ltac:(lia)). rewrite forallb_forall in Hall. specialize (Hall x). rewrite <- list_elem_of_In, elem_of_seqZ in Hall. apply Z.eqb_eq, Hall, Hx.
Qed.

(** The compact form of a key without its terminator, and back. *)
Lemma compact_body t k : 0 <= t <= 1 -> Forall is_nibble k -> exists b0 rest,
  (let '(b0, hex) := if Z.land (len k) 1 =? 1 then (Z.lor (Z.lor (u8 (Z.shiftl t 5)) (Z.shiftl 1 4)) (default 0 (head k)), tail k)
                     else (u8 (Z.shiftl t 5), k) in rest ← decodeNibbles hex; Ret (b0 :: rest)) = Ret (b0 :: rest) /\
  is_byte b0 /\ is_bytes rest /\ Z.land (b0 / 16) 1 = len k mod 2 /\ (2 <=? b0 / 16) = (t =? 1) /\
  drop (Z.to_nat (2 - Z.land (b0 / 16) 1)) (nibbles (b0 :: rest)) = k.
Proof.
  intros Ht Hk. rewrite !odd_land. destruct (len k mod 2 =? 1) eqn:E; bool_to_prop.
  - destruct k as [|x k]; [done|]. apply Forall_cons in Hk as [Hx Hk]. cbn [head tail default from_option].
    destruct (decodeNibbles_spec k Hk) as (rest & Hr & Hn & Hb); [rewrite len_cons in E; div_lia|]. rewrite Hr. cbn [mbind outcome_bind].
    eexists _, rest. split; [done|]. set (b0 := Z.lor _ _).
    assert (Hb0 : b0 = 32 * t + 16 + x).
    { unfold b0. change (id x) with x. by apply flag_nibble. }
    clearbody b0. unfold is_nibble in Hx. rewrite nibbles_cons, Hn, !odd_land. assert (b0 / 16 = 2 * t + 1) as -> by div_lia. assert ((2 * t + 1) mod 2 = 1) as -> by div_lia.
    split_and!; [go_lia|done|done| |].
    + destruct (decide (t = 1)) as [->|]; [done|]. replace t with 0 by lia. done.
    + change (Z.to_nat (2 - 1)) with 1%nat. cbn [drop]. f_equal. div_lia.
  - destruct (decodeNibbles_spec k Hk) as (rest & Hr & Hn & Hb); [div_lia|]. rewrite Hr. cbn [mbind outcome_bind]. eexists _, rest. split; [done|].
    rewrite nibbles_cons, Hn, !odd_land. assert (Hm : len k mod 2 = 0) by div_lia. rewrite Hm.
    destruct (decide (t = 1)) as [->|]; [|replace t with 0 by lia]; (split_and!; [by vm_compute|done|done|done|done]).
Qed.

(** Encoding a key for storage and decoding it gives the key. *)
Lemma compact_hex k : is_hex k -> exists c, hexToCompact k = Ret c /\ is_bytes c /\ compactToHex c = Ret k.
Proof.
  intros Hk. unfold hexToCompact. assert (Hc : exists t k', (if hasTerm k then (1, removelast k) else (0, k)) = (t, k') /\ 0 <= t <= 1 /\
    Forall is_nibble k' /\ k = k' ++ (if t =? 1 then [16] else [])).
  { destruct Hk as [Hk|(k' & -> & Hk')].
    - rewrite hasTerm_nibbles by done. exists 0, k. by rewrite app_nil_r.
    - rewrite hasTerm_app, removelast_app_one. by exists 1, k'. }
  destruct Hc as (t & k' & -> & Ht & Hk' & ->). cbv zeta.
  destruct (compact_body t k' Ht Hk') as (b0 & rest & -> & Hb0 & Hrest & Hodd & Hterm & Hdrop). eexists. split; [done|]. split; [by constructor|].
  unfold compactToHex, keybytesToHex. rewrite removelast_app_one, nibbles_cons. cbn [head deref mbind outcome_bind]. rewrite Hterm, Hodd.
  rewrite nibbles_cons, Hodd in Hdrop. f_equal. destruct (t =? 1); [|by rewrite app_nil_r].
  rewrite drop_app_le; [by rewrite Hdrop|]. simpl. assert (0 <= len k' mod 2 < 2) by (by apply Z.mod_pos_bound). lia.
Qed.

Lemma prefixLen_spec a b : exists p ra rb, a = p ++ ra /\ b = p ++ rb /\ prefixLen a b = length p /\
  (forall x y ra' rb', ra = x :: ra' -> rb = y :: rb' -> x <> y).
Proof.
  revert b. induction a as [|x a IH]; intros b; [by exists [], [], b|]. destruct b as [|y b]; [by exists [], (x :: a), []|].
  cbn [prefixLen]. destruct (x =? y) eqn:E; bool_to_prop.
  - subst. destruct (IH b) as (p & ra & rb & -> & -> & Hl & Hd). exists (y :: p), ra, rb. by rewrite Hl.
  - exists [], (x :: a), (y :: b). split_and!; [done..|]. by intros ? ? ? ? [= <- _] [= <- _].
Qed.

End TrieEncProps.
