(* ===== verification/Trie.v ===== *)
(** The Merkle-Patricia trie: nodes and their decoding ([core/trie/node.go]), lookup,
    insertion and deletion with nodes loaded on demand ([core/trie/trie.go]), hashing and
    storing ([core/trie/hasher.go]) and the memory database nodes are written to
    ([core/trie/database.go]).

    A [node] interface that may be nil is an [option node].  Operations that resolve
    hashes recurse on a node read from the database; they carry fuel, which the length of
    the key bounds: a resolved node is never a hash, so every second step consumes a
    part of the key. *)

From S2P Require Import Prelude Params Bytes RlpEncode RlpDecode RlpRaw TrieEncoding.
Import TrieEnc.

Module Trie.

(** ** node.go *)

Record nodeFlag := MkFlag { fl_hash : option bytes; fl_gen : Z; fl_dirty : bool }.

Inductive node :=
| fullNode (Children : list (option node)) (flags : nodeFlag)
| shortNode (Key : bytes) (Val : option node) (flags : nodeFlag)
| hashNode (h : bytes)
| valueNode (v : bytes).

Definition u16 (z : Z) : Z := z mod 2 ^ 16.

Definition flag_canUnload (f : nodeFlag) (cachegen cachelimit : Z) : bool :=
  negb (fl_dirty f) && (cachelimit <=? u16 (cachegen - fl_gen f)).
Definition canUnload (n : node) (cachegen cachelimit : Z) : bool :=
  match n with
  | fullNode _ f | shortNode _ _ f => flag_canUnload f cachegen cachelimit
  | hashNode _ | valueNode _ => false
  end.
Definition cache (n : node) : option bytes * bool :=
  match n with
  | fullNode _ f | shortNode _ _ f => (fl_hash f, fl_dirty f)
  | hashNode _ | valueNode _ => (None, true)
  end.

(** Errors of decoding; the path that [wrapError] collects is for display. *)
Inductive decodeError := DecodeError (what : string).

(** Steps that may return an error. *)
Definition ebind {E A B} (m : outcome (E + A)) (k : A -> outcome (E + B)) : outcome (E + B) :=
  r ← m; match r with inl e => Ret (inl e) | inr x => k x end.
Notation "x <~ m ; k" := (ebind m (fun x => k)) (at level 20, m at level 100, k at level 200, right associativity).
Notation "' p <~ m ; k" := (ebind m (fun ' p => k)) (at level 20, p pattern, m at level 100, k at level 200, right associativity).
Definition rlp_err {A} (m : outcome (Rlp.rlp_error + A)) : outcome (decodeError + A) :=
  r ← m; Ret match r with inl _ => inl (DecodeError "rlp") | inr x => inr x end.

Definition hashLen : Z := 32.

(** The values [rlp.Split] classifies; a single byte is a string here. *)
Definition is_list (k : RlpStream.Kind) : bool := match k with RlpStream.List => true | _ => false end.
Definition is_string (k : RlpStream.Kind) : bool := match k with RlpStream.String => true | _ => false end.

(** [decodeRef], [decodeShort] and [decodeFull] call [decodeNode] for embedded nodes. *)
Section Decode.
Context (decodeNode : bytes -> outcome (decodeError + option node)).

Definition decodeRef (buf : bytes) : outcome (decodeError + (option node * bytes)) :=
  '(kind, val, rest) <~ rlp_err (RlpRaw.Split buf);
  if is_list kind then
    if hashLen <? len buf - len rest then Ret (inl (DecodeError "oversized embedded node"))
    else n <~ decodeNode buf; Ret (inr (n, rest))
  else if is_string kind && (len val =? 0) then Ret (inr (None, rest))
  else if is_string kind && (len val =? 32) then Ret (inr (Some (hashNode val), rest))
  else Ret (inl (DecodeError "invalid RLP string size")).

Definition decodeShort (hash : option bytes) (elems : bytes) (cachegen : Z) : outcome (decodeError + option node) :=
  '(kbuf, rest) <~ rlp_err (RlpRaw.SplitString elems);
  let flag := MkFlag hash cachegen false in
  key ← compactToHex kbuf;
  if hasTerm key then
    '(val, tl) <~ rlp_err (RlpRaw.SplitString rest);
    Ret (inr (Some (shortNode key (Some (valueNode val)) flag)))
  else
    '(r, tl) <~ decodeRef rest;
    Ret (inr (Some (shortNode key r flag))).

Fixpoint decodeFull_loop (i : nat) (elems : bytes) : outcome (decodeError + (list (option node) * bytes)) :=
  match i with
  | O => Ret (inr ([], elems))
  | S i => '(cld, rest) <~ decodeRef elems; '(cs, rest) <~ decodeFull_loop i rest; Ret (inr (cld :: cs, rest))
  end.

Definition decodeFull (hash : option bytes) (elems : bytes) (cachegen : Z) : outcome (decodeError + option node) :=
  '(cs, elems) <~ decodeFull_loop 16 elems;
  '(val, tl) <~ rlp_err (RlpRaw.SplitString elems);
  let last := if 0 <? len val then Some (valueNode val) else None in
  Ret (inr (Some (fullNode (cs ++ [last]) (MkFlag hash cachegen false)))).

End Decode.

Fixpoint decodeNode (fuel : nat) (hash : option bytes) (buf : bytes) (cachegen : Z) : outcome (decodeError + option node) :=
  match fuel with
  | O => Ret (inl (DecodeError "fuel"))
  | S fuel =>
      let embedded (buf : bytes) := decodeNode fuel None buf cachegen in
      match buf with
      | [] => Ret (inl (DecodeError "unexpected EOF"))
      | _ =>
          '(elems, tl) <~ rlp_err (RlpRaw.SplitList buf);
          c ← RlpRaw.CountValues elems;
          match c with
          | inr 2 => decodeShort embedded hash elems cachegen
          | inr 17 => decodeFull embedded hash elems cachegen
          | _ => Ret (inl (DecodeError "invalid number of list elements"))
          end
      end
  end.

Definition mustDecodeNode (hash : bytes) (buf : bytes) (cachegen : Z) : outcome (option node) :=
  r ← decodeNode (length buf) (Some hash) buf cachegen;
  match r with inl _ => Panic | inr n => Ret n end.

(** ** trie.go *)

Inductive MissingNodeError := MissingNode (NodeHash : Hash) (Path : bytes).

(** The index of the only child left, if there is exactly one. *)
Fixpoint only_child {A} (i : nat) (pos : option nat) (cs : list (option A)) : option nat :=
  match cs with
  | [] => pos
  | None :: cs => only_child (S i) pos cs
  | Some _ :: cs => match pos with None => only_child (S i) (Some i) cs | Some _ => None end
  end.

Section Ops.
(** What the database holds, and the generation of the trie. *)
Context (Node : Hash -> option bytes) (cachegen : Z).

Definition newFlag : nodeFlag := MkFlag None cachegen true.

Definition resolveHash (n prefix : bytes) : outcome (MissingNodeError + option node) :=
  let hash := BytesToHash n in
  match Node hash with
  | None => Ret (inl (MissingNode hash prefix))
  | Some enc => r ← mustDecodeNode n enc cachegen; Ret (inr r)
  end.
Definition resolve (n : option node) (prefix : bytes) : outcome (MissingNodeError + option node) :=
  match n with Some (hashNode h) => resolveHash h prefix | _ => Ret (inr n) end.

(** [Children[i]] *)
Definition child (cs : list (option node)) (i : Z) : outcome (option node) := deref (cs !! Z.to_nat i).
Definition set_child (cs : list (option node)) (i : Z) (n : option node) : list (option node) := <[Z.to_nat i := n]> cs.

(** [key] is [prefix ++ rest]. *)
Fixpoint tryGet (fuel : nat) (origNode : option node) (prefix rest : bytes) : outcome (MissingNodeError + (bytes * option node * bool)) :=
  match fuel with
  | O => Panic
  | S fuel =>
      match origNode with
      | None => Ret (inr ([], None, false))
      | Some (valueNode v) => Ret (inr (v, origNode, false))
      | Some (shortNode k val f) =>
          if bool_decide (take (length k) rest = k) then
            '(value, newnode, didResolve) <~ tryGet fuel val (prefix ++ k) (drop (length k) rest);
            Ret (inr (value, if didResolve : bool then Some (shortNode k newnode (MkFlag (fl_hash f) cachegen (fl_dirty f))) else origNode, didResolve))
          else Ret (inr ([], origNode, false))
      | Some (fullNode cs f) =>
          match rest with
          | [] => Panic
          | x :: rest' =>
              c ← child cs x;
              '(value, newnode, didResolve) <~ tryGet fuel c (prefix ++ [x]) rest';
              Ret (inr (value, if didResolve : bool then Some (fullNode (set_child cs x newnode) (MkFlag (fl_hash f) cachegen (fl_dirty f))) else origNode, didResolve))
          end
      | Some (hashNode h) =>
          c <~ resolveHash h prefix;
          '(value, newnode, d) <~ tryGet fuel c prefix rest;
          Ret (inr (value, newnode, true))
      end
  end.

(** A nil [value] is only possible in a malformed database. *)
Fixpoint insert (fuel : nat) (n : option node) (prefix key : bytes) (value : option node) : outcome (MissingNodeError + (bool * option node)) :=
  match fuel with
  | O => Panic
  | S fuel =>
      match key with
      | [] =>
          match n with
          | Some (valueNode v) =>
              match value with Some (valueNode w) => Ret (inr (negb (bool_decide (v = w)), value)) | _ => Panic end
          | _ => Ret (inr (true, value))
          end
      | k0 :: krest =>
          match n with
          | Some (shortNode nKey nVal f) =>
              let matchlen := prefixLen key nKey in
              if bool_decide (matchlen = length nKey) then
                '(dirty, nn) <~ insert fuel nVal (prefix ++ take matchlen key) (drop matchlen key) value;
                Ret (inr (if negb dirty then (false, n) else (true, Some (shortNode nKey nn newFlag))))
              else
                let branch := replicate 17 None in
                a ← deref (nKey !! matchlen);
                '(da, ca) <~ insert fuel None (prefix ++ take (matchlen + 1) nKey) (drop (matchlen + 1) nKey) nVal;
                let branch := set_child branch a ca in
                b ← deref (key !! matchlen);
                '(db, cb) <~ insert fuel None (prefix ++ take (matchlen + 1) key) (drop (matchlen + 1) key) value;
                let branch := Some (fullNode (set_child branch b cb) newFlag) in
                Ret (inr (true, if bool_decide (matchlen = O) then branch else Some (shortNode (take matchlen key) branch newFlag)))
          | Some (fullNode cs f) =>
              c ← child cs k0;
              '(dirty, nn) <~ insert fuel c (prefix ++ [k0]) krest value;
              Ret (inr (if negb dirty then (false, n) else (true, Some (fullNode (set_child cs k0 nn) newFlag))))
          | None => Ret (inr (true, Some (shortNode key value newFlag)))
          | Some (hashNode h) =>
              rn <~ resolveHash h prefix;
              '(dirty, nn) <~ insert fuel rn prefix key value;
              Ret (inr (if negb dirty then (false, rn) else (true, nn)))
          | Some (valueNode _) => Panic
          end
      end
  end.

Fixpoint delete (fuel : nat) (n : option node) (prefix key : bytes) : outcome (MissingNodeError + (bool * option node)) :=
  match fuel with
  | O => Panic
  | S fuel =>
      match n with
      | Some (shortNode nKey nVal f) =>
          let matchlen := prefixLen key nKey in
          if bool_decide (matchlen < length nKey)%nat then Ret (inr (false, n))
          else if bool_decide (matchlen = length key) then Ret (inr (true, None))
          else
            '(dirty, child) <~ delete fuel nVal (prefix ++ take (length nKey) key) (drop (length nKey) key);
            Ret (inr (if negb dirty then (false, n) else (true,
              match child with
              | Some (shortNode cKey cVal _) => Some (shortNode (nKey ++ cKey) cVal newFlag)
              | _ => Some (shortNode nKey child newFlag)
              end)))
      | Some (fullNode cs f) =>
          match key with
          | [] => Panic
          | k0 :: krest =>
              c ← child cs k0;
              '(dirty, nn) <~ delete fuel c (prefix ++ [k0]) krest;
              if negb dirty then Ret (inr (false, n)) else
              let cs := set_child cs k0 nn in
              match only_child 0 None cs with
              | Some pos =>
                  last ← child cs (Z.of_nat pos);
                  cnode <~ (if bool_decide (pos = 16%nat) then Ret (inr None) else resolve last prefix);
                  Ret (inr (true,
                    match cnode with
                    | Some (shortNode cKey cVal _) => Some (shortNode (Z.of_nat pos :: cKey) cVal newFlag)
                    | _ => Some (shortNode [Z.of_nat pos] last newFlag)
                    end))
              | None => Ret (inr (true, Some (fullNode cs newFlag)))
              end
          end
      | Some (valueNode _) => Ret (inr (true, None))
      | None => Ret (inr (false, None))
      | Some (hashNode h) =>
          rn <~ resolveHash h prefix;
          '(dirty, nn) <~ delete fuel rn prefix key;
          Ret (inr (if negb dirty then (false, rn) else (true, nn)))
      end
  end.

(** Enough for [key]: two steps for each nibble. *)
Definition enough (key : bytes) : nat := 2 * length key + 2.

End Ops.

Record Trie := MkTrie { root : option node; originalRoot : Hash; cachegen : Z; cachelimit : Z }.
Definition with_root (n : option node) (t : Trie) : Trie := MkTrie n (originalRoot t) (cachegen t) (cachelimit t).

(** The hash of an empty trie. *)
Definition emptyRoot : Hash := 0x56e81f171bcc55a6ff8345e692c0f86e5b48e01b996cadc001622fb5e363b421.

Section Api.
Context (Node : Hash -> option bytes).

Definition New (root : Hash) : outcome (MissingNodeError + Trie) :=
  let trie := MkTrie None root 0 0 in
  if negb (root =? 0) && negb (root =? emptyRoot) then
    rootnode <~ resolveHash Node 0 (hash_bytes root) [];
    Ret (inr (with_root rootnode trie))
  else Ret (inr trie).

Definition TryGet (t : Trie) (key : bytes) : outcome (Trie * (MissingNodeError + bytes)) :=
  let key := keybytesToHex key in
  r ← tryGet Node (cachegen t) (enough key) (root t) [] key;
  Ret match r with
      | inl e => (t, inl e)
      | inr (value, newroot, didResolve) => (if didResolve : bool then with_root newroot t else t, inr value)
      end.

Definition set_root (t : Trie) (r : outcome (MissingNodeError + (bool * option node))) : outcome (Trie * option MissingNodeError) :=
  r ← r; Ret match r with inl e => (t, Some e) | inr (_, n) => (with_root n t, None) end.

Definition TryDelete (t : Trie) (key : bytes) : outcome (Trie * option MissingNodeError) :=
  let k := keybytesToHex key in set_root t (delete Node (cachegen t) (enough k) (root t) [] k).

Definition TryUpdate (t : Trie) (key value : bytes) : outcome (Trie * option MissingNodeError) :=
  let k := keybytesToHex key in
  if negb (len value =? 0)
  then set_root t (insert Node (cachegen t) (enough k) (root t) [] k (Some (valueNode value)))
  else set_root t (delete Node (cachegen t) (enough k) (root t) [] k).

End Api.

End Trie.
