(* ===== verification/TrieHasher.v ===== *)
(** Hashing and storing of tries: the memory database nodes are written to
    ([core/trie/database.go]), the hasher that collapses a trie into the hash of its root
    ([core/trie/hasher.go]), [Hash] and [Commit] of a trie ([core/trie/trie.go]) and the
    trie with hashed keys ([core/trie/secure_trie.go]). *)

From S2P Require Import Prelude Params Bytes RlpEncode RlpDecode RlpRaw TrieEncoding Trie.
Import TrieEnc.

Module TrieDb.

(** [blob] is nil for the entry of the zero hash that holds the references to roots. *)
Record cachedNode := MkCached { blob : option bytes; parents : Z; children : gmap Hash Z }.

(** The disk is a map from keys to values.  Sizes are kept as integers (the source has a
    float64); the statistics of garbage collection are not. *)
Record Database := MkDb {
  diskdb : gmap bytes bytes;
  nodes : gmap Hash cachedNode;
  preimages : gmap Hash bytes;
  nodesSize : Z;
  preimagesSize : Z
}.

Definition NewDatabase (disk : gmap bytes bytes) : Database := MkDb disk {[ 0 := MkCached None 0 ∅ ]} ∅ 0 0.

Definition set_nodes (f : gmap Hash cachedNode -> gmap Hash cachedNode) (db : Database) : Database :=
  MkDb (diskdb db) (f (nodes db)) (preimages db) (nodesSize db) (preimagesSize db).

Definition insert (hash : Hash) (b : bytes) (db : Database) : Database :=
  match nodes db !! hash with
  | Some _ => db
  | None => MkDb (diskdb db) (<[hash := MkCached (Some b) 0 ∅]> (nodes db)) (preimages db) (nodesSize db + (32 + len b)) (preimagesSize db)
  end.

Definition insertPreimage (hash : Hash) (preimage : bytes) (db : Database) : Database :=
  match preimages db !! hash with
  | Some _ => db
  | None => MkDb (diskdb db) (nodes db) (<[hash := preimage]> (preimages db)) (nodesSize db) (preimagesSize db + (32 + len preimage))
  end.

(** A missing key and a nil slice both make the callers report a missing node. *)
Definition Node (db : Database) (hash : Hash) : option bytes :=
  match nodes db !! hash with
  | Some node => blob node
  | None => diskdb db !! hash_bytes hash
  end.

(** "secure-key-" *)
Definition secureKeyPrefix : bytes := [115; 101; 99; 117; 114; 101; 45; 107; 101; 121; 45].
Definition secureKey (key : bytes) : bytes := secureKeyPrefix ++ key.
Definition preimage (db : Database) (hash : Hash) : option bytes :=
  match preimages db !! hash with
  | Some p => Some p
  | None => diskdb db !! secureKey (hash_bytes hash)
  end.

(** A parent that is not in memory is a nil pointer. *)
Definition reference (child parent : Hash) (db : Database) : outcome Database :=
  match nodes db !! child with
  | None => Ret db
  | Some node =>
      p ← deref (nodes db !! parent);
      if bool_decide (is_Some (children p !! child)) && negb (parent =? 0) then Ret db
      else
        let db := set_nodes <[child := MkCached (blob node) (parents node + 1) (children node)]> db in
        p ← deref (nodes db !! parent);
        Ret (set_nodes <[parent := MkCached (blob p) (parents p) (<[child := default 0 (children p !! child) + 1]> (children p))]> db)
  end.

End TrieDb.

Module TrieHash.
Import Trie TrieDb.

(** What [rlp.Encode] sees of a node: the exported fields of a short node, the children of
    a full node, bytes; flags are not exported. *)
Fixpoint node_val (n : node) : Rlp.val :=
  match n with
  | fullNode cs _ => Rlp.VList (map (fun c => match c with Some n => node_val n | None => Rlp.VNil end) cs)
  | shortNode k v _ => Rlp.VList [Rlp.VBytes k; match v with Some n => node_val n | None => Rlp.VNil end]
  | hashNode h => Rlp.VBytes h
  | valueNode v => Rlp.VBytes v
  end.

Definition LeafCallback := bytes -> Hash -> Database -> Database.

Section Hasher.
(** Keccak-256, as a number, and the fields of the hasher. *)
Context (sha : bytes -> Hash) (cachegen cachelimit : Z) (onleaf : option LeafCallback).

Definition M (A : Type) : Type := outcome (option Database * A).

(** References from the parent [hash] to the children of [n] that are hashes. *)
Definition ref_child (hash : Hash) (db : outcome Database) (c : option node) : outcome Database :=
  match c with Some (hashNode h) => d ← db; reference (BytesToHash h) hash d | _ => db end.
Definition ref_children (n : node) (hash : Hash) (db : Database) : outcome Database :=
  match n with
  | shortNode _ v _ => ref_child hash (Ret db) v
  | fullNode cs _ => foldl (ref_child hash) (Ret db) (take 16 cs)
  | _ => Ret db
  end.

(** The result of the callback is not looked at. *)
Definition leaf_child (f : LeafCallback) (hash : Hash) (db : Database) (c : option node) : Database :=
  match c with Some (valueNode v) => f v hash db | _ => db end.
Definition leaf_children (n : node) (hash : Hash) (db : Database) : Database :=
  match onleaf, n with
  | Some f, shortNode _ v _ => leaf_child f hash db v
  | Some f, fullNode cs _ => foldl (leaf_child f hash) db (take 16 cs)
  | _, _ => db
  end.

Definition store (n : node) (db : option Database) (force : bool) : M node :=
  match n with
  | hashNode _ => Ret (db, n)
  | _ =>
      r ← Rlp.EncodeToBytes Rlp.TInterface (node_val n);
      match r with
      | inl _ => Panic
      | inr tmp =>
          if (len tmp <? 32) && negb force then Ret (db, n)
          else
            let hash := match fst (cache n) with Some h => h | None => hash_bytes (sha tmp) end in
            match db with
            | None => Ret (db, hashNode hash)
            | Some d =>
                let h := BytesToHash hash in
                d ← ref_children n h (insert h tmp d);
                Ret (Some (leaf_children n h d), hashNode hash)
            end
      end
  end.

(** The first sixteen children of a full node, collapsed and cached. *)
Fixpoint hash_loop (hash : node -> option Database -> bool -> M (node * node)) (i : nat) (cs : list (option node)) (db : option Database) {struct cs}
    : M (list (option node) * list (option node)) :=
  match i, cs with
  | O, _ | _, [] => Ret (db, (map (fun c => match c with None => Some (valueNode []) | _ => c end) cs, cs))
  | S i, None :: cs =>
      '(db, (a, b)) ← hash_loop hash i cs db;
      Ret (db, (Some (valueNode []) :: a, None :: b))
  | S i, Some c :: cs =>
      '(db, (x, y)) ← hash c db false;
      '(db, (a, b)) ← hash_loop hash i cs db;
      Ret (db, (Some x :: a, Some y :: b))
  end.

Definition hashChildren (hash : node -> option Database -> bool -> M (node * node)) (original : node) (db : option Database) : M (node * node) :=
  match original with
  | shortNode k v f =>
      ck ← hexToCompact k;
      match v with
      | Some (valueNode w) => Ret (db, (shortNode ck (Some (valueNode w)) f, shortNode k (Some (valueNode w)) f))
      | Some n => '(db, (x, y)) ← hash n db false; Ret (db, (shortNode ck (Some x) f, shortNode k (Some y) f))
      | None => Panic
      end
  | fullNode cs f =>
      '(db, (a, b)) ← hash_loop hash 16 cs db;
      Ret (db, (fullNode a f, fullNode b f))
  | _ => Ret (db, (original, original))
  end.

Definition set_hash (n hashed : node) (db : option Database) : node :=
  let cachedHash := match hashed with hashNode h => Some h | _ => None end in
  let flag f := MkFlag cachedHash (fl_gen f) (match db with Some _ => false | None => fl_dirty f end) in
  match n with
  | shortNode k v f => shortNode k v (flag f)
  | fullNode cs f => fullNode cs (flag f)
  | _ => n
  end.

Fixpoint hash (n : node) (db : option Database) (force : bool) {struct n} : M (node * node) :=
  let walk :=
    '(db, (collapsed, cached)) ← hashChildren hash n db;
    '(db, hashed) ← store collapsed db force;
    Ret (db, (hashed, set_hash cached hashed db)) in
  match cache n with
  | (Some h, dirty) =>
      match db with
      | None => Ret (db, (hashNode h, n))
      | Some _ =>
          if canUnload n cachegen cachelimit then Ret (db, (hashNode h, hashNode h))
          else if negb dirty then Ret (db, (hashNode h, n))
          else walk
      end
  | (None, _) => walk
  end.

End Hasher.

Section Api.
Context (sha : bytes -> Hash).

Definition hashRoot (t : Trie) (db : option Database) (onleaf : option LeafCallback) : M (node * option node) :=
  match root t with
  | None => Ret (db, (hashNode (hash_bytes emptyRoot), None))
  | Some n => '(db, (h, c)) ← hash sha (cachegen t) (cachelimit t) onleaf n db true; Ret (db, (h, Some c))
  end.

(** The type assertion [hash.(hashNode)]. *)
Definition asHash (n : node) : outcome Hash := match n with hashNode h => Ret (BytesToHash h) | _ => Panic end.

Definition Hash_ (t : Trie) : outcome (Trie * Hash) :=
  '(_, (h, cached)) ← hashRoot t None None;
  h ← asHash h;
  Ret (with_root cached t, h).

Definition Commit (t : Trie) (db : Database) (onleaf : option LeafCallback) : outcome (Database * Trie * Hash) :=
  '(db, (h, cached)) ← hashRoot t (Some db) onleaf;
  db ← deref db;
  h ← asHash h;
  Ret (db, MkTrie cached (originalRoot t) (u16 (cachegen t + 1)) (cachelimit t), h).

End Api.

Definition SetCacheLimit (t : Trie) (l : Z) : Trie := MkTrie (root t) (originalRoot t) (cachegen t) l.

End TrieHash.
