(* ===== verification/TrieSpec.v ===== *)
(** The trie as a mathematical object: trees without caches, hashes or laziness, their
    contents, the canonical form that insertion and deletion keep, and the proof that the
    form is determined by the contents. *)

From S2P Require Import Prelude Params Bytes TrieEncoding Trie.
Import TrieEnc TrieEncProps.

Module TrieSpec.

Inductive tree :=
| Leaf (v : bytes)
| Short (k : bytes) (t : tree)
| Full (cs : list (option tree)).

Abbreviation tkey := bytes.

(** [q] without the prefix [p]. *)
Fixpoint strip (p q : bytes) : option bytes :=
  match p, q with
  | [], q => Some q
  | x :: p, y :: q => if x =? y then strip p q else None
  | _ :: _, [] => None
  end.

Fixpoint get (t : tree) (key : tkey) : option bytes :=
  match t with
  | Leaf v => match key with [] => Some v | _ => None end
  | Short k t => match strip k key with Some r => get t r | None => None end
  | Full cs =>
      match key with
      | [] => None
      | x :: r =>
          (fix at_ (cs : list (option tree)) (i : nat) : option bytes :=
             match cs, i with
             | [], _ => None
             | c :: _, O => match c with Some t => get t r | None => None end
             | _ :: cs, S i => at_ cs i
             end) cs (Z.to_nat x)
      end
  end.
Definition lookup (t : option tree) (key : tkey) : option bytes := match t with Some t => get t key | None => None end.

Lemma get_full cs x r : get (Full cs) (x :: r) = match cs !! Z.to_nat x with Some c => lookup c r | None => None end.
Proof.
  cbn [get]. generalize (Z.to_nat x). intros i. revert i. induction cs as [|c cs IH]; intros [|i]; try done; apply IH.
Qed.

(** ** Canonical form *)

Definition is_full (t : tree) : Prop := match t with Full _ => True | _ => False end.

Inductive wf : tree -> Prop :=
| wf_leaf k v : Forall is_nibble k -> v <> [] -> wf (Short (k ++ [16]) (Leaf v))
| wf_ext k t : k <> [] -> Forall is_nibble k -> is_full t -> wf t -> wf (Short k t)
| wf_full cs : length cs = 17%nat ->
    (forall i t, (i < 16)%nat -> cs !! i = Some (Some t) -> wf t) ->
    (forall t, cs !! 16%nat = Some (Some t) -> exists v, t = Leaf v /\ v <> []) ->
    (exists i j a b, i <> j /\ cs !! i = Some (Some a) /\ cs !! j = Some (Some b)) -> wf (Full cs).

Lemma wf_short_inv k t : wf (Short k t) -> k <> [] /\ match t with
  | Leaf v => exists p, k = p ++ [16] /\ Forall is_nibble p /\ v <> []
  | Short _ _ => False
  | Full _ => Forall is_nibble k /\ wf t
  end.
Proof. inversion 1 as [p v Hp Hv|? ? Hne Hn Hf Hw|]; subst; [split; [by destruct p|eauto]|]. split; [done|]. by destruct t. Qed.

Definition wf_root (t : option tree) : Prop := match t with Some t => wf t | None => True end.

(** Complete keys: nibbles and the terminator. *)
Definition hexkey (k : tkey) : Prop := exists p, k = p ++ [16] /\ Forall is_nibble p.

Lemma hexkey_cons x k : hexkey (x :: k) <-> (x = 16 /\ k = []) \/ (is_nibble x /\ hexkey k).
Proof.
  split.
  - intros ([|y p] & E & Hp); simplify_eq/=; [by left|]. right. apply Forall_cons in Hp as [Hy Hp]. split; [done|]. by exists p.
  - intros [[-> ->]|[Hx (p & -> & Hp)]]; [by exists []|]. exists (x :: p). split; [done|]. by constructor.
Qed.
Lemma hexkey_nil : ~ hexkey [].
Proof. intros ([|y p] & E & _); done. Qed.
Lemma hexkey_app p k : Forall is_nibble p -> hexkey (p ++ k) <-> hexkey k.
Proof.
  intros Hp. induction Hp as [|x p Hx _ IH]; [done|]. simpl. rewrite hexkey_cons, IH. unfold is_nibble in *. split; [|by auto]. intros [[-> _]|[_ ?]]; [lia|done].
Qed.
Lemma hexkey_keybytes b : is_bytes b -> hexkey (keybytesToHex b).
Proof. intros Hb. apply keybytesToHex_hex, Hb. Qed.

Lemma strip_Some p q r : strip p q = Some r <-> q = p ++ r.
Proof.
  revert q. induction p as [|x p IH]; intros q; simpl; [naive_solver|]. destruct q as [|y q]; [done|].
  destruct (x =? y) eqn:E; bool_to_prop; [subst; rewrite IH; naive_solver|]. naive_solver.
Qed.
Lemma strip_app p r : strip p (p ++ r) = Some r.
Proof. by apply strip_Some. Qed.

Lemma strip_self p : strip p p = Some [].
Proof. apply strip_Some. by rewrite app_nil_r. Qed.

Lemma get_short k t key v : get (Short k t) key = Some v <-> exists r, key = k ++ r /\ get t r = Some v.
Proof.
  cbn [get]. destruct (strip k key) as [r|] eqn:E; [apply strip_Some in E as ->|].
  - split; [by eauto|]. intros (r' & Hr & Hv). by apply app_inv_head in Hr as ->.
  - split; [done|]. intros (r & -> & _). by rewrite strip_app in E.
Qed.

(** *** Induction over nested children *)
Fixpoint size (t : tree) : nat :=
  match t with
  | Leaf _ => 1%nat
  | Short _ t => S (size t)
  | Full cs => S ((fix go (cs : list (option tree)) : nat := match cs with [] => O | c :: cs => (match c with Some t => size t | None => O end + go cs)%nat end) cs)
  end.
Lemma size_child cs i t : cs !! i = Some (Some t) -> (size t < size (Full cs))%nat.
Proof.
  cbn [size]. revert i. induction cs as [|c cs IH]; intros i Hi; [done|]. destruct i as [|i]; simpl in Hi.
  - injection Hi as ->. lia.
  - specialize (IH i Hi). lia.
Qed.
Lemma size_pos t : (0 < size t)%nat.
Proof. destruct t; simpl; lia. Qed.

(** *** What a canonical tree holds *)

(** Some key is there, and it is complete. *)
Lemma wf_inhabited t : wf t -> exists k v, hexkey k /\ get t k = Some v /\ v <> [].
Proof.
  remember (size t) as n eqn:Hn. assert (Hle : (size t <= n)%nat) by lia. clear Hn. revert t Hle.
  induction n as [|n IH]; intros t Hle Hwf; [pose proof (size_pos t); lia|]. inversion Hwf as [k v Hk Hv|k t' Hk Hnk Hf Hwf'|cs Hl Hc Hv Htwo]; subst.
  - exists (k ++ [16]), v. split_and!; [by exists k| |done]. cbn [get]. by rewrite strip_self.
  - destruct (IH t') as (k' & v & Hk' & Hg & Hv); [simpl in Hle; lia|done|]. exists (k ++ k'), v. split_and!; [by apply hexkey_app| |done].
    cbn [get]. by rewrite strip_app.
  - destruct Htwo as (i & j & a & b & Hij & Hi & Hj). assert (Hi17 : (i < 17)%nat) by (rewrite <- Hl; by eapply lookup_lt_Some).
    destruct (decide (i = 16%nat)) as [->|Hne].
    + destruct (Hv a Hi) as (v & -> & Hnv). exists [16], v. split_and!; [by exists []| |done]. rewrite get_full. change (Z.to_nat 16) with 16%nat. by rewrite Hi.
    + destruct (IH a) as (k & v & Hk & Hg & Hnv); [pose proof (size_child cs i a Hi); lia|apply (Hc i a); [lia|done]|].
      exists (Z.of_nat i :: k), v. split_and!; [|rewrite get_full, Nat2Z.id, Hi; done|done]. apply hexkey_cons. right. unfold is_nibble. split; [lia|done].
Qed.

(** Every key of a full node continues with the index of its child. *)
Lemma full_child_key cs i t : wf (Full cs) -> cs !! i = Some (Some t) -> exists k v, get (Full cs) (Z.of_nat i :: k) = Some v /\ hexkey (Z.of_nat i :: k).
Proof.
  intros Hwf Hi. inversion Hwf as [| |? Hl Hc Hv Htwo]; subst. assert (Hi17 : (i < 17)%nat) by (rewrite <- Hl; by eapply lookup_lt_Some).
  destruct (decide (i = 16%nat)) as [->|Hne].
  - destruct (Hv t Hi) as (v & -> & Hnv). exists [], v. rewrite get_full, Nat2Z.id, Hi. split; [done|]. by exists [].
  - destruct (wf_inhabited t) as (k & v & Hk & Hg & Hnv); [apply (Hc i t); [lia|done]|]. exists k, v. rewrite get_full, Nat2Z.id, Hi. split; [done|].
    apply hexkey_cons. right. unfold is_nibble. split; [lia|done].
Qed.

Lemma full_two_keys cs : wf (Full cs) -> exists x y k l v w, x <> y /\ hexkey (x :: k) /\ hexkey (y :: l) /\
  get (Full cs) (x :: k) = Some v /\ get (Full cs) (y :: l) = Some w.
Proof.
  intros Hwf. inversion Hwf as [| |? Hl Hc Hv Htwo]; subst. destruct Htwo as (i & j & a & b & Hij & Hi & Hj).
  destruct (full_child_key cs i a Hwf Hi) as (k & v & Hk & Hhk), (full_child_key cs j b Hwf Hj) as (l & w & Hw & Hhl).
  exists (Z.of_nat i), (Z.of_nat j), k, l, v, w. split_and!; try done. lia.
Qed.

(** ** The form is determined by the contents *)

Lemma common_prefix (p k r s : bytes) x y u v : x <> y -> k ++ x :: r = p ++ u -> k ++ y :: s = p ++ v -> exists l, k = p ++ l.
Proof.
  intros Hxy. revert k. induction p as [|z p IH]; intros k Hx Hy; [by exists k|]. destruct k as [|w k]; simplify_eq/=.
  destruct (IH k) as [l ->]; [done..|]. by exists l.
Qed.

(** A key of a leaf. *)
Lemma leaf_key k v key w : get (Short k (Leaf v)) key = Some w -> key = k /\ w = v.
Proof. rewrite get_short. intros (r & -> & Hr). destruct r; simplify_eq/=. by rewrite app_nil_r. Qed.

(** Anything but a leaf has keys that differ right after its common prefix. *)
Lemma fork_keys t : wf t -> (exists k v, t = Short (k ++ [16]) (Leaf v)) \/
  exists p x y k l v w, x <> y /\ hexkey (p ++ x :: k) /\ hexkey (p ++ y :: l) /\ get t (p ++ x :: k) = Some v /\ get t (p ++ y :: l) = Some w /\
    match t with Short q _ => p = q | _ => p = [] end.
Proof.
  intros Hwf. inversion Hwf as [k v|p t' Hp Hnp Hf Hwf'|cs]; subst; [left; eauto|right..].
  - destruct t' as [|?|cs]; try done. destruct (full_two_keys cs Hwf') as (x & y & k & l & v & w & Hxy & Hx & Hy & Hgx & Hgy).
    exists p, x, y, k, l, v, w. split_and!; try done; try (by apply hexkey_app); apply get_short; eauto.
  - destruct (full_two_keys cs Hwf) as (x & y & k & l & v & w & Hxy & Hx & Hy & Hgx & Hgy). by exists [], x, y, k, l, v, w.
Qed.

Definition same (t1 t2 : tree) : Prop := forall k, hexkey k -> get t1 k = get t2 k.

Lemma leaf_unique k v t : wf t -> wf (Short (k ++ [16]) (Leaf v)) -> same (Short (k ++ [16]) (Leaf v)) t -> t = Short (k ++ [16]) (Leaf v).
Proof.
  intros Hwf Hwl Hs. destruct (fork_keys t Hwf) as [(k' & v' & ->)|(p & x & y & r & l & w & w' & Hxy & Hx & Hy & Hgx & Hgy & _)].
  - assert (Hg : get (Short (k ++ [16]) (Leaf v)) (k' ++ [16]) = Some v').
    { rewrite Hs; [|by apply wf_short_inv in Hwf as [_ (p & -> & Hp & _)]; exists p].
      cbn [get]. by rewrite strip_self. }
    apply leaf_key in Hg as [Hk ->]. by rewrite Hk.
  - rewrite <- (Hs _ Hx) in Hgx. rewrite <- (Hs _ Hy) in Hgy. apply leaf_key in Hgx as [Ex _], Hgy as [Ey _]. rewrite <- Ey in Ex.
    apply app_inv_head in Ex. by injection Ex.
Qed.

Lemma short_prefix q1 t1 p x y r l v w : x <> y -> get (Short q1 t1) (p ++ x :: r) = Some v -> get (Short q1 t1) (p ++ y :: l) = Some w -> exists s, p = q1 ++ s.
Proof. intros Hxy (u & Hu & _)%get_short (u' & Hu' & _)%get_short. by eapply common_prefix. Qed.

Lemma wf_unique n t1 t2 : (size t1 <= n)%nat -> wf t1 -> wf t2 -> same t1 t2 -> t1 = t2.
Proof.
  revert t1 t2. induction n as [|n IH]; intros t1 t2 Hn H1 H2 Hs; [pose proof (size_pos t1); lia|].
  destruct (fork_keys t1 H1) as [(k & v & ->)|(p1 & x & y & r & l & v & w & Hxy & Hx & Hy & Hgx & Hgy & Ep1)]; [symmetry; by apply leaf_unique|].
  destruct (fork_keys t2 H2) as [(k & v' & ->)|(p2 & x' & y' & r' & l' & v' & w' & Hxy' & Hx' & Hy' & Hgx' & Hgy' & Ep2)].
  { apply leaf_unique; [done..|]. intros k' Hk'. symmetry. by apply Hs. }
  rewrite (Hs _ Hx) in Hgx. rewrite (Hs _ Hy) in Hgy. rewrite <- (Hs _ Hx') in Hgx'. rewrite <- (Hs _ Hy') in Hgy'.
  destruct t1 as [v1|q1 s1|cs1]; [inversion H1| |]; (destruct t2 as [v2|q2 s2|cs2]; [inversion H2| |]); subst.
  - destruct (short_prefix _ _ _ _ _ _ _ _ _ Hxy Hgx Hgy) as [u Hu], (short_prefix _ _ _ _ _ _ _ _ _ Hxy' Hgx' Hgy') as [u' Hu'].
    assert (q1 = q2) as ->.
    { rewrite Hu' in Hu. rewrite <- app_assoc in Hu. rewrite <- (app_nil_r q1) in Hu at 1. apply app_inv_head in Hu. symmetry in Hu. apply app_eq_nil in Hu as [-> _].
      by rewrite app_nil_r in Hu'. }
    assert (Hno : forall u, s1 <> Leaf u).
    { intros z ->. apply leaf_key in Hgx' as [Ea%(f_equal length) _]. rewrite length_app in Ea. simpl in Ea. lia. }
    assert (Hno' : forall u, s2 <> Leaf u).
    { intros z ->. apply leaf_key in Hgx as [Ea%(f_equal length) _]. rewrite length_app in Ea. simpl in Ea. lia. }
    apply wf_short_inv in H1 as [Hne H1], H2 as [_ H2]. destruct s1 as [z| |cs1]; [by destruct (Hno z)|done|]. destruct s2 as [z| |cs2]; [by destruct (Hno' z)|done|].
    destruct H1 as [Hnib H1], H2 as [_ H2].
    f_equal. apply IH; [simpl in Hn |- *; lia|done..|]. intros k Hk. specialize (Hs (q2 ++ k) ltac:(by apply hexkey_app)). cbn [get] in Hs. by rewrite strip_app in Hs.
  - exfalso. destruct (short_prefix _ _ _ _ _ _ _ _ _ Hxy' Hgx' Hgy') as [u Hu]. symmetry in Hu. apply app_eq_nil in Hu as [-> _].
    by apply wf_short_inv in H1 as [? _].
  - exfalso. destruct (short_prefix _ _ _ _ _ _ _ _ _ Hxy Hgx Hgy) as [u Hu]. symmetry in Hu. apply app_eq_nil in Hu as [-> _].
    by apply wf_short_inv in H2 as [? _].
  - f_equal. inversion H1 as [| |? Hl1 Hc1 Hv1 _]; subst. inversion H2 as [| |? Hl2 Hc2 Hv2 _]; subst. apply list_eq. intros i.
    assert (Hi : forall r, hexkey (Z.of_nat i :: r) -> match cs1 !! i with Some c => lookup c r | None => None end = match cs2 !! i with Some c => lookup c r | None => None end).
    { intros r0 Hr0. specialize (Hs _ Hr0). rewrite !get_full, Nat2Z.id in Hs. done. }
    destruct (decide (i < 17)%nat) as [Hlt|Hge]; [|rewrite !(proj2 (lookup_ge_None _ _)) by lia; done].
    destruct (lookup_lt_is_Some_2 cs1 i) as [c1 Ec1]; [lia|]. destruct (lookup_lt_is_Some_2 cs2 i) as [c2 Ec2]; [lia|]. rewrite Ec1, Ec2 in *. f_equal.
    destruct (decide (i = 16%nat)) as [->|Hne].
    + specialize (Hi [] ltac:(by exists [])). destruct c1 as [a|], c2 as [b|]; simpl in Hi; try done.
      * destruct (Hv1 _ Ec1) as (? & -> & _), (Hv2 _ Ec2) as (? & -> & _). simpl in Hi. by simplify_eq.
      * destruct (Hv1 _ Ec1) as (? & -> & _). done.
      * destruct (Hv2 _ Ec2) as (? & -> & _). done.
    + assert (Hhk : forall r0, hexkey r0 -> hexkey (Z.of_nat i :: r0)) by (intros r0 Hr0; apply hexkey_cons; right; unfold is_nibble; split; [lia|done]).
      destruct c1 as [a|], c2 as [b|]; try done.
      * f_equal. apply IH; [pose proof (size_child cs1 i a Ec1); lia|apply (Hc1 i); [lia|done]|apply (Hc2 i); [lia|done]|]. intros k Hk. apply (Hi k), Hhk, Hk.
      * destruct (wf_inhabited a) as (k & ? & Hk & Hg & _); [apply (Hc1 i); [lia|done]|]. specialize (Hi k (Hhk _ Hk)). simpl in Hi. congruence.
      * destruct (wf_inhabited b) as (k & ? & Hk & Hg & _); [apply (Hc2 i); [lia|done]|]. specialize (Hi k (Hhk _ Hk)). simpl in Hi. congruence.
Qed.

(** Canonical trees with the same contents are the same tree. *)
Lemma canonical t1 t2 : wf_root t1 -> wf_root t2 -> (forall k, hexkey k -> lookup t1 k = lookup t2 k) -> t1 = t2.
Proof.
  destruct t1 as [t1|], t2 as [t2|]; intros H1 H2 Hs; try done.
  - f_equal. by apply (wf_unique (size t1)).
  - destruct (wf_inhabited t1 H1) as (k & v & Hk & Hg & _). specialize (Hs k Hk). simpl in Hs. congruence.
  - destruct (wf_inhabited t2 H2) as (k & v & Hk & Hg & _). specialize (Hs k Hk). simpl in Hs. congruence.
Qed.

(** ** Insertion *)

Abbreviation only_child := Trie.only_child.
Definition put {A} (cs : list (option A)) (x : Z) (c : option A) : list (option A) := <[Z.to_nat x := c]> cs.
Definition graft (key : tkey) (t : tree) : tree := match key with [] => t | _ => Short key t end.

Fixpoint ins (t : tree) (key : tkey) (v : bytes) : tree :=
  match key with
  | [] => Leaf v
  | x :: r =>
      match t with
      | Leaf _ => t
      | Short k t' =>
          let m := prefixLen key k in
          if bool_decide (m = length k) then Short k (ins t' (drop m key) v)
          else
            match drop m k, drop m key with
            | b :: rb, a :: ra =>
                let branch := Full (put (put (replicate 17 None) b (Some (graft rb t'))) a (Some (graft ra (Leaf v)))) in
                if bool_decide (m = O) then branch else Short (take m key) branch
            | _, _ => t
            end
      | Full cs =>
          Full ((fix at_ (cs : list (option tree)) (i : nat) : list (option tree) :=
                   match cs, i with
                   | [], _ => []
                   | c :: cs, O => Some (match c with Some t => ins t r v | None => graft r (Leaf v) end) :: cs
                   | c :: cs, S i => c :: at_ cs i
                   end) cs (Z.to_nat x))
      end
  end.
Definition insert (t : option tree) (key : tkey) (v : bytes) : tree := match t with Some t => ins t key v | None => graft key (Leaf v) end.

Lemma ins_full cs x r v : ins (Full cs) (x :: r) v = Full (alter (fun c => Some (insert c r v)) (Z.to_nat x) cs).
Proof.
  cbn [ins]. f_equal. generalize (Z.to_nat x). intros i. revert i. induction cs as [|c cs IH]; intros [|i]; try done. simpl. f_equal. apply IH.
Qed.

(** Children by their index. *)
Definition wf_child (x : Z) (t : tree) : Prop := (x = 16 /\ exists v, t = Leaf v /\ v <> []) \/ (is_nibble x /\ wf t).

Lemma wf_full_iff cs : wf (Full cs) <-> length cs = 17%nat /\ (forall i t, cs !! i = Some (Some t) -> wf_child (Z.of_nat i) t) /\
  (exists i j a b, i <> j /\ cs !! i = Some (Some a) /\ cs !! j = Some (Some b)).
Proof.
  split.
  - inversion 1 as [| |? Hl Hc Hv Htwo]; subst. split_and!; [done| |done]. intros i t Hi.
    assert ((i < 17)%nat) by (rewrite <- Hl; by eapply lookup_lt_Some). destruct (decide (i = 16%nat)) as [->|].
    + left. split; [done|by apply Hv].
    + right. split; [unfold is_nibble; lia|]. by apply (Hc i); [lia|].
  - intros (Hl & Hc & Htwo). constructor; try done.
    + intros i t Hi Ht. destruct (Hc i t Ht) as [[? _]|[_ ?]]; [lia|done].
    + intros t Ht. destruct (Hc _ t Ht) as [[_ ?]|[Hn _]]; [done|]. unfold is_nibble in Hn. lia.
Qed.

Lemma get_put cs x y c r : length cs = 17%nat -> 0 <= x <= 16 -> 0 <= y -> get (Full (put cs x c)) (y :: r) = if x =? y then lookup c r else get (Full cs) (y :: r).
Proof.
  intros Hl Hx Hy. rewrite !get_full. unfold put. destruct (x =? y) eqn:E; bool_to_prop.
  - subst. rewrite list_lookup_insert_eq by lia. done.
  - rewrite list_lookup_insert_ne by lia. done.
Qed.
Lemma length_put {A} (cs : list (option A)) x c : length (put cs x c) = length cs.
Proof. apply length_insert. Qed.

Lemma get_graft k t key : get (graft k t) key = get (Short k t) key.
Proof. destruct k; [|done]. by cbn [graft get strip]. Qed.

Lemma wf_graft_leaf x r v : hexkey (x :: r) -> v <> [] -> wf_child x (graft r (Leaf v)).
Proof.
  intros [[-> ->]|[Hx (p & -> & Hp)]]%hexkey_cons Hv; [left; eauto|]. right. split; [done|]. destruct p; by constructor.
Qed.

Lemma hexkey_split p x r : hexkey (p ++ x :: r) -> Forall is_nibble p /\ hexkey (x :: r).
Proof.
  induction p as [|y p IH]; [done|]. simpl. intros [[_ E]|[Hy Hr]]%hexkey_cons; [by destruct p|]. destruct (IH Hr). split; [by constructor|done].
Qed.

(** Cutting a short node below its first part. *)
Lemma wf_graft_short p x r t : wf (Short (p ++ x :: r) t) -> Forall is_nibble p /\ wf_child x (graft r t).
Proof.
  intros [_ Hw]%wf_short_inv. destruct t as [v|?|cs]; [|done|].
  - destruct Hw as (q & Eq & Hq & Hv). destruct (hexkey_split p x r) as [Hp Hh]; [by exists q|]. split; [done|]. by apply wf_graft_leaf.
  - destruct Hw as [[Hp [Hx Hr]%Forall_cons]%Forall_app Hw]. split; [done|]. right. split; [done|]. destruct r; [done|]. by apply wf_ext.
Qed.

Lemma child_range x t : wf_child x t -> 0 <= x <= 16.
Proof. intros [[-> _]|[Hx _]]; [lia|]. unfold is_nibble in Hx. lia. Qed.

(** Two children under a new branch. *)
Lemma wf_branch a b ta tb : a <> b -> wf_child a ta -> wf_child b tb -> wf (Full (put (put (replicate 17 None) b (Some tb)) a (Some ta))).
Proof.
  intros Hab Ha Hb. pose proof (child_range _ _ Ha). pose proof (child_range _ _ Hb). apply wf_full_iff. split_and!.
  - by rewrite !length_put.
  - intros i t. unfold put. destruct (decide (i = Z.to_nat a)) as [->|Hia].
    + rewrite list_lookup_insert_eq by (rewrite length_insert; simpl; lia). intros [= <-]. by rewrite Z2Nat.id by lia.
    + rewrite list_lookup_insert_ne by done. destruct (decide (i = Z.to_nat b)) as [->|Hib].
      * rewrite list_lookup_insert_eq by (simpl; lia). intros [= <-]. by rewrite Z2Nat.id by lia.
      * rewrite list_lookup_insert_ne by done. by intros [? _]%lookup_replicate.
  - exists (Z.to_nat a), (Z.to_nat b), ta, tb. unfold put. split_and!; [lia|by rewrite list_lookup_insert_eq by (rewrite length_insert; simpl; lia)|].
    rewrite list_lookup_insert_ne by lia. by rewrite list_lookup_insert_eq by (simpl; lia).
Qed.
Lemma get_empty_branch key : get (Full (replicate 17 None)) key = None.
Proof.
  destruct key as [|x r]; [done|]. rewrite get_full. destruct (replicate 17 None !! Z.to_nat x) as [c|] eqn:E; [|done]. by apply lookup_replicate in E as [-> _].
Qed.

Lemma wf_not_leaf v : ~ wf (Leaf v).
Proof. inversion 1. Qed.

(** Insertion changes exactly the value of its key and keeps the canonical form. *)
Definition updates (t t' : option tree) (key : tkey) (v : option bytes) : Prop := forall k, hexkey k -> lookup t' k = if decide (k = key) then v else lookup t k.

Lemma prefixLen_in k r : prefixLen (k ++ r) k = length k.
Proof. induction k as [|x k IH]; simpl; [by destruct r|]. rewrite Z.eqb_refl. by f_equal. Qed.
Lemma prefixLen_out p a ra b rb : a <> b -> prefixLen (p ++ a :: ra) (p ++ b :: rb) = length p.
Proof. intros Hab. induction p as [|x p IH]; simpl; [by rewrite (proj2 (Z.eqb_neq _ _))|]. rewrite Z.eqb_refl. by f_equal. Qed.

Definition branch (a b : Z) (ta tb : tree) : tree := Full (put (put (replicate 17 None) b (Some tb)) a (Some ta)).

Lemma ins_short_in q t r v : q <> [] -> ins (Short q t) (q ++ r) v = Short q (ins t r v).
Proof.
  intros Hq. pose proof (prefixLen_in q r) as Hm. destruct q as [|x q]; [done|]. cbn [ins app]. simpl app in Hm. rewrite Hm, bool_decide_true by done.
  by rewrite app_comm_cons, drop_app_length.
Qed.
Lemma ins_short_out p a ra b rb t v : a <> b ->
  ins (Short (p ++ b :: rb) t) (p ++ a :: ra) v = graft p (branch a b (graft ra (Leaf v)) (graft rb t)).
Proof.
  intros Hab. pose proof (prefixLen_out p a ra b rb Hab) as Hm. destruct (p ++ a :: ra) as [|x r] eqn:E; [by destruct p|]. cbn [ins]. rewrite Hm, <- E.
  rewrite bool_decide_false by (rewrite length_app; simpl; lia). rewrite !drop_app_length, take_app_length. by destruct p.
Qed.

Lemma get_branch a b ta tb y r : a <> b -> 0 <= a <= 16 -> 0 <= b <= 16 -> 0 <= y ->
  get (branch a b ta tb) (y :: r) = if a =? y then get ta r else if b =? y then get tb r else None.
Proof. intros Hab Ha Hb Hy. unfold branch. rewrite !get_put by (rewrite ?length_put; done). by rewrite get_empty_branch. Qed.

Lemma hexkey_end q r : hexkey ((q ++ [16]) ++ r) -> r = [].
Proof. rewrite <- app_assoc. intros [_ [[_ ?]|[Hx _]]%hexkey_cons]%hexkey_split; [done|]. unfold is_nibble in Hx. lia. Qed.
Lemma hexkey_head x r : hexkey (x :: r) -> 0 <= x <= 16.
Proof. intros [[-> _]|[Hx _]]%hexkey_cons; [lia|]. unfold is_nibble in Hx. lia. Qed.

(** How a complete key relates to the key of a short node. *)
Lemma short_cases q t key : wf (Short q t) -> hexkey key ->
  (exists r, key = q ++ r /\ match t with Leaf _ => r = [] | _ => hexkey r end) \/
  (exists p a ra b rb, a <> b /\ key = p ++ a :: ra /\ q = p ++ b :: rb /\ Forall is_nibble p /\ hexkey (a :: ra) /\ wf_child b (graft rb t)).
Proof.
  intros Hw Hk. destruct (prefixLen_spec key q) as (p & ra & rb & -> & -> & _ & Hd). destruct rb as [|b rb].
  - left. rewrite app_nil_r in *. exists ra. split; [done|]. apply wf_short_inv in Hw as [_ Hw]. destruct t as [v|?|cs]; [|done|].
    + destruct Hw as (q & -> & _). by apply hexkey_end in Hk.
    + destruct Hw as [Hn _]. by apply hexkey_app in Hk.
  - right. destruct (wf_graft_short _ _ _ _ Hw) as [Hp Hc]. apply hexkey_app in Hk; [|done]. destruct ra as [|a ra]; [by apply hexkey_nil in Hk|].
    exists p, a, ra, b, rb. split_and!; try done. by eapply Hd.
Qed.

Lemma updates_short q t t' r v : (forall s, hexkey (q ++ s) -> get t' s = if decide (s = r) then v else get t s) ->
  updates (Some (Short q t)) (Some (Short q t')) (q ++ r) v.
Proof.
  intros Hu k Hk. simpl. destruct (strip q k) as [s|] eqn:Es.
  - apply strip_Some in Es as ->. specialize (Hu s Hk). rewrite Hu. destruct (decide (s = r)) as [->|Hne]; [by rewrite decide_True|].
    rewrite decide_False; [done|]. by intros ?%app_inv_head.
  - rewrite decide_False; [done|]. intros ->. by rewrite strip_app in Es.
Qed.

Lemma updates_graft p t t' r v : Forall is_nibble p -> updates (Some t) (Some t') r v -> updates (Some (Short p t)) (Some (graft p t')) (p ++ r) v.
Proof.
  intros Hp Hu k Hk. change (lookup (Some (graft p t')) k) with (get (graft p t') k). rewrite get_graft.
  refine (updates_short p t t' r v _ k Hk). intros s Hs. apply Hu. by apply hexkey_app in Hs.
Qed.

Lemma get_short_app p q t k : get (Short (p ++ q) t) k = get (Short p (Short q t)) k.
Proof.
  cbn [get]. revert k. induction p as [|x p IH]; intros k; [done|]. destruct k as [|y k]; [done|]. cbn [app strip]. destruct (x =? y); [apply IH|done].
Qed.

(** A key that leaves a short node gets a branch of its own. *)
Lemma branch_updates a ra b rb t v : a <> b -> hexkey (a :: ra) -> 0 <= b <= 16 ->
  updates (Some (Short (b :: rb) t)) (Some (branch a b (graft ra (Leaf v)) (graft rb t))) (a :: ra) (Some v).
Proof.
  intros Hab Ha Hb k Hk. destruct k as [|y s]; [by apply hexkey_nil in Hk|]. pose proof (hexkey_head _ _ Ha). pose proof (hexkey_head _ _ Hk).
  change (lookup (Some ?t) ?k) with (get t k). rewrite get_branch, !get_graft by lia. destruct (a =? y) eqn:E1; bool_to_prop.
  - subst y. cbn [get]. destruct (decide (a :: s = a :: ra)) as [[= ->]|Hne]; [by rewrite strip_self|].
    cbn [strip]. rewrite (proj2 (Z.eqb_neq b a)) by done. destruct (strip ra s) as [u|] eqn:Es; [|done]. apply strip_Some in Es as ->. destruct u; [|done].
    by rewrite app_nil_r in Hne.
  - rewrite decide_False by naive_solver. cbn [get strip]. by destruct (b =? y).
Qed.

Lemma alter_put {A} (f : option A -> option A) cs x c : cs !! Z.to_nat x = Some c -> alter f (Z.to_nat x) cs = put cs x (f c).
Proof. intros Hc. unfold put. apply list_eq. intros i. destruct (decide (i = Z.to_nat x)) as [->|Hne].
  - rewrite list_lookup_alter_eq, Hc, list_lookup_insert_eq; [done|]. by eapply lookup_lt_Some.
  - by rewrite list_lookup_alter_ne, list_lookup_insert_ne.
Qed.

(** Replacing a child by one that differs at one key. *)
Lemma updates_full cs x r c c' v : length cs = 17%nat -> hexkey (x :: r) -> cs !! Z.to_nat x = Some c ->
  (forall k, hexkey (x :: k) -> lookup c' k = if decide (k = r) then v else lookup c k) -> updates (Some (Full cs)) (Some (Full (put cs x c'))) (x :: r) v.
Proof.
  intros Hl Hx Hc Hu k Hk. destruct k as [|y s]; [by apply hexkey_nil in Hk|]. pose proof (hexkey_head _ _ Hx). pose proof (hexkey_head _ _ Hk).
  change (lookup (Some ?t) ?k) with (get t k). rewrite get_put by (done || lia). destruct (x =? y) eqn:E; bool_to_prop.
  - subst y. rewrite Hu by done. rewrite get_full, Hc. destruct (decide (s = r)) as [->|]; [by rewrite decide_True|]. rewrite decide_False by congruence. done.
  - rewrite decide_False by congruence. done.
Qed.

Lemma wf_put cs x c t : wf (Full cs) -> wf_child x c -> cs !! Z.to_nat x = Some t -> wf (Full (put cs x (Some c))).
Proof.
  rewrite !wf_full_iff. intros (Hl & Hc & i & j & a & b & Hij & Hi & Hj) Hw Ht. pose proof (child_range _ _ Hw). split_and!.
  - by rewrite length_put.
  - intros k u. unfold put. destruct (decide (k = Z.to_nat x)) as [->|Hk].
    + rewrite list_lookup_insert_eq by lia. intros [= <-]. by rewrite Z2Nat.id by lia.
    + rewrite list_lookup_insert_ne by done. apply Hc.
  - assert (Hput : forall k u, cs !! k = Some (Some u) -> exists u', put cs x (Some c) !! k = Some (Some u')).
    { intros k u Hku. unfold put. destruct (decide (k = Z.to_nat x)) as [->|Hk]; [rewrite list_lookup_insert_eq by lia|rewrite list_lookup_insert_ne by done]; eauto. }
    destruct (Hput i a Hi) as [a' Ha'], (Hput j b Hj) as [b' Hb']. by exists i, j, a', b'.
Qed.

Lemma ins_spec n t key v : (size t <= n)%nat -> hexkey key -> v <> [] -> wf t ->
  wf (ins t key v) /\ updates (Some t) (Some (ins t key v)) key (Some v) /\ (is_full t -> is_full (ins t key v)).
Proof.
  revert t key. induction n as [|n IH]; intros t key Hn Hk Hv Hw; [pose proof (size_pos t); lia|]. destruct t as [w|q t'|cs]; [by apply wf_not_leaf in Hw| |].
  - destruct (short_cases q t' key Hw Hk) as [(r & -> & Hr)|(p & a & ra & b & rb & Hab & -> & -> & Hp & Ha & Hb)].
    + pose proof (wf_short_inv _ _ Hw) as [Hq Hw']. rewrite ins_short_in by done. destruct t' as [w|?|cs]; [|done|].
      * subst r. destruct Hw' as (q' & -> & Hq' & Hw'). cbn [ins]. split_and!; [by constructor| |done]. apply updates_short.
        intros k Hk'. apply hexkey_end in Hk' as ->. done.
      * destruct Hw' as [Hnq Hw']. destruct (IH (Full cs) r) as (H1 & H2 & H3); [simpl in Hn |- *; lia|done..|]. split_and!; [apply wf_ext; [done|done|by apply H3|done]| |done].
        apply updates_short. intros k Hk'. apply H2. by apply hexkey_app in Hk'.
    + rewrite ins_short_out by done. pose proof (child_range _ _ Hb) as Hbr. pose proof (hexkey_head _ _ Ha). split_and!; [| |done].
      * assert (Hbw : wf (branch a b (graft ra (Leaf v)) (graft rb t'))) by (apply wf_branch; [done|by apply wf_graft_leaf|done]).
        destruct p; [done|]. by apply wf_ext.
      * intros k Hk'. pose proof (updates_graft p _ _ _ _ Hp (branch_updates a ra b rb t' v Hab Ha Hbr) k Hk') as Hu.
        rewrite Hu. simpl lookup. case_decide; [done|]. symmetry. apply (get_short_app p (b :: rb) t' k).
  - pose proof (proj1 (wf_full_iff cs) Hw) as (Hl & Hc & _). destruct key as [|x r]; [by apply hexkey_nil in Hk|]. pose proof (hexkey_head _ _ Hk).
    destruct (lookup_lt_is_Some_2 cs (Z.to_nat x)) as [c Hcx]; [lia|]. rewrite ins_full, (alter_put _ _ _ c) by done.
    assert (Hch : wf_child x (insert c r v) /\ forall k, hexkey (x :: k) -> get (insert c r v) k = if decide (k = r) then Some v else lookup c k).
    { destruct c as [t|]; cbn [insert lookup].
      - pose proof (Hc _ _ Hcx) as Hct. rewrite Z2Nat.id in Hct by lia. pose proof (size_child _ _ _ Hcx). apply hexkey_cons in Hk as [[-> ->]|[Hx Hr]].
        + destruct Hct as [[_ (w & -> & Hw')]|[Hx _]]; [|unfold is_nibble in Hx; lia]. cbn [ins]. split; [left; eauto|].
          intros k Hk. apply hexkey_cons in Hk as [[_ ->]|[Hx _]]; [done|unfold is_nibble in Hx; lia].
        + destruct Hct as [[-> _]|[_ Hwt]]; [unfold is_nibble in Hx; lia|]. destruct (IH t r) as (H1 & H2 & _); [lia|done..|].
          split; [by right|]. intros k [[-> _]|[_ Hk]]%hexkey_cons; [unfold is_nibble in Hx; lia|]. by apply H2.
      - split; [by apply wf_graft_leaf|]. intros k Hk'. rewrite get_graft. cbn [get]. destruct (strip r k) as [u|] eqn:Es.
        + apply strip_Some in Es as ->. destruct u; [by rewrite app_nil_r, decide_True|]. rewrite decide_False; [done|]. intros E.
          apply (f_equal length) in E. rewrite length_app in E. simpl in E. lia.
        + rewrite decide_False; [done|]. intros ->. by rewrite strip_self in Es. }
    destruct Hch as [Hch Hget]. split_and!; [by eapply wf_put|by eapply updates_full|done].
Qed.

Lemma insert_spec t key v : hexkey key -> v <> [] -> wf_root t -> wf (insert t key v) /\ updates t (Some (insert t key v)) key (Some v).
Proof.
  intros Hk Hv Hw. destruct t as [t|]; [destruct (ins_spec (size t) t key v) as (? & ? & _); auto|]. simpl. destruct key as [|x r]; [by apply hexkey_nil in Hk|].
  cbn [graft]. destruct Hk as (p & E & Hp). rewrite E. split; [by constructor|]. intros k Hk. cbn [lookup get]. destruct (strip (p ++ [16]) k) as [u|] eqn:Es.
  - apply strip_Some in Es as ->. apply hexkey_end in Hk as ->. by rewrite app_nil_r, decide_True.
  - rewrite decide_False; [done|]. intros ->. by rewrite strip_self in Es.
Qed.

(** ** Deletion *)

(** A short node in front of what is left below it. *)
Definition prepend (k : tkey) (t : tree) : tree := match t with Short ck ct => Short (k ++ ck) ct | _ => Short k t end.

Definition reduce (cs : list (option tree)) : option tree :=
  match only_child 0 None cs with
  | Some pos =>
      match cs !! pos with
      | Some (Some t) => Some (if bool_decide (pos = 16%nat) then Short [Z.of_nat pos] t else prepend [Z.of_nat pos] t)
      | _ => None
      end
  | None => Some (Full cs)
  end.

Fixpoint del (t : tree) (key : tkey) : option tree :=
  match t with
  | Leaf _ => None
  | Short k t' =>
      let m := prefixLen key k in
      if bool_decide (m < length k)%nat then Some t
      else if bool_decide (m = length key) then None
      else match del t' (drop (length k) key) with Some c => Some (prepend k c) | None => None end
  | Full cs =>
      match key with
      | [] => Some t
      | x :: r =>
          reduce ((fix at_ (cs : list (option tree)) (i : nat) : list (option tree) :=
                     match cs, i with
                     | [], _ => []
                     | c :: cs, O => (match c with Some t => del t r | None => None end) :: cs
                     | c :: cs, S i => c :: at_ cs i
                     end) cs (Z.to_nat x))
      end
  end.
Definition delete (t : option tree) (key : tkey) : option tree := match t with Some t => del t key | None => None end.

Lemma del_full cs x r : del (Full cs) (x :: r) = reduce (alter (fun c => delete c r) (Z.to_nat x) cs).
Proof.
  cbn [del]. f_equal. generalize (Z.to_nat x). intros i. revert i. induction cs as [|c cs IH]; intros [|i]; try done. simpl. f_equal. apply IH.
Qed.

Lemma del_short_in q t r : del (Short q t) (q ++ r) = match r with [] => None | _ => match del t r with Some c => Some (prepend q c) | None => None end end.
Proof.
  cbn [del]. rewrite prefixLen_in. rewrite bool_decide_false by lia. rewrite length_app. destruct r as [|x r].
  - by rewrite bool_decide_true by (simpl; lia).
  - rewrite bool_decide_false by (simpl; lia). by rewrite drop_app_length.
Qed.
Lemma del_short_out p a ra b rb t : a <> b -> del (Short (p ++ b :: rb) t) (p ++ a :: ra) = Some (Short (p ++ b :: rb) t).
Proof. intros Hab. cbn [del]. rewrite prefixLen_out by done. rewrite bool_decide_true; [done|]. rewrite length_app. simpl. lia. Qed.

(** The only child. *)
Lemma only_child_aux {A} (cs : list (option A)) i pos :
  (forall j, only_child i pos cs = Some j -> (pos = Some j /\ Forall (fun c => c = None) cs) \/
     (pos = None /\ exists k, j = (i + k)%nat /\ (exists t, cs !! k = Some (Some t)) /\ forall l t, cs !! l = Some (Some t) -> l = k)) /\
  (only_child i pos cs = None -> (pos = None /\ Forall (fun c => c = None) cs) \/
     (exists k t, cs !! k = Some (Some t) /\ (pos <> None \/ exists l u, l <> k /\ cs !! l = Some (Some u)))).
Proof.
  revert i pos. induction cs as [|c cs IH]; intros i pos; cbn [Trie.only_child].
  { split; [intros j ->; by left|intros ->; by left]. }
  destruct c as [t|].
  - destruct pos as [p|].
    + split; [done|]. intros _. right. exists O, t. split; [done|by left].
    + destruct (IH (S i) (Some i)) as [H1 H2]. split.
      * intros j Hj. right. split; [done|]. destruct (H1 j Hj) as [[[= ->] Hn]|[? _]]; [|done]. exists O. split_and!; [lia|by exists t|].
        intros [|l] u Hu; [done|]. simpl in Hu. rewrite Forall_lookup in Hn. specialize (Hn l _ Hu). done.
      * intros Hn. right. destruct (H2 Hn) as [[? _]|(k & u & Hk & _)]; [done|]. exists O, t. split; [done|]. right. by exists (S k), u.
  - destruct (IH (S i) pos) as [H1 H2]. split.
    + intros j Hj. destruct (H1 j Hj) as [[-> Hn]|(-> & k & -> & (u & Hu) & Hall)]; [left; split; [done|by constructor]|]. right. split; [done|].
      exists (S k). split_and!; [lia|by exists u|]. intros [|l] w Hw; [done|]. f_equal. by apply (Hall l w).
    + intros Hn. destruct (H2 Hn) as [[-> Hf]|(k & u & Hk & Hor)]; [left; split; [done|by constructor]|]. right. exists (S k), u. split; [done|].
      destruct Hor as [|(l & w & Hl & Hw)]; [by left|]. right. exists (S l), w. split; [lia|done].
Qed.

Lemma only_child_Some {A} (cs : list (option A)) j : only_child 0 None cs = Some j ->
  (exists t, cs !! j = Some (Some t)) /\ forall l t, cs !! l = Some (Some t) -> l = j.
Proof. intros Hj. destruct (only_child_aux cs 0 None) as [H _]. destruct (H j Hj) as [[? _]|(_ & k & -> & Ht & Hall)]; [done|]. by split. Qed.
Lemma only_child_None {A} (cs : list (option A)) k t : only_child 0 None cs = None -> cs !! k = Some (Some t) ->
  exists i j a b, i <> j /\ cs !! i = Some (Some a) /\ cs !! j = Some (Some b).
Proof.
  intros Hn Hk. destruct (only_child_aux cs 0 None) as [_ H]. destruct (H Hn) as [[_ Hf]|(i & a & Hi & Hor)].
  - rewrite Forall_lookup in Hf. specialize (Hf _ _ Hk). done.
  - destruct Hor as [|(l & u & Hl & Hu)]; [done|]. by exists i, l, a, u.
Qed.

Lemma get_prepend k t key : get (prepend k t) key = get (Short k t) key.
Proof. destruct t as [v|ck ct|cs]; try done. cbn [prepend]. apply get_short_app. Qed.

Lemma wf_prepend k t : k <> [] -> Forall is_nibble k -> wf t -> wf (prepend k t).
Proof.
  intros Hk Hn Hw. destruct t as [v|ck ct|cs]; [by apply wf_not_leaf in Hw| |by apply wf_ext]. apply wf_short_inv in Hw as [Hne Hw]. cbn [prepend].
  destruct ct as [v|?|cs]; [|done|].
  - destruct Hw as (p & -> & Hp & Hv). rewrite app_assoc. constructor; [by apply Forall_app|done].
  - destruct Hw as [Hck Hw]. apply wf_ext; [by destruct k|by apply Forall_app|done|done].
Qed.

(** Reducing a full node with at least one child left. *)
Lemma reduce_spec cs k t0 : length cs = 17%nat -> (forall i t, cs !! i = Some (Some t) -> wf_child (Z.of_nat i) t) -> cs !! k = Some (Some t0) ->
  exists t, reduce cs = Some t /\ wf t /\ forall key, hexkey key -> get t key = get (Full cs) key.
Proof.
  intros Hl Hc Hk. unfold reduce. destruct (only_child 0 None cs) as [pos|] eqn:E.
  - destruct (only_child_Some cs pos E) as [[t Ht] Hall]. rewrite Ht. eexists. split; [done|]. pose proof (Hc pos t Ht) as Hct.
    assert (Hsame : forall key, hexkey key -> get (Short [Z.of_nat pos] t) key = get (Full cs) key).
    { intros [|y s] Hkey; [by apply hexkey_nil in Hkey|]. pose proof (hexkey_head _ _ Hkey). rewrite get_full. cbn [get strip].
      destruct (Z.of_nat pos =? y) eqn:Ey; bool_to_prop; [subst y; by rewrite Nat2Z.id, Ht|].
      destruct (cs !! Z.to_nat y) as [[u|]|] eqn:Eu; try done. apply Hall in Eu. lia. }
    destruct Hct as [[H16 (v & -> & Hv)]|[Hn Hw]].
    + rewrite bool_decide_true by lia. split; [|done]. rewrite H16. apply (wf_leaf [] v); [constructor|done].
    + rewrite bool_decide_false by (unfold is_nibble in Hn; lia). split; [apply wf_prepend; [done|by constructor|done]|]. intros key Hkey. rewrite get_prepend. by apply Hsame.
  - exists (Full cs). split_and!; [done| |done]. apply wf_full_iff. split_and!; [done|done|]. by eapply only_child_None.
Qed.

Lemma del_spec n t key : (size t <= n)%nat -> hexkey key -> wf t -> wf_root (del t key) /\ updates (Some t) (del t key) key None /\ (is_full t -> del t key <> None).
Proof.
  revert t key. induction n as [|n IH]; intros t key Hn Hk Hw; [pose proof (size_pos t); lia|]. destruct t as [w|q t'|cs]; [by apply wf_not_leaf in Hw| |].
  - destruct (short_cases q t' key Hw Hk) as [(r & -> & Hr)|(p & a & ra & b & rb & Hab & -> & -> & Hp & Ha & Hb)].
    + pose proof (wf_short_inv _ _ Hw) as [Hq Hw']. rewrite del_short_in. destruct t' as [w|?|cs]; [|done|].
      * subst r. split_and!; [done| |done]. intros k Hk'. rewrite app_nil_r. simpl. destruct (strip q k) as [u|] eqn:Es.
        -- apply strip_Some in Es as ->. destruct u; [by rewrite app_nil_r, decide_True|]. by case_decide.
        -- by case_decide.
      * destruct Hw' as [Hnq Hw']. destruct r as [|x r]; [by apply hexkey_nil in Hr|]. destruct (IH (Full cs) (x :: r)) as (H1 & H2 & H3); [simpl in Hn |- *; lia|done..|].
        destruct (del (Full cs) (x :: r)) as [c|]; [|by specialize (H3 I)]. split_and!; [by apply wf_prepend| |done].
        intros k Hk'. change (lookup (Some (prepend q c)) k) with (get (prepend q c) k). rewrite get_prepend.
        refine (updates_short q _ _ (x :: r) None _ k Hk'). intros s Hs. apply H2. by apply hexkey_app in Hs.
    + rewrite del_short_out by done. split_and!; [done| |done]. intros k Hk'. case_decide as E; [|done]. subst k. cbn [lookup get].
      assert (Hst : strip (p ++ b :: rb) (p ++ a :: ra) = None); [|by rewrite Hst].
      clear -Hab. induction p as [|z p IHp]; simpl; [by rewrite (proj2 (Z.eqb_neq b a)) by congruence|]. by rewrite Z.eqb_refl.
  - pose proof (proj1 (wf_full_iff cs) Hw) as (Hl & Hc & i & j & a & b & Hij & Hi & Hj). destruct key as [|x r]; [by apply hexkey_nil in Hk|]. pose proof (hexkey_head _ _ Hk).
    destruct (lookup_lt_is_Some_2 cs (Z.to_nat x)) as [c Hcx]; [lia|]. rewrite del_full, (alter_put _ _ _ c) by done.
    assert (Hch : (forall u, delete c r = Some u -> wf_child x u) /\ forall k, hexkey (x :: k) -> lookup (delete c r) k = if decide (k = r) then None else lookup c k).
    { destruct c as [t|]; cbn [delete]; [|split; [done|]; intros k _; by case_decide].
      pose proof (Hc _ _ Hcx) as Hct. rewrite Z2Nat.id in Hct by lia. pose proof (size_child _ _ _ Hcx). apply hexkey_cons in Hk as [[-> ->]|[Hx Hr]].
      - destruct Hct as [[_ (w & -> & Hw')]|[Hx _]]; [|unfold is_nibble in Hx; lia]. split; [done|]. intros k Hk. apply hexkey_cons in Hk as [[_ ->]|[Hx _]]; [done|unfold is_nibble in Hx; lia].
      - destruct Hct as [[-> _]|[_ Hwt]]; [unfold is_nibble in Hx; lia|]. destruct (IH t r) as (H1 & H2 & _); [lia|done..|].
        split; [intros u Hu; rewrite Hu in H1; by right|]. intros k [[-> _]|[_ Hk]]%hexkey_cons; [unfold is_nibble in Hx; lia|]. by apply H2. }
    destruct Hch as [Hch Hget]. assert (exists k t0, put cs x (delete c r) !! k = Some (Some t0)) as (k & t0 & Hk0).
    { unfold put. destruct (decide (i = Z.to_nat x)) as [->|]; [exists j, b|exists i, a]; by rewrite list_lookup_insert_ne. }
    destruct (reduce_spec (put cs x (delete c r)) k t0) as (t' & Hr & Hwt & Hg); [by rewrite length_put| |done|].
    { intros l u. unfold put. destruct (decide (l = Z.to_nat x)) as [->|]; [rewrite list_lookup_insert_eq by lia|rewrite list_lookup_insert_ne by done; apply Hc].
      intros [= Hu]. rewrite Z2Nat.id by lia. by apply Hch. }
    rewrite Hr. split_and!; [done| |done]. intros k' Hk'. cbn [lookup]. rewrite Hg by done. by apply (updates_full cs x r c (delete c r) None).
Qed.

Lemma delete_spec t key : hexkey key -> wf_root t -> wf_root (delete t key) /\ updates t (delete t key) key None.
Proof.
  intros Hk Hw. destruct t as [t|]; [destruct (del_spec (size t) t key) as (? & ? & _); auto|]. split; [done|]. intros k _. by case_decide.
Qed.

End TrieSpec.
