(* ===== verification/TrieCodec.v ===== *)
(** How a canonical tree is encoded: the reference encoding of its nodes, where a child
    of 32 bytes or more is replaced by its hash, and the proof that [decodeNode] reads
    it back. *)

From S2P Require Import Prelude Params Bytes RlpEncode RlpDecode RlpRoundtrip RlpRaw TrieEncoding Trie TrieSpec.
Import TrieEnc TrieEncProps RlpRef RlpEncodeProps RlpCodec RlpRawProps Trie TrieSpec.

Module TrieCodec.

(** ** Sizes of RLP items *)

Lemma header_bounds small large n : 0 <= n < 2 ^ 63 -> 1 <= len (header small large n) <= 9.
Proof.
  intros Hn. unfold header. destruct (n <? 56) eqn:E; bool_to_prop; [done|]. rewrite len_cons, len_be_bytes.
  pose proof (byte_len_le 8 n). lia.
Qed.
Lemma node_header_bytes small large n : 0 <= n < 2 ^ 63 -> 0 <= small <= 200 -> 0 <= large <= 247 -> is_bytes (header small large n).
Proof.
  intros Hn Hs Hl. unfold header. destruct (n <? 56) eqn:E; bool_to_prop; [repeat constructor; go_lia|].
  pose proof (byte_len_le 8 n). constructor; [go_lia|apply be_bytes_is_bytes].
Qed.
Lemma enc_str_bounds b : len b < 2 ^ 62 -> 1 <= len (enc_str b) <= 9 + len b.
Proof.
  intros Hb. pose proof (len_nonneg b). assert (Hgen : 1 <= len (header 0x80 0xB7 (len b) ++ b) <= 9 + len b).
  { rewrite len_app. pose proof (header_bounds 0x80 0xB7 (len b)). lia. }
  destruct b as [|x [|y b]]; try done. cbn [enc_str]. by destruct (x <=? 127).
Qed.
Lemma enc_str_bytes b : is_bytes b -> len b < 2 ^ 62 -> is_bytes (enc_str b).
Proof.
  intros Hb Hl. pose proof (len_nonneg b). destruct (enc_str_cases b Hb) as [(x & -> & Hx & ->)|[-> _]]; [repeat constructor; go_lia|].
  apply Forall_app. split; [apply node_header_bytes; lia|done].
Qed.
Lemma enc_list_bounds b : len b < 2 ^ 62 -> 1 + len b <= len (enc_list b) <= 9 + len b.
Proof. intros Hb. pose proof (len_nonneg b). unfold enc_list. rewrite len_app. pose proof (header_bounds 0xC0 0xF7 (len b)). lia. Qed.
Lemma enc_list_bytes b : is_bytes b -> len b < 2 ^ 62 -> is_bytes (enc_list b).
Proof. intros Hb Hl. pose proof (len_nonneg b). unfold enc_list. apply Forall_app. split; [apply node_header_bytes; lia|done]. Qed.

(** ** Items, as [Split] sees them *)

Definition item (e : bytes) : Prop := exists k c, e = enc_kind k c /\ is_bytes c /\ kind_of k c.

Lemma str_kind b : is_bytes b -> exists k, enc_str b = enc_kind k b /\ kind_of k b /\ k <> RlpStream.List.
Proof.
  intros Hb. destruct (enc_str_cases b Hb) as [(x & -> & Hx & He)|[He H1]].
  - exists RlpStream.Byte. split_and!; [done|by exists x|done].
  - exists RlpStream.String. split_and!; [done| |done]. intros x ->. by apply H1.
Qed.
Lemma item_str b : is_bytes b -> item (enc_str b).
Proof. intros Hb. destruct (str_kind b Hb) as (k & He & Hk & _). by exists k, b. Qed.
Lemma item_list b : is_bytes b -> item (enc_list b).
Proof. intros Hb. by exists RlpStream.List, b. Qed.

Lemma SplitString_str b r : is_bytes b -> len (enc_str b ++ r) < 2 ^ 63 -> RlpRaw.SplitString (enc_str b ++ r) = Ret (inr (b, r)).
Proof.
  intros Hb Hl. destruct (str_kind b Hb) as (k & He & Hk & Hne). rewrite He in *. unfold RlpRaw.SplitString. rewrite Split_fwd by done. by destruct k.
Qed.
Lemma SplitList_list b r : is_bytes b -> len (enc_list b ++ r) < 2 ^ 63 -> RlpRaw.SplitList (enc_list b ++ r) = Ret (inr (b, r)).
Proof. intros Hb Hl. unfold RlpRaw.SplitList. change (enc_list b) with (enc_kind RlpStream.List b). by rewrite Split_fwd. Qed.
Lemma CountValues_items es : Forall item es -> len (mjoin es) < 2 ^ 63 -> RlpRaw.CountValues (mjoin es) = Ret (inr (len es)).
Proof.
  intros Hes Hl. assert (Hi : exists items, Forall (fun kc => is_bytes (snd kc) /\ kind_of (fst kc) (snd kc)) items /\ es = map (fun kc => enc_kind (fst kc) (snd kc)) items).
  { clear Hl. induction Hes as [|e es (k & c & -> & Hc & Hk) _ (items & Hi & ->)]; [by exists []|]. exists ((k, c) :: items). by split; [constructor|]. }
  destruct Hi as (items & Hi & ->). unfold RlpRaw.CountValues. rewrite (count_values items _ 0 Hi Hl) by done. do 2 f_equal. unfold len. rewrite length_map. lia.
Qed.

(** ** The reference encoding *)

Section Enc.
Context (K : bytes -> Hash).

Definition compact (k : bytes) : bytes := match hexToCompact k with Ret c => c | Panic => [] end.

(** What stands for a child of encoding [e] in its parent. *)
Definition ref (t : tree) (e : bytes) : bytes :=
  match t with Leaf _ => e | _ => if len e <? 32 then e else enc_str (hash_bytes (K e)) end.

Fixpoint nodeenc (t : tree) : bytes :=
  match t with
  | Leaf v => enc_str v
  | Short k t => enc_list (enc_str (compact k) ++ ref t (nodeenc t))
  | Full cs => enc_list ((fix go (cs : list (option tree)) : bytes :=
      match cs with [] => [] | c :: cs => (match c with Some t => ref t (nodeenc t) | None => enc_str [] end) ++ go cs end) cs)
  end.
Definition cref (c : option tree) : bytes := match c with Some t => ref t (nodeenc t) | None => enc_str [] end.

Lemma nodeenc_full cs : nodeenc (Full cs) = enc_list (mjoin (map cref cs)).
Proof. cbn [nodeenc]. f_equal. induction cs as [|c cs IH]; [done|]. cbn [map]. change (mjoin (?a :: ?b)) with (a ++ mjoin b). by rewrite <- IH. Qed.

(** Subtrees whose values and keys have a size that occurs. *)
Inductive sane : tree -> Prop :=
| sane_leaf v : is_bytes v -> len v < 2 ^ 60 -> sane (Leaf v)
| sane_short k t : len k < 2 ^ 60 -> sane t -> sane (Short k t)
| sane_full cs : (forall i t, cs !! i = Some (Some t) -> sane t) -> sane (Full cs).

Definition valid (t : tree) : Prop := wf t \/ exists v, t = Leaf v /\ v <> [].

Lemma valid_child x t : wf_child x t -> valid t.
Proof. intros [[_ H]|[_ H]]; [by right|by left]. Qed.
Lemma valid_short k t : wf (Short k t) -> valid t.
Proof. intros [_ Hw]%wf_short_inv. destruct t as [v| |cs]; [right|done|left; naive_solver]. destruct Hw as (p & -> & _ & Hv). eauto. Qed.
Lemma wf_short_hex k t : wf (Short k t) -> is_hex k.
Proof. intros [_ Hw]%wf_short_inv. destruct t as [v| |cs]; [right; naive_solver|done|left; naive_solver]. Qed.

Lemma compact_spec k : is_hex k -> hexToCompact k = Ret (compact k) /\ is_bytes (compact k) /\ compactToHex (compact k) = Ret k.
Proof. intros Hk. destruct (compact_hex k Hk) as (c & Hc & Hb & Hr). unfold compact. by rewrite Hc. Qed.
Lemma len_nibbles b : len (nibbles b) = 2 * len b.
Proof. induction b as [|x b IH]; [done|]. rewrite nibbles_cons, !len_cons, IH. lia. Qed.
Lemma compact_len k : is_hex k -> len (compact k) <= len k + 1.
Proof.
  intros Hk. destruct (compact_spec k Hk) as (_ & _ & Hr). unfold compactToHex, keybytesToHex in Hr. rewrite removelast_app_one in Hr.
  destruct (head (nibbles (compact k))) as [b0|] eqn:Eh; [|done]. cbn [deref mbind outcome_bind] in Hr. injection Hr as Hr.
  apply (f_equal len) in Hr. rewrite len_drop in Hr. assert (0 <= Z.land b0 1) by (rewrite odd_land; by apply Z.mod_pos_bound).
  assert (2 * len (compact k) <= len (if 2 <=? b0 then nibbles (compact k) ++ [16] else nibbles (compact k))).
  { destruct (2 <=? b0); rewrite ?len_app, len_nibbles; [|lia]. pose proof (len_nonneg [16]). lia. }
  pose proof (len_nonneg (compact k)). lia.
Qed.

Lemma hash_item h : is_bytes (hash_bytes h) /\ len (hash_bytes h) = 32.
Proof. split; [apply be_bytes_is_bytes|]. unfold hash_bytes. by rewrite len_be_bytes. Qed.
Lemma len_enc_hash h : len (enc_str (hash_bytes h)) = 33 /\ is_bytes (enc_str (hash_bytes h)).
Proof.
  destruct (hash_item h) as [Hb Hl]. split; [|apply enc_str_bytes; [done|lia]].
  destruct (enc_str_cases _ Hb) as [(x & Hx & _)|[-> _]]; [by rewrite Hx in Hl|]. rewrite len_app, Hl. done.
Qed.

(** Encodings are bytes, items, and of bounded size. *)
Definition good (e : bytes) : Prop := is_bytes e /\ item e /\ 1 <= len e.

Lemma good_str b : is_bytes b -> len b < 2 ^ 62 -> good (enc_str b).
Proof. intros Hb Hl. pose proof (enc_str_bounds b Hl). split_and!; [by apply enc_str_bytes|by apply item_str|lia]. Qed.
Lemma good_list b : is_bytes b -> len b < 2 ^ 62 -> good (enc_list b).
Proof. intros Hb Hl. pose proof (enc_list_bounds b Hl). pose proof (len_nonneg b). split_and!; [by apply enc_list_bytes|by apply item_list|lia]. Qed.

Definition ref_ok (t : tree) : Prop := good (ref t (nodeenc t)) /\ len (ref t (nodeenc t)) <= match t with Leaf v => 9 + len v | _ => 33 end.

Lemma ref_ok_of t : (match t with Leaf _ => False | _ => True end) -> good (nodeenc t) -> ref_ok t.
Proof.
  intros Ht Hg. assert (Hr : ref t (nodeenc t) = if len (nodeenc t) <? 32 then nodeenc t else enc_str (hash_bytes (K (nodeenc t)))) by (by destruct t).
  unfold ref_ok. rewrite Hr. destruct (hash_item (K (nodeenc t))) as [Hb Hl].
  destruct (len (nodeenc t) <? 32) eqn:E; bool_to_prop.
  - split; [done|]. destruct t; [done|lia..].
  - split; [apply good_str; [done|lia]|]. destruct (len_enc_hash (K (nodeenc t))) as [-> _]. by destruct t.
Qed.

Lemma crefs_bound (cs : list (option tree)) : (forall i t, cs !! i = Some (Some t) -> wf_child (Z.of_nat i) t /\ ref_ok t /\ sane t) -> (length cs <= 17)%nat ->
  Forall good (map cref cs) /\ len (mjoin (map cref cs)) <= 33 * 17 + 2 ^ 60 + 9.
Proof.
  intros Hc Hl. split.
  - apply Forall_forall. intros e (c & -> & Hin)%list_elem_of_fmap. apply list_elem_of_lookup in Hin as [i Hi]. destruct c as [t|]; [apply (Hc i t Hi)|]. apply good_str; [constructor|done].
  - assert (Hgen : forall (ds : list (option tree)) j, (j + length ds <= 17)%nat -> (forall i t, ds !! i = Some (Some t) -> wf_child (Z.of_nat (j + i)) t /\ ref_ok t /\ sane t) ->
      len (mjoin (map cref ds)) <= 33 * len ds + (if decide (j + length ds = 17)%nat then 2 ^ 60 + 9 else 0)).
    { induction ds as [|c ds IH]; intros j Hj Hd; [by case_decide|]. cbn [map]. change (mjoin (?a :: ?b)) with (a ++ mjoin b).
      rewrite len_app, len_cons. specialize (IH (S j)). simpl length in Hj. pose proof (len_nonneg ds).
      destruct (decide (ds = [])) as [->|Hne].
      - assert (Hm : len (mjoin (map cref ([] : list (option tree)))) = 0) by done. rewrite Hm. assert (He : len ([] : list (option tree)) = 0) by done. rewrite He.
        clear IH. simpl length. destruct c as [t|]; [|change (len (cref None)) with 1; case_decide; lia].
        destruct (Hd 0%nat t eq_refl) as (Hw & [_ Hr] & Hs). cbn [cref]. destruct t as [v| |]; [|case_decide; lia..].
        inversion Hs; subst. destruct Hw as [[H16 _]|[_ Hw]]; [|by apply wf_not_leaf in Hw]. rewrite decide_True by lia. lia.
      - assert (Hc1 : len (cref c) <= 33).
        { destruct c as [t|]; [|change (len (cref None)) with 1; lia]. destruct (Hd 0%nat t eq_refl) as (Hw & [_ Hr] & Hs). cbn [cref]. destruct t as [v| |]; [|lia..].
          destruct Hw as [[H16 _]|[_ Hw]]; [|by apply wf_not_leaf in Hw]. destruct ds; [done|]. simpl in Hj. lia. }
        assert (len (mjoin (map cref ds)) <= 33 * len ds + (if decide (S j + length ds = 17)%nat then 2 ^ 60 + 9 else 0)) as IH'.
        { apply IH; [lia|]. intros i t Hi. replace (S j + i)%nat with (j + S i)%nat by lia. by apply Hd. }
        simpl length. destruct (decide (S j + length ds = 17)%nat); destruct (decide (j + S (length ds) = 17)%nat); lia. }
    specialize (Hgen cs 0%nat ltac:(lia) Hc). unfold len at 2 in Hgen. case_decide; lia.
Qed.

Lemma good_join es : Forall good es -> is_bytes (mjoin es) /\ Forall item es.
Proof.
  intros H. split; [|by eapply Forall_impl; [exact H|intros ? (_ & ? & _)]]. induction H as [|e es (Hb & _) _ IH]; [constructor|]. by apply Forall_app.
Qed.

Lemma enc_good n t : (size t <= n)%nat -> valid t -> sane t -> good (nodeenc t) /\ len (nodeenc t) < 2 ^ 62 /\ ref_ok t.
Proof.
  revert t. induction n as [|n IH]; intros t Hn Hv Hs; [pose proof (size_pos t); lia|]. destruct t as [v|k t'|cs].
  - inversion Hs; subst. pose proof (enc_str_bounds v). assert (Hg : good (enc_str v)) by (apply good_str; [done|lia]).
    split_and!; [done|cbn [nodeenc]; lia|]. split; [done|]. cbn [ref nodeenc]. lia.
  - destruct Hv as [Hw|(v & ? & _)]; [|done]. inversion Hs as [|? ? Hk Ht'|]; subst. pose proof (wf_short_hex _ _ Hw) as Hx. destruct (compact_spec k Hx) as (_ & Hcb & _).
    pose proof (compact_len k Hx). destruct (IH t') as (_ & _ & [(Hrb & _ & _) Hrl]); [simpl in Hn; lia|by eapply valid_short|done|].
    pose proof (enc_str_bounds (compact k)). assert (Hr : len (ref t' (nodeenc t')) <= 9 + 2 ^ 60) by (destruct t'; [inversion Ht'; subst|..]; lia).
    assert (Hg : good (nodeenc (Short k t'))).
    { cbn [nodeenc]. apply good_list; [|rewrite len_app; lia]. apply Forall_app. split; [apply enc_str_bytes; [done|lia]|done]. }
    split_and!; [done| |by apply ref_ok_of]. cbn [nodeenc]. pose proof (enc_list_bounds (enc_str (compact k) ++ ref t' (nodeenc t'))) as He. rewrite len_app in He. lia.
  - destruct Hv as [Hw|(v & ? & _)]; [|done]. inversion Hs as [| |? Hc]; subst. apply wf_full_iff in Hw as (Hl & Hwc & _).
    destruct (crefs_bound cs) as [Hgs Hb]; [|lia|].
    { intros i t Hi. pose proof (Hwc i t Hi) as Hci. split_and!; [done| |by eapply Hc]. apply IH; [pose proof (size_child cs i t Hi); lia|by eapply valid_child|by eapply Hc]. }
    destruct (good_join _ Hgs) as [Hbs _]. rewrite nodeenc_full. pose proof (enc_list_bounds (mjoin (map cref cs))).
    assert (Hg : good (enc_list (mjoin (map cref cs)))) by (apply good_list; [done|lia]).
    split_and!; [done|lia|]. apply ref_ok_of; [done|]. by rewrite nodeenc_full.
Qed.

(** ** Decoding *)

(** What [decodeNode] makes of a tree: everything embedded, the rest behind hashes. *)
Definition dref (F : tree -> node) (t : tree) : node :=
  match t with Leaf v => valueNode v | _ => if len (nodeenc t) <? 32 then F t else hashNode (hash_bytes (K (nodeenc t))) end.
Fixpoint decoded (h : option bytes) (gen : Z) (t : tree) : node :=
  match t with
  | Leaf v => valueNode v
  | Short k t => shortNode k (Some (dref (decoded None gen) t)) (MkFlag h gen false)
  | Full cs => fullNode (map (option_map (dref (decoded None gen))) cs) (MkFlag h gen false)
  end.

Lemma string_kind b : is_bytes b -> len b <> 1 -> enc_str b = enc_kind RlpStream.String b /\ kind_of RlpStream.String b.
Proof. intros Hb Hl. split; [done|]. by intros x ->. Qed.

Definition embeds (D : bytes -> outcome (decodeError + option node)) (gen : Z) (t : tree) : Prop :=
  forall r, len (nodeenc t) < 32 -> len (nodeenc t ++ r) < 2 ^ 63 -> D (nodeenc t ++ r) = Ret (inr (Some (decoded None gen t))).

Lemma nodeenc_is_list t : wf t -> exists c, nodeenc t = enc_list c.
Proof. intros Hw. destruct t as [v|k t|cs]; [by apply wf_not_leaf in Hw|by eexists|by eexists]. Qed.
Lemma dref_wf F t : wf t -> dref F t = if len (nodeenc t) <? 32 then F t else hashNode (hash_bytes (K (nodeenc t))).
Proof. intros Hw. destruct t; [by apply wf_not_leaf in Hw|done|done]. Qed.
Lemma ref_wf t : wf t -> ref t (nodeenc t) = if len (nodeenc t) <? 32 then nodeenc t else enc_str (hash_bytes (K (nodeenc t))).
Proof. intros Hw. destruct t; [by apply wf_not_leaf in Hw|done|done]. Qed.

Lemma decodeRef_wf D gen t r : wf t -> sane t -> embeds D gen t -> len (cref (Some t) ++ r) < 2 ^ 63 ->
  decodeRef D (cref (Some t) ++ r) = Ret (inr (Some (dref (decoded None gen) t), r)).
Proof.
  intros Hw Hs HD Hl. cbn [cref] in *. rewrite ref_wf in * by done. rewrite dref_wf by done. destruct (enc_good (size t) t) as ((Hb & _ & _) & _ & _); [done|by left|done|].
  destruct (len (nodeenc t) <? 32) eqn:E; bool_to_prop.
  - specialize (HD r E Hl). destruct (nodeenc_is_list t Hw) as [c Hc]. unfold decodeRef. rewrite Hc in Hb, Hl, E, HD |- *.
    change (enc_list c) with (enc_kind RlpStream.List c) in HD |- *. rewrite (Split_fwd RlpStream.List c r); [|by apply Forall_app in Hb as [_ ?]|done|done]. cbn [rlp_err mbind outcome_bind ebind is_list].
    rewrite (proj2 (Z.ltb_ge _ _)) by (rewrite len_app; unfold hashLen; simpl; lia). rewrite HD. done.
  - destruct (hash_item (K (nodeenc t))) as [Hhb Hhl]. destruct (string_kind _ Hhb) as [He Hk]; [lia|]. unfold decodeRef. rewrite He, Split_fwd by (done || by rewrite <- He).
    cbn [rlp_err mbind outcome_bind ebind is_list is_string andb]. by rewrite Hhl.
Qed.
Lemma decodeRef_None D r : len (cref None ++ r) < 2 ^ 63 -> decodeRef D (cref None ++ r) = Ret (inr (None, r)).
Proof. intros Hl. unfold decodeRef. cbn [cref] in *. change (enc_str []) with (enc_kind RlpStream.String []) in *. rewrite (Split_fwd RlpStream.String [] r); [done|constructor|by intros x [=]|done]. Qed.

Lemma decodeFull_loop_enc D gen cs r : Forall (fun c => match c with Some t => wf t /\ sane t /\ embeds D gen t | None => True end) cs ->
  len (mjoin (map cref cs) ++ r) < 2 ^ 63 ->
  decodeFull_loop D (length cs) (mjoin (map cref cs) ++ r) = Ret (inr (map (option_map (dref (decoded None gen))) cs, r)).
Proof.
  induction 1 as [|c cs Hc _ IH]; intros Hl; [done|]. cbn [map length decodeFull_loop] in *. change (mjoin (?a :: ?b)) with (a ++ mjoin b) in *. rewrite <- app_assoc in *.
  assert (Hd : decodeRef D (cref c ++ mjoin (map cref cs) ++ r) = Ret (inr (option_map (dref (decoded None gen)) c, mjoin (map cref cs) ++ r))).
  { destruct c as [t|]; [destruct Hc as (? & ? & ?); by apply decodeRef_wf|by apply decodeRef_None]. }
  rewrite Hd. cbn [ebind mbind outcome_bind]. rewrite IH; [done|]. rewrite len_app in Hl. pose proof (len_nonneg (cref c)). lia.
Qed.

Lemma hasTerm_short k t : wf (Short k t) -> hasTerm k = match t with Leaf _ => true | _ => false end.
Proof.
  intros [_ Hw]%wf_short_inv. destruct t as [v| |cs]; [|done|by apply hasTerm_nibbles; naive_solver].
  destruct Hw as (p & -> & _). by rewrite hasTerm_app.
Qed.

Lemma decodeShort_enc D h gen k t : wf (Short k t) -> sane (Short k t) -> (wf t -> embeds D gen t) ->
  decodeShort D h (enc_str (compact k) ++ ref t (nodeenc t)) gen = Ret (inr (Some (decoded h gen (Short k t)))).
Proof.
  intros Hw Hs HD. inversion Hs as [|? ? Hk Hst|]; subst. pose proof (wf_short_hex _ _ Hw) as Hx. destruct (compact_spec k Hx) as (_ & Hcb & Hck). pose proof (compact_len k Hx).
  destruct (enc_good (size t) t) as ((Hb & _ & _) & Hlt & [_ Hrl]); [done|by eapply valid_short|done|].
  pose proof (enc_str_bounds (compact k)). assert (Hr : len (ref t (nodeenc t)) <= 9 + 2 ^ 60) by (destruct t; [inversion Hst; subst|..]; lia).
  unfold decodeShort. rewrite SplitString_str by (done || rewrite len_app; lia). cbn [rlp_err mbind outcome_bind ebind]. rewrite Hck. cbn [mbind outcome_bind].
  rewrite (hasTerm_short k t Hw). apply wf_short_inv in Hw as [_ Hwt]. destruct t as [v| |cs]; [|done|].
  - inversion Hst; subst. cbn [ref nodeenc] in *. rewrite <- (app_nil_r (enc_str v)), SplitString_str by (done || rewrite app_nil_r; lia). done.
  - destruct Hwt as [_ Hwt]. change (ref (Full cs) (nodeenc (Full cs))) with (cref (Some (Full cs))) in *. rewrite <- (app_nil_r (cref _)).
    rewrite (decodeRef_wf D gen (Full cs)); [done|done|done|by apply HD|]. rewrite app_nil_r. lia.
Qed.

Lemma decodeFull_enc D h gen cs : wf (Full cs) -> sane (Full cs) -> (forall i t, cs !! i = Some (Some t) -> wf t -> embeds D gen t) ->
  decodeFull D h (mjoin (map cref cs)) gen = Ret (inr (Some (decoded h gen (Full cs)))).
Proof.
  intros Hw Hs HD. inversion Hs as [| |? Hc]; subst. destruct (enc_good (size (Full cs)) (Full cs)) as (_ & Hlf & _); [done|by left|done|]. rewrite nodeenc_full in Hlf.
  pose proof (len_enc_list (mjoin (map cref cs))) as Hle. apply wf_full_iff in Hw as (Hl & Hwc & _).
  assert (Hsplit : exists c, cs = take 16 cs ++ [c]).
  { destruct (lookup_lt_is_Some_2 cs 16) as [c Hc16]; [lia|]. exists c. rewrite <- (take_drop 16 cs) at 1. f_equal. rewrite (drop_S _ c) by done.
    by rewrite drop_ge by lia. }
  destruct Hsplit as [c Hcs]. set (ds := take 16 cs) in *. assert (Hld : length ds = 16%nat) by (subst ds; rewrite length_take; lia). clearbody ds. subst cs.
  rewrite map_app in *. cbn [map] in *. rewrite join_app in *.
  assert (Hone : mjoin [cref c] = cref c) by (apply app_nil_r). rewrite Hone in *.
  assert (Hc16 : (ds ++ [c]) !! 16%nat = Some c) by (rewrite lookup_app_r by lia; by rewrite Hld).
  unfold decodeFull. rewrite <- Hld. rewrite (decodeFull_loop_enc D gen ds); [| |lia].
  2:{ apply Forall_lookup. intros i x Hi. destruct x as [t|]; [|done]. assert (Hi' : (ds ++ [c]) !! i = Some (Some t)) by (by apply lookup_app_l_Some).
      pose proof (lookup_lt_Some _ _ _ Hi). destruct (Hwc i t Hi') as [[? _]|[_ Hwt]]; [lia|]. split_and!; [done|by eapply Hc|by eapply HD]. }
  cbn [ebind mbind outcome_bind]. rewrite len_app in Hle. pose proof (len_nonneg (mjoin (map cref ds))).
  cbn [decoded]. rewrite map_app. cbn [map]. rewrite <- (app_nil_r (cref c)). destruct c as [t|].
  - destruct (Hwc _ t Hc16) as [[_ (v & -> & Hv)]|[Hn _]]; [|unfold is_nibble in Hn; lia]. pose proof (Hc _ _ Hc16) as Hsv. inversion Hsv; subst. cbn [cref ref nodeenc] in *.
    rewrite SplitString_str by (done || rewrite app_nil_r; lia). cbn [rlp_err ebind mbind outcome_bind]. destruct v as [|x v]; [done|]. by rewrite (proj2 (Z.ltb_lt 0 _)) by (rewrite len_cons; pose proof (len_nonneg v); lia).
  - cbn [cref]. rewrite SplitString_str by (constructor || done). done.
Qed.

Lemma ref_length t : wf t -> sane t -> len (nodeenc t) < 32 -> len (ref t (nodeenc t)) = len (nodeenc t).
Proof. intros Hw Hs Hl. rewrite ref_wf by done. by rewrite (proj2 (Z.ltb_lt _ _)). Qed.
Lemma join_elem (es : list bytes) e : e ∈ es -> len e <= len (mjoin es).
Proof.
  induction es as [|x es IH]; intros He; [by apply not_elem_of_nil in He|]. change (mjoin (x :: es)) with (x ++ mjoin es). rewrite len_app.
  pose proof (len_nonneg x). pose proof (len_nonneg (mjoin es)). apply elem_of_cons in He as [->|He]; [lia|]. specialize (IH He). lia.
Qed.

(** [decodeNode] reads the encoding of a tree back. *)
Lemma decode_enc n t fuel h gen r : (size t <= n)%nat -> wf t -> sane t -> (length (nodeenc t) <= fuel)%nat -> len (nodeenc t ++ r) < 2 ^ 63 ->
  decodeNode fuel h (nodeenc t ++ r) gen = Ret (inr (Some (decoded h gen t))).
Proof.
  revert t fuel h r. induction n as [|n IH]; intros t fuel h r Hn Hw Hs Hf Hl; [pose proof (size_pos t); lia|].
  destruct (enc_good (size t) t) as ((Hb & _ & H1) & Hlt & _); [done|by left|done|]. destruct fuel as [|fuel]; [unfold len in H1; lia|].
  assert (HD : forall s, (size s <= n)%nat -> len (nodeenc s) < len (nodeenc t) -> sane s -> wf s -> embeds (fun buf => decodeNode fuel None buf gen) gen s).
  { intros s Hsn Hsl Hss Hws r' _ Hr'. apply IH; try done. unfold len in Hsl. lia. }
  cbn [decodeNode]. assert (Hne : nodeenc t ++ r <> []) by (destruct (nodeenc t); [done|done]). destruct (nodeenc t ++ r) as [|b0 bs] eqn:Eb; [done|]. rewrite <- Eb in Hl |- *. clear Hne Eb b0 bs.
  destruct t as [v|k s|cs]; [by apply wf_not_leaf in Hw| |].
  - inversion Hs as [|? ? Hk Hss|]; subst. pose proof (wf_short_hex _ _ Hw) as Hx. destruct (compact_spec k Hx) as (_ & Hcb & _). pose proof (compact_len k Hx).
    destruct (enc_good (size s) s) as (_ & _ & [(Hrb & Hri & Hr1) Hrl]); [done|by eapply valid_short|done|]. cbn [nodeenc] in *. set (body := enc_str (compact k) ++ ref s (nodeenc s)) in *.
    pose proof (len_enc_list body). rewrite SplitList_list; [|by apply Forall_app in Hb as [_ ?]|done]. cbn [rlp_err ebind mbind outcome_bind].
    assert (Hcount : RlpRaw.CountValues body = Ret (inr 2)).
    { assert (Hj : body = mjoin [enc_str (compact k); ref s (nodeenc s)]) by (by rewrite <- (app_nil_r body); unfold body; rewrite <- app_assoc). rewrite Hj in *.
      rewrite CountValues_items; [done| |lia]. repeat constructor; [by apply item_str|done]. }
    rewrite Hcount. cbn [mbind outcome_bind]. apply decodeShort_enc; [done..|]. intros Hws r' Hsm Hr'. apply HD; try done; [simpl in Hn; lia|].
    pose proof (enc_list_bounds body ltac:(lia)). rewrite <- (ref_length s Hws Hss Hsm). unfold body in *. rewrite len_app in *. pose proof (enc_str_bounds (compact k)). lia.
  - inversion Hs as [| |? Hc]; subst. rewrite nodeenc_full in *. pose proof (len_enc_list (mjoin (map cref cs))). pose proof (proj1 (wf_full_iff cs) Hw) as (Hlc & Hwc & _).
    rewrite SplitList_list; [|by apply Forall_app in Hb as [_ ?]|done]. cbn [rlp_err ebind mbind outcome_bind].
    destruct (crefs_bound cs) as [Hgs _]; [|lia|].
    { intros i t Hi. split_and!; [by apply Hwc| |by eapply Hc]. apply (enc_good (size t) t); [done|by eapply valid_child, Hwc|by eapply Hc]. }
    destruct (good_join _ Hgs) as [_ Hit]. rewrite CountValues_items by (done || lia). unfold len at 1. rewrite length_map, Hlc. cbn [mbind outcome_bind].
    apply decodeFull_enc; [done..|]. intros i s Hi Hws r' Hsm Hr'. pose proof (Hc _ _ Hi) as Hss. apply HD; try done; [pose proof (size_child cs i s Hi); lia|].
    pose proof (enc_list_bounds _ (Z.le_lt_trans _ _ _ (len_enc_list _) Hlt)) as [Hge _]. eapply Z.lt_le_trans; [|exact Hge]. rewrite <- (ref_length s Hws Hss Hsm).
    apply Z.lt_le_trans with (1 + len (ref s (nodeenc s))); [lia|]. apply Z.add_le_mono_l. change (ref s (nodeenc s)) with (cref (Some s)). apply join_elem, list_elem_of_fmap. exists (Some s). split; [done|]. by eapply list_elem_of_lookup_2.
Qed.

End Enc.

End TrieCodec.
