(* ===== verification/TrieRefine.v ===== *)
(** The trie of the code implements the tree of its contents: nodes that are loaded,
    hashed, dirty or not yet read stand for canonical trees, and lookup, insertion and
    deletion follow the operations on trees, reading nodes from the database on the way. *)

From S2P Require Import Prelude Params Bytes RlpEncode RlpDecode RlpRaw TrieEncoding Trie TrieSpec TrieCodec.
Import TrieEnc TrieEncProps RlpRef Trie TrieSpec TrieCodec.

Module TrieRefine.

Definition leafless (t : tree) : Prop := match t with Leaf _ => False | _ => True end.
Lemma wf_leafless t : wf t -> leafless t.
Proof. destruct t; [by intros ?%wf_not_leaf|done..]. Qed.

Section Rep.
Context (K : bytes -> Hash) (Krange : forall b, 0 <= K b < 2 ^ 256).

Abbreviation nodeenc := (nodeenc K).

(** The encodings of all nodes of a tree. *)
Fixpoint encodings (t : tree) : list bytes :=
  match t with
  | Leaf _ => []
  | Short k t' => nodeenc t :: encodings t'
  | Full cs => nodeenc t :: (cs ≫= fun c => match c with Some t => encodings t | None => [] end)
  end.

Definition name (t : tree) : bytes := hash_bytes (K (nodeenc t)).

Lemma name_hash t : BytesToHash (name t) = K (nodeenc t).
Proof. apply BytesToHash_hash_bytes, Krange. Qed.

(** What a database holds of a tree: the nodes that are not embedded. *)
Definition below (N : Hash -> option bytes) (t : tree) : Prop := forall e, e ∈ encodings t -> 32 <= len e -> N (K e) = Some e.
Definition stored (N : Hash -> option bytes) (t : tree) : Prop := N (K (nodeenc t)) = Some (nodeenc t) /\ below N t.

Lemma below_short N k t : below N (Short k t) -> below N t.
Proof. intros H e He. apply H. cbn [encodings]. by apply elem_of_cons; right. Qed.
Lemma below_full N cs i t : below N (Full cs) -> cs !! i = Some (Some t) -> below N t.
Proof. intros H Hi e He. apply H. cbn [encodings]. apply elem_of_cons. right. apply list_elem_of_bind. exists (Some t). split; [done|]. by eapply list_elem_of_lookup_2. Qed.
Lemma encodings_self t : leafless t -> nodeenc t ∈ encodings t.
Proof. destruct t; [done|..]; intros _; cbn [encodings]; by apply elem_of_cons; left. Qed.
Lemma below_stored N t : leafless t -> below N t -> 32 <= len (nodeenc t) -> stored N t.
Proof. intros Ht Hb Hl. split; [|done]. apply Hb; [by apply encodings_self|done]. Qed.

Section Relation.
Context (N : Hash -> option bytes).

(** A cached hash is the hash of the node; [top] marks the root, which is hashed whatever
    its size.  A clean node with a hash is in the database, one without is embedded. *)
Definition flag_ok (top : bool) (f : nodeFlag) (t : tree) : Prop :=
  (forall h, fl_hash f = Some h -> h = name t /\ (top = true \/ 32 <= len (nodeenc t)) /\ (fl_dirty f = false -> stored N t)) /\
  (fl_dirty f = false -> fl_hash f = None -> top = false /\ len (nodeenc t) < 32).

Inductive rep : bool -> node -> tree -> Prop :=
| rep_hash top t : leafless t -> (top = true \/ 32 <= len (nodeenc t)) -> stored N t -> rep top (hashNode (name t)) t
| rep_value top v : rep top (valueNode v) (Leaf v)
| rep_short top k n t f : rep false n t -> flag_ok top f (Short k t) -> rep top (shortNode k (Some n) f) (Short k t)
| rep_full top ns cs f : Forall2 (option_Forall2 (rep false)) ns cs -> flag_ok top f (Full cs) -> rep top (fullNode ns f) (Full cs).

Abbreviation orep top := (option_Forall2 (rep top)).

Definition is_hash (n : node) : bool := match n with hashNode _ => true | _ => false end.

Lemma flag_fresh top gen t : flag_ok top (MkFlag None gen true) t.
Proof. by split. Qed.
Lemma flag_gen top f gen t : flag_ok top f t -> flag_ok top (MkFlag (fl_hash f) gen (fl_dirty f)) t.
Proof. done. Qed.

(** A node read from the database. *)
Lemma decoded_rep n t top h gen : (size t <= n)%nat -> valid t -> below N t -> flag_ok top (MkFlag h gen false) t -> rep top (decoded K h gen t) t.
Proof.
  revert t top h. induction n as [|n IH]; intros t top h Hn Hv Hb Hf; [pose proof (size_pos t); lia|].
  assert (Hsub : forall s, (size s <= n)%nat -> valid s -> below N s -> rep false (dref K (decoded K None gen) s) s).
  { intros s Hs Hvs Hbs. destruct Hvs as [Hw|(v & -> & _)]; [|constructor]. rewrite dref_wf by done. destruct (len (nodeenc s) <? 32) eqn:E; bool_to_prop.
    - apply IH; [done|by left|done|by split].
    - constructor; [by apply wf_leafless|by right|]. apply below_stored; [by apply wf_leafless|done|lia]. }
  destruct t as [v|k t|cs]; cbn [decoded]; [constructor| |]; (destruct Hv as [Hw|(? & ? & _)]; [|done]); constructor; try done.
  - apply Hsub; [simpl in Hn; lia|by eapply valid_short|by eapply below_short].
  - apply wf_full_iff in Hw as (_ & Hc & _). apply Forall2_same_length_lookup_2; [by rewrite length_map|]. intros i a c Ha Hi.
    apply list_lookup_fmap_Some in Ha as (c' & -> & Hc'). assert (c' = c) as -> by congruence. destruct c as [s|]; [|constructor]. constructor.
    apply Hsub; [pose proof (size_child cs i s Hi); lia|by eapply valid_child, Hc|by eapply below_full].
Qed.

Lemma resolve_rep t top gen prefix : wf t -> sane t -> stored N t -> (top = true \/ 32 <= len (nodeenc t)) ->
  resolveHash N gen (name t) prefix = Ret (inr (Some (decoded K (Some (name t)) gen t))) /\ rep top (decoded K (Some (name t)) gen t) t.
Proof.
  intros Hw Hs Hst Htop. split.
  - unfold resolveHash. rewrite name_hash. destruct Hst as [-> _]. unfold mustDecodeNode.
    destruct (enc_good K (size t) t) as (_ & Hl & _); [done|by left|done|].
    pose proof (decode_enc K (size t) t (length (nodeenc t)) (Some (name t)) gen []) as Hd. rewrite app_nil_r in Hd. rewrite Hd; [done|done..|lia].
  - apply (decoded_rep (size t)); [done|by left|by destruct Hst|]. split; [by intros h [= <-]|done].
Qed.
Lemma decoded_loaded h gen t : is_hash (decoded K h gen t) = false.
Proof. by destruct t. Qed.

(** ** Lookup *)

(** A key that may reach the node: complete for a node, empty for a value. *)
Definition keyed (t : tree) (key : bytes) : Prop := (wf t /\ hexkey key) \/ (exists v, t = Leaf v /\ v <> [] /\ key = []).
Definition need (n : node) (key : bytes) : nat := 2 * length key + (if is_hash n then 2 else 1).

Lemma keyed_short k t r : wf (Short k t) -> (match t with Leaf _ => r = [] | _ => hexkey r end) -> keyed t r.
Proof. intros [_ Hw]%wf_short_inv Hr. destruct t as [v| |cs]; [right|done|left; naive_solver]. destruct Hw as (? & _ & _ & ?). eauto. Qed.
Lemma keyed_child cs x r i t : wf (Full cs) -> hexkey (x :: r) -> cs !! i = Some (Some t) -> i = Z.to_nat x -> keyed t r.
Proof.
  intros Hw Hk Hi ->. apply wf_full_iff in Hw as (_ & Hc & _). pose proof (hexkey_head _ _ Hk). specialize (Hc _ _ Hi). rewrite Z2Nat.id in Hc by lia.
  apply hexkey_cons in Hk as [[-> ->]|[Hx Hr]].
  - destruct Hc as [[_ (v & -> & Hv)]|[Hn _]]; [right; eauto|unfold is_nibble in Hn; lia].
  - destruct Hc as [[-> _]|[_ Hw]]; [unfold is_nibble in Hx; lia|by left].
Qed.
Lemma not_prefix (p : bytes) (a : Z) ra b rb : a <> b -> take (length (p ++ b :: rb)) (p ++ a :: ra) <> p ++ b :: rb.
Proof.
  intros Hab E. rewrite length_app in E. rewrite take_app_add in E. apply app_inv_head in E. simpl in E. congruence.
Qed.
Lemma get_out p a ra b rb t : a <> b -> get (Short (p ++ b :: rb) t) (p ++ a :: ra) = None.
Proof.
  intros Hab. destruct (get _ _) as [v|] eqn:E; [|done]. apply get_short in E as (r & E & _). rewrite <- app_assoc in E. apply app_inv_head in E. by simplify_eq/=.
Qed.
Lemma sane_short_inv k t : sane (Short k t) -> sane t.
Proof. by inversion 1. Qed.
Lemma sane_full_inv cs i t : sane (Full cs) -> cs !! i = Some (Some t) -> sane t.
Proof. inversion 1; eauto. Qed.

Lemma children_at ns cs x : Forall2 (orep false) ns cs -> (Z.to_nat x < length cs)%nat ->
  exists a c, child ns x = Ret a /\ ns !! Z.to_nat x = Some a /\ cs !! Z.to_nat x = Some c /\ orep false a c.
Proof.
  intros HF Hx. destruct (lookup_lt_is_Some_2 cs (Z.to_nat x) Hx) as [c Hc]. destruct (Forall2_lookup_r _ _ _ _ _ HF Hc) as (a & Ha & Hac).
  exists a, c. unfold child. by rewrite Ha.
Qed.

Lemma tryGet_sim gen fuel : forall top n t prefix key, rep top n t -> sane t -> keyed t key -> (need n key <= fuel)%nat ->
  exists n' d, tryGet N gen fuel (Some n) prefix key = Ret (inr (default [] (get t key), Some n', d)) /\ rep top n' t /\ (d = false -> n' = n).
Proof.
  induction fuel as [|fuel IH]; intros top n t prefix key Hr Hs Hk Hf; [unfold need in Hf; destruct (is_hash n); lia|].
  destruct Hr as [top t Ht Htop Hst|top v|top k m t f Hm Hfl|top ns cs f HF Hfl].
  - destruct Hk as [[Hw Hk]|(v & -> & _)]; [|done]. destruct (resolve_rep t top gen prefix Hw Hs Hst Htop) as [Hres Hrep]. cbn [tryGet]. rewrite Hres. cbn [ebind mbind outcome_bind].
    destruct (IH top _ t prefix key Hrep Hs) as (n' & d & -> & Hn' & _); [by left|unfold need in *; rewrite decoded_loaded; simpl in Hf; lia|].
    exists n', true. done.
  - destruct Hk as [[Hw _]|(w & [= ->] & _ & ->)]; [by apply wf_not_leaf in Hw|]. exists (valueNode w), false. split_and!; [done|constructor|done].
  - destruct Hk as [[Hw Hk]|(v & ? & _)]; [|done]. pose proof (wf_short_inv _ _ Hw) as [Hne _]. cbn [tryGet]. destruct (short_cases k t key Hw Hk) as [(r & -> & Hr)|(p & a & ra & b & rb & Hab & -> & -> & _)].
    + rewrite take_app_length, bool_decide_true, drop_app_length by done.
      destruct (IH false m t (prefix ++ k) r Hm) as (m' & d & -> & Hm' & Hd); [by eapply sane_short_inv|by eapply keyed_short|..].
      { unfold need in *. simpl in Hf. rewrite length_app in Hf. destruct k; [done|]. simpl in Hf. destruct (is_hash m); lia. }
      cbn [ebind mbind outcome_bind get]. rewrite strip_app. destruct d; eexists _, _; (split; [done|]); [|by split; [constructor|]]. split; [|done]. by constructor.
    + rewrite bool_decide_false by (by apply not_prefix). rewrite get_out by done. eexists _, false. split; [done|]. split; [by constructor|done].
  - destruct Hk as [[Hw Hk]|(v & ? & _)]; [|done]. pose proof (proj1 (wf_full_iff cs) Hw) as (Hl & _). destruct key as [|x r]; [by apply hexkey_nil in Hk|].
    pose proof (hexkey_head _ _ Hk). destruct (children_at ns cs x HF) as (a & c & Hch & Ha & Hc & Hac); [lia|]. cbn [tryGet]. rewrite Hch. cbn [mbind outcome_bind].
    rewrite get_full, Hc. destruct Hac as [m s Hms|].
    + destruct (IH false m s (prefix ++ [x]) r Hms) as (m' & d & -> & Hm' & Hd); [by eapply sane_full_inv|by eapply keyed_child|..].
      { unfold need in *. simpl in Hf. destruct (is_hash m); lia. }
      cbn [ebind mbind outcome_bind lookup]. destruct d; eexists _, _; (split; [done|]); [|by split; [constructor|]]. split; [|done]. constructor; [|done].
      unfold set_child. rewrite <- (list_insert_id cs (Z.to_nat x) (Some s)) by done. apply Forall2_insert; [done|by constructor].
    + unfold need in Hf. simpl in Hf. destruct fuel as [|fuel]; [lia|]. cbn [tryGet ebind mbind outcome_bind]. eexists _, false. split; [done|]. split; [by constructor|done].
Qed.

(** ** Insertion *)

Definition graftn (gen : Z) (key : bytes) (m : node) : node := match key with [] => m | _ => shortNode key (Some m) (newFlag gen) end.

Lemma insert_nil gen fuel prefix key m : Trie.insert N gen (S fuel) None prefix key (Some m) = Ret (inr (true, Some (graftn gen key m))).
Proof. by destruct key. Qed.
Lemma rep_graft gen key m t : rep false m t -> rep false (graftn gen key m) (graft key t).
Proof. intros Hm. destruct key; [done|]. constructor; [done|apply flag_fresh]. Qed.
Lemma rep_put ns cs x m t : Forall2 (orep false) ns cs -> orep false m t -> Forall2 (orep false) (set_child ns x m) (put cs x t).
Proof. intros HF Hm. by apply Forall2_insert. Qed.
Lemma rep_branch gen a b na nb ta tb : rep false na ta -> rep false nb tb ->
  Forall2 (orep false) (set_child (set_child (replicate 17 None) b (Some (graftn gen [] nb))) a (Some na)) (put (put (replicate 17 None) b (Some tb)) a (Some ta)).
Proof. intros Ha Hb. apply rep_put; [|by constructor]. apply rep_put; [|by constructor]. apply Forall2_replicate. constructor. Qed.

Lemma insert_short_out gen fuel top p (a : Z) ra b rb m t f prefix v : rep false m t -> a <> b ->
  exists n', Trie.insert N gen (S (S fuel)) (Some (shortNode (p ++ b :: rb) (Some m) f)) prefix (p ++ a :: ra) (Some (valueNode v)) = Ret (inr (true, Some n')) /\
    rep top n' (graft p (branch a b (graft ra (Leaf v)) (graft rb t))) /\ is_hash n' = false.
Proof.
  intros Hm Hab. pose proof (prefixLen_out p a ra b rb Hab) as Hpl. destruct (p ++ a :: ra) as [|k0 kr] eqn:Ek; [by destruct p|].
  set (fuel1 := S fuel). cbn [Trie.insert]. rewrite Hpl, <- Ek. rewrite bool_decide_false by (rewrite length_app; simpl; lia).
  assert (Hq : (p ++ b :: rb) !! length p = Some b) by (by rewrite list_lookup_middle). rewrite Hq. cbn [deref mbind outcome_bind].
  assert (Hd : forall x (l : bytes), drop (length p + 1) (p ++ x :: l) = l) by (intros x l; by rewrite drop_app_add). rewrite !Hd. subst fuel1. rewrite insert_nil. cbn [ebind mbind outcome_bind].
  assert (Hka : (p ++ a :: ra) !! length p = Some a) by (by rewrite list_lookup_middle). rewrite Hka. cbn [deref mbind outcome_bind]. rewrite insert_nil. cbn [ebind mbind outcome_bind].
  rewrite take_app_length.
  assert (Hb : Forall2 (orep false) (set_child (set_child (replicate 17 None) b (Some (graftn gen rb m))) a (Some (graftn gen ra (valueNode v))))
    (put (put (replicate 17 None) b (Some (graft rb t))) a (Some (graft ra (Leaf v))))) by (apply (rep_branch gen); apply rep_graft; [constructor|done]).
  destruct p as [|x p]; simpl length; [rewrite bool_decide_true by done|rewrite bool_decide_false by done]; (eexists; split; [done|]; split; [|done]).
  - constructor; [done|apply flag_fresh].
  - constructor; [|apply flag_fresh]. constructor; [done|apply flag_fresh].
Qed.

Lemma insert_sim gen v (Hv : v <> []) fuel : forall top n t prefix key, rep top n t -> sane t -> keyed t key -> (need n key <= fuel)%nat ->
  exists d n', Trie.insert N gen fuel (Some n) prefix key (Some (valueNode v)) = Ret (inr (d, Some n')) /\
    if d : bool then rep top n' (ins t key v) else rep top n' t /\ ins t key v = t.
Proof.
  induction fuel as [|fuel IH]; intros top n t prefix key Hr Hs Hk Hf; [unfold need in Hf; destruct (is_hash n); lia|].
  destruct Hr as [top t Ht Htop Hst|top w|top k m t f Hm Hfl|top ns cs f HF Hfl].
  - destruct Hk as [[Hw Hk]|(w & -> & _)]; [|done]. destruct (resolve_rep t top gen prefix Hw Hs Hst Htop) as [Hres Hrep].
    destruct (IH top _ t prefix key Hrep Hs) as (d & n' & Hi & Hn'); [by left|unfold need in *; rewrite decoded_loaded; simpl in Hf; lia|].
    destruct key as [|x r]; [by apply hexkey_nil in Hk|]. cbn [Trie.insert]. rewrite Hres. cbn [ebind mbind outcome_bind]. rewrite Hi. cbn [ebind mbind outcome_bind].
    destruct d; cbn [negb]; eexists _, _; (split; [done|]); [done|]. split; [done|by destruct Hn'].
  - destruct Hk as [[Hw _]|(u & [= ->] & _ & ->)]; [by apply wf_not_leaf in Hw|]. cbn [Trie.insert]. eexists _, _. split; [done|]. cbn [ins].
    destruct (bool_decide (u = v)) eqn:E; bool_to_prop; subst; cbn [negb]; [split; [constructor|done]|constructor].
  - destruct Hk as [[Hw Hk]|(u & ? & _)]; [|done]. pose proof (wf_short_inv _ _ Hw) as [Hne _].
    destruct (short_cases k t key Hw Hk) as [(r & -> & Hr)|(p & a & ra & b & rb & Hab & -> & -> & _)].
    + pose proof (prefixLen_in k r) as Hpl. rewrite ins_short_in by done.
      destruct (IH false m t (prefix ++ k) r Hm) as (d & m' & Hi & Hm'); [by eapply sane_short_inv|by eapply keyed_short|..].
      { unfold need in *. simpl in Hf. rewrite length_app in Hf. destruct k; [done|]. simpl in Hf. destruct (is_hash m); lia. }
      destruct (k ++ r) as [|x l] eqn:Ek; [by destruct k|]. cbn [Trie.insert]. rewrite Hpl, bool_decide_true by done. rewrite <- Ek, take_app_length, drop_app_length, Hi.
      cbn [ebind mbind outcome_bind]. destruct d; cbn [negb]; eexists _, _; (split; [done|]); [constructor; [done|apply flag_fresh]|].
      split; [by constructor|]. destruct Hm' as [_ E]. by rewrite E.
    + rewrite ins_short_out by done. destruct fuel as [|fuel]; [unfold need in Hf; simpl in Hf; rewrite length_app in Hf; simpl in Hf; lia|].
      destruct (insert_short_out gen fuel top p a ra b rb m t f prefix v Hm Hab) as (n' & -> & Hn' & _). by exists true, n'.
  - destruct Hk as [[Hw Hk]|(u & ? & _)]; [|done]. pose proof (proj1 (wf_full_iff cs) Hw) as (Hl & _). destruct key as [|x r]; [by apply hexkey_nil in Hk|].
    pose proof (hexkey_head _ _ Hk). destruct (children_at ns cs x HF) as (a & c & Hch & Ha & Hc & Hac); [lia|]. cbn [Trie.insert]. rewrite Hch. cbn [mbind outcome_bind].
    rewrite ins_full, (alter_put _ _ _ c) by done. destruct Hac as [m s Hms|].
    + destruct (IH false m s (prefix ++ [x]) r Hms) as (d & m' & -> & Hm'); [by eapply sane_full_inv|by eapply keyed_child|..].
      { unfold need in *. simpl in Hf. destruct (is_hash m); lia. }
      cbn [ebind mbind outcome_bind insert]. destruct d; cbn [negb]; eexists _, _; (split; [done|]).
      * constructor; [|apply flag_fresh]. apply rep_put; [done|by constructor].
      * split; [by constructor|]. destruct Hm' as [_ ->]. unfold put. by rewrite list_insert_id.
    + unfold need in Hf. simpl in Hf. destruct fuel as [|fuel]; [lia|]. rewrite insert_nil. cbn [ebind mbind outcome_bind negb]. eexists _, _. split; [done|].
      constructor; [|apply flag_fresh]. apply rep_put; [done|]. constructor. apply rep_graft. constructor.
Qed.

(** ** Deletion *)

Definition loaded (o : option node) : Prop := match o with Some n => is_hash n = false | None => True end.

Lemma only_child_rel {A B} (R : A -> B -> Prop) i pos (xs : list (option A)) ys : Forall2 (option_Forall2 R) xs ys -> Trie.only_child i pos xs = Trie.only_child i pos ys.
Proof. intros HF. revert i pos. induction HF as [|x y xs ys Hxy _ IH]; intros i pos; [done|]. destruct Hxy; cbn [Trie.only_child]; [|apply IH]. destruct pos; [done|apply IH]. Qed.

Lemma reduce_wf cs : wf (Full cs) -> reduce cs = Some (Full cs).
Proof.
  intros Hw. apply wf_full_iff in Hw as (_ & _ & i & j & a & b & Hij & Hi & Hj). unfold reduce. destruct (TrieSpec.only_child 0 None cs) as [p|] eqn:E; [|done].
  destruct (only_child_Some cs p E) as [_ Hall]. apply Hall in Hi, Hj. congruence.
Qed.

Lemma resolve_any gen m t prefix : rep false m t -> (is_hash m = true -> wf t /\ sane t) ->
  exists m', resolve N gen (Some m) prefix = Ret (inr (Some m')) /\ rep false m' t /\ is_hash m' = false.
Proof.
  intros Hr Hh. inversion Hr as [? ? Ht Htop Hst| | |]; subst; try (eexists; split; [done|]; split; [done|done]).
  destruct (Hh eq_refl) as [Hw Hs]. destruct (resolve_rep t false gen prefix Hw Hs Hst Htop) as [Hres Hrep]. eexists. split; [done|]. split; [done|apply decoded_loaded].
Qed.

(** A short node in front of a loaded child merges with a short child. *)
Definition merge (gen : Z) (k : bytes) (c : option node) (last : option node) : node :=
  match c with
  | Some (shortNode ck cv _) => shortNode (k ++ ck) cv (newFlag gen)
  | _ => shortNode k last (newFlag gen)
  end.
Lemma rep_merge top gen k m last t : rep false m t -> rep false last t -> is_hash m = false -> rep top (merge gen k (Some m) (Some last)) (prepend k t).
Proof.
  intros Hm Hl Hh. inversion Hm; subst; try done; cbn [merge prepend]; (constructor; [done|apply flag_fresh]).
Qed.

(** The code after a deletion below a full node. *)
Lemma delete_reduce gen top (ns : list (option node)) cs prefix : Forall2 (orep false) ns cs -> length cs = 17%nat ->
  (exists i t, cs !! i = Some (Some t)) ->
  (forall i m t, ns !! i = Some (Some m) -> cs !! i = Some (Some t) -> is_hash m = true -> wf t /\ sane t) ->
  exists n', (match Trie.only_child 0 None ns with
    | Some pos =>
        last ← child ns (Z.of_nat pos);
        cnode <~ (if bool_decide (pos = 16%nat) then Ret (inr None) else resolve N gen last prefix);
        Ret (inr (true, match cnode with
          | Some (shortNode cKey cVal _) => Some (shortNode (Z.of_nat pos :: cKey) cVal (newFlag gen))
          | _ => Some (shortNode [Z.of_nat pos] last (newFlag gen))
          end))
    | None => Ret (inr (true, Some (fullNode ns (newFlag gen))))
    end) = Ret (inr (true, Some n')) /\ orep top (Some n') (reduce cs) /\ is_hash n' = false.
Proof.
  intros HF Hl Hsome Hh. rewrite (only_child_rel _ _ _ _ _ HF). unfold reduce. destruct (Trie.only_child 0 None cs) as [pos|] eqn:E.
  - destruct (only_child_Some cs pos E) as [[t Ht] _]. rewrite Ht. destruct (Forall2_lookup_r _ _ _ _ _ HF Ht) as (o & Ho & Hot). inversion Hot as [m ? Hm|]; subst.
    unfold child. rewrite Nat2Z.id, Ho. cbn [deref mbind outcome_bind]. destruct (bool_decide (pos = 16%nat)) eqn:E16.
    + cbn [ebind mbind outcome_bind]. eexists. split; [done|]. split; [|done]. constructor. constructor; [done|apply flag_fresh].
    + destruct (resolve_any gen m t prefix Hm) as (m' & -> & Hm' & Hh'); [by eapply Hh|]. cbn [ebind mbind outcome_bind].
      pose proof (rep_merge top gen [Z.of_nat pos] m' m t Hm' Hm Hh') as Hmerge. inversion Hm'; subst; try done; (eexists; split; [done|]; split; [by constructor|done]).
  - eexists. split; [done|]. split; [|done]. constructor. constructor; [done|apply flag_fresh].
Qed.

Lemma delete_sim gen fuel : forall top n t prefix key, rep top n t -> sane t -> keyed t key -> (need n key <= fuel)%nat ->
  exists d o, Trie.delete N gen fuel (Some n) prefix key = Ret (inr (d, o)) /\
    if d : bool then orep top o (del t key) /\ loaded o else exists n', o = Some n' /\ rep top n' t /\ del t key = Some t.
Proof.
  induction fuel as [|fuel IH]; intros top n t prefix key Hr Hs Hk Hf; [unfold need in Hf; destruct (is_hash n); lia|].
  destruct Hr as [top t Ht Htop Hst|top w|top k m t f Hm Hfl|top ns cs f HF Hfl].
  - destruct Hk as [[Hw Hk]|(w & -> & _)]; [|done]. destruct (resolve_rep t top gen prefix Hw Hs Hst Htop) as [Hres Hrep]. cbn [Trie.delete]. rewrite Hres. cbn [ebind mbind outcome_bind].
    destruct (IH top _ t prefix key Hrep Hs) as (d & o & -> & Ho); [by left|unfold need in *; rewrite decoded_loaded; simpl in Hf; lia|]. cbn [ebind mbind outcome_bind].
    destruct d; cbn [negb]; eexists _, _; (split; [done|]); [done|]. eexists. split; [done|]. split; [done|]. by destruct Ho as (? & _ & _ & ?).
  - cbn [Trie.delete del]. eexists _, _. split; [done|]. split; [constructor|done].
  - destruct Hk as [[Hw Hk]|(u & ? & _)]; [|done]. pose proof (wf_short_inv _ _ Hw) as [Hne Hwt]. cbn [Trie.delete].
    destruct (short_cases k t key Hw Hk) as [(r & -> & Hr)|(p & a & ra & b & rb & Hab & -> & -> & _)].
    + rewrite prefixLen_in, bool_decide_false by lia. rewrite del_short_in, length_app. destruct r as [|x r].
      { rewrite bool_decide_true by (simpl; lia). eexists _, _. split; [done|]. split; [constructor|done]. }
      rewrite bool_decide_false by (simpl; lia). destruct t as [v| |cs]; [done|done|]. destruct Hwt as [_ Hwt].
      rewrite drop_app_length. destruct (IH false m (Full cs) (prefix ++ take (length k) (k ++ x :: r)) (x :: r) Hm) as (d & o & -> & Ho); [by eapply sane_short_inv|by left|..].
      { unfold need in *. simpl in Hf. rewrite length_app in Hf. destruct k; [done|]. simpl in Hf |- *. destruct (is_hash m); lia. }
      cbn [ebind mbind outcome_bind]. destruct (del_spec (size (Full cs)) (Full cs) (x :: r)) as (_ & _ & Hsome); [done..|].
      destruct (del (Full cs) (x :: r)) as [t'|]; [|by destruct (Hsome I)]. destruct d; cbn [negb]; eexists _, _; (split; [done|]).
      * destruct Ho as [Ho Hlo]. inversion Ho as [c ? Hc|]; subst. simpl in Hlo.
        pose proof (rep_merge top gen k c c t' Hc Hc Hlo) as Hmg. inversion Hc; subst; try done; (split; [by constructor|done]).
      * destruct Ho as (n' & _ & _ & [= ->]). eexists. split; [done|]. split; [by constructor|done].
    + rewrite prefixLen_out by done. rewrite bool_decide_true by (rewrite length_app; simpl; lia). rewrite del_short_out by done. eexists _, _. split; [done|].
      eexists. split; [done|]. split; [by constructor|done].
  - destruct Hk as [[Hw Hk]|(u & ? & _)]; [|done]. pose proof (proj1 (wf_full_iff cs) Hw) as (Hl & Hwc & i & j & ti & tj & Hij & Hi & Hj). destruct key as [|x r]; [by apply hexkey_nil in Hk|].
    pose proof (hexkey_head _ _ Hk). destruct (children_at ns cs x HF) as (a & c & Hch & Ha & Hc & Hac); [lia|]. cbn [Trie.delete]. rewrite Hch. cbn [mbind outcome_bind].
    rewrite del_full, (alter_put _ _ _ c) by done. assert (Hsame : reduce (put cs x c) = Some (Full cs)) by (unfold put; rewrite list_insert_id by done; by apply reduce_wf).
    destruct Hac as [m s Hms|].
    + destruct (IH false m s (prefix ++ [x]) r Hms) as (d & o & -> & Ho); [by eapply sane_full_inv|by eapply keyed_child|..].
      { unfold need in *. simpl in Hf. destruct (is_hash m); lia. }
      cbn [ebind mbind outcome_bind delete]. destruct d; cbn [negb].
      * destruct Ho as [Ho Hlo]. destruct (delete_reduce gen top (set_child ns x o) (put cs x (del s r)) prefix) as (n' & -> & Hn' & Hh).
        -- by apply rep_put.
        -- by rewrite length_put.
        -- destruct (decide (i = Z.to_nat x)) as [->|Hne]; [exists j, tj|exists i, ti]; unfold put; by rewrite list_lookup_insert_ne.
        -- intros l m' t'. unfold set_child, put. destruct (decide (l = Z.to_nat x)) as [->|Hne].
           ++ rewrite list_lookup_insert_eq by (by eapply lookup_lt_Some). intros [= ->] _ Hh'. simpl in Hlo. congruence.
           ++ rewrite !list_lookup_insert_ne by done. intros Hm' Ht' Hh'. split; [|by eapply sane_full_inv]. destruct (Hwc _ _ Ht') as [[_ (v & -> & _)]|[_ ?]]; [|done].
              pose proof (Forall2_lookup_lr _ _ _ _ _ _ HF Hm' Ht') as Hlf. inversion Hlf as [? ? Hlv|]; subst. by inversion Hlv; subst.
        -- eexists _, _. split; [done|]. done.
      * destruct Ho as (n' & _ & _ & ->). rewrite Hsame. eexists _, _. split; [done|]. eexists. split; [done|]. split; [by constructor|done].
    + unfold need in Hf. simpl in Hf. destruct fuel as [|fuel]; [lia|]. cbn [Trie.delete ebind mbind outcome_bind negb delete]. rewrite Hsame. eexists _, _. split; [done|].
      eexists. split; [done|]. split; [by constructor|done].
Qed.

End Relation.

End Rep.

End TrieRefine.
