(* ===== verification/TrieHashProps.v ===== *)
(** Hashing and committing a trie: the hash is the hash of the reference encoding of the
    tree it stands for, whatever is cached, and a commit leaves every node that is not
    embedded in the database. *)

From S2P Require Import Prelude Params Bytes RlpEncode RlpDecode RlpRaw TrieEncoding Trie TrieHasher TrieSpec TrieCodec TrieRefine.
Import TrieEnc TrieEncProps RlpRef Trie TrieSpec TrieCodec TrieRefine TrieDb TrieHash.

Module TrieHashProps.

(** ** The memory database *)

(** Databases that differ in references and sizes only. *)
Definition same_blobs (d d' : Database) : Prop := diskdb d' = diskdb d /\ forall h, blob <$> nodes d' !! h = blob <$> nodes d !! h.

#[export] Instance same_blobs_equivalence : Equivalence same_blobs.
Proof.
  split; [by split|by intros d d' [? ?]; split|]. intros d1 d2 d3 [H1 H2] [H3 H4]. split; [congruence|]. intros h. by rewrite H4, H2.
Qed.

Lemma same_lookup d d' h : same_blobs d d' -> forall c', nodes d' !! h = Some c' -> exists c, nodes d !! h = Some c /\ blob c = blob c'.
Proof. intros [_ H] c' Hc. specialize (H h). rewrite Hc in H. destruct (nodes d !! h) as [c|]; [|done]. simpl in H. exists c. by simplify_eq. Qed.
Lemma same_present d d' h : same_blobs d d' -> is_Some (nodes d !! h) -> is_Some (nodes d' !! h).
Proof. intros Hs [c Hc]. symmetry in Hs. by destruct (same_lookup d' d h Hs c Hc) as (c' & -> & _). Qed.
Lemma same_Node d d' h : same_blobs d d' -> Node d' h = Node d h.
Proof.
  intros Hs. unfold Node. destruct (nodes d' !! h) as [c'|] eqn:E.
  - by destruct (same_lookup d d' h Hs c' E) as (c & -> & ->).
  - destruct (nodes d !! h) as [c|] eqn:Ed; [|destruct Hs as [-> _]; done]. destruct (same_present d d' h Hs) as [? ?]; [by rewrite Ed|congruence].
Qed.

Lemma set_blob d h c c' : nodes d !! h = Some c -> blob c' = blob c -> same_blobs d (set_nodes <[h := c']> d).
Proof. intros Hc Hb. split; [done|]. intros g. cbn [nodes set_nodes]. destruct (decide (g = h)) as [->|Hne]; [rewrite lookup_insert_eq, Hc; simpl; by f_equal|by rewrite lookup_insert_ne]. Qed.

Lemma reference_same child parent d : is_Some (nodes d !! parent) -> exists d', reference child parent d = Ret d' /\ same_blobs d d'.
Proof.
  intros [p Hp]. unfold reference. destruct (nodes d !! child) as [c|] eqn:Ec; [|by exists d]. rewrite Hp. cbn [deref mbind outcome_bind].
  destruct (bool_decide (is_Some (children p !! child)) && negb (parent =? 0)); [by exists d|].
  pose proof (set_blob d child c (MkCached (blob c) (parents c + 1) (children c)) Ec eq_refl) as H1. set (d1 := set_nodes _ d) in *.
  destruct (same_present _ _ parent H1) as [p' Hp']; [by rewrite Hp|]. rewrite Hp'. cbn [deref mbind outcome_bind]. eexists. split; [done|].
  etransitivity; [exact H1|]. by eapply set_blob.
Qed.

Lemma ref_child_same hash d c : is_Some (nodes d !! hash) -> exists d', ref_child hash (Ret d) c = Ret d' /\ same_blobs d d'.
Proof. intros Hp. destruct c as [[]|]; try (by exists d). cbn [ref_child mbind outcome_bind]. by apply reference_same. Qed.
Lemma ref_children_same n hash d : is_Some (nodes d !! hash) -> exists d', ref_children n hash d = Ret d' /\ same_blobs d d'.
Proof.
  intros Hp. destruct n as [cs f|k v f|h|v]; cbn [ref_children]; [|by apply ref_child_same|by exists d|by exists d].
  generalize (take 16 cs). intros l. revert d Hp. induction l as [|c l IH]; intros d Hp; [by exists d|]. cbn [foldl].
  destruct (ref_child_same hash d c Hp) as (d1 & -> & H1). destruct (IH d1) as (d2 & -> & H2); [by eapply same_present|]. exists d2. split; [done|]. by etransitivity.
Qed.

Section Hash.
Context (K : bytes -> Hash) (Krange : forall b, 0 <= K b < 2 ^ 256).
Context (gen lim : Z) (onleaf : option LeafCallback).
Context (onleaf_ok : forall f v h d, onleaf = Some f -> same_blobs d (f v h d)).
(** Encodings that occur, without collisions among them. *)
Context (D : list bytes) (Dinj : forall e e', e ∈ D -> e' ∈ D -> K e = K e' -> e = e').

Abbreviation nodeenc := (nodeenc K).
Abbreviation name := (name K).
Abbreviation rep := (rep K).
Abbreviation below := (below K).
Abbreviation stored := (stored K).
Abbreviation encodings := (encodings K).

Definition db_ok (d : Database) : Prop := forall e, e ∈ D ->
  (forall c, nodes d !! K e = Some c -> blob c = Some e) /\ (forall b, diskdb d !! hash_bytes (K e) = Some b -> b = e).

Definition mono (N N' : Hash -> option bytes) : Prop := forall h b, N h = Some b -> N' h = Some b.

Lemma mono_refl N : mono N N.
Proof. by intros h b. Qed.
Lemma same_ok d d' : same_blobs d d' -> db_ok d -> db_ok d'.
Proof.
  intros Hs Hd e He. destruct (Hd e He) as [H1 H2]. split; [|destruct Hs as [-> _]; done]. intros c' Hc'. destruct (same_lookup d d' _ Hs c' Hc') as (c & Hc & <-). by apply H1.
Qed.
Lemma same_mono d d' : same_blobs d d' -> mono (Node d) (Node d').
Proof. intros Hs h b. by rewrite (same_Node d d'). Qed.

Lemma insert_ok e d : e ∈ D -> db_ok d -> db_ok (insert (K e) e d) /\ mono (Node d) (Node (insert (K e) e d)) /\ Node (insert (K e) e d) (K e) = Some e /\
  is_Some (nodes (insert (K e) e d) !! K e).
Proof.
  intros He Hd. destruct (Hd e He) as [Hm Hdk]. unfold insert. destruct (nodes d !! K e) as [c|] eqn:Ec.
  - split_and!; [done|apply mono_refl| |by rewrite Ec]. unfold Node. rewrite Ec. by apply Hm.
  - split_and!.
    + intros e' He'. destruct (Hd e' He') as [H1 H2]. split; [|done]. cbn [nodes]. intros c'. destruct (decide (K e' = K e)) as [E|E].
      * rewrite E, lookup_insert_eq. intros [= <-]. simpl. f_equal. by apply Dinj.
      * rewrite lookup_insert_ne by done. apply H1.
    + intros h b. unfold Node. cbn [nodes diskdb]. destruct (decide (h = K e)) as [->|E].
      * rewrite lookup_insert_eq, Ec. simpl. by intros ->%Hdk.
      * by rewrite lookup_insert_ne.
    + unfold Node. cbn [nodes]. by rewrite lookup_insert_eq.
    + cbn [nodes]. by rewrite lookup_insert_eq.
Qed.

Lemma leaf_children_same n h d : same_blobs d (leaf_children onleaf n h d).
Proof.
  assert (Hone : forall f c d, onleaf = Some f -> same_blobs d (leaf_child f h d c)) by (intros f [[]|] d' Hf; try done; by apply onleaf_ok).
  unfold leaf_children. destruct onleaf as [f|] eqn:E; [|done]. destruct n as [cs fl|k v fl|g|v]; [|by apply Hone|done|done].
  generalize (take 16 cs). intros l. revert d. induction l as [|c l IH]; intros d; [done|]. cbn [foldl]. etransitivity; [by apply Hone|apply IH].
Qed.

(** ** Relation to trees as the database grows *)

Lemma below_mono N N' t : mono N N' -> below N t -> below N' t.
Proof. intros Hm Hb e He Hl. by apply Hm, Hb. Qed.
Lemma stored_mono N N' t : mono N N' -> stored N t -> stored N' t.
Proof. intros Hm [H1 H2]. split; [by apply Hm|by eapply below_mono]. Qed.
Lemma flag_mono N N' top f t : mono N N' -> flag_ok K N top f t -> flag_ok K N' top f t.
Proof. intros Hm [H1 H2]. split; [|done]. intros h Hh. destruct (H1 h Hh) as (? & ? & Hst). split_and!; [done..|]. intros Hd. by eapply stored_mono, Hst. Qed.

Lemma rep_mono N N' top n t : mono N N' -> rep N top n t -> rep N' top n t.
Proof.
  intros Hm. remember (size t) as z eqn:Hz. assert (Hle : (size t <= z)%nat) by lia. clear Hz. revert top n t Hle.
  induction z as [|z IH]; intros top n t Hle Hr; [pose proof (size_pos t); lia|]. destruct Hr as [top t Ht Htop Hst|top w|top k m t f Hr Hfl|top ns cs f HF Hfl].
  - constructor; [done|done|by eapply stored_mono].
  - constructor.
  - constructor; [apply IH; [simpl in Hle; lia|done]|by eapply flag_mono].
  - constructor; [|by eapply flag_mono]. apply Forall2_same_length_lookup_2; [by eapply Forall2_length|]. intros i a c Ha Hc.
    pose proof (Forall2_lookup_lr _ _ _ _ _ _ HF Ha Hc) as Hac. inversion Hac as [m s Hms|]; subst; constructor. apply IH; [|done]. pose proof (size_child cs i s Hc). lia.
Qed.
Lemma reps_mono N N' ns cs : mono N N' -> Forall2 (option_Forall2 (rep N false)) ns cs -> Forall2 (option_Forall2 (rep N' false)) ns cs.
Proof. intros Hm HF. eapply Forall2_impl; [exact HF|]. intros a c Hac. destruct Hac; constructor. by eapply rep_mono. Qed.
Lemma mono_trans N1 N2 N3 : mono N1 N2 -> mono N2 N3 -> mono N1 N3.
Proof. intros H1 H2 h b Hb. by apply H2, H1. Qed.

(** ** The hasher *)

Definition world (db : option Database) (N : Hash -> option bytes) : Prop := match db with None => True | Some d => N = Node d /\ db_ok d end.
Definition grows (db db' : option Database) (N N' : Hash -> option bytes) : Prop := mono N N' /\ world db' N' /\ match db, db' with None, None => N' = N | Some _, Some _ => True | _, _ => False end.

Lemma grows_refl db N : world db N -> grows db db N N.
Proof. intros Hw. split_and!; [apply mono_refl|done|by destruct db]. Qed.
Lemma grows_trans db1 db2 db3 N1 N2 N3 : grows db1 db2 N1 N2 -> grows db2 db3 N2 N3 -> grows db1 db3 N1 N3.
Proof. intros (H1 & _ & H2) (H3 & H4 & H5). split_and!; [by eapply mono_trans|done|]. destruct db1, db2, db3; try done. congruence. Qed.

Definition hashes (top : bool) (t : tree) : Prop := top = true \/ 32 <= len (nodeenc t).
#[local] Instance hashes_dec top t : Decision (hashes top t).
Proof. unfold hashes. apply _. Defined.

(** What [hash] returns for a node. *)
Definition href (top : bool) (t : tree) (hashed : node) : Prop :=
  if decide (hashes top t) then hashed = hashNode (name t) else is_hash hashed = false /\ enc_iface (node_val hashed) = Ret (inr (nodeenc t)).
(** What a commit leaves in the database. *)
Definition kept (db : option Database) (N : Hash -> option bytes) (top : bool) (t : tree) : Prop := is_Some db -> below N t /\ (hashes top t -> stored N t).

Lemma href_val t x : wf t -> href false t x -> enc_iface (node_val x) = Ret (inr (ref K t (nodeenc t))).
Proof.
  intros Hw Hx. rewrite ref_wf by done. unfold href in Hx. case_decide as Hh.
  - subst x. rewrite (proj2 (Z.ltb_ge _ _)) by (destruct Hh; [done|lia]). done.
  - rewrite (proj2 (Z.ltb_lt _ _)); [by destruct Hx|]. apply Z.nle_gt. intros ?. by apply Hh; right.
Qed.

Lemma store_sim c t top db N : is_hash c = false -> enc_iface (node_val c) = Ret (inr (nodeenc t)) -> len (nodeenc t) < 2 ^ 63 ->
  (forall h, fst (cache c) = Some h -> h = name t) -> nodeenc t ∈ D \/ db = None -> world db N ->
  exists db' hashed N', store K onleaf c db top = Ret (db', hashed) /\ grows db db' N N' /\ href top t hashed /\
    (hashes top t -> is_Some db' -> N' (K (nodeenc t)) = Some (nodeenc t)).
Proof.
  intros Hc He Hl Hcache HD Hw. pose proof (RlpEncodeProps.EncodeToBytes_enc Rlp.TInterface (node_val c) (nodeenc t) He Hl) as Henc.
  assert (Hst : store K onleaf c db top = if decide (hashes top t) then
      match db with None => Ret (db, hashNode (name t)) | Some d => d ← ref_children c (K (nodeenc t)) (insert (K (nodeenc t)) (nodeenc t) d); Ret (Some (leaf_children onleaf c (K (nodeenc t)) d), hashNode (name t)) end
    else Ret (db, c)).
  { assert (Hcond : ((len (nodeenc t) <? 32) && negb top) = negb (bool_decide (hashes top t))).
    { destruct (decide (hashes top t)) as [Hh|Hh]; [rewrite bool_decide_true by done|rewrite bool_decide_false by done]; unfold hashes in Hh.
      - destruct Hh as [->|Hh]; [apply andb_false_r|]. by rewrite (proj2 (Z.ltb_ge _ _)).
      - destruct top; [naive_solver|]. rewrite (proj2 (Z.ltb_lt _ _)); [done|]. apply Z.nle_gt. naive_solver. }
    assert (Hname : match fst (cache c) with Some h => h | None => hash_bytes (K (nodeenc t)) end = name t) by (destruct (fst (cache c)) as [h|] eqn:E; [by apply Hcache|done]).
    unfold store. destruct c as [cs f|k v f|h|v]; [| |done|]; rewrite Henc; cbn [mbind outcome_bind]; rewrite Hcond, Hname, name_hash by done;
      (destruct (decide (hashes top t)); [rewrite bool_decide_true by done|rewrite bool_decide_false by done]; done). }
  rewrite Hst. unfold href. destruct (decide (hashes top t)) as [Hh|Hh].
  - destruct db as [d|].
    + destruct Hw as [-> Hd]. destruct HD as [HD|]; [|done]. destruct (insert_ok (nodeenc t) d HD Hd) as (H1 & H2 & H3 & H4).
      destruct (ref_children_same c (K (nodeenc t)) _ H4) as (d1 & -> & Hs). cbn [mbind outcome_bind]. set (d2 := leaf_children _ _ _ _).
      assert (Hs2 : same_blobs (insert (K (nodeenc t)) (nodeenc t) d) d2) by (etransitivity; [exact Hs|apply leaf_children_same]).
      exists (Some d2), (hashNode (name t)), (Node d2). split_and!; [done| |done|].
      * split_and!; [|split; [done|by eapply same_ok]|done]. eapply mono_trans; [exact H2|by apply same_mono].
      * intros _ _. by rewrite (same_Node _ _ _ Hs2).
    + exists None, (hashNode (name t)), N. split_and!; [done|by apply grows_refl|done|]. by intros _ [? ?].
  - exists db, c, N. split_and!; [done|by apply grows_refl|done|done|]. done.
Qed.

(** The encodings of collapsed nodes. *)
Lemma enc_elems_all vs es : Forall2 (fun v e => enc_iface v = Ret (inr e)) vs es -> enc_elems enc_iface vs = Ret (inr (mjoin es)).
Proof. induction 1 as [|v e vs es Hv _ IH]; [done|]. cbn [enc_elems]. rewrite Hv. cbn [RlpRef.ebind]. rewrite IH. done. Qed.
Lemma enc_iface_elems vs es : Forall2 (fun v e => enc_iface v = Ret (inr e)) vs es -> enc_iface (Rlp.VList vs) = Ret (inr (enc_list (mjoin es))).
Proof. intros HF. rewrite RlpEncodeProps.enc_iface_list. by rewrite (enc_elems_all vs es HF). Qed.

Definition collapses (a : option node) (c : option tree) : Prop := exists x, a = Some x /\ enc_iface (node_val x) = Ret (inr (cref K c)).

Lemma enc_short ck x f k t : ck = compact k -> enc_iface (node_val x) = Ret (inr (ref K t (nodeenc t))) -> enc_iface (node_val (shortNode ck (Some x) f)) = Ret (inr (nodeenc (Short k t))).
Proof.
  intros -> Hx. cbn [node_val TrieCodec.nodeenc]. rewrite (enc_iface_elems _ [enc_str (compact k); ref K t (nodeenc t)]) by (repeat constructor; done).
  do 3 f_equal. change (mjoin [?a; ?b]) with (a ++ b ++ []). by rewrite app_nil_r.
Qed.
Lemma enc_full as_ f cs : Forall2 collapses as_ cs -> enc_iface (node_val (fullNode as_ f)) = Ret (inr (nodeenc (Full cs))).
Proof.
  intros HF. rewrite nodeenc_full. cbn [node_val]. apply enc_iface_elems. induction HF as [|a c as_ cs (x & -> & Hx) _ IH]; [constructor|]. by constructor.
Qed.

Lemma flag_set top f t hashed N (db' : option Database) : href top t hashed -> flag_ok K N top f t -> (is_Some db' -> hashes top t -> stored N t) -> (db' = None -> fl_hash f = None) ->
  flag_ok K N top (MkFlag (match hashed with hashNode h => Some h | _ => None end) (fl_gen f) (match db' with Some _ => false | None => fl_dirty f end)) t.
Proof.
  intros Hh [_ Hf] Hst Hn. unfold href in Hh. destruct (decide (hashes top t)) as [Hd|Hd].
  - subst hashed. split; [|done]. intros h [= <-]. split_and!; [done|done|]. cbn [fl_dirty]. destruct db' as [d|]; [by intros _; apply Hst|].
    intros Hdirty. destruct (Hf Hdirty (Hn eq_refl)) as [-> Hl]. destruct Hd; [done|lia].
  - destruct Hh as [Hh _]. split; [intros h; by destruct hashed|]. intros _ _. unfold hashes in Hd. split; [destruct top; naive_solver|]. apply Z.nle_gt. naive_solver.
Qed.

Definition hash_ok (top : bool) (nd : node) (db : option Database) (t : tree) (N : Hash -> option bytes) : Prop :=
  exists db' hashed cached N', hash K gen lim onleaf nd db top = Ret (db', (hashed, cached)) /\ grows db db' N N' /\ rep N' top cached t /\ href top t hashed /\ kept db' N' top t.

(** A cached hash is used. *)
Lemma hash_cached top nd f db t N h : wf t -> rep N top nd t -> flag_ok K N top f t -> fl_hash f = Some h -> world db N ->
  hash K gen lim onleaf nd db top = match db with None => Ret (db, (hashNode h, nd)) | Some _ =>
    if flag_canUnload f gen lim then Ret (db, (hashNode h, hashNode h)) else Ret (db, (hashNode h, nd)) end ->
  (is_Some db -> fl_dirty f = false) -> hash_ok top nd db t N.
Proof.
  intros Hw Hr [Hf _] Hh Hwd Hhash Hclean. destruct (Hf h Hh) as (-> & Hd & Hst). unfold hash_ok. rewrite Hhash.
  assert (Href : href top t (hashNode (name t))) by (unfold href; by rewrite decide_True).
  assert (Hkept : kept db N top t) by (intros Hdb; specialize (Hst (Hclean Hdb)); split; [by destruct Hst|done]).
  pose proof (grows_refl db N Hwd). destruct db as [d|]; [|eexists _, _, _, N; by split_and!].
  destruct (flag_canUnload f gen lim); eexists _, _, _, N; split_and!; try done. constructor; [by apply wf_leafless|done|by apply Hst, Hclean].
Qed.

(** Storing what the children collapsed to. *)
Lemma hash_walk top nd f db db1 t N N1 collapsed cached : wf t -> sane t ->
  hash K gen lim onleaf nd db top = ('(db, hashed) ← store K onleaf collapsed db1 top; Ret (db, (hashed, set_hash cached hashed db))) ->
  grows db db1 N N1 -> flag_ok K N1 top f t -> fst (cache collapsed) = fl_hash f -> is_hash collapsed = false -> enc_iface (node_val collapsed) = Ret (inr (nodeenc t)) ->
  (is_Some db -> forall e, e ∈ encodings t -> e ∈ D) -> (db = None -> fl_hash f = None) ->
  (is_Some db1 -> forall e, e ∈ encodings t -> 32 <= len e -> e = nodeenc t \/ N1 (K e) = Some e) ->
  (forall N' f', mono N1 N' -> flag_ok K N' top f' t ->
     rep N' top (match cached with shortNode k v _ => shortNode k v f' | fullNode cs _ => fullNode cs f' | _ => cached end) t /\
     match cached with shortNode _ _ g | fullNode _ g => g = f | _ => False end) ->
  hash_ok top nd db t N.
Proof.
  intros Hw Hs Hhash Hg Hf Hcache Hh Henc HD Hnone Hbelow Hrep. unfold hash_ok. rewrite Hhash. pose proof Hg as (_ & Hwd & Hdb).
  destruct (enc_good K (size t) t) as (_ & Hl & _); [done|by left|done|].
  destruct (store_sim collapsed t top db1 N1) as (db' & hashed & N' & -> & Hg' & Href & Hst); try done; [lia| | |].
  { rewrite Hcache. intros h Hfh. destruct Hf as [Hf _]. by destruct (Hf h Hfh) as (-> & _). }
  { destruct db1 as [d1|]; [left|by right]. destruct db as [d|]; [|done]. apply HD; [done|]. by apply encodings_self, wf_leafless. }
  cbn [mbind outcome_bind]. pose proof Hg' as (Hm & _ & Hdb'). assert (Hk : kept db' N' top t).
  { intros Hsome. assert (Hb : below N' t).
    { intros e He Hle. assert (Hs1 : is_Some db1) by (by destruct db1, db', Hsome). destruct (Hbelow Hs1 e He Hle) as [->|Hin]; [|by apply Hm].
      apply Hst; [by right|done]. }
    split; [done|]. intros Hhs. split; [by apply Hst|done]. }
  destruct (Hrep N' (MkFlag (match hashed with hashNode h => Some h | _ => None end) (fl_gen f) (match db' with Some _ => false | None => fl_dirty f end))) as [Hr Hfl]; [done| |].
  { apply flag_set; [done|by eapply flag_mono|by intros ? ?; apply Hk|]. intros ->. destruct db1; [done|]. destruct db; [done|]. by apply Hnone. }
  eexists _, _, _, N'. split_and!; [done|by eapply grows_trans| |done|done]. unfold set_hash. destruct cached; subst; done.
Qed.

Definition in_D (db : option Database) (t : tree) : Prop := is_Some db -> forall e, e ∈ encodings t -> e ∈ D.
Definition can_hash (t : tree) : Prop := wf t /\ forall m N db, rep N false m t -> world db N -> in_D db t -> hash_ok false m db t N.

Lemma grows_some db db' N N' : grows db db' N N' -> is_Some db' -> is_Some db.
Proof. intros (_ & _ & H) [? ->]. by destruct db. Qed.
Lemma grows_some' db db' N N' : grows db db' N N' -> is_Some db -> is_Some db'.
Proof. intros (_ & _ & H) [? ->]. by destruct db'. Qed.

(** The first sixteen children. *)
Lemma hash_loop_sim o ns cs : forall db N, Forall (fun c => forall t, c = Some t -> can_hash t /\ in_D db t) cs -> Forall2 (option_Forall2 (rep N false)) ns cs -> world db N ->
  exists db' as_ bs N', hash_loop (hash K gen lim onleaf) (length ns) (ns ++ [o]) db = Ret (db', (as_ ++ [match o with None => Some (valueNode []) | _ => o end], bs ++ [o])) /\
    grows db db' N N' /\ Forall2 collapses as_ cs /\ Forall2 (option_Forall2 (rep N' false)) bs cs /\ (is_Some db' -> forall t, Some t ∈ cs -> below N' t).
Proof.
  revert cs. induction ns as [|n ns IH]; intros cs db N Hc HF Hw.
  - inversion HF; subst. exists db, [], [], N. split_and!; try constructor; try done; [apply mono_refl|by destruct db|]. intros _ t Ht. by apply not_elem_of_nil in Ht.
  - inversion HF as [|? c ? cs' Hnc HF']; subst. apply Forall_cons in Hc as [Hc Hcs]. destruct Hnc as [m t Hm|].
    + destruct (Hc t eq_refl) as [[Hwt Hhash] HD]. destruct (Hhash m N db Hm Hw HD) as (db1 & x & y & N1 & Hx & Hg & Hy & Href & Hk). pose proof Hg as (Hmono & Hw1 & _).
      destruct (IH cs' db1 N1) as (db2 & as_ & bs & N2 & Hl & Hg2 & Hcol & Hbs & Hb); [|by eapply reps_mono|done|].
      { eapply Forall_impl; [exact Hcs|]. intros c' Hc' u ->. destruct (Hc' u eq_refl) as [? HDu]. split; [done|]. intros Hdb1. apply HDu. by eapply grows_some. }
      pose proof Hg2 as (Hmono2 & _). exists db2, (Some x :: as_), (Some y :: bs), N2. cbn [length app hash_loop]. rewrite Hx. cbn [mbind outcome_bind]. rewrite Hl. split_and!; [done|by eapply grows_trans| | |].
      * constructor; [|done]. exists x. split; [done|]. by apply href_val.
      * constructor; [|done]. constructor. by eapply rep_mono.
      * intros Hs2 u [[= ->]|Hu]%elem_of_cons; [|by apply Hb]. eapply below_mono; [exact Hmono2|]. apply (fun H => proj1 (Hk H)). by eapply grows_some.
    + destruct (IH cs' db N Hcs HF' Hw) as (db2 & as_ & bs & N2 & Hl & Hg2 & Hcol & Hbs & Hb). exists db2, (Some (valueNode []) :: as_), (None :: bs), N2.
      cbn [length app hash_loop]. rewrite Hl. split_and!; [done|done| | |].
      * constructor; [|done]. by exists (valueNode []).
      * constructor; [constructor|done].
      * intros Hs2 u [?|Hu]%elem_of_cons; [done|by apply Hb].
Qed.

(** The code's choice between using a cached hash and walking the children. *)
Lemma hash_unfold nd db force : hash K gen lim onleaf nd db force =
  let walk := '(db, (collapsed, cached)) ← hashChildren (hash K gen lim onleaf) nd db; '(db, hashed) ← store K onleaf collapsed db force; Ret (db, (hashed, set_hash cached hashed db)) in
  match cache nd with
  | (Some h, dirty) =>
      match db with
      | None => Ret (db, (hashNode h, nd))
      | Some _ => if canUnload nd gen lim then Ret (db, (hashNode h, hashNode h)) else if negb dirty then Ret (db, (hashNode h, nd)) else walk
      end
  | (None, _) => walk
  end.
Proof. by destruct nd. Qed.

Definition node_flag (nd : node) (f : nodeFlag) : Prop := match nd with fullNode _ g | shortNode _ _ g => g = f | _ => False end.

(** Either the hash is used or the children are walked. *)
Lemma hash_cases top nd f db t N : wf t -> node_flag nd f -> rep N top nd t -> flag_ok K N top f t -> world db N ->
  hash_ok top nd db t N \/
  (hash K gen lim onleaf nd db top = ('(db, (collapsed, cached)) ← hashChildren (hash K gen lim onleaf) nd db; '(db, hashed) ← store K onleaf collapsed db top; Ret (db, (hashed, set_hash cached hashed db))) /\
   (db = None -> fl_hash f = None)).
Proof.
  intros Hw Hnf Hr Hf Hwd. pose proof (hash_unfold nd db top) as Hu.
  assert (Hc : cache nd = (fl_hash f, fl_dirty f) /\ canUnload nd gen lim = flag_canUnload f gen lim) by (destruct nd; simpl in Hnf; subst; done). destruct Hc as [Hc Hcu].
  rewrite Hc, Hcu in Hu. cbv zeta in Hu. destruct (fl_hash f) as [h|] eqn:Eh; [|right; by split]. destruct db as [d|].
  - destruct (fl_dirty f) eqn:Ed.
    + right. split; [|done]. unfold flag_canUnload in Hu. by rewrite Ed in Hu.
    + left. apply (hash_cached top nd f (Some d) t N h); done.
  - left. apply (hash_cached top nd f None t N h); try done.
Qed.

Lemma full_split {A} (l : list A) : length l = 17%nat -> exists k x, l = k ++ [x] /\ length k = 16%nat.
Proof.
  intros Hl. destruct (lookup_lt_is_Some_2 l 16) as [x Hx]; [lia|]. exists (take 16 l), x. split; [|rewrite length_take; lia].
  rewrite <- (take_drop 16 l) at 1. f_equal. rewrite (drop_S _ x) by done. by rewrite drop_ge by lia.
Qed.

(** What the children of a loaded node collapse to. *)
Definition collapse_ok (top : bool) (nd : node) (f : nodeFlag) (db : option Database) (t : tree) (N : Hash -> option bytes) : Prop :=
  exists db1 collapsed cached N1, hashChildren (hash K gen lim onleaf) nd db = Ret (db1, (collapsed, cached)) /\ grows db db1 N N1 /\
    fst (cache collapsed) = fl_hash f /\ is_hash collapsed = false /\ enc_iface (node_val collapsed) = Ret (inr (nodeenc t)) /\
    (is_Some db1 -> forall e, e ∈ encodings t -> 32 <= len e -> e = nodeenc t \/ N1 (K e) = Some e) /\
    (forall N' f', mono N1 N' -> flag_ok K N' top f' t ->
       rep N' top (match cached with shortNode k v _ => shortNode k v f' | fullNode cs _ => fullNode cs f' | _ => cached end) t /\
       match cached with shortNode _ _ g | fullNode _ g => g = f | _ => False end).

Definition hashes_below (z : nat) : Prop := forall t top nd db N, (size t <= z)%nat -> rep N top nd t -> wf t -> sane t -> world db N -> in_D db t -> hash_ok top nd db t N.

Lemma collapse_short z top k m t f db N : hashes_below z -> (size t <= z)%nat -> wf (Short k t) -> sane (Short k t) -> rep N false m t -> world db N -> in_D db (Short k t) ->
  collapse_ok top (shortNode k (Some m) f) f db (Short k t) N.
Proof.
  intros IH Hz Hw Hs Hm Hwd HD. pose proof (wf_short_inv _ _ Hw) as [_ Hwt]. destruct (compact_spec k (wf_short_hex K _ _ Hw)) as (Hck & _ & _).
  unfold collapse_ok. cbn [hashChildren]. rewrite Hck. cbn [mbind outcome_bind]. destruct t as [v| |cs]; [|done|].
  - inversion Hm; subst; [done|]. eexists _, _, _, N. split; [done|]. split_and!; [by apply grows_refl|done|done|by apply enc_short| |].
    + intros _ e [->|He]%elem_of_cons _; [by left|]. by apply not_elem_of_nil in He.
    + intros N' f' Hmono Hf'. split; [|done]. constructor; [constructor|done].
  - destruct Hwt as [_ Hwt]. destruct (IH (Full cs) false m db N) as (db1 & x & y & N1 & Hx & Hg & Hy & Href & Hk); [done|done|done|by eapply sane_short_inv|done| |].
    { intros Hdb e He. apply HD; [done|]. by apply elem_of_cons; right. }
    exists db1, (shortNode (compact k) (Some x) f), (shortNode k (Some y) f), N1. split; [inversion Hm; subst; rewrite Hx; done|]. split_and!; [done|done|done|apply enc_short; [done|by apply href_val]| |].
    + intros Hs1 e [->|He]%elem_of_cons Hle; [by left|]. right. destruct (Hk Hs1) as [Hb _]. by apply Hb.
    + intros N' f' Hmono' Hf'. split; [|done]. constructor; [by eapply rep_mono|done].
Qed.

Lemma collapse_full z top ns cs f db N : hashes_below z -> (size (Full cs) <= S z)%nat -> wf (Full cs) -> sane (Full cs) -> Forall2 (option_Forall2 (rep N false)) ns cs -> world db N -> in_D db (Full cs) ->
  collapse_ok top (fullNode ns f) f db (Full cs) N.
Proof.
  intros IH Hz Hw Hs HF Hwd HD. pose proof (proj1 (wf_full_iff cs) Hw) as (Hl & Hwc & _).
  destruct (full_split cs Hl) as (ds & c & -> & Hld). pose proof (Forall2_length _ _ _ HF) as Hln. rewrite Hl in Hln. destruct (full_split ns Hln) as (ms & o & -> & Hlm).
  apply Forall2_app_inv in HF as [HFd HFc]; [|congruence]. apply Forall2_cons in HFc as [Hoc _].
  assert (Hc16 : (ds ++ [c]) !! 16%nat = Some c) by (rewrite lookup_app_r by lia; by rewrite Hld).
  assert (Hsub : forall u, Some u ∈ ds -> exists i, (i < 16)%nat /\ (ds ++ [c]) !! i = Some (Some u)).
  { intros u (i & Hi)%list_elem_of_lookup. exists i. pose proof (lookup_lt_Some _ _ _ Hi). split; [lia|]. by apply lookup_app_l_Some. }
  destruct (hash_loop_sim o ms ds db N) as (db1 & as_ & bs & N1 & Hloop & Hg & Hcol & Hbs & Hb); [|done|done|].
  { apply Forall_forall. intros c' Hin u ->. destruct (Hsub u Hin) as (i & Hi & Hiu). destruct (Hwc i u Hiu) as [[? _]|[_ Hwu]]; [lia|].
    assert (HDu : in_D db u). { intros Hdb e He. apply HD; [done|]. apply elem_of_cons. right. apply list_elem_of_bind. exists (Some u). split; [done|by eapply list_elem_of_lookup_2]. }
    split; [|done]. split; [done|]. intros m N0 db0 Hm0 Hw0 HD0. apply IH; try done; [pose proof (size_child _ i u Hiu); lia|by eapply sane_full_inv]. }
  assert (Hval : match o with Some (valueNode v) => c = Some (Leaf v) | None => c = None | _ => False end).
  { destruct Hoc as [m u Hmu|]; [|done]. destruct (Hwc _ _ Hc16) as [[_ (v & -> & _)]|[Hn _]]; [|unfold is_nibble in Hn; lia]. by inversion Hmu; subst. }
  rewrite Hlm in Hloop. unfold collapse_ok. cbn [hashChildren]. rewrite Hloop. cbn [mbind outcome_bind]. eexists _, _, _, N1. split; [done|]. split_and!; [done|done|done| | |].
  - apply enc_full, Forall2_app; [done|]. constructor; [|done]. destruct o as [[| | |v]|]; try done; subst c; [by exists (valueNode v)|by exists (valueNode [])].
  - intros Hs1 e [->|He]%elem_of_cons Hle; [by left|]. right. apply list_elem_of_bind in He as (c' & He & Hin). destruct c' as [u|]; [|by apply not_elem_of_nil in He].
    apply elem_of_app in Hin as [Hin|Hin]; [by apply (Hb Hs1 u Hin)|]. apply list_elem_of_singleton in Hin as <-.
    destruct o as [[| | |v]|]; try done; simplify_eq. by apply not_elem_of_nil in He.
  - intros N' f' Hmono' Hf'. split; [|done]. constructor; [|done]. apply Forall2_app; [by eapply reps_mono|]. constructor; [|done].
    destruct o as [[| | |v]|]; try done; subst c; constructor. constructor.
Qed.

Lemma collapse_hash top nd f db t N : wf t -> sane t -> node_flag nd f -> rep N top nd t -> flag_ok K N top f t -> world db N -> in_D db t -> collapse_ok top nd f db t N -> hash_ok top nd db t N.
Proof.
  intros Hw Hs Hnf Hr Hfl Hwd HD (db1 & collapsed & cached & N1 & Hc & Hg & Hcache & Hh & Henc & Hb & Hrep).
  destruct (hash_cases top nd f db t N Hw Hnf Hr Hfl Hwd) as [|[Hhash Hnone]]; [done|]. rewrite Hc in Hhash. cbn [mbind outcome_bind] in Hhash. pose proof Hg as (Hmono & _).
  eapply (hash_walk top _ f db db1 _ N N1 _ _ Hw Hs Hhash); try done. by eapply flag_mono.
Qed.

Lemma hash_sim z : hashes_below z.
Proof.
  induction z as [|z IH]; intros t top nd db N Hz Hr Hw Hs Hwd HD; [pose proof (size_pos t); lia|].
  pose proof Hr as Hr0. destruct Hr0 as [top t Ht Htop Hst|top w|top k m t f Hm Hfl|top ns cs f HF Hfl].
  - exists db, (hashNode (name t)), (hashNode (name t)), N. split_and!; [done|by apply grows_refl|done|unfold href; by rewrite decide_True|].
    intros _. split; [by destruct Hst|done].
  - by apply wf_not_leaf in Hw.
  - apply (collapse_hash top _ f); try done. by eapply collapse_short; [exact IH|simpl in Hz; lia|..].
  - apply (collapse_hash top _ f); try done. by eapply collapse_full.
Qed.

(** Every loaded node collapses to its reference encoding. *)
Lemma collapse_all top nd db t N : wf t -> sane t -> rep N top nd t -> is_hash nd = false -> world db N -> in_D db t -> exists f, node_flag nd f /\ flag_ok K N top f t /\ collapse_ok top nd f db t N.
Proof.
  intros Hw Hs Hr Hh Hwd HD. destruct Hr as [|top w|top k m t f Hm Hfl|top ns cs f HF Hfl]; [done|by apply wf_not_leaf in Hw| |]; exists f; (split; [done|]; split; [done|]).
  - by eapply collapse_short; [apply hash_sim|..].
  - by eapply (collapse_full (size (Full cs))); [apply hash_sim|lia|..].
Qed.

End Hash.

End TrieHashProps.
