(* ===== verification/TrieClaims.v ===== *)
(** What a trie promises its users: it is a finite map from keys to values whose hash is
    a function of the map, whatever was loaded, hashed, committed or unloaded before, and
    which the hash determines. *)

From S2P Require Import Prelude Params Bytes RlpEncode RlpDecode RlpRaw TrieEncoding Trie TrieHasher TrieSpec TrieCodec TrieRefine TrieHashProps.
Import TrieEnc TrieEncProps Trie TrieSpec TrieCodec TrieRefine TrieDb TrieHash TrieHashProps.

Module TrieClaims.

(** ** The map a tree holds *)

(** The canonical tree of a map. *)
Definition tree_of (m : gmap bytes bytes) : option tree := map_fold (fun k v t => Some (TrieSpec.insert t (keybytesToHex k) v)) None m.

Definition entry_ok (k v : bytes) : Prop := is_bytes k /\ is_bytes v /\ v <> [] /\ len k < 2 ^ 58 /\ len v < 2 ^ 60.
Definition good_map (m : gmap bytes bytes) : Prop := map_Forall entry_ok m.

Record holds (t : option tree) (m : gmap bytes bytes) : Prop := {
  holds_wf : wf_root t;
  holds_get key : is_bytes key -> lookup t (keybytesToHex key) = m !! key;
  holds_key k v : hexkey k -> lookup t k = Some v -> exists key, is_bytes key /\ k = keybytesToHex key
}.

Lemma hex_inj a b : is_bytes a -> is_bytes b -> keybytesToHex a = keybytesToHex b -> a = b.
Proof. intros Ha Hb E. pose proof (hexToKeybytes_keybytesToHex a Ha) as H. rewrite E, hexToKeybytes_keybytesToHex in H by done. by injection H. Qed.

Lemma holds_updates t t' m key v : is_bytes key -> holds t m -> wf_root t' -> updates t t' (keybytesToHex key) v -> holds t' (partial_alter (fun _ => v) key m).
Proof.
  intros Hk [Hw Hg Hkey] Hw' Hu. split; [done| |].
  - intros k Hkb. rewrite (Hu _ (hexkey_keybytes k Hkb)). destruct (decide (k = key)) as [->|Hne]; [rewrite decide_True by done; by rewrite lookup_partial_alter_eq|].
    rewrite decide_False by (intros E; by apply hex_inj in E). rewrite lookup_partial_alter_ne by done. by apply Hg.
  - intros k w Hk' Hl. rewrite Hu in Hl by done. case_decide as E; [by exists key|]. by eapply Hkey.
Qed.
Lemma holds_insert t m key v : is_bytes key -> v <> [] -> holds t m -> holds (Some (TrieSpec.insert t (keybytesToHex key) v)) (<[key := v]> m).
Proof. intros Hk Hv Hh. destruct (insert_spec t (keybytesToHex key) v) as [Hw Hu]; [by apply hexkey_keybytes|done|apply Hh|]. by eapply holds_updates. Qed.
Lemma holds_delete t m key : is_bytes key -> holds t m -> holds (TrieSpec.delete t (keybytesToHex key)) (base.delete key m).
Proof. intros Hk Hh. destruct (delete_spec t (keybytesToHex key)) as [Hw Hu]; [by apply hexkey_keybytes|apply Hh|]. by eapply holds_updates. Qed.
Lemma holds_empty : holds None ∅.
Proof. split; [done| |done]. intros key _. by rewrite lookup_empty. Qed.

Lemma holds_unique t t' m : holds t m -> holds t' m -> t = t'.
Proof.
  intros H1 H2. apply canonical; [apply H1|apply H2|]. intros k Hk.
  assert (Hgo : forall s s', holds s m -> holds s' m -> forall v, lookup s k = Some v -> lookup s' k = Some v).
  { intros s s' Hs Hs' v Hv. destruct (holds_key _ _ Hs k v Hk Hv) as (key & Hb & ->). rewrite (holds_get _ _ Hs key Hb) in Hv. by rewrite (holds_get _ _ Hs' key Hb). }
  destruct (lookup t k) as [v|] eqn:E; [symmetry; by eapply (Hgo t t')|]. destruct (lookup t' k) as [v|] eqn:E'; [|done]. apply (Hgo t' t) in E'; congruence.
Qed.

Lemma tree_of_holds m : good_map m -> holds (tree_of m) m.
Proof.
  unfold tree_of. apply (map_fold_weak_ind (fun t m => good_map m -> holds t m)); [intros _; apply holds_empty|].
  intros k v m' t Hn IH Hg. apply map_Forall_insert in Hg as [(Hk & _ & Hv & _) Hg]; [|done]. apply holds_insert; auto.
Qed.
Lemma holds_tree_of t m : good_map m -> holds t m -> t = tree_of m.
Proof. intros Hg Hh. by eapply holds_unique, tree_of_holds. Qed.

(** Entries of an acceptable size make trees of an acceptable size. *)
Lemma wf_sane n t : (size t <= n)%nat -> wf t -> (forall k v, hexkey k -> get t k = Some v -> is_bytes v /\ len k < 2 ^ 60 /\ len v < 2 ^ 60) -> sane t.
Proof.
  revert t. induction n as [|n IH]; intros t Hn Hw Hf; [pose proof (size_pos t); lia|]. destruct t as [v|k t|cs]; [by apply wf_not_leaf in Hw| |].
  - pose proof (wf_short_inv _ _ Hw) as [_ Hwt]. destruct (wf_inhabited _ Hw) as (key & w & Hkey & Hget & _). destruct (Hf key w Hkey Hget) as (Hb & Hlk & Hlw).
    apply get_short in Hget as (r & -> & Hr). rewrite len_app in Hlk. pose proof (len_nonneg r). destruct t as [v| |cs]; [|done|].
    + destruct r; simplify_eq/=. constructor; [lia|]. by constructor.
    + destruct Hwt as [Hnk Hwt]. constructor; [lia|]. apply IH; [simpl in Hn |- *; lia|done|]. intros key v Hkey' Hg. destruct (Hf (k ++ key) v) as (? & Hl & ?); [by apply hexkey_app|apply get_short; eauto|].
      rewrite len_app in Hl. pose proof (len_nonneg k). split_and!; [done|lia|done].
  - pose proof (proj1 (wf_full_iff cs) Hw) as (_ & Hc & _). constructor. intros i t Hi.
    assert (Hgi : forall r v, get t r = Some v -> hexkey (Z.of_nat i :: r) -> is_bytes v /\ len r < 2 ^ 60 /\ len v < 2 ^ 60).
    { intros r v Hr Hk. destruct (Hf (Z.of_nat i :: r) v) as (? & Hl & ?); [done|by rewrite get_full, Nat2Z.id, Hi|]. rewrite len_cons in Hl. split_and!; [done|lia|done]. }
    destruct (Hc i t Hi) as [[H16 (v & -> & Hv)]|[Hx Hwt]].
    + destruct (Hgi [] v eq_refl) as (? & _ & ?); [apply hexkey_cons; by left|]. by constructor.
    + apply IH; [pose proof (size_child cs i t Hi); lia|done|]. intros k v Hk Hg. apply Hgi; [done|]. apply hexkey_cons. by right.
Qed.
Lemma len_hex b : len (keybytesToHex b) = 2 * len b + 1.
Proof. unfold keybytesToHex. rewrite len_app, len_nibbles. done. Qed.
Lemma holds_sane t m : good_map m -> holds (Some t) m -> wf t /\ sane t.
Proof.
  intros Hg Hh. pose proof (holds_wf _ _ Hh) as Hw. split; [done|]. apply (wf_sane (size t)); [done|done|]. intros k v Hk Hget.
  destruct (holds_key _ _ Hh k v Hk Hget) as (key & Hb & ->). pose proof (holds_get _ _ Hh key Hb) as E. cbn [lookup] in E. rewrite Hget in E. symmetry in E.
  destruct (Hg key v E) as (_ & Hv & _ & Hlk & Hlv). rewrite len_hex. split_and!; [done|lia|done].
Qed.

(** ** The hash of a map *)

Section Claims.
Context (K : bytes -> Hash).

Definition root_hash (m : gmap bytes bytes) : Hash := match tree_of m with None => emptyRoot | Some t => K (nodeenc K t) end.

(** The encodings of the nodes of a map's trie. *)
Definition map_encodings (m : gmap bytes bytes) : list bytes := match tree_of m with Some t => encodings K t | None => [] end.

(** Among [D] there are no two encodings with the same hash, and none that hashes to zero
    or to the hash of the empty trie. *)
Definition collision_free (D : list bytes) : Prop :=
  Forall (fun e => Forall (fun e' => K e = K e' -> e = e') D) D /\ Forall (fun e => K e <> 0 /\ K e <> emptyRoot) D.

Lemma free_inj D e e' : collision_free D -> e ∈ D -> e' ∈ D -> K e = K e' -> e = e'.
Proof. intros [H _] He He'. rewrite Forall_forall in H. specialize (H e He). rewrite Forall_forall in H. by apply H. Qed.

(** ** The hash determines the map *)

Section Inj.
Context (Krange : forall b, 0 <= K b < 2 ^ 256) (D : list bytes) (HD : collision_free D).

Lemma decode_same t1 t2 : wf t1 -> sane t1 -> wf t2 -> sane t2 -> nodeenc K t1 = nodeenc K t2 -> decoded K None 0 t1 = decoded K None 0 t2.
Proof.
  intros Hw1 Hs1 Hw2 Hs2 E. assert (Hgo : forall t, wf t -> sane t -> decodeNode (length (nodeenc K t)) None (nodeenc K t ++ []) 0 = Ret (inr (Some (decoded K None 0 t)))).
  { intros t Hw Hs. destruct (enc_good K (size t) t) as (_ & Hl & _); [done|by left|done|]. apply (decode_enc K (size t)); [done..|]. rewrite app_nil_r. lia. }
  pose proof (Hgo t1 Hw1 Hs1) as H1. rewrite E, (Hgo t2 Hw2 Hs2) in H1. by injection H1.
Qed.

Lemma decoded_inj n t1 t2 : (size t1 <= n)%nat -> valid t1 -> sane t1 -> valid t2 -> sane t2 -> encodings K t1 ⊆ D -> encodings K t2 ⊆ D ->
  decoded K None 0 t1 = decoded K None 0 t2 -> t1 = t2.
Proof.
  revert t1 t2. induction n as [|n IH]; intros t1 t2 Hn Hv1 Hs1 Hv2 Hs2 Hd1 Hd2 E; [pose proof (size_pos t1); lia|].
  assert (Href : forall s1 s2, (size s1 <= n)%nat -> valid s1 -> sane s1 -> valid s2 -> sane s2 -> encodings K s1 ⊆ D -> encodings K s2 ⊆ D ->
    dref K (decoded K None 0) s1 = dref K (decoded K None 0) s2 -> s1 = s2).
  { intros s1 s2 Hn1 Hv1' Hs1' Hv2' Hs2' Hd1' Hd2' E'.
    destruct Hv1' as [Hw1|(v1 & -> & Hne1)]; [rewrite (dref_wf K _ s1) in E' by done|]; (destruct Hv2' as [Hw2|(v2 & -> & Hne2)]; [rewrite (dref_wf K _ s2) in E' by done|]).
    - destruct (len (nodeenc K s1) <? 32), (len (nodeenc K s2) <? 32).
      + apply IH; try done; by left.
      + by destruct s1.
      + by destruct s2.
      + assert (HK : K (nodeenc K s1) = K (nodeenc K s2)) by (apply (f_equal (fun n => match n with hashNode h => BytesToHash h | _ => 0 end)) in E'; by rewrite !BytesToHash_hash_bytes in E' by apply Krange).
        apply (free_inj D) in HK; [|done|apply Hd1', encodings_self, wf_leafless, Hw1|apply Hd2', encodings_self, wf_leafless, Hw2].
        apply IH; try done; [by left..|]. by apply decode_same.
    - cbn [dref] in E'. destruct (len (nodeenc K s1) <? 32); [|done]. destruct s1; [by apply wf_not_leaf in Hw1|done|done].
    - cbn [dref] in E'. destruct (len (nodeenc K s2) <? 32); [|done]. destruct s2; [by apply wf_not_leaf in Hw2|done|done].
    - by injection E' as ->. }
  destruct t1 as [v1|k1 s1|cs1], t2 as [v2|k2 s2|cs2]; cbn [decoded] in E; try done.
  - by injection E as ->.
  - destruct Hv1 as [Hw1|(? & ? & _)]; [|done]. destruct Hv2 as [Hw2|(? & ? & _)]; [|done]. injection E as -> E. f_equal. apply Href; [simpl in Hn; lia| | | | | | |done].
    all: try (by eapply valid_short); try (by eapply sane_short_inv); intros e He; first [apply Hd1; apply elem_of_cons; by right|apply Hd2; apply elem_of_cons; by right].
  - destruct Hv1 as [Hw1|(? & ? & _)]; [|done]. destruct Hv2 as [Hw2|(? & ? & _)]; [|done]. injection E as E. f_equal. apply wf_full_iff in Hw1 as (Hl1 & Hc1 & _), Hw2 as (Hl2 & Hc2 & _).
    apply list_eq. intros i. assert (Hi : option_map (dref K (decoded K None 0)) <$> cs1 !! i = option_map (dref K (decoded K None 0)) <$> cs2 !! i).
    { rewrite <- !list_lookup_fmap. unfold fmap, list_fmap. f_equal. exact E. }
    destruct (cs1 !! i) as [[s1|]|] eqn:E1, (cs2 !! i) as [[s2|]|] eqn:E2; cbn [fmap option_fmap option_map] in Hi; try done. assert (Hd : dref K (decoded K None 0) s1 = dref K (decoded K None 0) s2) by (by injection Hi). do 2 f_equal.
    apply Href; [pose proof (size_child cs1 i s1 E1); lia|exact (valid_child _ _ (Hc1 i s1 E1))|exact (sane_full_inv _ _ _ Hs1 E1)|exact (valid_child _ _ (Hc2 i s2 E2))|exact (sane_full_inv _ _ _ Hs2 E2)| | |done].
    1: intros e He; apply Hd1. 2: intros e He; apply Hd2.
    all: apply elem_of_cons; right; apply list_elem_of_bind; eexists (Some _); (split; [exact He|]); by eapply list_elem_of_lookup_2.
Qed.

End Inj.

(** ** Runs *)

Inductive op := OGet (key : bytes) | OUpdate (key value : bytes) | ODelete (key : bytes) | OHash | OCommit | OReopen | OLimit (l : Z).
Inductive result := RValue (v : bytes) | RDone | RRoot (h : Hash) | RMissing.

Definition missing {A} (f : A -> result) (r : MissingNodeError + A) : result := match r with inl _ => RMissing | inr x => f x end.
Definition missing_opt (r : option MissingNodeError) : result := match r with Some _ => RMissing | None => RDone end.

(** One operation on a trie and its database; [OReopen] commits and goes on with a new
    trie on the root. *)
Definition exec (onleaf : option LeafCallback) (s : Database * Trie) (o : op) : outcome (Database * Trie * result) :=
  let '(db, t) := s in
  match o with
  | OGet k => '(t, r) ← TryGet (Node db) t k; Ret (db, t, missing RValue r)
  | OUpdate k v => '(t, r) ← TryUpdate (Node db) t k v; Ret (db, t, missing_opt r)
  | ODelete k => '(t, r) ← TryDelete (Node db) t k; Ret (db, t, missing_opt r)
  | OHash => '(t, h) ← Hash_ K t; Ret (db, t, RRoot h)
  | OCommit => '(db, t, h) ← Commit K t db onleaf; Ret (db, t, RRoot h)
  | OReopen =>
      '(db, t, h) ← Commit K t db onleaf;
      r ← New (Node db) h;
      Ret match r with inl _ => (db, t, RMissing) | inr t' => (db, t', RRoot h) end
  | OLimit l => Ret (db, SetCacheLimit t l, RDone)
  end.
Fixpoint run (onleaf : option LeafCallback) (s : Database * Trie) (os : list op) : outcome (list result) :=
  match os with
  | [] => Ret []
  | o :: os => '(db, t, r) ← exec onleaf s o; rs ← run onleaf (db, t) os; Ret (r :: rs)
  end.

(** The trie and the database at the end of a run. *)
Fixpoint run_to (onleaf : option LeafCallback) (s : Database * Trie) (os : list op) : outcome (Database * Trie) :=
  match os with
  | [] => Ret s
  | o :: os => '(db, t, _) ← exec onleaf s o; run_to onleaf (db, t) os
  end.

(** The same on a finite map. *)
Definition spec_map (m : gmap bytes bytes) (o : op) : gmap bytes bytes :=
  match o with
  | OUpdate k v => if bool_decide (v = []) then base.delete k m else <[k := v]> m
  | ODelete k => base.delete k m
  | _ => m
  end.
Definition spec_result (m : gmap bytes bytes) (o : op) : result :=
  match o with
  | OGet k => RValue (default [] (m !! k))
  | OUpdate _ _ | ODelete _ | OLimit _ => RDone
  | OHash | OCommit | OReopen => RRoot (root_hash m)
  end.
Fixpoint spec_run (m : gmap bytes bytes) (os : list op) : list result :=
  match os with [] => [] | o :: os => spec_result m o :: spec_run (spec_map m o) os end.
(** The encodings of all tries on the way. *)
Fixpoint run_encodings (m : gmap bytes bytes) (os : list op) : list bytes :=
  map_encodings m ++ match os with [] => [] | o :: os => run_encodings (spec_map m o) os end.

Definition op_ok (o : op) : Prop :=
  match o with
  | OGet k | ODelete k => is_bytes k
  | OUpdate k v => is_bytes k /\ is_bytes v /\ len k < 2 ^ 58 /\ len v < 2 ^ 60
  | _ => True
  end.

Section Refinement.
Context (Krange : forall b, 0 <= K b < 2 ^ 256) (D : list bytes) (HD : collision_free D).
Context (onleaf : option LeafCallback) (onleaf_ok : forall f v h d, onleaf = Some f -> same_blobs d (f v h d)).

Record inv (db : Database) (t : Trie) (m : gmap bytes bytes) : Prop := {
  inv_tree : exists ot, option_Forall2 (rep K (Node db) true) (root t) ot /\ holds ot m;
  inv_map : good_map m;
  inv_db : db_ok K D db
}.

Lemma enough_need n key : (need n key <= enough key)%nat.
Proof. unfold need, enough. destruct (is_hash n); lia. Qed.

Lemma inv_root db t m : inv db t m -> option_Forall2 (rep K (Node db) true) (root t) (tree_of m) /\ holds (tree_of m) m.
Proof. intros [(ot & Hr & Hh) Hg _]. pose proof (holds_tree_of _ _ Hg Hh) as ->. done. Qed.
Lemma inv_sane m t : good_map m -> tree_of m = Some t -> wf t /\ sane t.
Proof. intros Hg E. apply (holds_sane t m); [done|]. rewrite <- E. by apply tree_of_holds. Qed.

Lemma inv_with_root db t m n : inv db t m -> option_Forall2 (rep K (Node db) true) n (tree_of m) -> inv db (with_root n t) m.
Proof. intros [(ot & _ & Hh) Hg Hdb] Hr. split; [|done|done]. exists (tree_of m). split; [done|]. by apply tree_of_holds. Qed.

Lemma get_step db t m k : is_bytes k -> inv db t m -> exists t', TryGet (Node db) t k = Ret (t', inr (default [] (m !! k))) /\ inv db t' m.
Proof.
  intros Hk Hi. destruct (inv_root db t m Hi) as [Hr Hh]. pose proof (holds_get _ _ Hh k Hk) as Hget. unfold TryGet. pose proof (hexkey_keybytes k Hk) as Hhex.
  destruct (tree_of m) as [tr|] eqn:Et; inversion Hr as [n ? Hn En|En]; subst.
  - destruct (inv_sane m tr) as [Hw Hs]; [apply Hi|done|].
    destruct (tryGet_sim K Krange (Node db) (cachegen t) (enough (keybytesToHex k)) true n tr [] (keybytesToHex k)) as (n' & d & -> & Hn' & Hd); [done|done|by left|apply enough_need|].
    cbn [mbind outcome_bind]. cbn [lookup] in Hget. rewrite Hget. destruct d; eexists; (split; [done|]); [|done]. apply inv_with_root; [done|]. rewrite Et. by constructor.
  - cbn [lookup] in Hget. rewrite <- Hget. exists t. split; [|done]. unfold enough. by replace (2 * length (keybytesToHex k) + 2)%nat with (S (2 * length (keybytesToHex k) + 1)) by lia.
Qed.

Lemma set_root_step db t m m' n d r : inv db t m -> good_map m' -> option_Forall2 (rep K (Node db) true) n r -> holds r m' ->
  exists t', set_root t (Ret (inr (d, n))) = Ret (t', None) /\ inv db t' m'.
Proof. intros [_ _ Hdb] Hg Hr Hh. exists (with_root n t). split; [done|]. split; [|done|done]. by exists r. Qed.

Lemma delete_step db t m k : is_bytes k -> inv db t m -> exists t',
  set_root t (Trie.delete (Node db) (cachegen t) (enough (keybytesToHex k)) (root t) [] (keybytesToHex k)) = Ret (t', None) /\ inv db t' (base.delete k m).
Proof.
  intros Hk Hi. destruct (inv_root db t m Hi) as [Hr Hh]. pose proof (hexkey_keybytes k Hk) as Hhex. pose proof (holds_delete _ _ k Hk Hh) as Hh'.
  assert (Hg' : good_map (base.delete k m)) by (apply map_Forall_delete, Hi). destruct (tree_of m) as [tr|] eqn:Et; inversion Hr as [n ? Hn En|En]; subst.
  - destruct (inv_sane m tr) as [Hw Hs]; [apply Hi|done|].
    destruct (delete_sim K Krange (Node db) (cachegen t) (enough (keybytesToHex k)) true n tr [] (keybytesToHex k)) as (d & o & -> & Ho); [done|done|by left|apply enough_need|].
    cbn [TrieSpec.delete] in Hh'. destruct d; [eapply set_root_step; [done|done|apply Ho|done]|]. destruct Ho as (n' & -> & Hn' & E). rewrite E in Hh'.
    eapply set_root_step; [done|done|by constructor|done].
  - unfold enough. replace (2 * length (keybytesToHex k) + 2)%nat with (S (2 * length (keybytesToHex k) + 1)) by lia. cbn [Trie.delete].
    eapply (set_root_step _ _ _ _ _ _ None); [done|done|constructor|done].
Qed.

Lemma insert_step db t m k v : op_ok (OUpdate k v) -> v <> [] -> inv db t m -> exists t',
  set_root t (Trie.insert (Node db) (cachegen t) (enough (keybytesToHex k)) (root t) [] (keybytesToHex k) (Some (valueNode v))) = Ret (t', None) /\ inv db t' (<[k := v]> m).
Proof.
  intros (Hk & Hv & Hlk & Hlv) Hne Hi. destruct (inv_root db t m Hi) as [Hr Hh]. pose proof (hexkey_keybytes k Hk) as Hhex. pose proof (holds_insert _ _ k v Hk Hne Hh) as Hh'.
  assert (Hg' : good_map (<[k := v]> m)) by (apply map_Forall_insert_2; [done|apply Hi]). destruct (tree_of m) as [tr|] eqn:Et; inversion Hr as [n ? Hn En|En]; subst.
  - destruct (inv_sane m tr) as [Hw Hs]; [apply Hi|done|].
    destruct (insert_sim K Krange (Node db) (cachegen t) v Hne (enough (keybytesToHex k)) true n tr [] (keybytesToHex k)) as (d & n' & -> & Hn'); [done|done|by left|apply enough_need|].
    cbn [TrieSpec.insert] in Hh'. destruct d; [eapply set_root_step; [done|done|by constructor|done]|]. destruct Hn' as [Hn' E]. rewrite E in Hh'.
    eapply set_root_step; [done|done|by constructor|done].
  - unfold enough. replace (2 * length (keybytesToHex k) + 2)%nat with (S (2 * length (keybytesToHex k) + 1)) by lia. rewrite insert_nil.
    eapply set_root_step; [done|done| |done]. constructor. cbn [TrieSpec.insert]. destruct (keybytesToHex k) as [|x r] eqn:Ek; [by apply hexkey_nil in Hhex|].
    cbn [graftn graft]. constructor; [constructor|apply flag_fresh].
Qed.

Lemma emptyRoot_bytes : BytesToHash (hash_bytes emptyRoot) = emptyRoot.
Proof. by apply BytesToHash_hash_bytes. Qed.

Lemma hash_step db t m : inv db t m -> exists t', Hash_ K t = Ret (t', root_hash m) /\ inv db t' m.
Proof.
  intros Hi. destruct (inv_root db t m Hi) as [Hr Hh]. unfold Hash_, hashRoot, root_hash. destruct (tree_of m) as [tr|] eqn:Et; inversion Hr as [n ? Hn En|En]; subst.
  - destruct (inv_sane m tr) as [Hw Hs]; [apply Hi|done|].
    destruct (hash_sim K Krange (cachegen t) (cachelimit t) None ltac:(done) D (fun e e' => free_inj D e e' HD) (size tr) tr true n None (Node db)) as (db' & hashed & cached & N' & -> & Hg & Hc & Href & _); [done..|by intros [? ?]|].
    destruct Hg as (_ & _ & Hg). destruct db'; [done|]. subst N'. unfold href in Href. rewrite decide_True in Href by (by left). subst hashed. cbn [mbind outcome_bind asHash]. rewrite name_hash by done.
    eexists. split; [done|]. apply inv_with_root; [done|]. rewrite Et. by constructor.
  - cbn [mbind outcome_bind asHash]. rewrite emptyRoot_bytes. eexists. split; [done|]. apply inv_with_root; [done|]. rewrite Et. constructor.
Qed.

Lemma commit_step db t m : map_encodings m ⊆ D -> inv db t m -> exists db' t', Commit K t db onleaf = Ret (db', t', root_hash m) /\ inv db' t' m /\
  forall tr, tree_of m = Some tr -> stored K (Node db') tr.
Proof.
  intros HDm Hi. destruct (inv_root db t m Hi) as [Hr Hh]. unfold Commit, hashRoot, root_hash. unfold map_encodings in HDm. destruct (tree_of m) as [tr|] eqn:Et; inversion Hr as [n ? Hn En|En]; subst.
  - destruct (inv_sane m tr) as [Hw Hs]; [apply Hi|done|].
    destruct (hash_sim K Krange (cachegen t) (cachelimit t) onleaf onleaf_ok D (fun e e' => free_inj D e e' HD) (size tr) tr true n (Some db) (Node db)) as (db' & hashed & cached & N' & -> & Hg & Hc & Href & Hk); [done..|split; [done|apply Hi]|by intros _ e He; apply HDm|].
    destruct Hg as (_ & Hwd & Hg). destruct db' as [db'|]; [|done]. destruct Hwd as [-> Hdb']. unfold href in Href. rewrite decide_True in Href by (by left). subst hashed.
    cbn [mbind outcome_bind asHash deref]. rewrite name_hash by done. eexists _, _. split; [done|]. split.
    + split; [|apply Hi|done]. exists (Some tr). split; [by constructor|done].
    + intros ? [= <-]. apply (Hk ltac:(done)). by left.
  - cbn [mbind outcome_bind asHash deref]. rewrite emptyRoot_bytes. eexists _, _. split; [done|]. split; [|done]. split; [|apply Hi|apply Hi]. exists None. split; [constructor|done].
Qed.

Lemma reopen_step db t m : map_encodings m ⊆ D -> inv db t m -> (forall tr, tree_of m = Some tr -> stored K (Node db) tr) ->
  exists t', New (Node db) (root_hash m) = Ret (inr t') /\ inv db t' m.
Proof.
  intros HDm Hi Hst. destruct (inv_root db t m Hi) as [_ Hh]. unfold root_hash, map_encodings in *. destruct (tree_of m) as [tr|] eqn:Et.
  - destruct (inv_sane m tr) as [Hw Hs]; [apply Hi|done|]. assert (Hin : nodeenc K tr ∈ D) by (apply HDm, encodings_self, wf_leafless, Hw).
    destruct HD as [_ Hnz]. rewrite Forall_forall in Hnz. destruct (Hnz _ Hin) as [H0 H1]. unfold New. rewrite !(proj2 (Z.eqb_neq _ _)) by done. cbn [negb andb].
    destruct (resolve_rep K Krange (Node db) tr true 0 [] Hw Hs) as [Hres Hrep]; [by apply Hst|by left|]. unfold name in Hres. rewrite Hres. cbn [ebind mbind outcome_bind].
    eexists. split; [done|]. split; [|apply Hi|apply Hi]. exists (Some tr). split; [by constructor|done].
  - unfold New. rewrite Z.eqb_refl, andb_false_r. eexists. split; [done|]. split; [|apply Hi|apply Hi]. exists None. split; [constructor|done].
Qed.

Lemma exec_step db t m o : op_ok o -> map_encodings m ⊆ D -> inv db t m -> exists db' t', exec onleaf (db, t) o = Ret (db', t', spec_result m o) /\ inv db' t' (spec_map m o).
Proof.
  intros Ho HDm Hi. destruct o as [k|k v|k| | | |l]; cbn [exec spec_result spec_map].
  - destruct (get_step db t m k Ho Hi) as (t' & -> & Hi'). by exists db, t'.
  - unfold TryUpdate. destruct (bool_decide (v = [])) eqn:Ev; bool_to_prop.
    + subst v. change (negb (len (@nil Z) =? 0)) with false. cbv iota. destruct (delete_step db t m k) as (t' & -> & Hi'); [apply Ho|done|]. by exists db, t'.
    + rewrite (proj2 (Z.eqb_neq _ _)) by (by intros ?%len_0). cbn [negb]. destruct (insert_step db t m k v Ho Ev Hi) as (t' & -> & Hi'). by exists db, t'.
  - destruct (delete_step db t m k Ho Hi) as (t' & E & Hi'). unfold TryDelete. rewrite E. by exists db, t'.
  - destruct (hash_step db t m Hi) as (t' & -> & Hi'). by exists db, t'.
  - destruct (commit_step db t m HDm Hi) as (db' & t' & -> & Hi' & _). by exists db', t'.
  - destruct (commit_step db t m HDm Hi) as (db' & t' & -> & Hi' & Hst). destruct (reopen_step db' t' m HDm Hi' Hst) as (t2 & Hn & Hi2). cbn [mbind outcome_bind]. rewrite Hn. by exists db', t2.
  - exists db, (SetCacheLimit t l). split; [done|]. destruct Hi as [(ot & Hr & Hh) Hg Hdb]. split; [by exists ot|done|done].
Qed.

Lemma run_refines os : forall db t m, Forall op_ok os -> run_encodings m os ⊆ D -> inv db t m -> run onleaf (db, t) os = Ret (spec_run m os).
Proof.
  induction os as [|o os IH]; intros db t m Ho HDm Hi; [done|]. apply Forall_cons in Ho as [Ho Hos]. cbn [run_encodings] in HDm.
  destruct (exec_step db t m o) as (db' & t' & He & Hi'); [done|intros e Hin; apply HDm, elem_of_app; by left|done|].
  cbn [run spec_run]. rewrite He. cbn [mbind outcome_bind]. rewrite (IH db' t' (spec_map m o)); [done|done| |done]. intros e Hin. apply HDm, elem_of_app. by right.
Qed.

Lemma run_to_inv os : forall db t m, Forall op_ok os -> run_encodings m os ⊆ D -> inv db t m ->
  exists db' t', run_to onleaf (db, t) os = Ret (db', t') /\ inv db' t' (fold_left spec_map os m).
Proof.
  induction os as [|o os IH]; intros db t m Ho HDm Hi; [by exists db, t|]. apply Forall_cons in Ho as [Ho Hos]. cbn [run_encodings] in HDm.
  destruct (exec_step db t m o) as (db' & t' & He & Hi'); [done|intros e Hin; apply HDm, elem_of_app; by left|done|].
  cbn [run_to fold_left]. rewrite He. cbn [mbind outcome_bind]. apply IH; [done| |done]. intros e Hin. apply HDm, elem_of_app. by right.
Qed.

Lemma inv_empty : inv (NewDatabase ∅) (MkTrie None 0 0 0) ∅.
Proof.
  split; [exists None; split; [constructor|apply holds_empty]|apply map_Forall_empty|]. intros e He. destruct HD as [_ Hnz]. rewrite Forall_forall in Hnz. destruct (Hnz e He) as [H0 _].
  split; [|done]. cbn [nodes NewDatabase]. intros c. by rewrite lookup_singleton_ne by done.
Qed.

End Refinement.

(** The root hash determines the map. *)
Lemma root_hash_inj m1 m2 : (forall b, 0 <= K b < 2 ^ 256) -> good_map m1 -> good_map m2 -> collision_free (map_encodings m1 ++ map_encodings m2) ->
  root_hash m1 = root_hash m2 -> m1 = m2.
Proof.
  intros HK Hg1 Hg2 HD E. pose proof (tree_of_holds m1 Hg1) as Hh1. pose proof (tree_of_holds m2 Hg2) as Hh2.
  assert (Ht : tree_of m1 = tree_of m2).
  { pose proof HD as [_ Hnz]. rewrite Forall_forall in Hnz. unfold root_hash, map_encodings in *. destruct (tree_of m1) as [t1|], (tree_of m2) as [t2|]; [|exfalso..|done].
    - destruct (holds_sane t1 m1 Hg1 Hh1) as [Hw1 Hs1], (holds_sane t2 m2 Hg2 Hh2) as [Hw2 Hs2]. f_equal.
      assert (He : nodeenc K t1 = nodeenc K t2) by (eapply (free_inj _ _ _ HD); [apply elem_of_app; left; apply encodings_self, wf_leafless, Hw1|apply elem_of_app; right; apply encodings_self, wf_leafless, Hw2|done]).
      apply (decoded_inj HK _ HD (size t1) t1 t2); [done|by left|done|by left|done|set_solver|set_solver|]. by apply decode_same.
    - destruct (holds_sane t1 m1 Hg1 Hh1) as [Hw1 _]. apply (Hnz (nodeenc K t1)); [|done]. apply elem_of_app. left. by apply encodings_self, wf_leafless.
    - destruct (holds_sane t2 m2 Hg2 Hh2) as [Hw2 _]. apply (Hnz (nodeenc K t2)); [|done]. apply elem_of_app. right. by apply encodings_self, wf_leafless. }
  apply map_eq. intros k. destruct (decide (is_bytes k)) as [Hk|Hk]; [rewrite <- (holds_get _ _ Hh1 k Hk), <- (holds_get _ _ Hh2 k Hk); by rewrite Ht|].
  assert (Hnone : forall m, good_map m -> m !! k = None) by (intros m Hg; destruct (m !! k) eqn:El; [|done]; by destruct (Hg _ _ El)). by rewrite !Hnone.
Qed.

Lemma final_encodings os : forall m, map_encodings (fold_left spec_map os m) ⊆ run_encodings m os.
Proof. induction os as [|o os IH]; intros m; cbn [run_encodings fold_left]; [set_solver|]. specialize (IH (spec_map m o)). set_solver. Qed.

(** A map with acceptable entries is what its lookups say. *)
Lemma good_map_ext m1 m2 : good_map m1 -> good_map m2 -> (forall k, is_bytes k -> default [] (m1 !! k) = default [] (m2 !! k)) -> m1 = m2.
Proof.
  intros H1 H2 H. apply map_eq. intros k. destruct (decide (is_bytes k)) as [Hk|Hk].
  - specialize (H k Hk). destruct (m1 !! k) as [v1|] eqn:E1, (m2 !! k) as [v2|] eqn:E2; simpl in H; try congruence.
    + subst. by destruct (H1 _ _ E1) as (_ & _ & ? & _).
    + subst. by destruct (H2 _ _ E2) as (_ & _ & ? & _).
  - assert (Hnone : forall m, good_map m -> m !! k = None) by (intros m Hg; destruct (m !! k) eqn:El; [|done]; by destruct (Hg _ _ El)). by rewrite !Hnone.
Qed.

(** ** Claims *)

(** C9: A trie is a finite map whose hash is a function of its contents.  For every
    sequence of lookups, updates, deletions, hashings, commits, changes of the cache limit
    and reopenings from the root hash, starting from an empty trie on an empty database,
    no operation panics or misses a node, lookups and deletions answer as on the map, and
    every hash returned is that of the canonical trie of the map at that moment, whatever
    was cached, unloaded or read back on the way.  [K] is the hash function, free of
    collisions on the encodings of the nodes that occur; the callback for leaves changes
    no stored node. *)
Theorem trie_refines_map onleaf os : (forall b, 0 <= K b < 2 ^ 256) -> (forall f v h d, onleaf = Some f -> same_blobs d (f v h d)) ->
  Forall op_ok os -> collision_free (run_encodings ∅ os) -> run onleaf (NewDatabase ∅, MkTrie None 0 0 0) os = Ret (spec_run ∅ os).
Proof. intros HK Hl Ho HD. apply (run_refines HK (run_encodings ∅ os) HD onleaf Hl os); [done|done|by apply inv_empty]. Qed.

(** C25: The root hash is a function of the contents and commits to them.  Two tries are
    built from empty ones by any two sequences of operations (updates, deletions, lookups,
    hashings, commits, reopenings) on databases of their own; then [Hash] returns the same
    root for both if and only if every lookup gives the same value in both, provided the
    hash function has no collision on the encodings of the nodes that occurred. *)
Theorem root_hash_binds onleaf1 onleaf2 os1 os2 : (forall b, 0 <= K b < 2 ^ 256) ->
  (forall f v h d, onleaf1 = Some f \/ onleaf2 = Some f -> same_blobs d (f v h d)) -> Forall op_ok (os1 ++ os2) ->
  collision_free (run_encodings ∅ os1 ++ run_encodings ∅ os2) ->
  exists db1 t1 u1 h1 db2 t2 u2 h2,
    run_to onleaf1 (NewDatabase ∅, MkTrie None 0 0 0) os1 = Ret (db1, t1) /\ Hash_ K t1 = Ret (u1, h1) /\
    run_to onleaf2 (NewDatabase ∅, MkTrie None 0 0 0) os2 = Ret (db2, t2) /\ Hash_ K t2 = Ret (u2, h2) /\
    (h1 = h2 <-> forall key, is_bytes key -> exists v w1 w2, TryGet (Node db1) t1 key = Ret (w1, inr v) /\ TryGet (Node db2) t2 key = Ret (w2, inr v)).
Proof.
  intros HK Hl Ho HD. apply Forall_app in Ho as [Ho1 Ho2]. set (D := run_encodings ∅ os1 ++ run_encodings ∅ os2) in *.
  assert (Hl1 : forall f v h d, onleaf1 = Some f -> same_blobs d (f v h d)) by (intros; apply Hl; by left). assert (Hl2 : forall f v h d, onleaf2 = Some f -> same_blobs d (f v h d)) by (intros; apply Hl; by right).
  destruct (run_to_inv HK D HD onleaf1 Hl1 os1 (NewDatabase ∅) (MkTrie None 0 0 0) ∅ Ho1 ltac:(subst D; set_solver) (inv_empty D HD)) as (db1 & t1 & E1 & I1).
  destruct (run_to_inv HK D HD onleaf2 Hl2 os2 (NewDatabase ∅) (MkTrie None 0 0 0) ∅ Ho2 ltac:(subst D; set_solver) (inv_empty D HD)) as (db2 & t2 & E2 & I2).
  set (m1 := fold_left spec_map os1 ∅) in *. set (m2 := fold_left spec_map os2 ∅) in *.
  destruct (hash_step HK D HD db1 t1 m1 I1) as (u1 & H1 & _). destruct (hash_step HK D HD db2 t2 m2 I2) as (u2 & H2 & _).
  exists db1, t1, u1, (root_hash m1), db2, t2, u2, (root_hash m2). do 4 (split; [done|]). split.
  - intros E key Hk. assert (m1 = m2) as Em.
    { apply root_hash_inj; [done|apply I1|apply I2| |done]. destruct HD as [Ha Hb]. assert (Hs : map_encodings m1 ++ map_encodings m2 ⊆ D) by (pose proof (final_encodings os1 ∅); pose proof (final_encodings os2 ∅); subst D m1 m2; set_solver).
      split; rewrite Forall_forall in *; [|by eauto]. intros e He. apply Forall_forall. intros e' He'. specialize (Ha e (Hs e He)). rewrite Forall_forall in Ha. by apply Ha, Hs. }
    destruct (get_step HK D db1 t1 m1 key Hk I1) as (w1 & G1 & _). destruct (get_step HK D db2 t2 m2 key Hk I2) as (w2 & G2 & _). rewrite <- Em in G2. by eexists _, w1, w2.
  - intros Hget. f_equal. apply good_map_ext; [apply I1|apply I2|]. intros k Hk. destruct (Hget k Hk) as (v & w1 & w2 & G1 & G2).
    destruct (get_step HK D db1 t1 m1 k Hk I1) as (x1 & F1 & _). destruct (get_step HK D db2 t2 m2 k Hk I2) as (x2 & F2 & _). congruence.
Qed.

End Claims.

(** A hash function for examples. *)
Definition toyK (b : bytes) : Hash := 1 + foldl (fun a x => (a * 31 + x) mod 1000003) 1 b.
Lemma toyK_range b : 0 <= toyK b < 2 ^ 256.
Proof.
  unfold toyK. assert (Hgo : forall a, 0 <= a < 1000003 -> 0 <= foldl (fun a x => (a * 31 + x) mod 1000003) a b < 1000003); [|specialize (Hgo 1); lia].
  induction b as [|x b IH]; intros a Ha; [done|]. apply IH. by apply Z.mod_pos_bound.
Qed.

(** References from leaves to the nodes their values name, as the state does. *)
Definition ref_leaf : LeafCallback := fun v h d => match reference (BytesToHash v) h d with Ret d => d | Panic => d end.
Lemma ref_leaf_same v h d : same_blobs d (ref_leaf v h d).
Proof.
  unfold ref_leaf. destruct (nodes d !! h) as [p|] eqn:E; [destruct (reference_same (BytesToHash v) h d) as (d' & -> & ?); [by rewrite E|done]|].
  unfold reference. rewrite E. by destruct (nodes d !! BytesToHash v).
Qed.

Definition long (x : Z) : bytes := replicate 33 x.
Definition sample_ops : list op :=
  [OUpdate [0x12; 0x34] (long 1); OUpdate [0x12; 0x35] (long 2); OUpdate [0x12] [7]; OHash; OCommit; OGet [0x12; 0x34]; ODelete [0x12; 0x35];
   OReopen; OGet [0x12; 0x35]; OUpdate [0x12] []; OCommit; OGet [0x12; 0x34]].

Lemma trie_refines_map_witness : exists a b c d, run toyK (Some ref_leaf) (NewDatabase ∅, MkTrie None 0 0 0) sample_ops =
  Ret [RDone; RDone; RDone; RRoot a; RRoot b; RValue (long 1); RDone; RRoot c; RValue []; RDone; RRoot d; RValue (long 1)].
Proof.
  do 4 eexists. etransitivity.
  - apply trie_refines_map; [apply toyK_range|intros f v h d [= <-]; apply ref_leaf_same|by repeat constructor; vm_compute|].
    apply (bool_decide_unpack _). vm_compute. exact I.
  - vm_compute. reflexivity.
Defined.

(** The same contents by two ways. *)
Definition way1 : list op := [OUpdate [0x12; 0x34] (long 1); OUpdate [0x12] [7]; OUpdate [0x77] [9]].
Definition way2 : list op := [OUpdate [0x77] [8]; OUpdate [0x12] [7]; OCommit; OUpdate [0x13] [5]; OUpdate [0x77] [9]; OReopen; ODelete [0x13]; OUpdate [0x12; 0x34] (long 1)].
Lemma root_hash_binds_witness : exists db1 t1 u1 db2 t2 u2 h,
  run_to toyK None (NewDatabase ∅, MkTrie None 0 0 0) way1 = Ret (db1, t1) /\ Hash_ toyK t1 = Ret (u1, h) /\
  run_to toyK (Some ref_leaf) (NewDatabase ∅, MkTrie None 0 0 0) way2 = Ret (db2, t2) /\ Hash_ toyK t2 = Ret (u2, h) /\
  forall key, is_bytes key -> exists v w1 w2, TryGet (Node db1) t1 key = Ret (w1, inr v) /\ TryGet (Node db2) t2 key = Ret (w2, inr v).
Proof.
  destruct (root_hash_binds toyK None (Some ref_leaf) way1 way2) as (db1 & t1 & u1 & h1 & db2 & t2 & u2 & h2 & E1 & H1 & E2 & H2 & Hiff).
  - apply toyK_range.
  - intros f v h d [?|[= <-]]; [done|apply ref_leaf_same].
  - by repeat constructor; vm_compute.
  - apply (bool_decide_unpack _). by vm_compute.
  - assert (h1 = h2) as <- by (vm_compute in E1; injection E1 as <- <-; vm_compute in E2; injection E2 as <- <-; vm_compute in H1; injection H1 as _ <-; vm_compute in H2; by injection H2 as _ <-).
    exists db1, t1, u1, db2, t2, u2, h1. do 4 (split; [done|]). by apply Hiff.
Defined.

End TrieClaims.
