(* ===== verification/TrieProof.v ===== *)
(** Merkle proofs ([core/trie/proof.go]): a proof made by [Prove] convinces [VerifyProof],
    and whatever proof convinces it shows what the trie holds. *)

From S2P Require Import Prelude Params Bytes RlpEncode RlpDecode RlpRaw TrieEncoding Trie TrieHasher TrieSpec TrieCodec TrieRefine TrieHashProps TrieClaims.
Import TrieEnc TrieEncProps Trie TrieHash.

Module TrieProof.

(** The nodes on the path to [key], from the root down. *)
Section Prove.
Context (Node : Hash -> option bytes) (cachegen : Z).

Fixpoint path_nodes (fuel : nat) (tn : option node) (key : bytes) : outcome (MissingNodeError + list node) :=
  match fuel with
  | O => Panic
  | S fuel =>
      match key, tn with
      | [], _ | _, None => Ret (inr [])
      | x :: r, Some n =>
          match n with
          | shortNode k v _ =>
              '(tn, key) ← (if bool_decide (take (length k) key = k) then Ret (v, drop (length k) key) else Ret (None, key));
              ns <~ path_nodes fuel tn key; Ret (inr (n :: ns))
          | fullNode cs _ =>
              c ← child cs x;
              ns <~ path_nodes fuel c r; Ret (inr (n :: ns))
          | hashNode h => tn <~ resolveHash Node cachegen h []; path_nodes fuel tn key
          | valueNode _ => Panic
          end
      end
  end.

End Prove.

Section Hasher.
Context (sha : bytes -> Hash).

(** One proof element; [fromLevel] elements are left out. *)
Definition prove_node (i : nat) (n : node) (fromLevel : Z) (proofDb : gmap bytes bytes) : outcome (Z * gmap bytes bytes) :=
  '(_, (n, _)) ← hashChildren (hash sha 0 0 None) n None;
  '(_, hn) ← store sha None n None false;
  let '(hash, ok) := match hn with hashNode h => (h, true) | _ => ([], false) end in
  if ok || bool_decide (i = O) then
    if 0 <? fromLevel then Ret (fromLevel - 1, proofDb)
    else
      r ← Rlp.EncodeToBytes Rlp.TInterface (node_val n);
      let enc := match r with inr b => b | inl _ => [] end in
      let hash := if ok then hash else hash_bytes (sha enc) in
      Ret (fromLevel, <[hash := enc]> proofDb)
  else Ret (fromLevel, proofDb).

Fixpoint prove_nodes (i : nat) (ns : list node) (fromLevel : Z) (proofDb : gmap bytes bytes) : outcome (gmap bytes bytes) :=
  match ns with
  | [] => Ret proofDb
  | n :: ns => '(fromLevel, proofDb) ← prove_node i n fromLevel proofDb; prove_nodes (S i) ns fromLevel proofDb
  end.

Definition Prove (Node : Hash -> option bytes) (t : Trie) (key : bytes) (fromLevel : Z) (proofDb : gmap bytes bytes) : outcome (MissingNodeError + gmap bytes bytes) :=
  let key := keybytesToHex key in
  ns <~ path_nodes Node (cachegen t) (enough key) (root t) key;
  db ← prove_nodes 0 ns fromLevel proofDb;
  Ret (inr db).

End Hasher.

(** [get] walks down embedded nodes. *)
Fixpoint get (n : node) (key : bytes) : outcome (bytes * option node) :=
  match n with
  | shortNode k v _ =>
      if bool_decide (take (length k) key = k) then
        match v with Some n => get n (drop (length k) key) | None => Ret (drop (length k) key, None) end
      else Ret ([], None)
  | fullNode cs _ =>
      match key with
      | [] => Panic
      | x :: r =>
          (fix at_ (cs : list (option node)) (i : nat) : outcome (bytes * option node) :=
             match cs, i with
             | [], _ => Panic
             | c :: _, O => match c with Some n => get n r | None => Ret (r, None) end
             | _ :: cs, S i => at_ cs i
             end) cs (Z.to_nat x)
      end
  | hashNode _ => Ret (key, Some n)
  | valueNode _ => Ret ([], Some n)
  end.

Inductive proof_error := ProofMissing (i : nat) (hash : Hash) | ProofBad (i : nat).

Section Verify.
Context (proofDb : Hash -> option bytes).

(** The result is a value, which is empty if the proof shows that there is none, and the
    number of proof elements used. *)
Fixpoint verify_loop (fuel : nat) (i : nat) (wantHash : Hash) (key : bytes) : outcome ((proof_error + bytes) * nat) :=
  match fuel with
  | O => Panic
  | S fuel =>
      match proofDb wantHash with
      | None => Ret (inl (ProofMissing i wantHash), i)
      | Some buf =>
          r ← decodeNode (length buf) (Some (hash_bytes wantHash)) buf 0;
          match r with
          | inl _ => Ret (inl (ProofBad i), i)
          | inr n =>
              '(keyrest, cld) ← (match n with Some n => get n key | None => Ret (key, None) end);
              match cld with
              | None => Ret (inr [], i)
              | Some (hashNode h) => verify_loop fuel (S i) (BytesToHash h) keyrest
              | Some (valueNode v) => Ret (inr v, S i)
              | Some _ => Panic
              end
          end
      end
  end.

Definition VerifyProof (rootHash : Hash) (key : bytes) : outcome ((proof_error + bytes) * nat) :=
  let key := keybytesToHex key in verify_loop (S (length key)) 0 rootHash key.

End Verify.

End TrieProof.

Module TrieProofProps.
Import TrieProof TrieSpec TrieCodec TrieRefine TrieHashProps TrieClaims.

(** The trees on the path to a key. *)
Fixpoint tpath (t : tree) (key : bytes) : list tree :=
  match t with
  | Leaf _ => []
  | Short k t' => t :: match strip k key with Some r => tpath t' r | None => [] end
  | Full cs =>
      t :: match key with
           | [] => []
           | x :: r =>
               (fix at_ (cs : list (option tree)) (i : nat) : list tree :=
                  match cs, i with
                  | [], _ => []
                  | c :: _, O => match c with Some t => tpath t r | None => [] end
                  | _ :: cs, S i => at_ cs i
                  end) cs (Z.to_nat x)
           end
  end.
Definition tpath_opt (c : option tree) (key : bytes) : list tree := match c with Some t => tpath t key | None => [] end.

Lemma tpath_full cs x r c : cs !! Z.to_nat x = Some c -> tpath (Full cs) (x :: r) = Full cs :: tpath_opt c r.
Proof. cbn [tpath]. generalize (Z.to_nat x) as i. intros i Hc. f_equal. revert i Hc. induction cs as [|d cs IH]; intros [|i] Hc; try done; [by injection Hc as ->|by apply IH]. Qed.
Lemma tpath_in k t r : tpath (Short k t) (k ++ r) = Short k t :: tpath t r.
Proof. cbn [tpath]. by rewrite strip_app. Qed.
Lemma tpath_out p (a : Z) ra b rb t : a <> b -> tpath (Short (p ++ b :: rb) t) (p ++ a :: ra) = [Short (p ++ b :: rb) t].
Proof.
  intros Hab. cbn [tpath]. destruct (strip (p ++ b :: rb) (p ++ a :: ra)) as [r|] eqn:E; [|done]. apply strip_Some in E. rewrite <- app_assoc in E. apply app_inv_head in E. by simplify_eq/=.
Qed.
Lemma tpath_self t key : leafless t -> t ∈ tpath t key.
Proof. destruct t; [done|..]; intros _; cbn [tpath]; by apply elem_of_cons; left. Qed.

Lemma get_full_at ns f x r c : ns !! Z.to_nat x = Some c -> TrieProof.get (fullNode ns f) (x :: r) = match c with Some n => TrieProof.get n r | None => Ret (r, None) end.
Proof. cbn [TrieProof.get]. generalize (Z.to_nat x) as i. intros i. revert i. induction ns as [|d ns IH]; intros [|i] Hc; try done; [by injection Hc as ->|by apply IH]. Qed.

Section Props.
Context (K : bytes -> Hash) (Krange : forall b, 0 <= K b < 2 ^ 256).

Abbreviation nodeenc := (nodeenc K).

(** Where [get] stops in a tree read from one proof element. *)
Definition stops (t : tree) (key : bytes) (r : outcome (bytes * option node)) : Prop :=
  (exists rest v, r = Ret (rest, Some (valueNode v)) /\ TrieSpec.get t key = Some v) \/
  (exists rest, r = Ret (rest, None) /\ TrieSpec.get t key = None) \/
  (exists rest s, r = Ret (rest, Some (hashNode (name K s))) /\ wf s /\ sane s /\ hexkey rest /\ (length rest < length key)%nat /\ 32 <= len (nodeenc s) /\
     TrieSpec.get t key = TrieSpec.get s rest /\ tpath s rest ⊆ tpath t key).

Lemma stops_longer t t' key key' r : TrieSpec.get t' key' = TrieSpec.get t key -> (length key <= length key')%nat -> tpath t key ⊆ tpath t' key' -> stops t key r -> stops t' key' r.
Proof.
  intros Hg Hl Hp [(rest & v & -> & Hv)|[(rest & -> & Hn)|(rest & s & -> & Hw & Hs & Hk & Hlr & Hle & E & Hsub)]].
  - left. exists rest, v. by rewrite Hg.
  - right; left. exists rest. by rewrite Hg.
  - right; right. exists rest, s. split_and!; try done; [lia|congruence|by etransitivity].
Qed.

Lemma dref_stops n t key : (forall h key, (size t <= n)%nat -> keyed t key -> sane t -> stops t key (TrieProof.get (decoded K h 0 t) key)) ->
  (size t <= n)%nat -> keyed t key -> sane t -> forall t' key', TrieSpec.get t' key' = TrieSpec.get t key -> (length key < length key')%nat -> tpath t key ⊆ tpath t' key' ->
  stops t' key' (TrieProof.get (dref K (decoded K None 0) t) key).
Proof.
  intros IH Hn Hk Hs t' key' Hg Hl Hp. assert (Hemb : stops t' key' (TrieProof.get (decoded K None 0 t) key)) by (eapply stops_longer; [exact Hg|lia|exact Hp|by apply IH]).
  destruct Hk as [[Hw Hhex]|(v & -> & _ & ->)]; [|done]. rewrite dref_wf by done. destruct (len (nodeenc t) <? 32) eqn:E; [done|]. bool_to_prop.
  right; right. exists key, t. split_and!; try done; lia.
Qed.

Lemma get_decoded n : forall t h key, (size t <= n)%nat -> keyed t key -> sane t -> stops t key (TrieProof.get (decoded K h 0 t) key).
Proof.
  induction n as [|n IH]; intros t h key Hn Hk Hs; [pose proof (size_pos t); lia|]. destruct Hk as [[Hw Hk]|(v & -> & _ & ->)]; [|left; by exists [], v].
  destruct t as [v|k t|cs]; [by apply wf_not_leaf in Hw| |]; cbn [decoded].
  - pose proof (wf_short_inv _ _ Hw) as [Hne _]. cbn [TrieProof.get]. destruct (short_cases k t key Hw Hk) as [(r & -> & Hr)|(p & a & ra & b & rb & Hab & -> & -> & _)].
    + rewrite take_app_length, bool_decide_true, drop_app_length by done. eapply (dref_stops n t r); [intros h' key' ? ? ?; by apply IH|simpl in Hn; lia|by eapply keyed_short|by eapply sane_short_inv| | |].
      * cbn [TrieSpec.get]. by rewrite strip_app.
      * rewrite length_app. destruct k; [done|]. simpl. lia.
      * rewrite tpath_in. intros s Hin. by apply elem_of_cons; right.
    + rewrite bool_decide_false by (by apply not_prefix). right; left. exists []. split; [done|]. by apply get_out.
  - pose proof (proj1 (wf_full_iff cs) Hw) as (Hl & _). destruct key as [|x r]; [by apply hexkey_nil in Hk|]. pose proof (hexkey_head _ _ Hk).
    destruct (lookup_lt_is_Some_2 cs (Z.to_nat x)) as [c Hc]; [lia|]. assert (Hm : map (option_map (dref K (decoded K None 0))) cs !! Z.to_nat x = Some (option_map (dref K (decoded K None 0)) c)).
    { change (map ?f cs) with (f <$> cs). by rewrite list_lookup_fmap, Hc. }
    rewrite (get_full_at _ _ _ _ _ Hm). destruct c as [t|]; cbn [option_map].
    + eapply (dref_stops n t r); [intros h' key' ? ? ?; by apply IH|pose proof (size_child cs _ t Hc); lia|by eapply keyed_child|by eapply sane_full_inv| |simpl; lia|].
      * by rewrite get_full, Hc.
      * rewrite (tpath_full _ _ _ _ Hc). intros s Hin. by apply elem_of_cons; right.
    + right; left. exists r. split; [done|]. by rewrite get_full, Hc.
Qed.

(** A proof database that holds nothing but the right elements, perhaps not all. *)
Definition honest (P : Hash -> option bytes) (s : tree) : Prop := forall b, P (K (nodeenc s)) = Some b -> b = nodeenc s.

Lemma verify_spec P fuel : forall i t key, wf t -> sane t -> hexkey key -> (length key < fuel)%nat -> Forall (honest P) (tpath t key) ->
  exists r j, verify_loop P fuel i (K (nodeenc t)) key = Ret (r, j) /\
    match r with
    | inr v => v = default [] (TrieSpec.get t key)
    | inl (ProofMissing _ h) => P h = None /\ exists s, s ∈ tpath t key /\ h = K (nodeenc s) /\ (s = t \/ 32 <= len (nodeenc s))
    | inl (ProofBad _) => False
    end.
Proof.
  induction fuel as [|fuel IH]; intros i t key Hw Hs Hk Hf HP; [lia|]. cbn [verify_loop]. pose proof (tpath_self t key (wf_leafless t Hw)) as Hself.
  destruct (P (K (nodeenc t))) as [buf|] eqn:EP; [|eexists _, _; split; [done|]; simpl; split; [done|]; exists t; split_and!; [done|done|by left]].
  assert (buf = nodeenc t) as -> by (rewrite Forall_forall in HP; by apply (HP t Hself)).
  destruct (enc_good K (size t) t) as (_ & Hl & _); [done|by left|done|].
  pose proof (decode_enc K (size t) t (length (nodeenc t)) (Some (hash_bytes (K (nodeenc t)))) 0 []) as Hd. rewrite app_nil_r in Hd. rewrite Hd; [|done..|lia]. cbn [mbind outcome_bind].
  destruct (get_decoded (size t) t (Some (hash_bytes (K (nodeenc t)))) key) as [(rest & v & -> & Hv)|[(rest & -> & Hn)|(rest & s & -> & Hws & Hss & Hks & Hlr & Hle & Hg & Hsub)]]; [done|by left|done|..];
    cbn [mbind outcome_bind].
  - eexists _, _. split; [done|]. by rewrite Hv.
  - eexists _, _. split; [done|]. by rewrite Hn.
  - rewrite name_hash by done. destruct (IH (S i) s rest) as (r & j & -> & Hr); [done|done|done|lia|apply Forall_forall; intros u Hu; rewrite Forall_forall in HP; by apply HP, Hsub|]. exists r, j. split; [done|]. rewrite Hg.
    destruct r as [[i' h|]|v]; [|done|done]. destruct Hr as (Hp & u & Hu & -> & Hor). split; [done|]. exists u. split_and!; [by apply Hsub|done|]. right. destruct Hor as [->|]; [done|done].
Qed.

(** ** Making a proof *)

Lemma tpath_wf n : forall t key, (size t <= n)%nat -> keyed t key -> sane t -> Forall (fun s => wf s /\ sane s /\ nodeenc s ∈ encodings K t) (tpath t key).
Proof.
  induction n as [|n IH]; intros t key Hn Hk Hs; [pose proof (size_pos t); lia|]. destruct Hk as [[Hw Hk]|(v & -> & _)]; [|constructor].
  assert (Hhead : wf t /\ sane t /\ nodeenc t ∈ encodings K t) by (split_and!; [done|done|by apply encodings_self, wf_leafless]).
  destruct t as [v|k t|cs]; [by apply wf_not_leaf in Hw| |].
  - destruct (short_cases k t key Hw Hk) as [(r & -> & Hr)|(p & a & ra & b & rb & Hab & -> & -> & _)]; [|rewrite tpath_out by done; constructor; [done|constructor]].
    rewrite tpath_in. constructor; [done|]. eapply Forall_impl; [apply (IH t r); [simpl in Hn; lia|by eapply keyed_short|by eapply sane_short_inv]|].
    intros s (? & ? & Hin). split_and!; [done|done|]. by apply elem_of_cons; right.
  - pose proof (proj1 (wf_full_iff cs) Hw) as (Hl & _). destruct key as [|x r]; [by apply hexkey_nil in Hk|]. pose proof (hexkey_head _ _ Hk).
    destruct (lookup_lt_is_Some_2 cs (Z.to_nat x)) as [c Hc]; [lia|]. rewrite (tpath_full _ _ _ _ Hc). constructor; [done|]. destruct c as [t|]; [|constructor]. cbn [tpath_opt].
    eapply Forall_impl; [apply (IH t r); [pose proof (size_child cs _ t Hc); lia|by eapply keyed_child|by eapply sane_full_inv]|].
    intros s (? & ? & Hin). split_and!; [done|done|]. apply elem_of_cons. right. apply list_elem_of_bind. exists (Some t). split; [done|by eapply list_elem_of_lookup_2].
Qed.

Definition path_rep (N : Hash -> option bytes) (n : node) (s : tree) : Prop := (exists top, rep K N top n s) /\ is_hash n = false.

Lemma path_nodes_nil N gen fuel key : path_nodes N gen (S fuel) None key = Ret (inr []).
Proof. by destruct key. Qed.

Lemma path_nodes_sim N gen fuel : forall top n t key, rep K N top n t -> sane t -> keyed t key -> (need n key <= fuel)%nat ->
  exists ns, path_nodes N gen fuel (Some n) key = Ret (inr ns) /\ Forall2 (path_rep N) ns (tpath t key).
Proof.
  induction fuel as [|fuel IH]; intros top n t key Hr Hs Hk Hf; [unfold need in Hf; destruct (is_hash n); lia|].
  destruct Hk as [[Hw Hk]|(v & -> & _ & ->)]; [|exists []; split; [done|constructor]]. destruct key as [|x r]; [by apply hexkey_nil in Hk|].
  pose proof Hr as Hr0. destruct Hr0 as [top t Ht Htop Hst|top w|top k m t f Hm Hfl|top ns cs f HF Hfl]; cbn [path_nodes].
  - destruct (resolve_rep K Krange N t top gen [] Hw Hs Hst Htop) as [Hres Hrep]. rewrite Hres. cbn [ebind mbind outcome_bind].
    apply (IH top _ t (x :: r) Hrep Hs); [by left|unfold need in *; rewrite decoded_loaded; simpl in Hf |- *; lia].
  - by apply wf_not_leaf in Hw.
  - pose proof (wf_short_inv _ _ Hw) as [Hne _]. destruct (short_cases k t (x :: r) Hw Hk) as [(r' & E & Hr')|(p & a & ra & b & rb & Hab & E & -> & _)]; rewrite E.
    + rewrite take_app_length, bool_decide_true, drop_app_length by done. cbn [mbind outcome_bind].
      destruct (IH false m t r' Hm) as (ns & -> & Hns); [by eapply sane_short_inv|by eapply keyed_short| |].
      { unfold need in *. rewrite E, length_app in Hf. simpl in Hf. destruct k; [done|]. simpl in Hf. destruct (is_hash m); lia. }
      cbn [ebind mbind outcome_bind]. eexists. split; [done|]. rewrite tpath_in. constructor; [|done]. split; [by exists top|done].
    + rewrite bool_decide_false by (by apply not_prefix). cbn [mbind outcome_bind]. unfold need in Hf. simpl in Hf. destruct fuel as [|fuel]; [lia|].
      rewrite path_nodes_nil. cbn [ebind mbind outcome_bind]. eexists. split; [done|]. rewrite tpath_out by done. constructor; [|constructor]. split; [by exists top|done].
  - pose proof (proj1 (wf_full_iff cs) Hw) as (Hl & _). pose proof (hexkey_head _ _ Hk). destruct (children_at K N ns cs x HF) as (a & c & Hch & Ha & Hc & Hac); [lia|].
    rewrite Hch. cbn [mbind outcome_bind]. rewrite (tpath_full _ _ _ _ Hc). destruct Hac as [m s Hms|].
    + destruct (IH false m s r Hms) as (l & -> & Hl'); [by eapply sane_full_inv|by eapply keyed_child| |].
      { unfold need in *. simpl in Hf. destruct (is_hash m); lia. }
      cbn [ebind mbind outcome_bind]. eexists. split; [done|]. constructor; [|done]. split; [by exists top|done].
    + unfold need in Hf. simpl in Hf. destruct fuel as [|fuel]; [lia|]. rewrite path_nodes_nil. cbn [ebind mbind outcome_bind]. eexists. split; [done|]. constructor; [|constructor]. split; [by exists top|done].
Qed.

Lemma prove_node_sim N i n s pdb : path_rep N n s -> wf s -> sane s ->
  prove_node K i n 0 pdb = Ret (0, if decide (i = 0%nat \/ 32 <= len (nodeenc s)) then <[name K s := nodeenc s]> pdb else pdb).
Proof.
  intros [[top Hr] Hh] Hw Hs.
  destruct (collapse_all K Krange 0 0 None ltac:(done) [] ltac:(intros ? ? Hin; by apply not_elem_of_nil in Hin) top n None s N) as (f & Hnf & Hfl & db1 & c & cached & N1 & Hc & Hg & Hcache & Hch & Henc & _); try done; [by intros [? ?]|].
  destruct Hg as (_ & _ & Hg). destruct db1; [done|]. destruct (enc_good K (size s) s) as (_ & Hl & _); [done|by left|done|].
  destruct (store_sim K Krange 0 None ltac:(done) [] ltac:(intros ? ? Hin; by apply not_elem_of_nil in Hin) c s false None N) as (db' & hashed & N' & Hst & _ & Href & _); try done; [lia| |by right|].
  { rewrite Hcache. intros h Hfh. destruct Hfl as [Hfl _]. by destruct (Hfl h Hfh) as (-> & _). }
  unfold prove_node. rewrite Hc. cbn [mbind outcome_bind]. rewrite Hst. cbn [mbind outcome_bind].
  pose proof (RlpEncodeProps.EncodeToBytes_enc Rlp.TInterface (node_val c) (nodeenc s) Henc ltac:(lia)) as Hen. unfold href in Href. destruct (decide (hashes K false s)) as [Hd|Hd].
  - subst hashed. cbn [orb]. change (0 <? 0) with false. cbv iota. rewrite Hen. cbn [mbind outcome_bind]. rewrite decide_True; [done|]. destruct Hd; [done|by right].
  - destruct Href as [Hnh _]. assert (Hns : ~ 32 <= len (nodeenc s)) by (intros ?; by apply Hd; right).
    assert (Hm : match hashed with hashNode h => (h, true) | _ => ([], false) end = ([], false)) by (by destruct hashed). rewrite Hm. cbn [orb].
    destruct (decide (i = 0%nat)) as [->|Hi].
    + rewrite bool_decide_true by done. change (0 <? 0) with false. cbv iota. rewrite Hen. cbn [mbind outcome_bind]. rewrite decide_True by (by left). done.
    + rewrite bool_decide_false by done. rewrite decide_False by tauto. done.
Qed.

(** The elements of a proof. *)
Lemma prove_nodes_sim N (SS : list tree) ns ss i pdb : (forall s s', s ∈ SS -> s' ∈ SS -> K (nodeenc s) = K (nodeenc s') -> nodeenc s = nodeenc s') ->
  Forall2 (path_rep N) ns ss -> Forall (fun s => wf s /\ sane s) ss -> ss ⊆ SS -> (forall s b, s ∈ SS -> pdb !! name K s = Some b -> b = nodeenc s) ->
  exists pdb', prove_nodes K i ns 0 pdb = Ret pdb' /\ (forall k b, pdb !! k = Some b -> exists b', pdb' !! k = Some b') /\
    (forall s b, s ∈ SS -> pdb' !! name K s = Some b -> b = nodeenc s) /\ (forall j s, ss !! j = Some s -> (i + j)%nat = 0%nat \/ 32 <= len (nodeenc s) -> is_Some (pdb' !! name K s)).
Proof.
  intros Hinj HF. revert i pdb. induction HF as [|n s ns ss Hn HF IH]; intros i pdb HW Hsub Hok; cbn [prove_nodes].
  - exists pdb. split_and!; [done|eauto|done|done].
  - apply Forall_cons in HW as [[Hw Hs] HW]. rewrite (prove_node_sim N i n s pdb Hn Hw Hs). cbn [mbind outcome_bind]. set (pdb1 := if decide _ then _ else _).
    assert (Hok1 : forall u b, u ∈ SS -> pdb1 !! name K u = Some b -> b = nodeenc u).
    { intros u b Hu. unfold pdb1. case_decide; [|by apply Hok]. intros [[E <-]|[_ Hb]]%lookup_insert_Some; [|by apply Hok]. apply Hinj; [apply Hsub; by apply elem_of_cons; left|done|].
      apply (f_equal BytesToHash) in E. by rewrite !name_hash in E by done. }
    assert (Hmono : forall k b, pdb !! k = Some b -> exists b', pdb1 !! k = Some b').
    { intros k b Hb. unfold pdb1. case_decide; [|eauto]. destruct (decide (name K s = k)) as [<-|Hne]; [rewrite lookup_insert_eq; eauto|rewrite lookup_insert_ne by done; eauto]. }
    destruct (IH (S i) pdb1) as (pdb' & -> & H1 & H2 & H3); [done|intros u Hu; apply Hsub; by apply elem_of_cons; right|done|].
    assert (Hs1 : i = 0%nat \/ 32 <= len (nodeenc s) -> is_Some (pdb' !! name K s)).
    { intros Hd. destruct (H1 (name K s) (nodeenc s)) as [b' Hb']; [unfold pdb1; rewrite decide_True by done; by rewrite lookup_insert_eq|]. by exists b'. }
    exists pdb'. split_and!; [done| |done|].
    + intros k b Hb. destruct (Hmono k b Hb) as [b1 Hb1]. by eapply H1.
    + intros [|j] u Hu Hor; [injection Hu as <-; apply Hs1; by rewrite Nat.add_0_r in Hor|]. apply (H3 j u Hu). destruct Hor; [lia|by right].
Qed.

Lemma tree_of_nonempty m : good_map m -> m <> ∅ -> exists t, tree_of m = Some t.
Proof.
  intros Hg Hm. destruct (tree_of m) as [t|] eqn:E; [by exists t|]. destruct Hm. apply map_empty. intros k. destruct (m !! k) as [v|] eqn:Ek; [|done].
  destruct (Hg k v Ek) as [Hk _]. pose proof (holds_get _ _ (tree_of_holds m Hg) k Hk) as Hl. rewrite E in Hl. simpl in Hl. congruence.
Qed.

(** Verification against the root of a tree, for any honest proof database. *)
Lemma VerifyProof_spec P t key : wf t -> sane t -> is_bytes key -> Forall (honest P) (tpath t (keybytesToHex key)) ->
  exists r j, VerifyProof P (K (nodeenc t)) key = Ret (r, j) /\
    match r with
    | inr v => v = default [] (TrieSpec.get t (keybytesToHex key))
    | inl (ProofMissing _ h) => P h = None /\ exists s, s ∈ tpath t (keybytesToHex key) /\ h = K (nodeenc s) /\ (s = t \/ 32 <= len (nodeenc s))
    | inl (ProofBad _) => False
    end.
Proof. intros Hw Hs Hk HP. apply verify_spec; [done|done|by apply hexkey_keybytes|lia|done]. Qed.

Lemma Prove_spec N gen top n t lim orig key : rep K N top n t -> wf t -> sane t -> is_bytes key -> (forall e e', e ∈ encodings K t -> e' ∈ encodings K t -> K e = K e' -> e = e') ->
  exists pdb, Prove K N (MkTrie (Some n) orig gen lim) key 0 ∅ = Ret (inr pdb) /\ Forall (honest (fun h => pdb !! hash_bytes h)) (tpath t (keybytesToHex key)) /\
    forall s, s ∈ tpath t (keybytesToHex key) -> s = t \/ 32 <= len (nodeenc s) -> is_Some (pdb !! name K s).
Proof.
  intros Hr Hw Hs Hk Hinj. pose proof (hexkey_keybytes key Hk) as Hhex. set (k := keybytesToHex key) in *.
  pose proof (tpath_wf (size t) t k ltac:(done) ltac:(by left) Hs) as HW. rewrite Forall_forall in HW.
  destruct (path_nodes_sim N gen (enough k) top n t k Hr Hs) as (ns & Hns & HF); [by left|apply enough_need|].
  destruct (prove_nodes_sim N (tpath t k) ns (tpath t k) 0 ∅) as (pdb & Hp & _ & Hhon & Hall); [|done| |done| |].
  { intros s s' Hin Hin' E. apply Hinj; [apply (HW s Hin)|apply (HW s' Hin')|done]. }
  { apply Forall_forall. intros s Hin. by destruct (HW s Hin) as (? & ? & _). }
  { intros s b _ Hb. by rewrite lookup_empty in Hb. }
  exists pdb. split; [unfold Prove; fold k; cbn [Trie.cachegen Trie.root]; rewrite Hns; cbn [ebind mbind outcome_bind]; by rewrite Hp|]. split.
  - apply Forall_forall. intros s Hin b Hb. by apply Hhon.
  - intros s Hin Hor. destruct Hor as [->|Hle].
    + apply (Hall 0%nat); [|by left]. by destruct t; [apply wf_not_leaf in Hw|..].
    + apply list_elem_of_lookup in Hin as [j Hj]. apply (Hall j s Hj). by right.
Qed.

End Props.

(** C10: Merkle proofs are complete and sound.  For a trie that stands for a nonempty map:
    [Prove] returns, and [VerifyProof] of its elements against the root hash returns the
    value of the key, or the empty value if there is none; and whatever set of elements,
    each stored under its hash, makes [VerifyProof] return a value, it is that value. *)
Theorem merkle_proofs K D db t m key : (forall b, 0 <= K b < 2 ^ 256) -> collision_free K D -> map_encodings K m ⊆ D -> inv K D db t m -> m <> ∅ -> is_bytes key ->
  (exists pdb j, Prove K (TrieDb.Node db) t key 0 ∅ = Ret (inr pdb) /\ VerifyProof (fun h => pdb !! hash_bytes h) (root_hash K m) key = Ret (inr (default [] (m !! key)), j)) /\
  (forall P v j, (forall h b, P h = Some b -> K b = h) -> (forall h b e, P h = Some b -> e ∈ map_encodings K m -> K b = K e -> b = e) ->
     VerifyProof P (root_hash K m) key = Ret (inr v, j) -> v = default [] (m !! key)).
Proof.
  intros HK HD Hsub Hi Hm Hk. pose proof (inv_map _ _ _ _ _ Hi) as Hg. destruct (tree_of_nonempty m Hg Hm) as [tr Et]. destruct (inv_root K D db t m Hi) as [Hr Hh].
  rewrite Et in Hr, Hh. destruct (holds_sane tr m Hg Hh) as [Hw Hs]. pose proof (holds_get _ _ Hh key Hk) as Hget. cbn [lookup] in Hget. unfold map_encodings, root_hash in *. rewrite Et in *. rewrite <- Hget.
  split.
  - destruct t as [rt orig gen lim]. cbn [root] in Hr. inversion Hr as [n ? Hn|]; subst.
    destruct (Prove_spec K HK (TrieDb.Node db) gen true n tr lim orig key Hn Hw Hs Hk) as (pdb & Hp & Hhon & Hall); [intros e e' He He'; apply (free_inj K D); [done|by apply Hsub..]|].
    destruct (VerifyProof_spec K HK (fun h => pdb !! hash_bytes h) tr key Hw Hs Hk Hhon) as (r & j & Hv & Hr'). exists pdb, j. split; [done|]. rewrite Hv.
    destruct r as [[i h|]|v]; [|done|by rewrite Hr']. destruct Hr' as (Hnone & s & Hin & -> & Hor). destruct (Hall s Hin Hor) as [b Hb]. unfold name in Hb. congruence.
  - intros P v j HP Hcol Hv. pose proof (tpath_wf K HK (size tr) tr (keybytesToHex key) ltac:(done) ltac:(left; split; [done|by apply hexkey_keybytes]) Hs) as HW.
    destruct (VerifyProof_spec K HK P tr key Hw Hs Hk) as (r & j' & Hv' & Hr').
    { eapply Forall_impl; [exact HW|]. intros s (_ & _ & Hin) b Hb. eapply Hcol; [exact Hb|exact Hin|by apply HP]. }
    rewrite Hv' in Hv. injection Hv as -> ->. done.
Qed.

Definition proof_map : gmap bytes bytes := {[ [0x12] := [7] ]}.
Lemma merkle_proofs_witness : exists db t pdb j, exec toyK None (TrieDb.NewDatabase ∅, MkTrie None 0 0 0) (OUpdate [0x12] [7]) = Ret (db, t, RDone) /\
  Prove toyK (TrieDb.Node db) t [0x12] 0 ∅ = Ret (inr pdb) /\ VerifyProof (fun h => pdb !! hash_bytes h) (root_hash toyK proof_map) [0x12] = Ret (inr [7], j).
Proof.
  assert (HD : collision_free toyK (map_encodings toyK proof_map)) by (apply (bool_decide_unpack _); by vm_compute).
  destruct (exec_step toyK toyK_range (map_encodings toyK proof_map) HD None ltac:(done) (TrieDb.NewDatabase ∅) (MkTrie None 0 0 0) ∅ (OUpdate [0x12] [7])) as (db & t & He & Hi);
    [by repeat constructor; vm_compute|by intros e He; apply not_elem_of_nil in He|by apply inv_empty|].
  destruct (merkle_proofs toyK (map_encodings toyK proof_map) db t proof_map [0x12] toyK_range HD ltac:(done) Hi ltac:(done) ltac:(by repeat constructor)) as [(pdb & j & Hp & Hv) _].
  by exists db, t, pdb, j.
Defined.

End TrieProofProps.
