(* ===== verification/TriePersist.v ===== *)
(** Flushing the memory database of tries to disk and collecting what is no longer
    referenced ([core/trie/database.go]). *)

From S2P Require Import Prelude Params Bytes RlpEncode RlpDecode RlpRaw TrieEncoding Trie TrieHasher.
Import TrieDb.

Module TriePersist.

Definition IdealBatchSize : Z := 100 * 1024.

(** A batch collects writes; writing it applies all of them or fails and applies none. *)
Record Batch := MkBatch { writes : list (bytes * bytes); bsize : Z }.
Definition NewBatch : Batch := MkBatch [] 0.
Definition batch_Put (k v : bytes) (b : Batch) : Batch := MkBatch (writes b ++ [(k, v)]) (bsize b + len v).
Definition apply_writes (ws : list (bytes * bytes)) (disk : gmap bytes bytes) : gmap bytes bytes := foldl (fun d kv => <[kv.1 := kv.2]> d) disk ws.

(** The batch, the disk, and how many times a batch was written. *)
Record writer := MkWriter { w_batch : Batch; w_disk : gmap bytes bytes; w_count : nat }.
Definition put (k v : bytes) (w : writer) : writer := MkWriter (batch_Put k v (w_batch w)) (w_disk w) (w_count w).

(** What [Commit] returns: nil, or an error with the lock given back or not. *)
Inductive commit_result := Committed | WriteFailed (unlocked : bool).

Section Persist.
(** Go iterates over maps in an unspecified order; the disk may refuse a write. *)
Context (order : list Hash -> list Hash) (fails : nat -> bool).

Definition keys {A} (m : gmap Hash A) : list Hash := order (map_to_list m).*1.

(** [Write], then [Reset] when it succeeds; the flag is the error. *)
Definition flush (w : writer) : writer * bool :=
  if fails (w_count w) then (MkWriter (w_batch w) (w_disk w) (S (w_count w)), true)
  else (MkWriter NewBatch (apply_writes (writes (w_batch w)) (w_disk w)) (S (w_count w)), false).

(** A loop that stops at the first error. *)
Fixpoint each {S A} (f : A -> S -> outcome (S * bool)) (l : list A) (s : S) : outcome (S * bool) :=
  match l with
  | [] => Ret (s, false)
  | x :: l => '(s, err) ← f x s; if err : bool then Ret (s, true) else each f l s
  end.

Fixpoint commit (fuel : nat) (db : Database) (hash : Hash) (w : writer) : outcome (writer * bool) :=
  match fuel with
  | O => Panic
  | S fuel =>
      match nodes db !! hash with
      | None => Ret (w, false)
      | Some node =>
          '(w, err) ← each (commit fuel db) (keys (children node)) w;
          if err : bool then Ret (w, true) else
          let w := put (hash_bytes hash) (default [] (blob node)) w in
          if IdealBatchSize <=? bsize (w_batch w) then Ret (flush w) else Ret (w, false)
      end
  end.

Definition remove (hash : Hash) (node : cachedNode) (db : Database) : Database :=
  MkDb (diskdb db) (base.delete hash (nodes db)) (preimages db) (nodesSize db - (32 + len (default [] (blob node)))) (preimagesSize db).

Fixpoint uncache (fuel : nat) (hash : Hash) (db : Database) : outcome Database :=
  match fuel with
  | O => Panic
  | S fuel =>
      match nodes db !! hash with
      | None => Ret db
      | Some node =>
          '(db, _) ← each (fun child db => db ← uncache fuel child db; Ret (db, false)) (keys (children node)) db;
          Ret (remove hash node db)
      end
  end.

Definition put_preimage (pre : gmap Hash bytes) (h : Hash) (w : writer) : outcome (writer * bool) :=
  let w := put (secureKey (hash_bytes h)) (default [] (pre !! h)) w in
  if IdealBatchSize <? bsize (w_batch w) then Ret (flush w) else Ret (w, false).

Definition with_disk (disk : gmap bytes bytes) (db : Database) : Database := MkDb disk (nodes db) (preimages db) (nodesSize db) (preimagesSize db).

(** A path visits every node at most once. *)
Definition depth (db : Database) : nat := S (size (nodes db)).

Definition Commit (db : Database) (node : Hash) : outcome (Database * commit_result) :=
  '(w, err) ← each (put_preimage (preimages db)) (keys (preimages db)) (MkWriter NewBatch (diskdb db) 0);
  if err : bool then Ret (with_disk (w_disk w) db, WriteFailed false) else
  '(w, err) ← commit (depth db) db node w;
  if err : bool then Ret (with_disk (w_disk w) db, WriteFailed true) else
  let '(w, err) := flush w in
  if err : bool then Ret (with_disk (w_disk w) db, WriteFailed true) else
  let db := MkDb (w_disk w) (nodes db) ∅ (nodesSize db) 0 in
  db ← uncache (depth db) node db;
  Ret (db, Committed).

(** A reference that is not there becomes a negative count. *)
Definition drop_child (child : Hash) (m : gmap Hash Z) : gmap Hash Z :=
  let n := default 0 (m !! child) - 1 in
  if n =? 0 then base.delete child m else <[child := n]> m.

Fixpoint dereference (fuel : nat) (child parent : Hash) (db : Database) : outcome Database :=
  match fuel with
  | O => Panic
  | S fuel =>
      p ← deref (nodes db !! parent);
      let db := set_nodes <[parent := MkCached (blob p) (parents p) (drop_child child (children p))]> db in
      match nodes db !! child with
      | None => Ret db
      | Some node =>
          let db := set_nodes <[child := MkCached (blob node) (parents node - 1) (children node)]> db in
          if parents node - 1 =? 0 then
            '(db, _) ← each (fun hash db => db ← dereference fuel hash child db; Ret (db, false)) (keys (children node)) db;
            Ret (remove child node db)
          else Ret db
      end
  end.

Definition Dereference (child parent : Hash) (db : Database) : outcome Database := dereference (depth db) child parent db.

End Persist.

End TriePersist.

Module TriePersistProps.
Import TriePersist.

(** ** The graph of nodes in memory *)

Inductive reach (M : gmap Hash cachedNode) : Hash -> Hash -> Prop :=
| reach_self h n : M !! h = Some n -> reach M h h
| reach_step h n c g : M !! h = Some n -> is_Some (children n !! c) -> reach M c g -> reach M h g.

Lemma reach_trans M a b c : reach M a b -> reach M b c -> reach M a c.
Proof. induction 1 as [h n Hn|h n c' g Hn Hc _ IH]; [done|]. intros Hb. by eapply reach_step, IH. Qed.
Lemma reach_in M a b : reach M a b -> is_Some (M !! a) /\ is_Some (M !! b).
Proof. induction 1 as [h n Hn|h n c g Hn Hc _ IH]; [rewrite Hn; eauto|]. rewrite Hn. destruct IH. eauto. Qed.

(** No node refers to itself through others. *)
Definition ranked (M : gmap Hash cachedNode) (rank : Hash -> nat) : Prop := forall h n c, M !! h = Some n -> is_Some (children n !! c) -> is_Some (M !! c) -> (rank c < rank h)%nat.

(** How many nodes a walk from [h] can still visit. *)
Definition reserve (M : gmap Hash cachedNode) (rank : Hash -> nat) (h : Hash) : nat :=
  match M !! h with None => O | Some _ => size (filter (fun kn => (rank kn.1 <= rank h)%nat) M) end.

Lemma reserve_lt M rank h c : is_Some (M !! h) -> (is_Some (M !! c) -> (rank c < rank h)%nat) -> (reserve M rank c < reserve M rank h)%nat.
Proof.
  intros [n Hn] Hr. unfold reserve. rewrite Hn. destruct (M !! c) as [m|] eqn:Em.
  - specialize (Hr ltac:(by eexists)). apply map_subset_size, map_subset_alt. split.
    + apply map_filter_subseteq_ext. intros k x _. simpl. lia.
    + exists h. split.
      * rewrite map_lookup_filter, Hn. simpl. by rewrite option_guard_False by lia.
      * rewrite map_lookup_filter, Hn. simpl. rewrite option_guard_True by done. by eexists.
  - apply Nat.neq_0_lt_0. intros E. apply map_size_empty_inv in E. assert (Hl : filter (fun kn => (rank kn.1 <= rank h)%nat) M !! h = Some n) by (apply map_lookup_filter_Some; by split).
    by rewrite E, lookup_empty in Hl.
Qed.
Lemma reserve_child M rank h n c : ranked M rank -> M !! h = Some n -> is_Some (children n !! c) -> (reserve M rank c < reserve M rank h)%nat.
Proof. intros Hr Hn Hc. apply reserve_lt; [by rewrite Hn; eexists|]. by apply (Hr h n c). Qed.
Lemma reserve_bound M rank h : (reserve M rank h <= size M)%nat.
Proof. unfold reserve. destruct (M !! h); [|lia]. apply map_subseteq_size, map_filter_subseteq. Qed.

Section Order.
Context (order : list Hash -> list Hash) (order_perm : forall l, order l ≡ₚ l).

Lemma elem_of_keys {A} (m : gmap Hash A) h : h ∈ keys order m <-> is_Some (m !! h).
Proof.
  unfold keys. rewrite (order_perm _), list_elem_of_fmap. split.
  - intros ([k x] & -> & Hx). apply elem_of_map_to_list in Hx. simpl. rewrite Hx. by eexists.
  - intros [x Hx]. exists (h, x). split; [done|]. by apply elem_of_map_to_list.
Qed.

(** ** Removing a trie from memory *)

(** What is gone took everything below it along. *)
Definition closed (M0 M : gmap Hash cachedNode) : Prop := M ⊆ M0 /\ forall a b, reach M0 a b -> M !! a = None -> M !! b = None.
Definition only_nodes (db db' : Database) : Prop := diskdb db' = diskdb db /\ preimages db' = preimages db.

Lemma uncache_spec M0 rank : ranked M0 rank -> forall fuel h db, closed M0 (nodes db) -> (reserve M0 rank h < fuel)%nat ->
  exists db', uncache order fuel h db = Ret db' /\ only_nodes db db' /\ closed M0 (nodes db') /\ nodes db' ⊆ nodes db /\
    forall g, (reach M0 h g -> nodes db' !! g = None) /\ (reach M0 h g \/ nodes db' !! g = nodes db !! g).
Proof.
  intros Hrank. induction fuel as [|fuel IH]; intros h db Hcl Hf; [lia|]. cbn [uncache]. destruct (nodes db !! h) as [node|] eqn:Eh.
  - assert (H0 : M0 !! h = Some node) by (eapply lookup_weaken; [done|apply Hcl]).
    assert (Hloop : forall l db, (forall c, c ∈ l -> is_Some (children node !! c)) -> closed M0 (nodes db) ->
      exists db', each (fun child db => db ← uncache order fuel child db; Ret (db, false)) l db = Ret (db', false) /\ only_nodes db db' /\ closed M0 (nodes db') /\ nodes db' ⊆ nodes db /\
        forall g, ((exists c, c ∈ l /\ reach M0 c g) -> nodes db' !! g = None) /\ ((exists c, c ∈ l /\ reach M0 c g) \/ nodes db' !! g = nodes db !! g)).
    { induction l as [|c l IHl]; intros d Hl Hd; cbn [each].
      - exists d. split_and!; [done|done|done|done|]. intros g. split; [|by right]. intros (c & Hc & _). by apply not_elem_of_nil in Hc.
      - pose proof (reserve_child M0 rank h node c Hrank H0 (Hl c ltac:(by apply elem_of_cons; left))) as Hlt.
        destruct (IH c d Hd ltac:(lia)) as (d1 & -> & [Ho1 Ho1'] & Hc1 & Hs1 & Hg1). cbn [mbind outcome_bind].
        destruct (IHl d1) as (d2 & -> & [Ho2 Ho2'] & Hc2 & Hs2 & Hg2); [intros c' Hc'; apply Hl; by apply elem_of_cons; right|done|].
        exists d2. split_and!; [done|by split; congruence|done|by etransitivity|]. intros g. split.
        + intros (c' & [->|Hc']%elem_of_cons & Hr); [|apply Hg2; eauto]. eapply lookup_weaken_None; [|exact Hs2]. by apply Hg1.
        + destruct (proj2 (Hg2 g)) as [(c' & Hc' & Hr)|E2]; [left; exists c'; split; [by apply elem_of_cons; right|done]|].
          destruct (proj2 (Hg1 g)) as [Hr|E1]; [left; exists c; split; [by apply elem_of_cons; left|done]|]. right. congruence. }
    destruct (Hloop (keys order (children node)) db) as (d & -> & Ho & Hcd & Hsd & Hg); [intros c Hc; by apply elem_of_keys|done|]. cbn [mbind outcome_bind].
    exists (remove h node d). split; [done|]. split; [exact Ho|].
    assert (Hreach : forall g, reach M0 h g <-> g = h \/ exists c, c ∈ keys order (children node) /\ reach M0 c g).
    { intros g. split.
      - intros Hr. inversion Hr as [|? n c ? Hn Hc Hcg]; subst; [by left|]. right. exists c. split; [|done]. apply elem_of_keys. assert (n = node) as -> by congruence. done.
      - intros [->|(c & Hc & Hcg)]; [by eapply reach_self|]. eapply reach_step; [done|by apply elem_of_keys|done]. }
    assert (Hlk : forall g, nodes (remove h node d) !! g = if decide (g = h) then None else nodes d !! g) by (intros g; cbn [nodes remove]; case_decide; [subst; by rewrite lookup_delete_eq|by rewrite lookup_delete_ne]).
    split; [split|split].
    + etransitivity; [apply delete_subseteq|apply Hcd].
    + intros a b Hab. rewrite !Hlk. destruct (decide (a = h)) as [->|Hne].
      * intros _. case_decide; [done|]. apply Hreach in Hab as [->|(c & Hc & Hcb)]; [done|]. apply Hg. eauto.
      * intros Ha. case_decide; [done|]. destruct Hcd as [_ Hcd]. by eapply Hcd.
    + etransitivity; [apply delete_subseteq|done].
    + intros g. rewrite Hlk. rewrite Hreach. case_decide as E; [split; [done|by left; left]|]. split.
      * intros [->|Hex]; [done|]. by apply Hg.
      * destruct (proj2 (Hg g)) as [Hex|Hs]; [left; by right|by right].
  - exists db. split_and!; [done|done|done|done|]. intros g. split; [|by right]. intros Hr. by eapply Hcl.
Qed.

(** ** Writing *)

Section Write.
Context (db : Database) (fails : nat -> bool).
Context (node_range : forall h n, nodes db !! h = Some n -> 0 <= h < 2 ^ 256) (pre_range : forall h p, preimages db !! h = Some p -> 0 <= h < 2 ^ 256).

(** The pairs that [Commit] writes. *)
Definition pair_ok (k v : bytes) : Prop :=
  (exists h n, nodes db !! h = Some n /\ k = hash_bytes h /\ v = default [] (blob n)) \/ (exists h, preimages db !! h = Some v /\ k = secureKey (hash_bytes h)).

Lemma hash_bytes_inj h g : 0 <= h < 2 ^ 256 -> 0 <= g < 2 ^ 256 -> hash_bytes h = hash_bytes g -> h = g.
Proof. intros Hh Hg E. rewrite <- (BytesToHash_hash_bytes h Hh), E. by apply BytesToHash_hash_bytes. Qed.
Lemma secureKey_hash h g : secureKey (hash_bytes h) <> hash_bytes g.
Proof. intros E. apply (f_equal length) in E. unfold secureKey in E. rewrite length_app in E. unfold hash_bytes in E. rewrite !length_be_bytes in E. done. Qed.
Lemma secureKey_inj k l : secureKey k = secureKey l -> k = l.
Proof. apply app_inv_head. Qed.

Lemma pair_fun k v v' : pair_ok k v -> pair_ok k v' -> v = v'.
Proof.
  intros [(h & n & Hn & -> & ->)|(h & Hp & ->)] [(g & m & Hm & E & ->)|(g & Hq & E)].
  - apply hash_bytes_inj in E as ->; [congruence|by eapply node_range..].
  - symmetry in E. by apply secureKey_hash in E.
  - by apply secureKey_hash in E.
  - apply secureKey_inj, hash_bytes_inj in E as ->; [congruence|by eapply pre_range..].
Qed.

Lemma apply_writes_spec ws disk : (forall k v, (k, v) ∈ ws -> pair_ok k v) -> forall k,
  (forall v, (k, v) ∈ ws -> apply_writes ws disk !! k = Some v) /\ ((forall v, (k, v) ∉ ws) -> apply_writes ws disk !! k = disk !! k).
Proof.
  unfold apply_writes. induction ws as [|[l x] ws IH] using rev_ind; intros Hok k.
  - split; [intros v Hv; by apply not_elem_of_nil in Hv|done].
  - rewrite foldl_snoc. cbn [fst snd]. destruct (IH (fun k v H => Hok k v ltac:(apply elem_of_app; by left)) k) as [H1 H2]. destruct (decide (k = l)) as [->|Hne].
    + rewrite lookup_insert_eq. split.
      * intros v Hv. f_equal. eapply pair_fun; [eapply Hok, elem_of_app; right; by apply list_elem_of_singleton|by apply Hok].
      * intros Hn. destruct (Hn x). apply elem_of_app. right. by apply list_elem_of_singleton.
    + rewrite lookup_insert_ne by done. split.
      * intros v [Hv|Hv]%elem_of_app; [by apply H1|]. apply list_elem_of_singleton in Hv. congruence.
      * intros Hn. apply H2. intros v Hv. apply (Hn v), elem_of_app. by left.
Qed.

Definition winv (w : writer) : Prop := (forall k v, (k, v) ∈ writes (w_batch w) -> pair_ok k v) /\
  forall k, w_disk w !! k = diskdb db !! k \/ exists v, w_disk w !! k = Some v /\ pair_ok k v.
Definition wdone (w : writer) (k : bytes) : Prop := exists v, pair_ok k v /\ ((k, v) ∈ writes (w_batch w) \/ w_disk w !! k = Some v).
Definition wle (w w' : writer) : Prop := forall k, wdone w k -> wdone w' k.

Lemma wle_refl w : wle w w.
Proof. by intros k. Qed.
#[local] Hint Resolve wle_refl : core.
Lemma wle_trans w1 w2 w3 : wle w1 w2 -> wle w2 w3 -> wle w1 w3.
Proof. intros H1 H2 k Hk. by apply H2, H1. Qed.

Lemma put_ok k v w : pair_ok k v -> winv w -> winv (put k v w) /\ wle w (put k v w) /\ wdone (put k v w) k.
Proof.
  intros Hp [H1 H2]. split; [split; [|done]|split].
  - intros l x. cbn [put w_batch batch_Put writes]. rewrite elem_of_app, list_elem_of_singleton. intros [?|[= -> ->]]; [by apply H1|done].
  - intros l (x & Hx & Hin). exists x. split; [done|]. cbn [put w_batch batch_Put writes w_disk]. rewrite elem_of_app. tauto.
  - exists v. split; [done|]. left. cbn [put w_batch batch_Put writes]. apply elem_of_app. right. by apply list_elem_of_singleton.
Qed.

Lemma flush_ok w : winv w -> winv (flush fails w).1 /\ wle w (flush fails w).1 /\ ((flush fails w).2 = false -> writes (w_batch (flush fails w).1) = []).
Proof.
  intros [H1 H2]. unfold flush. destruct (fails (w_count w)); cbn [fst snd]; [split; [by split|split; [by intros k|done]]|]. pose proof (apply_writes_spec _ (w_disk w) H1) as Ha. split; [split|split].
  - cbn [w_batch NewBatch writes]. intros k v Hv. by apply not_elem_of_nil in Hv.
  - cbn [w_disk]. intros k. destruct (Ha k) as [Hin Hout]. destruct (decide (k ∈ (writes (w_batch w)).*1)) as [Hk|Hk].
    + apply list_elem_of_fmap in Hk as ([l v] & -> & Hv). right. exists v. split; [by apply Hin|by apply H1].
    + rewrite Hout; [apply H2|]. intros v Hv. apply Hk, list_elem_of_fmap. by exists (k, v).
  - intros k (v & Hv & Hor). exists v. split; [done|]. right. cbn [w_disk]. destruct (Ha k) as [Hin Hout]. destruct Hor as [Hb|Hd]; [by apply Hin|].
    destruct (decide (k ∈ (writes (w_batch w)).*1)) as [Hk|Hk].
    + apply list_elem_of_fmap in Hk as ([l x] & -> & Hx). rewrite (Hin x Hx). f_equal. eapply pair_fun; [by apply H1|done].
    + rewrite Hout; [done|]. intros x Hx. apply Hk, list_elem_of_fmap. by exists (k, x).
  - done.
Qed.

(** A step of a loop over a batch: it may stop at a failed write. *)
Definition step_ok (w : writer) (r : outcome (writer * bool)) (P : bytes -> Prop) : Prop :=
  exists w' err, r = Ret (w', err) /\ winv w' /\ wle w w' /\ (err = false -> forall k, P k -> wdone w' k).

Lemma flush_step w (P : bytes -> Prop) b : winv w -> (forall k, P k -> wdone w k) -> step_ok w (if b : bool then Ret (flush fails w) else Ret (w, false)) P.
Proof.
  intros Hw HP. destruct b; [|exists w, false; by split_and!]. destruct (flush_ok w Hw) as (H1 & H2 & _). destruct (flush fails w) as [w' err]. exists w', err. split_and!; [done|done|done|]. intros _ k Hk. by apply H2, HP.
Qed.

Lemma each_step {A} (f : A -> writer -> outcome (writer * bool)) (P : A -> bytes -> Prop) l w : winv w -> (forall x w, x ∈ l -> winv w -> step_ok w (f x w) (P x)) ->
  step_ok w (each f l w) (fun k => exists x, x ∈ l /\ P x k).
Proof.
  revert w. induction l as [|x l IH]; intros w Hw Hf; cbn [each].
  - exists w, false. split_and!; [done|done|done|]. intros _ k (x & Hx & _). by apply not_elem_of_nil in Hx.
  - destruct (Hf x w ltac:(by apply elem_of_cons; left) Hw) as (w1 & err & -> & Hw1 & Hle & Hd). cbn [mbind outcome_bind]. destruct err; [by exists w1, true|].
    destruct (IH w1 Hw1) as (w2 & err & -> & Hw2 & Hle2 & Hd2); [intros y w' Hy; apply Hf; by apply elem_of_cons; right|]. exists w2, err. split_and!; [done|done|by eapply wle_trans|].
    intros He k (y & [->|Hy]%elem_of_cons & Hk); [by apply Hle2, Hd|]. apply Hd2; eauto.
Qed.

Lemma commit_spec rank : ranked (nodes db) rank -> forall fuel h w, winv w -> (reserve (nodes db) rank h < fuel)%nat ->
  step_ok w (commit order fails fuel db h w) (fun k => exists g, reach (nodes db) h g /\ k = hash_bytes g).
Proof.
  intros Hrank. induction fuel as [|fuel IH]; intros h w Hw Hf; [lia|]. cbn [commit]. destruct (nodes db !! h) as [node|] eqn:Eh.
  - destruct (each_step (commit order fails fuel db) (fun c k => exists g, reach (nodes db) c g /\ k = hash_bytes g) (keys order (children node)) w Hw) as (w1 & err & -> & Hw1 & Hle & Hd).
    { intros c w' Hc Hw'. apply IH; [done|]. apply elem_of_keys in Hc. pose proof (reserve_child _ rank h node c Hrank Eh Hc). lia. }
    cbn [mbind outcome_bind]. destruct err; [by exists w1, true|]. destruct (put_ok (hash_bytes h) (default [] (blob node)) w1) as (Hw2 & Hle2 & Hd2); [left; eauto|done|].
    cbv zeta. destruct (flush_step (put (hash_bytes h) (default [] (blob node)) w1) (wdone (put (hash_bytes h) (default [] (blob node)) w1))
      (IdealBatchSize <=? bsize (w_batch (put (hash_bytes h) (default [] (blob node)) w1))) Hw2 ltac:(done)) as (w3 & err & -> & Hw3 & Hle3 & Hd3).
    exists w3, err. split_and!; [done|done|eapply wle_trans; [done|by eapply wle_trans]|]. intros He k (g & Hg & ->). apply Hd3; [done|].
    inversion Hg as [|? n c ? Hn Hc Hcg]; subst; [done|]. assert (n = node) as -> by congruence. apply Hle2, Hd; [done|]. exists c. split; [by apply elem_of_keys|eauto].
  - exists w, false. split_and!; [done|done|done|]. intros _ k (g & Hg & _). apply reach_in in Hg as [[? ?] _]. congruence.
Qed.

Lemma preimage_spec w h : winv w -> is_Some (preimages db !! h) -> step_ok w (put_preimage fails (preimages db) h w) (fun k => k = secureKey (hash_bytes h)).
Proof.
  intros Hw [p Hp]. unfold put_preimage. rewrite Hp. cbn [default from_option id]. destruct (put_ok (secureKey (hash_bytes h)) p w) as (Hw2 & Hle2 & Hd2); [right; eauto|done|].
  destruct (flush_step (put (secureKey (hash_bytes h)) p w) (fun k => k = secureKey (hash_bytes h)) (IdealBatchSize <? bsize (w_batch (put (secureKey (hash_bytes h)) p w))) Hw2) as (w3 & err & E & Hw3 & Hle3 & Hd3); [by intros k ->|].
  exists w3, err. split_and!; [done|done|by eapply wle_trans|done].
Qed.

(** What a disk written so far answers. *)
Lemma winv_node w h : winv w -> 0 <= h < 2 ^ 256 -> nodes db !! h = None -> w_disk w !! hash_bytes h = diskdb db !! hash_bytes h.
Proof.
  intros [_ Hw] Hh Hn. destruct (Hw (hash_bytes h)) as [|(v & _ & [(g & n & Hg & E & _)|(g & _ & E)])]; [done|..].
  - apply hash_bytes_inj in E; [subst; congruence|done|by eapply node_range].
  - symmetry in E. by apply secureKey_hash in E.
Qed.
Lemma winv_preimage w h : winv w -> 0 <= h < 2 ^ 256 -> preimages db !! h = None -> w_disk w !! secureKey (hash_bytes h) = diskdb db !! secureKey (hash_bytes h).
Proof.
  intros [_ Hw] Hh Hn. destruct (Hw (secureKey (hash_bytes h))) as [|(v & _ & [(g & n & _ & E & _)|(g & Hg & E)])]; [done|..].
  - by apply secureKey_hash in E.
  - apply secureKey_inj, hash_bytes_inj in E; [subst; congruence|done|by eapply pre_range].
Qed.
End Write.

(** A memory database: keys are hashes, references do not form cycles, and every entry
    below [root] has content. *)
Record flushable (db : Database) (root : Hash) : Prop := {
  fl_rank : exists rank, ranked (nodes db) rank;
  fl_nodes h n : nodes db !! h = Some n -> 0 <= h < 2 ^ 256;
  fl_preimages h p : preimages db !! h = Some p -> 0 <= h < 2 ^ 256;
  fl_blobs h n : reach (nodes db) root h -> nodes db !! h = Some n -> is_Some (blob n)
}.

(** What [Commit] does to the database. *)
Record effect (db : Database) (root : Hash) (db' : Database) (r : commit_result) : Prop := {
  ef_disk k : diskdb db' !! k = diskdb db !! k \/ exists v, diskdb db' !! k = Some v /\ pair_ok db k v;
  ef_failed : r <> Committed -> nodes db' = nodes db /\ preimages db' = preimages db;
  ef_preimages : r = Committed -> preimages db' = ∅ /\ forall h p, preimages db !! h = Some p -> diskdb db' !! secureKey (hash_bytes h) = Some p;
  ef_closed : closed (nodes db) (nodes db');
  ef_nodes : r = Committed -> forall h, (forall n, reach (nodes db) root h -> nodes db !! h = Some n -> nodes db' !! h = None /\ diskdb db' !! hash_bytes h = Some (default [] (blob n))) /\
    (reach (nodes db) root h \/ nodes db' !! h = nodes db !! h)
}.

Lemma closed_refl M : closed M M.
Proof. split; [done|]. intros a b Hab Ha. apply reach_in in Hab as [[? ?] _]. congruence. Qed.

Lemma effect_failed db root w b : winv db w -> effect db root (with_disk (w_disk w) db) (WriteFailed b).
Proof. intros [_ Hw]. split; try done. apply closed_refl. Qed.

Lemma commit_effect fails db root : flushable db root -> exists db' r, Commit order fails db root = Ret (db', r) /\ effect db root db' r.
Proof.
  intros [[rank Hrank] Hnr Hpr Hblob]. unfold Commit.
  assert (Hw0 : winv db (MkWriter NewBatch (diskdb db) 0)) by (split; [intros k v Hv; by apply not_elem_of_nil in Hv|by left]).
  destruct (each_step db (put_preimage fails (preimages db)) (fun h k => k = secureKey (hash_bytes h)) (keys order (preimages db)) _ Hw0) as (w1 & err & -> & Hw1 & _ & Hd1).
  { intros h w Hh Hw. apply preimage_spec; [done..|]. by apply elem_of_keys. }
  cbn [mbind outcome_bind]. destruct err; [eexists _, _; split; [done|by apply effect_failed]|].
  destruct (commit_spec db fails Hnr Hpr rank Hrank (depth db) root w1 Hw1) as (w2 & err & -> & Hw2 & Hle2 & Hd2); [unfold depth; pose proof (reserve_bound (nodes db) rank root); lia|].
  cbn [mbind outcome_bind]. destruct err; [eexists _, _; split; [done|by apply effect_failed]|].
  destruct (flush_ok db fails Hnr Hpr w2 Hw2) as (Hw3 & Hle3 & Hempty). destruct (flush fails w2) as [w3 err]. cbn [fst snd] in *.
  destruct err; [eexists _, _; split; [done|by apply effect_failed]|]. specialize (Hempty eq_refl).
  assert (Hdisk : forall k v, pair_ok db k v -> wdone db w3 k -> w_disk w3 !! k = Some v).
  { intros k v Hv (v' & Hv' & [Hin|Hd]); [rewrite Hempty in Hin; by apply not_elem_of_nil in Hin|]. rewrite Hd. f_equal. by eapply (pair_fun db). }
  set (db1 := MkDb (w_disk w3) (nodes db) ∅ (nodesSize db) 0).
  destruct (uncache_spec (nodes db) rank Hrank (depth db1) root db1) as (db2 & Hun & [Hdk Hpre] & Hcl & _ & Hcut).
  { apply closed_refl. }
  { unfold depth. pose proof (reserve_bound (nodes db) rank root). cbn [db1 nodes]. lia. }
  cbv zeta. rewrite Hun. cbn [mbind outcome_bind]. eexists _, _. split; [done|]. split; [|done| |done|].
  - intros k. rewrite Hdk. apply Hw3.
  - intros _. split; [done|]. intros h p Hp. rewrite Hdk. apply Hdisk; [right; eauto|]. apply Hle3, Hle2, Hd1; [done|]. exists h. split; [apply elem_of_keys; rewrite Hp; by eexists|done].
  - intros _ h. split; [|apply Hcut]. intros n Hr Hn. split; [by apply Hcut|]. rewrite Hdk. apply Hdisk; [left; eauto|]. apply Hle3, Hd2; [done|eauto].
Qed.

(** C11: Flushing a trie to disk loses nothing.  Whatever the order in which Go walks its
    maps and whichever batch writes the disk refuses, [Commit] returns, and every node and
    every preimage that could be read before can be read after, with the same content:
    entries leave the memory only once their content is on disk.  When it reports success,
    everything below the root is on disk and out of memory, and so are the preimages. *)
Theorem commit_loses_nothing fails db root : flushable db root -> exists db' r, Commit order fails db root = Ret (db', r) /\
  (forall h, 0 <= h < 2 ^ 256 -> Node db' h = Node db h /\ preimage db' h = preimage db h) /\
  (r = Committed -> preimages db' = ∅ /\ forall h n, reach (nodes db) root h -> nodes db !! h = Some n -> nodes db' !! h = None /\ diskdb db' !! hash_bytes h = blob n).
Proof.
  intros Hfl. destruct (commit_effect fails db root Hfl) as (db' & r & Hc & Hef). destruct Hfl as [_ Hnr Hpr Hblob]. exists db', r. split; [done|].
  assert (Hw : winv db (MkWriter NewBatch (diskdb db') 0)) by (split; [intros k v Hv; by apply not_elem_of_nil in Hv|apply Hef]).
  pose proof (fun h => winv_node db Hnr _ h Hw) as Hwn. pose proof (fun h => winv_preimage db Hpr _ h Hw) as Hwp. cbn [w_disk] in Hwn, Hwp.
  destruct r as [|b]; [|destruct (ef_failed _ _ _ _ Hef ltac:(done)) as [En Ep]; split; [|done]; intros h Hh; unfold Node, preimage; rewrite En, Ep; split].
  - pose proof (ef_nodes _ _ _ _ Hef eq_refl) as Hn. destruct (ef_preimages _ _ _ _ Hef eq_refl) as [Ep Hp]. split.
    + intros h Hh. unfold Node, preimage. rewrite Ep, lookup_empty. split.
      * destruct (Hn h) as [Hgone [Hr|E]].
        -- destruct (reach_in _ _ _ Hr) as [_ [n En]]. destruct (Hgone n Hr En) as [-> ->]. rewrite En. by destruct (Hblob h n Hr En) as [b ->].
        -- rewrite E. destruct (nodes db !! h) eqn:E0; [done|]. by apply Hwn.
      * destruct (preimages db !! h) as [p|] eqn:E; [by apply Hp|]. by apply Hwp.
    + intros _. split; [done|]. intros h n Hr En. destruct (proj1 (Hn h) n Hr En) as [? ->]. split; [done|]. by destruct (Hblob h n Hr En) as [b ->].
  - destruct (nodes db !! h) eqn:E; [done|]. by apply Hwn.
  - destruct (preimages db !! h) eqn:E; [done|]. by apply Hwp.
Qed.

(** A batch of preimages that the disk refuses makes [Commit] return with the read lock
    still held. *)
Lemma preimage_failure_keeps_lock fails db h p root : preimages db = {[ h := p ]} -> IdealBatchSize < len p -> fails 0%nat = true ->
  Commit order fails db root = Ret (with_disk (diskdb db) db, WriteFailed false).
Proof.
  intros Hp Hl Hf. unfold Commit. assert (Hk : keys order (preimages db) = [h]).
  { unfold keys. rewrite Hp, map_to_list_singleton. apply Permutation_singleton_r. apply order_perm. }
  rewrite Hk. cbn [each]. unfold put_preimage. rewrite Hp, lookup_singleton_eq. cbn [default from_option id put w_batch batch_Put bsize NewBatch].
  rewrite (proj2 (Z.ltb_lt _ _)) by lia. unfold flush. cbn [put w_count]. rewrite Hf. done.
Qed.

End Order.

Lemma ranked_check M rank : map_Forall (fun h n => map_Forall (fun c _ => (rank c < rank h)%nat) (children n)) M -> ranked M rank.
Proof. intros H h n c Hn [x Hx] _. by apply (H h n Hn c x). Qed.

(** A root with a node below it, and a preimage. *)
Definition small_db : Database := MkDb ∅ {[ 0 := MkCached None 0 {[ 5 := 1 ]}; 5 := MkCached (Some [1; 2]) 1 {[ 6 := 1 ]}; 6 := MkCached (Some [3]) 1 ∅ ]} {[ 9 := [4] ]} 67 33.

Lemma commit_loses_nothing_witness : exists db' r, Commit reverse (fun n => bool_decide (n = 3%nat)) small_db 5 = Ret (db', r) /\ Node db' 6 = Some [3] /\ preimage db' 9 = Some [4].
Proof.
  destruct (commit_loses_nothing reverse ltac:(intros l; apply reverse_Permutation) (fun n => bool_decide (n = 3%nat)) small_db 5) as (db' & r & -> & Hsame & _).
  - split.
    + exists (fun h => if h =? 0 then 2%nat else if h =? 5 then 1%nat else 0%nat). apply ranked_check. apply (bool_decide_unpack _). by vm_compute.
    + apply (bool_decide_unpack (map_Forall (fun h _ => 0 <= h < 2 ^ 256) (nodes small_db))). by vm_compute.
    + apply (bool_decide_unpack (map_Forall (fun h _ => 0 <= h < 2 ^ 256) (preimages small_db))). by vm_compute.
    + assert (Hb : map_Forall (fun h n => h = 0 \/ is_Some (blob n)) (nodes small_db)) by (apply (bool_decide_unpack _); by vm_compute).
      intros h n Hr Hn. destruct (Hb h n Hn) as [->|]; [|done]. exfalso.
      assert (Hz : map_Forall (fun _ n => map_Forall (fun c _ => c <> 0) (children n)) (nodes small_db)) by (apply (bool_decide_unpack _); by vm_compute).
      assert (H5 : forall a b, reach (nodes small_db) a b -> a <> 0 -> b <> 0); [|by apply (H5 5 0 Hr)].
      induction 1 as [|a m c b Hm [x Hx] _ IH]; [done|]. intros _. apply IH. by eapply Hz.
  - exists db', r. split; [done|]. by rewrite (proj1 (Hsame 6 ltac:(done))), (proj2 (Hsame 9 ltac:(done))).
Defined.

End TriePersistProps.
