(* ===== verification/TrieGc.v ===== *)
(** Reference counting in the memory database of tries ([core/trie/database.go]): whatever
    sequence of stored nodes, references, dereferences and flushes, everything that can be
    reached from a root that is still referenced, in memory or on disk, can be read, and the
    counts of the nodes that are only in memory are exact. *)

From S2P Require Import Prelude Params Bytes RlpEncode RlpDecode RlpRaw TrieEncoding Trie TrieHasher TriePersist.
Import TrieDb TriePersist TriePersistProps.

Module TrieGc.

Abbreviation graph := (gmap Hash cachedNode).

(** ** Counting references *)

Definition cnt (n : cachedNode) (h : Hash) : Z := default 0 (children n !! h).
Definition refs (M : graph) (h : Hash) : Z := map_fold (fun _ n acc => cnt n h + acc) 0 M.

Lemma refs_empty h : refs ∅ h = 0.
Proof. done. Qed.
Lemma refs_insert_new M p n h : M !! p = None -> refs (<[p := n]> M) h = cnt n h + refs M h.
Proof. intros Hp. unfold refs. rewrite map_fold_insert_L; [done|intros; lia|done]. Qed.
Lemma refs_delete M p n h : M !! p = Some n -> refs (base.delete p M) h = refs M h - cnt n h.
Proof. intros Hp. rewrite <- (insert_delete_id M p n Hp) at 2. rewrite refs_insert_new by (by rewrite lookup_delete_eq). lia. Qed.
Lemma refs_insert M p n n' h : M !! p = Some n -> refs (<[p := n']> M) h = refs M h - cnt n h + cnt n' h.
Proof. intros Hp. rewrite <- insert_delete_eq. rewrite refs_insert_new by (by rewrite lookup_delete_eq). rewrite (refs_delete M p n) by done. lia. Qed.

Definition positive (M : graph) : Prop := forall p n c k, M !! p = Some n -> children n !! c = Some k -> 1 <= k.
Lemma refs_nonneg M h : positive M -> 0 <= refs M h.
Proof.
  induction M as [|p n M Hp IH] using map_ind; intros Hpos; [done|]. rewrite refs_insert_new by done.
  assert (0 <= refs M h) by (apply IH; intros q m c k Hq; apply Hpos with q; rewrite lookup_insert_ne; [done|congruence]).
  unfold cnt. destruct (children n !! h) as [k|] eqn:E; simpl; [|lia]. pose proof (Hpos p n h k ltac:(by rewrite lookup_insert_eq) E). lia.
Qed.
Lemma refs_edge M p n h k : positive M -> M !! p = Some n -> children n !! h = Some k -> 1 <= refs M h.
Proof.
  intros Hpos Hp Hk. pose proof (refs_delete M p n h Hp) as Hd. assert (0 <= refs (base.delete p M) h).
  { apply refs_nonneg. intros q m c k' Hq. apply Hpos with q. by apply lookup_delete_Some in Hq as [_ ?]. }
  unfold cnt in Hd. rewrite Hk in Hd. simpl in Hd. pose proof (Hpos p n h k Hp Hk). lia.
Qed.

(** ** The invariant *)

Section Gc.
(** The content that belongs to a hash, the hashes that a content names, and a measure that
    decreases along references. *)
Context (content : Hash -> bytes) (rank : Hash -> nat) (names : Hash -> list Hash).

Definition on_disk (disk : gmap bytes bytes) (h : Hash) : Prop := 0 < h < 2 ^ 256 /\ disk !! hash_bytes h = Some (content h).

Record gc_inv (disk : gmap bytes bytes) (M : graph) : Prop := {
  gc_root : is_Some (M !! 0);
  gc_blob h n : M !! h = Some n -> h <> 0 -> blob n = Some (content h) /\ 0 <= h < 2 ^ 256;
  gc_edge p n c k : M !! p = Some n -> children n !! c = Some k -> 1 <= k /\ (p <> 0 -> k = 1) /\ c <> 0 /\ (rank c < rank p)%nat /\ (is_Some (M !! c) \/ on_disk disk c);
  gc_count h n : M !! h = Some n -> h <> 0 -> parents n = refs M h \/ on_disk disk h
}.

Lemma gc_positive disk M : gc_inv disk M -> positive M.
Proof. intros H p n c k Hp Hc. by destruct (gc_edge _ _ H p n c k Hp Hc). Qed.

(** ** One reference less *)

Lemma drop_child_spec c (m : gmap Hash Z) k : m !! c = Some k -> forall x, drop_child c m !! x = if decide (x = c) then (if k =? 1 then None else Some (k - 1)) else m !! x.
Proof.
  intros Hk x. unfold drop_child. rewrite Hk. simpl. case_decide as E; [subst|].
  - destruct (k - 1 =? 0) eqn:E1, (k =? 1) eqn:E2; bool_to_prop; try lia; [by rewrite lookup_delete_eq|by rewrite lookup_insert_eq].
  - destruct (k - 1 =? 0); [by rewrite lookup_delete_ne|by rewrite lookup_insert_ne].
Qed.
Definition unref (c : Hash) (P : cachedNode) : cachedNode := MkCached (blob P) (parents P) (drop_child c (children P)).
Lemma cnt_unref c P k x : children P !! c = Some k -> cnt (unref c P) x = cnt P x - (if decide (x = c) then 1 else 0).
Proof.
  intros Hk. unfold cnt, unref. cbn [children]. rewrite (drop_child_spec c _ k Hk). case_decide as E; [subst|lia]. rewrite Hk. destruct (k =? 1) eqn:E1; bool_to_prop; subst; simpl; lia.
Qed.

(** The edges of a smaller graph. *)
Definition fewer (n n' : cachedNode) : Prop := blob n' = blob n /\ forall c k, children n' !! c = Some k -> exists k', children n !! c = Some k' /\ k <= k' /\ 1 <= k.
Lemma unref_fewer c P k : children P !! c = Some k -> 1 <= k -> (forall x j, children P !! x = Some j -> 1 <= j) -> fewer P (unref c P).
Proof.
  intros Hk H1 Hpos. split; [done|]. intros x j. cbn [unref children]. rewrite (drop_child_spec c _ k Hk). case_decide as E; [subst|].
  - destruct (k =? 1) eqn:E1; [done|]. bool_to_prop. intros [= <-]. exists k. split; [done|lia].
  - intros Hj. exists j. split_and!; [done|lia|by eapply Hpos].
Qed.

(** Changing nodes that keep their content, lose references and keep their counts right. *)
Lemma gc_change disk M M' : gc_inv disk M -> is_Some (M' !! 0) ->
  (forall h n', M' !! h = Some n' -> exists n, M !! h = Some n /\ fewer n n') ->
  (forall p n c, M' !! p = Some n -> is_Some (children n !! c) -> M' !! c = None -> is_Some (M !! c) -> on_disk disk c) ->
  (forall h n', M' !! h = Some n' -> h <> 0 -> parents n' = refs M' h \/ on_disk disk h) -> gc_inv disk M'.
Proof.
  intros H H0 Hf Hav Hc. split; [done| | |done].
  - intros h n' Hn' Hne. destruct (Hf h n' Hn') as (n & Hn & [-> _]). by eapply gc_blob.
  - intros p n' c k Hp Hk. destruct (Hf p n' Hp) as (n & Hn & [_ Hfk]). destruct (Hfk c k Hk) as (k' & Hk' & Hle & H1). destruct (gc_edge _ _ H p n c k' Hn Hk') as (_ & Hone & Hne & Hr & Ha).
    split_and!; [done| |done|done|]. { intros Hp0. specialize (Hone Hp0). lia. }
    destruct (M' !! c) as [x|] eqn:E; [left; by eexists|]. right. destruct Ha as [Ha|Ha]; [|done]. eapply Hav; [exact Hp|by eexists|done|done].
Qed.

Lemma fewer_refl n : (forall x j, children n !! x = Some j -> 1 <= j) -> fewer n n.
Proof. intros Hp. split; [done|]. intros c k Hk. exists k. split_and!; [done|lia|by eapply Hp]. Qed.
Lemma gc_pos disk M h n : gc_inv disk M -> M !! h = Some n -> forall x j, children n !! x = Some j -> 1 <= j.
Proof. intros H Hn x j Hx. by destruct (gc_edge _ _ H h n x j Hn Hx). Qed.

(** The reference goes, and so does one from the count of the child. *)
Lemma unref_gc disk M p c P k : gc_inv disk M -> M !! p = Some P -> children P !! c = Some k ->
  gc_inv disk (match M !! c with None => <[p := unref c P]> M | Some C => <[c := MkCached (blob C) (parents C - 1) (children C)]> (<[p := unref c P]> M) end).
Proof.
  intros H Hp Hk. pose proof (gc_edge _ _ H p P c k Hp Hk) as (H1 & _ & Hc0 & Hrk & _). pose proof (unref_fewer c P k Hk H1 (gc_pos _ _ _ _ H Hp)) as Hfew.
  assert (Hpc : c <> p) by (intros ->; lia). destruct (gc_root _ _ H) as [R HR].
  destruct (M !! c) as [C|] eqn:Ec.
  - set (M1 := <[p := unref c P]> M). set (C' := MkCached (blob C) (parents C - 1) (children C)).
    assert (Hc1 : M1 !! c = Some C) by (unfold M1; by rewrite lookup_insert_ne).
    assert (Hrefs : forall h, refs (<[c := C']> M1) h = refs M h - (if decide (h = c) then 1 else 0)).
    { intros h. rewrite (refs_insert M1 c C) by done. unfold M1. rewrite (refs_insert M p P) by done. rewrite (cnt_unref c P k) by done. change (cnt C' h) with (cnt C h). lia. }
    assert (Hdom : forall h, is_Some (<[c := C']> M1 !! h) <-> is_Some (M !! h)).
    { intros h. unfold M1. rewrite !lookup_insert_is_Some'. split; [intros [<-|[<-|?]]; [by rewrite Ec; eexists|by rewrite Hp; eexists|done]|]. intros ?. by right; right. }
    apply (gc_change disk M); [done|apply Hdom; by rewrite HR| | |].
    + intros h n' [[<- <-]|[Hne [[<- <-]|[Hne' Hn']]%lookup_insert_Some]]%lookup_insert_Some.
      * exists C. split; [done|]. apply (fewer_refl C). by eapply gc_pos.
      * by exists P.
      * exists n'. split; [done|]. apply fewer_refl. by eapply gc_pos.
    + intros q n x _ _ Hx Hx'. apply Hdom in Hx' as [? ?]. congruence.
    + intros h n' Hn' Hh0. rewrite Hrefs. apply lookup_insert_Some in Hn' as [[<- <-]|[Hne Hn']].
      * cbn [parents C']. destruct (gc_count _ _ H c C Ec Hh0) as [->|]; [left; rewrite decide_True by done; lia|by right].
      * rewrite decide_False by done. rewrite Z.sub_0_r. apply lookup_insert_Some in Hn' as [[<- <-]|[Hne' Hn']]; [exact (gc_count _ _ H p P Hp Hh0)|by apply (gc_count _ _ H)].
  - apply (gc_change disk M); [done| | | |].
    + apply lookup_insert_is_Some'. right. by rewrite HR.
    + intros h n' [[<- <-]|[Hne Hn']]%lookup_insert_Some; [by exists P|]. exists n'. split; [done|]. apply fewer_refl. by eapply gc_pos.
    + intros q n x _ _ Hx Hx'. assert (is_Some (<[p := unref c P]> M !! x)) as [? ?] by (apply lookup_insert_is_Some'; by right). congruence.
    + intros h n' Hn' Hh0. rewrite (refs_insert M p P) by done. rewrite (cnt_unref c P k) by done. apply lookup_insert_Some in Hn' as [[<- <-]|[Hne Hn']].
      * rewrite decide_False by done. destruct (gc_count _ _ H p P Hp Hh0) as [E|]; [left; cbn [unref parents]; lia|by right].
      * rewrite decide_False by (intros ->; congruence). destruct (gc_count _ _ H h n' Hn' Hh0) as [E|]; [left; lia|by right].
Qed.

(** A node without references from or to it goes. *)
Lemma remove_gc disk M c C : gc_inv disk M -> M !! c = Some C -> c <> 0 -> children C = ∅ -> parents C = 0 -> gc_inv disk (base.delete c M).
Proof.
  intros H Hc Hc0 He Hp. assert (Hcnt : forall h, cnt C h = 0) by (intros h; unfold cnt; by rewrite He, lookup_empty).
  apply (gc_change disk M); [done|rewrite lookup_delete_ne by done; apply H| | |].
  - intros h n [Hne Hn]%lookup_delete_Some. exists n. split; [done|]. apply fewer_refl. by eapply gc_pos.
  - intros q n x [Hne Hn]%lookup_delete_Some [k Hk] Hx Hx'. destruct (decide (x = c)) as [->|Hxc]; [|rewrite lookup_delete_ne in Hx by done; by rewrite Hx in Hx'; destruct Hx'].
    destruct (gc_count _ _ H c C Hc Hc0) as [E|]; [|done]. pose proof (refs_edge M q n c k (gc_positive _ _ H) Hn Hk). lia.
  - intros h n [Hne Hn]%lookup_delete_Some Hh0. rewrite (refs_delete M c C) by done. rewrite Hcnt, Z.sub_0_r. by apply (gc_count _ _ H).
Qed.

(** ** The other operations *)

Lemma refs_pos_edge M h : refs M h <> 0 -> exists p n k, M !! p = Some n /\ children n !! h = Some k.
Proof.
  induction M as [|p n M Hp IH] using map_ind; [done|]. rewrite refs_insert_new by done. unfold cnt. destruct (children n !! h) as [k|] eqn:E.
  - intros _. exists p, n, k. by rewrite lookup_insert_eq.
  - simpl. intros Hne. destruct IH as (q & m & k & Hq & Hk); [lia|]. exists q, m, k. split; [|done]. rewrite lookup_insert_ne; [done|congruence].
Qed.
Lemma refs_union D M h : D ##ₘ M -> (forall p n, D !! p = Some n -> cnt n h = 0) -> refs (D ∪ M) h = refs M h.
Proof.
  induction D as [|p n D Hp IH] using map_ind; intros Hdj Hz; [by rewrite (left_id_L ∅ (∪))|]. apply map_disjoint_insert_l in Hdj as [HpM Hdj].
  rewrite <- insert_union_l, refs_insert_new by (by apply lookup_union_None). rewrite (Hz p n) by (by rewrite lookup_insert_eq). rewrite IH; [done|done|].
  intros q m Hq. apply (Hz q m). rewrite lookup_insert_ne; [done|congruence].
Qed.
Lemma refs_sub M M' h : M' ⊆ M -> (forall p n, M !! p = Some n -> M' !! p = None -> cnt n h = 0) -> refs M h = refs M' h.
Proof.
  intros Hs Hz. rewrite <- (map_difference_union M' M Hs), map_union_comm by (by apply map_disjoint_difference_r1). apply refs_union; [by apply map_disjoint_difference_l1|].
  intros p n Hd. apply lookup_difference_Some in Hd as [Hp Hn]. by apply (Hz p n).
Qed.

Lemma gc_disk disk disk' M : (forall h, on_disk disk h -> on_disk disk' h) -> gc_inv disk M -> gc_inv disk' M.
Proof.
  intros Hd H. split; [apply H|apply H| |].
  - intros p n c k Hp Hk. destruct (gc_edge _ _ H p n c k Hp Hk) as (? & ? & ? & ? & Ha). split_and!; try done. destruct Ha; [by left|right; by apply Hd].
  - intros h n Hn Hh. destruct (gc_count _ _ H h n Hn Hh); [by left|right; by apply Hd].
Qed.

Lemma insert_gc disk M h : gc_inv disk M -> M !! h = None -> 0 < h < 2 ^ 256 -> gc_inv disk (<[h := MkCached (Some (content h)) 0 ∅]> M).
Proof.
  intros H Hn Hh. destruct (gc_root _ _ H) as [R HR]. split.
  - rewrite lookup_insert_ne by lia. by rewrite HR; eexists.
  - intros g n [[<- <-]|[Hne Hg]]%lookup_insert_Some Hg0; [split; [done|lia]|by apply (gc_blob _ _ H)].
  - intros p n c k [[<- <-]|[Hne Hp]]%lookup_insert_Some Hk; [by cbn [children] in Hk; rewrite lookup_empty in Hk|]. destruct (gc_edge _ _ H p n c k Hp Hk) as (? & ? & ? & ? & Ha). split_and!; try done.
    destruct Ha; [left; apply lookup_insert_is_Some'; by right|by right].
  - intros g n Hg Hg0. rewrite refs_insert_new by done. change (cnt (MkCached (Some (content h)) 0 ∅) g) with 0. apply lookup_insert_Some in Hg as [[<- <-]|[Hne Hg]]; [|by apply (gc_count _ _ H)].
    cbn [parents]. destruct (decide (refs M h = 0)) as [->|Hr]; [by left|]. destruct (refs_pos_edge M h Hr) as (p & m & k & Hp & Hk).
    destruct (gc_edge _ _ H p m h k Hp Hk) as (_ & _ & _ & _ & [[? ?]|?]); [congruence|by right].
Qed.

Definition ref_up (c : Hash) (P : cachedNode) : cachedNode := MkCached (blob P) (parents P) (<[c := default 0 (children P !! c) + 1]> (children P)).

Lemma reference_gc disk M c p C P : gc_inv disk M -> M !! c = Some C -> M !! p = Some P -> (rank c < rank p)%nat -> c <> 0 -> (p <> 0 -> children P !! c = None) ->
  gc_inv disk (<[p := ref_up c P]> (<[c := MkCached (blob C) (parents C + 1) (children C)]> M)).
Proof.
  intros H Hc Hp Hrk Hc0 Hone. assert (Hcp : c <> p) by (intros ->; lia). set (C' := MkCached (blob C) (parents C + 1) (children C)). set (M1 := <[c := C']> M).
  assert (Hp1 : M1 !! p = Some P) by (unfold M1; by rewrite lookup_insert_ne).
  assert (Hrefs : forall h, refs (<[p := ref_up c P]> M1) h = refs M h + (if decide (h = c) then 1 else 0)).
  { intros h. rewrite (refs_insert M1 p P) by done. unfold M1. rewrite (refs_insert M c C) by done. change (cnt C' h) with (cnt C h).
    unfold cnt at 4. cbn [ref_up children]. case_decide as E; [subst; rewrite lookup_insert_eq|rewrite lookup_insert_ne by done]; unfold cnt; simpl; lia. }
  assert (Hdom : forall h, is_Some (M !! h) -> is_Some (<[p := ref_up c P]> M1 !! h)) by (intros h Hh; unfold M1; rewrite !lookup_insert_is_Some'; by right; right).
  destruct (gc_root _ _ H) as [R HR]. split.
  - apply Hdom. by rewrite HR; eexists.
  - intros h n [[<- <-]|[_ [[<- <-]|[_ Hn]]%lookup_insert_Some]]%lookup_insert_Some Hh; [exact (gc_blob _ _ H p P Hp Hh)|exact (gc_blob _ _ H c C Hc Hh)|by apply (gc_blob _ _ H)].
  - assert (Hold : forall q n x k, M !! q = Some n -> children n !! x = Some k -> 1 <= k /\ (q <> 0 -> k = 1) /\ x <> 0 /\ (rank x < rank q)%nat /\ (is_Some (<[p := ref_up c P]> M1 !! x) \/ on_disk disk x)).
    { intros q n x k Hq Hk. destruct (gc_edge _ _ H q n x k Hq Hk) as (? & ? & ? & ? & Ha). split_and!; try done. destruct Ha; [left; by apply Hdom|by right]. }
    intros q n x k [[<- <-]|[_ [[<- <-]|[_ Hq]]%lookup_insert_Some]]%lookup_insert_Some Hk; [|by apply (Hold c C)|by eapply Hold].
    cbn [ref_up children] in Hk. apply lookup_insert_Some in Hk as [[<- <-]|[_ Hk]]; [|by apply (Hold p P)].
    assert (0 <= default 0 (children P !! c)) by (destruct (children P !! c) as [k0|] eqn:E; simpl; [pose proof (gc_pos _ _ _ _ H Hp c k0 E); lia|lia]).
    split_and!; [lia|intros Hp0; by rewrite (Hone Hp0)|done|done|left; apply Hdom; by rewrite Hc; eexists].
  - intros h n Hn Hh. rewrite Hrefs. apply lookup_insert_Some in Hn as [[<- <-]|[Hne Hn]].
    + rewrite decide_False by done. rewrite Z.add_0_r. exact (gc_count _ _ H p P Hp Hh).
    + apply lookup_insert_Some in Hn as [[<- <-]|[Hne' Hn]].
      * rewrite decide_True by done. cbn [parents C']. destruct (gc_count _ _ H c C Hc Hh) as [->|]; [by left|by right].
      * rewrite decide_False by done. rewrite Z.add_0_r. by apply (gc_count _ _ H).
Qed.

(** Removing what is closed below and on disk. *)
Lemma uncached_gc disk M M' : gc_inv disk M -> closed M M' -> is_Some (M' !! 0) -> (forall h, is_Some (M !! h) -> M' !! h = None -> on_disk disk h) -> gc_inv disk M'.
Proof.
  intros H [Hsub Hcl] H0 Hd. apply (gc_change disk M); [done|done| | |].
  - intros h n Hn. exists n. assert (Hm : M !! h = Some n) by (by eapply lookup_weaken). split; [done|]. apply fewer_refl. by eapply gc_pos.
  - intros p n c _ _ Hc Hc'. by apply Hd.
  - intros h n Hn Hh. assert (Hm : M !! h = Some n) by (by eapply lookup_weaken). rewrite <- (refs_sub M M' h); [by apply (gc_count _ _ H)|done|].
    intros p m Hp Hp'. unfold cnt. destruct (children m !! h) as [k|] eqn:E; [|done]. assert (Hr : reach M p h) by (eapply reach_step; [exact Hp|by rewrite E; eexists|by eapply reach_self]).
    specialize (Hcl p h Hr Hp'). congruence.
Qed.

(** ** Collection *)

Section Collect.
Context (order : list Hash -> list Hash) (order_perm : forall l, order l ≡ₚ l) (M0 : graph).

Definition within (M : graph) : Prop := forall h, is_Some (M !! h) -> is_Some (M0 !! h).
Definition need (M : graph) (c : Hash) : nat := match M !! c with None => O | Some _ => reserve M0 rank c end.
(** Nodes without references do not appear. *)
Definition noleak (M M' : graph) : Prop := forall h n', M' !! h = Some n' -> parents n' = 0 -> exists n, M !! h = Some n /\ parents n = 0.
Definition smaller (M M' : graph) : Prop := forall h, is_Some (M' !! h) -> is_Some (M !! h).
(** The nodes that stay, apart from [p], keep their references. *)
Definition keep (p : Hash) (M M' : graph) : Prop := forall h n', h <> p -> M' !! h = Some n' -> exists n, M !! h = Some n /\ children n' = children n.

(** What [dereference] of the reference from [p] to [c] leaves. *)
Record dereferenced (db : Database) (c p : Hash) (P : cachedNode) (db' : Database) : Prop := {
  de_disk : diskdb db' = diskdb db;
  de_pre : preimages db' = preimages db;
  de_inv : gc_inv (diskdb db) (nodes db');
  de_parent : nodes db' !! p = Some (unref c P);
  de_frame h : h <> p -> (is_Some (nodes db !! c) -> (rank c < rank h)%nat) -> nodes db' !! h = nodes db !! h;
  de_smaller : smaller (nodes db) (nodes db');
  de_noleak : noleak (nodes db) (nodes db');
  de_keep : keep p (nodes db) (nodes db')
}.

Definition derefs (fuel : nat) : Prop := forall c p db P k, gc_inv (diskdb db) (nodes db) -> within (nodes db) -> nodes db !! p = Some P -> children P !! c = Some k ->
  (need (nodes db) c < fuel)%nat -> exists db', dereference order fuel c p db = Ret db' /\ dereferenced db c p P db'.

(** The loop over the children of a node that goes. *)
Lemma deref_loop fuel c l : derefs fuel -> NoDup l -> c <> 0 -> forall db C, gc_inv (diskdb db) (nodes db) -> within (nodes db) -> nodes db !! c = Some C ->
  (forall x, is_Some (children C !! x) <-> x ∈ l) -> (reserve M0 rank c <= fuel)%nat ->
  exists db', each (fun hash db => db ← dereference order fuel hash c db; Ret (db, false)) l db = Ret (db', false) /\ diskdb db' = diskdb db /\ preimages db' = preimages db /\
    gc_inv (diskdb db) (nodes db') /\ nodes db' !! c = Some (MkCached (blob C) (parents C) ∅) /\ (forall h, (rank c < rank h)%nat -> nodes db' !! h = nodes db !! h) /\
    smaller (nodes db) (nodes db') /\ noleak (nodes db) (nodes db') /\ keep c (nodes db) (nodes db').
Proof.
  intros Hd. induction 1 as [|x l Hx Hl IH]; intros Hc0 db C H Hw HC Hch Hf; cbn [each].
  - assert (Hnl : noleak (nodes db) (nodes db)) by (intros h n ? ?; eauto). assert (Hsm : smaller (nodes db) (nodes db)) by (by intros h). assert (Hkp : keep c (nodes db) (nodes db)) by (intros h n ? ?; eauto). exists db. split_and!; try done. rewrite HC. destruct C as [b q ch]. do 2 f_equal. apply map_empty. intros x. destruct (ch !! x) eqn:E; [|done].
    assert (Hin : x ∈ []) by (apply Hch; cbn [children]; rewrite E; by eexists). by apply not_elem_of_nil in Hin.
  - destruct (proj2 (Hch x)) as [k Hk]; [by apply elem_of_cons; left|]. destruct (gc_edge _ _ H c C x k HC Hk) as (_ & Hone & _ & Hrk & _). specialize (Hone Hc0). subst k.
    assert (Hneed : (need (nodes db) x < fuel)%nat).
    { unfold need. pose proof (reserve_lt M0 rank c x (Hw c ltac:(rewrite HC; by eexists)) ltac:(done)) as Hlt. destruct (nodes db !! x); lia. }
    destruct (Hd x c db C 1 H Hw HC Hk Hneed) as (d1 & -> & [D1 D2 D3 D4 D5 D6 D7 D8]). cbn [mbind outcome_bind].
    destruct (IH Hc0 d1 (unref x C)) as (d2 & -> & E1 & E2 & E3 & E4 & E5 & E6 & E7 & E8).
    + by rewrite D1.
    + intros h Hh. by apply Hw, D6.
    + done.
    + intros y. cbn [unref children]. rewrite (drop_child_spec x _ 1 Hk). destruct (decide (y = x)) as [->|Hne]; [split; [by intros [? ?]|done]|].
      rewrite Hch, elem_of_cons. naive_solver.
    + lia.
    + rewrite D1 in E3. exists d2. split_and!; [done|congruence|congruence|done|done| | | |].
      * intros h Hh. rewrite E5 by done. apply D5; [intros ->; lia|intros _; lia].
      * intros h Hh. by apply D6, E6.
      * intros h n' Hn' Hp. destruct (E7 h n' Hn' Hp) as (n & Hn & Hpn). by eapply D7.
      * intros h n' Hh Hn'. destruct (E8 h n' Hh Hn') as (n & Hn & ->). by apply D8.
Qed.

Lemma keys_NoDup {A} (m : gmap Hash A) : NoDup (keys order m).
Proof. unfold keys. rewrite (order_perm _). apply NoDup_fst_map_to_list. Qed.

Lemma dereference_spec fuel : derefs fuel.
Proof.
  induction fuel as [|fuel IH]; intros c p db P k H Hw HP Hk Hf; [lia|]. cbn [dereference]. rewrite HP. cbn [deref mbind outcome_bind].
  pose proof (unref_gc _ _ p c P k H HP Hk) as Hun. pose proof (gc_edge _ _ H p P c k HP Hk) as (_ & _ & Hc0 & Hrk & _). assert (Hcp : c <> p) by (intros ->; lia).
  fold (unref c P). cbn [nodes set_nodes]. rewrite lookup_insert_ne by done. unfold need in Hf. destruct (nodes db !! c) as [C|] eqn:Ec.
  - set (C' := MkCached (blob C) (parents C - 1) (children C)) in *. set (d2 := set_nodes _ (set_nodes _ db)).
    assert (Hd2 : nodes d2 = <[c := C']> (<[p := unref c P]> (nodes db))) by done.
    assert (Hp2 : nodes d2 !! p = Some (unref c P)) by (rewrite Hd2, lookup_insert_ne by done; by rewrite lookup_insert_eq).
    assert (Hc2 : nodes d2 !! c = Some C') by (by rewrite Hd2, lookup_insert_eq).
    assert (Hf2 : forall h, h <> p -> h <> c -> nodes d2 !! h = nodes db !! h) by (intros h ? ?; by rewrite Hd2, !lookup_insert_ne).
    assert (Hs2 : smaller (nodes db) (nodes d2)).
    { intros h. rewrite Hd2, !lookup_insert_is_Some'. intros [<-|[<-|?]]; [by rewrite Ec; eexists|by rewrite HP; eexists|done]. }
    assert (Hnl : forall M', noleak (nodes d2) M' -> M' !! c = None \/ parents C - 1 <> 0 -> noleak (nodes db) M').
    { intros M' Hnl Hcc h n' Hn' Hpn. destruct (Hnl h n' Hn' Hpn) as (n & Hn & Hz). destruct (decide (h = c)) as [->|Hhc].
      - destruct Hcc as [Hcc|Hcc]; [congruence|]. rewrite Hc2 in Hn. injection Hn as <-. done.
      - destruct (decide (h = p)) as [->|Hhp]; [exists P; split; [done|]; rewrite Hp2 in Hn; by injection Hn as <-|]. rewrite Hf2 in Hn by done. eauto. }
    assert (Hk2 : keep p (nodes db) (nodes d2)).
    { intros h n' Hh Hn'. rewrite Hd2 in Hn'. apply lookup_insert_Some in Hn' as [[<- <-]|[Hne Hn']]; [by exists C|]. rewrite lookup_insert_ne in Hn' by done. by exists n'. }
    destruct (parents C - 1 =? 0) eqn:Ez; bool_to_prop.
    + destruct (deref_loop fuel c (keys order (children C)) IH (keys_NoDup _) Hc0 d2 C') as (d3 & -> & E1 & E2 & E3 & E4 & E5 & E6 & E7 & E8).
      * done.
      * intros h Hh. by apply Hw, Hs2.
      * done.
      * intros x. by rewrite elem_of_keys.
      * lia.
      * cbn [mbind outcome_bind]. exists (remove c C d3). split; [done|]. split.
        -- done.
        -- done.
        -- cbn [nodes remove]. eapply (remove_gc _ _ c); [exact E3|exact E4|done|done|done].
        -- cbn [nodes remove]. rewrite lookup_delete_ne by done. rewrite E5 by done. done.
        -- intros h Hhp Hhc. specialize (Hhc ltac:(by rewrite Ec; eexists)). cbn [nodes remove]. rewrite lookup_delete_ne by (intros ->; lia). rewrite E5 by done. apply Hf2; [done|intros ->; lia].
        -- intros h Hh. cbn [nodes remove] in Hh. apply Hs2, E6. destruct Hh as [? [_ Hh]%lookup_delete_Some]. rewrite Hh. by eexists.
        -- apply Hnl; [|left; cbn [nodes remove]; by rewrite lookup_delete_eq]. intros h n'. cbn [nodes remove]. intros [_ Hn']%lookup_delete_Some. by apply E7.
        -- intros h n' Hh. cbn [nodes remove]. intros [Hne Hn']%lookup_delete_Some. destruct (E8 h n' ltac:(congruence) Hn') as (n & Hn & ->). by apply Hk2.
    + exists d2. split; [done|]. split; [done|done|exact Hun|done| |done| |exact Hk2].
      * intros h Hhp Hhc. specialize (Hhc ltac:(by rewrite Ec; eexists)). apply Hf2; [done|intros ->; lia].
      * apply Hnl; [|by right]. intros h n' Hn' Hpn. eauto.
  - eexists. split; [done|]. split; [done|done|exact Hun| | | | |].
    + cbn [nodes set_nodes]. by rewrite lookup_insert_eq.
    + intros h Hhp _. cbn [nodes set_nodes]. by rewrite lookup_insert_ne.
    + intros h. cbn [nodes set_nodes]. rewrite lookup_insert_is_Some'. intros [<-|?]; [by rewrite HP; eexists|done].
    + intros h n'. cbn [nodes set_nodes]. intros [[<- <-]|[Hne Hn']]%lookup_insert_Some Hpn; eauto.
    + intros h n' Hh. cbn [nodes set_nodes]. rewrite lookup_insert_ne by done. eauto.
Qed.

End Collect.

(** ** What is on disk is complete *)

(** A node on disk has everything it names on disk; a node in memory refers to what it
    names, or that is on disk. *)
Definition shut (disk : gmap bytes bytes) : Prop := forall h c, on_disk disk h -> c ∈ names h -> on_disk disk c.
Definition tracked (disk : gmap bytes bytes) (M : graph) : Prop := forall h n c, M !! h = Some n -> h <> 0 -> c ∈ names h -> is_Some (children n !! c) \/ on_disk disk c.

Lemma tracked_mono disk disk' M M' : (forall h, on_disk disk h -> on_disk disk' h) ->
  (forall h n', h <> 0 -> M' !! h = Some n' -> exists n, M !! h = Some n /\ forall c, is_Some (children n !! c) -> is_Some (children n' !! c)) -> tracked disk M -> tracked disk' M'.
Proof.
  intros Hd Hm H h n' c Hn' Hh Hc. destruct (Hm h n' Hh Hn') as (n & Hn & Hch). destruct (H h n c Hn Hh Hc) as [E|E]; [left; by apply Hch|right; by apply Hd].
Qed.

(** What the disk holds once the batch is written. *)
Definition pend (w : writer) : gmap bytes bytes := apply_writes (writes (w_batch w)) (w_disk w).
Definition grows (d d' : gmap bytes bytes) : Prop := forall h, on_disk d h -> on_disk d' h.
Lemma pend_put k v w : pend (put k v w) = <[k := v]> (pend w).
Proof. unfold pend, put, apply_writes. cbn [w_batch batch_Put writes w_disk]. by rewrite foldl_snoc. Qed.

Lemma on_disk_put disk h : 0 < h < 2 ^ 256 -> grows disk (<[hash_bytes h := content h]> disk) /\ on_disk (<[hash_bytes h := content h]> disk) h /\
  forall g, on_disk (<[hash_bytes h := content h]> disk) g -> g = h \/ on_disk disk g.
Proof.
  intros Hh. split_and!.
  - intros g [Hg E]. split; [done|]. destruct (decide (g = h)) as [->|Hne]; [by rewrite lookup_insert_eq|]. rewrite lookup_insert_ne; [done|]. intros Eh. apply Hne. symmetry. apply hash_bytes_inj; [lia|lia|done].
  - split; [done|]. by rewrite lookup_insert_eq.
  - intros g [Hg E]. destruct (decide (g = h)) as [->|Hne]; [by left|]. right. split; [done|]. rewrite lookup_insert_ne in E; [done|]. intros Eh. apply Hne. symmetry. apply hash_bytes_inj; [lia|lia|done].
Qed.
Lemma on_disk_secure disk h v g : on_disk (<[secureKey (hash_bytes h) := v]> disk) g <-> on_disk disk g.
Proof. unfold on_disk. rewrite lookup_insert_ne; [done|apply secureKey_hash]. Qed.

(** Whenever a batch is written, the disk is complete. *)
Section Writer.
Context (order : list Hash -> list Hash) (order_perm : forall l, order l ≡ₚ l) (fails : nat -> bool).

Definition complete (w : writer) : Prop := shut (w_disk w) /\ shut (pend w) /\ grows (w_disk w) (pend w).

Lemma flush_complete w : complete w -> complete (flush fails w).1 /\ pend (flush fails w).1 = pend w /\ ((flush fails w).2 = false -> w_disk (flush fails w).1 = pend w).
Proof. intros (H1 & H2 & H3). unfold flush. destruct (fails (w_count w)); cbn [fst snd]; [done|]. split; [|done]. split_and!; [done|done|]. by intros h. Qed.
Lemma maybe_flush_complete b w w' err : complete w -> (if b : bool then Ret (flush fails w) else Ret (w, false)) = Ret (w', err) -> complete w' /\ pend w' = pend w.
Proof. intros Hw. destruct b; [|by intros [= <- <-]]. intros [= E]. pose proof (flush_complete w Hw) as (H1 & H2 & _). by rewrite E in H1, H2. Qed.

(** A loop that only adds to the disk; what its steps add is there unless it stopped. *)
Definition adds (w : writer) (r : outcome (writer * bool)) (P : Hash -> Prop) : Prop := forall w' err, r = Ret (w', err) ->
  complete w -> complete w' /\ grows (pend w) (pend w') /\ (err = false -> forall h, P h -> on_disk (pend w') h).
Lemma each_adds {A} (Q : writer -> Prop) (f : A -> writer -> outcome (writer * bool)) (P : A -> Hash -> Prop) l :
  (forall w w', Q w -> grows (pend w) (pend w') -> Q w') -> (forall x w, x ∈ l -> Q w -> adds w (f x w) (P x)) ->
  forall w, Q w -> adds w (each f l w) (fun h => exists x, x ∈ l /\ P x h).
Proof.
  intros HQ. induction l as [|x l IH]; intros Hf w Hw w' err; cbn [each].
  - intros [= <- <-] Hc. split_and!; [done|by intros h|]. intros _ h (x & Hx & _). by apply not_elem_of_nil in Hx.
  - specialize (Hf x w ltac:(by apply elem_of_cons; left) Hw) as Hx. destruct (f x w) as [[w1 e1]|] eqn:E1; [|done]. cbn [mbind outcome_bind]. intros E Hc.
    destruct (Hx w1 e1 eq_refl Hc) as (Hc1 & Hg1 & Hp1). destruct e1; [by injection E as <- <-|].
    destruct (IH (fun y w Hy => Hf y w ltac:(by apply elem_of_cons; right)) w1 (HQ _ _ Hw Hg1) w' err E Hc1) as (Hc2 & Hg2 & Hp2). split_and!; [done|intros h Hh; by apply Hg2, Hg1|].
    intros He h (y & [->|Hy]%elem_of_cons & Hh); [by apply Hg2, Hp1|]. apply Hp2; eauto.
Qed.

Lemma put_preimage_adds pre h w : adds w (put_preimage fails pre h w) (fun _ => False).
Proof.
  intros w' err E (H1 & H2 & H3). unfold put_preimage in E.
  set (w1 := put (secureKey (hash_bytes h)) (default [] (pre !! h)) w) in *. assert (Hiff : forall g, on_disk (pend w1) g <-> on_disk (pend w) g) by (intros g; unfold w1; rewrite pend_put; apply on_disk_secure).
  assert (Hc1 : complete w1). { split_and!; [done| |intros g Hg; by apply Hiff, H3]. intros g c Hg Hc. apply Hiff. apply (H2 g); [by apply Hiff|done]. }
  apply (maybe_flush_complete _ w1) in E as [Hc' Hp]; [|done]. split_and!; [done| |done]. intros g Hg. rewrite Hp. by apply Hiff.
Qed.

(** [commit] writes a node after everything it refers to. *)
Lemma commit_adds disk db : gc_inv disk (nodes db) -> tracked disk (nodes db) -> forall fuel h w, h <> 0 -> grows disk (pend w) ->
  adds w (commit order fails fuel db h w) (fun g => g = h /\ (is_Some (nodes db !! h) \/ on_disk disk h)).
Proof.
  intros Hinv Htr. induction fuel as [|fuel IH]; intros h w Hh Hd w' err; cbn [commit]; [done|]. destruct (nodes db !! h) as [n|] eqn:En.
  - pose proof (each_adds (fun w => grows disk (pend w)) (commit order fails fuel db) (fun c g => g = c /\ (is_Some (nodes db !! c) \/ on_disk disk c)) (keys order (children n))) as Hloop.
    specialize (Hloop ltac:(intros w1 w2 H1 H2 g Hg; by apply H2, H1)).
    assert (Hsteps : forall c w, c ∈ keys order (children n) -> grows disk (pend w) -> adds w (commit order fails fuel db c w) (fun g => g = c /\ (is_Some (nodes db !! c) \/ on_disk disk c))).
    { intros c w1 Hc Hw1. apply IH; [|done]. apply (elem_of_keys order order_perm) in Hc as [k Hk]. by destruct (gc_edge _ _ Hinv h n c k En Hk) as (_ & _ & ? & _). }
    specialize (Hloop Hsteps w Hd). destruct (each _ _ w) as [[w1 e1]|]; [|done]. cbn [mbind outcome_bind]. intros E Hc. destruct (Hloop w1 e1 eq_refl Hc) as (Hc1 & Hg1 & Hp1).
    destruct e1; [by injection E as <- <-|]. destruct (gc_blob _ _ Hinv h n En Hh) as [Hb Hr]. rewrite Hb in E. cbn [default from_option id] in E. cbv zeta in E.
    set (w2 := put (hash_bytes h) (content h) w1) in *. assert (E2 : pend w2 = <[hash_bytes h := content h]> (pend w1)) by apply pend_put.
    destruct (on_disk_put (pend w1) h ltac:(lia)) as (Hgr & Hself & Hor). rewrite <- E2 in Hgr, Hself, Hor. destruct Hc1 as (S1 & S2 & S3).
    assert (Hc2 : complete w2).
    { split_and!; [done| |intros g Hg; by apply Hgr, S3]. intros g c Hg Hcn. apply Hgr. destruct (Hor g Hg) as [->|Hg1']; [|by apply (S2 g)].
      destruct (Htr h n c En Hh Hcn) as [[k Hk]|Hdc]; [|by apply Hg1, Hd]. apply Hp1; [done|]. exists c. split; [apply (elem_of_keys order order_perm); by eexists|].
      split; [done|]. by destruct (gc_edge _ _ Hinv h n c k En Hk) as (_ & _ & _ & _ & ?). }
    apply (maybe_flush_complete _ w2) in E as [Hc' Hp]; [|done]. rewrite Hp. split_and!; [done|intros g Hg; by apply Hgr, Hg1|]. by intros _ g [-> _].
  - intros [= <- <-] Hc. split_and!; [done|by intros g|]. intros _ g [-> [[? ?]|Hg]]; [done|by apply Hd].
Qed.

Lemma uncache_disk fuel : forall h db db', uncache order fuel h db = Ret db' -> diskdb db' = diskdb db.
Proof.
  induction fuel as [|fuel IH]; intros h db db'; cbn [uncache]; [done|]. destruct (nodes db !! h) as [n|]; [|by intros [= <-]].
  assert (Hl : forall l d r, each (fun child db => db ← uncache order fuel child db; Ret (db, false)) l d = Ret r -> diskdb r.1 = diskdb d).
  { induction l as [|c l IHl]; intros d r; cbn [each]; [by intros [= <-]|]. destruct (uncache order fuel c d) as [d1|] eqn:E1; [|done]. cbn [mbind outcome_bind]. intros E. apply IHl in E as ->. by eapply IH. }
  specialize (Hl (keys order (children n)) db). destruct (each _ _ db) as [[d e]|]; [|done]. cbn [mbind outcome_bind]. intros [= <-]. exact (Hl _ eq_refl).
Qed.

Lemma Commit_complete db r db' res : r <> 0 -> gc_inv (diskdb db) (nodes db) -> tracked (diskdb db) (nodes db) -> shut (diskdb db) ->
  Commit order fails db r = Ret (db', res) -> shut (diskdb db').
Proof.
  intros Hr Hinv Htr Hs. unfold Commit. set (w0 := MkWriter NewBatch (diskdb db) 0). assert (Hc0 : complete w0) by (split_and!; [done|done|by intros h]).
  pose proof (each_adds (fun _ => True) (put_preimage fails (preimages db)) (fun _ _ => False) (keys order (preimages db)) ltac:(done) ltac:(intros; apply put_preimage_adds) w0 I) as H1.
  destruct (each _ _ w0) as [[w1 e1]|]; [|done]. cbn [mbind outcome_bind]. destruct (H1 w1 e1 eq_refl Hc0) as (Hc1 & Hg1 & _). destruct e1; [intros [= <- _]; apply Hc1|].
  pose proof (commit_adds (diskdb db) db Hinv Htr (depth db) r w1 Hr Hg1) as H2. destruct (commit order fails (depth db) db r w1) as [[w2 e2]|]; [|done]. cbn [mbind outcome_bind].
  destruct (H2 w2 e2 eq_refl Hc1) as (Hc2 & _ & _). destruct e2; [intros [= <- _]; apply Hc2|]. pose proof (flush_complete w2 Hc2) as (Hc3 & _ & _). destruct (flush fails w2) as [w3 e3]. cbn [fst] in Hc3.
  destruct e3; [intros [= <- _]; apply Hc3|]. set (db1 := MkDb (w_disk w3) (nodes db) ∅ (nodesSize db) 0). cbv zeta. destruct (uncache order (depth db1) r db1) as [db2|] eqn:E; [|done].
  intros [= <- _]. rewrite (uncache_disk _ _ _ _ E). apply Hc3.
Qed.
End Writer.

(** ** The database as a state machine *)

(** Storing a node: it is inserted and refers to the nodes it names, under one lock. *)
Definition ref_all (cs : list Hash) (h : Hash) (db : Database) : outcome Database := foldl (fun db c => d ← db; reference c h d) (Ret db) cs.
Definition gc_store (h : Hash) (db : Database) : outcome Database := ref_all (names h) h (insert h (content h) db).

Inductive gc_op :=
| GStore (h : Hash)
| GPreimage (h : Hash) (p : bytes)
| GReference (child parent : Hash)
| GDereference (order : list Hash -> list Hash) (root : Hash)
| GCommit (order : list Hash -> list Hash) (fails : nat -> bool) (root : Hash).

Definition gc_exec (db : Database) (o : gc_op) : outcome Database :=
  match o with
  | GStore h => gc_store h db
  | GPreimage h p => Ret (insertPreimage h p db)
  | GReference c p => reference c p db
  | GDereference order r => Dereference order r 0 db
  | GCommit order fails r => '(db, _) ← Commit order fails db r; Ret db
  end.

(** How the operations are used: hashes are not zero, a node is stored after the nodes it
    names, references go from a node in memory to one of smaller rank, and a root is
    dereferenced as often as it was referenced. *)
Definition gc_pre (db : Database) (o : gc_op) : Prop :=
  match o with
  | GStore h => 0 < h < 2 ^ 256 /\ forall c, c ∈ names h -> (rank c < rank h)%nat /\ c <> 0 /\ (is_Some (nodes db !! c) \/ on_disk (diskdb db) c)
  | GPreimage h p => 0 <= h < 2 ^ 256
  | GReference c p => is_Some (nodes db !! p) /\ (rank c < rank p)%nat /\ c <> 0
  | GDereference order r => (forall l, order l ≡ₚ l) /\ exists R, nodes db !! 0 = Some R /\ is_Some (children R !! r)
  | GCommit order fails r => (forall l, order l ≡ₚ l) /\ r <> 0
  end.

(** The disk at the start holds whole tries. *)
Definition sound_disk (disk : gmap bytes bytes) : Prop := forall h b, 0 < h < 2 ^ 256 -> disk !! hash_bytes h = Some b -> b = content h.

Inductive gc_reach : Database -> Prop :=
| gr_init disk : sound_disk disk -> shut disk -> gc_reach (NewDatabase disk)
| gr_step db o db' : gc_reach db -> gc_pre db o -> gc_exec db o = Ret db' -> gc_reach db'.

(** What is needed: the roots, and what needed nodes refer to or name, in memory or not. *)
Inductive live (db : Database) : Hash -> Prop :=
| live_root R h : nodes db !! 0 = Some R -> is_Some (children R !! h) -> live db h
| live_edge h n c : live db h -> nodes db !! h = Some n -> is_Some (children n !! c) -> live db c
| live_name h c : live db h -> c ∈ names h -> live db c.

Record gc_ok (db : Database) : Prop := {
  ok_inv : gc_inv (diskdb db) (nodes db);
  ok_disk : sound_disk (diskdb db);
  ok_pre h p : preimages db !! h = Some p -> 0 <= h < 2 ^ 256;
  ok_tracked : tracked (diskdb db) (nodes db);
  ok_shut : shut (diskdb db)
}.

Lemma gc_ok_init disk : sound_disk disk -> shut disk -> gc_ok (NewDatabase disk).
Proof.
  intros Hd Hs. split; [|done| | |done].
  - split; cbn [nodes diskdb NewDatabase].
    + rewrite lookup_singleton_eq. by eexists.
    + intros h n [<- _]%lookup_singleton_Some. done.
    + intros p n c k [<- <-]%lookup_singleton_Some Hk. cbn [children] in Hk. by rewrite lookup_empty in Hk.
    + intros h n [<- _]%lookup_singleton_Some. done.
  - intros h p Hp. cbn [preimages NewDatabase] in Hp. by rewrite lookup_empty in Hp.
  - intros h n c. cbn [nodes NewDatabase]. by intros [<- _]%lookup_singleton_Some.
Qed.

(** What is needed can be read. *)
Lemma live_there db h : gc_ok db -> live db h -> h <> 0 /\ (is_Some (nodes db !! h) \/ on_disk (diskdb db) h).
Proof.
  intros [H Hd _ Ht Hs]. assert (Hedge : forall p n c, nodes db !! p = Some n -> is_Some (children n !! c) -> c <> 0 /\ (is_Some (nodes db !! c) \/ on_disk (diskdb db) c)).
  { intros p n c Hn [k Hk]. by destruct (gc_edge _ _ H p n c k Hn Hk) as (_ & _ & ? & _ & ?). }
  induction 1 as [R h HR Hh|h n c _ _ Hn Hc|h c _ [H0 IH] Hc]; [by eapply Hedge|by eapply Hedge|]. assert (Hdc : on_disk (diskdb db) c -> c <> 0) by (intros [? _]; lia).
  destruct IH as [[n Hn]|Hon]; [destruct (Ht h n c Hn H0 Hc) as [|]; [by eapply Hedge|tauto]|]. specialize (Hs h c Hon Hc). tauto.
Qed.
Lemma there_readable db h : gc_ok db -> h <> 0 -> is_Some (nodes db !! h) \/ on_disk (diskdb db) h -> Node db h = Some (content h).
Proof.
  intros [H _ _ _ _] H0 Hav. unfold Node. destruct (nodes db !! h) as [n|] eqn:E; [by destruct (gc_blob _ _ H h n E H0)|]. by destruct Hav as [[? ?]|[_ ?]].
Qed.

Lemma gc_ranked disk M : gc_inv disk M -> ranked M rank.
Proof. intros H h n c Hn [k Hk] _. by destruct (gc_edge _ _ H h n c k Hn Hk) as (_ & _ & _ & ? & _). Qed.
Lemma gc_reach_nonzero disk M a b : gc_inv disk M -> reach M a b -> a <> 0 -> b <> 0.
Proof. intros H. induction 1 as [|a n c b Hn [k Hk] _ IH]; [done|]. intros _. apply IH. by destruct (gc_edge _ _ H a n c k Hn Hk) as (_ & _ & ? & _). Qed.
Lemma gc_flushable db r : gc_ok db -> r <> 0 -> flushable db r.
Proof.
  intros [H Hd Hp _ _] Hr. assert (Hb : forall h n, nodes db !! h = Some n -> h <> 0 -> blob n = Some (content h) /\ 0 <= h < 2 ^ 256) by apply H. split.
  - exists rank. by eapply gc_ranked.
  - intros h n Hn. destruct (decide (h = 0)) as [->|Hne]; [done|]. by eapply Hb.
  - done.
  - intros h n Hrh Hn. pose proof (gc_reach_nonzero _ _ _ _ H Hrh Hr) as Hne. destruct (Hb h n Hn Hne) as [-> _]. by eexists.
Qed.

Lemma gc_commit order fails db r : (forall l, order l ≡ₚ l) -> gc_ok db -> r <> 0 -> exists db' res, Commit order fails db r = Ret (db', res) /\ gc_ok db'.
Proof.
  intros Ho Hok Hr. pose proof (gc_flushable db r Hok Hr) as Hfl. destruct (commit_effect order Ho fails db r Hfl) as (db' & res & HC & Hef). exists db', res. split; [done|].
  destruct Hok as [H Hd Hp Ht Hs]. pose proof (Commit_complete order Ho fails db r db' res Hr H Ht Hs HC) as Hs'. destruct Hfl as [_ Hnr _ _].
  assert (Hdisk : forall h, 0 < h < 2 ^ 256 -> diskdb db' !! hash_bytes h = diskdb db !! hash_bytes h \/ diskdb db' !! hash_bytes h = Some (content h)).
  { intros h Hh. destruct (ef_disk _ _ _ _ Hef (hash_bytes h)) as [|(v & Hv & [(g & n & Hg & E & ->)|(g & _ & E)])]; [by left|right|symmetry in E; by apply secureKey_hash in E].
    apply hash_bytes_inj in E; [subst g|lia|by eapply Hnr]. destruct (gc_blob _ _ H h n Hg ltac:(lia)) as [Eb _]. by rewrite Eb in Hv. }
  assert (Hon : grows (diskdb db) (diskdb db')) by (intros h [Hh E]; split; [done|]; destruct (Hdisk h Hh) as [->|]; done).
  split; [| | | |done].
  - apply (gc_disk _ _ _ Hon) in H. destruct res as [|b]; [|by destruct (ef_failed _ _ _ _ Hef ltac:(done)) as [-> _]]. pose proof (ef_nodes _ _ _ _ Hef eq_refl) as Hn.
    apply (uncached_gc _ (nodes db)); [done|apply Hef| |].
    + destruct (proj2 (Hn 0)) as [Hz| ->]; [|apply H]. by apply (gc_reach_nonzero _ _ _ _ H Hz) in Hr.
    + intros h [n En] Hgone. destruct (Hn h) as [Hd' [Hrh|E]]; [|congruence]. destruct (Hd' n Hrh En) as [_ E]. pose proof (gc_reach_nonzero _ _ _ _ H Hrh Hr) as Hne.
      destruct (gc_blob _ _ H h n En Hne) as [Eb Hrange]. split; [lia|]. by rewrite E, Eb.
  - intros h b Hh Hb. destruct (Hdisk h Hh) as [E|E]; [rewrite E in Hb; by eapply Hd|congruence].
  - intros h p. destruct res as [|b]; [destruct (ef_preimages _ _ _ _ Hef eq_refl) as [-> _]; by rewrite lookup_empty|]. destruct (ef_failed _ _ _ _ Hef ltac:(done)) as [_ ->]. apply Hp.
  - apply (tracked_mono _ _ _ _ Hon) with (2 := Ht). intros h n' _ Hn'. exists n'. split; [|done]. eapply lookup_weaken; [exact Hn'|apply Hef].
Qed.

(** References are only added, and the one asked for is there when its child is in memory. *)
Definition more (M M' : graph) : Prop := (forall h, is_Some (M !! h) -> is_Some (M' !! h)) /\
  forall h n', M' !! h = Some n' -> exists n, M !! h = Some n /\ forall c, is_Some (children n !! c) -> is_Some (children n' !! c).
Lemma more_refl M : more M M.
Proof. split; [done|]. intros h n' Hn'. by exists n'. Qed.
Lemma more_trans M1 M2 M3 : more M1 M2 -> more M2 M3 -> more M1 M3.
Proof. intros [A1 B1] [A2 B2]. split; [auto|]. intros h n3 H3. destruct (B2 h n3 H3) as (n2 & H2 & E2). destruct (B1 h n2 H2) as (n1 & H1 & E1). exists n1. split; [done|]. auto. Qed.

(** What adding references from [p] to [cs] leaves. *)
Record referenced (db : Database) (cs : list Hash) (p : Hash) (db' : Database) : Prop := {
  re_inv : gc_inv (diskdb db') (nodes db');
  re_disk : diskdb db' = diskdb db;
  re_pre : preimages db' = preimages db;
  re_more : more (nodes db) (nodes db');
  re_edge c P' : c ∈ cs -> is_Some (nodes db !! c) -> nodes db' !! p = Some P' -> is_Some (children P' !! c)
}.

Lemma gc_reference db c p : gc_inv (diskdb db) (nodes db) -> is_Some (nodes db !! p) -> (rank c < rank p)%nat -> c <> 0 -> exists db', reference c p db = Ret db' /\ referenced db [c] p db'.
Proof.
  intros H [P HP] Hrk Hc0. unfold reference. pose proof (more_refl (nodes db)) as Hm. destruct (nodes db !! c) as [C|] eqn:Ec.
  2:{ exists db. split; [done|]. split; try done. intros x P' ->%list_elem_of_singleton [? ?]. congruence. }
  rewrite HP. cbn [deref mbind outcome_bind]. destruct (bool_decide (is_Some (children P !! c)) && negb (p =? 0)) eqn:Eb.
  { exists db. split; [done|]. apply andb_true_iff in Eb as [Eb%bool_decide_eq_true_1 _]. split; try done. intros x P' ->%list_elem_of_singleton _ HP'. by simplify_eq. }
  assert (Hcp : c <> p) by (intros ->; lia). cbn [nodes set_nodes]. rewrite lookup_insert_ne by done. rewrite HP. cbn [deref mbind outcome_bind]. eexists. split; [done|]. split; cbn [nodes diskdb preimages set_nodes]; [|done|done| |].
  - apply reference_gc; try done. intros Hp0. rewrite (proj2 (Z.eqb_neq _ _)), andb_true_r in Eb by done. bool_to_prop. destruct (children P !! c); [|done]. destruct Eb. by eexists.
  - split; [intros h Hh; rewrite !lookup_insert_is_Some'; by right; right|]. intros h n' [[<- <-]|[_ [[<- <-]|[_ Hn]]%lookup_insert_Some]]%lookup_insert_Some; [|by eauto..].
    exists P. split; [done|]. intros x Hx. cbn [children]. apply lookup_insert_is_Some'. by right.
  - intros x P' ->%list_elem_of_singleton _. rewrite lookup_insert_eq. intros [= <-]. cbn [children]. rewrite lookup_insert_eq. by eexists.
Qed.

Lemma gc_ref_all p cs : (forall c, c ∈ cs -> (rank c < rank p)%nat /\ c <> 0) -> forall db, gc_inv (diskdb db) (nodes db) -> is_Some (nodes db !! p) -> exists db', ref_all cs p db = Ret db' /\ referenced db cs p db'.
Proof.
  unfold ref_all. induction cs as [|c cs IH] using rev_ind; intros Hcs db H Hp.
  - exists db. split; [done|]. split; [done|done|done|apply more_refl|]. intros c P' Hc. by apply not_elem_of_nil in Hc.
  - destruct (IH (fun x Hx => Hcs x ltac:(apply elem_of_app; by left)) db H Hp) as (d1 & E1 & [R1 R2 R3 R4 R5]). rewrite foldl_snoc, E1. cbn [mbind outcome_bind].
    destruct (Hcs c ltac:(apply elem_of_app; right; by apply list_elem_of_singleton)) as [Hrk Hc0]. destruct (gc_reference d1 c p R1 (proj1 R4 p Hp) Hrk Hc0) as (d2 & -> & [Q1 Q2 Q3 Q4 Q5]).
    exists d2. split; [done|]. split; [done|congruence|congruence|by eapply more_trans|]. intros x P' [Hx|Hx]%elem_of_app Hin HP'.
    + destruct (proj2 Q4 p P' HP') as (P1 & HP1 & Hch). apply Hch. by apply (R5 x P1).
    + apply (Q5 x P' Hx); [by apply R4|done].
Qed.

(** [tracked] is kept when references are only added. *)
Lemma more_tracked disk M M' : more M M' -> tracked disk M -> tracked disk M'.
Proof. intros [_ Hm]. apply tracked_mono; [done|]. intros h n' _. apply Hm. Qed.

Lemma gc_insert h db : 0 < h < 2 ^ 256 -> gc_inv (diskdb db) (nodes db) -> gc_inv (diskdb (insert h (content h) db)) (nodes (insert h (content h) db)) /\ is_Some (nodes (insert h (content h) db) !! h) /\
  diskdb (insert h (content h) db) = diskdb db /\ preimages (insert h (content h) db) = preimages db /\ forall g, g <> h -> nodes (insert h (content h) db) !! g = nodes db !! g.
Proof.
  intros Hh H. unfold insert. destruct (nodes db !! h) as [n|] eqn:E; [by rewrite E; split_and!; try done; eexists|]. cbn [nodes diskdb preimages]. split_and!; [by apply insert_gc| |done|done|].
  - rewrite lookup_insert_eq. by eexists.
  - intros g Hg. by rewrite lookup_insert_ne.
Qed.

Lemma gc_store_ok h db : gc_ok db -> gc_pre db (GStore h) -> exists db', gc_store h db = Ret db' /\ gc_ok db'.
Proof.
  intros [H Hd Hp Ht Hs] [Hh Hcs]. unfold gc_store. destruct (gc_insert h db Hh H) as (I1 & I2 & I3 & I4 & I5). set (d1 := insert h (content h) db) in *.
  destruct (gc_ref_all h (names h) (fun c Hc => ltac:(by destruct (Hcs c Hc) as (? & ? & _))) d1 I1 I2) as (d2 & -> & [R1 R2 R3 R4 R5]). exists d2. split; [done|].
  rewrite I3 in R2. rewrite I4 in R3. split; [done|by rewrite R2|by rewrite R3| |by rewrite R2].
  intros g n c Hn Hg Hc. rewrite R2. destruct (decide (g = h)) as [->|Hne].
  - destruct (Hcs c Hc) as (Hrk & _ & [Hin|]); [|by right]. left. apply (R5 c n Hc); [|done]. rewrite I5; [done|intros ->; lia].
  - destruct (proj2 R4 g n Hn) as (n0 & Hn0 & Hch). rewrite I5 in Hn0 by done. destruct (Ht g n0 c Hn0 Hg Hc); [left; by apply Hch|by right].
Qed.

Lemma gc_dereference order db r : gc_ok db -> gc_pre db (GDereference order r) -> exists db', Dereference order r 0 db = Ret db' /\ gc_ok db' /\ noleak (nodes db) (nodes db') /\
  forall R, nodes db !! 0 = Some R -> nodes db' !! 0 = Some (unref r R).
Proof.
  intros [H Hd Hp Ht Hs] (Ho & R & HR & [k Hk]). unfold Dereference. destruct (dereference_spec order Ho (nodes db) (depth db) r 0 db R k) as (db' & -> & [D1 D2 D3 D4 _ _ D7 D8]); try done.
  { by intros h. }
  { unfold need, depth. pose proof (reserve_bound (nodes db) rank r). destruct (nodes db !! r); lia. }
  exists db'. split; [done|]. split; [|split; [done|by intros ? [= <-]%(eq_trans (eq_sym HR))]]. split; [by rewrite D1|by rewrite D1|by rewrite D2| |by rewrite D1].
  rewrite D1. apply (tracked_mono _ _ _ _ (fun h Hh => Hh)) with (2 := Ht). intros h n' Hh Hn'. destruct (D8 h n' Hh Hn') as (n & Hn & E). exists n. split; [done|]. by rewrite E.
Qed.

Lemma gc_step db o : gc_ok db -> gc_pre db o -> exists db', gc_exec db o = Ret db' /\ gc_ok db'.
Proof.
  intros Hok Hpre. destruct o as [h|h p|c p|order r|order fails r]; cbn [gc_exec].
  - by apply gc_store_ok.
  - eexists. split; [done|]. destruct Hok as [H Hd Hp Ht Hs]. unfold insertPreimage. destruct (preimages db !! h) eqn:E; [by split|]. split; [done|done| |done|done]. cbn [preimages].
    intros g q [[<- _]|[_ Hg]]%lookup_insert_Some; [done|by eapply Hp].
  - destruct Hok as [H Hd Hp Ht Hs], Hpre as (Hin & Hrk & Hc0). destruct (gc_reference db c p H Hin Hrk Hc0) as (db' & -> & [R1 R2 R3 R4 _]). exists db'. split; [done|].
    split; [done|by rewrite R2|by rewrite R3|rewrite R2; by eapply more_tracked|by rewrite R2].
  - destruct (gc_dereference order db r Hok Hpre) as (db' & -> & Hok' & _). by exists db'.
  - destruct Hpre as [Ho Hr]. destruct (gc_commit order fails db r Ho Hok Hr) as (db' & res & -> & Hok'). by exists db'.
Qed.

Lemma gc_reach_ok db : gc_reach db -> gc_ok db.
Proof.
  induction 1 as [disk Hd Hs|db o db' _ IH Hpre He]; [by apply gc_ok_init|]. destruct (gc_step db o IH Hpre) as (d & Hd & Hok). congruence.
Qed.

End Gc.

(** The references that the hasher adds for a node it stores ([TrieHash.ref_children], under
    the lock in which it inserts the node) are those of [gc_store]. *)
Definition child_hashes (n : Trie.node) : list Hash :=
  let hashes cs := omap (fun c => match c with Some (Trie.hashNode h) => Some (BytesToHash h) | _ => None end) cs in
  match n with
  | Trie.shortNode _ v _ => hashes [v]
  | Trie.fullNode cs _ => hashes (take 16 cs)
  | _ => []
  end.
Lemma store_references n h db : TrieHash.ref_children n h db = ref_all (child_hashes n) h db.
Proof.
  assert (Hf : forall cs o, foldl (TrieHash.ref_child h) o cs = foldl (fun db c => d ← db; reference c h d) o (omap (fun c => match c with Some (Trie.hashNode h) => Some (BytesToHash h) | _ => None end) cs)).
  { induction cs as [|c cs IH]; intros o; [done|]. cbn [foldl omap list_omap]. rewrite IH. by destruct c as [[]|]. }
  destruct n as [cs f|k v f|x|x]; [apply Hf|apply (Hf [v])|done|done].
Qed.

(** C26: Garbage collection by reference counts keeps what is needed.  Take a memory
    database that starts empty over a disk that holds whole tries, and any sequence of
    storing nodes (each after the nodes that it names, [names] being the hashes in a node's
    content, and all references acyclic), references, dereferences of roots and flushes,
    with any order of map iteration and any failing writes.  Then each of these operations
    returns without a panic; everything that can be reached from a root that is still
    referenced, along references in memory or along the hashes that nodes name, whether
    these nodes are in memory or on disk by now, can be read and has its content; the count
    of every node in memory is exactly the number of references to it from nodes in memory
    and from roots, unless the node is on disk as well (a node stored again after a flush
    starts at zero); and dereferencing a root takes one from its count and leaves no node
    whose count dropped to zero. *)
Theorem referenced_nodes_stay content rank names db : gc_reach content rank names db ->
  (forall o, gc_pre content rank names db o -> exists db', gc_exec content names db o = Ret db') /\
  (forall h, live names db h -> Node db h = Some (content h)) /\
  (forall h n, nodes db !! h = Some n -> h <> 0 -> parents n = refs (nodes db) h \/ diskdb db !! hash_bytes h = Some (content h)) /\
  (forall order r R, gc_pre content rank names db (GDereference order r) -> nodes db !! 0 = Some R -> exists db', Dereference order r 0 db = Ret db' /\
     nodes db' !! 0 = Some (unref r R) /\ noleak (nodes db) (nodes db')).
Proof.
  intros Hr. pose proof (gc_reach_ok content rank names db Hr) as Hok. split_and!.
  - intros o Hpre. destruct (gc_step content rank names db o Hok Hpre) as (db' & Hd & _). by exists db'.
  - intros h Hl. destruct (live_there content rank names db h Hok Hl) as [H0 Hav]. by eapply there_readable.
  - intros h n Hn H0. destruct (gc_count _ _ _ _ (ok_inv _ _ _ _ Hok) h n Hn H0) as [|[_ ?]]; [by left|by right].
  - intros order r R Hpre HR. destruct (gc_dereference content rank names order db r Hok Hpre) as (db' & Hd & _ & Hn & Hroot). exists db'. split_and!; [done|by apply Hroot|done].
Qed.

(** A leaf stored and flushed to disk, then a node that names it, with a root. *)
Definition toy_content (h : Hash) : bytes := [h].
Definition toy_rank (h : Hash) : nat := if h =? 0 then 3 else if h =? 4 then 2 else if h =? 5 then 1 else 0.
Definition toy_names (h : Hash) : list Hash := if h =? 4 then [5; 5] else if h =? 5 then [6] else [].
Definition toy_ops : list gc_op := [GStore 6; GStore 5; GCommit reverse (fun _ => false) 5; GStore 4; GReference 4 0].
Fixpoint toy_run (db : Database) (os : list gc_op) : Database :=
  match os with [] => db | o :: os => match gc_exec toy_content toy_names db o with Ret db => toy_run db os | Panic => db end end.
Definition toy_db : Database := toy_run (NewDatabase ∅) toy_ops.

Lemma referenced_nodes_stay_witness : gc_reach toy_content toy_rank toy_names toy_db /\ Node toy_db 6 = Some [6] /\ nodes toy_db !! 6 = None /\
  exists db', Dereference reverse 4 0 toy_db = Ret db' /\ noleak (nodes toy_db) (nodes db') /\ nodes db' !! 4 = None.
Proof.
  assert (H : gc_reach toy_content toy_rank toy_names toy_db).
  { eapply (gr_step _ _ _ _ (GReference 4 0)); [eapply (gr_step _ _ _ _ (GStore 4)); [eapply (gr_step _ _ _ _ (GCommit reverse (fun _ => false) 5)); [eapply (gr_step _ _ _ _ (GStore 5)); [eapply (gr_step _ _ _ _ (GStore 6)); [apply (gr_init _ _ _ ∅)|..]|..]|..]|..]|..].
    all: try lazymatch goal with |- gc_exec _ _ _ _ = _ => vm_compute; reflexivity end.
    - intros h b _ Hb. by rewrite lookup_empty in Hb.
    - intros h c [_ Hb]. by rewrite lookup_empty in Hb.
    - split; [done|]. intros c Hc. by apply not_elem_of_nil in Hc.
    - split; [done|]. intros c ->%list_elem_of_singleton. split_and!; [vm_compute; lia|done|left; vm_compute; by eexists].
    - split; [intros l; apply reverse_Permutation|done].
    - split; [done|]. intros c Hc. assert (c = 5) as -> by (by apply elem_of_cons in Hc as [->| ->%list_elem_of_singleton]). split_and!; [vm_compute; lia|done|right; split; [done|vm_compute; reflexivity]].
    - split_and!; [vm_compute; by eexists|vm_compute; lia|done]. }
  destruct (referenced_nodes_stay toy_content toy_rank toy_names toy_db H) as (_ & Hread & _ & Hde). split; [done|]. split; [|split; [vm_compute; reflexivity|]].
  - apply (Hread 6). apply (live_name _ _ 5); [apply (live_name _ _ 4); [eapply live_root; [vm_compute; reflexivity|by eexists]|]|]; cbn; set_solver.
  - edestruct (Hde reverse 4) as (db' & Hd & _ & Hn); [|vm_compute; reflexivity|].
    + split; [intros l; apply reverse_Permutation|]. eexists. split; [vm_compute; reflexivity|]. by eexists.
    + exists db'. split_and!; [done|done|]. vm_compute in Hd. injection Hd as <-. vm_compute. reflexivity.
Defined.

End TrieGc.
