(* ===== verification/Consensus.v ===== *)
(** The DPoS consensus engine: header and uncle verification, difficulty,
    rewards ([consensus/dpos/handler.go]) and the copy of that engine kept for
    the tests ([consensus/defhandler.go]).

    [Header] and [Block] follow [core/types/block.go].  The Keccak hash of a
    header, the hash of the empty uncle list and the wall clock are parameters;
    [ChainReader] is the interface of [consensus/consensus.go]. *)

From S2P Require Import Prelude Params.

(** ** core/types/block.go *)

Record Header := mkHeader {
  ParentHash : Hash;
  UncleHash : Hash;
  Coinbase : Address;
  Root : Hash;
  TxHash : Hash;
  ReceiptHash : Hash;
  Bloom : Z;
  Difficulty : Z;
  Number : Z;
  GasLimit : Z;
  GasUsed : Z;
  Time : Z;
  Extra : list Z;
  MixDigest : Hash;
  Nonce : Z;
  Round : Z;
  Round2 : Z;
  PresidentId : string;
  DAppID : Address;
  DAppMainHash : Hash
}.

#[export] Instance Header_eq_dec : EqDecision Header.
Proof. solve_decision. Defined.

Record Block := mkBlock {
  header : Header;
  uncles : list Header
}.

(** [consensus.ChainReader]: what the engine reads of the local chain. *)
Record ChainReader := mkChainReader {
  GetHeader : Hash -> Z -> option Header;
  GetBlock : Hash -> Z -> option Block
}.

(** Errors of [consensus/errors.go] and of the engine; the last five stand for
    the [fmt.Errorf] values. *)
Inductive VerifyError :=
| ErrUnknownAncestor
| ErrFutureBlock
| ErrInvalidNumber
| errLargeBlockTime
| errZeroBlockTime
| errTooManyUncles
| errDuplicateUncle
| errUncleIsAncestor
| errDanglingUncle
| errInvalidDifficulty
| errInvalidPoW
| errExtraTooLong
| errWrongDifficulty
| errGasLimitCap
| errGasUsedAboveLimit
| errGasLimitBounds.

#[export] Instance VerifyError_eq_dec : EqDecision VerifyError.
Proof. solve_decision. Defined.

(** A Go [error] value: [None] is nil. *)
Abbreviation error := (option VerifyError).

(** ** Constants of the engine *)
Definition ByzantiumBlockReward : Z := 3 * 10 ^ 18.
Definition maxUncles : nat := 2.
Definition allowedFutureBlockTime : Z := 15.
Definition expDiffPeriod : Z := 100000.
Definition big2999999 : Z := 2999999.

(** ** What the rewards need of the state database *)

Class BalanceDB (St : Type) := {
  db_GetBalance : St -> Address -> Z;
  db_AddBalance : St -> Address -> Z -> St
}.

Class BalanceDBLaws (St : Type) `{BalanceDB St} := {
  db_AddBalance_spec : forall s a v b,
    db_GetBalance (db_AddBalance s a v) b
    = db_GetBalance s b + (if bool_decide (a = b) then v else 0)
}.

Module Dpos.
Section Engine.
Context (headerHash : Header -> Hash) (EmptyUncleHash : Hash).

Definition blockHash (b : Block) : Hash := headerHash (header b).

(** [calcDifficultyByzantium]: big.Int arithmetic; [Div] by a positive
    constant is floor division. *)
Definition calcDifficultyByzantium (time : Z) (parent : Header) : Z :=
  let x := (time - Time parent) / 9 in
  let x := if UncleHash parent =? EmptyUncleHash then 1 - x else 2 - x in
  let x := if x <? -99 then -99 else x in
  let y := Difficulty parent / DifficultyBoundDivisor in
  let x := y * x in
  let x := Difficulty parent + x in
  let x := if x <? MinimumDifficulty then MinimumDifficulty else x in
  let fakeBlockNumber :=
    if big2999999 <=? Number parent then Number parent - big2999999 else 0 in
  let periodCount := fakeBlockNumber / expDiffPeriod in
  if 1 <? periodCount then x + 2 ^ (periodCount - 2) else x.

Definition CalcDifficulty (time : Z) (parent : Header) : Z :=
  calcDifficultyByzantium time parent.

Definition VerifySeal (h : Header) : error :=
  if Z.sgn (Difficulty h) <=? 0 then Some errInvalidDifficulty else None.

(** [verifyHeader] at wall-clock second [now]. *)
Definition verifyHeader (now : Z) (h parent : Header) (uncle seal : bool) : error :=
  if MaximumExtraDataSize <? Z.of_nat (length (Extra h)) then Some errExtraTooLong else
  if uncle && (MaxBig256 <? Time h) then Some errLargeBlockTime else
  if negb uncle && (now + allowedFutureBlockTime <? Time h) then Some ErrFutureBlock else
  if Time h <? Time parent then Some errZeroBlockTime else
  let expected := CalcDifficulty (big_Uint64 (Time h)) parent in
  if (DAppID h =? EmptyDAppIdHash) && negb (expected =? Difficulty h)
  then Some errWrongDifficulty else
  let cap := 0x7fffffffffffffff in
  if cap <? GasLimit h then Some errGasLimitCap else
  if GasLimit h <? GasUsed h then Some errGasUsedAboveLimit else
  let diff := i64 (i64 (GasLimit parent) - i64 (GasLimit h)) in
  let diff := if diff <? 0 then i64 (diff * -1) else diff in
  let limit := GasLimit parent / GasLimitBoundDivisor in
  if (limit <=? u64 diff) || (GasLimit h <? MinGasLimit) then Some errGasLimitBounds else
  if negb (Number h - Number parent =? 1) then Some ErrInvalidNumber else
  if seal then VerifySeal h else None.

Definition VerifyHeader (now : Z) (chain : ChainReader) (h : Header) (seal : bool) : error :=
  let number := big_Uint64 (Number h) in
  match GetHeader chain (headerHash h) number with
  | Some _ => None
  | None =>
      match GetHeader chain (ParentHash h) (u64 (number - 1)) with
      | None => Some ErrUnknownAncestor
      | Some parent => verifyHeader now h parent false seal
      end
  end.

(** [verifyHeaderWorker]; indexing [headers] or [seals] out of range panics. *)
Definition verifyHeaderWorker (now : Z) (chain : ChainReader)
    (headers : list Header) (seals : list bool) (index : nat) : outcome error :=
  h ← deref (headers !! index);
  parent ← match index with
           | O => Ret (GetHeader chain (ParentHash h) (u64 (big_Uint64 (Number h) - 1)))
           | S i => prev ← deref (headers !! i);
                    Ret (if headerHash prev =? ParentHash h then Some prev else None)
           end;
  match parent with
  | None => Ret (Some ErrUnknownAncestor)
  | Some parent =>
      match GetHeader chain (headerHash h) (big_Uint64 (Number h)) with
      | Some _ => Ret None
      | None => seal ← deref (seals !! index);
                Ret (verifyHeader now h parent false seal)
      end
  end.

(** First loop of [VerifyUncles]: at most [fuel] (7 in the code) ancestors. *)
Fixpoint gatherAncestors (chain : ChainReader) (fuel : nat) (parent : Hash) (number : Z)
    (us : gset Hash) (ancestors : gmap Hash Header) : gset Hash * gmap Hash Header :=
  match fuel with
  | O => (us, ancestors)
  | S fuel =>
      match GetBlock chain parent number with
      | None => (us, ancestors)
      | Some ancestor =>
          gatherAncestors chain fuel (ParentHash (header ancestor)) (u64 (number - 1))
            (us ∪ list_to_set (headerHash <$> uncles ancestor))
            (<[blockHash ancestor := header ancestor]> ancestors)
      end
  end.

(** Second loop of [VerifyUncles]. *)
Fixpoint checkUncles (now : Z) (block : Block) (ancestors : gmap Hash Header)
    (us : gset Hash) (l : list Header) : error :=
  match l with
  | [] => None
  | uncle :: l =>
      let hash := headerHash uncle in
      if bool_decide (hash ∈ us) then Some errDuplicateUncle else
      let us := {[hash]} ∪ us in
      match ancestors !! hash with
      | Some _ => Some errUncleIsAncestor
      | None =>
          match ancestors !! ParentHash uncle with
          | None => Some errDanglingUncle
          | Some uparent =>
              if ParentHash uncle =? ParentHash (header block) then Some errDanglingUncle else
              match verifyHeader now uncle uparent true true with
              | Some e => Some e
              | None => checkUncles now block ancestors us l
              end
          end
      end
  end.

Definition VerifyUncles (now : Z) (chain : ChainReader) (block : Block) : error :=
  if (maxUncles <? length (uncles block))%nat then Some errTooManyUncles else
  let '(us, ancestors) :=
    gatherAncestors chain 7 (ParentHash (header block))
      (u64 (big_Uint64 (Number (header block)) - 1)) ∅ ∅ in
  let ancestors := <[blockHash block := header block]> ancestors in
  let us := {[blockHash block]} ∪ us in
  checkUncles now block ancestors us (uncles block).

Definition set_Difficulty (h : Header) (d : Z) : Header :=
  mkHeader (ParentHash h) (UncleHash h) (Coinbase h) (Root h) (TxHash h) (ReceiptHash h)
    (Bloom h) d (Number h) (GasLimit h) (GasUsed h) (Time h) (Extra h) (MixDigest h)
    (Nonce h) (Round h) (Round2 h) (PresidentId h) (DAppID h) (DAppMainHash h).

(** [Prepare] fills in the difficulty of the header. *)
Definition Prepare (chain : ChainReader) (h : Header) : VerifyError + Header :=
  match GetHeader chain (ParentHash h) (u64 (big_Uint64 (Number h) - 1)) with
  | None => inl ErrUnknownAncestor
  | Some parent => inr (set_Difficulty h (CalcDifficulty (big_Uint64 (Time h)) parent))
  end.

(** [accumulateRewards]: the loop over the uncles carries the miner's reward. *)
Fixpoint accumulateUncles `{BalanceDB St} (h : Header) (us : list Header)
    (state : St) (reward : Z) : St * Z :=
  match us with
  | [] => (state, reward)
  | uncle :: us =>
      let r := (Number uncle + 8 - Number h) * ByzantiumBlockReward / 8 in
      let state := db_AddBalance state (Coinbase uncle) r in
      let r := ByzantiumBlockReward / 32 in
      accumulateUncles h us state (reward + r)
  end.

Definition accumulateRewards `{BalanceDB St} (state : St) (h : Header) (us : list Header) : St :=
  let '(state, reward) := accumulateUncles h us state ByzantiumBlockReward in
  db_AddBalance state (Coinbase h) reward.

End Engine.
End Dpos.

(** ** Properties of the engine *)

Module DposProps.
Section Props.
Context (headerHash : Header -> Hash) (EmptyUncleHash : Hash).
Notation verifyHeader := (Dpos.verifyHeader EmptyUncleHash).
Notation CalcDifficulty := (Dpos.CalcDifficulty EmptyUncleHash).

(** What a valid non-uncle header of the main chain is, over the integers. *)
Record HeaderValid (now : Z) (h parent : Header) (uncle seal : bool) : Prop := {
  hv_extra : Z.of_nat (length (Extra h)) <= MaximumExtraDataSize;
  hv_time_cap : if uncle then Time h <= MaxBig256 else Time h <= now + allowedFutureBlockTime;
  hv_time : Time parent <= Time h;
  hv_diff : DAppID h = EmptyDAppIdHash ->
            Difficulty h = CalcDifficulty (big_Uint64 (Time h)) parent;
  hv_cap : GasLimit h <= MaxInt64;
  hv_used : GasUsed h <= GasLimit h;
  hv_bounds : Z.abs (GasLimit parent - GasLimit h) < GasLimit parent / GasLimitBoundDivisor;
  hv_min : MinGasLimit <= GasLimit h;
  hv_number : Number h = Number parent + 1;
  hv_seal : seal = true -> 0 < Difficulty h
}.

Lemma abs_diff_i64 a b :
  0 <= a <= MaxInt64 -> 0 <= b <= MaxInt64 ->
  (let diff := i64 (i64 a - i64 b) in
   u64 (if diff <? 0 then i64 (diff * -1) else diff)) = Z.abs (a - b).
Proof.
  intros Ha Hb. unfold MaxInt64 in *. cbv zeta. rewrite !(i64_id a), !(i64_id b) by lia.
  rewrite (i64_id (a - b)) by lia.
  case_match; bool_to_prop; rewrite ?i64_id by lia; rewrite u64_id by go_lia; lia.
Qed.

Lemma VerifySeal_None h : Dpos.VerifySeal h = None <-> 0 < Difficulty h.
Proof. unfold Dpos.VerifySeal. case_match; bool_to_prop; split; intros; try done; lia. Qed.

Lemma verifyHeader_valid now h parent uncle seal :
  0 <= GasLimit h -> 0 <= GasLimit parent <= MaxInt64 ->
  verifyHeader now h parent uncle seal = None <-> HeaderValid now h parent uncle seal.
Proof.
  intros Hh Hp. unfold Dpos.verifyHeader. cbv zeta. rewrite !guard_None. split.
  - intros (He & Ht1 & Ht2 & Ht & Hd & Hc & Hu & Hb & Hn & Hs). bool_to_prop.
    rewrite abs_diff_i64 in * by go_lia.
    split; try go_lia.
    + destruct uncle; simpl in *; bool_to_prop; go_lia.
    + intros ->. by apply VerifySeal_None.
  - intros [He Ht Hp' Hd Hc Hu Hb Hm Hn Hs]. rewrite abs_diff_i64 by go_lia.
    repeat split; try (apply Z.ltb_ge; go_lia).
    + destruct uncle; [by apply Z.ltb_ge | done].
    + destruct uncle; [done | by apply Z.ltb_ge].
    + destruct (Z.eqb_spec (DAppID h) EmptyDAppIdHash) as [E|E]; [|done].
      rewrite Hd, Z.eqb_refl by done. done.
    + apply orb_false_iff. split; [apply Z.leb_gt | apply Z.ltb_ge]; go_lia.
    + apply negb_false_iff, Z.eqb_eq. lia.
    + destruct seal; [by apply VerifySeal_None, Hs | done].
Qed.

(** *** Difficulty *)

Lemma difficulty_floor time parent :
  MinimumDifficulty <= CalcDifficulty time parent.
Proof.
  unfold Dpos.CalcDifficulty, Dpos.calcDifficultyByzantium. cbv zeta.
  set (x := if _ <? MinimumDifficulty then _ else _).
  assert (MinimumDifficulty <= x) by (subst x; case_match; go_lia).
  case_match; [|done]. bool_to_prop.
  match goal with |- context [2 ^ ?e] => pose proof (Z.pow_nonneg 2 e) end. lia.
Qed.

(** A later timestamp never raises the difficulty. *)
Lemma difficulty_antitone t1 t2 parent :
  t1 <= t2 -> 0 <= Difficulty parent ->
  CalcDifficulty t2 parent <= CalcDifficulty t1 parent.
Proof.
  intros Ht Hd. unfold Dpos.CalcDifficulty, Dpos.calcDifficultyByzantium. cbv zeta.
  assert ((t1 - Time parent) / 9 <= (t2 - Time parent) / 9)
    by (apply Z.div_le_mono; lia).
  assert (0 <= Difficulty parent / DifficultyBoundDivisor)
    by (apply Z.div_pos; unfold DifficultyBoundDivisor; lia).
  set (p := (t1 - Time parent) / 9) in *. set (q := (t2 - Time parent) / 9) in *.
  set (y := Difficulty parent / DifficultyBoundDivisor) in *.
  set (cap := fun x => if x <? -99 then -99 else x).
  set (num := fun x => if UncleHash parent =? EmptyUncleHash then 1 - x else 2 - x).
  assert (cap (num q) <= cap (num p)) as Hc.
  { unfold cap, num. repeat case_match; bool_to_prop; lia. }
  assert (y * cap (num q) <= y * cap (num p)) by (apply Z.mul_le_mono_nonneg_l; lia).
  fold (num p) (num q). fold (cap (num p)) (cap (num q)).
  repeat case_match; bool_to_prop; lia.
Qed.

(** *** Uncles and rewards *)

Notation blockHash := (Dpos.blockHash headerHash).
Notation gatherAncestors := (Dpos.gatherAncestors headerHash).
Notation checkUncles := (Dpos.checkUncles headerHash EmptyUncleHash).
Notation VerifyUncles := (Dpos.VerifyUncles headerHash EmptyUncleHash).

(** The block database answers with a block of the hash and number asked for. *)
Definition chain_consistent (chain : ChainReader) : Prop :=
  forall h n b, GetBlock chain h n = Some b ->
    blockHash b = h /\ Number (header b) = n.

(** The recent ancestors of a block, nearest first. *)
Fixpoint ancestorsOf (chain : ChainReader) (k : nat) (parent : Hash) (number : Z) : list Block :=
  match k with
  | O => []
  | S k => match GetBlock chain parent number with
           | None => []
           | Some b => b :: ancestorsOf chain k (ParentHash (header b)) (u64 (number - 1))
           end
  end.

Definition recentAncestors (chain : ChainReader) (block : Block) : list Block :=
  ancestorsOf chain 7 (ParentHash (header block)) (u64 (big_Uint64 (Number (header block)) - 1)).

Lemma gatherAncestors_uncles chain k parent number us anc us' anc' hash :
  gatherAncestors chain k parent number us anc = (us', anc') ->
  hash ∈ us' <-> hash ∈ us \/
    exists b u, b ∈ ancestorsOf chain k parent number /\ u ∈ uncles b /\ hash = headerHash u.
Proof.
  revert parent number us anc; induction k as [|k IH]; intros parent number us anc; simpl.
  - intros [= <- <-]. set_solver.
  - destruct (GetBlock chain parent number) as [b|] eqn:Hb.
    + intros Hg. rewrite (IH _ _ _ _ Hg). set_solver.
    + intros [= <- <-]. set_solver.
Qed.

Lemma gatherAncestors_dom chain k parent number us anc us' anc' :
  gatherAncestors chain k parent number us anc = (us', anc') ->
  dom anc' = dom anc ∪ list_to_set (blockHash <$> ancestorsOf chain k parent number).
Proof.
  revert parent number us anc; induction k as [|k IH]; intros parent number us anc; simpl.
  - intros [= <- <-]. set_solver.
  - destruct (GetBlock chain parent number) as [b|] eqn:Hb.
    + intros Hg. rewrite (IH _ _ _ _ Hg), dom_insert_L. set_solver.
    + intros [= <- <-]. set_solver.
Qed.

(** The i-th gathered ancestor has number [number - i]; only the nearest one is
    filed under the hash [parent]. *)
Lemma gatherAncestors_number chain k parent number us anc us' anc' key a :
  chain_consistent chain ->
  gatherAncestors chain k parent number us anc = (us', anc') ->
  Z.of_nat k <= number + 1 <= MaxUint64 ->
  anc' !! key = Some a ->
  anc !! key = Some a \/ (key = parent /\ Number a = number) \/
  exists i, 1 <= i < Z.of_nat k /\ Number a = number - i.
Proof.
  intros Hok. revert parent number us anc.
  induction k as [|k IH]; intros parent number us anc; simpl.
  - intros [= <- <-] _ ?. by left.
  - destruct (GetBlock chain parent number) as [b|] eqn:Hb; [|intros [= <- <-] _ ?; by left].
    intros Hg Hn Ha. destruct (Hok _ _ _ Hb) as [Hbh Hbn].
    destruct k as [|k].
    { simpl in Hg. simplify_eq. apply lookup_insert_Some in Ha.
      destruct Ha as [[<- <-]|[_ Ha]]; [right; left; done|by left]. }
    rewrite (u64_id (number - 1)) in Hg by go_lia.
    destruct (IH _ _ _ _ Hg) as [Ha'|[[_ Ha']|(i & Hi & Ha')]]; [go_lia|done|..].
    + apply lookup_insert_Some in Ha'.
      destruct Ha' as [[<- <-]|[_ Ha']]; [right; left; done|by left].
    + right; right. exists 1. lia.
    + right; right. exists (i + 1). lia.
Qed.

Lemma gatherAncestors_forall (P : Header -> Prop) chain k parent number us anc us' anc' :
  gatherAncestors chain k parent number us anc = (us', anc') ->
  (forall h n b, GetBlock chain h n = Some b -> P (header b)) ->
  (forall key a, anc !! key = Some a -> P a) ->
  forall key a, anc' !! key = Some a -> P a.
Proof.
  intros Hg Hb. revert parent number us anc Hg.
  induction k as [|k IH]; intros parent number us anc; simpl; [naive_solver|].
  destruct (GetBlock chain parent number) as [b|] eqn:E; [|naive_solver].
  intros Hg Ha. apply (IH _ _ _ _ Hg). intros key a [[_ <-]|[_ ?]]%lookup_insert_Some; eauto.
Qed.

Lemma checkUncles_None now block anc us l :
  checkUncles now block anc us l = None ->
  NoDup (headerHash <$> l) /\
  forall u, u ∈ l -> headerHash u ∉ us /\ anc !! headerHash u = None /\
    exists p, anc !! ParentHash u = Some p /\ ParentHash u <> ParentHash (header block) /\
              verifyHeader now u p true true = None.
Proof.
  revert us; induction l as [|x l IH]; intros us; simpl; [set_solver by constructor|].
  case_bool_decide as Hin; [done|].
  destruct (anc !! headerHash x) eqn:Ex; [done|].
  destruct (anc !! ParentHash x) as [p|] eqn:Ep; [|done].
  destruct (Z.eqb_spec (ParentHash x) (ParentHash (header block))); [done|].
  destruct (verifyHeader now x p true true) eqn:Ev; [done|].
  intros Hc. destruct (IH _ Hc) as [Hnd Hall]. split.
  - constructor; [|done]. intros (y & Hy & Hyl)%list_elem_of_fmap.
    destruct (Hall y Hyl) as [Hni _]. set_solver.
  - intros u [->|Hu]%elem_of_cons; [naive_solver|].
    destruct (Hall u Hu) as (Hni & ? & ?). split; [set_solver|done].
Qed.

Lemma VerifyUncles_None now chain block :
  VerifyUncles now chain block = None ->
  (length (uncles block) <= 2)%nat /\
  exists us anc,
    gatherAncestors chain 7 (ParentHash (header block))
      (u64 (big_Uint64 (Number (header block)) - 1)) ∅ ∅ = (us, anc) /\
    checkUncles now block (<[blockHash block := header block]> anc)
      ({[blockHash block]} ∪ us) (uncles block) = None.
Proof.
  unfold Dpos.VerifyUncles. destruct (Nat.ltb_spec maxUncles (length (uncles block))); [done|].
  destruct (gatherAncestors _ _ _ _ _ _) as [us anc] eqn:Hg. intros Hc.
  split; [done|]. by exists us, anc.
Qed.

Lemma VerifyUncles_spec now chain block :
  chain_consistent chain ->
  7 <= Number (header block) <= MaxUint64 ->
  (forall u, u ∈ uncles block -> 0 <= GasLimit u /\ ParentHash u <> blockHash block) ->
  (forall h n b, GetBlock chain h n = Some b -> 0 <= GasLimit (header b) <= MaxInt64) ->
  VerifyUncles now chain block = None ->
  (length (uncles block) <= 2)%nat /\ NoDup (headerHash <$> uncles block) /\
  forall u, u ∈ uncles block ->
    (forall b, b ∈ recentAncestors chain block ->
       headerHash u <> blockHash b /\ headerHash u ∉ headerHash <$> uncles b) /\
    1 <= Number (header block) - Number u <= 6 /\ 0 < Difficulty u.
Proof.
  intros Hok Hnum Hu Hgl Hv.
  apply VerifyUncles_None in Hv as (Hlen & us & anc & Hg & Hc).
  apply checkUncles_None in Hc as [Hnd Hall]. split_and!; [done|done|].
  intros u Hin. destruct (Hall u Hin) as (Hni & Hna & p & Hp & Hpar & Hvh). split.
  - intros b Hb. split.
    + intros Heq. apply not_elem_of_dom in Hna. apply Hna.
      rewrite dom_insert_L, (gatherAncestors_dom _ _ _ _ _ _ _ _ Hg), Heq.
      apply elem_of_union_r, elem_of_union_r, elem_of_list_to_set, list_elem_of_fmap. by exists b.
    + intros (w & Hw & Hwb)%list_elem_of_fmap. apply Hni, elem_of_union_r.
      apply (gatherAncestors_uncles _ _ _ _ _ _ _ _ _ Hg). right. by exists b, w.
  - assert (exists i, 1 <= i <= 6 /\ Number p = Number (header block) - 1 - i) as (i & Hi & Hpn).
    { rewrite lookup_insert_ne in Hp by (intros E; by apply (proj2 (Hu u Hin))).
      rewrite big_Uint64_id, u64_id in Hg by go_lia.
      destruct (gatherAncestors_number _ _ _ _ _ _ _ _ _ _ Hok Hg ltac:(go_lia) Hp)
        as [Ha|[[Ek _]|(i & Hi & Ha)]]; [done|done|]. exists i. lia. }
    assert (0 <= GasLimit p <= MaxInt64) as Hpg.
    { clear -Hp Hg Hgl Hu Hin. rewrite lookup_insert_ne in Hp
        by (intros E; by apply (proj2 (Hu u Hin))).
      refine (gatherAncestors_forall (fun h => 0 <= GasLimit h <= MaxInt64)
                _ _ _ _ _ _ _ _ Hg Hgl _ _ _ Hp).
      intros k a E. by rewrite lookup_empty in E. }
    apply verifyHeader_valid in Hvh; [|apply Hu, Hin|done].
    pose proof (hv_number _ _ _ _ _ Hvh). pose proof (hv_seal _ _ _ _ _ Hvh eq_refl). lia.
Qed.

(** The credit of [accumulateRewards] to address [b]. *)
Definition uncleReward (h u : Header) : Z :=
  (Number u + 8 - Number h) * ByzantiumBlockReward / 8.

Fixpoint uncleCredits (h : Header) (us : list Header) (b : Address) : Z :=
  match us with
  | [] => 0
  | u :: us => (if bool_decide (Coinbase u = b) then uncleReward h u else 0) + uncleCredits h us b
  end.

Definition minerReward (us : list Header) : Z :=
  ByzantiumBlockReward + Z.of_nat (length us) * (ByzantiumBlockReward / 32).

Lemma accumulateUncles_spec `{BalanceDBLaws St} h us (s : St) r :
  (Dpos.accumulateUncles h us s r).2 = r + Z.of_nat (length us) * (ByzantiumBlockReward / 32) /\
  forall b, db_GetBalance (Dpos.accumulateUncles h us s r).1 b
            = db_GetBalance s b + uncleCredits h us b.
Proof.
  revert s r. induction us as [|u us IH]; intros s r; cbn [Dpos.accumulateUncles uncleCredits length].
  - split; intros; simpl; lia.
  - set (s' := db_AddBalance _ _ _). destruct (IH s' (r + ByzantiumBlockReward / 32)) as [-> Hb].
    split; [lia|]. intros b. rewrite Hb. subst s'. rewrite db_AddBalance_spec.
    unfold uncleReward. lia.
Qed.

Lemma accumulateRewards_spec `{BalanceDBLaws St} h us (s : St) b :
  db_GetBalance (Dpos.accumulateRewards s h us) b
  = db_GetBalance s b + uncleCredits h us b +
    (if bool_decide (Coinbase h = b) then minerReward us else 0).
Proof.
  unfold Dpos.accumulateRewards.
  pose proof (accumulateUncles_spec h us s ByzantiumBlockReward) as [Hr Hb].
  destruct (Dpos.accumulateUncles _ _ _ _) as [s' r]. simpl in *.
  by rewrite db_AddBalance_spec, Hb, Hr.
Qed.

Lemma uncleReward_bounds h u :
  1 <= Number h - Number u <= 6 ->
  2 * (ByzantiumBlockReward / 8) <= uncleReward h u <= 7 * (ByzantiumBlockReward / 8).
Proof.
  intros Hd. unfold uncleReward.
  replace (Number u + 8 - Number h) with (8 - (Number h - Number u)) by lia.
  assert (ByzantiumBlockReward = 375000000000000000 * 8) as -> by reflexivity.
  rewrite Z.mul_assoc, !Z.div_mul by lia. lia.
Qed.
End Props.
End DposProps.

(** ** The engine's contract *)

Module DposClaims.
Import DposProps.

(** C4: [verifyHeader] accepts exactly the headers that satisfy the consensus
    rules read over the integers: extra data, timestamps, difficulty, gas limit
    cap and drift, gas used, number and seal (the int64/uint64 arithmetic of the
    drift check never distorts the distance). *)
Theorem header_validity EmptyUncleHash now h parent uncle seal :
  0 <= GasLimit h -> 0 <= GasLimit parent <= MaxInt64 ->
  Dpos.verifyHeader EmptyUncleHash now h parent uncle seal = None <->
  HeaderValid EmptyUncleHash now h parent uncle seal.
Proof. apply verifyHeader_valid. Qed.

Definition sampleHeader (number time gasLimit difficulty : Z) : Header :=
  mkHeader 0 0 0 0 0 0 0 difficulty number gasLimit 0 time [] 0 0 0 0 "" 0 0.

Lemma header_validity_witness :
  let parent := sampleHeader 1 100 41424776 131072 in
  let h := sampleHeader 2 105 41424776 131136 in
  Dpos.verifyHeader 0 105 h parent false true = None /\
  HeaderValid 0 105 h parent false true.
Proof.
  intros parent h. split; [vm_compute; reflexivity|].
  refine (proj1 (header_validity 0 105 h parent false true _ _) _);
    [simpl; lia|unfold MaxInt64; simpl; lia|vm_compute; reflexivity].
Defined.

(** The difficulty never falls below the protocol minimum, and among
    candidate timestamps for the same parent a later one never gets a higher
    difficulty. *)
Theorem difficulty_floor_and_antitone EmptyUncleHash t1 t2 parent :
  t1 <= t2 -> 0 <= Difficulty parent ->
  MinimumDifficulty <= Dpos.CalcDifficulty EmptyUncleHash t2 parent
  <= Dpos.CalcDifficulty EmptyUncleHash t1 parent.
Proof. intros. split; [apply difficulty_floor|by apply difficulty_antitone]. Qed.

Lemma difficulty_floor_and_antitone_witness :
  let p := sampleHeader 5 100 5000 10000000 in
  131072 <= Dpos.CalcDifficulty 0 200 p <= Dpos.CalcDifficulty 0 101 p.
Proof. intros p. apply difficulty_floor_and_antitone; simpl; lia. Defined.

(** C29: a block whose uncles are accepted has at most two, pairwise distinct
    uncles, none of them a recent ancestor or an uncle of one (no uncle is
    rewarded twice), each one to six generations old; the rewards then credit
    every address with exactly its uncle shares (2/8 to 7/8 of the block reward
    each) and the miner with the block reward plus 1/32 per uncle. *)
Theorem accepted_uncles_rewards `{BalanceDBLaws St} headerHash EmptyUncleHash now chain block
    (s : St) :
  chain_consistent headerHash chain ->
  7 <= Number (header block) <= MaxUint64 ->
  (forall u, u ∈ uncles block ->
     0 <= GasLimit u /\ ParentHash u <> Dpos.blockHash headerHash block) ->
  (forall h n b, GetBlock chain h n = Some b -> 0 <= GasLimit (header b) <= MaxInt64) ->
  Dpos.VerifyUncles headerHash EmptyUncleHash now chain block = None ->
  (length (uncles block) <= 2)%nat /\ NoDup (headerHash <$> uncles block) /\
  (forall u, u ∈ uncles block ->
     (forall b, b ∈ recentAncestors chain block ->
        headerHash u <> Dpos.blockHash headerHash b /\
        headerHash u ∉ headerHash <$> uncles b) /\
     1 <= Number (header block) - Number u <= 6 /\ 0 < Difficulty u /\
     2 * (ByzantiumBlockReward / 8) <= uncleReward (header block) u
       <= 7 * (ByzantiumBlockReward / 8)) /\
  forall b, db_GetBalance (Dpos.accumulateRewards s (header block) (uncles block)) b
            = db_GetBalance s b + uncleCredits (header block) (uncles block) b +
              (if bool_decide (Coinbase (header block) = b)
               then minerReward (uncles block) else 0).
Proof.
  intros Hok Hn Hu Hg Hv.
  destruct (VerifyUncles_spec _ _ _ _ _ Hok Hn Hu Hg Hv) as (Hl & Hnd & Hall).
  split_and!; [done|done| |apply accumulateRewards_spec].
  intros u Hin. destruct (Hall u Hin) as (Ha & Hd & Hdf).
  exact (conj Ha (conj Hd (conj Hdf (uncleReward_bounds _ _ Hd)))).
Qed.

#[export] Instance gmap_BalanceDB : BalanceDB (gmap Address Z) := {
  db_GetBalance s a := default 0 (s !! a);
  db_AddBalance s a v := <[a := default 0 (s !! a) + v]> s
}.
#[export] Instance gmap_BalanceDBLaws : BalanceDBLaws (gmap Address Z).
Proof.
  split. intros s a v b. simpl. case_bool_decide as E.
  - subst b. rewrite lookup_insert_eq. simpl. lia.
  - rewrite lookup_insert_ne by done. lia.
Defined.

(** A chain of blocks 8 and 9 whose headers hash to their extra-data byte; block
    10 carries one uncle, a child of block 8. *)
Definition sampleExt (parent id coinbase number time difficulty : Z) : Header :=
  mkHeader parent 0 coinbase 0 0 0 0 difficulty number 41424776 0 time [id] 0 0 0 0 "" 0 0.
Definition sampleHash (h : Header) : Hash := default 0 (Extra h !! 0%nat).
Definition sampleChain : ChainReader :=
  mkChainReader (fun _ _ => None)
    (fun h n => if (h =? 8) && (n =? 8) then Some (mkBlock (sampleExt 7 8 1 8 80 131072) [])
                else if (h =? 9) && (n =? 9) then Some (mkBlock (sampleExt 8 9 1 9 90 131136) [])
                else None).
Definition sampleBlock : Block :=
  mkBlock (sampleExt 9 10 77 10 100 131136) [sampleExt 8 99 55 9 89 131072].

Lemma accepted_uncles_rewards_witness :
  db_GetBalance (Dpos.accumulateRewards (∅ : gmap Address Z) (header sampleBlock)
                   (uncles sampleBlock)) 77 = 3093750000000000000 /\
  (length (uncles sampleBlock) <= 2)%nat.
Proof.
  split; [vm_compute; reflexivity|].
  refine (proj1 (accepted_uncles_rewards sampleHash 0 1000 sampleChain sampleBlock ∅ _ _ _ _ _)).
  - intros h n b. simpl. repeat case_match; intros; simplify_eq; bool_to_prop; subst; done.
  - unfold MaxUint64. simpl. lia.
  - intros u Hu. apply list_elem_of_singleton in Hu as ->. simpl. split; [lia|]. vm_compute. done.
  - intros h n b. simpl. unfold MaxInt64. repeat case_match; intros; simplify_eq; simpl; lia.
  - vm_compute. reflexivity.
Defined.
End DposClaims.
