(* ===== verification/Clique.v ===== *)
(** The proof-of-authority engine ([consensus/solo]): signer voting with its snapshots
    ([snapshot.go]), verification, preparation and sealing of headers ([clique.go]) and
    the proposals of its API ([api.go]).

    Header hashes, Keccak and the recovery of a public key are parameters.  The two ARC
    caches ([Cache]) and the database of snapshots are type classes: what they hold
    is given by a function to maps and the laws say that they never return anything
    that was not put in; they may forget and writes may fail.  A snapshot's [config] and
    [sigcache] are those of its engine, which is the state of the monad. *)

From S2P Require Import Prelude Params Bytes Cache RlpEncode Consensus.

Module Clique.

(** ** snapshot.go *)

Record CliqueConfig := MkConfig { Period : Z; Epoch : Z }.

Record Vote := MkVote { vSigner : Address; vBlock : Z; vAddress : Address; vAuthorize : bool }.
Record Tally := MkTally { tAuthorize : bool; tVotes : Z }.

Record Snapshot := MkSnapshot {
  sNumber : Z;
  sHash : Hash;
  Signers : gset Address;
  Recents : gmap Z Address;
  Votes : list Vote;
  TallyOf : gmap Address Tally
}.

#[export] Instance Vote_eq_dec : EqDecision Vote.
Proof. solve_decision. Defined.
#[export] Instance Tally_eq_dec : EqDecision Tally.
Proof. solve_decision. Defined.

(** The database of snapshots: [loadSnapshot] and [store]; the flag is the error of the
    write. *)
Class StoreOps (DB : Type) := {
  stored : DB -> gmap Hash Snapshot;
  loadSnapshot : DB -> Hash -> option Snapshot;
  store : DB -> Snapshot -> DB * bool
}.

Class StoreLaws {DB : Type} (ops : StoreOps DB) : Prop := {
  load_found : forall d h s, loadSnapshot d h = Some s -> stored d !! h = Some s;
  store_held : forall d s, stored (fst (store d s)) ⊆ <[sHash s := s]> (stored d)
}.

Inductive CliqueError :=
| errUnknownBlock | errInvalidCheckpointBeneficiary | errInvalidVote | errInvalidCheckpointVote
| errMissingVanity | errMissingSignature | errExtraSigners | errInvalidCheckpointSigners
| errInvalidMixDigest | errInvalidUncleHash | errInvalidDifficulty | ErrInvalidTimestamp
| errInvalidVotingChain | errUnauthorized | errWaitTransactions
| errUnclesNotAllowed | errRecover | errStore | errSign
| consensus_error (e : VerifyError).

Definition newSnapshot (number : Z) (hash : Hash) (signers : list Address) : Snapshot :=
  MkSnapshot number hash (list_to_set signers) ∅ [] ∅.

Definition validVote (s : Snapshot) (address : Address) (authorize : bool) : bool :=
  let signer := bool_decide (address ∈ Signers s) in
  (signer && negb authorize) || (negb signer && authorize).

Definition with_Tally (t : gmap Address Tally) (s : Snapshot) : Snapshot :=
  MkSnapshot (sNumber s) (sHash s) (Signers s) (Recents s) (Votes s) t.
Definition with_Votes (v : list Vote) (s : Snapshot) : Snapshot :=
  MkSnapshot (sNumber s) (sHash s) (Signers s) (Recents s) v (TallyOf s).
Definition with_Recents (r : gmap Z Address) (s : Snapshot) : Snapshot :=
  MkSnapshot (sNumber s) (sHash s) (Signers s) r (Votes s) (TallyOf s).
Definition with_Signers (x : gset Address) (s : Snapshot) : Snapshot :=
  MkSnapshot (sNumber s) (sHash s) x (Recents s) (Votes s) (TallyOf s).

Definition cast (address : Address) (authorize : bool) (s : Snapshot) : Snapshot * bool :=
  if negb (validVote s address authorize) then (s, false)
  else
    let t := match TallyOf s !! address with
             | Some old => MkTally (tAuthorize old) (tVotes old + 1)
             | None => MkTally authorize 1
             end in
    (with_Tally (<[address := t]> (TallyOf s)) s, true).

Definition uncast (address : Address) (authorize : bool) (s : Snapshot) : Snapshot * bool :=
  match TallyOf s !! address with
  | None => (s, false)
  | Some tally =>
      if negb (Bool.eqb (tAuthorize tally) authorize) then (s, false)
      else if 1 <? tVotes tally then (with_Tally (<[address := MkTally (tAuthorize tally) (tVotes tally - 1)]> (TallyOf s)) s, true)
      else (with_Tally (delete address (TallyOf s)) s, true)
  end.

(** The number of signers after which a signer may sign again. *)
Definition limit (s : Snapshot) : Z := Z.of_nat (size (Signers s)) / 2 + 1.

Definition shift_recents (number : Z) (s : Snapshot) : Snapshot :=
  if limit s <=? number then with_Recents (delete (number - limit s) (Recents s)) s else s.

(** The loop that discards the previous vote of [signer] on [address]. *)
Fixpoint discard_previous (signer address : Address) (done_ todo : list Vote) (s : Snapshot) : Snapshot :=
  match todo with
  | [] => s
  | v :: todo =>
      if bool_decide (vSigner v = signer /\ vAddress v = address)
      then with_Votes (done_ ++ todo) (fst (uncast (vAddress v) (vAuthorize v) s))
      else discard_previous signer address (done_ ++ [v]) todo s
  end.

(** The loop that discards every vote a deauthorised signer cast. *)
Fixpoint discard_cast_by (signer : Address) (done_ todo : list Vote) (s : Snapshot) : Snapshot :=
  match todo with
  | [] => with_Votes done_ s
  | v :: todo =>
      if bool_decide (vSigner v = signer)
      then discard_cast_by signer done_ todo (fst (uncast (vAddress v) (vAuthorize v) s))
      else discard_cast_by signer (done_ ++ [v]) todo s
  end.

(** The votes around an account whose status has just changed. *)
Definition discard_about (address : Address) (s : Snapshot) : Snapshot :=
  with_Votes (filter (fun v => vAddress v <> address) (Votes s)) s.

(** If the vote on [coinbase] passed, the list of signers changes. *)
Definition conclude (number : Z) (coinbase : Address) (s : Snapshot) : Snapshot :=
  let tally := default (MkTally false 0) (TallyOf s !! coinbase) in
  if negb (Z.of_nat (size (Signers s)) / 2 <? tVotes tally) then s else
  let s :=
    if tAuthorize tally then with_Signers ({[ coinbase ]} ∪ Signers s) s
    else
      let s := shift_recents number (with_Signers (Signers s ∖ {[ coinbase ]}) s) in
      discard_cast_by coinbase [] (Votes s) s in
  let s := discard_about coinbase s in
  with_Tally (delete coinbase (TallyOf s)) s.

Definition nonceAuthVote : Z := 0xffffffffffffffff.
Definition nonceDropVote : Z := 0.

(** ** The state of the engine *)

Definition SignerFn := Address -> bytes -> option bytes.

Record Clique {C1 C2 DB : Type} := MkClique {
  config : CliqueConfig;
  db : DB;
  recents : C1;
  signatures : C2;
  proposals : gmap Address bool;
  signer : Address;
  signFn : option SignerFn
}.
Arguments Clique : clear implicits.
Arguments MkClique {_ _ _}.

(** Errors in the state monad. *)
Definition try {St E A B} (m : SM St (E + A)) (k : A -> SM St (E + B)) : SM St (E + B) :=
  r ← m; match r with inl e => mret (inl e) | inr a => k a end.
Notation "x <~ m ; k" := (try m (fun x => k)) (at level 20, m at level 100, k at level 200, right associativity).

(** ** Sorting of the signers *)

(** One pass of the inner loop of [signers]: [x] is at index [i]; every element after
    it that is smaller changes places with it. *)
Fixpoint sort_pass (x : Address) (l : list Address) : Address * list Address :=
  match l with
  | [] => (x, [])
  | y :: l => if y <? x then let '(m, r) := sort_pass y l in (m, x :: r)
              else let '(m, r) := sort_pass x l in (m, y :: r)
  end.
Fixpoint sort_from (n : nat) (l : list Address) : list Address :=
  match n, l with
  | S n, x :: l => let '(m, r) := sort_pass x l in m :: sort_from n r
  | _, _ => l
  end.

(** The loop of [inturn] that looks for the signer. *)
Fixpoint offset_of (signer : Address) (l : list Address) : Z :=
  match l with
  | [] => 0
  | x :: l => if bool_decide (x = signer) then 0 else 1 + offset_of signer l
  end.

Section Snapshots.
(** Go's iteration order over a map. *)
Context (order : list Address -> list Address).

Definition signers (s : Snapshot) : list Address :=
  let l := order (elements (Signers s)) in sort_from (length l) l.

(** The modulo by the number of signers panics when there is none. *)
Definition inturn (s : Snapshot) (number : Z) (signer : Address) : outcome bool :=
  let l := signers s in
  if bool_decide (l = []) then Panic else Ret (number mod len l =? offset_of signer l).

Definition diffInTurn : Z := 2.
Definition diffNoTurn : Z := 1.

Definition CalcDifficulty (s : Snapshot) (signer : Address) : outcome Z :=
  b ← inturn s (u64 (sNumber s + 1)) signer;
  Ret (if b : bool then diffInTurn else diffNoTurn).

End Snapshots.

(** ** clique.go *)

Definition epochLength : Z := 30000.
Definition checkpointInterval : Z := 1024.
Definition extraVanity : Z := 32.
Definition extraSeal : Z := 65.

(** Headers are changed in place. *)
Definition set_vote (coinbase : Address) (nonce : Z) (h : Header) : Header :=
  mkHeader (ParentHash h) (UncleHash h) coinbase (Root h) (TxHash h) (ReceiptHash h) (Bloom h) (Difficulty h) (Number h) (GasLimit h) (GasUsed h) (Time h)
    (Extra h) (MixDigest h) nonce (Round h) (Round2 h) (PresidentId h) (DAppID h) (DAppMainHash h).
Definition set_seal (difficulty : Z) (extra : bytes) (mix : Hash) (h : Header) : Header :=
  mkHeader (ParentHash h) (UncleHash h) (Coinbase h) (Root h) (TxHash h) (ReceiptHash h) (Bloom h) difficulty (Number h) (GasLimit h) (GasUsed h) (Time h)
    extra mix (Nonce h) (Round h) (Round2 h) (PresidentId h) (DAppID h) (DAppMainHash h).
Definition set_time (t : Z) (h : Header) : Header :=
  mkHeader (ParentHash h) (UncleHash h) (Coinbase h) (Root h) (TxHash h) (ReceiptHash h) (Bloom h) (Difficulty h) (Number h) (GasLimit h) (GasUsed h) t
    (Extra h) (MixDigest h) (Nonce h) (Round h) (Round2 h) (PresidentId h) (DAppID h) (DAppMainHash h).
Definition set_root (root uncleHash : Hash) (h : Header) : Header :=
  mkHeader (ParentHash h) uncleHash (Coinbase h) root (TxHash h) (ReceiptHash h) (Bloom h) (Difficulty h) (Number h) (GasLimit h) (GasUsed h) (Time h)
    (Extra h) (MixDigest h) (Nonce h) (Round h) (Round2 h) (PresidentId h) (DAppID h) (DAppMainHash h).

(** The slice that [sigHash] hashes: each element of an [[]interface{}] is written with
    the writer of its dynamic type, as the fields of a struct are. *)
Definition sig_type : Rlp.typ := Rlp.TStruct (map (fun t => (t, Rlp.notags))
  [Rlp.TByteArray 32; Rlp.TByteArray 32; Rlp.TByteArray 20; Rlp.TByteArray 32; Rlp.TByteArray 32; Rlp.TByteArray 32; Rlp.TByteArray 256;
   Rlp.TBig; Rlp.TBig; Rlp.TUint 64; Rlp.TUint 64; Rlp.TBig; Rlp.TBytes; Rlp.TByteArray 32; Rlp.TByteArray 8; Rlp.TUint 64; Rlp.TString]).
Definition sig_val (h : Header) (extra : bytes) : Rlp.val := Rlp.VList
  [Rlp.VBytes (hash_bytes (ParentHash h)); Rlp.VBytes (hash_bytes (UncleHash h)); Rlp.VBytes (address_bytes (Coinbase h));
   Rlp.VBytes (hash_bytes (Root h)); Rlp.VBytes (hash_bytes (TxHash h)); Rlp.VBytes (hash_bytes (ReceiptHash h)); Rlp.VBytes (be_bytes 256 (Bloom h));
   Rlp.VBig (Some (Difficulty h)); Rlp.VBig (Some (Number h)); Rlp.VUint (GasLimit h); Rlp.VUint (GasUsed h); Rlp.VBig (Some (Time h));
   Rlp.VBytes extra; Rlp.VBytes (hash_bytes (MixDigest h)); Rlp.VBytes (be_bytes 8 (Nonce h)); Rlp.VUint (Round h); Rlp.VBytes (string_bytes (PresidentId h))].

(** The part of [consensus.ChainReader] the engine uses. *)
Record Chain := MkChain {
  GetHeader : Hash -> Z -> option Header;
  GetHeaderByNumber : Z -> option Header;
  GetHeaderByHash : Hash -> option Header;
  CurrentHeader : option Header
}.

Section Engine.
Context {C1 C2 DB : Type} {ops1 : CacheOps C1 Snapshot} {ops2 : CacheOps C2 Address} {opsD : StoreOps DB}.
Context (order : list Address -> list Address).
Context (headerHash : Header -> Hash) (Keccak256 : bytes -> Hash) (Ecrecover : bytes -> bytes -> option bytes) (uncleHash : Hash).

Abbreviation M := (SM (Clique C1 C2 DB)).

Definition New (conf : CliqueConfig) (d : DB) (c1 : C1) (c2 : C2) : Clique C1 C2 DB :=
  MkClique (MkConfig (Period conf) (if Epoch conf =? 0 then epochLength else Epoch conf)) d c1 c2 ∅ 0 None.

Definition put_recents (r : C1) (c : Clique C1 C2 DB) : Clique C1 C2 DB := MkClique (config c) (db c) r (signatures c) (proposals c) (signer c) (signFn c).
Definition put_signatures (r : C2) (c : Clique C1 C2 DB) : Clique C1 C2 DB := MkClique (config c) (db c) (recents c) r (proposals c) (signer c) (signFn c).
Definition put_db (d : DB) (c : Clique C1 C2 DB) : Clique C1 C2 DB := MkClique (config c) d (recents c) (signatures c) (proposals c) (signer c) (signFn c).
Definition put_proposals (p : gmap Address bool) (c : Clique C1 C2 DB) : Clique C1 C2 DB := MkClique (config c) (db c) (recents c) (signatures c) p (signer c) (signFn c).

(** [sigHash]; the slice expression panics if the extra data is too short, an error of
    the encoder leaves the hasher empty. *)
Definition sigHash (h : Header) : outcome Hash :=
  if len (Extra h) <? extraSeal then Panic else
  r ← Rlp.EncodeToBytes sig_type (sig_val h (take (length (Extra h) - 65) (Extra h)));
  Ret (match r with inr b => Keccak256 b | inl _ => Keccak256 [] end).

(** The address of a public key: the last 20 bytes of the hash of the key without its
    first byte. *)
Definition pubkey_address (pubkey : bytes) : outcome Address :=
  match pubkey with [] => Panic | _ :: k => Ret (Keccak256 k mod 2 ^ 160) end.

Definition recover (h : Header) : outcome (CliqueError + Address) :=
  if len (Extra h) <? extraSeal then Ret (inl errMissingSignature) else
  let signature := drop (length (Extra h) - 65) (Extra h) in
  sh ← sigHash h;
  match Ecrecover (hash_bytes sh) signature with
  | None => Ret (inl errRecover)
  | Some pubkey => a ← pubkey_address pubkey; Ret (inr a)
  end.

Definition ecrecover (h : Header) : M (CliqueError + Address) := fun c =>
  let hash := headerHash h in
  let '(s, known) := cache_Get (signatures c) hash in
  let c := put_signatures s c in
  match known with
  | Some address => Ret (c, inr address)
  | None =>
      r ← recover h;
      match r with
      | inl e => Ret (c, inl e)
      | inr a => Ret (put_signatures (cache_Add (signatures c) hash a) c, inr a)
      end
  end.

Definition Author (h : Header) : M (CliqueError + Address) := ecrecover h.

(** Votes and tallies are dropped on checkpoint blocks. *)
Definition start_epoch (epoch number : Z) (s : Snapshot) : Snapshot :=
  if number mod epoch =? 0 then with_Tally ∅ (with_Votes [] s) else s.

(** The part of an iteration of [apply] after the signer is known. *)
Definition count_vote (number : Z) (h : Header) (signer : Address) (snap : Snapshot) : CliqueError + Snapshot :=
  if negb (bool_decide (signer ∈ Signers snap)) then inl errUnauthorized else
  if existsb (fun '(_, recent) => bool_decide (recent = signer)) (map_to_list (Recents snap)) then inl errUnauthorized else
  let snap := with_Recents (<[number := signer]> (Recents snap)) snap in
  let snap := discard_previous signer (Coinbase h) [] (Votes snap) snap in
  match (if Nonce h =? nonceAuthVote then Some true else if Nonce h =? nonceDropVote then Some false else None) with
  | None => inl errInvalidVote
  | Some authorize =>
      let '(snap, ok) := cast (Coinbase h) authorize snap in
      let snap := if ok : bool then with_Votes (Votes snap ++ [MkVote signer number (Coinbase h) authorize]) snap else snap in
      inr (conclude number (Coinbase h) snap)
  end.

Definition apply_one (epoch : Z) (h : Header) (snap : Snapshot) : M (CliqueError + Snapshot) :=
  let number := big_Uint64 (Number h) in
  let snap := shift_recents number (start_epoch epoch number snap) in
  signer <~ ecrecover h;
  mret (count_vote number h signer snap).

Fixpoint apply_all (epoch : Z) (headers : list Header) (snap : Snapshot) : M (CliqueError + Snapshot) :=
  match headers with
  | [] => mret (inr snap)
  | h :: headers => snap <~ apply_one epoch h snap; apply_all epoch headers snap
  end.

(** The sanity check: consecutive numbers. *)
Fixpoint contiguous (headers : list Header) : bool :=
  match headers with
  | h :: (h' :: _) as headers => (big_Uint64 (Number h') =? u64 (big_Uint64 (Number h) + 1)) && contiguous headers
  | _ => true
  end.

Definition apply (s : Snapshot) (headers : list Header) : M (CliqueError + Snapshot) :=
  match headers, last headers with
  | h :: _, Some l =>
      if negb (contiguous headers) then mret (inl errInvalidVotingChain) else
      if negb (big_Uint64 (Number h) =? u64 (sNumber s + 1)) then mret (inl errInvalidVotingChain) else
      conf ← gets config;
      snap <~ apply_all (Epoch conf) headers s;
      mret (inr (MkSnapshot (u64 (sNumber snap + len headers)) (headerHash l) (Signers snap) (Recents snap) (Votes snap) (TallyOf snap)))
  | _, _ => mret (inr s)
  end.

(** *** Verification *)

(** [snapshot] and [VerifyHeader] call each other; the verification takes [snapshot] as
    an argument. *)
Section Verify.
Context (now : Z) (chain : Chain).
Context (snapshot : Z -> Hash -> list Header -> M (CliqueError + Snapshot)).

(** The error of a verification, [None] for nil. *)
Abbreviation verdict := (M (option CliqueError)).
Definition refuse (e : CliqueError) : verdict := mret (Some e).

(** Every signer found among the recent ones fails unless this block shifts it out. *)
Definition signed_recently (s : Snapshot) (number : Z) (signer : Address) : bool :=
  existsb (fun '(seen, recent) => bool_decide (recent = signer) && (u64 (number - limit s) <? seen)) (map_to_list (Recents s)).

Definition verifySeal (h : Header) (parents : list Header) : verdict :=
  let number := big_Uint64 (Number h) in
  if number =? 0 then refuse errUnknownBlock else
  r ← snapshot (number - 1) (ParentHash h) parents;
  match r with
  | inl e => refuse e
  | inr snap =>
      r ← ecrecover h;
      match r with
      | inl e => refuse e
      | inr signer =>
          if negb (bool_decide (signer ∈ Signers snap)) then refuse errUnauthorized else
          if signed_recently snap number signer then refuse errUnauthorized else
          inturn ← lift (inturn order snap number signer);
          if inturn && negb (Difficulty h =? diffInTurn) then refuse errInvalidDifficulty else
          if negb inturn && negb (Difficulty h =? diffNoTurn) then refuse errInvalidDifficulty else mret None
      end
  end.

Definition find_parent (h : Header) (parents : list Header) : option Header :=
  match last parents with Some p => Some p | None => GetHeader chain (ParentHash h) (big_Uint64 (Number h) - 1) end.

(** The signers as a checkpoint block lists them. *)
Definition signer_bytes (s : Snapshot) : bytes := signers order s ≫= address_bytes.

Definition verifyCascadingFields (h : Header) (parents : list Header) : verdict :=
  let number := big_Uint64 (Number h) in
  if number =? 0 then mret None else
  match find_parent h parents with
  | None => refuse (consensus_error ErrUnknownAncestor)
  | Some parent =>
      conf ← gets config;
      if negb (big_Uint64 (Number parent) =? number - 1) || negb (headerHash parent =? ParentHash h) then refuse (consensus_error ErrUnknownAncestor) else
      if big_Uint64 (Time h) <? u64 (big_Uint64 (Time parent) + Period conf) then refuse ErrInvalidTimestamp else
      r ← snapshot (number - 1) (ParentHash h) parents;
      match r with
      | inl e => refuse e
      | inr snap =>
          if (number mod Epoch conf =? 0) && negb (bool_decide (take (length (Extra h) - 65 - 32) (drop 32 (Extra h)) = signer_bytes snap))
          then refuse errInvalidCheckpointSigners
          else verifySeal h parents
      end
  end.

(** The checks that need the header only. *)
Definition standalone (conf : CliqueConfig) (h : Header) : option CliqueError :=
  let number := big_Uint64 (Number h) in
  if now <? Time h then Some (consensus_error ErrFutureBlock) else
  let checkpoint := number mod Epoch conf =? 0 in
  if checkpoint && negb (Coinbase h =? 0) then Some errInvalidCheckpointBeneficiary else
  if negb (Nonce h =? nonceAuthVote) && negb (Nonce h =? nonceDropVote) then Some errInvalidVote else
  if checkpoint && negb (Nonce h =? nonceDropVote) then Some errInvalidCheckpointVote else
  if len (Extra h) <? extraVanity then Some errMissingVanity else
  if len (Extra h) <? extraVanity + extraSeal then Some errMissingSignature else
  let signersBytes := len (Extra h) - extraVanity - extraSeal in
  if negb checkpoint && negb (signersBytes =? 0) then Some errExtraSigners else
  if checkpoint && negb (signersBytes mod 20 =? 0) then Some errInvalidCheckpointSigners else
  if negb (MixDigest h =? 0) then Some errInvalidMixDigest else
  if negb (UncleHash h =? uncleHash) then Some errInvalidUncleHash else
  if (0 <? number) && (negb (Difficulty h =? diffInTurn) && negb (Difficulty h =? diffNoTurn)) then Some errInvalidDifficulty else
  None.

Definition verifyHeader (h : Header) (parents : list Header) : verdict :=
  conf ← gets config;
  match standalone conf h with
  | Some e => refuse e
  | None => verifyCascadingFields h parents
  end.

(** The addresses that follow the vanity in the extra data of the genesis block. *)
Definition genesis_signers (genesis : Header) : list Address :=
  map (fun i => be_value (take 20 (drop (32 + i * 20) (Extra genesis)))) (seq 0 (Z.to_nat ((len (Extra genesis) - extraVanity - extraSeal) / 20))).

(** The snapshot of block zero. *)
Definition genesis_snapshot : M (CliqueError + Snapshot) :=
  genesis ← lift (deref (GetHeaderByNumber chain 0));
  r ← verifyHeader genesis [];
  match r with
  | Some e => mret (inl e)
  | None =>
      let snap := newSnapshot 0 (headerHash genesis) (genesis_signers genesis) in
      d ← gets db;
      let '(d, failed) := store d snap in
      _ ← modify (put_db d);
      mret (if failed : bool then inl errStore else inr snap)
  end.

End Verify.

(** After the search the pending headers are applied, the result is cached and, at a
    checkpoint, stored. *)
Definition advance (snap : Snapshot) (headers : list Header) : M (CliqueError + Snapshot) :=
  snap <~ apply snap headers;
  c ← gets recents;
  _ ← modify (put_recents (cache_Add c (sHash snap) snap));
  if (sNumber snap mod checkpointInterval =? 0) && negb (bool_decide (headers = [])) then
    d ← gets db;
    let '(d, failed) := store d snap in
    _ ← modify (put_db d);
    mret (if failed : bool then inl errStore else inr snap)
  else mret (inr snap).

Definition remember (hash : Hash) : M (option Snapshot) :=
  c ← gets recents;
  let '(c, r) := cache_Get c hash in
  _ ← modify (put_recents c);
  mret r.

(** The search; [headers] is newest last once reversed, here it is already in the order
    in which it is applied.  The fuel is the number of blocks to go back. *)
Fixpoint snapshot (fuel : nat) (now : Z) (chain : Chain) (headers : list Header) (number : Z) (hash : Hash) (parents : list Header) : M (CliqueError + Snapshot) :=
  match fuel with
  | O => panic
  | S fuel =>
      r ← remember hash;
      match r with
      | Some s => advance s headers
      | None =>
          d ← gets db;
          match (if number mod checkpointInterval =? 0 then loadSnapshot d hash else None) with
          | Some s => advance s headers
          | None =>
              if number =? 0 then s <~ genesis_snapshot now chain (snapshot fuel now chain []); advance s headers
              else
                match last parents with
                | Some header =>
                    if negb (headerHash header =? hash) || negb (big_Uint64 (Number header) =? number) then mret (inl (consensus_error ErrUnknownAncestor))
                    else snapshot fuel now chain (header :: headers) (number - 1) (ParentHash header) (removelast parents)
                | None =>
                    match GetHeader chain hash number with
                    | None => mret (inl (consensus_error ErrUnknownAncestor))
                    | Some header => snapshot fuel now chain (header :: headers) (number - 1) (ParentHash header) parents
                    end
                end
          end
      end
  end.

Section Api.
Context (now : Z) (chain : Chain).

Definition snapshot_at (number : Z) (hash : Hash) (parents : list Header) : M (CliqueError + Snapshot) :=
  snapshot (S (Z.to_nat number)) now chain [] number hash parents.

Definition VerifyHeader (h : Header) : M (option CliqueError) := verifyHeader now chain snapshot_at h [].
Definition VerifySeal (h : Header) : M (option CliqueError) := verifySeal snapshot_at h [].
Definition VerifyUncles (uncles : list Header) : option CliqueError := if negb (bool_decide (uncles = [])) then Some errUnclesNotAllowed else None.

(** The results [VerifyHeaders] sends, in order, if it is not aborted. *)
Fixpoint verify_from (before headers : list Header) : M (list (option CliqueError)) :=
  match headers with
  | [] => mret []
  | h :: headers =>
      r ← verifyHeader now chain snapshot_at h before;
      rs ← verify_from (before ++ [h]) headers;
      mret (r :: rs)
  end.
Definition VerifyHeaders (headers : list Header) : M (list (option CliqueError)) := verify_from [] headers.

(** The proposals that make sense; [pick] is the random choice. *)
Definition choose_vote (snap : Snapshot) (proposals : gmap Address bool) (pick : nat) (h : Header) : Header :=
  let addresses := filter (fun a => validVote snap a (default false (proposals !! a)) = true) (order (map_to_list proposals).*1) in
  match addresses !! (pick mod length addresses)%nat with
  | None => h
  | Some a => set_vote a (if default false (proposals !! a) then nonceAuthVote else nonceDropVote) h
  end.

(** The extra data of a prepared header. *)
Definition prepared_extra (conf : CliqueConfig) (number : Z) (snap : Snapshot) (extra : bytes) : bytes :=
  take 32 (extra ++ replicate (32 - length extra) 0) ++ (if number mod Epoch conf =? 0 then signer_bytes snap else []) ++ replicate 65 0.

(** [Prepare] changes the header it is given, also when it fails.  It reads the clock
    twice. *)
Definition Prepare (now' : Z) (pick : nat) (h : Header) : M (Header * option CliqueError) :=
  let h := set_vote 0 0 h in
  let number := big_Uint64 (Number h) in
  r ← snapshot_at (u64 (number - 1)) (ParentHash h) [];
  match r with
  | inl e => mret (h, Some e)
  | inr snap =>
      c ← gets id;
      let conf := config c in
      let h := if negb (number mod Epoch conf =? 0) then choose_vote snap (proposals c) pick h else h in
      difficulty ← lift (CalcDifficulty order snap (signer c));
      let h := set_seal difficulty (prepared_extra conf number snap (Extra h)) 0 h in
      match GetHeader chain (ParentHash h) (u64 (number - 1)) with
      | None => mret (h, Some (consensus_error ErrUnknownAncestor))
      | Some parent =>
          let t := Time parent + Period conf in
          mret (set_time (if i64 t <? now then now' else t) h, None)
      end
  end.

(** The header part of [Finalize]: no rewards and no uncles. *)
Definition Finalize (intermediateRoot : Hash) (h : Header) : Header := set_root intermediateRoot uncleHash h.

Definition Authorize (s : Address) (f : SignerFn) : M unit :=
  modify (fun c => MkClique (config c) (db c) (recents c) (signatures c) (proposals c) s (Some f)).

(** The header with its signature, or [None] when [stop] is closed first. *)
Definition Seal (transactions : nat) (stopped : bool) (h : Header) : M (CliqueError + option Header) :=
  let number := big_Uint64 (Number h) in
  if number =? 0 then mret (inl errUnknownBlock) else
  c ← gets id;
  if (Period (config c) =? 0) && bool_decide (transactions = 0%nat) then mret (inl errWaitTransactions) else
  snap <~ snapshot_at (number - 1) (ParentHash h) [];
  if negb (bool_decide (signer c ∈ Signers snap)) then mret (inl errUnauthorized) else
  if existsb (fun '(seen, recent) => bool_decide (recent = signer c) && ((number <? limit snap) || (u64 (number - limit snap) <? seen))) (map_to_list (Recents snap))
  then mret (inr None) else
  if stopped then mret (inr None) else
  sh ← lift (sigHash h);
  f ← lift (deref (signFn c));
  match f (signer c) (hash_bytes sh) with
  | None => mret (inl errSign)
  | Some sighash =>
      let extra := take (length (Extra h) - 65) (Extra h) ++ take 65 sighash ++ drop (length (Extra h) - 65 + length sighash) (Extra h) in
      mret (inr (Some (set_seal (Difficulty h) extra (MixDigest h) h)))
  end.

Definition engine_CalcDifficulty (parent : Header) : M (option Z) :=
  r ← snapshot_at (big_Uint64 (Number parent)) (headerHash parent) [];
  c ← gets id;
  match r with
  | inl _ => mret None
  | inr snap => d ← lift (CalcDifficulty order snap (signer c)); mret (Some d)
  end.

(** ** api.go *)

(** [None] stands for a nil number and -1 for the latest block. *)
Definition api_header (number : option Z) : option Header :=
  match number with
  | None => CurrentHeader chain
  | Some n => if n =? -1 then CurrentHeader chain else GetHeaderByNumber chain (u64 n)
  end.
Definition snapshot_of (h : option Header) : M (CliqueError + Snapshot) :=
  match h with None => mret (inl errUnknownBlock) | Some h => snapshot_at (big_Uint64 (Number h)) (headerHash h) [] end.
Definition GetSnapshot (number : option Z) : M (CliqueError + Snapshot) := snapshot_of (api_header number).
Definition GetSnapshotAtHash (hash : Hash) : M (CliqueError + Snapshot) := snapshot_of (GetHeaderByHash chain hash).
Definition GetSigners (number : option Z) : M (CliqueError + list Address) := s <~ GetSnapshot number; mret (inr (signers order s)).
Definition GetSignersAtHash (hash : Hash) : M (CliqueError + list Address) := s <~ GetSnapshotAtHash hash; mret (inr (signers order s)).
Definition Proposals : M (gmap Address bool) := gets proposals.
Definition Propose (address : Address) (auth : bool) : M unit := modify (fun c => put_proposals (<[address := auth]> (proposals c)) c).
Definition Discard (address : Address) : M unit := modify (fun c => put_proposals (delete address (proposals c)) c).

End Api.

End Engine.

End Clique.
