(* ===== verification/CliqueVotes.v ===== *)
(** Correctness of the signer voting of [Clique]: the tallies count the votes, votes come
    from the headers of the epoch, signers sign in turn, and the set of signers changes
    by a majority only. *)

From S2P Require Import Prelude Params Bytes Cache RlpEncode Consensus Clique.
Import Clique.

Module CliqueVotes.

(** ** Votes and tallies *)

Definition about (a : Address) (v : Vote) : Prop := vAddress v = a.
#[export] Instance about_dec a v : Decision (about a v).
Proof. unfold about. apply _. Defined.

Definition count (a : Address) (vs : list Vote) : Z := len (filter (about a) vs).
Definition status (sg : gset Address) (a : Address) : bool := bool_decide (a ∈ sg).

(** The tally that the votes give. *)
Definition tally_of (sg : gset Address) (vs : list Vote) (a : Address) : option Tally :=
  if count a vs =? 0 then None else Some (MkTally (negb (status sg a)) (count a vs)).

Record vote_ok (sg : gset Address) (v : Vote) : Prop := {
  voter : vSigner v ∈ sg;
  sensible : vAuthorize v = negb (status sg (vAddress v))
}.

Record votes_ok (s : Snapshot) : Prop := {
  once : NoDup (map (fun v => (vSigner v, vAddress v)) (Votes s));
  each_ok : Forall (vote_ok (Signers s)) (Votes s);
  tally_ok : forall a, TallyOf s !! a = tally_of (Signers s) (Votes s) a
}.

Lemma count_app a l k : count a (l ++ k) = count a l + count a k.
Proof. unfold count. rewrite filter_app. apply len_app. Qed.
Lemma count_cons a v l : count a (v :: l) = (if decide (vAddress v = a) then 1 else 0) + count a l.
Proof. unfold count. rewrite filter_cons. unfold about. case_decide; [rewrite len_cons; lia|lia]. Qed.
Lemma count_nonneg a l : 0 <= count a l.
Proof. apply len_nonneg. Qed.
Lemma count_filter_other a b l : a <> b -> count a (filter (fun v => vAddress v <> b) l) = count a l.
Proof.
  intros Hab. induction l as [|v l IH]; [done|]. rewrite filter_cons, count_cons.
  destruct (decide (vAddress v <> b)); [rewrite count_cons; by rewrite IH|].
  rewrite IH, decide_False; [lia|]. intros E. apply n. congruence.
Qed.
Lemma count_filter_same a l : count a (filter (fun v => vAddress v <> a) l) = 0.
Proof. induction l as [|v l IH]; [done|]. rewrite filter_cons. case_decide; [|done]. rewrite count_cons, decide_False by done. lia. Qed.

(** [uncast] of a vote that is counted. *)
Lemma uncast_votes sg vs1 v vs2 t s :
  (forall a, TallyOf s !! a = tally_of sg (vs1 ++ v :: vs2) a) -> vAuthorize v = negb (status sg (vAddress v)) ->
  t = fst (uncast (vAddress v) (vAuthorize v) s) ->
  (forall a, TallyOf t !! a = tally_of sg (vs1 ++ vs2) a) /\ t = with_Tally (TallyOf t) s.
Proof.
  intros Ht Hv ->.
  pose proof (count_nonneg (vAddress v) vs1). pose proof (count_nonneg (vAddress v) vs2).
  assert (Hc : forall a, count a (vs1 ++ v :: vs2) = count a (vs1 ++ vs2) + (if decide (vAddress v = a) then 1 else 0)).
  { intros a. rewrite !count_app, count_cons. lia. }
  assert (Hta : TallyOf s !! vAddress v = Some (MkTally (vAuthorize v) (count (vAddress v) (vs1 ++ vs2) + 1))).
  { rewrite Ht. unfold tally_of. rewrite Hc, decide_True, count_app by done. destruct (_ =? 0) eqn:E0; [go_lia|]. by rewrite Hv. }
  unfold uncast. rewrite Hta. cbn [tAuthorize tVotes]. rewrite eqb_reflx. cbn [negb].
  destruct (1 <? _) eqn:E1; cbn [fst with_Tally TallyOf]; (split; [intros a|reflexivity]).
  - destruct (decide (a = vAddress v)) as [->|Hne].
    + rewrite lookup_insert. rewrite decide_True by done. unfold tally_of. rewrite count_app.
      destruct (_ =? 0) eqn:E; [rewrite count_app in E1; go_lia|]. rewrite Hv. do 2 f_equal. lia.
    + rewrite lookup_insert_ne, Ht by done. unfold tally_of. rewrite Hc, decide_False by done. by rewrite Z.add_0_r.
  - destruct (decide (a = vAddress v)) as [->|Hne].
    + rewrite lookup_delete. unfold tally_of. rewrite count_app. rewrite decide_True by done.
      destruct (_ =? 0) eqn:E; [done|rewrite count_app in E1; go_lia].
    + rewrite lookup_delete_ne, Ht by done. unfold tally_of. rewrite Hc, decide_False by done. by rewrite Z.add_0_r.
Qed.

(** The same snapshot up to votes and tallies. *)
Definition frame (s t : Snapshot) : Prop := t = with_Tally (TallyOf t) (with_Votes (Votes t) s).

Lemma vframe_refl s : frame s s.
Proof. by destruct s. Qed.
Lemma vframe_trans s t u : frame s t -> frame t u -> frame s u.
Proof. unfold frame. intros H1 H2. rewrite H2. cbn. rewrite H1 at 1. done. Qed.
Lemma frame_fields s t : frame s t -> sNumber t = sNumber s /\ sHash t = sHash s /\ Signers t = Signers s /\ Recents t = Recents s.
Proof. intros ->. done. Qed.
Lemma frame_votes vs s : frame s (with_Votes vs s).
Proof. done. Qed.
Lemma frame_tally m s : frame s (with_Tally m s).
Proof. by destruct s. Qed.

Lemma uncast_frame a b s : frame s (fst (uncast a b s)) /\ Votes (fst (uncast a b s)) = Votes s.
Proof. unfold uncast. case_all; (split; [|done]); apply frame_tally || apply vframe_refl. Qed.

(** Tallies of a subset of the votes. *)
Definition tallied (sg : gset Address) (vs : list Vote) (s : Snapshot) : Prop := forall a, TallyOf s !! a = tally_of sg vs a.

Definition by_on (signer address : Address) (v : Vote) : Prop := vSigner v = signer /\ vAddress v = address.
#[export] Instance by_on_dec a b v : Decision (by_on a b v).
Proof. unfold by_on. apply _. Defined.

Lemma discard_previous_spec sg signer address todo : forall done_ s,
  Votes s = done_ ++ todo -> tallied sg (done_ ++ todo) s -> Forall (vote_ok sg) (done_ ++ todo) ->
  NoDup (map (fun v => (vSigner v, vAddress v)) (done_ ++ todo)) -> Forall (fun v => ~ by_on signer address v) done_ ->
  let t := discard_previous signer address done_ todo s in
  Votes t = filter (fun v => ~ by_on signer address v) (done_ ++ todo) /\ tallied sg (Votes t) t /\ frame s t.
Proof.
  induction todo as [|v todo IH]; intros d s Hvs Ht Hok Hnd Hd; cbn.
  - rewrite app_nil_r in *. rewrite Hvs, filter_all by done. auto using vframe_refl.
  - case_bool_decide as Hv.
    + assert (Hkeep : Forall (fun w => ~ by_on signer address w) (d ++ todo)).
      { rewrite map_app in Hnd. apply NoDup_app in Hnd as (_ & Hdis & Hnd). cbn in Hnd. apply NoDup_cons in Hnd as [Hnotin _].
        apply Forall_app. split; [done|]. apply Forall_forall. intros w Hw [E1 E2]. apply Hnotin.
        apply list_elem_of_fmap. exists w. destruct Hv as [-> ->]. by rewrite E1, E2. }
      assert (Hok' := Hok). apply Forall_app in Hok' as [_ Hok']. apply Forall_cons in Hok' as [[_ Hs] _].
      destruct (uncast_votes sg d v todo _ s Ht Hs eq_refl) as [Ht' Hf].
      destruct (uncast_frame (vAddress v) (vAuthorize v) s) as [Hfr _]. cbn.
      split; [|split].
      * rewrite filter_app, filter_cons, decide_False by (intros H; by apply H). rewrite <- filter_app. by rewrite filter_all.
      * intros a. apply Ht'.
      * eapply vframe_trans; [exact Hfr|]. apply frame_votes.
    + assert (E : d ++ v :: todo = (d ++ [v]) ++ todo) by (by rewrite <- app_assoc). rewrite E in *.
      apply IH; auto. apply Forall_app. auto.
Qed.

Lemma discard_cast_by_spec sg signer todo : forall done_ s,
  tallied sg (done_ ++ todo) s -> Forall (vote_ok sg) (done_ ++ todo) -> Forall (fun v => vSigner v <> signer) done_ ->
  let t := discard_cast_by signer done_ todo s in
  Votes t = filter (fun v => vSigner v <> signer) (done_ ++ todo) /\ tallied sg (Votes t) t /\ frame s t.
Proof.
  induction todo as [|v todo IH]; intros d s Ht Hok Hd; cbn.
  - rewrite app_nil_r in *. rewrite filter_all by done. auto using frame_votes.
  - case_bool_decide as Hv.
    + assert (Hok' := Hok). apply Forall_app in Hok' as [Hd1 Hok']. apply Forall_cons in Hok' as [[_ Hs] Hok'].
      destruct (uncast_votes sg d v todo _ s Ht Hs eq_refl) as [Ht' _].
      destruct (IH d (fst (uncast (vAddress v) (vAuthorize v) s))) as (H1 & H2 & H3); [done|by apply Forall_app|done|].
      rewrite H1, !filter_app, filter_cons, decide_False by (intros H; by apply H). split; [done|]. split; [by rewrite H1, filter_app in H2|].
      eapply vframe_trans; [|exact H3]. apply uncast_frame.
    + assert (E : d ++ v :: todo = (d ++ [v]) ++ todo) by (by rewrite <- app_assoc). rewrite E in *.
      apply IH; auto. apply Forall_app. auto.
Qed.

Lemma votes_ok_frame s t : votes_ok s -> Signers t = Signers s -> Votes t = Votes s -> TallyOf t = TallyOf s -> votes_ok t.
Proof. intros [] H1 H2 H3. by split; rewrite ?H1, ?H2, ?H3. Qed.

Lemma newSnapshot_votes_ok n h l : votes_ok (newSnapshot n h l).
Proof. split; [constructor|constructor|done]. Qed.

Lemma start_epoch_votes_ok e n s : votes_ok s -> votes_ok (start_epoch e n s).
Proof. intros H. unfold start_epoch. case_match; [|done]. split; [constructor|constructor|done]. Qed.

Lemma shift_recents_votes_ok n s : votes_ok s -> votes_ok (shift_recents n s).
Proof. intros H. unfold shift_recents. case_match; [|done]. by eapply votes_ok_frame. Qed.

Lemma previous_votes_ok signer address s : votes_ok s ->
  let t := discard_previous signer address [] (Votes s) s in
  votes_ok t /\ frame s t /\ Votes t = filter (fun v => ~ by_on signer address v) (Votes s).
Proof.
  intros [H1 H2 H3]. destruct (discard_previous_spec (Signers s) signer address (Votes s) [] s) as (E & Ht & Hf); auto.
  pose proof (frame_fields _ _ Hf) as (_ & _ & Hs & _). split; [|auto]. split; rewrite ?Hs; [| |done].
  - rewrite E. eapply sublist_NoDup; [exact H1|]. apply fmap_sublist, sublist_filter.
  - rewrite E. by apply Forall_filter.
Qed.

(** A vote is counted if it would change the status of the account. *)
Lemma cast_spec signer number address auth s : votes_ok s -> signer ∈ Signers s -> Forall (fun v => ~ by_on signer address v) (Votes s) ->
  let '(t, ok) := cast address auth s in
  let u := if ok : bool then with_Votes (Votes t ++ [MkVote signer number address auth]) t else t in
  votes_ok u /\ frame s u /\ ok = Bool.eqb auth (negb (status (Signers s) address)) /\
  Votes u = Votes s ++ (if ok then [MkVote signer number address auth] else []).
Proof.
  intros [H1 H2 H3] Hin Hno. unfold cast.
  assert (Hvv : validVote s address auth = Bool.eqb auth (negb (status (Signers s) address))).
  { unfold validVote, status. by case_bool_decide; destruct auth. }
  rewrite Hvv. destruct (Bool.eqb _ _) eqn:E; cbn [negb].
  2: { rewrite app_nil_r. split; [done|]. auto using vframe_refl. }
  apply eqb_prop in E. cbn [with_Tally with_Votes Votes Signers TallyOf]. split; [|repeat split].
  split; cbn.
  - rewrite map_app. apply NoDup_app. split; [done|]. split; [|apply NoDup_singleton].
    intros x Hx Hx'. apply list_elem_of_singleton in Hx'. subst x. apply list_elem_of_fmap in Hx as (v & Ev & Hv).
    simplify_eq. rewrite Forall_forall in Hno. by apply (Hno v Hv).
  - apply Forall_app. split; [done|]. constructor; [|constructor]. done.
  - intros a. unfold tally_of. rewrite count_app, count_cons. cbn [vAddress].
    pose proof (count_nonneg address (Votes s)). rewrite H3. unfold tally_of at 1.
    destruct (decide (a = address)) as [->|Hne].
    + rewrite lookup_insert, !decide_True by done. change (count address []) with 0.
      destruct (_ =? 0) eqn:E0; bool_to_prop; destruct (_ + _ =? 0) eqn:E1; bool_to_prop; try lia; cbn; rewrite ?E; do 2 f_equal; lia.
    + rewrite lookup_insert_ne by done. rewrite decide_False by done. change (count a []) with 0.
      rewrite H3. unfold tally_of. by rewrite !Z.add_0_r.
Qed.

(** More than half of the signers. *)
Definition majority (sg : gset Address) (n : Z) : Prop := Z.of_nat (size sg) < 2 * n.
#[export] Instance majority_dec sg n : Decision (majority sg n).
Proof. unfold majority. apply _. Defined.

Lemma status_union sg a b : b <> a -> status ({[ a ]} ∪ sg) b = status sg b.
Proof. intros. apply bool_decide_ext. set_solver. Qed.
Lemma status_difference sg a b : b <> a -> status (sg ∖ {[ a ]}) b = status sg b.
Proof. intros. apply bool_decide_ext. set_solver. Qed.

(** Votes about other accounts stay right when [a] changes its status. *)
Lemma tallied_change sg sg' a vs : (forall b, b <> a -> status sg' b = status sg b) ->
  (forall b, b <> a -> tally_of sg' (filter (fun v => vAddress v <> a) vs) b = tally_of sg vs b) /\ tally_of sg' (filter (fun v => vAddress v <> a) vs) a = None.
Proof.
  intros Hst. split.
  - intros b Hb. unfold tally_of. rewrite count_filter_other, Hst by done. done.
  - unfold tally_of. by rewrite count_filter_same.
Qed.

Lemma change_votes_ok sg sg' a vs t : (forall b, b <> a -> status sg' b = status sg b) -> Forall (fun v => vSigner v ∈ sg') vs ->
  NoDup (map (fun v => (vSigner v, vAddress v)) vs) -> Forall (vote_ok sg) vs -> tallied sg vs t ->
  Signers t = sg' -> Votes t = vs ->
  votes_ok (let u := discard_about a t in with_Tally (delete a (TallyOf u)) u).
Proof.
  intros Hst Hin Hnd Hok Ht Hs Hv. destruct (tallied_change sg sg' a vs Hst) as [Hoth Hself].
  split; cbn; rewrite ?Hs, ?Hv.
  - eapply sublist_NoDup; [exact Hnd|]. apply fmap_sublist, sublist_filter.
  - apply Forall_forall. intros v Hv'. apply list_elem_of_filter in Hv' as [Hne Hv'].
    rewrite Forall_forall in Hin, Hok. destruct (Hok v Hv') as [_ Hse]. split; [by apply Hin|]. by rewrite Hst.
  - intros b. destruct (decide (b = a)) as [->|Hne]; [by rewrite lookup_delete, decide_True|].
    by rewrite lookup_delete_ne, Ht, Hoth by done.
Qed.

Definition flip (a : Address) (sg : gset Address) : gset Address := if status sg a then sg ∖ {[ a ]} else {[ a ]} ∪ sg.

Lemma majority_half sg n : Z.of_nat (size sg) / 2 < n <-> majority sg n.
Proof. unfold majority. split; intros; Z.to_euclidean_division_equations; lia. Qed.

(** The tally decides by the majority of the current signers. *)
Lemma conclude_spec number a s : votes_ok s ->
  let t := conclude number a s in
  (~ majority (Signers s) (count a (Votes s)) -> t = s) /\
  (majority (Signers s) (count a (Votes s)) -> votes_ok t /\ Signers t = flip a (Signers s) /\ sNumber t = sNumber s /\
    (forall v, v ∈ Votes t -> v ∈ Votes s) /\
    Recents t = if status (Signers s) a then Recents (shift_recents number (with_Signers (flip a (Signers s)) s)) else Recents s).
Proof.
  intros Hok. assert (Hok' := Hok). destruct Hok' as [H1 H2 H3]. unfold conclude. rewrite H3. cbn zeta. rewrite <- majority_half.
  pose proof (count_nonneg a (Votes s)). assert (Hsz : 0 <= Z.of_nat (size (Signers s)) / 2) by (apply Z.div_pos; lia).
  assert (Etv : tVotes (default (MkTally false 0) (tally_of (Signers s) (Votes s) a)) = count a (Votes s)).
  { unfold tally_of. destruct (_ =? 0) eqn:E; cbn; [go_lia|done]. }
  rewrite Etv. split; intros Hm; [by rewrite (proj2 (Z.ltb_ge _ _)) by lia|]. rewrite (proj2 (Z.ltb_lt _ _)) by lia. cbn [negb].
  assert (Eta : tAuthorize (default (MkTally false 0) (tally_of (Signers s) (Votes s) a)) = negb (status (Signers s) a)).
  { unfold tally_of. destruct (_ =? 0) eqn:E; cbn; [go_lia|done]. }
  rewrite Eta. unfold flip. destruct (status (Signers s) a) eqn:Ea; cbn [negb].
  - set (s0 := shift_recents number _).
    assert (Hs0 : Signers s0 = Signers s ∖ {[ a ]} /\ Votes s0 = Votes s /\ TallyOf s0 = TallyOf s /\ sNumber s0 = sNumber s).
    { unfold s0, shift_recents. by case_match. }
    destruct Hs0 as (Es & Ev & Et & En).
    destruct (discard_cast_by_spec (Signers s) a (Votes s0) [] s0) as (E & Ht & Hf); [intros b; rewrite Et, Ev; apply H3|by rewrite Ev|done|].
    cbn [app] in E. rewrite Ev in E, Ht, Hf |- *. pose proof (frame_fields _ _ Hf) as (F1 & _ & F3 & F4).
    split; [|split; [|split; [|split]]].
    + eapply (change_votes_ok (Signers s) (Signers s ∖ {[ a ]}) a); [by intros; apply status_difference| | | |exact Ht|by rewrite F3, Es|done].
      * rewrite E. apply Forall_forall. intros v Hv. apply list_elem_of_filter in Hv as [Hne Hv]. rewrite Forall_forall in H2. destruct (H2 v Hv). set_solver.
      * rewrite E. eapply sublist_NoDup; [exact H1|]. apply fmap_sublist, sublist_filter.
      * rewrite E. by apply Forall_filter.
    + cbn. by rewrite F3, Es.
    + cbn. by rewrite F1, En.
    + cbn. intros v Hv. apply list_elem_of_filter in Hv as [_ Hv]. rewrite E in Hv. by apply list_elem_of_filter in Hv as [_ Hv].
    + cbn. by rewrite F4.
  - split; [|split; [|split; [|split]]]; [|done|done| |done].
    + eapply (change_votes_ok (Signers s) ({[ a ]} ∪ Signers s) a (Votes s)); [by intros; apply status_union| |done|done|exact H3|done|done].
      eapply Forall_impl; [exact H2|]. intros v []. set_solver.
    + cbn. intros v Hv. by apply list_elem_of_filter in Hv as [_ Hv].
Qed.

(** ** Histories *)

(** A header and the address that signed it. *)
Abbreviation ballot := (Address * Header)%type.
Definition number_of (b : ballot) : Z := big_Uint64 (Number (snd b)).

(** One iteration of [apply]. *)
Definition vote_step (epoch : Z) (b : ballot) (s : Snapshot) : CliqueError + Snapshot :=
  count_vote (number_of b) (snd b) (fst b) (shift_recents (number_of b) (start_epoch epoch (number_of b) s)).

Inductive history (epoch : Z) : list ballot -> Snapshot -> Prop :=
| history_new hash signers : history epoch [] (newSnapshot 0 hash signers)
| history_step bs s b t : history epoch bs s -> number_of b = len bs + 1 -> vote_step epoch b s = inr t -> history epoch (bs ++ [b]) t.

Definition vote_nonce (auth : bool) : Z := if auth then nonceAuthVote else nonceDropVote.

(** [v] is the last ballot of its signer on its address, cast in the epoch of block [n]. *)
Record cast_in (epoch : Z) (bs : list ballot) (v : Vote) : Prop := {
  cast_at : exists b, bs !! Z.to_nat (vBlock v - 1) = Some b /\ fst b = vSigner v /\ Coinbase (snd b) = vAddress v /\ Nonce (snd b) = vote_nonce (vAuthorize v);
  cast_number : 1 <= vBlock v <= len bs;
  cast_epoch : vBlock v / epoch = len bs / epoch;
  cast_last : forall i b, bs !! i = Some b -> vBlock v <= Z.of_nat i -> ~ (fst b = vSigner v /\ Coinbase (snd b) = vAddress v)
}.

(** The last [w] signers, by block number. *)
Definition window (w : Z) (bs : list ballot) (r : gmap Z Address) : Prop := forall k a,
  r !! k = Some a <-> 1 <= k <= len bs /\ len bs - w < k /\ fst <$> bs !! Z.to_nat (k - 1) = Some a.

Record history_ok (epoch : Z) (bs : list ballot) (s : Snapshot) : Prop := {
  h_votes : votes_ok s;
  h_cast : Forall (cast_in epoch bs) (Votes s);
  h_recents : exists w, limit s - 1 <= w <= limit s /\ window w bs (Recents s)
}.

(** ** Recent signers *)

Lemma limit_pos s : 1 <= limit s.
Proof. unfold limit. pose proof (Z.div_pos (Z.of_nat (size (Signers s))) 2). lia. Qed.

Lemma Recents_start e n s : Recents (start_epoch e n s) = Recents s /\ Signers (start_epoch e n s) = Signers s.
Proof. unfold start_epoch. by case_match. Qed.

Lemma shift_recents_fields n s : Signers (shift_recents n s) = Signers s /\ Votes (shift_recents n s) = Votes s /\ TallyOf (shift_recents n s) = TallyOf s /\
  Recents (shift_recents n s) = if limit s <=? n then delete (n - limit s) (Recents s) else Recents s.
Proof. unfold shift_recents. by case_match. Qed.

(** Before the block after [bs], the entry that leaves the window is dropped. *)
Lemma shift_window s bs w : limit s - 1 <= w <= limit s -> window w bs (Recents s) ->
  window (limit s - 1) bs (Recents (shift_recents (len bs + 1) s)).
Proof.
  intros Hw Hwin k a. specialize (Hwin k a). cbn beta in Hwin. pose proof (shift_recents_fields (len bs + 1) s) as (_ & _ & _ & ->).
  pose proof (limit_pos s). pose proof (len_nonneg bs). destruct (_ <=? _) eqn:E; bool_to_prop.
  - destruct (decide (k = len bs + 1 - limit s)) as [->|Hne].
    + rewrite lookup_delete, decide_True by done. split; [done|]. intros (? & ? & _). lia.
    + rewrite lookup_delete_ne by done. rewrite Hwin. split; intros (? & ? & ?); repeat split; try done; lia.
  - rewrite Hwin. split; intros (? & ? & ?); repeat split; try done; lia.
Qed.

Lemma insert_window w bs b r : 0 <= w -> window w bs r -> window (w + 1) (bs ++ [b]) (<[len bs + 1 := fst b]> r).
Proof.
  intros Hw0 Hw k a. specialize (Hw k a). pose proof (len_nonneg bs). rewrite len_app. change (len [b]) with 1.
  destruct (decide (k = len bs + 1)) as [->|Hne].
  - rewrite lookup_insert, decide_True by done. unfold len. replace (Z.to_nat (_ + 1 - 1)) with (length bs) by lia.
    rewrite list_lookup_middle by done. cbn. split; [intros [= ->]; repeat split; lia|]. by intros (_ & _ & [= ->]).
  - rewrite lookup_insert_ne by done. rewrite Hw. split; intros (? & ? & Hl).
    + repeat split; try lia. rewrite lookup_app_l; [done|]. unfold len in *. lia.
    + repeat split; try lia. rewrite lookup_app_l in Hl; [done|]. unfold len in *. lia.
Qed.

(** Shrinking by one signer lowers the limit by at most one. *)
Lemma drop_window s bs w : w = limit s + 1 \/ w = limit s -> window w bs (Recents s) ->
  window (limit s) bs (Recents (shift_recents (len bs) s)).
Proof.
  intros Hw Hwin k a. specialize (Hwin k a). cbn beta in Hwin. pose proof (shift_recents_fields (len bs) s) as (_ & _ & _ & ->).
  pose proof (limit_pos s). pose proof (len_nonneg bs). destruct (_ <=? _) eqn:E; bool_to_prop.
  - destruct (decide (k = len bs - limit s)) as [->|Hne].
    + rewrite lookup_delete, decide_True by done. split; [done|]. intros (? & ? & _). lia.
    + rewrite lookup_delete_ne by done. rewrite Hwin. split; intros (? & ? & ?); repeat split; try done; lia.
  - rewrite Hwin. split; intros (? & ? & ?); repeat split; try done; lia.
Qed.

(** ** One block *)

Lemma recent_found (r : gmap Z Address) a : existsb (fun '(_, x) => bool_decide (x = a)) (map_to_list r) = true <-> exists k, r !! k = Some a.
Proof.
  rewrite existsb_exists. split.
  - intros ([k x] & Hin & Hx). bool_to_prop. subst x. exists k. apply elem_of_map_to_list. by apply list_elem_of_In.
  - intros [k Hk]. exists (k, a). split; [|by apply bool_decide_eq_true]. by apply list_elem_of_In, elem_of_map_to_list.
Qed.

(** What [apply] requires of the signer of the block after [bs]. *)
Record may_sign (bs : list ballot) (s : Snapshot) (b : ballot) : Prop := {
  ms_signer : fst b ∈ Signers s;
  ms_spread : forall i b', bs !! i = Some b' -> len bs + 1 - limit s < Z.of_nat i + 1 -> fst b' <> fst b;
  ms_nonce : exists auth, Nonce (snd b) = vote_nonce auth
}.

(** The snapshot when the vote of the block has been counted. *)
Definition ballot_counted (s0 : Snapshot) (number : Z) (b : ballot) (auth : bool) (s2 : Snapshot) : Prop :=
  votes_ok s2 /\ Signers s2 = Signers s0 /\ Recents s2 = <[number := fst b]> (Recents s0) /\
  Votes s2 = filter (fun v => ~ by_on (fst b) (Coinbase (snd b)) v) (Votes s0) ++
    (if Bool.eqb auth (negb (status (Signers s0) (Coinbase (snd b)))) then [MkVote (fst b) number (Coinbase (snd b)) auth] else []).

Lemma nonce_auth h auth : Nonce h = vote_nonce auth ->
  (if Nonce h =? nonceAuthVote then Some true else if Nonce h =? nonceDropVote then Some false else None) = Some auth.
Proof. intros ->. by destruct auth. Qed.
Lemma nonce_bad h : ~ (exists auth, Nonce h = vote_nonce auth) ->
  (if Nonce h =? nonceAuthVote then Some true else if Nonce h =? nonceDropVote then Some false else None) = None.
Proof.
  intros Hn. destruct (_ =? nonceAuthVote) eqn:E1; bool_to_prop; [destruct Hn; by exists true|].
  destruct (_ =? nonceDropVote) eqn:E2; bool_to_prop; [destruct Hn; by exists false|done].
Qed.

Lemma count_vote_spec number b s0 : votes_ok s0 ->
  (forall auth, fst b ∈ Signers s0 -> ~ (exists k, Recents s0 !! k = Some (fst b)) -> Nonce (snd b) = vote_nonce auth ->
    exists s2, ballot_counted s0 number b auth s2 /\ count_vote number (snd b) (fst b) s0 = inr (conclude number (Coinbase (snd b)) s2)) /\
  (forall t, count_vote number (snd b) (fst b) s0 = inr t -> fst b ∈ Signers s0 /\ ~ (exists k, Recents s0 !! k = Some (fst b)) /\ exists auth, Nonce (snd b) = vote_nonce auth).
Proof.
  intros Hok. split.
  - intros auth Hin Hrec Hn. unfold count_vote. rewrite bool_decide_eq_true_2 by done. cbn [negb].
    rewrite (not_true_is_false _ (fun H => Hrec (proj1 (recent_found _ _) H))).
    rewrite (nonce_auth _ _ Hn). cbn zeta. set (s0' := with_Recents _ s0).
    assert (Hok' : votes_ok s0') by (by eapply votes_ok_frame).
    destruct (previous_votes_ok (fst b) (Coinbase (snd b)) s0' Hok') as (Hok1 & Hf1 & Hv1).
    set (s1 := discard_previous _ _ [] _ s0') in *. pose proof (frame_fields _ _ Hf1) as (_ & _ & Hs1 & Hr1).
    assert (Hin1 : fst b ∈ Signers s1) by (by rewrite Hs1).
    assert (Hno1 : Forall (fun v => ~ by_on (fst b) (Coinbase (snd b)) v) (Votes s1)).
    { rewrite Hv1. apply Forall_forall. intros v Hv. by apply list_elem_of_filter in Hv as [Hv _]. }
    pose proof (cast_spec (fst b) number (Coinbase (snd b)) auth s1 Hok1 Hin1 Hno1) as Hc.
    destruct (cast (Coinbase (snd b)) auth s1) as [t ok]. destruct Hc as (Hok2 & Hf2 & -> & Hv2). cbn zeta.
    pose proof (frame_fields _ _ Hf2) as (_ & _ & Hs2 & Hr2).
    eexists. split; [|reflexivity]. split; [exact Hok2|]. split; [by rewrite Hs2, Hs1|]. split; [by rewrite Hr2, Hr1|].
    rewrite Hv2, Hv1, Hs1. done.
  - intros t. unfold count_vote. case_bool_decide as Hin; cbn [negb]; [|done]. case_match eqn:Hrec; [done|].
    intros Hc. split; [done|]. split.
    + intros Hk. by rewrite (proj2 (recent_found _ _) Hk) in Hrec.
    + destruct (decide (Nonce (snd b) = vote_nonce true)) as [E|E1]; [by exists true|].
      destruct (decide (Nonce (snd b) = vote_nonce false)) as [E|E2]; [by exists false|].
      rewrite nonce_bad in Hc; [done|]. by intros [[] E].
Qed.

Section Step.
Context (epoch : Z) (Hepoch : 0 < epoch).

(** The snapshot at the start of the block after [bs]. *)
Lemma block_start bs s b : history_ok epoch bs s -> number_of b = len bs + 1 ->
  let s0 := shift_recents (number_of b) (start_epoch epoch (number_of b) s) in
  votes_ok s0 /\ Signers s0 = Signers s /\ window (limit s - 1) bs (Recents s0) /\
  Forall (fun v => cast_in epoch bs v /\ vBlock v / epoch = number_of b / epoch) (Votes s0).
Proof.
  intros [Hv Hc (w & Hw & Hwin)] Hn. destruct (Recents_start epoch (number_of b) s) as [Er Es].
  split; [by apply shift_recents_votes_ok, start_epoch_votes_ok|].
  pose proof (shift_recents_fields (number_of b) (start_epoch epoch (number_of b) s)) as (E1 & E2 & _ & _).
  split; [by rewrite E1, Es|]. assert (El : limit (start_epoch epoch (number_of b) s) = limit s) by (unfold limit; by rewrite Es).
  rewrite <- El in Hw. rewrite <- Er in Hwin.
  split; [rewrite <- El; pose proof (shift_window _ _ _ Hw Hwin) as Hsh; by rewrite <- Hn in Hsh|].
  rewrite E2. unfold start_epoch. destruct (_ =? 0) eqn:E; bool_to_prop; [constructor|].
  eapply Forall_impl; [exact Hc|]. intros v Hvv. split; [done|]. rewrite (cast_epoch _ _ _ Hvv), Hn.
  rewrite Hn in E. clear -Hepoch E. set (n := len bs) in *.
  pose proof (Z.div_mod n epoch). pose proof (Z.div_mod (n + 1) epoch). pose proof (Z.mod_pos_bound n epoch). pose proof (Z.mod_pos_bound (n + 1) epoch). nia.
Qed.

Lemma block_verdict bs s b : history_ok epoch bs s -> number_of b = len bs + 1 ->
  may_sign bs s b <-> exists t, vote_step epoch b s = inr t.
Proof.
  intros Hh Hn. destruct (block_start bs s b Hh Hn) as (Hok & Hs & Hwin & _).
  destruct (count_vote_spec (number_of b) b _ Hok) as [Hacc Honly]. rewrite Hs in Hacc, Honly.
  assert (Hrec : (forall i b', bs !! i = Some b' -> len bs + 1 - limit s < Z.of_nat i + 1 -> fst b' <> fst b) <->
                 ~ exists k, Recents (shift_recents (number_of b) (start_epoch epoch (number_of b) s)) !! k = Some (fst b)).
  { split.
    - intros H [k Hk]. apply Hwin in Hk as (Hk1 & Hk2 & Hl). destruct (bs !! Z.to_nat (k - 1)) as [b'|] eqn:El; [|done]. injection Hl as Hl.
      eapply H; [exact El|lia|done].
    - intros H i b' Hl Hi Heq. apply H. exists (Z.of_nat i + 1). apply Hwin. pose proof (lookup_lt_Some _ _ _ Hl). unfold len in *.
      split; [lia|]. split; [lia|]. replace (Z.to_nat _) with i by lia. rewrite Hl. cbn. by rewrite Heq. }
  split.
  - intros [H1 H2 [auth H3]]. destruct (Hacc auth H1 (proj1 Hrec H2) H3) as (s2 & _ & E). by exists (conclude (number_of b) (Coinbase (snd b)) s2).
  - intros [t Ht]. destruct (Honly t Ht) as (H1 & H2 & H3). split; [done|by apply Hrec|done].
Qed.

(** Votes that were counted before the block stay counted unless its signer withdraws
    them. *)
Lemma cast_in_snoc bs b v : cast_in epoch bs v -> vBlock v / epoch = number_of b / epoch -> number_of b = len bs + 1 ->
  ~ by_on (fst b) (Coinbase (snd b)) v -> cast_in epoch (bs ++ [b]) v.
Proof.
  intros [(b0 & Hb0 & Hx) Hnum _ Hlast] He Hn Hby. split.
  - exists b0. split; [|done]. by apply lookup_app_l_Some.
  - rewrite len_app. change (len [b]) with 1. lia.
  - rewrite len_app. change (len [b]) with 1. by rewrite He, Hn.
  - intros i b' Hl Hi. apply lookup_app_Some in Hl as [Hl|[Hge Hl]]; [by eapply Hlast|].
    apply list_lookup_singleton_Some in Hl as [_ <-]. intros [E1 E2]. by apply Hby.
Qed.

Lemma cast_in_new bs b auth : number_of b = len bs + 1 -> Nonce (snd b) = vote_nonce auth ->
  cast_in epoch (bs ++ [b]) (MkVote (fst b) (number_of b) (Coinbase (snd b)) auth).
Proof.
  intros Hn Hno. pose proof (len_nonneg bs). split; cbn; rewrite ?len_app, ?Hn; change (len [b]) with 1; [|lia|done|].
  - exists b. split; [|done]. unfold len. replace (Z.to_nat _) with (length bs) by lia. by apply list_lookup_middle.
  - intros i b' Hl Hi. apply lookup_lt_Some in Hl. rewrite length_app in Hl. cbn in Hl. unfold len in *. lia.
Qed.

Lemma size_flip a sg : Z.of_nat (size (flip a sg)) = Z.of_nat (size sg) + (if status sg a then -1 else 1).
Proof.
  unfold flip, status. case_bool_decide as Ha.
  - rewrite size_difference by set_solver. rewrite size_singleton. assert (size sg <> 0%nat) by (intros E; apply size_empty_inv in E; set_solver). lia.
  - rewrite size_union by set_solver. rewrite size_singleton. lia.
Qed.

(** The votes that decide. *)
Definition supporters (bs : list ballot) (sg : gset Address) (a : Address) (V : gset Address) : Prop :=
  V ⊆ sg /\ majority sg (Z.of_nat (size V)) /\
  forall x, x ∈ V -> exists i b, bs !! i = Some b /\ fst b = x /\ Coinbase (snd b) = a /\ Nonce (snd b) = vote_nonce (negb (status sg a)) /\
    (Z.of_nat i + 1) / epoch = len bs / epoch /\
    forall j b', (i < j)%nat -> bs !! j = Some b' -> ~ (fst b' = x /\ Coinbase (snd b') = a).

Lemma supporters_of bs s a : votes_ok s -> Forall (cast_in epoch bs) (Votes s) -> majority (Signers s) (count a (Votes s)) ->
  exists V, supporters bs (Signers s) a V.
Proof.
  intros [H1 H2 _] Hc Hm. set (vs := filter (about a) (Votes s)). exists (list_to_set (map vSigner vs)).
  assert (Hnd : NoDup (map vSigner vs)).
  { apply NoDup_fmap_2_strong; [|eapply sublist_NoDup; [eapply NoDup_fmap_1, H1|apply sublist_filter]].
    intros v w Hv Hw E. apply list_elem_of_filter in Hv as [Av Hv], Hw as [Aw Hw].
    apply list_elem_of_lookup in Hv as [i Hi], Hw as [j Hj].
    assert (i = j) as ->; [|congruence]. eapply NoDup_lookup; [exact H1| |].
    - rewrite list_lookup_fmap, Hi. reflexivity.
    - rewrite list_lookup_fmap, Hj. cbn. unfold about in *. congruence. }
  split; [|split].
  - intros x Hx. apply elem_of_list_to_set, list_elem_of_fmap in Hx as (v & -> & Hv). apply list_elem_of_filter in Hv as [_ Hv].
    rewrite Forall_forall in H2. by destruct (H2 v Hv).
  - rewrite size_list_to_set by done. rewrite length_map. exact Hm.
  - intros x Hx. apply elem_of_list_to_set, list_elem_of_fmap in Hx as (v & -> & Hv). apply list_elem_of_filter in Hv as [Av Hv].
    rewrite Forall_forall in H2, Hc. destruct (H2 v Hv) as [_ Hse]. destruct (Hc v Hv) as [(b & Hb & E1 & E2 & E3) Hnum Hep Hlast].
    unfold about in Av. exists (Z.to_nat (vBlock v - 1)), b. rewrite Av in *. rewrite <- Hse.
    repeat split; try done; [rewrite <- Hep; f_equal; lia|]. intros j b' Hj Hl. eapply Hlast; [exact Hl|]. lia.
Qed.

Lemma limit_flip a s : limit (with_Signers (flip a (Signers s)) s) - limit s = 0 \/
  limit (with_Signers (flip a (Signers s)) s) - limit s = if status (Signers s) a then -1 else 1.
Proof.
  unfold limit. cbn [with_Signers Signers]. rewrite size_flip. destruct (status (Signers s) a);
  Z.to_euclidean_division_equations; lia.
Qed.

Lemma block_step bs s b t : history_ok epoch bs s -> number_of b = len bs + 1 -> vote_step epoch b s = inr t ->
  history_ok epoch (bs ++ [b]) t /\
  (Signers t = Signers s \/ Signers t = flip (Coinbase (snd b)) (Signers s) /\ exists V, supporters (bs ++ [b]) (Signers s) (Coinbase (snd b)) V).
Proof.
  intros Hh Hn Ht. destruct (block_start bs s b Hh Hn) as (Hok & Hs & Hwin & Hcast). unfold vote_step in Ht. set (s0 := shift_recents _ _) in *.
  destruct (count_vote_spec (number_of b) b s0 Hok) as [Hacc Honly]. destruct (Honly t Ht) as (H1 & H2 & auth & H3).
  destruct (Hacc auth H1 H2 H3) as (s2 & (Hok2 & Hs2 & Hr2 & Hv2) & E). rewrite E in Ht. injection Ht as <-. clear Hacc Honly E.
  assert (Hc2 : Forall (cast_in epoch (bs ++ [b])) (Votes s2)).
  { rewrite Hv2. apply Forall_app. split.
    - apply Forall_forall. intros v Hv. apply list_elem_of_filter in Hv as [Hby Hv]. rewrite Forall_forall in Hcast. destruct (Hcast v Hv). by apply cast_in_snoc.
    - case_match; [|constructor]. constructor; [by apply cast_in_new|constructor]. }
  assert (Hl2 : limit s2 = limit s) by (unfold limit; by rewrite Hs2, Hs).
  assert (Hw2 : window (limit s2) (bs ++ [b]) (Recents s2)).
  { rewrite Hr2, Hn, Hl2. replace (limit s) with (limit s - 1 + 1) by lia. apply insert_window; [pose proof (limit_pos s); lia|done]. }
  destruct (conclude_spec (number_of b) (Coinbase (snd b)) s2 Hok2) as [Hkeep Hchange].
  destruct (decide (majority (Signers s2) (count (Coinbase (snd b)) (Votes s2)))) as [Hm|Hm].
  2: { rewrite (Hkeep Hm). split; [|left; by rewrite Hs2, Hs]. split; [done|done|]. exists (limit s2). split; [lia|done]. }
  destruct (Hchange Hm) as (Hok3 & Hs3 & _ & Hv3 & Hr3). split.
  2: { right. rewrite Hs3, <- Hs, <- Hs2. split; [done|]. by eapply supporters_of. }
  set (s3 := conclude _ _ s2) in *. split; [done| |].
  - apply Forall_forall. intros v Hv. rewrite Forall_forall in Hc2. by apply Hc2, Hv3.
  - assert (Hl3 : limit s3 = limit (with_Signers (flip (Coinbase (snd b)) (Signers s2)) s2)) by (unfold limit; by rewrite Hs3).
    pose proof (limit_flip (Coinbase (snd b)) s2) as Hd. rewrite <- Hl3 in Hd. rewrite Hr3. destruct (status (Signers s2) (Coinbase (snd b))).
    + exists (limit s3). split; [lia|]. rewrite Hl3. replace (number_of b) with (len (bs ++ [b])) by (rewrite len_app, Hn; done).
      eapply (drop_window (with_Signers _ s2) _ (limit s2)); [rewrite <- Hl3; lia|exact Hw2].
    + exists (limit s2). split; [lia|exact Hw2].
Qed.

Lemma history_inv bs s : history epoch bs s -> history_ok epoch bs s.
Proof.
  induction 1 as [hash sg|bs s b t _ IH Hn Ht]; [|by eapply block_step].
  split; [apply newSnapshot_votes_ok|constructor|]. exists (limit (newSnapshot 0 hash sg)). split; [lia|].
  intros k a. cbn. rewrite lookup_empty. split; [done|]. intros (? & ? & ?). change (len []) with 0 in *. lia.
Qed.

End Step.

End CliqueVotes.
