(* ===== verification/CliqueApply.v ===== *)
(** [Clique.apply] against the plain count of the votes: the caches of signatures and of
    snapshots and the database of checkpoints do not show. *)

From S2P Require Import Prelude Params Bytes Cache RlpEncode Consensus Clique CliqueVotes.
Import Clique CliqueVotes.

Module CliqueApply.

(** ** Evaluation in the monad *)

Lemma try_eval {St E A B} (m : SM St (E + A)) (k : A -> SM St (E + B)) s s' r : m s = Ret (s', r) ->
  try m k s = match r with inl e => Ret (s', inl e) | inr a => k a s' end.
Proof. intros H. unfold try. rewrite (bind_eval _ _ _ _ _ H). by destruct r. Qed.

(** ** Number and hash of a snapshot play no part in the counting *)

Definition stamp (n : Z) (x : Hash) (s : Snapshot) : Snapshot := MkSnapshot n x (Signers s) (Recents s) (Votes s) (TallyOf s).

Section Stamp.
Context (n : Z) (x : Hash).
Abbreviation st := (stamp n x).

Lemma uncast_stamp a b s : fst (uncast a b (st s)) = st (fst (uncast a b s)).
Proof. unfold uncast. cbn. by repeat case_match. Qed.
Lemma cast_stamp a b s : cast a b (st s) = (st (fst (cast a b s)), snd (cast a b s)).
Proof. unfold cast. cbn. change (validVote (st s) a b) with (validVote s a b). by case_match. Qed.
Lemma shift_recents_stamp k s : shift_recents k (st s) = st (shift_recents k s).
Proof. unfold shift_recents. change (limit (st s)) with (limit s). by case_match. Qed.
Lemma start_epoch_stamp e k s : start_epoch e k (st s) = st (start_epoch e k s).
Proof. unfold start_epoch. by case_match. Qed.
Lemma discard_previous_stamp a b todo : forall d s, discard_previous a b d todo (st s) = st (discard_previous a b d todo s).
Proof. induction todo as [|v todo IH]; intros d s; cbn; [done|]. case_match; [by rewrite uncast_stamp|apply IH]. Qed.
Lemma discard_cast_by_stamp a todo : forall d s, discard_cast_by a d todo (st s) = st (discard_cast_by a d todo s).
Proof. induction todo as [|v todo IH]; intros d s; cbn; [done|]. case_match; [rewrite uncast_stamp|]; apply IH. Qed.
Lemma conclude_stamp k a s : conclude k a (st s) = st (conclude k a s).
Proof.
  unfold conclude. cbn [stamp TallyOf Signers]. case_match; [done|]. case_match; [done|].
  change (with_Signers (Signers s ∖ {[a]}) (st s)) with (st (with_Signers (Signers s ∖ {[a]}) s)).
  rewrite shift_recents_stamp. set (t := shift_recents _ _). change (Votes (st t)) with (Votes t). by rewrite discard_cast_by_stamp.
Qed.

Definition map_inr {E A B} (f : A -> B) (r : E + A) : E + B := match r with inl e => inl e | inr a => inr (f a) end.

Lemma vote_step_stamp e b s : vote_step e b (st s) = map_inr st (vote_step e b s).
Proof.
  unfold vote_step. rewrite start_epoch_stamp, shift_recents_stamp. set (t := shift_recents _ _). unfold count_vote.
  cbn [stamp Signers Recents]. case_match; [done|]. case_match; [done|].
  set (t1 := with_Recents _ t). change (with_Recents _ (st t)) with (st t1). change (Votes (st t1)) with (Votes t1).
  rewrite discard_previous_stamp. case_match; [|done]. rewrite cast_stamp. destruct (cast _ _ _) as [u ok]. cbn.
  destruct ok; [change (with_Votes _ (st u)) with (st (with_Votes (Votes u ++ [MkVote b.1 (number_of b) (Coinbase b.2) b0]) u))|]; by rewrite conclude_stamp.
Qed.

End Stamp.

Lemma vote_step_stamps e b s t : vote_step e b s = inr t -> sNumber t = sNumber s /\ sHash t = sHash s.
Proof.
  intros H. pose proof (vote_step_stamp (sNumber s) (sHash s) e b s) as E. rewrite H in E.
  replace (stamp (sNumber s) (sHash s) s) with s in E by (by destruct s). rewrite H in E. cbn in E. injection E as ->. done.
Qed.

(** ** Counting headers *)

Section Count.
Context (signer_of : Header -> CliqueError + Address) (epoch : Z).

Fixpoint count_headers (hs : list Header) (s : Snapshot) : CliqueError + Snapshot :=
  match hs with
  | [] => inr s
  | h :: hs =>
      match signer_of h with
      | inl e => inl e
      | inr a => match vote_step epoch (a, h) s with inl e => inl e | inr s => count_headers hs s end
      end
  end.

Lemma count_headers_app hs ks s :
  count_headers (hs ++ ks) s = match count_headers hs s with inl e => inl e | inr s => count_headers ks s end.
Proof. revert s. induction hs as [|h hs IH]; intros s; cbn; [done|]. case_match; [done|]. case_match; [done|apply IH]. Qed.

Lemma count_headers_stamp n x hs : forall s, count_headers hs (stamp n x s) = map_inr (stamp n x) (count_headers hs s).
Proof.
  induction hs as [|h hs IH]; intros s; cbn; [done|]. case_match; [done|]. rewrite vote_step_stamp.
  destruct (vote_step _ _ _); cbn; [done|apply IH].
Qed.

(** Headers whose signers are known. *)
Definition ballots (hs : list Header) (bs : list ballot) : Prop := Forall2 (fun h b => snd b = h /\ signer_of h = inr (fst b)) hs bs.

Lemma count_history hs hash sg s :
  (forall i h, hs !! i = Some h -> big_Uint64 (Number h) = Z.of_nat i + 1) -> count_headers hs (newSnapshot 0 hash sg) = inr s ->
  exists bs, ballots hs bs /\ history epoch bs s.
Proof.
  revert s. induction hs as [|h hs IH] using rev_ind; intros s Hn Hc.
  - cbn in Hc. injection Hc as <-. exists []. split; [constructor|constructor].
  - rewrite count_headers_app in Hc. destruct (count_headers hs _) as [|s0] eqn:E0; [done|].
    destruct (IH s0) as (bs & Hb & Hh); [intros i k Hi; apply Hn; by apply lookup_app_l_Some|done|].
    cbn in Hc. destruct (signer_of h) as [|a] eqn:Ea; [done|]. destruct (vote_step epoch (a, h) s0) as [|s1] eqn:E1; [done|]. injection Hc as <-.
    exists (bs ++ [(a, h)]). split; [apply Forall2_app; [done|]; by constructor|]. eapply history_step; [exact Hh| |exact E1].
    unfold number_of. cbn. rewrite (Hn (length hs)) by (by apply list_lookup_middle). unfold len. by rewrite (Forall2_length _ _ _ Hb).
Qed.

End Count.

(** ** The engine *)

Section Engine.
Context {C1 C2 DB : Type} {ops1 : CacheOps C1 Snapshot} {ops2 : CacheOps C2 Address} {opsD : StoreOps DB}.
Context {laws1 : CacheLaws ops1} {laws2 : CacheLaws ops2} {lawsD : StoreLaws opsD}.
Context (order : list Address -> list Address).
Context (headerHash : Header -> Hash) (Keccak256 : bytes -> Hash) (Ecrecover : bytes -> bytes -> option bytes) (uncleHash : Hash).
(** The headers that occur. *)
Context (P : Header -> Prop).

Abbreviation clique := (Clique C1 C2 DB).
Abbreviation recover := (recover Keccak256 Ecrecover).
Abbreviation ecrecover := (ecrecover headerHash Keccak256 Ecrecover).
Abbreviation apply := (apply headerHash Keccak256 Ecrecover).
Abbreviation apply_all := (apply_all headerHash Keccak256 Ecrecover).

(** No two of them have the same hash, and the recovery of their signer returns. *)
Record headers_ok : Prop := {
  hashes_differ : forall h h', P h -> P h' -> headerHash h = headerHash h' -> h = h';
  recovery_returns : forall h, P h -> recover h <> Panic
}.

Definition signer_of (h : Header) : CliqueError + Address := match recover h with Ret r => r | Panic => inl errRecover end.

(** The cached signers are the signers. *)
Definition signatures_ok (c : clique) : Prop := forall h a, P h -> cached (signatures c) !! headerHash h = Some a -> signer_of h = inr a.

Context (Hok : headers_ok).

Lemma ecrecover_spec c h : signatures_ok c -> P h -> exists x, ecrecover h c = Ret (put_signatures x c, signer_of h) /\ signatures_ok (put_signatures x c).
Proof using Hok laws2.
  intros Hs Hp. unfold Clique.ecrecover. destruct (cache_Get (signatures c) (headerHash h)) as [x known] eqn:Eg.
  assert (Hsub : cached x ⊆ cached (signatures c)) by (pose proof (cache_Get_held (signatures c) (headerHash h)) as H; by rewrite Eg in H).
  assert (Hs' : signatures_ok (put_signatures x c)) by (intros k b Hk Hb; eapply Hs; [exact Hk|]; by eapply lookup_weaken).
  destruct known as [a|].
  - exists x. split; [|done]. rewrite (Hs h a Hp); [done|]. apply cache_Get_found. by rewrite Eg.
  - pose proof (recovery_returns Hok h Hp) as Hr. unfold signer_of. destruct (recover h) as [r|] eqn:Er; [|done]. cbn [mbind outcome_bind].
    destruct r as [e|a]; [by exists x|]. exists (cache_Add x (headerHash h) a). split; [done|]. intros k b Hk Hb.
    eapply lookup_weaken in Hb; [|apply cache_Add_held]. destruct (decide (headerHash k = headerHash h)) as [E|E].
    + rewrite E, lookup_insert, decide_True in Hb by done. injection Hb as <-. rewrite (hashes_differ Hok k h Hk Hp E). unfold signer_of. by rewrite Er.
    + rewrite lookup_insert_ne in Hb by done. by apply Hs'.
Qed.

Lemma apply_all_spec epoch hs : Forall P hs -> forall c s, signatures_ok c ->
  exists x, apply_all epoch hs s c = Ret (put_signatures x c, count_headers signer_of epoch hs s) /\ signatures_ok (put_signatures x c).
Proof using Hok laws2.
  induction 1 as [|h hs Hp _ IH]; intros c s Hc.
  - exists (signatures c). assert (put_signatures (signatures c) c = c) as -> by (by destruct c). done.
  - destruct (ecrecover_spec c h Hc Hp) as (x & Ex & Hx). cbn [Clique.apply_all count_headers].
    assert (E1 : apply_one headerHash Keccak256 Ecrecover epoch h s c = Ret (put_signatures x c, match signer_of h with inl e => inl e | inr a => vote_step epoch (a, h) s end)).
    { unfold apply_one. rewrite (try_eval _ _ _ _ _ Ex). by destruct (signer_of h). }
    rewrite (try_eval _ _ _ _ _ E1). destruct (signer_of h) as [e|a]; [by exists x|].
    destruct (vote_step epoch (a, h) s) as [e|s1]; [by exists x|]. destruct (IH (put_signatures x c) s1 Hx) as (y & Ey & Hy). exists y. done.
Qed.

(** ** Chains of headers *)

Context (g : Header).
Abbreviation hash := headerHash.

(** The headers after the genesis block up to the block of the given hash. *)
Inductive lineage : list Header -> Hash -> Prop :=
| lineage_genesis : P g -> Number g = 0 -> lineage [] (hash g)
| lineage_next hs h : lineage hs (ParentHash h) -> P h -> Number h = len hs + 1 -> len hs + 1 <= MaxUint64 -> lineage (hs ++ [h]) (hash h).

Lemma lineage_P hs x : lineage hs x -> Forall P hs /\ P g /\ Number g = 0.
Proof. induction 1 as [|hs h _ [IH1 IH2] Hp _ _]; [auto|]. split; [|done]. apply Forall_app. auto. Qed.

Lemma lineage_len hs x : lineage hs x -> len hs <= MaxUint64.
Proof. destruct 1; [done|]. by rewrite len_app. Qed.

Lemma lineage_number hs x : lineage hs x -> forall i h, hs !! i = Some h -> big_Uint64 (Number h) = Z.of_nat i + 1 /\ Number h = Z.of_nat i + 1.
Proof.
  induction 1 as [|hs h Hl IH Hp Hn Hmax]; intros i k Hi; [done|].
  apply lookup_app_Some in Hi as [Hi|[Hge Hi]]; [by apply IH|]. apply list_lookup_singleton_Some in Hi as [Hi <-].
  rewrite Hn. unfold len in *. replace (Z.of_nat i) with (Z.of_nat (length hs)) by lia. split; [|done]. apply big_Uint64_id. go_lia.
Qed.

(** A block has one line of ancestors. *)
Lemma lineage_unique hs x : lineage hs x -> forall ks, lineage ks x -> ks = hs.
Proof using Hok.
  induction 1 as [Hg H0|hs h Hl IH Hp Hn Hmax]; intros ks Hk; inversion Hk as [Hg' H0' E1 E2|ks' k Hk' Hp' Hn' Hmax' E1 E2]; subst; [done| | |].
  - pose proof (hashes_differ Hok _ _ Hp' Hg E2). subst k. pose proof (len_nonneg ks'). lia.
  - pose proof (hashes_differ Hok _ _ Hg' Hp E2). subst h. pose proof (len_nonneg hs). lia.
  - pose proof (hashes_differ Hok _ _ Hp' Hp E2). subst k. f_equal. by apply IH.
Qed.

Lemma lineage_contiguous hs ks x : lineage (hs ++ ks) x -> contiguous ks = true.
Proof.
  intros Hl. pose proof (lineage_len _ _ Hl) as Hlen. pose proof (lineage_number _ _ Hl) as Hn. clear Hl.
  revert hs Hn Hlen. induction ks as [|h [|h' ks] IH]; intros hs Hn Hlen; [done|done|]. cbn [contiguous].
  assert (E : hs ++ h :: h' :: ks = (hs ++ [h]) ++ h' :: ks) by (by rewrite <- app_assoc).
  destruct (Hn (length hs) h) as [E1 _]; [by apply list_lookup_middle|]. rewrite E in Hn, Hlen.
  destruct (Hn (S (length hs)) h') as [E2 _]; [apply list_lookup_middle; rewrite length_app; cbn; lia|].
  apply andb_true_iff. split; [|by apply (IH (hs ++ [h]))]. rewrite E1, E2. apply Z.eqb_eq. rewrite len_app in Hlen. unfold len in Hlen.
  rewrite !length_app in Hlen. cbn in Hlen. rewrite u64_id; go_lia.
Qed.

Lemma lineage_head hs h ks x : lineage (hs ++ h :: ks) x -> big_Uint64 (Number h) = u64 (len hs + 1).
Proof.
  intros Hl. pose proof (lineage_len _ _ Hl) as Hlen. destruct (lineage_number _ _ Hl (length hs) h) as [-> _]; [by apply list_lookup_middle|].
  unfold len in *. rewrite length_app in Hlen. cbn in Hlen. rewrite u64_id; [done|]. go_lia.
Qed.

Lemma lineage_last hs ks l x : lineage (hs ++ ks) x -> last ks = Some l -> hash l = x.
Proof.
  intros Hl Hlast. apply last_Some in Hlast as [ks' ->]. rewrite app_assoc in Hl. inversion Hl as [? ? E|hs' h ? ? ? ? E]; [by destruct (hs ++ ks')|].
  apply app_inj_tail in E as [_ ->]. done.
Qed.

Lemma lineage_hash hs x y : lineage hs x -> lineage hs y -> x = y.
Proof.
  intros Hx Hy. inversion Hx as [? ? E|hs1 h ? ? ? ? E]; inversion Hy as [? ? E'|hs2 k ? ? ? ? E']; subst; try (by destruct hs1); try (by destruct hs2); [done|].
  by apply app_inj_tail in E' as [_ ->].
Qed.

(** The count of the votes from the genesis block. *)
Context (epoch : Z).
Definition genesis_state : Snapshot := newSnapshot 0 (hash g) (genesis_signers g).
Definition counted (hs : list Header) (x : Hash) : CliqueError + Snapshot := map_inr (stamp (len hs) x) (count_headers signer_of epoch hs genesis_state).

Lemma apply_spec c s hs ks x y : signatures_ok c -> Epoch (config c) = epoch -> lineage hs x -> lineage (hs ++ ks) y -> counted hs x = inr s ->
  exists z, apply s ks c = Ret (put_signatures z c, counted (hs ++ ks) y) /\ signatures_ok (put_signatures z c).
Proof using Hok laws2.
  intros Hc He Hl Hl2 Hs. unfold counted in *. destruct (count_headers signer_of epoch hs genesis_state) as [|s0] eqn:E0; [done|]. cbn in Hs. injection Hs as <-.
  unfold Clique.apply. destruct ks as [|h ks].
  { exists (signatures c). assert (put_signatures (signatures c) c = c) as -> by (by destruct c). rewrite app_nil_r in *. rewrite E0. cbn.
    by rewrite (lineage_hash _ _ _ Hl Hl2). }
  destruct (last (h :: ks)) as [l|] eqn:El; [|by apply last_None in El]. rewrite (lineage_contiguous _ _ _ Hl2). cbn [negb].
  pose proof (lineage_head _ _ _ _ Hl2) as Eh. cbn [stamp sNumber]. rewrite Eh, Z.eqb_refl. cbn [negb]. rewrite bind_gets, He.
  destruct (apply_all_spec epoch (h :: ks)) with (c := c) (s := stamp (len hs) x s0) as (z & Ez & Hz); [|done|].
  { apply lineage_P in Hl2 as [Hp _]. by apply Forall_app in Hp as [_ Hp]. }
  exists z. split; [|done]. rewrite (try_eval _ _ _ _ _ Ez). rewrite count_headers_app, E0, count_headers_stamp.
  destruct (count_headers signer_of epoch (h :: ks) s0) as [e|t]; [done|]. cbn. rewrite (lineage_last _ _ _ _ Hl2 El).
  unfold mret, SM_ret, stamp. cbn. do 3 f_equal. pose proof (lineage_len _ _ Hl2) as Hlen. pose proof (len_nonneg hs). pose proof (len_nonneg (h :: ks)).
  rewrite len_app in *. rewrite u64_id; [done|go_lia].
Qed.

(** ** Caches *)

Definition genuine (x : Hash) (s : Snapshot) : Prop := exists hs, lineage hs x /\ counted hs x = inr s.

Record engine_ok (c : clique) : Prop := {
  ok_epoch : Epoch (config c) = epoch;
  ok_signatures : signatures_ok c;
  ok_recents : forall x s, cached (recents c) !! x = Some s -> genuine x s;
  ok_stored : forall x s, stored (db c) !! x = Some s -> genuine x s
}.

Lemma genuine_hash x s : genuine x s -> sHash s = x.
Proof. intros (hs & _ & Hs). unfold counted in Hs. destruct (count_headers _ _ _ _); [done|]. injection Hs as <-. done. Qed.

Lemma put_signatures_ok c z : engine_ok c -> signatures_ok (put_signatures z c) -> engine_ok (put_signatures z c).
Proof. intros [] H. by split. Qed.
Lemma put_recents_ok c r : engine_ok c -> (forall x s, cached r !! x = Some s -> genuine x s) -> engine_ok (put_recents r c).
Proof. intros [] H. by split. Qed.
Lemma put_db_ok c d : engine_ok c -> (forall x s, stored d !! x = Some s -> genuine x s) -> engine_ok (put_db d c).
Proof. intros [] H. by split. Qed.

(** The only error that does not come from the headers. *)
Definition answer (want : CliqueError + Snapshot) (r : CliqueError + Snapshot) : Prop := r = want \/ r = inl errStore /\ exists d s, snd (store d s) = true.

(** What a query leaves behind: the engine as configured, with its caches in order. *)
Definition kept (c c' : clique) : Prop := engine_ok c' /\ config c' = config c /\ proposals c' = proposals c /\ signer c' = signer c /\ signFn c' = signFn c.

Lemma kept_refl c : engine_ok c -> kept c c.
Proof. done. Qed.
Lemma kept_chain a b c : kept a b -> kept b c -> kept a c.
Proof. intros (_ & ? & ? & ? & ?) (? & ? & ? & ? & ?). repeat split; try apply H3; congruence. Qed.

Lemma insert_genuine {X} (m m' : gmap Hash X) k v (Q : Hash -> X -> Prop) : (forall x s, m !! x = Some s -> Q x s) -> m' ⊆ <[k := v]> m -> Q k v ->
  forall x s, m' !! x = Some s -> Q x s.
Proof.
  intros Hm Hsub Hk x s Hx. eapply lookup_weaken in Hx; [|exact Hsub]. destruct (decide (x = k)) as [->|Hne].
  - rewrite lookup_insert, decide_True in Hx by done. by injection Hx as <-.
  - rewrite lookup_insert_ne in Hx by done. by apply Hm.
Qed.

Lemma store_spec c s : engine_ok c -> genuine (sHash s) s -> kept c (put_db (fst (store (db c) s)) c).
Proof using lawsD.
  intros Hc Hs. split; [|done]. apply put_db_ok; [done|]. eapply insert_genuine; [apply ok_stored, Hc|apply store_held|done].
Qed.

Lemma advance_spec c s hs ks x y : engine_ok c -> lineage hs x -> lineage (hs ++ ks) y -> counted hs x = inr s ->
  exists c' r, advance headerHash Keccak256 Ecrecover s ks c = Ret (c', r) /\ kept c c' /\ answer (counted (hs ++ ks) y) r.
Proof using Hok laws1 laws2 lawsD.
  intros Hc Hl Hl2 Hs. destruct (apply_spec c s hs ks x y) as (z & Ez & Hz); [apply Hc|apply Hc|done|done|done|].
  pose proof (put_signatures_ok c z Hc Hz) as Hcz. unfold advance. rewrite (try_eval _ _ _ _ _ Ez).
  destruct (counted (hs ++ ks) y) as [e|t] eqn:Et; [eexists _, _; split; [done|]; split; [by split|by left]|].
  rewrite bind_gets, bind_modify. set (c1 := put_recents _ _).
  assert (Hgen : genuine (sHash t) t). { assert (genuine y t) as H by (by exists (hs ++ ks)). by rewrite (genuine_hash _ _ H). }
  assert (Hc1 : kept c c1).
  { split; [|done]. apply put_recents_ok; [done|]. eapply insert_genuine; [apply (ok_recents _ Hcz)|apply cache_Add_held|done]. }
  destruct (_ && _); [|eexists _, _; split; [done|]; split; [exact Hc1|by left]].
  rewrite bind_gets. destruct (store (db c1) t) as [d failed] eqn:Ed. rewrite bind_modify. eexists _, _. split; [done|]. split.
  - eapply kept_chain; [exact Hc1|]. pose proof (store_spec c1 t (proj1 Hc1) Hgen) as H. by rewrite Ed in H.
  - destruct failed; [right|by left]. split; [done|]. exists (db c1), t. by rewrite Ed.
Qed.

(** ** The search for a snapshot *)

Context (now : Z) (chain : Chain).
Abbreviation snapshot := (snapshot order headerHash Keccak256 Ecrecover uncleHash).

Record genesis_ok (conf : CliqueConfig) : Prop := {
  genesis_known : GetHeaderByNumber chain 0 = Some g;
  genesis_valid : standalone uncleHash now conf g = None
}.

Lemma genesis_spec snap c : engine_ok c -> lineage [] (hash g) -> genesis_ok (config c) ->
  exists c' r, genesis_snapshot order headerHash Keccak256 Ecrecover uncleHash now chain snap c = Ret (c', r) /\ kept c c' /\
    (r = inr genesis_state \/ r = inl errStore /\ exists d s, snd (store d s) = true).
Proof using lawsD.
  intros Hc Hl [Hg Hv]. unfold genesis_snapshot. rewrite Hg. cbn [deref].
  rewrite (bind_eval _ _ _ _ _ (eq_refl : lift (Ret g) c = Ret (c, g))).
  assert (Ev : verifyHeader order headerHash Keccak256 Ecrecover uncleHash now chain snap g [] c = Ret (c, None)).
  { unfold verifyHeader. rewrite bind_gets, Hv. unfold verifyCascadingFields. apply lineage_P in Hl as (_ & _ & ->). done. }
  rewrite (bind_eval _ _ _ _ _ Ev), bind_gets. fold genesis_state. destruct (store (db c) genesis_state) as [d failed] eqn:Ed. rewrite bind_modify.
  eexists _, _. split; [done|]. split.
  - pose proof (store_spec c genesis_state Hc) as H. rewrite Ed in H. apply H. exists []. by split.
  - destruct failed; [right|by left]. split; [done|]. exists (db c), genesis_state. by rewrite Ed.
Qed.

(** The headers the search needs are among the explicit parents or in the chain. *)
Definition serves (parents hs : list Header) : Prop := exists pre, hs = pre ++ parents /\
  forall i h, pre !! i = Some h -> GetHeader chain (hash h) (Z.of_nat i + 1) = Some h.

Lemma serves_snoc parents hs h : serves parents (hs ++ [h]) ->
  match last parents with
  | Some p => p = h /\ serves (removelast parents) hs
  | None => parents = [] /\ GetHeader chain (hash h) (len hs + 1) = Some h /\ serves [] hs
  end.
Proof.
  intros (pre & E & Hpre). destruct parents as [|p ps _] using rev_ind.
  - rewrite app_nil_r in E. subst pre. cbn. split; [done|]. split; [apply Hpre, list_lookup_middle; done|].
    exists hs. rewrite app_nil_r. split; [done|]. intros i k Hi. apply Hpre. by apply lookup_app_l_Some.
  - rewrite last_snoc, removelast_last. rewrite app_assoc in E. apply app_inj_tail in E as [-> ->]. split; [done|]. by exists pre.
Qed.

Lemma remember_spec c x : engine_ok c -> exists c' r, remember x c = Ret (c', r) /\ kept c c' /\ (forall s, r = Some s -> genuine x s).
Proof using laws1.
  intros Hc. unfold remember. rewrite bind_gets. pose proof (cache_Get_held (recents c) x) as Hh. pose proof (cache_Get_found (recents c) x) as Hf.
  destruct (cache_Get (recents c) x) as [r' res]. rewrite bind_modify. eexists _, _. split; [done|]. split.
  - split; [|done]. apply put_recents_ok; [done|]. intros y s Hy. eapply ok_recents; [exact Hc|]. by eapply lookup_weaken.
  - intros s Hs. eapply ok_recents; [exact Hc|]. by apply Hf.
Qed.

Lemma genuine_counted hs x s : lineage hs x -> genuine x s -> counted hs x = inr s.
Proof using Hok. intros Hl (ks & Hk & Hs). by rewrite <- (lineage_unique _ _ Hl _ Hk). Qed.

(** A snapshot found in the cache or in the database. *)
Lemma found_spec c c1 s hs ks x y : kept c c1 -> lineage hs x -> lineage (hs ++ ks) y -> genuine x s ->
  exists c' r, advance headerHash Keccak256 Ecrecover s ks c1 = Ret (c', r) /\ kept c c' /\ answer (counted (hs ++ ks) y) r.
Proof using Hok laws1 laws2 lawsD.
  intros Hk Hl Hl2 Hs. destruct (advance_spec c1 s hs ks x y (proj1 Hk) Hl Hl2 (genuine_counted _ _ s Hl Hs)) as (c2 & r2 & E2 & Hk2 & Ha).
  exists c2, r2. eauto using kept_chain.
Qed.

Lemma load_spec c (b : bool) x s : engine_ok c -> (if b then loadSnapshot (db c) x else None) = Some s -> genuine x s.
Proof using lawsD. intros Hc. destruct b; [|done]. intros Hld. eapply ok_stored; [exact Hc|]. by apply load_found. Qed.

Lemma snapshot_spec hs : forall c fuel ks x y parents, engine_ok c -> genesis_ok (config c) -> lineage hs x -> lineage (hs ++ ks) y -> serves parents hs ->
  (length hs < fuel)%nat -> exists c' r, snapshot fuel now chain ks (len hs) x parents c = Ret (c', r) /\ kept c c' /\ answer (counted (hs ++ ks) y) r.
Proof using Hok laws1 laws2 lawsD.
  induction hs as [|h hs IH] using rev_ind; intros c fuel ks x y parents Hc Hg Hl Hl2 Hserv Hfuel; (destruct fuel as [|fuel]; [lia|]); cbn [Clique.snapshot];
    destruct (remember_spec c x Hc) as (c1 & r & Er & Hk & Hr); rewrite (bind_eval _ _ _ _ _ Er);
    (destruct r as [s|]; [by eapply found_spec; [exact Hk|exact Hl|exact Hl2|apply Hr]|]); rewrite bind_gets;
    (match goal with |- context [match (if ?b then ?l else None) with Some s => advance _ _ _ s ks | None => _ end] =>
      destruct (if b then l else None) as [s|] eqn:Eld; [eapply found_spec; [exact Hk|exact Hl|exact Hl2|exact (load_spec c1 b x s (proj1 Hk) Eld)]|clear Eld] end).
  - change (len [] =? 0) with true. cbn iota. inversion Hl as [Hpg Hn0 Enil Ex|hs' ? ? ? ? ? E]; [|by destruct hs'].
    assert (Hg1 : genesis_ok (config c1)) by (destruct Hk as (_ & -> & _); done).
    destruct (genesis_spec (snapshot fuel now chain []) c1) as (c2 & r2 & E2 & Hk2 & Hr2); [apply Hk|by constructor|done|].
    rewrite (try_eval _ _ _ _ _ E2). destruct Hr2 as [->|[-> Hst]]; [|eexists _, _; split; [done|]; split; [by eapply kept_chain|by right]].
    destruct (advance_spec c2 genesis_state [] ks (hash g) y) as (c3 & r3 & E3 & Hk3 & Ha); [apply Hk2|by constructor|done|done|].
    exists c3, r3. eauto using kept_chain.
  - assert (E0 : len (hs ++ [h]) =? 0 = false) by (rewrite len_app; change (len [h]) with 1; pose proof (len_nonneg hs); apply Z.eqb_neq; lia). rewrite E0.
    inversion Hl as [? ? E|hs' h' Hl' Hp Hn Hmax E Ex]; [by destruct hs|]. apply app_inj_tail in E as [-> ->]. subst x.
    assert (Hnum : big_Uint64 (Number h) = len (hs ++ [h])) by (rewrite Hn, len_app; change (len [h]) with 1; apply big_Uint64_id; pose proof (len_nonneg hs); go_lia).
    assert (Elen : len (hs ++ [h]) - 1 = len hs) by (rewrite len_app; change (len [h]) with 1; lia).
    assert (Hg1 : genesis_ok (config c1)) by (destruct Hk as (_ & -> & _); done).
    rewrite <- app_assoc in Hl2. rewrite length_app in Hfuel. cbn [length] in Hfuel.
    pose proof (serves_snoc _ _ _ Hserv) as Hsn. destruct (last parents) as [p|] eqn:Elast.
    + destruct Hsn as [-> Hsn]. rewrite Z.eqb_refl, Hnum, Z.eqb_refl, Elen. cbn [negb orb].
      destruct (IH c1 fuel (h :: ks) (ParentHash h) y (removelast parents)) as (c2 & r2 & E2 & Hk2 & Ha); [apply Hk|done|done|done|done|lia|].
      rewrite <- app_assoc. exists c2, r2. eauto using kept_chain.
    + destruct Hsn as (-> & Hget & Hsn). replace (len (hs ++ [h])) with (len hs + 1) by lia. rewrite Hget. replace (len hs + 1 - 1) with (len hs) by lia.
      destruct (IH c1 fuel (h :: ks) (ParentHash h) y []) as (c2 & r2 & E2 & Hk2 & Ha); [apply Hk|done|done|done|done|lia|].
      rewrite <- app_assoc. exists c2, r2. eauto using kept_chain.
Qed.

(** ** Every query of an engine *)

Abbreviation snapshot_at := (snapshot_at order headerHash Keccak256 Ecrecover uncleHash now chain).

Lemma snapshot_at_spec c hs x parents : engine_ok c -> genesis_ok (config c) -> lineage hs x -> serves parents hs ->
  exists c' r, snapshot_at (len hs) x parents c = Ret (c', r) /\ kept c c' /\ answer (counted hs x) r.
Proof using Hok laws1 laws2 lawsD.
  intros Hc Hg Hl Hs. destruct (snapshot_spec hs c (S (Z.to_nat (len hs))) [] x x parents) as (c' & r & E & Hk & Ha); auto;
    [by rewrite app_nil_r|unfold len; lia|]. rewrite app_nil_r in Ha. by exists c', r.
Qed.

Lemma new_engine_ok conf d c1 c2 : cached c1 = ∅ -> cached c2 = ∅ -> stored d = ∅ -> Epoch (config (New conf d c1 c2)) = epoch -> engine_ok (New conf d c1 c2).
Proof. intros E1 E2 E3 He. split; [done|..]; intros ? ?; cbn; rewrite ?E1, ?E2, ?E3; [|done|done]. by rewrite lookup_empty. Qed.

End Engine.

End CliqueApply.
