(* ===== verification/CliqueSeal.v ===== *)
(** Sealing and its verification in [Clique]: the turn of a signer, what [verifySeal]
    accepts compared with what [apply] counts, and that a block prepared and sealed by
    the engine passes [VerifyHeader]. *)

From S2P Require Import Prelude Params Bytes Cache RlpEncode Consensus Clique CliqueVotes CliqueApply.
Import Clique CliqueVotes CliqueApply.

Module CliqueSeal.

(** ** The signers in ascending order *)

Lemma sort_pass_spec l : forall x m r, sort_pass x l = (m, r) -> m :: r ≡ₚ x :: l /\ m <= x /\ Forall (Z.le m) r /\ length r = length l.
Proof.
  induction l as [|y l IH]; intros x m r H; cbn in H; [by simplify_eq|].
  destruct (y <? x) eqn:E; bool_to_prop.
  - destruct (sort_pass y l) as [m' r'] eqn:Ep. simplify_eq. destruct (IH y m r' Ep) as (Hp & Hle & Hf & Hlen).
    split; [|split; [lia|split; [|cbn; lia]]]; [|constructor; [lia|done]]. rewrite (Permutation_swap x m r'), Hp. done.
  - destruct (sort_pass x l) as [m' r'] eqn:Ep. simplify_eq. destruct (IH x m r' Ep) as (Hp & Hle & Hf & Hlen).
    split; [|split; [lia|split; [|cbn; lia]]]; [|constructor; [lia|done]]. rewrite (Permutation_swap y m r'), Hp. apply Permutation_swap.
Qed.

Lemma sort_from_spec n : forall l, (length l <= n)%nat -> sort_from n l ≡ₚ l /\ StronglySorted Z.le (sort_from n l).
Proof.
  induction n as [|n IH]; intros [|x l] Hl; cbn in *; try lia; try (split; [done|constructor]).
  destruct (sort_pass x l) as [m r] eqn:E. destruct (sort_pass_spec l x m r E) as (Hp & _ & Hf & Hlen).
  destruct (IH r) as [Hp' Hs]; [lia|]. split; [by rewrite Hp', <- Hp|]. constructor; [done|]. by rewrite Hp'.
Qed.

(** The position of a signer: how many signers come before it. *)
Definition rank (sg : gset Address) (a : Address) : Z := Z.of_nat (size (filter (fun b => b < a) sg)).

Lemma offset_sorted a l : StronglySorted Z.le l -> NoDup l -> a ∈ l -> offset_of a l = len (filter (fun b => b < a) l).
Proof.
  induction 1 as [|x l Hs IH Hx]; intros Hnd Ha; [by apply not_elem_of_nil in Ha|]. apply NoDup_cons in Hnd as [Hni Hnd]. cbn [offset_of].
  rewrite Forall_forall in Hx. case_bool_decide as E; [subst x|].
  - rewrite filter_cons, decide_False by lia. rewrite filter_none; [done|]. apply Forall_forall. intros b Hb. specialize (Hx b Hb). lia.
  - apply elem_of_cons in Ha as [->|Ha]; [done|]. specialize (Hx a Ha). rewrite filter_cons, decide_True by lia. rewrite len_cons, IH by done. lia.
Qed.

Section Turn.
Context (order : list Address -> list Address) (Horder : forall l, order l ≡ₚ l).

Lemma signers_spec s : signers order s ≡ₚ elements (Signers s) /\ StronglySorted Z.le (signers order s) /\ NoDup (signers order s).
Proof using Horder.
  unfold signers. destruct (sort_from_spec (length (order (elements (Signers s)))) (order (elements (Signers s)))) as [Hp Hs]; [done|].
  split; [by rewrite Hp, Horder|]. split; [done|]. rewrite Hp, Horder. apply NoDup_elements.
Qed.

Lemma signers_len s : len (signers order s) = Z.of_nat (size (Signers s)).
Proof using Horder. unfold len. by rewrite (Permutation_length (proj1 (signers_spec s))). Qed.

(** It is the turn of the signer whose position is the block number modulo the number of
    signers. *)
Lemma inturn_spec s n a : a ∈ Signers s -> inturn order s n a = Ret (n mod Z.of_nat (size (Signers s)) =? rank (Signers s) a).
Proof using Horder.
  intros Ha. destruct (signers_spec s) as (Hp & Hs & Hnd). unfold inturn. rewrite bool_decide_eq_false_2.
  2: { intros E. rewrite E in Hp. apply elem_of_elements in Ha. rewrite <- Hp in Ha. by apply not_elem_of_nil in Ha. }
  rewrite signers_len. do 2 f_equal. rewrite offset_sorted; [|done|done|by rewrite Hp; apply elem_of_elements].
  unfold rank, len. f_equal. rewrite Hp. change (size (filter (fun b => b < a) (Signers s))) with (length (elements (filter (fun b => b < a) (Signers s)))).
  apply Permutation_length, NoDup_Permutation; [by apply NoDup_filter, NoDup_elements|apply NoDup_elements|].
  intros b. rewrite list_elem_of_filter, !elem_of_elements, elem_of_filter. done.
Qed.

End Turn.

(** ** The check of recent signers *)

Lemma signed_recently_iff s number a : signed_recently s number a = true <-> exists k, Recents s !! k = Some a /\ u64 (number - limit s) < k.
Proof.
  unfold signed_recently. rewrite existsb_exists. split.
  - intros ([k x] & Hin & Hx). bool_to_prop. subst x. exists k. split; [|done]. by apply elem_of_map_to_list, list_elem_of_In.
  - intros (k & Hk & Hlt). exists (k, a). split; [by apply list_elem_of_In, elem_of_map_to_list|].
    rewrite bool_decide_eq_true_2 by done. by apply Z.ltb_lt.
Qed.

(** The subtraction wraps around while the block number is below the limit; then the
    check finds nothing. *)
Lemma recent_check epoch bs s a : history_ok epoch bs s -> len bs + 1 <= MaxUint64 -> Z.of_nat (size (Signers s)) < 2 ^ 63 ->
  signed_recently s (len bs + 1) a = true <->
  limit s <= len bs + 1 /\ exists i b, bs !! i = Some b /\ len bs + 1 - limit s < Z.of_nat i + 1 /\ fst b = a.
Proof.
  intros [_ _ (w & Hw & Hwin)] Hn Hsz. rewrite signed_recently_iff. pose proof (limit_pos s). pose proof (len_nonneg bs).
  assert (Hlim : limit s <= 2 ^ 63) by (unfold limit; Z.to_euclidean_division_equations; lia). unfold MaxUint64 in Hn.
  destruct (decide (limit s <= len bs + 1)) as [Hle|Hgt].
  - rewrite u64_id by go_lia. split.
    + intros (k & Hk & Hlt). split; [done|]. apply Hwin in Hk as (Hk & _ & Hl). destruct (bs !! Z.to_nat (k - 1)) as [b|] eqn:El; [|done]. injection Hl as <-.
      exists (Z.to_nat (k - 1)), b. split; [done|]. split; [lia|done].
    + intros (_ & i & b & Hl & Hi & <-). exists (Z.of_nat i + 1). split; [|lia]. apply Hwin. pose proof (lookup_lt_Some _ _ _ Hl). unfold len in *.
      split; [lia|]. split; [lia|]. replace (Z.to_nat _) with i by lia. by rewrite Hl.
  - assert (Hu : u64 (len bs + 1 - limit s) = 2 ^ 64 + (len bs + 1 - limit s)) by (unfold u64; symmetry; apply Z.mod_unique with (-1); lia).
    rewrite Hu. split; [|lia]. intros (k & Hk & Hlt). apply Hwin in Hk as (Hk & _). lia.
Qed.

Section Engine.
Context {C1 C2 DB : Type} {ops1 : CacheOps C1 Snapshot} {ops2 : CacheOps C2 Address} {opsD : StoreOps DB}.
Context {laws1 : CacheLaws ops1} {laws2 : CacheLaws ops2} {lawsD : StoreLaws opsD}.
Context (order : list Address -> list Address) (Horder : forall l, order l ≡ₚ l).
Context (headerHash : Header -> Hash) (Keccak256 : bytes -> Hash) (Ecrecover : bytes -> bytes -> option bytes) (uncleHash : Hash).
Context (P : Header -> Prop) (Hok : headers_ok headerHash Keccak256 Ecrecover P).
Context (g : Header) (epoch : Z) (Hepoch : 0 < epoch).

Abbreviation clique := (Clique C1 C2 DB).
Abbreviation signer_of := (signer_of Keccak256 Ecrecover).
Abbreviation lineage := (lineage headerHash P g).
Abbreviation counted := (counted headerHash Keccak256 Ecrecover g epoch).
Abbreviation engine_ok := (engine_ok headerHash Keccak256 Ecrecover P g epoch).
Abbreviation snapshot_at := (snapshot_at order headerHash Keccak256 Ecrecover uncleHash).

(** The signer of the block after [hs] did not sign one of the last blocks. *)
Definition spread (hs : list Header) (s : Snapshot) (a : Address) : Prop :=
  forall i k, hs !! i = Some k -> len hs + 1 - limit s < Z.of_nat i + 1 -> signer_of k <> inr a.

(** The counted snapshot has a history. *)
Lemma counted_history hs x s : lineage hs x -> counted hs x = inr s -> exists bs, ballots signer_of hs bs /\ history_ok epoch bs s /\ sNumber s = len hs.
Proof using Hepoch.
  intros Hl Hs. unfold CliqueApply.counted in Hs. destruct (count_headers signer_of epoch hs _) as [|s0] eqn:E; [done|]. cbn in Hs. injection Hs as <-.
  destruct (count_history _ _ _ _ _ _ (fun i h Hi => proj1 (lineage_number headerHash P g hs x Hl i h Hi)) E) as (bs & Hb & Hh).
  exists bs. split; [done|]. apply history_inv in Hh; [|done]. split; [|done]. destruct Hh as [[] Hc Hr]. by split.
Qed.

Lemma ballots_lookup hs bs i k : ballots signer_of hs bs -> hs !! i = Some k -> exists b, bs !! i = Some b /\ snd b = k /\ signer_of k = inr (fst b).
Proof. intros Hb Hk. destruct (Forall2_lookup_l _ _ _ _ _ Hb Hk) as (b & Hl & H). exists b. tauto. Qed.
Lemma ballots_lookup_r hs bs i b : ballots signer_of hs bs -> bs !! i = Some b -> hs !! i = Some (snd b) /\ signer_of (snd b) = inr (fst b).
Proof. intros Hb Hk. destruct (Forall2_lookup_r _ _ _ _ _ Hb Hk) as (h & Hl & <- & H). done. Qed.

Lemma ballots_len hs bs : ballots signer_of hs bs -> len bs = len hs.
Proof. intros Hb. unfold len. by rewrite (Forall2_length _ _ _ Hb). Qed.

Lemma spread_ballots hs bs s a : ballots signer_of hs bs ->
  spread hs s a <-> (forall i b, bs !! i = Some b -> len bs + 1 - limit s < Z.of_nat i + 1 -> fst b <> a).
Proof.
  intros Hb. unfold spread. rewrite (ballots_len _ _ Hb). split.
  - intros H i b Hl Hi <-. destruct (ballots_lookup_r _ _ _ _ Hb Hl) as [Hk Hs]. by eapply H.
  - intros H i k Hk Hi Hs. destruct (ballots_lookup _ _ _ _ Hb Hk) as (b & Hl & _ & Hs'). eapply H; [exact Hl|done|]. congruence.
Qed.

(** What [apply] accepts on top of a counted snapshot. *)
Lemma apply_verdict (c : clique) hs x s h a : signatures_ok headerHash Keccak256 Ecrecover P c -> Epoch (config c) = epoch -> lineage hs x -> counted hs x = inr s ->
  lineage (hs ++ [h]) (headerHash h) -> signer_of h = inr a ->
  exists c' r, apply headerHash Keccak256 Ecrecover s [h] c = Ret (c', r) /\
    ((exists t, r = inr t) <-> a ∈ Signers s /\ spread hs s a /\ (exists auth, Nonce h = vote_nonce auth)).
Proof using Hok Hepoch laws2.
  intros Hc He Hl Hs Hl2 Ha. destruct (counted_history hs x s Hl Hs) as (bs & Hb & Hh & _).
  destruct (apply_spec headerHash Keccak256 Ecrecover P Hok g epoch c s hs [h] x (headerHash h) Hc He Hl Hl2 Hs) as (z & Ez & _).
  eexists _, _. split; [exact Ez|]. unfold CliqueApply.counted in *. rewrite count_headers_app.
  destruct (count_headers signer_of epoch hs _) as [|s0] eqn:E0; [done|]. cbn in Hs. injection Hs as <-. cbn [count_headers]. rewrite Ha.
  assert (Hn : number_of (a, h) = len bs + 1).
  { rewrite (ballots_len _ _ Hb). unfold number_of. cbn. apply (lineage_number headerHash P g _ _ Hl2 (length hs)). by apply list_lookup_middle. }
  rewrite (spread_ballots _ _ _ a Hb). pose proof (block_verdict epoch Hepoch bs _ (a, h) Hh Hn) as Hv. rewrite vote_step_stamp in Hv.
  transitivity (exists t, vote_step epoch (a, h) s0 = inr t).
  { destruct (vote_step epoch (a, h) s0); cbn; naive_solver. }
  transitivity (exists t, map_inr (stamp (len hs) x) (vote_step epoch (a, h) s0) = inr t).
  { destruct (vote_step epoch (a, h) s0); cbn; naive_solver. }
  rewrite <- Hv. split; [intros []; auto|]. intros (? & ? & ?). by split.
Qed.

(** One more header. *)
Lemma counted_step hs x s h t : lineage hs x -> counted hs x = inr s -> lineage (hs ++ [h]) (headerHash h) -> counted (hs ++ [h]) (headerHash h) = inr t ->
  exists bs a, ballots signer_of (hs ++ [h]) (bs ++ [(a, h)]) /\ history_ok epoch (bs ++ [(a, h)]) t /\
    (Signers t = Signers s \/ Signers t = flip (Coinbase h) (Signers s) /\ exists V, supporters epoch (bs ++ [(a, h)]) (Signers s) (Coinbase h) V).
Proof using Hepoch.
  intros Hl Hs Hl2 Ht. destruct (counted_history hs x s Hl Hs) as (bs & Hb & Hh & _).
  unfold CliqueApply.counted in *. rewrite count_headers_app in Ht. destruct (count_headers signer_of epoch hs _) as [|s0] eqn:E0; [done|]. cbn in Hs. injection Hs as <-.
  cbn [count_headers] in Ht. destruct (signer_of h) as [|a] eqn:Ea; [done|]. destruct (vote_step epoch (a, h) s0) as [|s1] eqn:E1; [done|]. cbn in Ht. injection Ht as <-.
  assert (Hn : number_of (a, h) = len bs + 1).
  { rewrite (ballots_len _ _ Hb). unfold number_of. cbn. apply (lineage_number headerHash P g _ _ Hl2 (length hs)). by apply list_lookup_middle. }
  destruct (block_step epoch Hepoch bs (stamp (len hs) x s0) (a, h) (stamp (len hs) x s1) Hh Hn) as [Hh' Hch]; [by rewrite vote_step_stamp, E1|].
  exists bs, a. split; [apply Forall2_app; [done|]; by constructor|]. split; [by destruct Hh' as [[] ? ?]|done].
Qed.

Context (now : Z) (chain : Chain) (Hstore : forall (d : DB) s, snd (store d s) = false).
Abbreviation genesis_ok := (genesis_ok uncleHash g now chain).

Lemma snapshot_exact (c : clique) hs x parents : engine_ok c -> genesis_ok (config c) -> lineage hs x -> serves headerHash chain parents hs ->
  exists c', snapshot_at now chain (len hs) x parents c = Ret (c', counted hs x) /\ kept headerHash Keccak256 Ecrecover P g epoch c c'.
Proof using Hok Hstore laws1 laws2 lawsD.
  intros Hc Hg Hl Hs. destruct (snapshot_at_spec order headerHash Keccak256 Ecrecover uncleHash P Hok g epoch now chain c hs x parents Hc Hg Hl Hs) as (c' & r & E & Hk & [->|[_ (d & s & Hf)]]).
  - by exists c'.
  - by rewrite Hstore in Hf.
Qed.

(** The difficulty that goes with the turn. *)
Definition turn_difficulty (s : Snapshot) (number : Z) (a : Address) : Z :=
  if number mod Z.of_nat (size (Signers s)) =? rank (Signers s) a then diffInTurn else diffNoTurn.

(** What [verifySeal] accepts on top of a counted snapshot. *)
Lemma verifySeal_spec (c : clique) hs x s h a parents : engine_ok c -> genesis_ok (config c) -> lineage hs x -> serves headerHash chain parents hs ->
  counted hs x = inr s -> Z.of_nat (size (Signers s)) < 2 ^ 63 -> ParentHash h = x -> lineage (hs ++ [h]) (headerHash h) -> signer_of h = inr a ->
  exists c' v, verifySeal order headerHash Keccak256 Ecrecover (snapshot_at now chain) h parents c = Ret (c', v) /\
    kept headerHash Keccak256 Ecrecover P g epoch c c' /\
    (v = None <-> a ∈ Signers s /\ (limit s <= len hs + 1 -> spread hs s a) /\ Difficulty h = turn_difficulty s (len hs + 1) a).
Proof using Hok Hstore Horder Hepoch laws1 laws2 lawsD.
  intros Hc Hg Hl Hserv Hs Hsz Hx Hl2 Ha. pose proof (lineage_len headerHash P g _ _ Hl2) as Hlen. rewrite len_app in Hlen. change (len [h]) with 1 in Hlen.
  assert (Hn : big_Uint64 (Number h) = len hs + 1).
  { apply (lineage_number headerHash P g _ _ Hl2 (length hs)). by apply list_lookup_middle. }
  destruct (snapshot_exact c hs x parents Hc Hg Hl Hserv) as (c1 & E1 & Hk1). unfold verifySeal. rewrite Hn. pose proof (len_nonneg hs).
  destruct (_ =? 0) eqn:E0; bool_to_prop; [lia|]. rewrite Hx, Z.add_simpl_r. rewrite (bind_eval _ _ _ _ _ E1), Hs.
  assert (Hp : P h) by (apply lineage_P in Hl2 as [Hp _]; apply Forall_app in Hp as [_ Hp]; by apply Forall_cons in Hp as [Hp _]).
  destruct (ecrecover_spec headerHash Keccak256 Ecrecover P Hok c1 h) as (z & Ez & Hz); [apply Hk1|done|]. rewrite (bind_eval _ _ _ _ _ Ez), Ha.
  set (c2 := put_signatures z c1) in *.
  assert (Hk2 : kept headerHash Keccak256 Ecrecover P g epoch c c2).
  { eapply kept_chain; [exact Hk1|]. split; [|done]. apply put_signatures_ok; [apply Hk1|done]. }
  destruct (counted_history hs x s Hl Hs) as (bs & Hb & Hh & _).
  case_bool_decide as Hin; cbn [negb]; [|exists c2, (Some errUnauthorized); split; [done|]; split; [done|]; split; [done|tauto]].
  pose proof (recent_check epoch bs s a Hh) as Hrc. rewrite (ballots_len _ _ Hb) in Hrc. specialize (Hrc Hlen Hsz).
  pose proof (spread_ballots _ _ s a Hb) as Hsp. rewrite (ballots_len _ _ Hb) in Hsp.
  destruct (signed_recently s (len hs + 1) a) eqn:Esr.
  - destruct (proj1 Hrc eq_refl) as (Hle & i & b & Hi & Hlt & Hab). exists c2, (Some errUnauthorized). split; [done|]. split; [done|].
    split; [done|]. intros (_ & Hspr & _). by destruct (proj1 Hsp (Hspr Hle) i b Hi Hlt).
  - assert (Hspr : limit s <= len hs + 1 -> spread hs s a).
    { intros Hle. apply Hsp. intros i b Hi Hlt Hab. assert (false = true); [|done]. apply Hrc. split; [done|]. by exists i, b. }
    rewrite (inturn_spec order Horder s _ a Hin). unfold turn_difficulty.
    destruct (_ =? rank _ _); rewrite (bind_eval _ _ _ _ _ (eq_refl : lift (Ret _) c2 = Ret (c2, _))); cbn [andb negb];
      (destruct (_ =? _) eqn:Ed; bool_to_prop; cbn [negb]; eexists c2, _; (split; [done|]); (split; [done|]); (split; [try done; auto|tauto || done])).
Qed.

End Engine.

(** ** Blocks of the engine's own *)

(** A signing function makes signatures from which its address is recovered. *)
Definition signs_as (Keccak256 : bytes -> Hash) (Ecrecover : bytes -> bytes -> option bytes) (f : SignerFn) (a : Address) : Prop :=
  forall msg sig, f a msg = Some sig -> length sig = 65%nat /\ exists pk, Ecrecover msg sig = Some pk /\ pubkey_address Keccak256 pk = Ret a.

(** The header with the signature in the last 65 bytes of its extra data. *)
Definition sealed_extra (extra sig : bytes) : bytes := take (length extra - 65) extra ++ take 65 sig ++ drop (length extra - 65 + length sig) extra.

Lemma sealed_extra_spec extra sig : (65 <= length extra)%nat -> length sig = 65%nat ->
  sealed_extra extra sig = take (length extra - 65) extra ++ sig /\ length (sealed_extra extra sig) = length extra.
Proof.
  intros Hl Hs. unfold sealed_extra. rewrite (take_ge sig) by lia. rewrite drop_ge by lia. rewrite app_nil_r. split; [done|].
  rewrite length_app, length_take. lia.
Qed.

Lemma signer_of_sealed Keccak256 Ecrecover h sh sig f a : (65 <= length (Extra h))%nat -> signs_as Keccak256 Ecrecover f a ->
  sigHash Keccak256 h = Ret sh -> f a (hash_bytes sh) = Some sig ->
  signer_of Keccak256 Ecrecover (set_seal (Difficulty h) (sealed_extra (Extra h) sig) (MixDigest h) h) = inr a.
Proof.
  intros Hl Hf Hsh Hsig. destruct (Hf _ _ Hsig) as (Hlen & pk & Hrec & Hpk). destruct (sealed_extra_spec (Extra h) sig Hl Hlen) as [E1 E2].
  unfold signer_of, recover. cbn [Extra set_seal]. unfold len. rewrite E2. destruct (_ <? extraSeal) eqn:Elt; [unfold extraSeal in *; go_lia|].
  assert (Es : sigHash Keccak256 (set_seal (Difficulty h) (sealed_extra (Extra h) sig) (MixDigest h) h) = Ret sh).
  { rewrite <- Hsh. unfold sigHash. cbn [Extra set_seal]. unfold len. rewrite E2, Elt. rewrite E1.
    rewrite take_app_le by (rewrite length_take; lia). rewrite take_take, Nat.min_id. done. }
  rewrite Es. cbn [mbind outcome_bind]. rewrite E1, drop_app_ge by (rewrite length_take; lia). rewrite length_take, Nat.min_l, Nat.sub_diag, drop_0 by lia.
  by rewrite Hrec, Hpk.
Qed.

Lemma address_bytes_len (l : list Address) : length (l ≫= address_bytes) = (20 * length l)%nat.
Proof. induction l as [|a l IH]; [done|]. cbn [mbind list_bind]. rewrite length_app, IH. unfold address_bytes. rewrite length_be_bytes. cbn. lia. Qed.

Lemma prepared_extra_spec order conf number s extra :
  exists vanity, length vanity = 32%nat /\
  prepared_extra order conf number s extra = vanity ++ (if number mod Epoch conf =? 0 then signer_bytes order s else []) ++ replicate 65 0.
Proof. eexists. split; [|reflexivity]. rewrite length_take, length_app, length_replicate. lia. Qed.

(** Cutting the signers out of the sealed extra data. *)
Lemma sealed_signers (vanity sgs zeros sig : bytes) : length vanity = 32%nat -> length zeros = 65%nat -> length sig = 65%nat ->
  let extra := sealed_extra (vanity ++ sgs ++ zeros) sig in
  take (length extra - 65 - 32) (drop 32 extra) = sgs /\ length extra = (97 + length sgs)%nat.
Proof.
  intros Hv Hz Hs extra. destruct (sealed_extra_spec (vanity ++ sgs ++ zeros) sig) as [E1 E2]; [rewrite !length_app; lia|done|].
  fold extra in E1, E2. rewrite E2, !length_app, Hv, Hz. split; [|lia]. rewrite E1, !length_app, Hv, Hz.
  replace (32 + (length sgs + 65) - 65)%nat with (length (vanity ++ sgs)) by (rewrite length_app; lia). rewrite (app_assoc vanity sgs zeros), take_app_length.
  rewrite <- app_assoc, drop_app_ge by lia. rewrite Hv, Nat.sub_diag, drop_0. rewrite length_app, Hv.
  replace (32 + length sgs - 32)%nat with (length sgs) by lia. apply take_app_length.
Qed.

Section Own.
Context {C1 C2 DB : Type} {ops1 : CacheOps C1 Snapshot} {ops2 : CacheOps C2 Address} {opsD : StoreOps DB}.
Context {laws1 : CacheLaws ops1} {laws2 : CacheLaws ops2} {lawsD : StoreLaws opsD}.
Context (order : list Address -> list Address) (Horder : forall l, order l ≡ₚ l).
Context (headerHash : Header -> Hash) (Keccak256 : bytes -> Hash) (Ecrecover : bytes -> bytes -> option bytes) (uncleHash : Hash).
Context (P : Header -> Prop) (Hok : headers_ok headerHash Keccak256 Ecrecover P).
Context (g : Header) (epoch : Z) (Hepoch : 0 < epoch) (chain : Chain) (Hstore : forall (d : DB) s, snd (store d s) = false).

Abbreviation clique := (Clique C1 C2 DB).
Abbreviation kept := (kept headerHash Keccak256 Ecrecover P g epoch).

(** The block to extend, with its votes counted. *)
Record parent_ok (hs : list Header) (x : Hash) (parent : Header) (s : Snapshot) (conf : CliqueConfig) : Prop := {
  pa_lineage : lineage headerHash P g hs x;
  pa_serves : serves headerHash chain [] hs;
  pa_counted : counted headerHash Keccak256 Ecrecover g epoch hs x = inr s;
  pa_size : Z.of_nat (size (Signers s)) < 2 ^ 63;
  pa_known : GetHeader chain x (len hs) = Some parent;
  pa_hash : headerHash parent = x;
  pa_number : Number parent = len hs;
  pa_time : 0 <= Time parent /\ 0 <= Period conf /\ Time parent + Period conf < 2 ^ 63
}.

(** What [Prepare] makes of a header. *)
Record prepared (conf : CliqueConfig) (hs : list Header) (s : Snapshot) (parent : Header) (a : Address) (h0 h : Header) : Prop := {
  pr_parent : ParentHash h = ParentHash h0;
  pr_number : Number h = Number h0;
  pr_uncle : UncleHash h = UncleHash h0;
  pr_mix : MixDigest h = 0;
  pr_nonce : exists auth, Nonce h = vote_nonce auth;
  pr_checkpoint : (len hs + 1) mod Epoch conf = 0 -> Coinbase h = 0 /\ Nonce h = nonceDropVote;
  pr_extra : exists vanity, length vanity = 32%nat /\ Extra h = vanity ++ (if (len hs + 1) mod Epoch conf =? 0 then signer_bytes order s else []) ++ replicate 65 0;
  pr_difficulty : Difficulty h = turn_difficulty s (len hs + 1) a;
  pr_time : Time parent + Period conf <= Time h
}.

Lemma choose_vote_spec s p pick h : (exists auth, Nonce h = vote_nonce auth) ->
  let h' := choose_vote order s p pick h in
  (exists auth, Nonce h' = vote_nonce auth) /\ h' = set_vote (Coinbase h') (Nonce h') h.
Proof.
  intros Hn. unfold choose_vote. destruct (_ !! _) as [a|]; [|split; [done|by destruct h]].
  split; [|done]. cbn. by exists (default false (p !! a)).
Qed.

Lemma Prepare_spec (c : clique) now now' pick h0 hs x parent s : engine_ok headerHash Keccak256 Ecrecover P g epoch c ->
  genesis_ok uncleHash g now chain (config c) -> parent_ok hs x parent s (config c) -> now <= now' ->
  ParentHash h0 = x -> Number h0 = len hs + 1 -> len hs + 1 <= MaxUint64 -> signer c ∈ Signers s ->
  exists c1 h1, Prepare order headerHash Keccak256 Ecrecover uncleHash now chain now' pick h0 c = Ret (c1, (h1, None)) /\ kept c c1 /\
    prepared (config c) hs s parent (signer c) h0 h1.
Proof using Hok Hepoch Horder Hstore laws1 laws2 lawsD.
  intros Hc Hg [Hl Hserv Hs Hsz Hget Hph Hpn Hpt] Hnow Hx Hn Hmax Hin. pose proof (len_nonneg hs) as Hlen0.
  destruct (snapshot_exact order headerHash Keccak256 Ecrecover uncleHash P Hok g epoch now chain Hstore c hs x [] Hc Hg Hl Hserv) as (c1 & E1 & Hk1).
  destruct (counted_history headerHash Keccak256 Ecrecover P g epoch Hepoch hs x s Hl Hs) as (bs & _ & _ & Hsn).
  assert (Hbn : big_Uint64 (len hs + 1) = len hs + 1) by (apply big_Uint64_id; go_lia).
  unfold Prepare. cbn [Number set_vote ParentHash]. rewrite Hx, Hn, Hbn, Z.add_simpl_r. rewrite (u64_id (len hs)) by go_lia.
  rewrite (bind_eval _ _ _ _ _ E1), Hs, bind_gets. destruct Hk1 as (Hc1 & Econf & Eprop & Esig & Efn). unfold id. rewrite Esig, Econf.
  assert (Ecd : CalcDifficulty order s (signer c) = Ret (turn_difficulty s (len hs + 1) (signer c))).
  { unfold CalcDifficulty. rewrite Hsn, u64_id by go_lia. rewrite (inturn_spec order Horder s _ _ Hin). done. }
  rewrite Ecd. rewrite (bind_eval _ _ _ _ _ (eq_refl : lift (Ret _) c1 = Ret (c1, _))).
  set (h1 := if negb _ then _ else _).
  assert (H1 : (exists auth, Nonce h1 = vote_nonce auth) /\ h1 = set_vote (Coinbase h1) (Nonce h1) h0 /\ ((len hs + 1) mod Epoch (config c) = 0 -> Coinbase h1 = 0 /\ Nonce h1 = nonceDropVote)).
  { unfold h1. destruct (_ =? 0) eqn:Ez; cbn [negb]; bool_to_prop.
    - split; [by exists false|]. by split.
    - destruct (choose_vote_spec s (proposals c1) pick (set_vote 0 0 h0)) as [Ha Hb]; [by exists false|]. split; [done|]. split; [exact Hb|]. intros; lia. }
  clearbody h1. destruct H1 as (Hno & Hset & Hck). rewrite Hset. cbn [ParentHash set_seal set_vote]. rewrite Hx, Hget.
  eexists c1, _. split; [reflexivity|]. split; [by repeat split; try apply Hc1|].
  split; cbn [ParentHash Number UncleHash MixDigest Nonce Coinbase Extra Difficulty Time set_seal set_vote set_time]; try done.
  - apply prepared_extra_spec.
  - destruct Hpt as (? & ? & ?). rewrite i64_id by lia. destruct (_ <? _) eqn:Et; bool_to_prop; lia.
Qed.

Lemma Seal_inv (c c2 : clique) now txs h h3 hs x parent s conf : engine_ok headerHash Keccak256 Ecrecover P g epoch c ->
  genesis_ok uncleHash g now chain (config c) -> parent_ok hs x parent s conf -> ParentHash h = x -> Number h = len hs + 1 -> len hs + 1 <= MaxUint64 ->
  Seal order headerHash Keccak256 Ecrecover uncleHash now chain txs false h c = Ret (c2, inr (Some h3)) ->
  kept c c2 /\ signer c ∈ Signers s /\ (limit s <= len hs + 1 -> spread Keccak256 Ecrecover hs s (signer c)) /\
  exists f sh sig, signFn c = Some f /\ sigHash Keccak256 h = Ret sh /\ f (signer c) (hash_bytes sh) = Some sig /\
    h3 = set_seal (Difficulty h) (sealed_extra (Extra h) sig) (MixDigest h) h.
Proof using Hok Hepoch Hstore laws1 laws2 lawsD.
  intros Hc Hg [Hl Hserv Hs Hsz Hget Hph Hpn Hpt] Hx Hn Hmax. pose proof (len_nonneg hs) as Hlen0.
  destruct (snapshot_exact order headerHash Keccak256 Ecrecover uncleHash P Hok g epoch now chain Hstore c hs x [] Hc Hg Hl Hserv) as (c1 & E1 & Hk1).
  destruct (counted_history headerHash Keccak256 Ecrecover P g epoch Hepoch hs x s Hl Hs) as (bs & Hb & Hh & _).
  assert (Hbn : big_Uint64 (len hs + 1) = len hs + 1) by (apply big_Uint64_id; go_lia).
  unfold Seal. rewrite Hn, Hbn, Hx. destruct (_ =? 0) eqn:E0; bool_to_prop; [lia|]. rewrite bind_gets. unfold id. destruct (_ && _); [done|].
  rewrite Z.add_simpl_r, (try_eval _ _ _ _ _ E1), Hs. case_bool_decide as Hin; cbn [negb]; [|done].
  destruct (existsb _ _) eqn:Ex; [done|]. destruct (sigHash Keccak256 h) as [sh|] eqn:Esh; [|done].
  rewrite (bind_eval _ _ _ _ _ (eq_refl : lift (Ret sh) c1 = Ret (c1, sh))). destruct (signFn c) as [f|] eqn:Ef; [|done]. cbn [deref].
  rewrite (bind_eval _ _ _ _ _ (eq_refl : lift (Ret f) c1 = Ret (c1, f))). destruct (f (signer c) (hash_bytes sh)) as [sig|] eqn:Esig; [|done].
  intros [= <- <-]. split; [done|]. split; [done|]. split; [|exists f, sh, sig; done].
  intros Hle. apply (spread_ballots Keccak256 Ecrecover hs bs s _ Hb). rewrite <- (ballots_len _ _ _ _ Hb) in Hle. intros i b Hi Hlt Hab.
  assert (Hmax' : len bs + 1 <= MaxUint64) by (by rewrite (ballots_len _ _ _ _ Hb)).
  assert (Hrec : signed_recently s (len bs + 1) (signer c) = true). { apply (recent_check epoch bs s (signer c) Hh Hmax' Hsz). split; [done|]. by exists i, b. }
  apply signed_recently_iff in Hrec as (k & Hk & Hlt'). rewrite (ballots_len _ _ _ _ Hb) in Hlt'.
  apply not_true_iff_false in Ex. apply Ex. apply existsb_exists. exists (k, signer c). split; [by apply list_elem_of_In, elem_of_map_to_list|].
  rewrite bool_decide_eq_true_2 by done. cbn [andb]. apply orb_true_iff. right. by apply Z.ltb_lt.
Qed.

(** The checks that need the header only. *)
Lemma sealed_standalone conf now hs s parent a h0 h sig h3 : prepared conf hs s parent a h0 h -> UncleHash h0 = uncleHash -> Number h0 = len hs + 1 ->
  len hs + 1 <= MaxUint64 -> length sig = 65%nat -> h3 = set_seal (Difficulty h) (sealed_extra (Extra h) sig) (MixDigest h) h -> Time h <= now ->
  standalone uncleHash now conf h3 = None.
Proof.
  intros [Hpp Hpn Hpu Hpm [auth Hno] Hck (vanity & Hv & He) Hd Ht] Hu Hn Hmax Hsig -> Hnow. pose proof (len_nonneg hs).
  assert (Hbn : big_Uint64 (len hs + 1) = len hs + 1) by (apply big_Uint64_id; go_lia). unfold standalone. cbn [Number Time Coinbase Nonce Extra MixDigest UncleHash Difficulty set_seal].
  rewrite Hpn, Hn, Hbn, Hpm, Hpu, Hu, !Z.eqb_refl. cbn [negb].
  destruct (sealed_signers vanity (if (len hs + 1) mod Epoch conf =? 0 then signer_bytes order s else []) (replicate 65 0) sig Hv (length_replicate _ _) Hsig) as [_ Hlen].
  cbn zeta in Hlen. rewrite <- He in Hlen. apply (f_equal Z.of_nat) in Hlen. fold (len (sealed_extra (Extra h) sig)) in Hlen. rewrite Hlen. unfold extraVanity, extraSeal.
  destruct (now <? Time h) eqn:E1; [go_lia|].
  assert (Hnv : negb (Nonce h =? nonceAuthVote) && negb (Nonce h =? nonceDropVote) = false) by (rewrite Hno; by destruct auth). rewrite Hnv.
  assert (Hdd : (0 <? len hs + 1) && (negb (Difficulty h =? diffInTurn) && negb (Difficulty h =? diffNoTurn)) = false).
  { rewrite Hd. unfold turn_difficulty. destruct (_ =? rank _ _); cbn; apply andb_false_r. }
  rewrite Hdd. destruct ((len hs + 1) mod Epoch conf =? 0) eqn:Eck; bool_to_prop.
  - destruct (Hck Eck) as [-> ->]. cbn [Z.eqb negb andb nonceDropVote]. unfold signer_bytes. rewrite address_bytes_len.
    destruct (_ <? 32) eqn:E2; [go_lia|]. destruct (_ <? 32 + 65) eqn:E3; [go_lia|]. replace (_ - 32 - 65) with (Z.of_nat (length (signers order s)) * 20) by lia. by rewrite Z.mod_mul.
  - cbn [andb negb length]. done.
Qed.

Lemma kept_genesis c c' now : kept c c' -> genesis_ok uncleHash g now chain (config c) -> genesis_ok uncleHash g now chain (config c').
Proof. by intros (_ & -> & _). Qed.

Lemma own_block (c : clique) now now' now2 now3 pick root txs h0 hs x parent s f :
  engine_ok headerHash Keccak256 Ecrecover P g epoch c ->
  genesis_ok uncleHash g now chain (config c) -> genesis_ok uncleHash g now2 chain (config c) -> genesis_ok uncleHash g now3 chain (config c) ->
  parent_ok hs x parent s (config c) -> now <= now' -> ParentHash h0 = x -> Number h0 = len hs + 1 -> len hs + 1 <= MaxUint64 ->
  signer c ∈ Signers s -> signFn c = Some f -> signs_as Keccak256 Ecrecover f (signer c) ->
  exists c1 h1, Prepare order headerHash Keccak256 Ecrecover uncleHash now chain now' pick h0 c = Ret (c1, (h1, None)) /\
  forall c2 h3, Seal order headerHash Keccak256 Ecrecover uncleHash now2 chain txs false (Finalize uncleHash root h1) c1 = Ret (c2, inr (Some h3)) ->
    P h3 -> Time h3 <= now3 < 2 ^ 63 -> exists c3, VerifyHeader order headerHash Keccak256 Ecrecover uncleHash now3 chain h3 c2 = Ret (c3, None).
Proof using Hok Hepoch Horder Hstore laws1 laws2 lawsD.
  intros Hc Hg1 Hg2 Hg3 Hpar Hnow Hx Hn Hmax Hin Hfn Hsign. pose proof (len_nonneg hs) as Hlen0. set (h0' := set_root root uncleHash h0).
  destruct (Prepare_spec c now now' pick h0 hs x parent s Hc Hg1 Hpar Hnow Hx Hn Hmax Hin) as (c1 & h1 & E1 & Hk1 & Hprep).
  exists c1, h1. split; [done|]. intros c2 h3 Eseal Hp3 Ht3. set (h2 := Finalize uncleHash root h1) in *.
  assert (Hprep2 : prepared (config c) hs s parent (signer c) h0' h2) by (by destruct Hprep).
  assert (Esg : signer c1 = signer c /\ signFn c1 = signFn c /\ config c1 = config c) by (by destruct Hk1 as (_ & ? & _ & ? & ?)). destruct Esg as (Esg & Efn & Ecf).
  destruct (Seal_inv c1 c2 now2 txs h2 h3 hs x parent s (config c) (proj1 Hk1)) as (Hk2 & _ & Hspr & f' & sh & sig & Ef' & Esh & Esig & Eh3);
    [by eapply kept_genesis|done|by rewrite (pr_parent _ _ _ _ _ _ _ Hprep2)|by rewrite (pr_number _ _ _ _ _ _ _ Hprep2)|done|exact Eseal|].
  rewrite Esg in Hspr, Esig. rewrite Efn, Hfn in Ef'. injection Ef' as <-. destruct (Hsign _ _ Esig) as [Hsl _].
  assert (Hstd : standalone uncleHash now3 (config c) h3 = None) by (eapply sealed_standalone; [exact Hprep2|done|done|done|exact Hsl|exact Eh3|rewrite Eh3 in Ht3; apply Ht3]).
  destruct Hprep2 as [Qp Qn Qu Qm Qno Qck (vanity & Qv & Qe) Qd Qt].
  assert (He65 : (65 <= length (Extra h2))%nat) by (rewrite Qe, !length_app, length_replicate; lia).
  pose proof (signer_of_sealed Keccak256 Ecrecover h2 sh sig f (signer c) He65 Hsign Esh Esig) as Hsg. rewrite <- Eh3 in Hsg.
  assert (F : ParentHash h3 = x /\ Number h3 = len hs + 1 /\ Difficulty h3 = turn_difficulty s (len hs + 1) (signer c) /\ Time h3 = Time h2 /\ Extra h3 = sealed_extra (Extra h2) sig).
  { rewrite Eh3. cbn [ParentHash Number Difficulty Time Extra set_seal]. rewrite Qp, Qn, Qd. done. }
  destruct F as (Fp & Fn & Fd & Ft & Fe). assert (Hk : kept c c2) by (by eapply kept_chain). destruct Hpar as [Hl Hserv Hs Hsz Hget Hph Hpn (Hp0 & Hp1 & Hp2)].
  assert (Hl3 : lineage headerHash P g (hs ++ [h3]) (headerHash h3)) by (constructor; [by rewrite Fp|done|done|done]).
  assert (Hbn : big_Uint64 (len hs + 1) = len hs + 1) by (apply big_Uint64_id; go_lia).
  unfold VerifyHeader, verifyHeader. rewrite bind_gets. destruct Hk as (Hc2 & Ecf2 & Hk'). rewrite Ecf2, Hstd. unfold verifyCascadingFields. rewrite Fn, Hbn.
  destruct (len hs + 1 =? 0) eqn:E0; bool_to_prop; [lia|]. unfold find_parent. cbn [last]. rewrite Fp, Fn, Hbn, Z.add_simpl_r, Hget, bind_gets, Hpn, Hph, Ecf2.
  rewrite (big_Uint64_id (len hs)), !Z.eqb_refl by go_lia. cbn [negb orb].
  destruct (_ <? _) eqn:Etime; [|clear Etime].
  { exfalso. bool_to_prop. rewrite Ft in Etime. rewrite (big_Uint64_id (Time parent)) in Etime by go_lia. rewrite u64_id in Etime by go_lia.
    rewrite (big_Uint64_id (Time h2)) in Etime by (rewrite Ft in Ht3; go_lia). lia. }
  destruct (snapshot_exact order headerHash Keccak256 Ecrecover uncleHash P Hok g epoch now3 chain Hstore c2 hs x [] Hc2) as (c4 & E4 & Hk4); [by rewrite Ecf2|done|done|].
  rewrite (bind_eval _ _ _ _ _ E4), Hs.
  assert (Hsb : ((len hs + 1) mod Epoch (config c) =? 0) && negb (bool_decide (take (length (Extra h3) - 65 - 32) (drop 32 (Extra h3)) = signer_bytes order s)) = false).
  { destruct (_ =? 0) eqn:Eck; [|done]. destruct (sealed_signers vanity (signer_bytes order s) (replicate 65 0) sig Qv (length_replicate _ _) Hsl) as [Hcut _].
    rewrite Fe, Qe. cbn [andb]. by rewrite bool_decide_eq_true_2. }
  rewrite Hsb. destruct (verifySeal_spec order Horder headerHash Keccak256 Ecrecover uncleHash P Hok g epoch Hepoch now3 chain Hstore c4 hs x s h3 (signer c) [])
    as (c5 & v & Ev & _ & Hv); [apply Hk4|eapply kept_genesis; [exact Hk4|by rewrite Ecf2]|done|done|done|done|done|done|done|].
  exists c5. rewrite Ev. do 2 f_equal. apply Hv. done.
Qed.

End Own.

End CliqueSeal.
