(* ===== verification/CliqueClaims.v ===== *)
(** The properties of the proof-of-authority engine, and a small chain on which they are
    exercised. *)

From S2P Require Import Prelude Params Bytes Cache RlpEncode Consensus Clique CliqueVotes CliqueApply CliqueSeal.
Import Clique CliqueVotes CliqueApply CliqueSeal.

Module CliqueClaims.

Section Claims.
Context {C1 C2 DB : Type} {ops1 : CacheOps C1 Snapshot} {ops2 : CacheOps C2 Address} {opsD : StoreOps DB}.
Context {laws1 : CacheLaws ops1} {laws2 : CacheLaws ops2} {lawsD : StoreLaws opsD}.
Context (order : list Address -> list Address).
Context (headerHash : Header -> Hash) (Keccak256 : bytes -> Hash) (Ecrecover : bytes -> bytes -> option bytes) (uncleHash : Hash).
Context (P : Header -> Prop) (g : Header) (epoch : Z) (chain : Chain).

Abbreviation clique := (Clique C1 C2 DB).
Abbreviation signer_of := (signer_of Keccak256 Ecrecover).
Abbreviation lineage := (lineage headerHash P g).
Abbreviation counted := (counted headerHash Keccak256 Ecrecover g epoch).
Abbreviation serves := (serves headerHash chain).
Abbreviation genesis_ok := (genesis_ok uncleHash g).
Abbreviation headers_ok := (headers_ok headerHash Keccak256 Ecrecover P).
Abbreviation snapshot_at := (snapshot_at order headerHash Keccak256 Ecrecover uncleHash).

(** The states of an engine that is asked for snapshots. *)
Inductive queried (c0 : clique) : clique -> Prop :=
| queried_new : queried c0 c0
| queried_more c now hs x parents c' r : queried c0 c -> genesis_ok now chain (config c) -> lineage hs x -> serves parents hs ->
    snapshot_at now chain (len hs) x parents c = Ret (c', r) -> queried c0 c'.

Lemma queried_ok c0 c : headers_ok -> engine_ok headerHash Keccak256 Ecrecover P g epoch c0 -> queried c0 c -> engine_ok headerHash Keccak256 Ecrecover P g epoch c.
Proof using laws1 laws2 lawsD.
  intros Hok H0. induction 1 as [|c now hs x parents c' r _ IH Hg Hl Hs E]; [done|].
  destruct (snapshot_at_spec order headerHash Keccak256 Ecrecover uncleHash P Hok g epoch now chain c hs x parents IH Hg Hl Hs) as (c1 & r1 & E1 & Hk & _).
  rewrite E in E1. injection E1 as <- <-. apply Hk.
Qed.

(** C18: [snapshot] is transparent to its caches.  Whatever an engine created by [New] was
    asked before - whatever its caches of snapshots and signatures hold or have
    forgotten, whatever checkpoint writes failed - asking it for the snapshot of a block
    whose ancestors are in the chain or among the explicit parents returns, without a
    panic, exactly the count of the votes of all headers from the genesis block
    ([counted]), errors of the headers included; the only other answer is the error of
    a failed write of a checkpoint. *)
Theorem snapshots_are_counts conf d c1 c2 (c : clique) now hs x parents :
  headers_ok -> cached c1 = ∅ -> cached c2 = ∅ -> stored d = ∅ -> Epoch (config (New conf d c1 c2)) = epoch ->
  queried (New conf d c1 c2) c -> genesis_ok now chain (config c) -> lineage hs x -> serves parents hs ->
  exists c' r, snapshot_at now chain (len hs) x parents c = Ret (c', r) /\
    (r = counted hs x \/ r = inl errStore /\ exists (d : DB) s, snd (store d s) = true).
Proof using laws1 laws2 lawsD.
  intros Hok E1 E2 E3 He Hq Hg Hl Hs. pose proof (queried_ok _ c Hok (new_engine_ok _ _ _ _ g epoch conf d c1 c2 E1 E2 E3 He) Hq) as Hc.
  destruct (snapshot_at_spec order headerHash Keccak256 Ecrecover uncleHash P Hok g epoch now chain c hs x parents Hc Hg Hl Hs) as (c' & r & E & _ & Ha).
  by exists c', r.
Qed.

(** C19: The set of signers changes by majority vote only.  When [apply] counts the header
    that follows a chain, either the signers stay the same or exactly the account the
    header votes on ([Coinbase]) changes sides, and then more than half of the signers
    each cast, as their last ballot on that account in the current epoch, a vote for
    this change in a header they signed.  The tallies of the result are the numbers of
    standing votes, each by a current signer, one per signer and account. *)
Theorem signers_change_by_majority (c c' : clique) hs x s h t :
  headers_ok -> 0 < epoch -> signatures_ok headerHash Keccak256 Ecrecover P c -> Epoch (config c) = epoch ->
  lineage hs x -> counted hs x = inr s -> lineage (hs ++ [h]) (headerHash h) ->
  apply headerHash Keccak256 Ecrecover s [h] c = Ret (c', inr t) ->
  votes_ok t /\
  (Signers t = Signers s \/
   Signers t = flip (Coinbase h) (Signers s) /\
   exists V, V ⊆ Signers s /\ majority (Signers s) (Z.of_nat (size V)) /\
     forall y, y ∈ V -> exists i k, (hs ++ [h]) !! i = Some k /\ signer_of k = inr y /\ Coinbase k = Coinbase h /\
       Nonce k = vote_nonce (negb (status (Signers s) (Coinbase h))) /\ (Z.of_nat i + 1) / epoch = (len hs + 1) / epoch /\
       forall j k', (i < j)%nat -> (hs ++ [h]) !! j = Some k' -> ~ (signer_of k' = inr y /\ Coinbase k' = Coinbase h)).
Proof using laws2.
  intros Hok Hep Hsig He Hl Hs Hl2 Ha.
  destruct (apply_spec headerHash Keccak256 Ecrecover P Hok g epoch c s hs [h] x _ Hsig He Hl Hl2 Hs) as (z & Ez & _). rewrite Ha in Ez. injection Ez as _ Et.
  destruct (counted_step headerHash Keccak256 Ecrecover P g epoch Hep hs x s h t Hl Hs Hl2 (eq_sym Et)) as (bs & a & Hb & Hok' & Hstep).
  split; [apply Hok'|]. destruct Hstep as [->|[-> (V & HV & Hm & Hsup)]]; [by left|right]. split; [done|]. exists V. split; [done|]. split; [done|].
  intros y Hy. destruct (Hsup y Hy) as (i & b & Hi & Hby & Hbc & Hbn & Hbe & Hbl). destruct (ballots_lookup_r _ _ _ _ _ _ Hb Hi) as [Hk Hkb].
  rewrite (ballots_len _ _ _ _ Hb), len_app in Hbe. exists i, (snd b). split; [done|]. split; [by rewrite Hkb, Hby|]. split; [done|]. split; [done|]. split; [done|].
  intros j k' Hj Hk' [E1 E2]. destruct (ballots_lookup _ _ _ _ _ _ Hb Hk') as (b' & Hb' & <- & Hs'). eapply Hbl; [exact Hj|exact Hb'|]. split; [congruence|done].
Qed.

(** C32: What [VerifySeal] and [apply] accept.  For a header on top of a counted chain,
    [VerifySeal] returns nil exactly if its signer is authorised, did not sign one of
    the last [limit - 1] blocks, and its difficulty is 2 in its turn (its position among
    the signers is the block number modulo their number) and 1 otherwise - except that
    the check of recent signers finds nothing while the block number is below [limit],
    because its subtraction wraps around.  [apply] accepts exactly if the signer is
    authorised, did not sign recently, at any height, and the nonce is one of the two
    votes. *)
Theorem seal_verdicts (c : clique) now hs x s h a :
  headers_ok -> 0 < epoch -> (forall l, order l ≡ₚ l) -> (forall (d : DB) s, snd (store d s) = false) ->
  engine_ok headerHash Keccak256 Ecrecover P g epoch c -> genesis_ok now chain (config c) -> lineage hs x -> serves [] hs ->
  counted hs x = inr s -> Z.of_nat (size (Signers s)) < 2 ^ 63 -> ParentHash h = x -> lineage (hs ++ [h]) (headerHash h) -> signer_of h = inr a ->
  (exists c1 v, VerifySeal order headerHash Keccak256 Ecrecover uncleHash now chain h c = Ret (c1, v) /\
     (v = None <-> a ∈ Signers s /\ (limit s <= len hs + 1 -> spread Keccak256 Ecrecover hs s a) /\
                   Difficulty h = (if (len hs + 1) mod Z.of_nat (size (Signers s)) =? rank (Signers s) a then 2 else 1))) /\
  (exists c2 r, apply headerHash Keccak256 Ecrecover s [h] c = Ret (c2, r) /\
     ((exists t, r = inr t) <-> a ∈ Signers s /\ spread Keccak256 Ecrecover hs s a /\ (Nonce h = nonceAuthVote \/ Nonce h = nonceDropVote))).
Proof using laws1 laws2 lawsD.
  intros Hok Hep Hord Hst Hc Hg Hl Hserv Hs Hsz Hx Hl2 Ha. split.
  - destruct (verifySeal_spec order Hord headerHash Keccak256 Ecrecover uncleHash P Hok g epoch Hep now chain Hst c hs x s h a [] Hc Hg Hl Hserv Hs Hsz Hx Hl2 Ha)
      as (c1 & v & E & _ & Hv). exists c1, v. split; [exact E|exact Hv].
  - destruct (apply_verdict headerHash Keccak256 Ecrecover P Hok g epoch Hep c hs x s h a (ok_signatures _ _ _ _ _ _ _ Hc) (ok_epoch _ _ _ _ _ _ _ Hc) Hl Hs Hl2 Ha)
      as (c2 & r & E & Hr). exists c2, r. split; [exact E|]. rewrite Hr.
    assert (Hn : (exists auth, Nonce h = vote_nonce auth) <-> Nonce h = nonceAuthVote \/ Nonce h = nonceDropVote).
    { split; [intros [[] ->]; auto|]. intros [->| ->]; [by exists true|by exists false]. }
    by rewrite Hn.
Qed.

(** C20: The engine's own blocks are valid.  On top of a chain whose votes are counted, for
    an authorised signer, [Prepare] succeeds, and if [Seal] then returns the header that
    [Prepare] made and [Finalize] completed, [VerifyHeader] accepts it - on checkpoint
    blocks too, where it carries the list of signers - as soon as its time has come. *)
Theorem own_blocks_verify (c : clique) now now' now2 now3 pick root txs h0 hs x parent s f :
  headers_ok -> 0 < epoch -> (forall l, order l ≡ₚ l) -> (forall (d : DB) s, snd (store d s) = false) ->
  engine_ok headerHash Keccak256 Ecrecover P g epoch c ->
  genesis_ok now chain (config c) -> genesis_ok now2 chain (config c) -> genesis_ok now3 chain (config c) ->
  parent_ok headerHash Keccak256 Ecrecover P g epoch chain hs x parent s (config c) -> now <= now' ->
  ParentHash h0 = x -> Number h0 = len hs + 1 -> len hs + 1 <= MaxUint64 ->
  signer c ∈ Signers s -> signFn c = Some f -> signs_as Keccak256 Ecrecover f (signer c) ->
  exists c1 h1, Prepare order headerHash Keccak256 Ecrecover uncleHash now chain now' pick h0 c = Ret (c1, (h1, None)) /\
  forall c2 h3, Seal order headerHash Keccak256 Ecrecover uncleHash now2 chain txs false (Finalize uncleHash root h1) c1 = Ret (c2, inr (Some h3)) ->
    P h3 -> Time h3 <= now3 < 2 ^ 63 -> exists c3, VerifyHeader order headerHash Keccak256 Ecrecover uncleHash now3 chain h3 c2 = Ret (c3, None).
Proof using laws1 laws2 lawsD.
  intros Hok Hep Hord Hst. by apply (own_block order Hord headerHash Keccak256 Ecrecover uncleHash P Hok g epoch Hep chain Hst).
Qed.

End Claims.

(** The signature does not cover all of the header: the second round number, the DApp and
    the block of the main chain it refers to can be exchanged after signing. *)
Lemma signature_misses_fields Keccak256 Ecrecover h round2 dapp mainhash :
  let h' := mkHeader (ParentHash h) (UncleHash h) (Coinbase h) (Root h) (TxHash h) (ReceiptHash h) (Bloom h) (Difficulty h) (Number h) (GasLimit h) (GasUsed h)
    (Time h) (Extra h) (MixDigest h) (Nonce h) (Round h) round2 (PresidentId h) dapp mainhash in
  sigHash Keccak256 h' = sigHash Keccak256 h /\ recover Keccak256 Ecrecover h' = recover Keccak256 Ecrecover h.
Proof. done. Qed.

(** The last signer can vote itself out; then the modulo by the number of signers panics. *)
Lemma no_signers_panics order s number a : (forall l, order l ≡ₚ l) -> Signers s = ∅ -> inturn order s number a = Panic.
Proof.
  intros Ho Hs. unfold inturn. destruct (signers_spec order Ho s) as (Hp & _). rewrite Hs, elements_empty in Hp.
  apply Permutation_nil_r in Hp. by rewrite Hp.
Qed.

(** ** A small chain *)

#[export] Instance map_store : StoreOps (gmap Hash Snapshot) := {| stored := id; loadSnapshot d h := d !! h; store d s := (<[sHash s := s]> d, false) |}.
#[export] Instance map_store_laws : StoreLaws map_store.
Proof. by split. Qed.

(** The first byte of a signature names its signer. *)
Definition toy_recover (msg sig : bytes) : option bytes := match sig with b :: _ => Some [0; b] | [] => None end.
Definition toy_hash (h : Header) : Hash := Number h + 1.
Definition toy_extra (sgs : list Address) (by_ : Z) : bytes := replicate 32 0 ++ (sgs ≫= address_bytes) ++ by_ :: replicate 64 0.
Definition toy_header (number coinbase nonce difficulty by_ : Z) (sgs : list Address) : Header :=
  mkHeader number 7 coinbase 0 0 0 0 difficulty number 0 0 (15 * number) (toy_extra sgs by_) 0 nonce 0 0 "" 0 0.

Definition toy_genesis : Header := toy_header 0 0 0 1 0 [1; 2; 3].
Definition toy_1 : Header := toy_header 1 9 nonceAuthVote 2 2 [].
Definition toy_2 : Header := toy_header 2 9 nonceAuthVote 2 3 [].
Definition toy_chain : Chain := MkChain
  (fun _ n => if n =? 0 then Some toy_genesis else if n =? 1 then Some toy_1 else if n =? 2 then Some toy_2 else None)
  (fun n => if n =? 0 then Some toy_genesis else None) (fun _ => None) (Some toy_2).
Definition toy_conf : CliqueConfig := MkConfig 15 0.
Abbreviation toy_clique := (Clique (gmap Hash Snapshot) (gmap Hash Address) (gmap Hash Snapshot)).
Definition toy_new : toy_clique := New toy_conf ∅ ∅ ∅.
Definition toy_signFn : SignerFn := fun a _ => Some (a :: replicate 64 0).
Definition toy_engine : toy_clique := MkClique (config toy_new) ∅ ∅ ∅ {[ 9 := true ]} 2 (Some toy_signFn).

(** The block the engine makes on top of the genesis block. *)
Definition toy_own : Header :=
  match Prepare id toy_hash be_value toy_recover 7 100 toy_chain 100 0 (toy_header 1 0 0 0 0 []) toy_engine with
  | Ret (c, (h, _)) => match Seal id toy_hash be_value toy_recover 7 100 toy_chain 1 false (Finalize 7 0 h) c with Ret (_, inr (Some h)) => h | _ => toy_genesis end
  | Panic => toy_genesis
  end.

Definition toy_P (h : Header) : Prop := h = toy_genesis \/ h = toy_1 \/ h = toy_2.
Definition own_P (h : Header) : Prop := h = toy_genesis \/ h = toy_own.

Lemma toy_headers_ok : headers_ok toy_hash be_value toy_recover toy_P.
Proof.
  split.
  - intros h h' [->|[->| ->]] [->|[->| ->]] E; try (vm_compute in E; discriminate E); reflexivity.
  - intros h [->|[->| ->]] E; vm_compute in E; discriminate.
Qed.

Lemma own_headers_ok : headers_ok toy_hash be_value toy_recover own_P.
Proof.
  split.
  - intros h h' [->| ->] [->| ->] E; try (vm_compute in E; discriminate E); reflexivity.
  - intros h [->| ->] E; vm_compute in E; discriminate.
Qed.

Lemma toy_lineage_0 (P : Header -> Prop) : P toy_genesis -> lineage toy_hash P toy_genesis [] 1.
Proof. intros HP. by apply (lineage_genesis toy_hash P toy_genesis). Qed.
Lemma toy_lineage_1 : lineage toy_hash toy_P toy_genesis [toy_1] 2.
Proof. apply (lineage_next toy_hash toy_P toy_genesis [] toy_1); [apply toy_lineage_0; by left|right; by left|done|done]. Qed.
Lemma toy_lineage_2 : lineage toy_hash toy_P toy_genesis [toy_1; toy_2] 3.
Proof. apply (lineage_next toy_hash toy_P toy_genesis [toy_1] toy_2); [apply toy_lineage_1|right; by right|done|done]. Qed.

Lemma toy_genesis_ok : genesis_ok 7 toy_genesis 100 toy_chain (MkConfig 15 30000).
Proof. split; [done|]. by vm_compute. Qed.

Lemma toy_new_ok P : engine_ok toy_hash be_value toy_recover P toy_genesis 30000 toy_engine.
Proof. split; [done|..]; intros ? ?; cbn; rewrite ?lookup_empty; done. Qed.

(** Two votes of three add the signer 9. *)
Definition toy_count : CliqueError + Snapshot := counted toy_hash be_value toy_recover toy_genesis 30000 [toy_1] 2.
Definition toy_snap : Snapshot := match toy_count with inr s => s | inl _ => newSnapshot 0 0 [] end.
Definition genesis_snap : Snapshot := newSnapshot 0 1 [1; 2; 3].

Lemma snapshots_are_counts_witness : exists c' r,
  snapshot_at id toy_hash be_value toy_recover 7 100 toy_chain (len [toy_1; toy_2]) 3 [toy_2] toy_new = Ret (c', r) /\
  (r = counted toy_hash be_value toy_recover toy_genesis 30000 [toy_1; toy_2] 3 \/ r = inl errStore /\ exists (d : gmap Hash Snapshot) s, snd (store d s) = true).
Proof.
  apply (snapshots_are_counts id toy_hash be_value toy_recover 7 toy_P toy_genesis 30000 toy_chain toy_conf ∅ ∅ ∅ toy_new 100 [toy_1; toy_2] 3 [toy_2]);
    [apply toy_headers_ok|reflexivity|reflexivity|reflexivity|reflexivity|constructor|apply toy_genesis_ok|apply toy_lineage_2|].
  exists [toy_1]. split; [reflexivity|]. intros [|i] h Hi; [by injection Hi as <-|done].
Defined.

Lemma signers_change_by_majority_witness : exists c' t,
  apply toy_hash be_value toy_recover toy_snap [toy_2] toy_engine = Ret (c', inr t) /\ Signers t = flip 9 (Signers toy_snap) /\ votes_ok t.
Proof.
  eexists _, _. split; [vm_compute; reflexivity|]. split; [by apply set_eq; intros y; vm_compute; destruct y as [|[|[]|]|]|].
  eapply (signers_change_by_majority toy_hash be_value toy_recover toy_P toy_genesis 30000 toy_engine _ [toy_1] 2 toy_snap toy_2);
    [apply toy_headers_ok|lia|apply toy_new_ok|reflexivity|apply toy_lineage_1|vm_compute; reflexivity|apply toy_lineage_2|vm_compute; reflexivity].
Defined.

Lemma seal_verdicts_witness :
  (exists c1 v, VerifySeal id toy_hash be_value toy_recover 7 100 toy_chain toy_2 toy_engine = Ret (c1, v) /\ v = None) /\
  (exists c2 t, apply toy_hash be_value toy_recover toy_snap [toy_2] toy_engine = Ret (c2, inr t)).
Proof.
  destruct (seal_verdicts id toy_hash be_value toy_recover 7 toy_P toy_genesis 30000 toy_chain toy_engine 100 [toy_1] 2 toy_snap toy_2 3) as [(c1 & v & E1 & Hv) (c2 & r & E2 & Hr)];
    [apply toy_headers_ok|lia|done|done|apply toy_new_ok|apply toy_genesis_ok|apply toy_lineage_1| |vm_compute; reflexivity|vm_compute; reflexivity|reflexivity|apply toy_lineage_2|vm_compute; reflexivity|].
  { exists [toy_1]. split; [reflexivity|]. intros [|i] h Hi; [by injection Hi as <-|done]. }
  assert (Hsp : spread be_value toy_recover [toy_1] toy_snap 3).
  { intros [|i] k Hk _; [|done]. injection Hk as <-. vm_compute. discriminate. }
  assert (Hin : (3 : Address) ∈ Signers toy_snap) by (vm_compute; reflexivity).
  split.
  - exists c1, v. split; [exact E1|]. apply Hv. split; [exact Hin|]. split; [intros _; exact Hsp|vm_compute; reflexivity].
  - destruct (proj2 Hr) as [t ->]; [|by exists c2, t]. split; [exact Hin|]. split; [exact Hsp|]. left. reflexivity.
Defined.

Lemma own_parent_ok : parent_ok toy_hash be_value toy_recover own_P toy_genesis 30000 toy_chain [] 1 toy_genesis genesis_snap (config toy_engine).
Proof.
  split; [apply toy_lineage_0; by left| |vm_compute; reflexivity|vm_compute; reflexivity|done|done|done|by vm_compute].
  exists []. split; [reflexivity|]. intros i h Hi. done.
Qed.

Lemma toy_signs_as a : 0 <= a < 256 -> signs_as be_value toy_recover toy_signFn a.
Proof.
  intros Ha msg sig [= <-]. split; [done|]. exists [0; a]. split; [done|]. cbn. unfold be_value. cbn. f_equal. apply Z.mod_small. lia.
Qed.

Lemma own_blocks_verify_witness : exists c1 h1,
  Prepare id toy_hash be_value toy_recover 7 100 toy_chain 100 0 (toy_header 1 0 0 0 0 []) toy_engine = Ret (c1, (h1, None)) /\
  exists c2, Seal id toy_hash be_value toy_recover 7 100 toy_chain 1 false (Finalize 7 0 h1) c1 = Ret (c2, inr (Some toy_own)) /\
  exists c3, VerifyHeader id toy_hash be_value toy_recover 7 100 toy_chain toy_own c2 = Ret (c3, None).
Proof.
  destruct (own_blocks_verify id toy_hash be_value toy_recover 7 own_P toy_genesis 30000 toy_chain toy_engine 100 100 100 100 0 0 1 (toy_header 1 0 0 0 0 []) [] 1 toy_genesis
    genesis_snap toy_signFn) as (c1 & h1 & E1 & Hv);
    [apply own_headers_ok|lia|done|done|apply toy_new_ok|apply toy_genesis_ok|apply toy_genesis_ok|apply toy_genesis_ok|apply own_parent_ok|lia|reflexivity|reflexivity|vm_compute; discriminate
    |vm_compute; reflexivity|reflexivity|by apply toy_signs_as|].
  assert (Es : exists c2, Seal id toy_hash be_value toy_recover 7 100 toy_chain 1 false (Finalize 7 0 h1) c1 = Ret (c2, inr (Some toy_own))).
  { vm_compute in E1. injection E1 as <- <-. eexists. vm_compute. reflexivity. }
  destruct Es as [c2 Es]. exists c1, h1. split; [exact E1|]. exists c2. split; [exact Es|].
  apply (Hv c2 toy_own Es); [by right|]. vm_compute. split; [discriminate|reflexivity].
Defined.

(** With five signers the limit is three: [VerifySeal] accepts a second block in a row of
    the same signer as block two, [apply] refuses to count it. *)
Definition gap_genesis : Header := toy_header 0 0 0 1 0 [1; 2; 3; 4; 5].
Definition gap_1 : Header := toy_header 1 0 0 2 2 [].
Definition gap_2 : Header := toy_header 2 0 0 1 2 [].
Definition gap_chain : Chain := MkChain
  (fun _ n => if n =? 0 then Some gap_genesis else if n =? 1 then Some gap_1 else None) (fun n => if n =? 0 then Some gap_genesis else None) (fun _ => None) (Some gap_1).
Definition verdict_of {A B} (r : outcome (A * B)) : option B := match r with Ret (_, v) => Some v | Panic => None end.

Lemma early_seal_gap :
  verdict_of (VerifyHeader id toy_hash be_value toy_recover 7 100 gap_chain gap_2 toy_new) = Some None /\
  verdict_of (snapshot_at id toy_hash be_value toy_recover 7 100 gap_chain 2 3 [gap_1; gap_2] toy_new) = Some (inl errUnauthorized).
Proof. by vm_compute. Qed.

End CliqueClaims.
