(* ===== verification/ConsensusDef.v ===== *)
(** [consensus/defhandler.go]: the copy of the DPoS engine kept in package
    [consensus] for the tests, translated on its own, and the proof that it
    agrees with [consensus/dpos/handler.go] wherever no fake failure is
    configured ("Please sync this file if you made any change!"). *)

From S2P Require Import Prelude Params Consensus.

(** ** config/config.go *)
Definition ModeFake : Z := 0.
Definition ModeFullFake : Z := 1.

(** The fields of [DPoSConfig] the engine reads. *)
Record DPoSConfig := mkDPoSConfig { PoSMode : Z; FakeFail : Z }.

Module DefHandler.
Section Engine.
Context (headerHash : Header -> Hash) (EmptyUncleHash : Hash).
Context (dpos : DPoSConfig).

Definition blockHash (b : Block) : Hash := headerHash (header b).

(** [calcDifficultyByzantium]: big.Int arithmetic; [Div] by a positive
    constant is floor division. *)
Definition calcDifficultyByzantium (time : Z) (parent : Header) : Z :=
  let x := (time - Time parent) / 9 in
  let x := if UncleHash parent =? EmptyUncleHash then 1 - x else 2 - x in
  let x := if x <? -99 then -99 else x in
  let y := Difficulty parent / DifficultyBoundDivisor in
  let x := y * x in
  let x := Difficulty parent + x in
  let x := if x <? MinimumDifficulty then MinimumDifficulty else x in
  let fakeBlockNumber :=
    if big2999999 <=? Number parent then Number parent - big2999999 else 0 in
  let periodCount := fakeBlockNumber / expDiffPeriod in
  if 1 <? periodCount then x + 2 ^ (periodCount - 2) else x.

Definition CalcDifficulty (time : Z) (parent : Header) : Z :=
  calcDifficultyByzantium time parent.

Definition VerifySeal (h : Header) : error :=
  if ((PoSMode dpos =? ModeFake) || (PoSMode dpos =? ModeFullFake)) &&
     (FakeFail dpos =? big_Uint64 (Number h)) then Some errInvalidPoW else
  if Z.sgn (Difficulty h) <=? 0 then Some errInvalidDifficulty else None.

(** [verifyHeader] at wall-clock second [now]. *)
Definition verifyHeader (now : Z) (h parent : Header) (uncle seal : bool) : error :=
  if MaximumExtraDataSize <? Z.of_nat (length (Extra h)) then Some errExtraTooLong else
  if uncle && (MaxBig256 <? Time h) then Some errLargeBlockTime else
  if negb uncle && (now + allowedFutureBlockTime <? Time h) then Some ErrFutureBlock else
  if Time h <? Time parent then Some errZeroBlockTime else
  let expected := CalcDifficulty (big_Uint64 (Time h)) parent in
  if (DAppID h =? EmptyDAppIdHash) && negb (expected =? Difficulty h)
  then Some errWrongDifficulty else
  let cap := 0x7fffffffffffffff in
  if cap <? GasLimit h then Some errGasLimitCap else
  if GasLimit h <? GasUsed h then Some errGasUsedAboveLimit else
  let diff := i64 (i64 (GasLimit parent) - i64 (GasLimit h)) in
  let diff := if diff <? 0 then i64 (diff * -1) else diff in
  let limit := GasLimit parent / GasLimitBoundDivisor in
  if (limit <=? u64 diff) || (GasLimit h <? MinGasLimit) then Some errGasLimitBounds else
  if negb (Number h - Number parent =? 1) then Some ErrInvalidNumber else
  if seal then VerifySeal h else None.

Definition VerifyHeader (now : Z) (chain : ChainReader) (h : Header) (seal : bool) : error :=
  let number := big_Uint64 (Number h) in
  match GetHeader chain (headerHash h) number with
  | Some _ => None
  | None =>
      match GetHeader chain (ParentHash h) (u64 (number - 1)) with
      | None => Some ErrUnknownAncestor
      | Some parent => verifyHeader now h parent false seal
      end
  end.

(** [verifyHeaderWorker]; indexing [headers] or [seals] out of range panics. *)
Definition verifyHeaderWorker (now : Z) (chain : ChainReader)
    (headers : list Header) (seals : list bool) (index : nat) : outcome error :=
  h ← deref (headers !! index);
  parent ← match index with
           | O => Ret (GetHeader chain (ParentHash h) (u64 (big_Uint64 (Number h) - 1)))
           | S i => prev ← deref (headers !! i);
                    Ret (if headerHash prev =? ParentHash h then Some prev else None)
           end;
  match parent with
  | None => Ret (Some ErrUnknownAncestor)
  | Some parent =>
      match GetHeader chain (headerHash h) (big_Uint64 (Number h)) with
      | Some _ => Ret None
      | None => seal ← deref (seals !! index);
                Ret (verifyHeader now h parent false seal)
      end
  end.

(** First loop of [VerifyUncles]: at most [fuel] (7 in the code) ancestors. *)
Fixpoint gatherAncestors (chain : ChainReader) (fuel : nat) (parent : Hash) (number : Z)
    (us : gset Hash) (ancestors : gmap Hash Header) : gset Hash * gmap Hash Header :=
  match fuel with
  | O => (us, ancestors)
  | S fuel =>
      match GetBlock chain parent number with
      | None => (us, ancestors)
      | Some ancestor =>
          gatherAncestors chain fuel (ParentHash (header ancestor)) (u64 (number - 1))
            (us ∪ list_to_set (headerHash <$> uncles ancestor))
            (<[blockHash ancestor := header ancestor]> ancestors)
      end
  end.

(** Second loop of [VerifyUncles]. *)
Fixpoint checkUncles (now : Z) (block : Block) (ancestors : gmap Hash Header)
    (us : gset Hash) (l : list Header) : error :=
  match l with
  | [] => None
  | uncle :: l =>
      let hash := headerHash uncle in
      if bool_decide (hash ∈ us) then Some errDuplicateUncle else
      let us := {[hash]} ∪ us in
      match ancestors !! hash with
      | Some _ => Some errUncleIsAncestor
      | None =>
          match ancestors !! ParentHash uncle with
          | None => Some errDanglingUncle
          | Some uparent =>
              if ParentHash uncle =? ParentHash (header block) then Some errDanglingUncle else
              match verifyHeader now uncle uparent true true with
              | Some e => Some e
              | None => checkUncles now block ancestors us l
              end
          end
      end
  end.

Definition VerifyUncles (now : Z) (chain : ChainReader) (block : Block) : error :=
  if (maxUncles <? length (uncles block))%nat then Some errTooManyUncles else
  let '(us, ancestors) :=
    gatherAncestors chain 7 (ParentHash (header block))
      (u64 (big_Uint64 (Number (header block)) - 1)) ∅ ∅ in
  let ancestors := <[blockHash block := header block]> ancestors in
  let us := {[blockHash block]} ∪ us in
  checkUncles now block ancestors us (uncles block).

(** [Prepare] fills in the difficulty of the header. *)
Definition Prepare (chain : ChainReader) (h : Header) : VerifyError + Header :=
  match GetHeader chain (ParentHash h) (u64 (big_Uint64 (Number h) - 1)) with
  | None => inl ErrUnknownAncestor
  | Some parent => inr (Dpos.set_Difficulty h (CalcDifficulty (big_Uint64 (Time h)) parent))
  end.

(** [accumulateRewards]: the loop over the uncles carries the miner's reward. *)
Fixpoint accumulateUncles `{BalanceDB St} (h : Header) (us : list Header)
    (state : St) (reward : Z) : St * Z :=
  match us with
  | [] => (state, reward)
  | uncle :: us =>
      let r := (Number uncle + 8 - Number h) * ByzantiumBlockReward / 8 in
      let state := db_AddBalance state (Coinbase uncle) r in
      let r := ByzantiumBlockReward / 32 in
      accumulateUncles h us state (reward + r)
  end.

Definition accumulateRewards `{BalanceDB St} (state : St) (h : Header) (us : list Header) : St :=
  let '(state, reward) := accumulateUncles h us state ByzantiumBlockReward in
  db_AddBalance state (Coinbase h) reward.

End Engine.
End DefHandler.

Module DefHandlerProps.
Import DposClaims.
Section Sync.
Context (headerHash : Header -> Hash) (EmptyUncleHash : Hash) (dpos : DPoSConfig).

(** The configuration does not single out this header for a fake failure. *)
Definition noFakeFail (h : Header) : Prop :=
  (PoSMode dpos <> ModeFake /\ PoSMode dpos <> ModeFullFake) \/
  FakeFail dpos <> big_Uint64 (Number h).

Lemma VerifySeal_sync h : noFakeFail h -> DefHandler.VerifySeal dpos h = Dpos.VerifySeal h.
Proof.
  intros Hn. unfold DefHandler.VerifySeal, Dpos.VerifySeal.
  destruct (_ && _) eqn:E; [|done]. exfalso. bool_to_prop. destruct Hn as [[??]|?]; [|done].
  destruct H; bool_to_prop; done.
Qed.

Lemma verifyHeader_sync now h parent uncle seal :
  noFakeFail h ->
  DefHandler.verifyHeader EmptyUncleHash dpos now h parent uncle seal =
  Dpos.verifyHeader EmptyUncleHash now h parent uncle seal.
Proof.
  intros Hn. unfold DefHandler.verifyHeader, Dpos.verifyHeader. by rewrite VerifySeal_sync.
Qed.

Lemma gatherAncestors_sync chain k parent number us anc :
  DefHandler.gatherAncestors headerHash chain k parent number us anc =
  Dpos.gatherAncestors headerHash chain k parent number us anc.
Proof.
  revert parent number us anc. induction k as [|k IH]; intros; simpl; [done|].
  case_match; [|done]. apply IH.
Qed.

Lemma checkUncles_sync now block anc us l :
  Forall noFakeFail l ->
  DefHandler.checkUncles headerHash EmptyUncleHash dpos now block anc us l =
  Dpos.checkUncles headerHash EmptyUncleHash now block anc us l.
Proof.
  intros Hl. revert us. induction Hl as [|x l Hx Hl IH]; intros us; simpl; [done|].
  destruct (anc !! ParentHash x) as [p|]; [|done].
  rewrite verifyHeader_sync by done. by rewrite IH.
Qed.

Lemma accumulateUncles_sync `{BalanceDB St} h us (s : St) r :
  DefHandler.accumulateUncles h us s r = Dpos.accumulateUncles h us s r.
Proof. revert s r. induction us as [|u us IH]; intros; simpl; [done|]. apply IH. Qed.
End Sync.

(** The test copy of the engine gives the same verdicts, prepared headers
    and rewards as the production engine on every block whose header and uncles
    are not selected for a fake failure, for every chain, clock and state. *)
Theorem engine_copy_in_sync `{BalanceDB St} headerHash EmptyUncleHash dpos now chain block seal
    (st : St) :
  noFakeFail dpos (header block) -> Forall (noFakeFail dpos) (uncles block) ->
  DefHandler.VerifyHeader headerHash EmptyUncleHash dpos now chain (header block) seal =
    Dpos.VerifyHeader headerHash EmptyUncleHash now chain (header block) seal /\
  DefHandler.VerifyUncles headerHash EmptyUncleHash dpos now chain block =
    Dpos.VerifyUncles headerHash EmptyUncleHash now chain block /\
  DefHandler.Prepare EmptyUncleHash chain (header block) =
    Dpos.Prepare EmptyUncleHash chain (header block) /\
  DefHandler.accumulateRewards st (header block) (uncles block) =
    Dpos.accumulateRewards st (header block) (uncles block).
Proof.
  intros Hh Hu. split_and!.
  - unfold DefHandler.VerifyHeader, Dpos.VerifyHeader.
    repeat case_match; try done. by apply verifyHeader_sync.
  - unfold DefHandler.VerifyUncles, Dpos.VerifyUncles. rewrite gatherAncestors_sync.
    unfold DefHandler.blockHash, Dpos.blockHash.
    destruct (Dpos.gatherAncestors _ _ _ _ _ _ _). by rewrite checkUncles_sync.
  - done.
  - unfold DefHandler.accumulateRewards, Dpos.accumulateRewards. by rewrite accumulateUncles_sync.
Qed.

Lemma engine_copy_in_sync_witness :
  let dpos := mkDPoSConfig ModeFake 3 in
  let block := DposClaims.sampleBlock in
  DefHandler.VerifyUncles DposClaims.sampleHash 0 dpos 1000 DposClaims.sampleChain block = None /\
  DefHandler.VerifyUncles DposClaims.sampleHash 0 dpos 1000 DposClaims.sampleChain block =
    Dpos.VerifyUncles DposClaims.sampleHash 0 1000 DposClaims.sampleChain block.
Proof.
  intros dpos block. split; [vm_compute; reflexivity|].
  refine (proj1 (proj2 (engine_copy_in_sync DposClaims.sampleHash 0 dpos 1000
            DposClaims.sampleChain block true (∅ : gmap Address Z) _ _))).
  - right. vm_compute. discriminate.
  - constructor; [|constructor]. right. vm_compute. discriminate.
Defined.
End DefHandlerProps.
