(* ===== verification/VerifyHeaders.v ===== *)
(** Concurrent batch verification of headers: [VerifyHeaders] of
    [consensus/dpos/handler.go].  The worker goroutines, the unbuffered [inputs]
    channel, the [done] channel of capacity [workers] and the collecting
    goroutine are a step relation; every interleaving is a sequence of steps. *)

From S2P Require Import Prelude Params Consensus.

Inductive vstatus := Running | Finished | Aborted.

(** [v_busy]: indices a worker is verifying; [v_fin]: verified, the worker is
    about to execute [done <- index]; [v_done]: buffered in [done]. *)
Record VState := mkVState {
  v_in : nat;
  v_busy : list nat;
  v_fin : list nat;
  v_done : list nat;
  v_errors : list error;
  v_checked : list bool;
  v_out : nat;
  v_emitted : list error;
  v_status : vstatus
}.

Section Batch.
Context (headerHash : Header -> Hash) (EmptyUncleHash : Hash).
Context (now : Z) (chain : ChainReader) (headers : list Header) (seals : list bool).
Context (workers : nat).

Notation n := (length headers).
Notation verify := (Dpos.verifyHeaderWorker headerHash EmptyUncleHash now chain headers seals).

(** The state when the goroutines have been started. *)
Definition vinit : VState :=
  mkVState 0 [] [] [] (replicate n None) (replicate n false) 0 [] Running.

(** [for ...; checked[out]; out++]: forward every verdict that is next in order. *)
Fixpoint drain (fuel : nat) (errors : list error) (checked : list bool)
    (out : nat) (emitted : list error) : nat * list error * vstatus :=
  match fuel with
  | O => (out, emitted, Running)
  | S fuel =>
      if default false (checked !! out) then
        let emitted := emitted ++ [default None (errors !! out)] in
        if (out =? n - 1)%nat then (out, emitted, Finished)
        else drain fuel errors checked (S out) emitted
      else (out, emitted, Running)
  end.

(** [case index := <-done] of the collecting goroutine. *)
Definition collect (s : VState) (index : nat) (rest : list nat) : VState :=
  let checked := <[index := true]> (v_checked s) in
  let '(out, emitted, status) := drain n (v_errors s) checked (v_out s) (v_emitted s) in
  mkVState (v_in s) (v_busy s) (v_fin s) rest (v_errors s) checked out emitted status.

(** The goroutines, started when there are headers and the engine is not a fake one (whose
    early return puts a nil per header into a channel of that size). *)
Inductive vstep : VState -> VState -> Prop :=
| step_send s :
    v_status s = Running -> (v_in s < n)%nat ->
    (length (v_busy s) + length (v_fin s) < workers)%nat ->
    vstep s (mkVState (S (v_in s)) (v_in s :: v_busy s) (v_fin s) (v_done s) (v_errors s)
               (v_checked s) (v_out s) (v_emitted s) (v_status s))
| step_verify s l1 i l2 e :
    v_busy s = l1 ++ i :: l2 -> verify i = Ret e ->
    vstep s (mkVState (v_in s) (l1 ++ l2) (i :: v_fin s) (v_done s) (<[i := e]> (v_errors s))
               (v_checked s) (v_out s) (v_emitted s) (v_status s))
| step_report s l1 i l2 :
    v_fin s = l1 ++ i :: l2 -> (length (v_done s) < workers)%nat ->
    vstep s (mkVState (v_in s) (v_busy s) (l1 ++ l2) (v_done s ++ [i]) (v_errors s)
               (v_checked s) (v_out s) (v_emitted s) (v_status s))
| step_collect s i rest :
    v_status s = Running -> v_done s = i :: rest -> vstep s (collect s i rest)
| step_abort s :
    v_status s = Running ->
    vstep s (mkVState (v_in s) (v_busy s) (v_fin s) (v_done s) (v_errors s)
               (v_checked s) (v_out s) (v_emitted s) Aborted).

(** *** Every index gets a verdict *)

Definition verdict (i : nat) : error :=
  match verify i with Ret e => e | Panic => None end.

Lemma verify_total i :
  (n <= length seals)%nat -> (i < n)%nat -> verify i = Ret (verdict i).
Proof.
  intros Hs Hi. unfold verdict, Dpos.verifyHeaderWorker.
  destruct (lookup_lt_is_Some_2 headers i Hi) as [h ->]. simpl.
  destruct (lookup_lt_is_Some_2 seals i ltac:(lia)) as [b ->].
  destruct i as [|i]; simpl.
  - by repeat case_match.
  - destruct (lookup_lt_is_Some_2 headers i ltac:(lia)) as [p ->]. simpl.
    by repeat case_match.
Qed.

(** *** Invariant of the reachable states *)

Record VInv (s : VState) : Prop := {
  vi_in : (v_in s <= n)%nat;
  vi_lt : Forall (fun i => (i < n)%nat) (v_busy s ++ v_fin s ++ v_done s);
  vi_len : length (v_errors s) = n /\ length (v_checked s) = n;
  vi_cap : (length (v_busy s) + length (v_fin s) <= workers)%nat;
  vi_err : forall i, i ∈ v_fin s ++ v_done s \/ v_checked s !! i = Some true ->
           v_errors s !! i = Some (verdict i);
  vi_all : forall i, (i < v_in s)%nat ->
           i ∈ v_busy s ++ v_fin s ++ v_done s \/ v_checked s !! i = Some true;
  vi_emit : v_emitted s = verdict <$> seq 0 (length (v_emitted s));
  vi_out : match v_status s with
           | Running => v_out s = length (v_emitted s) /\
                        (v_out s < n)%nat /\ v_checked s !! v_out s <> Some true
           | Finished => length (v_emitted s) = n
           | Aborted => (length (v_emitted s) <= n)%nat
           end
}.

Lemma seq_verdict_snoc k : verdict <$> seq 0 (S k) = (verdict <$> seq 0 k) ++ [verdict k].
Proof. by rewrite seq_S, fmap_app. Qed.

Lemma drain_spec fuel errors checked out emitted out' emitted' st :
  (forall i, checked !! i = Some true -> errors !! i = Some (verdict i)) ->
  (out < n)%nat -> (n - out <= fuel)%nat -> length emitted = out ->
  emitted = verdict <$> seq 0 out ->
  drain fuel errors checked out emitted = (out', emitted', st) ->
  emitted' = verdict <$> seq 0 (length emitted') /\
  match st with
  | Running => out' = length emitted' /\ (out' < n)%nat /\ checked !! out' <> Some true
  | Finished => length emitted' = n
  | Aborted => False
  end.
Proof.
  intros Herr. revert out emitted.
  induction fuel as [|fuel IH]; intros out emitted Hlt Hfuel Hlen Hem; [lia|]. simpl.
  destruct (checked !! out) as [[]|] eqn:Hc; simpl;
    [|intros [= <- <- <-]; rewrite Hlen; split_and!; congruence..].
  rewrite (Herr _ Hc). simpl.
  assert (emitted ++ [verdict out] = verdict <$> seq 0 (S out)) as Hsn
    by (by rewrite seq_verdict_snoc, Hem).
  destruct (Nat.eqb_spec out (n - 1)) as [E|E].
  - intros [= <- <- <-]. rewrite length_app, Hlen. simpl.
    replace (out + 1)%nat with (S out) by lia. split; [done|lia].
  - intros Hd. eapply IH; [..|exact Hd]; [lia|lia| |done]. rewrite length_app. simpl. lia.
Qed.

Lemma vinit_inv : (0 < n)%nat -> VInv vinit.
Proof.
  intros Hn. split; simpl; try done; try lia.
  - by rewrite !length_replicate.
  - intros i [?%elem_of_nil|H]; [done|]. apply lookup_replicate in H. naive_solver.
  - split_and!; [done|done|]. intros H. apply lookup_replicate in H. naive_solver.
Qed.

(** Inserting a verdict keeps every recorded verdict right. *)
Lemma insert_verdict (errors : list error) i j :
  (i < length errors)%nat ->
  (i = j \/ errors !! j = Some (verdict j)) ->
  <[i := verdict i]> errors !! j = Some (verdict j).
Proof.
  intros Hi Hj. destruct (decide (i = j)) as [->|Hne].
  - by apply list_lookup_insert_eq.
  - rewrite list_lookup_insert_ne by done. naive_solver.
Qed.

Lemma vstep_inv s s' : (n <= length seals)%nat -> VInv s -> vstep s s' -> VInv s'.
Proof.
  intros Hs [Hin Hlt [Hle Hlc] Hcap Herr Hall Hem Hout] Hstep.
  destruct Hstep as [s Hr Hi Hw|s l1 i l2 e Hb Hv|s l1 i l2 Hf Hd|s i rest Hr Hd|s Hr].
  - split; simpl; try done; try lia.
    + by constructor.
    + intros j Hj. destruct (decide (j = v_in s)) as [->|]; [set_solver|].
      destruct (Hall j ltac:(lia)); set_solver.
  - rewrite Hb in *.
    assert (i < n)%nat as Hi by (rewrite !Forall_app, Forall_cons in Hlt; naive_solver).
    rewrite verify_total in Hv by done. simplify_eq.
    split; simpl; try done; try lia.
    + rewrite Forall_forall in Hlt |- *. intros x Hx. apply Hlt. set_solver.
    + by rewrite length_insert.
    + rewrite length_app in *. simpl in *. lia.
    + intros j Hj. apply insert_verdict; [lia|].
      destruct (decide (i = j)); [by left|right]. apply Herr. set_solver.
    + intros j Hj. destruct (Hall j Hj); set_solver.
  - rewrite Hf in *. split; simpl; try done; try lia.
    + rewrite Forall_forall in Hlt |- *. intros x Hx. apply Hlt. set_solver.
    + rewrite length_app in *. simpl in *. lia.
    + intros j Hj. apply Herr. set_solver.
    + intros j Hj. destruct (Hall j Hj); set_solver.
  - rewrite Hr in Hout. destruct Hout as (Ho & Hon & Hck). rewrite Hd in *.
    assert (i < n)%nat as Hi by (rewrite !Forall_app, Forall_cons in Hlt; naive_solver).
    assert (forall j, <[i:=true]> (v_checked s) !! j = Some true -> v_errors s !! j = Some (verdict j))
      as Herr'.
    { intros j Hj. apply Herr. destruct (decide (i = j)) as [->|Hne]; [left; set_solver|].
      rewrite list_lookup_insert_ne in Hj by done. by right. }
    unfold collect. destruct (drain _ _ _ _ _) as [[out em] st] eqn:Hdr.
    eapply drain_spec in Hdr as [Hem' Hst]; [|done|done|lia|done|by rewrite Ho].
    split; simpl; try done.
    + rewrite Forall_forall in Hlt |- *. intros x Hx. apply Hlt. set_solver.
    + by rewrite length_insert.
    + intros j [Hj|Hj]; [|by apply Herr']. apply Herr. left. set_solver.
    + intros j Hj. destruct (decide (j = i)) as [->|Hne].
      { right. apply list_lookup_insert_eq. lia. }
      rewrite list_lookup_insert_ne by done. destruct (Hall j Hj); set_solver.
    + by destruct st.
  - split; simpl; try done. rewrite Hr in Hout. lia.
Qed.

Lemma reachable_inv s :
  (0 < n)%nat -> (n <= length seals)%nat -> rtc vstep vinit s -> VInv s.
Proof.
  intros Hn Hs. apply (rtc_ind_r VInv vinit); [by apply vinit_inv|].
  intros y z _ Hyz Hy. by eapply vstep_inv.
Qed.

(** *** Progress and termination *)

(** Work left to do; every step but an abort consumes some of it. *)
Definition vmeasure (s : VState) : nat :=
  4 * (n - v_in s) + 3 * length (v_busy s) + 2 * length (v_fin s) + length (v_done s)
  + match v_status s with Running => 1 | _ => 0 end.

Lemma vstep_measure s s' : vstep s s' -> (vmeasure s' < vmeasure s)%nat.
Proof.
  destruct 1 as [s Hr Hi Hw|s l1 i l2 e Hb Hv|s l1 i l2 Hf Hd|s i rest Hr Hd|s Hr];
    unfold vmeasure; simpl.
  - lia.
  - rewrite Hb, !length_app. simpl. lia.
  - rewrite Hf, !length_app. simpl. lia.
  - unfold collect. destruct (drain _ _ _ _ _) as [[out em] st]. simpl.
    rewrite Hd, Hr. simpl. destruct st; lia.
  - rewrite Hr. lia.
Qed.

Lemma running_progress s :
  (0 < workers)%nat -> (n <= length seals)%nat -> VInv s -> v_status s = Running ->
  exists s', vstep s s'.
Proof.
  intros Hw Hs Hinv Hr. destruct Hinv as [Hin Hlt _ Hcap _ Hall _ Hout].
  rewrite Hr in Hout. destruct Hout as (_ & Hon & Hck).
  destruct (v_done s) as [|i rest] eqn:Hd; [|eexists; by eapply step_collect].
  destruct (v_fin s) as [|i l] eqn:Hf.
  2:{ eexists. apply (step_report s [] i l); [done|]. by rewrite Hd. }
  destruct (v_busy s) as [|i l] eqn:Hb.
  2:{ eexists. apply (step_verify s [] i l (verdict i)); [done|].
      apply verify_total; [done|]. rewrite ?Forall_app, ?Forall_cons in Hlt. naive_solver. }
  destruct (decide (v_in s < n)%nat).
  - eexists. apply step_send; [done|done|]. rewrite Hb, Hf. done.
  - destruct (Hall (v_out s) ltac:(lia)) as [?%elem_of_nil|?]; done.
Qed.
End Batch.

Module BatchClaims.

(** C15: in every interleaving of the workers, the collector and the caller, the
    results channel holds the verdicts of a prefix of the headers in the order of
    the input slice; the system never deadlocks (a running collector always has a
    step), every run is finite (each step consumes some of a fixed amount of
    work), and a run that ends without an abort has delivered every verdict. *)
Theorem batch_verdicts_in_order headerHash EmptyUncleHash now chain headers seals workers s :
  (0 < length headers)%nat -> (length headers <= length seals)%nat -> (0 < workers)%nat ->
  let step := vstep headerHash EmptyUncleHash now chain headers seals workers in
  let verdict := verdict headerHash EmptyUncleHash now chain headers seals in
  rtc step (vinit headers) s ->
  v_emitted s = verdict <$> seq 0 (length (v_emitted s)) /\
  (v_status s = Running -> exists s', step s s') /\
  (forall s', step s s' -> (vmeasure headers s' < vmeasure headers s)%nat) /\
  (nf step s -> v_status s = Aborted \/ v_emitted s = verdict <$> seq 0 (length headers)).
Proof.
  intros Hn Hs Hw step verdict' Hr.
  pose proof (reachable_inv _ _ _ _ _ _ _ _ Hn Hs Hr) as Hinv.
  assert (v_status s = Running -> exists s', step s s') as Hprog.
  { intros. by eapply running_progress. }
  split_and!; [apply Hinv|done|intros s'; apply vstep_measure|].
  intros Hnf. destruct (v_status s) eqn:E; [|right|by left].
  - destruct (Hprog eq_refl) as [s' Hs']. exfalso. apply Hnf. by exists s'.
  - destruct Hinv as [_ _ _ _ _ _ Hem Hout]. rewrite E in Hout. by rewrite Hem, Hout.
Qed.

(** Two headers, one worker, the state after the first index was handed out. *)
Lemma batch_verdicts_in_order_witness :
  let h := DposClaims.sampleHeader 1 5 5000 131072 in
  let hs := [h; h] in
  exists s, vstep (fun _ => 0) 0 10 (mkChainReader (fun _ _ => None) (fun _ _ => None)) hs
              [true; true] 1 (vinit hs) s /\ v_busy s = [0%nat] /\
            (vmeasure hs s < vmeasure hs (vinit hs))%nat.
Proof.
  intros h hs. eexists. split; [|split].
  - apply step_send; simpl; [done|lia|lia].
  - reflexivity.
  - eapply (batch_verdicts_in_order (fun _ => 0) 0 10
              (mkChainReader (fun _ _ => None) (fun _ _ => None)) hs [true; true] 1 (vinit hs));
      [simpl; lia|simpl; lia|lia|apply rtc_refl|].
    apply step_send; simpl; [done|lia|lia].
Defined.
End BatchClaims.
