(* ===== verification/ChainDb.v ===== *)
(** The schema of the chain database ([core/database_util.go]): keys, encodings and the
    accessors of headers, difficulties, the canonical index and the other records, over
    a key-value store.  [log.Crit], which ends the process, is a panic; [db.Put] and
    [db.Delete] do not fail. *)

From S2P Require Import Prelude Params Bytes RlpEncode RlpDecode Consensus.

Module ChainDb.

Abbreviation DB := (gmap bytes bytes).

(** [data, _ := db.Get(key)]: nil if the key is missing. *)
Definition get (db : DB) (key : bytes) : bytes := default [] (db !! key).

(** ** Keys *)

Definition headHeaderKey : bytes := string_bytes "LastHeader".
Definition headBlockKey : bytes := string_bytes "LastBlock".
Definition headFastKey : bytes := string_bytes "LastFast".
Definition trieSyncKey : bytes := string_bytes "TrieSync".
Definition headerPrefix : bytes := string_bytes "h".
Definition tdSuffix : bytes := string_bytes "t".
Definition numSuffix : bytes := string_bytes "n".
Definition blockHashPrefix : bytes := string_bytes "H".
Definition bodyPrefix : bytes := string_bytes "b".
Definition blockReceiptsPrefix : bytes := string_bytes "r".
Definition lookupPrefix : bytes := string_bytes "l".
Definition bloomBitsPrefix : bytes := string_bytes "B".
Definition configPrefix : bytes := string_bytes "ethereum-config-".
Definition versionKey : bytes := string_bytes "BlockchainVersion".

Definition encodeBlockNumber (number : Z) : bytes := be_bytes 8 number.

Definition canonKey (number : Z) : bytes := headerPrefix ++ encodeBlockNumber number ++ numSuffix.
Definition numberKey (hash : Hash) : bytes := blockHashPrefix ++ hash_bytes hash.
Definition headerKey (hash : Hash) (number : Z) : bytes := headerPrefix ++ encodeBlockNumber number ++ hash_bytes hash.
Definition tdKey (hash : Hash) (number : Z) : bytes := headerPrefix ++ encodeBlockNumber number ++ hash_bytes hash ++ tdSuffix.
Definition blockBodyKey (hash : Hash) (number : Z) : bytes := bodyPrefix ++ encodeBlockNumber number ++ hash_bytes hash.
Definition receiptsKey (hash : Hash) (number : Z) : bytes := blockReceiptsPrefix ++ encodeBlockNumber number ++ hash_bytes hash.
Definition lookupKey (hash : Hash) : bytes := lookupPrefix ++ hash_bytes hash.
Definition bloomBitsKey (bit section : Z) (head : Hash) : bytes := bloomBitsPrefix ++ be_bytes 2 bit ++ be_bytes 8 section ++ hash_bytes head.
Definition configKey (hash : Hash) : bytes := configPrefix ++ hash_bytes hash.

(** ** The encoding of a header *)

Definition header_type : Rlp.typ := Rlp.TStruct (map (fun t => (t, Rlp.notags))
  [Rlp.TByteArray 32; Rlp.TByteArray 32; Rlp.TByteArray 20; Rlp.TByteArray 32; Rlp.TByteArray 32; Rlp.TByteArray 32; Rlp.TByteArray 256;
   Rlp.TBig; Rlp.TBig; Rlp.TUint 64; Rlp.TUint 64; Rlp.TBig; Rlp.TBytes; Rlp.TByteArray 32; Rlp.TByteArray 8;
   Rlp.TUint 64; Rlp.TUint 64; Rlp.TString; Rlp.TByteArray 20; Rlp.TByteArray 32]).

Definition header_val (h : Header) : Rlp.val := Rlp.VList
  [Rlp.VBytes (hash_bytes (ParentHash h)); Rlp.VBytes (hash_bytes (UncleHash h)); Rlp.VBytes (address_bytes (Coinbase h));
   Rlp.VBytes (hash_bytes (Root h)); Rlp.VBytes (hash_bytes (TxHash h)); Rlp.VBytes (hash_bytes (ReceiptHash h)); Rlp.VBytes (be_bytes 256 (Bloom h));
   Rlp.VBig (Some (Difficulty h)); Rlp.VBig (Some (Number h)); Rlp.VUint (GasLimit h); Rlp.VUint (GasUsed h); Rlp.VBig (Some (Time h));
   Rlp.VBytes (Extra h); Rlp.VBytes (hash_bytes (MixDigest h)); Rlp.VBytes (be_bytes 8 (Nonce h));
   Rlp.VUint (Round h); Rlp.VUint (Round2 h); Rlp.VBytes (string_bytes (PresidentId h)); Rlp.VBytes (address_bytes (DAppID h)); Rlp.VBytes (hash_bytes (DAppMainHash h))].

Definition header_of_val (v : Rlp.val) : option Header :=
  match v with
  | Rlp.VList [Rlp.VBytes ph; Rlp.VBytes uh; Rlp.VBytes cb; Rlp.VBytes rt; Rlp.VBytes th; Rlp.VBytes rh; Rlp.VBytes bl;
      Rlp.VBig (Some df); Rlp.VBig (Some nb); Rlp.VUint gl; Rlp.VUint gu; Rlp.VBig (Some tm); Rlp.VBytes ex; Rlp.VBytes mx; Rlp.VBytes nc;
      Rlp.VUint r1; Rlp.VUint r2; Rlp.VBytes pid; Rlp.VBytes did; Rlp.VBytes dmh] =>
      Some (mkHeader (be_value ph) (be_value uh) (be_value cb) (be_value rt) (be_value th) (be_value rh) (be_value bl) df nb gl gu tm ex (be_value mx) (be_value nc)
        r1 r2 (bytes_string pid) (be_value did) (be_value dmh))
  | _ => None
  end.

Definition EncodeHeader (h : Header) : outcome (Rlp.rlp_error + bytes) := Rlp.EncodeToBytes header_type (header_val h).

Section Hashing.
Context (Keccak256 : bytes -> Hash).

(** [Header.Hash]: an error of the encoder leaves the hasher empty. *)
Definition HeaderHash (h : Header) : Hash := match EncodeHeader h with Ret (inr b) => Keccak256 b | _ => Keccak256 [] end.

(** ** Reading *)

Definition read_hash (data : bytes) : Hash := match data with [] => 0 | _ => BytesToHash data end.
Definition GetCanonicalHash (db : DB) (number : Z) : Hash := read_hash (get db (canonKey number)).

(** [binary.BigEndian.Uint64] panics on fewer than eight bytes. *)
Definition be_Uint64 (data : bytes) : outcome Z := if len data <? 8 then Panic else Ret (be_value (take 8 data)).

Definition GetBlockNumber (db : DB) (hash : Hash) : outcome Z := be_Uint64 (get db (numberKey hash)).

(** The number, and whether there was an error, which there is for a missing key. *)
Definition GetBlockNumber2 (db : DB) (hash : Hash) : outcome (Z * bool) :=
  match db !! numberKey hash with
  | None => Ret (0, true)
  | Some [] => Ret (0, false)
  | Some data => n ← be_Uint64 data; Ret (n, false)
  end.

Definition GetHeadHeaderHash (db : DB) : Hash := read_hash (get db headHeaderKey).
Definition GetHeadBlockHash (db : DB) : Hash := read_hash (get db headBlockKey).
Definition GetHeadFastBlockHash (db : DB) : Hash := read_hash (get db headFastKey).
Definition GetTrieSyncProgress (db : DB) : Z := big_Uint64 (be_value (get db trieSyncKey)).

Definition GetHeaderRLP (db : DB) (hash : Hash) (number : Z) : bytes := get db (headerKey hash number).
Definition GetHeader (db : DB) (hash : Hash) (number : Z) : option Header :=
  match GetHeaderRLP db hash number with
  | [] => None
  | data => match RlpStream.Decode header_type data with inl _ => None | inr v => header_of_val v end
  end.

Definition GetBodyRLP (db : DB) (hash : Hash) (number : Z) : bytes := get db (blockBodyKey hash number).

Definition GetTd (db : DB) (hash : Hash) (number : Z) : option Z :=
  match get db (tdKey hash number) with
  | [] => None
  | data => match RlpStream.Decode Rlp.TBig data with inr (Rlp.VBig (Some td)) => Some td | _ => None end
  end.

Record TxLookupEntry := MkLookup { leBlockHash : Hash; leBlockIndex : Z; leIndex : Z }.
Definition lookup_type : Rlp.typ := Rlp.TStruct (map (fun t => (t, Rlp.notags)) [Rlp.TByteArray 32; Rlp.TUint 64; Rlp.TUint 64]).
Definition lookup_val (e : TxLookupEntry) : Rlp.val := Rlp.VList [Rlp.VBytes (hash_bytes (leBlockHash e)); Rlp.VUint (leBlockIndex e); Rlp.VUint (leIndex e)].

Definition GetTxLookupEntry (db : DB) (hash : Hash) : Hash * Z * Z :=
  match get db (lookupKey hash) with
  | [] => (0, 0, 0)
  | data =>
      match RlpStream.DecodeBytes lookup_type data with
      | inr (Rlp.VList [Rlp.VBytes h; Rlp.VUint n; Rlp.VUint i]) => (be_value h, n, i)
      | _ => (0, 0, 0)
      end
  end.

Definition GetBloomBits (db : DB) (bit section : Z) (head : Hash) : option bytes := db !! bloomBitsKey bit section head.

Definition GetBlockChainVersion (db : DB) : Z :=
  match RlpStream.DecodeBytes (Rlp.TUint 64) (get db versionKey) with inr (Rlp.VUint v) => i64 v | _ => 0 end.

(** ** Writing *)

Definition WriteCanonicalHash (db : DB) (hash : Hash) (number : Z) : DB := <[canonKey number := hash_bytes hash]> db.
Definition WriteHeadHeaderHash (db : DB) (hash : Hash) : DB := <[headHeaderKey := hash_bytes hash]> db.
Definition WriteHeadBlockHash (db : DB) (hash : Hash) : DB := <[headBlockKey := hash_bytes hash]> db.
Definition WriteHeadFastBlockHash (db : DB) (hash : Hash) : DB := <[headFastKey := hash_bytes hash]> db.
Definition WriteTrieSyncProgress (db : DB) (count : Z) : DB := <[trieSyncKey := big_Bytes count]> db.

(** An error of the encoder, or the database after the writes. *)
Definition WriteHeader (db : DB) (header : Header) : outcome (Rlp.rlp_error + DB) :=
  r ← EncodeHeader header;
  match r with
  | inl e => Ret (inl e)
  | inr data =>
      let hash := HeaderHash header in
      let num := big_Uint64 (Number header) in
      let db := <[numberKey hash := encodeBlockNumber num]> db in
      Ret (inr (<[headerKey hash num := data]> db))
  end.

Definition WriteBodyRLP (db : DB) (hash : Hash) (number : Z) (rlp : bytes) : DB := <[blockBodyKey hash number := rlp]> db.

Definition WriteTd (db : DB) (hash : Hash) (number : Z) (td : Z) : outcome (Rlp.rlp_error + DB) :=
  r ← Rlp.EncodeToBytes Rlp.TBig (Rlp.VBig (Some td));
  match r with inl e => Ret (inl e) | inr data => Ret (inr (<[tdKey hash number := data]> db)) end.

(** The transactions of the block given by their hashes; a failure leaves the entries
    written before it. *)
Fixpoint write_lookups (blockHash : Hash) (number i : Z) (txs : list Hash) (db : DB) : outcome (DB * option Rlp.rlp_error) :=
  match txs with
  | [] => Ret (db, None)
  | tx :: txs =>
      r ← Rlp.EncodeToBytes lookup_type (lookup_val (MkLookup blockHash number i));
      match r with
      | inl e => Ret (db, Some e)
      | inr data => write_lookups blockHash number (i + 1) txs (<[lookupKey tx := data]> db)
      end
  end.
Definition WriteTxLookupEntries (db : DB) (blockHash : Hash) (number : Z) (txs : list Hash) : outcome (DB * option Rlp.rlp_error) :=
  write_lookups blockHash number 0 txs db.

Definition WriteBloomBits (db : DB) (bit section : Z) (head : Hash) (bits : bytes) : DB := <[bloomBitsKey bit section head := bits]> db.

Definition WriteBlockChainVersion (db : DB) (vsn : Z) : outcome DB :=
  r ← Rlp.EncodeToBytes (Rlp.TUint 64) (Rlp.VUint (u64 vsn));
  Ret (<[versionKey := match r with inr enc => enc | inl _ => [] end]> db).

(** A block is its header and the encoding of its body. *)
Definition WriteBlock (db : DB) (header : Header) (body : bytes) : outcome (Rlp.rlp_error + DB) :=
  WriteHeader (WriteBodyRLP db (HeaderHash header) (big_Uint64 (Number header)) body) header.

(** [data] is the encoding of the receipts, [json] that of the configuration. *)
Definition WriteBlockReceipts (db : DB) (hash : Hash) (number : Z) (data : bytes) : DB := <[receiptsKey hash number := data]> db.
Definition WriteChainConfig (db : DB) (hash : Hash) (json : option bytes) : DB := match json with None => db | Some j => <[configKey hash := j]> db end.
Definition GetChainConfig (db : DB) (hash : Hash) : option bytes := match get db (configKey hash) with [] => None | j => Some j end.

(** ** Deleting *)

Definition DeleteCanonicalHash (db : DB) (number : Z) : DB := delete (canonKey number) db.
Definition DeleteHeader (db : DB) (hash : Hash) (number : Z) : DB := delete (headerKey hash number) (delete (numberKey hash) db).
Definition DeleteBody (db : DB) (hash : Hash) (number : Z) : DB := delete (blockBodyKey hash number) db.
Definition DeleteTd (db : DB) (hash : Hash) (number : Z) : DB := delete (tdKey hash number) db.
Definition DeleteBlockReceipts (db : DB) (hash : Hash) (number : Z) : DB := delete (receiptsKey hash number) db.
Definition DeleteTxLookupEntry (db : DB) (hash : Hash) : DB := delete (lookupKey hash) db.
Definition DeleteBlock (db : DB) (hash : Hash) (number : Z) : DB :=
  DeleteTd (DeleteBody (DeleteHeader (DeleteBlockReceipts db hash number) hash number) hash number) hash number.

(** ** FindCommonAncestor *)

Definition parent_in (db : DB) (h : Header) : option Header := GetHeader db (ParentHash h) (u64 (big_Uint64 (Number h) - 1)).

(** The first loop: go back from [a] while its number is above [bn]. *)
Fixpoint descend (fuel : nat) (db : DB) (a : Header) (bn : Z) : outcome (option Header) :=
  match fuel with
  | O => Panic
  | S fuel => if bn <? big_Uint64 (Number a) then match parent_in db a with None => Ret None | Some a => descend fuel db a bn end else Ret (Some a)
  end.

(** The last loop: go back from both until the hashes agree. *)
Fixpoint meet (fuel : nat) (db : DB) (a b : Header) : outcome (option Header) :=
  match fuel with
  | O => Panic
  | S fuel =>
      if HeaderHash a =? HeaderHash b then Ret (Some a)
      else match parent_in db a with
           | None => Ret None
           | Some a => match parent_in db b with None => Ret None | Some b => meet fuel db a b end
           end
  end.

Definition FindCommonAncestor (db : DB) (a b : Header) : outcome (option Header) :=
  let fuel := S (Z.to_nat (Z.max (big_Uint64 (Number a)) (big_Uint64 (Number b)))) in
  a ← descend fuel db a (big_Uint64 (Number b));
  match a with
  | None => Ret None
  | Some a =>
      b ← descend fuel db b (big_Uint64 (Number a));
      match b with None => Ret None | Some b => meet fuel db a b end
  end.

End Hashing.

End ChainDb.
