(* ===== verification/ChainDbProps.v ===== *)
(** The chain database: every record reads back as it was written, and the keys of
    different records never meet. *)

From S2P Require Import Prelude Params Bytes RlpEncode RlpDecode RlpRoundtrip Consensus ChainDb.
Import ChainDb.

Module ChainDbProps.

(** ** Keys *)

Inductive item :=
| ICanon (n : Z) | INumber (x : Hash) | IHeader (x : Hash) (n : Z) | ITd (x : Hash) (n : Z) | IBody (x : Hash) (n : Z) | IReceipts (x : Hash) (n : Z)
| ILookup (x : Hash) | IBloom (bit section : Z) (x : Hash) | IHeadHeader | IHeadBlock | IHeadFast | ITrieSync | IVersion | IConfig (x : Hash).

#[export] Instance item_eq_dec : EqDecision item.
Proof. solve_decision. Defined.

Definition key (i : item) : bytes :=
  match i with
  | ICanon n => canonKey n | INumber x => numberKey x | IHeader x n => headerKey x n | ITd x n => tdKey x n | IBody x n => blockBodyKey x n
  | IReceipts x n => receiptsKey x n | ILookup x => lookupKey x | IBloom b s x => bloomBitsKey b s x
  | IHeadHeader => headHeaderKey | IHeadBlock => headBlockKey | IHeadFast => headFastKey | ITrieSync => trieSyncKey | IVersion => versionKey | IConfig x => configKey x
  end.

Definition is_hash (x : Hash) : Prop := 0 <= x < 2 ^ 256.
#[export] Instance is_hash_dec x : Decision (is_hash x).
Proof. unfold is_hash. apply _. Defined.

Definition item_ok (i : item) : Prop :=
  match i with
  | ICanon n => is_u64 n
  | INumber x | ILookup x | IConfig x => is_hash x
  | IHeader x n | ITd x n | IBody x n | IReceipts x n => is_hash x /\ is_u64 n
  | IBloom b s x => 0 <= b < 2 ^ 16 /\ is_u64 s /\ is_hash x
  | _ => True
  end.

Lemma be_bytes_inj n a b : 0 <= a < 256 ^ Z.of_nat n -> 0 <= b < 256 ^ Z.of_nat n -> be_bytes n a = be_bytes n b -> a = b.
Proof. intros Ha Hb E. apply (f_equal be_value) in E. by rewrite !be_value_be_bytes, !Z.mod_small in E. Qed.

Lemma encodeBlockNumber_inj a b : is_u64 a -> is_u64 b -> encodeBlockNumber a = encodeBlockNumber b -> a = b.
Proof. intros Ha Hb. apply be_bytes_inj; change (256 ^ Z.of_nat 8) with (2 ^ 64); go_lia. Qed.
Lemma hash_bytes_is_inj a b : is_hash a -> is_hash b -> hash_bytes a = hash_bytes b -> a = b.
Proof. intros Ha Hb. apply be_bytes_inj; change (256 ^ Z.of_nat HashLength) with (2 ^ 256); done. Qed.

Lemma length_encodeBlockNumber n : length (encodeBlockNumber n) = 8%nat.
Proof. apply length_be_bytes. Qed.
Lemma length_hash_bytes x : length (hash_bytes x) = 32%nat.
Proof. apply length_be_bytes. Qed.

(** The number of bytes and the first byte tell the kinds of records apart. *)
Definition shape (i : item) : Z * nat :=
  match i with
  | ICanon _ => (104, 10%nat) | INumber _ => (72, 33%nat) | IHeader _ _ => (104, 41%nat) | ITd _ _ => (104, 42%nat) | IBody _ _ => (98, 41%nat)
  | IReceipts _ _ => (114, 41%nat) | ILookup _ => (108, 33%nat) | IBloom _ _ _ => (66, 43%nat)
  | IHeadHeader => (76, 10%nat) | IHeadBlock => (76, 9%nat) | IHeadFast => (76, 8%nat) | ITrieSync => (84, 8%nat) | IVersion => (66, 17%nat) | IConfig _ => (101, 48%nat)
  end.

Lemma key_shape i : (default 0 (head (key i)), length (key i)) = shape i.
Proof.
  destruct i; try done; cbn [key]; unfold canonKey, numberKey, headerKey, tdKey, blockBodyKey, receiptsKey, lookupKey, bloomBitsKey, configKey;
    rewrite !length_app, ?length_encodeBlockNumber, ?length_hash_bytes, ?length_be_bytes; done.
Qed.

Lemma key_inj i j : item_ok i -> item_ok j -> key i = key j -> i = j.
Proof.
  intros Hi Hj E. assert (Hs : shape i = shape j) by (by rewrite <- !key_shape, E).
  destruct i, j; try (vm_compute in Hs; discriminate Hs); try done; cbn [key item_ok] in *; clear Hs;
    unfold canonKey, numberKey, headerKey, tdKey, blockBodyKey, receiptsKey, lookupKey, bloomBitsKey, configKey in E; apply app_inv_head in E.
  - apply app_inv_tail in E. by rewrite (encodeBlockNumber_inj n n0).
  - by rewrite (hash_bytes_is_inj x x0).
  - apply app_inj_1 in E as [E1 E2]; [|by rewrite !length_encodeBlockNumber]. destruct Hi, Hj. by rewrite (encodeBlockNumber_inj n n0), (hash_bytes_is_inj x x0).
  - apply app_inj_1 in E as [E1 E2]; [|by rewrite !length_encodeBlockNumber]. apply app_inv_tail in E2. destruct Hi, Hj. by rewrite (encodeBlockNumber_inj n n0), (hash_bytes_is_inj x x0).
  - apply app_inj_1 in E as [E1 E2]; [|by rewrite !length_encodeBlockNumber]. destruct Hi, Hj. by rewrite (encodeBlockNumber_inj n n0), (hash_bytes_is_inj x x0).
  - apply app_inj_1 in E as [E1 E2]; [|by rewrite !length_encodeBlockNumber]. destruct Hi, Hj. by rewrite (encodeBlockNumber_inj n n0), (hash_bytes_is_inj x x0).
  - by rewrite (hash_bytes_is_inj x x0).
  - destruct Hi as (? & ? & ?), Hj as (? & ? & ?). apply app_inj_1 in E as [E1 E]; [|by rewrite !length_be_bytes]. apply app_inj_1 in E as [E2 E3]; [|by rewrite !length_be_bytes].
    rewrite (be_bytes_inj 2 bit bit0) by done. by rewrite (encodeBlockNumber_inj section section0), (hash_bytes_is_inj x x0).
  - by rewrite (hash_bytes_is_inj x x0).
Qed.

(** Reading one record after another was written or deleted. *)
Lemma get_put_same (db : DB) i v : get (<[key i := v]> db) (key i) = v.
Proof. unfold get. by rewrite lookup_insert, decide_True. Qed.
Lemma get_put_other (db : DB) i j v : item_ok i -> item_ok j -> i <> j -> get (<[key i := v]> db) (key j) = get db (key j).
Proof. intros Hi Hj Hne. unfold get. rewrite lookup_insert_ne; [done|]. intros E. by apply Hne, key_inj. Qed.
Lemma get_del_same (db : DB) i : get (delete (key i) db) (key i) = [].
Proof. unfold get. by rewrite lookup_delete, decide_True. Qed.
Lemma get_del_other (db : DB) i j : item_ok i -> item_ok j -> i <> j -> get (delete (key i) db) (key j) = get db (key j).
Proof. intros Hi Hj Hne. unfold get. rewrite lookup_delete_ne; [done|]. intros E. by apply Hne, key_inj. Qed.

(** ** Headers *)

Record header_ok (h : Header) : Prop := {
  ho_hashes : Forall is_hash [ParentHash h; UncleHash h; Root h; TxHash h; ReceiptHash h; MixDigest h; DAppMainHash h];
  ho_addresses : Forall (fun a => 0 <= a < 2 ^ 160) [Coinbase h; DAppID h];
  ho_words : Forall is_u64 [GasLimit h; GasUsed h; Round h; Round2 h; Nonce h; Number h];
  ho_bloom : 0 <= Bloom h < 2 ^ 2048;
  ho_big : 0 <= Difficulty h /\ 0 <= Time h;
  ho_extra : is_bytes (Extra h);
  ho_size : forall b, RlpRef.enc header_type Rlp.notags (header_val h) = Ret (inr b) -> len b < 2 ^ 63
}.

Lemma be_bytes_ok n z : is_bytes (be_bytes n z) /\ length (be_bytes n z) = n.
Proof. split; [apply be_bytes_is_bytes|apply length_be_bytes]. Qed.

Lemma array_ok n z : (1 < n)%nat -> RlpCodec.rt_ok (Rlp.TByteArray n) Rlp.notags (Rlp.VBytes (be_bytes n z)).
Proof. intros Hn. cbn. destruct (be_bytes_ok n z) as [H1 H2]. split; [done|]. split; [done|]. intros E. rewrite E in H2. cbn in H2. lia. Qed.

Lemma header_rt_ok h : header_ok h -> RlpCodec.rt_ok header_type Rlp.notags (header_val h).
Proof.
  intros [_ _ Hw _ [Hd Ht] He _]. repeat (apply Forall_cons in Hw as [? Hw]). unfold header_type, header_val.
  cbn [map RlpCodec.rt_ok]. unfold hash_bytes, address_bytes, HashLength, AddressLength.
  repeat (split; [first [apply array_ok; lia|apply He|apply string_bytes_is_bytes|split; [by vm_compute; tauto|go_lia]|go_lia]|split; [done|]]). done.
Qed.

Lemma be_value_hash x : is_hash x -> be_value (hash_bytes x) = x.
Proof. intros Hx. unfold hash_bytes. rewrite be_value_be_bytes. by apply Z.mod_small. Qed.
Lemma be_value_address a : 0 <= a < 2 ^ 160 -> be_value (address_bytes a) = a.
Proof. intros Hx. unfold address_bytes. rewrite be_value_be_bytes. by apply Z.mod_small. Qed.
Lemma be_value_word n : is_u64 n -> be_value (encodeBlockNumber n) = n.
Proof. intros Hx. unfold encodeBlockNumber. rewrite be_value_be_bytes. apply Z.mod_small. change (256 ^ Z.of_nat 8) with (2 ^ 64). go_lia. Qed.
Lemma be_value_bloom n : 0 <= n < 2 ^ 2048 -> be_value (be_bytes 256 n) = n.
Proof. intros Hx. rewrite be_value_be_bytes. apply Z.mod_small. change (256 ^ Z.of_nat 256) with (2 ^ 2048). done. Qed.

Lemma header_of_header_val h : header_ok h -> header_of_val (header_val h) = Some h.
Proof.
  intros [Hh Ha Hw Hb _ _ _]. repeat (apply Forall_cons in Hh as [? Hh]). repeat (apply Forall_cons in Ha as [? Ha]). repeat (apply Forall_cons in Hw as [? Hw]).
  unfold header_of_val, header_val. rewrite !be_value_hash, !be_value_address, be_value_bloom, bytes_string_bytes by done.
  change (be_bytes 8 (Nonce h)) with (encodeBlockNumber (Nonce h)). rewrite be_value_word by done. by destruct h.
Qed.

Definition decode_header (data : bytes) : option Header :=
  match data with [] => None | data => match RlpStream.Decode header_type data with inl _ => None | inr v => header_of_val v end end.

Lemma header_roundtrip h : header_ok h -> exists data, EncodeHeader h = Ret (inr data) /\ data <> [] /\ decode_header data = Some h.
Proof.
  intros Hok. destruct (RlpClaims.encode_decode header_type (header_val h) (header_rt_ok h Hok)) as (b & He & Hne & Hd).
  destruct (Hd (ho_size h Hok b He)) as (E1 & _ & E3). exists b. split; [done|]. split; [done|].
  unfold decode_header. destruct b as [|z b]; [done|]. rewrite E3. by apply header_of_header_val.
Qed.

Lemma short_enc_str b : len b <= 50 -> len (RlpRef.enc_str b) < 2 ^ 63.
Proof.
  intros Hl. assert (Hh : forall n, 0 <= n <= 50 -> len (RlpRef.header 128 183 n) = 1).
  { intros n Hn. rewrite RlpEncodeProps.len_header by lia. destruct (n <? 56) eqn:E; [done|go_lia]. }
  pose proof (len_nonneg b). unfold RlpRef.enc_str. repeat case_match; subst; rewrite ?len_app, ?Hh by (rewrite ?len_cons in *; lia); rewrite ?len_cons, ?len_nil in *; lia.
Qed.

Lemma td_roundtrip td : 0 <= td < 2 ^ 400 -> exists data, Rlp.EncodeToBytes Rlp.TBig (Rlp.VBig (Some td)) = Ret (inr data) /\ data <> [] /\
  RlpStream.Decode Rlp.TBig data = inr (Rlp.VBig (Some td)).
Proof.
  intros Htd. destruct (RlpClaims.encode_decode Rlp.TBig (Rlp.VBig (Some td))) as (b & He & Hne & Hd); [cbn; lia|].
  exists b. destruct Hd as (? & _ & ?); [|done]. cbn in He. destruct (td <? 0) eqn:E; [go_lia|]. injection He as <-.
  assert (Hl : len (big_Bytes td) <= 50).
  { unfold big_Bytes. rewrite len_be_bytes, Z.abs_eq by lia. destruct (decide (td = 0)) as [->|Hn]; [by vm_compute|].
    pose proof (RlpEncodeProps.byte_len_le 50 td). change (256 ^ Z.of_nat 50) with (2 ^ 400) in *. lia. }
  apply (short_enc_str (big_Bytes td) Hl).
Qed.

(** ** What a write or a deletion changes *)

Section Views.
Context (Keccak256 : bytes -> Hash) (HK : forall b, is_hash (Keccak256 b)).
Abbreviation HeaderHash := (HeaderHash Keccak256).

Lemma HeaderHash_ok h : is_hash (HeaderHash h).
Proof using HK. unfold ChainDb.HeaderHash. repeat case_match; apply HK. Qed.

Lemma read_hash_bytes x : is_hash x -> read_hash (hash_bytes x) = x.
Proof. intros Hx. unfold read_hash. destruct (hash_bytes x) eqn:E; [by pose proof (length_hash_bytes x) as H; rewrite E in H|]. rewrite <- E. by apply BytesToHash_hash_bytes. Qed.

(** The views of the database that the header chain uses. *)
Definition canon_of (db : DB) (n : Z) : Hash := GetCanonicalHash db n.
Definition number_at (db : DB) (x : Hash) : option bytes := db !! numberKey x.
Definition header_at (db : DB) (x : Hash) (n : Z) : option bytes := db !! headerKey x n.

Record same_headers (db db' : DB) : Prop := {
  same_header : forall x n, is_hash x -> is_u64 n -> GetHeader db' x n = GetHeader db x n;
  same_td : forall x n, is_hash x -> is_u64 n -> GetTd db' x n = GetTd db x n;
  same_number : forall x, is_hash x -> number_at db' x = number_at db x;
  same_raw : forall x n, is_hash x -> is_u64 n -> header_at db' x n = header_at db x n
}.

Lemma same_headers_refl db : same_headers db db.
Proof. done. Qed.
Lemma same_headers_trans a b c : same_headers a b -> same_headers b c -> same_headers a c.
Proof. intros [] []. split; intros; by etransitivity; auto. Qed.

Lemma put_same_headers (db : DB) i v : item_ok i -> match i with IHeader _ _ | ITd _ _ | INumber _ => False | _ => True end -> same_headers db (<[key i := v]> db).
Proof.
  intros Hi Hk. split; intros.
  - unfold GetHeader, GetHeaderRLP. change (headerKey x n) with (key (IHeader x n)). rewrite get_put_other; [done|done|by split|]. by intros ->.
  - unfold GetTd. change (tdKey x n) with (key (ITd x n)). rewrite get_put_other; [done|done|by split|]. by intros ->.
  - unfold number_at. change (numberKey x) with (key (INumber x)). rewrite lookup_insert_ne; [done|]. intros E. apply key_inj in E; [|done|done]. by subst.
  - unfold header_at. change (headerKey x n) with (key (IHeader x n)). rewrite lookup_insert_ne; [done|]. intros E. apply key_inj in E; [|done|by split]. by subst.
Qed.

Lemma del_same_headers (db : DB) i : item_ok i -> match i with IHeader _ _ | ITd _ _ | INumber _ => False | _ => True end -> same_headers db (delete (key i) db).
Proof.
  intros Hi Hk. split; intros.
  - unfold GetHeader, GetHeaderRLP. change (headerKey x n) with (key (IHeader x n)). rewrite get_del_other; [done|done|by split|]. by intros ->.
  - unfold GetTd. change (tdKey x n) with (key (ITd x n)). rewrite get_del_other; [done|done|by split|]. by intros ->.
  - unfold number_at. change (numberKey x) with (key (INumber x)). rewrite lookup_delete_ne; [done|]. intros E. apply key_inj in E; [|done|done]. by subst.
  - unfold header_at. change (headerKey x n) with (key (IHeader x n)). rewrite lookup_delete_ne; [done|]. intros E. apply key_inj in E; [|done|by split]. by subst.
Qed.

Lemma GetCanonicalHash_put (db : DB) i v n : item_ok i -> is_u64 n -> GetCanonicalHash (<[key i := v]> db) n = if decide (i = ICanon n) then read_hash v else GetCanonicalHash db n.
Proof.
  intros Hi Hn. unfold GetCanonicalHash. change (canonKey n) with (key (ICanon n)). case_decide as E; [by rewrite E, get_put_same|by rewrite get_put_other].
Qed.
Lemma GetCanonicalHash_del (db : DB) i n : item_ok i -> is_u64 n -> GetCanonicalHash (delete (key i) db) n = if decide (i = ICanon n) then 0 else GetCanonicalHash db n.
Proof.
  intros Hi Hn. unfold GetCanonicalHash. change (canonKey n) with (key (ICanon n)). case_decide as E; [by rewrite E, get_del_same|by rewrite get_del_other].
Qed.

Lemma WriteCanonicalHash_spec db x m : is_hash x -> is_u64 m ->
  same_headers db (WriteCanonicalHash db x m) /\
  forall n, is_u64 n -> GetCanonicalHash (WriteCanonicalHash db x m) n = if decide (n = m) then x else GetCanonicalHash db n.
Proof.
  intros Hx Hm. split; [by apply (put_same_headers db (ICanon m))|]. intros n Hn. unfold WriteCanonicalHash. rewrite (GetCanonicalHash_put db (ICanon m)) by done.
  rewrite read_hash_bytes by done. repeat case_decide; try done; congruence.
Qed.

Lemma DeleteCanonicalHash_spec db m : is_u64 m ->
  same_headers db (DeleteCanonicalHash db m) /\
  forall n, is_u64 n -> GetCanonicalHash (DeleteCanonicalHash db m) n = if decide (n = m) then 0 else GetCanonicalHash db n.
Proof.
  intros Hm. split; [by apply (del_same_headers db (ICanon m))|]. intros n Hn. unfold DeleteCanonicalHash. rewrite (GetCanonicalHash_del db (ICanon m)) by done.
  repeat case_decide; try done; congruence.
Qed.

Lemma WriteHeadHeaderHash_spec db x : same_headers db (WriteHeadHeaderHash db x) /\
  forall n, is_u64 n -> GetCanonicalHash (WriteHeadHeaderHash db x) n = GetCanonicalHash db n.
Proof. split; [by apply (put_same_headers db IHeadHeader)|]. intros n Hn. unfold WriteHeadHeaderHash. by rewrite (GetCanonicalHash_put db IHeadHeader) by done. Qed.

Lemma decode_header_get db x n : GetHeader db x n = decode_header (get db (key (IHeader x n))).
Proof. unfold GetHeader, GetHeaderRLP, decode_header. cbn [key]. by destruct (get db (headerKey x n)). Qed.

(** [WriteHeader] adds the header and its number. *)
Lemma WriteHeader_spec db h : header_ok h ->
  exists db', WriteHeader Keccak256 db h = Ret (inr db') /\
    (forall x n, is_hash x -> is_u64 n -> GetHeader db' x n = if decide (x = HeaderHash h /\ n = Number h) then Some h else GetHeader db x n) /\
    (forall x n, is_hash x -> is_u64 n -> GetTd db' x n = GetTd db x n) /\
    (forall x, is_hash x -> number_at db' x = if decide (x = HeaderHash h) then Some (encodeBlockNumber (Number h)) else number_at db x) /\
    (forall n, is_u64 n -> GetCanonicalHash db' n = GetCanonicalHash db n) /\
    (forall x n, is_hash x -> is_u64 n -> is_Some (header_at db' x n) -> (x = HeaderHash h /\ n = Number h) \/ is_Some (header_at db x n)).
Proof using HK.
  intros Hok. destruct (header_roundtrip h Hok) as (data & E & _ & Hd). unfold WriteHeader. rewrite E. cbn [mbind outcome_bind].
  assert (Hn : is_u64 (Number h)) by (destruct Hok as [_ _ Hw _ _ _ _]; repeat (apply Forall_cons in Hw as [? Hw]); done).
  rewrite big_Uint64_id by done. pose proof (HeaderHash_ok h) as Hx. eexists. split; [reflexivity|].
  change (numberKey (HeaderHash h)) with (key (INumber (HeaderHash h))). change (headerKey (HeaderHash h) (Number h)) with (key (IHeader (HeaderHash h) (Number h))).
  set (db1 := <[key (INumber _) := _]> db). set (db2 := <[key (IHeader _ _) := _]> db1).
  assert (G : forall i, item_ok i -> i <> IHeader (HeaderHash h) (Number h) -> i <> INumber (HeaderHash h) -> get db2 (key i) = get db (key i)).
  { intros i Hi H1 H2. unfold db2, db1. by rewrite !get_put_other by (done || congruence). }
  split_and!.
  - intros x n Hxx Hnn. rewrite !decode_header_get. case_decide as Ed.
    + destruct Ed as [-> ->]. unfold db2. by rewrite get_put_same.
    + rewrite G; [done|done| |done]. intros [= -> ->]. tauto.
  - intros x n Hxx Hnn. unfold GetTd. change (tdKey x n) with (key (ITd x n)). by rewrite G.
  - intros x Hxx. unfold number_at. change (numberKey x) with (key (INumber x)). unfold db2, db1. rewrite lookup_insert_ne.
    2: { intros Ek. apply key_inj in Ek; done. }
    case_decide as Ed; [subst x; by rewrite lookup_insert, decide_True|]. rewrite lookup_insert_ne; [done|]. intros Ek. apply key_inj in Ek; [|done|done]. congruence.
  - intros n Hnn. unfold GetCanonicalHash. change (canonKey n) with (key (ICanon n)). by rewrite G.
  - intros x n Hxx Hnn H. unfold header_at in *. change (headerKey x n) with (key (IHeader x n)) in *. destruct (decide (x = HeaderHash h /\ n = Number h)) as [|Hne]; [by left|right].
    revert H. unfold db2, db1. rewrite !lookup_insert_ne; [done| |]; intros Ek; apply key_inj in Ek; try done. injection Ek as E1 E2. by apply Hne.
Qed.

Lemma WriteTd_spec db x m td : is_hash x -> is_u64 m -> 0 <= td < 2 ^ 400 ->
  exists db', WriteTd db x m td = Ret (inr db') /\
    (forall y n, is_hash y -> is_u64 n -> GetTd db' y n = if decide (y = x /\ n = m) then Some td else GetTd db y n) /\
    (forall y n, is_hash y -> is_u64 n -> GetHeader db' y n = GetHeader db y n) /\
    (forall y, is_hash y -> number_at db' y = number_at db y) /\
    (forall n, is_u64 n -> GetCanonicalHash db' n = GetCanonicalHash db n) /\
    (forall y n, is_hash y -> is_u64 n -> header_at db' y n = header_at db y n).
Proof.
  intros Hx Hm Htd. destruct (td_roundtrip td Htd) as (data & E & Hne & Hd). unfold WriteTd. rewrite E. cbn [mbind outcome_bind]. eexists. split; [reflexivity|].
  change (tdKey x m) with (key (ITd x m)). set (db' := <[key (ITd x m) := data]> db).
  assert (G : forall i, item_ok i -> i <> ITd x m -> get db' (key i) = get db (key i)) by (intros i Hi H1; unfold db'; by rewrite get_put_other by (done || congruence)).
  split_and!.
  - intros y n Hy Hn. unfold GetTd. change (tdKey y n) with (key (ITd y n)). case_decide as Ed.
    + destruct Ed as [-> ->]. unfold db'. rewrite get_put_same. destruct data as [|z data]; [done|]. by rewrite Hd.
    + rewrite G; [done|done|]. intros [= -> ->]. tauto.
  - intros y n Hy Hn. rewrite !decode_header_get. by rewrite G.
  - intros y Hy. unfold number_at. change (numberKey y) with (key (INumber y)). unfold db'. rewrite lookup_insert_ne; [done|]. intros Ek. apply key_inj in Ek; done.
  - intros n Hn. unfold GetCanonicalHash. change (canonKey n) with (key (ICanon n)). by rewrite G.
  - intros y n Hy Hn. unfold header_at. change (headerKey y n) with (key (IHeader y n)). unfold db'. rewrite lookup_insert_ne; [done|]. intros Ek. apply key_inj in Ek; done.
Qed.

(** Deleting a header with its number, and its difficulty. *)
Lemma DeleteHeaderTd_spec db x m : is_hash x -> is_u64 m ->
  let db' := DeleteTd (DeleteHeader db x m) x m in
  (forall y n, is_hash y -> is_u64 n -> GetHeader db' y n = if decide (y = x /\ n = m) then None else GetHeader db y n) /\
  (forall y n, is_hash y -> is_u64 n -> GetTd db' y n = if decide (y = x /\ n = m) then None else GetTd db y n) /\
  (forall y, is_hash y -> number_at db' y = if decide (y = x) then None else number_at db y) /\
  (forall n, is_u64 n -> GetCanonicalHash db' n = GetCanonicalHash db n).
Proof.
  intros Hx Hm db'. unfold DeleteTd, DeleteHeader in db'. change (tdKey x m) with (key (ITd x m)) in db'. change (headerKey x m) with (key (IHeader x m)) in db'.
  change (numberKey x) with (key (INumber x)) in db'.
  assert (G : forall i, item_ok i -> i <> ITd x m -> i <> IHeader x m -> i <> INumber x -> get db' (key i) = get db (key i)).
  { intros i Hi H1 H2 H3. unfold db'. by rewrite !get_del_other by (done || congruence). }
  split_and!.
  - intros y n Hy Hn. rewrite !decode_header_get. case_decide as Ed.
    + destruct Ed as [-> ->]. unfold db'. by rewrite get_del_other, get_del_same.
    + rewrite G; [done|done|done| |done]. intros [= -> ->]. tauto.
  - intros y n Hy Hn. unfold GetTd. change (tdKey y n) with (key (ITd y n)). case_decide as Ed.
    + destruct Ed as [-> ->]. unfold db'. by rewrite get_del_same.
    + rewrite G; [done|done| |done|done]. intros [= -> ->]. tauto.
  - intros y Hy. unfold number_at. change (numberKey y) with (key (INumber y)). unfold db'.
    rewrite lookup_delete_ne by (intros Ek; apply key_inj in Ek; done). rewrite lookup_delete_ne by (intros Ek; apply key_inj in Ek; done).
    case_decide as Ed; [subst y; by rewrite lookup_delete, decide_True|]. rewrite lookup_delete_ne; [done|]. intros Ek. apply key_inj in Ek; [|done|done]. congruence.
  - intros n Hn. unfold GetCanonicalHash. change (canonKey n) with (key (ICanon n)). by rewrite G.
Qed.

End Views.

End ChainDbProps.
