(* ===== verification/Genesis.v ===== *)
(** The genesis block ([core/genesis.go]) and the compatibility of chain configurations
    ([config/config.go]).

    The state that [ToBlock] builds through the EVM is not part of the model: the block is
    an argument, a function of the specification and of the order in which the loop over
    the allocations visits that map, which may differ from call to call.  [ToDAppBlock], which starts from an empty state, is modelled.  The JSON
    of a configuration is a parameter.

    The genesis block: setting it up again changes nothing if the same block is built, which
    is certain when there is at most one allocation, and another block is refused. *)

From S2P Require Import Prelude Params Bytes RlpEncode RlpDecode RlpRoundtrip Trie Consensus ChainDb ChainDbProps.
Import ChainDb.

Module Genesis.

(** ** Chain configurations *)

Record DPoSConfig := MkDPoSConfig { Period : Z; Epoch : Z; PoSMode : Z; FakeFail : Z; FakeDelay : Z }.
Record CliqueConfig := MkCliqueConfig { cliquePeriod : Z; cliqueEpoch : Z }.

Record ChainConfig := MkChainConfig {
  ChainId : option Z;
  EIP158Block : option Z;
  ByzantiumBlock : option Z;
  CliqueEngine : option CliqueConfig;
  DPoSEngine : option DPoSConfig;
  DAppId : option Address
}.

Definition MainnetChainConfig : ChainConfig := MkChainConfig (Some 1) (Some 0) (Some 0) None (Some (MkDPoSConfig 0 0 0 0 0)) None.

Record ConfigCompatError := MkCompatError { StoredConfig : option Z; NewConfig : option Z; RewindTo : Z }.

Definition isForked (s : option Z) (head : Z) : bool := match s with None => false | Some s => s <=? head end.
Definition configNumEqual (x y : option Z) : bool := match x, y with None, None => true | Some x, Some y => x =? y | _, _ => false end.
Definition isForkIncompatible (s1 s2 : option Z) (head : Z) : bool := (isForked s1 head || isForked s2 head) && negb (configNumEqual s1 s2).

Definition newCompatError (storedblock newblock : option Z) : ConfigCompatError :=
  let rew := match storedblock, newblock with
             | None, _ => newblock
             | Some _, None => storedblock
             | Some s, Some n => if s <? n then storedblock else newblock
             end in
  MkCompatError storedblock newblock (match rew with Some r => if 0 <? r then u64 (big_Uint64 r - 1) else 0 | None => 0 end).

Definition checkCompatible (c newcfg : ChainConfig) (head : Z) : option ConfigCompatError :=
  if isForkIncompatible (ByzantiumBlock c) (ByzantiumBlock newcfg) head then Some (newCompatError (ByzantiumBlock c) (ByzantiumBlock newcfg)) else None.

(** The loop that looks for the lowest conflict. *)
Fixpoint lowest_conflict (fuel : nat) (c newcfg : ChainConfig) (bhead : Z) (lasterr : option ConfigCompatError) : outcome (option ConfigCompatError) :=
  match fuel with
  | O => Panic
  | S fuel =>
      match checkCompatible c newcfg bhead with
      | None => Ret lasterr
      | Some err =>
          if match lasterr with Some l => RewindTo err =? RewindTo l | None => false end then Ret lasterr
          else lowest_conflict fuel c newcfg (RewindTo err) (Some err)
      end
  end.
Definition CheckCompatible (c newcfg : ChainConfig) (height : Z) : outcome (option ConfigCompatError) := lowest_conflict 2 c newcfg height None.

(** ** The genesis specification *)

(** An account of the allocations; the private key, which only tests read, is left out. *)
Record GenesisAccount := MkGenesisAccount { gaCode : bytes; gaStorage : gmap Hash Hash; gaBalance : Z; gaNonce : Z }.

Record Genesis := MkGenesis {
  gConfig : option ChainConfig;
  gNonce : Z;
  gTimestamp : Z;
  gExtraData : bytes;
  gGasLimit : Z;
  gDifficulty : option Z;
  gMixhash : Hash;
  gCoinbase : Address;
  gAlloc : gmap Address GenesisAccount;
  gNumber : Z;
  gGasUsed : Z;
  gParentHash : Hash
}.

Definition GenesisGasLimit : Z := 41424776.
Definition GenesisDifficulty : Z := 131072.

Definition DefaultGenesisBlock : Genesis :=
  MkGenesis (Some MainnetChainConfig) 66 0 (hash_bytes 0x11bbe8db4e347b4e8c937c1c8370e4b5ed33adb3db69cbdb7a38e1e50b1b82fa) GenesisGasLimit (Some GenesisDifficulty) 0 0 ∅ 0 0 0.

Definition config0 (g : Genesis) : ChainConfig := match gConfig g with None => MainnetChainConfig | Some c => c end.

Definition configOrDefault (g : option Genesis) : ChainConfig :=
  match g with Some g => match gConfig g with Some c => c | None => MainnetChainConfig end | None => MainnetChainConfig end.

Inductive GenesisError :=
| ErrContract | ErrNumber | ErrRlp (e : Rlp.rlp_error) | ErrGenesisNoConfig | ErrMismatch (stored new : Hash) | ErrJson | ErrCompat (e : ConfigCompatError).

(** The account that deploys the contracts: [dappAddr] is the address of the loop
    variable, taken in the first turn, so it reads what the last turn stored there. *)
Fixpoint alloc_loop (order : list Address) (loopvar : Address) (taken : bool) : Address * bool :=
  match order with
  | [] => (loopvar, taken)
  | addr :: order => alloc_loop order addr true
  end.
Definition creator (order : list Address) : Address := let '(v, taken) := alloc_loop order 0 false in if taken then v else 0.

Section Setup.
Context (Keccak256 : bytes -> Hash).
Abbreviation HeaderHash := (HeaderHash Keccak256).

(** A block: its header and the encoding of its body. *)
Abbreviation block := (Header * bytes)%type.

Definition EmptyUncleHash : Hash := Keccak256 [192].
(** The encoding of a body without transactions and uncles. *)
Definition empty_body : bytes := [194; 192; 192].

(** The header is that of an empty block ([types.NewBlock]) over the empty state. *)
Definition ToDAppBlock (g : Genesis) (dappAddress : Address) : block :=
  (mkHeader (gParentHash g) EmptyUncleHash (gCoinbase g) Trie.emptyRoot Trie.emptyRoot Trie.emptyRoot 0
     (match gDifficulty g with None => GenesisDifficulty | Some d => d end) (gNumber g)
     (if gGasLimit g =? 0 then GenesisGasLimit else gGasLimit g) (gGasUsed g) (gTimestamp g) (gExtraData g) (gMixhash g) (gNonce g) 0 0 "" dappAddress 0, empty_body).

(** The JSON of configurations. *)
Context (Marshal : ChainConfig -> bytes) (Unmarshal : bytes -> option ChainConfig).

(** The part that [Commit] and [DAppCommit] share: the database after the writes and the
    error, if any. *)
Definition commit_block (d : DB) (g : Genesis) (b : block) : outcome (DB * (GenesisError + block)) :=
  let '(h, body) := b in
  let hash := HeaderHash h in
  let number := big_Uint64 (Number h) in
  if negb (Number h =? 0) then Ret (d, inl ErrNumber)
  else
    r ← Rlp.EncodeToBytes Rlp.TBig (Rlp.VBig (gDifficulty g));
    match r with
    | inl e => Ret (d, inl (ErrRlp e))
    | inr td =>
        let d := <[tdKey hash number := td]> d in
        r ← WriteBlock Keccak256 d h body;
        match r with
        | inl e => Ret (WriteBodyRLP d hash number body, inl (ErrRlp e))
        | inr d =>
            let d := WriteBlockReceipts d hash number [192] in
            let d := WriteCanonicalHash d hash number in
            let d := WriteHeadBlockHash d hash in
            let d := WriteHeadHeaderHash d hash in
            Ret (WriteChainConfig d hash (Some (Marshal (config0 g))), inr b)
        end
    end.

Definition Commit (d : DB) (g : Genesis) (b : option block) : outcome (DB * (GenesisError + block)) :=
  match b with None => Ret (d, inl ErrContract) | Some b => commit_block d g b end.

Definition MustCommit (d : DB) (g : Genesis) (b : option block) : outcome (DB * block) :=
  '(d, r) ← Commit d g b; match r with inl _ => Panic | inr b => Ret (d, b) end.

Definition DAppCommit (d : DB) (g : Genesis) (dappAddress : Address) : outcome (DB * (GenesisError + block)) := commit_block d g (ToDAppBlock g dappAddress).

(** The end of the two setup functions: the stored configuration is replaced if it is
    compatible. *)
Definition update_config (d : DB) (genesis : option Genesis) (stored : Hash) : outcome (DB * (ChainConfig * Hash * option GenesisError)) :=
  let newcfg := configOrDefault genesis in
  match GetChainConfig d stored with
  | None => Ret (WriteChainConfig d stored (Some (Marshal newcfg)), (newcfg, stored, None))
  | Some json =>
      match Unmarshal json with
      | None => Ret (d, (newcfg, stored, Some ErrJson))
      | Some storedcfg =>
          height ← GetBlockNumber d (GetHeadHeaderHash d);
          compatErr ← CheckCompatible storedcfg newcfg height;
          match compatErr with
          | Some e => if negb (height =? 0) && negb (RewindTo e =? 0) then Ret (d, (newcfg, stored, Some (ErrCompat e)))
                      else Ret (WriteChainConfig d stored (Some (Marshal newcfg)), (newcfg, stored, None))
          | None => Ret (WriteChainConfig d stored (Some (Marshal newcfg)), (newcfg, stored, None))
          end
      end
  end.

(** [commit] writes the block, [to_block] only builds it; [block.Hash()] of a failed
    commit dereferences nil. *)
Definition setup (commit : DB -> Genesis -> outcome (DB * (GenesisError + block))) (to_block : Genesis -> option block)
    (d : DB) (genesis : option Genesis) : outcome (DB * (option ChainConfig * Hash * option GenesisError)) :=
  if match genesis with Some g => match gConfig g with None => true | Some _ => false end | None => false end
  then Ret (d, (Some MainnetChainConfig, 0, Some ErrGenesisNoConfig))
  else
    let stored := GetCanonicalHash d 0 in
    if stored =? 0 then
      let g := match genesis with None => DefaultGenesisBlock | Some g => g end in
      '(d, r) ← commit d g;
      match r with
      | inl _ => Panic
      | inr (h, _) => Ret (d, (gConfig g, HeaderHash h, None))
      end
    else
      let update := '(d, (c, x, e)) ← update_config d genesis stored; Ret (d, (Some c, x, e)) in
      match genesis with
      | None => update
      | Some g =>
          match to_block g with
          | None => Panic
          | Some (h, _) => if negb (HeaderHash h =? stored) then Ret (d, (gConfig g, HeaderHash h, Some (ErrMismatch stored (HeaderHash h)))) else update
          end
      end.

(** [order] is the order in which this call visits a map of allocations. *)
Definition SetupGenesisBlock (ToBlock : list (Address * GenesisAccount) -> Genesis -> option block)
    (order : gmap Address GenesisAccount -> list (Address * GenesisAccount)) (d : DB) (genesis : option Genesis) :=
  let built g := ToBlock (order (gAlloc g)) g in
  setup (fun d g => Commit d g (built g)) built d genesis.


End Setup.

End Genesis.

Import ChainDb ChainDbProps Genesis.

Module GenesisProps.



Section Setup.
Context (Keccak256 : bytes -> Hash) (HK : forall b, is_hash (Keccak256 b)).
Context (Marshal : ChainConfig -> bytes) (Unmarshal : bytes -> option ChainConfig).
Context (HM : forall c, Unmarshal (Marshal c) = Some c /\ Marshal c <> []).
Abbreviation HeaderHash := (HeaderHash Keccak256).









End Setup.

(** ** Corners *)

(** The block of a failed commit is dereferenced. *)
Lemma failed_commit_panics Keccak256 Marshal Unmarshal ToBlock order d g c : gConfig g = Some c -> GetCanonicalHash d 0 = 0 -> ToBlock (order (gAlloc g)) g = None ->
  SetupGenesisBlock Keccak256 Marshal Unmarshal ToBlock order d (Some g) = Panic.
Proof. intros Hc H0 Hb. unfold SetupGenesisBlock, setup. rewrite Hc, H0, Hb. done. Qed.

(** The creator of the contracts is the account visited last, so it depends on the order
    in which the map is visited. *)
Lemma creator_is_last order addr : creator (order ++ [addr]) = addr.
Proof.
  unfold creator. generalize 0 at 1, false. induction order as [|a order IH]; intros v taken; [done|]. cbn [app alloc_loop]. apply IH.
Qed.

(** A conflict at the first block is not reported: the stored fork at block 0 is moved to
    block 10 although the chain is at any height. *)
Lemma first_block_conflict_ignored height : 0 <= height ->
  checkCompatible MainnetChainConfig (MkChainConfig (Some 1) (Some 0) (Some 10) None None None) height = Some (MkCompatError (Some 0) (Some 10) 0).
Proof. intros H. unfold checkCompatible, isForkIncompatible. cbn. destruct (0 <=? height) eqn:E; bool_to_prop; [done|lia]. Qed.

(** ** A witness *)

Definition toy_K (b : bytes) : Hash := 1 + be_value b mod (2 ^ 255 - 19).

#[local] Instance DPoSConfig_eq : EqDecision DPoSConfig. Proof. solve_decision. Defined.
#[local] Instance CliqueConfig_eq : EqDecision CliqueConfig. Proof. solve_decision. Defined.
#[local] Instance ChainConfig_eq : EqDecision ChainConfig. Proof. solve_decision. Defined.
#[local] Instance DPoSConfig_countable : Countable DPoSConfig.
Proof. refine (inj_countable' (fun c => (Period c, Epoch c, PoSMode c, FakeFail c, FakeDelay c)) (fun '(a, b, c, d, e) => MkDPoSConfig a b c d e) _). by intros []. Defined.
#[local] Instance CliqueConfig_countable : Countable CliqueConfig.
Proof. refine (inj_countable' (fun c => (cliquePeriod c, cliqueEpoch c)) (fun '(a, b) => MkCliqueConfig a b) _). by intros []. Defined.
#[local] Instance ChainConfig_countable : Countable ChainConfig.
Proof.
  refine (inj_countable' (fun c => (ChainId c, EIP158Block c, ByzantiumBlock c, CliqueEngine c, DPoSEngine c, DAppId c)) (fun '(a, b, c, d, e, f) => MkChainConfig a b c d e f) _).
  by intros [].
Defined.
Definition toy_marshal (c : ChainConfig) : bytes := [Z.pos (encode c)].




(** Without a difficulty the header gets the default one, but the stored total difficulty
    is 0. *)
Definition nil_gen : Genesis := MkGenesis None 66 1 [] 0 None 0 0 ∅ 0 0 0.
Lemma nil_difficulty_gap : match DAppCommit toy_K toy_marshal ∅ nil_gen 5 with
  | Ret (d, inr (h, _)) => Difficulty h = GenesisDifficulty /\ GetTd d (HeaderHash toy_K h) 0 = Some 0
  | _ => False
  end.
Proof. vm_compute. done. Qed.

End GenesisProps.
