(* ===== verification/HeaderChain.v ===== *)
(** The header chain ([core/headerchain.go]): total difficulties, fork choice and the
    canonical index over the chain database, with its three caches.

    The caches are those of [Cache]; [currentHeader] is an atomic value that holds a
    pointer, which is nil for a moment while [SetHead] rewinds past a gap.  A coin toss
    is an argument, and so are the interrupt flag, the verdicts of the consensus engine
    and the random choice of the headers whose seal is verified. *)

From S2P Require Import Prelude Params Bytes Cache RlpEncode RlpDecode Consensus ChainDb.
Import ChainDb.

Module HeaderChain.

Record HeaderChain {C1 C2 C3 : Type} := MkHc {
  chainDb : DB;
  genesisHeader : Header;
  currentHeader : option Header;
  currentHeaderHash : Hash;
  headerCache : C1;
  tdCache : C2;
  numberCache : C3
}.
Arguments HeaderChain : clear implicits.
Arguments MkHc {_ _ _}.

Inductive WriteStatus := NonStatTy | CanonStatTy | SideStatTy.
Inductive ChainError := ErrUnknownAncestor | ErrNoGenesis | ErrAborted | ErrNonContiguous | ErrVerify (e : VerifyError).

Section Chain.
Context {C1 C2 C3 : Type} {ops1 : CacheOps C1 Header} {ops2 : CacheOps C2 Z} {ops3 : CacheOps C3 Z}.
Context (Keccak256 : bytes -> Hash).

Abbreviation hc := (HeaderChain C1 C2 C3).
Abbreviation M := (SM hc).
Abbreviation HeaderHash := (HeaderHash Keccak256).

Definition with_db (d : DB) (c : hc) : hc := MkHc d (genesisHeader c) (currentHeader c) (currentHeaderHash c) (headerCache c) (tdCache c) (numberCache c).
Definition with_current (h : option Header) (c : hc) : hc := MkHc (chainDb c) (genesisHeader c) h (currentHeaderHash c) (headerCache c) (tdCache c) (numberCache c).
Definition with_hash (x : Hash) (c : hc) : hc := MkHc (chainDb c) (genesisHeader c) (currentHeader c) x (headerCache c) (tdCache c) (numberCache c).
Definition with_headers (x : C1) (c : hc) : hc := MkHc (chainDb c) (genesisHeader c) (currentHeader c) (currentHeaderHash c) x (tdCache c) (numberCache c).
Definition with_tds (x : C2) (c : hc) : hc := MkHc (chainDb c) (genesisHeader c) (currentHeader c) (currentHeaderHash c) (headerCache c) x (numberCache c).
Definition with_numbers (x : C3) (c : hc) : hc := MkHc (chainDb c) (genesisHeader c) (currentHeader c) (currentHeaderHash c) (headerCache c) (tdCache c) x.

Definition on_db (f : DB -> DB) : M unit := modify (fun c => with_db (f (chainDb c)) c).

(** ** Reading through the caches *)

Definition GetBlockNumber (hash : Hash) : M Z := fun c =>
  let '(x, r) := cache_Get (numberCache c) hash in
  let c := with_numbers x c in
  match r with
  | Some n => Ret (c, n)
  | None =>
      '(number, err) ← GetBlockNumber2 (chainDb c) hash;
      if err : bool then Ret (c, number) else Ret (with_numbers (cache_Add (numberCache c) hash number) c, number)
  end.

Definition GetTd (hash : Hash) (number : Z) : M (option Z) := fun c =>
  let '(x, r) := cache_Get (tdCache c) hash in
  let c := with_tds x c in
  match r with
  | Some td => Ret (c, Some td)
  | None =>
      match ChainDb.GetTd (chainDb c) hash number with
      | None => Ret (c, None)
      | Some td => Ret (with_tds (cache_Add (tdCache c) hash td) c, Some td)
      end
  end.

Definition GetTdByHash (hash : Hash) : M (option Z) := number ← GetBlockNumber hash; GetTd hash number.

Definition WriteTd (hash : Hash) (number td : Z) : M (option Rlp.rlp_error) := fun c =>
  r ← ChainDb.WriteTd (chainDb c) hash number td;
  match r with
  | inl e => Ret (c, Some e)
  | inr d => Ret (with_tds (cache_Add (tdCache c) hash td) (with_db d c), None)
  end.

Definition GetHeader (hash : Hash) (number : Z) : M (option Header) := fun c =>
  let '(x, r) := cache_Get (headerCache c) hash in
  let c := with_headers x c in
  match r with
  | Some h => Ret (c, Some h)
  | None =>
      match ChainDb.GetHeader (chainDb c) hash number with
      | None => Ret (c, None)
      | Some h => Ret (with_headers (cache_Add (headerCache c) hash h) c, Some h)
      end
  end.

Definition GetHeaderByHash (hash : Hash) : M (option Header) := number ← GetBlockNumber hash; GetHeader hash number.

Definition HasHeader (hash : Hash) (number : Z) : M bool := fun c =>
  Ret (c, cache_Contains (numberCache c) hash || cache_Contains (headerCache c) hash || bool_decide (is_Some (chainDb c !! headerKey hash number))).

Definition GetHeaderByNumber (number : Z) : M (option Header) :=
  d ← gets chainDb;
  let hash := GetCanonicalHash d number in
  if hash =? 0 then mret None else GetHeader hash number.

(** The current header; a nil pointer is dereferenced by every caller but [SetHead]. *)
Definition CurrentHeader : M Header := fun c => h ← deref (currentHeader c); Ret (c, h).

(** ** Writing *)

(** The loop that deletes the canonical numbers above the new head.  Each turn deletes a
    key that is there, so the database bounds their number. *)
Fixpoint drop_above (fuel : nat) (i : Z) (d : DB) : outcome DB :=
  match fuel with
  | O => Panic
  | S fuel => if GetCanonicalHash d i =? 0 then Ret d else drop_above fuel (u64 (i + 1)) (DeleteCanonicalHash d i)
  end.

(** The loop that overwrites stale canonical numbers, from the parent of the new head
    down. *)
Fixpoint reroute (fuel : nat) (headHash : Hash) (headNumber : Z) (headHeader : option Header) : M unit :=
  match fuel with
  | O => panic
  | S fuel =>
      d ← gets chainDb;
      if GetCanonicalHash d headNumber =? headHash then mret tt
      else
        _ ← on_db (fun d => WriteCanonicalHash d headHash headNumber);
        h ← lift (deref headHeader);
        let headHash := ParentHash h in
        let headNumber := u64 (big_Uint64 (Number h) - 1) in
        headHeader ← GetHeader headHash headNumber;
        reroute fuel headHash headNumber headHeader
  end.

Definition set_current (h : Header) (hash : Hash) : M unit := modify (fun c => with_current (Some h) (with_hash hash c)).

(** The branch of [WriteHeader] for a header that becomes the head. *)
Definition make_canonical (header : Header) : M unit :=
  let hash := HeaderHash header in
  let number := big_Uint64 (Number header) in
  d ← gets chainDb;
  d ← lift (drop_above (S (size d)) (u64 (number + 1)) d);
  _ ← modify (with_db d);
  let headHash := ParentHash header in
  let headNumber := u64 (big_Uint64 (Number header) - 1) in
  headHeader ← GetHeader headHash headNumber;
  _ ← reroute (S (Z.to_nat number)) headHash headNumber headHeader;
  _ ← on_db (fun d => WriteCanonicalHash d hash number);
  _ ← on_db (fun d => WriteHeadHeaderHash d hash);
  set_current header hash.

(** [coin] is the toss on equal difficulties. *)
Definition WriteHeader (coin : bool) (header : Header) : M (ChainError + WriteStatus) :=
  let hash := HeaderHash header in
  let number := big_Uint64 (Number header) in
  ptd ← GetTd (ParentHash header) (u64 (number - 1));
  match ptd with
  | None => mret (inl ErrUnknownAncestor)
  | Some ptd =>
      cur ← CurrentHeader;
      curHash ← gets currentHeaderHash;
      localTd ← GetTd curHash (big_Uint64 (Number cur));
      let externTd := Difficulty header + ptd in
      err ← WriteTd hash number externTd;
      match err with
      | Some _ => panic
      | None =>
          d ← gets chainDb;
          w ← lift (ChainDb.WriteHeader Keccak256 d header);
          match w with
          | inl _ => panic
          | inr d =>
              _ ← modify (with_db d);
              localTd ← lift (deref localTd);
              status ←
                (if (localTd <? externTd) || (externTd =? localTd) && coin then _ ← make_canonical header; mret CanonStatTy
                 else mret SideStatTy);
              _ ← modify (fun c => with_headers (cache_Add (headerCache c) hash header) c);
              _ ← modify (fun c => with_numbers (cache_Add (numberCache c) hash number) c);
              mret (inr status)
          end
      end
  end.

Definition SetCurrentHeader (head : Header) : M unit :=
  _ ← on_db (fun d => WriteHeadHeaderHash d (HeaderHash head));
  set_current head (HeaderHash head).

Definition SetGenesis (head : Header) : M unit :=
  modify (fun c => MkHc (chainDb c) head (currentHeader c) (currentHeaderHash c) (headerCache c) (tdCache c) (numberCache c)).

(** ** Rewinding *)

Definition DeleteCallback := Hash -> Z -> DB -> DB.

(** The loop that deletes the headers above [head], newest first. *)
Fixpoint unwind (fuel : nat) (head : Z) (delFn : option DeleteCallback) : M unit :=
  match fuel with
  | O => panic
  | S fuel =>
      cur ← gets currentHeader;
      match cur with
      | None => mret tt
      | Some hdr =>
          let num := big_Uint64 (Number hdr) in
          if negb (head <? num) then mret tt
          else
            let hash := HeaderHash hdr in
            _ ← on_db (fun d => match delFn with Some f => f hash num d | None => d end);
            _ ← on_db (fun d => DeleteHeader d hash num);
            _ ← on_db (fun d => DeleteTd d hash num);
            p ← GetHeader (ParentHash hdr) (u64 (num - 1));
            _ ← modify (with_current p);
            unwind fuel head delFn
      end
  end.

(** The loop that deletes the canonical numbers from [i] down to the one after [head]. *)
Fixpoint drop_down (fuel : nat) (i head : Z) (d : DB) : DB :=
  match fuel with
  | O => d
  | S fuel => if head <? i then drop_down fuel (i - 1) head (DeleteCanonicalHash d i) else d
  end.

Definition purge_caches : M unit :=
  modify (fun c => with_headers (cache_Purge (headerCache c)) (with_tds (cache_Purge (tdCache c)) (with_numbers (cache_Purge (numberCache c)) c))).

Definition SetHead (head : Z) (delFn : option DeleteCallback) : M unit :=
  cur ← gets currentHeader;
  let height := match cur with Some hdr => big_Uint64 (Number hdr) | None => 0 end in
  _ ← unwind (S (Z.to_nat height)) head delFn;
  _ ← on_db (drop_down (Z.to_nat height) height head);
  _ ← purge_caches;
  _ ← modify (fun c => match currentHeader c with None => with_current (Some (genesisHeader c)) c | Some _ => c end);
  h ← CurrentHeader;
  _ ← modify (with_hash (HeaderHash h));
  on_db (fun d => WriteHeadHeaderHash d (HeaderHash h)).

(** ** Inserting chains *)

Section Insert.
Context (interrupted : nat -> bool) (coins : nat -> bool).

(** The index of the header that failed, and the error. *)
Fixpoint insert_from (i : nat) (chain : list Header) : M (nat * option ChainError) :=
  match chain with
  | [] => mret (0%nat, None)
  | header :: chain =>
      if interrupted i then mret (i, Some ErrAborted)
      else
        known ← HasHeader (HeaderHash header) (big_Uint64 (Number header));
        if known : bool then insert_from (S i) chain
        else
          r ← WriteHeader (coins i) header;
          match r with
          | inl e => mret (i, Some e)
          | inr _ => insert_from (S i) chain
          end
  end.

(** The report at the end reads the last header, so an empty chain panics. *)
Definition InsertHeaderChain (chain : list Header) : M (nat * option ChainError) :=
  r ← insert_from 0 chain;
  match chain, r with
  | [], (_, None) => panic
  | _, _ => mret r
  end.

End Insert.

(** The sanity check: ordered and linked. *)
Fixpoint linked (chain : list Header) : bool :=
  match chain with
  | a :: (b :: _) as rest => (big_Uint64 (Number b) =? u64 (big_Uint64 (Number a) + 1)) && (ParentHash b =? HeaderHash a) && linked rest
  | _ => true
  end.

(** Which seals to verify: one of every [checkFreq], at random, and the last. *)
Fixpoint pick_seals (turns i : nat) (checkFreq : nat) (rand : nat -> nat) (seals : list bool) : list bool :=
  match turns with
  | O => seals
  | S turns =>
      let index := (i * checkFreq + rand i mod checkFreq)%nat in
      let index := if bool_decide (length seals <= index)%nat then (length seals - 1)%nat else index in
      pick_seals turns (S i) checkFreq rand (<[index := true]> seals)
  end.

Definition choose_seals (n checkFreq : nat) (rand : nat -> nat) : outcome (list bool) :=
  if bool_decide (checkFreq = 0%nat) || bool_decide (n = 0%nat) then Panic
  else Ret (<[(n - 1)%nat := true]> (pick_seals (n / checkFreq) 0 checkFreq rand (replicate n false))).

Section Validate.
Context (interrupted : nat -> bool) (VerifyHeaders : list Header -> list bool -> list (option VerifyError)).

Fixpoint await (i : nat) (results : list (option VerifyError)) : nat * option ChainError :=
  match results with
  | [] => (0%nat, None)
  | r :: results =>
      if interrupted i then (0%nat, Some ErrAborted)
      else match r with Some e => (i, Some (ErrVerify e)) | None => await (S i) results end
  end.

Definition ValidateHeaderChain (chain : list Header) (checkFreq : nat) (rand : nat -> nat) : outcome (nat * option ChainError) :=
  if negb (linked chain) then Ret (0%nat, Some ErrNonContiguous)
  else seals ← choose_seals (length chain) checkFreq rand; Ret (await 0 (VerifyHeaders chain seals)).

End Validate.

(** ** Ancestors *)

Fixpoint hashes_from (n : nat) (header : Header) : M (list Hash) :=
  match n with
  | O => mret []
  | S n =>
      let next := ParentHash header in
      h ← GetHeader next (u64 (big_Uint64 (Number header) - 1));
      match h with
      | None => mret []
      | Some h => if Number h =? 0 then mret [next] else rest ← hashes_from n h; mret (next :: rest)
      end
  end.

Definition GetBlockHashesFromHash (hash : Hash) (max : nat) : M (list Hash) :=
  h ← GetHeaderByHash hash;
  match h with None => mret [] | Some h => hashes_from max h end.

(** ** Opening *)

Definition NewHeaderChain (d : DB) (c1 : C1) (c2 : C2) (c3 : C3) : outcome (ChainError + hc) :=
  let blank := mkHeader 0 0 0 0 0 0 0 0 0 0 0 0 [] 0 0 0 0 "" 0 0 in
  '(c, g) ← GetHeaderByNumber 0 (MkHc d blank None 0 c1 c2 c3);
  match g with
  | None => Ret (inl ErrNoGenesis)
  | Some g =>
      let c := MkHc (chainDb c) g (Some g) 0 (headerCache c) (tdCache c) (numberCache c) in
      let head := GetHeadBlockHash (chainDb c) in
      '(c, _) ← (if head =? 0 then Ret (c, tt)
                 else '(c, h) ← GetHeaderByHash head c; Ret (match h with Some h => with_current (Some h) c | None => c end, tt));
      '(c, h) ← CurrentHeader c;
      Ret (inr (with_hash (HeaderHash h) c))
  end.

End Chain.

End HeaderChain.
