(* ===== verification/HeaderChainProps.v ===== *)
(** Fork choice of the header chain: the database holds a tree of headers with their
    total difficulties, the head is a heaviest header of it, and the canonical index is
    exactly the line of its ancestors. *)

From S2P Require Import Prelude Params Bytes Cache RlpEncode RlpDecode RlpRoundtrip Consensus ChainDb ChainDbProps HeaderChain.
Import ChainDb ChainDbProps HeaderChain.

Module HeaderChainProps.

(** ** The tree of headers *)

Section Tree.
Context (Keccak256 : bytes -> Hash) (g : Header) (P : Header -> Prop).
Abbreviation HeaderHash := (HeaderHash Keccak256).

(** The headers that occur: well formed, with distinct hashes, and numbered as the
    verification of headers demands. *)
Record world_ok : Prop := {
  w_hash : forall b, is_hash (Keccak256 b);
  w_header : forall h, P h -> header_ok h;
  w_nonzero : forall h, P h -> HeaderHash h <> 0;
  w_inj : forall h k, P h -> P k -> HeaderHash h = HeaderHash k -> h = k;
  w_number : forall h k, P h -> P k -> HeaderHash k = ParentHash h -> Number h = Number k + 1;
  w_bound : forall h, P h -> Number h < MaxUint64 /\ Difficulty h <= 2 ^ 256;
  w_genesis : P g /\ Number g = 0;
  w_root : forall h, P h -> Number h = 0 -> h = g
}.

Definition has (d : DB) (h : Header) : Prop := P h /\ ChainDb.GetHeader d (HeaderHash h) (Number h) = Some h.
Definition td (d : DB) (h : Header) : option Z := ChainDb.GetTd d (HeaderHash h) (Number h).

Record tree_ok (d : DB) : Prop := {
  t_self : forall x n h, is_hash x -> is_u64 n -> ChainDb.GetHeader d x n = Some h -> P h /\ x = HeaderHash h /\ n = Number h;
  t_genesis : has d g;
  t_parent : forall h, has d h -> 0 < Number h -> exists p, has d p /\ HeaderHash p = ParentHash h;
  t_td : forall h, has d h -> exists w, td d h = Some w /\ Difficulty h <= w <= (Number h + 1) * 2 ^ 256 /\
    forall p wp, has d p -> HeaderHash p = ParentHash h -> td d p = Some wp -> w = wp + Difficulty h;
  t_td_only : forall x n w, is_hash x -> is_u64 n -> ChainDb.GetTd d x n = Some w -> exists h, ChainDb.GetHeader d x n = Some h;
  t_number : forall x b, is_hash x -> number_at d x = Some b -> exists h, has d h /\ x = HeaderHash h /\ b = encodeBlockNumber (Number h);
  t_raw : forall x n, is_hash x -> is_u64 n -> is_Some (header_at d x n) -> is_Some (ChainDb.GetHeader d x n);
  t_index : forall h, has d h -> number_at d (HeaderHash h) = Some (encodeBlockNumber (Number h))
}.

(** The canonical index below [m] is linked by parent hashes. *)
Definition canon_at (d : DB) (n : Z) (h : Header) : Prop := has d h /\ Number h = n /\ GetCanonicalHash d n = HeaderHash h.
Definition linked_to (d : DB) (m : Z) : Prop := forall n, 0 <= n < m -> exists h, canon_at d (n + 1) h /\ GetCanonicalHash d n = ParentHash h.

Record canon_ok (d : DB) (head : Header) : Prop := {
  c_head : canon_at d (Number head) head;
  c_above : forall n, is_u64 n -> Number head < n -> GetCanonicalHash d n = 0;
  c_linked : linked_to d (Number head)
}.

Definition heaviest (d : DB) (head : Header) : Prop := forall h w w', has d h -> td d h = Some w -> td d head = Some w' -> w <= w'.

Context (W : world_ok).

Lemma P_u64 h : P h -> is_u64 (Number h).
Proof using W. intros Hp. destruct (w_header W h Hp) as [_ _ Hw _ _ _ _]. repeat (apply Forall_cons in Hw as [? Hw]). done. Qed.
Lemma P_hash h : is_hash (HeaderHash h).
Proof using W. apply HeaderHash_ok, W. Qed.
Lemma P_parent h : P h -> is_hash (ParentHash h).
Proof using W. intros Hp. destruct (w_header W h Hp) as [Hw _ _ _ _ _ _]. by apply Forall_cons in Hw as [? _]. Qed.
Lemma has_P d h : has d h -> P h.
Proof. by intros []. Qed.
Lemma self_has d x n h : tree_ok d -> is_hash x -> is_u64 n -> ChainDb.GetHeader d x n = Some h -> has d h /\ x = HeaderHash h /\ n = Number h.
Proof. intros Ht Hx Hn Hg. destruct (t_self d Ht x n h Hx Hn Hg) as (Hp & -> & ->). by repeat split. Qed.

Lemma canon_header d m top : tree_ok d -> linked_to d m -> canon_at d m top -> forall n, 0 <= n <= m -> exists h, canon_at d n h.
Proof using W.
  intros Ht Hl (H1 & H2 & H3) n Hn. subst m. destruct (decide (n = Number top)) as [->|Hne]; [by exists top|].
  destruct (Hl n) as (k & (Hk1 & Hk2 & Hk3) & Hpar); [lia|]. destruct (t_parent d Ht k Hk1) as (p & Hp1 & Hp2); [lia|]. exists p.
  pose proof (w_number W k p (has_P _ _ Hk1) (has_P _ _ Hp1) Hp2). split; [done|]. split; [lia|congruence].
Qed.

(** *** Changes that do not touch headers *)

Lemma same_has d d' h : same_headers d d' -> has d' h <-> has d h.
Proof using W. intros [H1 _ _ _]. unfold has. split; intros [Hp E]; (split; [done|]); [rewrite <- H1|rewrite H1]; auto using P_hash, P_u64. Qed.
Lemma same_td_of d d' h : same_headers d d' -> P h -> td d' h = td d h.
Proof using W. intros [_ H2 _ _] Hp. unfold td. apply H2; auto using P_hash, P_u64. Qed.

Lemma same_tree d d' : same_headers d d' -> tree_ok d -> tree_ok d'.
Proof using W.
  intros Hs [H1 H2 H3 H4 H5 H6 H7 H8]. split.
  - intros x n h Hx Hn. rewrite (same_header _ _ Hs) by done. auto.
  - by apply (same_has _ _ _ Hs).
  - intros h Hh Hn. apply (same_has _ _ _ Hs) in Hh. destruct (H3 h Hh Hn) as (p & Hp & E). exists p. by rewrite (same_has _ _ p Hs).
  - intros h Hh. apply (same_has _ _ _ Hs) in Hh. destruct (H4 h Hh) as (w & E & Hb & Hpar). exists w. rewrite (same_td_of _ _ _ Hs) by apply Hh. split; [done|]. split; [done|].
    intros p wp Hp Ep Ew. apply (same_has _ _ _ Hs) in Hp. rewrite (same_td_of _ _ _ Hs) in Ew by apply Hp. by eapply Hpar.
  - intros x n w Hx Hn. rewrite (same_td _ _ Hs) by done. rewrite (same_header _ _ Hs) by done. eauto.
  - intros x b Hx. rewrite (same_number _ _ Hs) by done. intros Hb. destruct (H6 x b Hx Hb) as (h & Hh & ?). exists h. by rewrite (same_has _ _ _ Hs).
  - intros x n Hx Hn. rewrite (same_raw _ _ Hs), (same_header _ _ Hs) by done. auto.
  - intros h Hh. apply (same_has _ _ _ Hs) in Hh. rewrite (same_number _ _ Hs) by apply P_hash. auto.
Qed.

(** *** A new header *)

(** The tree grew. *)
Definition grown (d d' : DB) : Prop := forall h, has d h -> has d' h /\ td d' h = td d h.

Record added (d : DB) (h : Header) (w : Z) (d' : DB) : Prop := {
  a_has : forall k, has d' k <-> k = h \/ has d k;
  a_td : forall k, P k -> td d' k = if decide (HeaderHash k = HeaderHash h) then Some w else td d k;
  a_canon : forall n, is_u64 n -> GetCanonicalHash d' n = GetCanonicalHash d n;
  a_header : forall x n, is_hash x -> is_u64 n -> ChainDb.GetHeader d' x n = if decide (x = HeaderHash h /\ n = Number h) then Some h else ChainDb.GetHeader d x n;
  a_tds : forall x n, is_hash x -> is_u64 n -> ChainDb.GetTd d' x n = if decide (x = HeaderHash h /\ n = Number h) then Some w else ChainDb.GetTd d x n;
  a_number : forall x, is_hash x -> number_at d' x = if decide (x = HeaderHash h) then Some (encodeBlockNumber (Number h)) else number_at d x;
  a_raw : forall x n, is_hash x -> is_u64 n -> is_Some (header_at d' x n) -> (x = HeaderHash h /\ n = Number h) \/ is_Some (header_at d x n)
}.

Lemma add_header d h w : tree_ok d -> P h -> 0 <= w < 2 ^ 400 ->
  exists d1 d2, ChainDb.WriteTd d (HeaderHash h) (Number h) w = Ret (inr d1) /\ ChainDb.WriteHeader Keccak256 d1 h = Ret (inr d2) /\ added d h w d2.
Proof using W.
  intros Ht Hp Hw. destruct (WriteTd_spec d (HeaderHash h) (Number h) w (P_hash h) (P_u64 h Hp) Hw) as (d1 & E1 & T1 & G1 & N1 & C1 & R1).
  destruct (WriteHeader_spec Keccak256 (w_hash W) d1 h (w_header W h Hp)) as (d2 & E2 & G2 & T2 & N2 & C2 & R2).
  exists d1, d2. split; [done|]. split; [done|].
  assert (A1 : forall x n, is_hash x -> is_u64 n -> ChainDb.GetHeader d2 x n = if decide (x = HeaderHash h /\ n = Number h) then Some h else ChainDb.GetHeader d x n).
  { intros x n Hx Hn. rewrite G2 by done. case_decide; [done|]. by apply G1. }
  assert (A2 : forall x n, is_hash x -> is_u64 n -> ChainDb.GetTd d2 x n = if decide (x = HeaderHash h /\ n = Number h) then Some w else ChainDb.GetTd d x n).
  { intros x n Hx Hn. by rewrite T2, T1 by done. }
  split; [| | |done|done| |].
  - intros k. unfold has. split.
    + intros [Hpk Hk]. rewrite A1 in Hk by (auto using P_hash, P_u64). case_decide; [left; congruence|by right].
    + intros [->|[Hpk Hk]]; (split; [done|]); rewrite A1 by (auto using P_hash, P_u64); case_decide as E; [done|tauto| |done].
      f_equal. symmetry. apply (w_inj W); [done|done|apply E].
  - intros k Hpk. unfold td. rewrite A2 by (auto using P_hash, P_u64). destruct (decide (HeaderHash k = HeaderHash h)) as [E|E].
    + rewrite decide_True; [done|]. by rewrite (w_inj W k h).
    + rewrite decide_False; [done|]. tauto.
  - intros n Hn. by rewrite C2, C1.
  - intros x Hx. rewrite N2 by done. case_decide; [done|]. by apply N1.
  - intros x n Hx Hn H. rewrite <- R1 by done. by apply R2.
Qed.

Lemma child_number p h : P h -> P p -> HeaderHash p = ParentHash h -> 0 < Number h.
Proof using W. intros Hh Hp E. pose proof (w_number W h p Hh Hp E). pose proof (P_u64 p Hp). go_lia. Qed.

(** The tree with a header on top of one of its headers. *)
Lemma added_tree d h p wp d' : tree_ok d -> P h -> has d p -> HeaderHash p = ParentHash h -> td d p = Some wp -> added d h (Difficulty h + wp) d' ->
  tree_ok d' /\ grown d d'.
Proof using W.
  intros Ht Hh Hp Epar Ewp [A1 A2 A3 A4 A5 A6 A7]. pose proof (has_P _ _ Hp) as Hpp. pose proof (w_number W h p Hh Hpp Epar) as Hnum.
  assert (Hgrown : grown d d').
  { intros k Hk. split; [apply A1; by right|]. rewrite A2 by apply Hk. case_decide as E; [|done]. pose proof (w_inj W _ _ (has_P _ _ Hk) Hh E). subst k.
    destruct (t_td d Ht h Hk) as (w & Ew & _ & Hpar). rewrite Ew. f_equal. rewrite (Hpar p wp Hp Epar Ewp). lia. }
  split; [|done]. destruct (t_td d Ht p Hp) as (wp' & Ewp' & Hbp & _). rewrite Ewp in Ewp'. injection Ewp' as <-.
  assert (Hd : 0 <= Difficulty p /\ 0 <= Difficulty h) by (split; [destruct (w_header W p Hpp) as [_ _ _ _ [? _] _ _]|destruct (w_header W h Hh) as [_ _ _ _ [? _] _ _]]; done).
  split.
  - intros x n k Hx Hn. rewrite A4 by done. case_decide as E; [|by apply Ht]. intros [= <-]. tauto.
  - apply A1. right. apply Ht.
  - intros k Hk Hn. apply A1 in Hk as [->|Hk]; [exists p; split; [apply A1; by right|done]|]. destruct (t_parent d Ht k Hk Hn) as (q & Hq & Eq). exists q. split; [apply A1; by right|done].
  - intros k Hk. apply A1 in Hk as [->|Hk].
    + exists (Difficulty h + wp). rewrite A2, decide_True by done. split; [done|]. pose proof (w_bound W h Hh) as [_ Hb]. split; [rewrite Hnum; lia|].
      intros q wq Hq Eq Ewq. assert (q = p) as -> by (apply (w_inj W); [apply Hq|done|congruence]).
      destruct (Hgrown p Hp) as [_ E]. rewrite E in Ewq. rewrite Ewp in Ewq. injection Ewq as <-. lia.
    + destruct (t_td d Ht k Hk) as (w & Ew & Hb & Hpar). destruct (Hgrown k Hk) as [_ E]. exists w. rewrite E. split; [done|]. split; [done|].
      intros q wq Hq Eq Ewq. pose proof (child_number q k (has_P _ _ Hk) (has_P _ _ Hq) Eq) as Hpos. destruct (t_parent d Ht k Hk Hpos) as (q' & Hq' & Eq').
      assert (q' = q) as -> by (apply (w_inj W); [apply Hq'|apply Hq|congruence]). destruct (Hgrown q Hq') as [_ E']. rewrite E' in Ewq. by eapply Hpar.
  - intros x n w Hx Hn. rewrite A5, A4 by done. case_decide; [intros _; by exists h|]. by apply Ht.
  - intros x b Hx. rewrite A6 by done. case_decide as E.
    + intros [= <-]. exists h. split; [apply A1; by left|done].
    + intros Hb. destruct (t_number d Ht x b Hx Hb) as (k & Hk & ?). exists k. split; [apply A1; by right|done].
  - intros x n Hx Hn H. rewrite A4 by done. case_decide; [done|]. apply (t_raw d Ht); [done|done|]. by destruct (A7 x n Hx Hn H).
  - intros k Hk. rewrite A6 by apply P_hash. case_decide as E.
    + f_equal. f_equal. f_equal. symmetry. apply (w_inj W); [by eapply has_P|done|done].
    + apply A1 in Hk as [->|Hk]; [done|]. by apply Ht.
Qed.

(** *** The canonical index *)

Lemma drop_above_spec fuel : forall i m d, (size d < fuel)%nat -> is_u64 i -> is_u64 (m + 1) -> i <= m + 1 ->
  (forall n, i <= n <= m -> GetCanonicalHash d n <> 0) -> GetCanonicalHash d (m + 1) = 0 ->
  exists d', drop_above fuel i d = Ret d' /\ same_headers d d' /\
    forall n, is_u64 n -> GetCanonicalHash d' n = if decide (i <= n <= m) then 0 else GetCanonicalHash d n.
Proof.
  induction fuel as [|fuel IH]; intros i m d Hsz Hi Hm Him Hnz Hz; [lia|]. cbn [drop_above]. destruct (_ =? 0) eqn:E; bool_to_prop.
  - exists d. split; [done|]. split; [done|]. intros n Hn. rewrite decide_False; [done|]. intros Hin.
    apply (Hnz i); [lia|done].
  - assert (Hle : i <= m) by (destruct (decide (i = m + 1)) as [->|]; [done|lia]).
    destruct (DeleteCanonicalHash_spec d i Hi) as [Hs Hc]. rewrite u64_id by go_lia.
    destruct (IH (i + 1) m (DeleteCanonicalHash d i)) as (d' & E' & Hs' & Hc'); [|go_lia|done|lia| | |].
    + unfold DeleteCanonicalHash. unfold GetCanonicalHash, get in E. destruct (d !! canonKey i) as [v|] eqn:Ev; [|done].
      rewrite (map_size_delete_Some _ _ (mk_is_Some _ _ Ev)). assert (size d <> 0%nat) by (intros E0; apply map_size_empty_inv in E0; subst d; by rewrite lookup_empty in Ev). lia.
    + intros n Hn. rewrite Hc by go_lia. rewrite decide_False by lia. apply Hnz. lia.
    + rewrite Hc by done. rewrite decide_False by lia. done.
    + exists d'. split; [done|]. split; [by eapply same_headers_trans|]. intros n Hn. rewrite Hc', Hc by done. repeat case_decide; try done; lia.
Qed.

(** *** The caches *)

Context {C1 C2 C3 : Type} {ops1 : CacheOps C1 Header} {ops2 : CacheOps C2 Z} {ops3 : CacheOps C3 Z}.
Context {laws1 : CacheLaws ops1} {laws2 : CacheLaws ops2} {laws3 : CacheLaws ops3}.
Abbreviation hc := (HeaderChain C1 C2 C3).

Record caches_ok (d : DB) (c : hc) : Prop := {
  k_headers : forall x h, cached (headerCache c) !! x = Some h -> has d h /\ x = HeaderHash h;
  k_tds : forall x w, cached (tdCache c) !! x = Some w -> exists h, has d h /\ x = HeaderHash h /\ td d h = Some w;
  k_numbers : forall x n, cached (numberCache c) !! x = Some n -> exists h, has d h /\ x = HeaderHash h /\ n = Number h
}.

(** Only the caches changed. *)
Definition cache_step (c c' : hc) : Prop :=
  chainDb c' = chainDb c /\ genesisHeader c' = genesisHeader c /\ currentHeader c' = currentHeader c /\ currentHeaderHash c' = currentHeaderHash c.

Lemma caches_grown d d' c : grown d d' -> caches_ok d c -> caches_ok d' c.
Proof.
  intros Hg [H1 H2 H3]. split.
  - intros x h Hx. destruct (H1 x h Hx). by split; [apply Hg|].
  - intros x w Hx. destruct (H2 x w Hx) as (h & Hh & E & Ew). exists h. destruct (Hg h Hh) as [? E']. by rewrite E'.
  - intros x n Hx. destruct (H3 x n Hx) as (h & Hh & E & En). exists h. by split; [apply Hg|].
Qed.

(** The number that goes with a hash. *)
Definition right_number (d : DB) (x : Hash) (n : Z) : Prop := forall h, has d h -> HeaderHash h = x -> n = Number h.

Lemma GetHeader_spec c x n : tree_ok (chainDb c) -> caches_ok (chainDb c) c -> is_hash x -> is_u64 n -> right_number (chainDb c) x n ->
  exists c', GetHeader x n c = Ret (c', ChainDb.GetHeader (chainDb c) x n) /\ cache_step c c' /\ caches_ok (chainDb c) c'.
Proof using laws1.
  intros Ht [K1 K2 K3] Hx Hn Hr. unfold GetHeader. destruct (cache_Get (headerCache c) x) as [y r] eqn:Eg.
  assert (K1' : forall z h, cached y !! z = Some h -> has (chainDb c) h /\ z = HeaderHash h).
  { pose proof (cache_Get_forall (fun z h => has (chainDb c) h /\ z = HeaderHash h) (headerCache c) x K1) as H. by rewrite Eg in H. }
  destruct r as [h|].
  - destruct (K1 x h) as [Hh ->]; [apply cache_Get_found; by rewrite Eg|]. rewrite (Hr h Hh eq_refl). destruct Hh as [Hp Hh]. rewrite Hh.
    eexists. split; [reflexivity|]. split; [done|]. by split.
  - cbn [chainDb with_headers]. destruct (ChainDb.GetHeader (chainDb c) x n) as [h|] eqn:Eh; eexists; (split; [reflexivity|]); (split; [done|]); [|by split].
    split; [|done|done]. cbn. apply cache_Add_forall; [done|]. destruct (self_has _ _ _ _ Ht Hx Hn Eh) as (? & ? & _). done.
Qed.

Lemma GetTd_spec c x n : tree_ok (chainDb c) -> caches_ok (chainDb c) c -> is_hash x -> is_u64 n -> right_number (chainDb c) x n ->
  exists c', GetTd x n c = Ret (c', ChainDb.GetTd (chainDb c) x n) /\ cache_step c c' /\ caches_ok (chainDb c) c'.
Proof using laws2.
  intros Ht [K1 K2 K3] Hx Hn Hr. unfold GetTd. destruct (cache_Get (tdCache c) x) as [y r] eqn:Eg.
  set (Q := fun x w => exists h, has (chainDb c) h /\ x = HeaderHash h /\ td (chainDb c) h = Some w).
  assert (K2' : forall z w, cached y !! z = Some w -> Q z w).
  { pose proof (cache_Get_forall Q (tdCache c) x K2) as H. by rewrite Eg in H. }
  destruct r as [w|].
  - destruct (K2 x w) as (h & Hh & -> & Ew); [apply cache_Get_found; by rewrite Eg|]. rewrite (Hr h Hh eq_refl). unfold td in Ew. rewrite Ew.
    eexists. split; [reflexivity|]. split; [done|]. by split.
  - cbn [chainDb with_tds]. destruct (ChainDb.GetTd (chainDb c) x n) as [w|] eqn:Ew; eexists; (split; [reflexivity|]); (split; [done|]); [|by split].
    split; [done| |done]. cbn. apply (cache_Add_forall Q); [done|]. destruct (t_td_only _ Ht x n w Hx Hn Ew) as [h Hh].
    destruct (self_has _ _ _ _ Ht Hx Hn Hh) as (? & -> & ->). by exists h.
Qed.

(** *** Rerouting *)

(** Canonical entries up to [m] are headers, and their parents are canonical too. *)
Definition closed_to (d : DB) (m : Z) : Prop := GetCanonicalHash d 0 = HeaderHash g /\
  forall n, 0 <= n <= m -> GetCanonicalHash d n <> 0 -> exists k, canon_at d n k /\ (0 < n -> GetCanonicalHash d (n - 1) = ParentHash k).

Lemma closed_linked d m : tree_ok d -> closed_to d m -> GetCanonicalHash d m <> 0 -> linked_to d m.
Proof using W.
  intros Ht [_ Hc] Hm.
  assert (H : forall j : nat, Z.of_nat j <= m -> exists k, canon_at d (m - Z.of_nat j) k).
  { induction j as [|j IH]; intros Hj; [destruct (Hc m) as (k & Hk & _); [lia|done|]; exists k; by rewrite Z.sub_0_r|].
    destruct IH as (k & Hk1 & Hk2 & Hk3); [lia|]. destruct (Hc (m - Z.of_nat j)) as (k' & Hk' & Hpar); [lia|rewrite Hk3; apply (w_nonzero W), Hk1|].
    destruct Hk' as (A & B & C). destruct (t_parent d Ht k' A) as (p & Hp1 & Hp2); [lia|]. pose proof (w_number W k' p (has_P _ _ A) (has_P _ _ Hp1) Hp2).
    exists p. split; [done|]. split; [lia|]. replace (m - Z.of_nat (S j)) with (m - Z.of_nat j - 1) by lia. rewrite Hpar by lia. by rewrite Hp2. }
  intros n Hn. destruct (H (Z.to_nat (m - (n + 1)))) as (k & Hk); [lia|]. replace (m - Z.of_nat _) with (n + 1) in Hk by lia.
  destruct (Hc (n + 1)) as (k' & Hk' & Hpar); [lia|destruct Hk as (A & _ & ->); apply (w_nonzero W), A|]. exists k'. split; [done|].
  specialize (Hpar ltac:(lia)). by rewrite Z.add_simpl_r in Hpar.
Qed.

Lemma same_canon_at d d' n h : same_headers d d' -> GetCanonicalHash d' n = GetCanonicalHash d n -> canon_at d n h -> canon_at d' n h.
Proof using W. intros Hs E (H1 & H2 & H3). split; [by apply (same_has _ _ _ Hs)|]. split; [done|congruence]. Qed.

Lemma same_grown d d' : same_headers d d' -> grown d d'.
Proof using W. intros Hs h Hh. split; [by apply (same_has _ _ _ Hs)|]. apply same_td_of; [done|apply Hh]. Qed.

Definition rest_same (c c' : hc) : Prop := genesisHeader c' = genesisHeader c /\ currentHeader c' = currentHeader c /\ currentHeaderHash c' = currentHeaderHash c.

Record rerouted (c c' : hc) (hh : Header) : Prop := {
  r_rest : rest_same c c';
  r_same : same_headers (chainDb c) (chainDb c');
  r_caches : caches_ok (chainDb c') c';
  r_top : GetCanonicalHash (chainDb c') (Number hh) = HeaderHash hh;
  r_linked : linked_to (chainDb c') (Number hh);
  r_above : forall n, is_u64 n -> Number hh < n -> GetCanonicalHash (chainDb c') n = GetCanonicalHash (chainDb c) n
}.

Lemma child_right_number d h : P h -> 0 < Number h -> right_number d (ParentHash h) (Number h - 1).
Proof using W. intros Hp Hn k Hk E. rewrite (w_number W h k Hp (has_P _ _ Hk) E). lia. Qed.

(** The parent of a header of the tree, read through the caches. *)
Lemma parent_spec c h : tree_ok (chainDb c) -> caches_ok (chainDb c) c -> has (chainDb c) h -> 0 < Number h ->
  exists c' p, GetHeader (ParentHash h) (u64 (big_Uint64 (Number h) - 1)) c = Ret (c', Some p) /\ cache_step c c' /\ caches_ok (chainDb c) c' /\
    has (chainDb c) p /\ HeaderHash p = ParentHash h /\ Number p = Number h - 1.
Proof using W laws1.
  intros Ht Hk Hh Hn. pose proof (P_u64 h (has_P _ _ Hh)) as Hu. rewrite big_Uint64_id, u64_id by (done || go_lia).
  destruct (GetHeader_spec c (ParentHash h) (Number h - 1) Ht Hk (P_parent h (has_P _ _ Hh))) as (c' & E & Hs & Hk'); [go_lia|by apply child_right_number; [apply Hh|]|].
  destruct (t_parent _ Ht h Hh Hn) as (p & Hp & Ep). pose proof (w_number W h p (has_P _ _ Hh) (has_P _ _ Hp) Ep) as Hpn.
  exists c', p. assert (Eg : ChainDb.GetHeader (chainDb c) (ParentHash h) (Number h - 1) = Some p).
  { rewrite <- Ep. replace (Number h - 1) with (Number p) by lia. apply Hp. }
  rewrite Eg in E. split; [done|]. split; [done|]. split; [done|]. split; [done|]. split; [done|lia].
Qed.

Lemma reroute_spec fuel : forall (c : hc) hh, tree_ok (chainDb c) -> caches_ok (chainDb c) c -> has (chainDb c) hh -> (Z.to_nat (Number hh) < fuel)%nat ->
  closed_to (chainDb c) (Number hh) -> exists c', reroute fuel (HeaderHash hh) (Number hh) (Some hh) c = Ret (c', tt) /\ rerouted c c' hh.
Proof using W laws1.
  induction fuel as [|fuel IH]; intros c hh Ht Hk Hh Hf Hcl; [lia|]. cbn [reroute]. rewrite bind_gets. pose proof (P_u64 hh (has_P _ _ Hh)) as Hu.
  destruct (_ =? _) eqn:E; bool_to_prop.
  - exists c. split; [done|]. split; [done|done|done|done| |done]. apply closed_linked; [done|done|]. rewrite E. apply (w_nonzero W), Hh.
  - assert (Hpos : 0 < Number hh).
    { destruct (decide (Number hh = 0)) as [E0|]; [|go_lia]. exfalso. apply E. rewrite E0, (proj1 Hcl). by rewrite (w_root W hh (has_P _ _ Hh) E0). }
    unfold on_db. rewrite bind_modify. set (d1 := WriteCanonicalHash _ _ _).
    destruct (WriteCanonicalHash_spec (chainDb c) (HeaderHash hh) (Number hh) (P_hash hh) Hu) as [Hs1 Hc1]. fold d1 in Hs1, Hc1.
    rewrite (bind_lift (deref (Some hh)) _ _ hh) by done. cbn zeta. set (c1 := with_db d1 c).
    assert (Ht1 : tree_ok (chainDb c1)) by (by eapply same_tree). assert (Hk1 : caches_ok (chainDb c1) c1) by (eapply caches_grown; [by apply same_grown|]; by destruct Hk).
    assert (Hh1 : has (chainDb c1) hh) by (by apply (same_has _ _ _ Hs1)).
    destruct (parent_spec c1 hh Ht1 Hk1 Hh1 Hpos) as (c2 & p & E2 & Hstep & Hk2 & Hp & Epar & Epn). rewrite (bind_eval _ _ _ _ _ E2).
    assert (Enum : u64 (big_Uint64 (Number hh) - 1) = Number p) by (rewrite big_Uint64_id, u64_id by (done || go_lia); lia). rewrite Enum, <- Epar.
    destruct Hstep as (Ed2 & Er2). destruct (IH c2 p) as (c3 & E3 & [R1 R2 R3 R4 R5 R6]); [by rewrite Ed2|by rewrite Ed2|by rewrite Ed2|lia| |].
    { rewrite Ed2. split; [rewrite Hc1 by go_lia; rewrite decide_False by lia; apply Hcl|]. intros n Hn Hnz. assert (Hnu : is_u64 n) by go_lia. rewrite Hc1, decide_False in Hnz by (done || lia).
      destruct (proj2 Hcl n) as (k & Hka & Hkp); [lia|done|]. exists k. split; [eapply same_canon_at; [exact Hs1| |exact Hka]; rewrite Hc1, decide_False by (done || lia); done|].
      intros Hn0. rewrite Hc1 by go_lia. rewrite decide_False by lia. by apply Hkp. }
    exists c3. split; [done|]. rewrite Ed2 in *. cbn [chainDb c1 with_db] in *.
    assert (Hab : forall n, is_u64 n -> Number hh < n -> GetCanonicalHash (chainDb c3) n = GetCanonicalHash (chainDb c) n).
    { intros n Hn Hlt. rewrite R6 by (done || lia). rewrite Hc1 by done. by rewrite decide_False by lia. }
    assert (Htop : GetCanonicalHash (chainDb c3) (Number hh) = HeaderHash hh) by (rewrite R6 by (done || lia); rewrite Hc1 by done; by rewrite decide_True).
    assert (Hs3 : same_headers (chainDb c) (chainDb c3)) by (by eapply same_headers_trans).
    split; [unfold rest_same in *; destruct R1 as (-> & -> & ->), Er2 as (-> & -> & ->); done|done|done|done| |done].
    intros n Hn. destruct (decide (n = Number p)) as [->|Hne]; [|apply R5; lia]. exists hh. rewrite R4. replace (Number p + 1) with (Number hh) by lia.
    split; [|done]. split; [by apply (same_has _ _ _ Hs3)|done].
Qed.

(** *** A new head *)

Record headed (c c' : hc) (h : Header) : Prop := {
  h_genesis : genesisHeader c' = genesisHeader c;
  h_current : currentHeader c' = Some h /\ currentHeaderHash c' = HeaderHash h;
  h_same : same_headers (chainDb c) (chainDb c');
  h_caches : caches_ok (chainDb c') c';
  h_canon : canon_ok (chainDb c') h
}.

Lemma canon_closed d head : tree_ok d -> canon_ok d head -> closed_to d (Number head).
Proof using W.
  intros Ht [Hh Ha Hl]. pose proof (P_u64 head (has_P _ _ (proj1 Hh))) as Hu. split.
  - destruct (canon_header d _ head Ht Hl Hh 0) as (k & Hk & En & ->); [go_lia|]. f_equal. apply (w_root W); [apply Hk|done].
  - intros n Hn _. destruct (canon_header d _ head Ht Hl Hh n Hn) as (k & Hk). exists k. split; [done|]. intros Hpos.
    destruct (Hl (n - 1)) as (k' & Hk' & ->); [lia|]. replace (n - 1 + 1) with n in Hk' by lia. f_equal.
    destruct Hk as (A & _ & B), Hk' as (A' & _ & B'). apply (w_inj W); [apply A'|apply A|congruence].
Qed.

(** The index with the numbers above a new height dropped. *)
Lemma dropped_closed d d' m top : tree_ok d -> canon_ok d top -> same_headers d d' -> is_u64 m ->
  (forall n, is_u64 n -> GetCanonicalHash d' n = if decide (m < n) then 0 else GetCanonicalHash d n) -> closed_to d' m.
Proof using W.
  intros Ht Hc Hs Hm Hd. destruct (canon_closed d top Ht Hc) as [H0 Hcl]. split; [rewrite Hd by go_lia; rewrite decide_False by go_lia; done|].
  intros n Hn Hnz. rewrite Hd, decide_False in Hnz by (go_lia || lia). assert (Hle : n <= Number top).
  { destruct (decide (n <= Number top)) as [|Hgt]; [done|]. exfalso. apply Hnz. apply (c_above _ _ Hc); [go_lia|lia]. }
  destruct (Hcl n) as (k & Hk & Hpar); [lia|done|]. exists k. split; [eapply same_canon_at; [done| |done]; rewrite Hd by go_lia; by rewrite decide_False by lia|].
  intros Hpos. rewrite Hd by go_lia. rewrite decide_False by lia. auto.
Qed.

Lemma drop_spec d top h : tree_ok d -> canon_ok d top -> P h ->
  exists d', drop_above (S (size d)) (u64 (big_Uint64 (Number h) + 1)) d = Ret d' /\ same_headers d d' /\
    forall n, is_u64 n -> GetCanonicalHash d' n = if decide (Number h < n) then 0 else GetCanonicalHash d n.
Proof using W.
  intros Ht Hc Hp. pose proof (P_u64 h Hp) as Hu. destruct Hc as [Hh Ha Hl]. pose proof (has_P _ _ (proj1 Hh)) as Hpt. pose proof (P_u64 top Hpt) as Hut.
  pose proof (w_bound W h Hp) as [Hb _]. pose proof (w_bound W top Hpt) as [Hbt _]. rewrite big_Uint64_id, u64_id by (done || go_lia).
  destruct (drop_above_spec (S (size d)) (Number h + 1) (Z.max (Number h) (Number top)) d) as (d' & E & Hs & Hn); [lia|go_lia|go_lia|lia| | |].
  - intros n Hn. destruct (canon_header d _ top Ht Hl Hh n) as (k & Hk & _ & ->); [go_lia|]. apply (w_nonzero W), Hk.
  - apply Ha; [go_lia|lia].
  - exists d'. split; [done|]. split; [done|]. intros n Hu'. rewrite Hn by done. repeat case_decide; try done; [lia|]. apply Ha; [done|lia].
Qed.

Lemma make_canonical_spec (c : hc) top h : tree_ok (chainDb c) -> caches_ok (chainDb c) c -> canon_ok (chainDb c) top -> has (chainDb c) h -> 0 < Number h ->
  exists c', make_canonical Keccak256 h c = Ret (c', tt) /\ headed c c' h.
Proof using W laws1.
  intros Ht Hk Hc Hh Hpos. pose proof (has_P _ _ Hh) as Hp. pose proof (P_u64 h Hp) as Hu. unfold make_canonical. cbn zeta. rewrite bind_gets.
  destruct (drop_spec (chainDb c) top h Ht Hc Hp) as (d1 & E1 & Hs1 & Hd1). rewrite (bind_lift _ _ _ _ E1), bind_modify. set (c1 := with_db d1 c).
  assert (Ht1 : tree_ok (chainDb c1)) by (by eapply same_tree). assert (Hk1 : caches_ok (chainDb c1) c1) by (eapply caches_grown; [by apply same_grown|]; by destruct Hk).
  assert (Hh1 : has (chainDb c1) h) by (by apply (same_has _ _ _ Hs1)).
  destruct (parent_spec c1 h Ht1 Hk1 Hh1 Hpos) as (c2 & p & E2 & (Ed2 & Er2) & Hk2 & Hpp & Epar & Epn). rewrite (bind_eval _ _ _ _ _ E2).
  assert (Enum : u64 (big_Uint64 (Number h) - 1) = Number p) by (rewrite big_Uint64_id, u64_id by (done || go_lia); lia). rewrite Enum, <- Epar. rewrite big_Uint64_id by done.
  pose proof (P_u64 p (has_P _ _ Hpp)) as Hup.
  destruct (reroute_spec (S (Z.to_nat (Number h))) c2 p) as (c3 & E3 & [R1 R2 R3 R4 R5 R6]); [by rewrite Ed2|by rewrite Ed2|by rewrite Ed2|lia| |].
  { rewrite Ed2. pose proof (dropped_closed (chainDb c) d1 (Number h) top Ht Hc Hs1 Hu Hd1) as [G1 G2]. split; [done|]. intros n Hn. apply G2. lia. }
  rewrite (bind_eval _ _ _ _ _ E3). unfold on_db. rewrite !bind_modify. eexists. split; [reflexivity|]. rewrite Ed2 in *. cbn [chainDb c1 with_db] in *.
  destruct (WriteCanonicalHash_spec (chainDb c3) (HeaderHash h) (Number h) (P_hash h) Hu) as [Hs4 Hc4].
  destruct (WriteHeadHeaderHash_spec (WriteCanonicalHash (chainDb c3) (HeaderHash h) (Number h)) (HeaderHash h)) as [Hs5 Hc5].
  set (d4 := WriteCanonicalHash _ _ _) in *. set (d5 := WriteHeadHeaderHash _ _) in *. assert (Hs35 : same_headers (chainDb c3) d5) by (by eapply same_headers_trans).
  assert (Hs : same_headers (chainDb c) d5) by (eapply same_headers_trans; [exact Hs1|]; by eapply same_headers_trans).
  assert (Hh5 : has d5 h) by (by apply (same_has _ _ _ Hs)).
  assert (Hcan : forall n, is_u64 n -> GetCanonicalHash d5 n = if decide (n = Number h) then HeaderHash h else GetCanonicalHash (chainDb c3) n).
  { intros n Hn. rewrite Hc5, Hc4 by done. by repeat case_decide. }
  split; cbn [chainDb genesisHeader currentHeader currentHeaderHash with_db with_current with_hash]; fold d4; fold d5.
  - destruct R1 as (-> & _), Er2 as (-> & _). done.
  - done.
  - done.
  - eapply caches_grown; [apply (same_grown (chainDb c3)), Hs35|]. by destruct R3.
  - split.
    + split; [done|]. split; [done|]. by rewrite Hcan, decide_True.
    + intros n Hn Hlt. rewrite Hcan, decide_False by (done || lia). rewrite R6 by (done || lia). by rewrite Hd1, decide_True by (done || lia).
    + intros n Hn. destruct (decide (n = Number p)) as [->|Hne].
      * exists h. replace (Number p + 1) with (Number h) by lia. rewrite (Hcan (Number p)) by done. rewrite decide_False by lia. split; [|by rewrite R4].
        split; [done|]. split; [done|]. by rewrite Hcan, decide_True.
      * destruct (R5 n) as (k & Hka & Hkp); [lia|]. exists k. rewrite (Hcan n) by go_lia. rewrite decide_False by lia. split; [|done].
        eapply same_canon_at; [exact Hs35| |exact Hka]. rewrite Hcan by go_lia. by rewrite decide_False by lia.
Qed.

(** *** The invariant of the chain *)

Record Inv (c : hc) (head : Header) : Prop := {
  i_tree : tree_ok (chainDb c);
  i_caches : caches_ok (chainDb c) c;
  i_current : currentHeader c = Some head /\ currentHeaderHash c = HeaderHash head;
  i_canon : canon_ok (chainDb c) head;
  i_heaviest : heaviest (chainDb c) head;
  i_root : td (chainDb c) g = Some (Difficulty g);
  i_genesis : genesisHeader c = g
}.

Lemma parent_number h k : P h -> P k -> HeaderHash k = ParentHash h -> u64 (big_Uint64 (Number h) - 1) = Number k.
Proof using W.
  intros Hh Hk E. pose proof (w_number W h k Hh Hk E). pose proof (P_u64 h Hh) as Hu. pose proof (P_u64 k Hk) as Hu'.
  rewrite big_Uint64_id by done. replace (Number h - 1) with (Number k) by lia. by apply u64_id.
Qed.

(** The difficulty of the parent, read through the caches. *)
Lemma parent_td c h : tree_ok (chainDb c) -> caches_ok (chainDb c) c -> P h ->
  exists c' r, GetTd (ParentHash h) (u64 (big_Uint64 (Number h) - 1)) c = Ret (c', r) /\ cache_step c c' /\ caches_ok (chainDb c) c' /\
    match r with
    | None => forall p, has (chainDb c) p -> HeaderHash p <> ParentHash h
    | Some wp => exists p, has (chainDb c) p /\ HeaderHash p = ParentHash h /\ td (chainDb c) p = Some wp
    end.
Proof using W laws2.
  intros Ht Hk Hp. set (n := u64 _). assert (Hn : is_u64 n) by apply u64_range.
  destruct (GetTd_spec c (ParentHash h) n Ht Hk (P_parent h Hp) Hn) as (c' & E & Hs & Hk'); [intros k [Hk' _]; by apply parent_number|].
  exists c', (ChainDb.GetTd (chainDb c) (ParentHash h) n). split; [done|]. split; [done|]. split; [done|].
  destruct (ChainDb.GetTd _ _ _) as [wp|] eqn:Ew.
  - destruct (t_td_only _ Ht _ _ _ (P_parent h Hp) Hn Ew) as [p Ep]. destruct (self_has _ _ _ _ Ht (P_parent h Hp) Hn Ep) as (A & B & C).
    exists p. split; [done|]. split; [done|]. unfold td. by rewrite <- B, <- C.
  - intros p Hpp Epar. pose proof (parent_number h p Hp (has_P _ _ Hpp) Epar) as En. fold n in En. destruct (t_td _ Ht p Hpp) as (w & Et & _).
    unfold td in Et. rewrite Epar, <- En, Ew in Et. done.
Qed.

Lemma td_spec c h : tree_ok (chainDb c) -> caches_ok (chainDb c) c -> has (chainDb c) h ->
  exists c', GetTd (HeaderHash h) (big_Uint64 (Number h)) c = Ret (c', td (chainDb c) h) /\ cache_step c c' /\ caches_ok (chainDb c) c'.
Proof using W laws2.
  intros Ht Hk Hh. pose proof (P_u64 h (has_P _ _ Hh)) as Hu. rewrite big_Uint64_id by done. apply GetTd_spec; [done|done|apply P_hash|done|].
  intros k Hk' E. f_equal. symmetry. apply (w_inj W); [apply Hk'|apply Hh|done].
Qed.

Lemma added_caches d d' h w (c : hc) : grown d d' -> caches_ok d c -> added d h w d' -> P h ->
  caches_ok d' (with_db d' (with_tds (cache_Add (tdCache c) (HeaderHash h) w) c)).
Proof using laws2.
  intros Hg Hk Ha Hp. destruct (caches_grown _ _ _ Hg Hk) as [K1 K2 K3]. split; [done| |done]. cbn.
  apply (cache_Add_forall (fun x w => exists h, has d' h /\ x = HeaderHash h /\ td d' h = Some w)); [done|].
  exists h. split; [apply (a_has _ _ _ _ Ha); by left|]. split; [done|]. by rewrite (a_td _ _ _ _ Ha), decide_True.
Qed.

(** The end of [WriteHeader]. *)
Lemma remembered d (c : hc) h : has d h -> caches_ok d c ->
  caches_ok d (with_numbers (cache_Add (numberCache c) (HeaderHash h) (Number h)) (with_headers (cache_Add (headerCache c) (HeaderHash h) h) c)).
Proof using laws1 laws3.
  intros Hh [K1 K2 K3]. split; cbn; [|done|].
  - apply (cache_Add_forall (fun x h => has d h /\ x = HeaderHash h)); [done|]. by split.
  - apply (cache_Add_forall (fun x n => exists h, has d h /\ x = HeaderHash h /\ n = Number h)); [done|]. by exists h.
Qed.

Lemma added_canon d h w d' head : added d h w d' -> grown d d' -> P head -> canon_ok d head -> canon_ok d' head.
Proof using W.
  intros Ha Hg Hp [[H1 [H2 H3]] Hab Hl]. pose proof (P_u64 head Hp) as Hu. pose proof (a_canon _ _ _ _ Ha) as Hc. split.
  - split; [by apply Hg|]. split; [done|]. by rewrite Hc.
  - intros n Hn Hlt. rewrite Hc by done. by apply Hab.
  - intros n Hn. destruct (Hl n Hn) as (k & (K1 & K2 & K3) & Hpar). exists k. rewrite Hc by go_lia. split; [|done]. split; [by apply Hg|]. split; [done|]. rewrite Hc by go_lia. done.
Qed.

Lemma td_small d h w : tree_ok d -> has d h -> td d h = Some w -> 0 <= w /\ w <= 2 ^ 64 * 2 ^ 256.
Proof using W.
  intros Ht Hh Ew. destruct (t_td d Ht h Hh) as (w' & E & Hb & _). rewrite Ew in E. injection E as <-.
  pose proof (has_P _ _ Hh) as Hp. pose proof (P_u64 h Hp). destruct (w_header W h Hp) as [_ _ _ _ [? _] _ _]. split; [lia|].
  etrans; [apply Hb|]. apply Z.mul_le_mono_nonneg_r; [done|]. change (2 ^ 64) with (MaxUint64 + 1). pose proof (w_bound W h Hp) as [? _]. lia.
Qed.

Lemma heaviest_extended d d' h w wc head : added d h w d' -> grown d d' -> heaviest d head -> has d head -> td d head = Some wc ->
  (wc <= w -> heaviest d' h) /\ (w <= wc -> heaviest d' head).
Proof.
  intros Ha Hg Hh Hhd Ewc. pose proof (a_has _ _ _ _ Ha) as H1. pose proof (a_td _ _ _ _ Ha) as H2. destruct (Hg head Hhd) as [_ Etd].
  split; intros Hle k wk w' Hk Ek E; apply H1 in Hk as [->|Hk].
  - rewrite Ek in E. injection E as <-. lia.
  - destruct (Hg k Hk) as [_ Ekd]. rewrite Ekd in Ek. assert (Hw : wk <= wc) by (by eapply Hh).
    assert (Hp : P h) by (eapply has_P, H1; by left). rewrite H2, decide_True in E by done. injection E as <-. lia.
  - assert (Hp : P h) by (eapply has_P, H1; by left). rewrite H2, decide_True in Ek by done. injection Ek as <-. rewrite Etd, Ewc in E. injection E as <-. lia.
  - destruct (Hg k Hk) as [_ Ekd]. rewrite Ekd in Ek. rewrite Etd in E. by eapply Hh.
Qed.

(** The tree after a header was written, and who is the head. *)
Record written (coin : bool) (c : hc) (head h : Header) (c' : hc) (st : WriteStatus) : Prop := {
  wr_has : forall k, has (chainDb c') k <-> k = h \/ has (chainDb c) k;
  wr_status : exists w wc, td (chainDb c') h = Some w /\ td (chainDb c) head = Some wc /\
    st = if (wc <? w) || (w =? wc) && coin then CanonStatTy else SideStatTy;
  wr_inv : Inv c' (match st with CanonStatTy => h | _ => head end)
}.

Lemma step_caches d (c c' : hc) : cache_step c c' -> chainDb c = d -> chainDb c' = d.
Proof. intros (-> & _). done. Qed.

(** The first half of [WriteHeader]: the header and its difficulty are stored. *)
Lemma WriteHeader_stored coin (c : hc) head h : Inv c head -> P h ->
  exists c1, cache_step c c1 /\ caches_ok (chainDb c) c1 /\
    ((WriteHeader Keccak256 coin h c = Ret (c1, inl ErrUnknownAncestor) /\ forall p, has (chainDb c) p -> HeaderHash p <> ParentHash h) \/
     exists w wc d', 0 < Number h /\ td (chainDb c) head = Some wc /\ added (chainDb c) h w d' /\ tree_ok d' /\ grown (chainDb c) d' /\
       WriteHeader Keccak256 coin h c = (status ← (if (wc <? w) || (w =? wc) && coin then _ ← make_canonical Keccak256 h; mret CanonStatTy else mret SideStatTy);
              _ ← modify (fun c => with_headers (cache_Add (headerCache c) (HeaderHash h) h) c);
              _ ← modify (fun c => with_numbers (cache_Add (numberCache c) (HeaderHash h) (big_Uint64 (Number h))) c);
              mret (inr status)) (with_db d' (with_tds (cache_Add (tdCache c1) (HeaderHash h) w) c1))).
Proof using W laws2.
  intros [Ht Hk [Hcur Hcurh] Hc Hhv _ Hg] Hp. unfold WriteHeader. cbn zeta.
  destruct (parent_td c h Ht Hk Hp) as (c1 & r & E1 & Hs1 & Hk1 & Hr). rewrite (bind_eval _ _ _ _ _ E1). destruct r as [wp|]; [|exists c1; auto 6].
  destruct Hr as (p & Hpp & Epar & Ewp). destruct Hs1 as (Ed1 & Eg1 & Ec1 & Eh1).
  assert (E2 : CurrentHeader c1 = Ret (c1, head)) by (unfold CurrentHeader; by rewrite Ec1, Hcur). rewrite (bind_eval _ _ _ _ _ E2), bind_gets, Eh1, Hcurh.
  assert (Hhead : has (chainDb c) head) by apply Hc.
  destruct (td_spec c1 head) as (c2 & E3 & (Ed2 & Eg2 & Ec2 & Eh2) & Hk2); [by rewrite Ed1..|]. rewrite (bind_eval _ _ _ _ _ E3). rewrite Ed1 in *.
  destruct (t_td _ Ht head Hhead) as (wc & Ewc & _). pose proof (has_P _ _ Hpp) as HPp. pose proof (P_u64 h Hp) as Hu.
  pose proof (td_small _ _ _ Ht Hpp Ewp) as Hwp. pose proof (w_bound W h Hp) as [_ Hdb]. destruct (w_header W h Hp) as [_ _ _ _ [Hd0 _] _ _].
  destruct (add_header (chainDb c) h (Difficulty h + wp) Ht Hp) as (d1 & d2 & E4 & E5 & Ha).
  { split; [lia|]. eapply Z.le_lt_trans; [apply Z.add_le_mono; [exact Hdb|apply Hwp]|done]. }
  destruct (added_tree _ _ _ _ _ Ht Hp Hpp Epar Ewp Ha) as [Ht' Hg'].
  exists c2. split; [unfold cache_step; rewrite Ed2, Eg2, Ec2, Eh2; auto|]. split; [done|]. right. exists (Difficulty h + wp), wc, d2.
  split; [by eapply child_number|]. split; [done|]. split; [done|]. split; [done|]. split; [done|].
  rewrite (bind_eval (WriteTd _ _ _) _ _ (with_tds (cache_Add (tdCache c2) (HeaderHash h) (Difficulty h + wp)) (with_db d1 c2)) None).
  2: { unfold WriteTd. rewrite Ed2, big_Uint64_id by done. rewrite E4. done. }
  rewrite bind_gets. cbn [chainDb with_tds with_db]. rewrite (bind_lift _ _ _ _ E5), bind_modify.
  rewrite (bind_lift (deref (td (chainDb c) head)) _ _ wc) by (by rewrite Ewc). done.
Qed.

Lemma WriteHeader_inv coin (c : hc) head h : Inv c head -> P h ->
  exists c' r, WriteHeader Keccak256 coin h c = Ret (c', r) /\
    match r with
    | inl e => e = ErrUnknownAncestor /\ chainDb c' = chainDb c /\ Inv c' head /\ forall p, has (chainDb c) p -> HeaderHash p <> ParentHash h
    | inr st => written coin c head h c' st
    end.
Proof using W laws1 laws2 laws3.
  intros HI Hp. pose proof HI as [Ht Hk [Hcur Hcurh] Hc Hhv Hrt Hg].
  destruct (WriteHeader_stored coin c head h HI Hp) as (c1 & (Ed1 & Eg1 & Ec1 & Eh1) & Hk1 & [(E & Hno)|(w & wc & d' & Hpos & Ewc & Ha & Ht' & Hg' & E)]).
  - exists c1, (inl ErrUnknownAncestor). split; [done|]. split; [done|]. split; [done|]. split; [|done].
    split; rewrite ?Ed1; try done; [split; congruence|congruence].
  - pose proof (added_caches _ _ _ _ _ Hg' Hk1 Ha Hp) as Hk2. set (c2 := with_db _ _) in *. assert (Hh2 : has (chainDb c2) h) by (apply (a_has _ _ _ _ Ha); by left).
    assert (Hhead : has (chainDb c) head) by apply Hc. assert (Hc2 : canon_ok (chainDb c2) head) by (eapply added_canon; [done|done|apply Hhead|done]).
    assert (Hrt' : td d' g = Some (Difficulty g)) by (rewrite <- Hrt; apply Hg', Ht). assert (Ew : td d' h = Some w) by (by rewrite (a_td _ _ _ _ Ha), decide_True). destruct (heaviest_extended _ _ _ _ _ _ Ha Hg' Hhv Hhead Ewc) as [Hv1 Hv2].
    rewrite E. rewrite big_Uint64_id by (by apply P_u64). destruct (_ || _) eqn:Eb.
    + destruct (make_canonical_spec c2 head h Ht' Hk2 Hc2 Hh2 Hpos) as (c3 & E3 & [R1 R2 R3 R4 R5]).
      rewrite (bind_eval _ _ _ c3 CanonStatTy) by (by rewrite (bind_eval _ _ _ _ _ E3)). rewrite !bind_modify. eexists _, _. split; [reflexivity|].
      assert (Hh3 : has (chainDb c3) h) by apply R5. split.
      * intros k. cbn [chainDb with_headers with_numbers]. rewrite (same_has _ _ _ R3). apply (a_has _ _ _ _ Ha).
      * exists w, wc. cbn [chainDb with_headers with_numbers]. rewrite (same_td_of _ _ _ R3 Hp). split; [exact Ew|]. split; [done|]. by rewrite Eb.
      * split; [by eapply same_tree|exact (remembered _ c3 h Hh3 R4)|done|done| |etrans; [exact (same_td_of _ _ _ R3 (proj1 (w_genesis W)))|exact Hrt']|by rewrite <- Hg, <- Eg1].
        intros k wk w' Hkk Ek Ek'. cbn [chainDb with_headers with_numbers] in *. apply (same_has _ _ _ R3) in Hkk. rewrite (same_td_of _ _ _ R3) in Ek by apply Hkk.
        rewrite (same_td_of _ _ _ R3 Hp) in Ek'. eapply Hv1; [|done..]. bool_to_prop; lia.
    + change (mret SideStatTy) with (mret (M := SM hc) SideStatTy). rewrite (bind_eval _ _ _ c2 SideStatTy) by done. rewrite !bind_modify. eexists _, _. split; [reflexivity|]. split.
      * apply (a_has _ _ _ _ Ha).
      * exists w, wc. split; [exact Ew|]. split; [done|]. by rewrite Eb.
      * split; [done|exact (remembered _ c2 h Hh2 Hk2)|cbn; split; congruence|done| |done|cbn; congruence]. apply Hv2. apply orb_false_iff in Eb as [Eb _]. bool_to_prop. lia.
Qed.

(** *** Inserting chains *)

Lemma HasHeader_spec c h : tree_ok (chainDb c) -> caches_ok (chainDb c) c -> P h ->
  exists b, HasHeader (HeaderHash h) (big_Uint64 (Number h)) c = Ret (c, b) /\ (b = true <-> has (chainDb c) h).
Proof using W laws1 laws3.
  intros Ht [K1 _ K3] Hp. pose proof (P_u64 h Hp) as Hu. rewrite big_Uint64_id by done. eexists. split; [reflexivity|].
  rewrite !orb_true_iff, bool_decide_eq_true. split.
  - intros [[Hn|Hh]|Hd].
    + apply cache_Contains_held in Hn as [n Hn]. destruct (K3 _ _ Hn) as (k & Hk & E & _). by rewrite (w_inj W h k Hp (has_P _ _ Hk) E).
    + apply cache_Contains_held in Hh as [k Hk]. destruct (K1 _ _ Hk) as (Hk' & E). by rewrite (w_inj W h k Hp (has_P _ _ Hk') E).
    + destruct (t_raw _ Ht _ _ (P_hash h) Hu Hd) as [k Hk]. destruct (self_has _ _ _ _ Ht (P_hash h) Hu Hk) as (Hk' & E & _). by rewrite (w_inj W h k Hp (has_P _ _ Hk') E).
  - intros [_ Hg]. right. unfold ChainDb.GetHeader, GetHeaderRLP, get in Hg. by destruct (chainDb c !! _).
Qed.

Section Insert.
Context (interrupted coins : nat -> bool).

(** What [InsertHeaderChain] did, from position [i] on. *)
Record inserted (i : nat) (chain : list Header) (c c' : hc) (r : nat * option ChainError) : Prop := {
  in_inv : exists head', Inv c' head';
  in_kept : forall k, has (chainDb c) k -> has (chainDb c') k;
  in_new : forall k, has (chainDb c') k -> has (chainDb c) k \/ k ∈ chain;
  in_result : match r with
    | (n, None) => n = 0%nat /\ Forall (has (chainDb c')) chain
    | (n, Some ErrAborted) => (i <= n)%nat /\ interrupted n = true /\ Forall (has (chainDb c')) (take (n - i) chain)
    | (n, Some ErrUnknownAncestor) => (i <= n)%nat /\ Forall (has (chainDb c')) (take (n - i) chain) /\
        exists h, chain !! (n - i)%nat = Some h /\ forall p, has (chainDb c') p -> HeaderHash p <> ParentHash h
    | _ => False
    end
}.

Lemma take_later (n i : nat) (h : Header) chain : (S i <= n)%nat -> take (n - i) (h :: chain) = h :: take (n - S i) chain /\ (h :: chain) !! (n - i)%nat = chain !! (n - S i)%nat.
Proof. intros Hn. replace (n - i)%nat with (S (n - S i)) by lia. done. Qed.

(** One more header in front, stored by now. *)
Lemma inserted_cons i h chain c c1 c' r : (forall k, has (chainDb c1) k <-> k = h \/ has (chainDb c) k) -> inserted (S i) chain c1 c' r -> inserted i (h :: chain) c c' r.
Proof.
  intros H1 [I1 I2 I3 I4]. assert (Hh : has (chainDb c') h) by (apply I2, H1; by left). split; [done| | |].
  - intros k Hk. apply I2, H1. by right.
  - intros k Hk. destruct (I3 k Hk) as [Hk'|]; [|right; by constructor]. apply H1 in Hk' as [->|]; [right; by constructor|by left].
  - destruct r as [n [e|]]; [destruct e; try done|].
    + destruct I4 as (A & B & C). destruct (take_later n i h chain A) as [-> ->]. split; [lia|]. split; [by constructor|done].
    + destruct I4 as (A & B & C). destruct (take_later n i h chain A) as [-> _]. split; [lia|]. split; [done|by constructor].
    + destruct I4 as [-> C]. split; [done|by constructor].
Qed.

Lemma insert_from_spec chain : forall i c head, Inv c head -> Forall P chain ->
  exists c' r, insert_from Keccak256 interrupted coins i chain c = Ret (c', r) /\ inserted i chain c c' r.
Proof using W laws1 laws2 laws3.
  induction chain as [|h chain IH]; intros i c head HI HP; cbn [insert_from].
  - exists c, (0%nat, None). split; [done|]. split; [by exists head|done|by left|by split].
  - apply Forall_cons in HP as [Hp HP]. destruct (interrupted i) eqn:Ei.
    { exists c, (i, Some ErrAborted). split; [done|]. split; [by exists head|done|by left|]. rewrite Nat.sub_diag. split; [lia|]. by split. }
    destruct (HasHeader_spec c h (i_tree _ _ HI) (i_caches _ _ HI) Hp) as (b & E & Hb). rewrite (bind_eval _ _ _ _ _ E). destruct b.
    + destruct (IH (S i) c head HI HP) as (c' & r & E' & Hin). exists c', r. split; [done|]. eapply inserted_cons; [|exact Hin]. intros k. split; [by right|]. intros [->|]; [by apply Hb|done].
    + destruct (WriteHeader_inv (coins i) c head h HI Hp) as (c1 & r & E1 & Hr). rewrite (bind_eval _ _ _ _ _ E1). destruct r as [e|st].
      * destruct Hr as (-> & Ed & HI1 & Hno). exists c1, (i, Some ErrUnknownAncestor). split; [done|]. split; rewrite ?Ed; [by exists head|done|by left|].
        rewrite Nat.sub_diag. split; [lia|]. split; [done|]. by exists h.
      * destruct Hr as [Wh _ Wi]. destruct (IH (S i) c1 _ Wi HP) as (c' & r & E' & Hin). exists c', r. split; [done|]. by eapply inserted_cons.
Qed.

End Insert.

End Tree.

End HeaderChainProps.
