(* ===== verification/HeaderChainClaims.v ===== *)
(** The header chain from its genesis block on: which headers are stored, which is the
    head, and what the canonical index holds; rewinding. *)

From S2P Require Import Prelude Params Bytes Cache RlpEncode RlpDecode RlpRoundtrip Consensus ChainDb ChainDbProps Genesis HeaderChain HeaderChainProps.
Import ChainDb ChainDbProps Genesis HeaderChain HeaderChainProps.

Module HeaderChainClaims.

Section Claims.
Context (Keccak256 : bytes -> Hash) (g : Header) (P : Header -> Prop).
Abbreviation HeaderHash := (HeaderHash Keccak256).
Abbreviation has := (has Keccak256 P).
Abbreviation td := (td Keccak256).

(** The line of ancestors of a header, down to the genesis block. *)
Inductive line : Header -> list Header -> Prop :=
| line_genesis : line g [g]
| line_child h p l : line p l -> HeaderHash p = ParentHash h -> line h (h :: l).

Definition total (l : list Header) : Z := foldr (fun h w => Difficulty h + w) 0 l.

(** The hash at a number of a line. *)
Definition at_number (l : list Header) (n : Z) : Hash := default 0 (HeaderHash <$> reverse l !! Z.to_nat n).

Context (W : world_ok Keccak256 g P).

Lemma line_has d h : tree_ok Keccak256 g P d -> td d g = Some (Difficulty g) -> has d h ->
  exists l, line h l /\ Forall (has d) l /\ td d h = Some (total l).
Proof using W.
  intros Ht Hroot. remember (Z.to_nat (Number h)) as n eqn:En. revert h En. induction n as [|n IH]; intros h En Hh; pose proof (P_u64 _ _ _ W h (has_P _ _ _ _ Hh)) as Hu.
  - assert (h = g) as -> by (apply (w_root _ _ _ W); [apply Hh|go_lia]). exists [g]. split; [constructor|]. split; [by apply Forall_singleton|]. rewrite Hroot. cbn. f_equal. lia.
  - destruct (t_parent _ _ _ _ Ht h Hh) as (p & Hp & Ep); [go_lia|]. pose proof (w_number _ _ _ W h p (has_P _ _ _ _ Hh) (has_P _ _ _ _ Hp) Ep).
    destruct (IH p) as (l & L1 & L2 & L3); [lia|done|]. exists (h :: l). split; [by econstructor|]. split; [by constructor|].
    destruct (t_td _ _ _ _ Ht h Hh) as (w & Ew & _ & Hpar). rewrite Ew. f_equal. rewrite (Hpar p _ Hp Ep L3). change (total (h :: l)) with (Difficulty h + total l). lia.
Qed.

Lemma line_length h l : line h l -> Forall P l -> Z.of_nat (length l) = Number h + 1.
Proof using W.
  induction 1 as [|h p l L IH E]; intros HP; [cbn; pose proof (w_genesis _ _ _ W); lia|]. apply Forall_cons in HP as [Hp HP]. cbn [length].
  assert (Hpp : P p) by (inversion L; subst; by apply Forall_cons in HP as [? _]). rewrite (w_number _ _ _ W h p Hp Hpp E). specialize (IH HP). lia.
Qed.

(** The canonical index below a canonical header is its line. *)
Lemma line_canon d m h l : linked_to Keccak256 P d m -> line h l -> Forall (has d) l -> forall n, n <= m -> canon_at Keccak256 P d n h ->
  forall j k, l !! j = Some k -> canon_at Keccak256 P d (n - Z.of_nat j) k.
Proof using W.
  intros Hl L. induction L as [|h p l L IH E]; intros Hd n Hn Hc j k Hj.
  - destruct j; [|done]. injection Hj as <-. by rewrite Z.sub_0_r.
  - apply Forall_cons in Hd as [Hh Hd]. assert (Hp : has d p) by (inversion L; subst; by apply Forall_cons in Hd as [? _]).
    destruct j as [|j]; [injection Hj as <-; by rewrite Z.sub_0_r|]. cbn in Hj. replace (n - Z.of_nat (S j)) with (n - 1 - Z.of_nat j) by lia.
    pose proof (w_number _ _ _ W h p (has_P _ _ _ _ Hh) (has_P _ _ _ _ Hp) E) as Hnum. pose proof (P_u64 _ _ _ W p (has_P _ _ _ _ Hp)) as Hu. destruct Hc as (_ & Hnh & Hch).
    apply IH; [done|lia| |done]. split; [done|]. split; [lia|]. destruct (Hl (n - 1)) as (k' & (K1 & K2 & K3) & Hpar); [go_lia|].
    replace (n - 1 + 1) with n in K3 by lia. rewrite Hpar, E. f_equal. apply (w_inj _ _ _ W); [apply K1|apply Hh|congruence].
Qed.

Lemma canon_index d head l : canon_ok Keccak256 P d head -> line head l -> Forall (has d) l -> forall n, is_u64 n -> GetCanonicalHash d n = at_number l n.
Proof using W.
  intros [Hh Ha Hl] L Hd n Hn. assert (HP : Forall P l) by (eapply Forall_impl; [exact Hd|]; intros ? [? _]; done). pose proof (line_length _ _ L HP) as Hlen. unfold at_number.
  destruct (decide (n <= Number head)) as [Hle|Hgt].
  - destruct (l !! (length l - S (Z.to_nat n))%nat) as [k|] eqn:Ek; [|apply lookup_ge_None in Ek; go_lia].
    rewrite reverse_lookup by go_lia. rewrite Ek. cbn. destruct (line_canon d (Number head) head l Hl L Hd (Number head) ltac:(lia) Hh _ _ Ek) as (_ & _ & Hc).
    rewrite <- Hc. f_equal. go_lia.
  - rewrite Ha by (done || lia). rewrite lookup_ge_None_2; [done|]. rewrite length_reverse. go_lia.
Qed.

(** *** The committed genesis block *)

Record genesis_view (d : DB) : Prop := {
  gv_header : forall x n, is_hash x -> is_u64 n -> ChainDb.GetHeader d x n = if decide (x = HeaderHash g /\ n = 0) then Some g else None;
  gv_td : forall x n, is_hash x -> is_u64 n -> ChainDb.GetTd d x n = if decide (x = HeaderHash g /\ n = 0) then Some (Difficulty g) else None;
  gv_number : forall x, is_hash x -> number_at d x = if decide (x = HeaderHash g) then Some (encodeBlockNumber 0) else None;
  gv_raw : forall x n, is_hash x -> is_u64 n -> is_Some (header_at d x n) -> x = HeaderHash g /\ n = 0;
  gv_canon : forall n, is_u64 n -> GetCanonicalHash d n = if decide (n = 0) then HeaderHash g else 0;
  gv_head : GetHeadBlockHash d = HeaderHash g
}.

Context (Marshal : ChainConfig -> bytes).

Lemma genesis_ok : P g /\ header_ok g /\ Number g = 0 /\ is_hash (HeaderHash g) /\ 0 <= Difficulty g < 2 ^ 400.
Proof using W.
  destruct (w_genesis _ _ _ W) as [Hp Hn]. pose proof (w_header _ _ _ W g Hp) as Hok. split; [done|]. split; [done|]. split; [done|].
  split; [apply (P_hash _ _ _ W)|]. pose proof (w_bound _ _ _ W g Hp) as [_ ?]. destruct Hok as [_ _ _ _ [? _] _ _]. split; [done|]. eapply Z.le_lt_trans; [done|]. done.
Qed.

(** The writes of [Commit] that the header chain does not read. *)
Lemma views_put d i v : item_ok i -> match i with IBody _ _ | IReceipts _ _ | IHeadHeader | IHeadBlock | IConfig _ => True | _ => False end ->
  same_headers d (<[key i := v]> d) /\ forall n, is_u64 n -> GetCanonicalHash (<[key i := v]> d) n = GetCanonicalHash d n.
Proof. intros Hi Hk. split; [apply put_same_headers; [done|by destruct i]|]. intros n Hn. rewrite GetCanonicalHash_put by done. rewrite decide_False; [done|]. by intros ->. Qed.

Lemma Commit_view (gen : Genesis) body : gDifficulty gen = Some (Difficulty g) ->
  exists d, Commit Keccak256 Marshal ∅ gen (Some (g, body)) = Ret (d, inr (g, body)) /\ genesis_view d.
Proof using W.
  intros Hdf. destruct genesis_ok as (Hp & Hok & Hn & Hx & Hd). assert (H0 : is_u64 0) by go_lia. cbn [Commit]. unfold commit_block. rewrite Hn, Hdf. cbn [Z.eqb negb].
  change (big_Uint64 0) with 0. destruct (WriteTd_spec ∅ (HeaderHash g) 0 (Difficulty g) Hx H0 Hd) as (d1 & E1 & T1 & G1 & N1 & C1 & R1). unfold ChainDb.WriteTd in E1.
  destruct (Rlp.EncodeToBytes _ _) as [[e|data]|]; [done| |done]. cbn [mbind outcome_bind] in E1 |- *. injection E1 as <-. unfold WriteBlock. rewrite Hn. change (big_Uint64 0) with 0.
  set (d1 := <[tdKey _ _ := data]> ∅) in *. destruct (views_put d1 (IBody (HeaderHash g) 0) body) as [S2 C2]; [done|done|]. cbn [key] in S2, C2. unfold WriteBodyRLP. set (d2 := <[blockBodyKey _ _ := _]> d1) in *.
  destruct (WriteHeader_spec Keccak256 (w_hash _ _ _ W) d2 g Hok) as (d3 & E3 & G3 & T3 & N3 & C3 & R3). rewrite Hn in G3, N3, R3. rewrite E3.
  eexists. split; [reflexivity|]. unfold WriteChainConfig, WriteBlockReceipts.
  destruct (views_put d3 (IReceipts (HeaderHash g) 0) [192]) as [S4 C4]; [done|done|]. cbn [key] in S4, C4. set (d4 := <[receiptsKey _ _ := _]> d3) in *.
  destruct (WriteCanonicalHash_spec d4 (HeaderHash g) 0 Hx H0) as [S5 C5]. set (d5 := WriteCanonicalHash _ _ _) in *.
  destruct (views_put d5 IHeadBlock (hash_bytes (HeaderHash g))) as [S6 C6]; [done|done|]. cbn [key] in S6, C6. unfold WriteHeadBlockHash. set (d6 := <[headBlockKey := _]> d5) in *.
  destruct (views_put d6 IHeadHeader (hash_bytes (HeaderHash g))) as [S7 C7]; [done|done|]. cbn [key] in S7, C7. unfold WriteHeadHeaderHash. set (d7 := <[headHeaderKey := _]> d6) in *.
  destruct (views_put d7 (IConfig (HeaderHash g)) (Marshal (config0 gen))) as [S8 C8]; [done|done|]. cbn [key] in S8, C8. set (d8 := <[configKey _ := _]> d7) in *.
  assert (S38 : same_headers d3 d8) by eauto 8 using same_headers_trans.
  split.
  - intros x n Hxx Hnn. rewrite (same_header _ _ S38), G3 by done. case_decide; [done|]. rewrite (same_header _ _ S2), G1 by done. done.
  - intros x n Hxx Hnn. rewrite (same_td _ _ S38), T3, (same_td _ _ S2), T1 by done. by case_decide.
  - intros x Hxx. rewrite (same_number _ _ S38), N3 by done. case_decide; [done|]. by rewrite (same_number _ _ S2), N1 by done.
  - intros x n Hxx Hnn H. rewrite (same_raw _ _ S38) in H by done. destruct (R3 x n Hxx Hnn H) as [|H2]; [done|].
    rewrite (same_raw _ _ S2), R1 in H2 by done. unfold header_at in H2. rewrite lookup_empty in H2. by destruct H2.
  - intros n Hnn. rewrite C8, C7, C6, C5 by done. case_decide; [done|]. rewrite C4, C3, C2, C1 by done. unfold GetCanonicalHash, get. by rewrite lookup_empty.
  - unfold GetHeadBlockHash. change headBlockKey with (key IHeadBlock). unfold d8. change (configKey (HeaderHash g)) with (key (IConfig (HeaderHash g))). rewrite get_put_other by done.
    unfold d7. change headHeaderKey with (key IHeadHeader). rewrite get_put_other by done. unfold d6. change headBlockKey with (key IHeadBlock). rewrite get_put_same. by apply read_hash_bytes.
Qed.

Lemma genesis_tree d : genesis_view d -> tree_ok Keccak256 g P d /\ (forall h, has d h <-> h = g) /\ td d g = Some (Difficulty g).
Proof using W.
  intros [V1 V2 V3 V4 V5 V6]. destruct genesis_ok as (Hp & Hok & Hn & Hx & Hd). assert (H0 : is_u64 0) by go_lia.
  assert (Hhas : forall h, has d h <-> h = g).
  { intros h. unfold HeaderChainProps.has. split.
    - intros [Hph E]. rewrite V1 in E by (apply (P_hash _ _ _ W) || by apply (P_u64 _ _ _ W)). case_decide; [congruence|done].
    - intros ->. split; [done|]. rewrite Hn, V1 by done. by rewrite decide_True. }
  assert (Htd : td d g = Some (Difficulty g)) by (unfold HeaderChainProps.td; rewrite Hn, V2, decide_True by done; done).
  split; [|done]. split.
  - intros x n h Hxx Hnn. rewrite V1 by done. case_decide as E; [|done]. intros [= <-]. destruct E as [-> ->]. by rewrite Hn.
  - by apply Hhas.
  - intros h Hh. apply Hhas in Hh as ->. lia.
  - intros h Hh. apply Hhas in Hh as ->. exists (Difficulty g). split; [done|]. split; [rewrite Hn; pose proof (w_bound _ _ _ W g Hp); lia|].
    intros p wp Hpp E _. apply Hhas in Hpp as ->. pose proof (w_number _ _ _ W g g Hp Hp E). lia.
  - intros x n w Hxx Hnn. rewrite V2, V1 by done. case_decide; [by exists g|done].
  - intros x b Hxx. rewrite V3 by done. case_decide as E; [|done]. intros [= <-]. exists g. rewrite Hn. by rewrite Hhas.
  - intros x n Hxx Hnn H. rewrite V1 by done. rewrite decide_True by (by apply V4). done.
  - intros h Hh. apply Hhas in Hh as ->. rewrite V3, decide_True by done. by rewrite Hn.
Qed.

(** *** Opening the chain *)

Context {C1 C2 C3 : Type} {ops1 : CacheOps C1 Header} {ops2 : CacheOps C2 Z} {ops3 : CacheOps C3 Z}.
Context {laws1 : CacheLaws ops1} {laws2 : CacheLaws ops2} {laws3 : CacheLaws ops3}.
Abbreviation hc := (HeaderChain C1 C2 C3).
Abbreviation Inv := (Inv Keccak256 g P).
Abbreviation caches_ok := (caches_ok Keccak256 P).

Lemma GetBlockNumber_spec (c : hc) h : tree_ok Keccak256 g P (chainDb c) -> caches_ok (chainDb c) c -> has (chainDb c) h ->
  exists c', GetBlockNumber (HeaderHash h) c = Ret (c', Number h) /\ cache_step c c' /\ caches_ok (chainDb c) c'.
Proof using W laws3.
  intros Ht [K1 K2 K3] Hh. pose proof (P_u64 _ _ _ W h (has_P _ _ _ _ Hh)) as Hu. unfold GetBlockNumber. destruct (cache_Get (numberCache c) (HeaderHash h)) as [y r] eqn:Eg.
  set (Q := fun x n => exists h, has (chainDb c) h /\ x = HeaderHash h /\ n = Number h).
  assert (K3' : forall z n, cached y !! z = Some n -> Q z n) by (pose proof (cache_Get_forall Q (numberCache c) (HeaderHash h) K3) as H; by rewrite Eg in H).
  destruct r as [n|].
  - destruct (K3 (HeaderHash h) n) as (k & Hk & E & ->); [apply cache_Get_found; by rewrite Eg|]. rewrite (w_inj _ _ _ W h k (has_P _ _ _ _ Hh) (has_P _ _ _ _ Hk) E).
    eexists. split; [reflexivity|]. split; [done|]. by split.
  - cbn [chainDb with_numbers]. unfold GetBlockNumber2. pose proof (t_index _ _ _ _ Ht h Hh) as Ei. unfold number_at in Ei. rewrite Ei.
    assert (Eb : be_Uint64 (encodeBlockNumber (Number h)) = Ret (Number h)).
    { unfold be_Uint64, len. rewrite length_encodeBlockNumber. cbn [Z.ltb]. rewrite take_ge by (by rewrite length_encodeBlockNumber). by rewrite be_value_word. }
    destruct (encodeBlockNumber (Number h)) as [|z bs] eqn:Ee; [by pose proof (length_encodeBlockNumber (Number h)) as H; rewrite Ee in H|].
    rewrite Eb. eexists. split; [reflexivity|]. split; [done|]. split; [done|done|]. apply (cache_Add_forall Q); [done|]. by exists h.
Qed.

Lemma GetHeaderByHash_spec (c : hc) h : tree_ok Keccak256 g P (chainDb c) -> caches_ok (chainDb c) c -> has (chainDb c) h ->
  exists c', GetHeaderByHash (HeaderHash h) c = Ret (c', Some h) /\ cache_step c c' /\ caches_ok (chainDb c) c'.
Proof using W laws1 laws3.
  intros Ht Hk Hh. unfold GetHeaderByHash. destruct (GetBlockNumber_spec c h Ht Hk Hh) as (c1 & E1 & (D1 & G1 & H1 & X1) & Hk1). rewrite (bind_eval _ _ _ _ _ E1).
  pose proof (has_P _ _ _ _ Hh) as Hp. destruct (GetHeader_spec Keccak256 g P c1 (HeaderHash h) (Number h)) as (c2 & E2 & (D2 & G2 & H2 & X2) & Hk2);
    [by rewrite D1|by rewrite D1|apply (P_hash _ _ _ W)|by apply (P_u64 _ _ _ W)| |].
  { intros k Hk' E. f_equal. symmetry. apply (w_inj _ _ _ W); [by eapply has_P|done|done]. }
  exists c2. rewrite E2, D1. split; [by rewrite (proj2 Hh)|]. split; [unfold cache_step; rewrite D2, G2, H2, X2; auto|]. by rewrite <- D1.
Qed.

Lemma NewHeaderChain_spec d (k1 : C1) (k2 : C2) (k3 : C3) : genesis_view d -> cached k1 = ∅ -> cached k2 = ∅ -> cached k3 = ∅ ->
  exists c, NewHeaderChain Keccak256 d k1 k2 k3 = Ret (inr c) /\ Inv c g /\ chainDb c = d.
Proof using W laws1 laws3.
  intros V E1 E2 E3. destruct (genesis_tree d V) as (Ht & Hhas & Htd). destruct genesis_ok as (Hp & _ & Hn & Hx & _). assert (Hg : has d g) by (by apply Hhas).
  unfold NewHeaderChain. set (blank := mkHeader _ _ _ _ _ _ _ _ _ _ _ _ _ _ _ _ _ _ _ _). set (c0 := MkHc d blank None 0 k1 k2 k3).
  assert (Hk0 : caches_ok d c0) by (split; cbn; intros x y; rewrite ?E1, ?E2, ?E3, lookup_empty; done).
  unfold GetHeaderByNumber. rewrite bind_gets. cbn [chainDb c0]. rewrite (gv_canon _ V) by go_lia. rewrite decide_True by done.
  destruct (_ =? 0) eqn:Ez; bool_to_prop; [by apply (w_nonzero _ _ _ W) in Ez|].
  destruct (GetHeader_spec Keccak256 g P c0 (HeaderHash g) 0 Ht Hk0 Hx) as (c1 & E & (D1 & _) & Hk1); [go_lia|intros k Hk _; apply Hhas in Hk as ->; done|].
  rewrite E. cbn [mbind outcome_bind chainDb c0]. rewrite (gv_header _ V) by (done || go_lia). rewrite decide_True by done. cbn zeta. cbn [chainDb]. rewrite D1. cbn [chainDb c0]. rewrite (gv_head _ V).
  destruct (_ =? 0) eqn:Ez'; bool_to_prop; [done|]. set (c2 := MkHc _ g (Some g) 0 _ _ _).
  destruct (GetHeaderByHash_spec c2 g) as (c3 & E3' & (D3 & G3 & H3 & X3) & Hk3); [done|by destruct Hk1|done|]. rewrite E3'. cbn [mbind outcome_bind].
  eexists. split; [reflexivity|]. split; [|by cbn; rewrite D3]. cbn [chainDb c2] in *. split; cbn [chainDb with_hash with_current genesisHeader currentHeader currentHeaderHash]; rewrite ?D3; cbn [chainDb c2]; try done.
  - by destruct Hk3.
  - split; [split; [done|]; split; [done|]; by rewrite Hn, (gv_canon _ V), decide_True by go_lia| |].
    + intros n Hnn Hlt. rewrite (gv_canon _ V) by done. by rewrite decide_False by lia.
    + intros n Hnn. lia.
  - intros h w w' Hh Ew Ew'. apply Hhas in Hh as ->. rewrite Ew in Ew'. injection Ew' as <-. lia.
Qed.

(** *** Insertions *)

(** The states reached by inserting chains of headers, whatever the interrupts and the
    coins. *)
Inductive reach (c0 : hc) : hc -> Prop :=
| reach_open : reach c0 c0
| reach_insert c interrupted coins chain c' r : reach c0 c -> Forall P chain -> InsertHeaderChain Keccak256 interrupted coins chain c = Ret (c', r) -> reach c0 c'.

Lemma InsertHeaderChain_spec interrupted coins chain (c : hc) head : Inv c head -> Forall P chain -> chain <> [] ->
  exists c' r, InsertHeaderChain Keccak256 interrupted coins chain c = Ret (c', r) /\ inserted Keccak256 g P interrupted 0 chain c c' r.
Proof using W laws1 laws2 laws3.
  intros HI HP Hne. destruct (insert_from_spec _ _ _ W interrupted coins chain 0 c head HI HP) as (c' & r & E & Hin). exists c', r. split; [|done].
  unfold InsertHeaderChain. rewrite (bind_eval _ _ _ _ _ E). destruct chain; [done|]. by destruct r as [? [?|]].
Qed.

Lemma reach_inv c0 c : (exists head, Inv c0 head) -> reach c0 c -> exists head, Inv c head.
Proof using W laws1 laws2 laws3.
  intros H0. induction 1 as [|c interrupted coins chain c' r _ [head IH] HP E]; [done|]. destruct (decide (chain = [])) as [->|Hne].
  - unfold InsertHeaderChain in E. cbn in E. done.
  - destruct (InsertHeaderChain_spec interrupted coins chain c head IH HP Hne) as (c1 & r1 & E1 & Hin). rewrite E in E1. injection E1 as <- <-. apply Hin.
Qed.

(** *** Rewinding *)

(** A callback that leaves the records of headers alone. *)
Definition harmless (delFn : option DeleteCallback) : Prop :=
  forall f x m d, delFn = Some f -> same_headers d (f x m d) /\ forall n, is_u64 n -> GetCanonicalHash (f x m d) n = GetCanonicalHash d n.

Definition stale_ok (d : DB) (c : hc) : Prop := forall x h, cached (headerCache c) !! x = Some h -> has d h /\ x = HeaderHash h.

Lemma GetHeader_stale d (c : hc) p n : stale_ok d c -> has d p -> has (chainDb c) p -> n = Number p ->
  exists c', GetHeader (HeaderHash p) n c = Ret (c', Some p) /\ cache_step c c' /\ stale_ok d c'.
Proof using W laws1.
  intros Hs Hd Hp ->. unfold GetHeader. destruct (cache_Get (headerCache c) (HeaderHash p)) as [y r] eqn:Eg.
  assert (Hy : forall x h, cached y !! x = Some h -> has d h /\ x = HeaderHash h) by (pose proof (cache_Get_forall (fun x h => has d h /\ x = HeaderHash h) (headerCache c) (HeaderHash p) Hs) as H; by rewrite Eg in H).
  destruct r as [h|].
  - destruct (Hs (HeaderHash p) h) as [Hh E]; [apply cache_Get_found; by rewrite Eg|]. rewrite (w_inj _ _ _ W p h (has_P _ _ _ _ Hd) (has_P _ _ _ _ Hh) E). eexists. split; [reflexivity|]. by split.
  - cbn [chainDb with_headers]. rewrite (proj2 Hp). eexists. split; [reflexivity|]. split; [done|]. unfold stale_ok. cbn.
    apply (cache_Add_forall (fun x h => has d h /\ x = HeaderHash h)); [done|]. by split.
Qed.

(** The headers [rem] are gone, and nothing else changed. *)
Record removed (d d' : DB) (rem : list Header) : Prop := {
  rm_has : forall k, has d' k <-> has d k /\ k ∉ rem;
  rm_td : forall k, P k -> k ∉ rem -> td d' k = td d k;
  rm_canon : forall n, is_u64 n -> GetCanonicalHash d' n = GetCanonicalHash d n
}.

Lemma removed_trans a b c l l' : removed a b l -> removed b c l' -> removed a c (l ++ l').
Proof.
  intros [H1 T1 C1'] [H2 T2 C2']. split.
  - intros k. rewrite H2, H1, elem_of_app. tauto.
  - intros k Hp Hk. rewrite elem_of_app in Hk. rewrite T2, T1; [done|done|tauto|done|tauto].
  - intros n Hn. by rewrite C2', C1'.
Qed.

Lemma same_removed d d' : same_headers d d' -> (forall n, is_u64 n -> GetCanonicalHash d' n = GetCanonicalHash d n) -> removed d d' [].
Proof using W.
  intros Hs Hc. split; [|intros k Hp _; by eapply same_td_of|done]. intros k. rewrite (same_has _ _ _ W _ _ _ Hs). split; [intros ?; split; [done|apply not_elem_of_nil]|tauto].
Qed.

Lemma delete_removed d h : P h -> removed d (DeleteTd (DeleteHeader d (HeaderHash h) (Number h)) (HeaderHash h) (Number h)) [h].
Proof using W.
  intros Hp. pose proof (P_u64 _ _ _ W h Hp) as Hu. pose proof (P_hash _ _ _ W h) as Hx. destruct (DeleteHeaderTd_spec d (HeaderHash h) (Number h) Hx Hu) as (D1 & D2 & _ & D4).
  split; [| |done].
  - intros k. unfold HeaderChainProps.has. rewrite list_elem_of_singleton. split.
    + intros [Hk E]. rewrite D1 in E by (apply (P_hash _ _ _ W) || by apply (P_u64 _ _ _ W)). case_decide as Ed; [done|]. split; [done|]. intros ->. tauto.
    + intros [[Hk E] Hne]. split; [done|]. rewrite D1 by (apply (P_hash _ _ _ W) || by apply (P_u64 _ _ _ W)). case_decide as Ed; [|done]. destruct Hne, Ed as [Ed _]. by apply (w_inj _ _ _ W).
  - intros k Hk Hne. rewrite list_elem_of_singleton in Hne. unfold HeaderChainProps.td. rewrite D2 by (apply (P_hash _ _ _ W) || by apply (P_u64 _ _ _ W)).
    case_decide as Ed; [|done]. destruct Hne, Ed as [Ed _]. by apply (w_inj _ _ _ W).
Qed.

Lemma line_below h l : line h l -> Forall P l -> exists l', l = h :: l' /\ Forall (fun k => Number k < Number h) l'.
Proof using W.
  induction 1 as [|h p l L IH E]; intros HP; [by exists []|]. exists l. split; [done|]. apply Forall_cons in HP as [Hp HP]. destruct (IH HP) as (l' & -> & Hl'). apply Forall_cons in HP as [Hpp HP].
  pose proof (w_number _ _ _ W h p Hp Hpp E). constructor; [lia|]. eapply Forall_impl; [exact Hl'|]. cbn. lia.
Qed.

Lemma line_inv h l : line h (h :: l) -> (h = g /\ l = []) \/ exists p, line p l /\ HeaderHash p = ParentHash h.
Proof. inversion 1; subst; [by left|right; eauto]. Qed.

Lemma unwind_spec fuel n delFn : harmless delFn -> 0 <= n -> forall (c : hc) d h l, line h l -> Forall (has d) l -> Forall (has (chainDb c)) l -> stale_ok d c ->
  currentHeader c = Some h -> (Z.to_nat (Number h) < fuel)%nat ->
  exists c' t, unwind Keccak256 fuel n delFn c = Ret (c', tt) /\ let j := Z.to_nat (Number h - n) in line t (drop j l) /\ currentHeader c' = Some t /\
    genesisHeader c' = genesisHeader c /\ removed (chainDb c) (chainDb c') (take j l).
Proof using W laws1.
  intros Hdel Hn. induction fuel as [|fuel IH]; intros c d h l L Hd Hc Hs Hcur Hf; [lia|]. cbn [unwind]. rewrite bind_gets, Hcur.
  assert (HP : Forall P l) by (eapply Forall_impl; [exact Hd|]; intros ? [? _]; done). destruct (line_below h l L HP) as (l' & El & Hlow).
  assert (Hh : has d h) by (subst l; by apply Forall_cons in Hd as [? _]). pose proof (has_P _ _ _ _ Hh) as Hp. pose proof (P_u64 _ _ _ W h Hp) as Hu. rewrite big_Uint64_id by done.
  destruct (n <? Number h) eqn:Elt; bool_to_prop; cbn [negb].
  - unfold on_db. rewrite !bind_modify. set (c1 := with_db _ (with_db _ (with_db _ c))).
    assert (Hr1 : removed (chainDb c) (chainDb c1) [h]).
    { unfold c1. cbn [chainDb with_db]. destruct delFn as [f|] eqn:Ef; [|by apply delete_removed]. destruct (Hdel f (HeaderHash h) (Number h) (chainDb c) eq_refl) as [Hs1 Hc1].
      change [h] with ([] ++ [h]). eapply removed_trans; [by apply same_removed|by apply delete_removed]. }
    subst l. apply line_inv in L as [[-> ->]|(p & Lp & Ep)]; [pose proof (w_genesis _ _ _ W); lia|]. rename l' into l.
    apply Forall_cons in Hd as [_ Hd]. apply Forall_cons in Hc as [_ Hc]. apply Forall_cons in HP as [_ HP]. destruct (line_below p l Lp HP) as (l2 & El2 & _).
    assert (Hpd : has d p) by (subst l; by apply Forall_cons in Hd as [? _]). pose proof (w_number _ _ _ W h p Hp (has_P _ _ _ _ Hpd) Ep) as Hnum.
    pose proof (P_u64 _ _ _ W p (has_P _ _ _ _ Hpd)) as Hup.
    assert (Hc1 : Forall (has (chainDb c1)) l).
    { apply Forall_forall. intros k Hk. apply (rm_has _ _ _ Hr1). rewrite Forall_forall in Hc, Hlow. split; [by apply Hc|]. rewrite list_elem_of_singleton. intros ->. specialize (Hlow h Hk). lia. }
    rewrite <- Ep. destruct (GetHeader_stale d c1 p (u64 (Number h - 1))) as (c2 & E2 & (D2 & G2 & H2 & X2) & Hs2); [done|done|subst l; by apply Forall_cons in Hc1 as [? _]|rewrite u64_id by go_lia; lia|].
    rewrite (bind_eval _ _ _ _ _ E2), bind_modify. destruct (IH (with_current (Some p) c2) d p l Lp Hd) as (c' & t & E3 & T1 & T2 & T3 & T4); [by cbn; rewrite D2|done|done|lia|].
    exists c', t. split; [done|]. cbn zeta. replace (Z.to_nat (Number h - n)) with (S (Z.to_nat (Number p - n))) by lia. cbn [drop take]. split; [done|]. split; [done|].
    split; [by rewrite T3; cbn; rewrite G2|]. change (h :: take _ l) with ([h] ++ take (Z.to_nat (Number p - n)) l). eapply removed_trans; [exact Hr1|]. cbn in T4. by rewrite D2 in T4.
  - exists c, h. split; [done|]. cbn zeta. replace (Z.to_nat (Number h - n)) with 0%nat by lia. rewrite drop_0, take_0. split; [done|]. split; [done|]. split; [done|]. by apply same_removed.
Qed.

Lemma drop_down_spec fuel : forall i n d, is_u64 i -> 0 <= n -> (Z.to_nat (i - n) <= fuel)%nat ->
  same_headers d (drop_down fuel i n d) /\ forall m, is_u64 m -> GetCanonicalHash (drop_down fuel i n d) m = if decide (n < m <= i) then 0 else GetCanonicalHash d m.
Proof.
  induction fuel as [|fuel IH]; intros i n d Hi Hn Hf; cbn [drop_down].
  - split; [done|]. intros m Hm. by rewrite decide_False by lia.
  - destruct (n <? i) eqn:E; bool_to_prop; [|split; [done|]; intros m Hm; by rewrite decide_False by lia].
    destruct (DeleteCanonicalHash_spec d i Hi) as [Hs Hc]. destruct (IH (i - 1) n (DeleteCanonicalHash d i)) as [Hs' Hc']; [go_lia|done|lia|].
    split; [by eapply same_headers_trans|]. intros m Hm. rewrite Hc', Hc by done. repeat case_decide; try done; lia.
Qed.

(** *** The claims *)

(** What a reader of the chain finds when it was built by insertions. *)
Lemma inv_view (c : hc) head : Inv c head -> exists l, line head l /\ Forall (has (chainDb c)) l /\
  (forall h, has (chainDb c) h -> exists lh, line h lh /\ td (chainDb c) h = Some (total lh) /\ total lh <= total l) /\
  (forall n, is_u64 n -> GetCanonicalHash (chainDb c) n = at_number l n).
Proof using W.
  intros [Ht _ _ Hc Hv Hr _]. assert (Hh : has (chainDb c) head) by apply Hc. destruct (line_has _ head Ht Hr Hh) as (l & L & Hd & Htd). exists l. split; [done|]. split; [done|]. split.
  - intros h Hh'. destruct (line_has _ h Ht Hr Hh') as (lh & L' & _ & E). exists lh. split; [done|]. split; [done|]. by eapply Hv.
  - by apply (canon_index _ head).
Qed.

(** The chain opened on a database with nothing but the committed genesis block. *)
Definition opened (gen : Genesis) (body : bytes) (k1 : C1) (k2 : C2) (k3 : C3) (c0 : hc) : Prop :=
  exists d0, Commit Keccak256 Marshal ∅ gen (Some (g, body)) = Ret (d0, inr (g, body)) /\ NewHeaderChain Keccak256 d0 k1 k2 k3 = Ret (inr c0).

Definition fresh_caches (k1 : C1) (k2 : C2) (k3 : C3) : Prop := cached k1 = ∅ /\ cached k2 = ∅ /\ cached k3 = ∅.

Lemma opened_inv gen body (k1 : C1) (k2 : C2) (k3 : C3) : gDifficulty gen = Some (Difficulty g) -> fresh_caches k1 k2 k3 -> exists c0, opened gen body k1 k2 k3 c0 /\ Inv c0 g.
Proof using W laws1 laws3.
  intros Hdf (E1 & E2 & E3). destruct (Commit_view gen body Hdf) as (d0 & E & V). destruct (NewHeaderChain_spec d0 k1 k2 k3 V E1 E2 E3) as (c0 & E0 & HI & _). exists c0. split; [by exists d0|done].
Qed.

Lemma opened_reach gen body (k1 : C1) (k2 : C2) (k3 : C3) c0 c : gDifficulty gen = Some (Difficulty g) -> fresh_caches k1 k2 k3 -> opened gen body k1 k2 k3 c0 -> reach c0 c -> exists head, Inv c head.
Proof using W laws1 laws2 laws3.
  intros Hdf Hf (d0 & E & E0). destruct (opened_inv gen body k1 k2 k3 Hdf Hf) as (c1 & (d1 & E' & E0') & HI). rewrite E in E'. injection E' as <-. rewrite E0 in E0'. injection E0' as <-.
  apply reach_inv. by exists g.
Qed.

(** C5: Opening the chain on a committed genesis block succeeds, and after any sequence
    of insertions of header chains, whatever the interrupts and coin tosses: every stored
    header descends from the genesis block and its stored total difficulty is the sum of
    the difficulties of its line; the current header is a heaviest one; and the canonical
    index holds exactly the hashes of its line and nothing above it. *)
Theorem fork_choice gen body (k1 : C1) (k2 : C2) (k3 : C3) : gDifficulty gen = Some (Difficulty g) -> fresh_caches k1 k2 k3 ->
  exists c0, opened gen body k1 k2 k3 c0 /\ forall c, reach c0 c -> exists head l,
    currentHeader c = Some head /\ currentHeaderHash c = HeaderHash head /\ line head l /\ Forall (has (chainDb c)) l /\
    (forall h, has (chainDb c) h -> exists lh, line h lh /\ td (chainDb c) h = Some (total lh) /\ total lh <= total l) /\
    (forall n, is_u64 n -> GetCanonicalHash (chainDb c) n = at_number l n).
Proof using W laws1 laws2 laws3.
  intros Hdf Hf. destruct (opened_inv gen body k1 k2 k3 Hdf Hf) as (c0 & Ho & HI0). exists c0. split; [done|]. intros c Hr.
  destruct (opened_reach _ _ _ _ _ _ _ Hdf Hf Ho Hr) as [head HI]. destruct (inv_view c head HI) as (l & L). exists head, l. destruct (i_current _ _ _ _ _ HI) as [E1 E2]. done.
Qed.


(** The heights of a line, from the header down. *)
Lemma line_take h l n : line h l -> Forall P l -> 0 <= n -> forall k, k ∈ take (Z.to_nat (Number h - n)) l <-> k ∈ l /\ n < Number k.
Proof using W.
  intros L. induction L as [|h p l L IH E]; intros HP Hn k.
  - pose proof (w_genesis _ _ _ W) as [_ Hg]. replace (Z.to_nat (Number g - n)) with 0%nat by lia. rewrite take_0, elem_of_nil, list_elem_of_singleton. split; [done|]. intros [-> ?]. lia.
  - apply Forall_cons in HP as [Hp HP]. destruct (line_below p l L HP) as (l' & -> & Hlow). pose proof HP as HP'. apply Forall_cons in HP' as [Hpp _]. pose proof (w_number _ _ _ W h p Hp Hpp E) as Hnum.
    destruct (decide (n < Number h)) as [Hlt|Hge].
    + replace (Z.to_nat (Number h - n)) with (S (Z.to_nat (Number p - n))) by lia. cbn [take]. rewrite !elem_of_cons. rewrite (IH HP Hn k), elem_of_cons. split; [|tauto].
      intros [->|[? ?]]; tauto.
    + replace (Z.to_nat (Number h - n)) with 0%nat by lia. rewrite take_0, elem_of_nil. split; [done|]. intros [Hk Hlt]. exfalso. apply elem_of_cons in Hk as [->|Hk]; [lia|].
      apply elem_of_cons in Hk as [->|Hk]; [lia|]. rewrite Forall_forall in Hlow. specialize (Hlow k Hk). cbn in Hlow. lia.
Qed.

Lemma line_app_lookup (l : list Header) (j : nat) m : (m < length l - j)%nat -> reverse (drop j l) !! m = reverse l !! m.
Proof. intros Hm. rewrite !reverse_lookup by (rewrite ?length_drop; lia). rewrite lookup_drop, length_drop. f_equal. lia. Qed.

(** C36: Rewinding to number [n] from any state reached by insertions succeeds: the head
    is its canonical ancestor at number [n] (or itself, if it is not above), the headers of
    its line above [n] are deleted and no others, and the index is the line of the new
    head. *)
Theorem set_head_rewinds gen body (k1 : C1) (k2 : C2) (k3 : C3) c0 c n delFn : gDifficulty gen = Some (Difficulty g) -> fresh_caches k1 k2 k3 ->
  opened gen body k1 k2 k3 c0 -> reach c0 c -> harmless delFn -> is_u64 n ->
  exists c' head t l, SetHead Keccak256 n delFn c = Ret (c', tt) /\ currentHeader c = Some head /\ line head l /\
    line t (drop (Z.to_nat (Number head - n)) l) /\ currentHeader c' = Some t /\ currentHeaderHash c' = HeaderHash t /\
    (forall k, has (chainDb c') k <-> has (chainDb c) k /\ ~ (k ∈ l /\ n < Number k)) /\
    (forall m, is_u64 m -> GetCanonicalHash (chainDb c') m = at_number (drop (Z.to_nat (Number head - n)) l) m).
Proof using W laws1 laws2 laws3.
  intros Hdf Hf Ho Hr Hdel Hn. destruct (opened_reach _ _ _ _ _ _ _ Hdf Hf Ho Hr) as [head HI]. destruct (inv_view c head HI) as (l & L & Hd & _ & Hix). pose proof HI as [Ht Hk [Hcur _] Hc _ _ _].
  assert (HP : Forall P l) by (eapply Forall_impl; [exact Hd|]; intros ? [? _]; done). assert (Hp : P head) by (destruct Hc as [[[? _] _] _ _]; done).
  pose proof (P_u64 _ _ _ W head Hp) as Hu. unfold SetHead. rewrite bind_gets, Hcur, big_Uint64_id by done.
  destruct (unwind_spec (S (Z.to_nat (Number head))) n delFn Hdel ltac:(go_lia) c (chainDb c) head l L Hd Hd) as (c1 & t & E1 & T1 & T2 & T3 & [R1 R2 R3]); [by destruct Hk|done|lia|].
  rewrite (bind_eval _ _ _ _ _ E1). unfold on_db, purge_caches. rewrite !bind_modify. cbn [currentHeader with_headers with_tds with_numbers with_db]. rewrite T2.
  rewrite (bind_eval CurrentHeader _ _ _ t) by (unfold CurrentHeader; cbn; by rewrite T2). rewrite bind_modify. eexists _, head, t, l. split; [reflexivity|].
  split; [done|]. split; [done|]. split; [done|]. split; [by cbn|]. split; [by cbn|]. cbn [chainDb with_db with_hash with_headers with_tds with_numbers].
  destruct (drop_down_spec (Z.to_nat (Number head)) (Number head) n (chainDb c1) Hu ltac:(go_lia) ltac:(go_lia)) as [S2 C2']. set (d2 := drop_down _ _ _ _) in *.
  destruct (WriteHeadHeaderHash_spec d2 (HeaderHash t)) as [S3 C3']. set (d3 := WriteHeadHeaderHash _ _) in *. assert (S13 : same_headers (chainDb c1) d3) by (by eapply same_headers_trans).
  split.
  - intros k. rewrite (same_has _ _ _ W _ _ _ S13), R1. by rewrite (line_take head l n L HP) by go_lia.
  - intros m Hm. rewrite C3', C2', R3, Hix by done. pose proof (line_length _ _ L HP) as Hlen. unfold at_number. case_decide as Ed.
    + rewrite lookup_ge_None_2; [done|]. rewrite length_reverse, length_drop. go_lia.
    + destruct (decide (m <= n)) as [Hle|Hgt].
      * destruct (decide (m <= Number head)); [rewrite line_app_lookup by go_lia; done|]. rewrite !lookup_ge_None_2; [done|rewrite length_reverse, length_drop; go_lia|rewrite length_reverse; go_lia].
      * rewrite !lookup_ge_None_2; [done|rewrite length_reverse, length_drop; go_lia|rewrite length_reverse; go_lia].
Qed.

End Claims.

(** ** A small chain *)

Module Toy.

Definition K (b : bytes) : Hash := 1 + be_value b mod (2 ^ 255 - 19).
Abbreviation hash := (ChainDb.HeaderHash K).
Definition child (parent number difficulty : Z) : Header := mkHeader parent 0 0 0 0 0 0 difficulty number 100 0 number [] 0 0 0 0 "" 0 0.

Definition g : Header := Eval vm_compute in child 0 0 7.
Definition a1 : Header := Eval vm_compute in child (hash g) 1 5.
Definition a2 : Header := Eval vm_compute in child (hash a1) 2 2.
Definition b1 : Header := Eval vm_compute in child (hash g) 1 3.
Definition b2 : Header := Eval vm_compute in child (hash b1) 2 4.
Definition b3 : Header := Eval vm_compute in child (hash b2) 3 4.
Definition all : list Header := [g; a1; a2; b1; b2; b3].

Ltac headers := repeat match goal with H : ?h ∈ _ |- _ => unfold all in H; repeat (apply elem_of_cons in H as [->|H]); [..|by apply elem_of_nil in H] end.

Lemma header_oks : forall h, h ∈ all -> header_ok h.
Proof. intros h H. headers; (split; [apply (bool_decide_unpack _); by vm_compute..|intros b E; vm_compute in E; by injection E as <-]). Qed.

(** The hashes, computed once. *)
Definition table : list (Header * Hash) := Eval vm_compute in map (fun h => (h, hash h)) all.
Lemma table_eq : map (fun h => (h, hash h)) all = table.
Proof. vm_compute. reflexivity. Qed.

Lemma pairs (Q : Header * Hash -> Header * Hash -> Prop) `{forall h k, Decision (Q h k)} : bool_decide (Forall (fun h => Forall (Q h) table) table) = true ->
  forall h k, h ∈ all -> k ∈ all -> Q (h, hash h) (k, hash k).
Proof.
  intros E h k Hh Hk. apply bool_decide_eq_true in E. rewrite <- table_eq in E. rewrite Forall_map, Forall_forall in E. specialize (E h Hh). unfold compose in E. cbv beta in E.
  rewrite Forall_map, Forall_forall in E. by apply E.
Qed.

Lemma K_range b : 0 < K b < 2 ^ 256.
Proof. unfold K. pose proof (Z.mod_pos_bound (be_value b) (2 ^ 255 - 19)). lia. Qed.

Lemma world : world_ok K g (fun h => h ∈ all).
Proof.
  split.
  - intros b. pose proof (K_range b). unfold is_hash. lia.
  - apply header_oks.
  - intros h _. unfold ChainDb.HeaderHash. repeat case_match; intros E; match type of E with K ?b = 0 => pose proof (K_range b) end; lia.
  - intros h k Hh Hk. apply (pairs (fun h k => snd h = snd k -> fst h = fst k)); [by vm_compute|done|done].
  - intros h k Hh Hk. apply (pairs (fun h k => snd k = ParentHash (fst h) -> Number (fst h) = Number (fst k) + 1)); [by vm_compute|done|done].
  - intros h Hh. headers; done.
  - split; [by constructor|done].
  - intros h Hh. headers; done.
Qed.

(** The chain opened on this genesis block; then [a1] is inserted, then the heavier line
    of [b1] and [b2]. *)
Abbreviation state := (HeaderChain (gmap Hash Header) (gmap Hash Z) (gmap Hash Z)).
Definition gen : Genesis := MkGenesis None 0 0 [] 100 (Some 7) 0 0 ∅ 0 0 0.
Definition marshal (c : ChainConfig) : bytes := [123; 125].
Definition never (i : nat) : bool := false.

Definition d0 : DB := match Commit K marshal ∅ gen (Some (g, [])) with Ret (d, _) => d | Panic => ∅ end.
Definition blank : state := MkHc ∅ g None 0 ∅ ∅ ∅.
Definition of_open (r : outcome (ChainError + state)) : state := match r with Ret (inr c) => c | _ => blank end.
Definition c0 : state := of_open (NewHeaderChain K d0 ∅ ∅ ∅).
Definition insert (chain : list Header) (c : state) : state := match InsertHeaderChain K never never chain c with Ret (c, _) => c | Panic => blank end.
Definition c1 : state := insert [a1] c0.
Definition c2 : state := insert [b1; b2] c1.

Lemma fresh : fresh_caches (∅ : gmap Hash Header) (∅ : gmap Hash Z) (∅ : gmap Hash Z).
Proof. done. Qed.

Lemma is_open : opened K g marshal gen [] ∅ ∅ ∅ c0.
Proof.
  destruct (opened_inv K g _ world marshal gen [] ∅ ∅ ∅ eq_refl fresh) as (c & (d & E & E0) & _). exists d. split; [done|].
  assert (Ed : d0 = d) by (unfold d0; by rewrite E). unfold c0. rewrite Ed, E0. done.
Qed.

Lemma insert_reach c chain : reach K (fun h => h ∈ all) c0 c -> Forall (fun h => h ∈ all) chain -> chain <> [] -> reach K (fun h => h ∈ all) c0 (insert chain c).
Proof.
  intros Hr HP Hne. destruct (opened_reach K g _ world marshal gen [] ∅ ∅ ∅ c0 c eq_refl fresh is_open Hr) as [head HI].
  destruct (InsertHeaderChain_spec K g _ world never never chain c head HI HP Hne) as (c' & r & E & _). unfold insert. rewrite E. by eapply reach_insert.
Qed.

Lemma subset chain : bool_decide (Forall (fun h => h ∈ all) chain) = true -> Forall (fun h => h ∈ all) chain.
Proof. apply bool_decide_eq_true. Qed.

Lemma reached : reach K (fun h => h ∈ all) c0 c2.
Proof. apply insert_reach; [apply insert_reach; [constructor|by apply subset; vm_compute|done]|by apply subset; vm_compute|done]. Qed.

End Toy.

Lemma fork_choice_witness : currentHeader Toy.c1 = Some Toy.a1 /\ currentHeader Toy.c2 = Some Toy.b2 /\
  exists c0, opened Toy.K Toy.g Toy.marshal Toy.gen [] ∅ ∅ ∅ c0 /\ forall c, reach Toy.K (fun h => h ∈ Toy.all) c0 c -> exists head l,
    currentHeader c = Some head /\ currentHeaderHash c = HeaderHash Toy.K head /\ line Toy.K Toy.g head l /\ Forall (has Toy.K (fun h => h ∈ Toy.all) (chainDb c)) l /\
    (forall h, has Toy.K (fun h => h ∈ Toy.all) (chainDb c) h -> exists lh, line Toy.K Toy.g h lh /\ td Toy.K (chainDb c) h = Some (total lh) /\ total lh <= total l) /\
    (forall n, is_u64 n -> GetCanonicalHash (chainDb c) n = at_number Toy.K l n).
Proof. split; [by vm_compute|]. split; [by vm_compute|]. exact (fork_choice Toy.K Toy.g _ Toy.world Toy.marshal Toy.gen [] ∅ ∅ ∅ eq_refl Toy.fresh). Defined.


Lemma set_head_rewinds_witness : exists c' head t l, SetHead Toy.K 1 None Toy.c2 = Ret (c', tt) /\ currentHeader Toy.c2 = Some head /\ line Toy.K Toy.g head l /\
    line Toy.K Toy.g t (drop (Z.to_nat (Number head - 1)) l) /\ currentHeader c' = Some t /\ currentHeaderHash c' = HeaderHash Toy.K t /\
    (forall k, has Toy.K (fun h => h ∈ Toy.all) (chainDb c') k <-> has Toy.K (fun h => h ∈ Toy.all) (chainDb Toy.c2) k /\ ~ (k ∈ l /\ 1 < Number k)) /\
    (forall m, is_u64 m -> GetCanonicalHash (chainDb c') m = at_number Toy.K (drop (Z.to_nat (Number head - 1)) l) m).
Proof.
  apply (set_head_rewinds Toy.K Toy.g _ Toy.world Toy.marshal Toy.gen [] ∅ ∅ ∅ Toy.c0); [reflexivity|exact Toy.fresh|exact Toy.is_open|exact Toy.reached|by intros f x m d [=]|by vm_compute].
Defined.

(** After [SetHead] the headers of other lines stay, also those whose ancestors were
    deleted, with their difficulties.  A header on top of such a header is accepted, and the
    rerouting of the canonical index then dereferences the missing ancestor: here [b2] is
    left behind without [b1]. *)
Definition rewind (n : Z) (c : Toy.state) : Toy.state := match SetHead Toy.K n None c with Ret (c, _) => c | Panic => Toy.blank end.
Definition orphaned : Toy.state := rewind 0 (Toy.insert [Toy.b1; Toy.b2] (Toy.insert [Toy.b1; Toy.child (Toy.hash Toy.b1) 2 9] Toy.c0)).

Lemma orphan_panics : currentHeader orphaned = Some Toy.g /\ has Toy.K (fun h => h ∈ Toy.all) (chainDb orphaned) Toy.b2 /\
  ChainDb.GetHeader (chainDb orphaned) (Toy.hash Toy.b1) 1 = None /\ forall coin, WriteHeader Toy.K coin Toy.b3 orphaned = Panic.
Proof. split; [by vm_compute|]. split; [split; [apply list_elem_of_lookup; by exists 4%nat|by vm_compute]|]. split; [by vm_compute|]. intros coin. by destruct coin; vm_compute. Qed.

End HeaderChainClaims.
