(* ===== verification/Queue.v ===== *)
(** The download queue ([p2p/protocol/downloader/queue.go]): which headers still need
    their bodies and receipts, who is fetching them, and the results in chain order.

    The priority queue ([prque]) is an interface: it holds what was pushed and not popped;
    which item comes first is left open.  The contents that are fetched are of any type,
    with the hashes that headers commit to as parameters.  The average size of a block is
    kept by the code in floating point; what it derives from it, the number of slots of the
    result cache that may be used, is an argument ([limit]), and so are the clock, the
    peers' missing hashes and the readiness of the channel to the header processor. *)

From S2P Require Import Prelude Params Consensus.

(** ** Priority queues *)

(** [pq_items] lists the contents, in any order. *)
Class PrqueOps (Q A : Type) := {
  pq_items : Q -> list A;
  pq_New : Q;
  pq_Push : A -> Z -> Q -> Q;
  pq_Pop : Q -> option (A * Q)
}.

Class PrqueLaws {Q A : Type} (ops : PrqueOps Q A) : Prop := {
  pq_New_items : pq_items pq_New = [];
  pq_Push_items : forall x n q, pq_items (pq_Push x n q) ≡ₚ x :: pq_items q;
  pq_Pop_items : forall q, match pq_Pop q with None => pq_items q = [] | Some (x, q') => pq_items q ≡ₚ x :: pq_items q' end
}.

(** A list as a priority queue. *)
#[export] Instance list_prque A : PrqueOps (list A) A := {|
  pq_items := id; pq_New := []; pq_Push x _ q := q ++ [x]; pq_Pop q := match q with [] => None | x :: q => Some (x, q) end |}.
#[export] Instance list_prque_laws A : PrqueLaws (list_prque A).
Proof. split; [done| |intros [|x q]; [done|apply Permutation_refl]]. intros x n q. symmetry. apply Permutation_cons_append. Qed.

Module Queue.

Inductive SyncMode := FullSync | FastSync | LightSync.
#[export] Instance SyncMode_eq_dec : EqDecision SyncMode.
Proof. solve_decision. Defined.

Definition MaxHeaderFetch : nat := 192.
Definition maxResultsProcess : nat := 2048.
Definition blockCacheItems : nat := Z.to_nat 8192.

Abbreviation peer := string.

Inductive QueueError := errNoFetchesPending | errStaleDelivery | errInvalidChain | errInvalidBody | errInvalidReceipt | errPartial (e : QueueError) | errNotAccepted.
#[export] Instance QueueError_eq_dec : EqDecision QueueError.
Proof. solve_decision. Defined.

Record fetchRequest := MkRequest { Peer : peer; From : Z; Headers : list Header; ReqTime : Z }.

Section Queue.
Context {Tx Rc Q QZ : Type} {pq : PrqueOps Q Header} {pqz : PrqueOps QZ Z}.
Context (HeaderHash : Header -> Hash) (TxRoot : list Tx -> Hash) (UncleRoot : list Header -> Hash) (ReceiptRoot : list Rc -> Hash) (EmptyRootHash EmptyUncleHash : Hash).

Record fetchResult := MkResult {
  Pending : Z;
  ResHash : Hash;
  ResHeader : Header;
  Uncles : list Header;
  Transactions : list Tx;
  Receipts : list Rc
}.

(** The four structures that bodies and receipts each have. *)
Record lane := MkLane {
  taskPool : gmap Hash Header;
  taskQueue : Q;
  pendPool : gmap peer fetchRequest;
  donePool : gset Hash
}.

Record queue := MkQueue {
  mode : SyncMode;
  headerHead : Hash;
  headerTaskPool : gmap Z Header;
  headerTaskQueue : option QZ;
  headerPeerMiss : gmap peer (gset Z);
  headerPendPool : gmap peer fetchRequest;
  headerResults : option (list (option Header));
  headerProced : nat;
  headerOffset : Z;
  bodies : lane;
  receipts : lane;
  resultCache : list (option fetchResult);
  resultOffset : Z;
  closed : bool
}.

Inductive kind := Bodies | ReceiptsOf.
Definition lane_of (k : kind) (q : queue) : lane := match k with Bodies => bodies q | ReceiptsOf => receipts q end.

Definition with_lane (k : kind) (l : lane) (q : queue) : queue :=
  let '(b, r) := match k with Bodies => (l, receipts q) | ReceiptsOf => (bodies q, l) end in
  MkQueue (mode q) (headerHead q) (headerTaskPool q) (headerTaskQueue q) (headerPeerMiss q) (headerPendPool q) (headerResults q) (headerProced q) (headerOffset q) b r (resultCache q) (resultOffset q) (closed q).
Definition with_cache (c : list (option fetchResult)) (q : queue) : queue :=
  MkQueue (mode q) (headerHead q) (headerTaskPool q) (headerTaskQueue q) (headerPeerMiss q) (headerPendPool q) (headerResults q) (headerProced q) (headerOffset q) (bodies q) (receipts q) c (resultOffset q) (closed q).
Definition with_offset (o : Z) (q : queue) : queue :=
  MkQueue (mode q) (headerHead q) (headerTaskPool q) (headerTaskQueue q) (headerPeerMiss q) (headerPendPool q) (headerResults q) (headerProced q) (headerOffset q) (bodies q) (receipts q) (resultCache q) o (closed q).
Definition with_head (x : Hash) (q : queue) : queue :=
  MkQueue (mode q) x (headerTaskPool q) (headerTaskQueue q) (headerPeerMiss q) (headerPendPool q) (headerResults q) (headerProced q) (headerOffset q) (bodies q) (receipts q) (resultCache q) (resultOffset q) (closed q).
Definition with_mode (m : SyncMode) (q : queue) : queue :=
  MkQueue m (headerHead q) (headerTaskPool q) (headerTaskQueue q) (headerPeerMiss q) (headerPendPool q) (headerResults q) (headerProced q) (headerOffset q) (bodies q) (receipts q) (resultCache q) (resultOffset q) (closed q).
Definition with_skeleton (p : gmap Z Header) (tq : option QZ) (m : gmap peer (gset Z)) (pp : gmap peer fetchRequest) (r : option (list (option Header))) (n : nat) (o : Z) (q : queue) : queue :=
  MkQueue (mode q) (headerHead q) p tq m pp r n o (bodies q) (receipts q) (resultCache q) (resultOffset q) (closed q).
Definition with_closed (b : bool) (q : queue) : queue :=
  MkQueue (mode q) (headerHead q) (headerTaskPool q) (headerTaskQueue q) (headerPeerMiss q) (headerPendPool q) (headerResults q) (headerProced q) (headerOffset q) (bodies q) (receipts q) (resultCache q) (resultOffset q) b.

Definition new_lane : lane := MkLane ∅ pq_New ∅ ∅.
Definition newQueue : queue := MkQueue FullSync 0 ∅ None ∅ ∅ None 0 0 new_lane new_lane (replicate blockCacheItems None) 0 false.

Definition Reset (q : queue) : queue :=
  MkQueue FullSync 0 (headerTaskPool q) (headerTaskQueue q) (headerPeerMiss q) ∅ (headerResults q) (headerProced q) (headerOffset q) new_lane new_lane (replicate blockCacheItems None) 0 false.

Definition Close (q : queue) : queue := with_closed true q.

Definition Prepare (offset : Z) (m : SyncMode) (q : queue) : queue := with_mode m (if resultOffset q <? offset then with_offset offset q else q).

(** ** Queries *)

Definition PendingHeaders (q : queue) : outcome nat := tq ← deref (headerTaskQueue q); Ret (length (pq_items tq)).
Definition PendingBlocks (q : queue) : nat := length (pq_items (taskQueue (bodies q))).
Definition PendingReceipts (q : queue) : nat := length (pq_items (taskQueue (receipts q))).
Definition InFlightHeaders (q : queue) : bool := (0 <? size (headerPendPool q))%nat.
Definition InFlightBlocks (q : queue) : bool := (0 <? size (pendPool (bodies q)))%nat.
Definition InFlightReceipts (q : queue) : bool := (0 <? size (pendPool (receipts q)))%nat.

Definition Idle (q : queue) : bool :=
  let queued := (PendingBlocks q + PendingReceipts q)%nat in
  let pending := (size (pendPool (bodies q)) + size (pendPool (receipts q)))%nat in
  let cached := (size (donePool (bodies q)) + size (donePool (receipts q)))%nat in
  ((queued + pending + cached) =? 0)%nat.

(** The finished slots up to the first free one. *)
Fixpoint count_finished (cache : list (option fetchResult)) (done : gset Hash) : Z :=
  match cache with
  | Some r :: cache => (if decide (ResHash r ∈ done) then 1 else 0) + count_finished cache done
  | _ => 0
  end.

Definition count_pending (pend : gmap peer fetchRequest) (bound : Z) : Z :=
  Z.of_nat (length (filter (fun h => big_Uint64 (Number h) < bound) (map_to_list pend ≫= fun '(_, r) => Headers r))).

(** [limit] is the length of the cache capped by the memory limit. *)
Definition resultSlots (limit : nat) (k : kind) (q : queue) : outcome Z :=
  if bool_decide (length (resultCache q) < limit)%nat then Panic
  else Ret (Z.of_nat limit - count_finished (take limit (resultCache q)) (donePool (lane_of k q)) - count_pending (pendPool (lane_of k q)) (u64 (resultOffset q + Z.of_nat limit))).

Definition ShouldThrottleBlocks (limit : nat) (q : queue) : outcome bool := n ← resultSlots limit Bodies q; Ret (n <=? 0).
Definition ShouldThrottleReceipts (limit : nat) (q : queue) : outcome bool := n ← resultSlots limit ReceiptsOf q; Ret (n <=? 0).

Fixpoint count_processable (cache : list (option fetchResult)) : nat :=
  match cache with
  | Some r :: cache => if 0 <? Pending r then 0%nat else S (count_processable cache)
  | _ => 0%nat
  end.
Definition countProcessableItems (q : queue) : nat := count_processable (resultCache q).

(** ** Scheduling *)

Definition push_header (h : Header) (l : lane) : lane := MkLane (taskPool l) (pq_Push h (big_Uint64 (Number h)) (taskQueue l)) (pendPool l) (donePool l).
Definition add_task (h : Header) (l : lane) : lane := push_header h (MkLane (<[HeaderHash h := h]> (taskPool l)) (taskQueue l) (pendPool l) (donePool l)).

Fixpoint Schedule (headers : list Header) (from : Z) (q : queue) : queue * list Header :=
  match headers with
  | [] => (q, [])
  | header :: headers =>
      let hash := HeaderHash header in
      if negb (big_Uint64 (Number header) =? from) then (q, [])
      else if negb (headerHead q =? 0) && negb (headerHead q =? ParentHash header) then (q, [])
      else if bool_decide (is_Some (taskPool (bodies q) !! hash)) then Schedule headers from q
      else if bool_decide (is_Some (taskPool (receipts q) !! hash)) then Schedule headers from q
      else
        let q := with_lane Bodies (add_task header (bodies q)) q in
        let q := if bool_decide (mode q = FastSync) then with_lane ReceiptsOf (add_task header (receipts q)) q else q in
        let '(q, inserts) := Schedule headers (u64 (from + 1)) (with_head hash q) in
        (q, header :: inserts)
  end.

(** ** Reserving *)

Definition isNoop (k : kind) (h : Header) : bool :=
  match k with
  | Bodies => (TxHash h =? EmptyRootHash) && (UncleHash h =? EmptyUncleHash)
  | ReceiptsOf => ReceiptHash h =? EmptyRootHash
  end.

(** The slot of a header in the cache, and the result there. *)
Definition slot (q : queue) (h : Header) : Z := i64 (i64 (Number h) - i64 (resultOffset q)).
Definition in_cache (i : Z) (q : queue) : bool := (0 <=? i) && (i <? Z.of_nat (length (resultCache q))).
Definition result_at (i : Z) (q : queue) : option fetchResult := if i <? 0 then None else mjoin (resultCache q !! Z.to_nat i).
Definition set_result (i : Z) (r : fetchResult) (q : queue) : queue := with_cache (<[Z.to_nat i := Some r]> (resultCache q)) q.

Definition less_pending (r : fetchResult) : fetchResult := MkResult (Pending r - 1) (ResHash r) (ResHeader r) (Uncles r) (Transactions r) (Receipts r).
Definition done_task (hash : Hash) (l : lane) : lane := MkLane (delete hash (taskPool l)) (taskQueue l) (pendPool l) ({[hash]} ∪ donePool l).

(** The loop that takes tasks for a peer; each turn pops one.  [inl] is the queue when
    the cache has no slot for a header: the tasks taken so far are lost. *)
Fixpoint take_tasks (fuel : nat) (k : kind) (lacks : Hash -> bool) (count : nat) (proc space : Z) (send skip : list Header) (progress : bool) (q : queue) :
    queue + (queue * list Header * list Header * bool) :=
  match fuel with
  | O => inr (q, send, skip, progress)
  | S fuel =>
      if (proc <? space) && (length send <? count)%nat then
        match pq_Pop (taskQueue (lane_of k q)) with
        | None => inr (q, send, skip, progress)
        | Some (header, tq) =>
            let hash := HeaderHash header in
            let l := lane_of k q in
            let q := with_lane k (MkLane (taskPool l) tq (pendPool l) (donePool l)) q in
            let index := slot q header in
            if negb (in_cache index q) then inl q
            else
              let r := match result_at index q with
                       | Some r => r
                       | None => MkResult (if bool_decide (mode q = FastSync) then 2 else 1) hash header [] [] []
                       end in
              if isNoop k header then
                let q := set_result index (less_pending r) (with_lane k (done_task hash (lane_of k q)) q) in
                take_tasks fuel k lacks count proc (space - 1) send skip true q
              else
                let q := set_result index r q in
                if lacks hash then take_tasks fuel k lacks count (proc + 1) space send (skip ++ [header]) progress q
                else take_tasks fuel k lacks count (proc + 1) space (send ++ [header]) skip progress q
        end
      else inr (q, send, skip, progress)
  end.

Definition push_all (hs : list Header) (l : lane) : lane := foldl (fun l h => push_header h l) l hs.

Definition reserveHeaders (k : kind) (limit : nat) (p : peer) (lacks : Hash -> bool) (now : Z) (count : nat) (q : queue) : outcome (queue * (option fetchRequest * bool * option QueueError)) :=
  let l := lane_of k q in
  match pq_items (taskQueue l) with
  | [] => Ret (q, (None, false, None))
  | _ =>
      if bool_decide (is_Some (pendPool l !! p)) then Ret (q, (None, false, None))
      else
        space ← resultSlots limit k q;
        match take_tasks (length (pq_items (taskQueue l))) k lacks count 0 space [] [] false q with
        | inl q => Ret (q, (None, false, Some errInvalidChain))
        | inr (q, send, skip, progress) =>
            let q := with_lane k (push_all skip (lane_of k q)) q in
            match send with
            | [] => Ret (q, (None, progress, None))
            | _ =>
                let request := MkRequest p 0 send now in
                let l := lane_of k q in
                Ret (with_lane k (MkLane (taskPool l) (taskQueue l) (<[p := request]> (pendPool l)) (donePool l)) q, (Some request, progress, None))
            end
        end
  end.
Definition ReserveBodies := reserveHeaders Bodies.
Definition ReserveReceipts := reserveHeaders ReceiptsOf.

(** ** Giving up *)

Definition drop_request (p : peer) (l : lane) : lane := MkLane (taskPool l) (taskQueue l) (delete p (pendPool l)) (donePool l).

(** A body or receipt request has no [From]. *)
Definition cancel (k : kind) (request : fetchRequest) (q : queue) : queue :=
  with_lane k (drop_request (Peer request) (push_all (Headers request) (lane_of k q))) q.
Definition CancelBodies := cancel Bodies.
Definition CancelReceipts := cancel ReceiptsOf.

Definition revoke_lane (p : peer) (l : lane) : lane :=
  match pendPool l !! p with
  | Some request => drop_request p (push_all (Headers request) l)
  | None => l
  end.
Definition Revoke (p : peer) (q : queue) : queue := with_lane ReceiptsOf (revoke_lane p (receipts q)) (with_lane Bodies (revoke_lane p (bodies q)) q).

Definition expired (now timeout : Z) (r : fetchRequest) : bool := timeout <? now - ReqTime r.

(** The expired requests, with the number of headers of each. *)
Definition expire (k : kind) (now timeout : Z) (q : queue) : queue * gmap peer nat :=
  let l := lane_of k q in
  let late := filter (fun '(_, r) => expired now timeout r = true) (map_to_list (pendPool l)) in
  let l := foldl (fun l '(_, r) => push_all (Headers r) l) l late in
  let l := foldl (fun l '(p, _) => drop_request p l) l late in
  (with_lane k l q, list_to_map (map (fun '(p, r) => (p, length (Headers r))) late)).
Definition ExpireBodies := expire Bodies.
Definition ExpireReceipts := expire ReceiptsOf.

(** ** Delivering *)

(** [reconstruct] of the header at position [i] of the request. *)
Definition Reconstruct := Header -> nat -> fetchResult -> QueueError + fetchResult.

(** The loop over the requested headers: the queue, how many were accepted, the failure,
    and the headers that were not accepted. *)
Fixpoint assemble (k : kind) (i results : nat) (headers : list Header) (reconstruct : Reconstruct) (q : queue) : queue * nat * option QueueError * list Header :=
  match headers with
  | [] => (q, 0%nat, None, [])
  | header :: rest =>
      if (results <=? i)%nat then (q, 0%nat, None, headers)
      else
        let index := slot q header in
        match (if in_cache index q then result_at index q else None) with
        | None => (q, 0%nat, Some errInvalidChain, headers)
        | Some r =>
            match reconstruct header i r with
            | inl e => (q, 0%nat, Some e, headers)
            | inr r =>
                let q := set_result index (less_pending r) (with_lane k (done_task (HeaderHash header) (lane_of k q)) q) in
                let '(q, accepted, failure, missing) := assemble k (S i) results rest reconstruct q in
                (q, S accepted, failure, missing)
            end
        end
  end.

(** Also the hashes that the peer is marked as lacking. *)
Definition deliver (k : kind) (id : peer) (results : nat) (reconstruct : Reconstruct) (q : queue) : queue * (nat * option QueueError) * list Hash :=
  match pendPool (lane_of k q) !! id with
  | None => (q, (0%nat, Some errNoFetchesPending), [])
  | Some request =>
      let q := with_lane k (drop_request id (lane_of k q)) q in
      let lacking := if (results =? 0)%nat then map HeaderHash (Headers request) else [] in
      let '(q, accepted, failure, missing) := assemble k 0 results (Headers request) reconstruct q in
      let q := with_lane k (push_all missing (lane_of k q)) q in
      (q, (accepted,
        match failure with
        | None => None
        | Some errInvalidChain => Some errInvalidChain
        | Some e => if (0 <? accepted)%nat then Some (errPartial e) else Some errStaleDelivery
        end), lacking)
  end.

Definition body_reconstruct (txLists : list (list Tx)) (uncleLists : list (list Header)) : Reconstruct := fun header i r =>
  let txs := default [] (txLists !! i) in
  let uncles := default [] (uncleLists !! i) in
  if negb (TxRoot txs =? TxHash header) || negb (UncleRoot uncles =? UncleHash header) then inl errInvalidBody
  else inr (MkResult (Pending r) (ResHash r) (ResHeader r) uncles txs (Receipts r)).

(** An index beyond the list of uncles panics. *)
Definition DeliverBodies (id : peer) (txLists : list (list Tx)) (uncleLists : list (list Header)) (q : queue) : outcome (queue * (nat * option QueueError) * list Hash) :=
  let needed := match pendPool (bodies q) !! id with None => 0%nat | Some request => Nat.min (length txLists) (length (Headers request)) end in
  if (length uncleLists <? needed)%nat then Panic
  else Ret (deliver Bodies id (length txLists) (body_reconstruct txLists uncleLists) q).

Definition receipt_reconstruct (receiptList : list (list Rc)) : Reconstruct := fun header i r =>
  let rs := default [] (receiptList !! i) in
  if negb (ReceiptRoot rs =? ReceiptHash header) then inl errInvalidReceipt
  else inr (MkResult (Pending r) (ResHash r) (ResHeader r) (Uncles r) (Transactions r) rs).

Definition DeliverReceipts (id : peer) (receiptList : list (list Rc)) (q : queue) : queue * (nat * option QueueError) * list Hash :=
  deliver ReceiptsOf id (length receiptList) (receipt_reconstruct receiptList) q.

(** ** Results *)

Definition forget (results : list fetchResult) (l : lane) : lane :=
  MkLane (taskPool l) (taskQueue l) (pendPool l) (foldl (fun d r => d ∖ {[HeaderHash (ResHeader r)]}) (donePool l) results).

(** Without blocking; [None] stands for the wait for a signal. *)
Definition Results (block : bool) (q : queue) : option (queue * list fetchResult) :=
  let nproc := countProcessableItems q in
  if (nproc =? 0)%nat && negb (closed q) then (if block then None else Some (q, []))
  else
    let nproc := Nat.min nproc maxResultsProcess in
    let results := omap id (take nproc (resultCache q)) in
    let q := with_lane ReceiptsOf (forget results (receipts q)) (with_lane Bodies (forget results (bodies q)) q) in
    let q := with_cache (drop nproc (resultCache q) ++ replicate nproc None) q in
    Some (with_offset (u64 (resultOffset q + Z.of_nat nproc)) q, results).

(** ** The skeleton of headers *)

Fixpoint schedule_skeleton (from : Z) (i : nat) (skeleton : list Header) (pool : gmap Z Header) (tq : QZ) : gmap Z Header * QZ :=
  match skeleton with
  | [] => (pool, tq)
  | header :: skeleton =>
      let index := u64 (from + Z.of_nat (i * MaxHeaderFetch)) in
      schedule_skeleton from (S i) skeleton (<[index := header]> pool) (pq_Push index index tq)
  end.

Definition ScheduleSkeleton (from : Z) (skeleton : list Header) (q : queue) : outcome queue :=
  match headerResults q with
  | Some _ => Panic
  | None =>
      let '(pool, tq) := schedule_skeleton from 0 skeleton ∅ pq_New in
      Ret (with_skeleton pool (Some tq) ∅ (headerPendPool q) (Some (replicate (length skeleton * MaxHeaderFetch) None)) 0 from q)
  end.

Definition RetrieveHeaders (q : queue) : queue * (option (list (option Header)) * nat) :=
  (with_skeleton (headerTaskPool q) (headerTaskQueue q) (headerPeerMiss q) (headerPendPool q) None 0 (headerOffset q) q, (headerResults q, headerProced q)).

(** The loop that looks for a batch the peer may have: the batch, or 0, and the skipped. *)
Fixpoint find_batch (fuel : nat) (missing : gset Z) (skip : list Z) (tq : QZ) : Z * list Z * QZ :=
  match fuel with
  | O => (0, skip, tq)
  | S fuel =>
      match pq_Pop tq with
      | None => (0, skip, tq)
      | Some (from, tq) => if decide (from ∈ missing) then find_batch fuel missing (skip ++ [from]) tq
                           else if from =? 0 then find_batch fuel missing skip tq else (from, skip, tq)
      end
  end.

Definition push_batches (l : list Z) (tq : QZ) : QZ := foldl (fun tq i => pq_Push i i tq) tq l.

Definition ReserveHeaders (p : peer) (now : Z) (q : queue) : outcome (queue * option fetchRequest) :=
  if bool_decide (is_Some (headerPendPool q !! p)) then Ret (q, None)
  else
    tq ← deref (headerTaskQueue q);
    let '(send, skip, tq) := find_batch (length (pq_items tq)) (default ∅ (headerPeerMiss q !! p)) [] tq in
    let tq := push_batches skip tq in
    let request := MkRequest p send [] now in
    let pend := if send =? 0 then headerPendPool q else <[p := request]> (headerPendPool q) in
    Ret (with_skeleton (headerTaskPool q) (Some tq) (headerPeerMiss q) pend (headerResults q) (headerProced q) (headerOffset q) q, if send =? 0 then None else Some request).

Definition CancelHeaders (request : fetchRequest) (q : queue) : outcome queue :=
  tq ← (if 0 <? From request then tq ← deref (headerTaskQueue q); Ret (Some (pq_Push (From request) (From request) tq)) else Ret (headerTaskQueue q));
  Ret (with_skeleton (headerTaskPool q) tq (headerPeerMiss q) (delete (Peer request) (headerPendPool q)) (headerResults q) (headerProced q) (headerOffset q) q).

Definition ExpireHeaders (now timeout : Z) (q : queue) : outcome (queue * gmap peer nat) :=
  let late := filter (fun '(_, r) => expired now timeout r = true) (map_to_list (headerPendPool q)) in
  tq ← (if (length late =? 0)%nat then Ret (headerTaskQueue q) else tq ← deref (headerTaskQueue q); Ret (Some (push_batches (filter (fun i => 0 < i) (map (fun '(_, r) => From r) late)) tq)));
  Ret (with_skeleton (headerTaskPool q) tq (headerPeerMiss q) (foldl (fun m '(p, _) => delete p m) (headerPendPool q) late) (headerResults q) (headerProced q) (headerOffset q) q,
       list_to_map (map (fun '(p, r) => (p, length (Headers r))) late)).

(** The headers follow each other: numbers from [want] on, and parents. *)
Fixpoint follow (want : Z) (prev : Header) (headers : list Header) : bool :=
  match headers with
  | [] => true
  | h :: headers => (big_Uint64 (Number h) =? want) && (HeaderHash prev =? ParentHash h) && follow (u64 (want + 1)) h headers
  end.

Definition accepts (from : Z) (target : Hash) (headers : list Header) : bool :=
  (length headers =? MaxHeaderFetch)%nat &&
  match headers, last headers with
  | first :: rest, Some l => (big_Uint64 (Number first) =? from) && (HeaderHash l =? target) && follow (u64 (from + 1)) first rest
  | _, _ => false
  end.

(** [copy(dst[i:], src)]; a start beyond the end panics. *)
Definition copy_at (dst : list (option Header)) (i : Z) (src : list Header) : outcome (list (option Header)) :=
  if (i <? 0) || (Z.of_nat (length dst) <? i) then Panic
  else let n := Z.to_nat i in Ret (take n dst ++ take (length dst - n) (map Some src) ++ drop (n + length src) dst).

(** The number of headers ready for processing. *)
Fixpoint count_ready (fuel : nat) (results : list (option Header)) : nat :=
  match fuel, results with
  | S fuel, Some _ :: _ => (MaxHeaderFetch + count_ready fuel (drop MaxHeaderFetch results))%nat
  | _, _ => 0%nat
  end.

(** [ready] tells whether the processor takes the headers.  The result has the headers
    handed over and whether the end was signalled. *)
Definition DeliverHeaders (ready : bool) (id : peer) (headers : list Header) (q : queue) : outcome (queue * (nat * option QueueError) * list (option Header) * bool) :=
  match headerPendPool q !! id with
  | None => Ret (q, (0%nat, Some errNoFetchesPending), [], false)
  | Some request =>
      let pend := delete id (headerPendPool q) in
      target ← deref (headerTaskPool q !! From request);
      if negb (accepts (From request) (HeaderHash target) headers) then
        tq ← deref (headerTaskQueue q);
        let miss := <[id := {[From request]} ∪ default ∅ (headerPeerMiss q !! id)]> (headerPeerMiss q) in
        Ret (with_skeleton (headerTaskPool q) (Some (pq_Push (From request) (From request) tq)) miss pend (headerResults q) (headerProced q) (headerOffset q) q, (0%nat, Some errNotAccepted), [], false)
      else
        results ← copy_at (default [] (headerResults q)) (u64 (From request - headerOffset q)) headers;
        let pool := delete (From request) (headerTaskPool q) in
        let n := count_ready (length results) (drop (headerProced q) results) in
        if bool_decide (length results < headerProced q + n)%nat && (0 <? n)%nat then Panic
        else
          let process := if (0 <? n)%nat && ready then take n (drop (headerProced q) results) else [] in
          let proced := (headerProced q + length process)%nat in
          Ret (with_skeleton pool (headerTaskQueue q) (headerPeerMiss q) pend (match headerResults q with None => None | Some _ => Some results end) proced (headerOffset q) q,
               (length headers, None), process, bool_decide (size pool = 0%nat))
  end.

End Queue.

End Queue.
