(* ===== verification/QueueProps.v ===== *)
(** The download queue loses nothing and mixes nothing up: every scheduled header is in
    exactly one place, and results come out in chain order with the contents that their
    headers commit to. *)

From S2P Require Import Prelude Params Consensus Queue.
Import Queue.

Module QueueProps.

Section Props.
Context {Tx Rc Q QZ : Type} {pq : PrqueOps Q Header} {pqz : PrqueOps QZ Z} {laws : PrqueLaws pq}.
Context (HeaderHash : Header -> Hash) (TxRoot : list Tx -> Hash) (UncleRoot : list Header -> Hash) (ReceiptRoot : list Rc -> Hash) (EmptyRootHash EmptyUncleHash : Hash).
Abbreviation queue := (@queue Tx Rc Q QZ).
Abbreviation lane := (@lane Q).
Abbreviation fetchResult := (@fetchResult Tx Rc).

(** The headers that occur have distinct hashes, none zero, and numbers below 2^62; the
    hashes of empty contents are those the code computes. *)
Context (P : Header -> Prop).
Record headers_ok : Prop := {
  ho_inj : forall h k, P h -> P k -> HeaderHash h = HeaderHash k -> h = k;
  ho_nonzero : forall h, P h -> HeaderHash h <> 0;
  ho_number : forall h, P h -> 0 <= Number h < 2 ^ 62;
  ho_empty : TxRoot [] = EmptyRootHash /\ UncleRoot [] = EmptyUncleHash /\ ReceiptRoot [] = EmptyRootHash
}.
Context (W : headers_ok).

#[local] Instance kind_eq_dec : EqDecision kind.
Proof. solve_decision. Defined.

(** ** The invariant *)

(** Receipts are fetched in fast sync only. *)
Definition active (m : SyncMode) (k : kind) : bool := match k with Bodies => true | ReceiptsOf => bool_decide (m = FastSync) end.
Definition todo (l : lane) (h : Header) : bool := bool_decide (is_Some (taskPool l !! HeaderHash h)).
Definition inflight (l : lane) : list Header := map_to_list (pendPool l) ≫= fun '(_, r) => Headers r.

(** [ex] are tasks that were taken and not put anywhere yet. *)
Record lane_ok (l : lane) (hs ex : list Header) : Prop := {
  lo_pool : forall x h, taskPool l !! x = Some h -> h ∈ hs /\ x = HeaderHash h;
  lo_tasks : pq_items (taskQueue l) ++ inflight l ++ ex ≡ₚ (map_to_list (taskPool l)).*2;
  lo_done : forall x, x ∈ donePool l <-> exists h, h ∈ hs /\ x = HeaderHash h /\ taskPool l !! x = None
}.

(** The contents of a result that are due to a lane. *)
Definition content_ok (k : kind) (h : Header) (r : fetchResult) : Prop :=
  match k with
  | Bodies => TxRoot (Transactions r) = TxHash h /\ UncleRoot (Uncles r) = UncleHash h
  | ReceiptsOf => ReceiptRoot (Receipts r) = ReceiptHash h
  end.
Definition blank (k : kind) (r : fetchResult) : Prop :=
  match k with Bodies => Transactions r = [] /\ Uncles r = [] | ReceiptsOf => Receipts r = [] end.

Definition open_parts (m : SyncMode) (t : kind -> bool) : Z :=
  (if t Bodies then 1 else 0) + (if active m ReceiptsOf && t ReceiptsOf then 1 else 0).

Definition slot_ok (m : SyncMode) (t : kind -> bool) (h : Header) (o : option fetchResult) : Prop :=
  match o with
  | None => forall k, active m k = true -> t k = true
  | Some r => ResHeader r = h /\ ResHash r = HeaderHash h /\ Pending r = open_parts m t /\
      forall k, active m k = true -> if t k then blank k r else content_ok k h r
  end.

Definition lane_headers (m : SyncMode) (k : kind) (hs : list Header) : list Header := if active m k then hs else [].
Definition todos (q : queue) (h : Header) (k : kind) : bool := todo (lane_of k q) h.

(** [ret] are the headers whose results were handed out, [hs] the others that were
    scheduled. *)
Record Inv (ex : kind -> list Header) (q : queue) (ret hs : list Header) : Prop := {
  i_lanes : forall k, lane_ok (lane_of k q) (lane_headers (mode q) k hs) (ex k);
  i_numbers : forall j h, hs !! j = Some h -> P h /\ Number h = resultOffset q + Z.of_nat j;
  i_offset : 0 <= resultOffset q < 2 ^ 63;
  i_linked : forall j a b, (ret ++ hs) !! j = Some a -> (ret ++ hs) !! S j = Some b -> ParentHash b = HeaderHash a;
  i_head : headerHead q = match last (ret ++ hs) with Some h => HeaderHash h | None => 0 end;
  i_last : forall h, last (ret ++ hs) = Some h -> P h;
  i_slots : forall j h, hs !! j = Some h -> slot_ok (mode q) (todos q h) h (mjoin (resultCache q !! j));
  i_free : forall j, hs !! j = None -> mjoin (resultCache q !! j) = None
}.
Definition none : kind -> list Header := fun _ => [].

(** ** Lanes *)

Lemma lane_of_with k k' l (q : queue) : lane_of k (with_lane k' l q) = if decide (k = k') then l else lane_of k q.
Proof. by destruct k, k'. Qed.

Lemma push_all_items hs : forall l : lane, pq_items (taskQueue (push_all hs l)) ≡ₚ hs ++ pq_items (taskQueue l) /\
  taskPool (push_all hs l) = taskPool l /\ pendPool (push_all hs l) = pendPool l /\ donePool (push_all hs l) = donePool l.
Proof using laws.
  induction hs as [|h hs IH]; intros l; [done|]. change (push_all (h :: hs) l) with (push_all hs (push_header h l)). destruct (IH (push_header h l)) as (E & -> & -> & ->). split; [|done].
  rewrite E. cbn [taskQueue push_header]. rewrite pq_Push_items. cbn. by rewrite Permutation_middle.
Qed.

Lemma inflight_insert l p r : pendPool l !! p = None -> inflight (MkLane (taskPool l) (taskQueue l) (<[p := r]> (pendPool l)) (donePool l)) ≡ₚ Headers r ++ inflight l.
Proof. intros Hp. unfold inflight. cbn [pendPool]. rewrite map_to_list_insert by done. done. Qed.

Lemma inflight_delete l p r : pendPool l !! p = Some r -> inflight l ≡ₚ Headers r ++ inflight (drop_request p l).
Proof. intros Hp. unfold inflight. cbn [pendPool drop_request]. rewrite <- (map_to_list_delete _ _ _ Hp). done. Qed.

Lemma pool_insert (m : gmap Hash Header) x h : m !! x = None -> (map_to_list (<[x := h]> m)).*2 ≡ₚ h :: (map_to_list m).*2.
Proof. intros Hx. by rewrite map_to_list_insert. Qed.
Lemma pool_delete (m : gmap Hash Header) x h : m !! x = Some h -> (map_to_list m).*2 ≡ₚ h :: (map_to_list (delete x m)).*2.
Proof. intros Hx. by rewrite <- (map_to_list_delete _ _ _ Hx). Qed.

(** Tasks move between the queue, the requests and the hands of the code. *)
Lemma lane_move (l l' : lane) hs ex ex' : taskPool l' = taskPool l -> donePool l' = donePool l ->
  pq_items (taskQueue l') ++ inflight l' ++ ex' ≡ₚ pq_items (taskQueue l) ++ inflight l ++ ex -> lane_ok l hs ex -> lane_ok l' hs ex'.
Proof. intros Ep Ed Et [H1 H2 H3]. split; rewrite ?Ep, ?Ed; [done|by rewrite Et|done]. Qed.

Lemma lane_member l hs ex h : lane_ok l hs ex -> h ∈ pq_items (taskQueue l) ++ inflight l ++ ex -> h ∈ hs /\ taskPool l !! HeaderHash h = Some h.
Proof.
  intros [H1 H2 _] Hin. rewrite H2 in Hin. apply list_elem_of_fmap in Hin as ([x h'] & -> & Hin). apply elem_of_map_to_list in Hin. destruct (H1 _ _ Hin) as [? ->]. done.
Qed.

(** ** Keeping the invariant *)

Definition upd (k : kind) (e : list Header) (ex : kind -> list Header) : kind -> list Header := fun k' => if decide (k' = k) then e else ex k'.

Lemma Inv_ext ex ex' q ret hs : (forall k, ex k ≡ₚ ex' k) -> Inv ex q ret hs -> Inv ex' q ret hs.
Proof. intros He [H1 H2 H3 H4 H5 H6 H7 H8]. split; try done. intros k. eapply lane_move; [done|done| |apply H1]. by rewrite He. Qed.

Lemma with_lane_same k l (q : queue) : mode (with_lane k l q) = mode q /\ resultOffset (with_lane k l q) = resultOffset q /\
  headerHead (with_lane k l q) = headerHead q /\ resultCache (with_lane k l q) = resultCache q.
Proof. by destruct k. Qed.

Lemma Inv_move ex e q ret hs k (l : lane) : Inv ex q ret hs -> taskPool l = taskPool (lane_of k q) -> donePool l = donePool (lane_of k q) ->
  pq_items (taskQueue l) ++ inflight l ++ e ≡ₚ pq_items (taskQueue (lane_of k q)) ++ inflight (lane_of k q) ++ ex k -> Inv (upd k e ex) (with_lane k l q) ret hs.
Proof.
  intros [H1 H2 H3 H4 H5 H6 H7 H8] Ep Ed Et. destruct (with_lane_same k l q) as (Em & Eo & Eh & Ec). split; rewrite ?Em, ?Eo, ?Eh, ?Ec; try done.
  - intros k'. unfold upd. rewrite lane_of_with. case_decide as E; [subst k'|done]. by eapply lane_move.
  - intros j h Hj. specialize (H7 j h Hj). assert (Et' : forall k', todos (with_lane k l q) h k' = todos q h k').
    { intros k'. unfold todos, todo. rewrite lane_of_with. case_decide as E; [by rewrite Ep, E|done]. }
    destruct (mjoin _) as [r|]; [|intros k'; rewrite Et'; apply H7]. destruct H7 as (A & B & C & D). split; [done|]. split; [done|]. unfold open_parts. rewrite !Et'. split; [done|].
    intros k'. rewrite Et'. apply D.
Qed.

(** The slot of a header is its position. *)
Lemma slot_position ex q ret hs j h : Inv ex q ret hs -> hs !! j = Some h -> slot q h = Z.of_nat j.
Proof using W.
  intros HI Hj. destruct (i_numbers _ _ _ _ HI j h Hj) as [Hp Hn]. pose proof (i_offset _ _ _ _ HI). pose proof (ho_number W h Hp). unfold slot.
  rewrite (i64_id (Number h)), (i64_id (resultOffset q)) by lia. rewrite i64_id by lia. lia.
Qed.

Lemma result_position (q : queue) j : result_at (Z.of_nat j) q = mjoin (resultCache q !! j).
Proof. unfold result_at. destruct (_ <? 0) eqn:E; bool_to_prop; [lia|]. by rewrite Nat2Z.id. Qed.

Lemma hs_inj ex q ret hs i j h : Inv ex q ret hs -> hs !! i = Some h -> hs !! j = Some h -> i = j.
Proof. intros HI Hi Hj. destruct (i_numbers _ _ _ _ HI i h Hi) as [_ Hn]. destruct (i_numbers _ _ _ _ HI j h Hj) as [_ Hn']. lia. Qed.

(** A result is put into the slot of its header. *)
Lemma Inv_set ex q ret hs j h r : Inv ex q ret hs -> hs !! j = Some h -> (j < length (resultCache q))%nat -> slot_ok (mode q) (todos q h) h (Some r) ->
  Inv ex (set_result (Z.of_nat j) r q) ret hs.
Proof.
  intros HI Hj Hlen Hr. pose proof HI as [H1 H2 H3 H4 H5 H6 H7 H8]. split; try done; cbn [resultCache set_result with_cache]; rewrite Nat2Z.id.
  - intros i k Hi. destruct (decide (i = j)) as [->|Hne]; [|rewrite list_lookup_insert_ne by done; by apply H7].
    rewrite list_lookup_insert_eq by done. cbn. rewrite Hj in Hi. injection Hi as <-. done.
  - intros i Hi. rewrite list_lookup_insert_ne; [by apply H8|]. intros <-. congruence.
Qed.

Lemma fresh_ok m t h : slot_ok m t h None -> slot_ok m t h (Some (MkResult (if bool_decide (m = FastSync) then 2 else 1) (HeaderHash h) h [] [] [])).
Proof.
  intros Ht. cbn. split; [done|]. split; [done|]. split.
  - unfold open_parts. rewrite (Ht Bodies eq_refl). cbn [active]. destruct (bool_decide (m = FastSync)) eqn:E; [|done]. by rewrite (Ht ReceiptsOf) by done.
  - intros k Hk. rewrite (Ht k Hk). by destruct k.
Qed.

Definition done_todo (t : kind -> bool) (k : kind) : kind -> bool := fun k' => if decide (k' = k) then false else t k'.

Lemma less_pending_ok m t h r k : slot_ok m t h (Some r) -> active m k = true -> t k = true -> forall r', Pending r' = Pending r -> ResHash r' = ResHash r -> ResHeader r' = ResHeader r ->
  content_ok k h r' -> (forall k', k' <> k -> (blank k' r -> blank k' r') /\ (content_ok k' h r -> content_ok k' h r')) -> slot_ok m (done_todo t k) h (Some (less_pending r')).
Proof.
  intros (A & B & C & D) Hk Ht r' E1 E2 E3 Hc Ho. cbn. split; [congruence|]. split; [congruence|]. split.
  - rewrite E1, C. unfold open_parts, done_todo. destruct k; repeat case_decide; try done; rewrite Ht, ?Hk, ?andb_false_r; cbn [andb]; repeat case_match; lia.
  - intros k' Hk'. unfold done_todo. case_decide as Ek; [subst k'; by destruct k|]. specialize (D k' Hk'). destruct (Ho k' Ek) as [O1 O2]. destruct (t k'); destruct k'; try (by apply O1); by apply O2.
Qed.

(** A part of a result is complete. *)
Lemma Inv_done ex e q ret hs k j h r : Inv ex q ret hs -> hs !! j = Some h -> (j < length (resultCache q))%nat -> active (mode q) k = true ->
  ex k ≡ₚ h :: e -> slot_ok (mode q) (done_todo (todos q h) k) h (Some r) -> Inv (upd k e ex) (set_result (Z.of_nat j) r (with_lane k (done_task (HeaderHash h) (lane_of k q)) q)) ret hs.
Proof using W.
  intros HI Hj Hlen Hk He Hr. pose proof HI as [H1 H2 H3 H4 H5 H6 H7 H8]. set (l := lane_of k q) in *. set (q' := with_lane k _ q). destruct (H2 j h Hj) as [Hp _].
  assert (Hpool : taskPool l !! HeaderHash h = Some h) by (apply (lane_member l _ (ex k) h (H1 k)); rewrite He, !elem_of_app, elem_of_cons; auto).
  destruct (with_lane_same k (done_task (HeaderHash h) l) q) as (Em & Eo & Eh & Ec). fold q' in Em, Eo, Eh, Ec.
  assert (Ht : forall i h', hs !! i = Some h' -> forall k', todos q' h' k' = if decide (h' = h) then done_todo (todos q h) k k' else todos q h' k').
  { intros i h' Hi k'. unfold todos, todo, done_todo, q'. rewrite lane_of_with. repeat case_decide; subst; try done.
    - cbn. rewrite lookup_delete_eq. done.
    - cbn. rewrite lookup_delete_ne; [done|]. intros E. destruct (H2 i h' Hi) as [Hp' _]. by apply (ho_inj W) in E. }
  split; cbn [resultCache set_result with_cache mode resultOffset headerHead]; rewrite ?Em, ?Eo, ?Eh, ?Ec, ?Nat2Z.id; try done.
  - intros k'. change (lane_of k' (set_result _ _ q')) with (lane_of k' q'). unfold upd, q'. rewrite lane_of_with. case_decide as E; [subst k'|done]. unfold lane_headers. rewrite Hk.
    pose proof (H1 k) as [L1 L2 L3]. unfold lane_headers in *. rewrite Hk in *. split; cbn [taskPool donePool done_task taskQueue].
    + intros x h' Hx. apply lookup_delete_Some in Hx as [_ Hx]. by apply L1.
    + fold l in L2. rewrite (pool_delete _ _ _ Hpool), He in L2. rewrite !app_assoc in L2. rewrite <- Permutation_middle in L2. apply Permutation_cons_inv in L2. by rewrite <- app_assoc in L2.
    + intros x. rewrite elem_of_union, elem_of_singleton. fold l in L3. rewrite L3. split.
      * intros [->|(h' & Hin & -> & Hn)]; [exists h; split; [by eapply list_elem_of_lookup_2|]; split; [done|apply lookup_delete_eq]|]. exists h'. split; [done|]. split; [done|]. by apply lookup_delete_None; right.
      * intros (h' & Hin & -> & Hn). apply lookup_delete_None in Hn as [->|Hn]; [by left|]. right. by exists h'.
  - intros i h' Hi. destruct (decide (i = j)) as [->|Hne].
    + rewrite list_lookup_insert_eq by done. cbn [mjoin option_join]. rewrite Hj in Hi. injection Hi as <-. destruct Hr as (A & B & C & D). split; [done|]. split; [done|].
      change (todos (set_result _ _ q')) with (todos q'). unfold open_parts in *. rewrite !(Ht j h Hj), !decide_True by done. split; [done|]. intros k' Hk'. rewrite (Ht j h Hj), decide_True by done. by apply D.
    + rewrite list_lookup_insert_ne by done. assert (Hh : h' <> h) by (intros ->; apply Hne; by eapply hs_inj). specialize (H7 i h' Hi).
      change (todos (set_result _ _ q')) with (todos q'). destruct (mjoin _) as [r'|]; [|intros k' Hk'; rewrite (Ht i h' Hi), decide_False by done; by apply H7].
      destruct H7 as (A & B & C & D). split; [done|]. split; [done|]. unfold open_parts in *. rewrite !(Ht i h' Hi), !decide_False by done. split; [done|].
      intros k' Hk'. rewrite (Ht i h' Hi), decide_False by done. by apply D.
  - intros i Hi. rewrite list_lookup_insert_ne; [by apply H8|]. intros <-. congruence.
Qed.

(** ** Reserving *)

Lemma perm_pull {A} (h : A) a b c : a ++ b ++ h :: c ≡ₚ h :: a ++ b ++ c.
Proof. rewrite !app_assoc. symmetry. apply Permutation_middle. Qed.

(** A task in the hands of the code, at its position. *)
Lemma task_position ex q ret hs k h : Inv ex q ret hs -> h ∈ pq_items (taskQueue (lane_of k q)) ++ inflight (lane_of k q) ++ ex k ->
  active (mode q) k = true /\ todos q h k = true /\ exists j, hs !! j = Some h.
Proof.
  intros HI Hin. destruct (lane_member _ _ _ h (i_lanes _ _ _ _ HI k) Hin) as [Hh Hp]. unfold lane_headers in Hh. destruct (active (mode q) k); [|by apply elem_of_nil in Hh].
  split; [done|]. split; [unfold todos, todo; by rewrite Hp|]. by apply list_elem_of_lookup.
Qed.

Lemma noop_content k h : isNoop EmptyRootHash EmptyUncleHash k h = true -> forall r : fetchResult, blank k r -> content_ok k h r.
Proof using W.
  destruct (ho_empty W) as (E1 & E2 & E3). destruct k; cbn; intros Hn r; [apply andb_true_iff in Hn as [N1 N2]; intros [-> ->]|intros ->]; bool_to_prop; split || idtac; congruence.
Qed.

(** The result in a slot, or the one the code makes for it. *)
Definition current (q : queue) (j : nat) (h : Header) : fetchResult :=
  match mjoin (resultCache q !! j) with Some r => r | None => MkResult (if bool_decide (mode q = FastSync) then 2 else 1) (HeaderHash h) h [] [] [] end.
Lemma current_ok ex q ret hs j h : Inv ex q ret hs -> hs !! j = Some h -> slot_ok (mode q) (todos q h) h (Some (current q j h)).
Proof. intros HI Hj. pose proof (i_slots _ _ _ _ HI j h Hj) as Hs. unfold current. destruct (mjoin _); [done|by apply fresh_ok]. Qed.

Lemma todos_move (q : queue) k l h : taskPool l = taskPool (lane_of k q) -> forall k', todos (with_lane k l q) h k' = todos q h k'.
Proof. intros Ep k'. unfold todos, todo. rewrite lane_of_with. case_decide as E; [by rewrite Ep, E|done]. Qed.

Lemma take_tasks_inv fuel k lacks count : forall proc space send skip progress (q : queue) ret hs,
  Inv (upd k (send ++ skip) none) q ret hs ->
  match take_tasks HeaderHash EmptyRootHash EmptyUncleHash fuel k lacks count proc space send skip progress q with
  | inl _ => True
  | inr (q', send', skip', _) => Inv (upd k (send' ++ skip') none) q' ret hs /\ pendPool (lane_of k q') = pendPool (lane_of k q) /\ mode q' = mode q
  end.
Proof using W laws.
  induction fuel as [|fuel IH]; intros proc space send skip progress q ret hs HI; cbn [take_tasks]; [done|]. destruct (_ && _)%bool; [|done].
  pose proof (pq_Pop_items (taskQueue (lane_of k q))) as Hpop. destruct (pq_Pop _) as [[h tq]|]; [|done]. set (l := lane_of k q) in *. set (q1 := with_lane k _ q).
  assert (HI1 : Inv (upd k (h :: send ++ skip) none) q1 ret hs).
  { apply (Inv_ext (upd k (h :: send ++ skip) (upd k (send ++ skip) none))); [intros k'; unfold upd; by case_decide|]. apply Inv_move; [done|done|done|]. fold l.
    unfold upd. rewrite decide_True by done. cbn [taskQueue]. change (inflight (MkLane _ tq _ _)) with (inflight l). rewrite Hpop. apply perm_pull. }
  destruct (task_position _ _ _ _ k h HI1) as (Hact & Htodo & j & Hj); [unfold upd; rewrite decide_True by done; rewrite !elem_of_app, elem_of_cons; auto|].
  rewrite (slot_position _ _ _ _ _ _ HI1 Hj). destruct (in_cache _ _) eqn:Ein; cbn [negb]; [|done]. assert (Hlen : (j < length (resultCache q1))%nat) by (unfold in_cache in Ein; bool_to_prop; lia).
  rewrite result_position. change (match mjoin (resultCache q1 !! j) with Some r => r | None => _ end) with (current q1 j h). pose proof (current_ok _ _ _ _ _ _ HI1 Hj) as Hcur.
  assert (Ep : pendPool (lane_of k q1) = pendPool l) by (unfold q1; by rewrite lane_of_with, decide_True). destruct (isNoop _ _ k h) eqn:En.
  - assert (Hd : slot_ok (mode q1) (done_todo (todos q1 h) k) h (Some (less_pending (current q1 j h)))).
    { eapply less_pending_ok; [exact Hcur|done|done|done|done|done| |done]. eapply noop_content; [done|]. destruct Hcur as (_ & _ & _ & D). specialize (D k Hact). by rewrite Htodo in D. }
    pose proof (Inv_done _ (send ++ skip) _ _ _ k j h _ HI1 Hj Hlen Hact ltac:(unfold upd; by rewrite decide_True) Hd) as HI2. set (q2 := set_result _ _ _) in *.
    specialize (IH proc (space - 1) send skip true q2 ret hs). destruct (take_tasks _ _ _ _ _ _ _ _ _ _ _ _ _) as [|[[[q' send'] skip'] pr]]; [done|].
    destruct IH as (IH1 & IH2 & IH3); [eapply Inv_ext; [|exact HI2]; intros k'; unfold upd; by case_decide|]. split; [done|]. split; [rewrite IH2; unfold q2; change (lane_of k (set_result _ _ ?x)) with (lane_of k x); rewrite lane_of_with, decide_True by done; exact Ep|].
    rewrite IH3. unfold q2, q1. by destruct k.
  - pose proof (Inv_set _ _ _ _ _ _ _ HI1 Hj Hlen Hcur) as HI2. set (q2 := set_result _ _ _) in *.
    assert (Ep2 : pendPool (lane_of k q2) = pendPool l) by exact Ep. destruct (lacks _).
    + specialize (IH (proc + 1) space send (skip ++ [h]) progress q2 ret hs). destruct (take_tasks _ _ _ _ _ _ _ _ _ _ _ _ _) as [|[[[q' send'] skip'] pr]]; [done|].
      destruct IH as (IH1 & IH2 & IH3); [eapply Inv_ext; [|exact HI2]; intros k'; unfold upd; case_decide; [|done]; rewrite app_assoc; apply Permutation_cons_append|]. split; [done|]. split; [by rewrite IH2|]. rewrite IH3. unfold q2, q1. by destruct k.
    + specialize (IH (proc + 1) space (send ++ [h]) skip progress q2 ret hs). destruct (take_tasks _ _ _ _ _ _ _ _ _ _ _ _ _) as [|[[[q' send'] skip'] pr]]; [done|].
      destruct IH as (IH1 & IH2 & IH3); [eapply Inv_ext; [|exact HI2]; intros k'; unfold upd; case_decide; [|done]; rewrite <- app_assoc; apply Permutation_middle|]. split; [done|]. split; [by rewrite IH2|]. rewrite IH3. unfold q2, q1. by destruct k.
Qed.

Lemma none_upd ex k : (forall k', ex k' = none k') -> forall k', upd k [] ex k' = none k'.
Proof. intros He k'. unfold upd. by case_decide. Qed.

Lemma Inv_none ex q ret hs : (forall k', ex k' = none k') -> Inv ex q ret hs -> Inv none q ret hs.
Proof. intros He. apply Inv_ext. intros k. by rewrite He. Qed.

(** The skipped tasks go back, the others into a request. *)
Lemma reserve_inv k limit p lacks now count q q' req progress ret hs : Inv none q ret hs ->
  reserveHeaders HeaderHash EmptyRootHash EmptyUncleHash k limit p lacks now count q = Ret (q', (req, progress, None)) -> Inv none q' ret hs /\ mode q' = mode q.
Proof using W laws.
  intros HI. unfold reserveHeaders. destruct (pq_items _) eqn:Ei; [intros [= <- _ _]; done|]. destruct (bool_decide _) eqn:Eb; [intros [= <- _ _]; done|]. bool_to_prop.
  destruct (resultSlots _ _ _) as [space|]; [|done]. cbn [mbind outcome_bind].
  pose proof (take_tasks_inv (length (h :: l)) k lacks count 0 space [] [] false q ret hs) as Ht.
  destruct (take_tasks _ _ _ _ _ _ _ _ _ _ _ _ _) as [|[[[q1 send] skip] pr]]; [done|]. destruct Ht as (HI1 & Ep & Em); [eapply Inv_ext; [|exact HI]; intros k'; unfold upd; by case_decide|].
  destruct (push_all_items skip (lane_of k q1)) as (E1 & E2 & E3 & E4). set (l1 := push_all _ _) in *.
  assert (HI2 : Inv (upd k send none) (with_lane k l1 q1) ret hs).
  { apply (Inv_ext (upd k send (upd k (send ++ skip) none))); [intros k'; unfold upd; by case_decide|]. apply Inv_move; [done|done|done|]. unfold upd. rewrite decide_True by done. rewrite E1.
    unfold inflight. rewrite E3. fold (inflight (lane_of k q1)). rewrite (Permutation_app_comm skip), <- !app_assoc. apply Permutation_app_head. rewrite Permutation_app_comm, <- !app_assoc. done. }
  destruct send as [|s send]; [intros [= <- _ _]; (split; [|by destruct k]); eapply Inv_none; [|exact HI2]; intros k'; unfold upd; by case_decide|].
  intros [= <- _ _]. split; [|by destruct k]. eapply Inv_none; [apply (none_upd none k); done|]. apply (Inv_ext (upd k [] (upd k (s :: send) none))); [intros k'; unfold upd; by case_decide|].
  apply Inv_move; [done|done|done|]. unfold upd. rewrite decide_True by done. set (l2 := lane_of k (with_lane k l1 q1)). assert (Hl2 : l2 = l1) by (unfold l2; by rewrite lane_of_with, decide_True).
  rewrite inflight_insert by (rewrite Hl2, E3, Ep; by apply eq_None_not_Some). cbn [taskQueue Headers]. rewrite app_nil_r. apply Permutation_app_head, Permutation_app_comm.
Qed.

(** ** Giving up *)

Lemma give_back_lane (l : lane) p r hs ex : pendPool l !! p = Some r -> lane_ok l hs ex -> lane_ok (drop_request p (push_all (Headers r) l)) hs ex.
Proof using laws.
  intros Hp. destruct (push_all_items (Headers r) l) as (E1 & E2 & E3 & E4). apply lane_move; [done|done|]. cbn [taskQueue drop_request]. rewrite E1. rewrite (inflight_delete l p r Hp).
  unfold inflight at 1. cbn [pendPool drop_request]. rewrite E3. change (map_to_list (delete p (pendPool l)) ≫= _) with (inflight (drop_request p l)). rewrite <- !app_assoc. rewrite !app_assoc.
  do 2 apply Permutation_app_tail. apply Permutation_app_comm.
Qed.

Lemma Inv_lane ex q ret hs k (l : lane) : Inv ex q ret hs -> taskPool l = taskPool (lane_of k q) -> lane_ok l (lane_headers (mode q) k hs) (ex k) -> Inv ex (with_lane k l q) ret hs.
Proof.
  intros [H1 H2 H3 H4 H5 H6 H7 H8] Ep Hl. destruct (with_lane_same k l q) as (Em & Eo & Eh & Ec). split; rewrite ?Em, ?Eo, ?Eh, ?Ec; try done.
  - intros k'. rewrite lane_of_with. case_decide as E; [by subst k'|done].
  - intros j h Hj. specialize (H7 j h Hj). pose proof (todos_move q k l h Ep) as Et. destruct (mjoin _) as [r|]; [|intros k'; rewrite Et; apply H7].
    destruct H7 as (A & B & C & D). split; [done|]. split; [done|]. unfold open_parts. rewrite !Et. split; [done|]. intros k'. rewrite Et. apply D.
Qed.

Lemma cancel_inv k r q ret hs : Inv none q ret hs -> pendPool (lane_of k q) !! Peer r = Some r -> Inv none (cancel k r q) ret hs.
Proof using laws.
  intros HI Hp. apply Inv_lane; [done| |]; [cbn; by destruct (push_all_items (Headers r) (lane_of k q)) as (_ & -> & _)|]. apply give_back_lane; [done|]. apply HI.
Qed.

Lemma revoke_lane_inv k p q ret hs : Inv none q ret hs -> Inv none (with_lane k (revoke_lane p (lane_of k q)) q) ret hs.
Proof using laws.
  intros HI. unfold revoke_lane. destruct (pendPool (lane_of k q) !! p) as [r|] eqn:Hp.
  - apply Inv_lane; [done| |]; [cbn; by destruct (push_all_items (Headers r) (lane_of k q)) as (_ & -> & _)|]. apply give_back_lane; [done|]. apply HI.
  - apply Inv_lane; [done|done|apply HI].
Qed.

Lemma Revoke_inv p q ret hs : Inv none q ret hs -> Inv none (Revoke p q) ret hs.
Proof using laws. intros HI. unfold Revoke. pose proof (revoke_lane_inv Bodies p q ret hs HI) as HI1. exact (revoke_lane_inv ReceiptsOf p _ ret hs HI1). Qed.

Definition headers_of (late : list (peer * fetchRequest)) : list Header := late ≫= fun '(_, r) => Headers r.

Lemma push_late late : forall l : lane, let l' := foldl (fun l '(_, r) => push_all (Headers r) l) l late in
  pq_items (taskQueue l') ≡ₚ headers_of late ++ pq_items (taskQueue l) /\ taskPool l' = taskPool l /\ pendPool l' = pendPool l /\ donePool l' = donePool l.
Proof using laws.
  induction late as [|[p r] late IH]; intros l; [done|]. cbn [foldl]. destruct (IH (push_all (Headers r) l)) as (E & -> & -> & ->). destruct (push_all_items (Headers r) l) as (F & -> & -> & ->).
  split; [|done]. rewrite E, F. change (headers_of ((p, r) :: late)) with (Headers r ++ headers_of late). rewrite !app_assoc. apply Permutation_app_tail, Permutation_app_comm.
Qed.

Lemma drop_late late : forall l : lane, NoDup late.*1 -> (forall p r, (p, r) ∈ late -> pendPool l !! p = Some r) -> let l' := foldl (fun l '(p, _) => drop_request p l) l late in
  taskQueue l' = taskQueue l /\ taskPool l' = taskPool l /\ donePool l' = donePool l /\ inflight l ≡ₚ headers_of late ++ inflight l'.
Proof.
  induction late as [|[p r] late IH]; intros l Hnd Hin; [done|]. cbn [foldl]. cbn in Hnd. apply NoDup_cons in Hnd as [Hp Hnd].
  destruct (IH (drop_request p l) Hnd) as (-> & -> & -> & E).
  { intros p' r' Hin'. cbn. rewrite lookup_delete_ne; [by apply Hin; right|]. intros <-. apply Hp. apply list_elem_of_fmap. by exists (p, r'). }
  split; [done|]. split; [done|]. split; [done|]. rewrite (inflight_delete l p r) by (apply Hin; by left). rewrite E. change (headers_of ((p, r) :: late)) with (Headers r ++ headers_of late). by rewrite app_assoc.
Qed.

Lemma expire_inv k now timeout q ret hs : Inv none q ret hs -> Inv none (fst (expire k now timeout q)) ret hs.
Proof using laws.
  intros HI. unfold expire. cbn [fst]. set (l := lane_of k q). set (late := filter _ _). set (l1 := foldl _ l late). set (l2 := foldl _ l1 late).
  destruct (push_late late l) as (E1 & E2 & E3 & E4). fold l1 in E1, E2, E3, E4. destruct (drop_late late l1) as (F1 & F2 & F3 & F4).
  - unfold late. assert (Hs : sublist (filter (fun '(_, r) => expired now timeout r = true) (map_to_list (pendPool l))) (map_to_list (pendPool l))) by apply sublist_filter.
    eapply sublist_NoDup; [apply (NoDup_fst_map_to_list (pendPool l))|by apply (fmap_sublist fst)].
  - intros p r Hin. rewrite E3. unfold late in Hin. apply list_elem_of_filter in Hin as [_ Hin]. by apply elem_of_map_to_list in Hin.
  - fold l2 in F1, F2, F3, F4. apply Inv_lane; [done|by rewrite F2, E2|]. apply (lane_move (lane_of k q) l2 _ (none k)); [by rewrite F2, E2|by rewrite F3, E4| |apply (i_lanes _ _ _ _ HI k)].
    rewrite F1, E1. assert (Ein : inflight l = inflight l1) by (unfold inflight; by rewrite E3). fold l. rewrite Ein, F4. rewrite !app_assoc. do 2 apply Permutation_app_tail. apply Permutation_app_comm.
Qed.

(** ** Delivering *)

(** [reconstruct] checks and stores the contents of its lane. *)
Definition recon_ok (k : kind) (rec : Reconstruct) : Prop := forall h i (r r' : fetchResult), rec h i r = inr r' ->
  content_ok k h r' /\ Pending r' = Pending r /\ ResHash r' = ResHash r /\ ResHeader r' = ResHeader r /\
  forall k', k' <> k -> (blank k' r -> blank k' r') /\ (content_ok k' h r -> content_ok k' h r').

Lemma body_recon_ok txLists uncleLists : recon_ok Bodies (body_reconstruct TxRoot UncleRoot txLists uncleLists).
Proof.
  intros h i r r'. unfold body_reconstruct. destruct (_ || _) eqn:E; [done|]. intros [= <-]. bool_to_prop. split; [done|]. split; [done|]. split; [done|]. split; [done|]. by intros [].
Qed.
Lemma receipt_recon_ok receiptList : recon_ok ReceiptsOf (receipt_reconstruct ReceiptRoot receiptList).
Proof. intros h i r r'. unfold receipt_reconstruct. destruct (negb _) eqn:E; [done|]. intros [= <-]. bool_to_prop. split; [done|]. split; [done|]. split; [done|]. split; [done|]. by intros []. Qed.

Lemma assemble_inv k results rec : recon_ok k rec -> forall headers i (q : queue) ret hs, Inv (upd k headers none) q ret hs ->
  let '(q', _, _, missing) := assemble HeaderHash k i results headers rec q in Inv (upd k missing none) q' ret hs /\ mode q' = mode q.
Proof using W laws.
  intros Hrec. induction headers as [|h headers IH]; intros i q ret hs HI; cbn [assemble]; [done|]. destruct (_ <=? _)%nat; [done|].
  destruct (task_position _ _ _ _ k h HI) as (Hact & Htodo & j & Hj); [unfold upd; rewrite decide_True by done; rewrite !elem_of_app, elem_of_cons; auto|].
  rewrite (slot_position _ _ _ _ _ _ HI Hj). destruct (in_cache _ _) eqn:Ein; [|done]. assert (Hlen : (j < length (resultCache q))%nat) by (unfold in_cache in Ein; bool_to_prop; lia).
  rewrite result_position. pose proof (i_slots _ _ _ _ HI j h Hj) as Hslot. destruct (mjoin (resultCache q !! j)) as [r|]; [|done]. destruct (rec h i r) as [e|r'] eqn:Er; [done|].
  destruct (Hrec _ _ _ _ Er) as (R1 & R2 & R3 & R4 & R5). pose proof (less_pending_ok _ _ _ _ k Hslot Hact Htodo r' R2 R3 R4 R1 R5) as Hd.
  pose proof (Inv_done _ headers _ _ _ k j h _ HI Hj Hlen Hact ltac:(unfold upd; by rewrite decide_True) Hd) as HI2. set (q2 := set_result _ _ _) in *.
  specialize (IH (S i) q2 ret hs). destruct (assemble _ _ _ _ _ _ _) as [[[q' acc] failure] missing]. destruct IH as [IH1 IH2].
  - eapply Inv_ext; [|exact HI2]. intros k'. unfold upd. by case_decide.
  - split; [done|]. rewrite IH2. unfold q2. by destruct k.
Qed.

Lemma deliver_inv k id results rec q ret hs : recon_ok k rec -> Inv none q ret hs -> Inv none (fst (fst (deliver HeaderHash k id results rec q))) ret hs /\ mode (fst (fst (deliver HeaderHash k id results rec q))) = mode q.
Proof using W laws.
  intros Hrec HI. unfold deliver. destruct (pendPool _ !! id) as [r|] eqn:Hp; [|done]. set (q1 := with_lane k _ q).
  assert (HI1 : Inv (upd k (Headers r) none) q1 ret hs).
  { apply Inv_move; [done|done|done|]. unfold none. rewrite (inflight_delete _ _ _ Hp), app_nil_r. cbn [taskQueue drop_request]. apply Permutation_app_head, Permutation_app_comm. }
  pose proof (assemble_inv k results rec Hrec (Headers r) 0 q1 ret hs HI1) as Ha. destruct (assemble _ _ _ _ _ _ _) as [[[q2 acc] failure] missing]. cbn [fst]. destruct Ha as [Ha Em]. split; [|rewrite <- (proj1 (with_lane_same k (drop_request id (lane_of k q)) q)); fold q1; rewrite <- Em; by destruct k].
  destruct (push_all_items missing (lane_of k q2)) as (E1 & E2 & E3 & E4). eapply Inv_none; [apply (none_upd none k); done|]. apply (Inv_ext (upd k [] (upd k missing none))); [intros k'; unfold upd; by case_decide|].
  apply Inv_move; [done|done|done|]. unfold upd. rewrite decide_True by done. rewrite E1, app_nil_r. unfold inflight at 1. rewrite E3. fold (inflight (lane_of k q2)).
  rewrite (Permutation_app_comm missing), <- app_assoc. apply Permutation_app_head, Permutation_app_comm.
Qed.

(** ** Scheduling *)

Lemma add_task_ok (l : lane) hs h : lane_ok l hs [] -> taskPool l !! HeaderHash h = None -> (forall k, k ∈ hs -> HeaderHash k <> HeaderHash h) -> lane_ok (add_task HeaderHash h l) (hs ++ [h]) [].
Proof using laws.
  intros [L1 L2 L3] Hn Hne. split; cbn [taskPool taskQueue donePool add_task push_header].
  - intros x k Hx. destruct (decide (x = HeaderHash h)) as [->|Hxne].
    + rewrite lookup_insert_eq in Hx. injection Hx as <-. split; [|done]. apply elem_of_app. right. by apply list_elem_of_singleton.
    + rewrite lookup_insert_ne in Hx by done. destruct (L1 x k Hx). split; [|done]. apply elem_of_app. by left.
  - rewrite pool_insert, pq_Push_items by done. cbn. constructor. exact L2.
  - intros x. rewrite L3. split.
    + intros (k & Hk & -> & Hp). exists k. split; [apply elem_of_app; by left|]. split; [done|]. rewrite lookup_insert_ne; [done|]. intros E. by apply (Hne k Hk).
    + intros (k & Hk & -> & Hp). apply lookup_insert_None in Hp as [Hp Hx]. apply elem_of_app in Hk as [Hk|Hk]; [by exists k|]. apply list_elem_of_singleton in Hk as ->. done.
Qed.

Lemma link_last {A} (l : list A) (R : A -> A -> Prop) x : (forall j a b, l !! j = Some a -> l !! S j = Some b -> R a b) -> (forall a, last l = Some a -> R a x) ->
  forall j a b, (l ++ [x]) !! j = Some a -> (l ++ [x]) !! S j = Some b -> R a b.
Proof.
  intros Hl Hx j a b Ha Hb. apply lookup_app_Some in Hb as [Hb|[Hge Hb]].
  - apply lookup_app_Some in Ha as [Ha|[Hge _]]; [by eapply Hl|]. apply lookup_lt_Some in Hb. lia.
  - apply list_lookup_singleton_Some in Hb as [Hj <-]. apply lookup_app_Some in Ha as [Ha|[Hge' _]]; [|lia]. apply Hx. rewrite last_lookup. replace (pred (length l)) with j; [done|]. apply lookup_lt_Some in Ha. lia.
Qed.

(** A header on top of the scheduled ones. *)
Definition scheduled (h : Header) (q : queue) : queue :=
  let q := with_lane Bodies (add_task HeaderHash h (bodies q)) q in
  with_head (HeaderHash h) (if bool_decide (mode q = FastSync) then with_lane ReceiptsOf (add_task HeaderHash h (receipts q)) q else q).

Lemma scheduled_lane h (q : queue) k : lane_of k (scheduled h q) = if active (mode q) k then add_task HeaderHash h (lane_of k q) else lane_of k q.
Proof. unfold scheduled. destruct k; cbn; by destruct (bool_decide (mode q = FastSync)). Qed.
Lemma scheduled_rest h (q : queue) : mode (scheduled h q) = mode q /\ resultOffset (scheduled h q) = resultOffset q /\ headerHead (scheduled h q) = HeaderHash h /\ resultCache (scheduled h q) = resultCache q.
Proof. unfold scheduled. cbn. by destruct (bool_decide (mode q = FastSync)). Qed.

Lemma scheduled_inv q ret hs h : Inv none q ret hs -> P h -> Number h = resultOffset q + Z.of_nat (length hs) -> (forall a, last (ret ++ hs) = Some a -> ParentHash h = HeaderHash a) ->
  (forall k, taskPool (lane_of k q) !! HeaderHash h = None) -> Inv none (scheduled h q) ret (hs ++ [h]).
Proof using W laws.
  intros [H1 H2 H3 H4 H5 H6 H7 H8] Hp Hnum Hpar Hnew. destruct (scheduled_rest h q) as (Em & Eo & Eh & Ec).
  assert (Hdiff : forall k, k ∈ hs -> HeaderHash k <> HeaderHash h).
  { intros k Hk E. apply list_elem_of_lookup in Hk as [j Hj]. destruct (H2 j k Hj) as [Hpk Hn]. apply (ho_inj W) in E; [|done|done]. subst k. apply lookup_lt_Some in Hj. lia. }
  assert (Ht : forall k h', h' ∈ hs -> todos (scheduled h q) h' k = todos q h' k).
  { intros k h' Hh'. unfold todos, todo. rewrite scheduled_lane. destruct (active (mode q) k); [|done]. cbn. rewrite lookup_insert_ne; [done|]. intros E. by apply (Hdiff h' Hh'). }
  split; rewrite ?Em, ?Eo, ?Eh, ?Ec; try done.
  - intros k. rewrite scheduled_lane. specialize (H1 k). unfold lane_headers in *. destruct (active (mode q) k); [|done]. by apply add_task_ok.
  - intros j h' Hj. apply lookup_app_Some in Hj as [Hj|[Hge Hj]]; [by apply H2|]. apply list_lookup_singleton_Some in Hj as [Hj <-]. split; [done|]. lia.
  - rewrite app_assoc. apply (link_last (ret ++ hs) (fun a b => ParentHash b = HeaderHash a)); [done|done].
  - by rewrite app_assoc, last_snoc.
  - intros h'. rewrite app_assoc, last_snoc. by intros [= <-].
  - intros j h' Hj. apply lookup_app_Some in Hj as [Hj|[Hge Hj]].
    + specialize (H7 j h' Hj). assert (Hin : h' ∈ hs) by (by eapply list_elem_of_lookup_2). destruct (mjoin _) as [r|]; [|intros k Hk; rewrite (Ht k h' Hin); by apply H7].
      destruct H7 as (A & B & C & D). split; [done|]. split; [done|]. unfold open_parts in *. rewrite !(Ht _ h' Hin). split; [done|]. intros k Hk. rewrite (Ht k h' Hin). by apply D.
    + apply list_lookup_singleton_Some in Hj as [Hj <-]. rewrite H8 by (apply lookup_ge_None; lia). intros k Hk. unfold todos, todo. rewrite scheduled_lane, Hk. cbn. by rewrite lookup_insert_eq.
  - intros j Hj. apply H8. apply lookup_ge_None in Hj. rewrite length_app in Hj. apply lookup_ge_None. lia.
Qed.

Lemma Schedule_inv headers : forall (q q' : queue) ins ret hs, Inv none q ret hs -> Forall P headers ->
  Schedule HeaderHash headers (resultOffset q + Z.of_nat (length hs)) q = (q', ins) -> Inv none q' ret (hs ++ ins) /\ resultOffset q' = resultOffset q /\ mode q' = mode q.
Proof using W laws.
  induction headers as [|h headers IH]; intros q q' ins ret hs HI HP; cbn [Schedule]; [intros [= <- <-]; by rewrite app_nil_r|]. apply Forall_cons in HP as [Hp HP].
  pose proof (ho_number W h Hp) as Hb. rewrite big_Uint64_id by go_lia. destruct (_ =? _) eqn:En; cbn [negb]; [|intros [= <- <-]; by rewrite app_nil_r]. bool_to_prop.
  destruct (negb (headerHead q =? 0) && _)%bool eqn:Eh; [intros [= <- <-]; by rewrite app_nil_r|].
  destruct (bool_decide (is_Some (taskPool (bodies q) !! HeaderHash h))) eqn:E1; [by apply IH|]. destruct (bool_decide (is_Some (taskPool (receipts q) !! HeaderHash h))) eqn:E2; [by apply IH|].
  apply bool_decide_eq_false, eq_None_not_Some in E1, E2. fold (scheduled h q). destruct (Schedule _ headers _ (scheduled h q)) as [q1 ins1] eqn:Es. intros [= <- <-].
  destruct (scheduled_rest h q) as (_ & Eo & _ & _). rewrite u64_id in Es by go_lia. destruct (IH (scheduled h q) q1 ins1 ret (hs ++ [h])) as (IH1 & IH2 & IH3).
  - apply scheduled_inv; [done|done|done| |by intros []]. intros a Ha. pose proof (i_head _ _ _ _ HI) as Hh. rewrite Ha in Hh. pose proof (ho_nonzero W a (i_last _ _ _ _ HI a Ha)) as Hnz.
    apply andb_false_iff in Eh as [Eh|Eh]; bool_to_prop; congruence.
  - done.
  - rewrite Eo, length_app. cbn [length]. rewrite <- Es. f_equal. lia.
  - rewrite <- app_assoc in IH1. split; [done|]. split; [by rewrite IH2|]. rewrite IH3. apply (scheduled_rest h q).
Qed.

(** ** Results *)

Lemma processable (cache : list (option fetchResult)) : forall j, (j < count_processable cache)%nat -> exists r, cache !! j = Some (Some r) /\ Pending r <= 0.
Proof.
  induction cache as [|[r|] cache IH]; cbn; intros j Hj; [lia| |lia]. destruct (0 <? Pending r) eqn:E; bool_to_prop; [lia|]. destruct j as [|j]; [by exists r|]. apply IH. lia.
Qed.

(** The parts of a result that are due in the mode. *)
Definition complete (m : SyncMode) (r : fetchResult) : Prop := forall k, active m k = true -> content_ok k (ResHeader r) r.

Lemma ready_slot ex q ret hs j : Inv ex q ret hs -> (j < countProcessableItems q)%nat ->
  exists r h, resultCache q !! j = Some (Some r) /\ hs !! j = Some h /\ ResHeader r = h /\ complete (mode q) r /\ forall k, active (mode q) k = true -> todos q h k = false.
Proof.
  intros HI Hj. destruct (processable _ j Hj) as (r & Er & Hr). destruct (hs !! j) as [h|] eqn:Eh; [|apply (i_free _ _ _ _ HI) in Eh; rewrite Er in Eh; done].
  pose proof (i_slots _ _ _ _ HI j h Eh) as Hs. rewrite Er in Hs. destruct Hs as (A & B & C & D).
  assert (Ht : forall k, active (mode q) k = true -> todos q h k = false).
  { unfold open_parts in C. intros [] Hk; [destruct (todos q h Bodies); [|done]|rewrite Hk in C; destruct (todos q h ReceiptsOf); [|done]]; repeat case_match; lia. }
  exists r, h. split; [done|]. split; [done|]. split; [done|]. split; [|done]. intros k Hk. specialize (D k Hk). rewrite (Ht k Hk) in D. by rewrite A.
Qed.

Lemma ready_list ex q ret hs n : Inv ex q ret hs -> (n <= countProcessableItems q)%nat ->
  let res := omap id (take n (resultCache q)) in map ResHeader res = take n hs /\ length res = n /\ Forall (complete (mode q)) res /\ (n <= length hs)%nat.
Proof.
  intros HI. induction n as [|n IH]; intros Hn; [cbn; split; [done|]; split; [done|]; split; [constructor|lia]|]. destruct (ready_slot _ _ _ _ n HI) as (r & h & Er & Eh & E & Hc & _); [lia|].
  destruct IH as (I1 & I2 & I3 & I4); [lia|]. cbn zeta. rewrite (take_S_r _ _ _ Er), (take_S_r _ _ _ Eh). rewrite omap_app, map_app, length_app. cbn. rewrite I1, I2, E. split; [done|]. split; [lia|].
  split; [by apply Forall_app; split; [|by apply Forall_singleton]|]. apply lookup_lt_Some in Eh. lia.
Qed.

Lemma forget_done (results : list fetchResult) : forall (d : gset Hash) (x : Hash), x ∈ foldl (fun d r => d ∖ {[HeaderHash (ResHeader r)]}) d results <-> x ∈ d /\ x ∉ map HeaderHash (map ResHeader results).
Proof.
  induction results as [|r results IH]; intros d x; cbn [foldl map]; [rewrite elem_of_nil; tauto|]. rewrite IH, elem_of_difference, elem_of_singleton, elem_of_cons. tauto.
Qed.

Lemma forget_ok (l : lane) hs n (res : list fetchResult) : lane_ok l hs [] -> map ResHeader res = take n hs -> (forall h, h ∈ take n hs -> taskPool l !! HeaderHash h = None) ->
  (forall h k, h ∈ hs -> k ∈ hs -> HeaderHash h = HeaderHash k -> h = k) -> NoDup hs -> lane_ok (forget HeaderHash res l) (drop n hs) [].
Proof.
  intros [L1 L2 L3] Er Ht Hinj Hnd. assert (Hsplit : forall h, h ∈ hs -> h ∈ take n hs \/ h ∈ drop n hs) by (intros h; rewrite <- (take_drop n hs) at 1; by rewrite elem_of_app).
  assert (Hdrop : forall h, h ∈ drop n hs -> h ∈ hs /\ h ∉ take n hs).
  { intros h Hh. split; [rewrite <- (take_drop n hs), elem_of_app; by right|]. rewrite <- (take_drop n hs) in Hnd. apply NoDup_app in Hnd as (_ & Hd & _). intros Hin. by apply (Hd h). }
  split; cbn [taskPool taskQueue donePool forget].
  - intros x h Hx. destruct (L1 x h Hx) as [Hh ->]. split; [|done]. destruct (Hsplit h Hh) as [Hin|]; [|done]. rewrite (Ht h Hin) in Hx. done.
  - exact L2.
  - intros x. rewrite forget_done, Er, L3. split.
    + intros [(h & Hh & -> & Hp) Hni]. exists h. split; [|done]. destruct (Hsplit h Hh) as [Hin|]; [|done]. destruct Hni. apply list_elem_of_fmap. by exists h.
    + intros (h & Hh & -> & Hp). destruct (Hdrop h Hh) as [Hin Hni]. split; [by exists h|]. intros Hm. apply list_elem_of_fmap in Hm as (k & E & Hk). apply Hinj in E; [by subst k|done|].
      rewrite <- (take_drop n hs), elem_of_app. by left.
Qed.

Lemma Inv_NoDup ex q ret hs : Inv ex q ret hs -> NoDup hs.
Proof. intros HI. apply NoDup_alt. intros i j h Hi Hj. by eapply hs_inj. Qed.
Lemma Inv_P ex q ret hs h : Inv ex q ret hs -> h ∈ hs -> P h.
Proof. intros HI Hh. apply list_elem_of_lookup in Hh as [j Hj]. by destruct (i_numbers _ _ _ _ HI j h Hj). Qed.

Lemma shifted (cache : list (option fetchResult)) n j : (n <= length cache)%nat -> mjoin ((drop n cache ++ replicate n None) !! j) = mjoin (cache !! (n + j)%nat).
Proof.
  intros Hn. destruct (decide (j < length (drop n cache))%nat) as [Hj|Hj].
  - rewrite lookup_app_l by done. by rewrite lookup_drop.
  - rewrite length_drop in Hj. rewrite lookup_app_r by (rewrite length_drop; lia). rewrite (lookup_ge_None_2 cache) by lia. cbn.
    destruct (decide (j - length (drop n cache) < n)%nat); [by rewrite lookup_replicate_2|]. by rewrite lookup_ge_None_2 by (rewrite length_replicate; lia).
Qed.

Lemma Results_inv block (q q' : queue) res ret hs : Inv none q ret hs -> Results HeaderHash block q = Some (q', res) ->
  exists hs', hs = map ResHeader res ++ hs' /\ Forall (complete (mode q)) res /\ mode q' = mode q /\ Inv none q' (ret ++ map ResHeader res) hs'.
Proof using W.
  intros HI. unfold Results. destruct (_ && _)%bool; [destruct block; intros [= <- <-]; exists hs; rewrite app_nil_r; auto|].
  set (n := Nat.min _ _). set (rs := omap id _). intros [= <- <-]. assert (Hn : (n <= countProcessableItems q)%nat) by lia. destruct (ready_list _ _ _ _ n HI Hn) as (E1 & E2 & E3 & E4). fold rs in E1, E2, E3.
  exists (drop n hs). rewrite E1, take_drop. split; [done|]. split; [done|]. split; [done|]. pose proof HI as [H1 H2 H3 H4 H5 H6 H7 H8].
  assert (Hcl : (n <= length (resultCache q))%nat).
  { destruct (decide (n = 0)%nat) as [->|Hne]; [lia|]. destruct (ready_slot _ _ _ _ (n - 1) HI) as (r & h & Er & _); [lia|]. apply lookup_lt_Some in Er. lia. }
  assert (Hoff : u64 (resultOffset q + Z.of_nat n) = resultOffset q + Z.of_nat n /\ resultOffset q + Z.of_nat n < 2 ^ 63).
  { destruct (decide (n = 0)%nat) as [->|Hne]; [rewrite Z.add_0_r, u64_id by go_lia; lia|]. destruct (ready_slot _ _ _ _ (n - 1) HI) as (r & h & _ & Eh & _); [lia|].
    destruct (H2 _ _ Eh) as [Hp Hnum]. pose proof (ho_number W h Hp). rewrite u64_id by go_lia. lia. }
  assert (Hdone : forall k h, active (mode q) k = true -> h ∈ take n hs -> taskPool (lane_of k q) !! HeaderHash h = None).
  { intros k h Hk Hh. apply list_elem_of_lookup in Hh as [j Hj]. apply lookup_take_Some in Hj as [Hj Hlt]. destruct (ready_slot _ _ _ _ j HI) as (r & h' & _ & Eh & _ & _ & Ht); [lia|].
    rewrite Hj in Eh. injection Eh as <-. specialize (Ht k Hk). unfold todos, todo in Ht. apply bool_decide_eq_false in Ht. by apply eq_None_not_Some. }
  assert (Hinj : forall h k, h ∈ hs -> k ∈ hs -> HeaderHash h = HeaderHash k -> h = k) by (intros h k Hh Hk; apply (ho_inj W); by eapply Inv_P).
  set (q' := with_offset _ _). assert (Hl : forall k, lane_of k q' = forget HeaderHash rs (lane_of k q)) by (by intros []).
  assert (Happ : (ret ++ take n hs) ++ drop n hs = ret ++ hs) by (by rewrite <- app_assoc, take_drop).
  split; rewrite ?Happ; cbn [mode resultOffset headerHead resultCache q' with_offset with_cache with_lane]; try done.
  - intros k. rewrite Hl. unfold none. specialize (H1 k). unfold lane_headers in *. destruct (active (mode q) k) eqn:Ek.
    + apply forget_ok; [done|done|intros h Hh; by apply Hdone|done|by eapply Inv_NoDup].
    + destruct H1 as [L1 L2 L3]. split; [done|done|]. intros x. cbn. rewrite forget_done, L3. split; [intros [(h & Hh & _) _]; by apply elem_of_nil in Hh|intros (h & Hh & _); by apply elem_of_nil in Hh].
  - intros j h. rewrite lookup_drop. intros Hj. destruct (H2 _ _ Hj). split; [done|]. rewrite (proj1 Hoff). lia.
  - rewrite (proj1 Hoff). lia.
  - intros j h. rewrite lookup_drop. intros Hj. rewrite shifted by done. specialize (H7 _ _ Hj).
    assert (Ht : forall k, todos q' h k = todos q h k) by (intros k; unfold todos, todo; by rewrite Hl). destruct (mjoin _) as [r|]; [|intros k Hk; rewrite Ht; by apply H7].
    destruct H7 as (A & B & C & D). split; [done|]. split; [done|]. unfold open_parts in *. rewrite !Ht. split; [done|]. intros k Hk. rewrite Ht. by apply D.
  - intros j. rewrite lookup_drop, shifted by done. apply H8.
Qed.

(** ** Runs *)

(** The queue, the headers that [Schedule] accepted, and the results handed out. *)
Definition state : Type := queue * list Header * list fetchResult.

(** A reservation that reports an invalid chain (an index outside the results) makes the
    downloader give up the whole synchronisation, so a run goes on only after reservations
    without an error. *)
Inductive step : state -> state -> Prop :=
| step_schedule q sched out headers q' ins : Forall P headers -> Schedule HeaderHash headers (resultOffset q + Z.of_nat (length sched - length out)) q = (q', ins) ->
    step (q, sched, out) (q', sched ++ ins, out)
| step_reserve q sched out k limit p lacks now count q' req progress :
    reserveHeaders HeaderHash EmptyRootHash EmptyUncleHash k limit p lacks now count q = Ret (q', (req, progress, None)) -> step (q, sched, out) (q', sched, out)
| step_cancel q sched out k r : pendPool (lane_of k q) !! Peer r = Some r -> step (q, sched, out) (cancel k r q, sched, out)
| step_revoke q sched out p : step (q, sched, out) (Revoke p q, sched, out)
| step_expire q sched out k now timeout : step (q, sched, out) (fst (expire k now timeout q), sched, out)
| step_bodies q sched out id txs uncles q' res lacking : DeliverBodies HeaderHash TxRoot UncleRoot id txs uncles q = Ret (q', res, lacking) -> step (q, sched, out) (q', sched, out)
| step_receipts q sched out id rs : step (q, sched, out) (fst (fst (DeliverReceipts HeaderHash ReceiptRoot id rs q)), sched, out)
| step_results q sched out block q' res : Results HeaderHash block q = Some (q', res) -> step (q, sched, out) (q', sched, out ++ res)
| step_close q sched out : step (q, sched, out) (Close q, sched, out).

(** A synchronisation starts from a reset queue. *)
Definition start (q : queue) (offset : Z) (m : SyncMode) : state := (Prepare offset m (Reset q), [], []).

Inductive runs (s0 : state) : state -> Prop :=
| runs_start : runs s0 s0
| runs_step s s' : runs s0 s -> step s s' -> runs s0 s'.

Definition good (m : SyncMode) (s : state) : Prop := let '(q, sched, out) := s in
  mode q = m /\ Forall (complete m) out /\ exists hs, sched = map ResHeader out ++ hs /\ Inv none q (map ResHeader out) hs.

Lemma free_cache n j : mjoin (replicate n (@None fetchResult) !! j) = None.
Proof. destruct (decide (j < n)%nat); [by rewrite lookup_replicate_2|]. by rewrite lookup_ge_None_2 by (rewrite length_replicate; lia). Qed.

Lemma start_good q offset m : 0 <= offset < 2 ^ 63 -> good m (start q offset m).
Proof using laws.
  intros Ho. unfold start, good. set (q0 := Prepare offset m (Reset q)). assert (Ef : resultOffset q0 = offset) by (unfold q0, Prepare; cbn; destruct (0 <? offset) eqn:E; bool_to_prop; cbn; lia).
  assert (Hrest : mode q0 = m /\ headerHead q0 = 0 /\ resultCache q0 = replicate blockCacheItems None /\ forall k, lane_of k q0 = new_lane).
  { unfold q0, Prepare. cbn. destruct (0 <? offset); (split; [done|]); (split; [done|]); (split; [done|]); by intros []. }
  destruct Hrest as (R1 & R2 & R3 & R4). split; [done|]. split; [constructor|]. exists []. split; [done|]. split; rewrite ?Ef, ?R1, ?R2, ?R3; try done.
  - intros k. rewrite R4. split; cbn; [done| |].
    + rewrite pq_New_items. unfold inflight. cbn. by rewrite map_to_list_empty.
    + intros x. unfold lane_headers. split; [intros Hx; by apply not_elem_of_empty in Hx|]. intros (h & Hh & _). destruct (active m k); by apply elem_of_nil in Hh.
  - intros j _. apply free_cache.
Qed.

Lemma step_good m s s' : good m s -> step s s' -> good m s'.
Proof using W laws.
  destruct s as [[q sched] out]. intros (Hm & Hout & hs & Es & HI) Hst. pose proof (f_equal length Es) as El. rewrite length_app, length_map in El.
  assert (Hkeep : forall q', Inv none q' (map ResHeader out) hs /\ mode q' = mode q -> good m (q', sched, out)) by (intros q' [HI' Em]; split; [congruence|]; split; [done|]; by exists hs).
  assert (Es' : sched = map ResHeader out ++ hs /\ True) by done. clear Es.
  inversion Hst as [? ? ? headers q' ins H1 H2|? ? ? k limit p lacks now count q' req progress H1|? ? ? k r H1|? ? ? p|? ? ? k now timeout|? ? ? id txs uncles q' res lacking H1|? ? ? id rs|? ? ? block q' res H1|]; subst; destruct Es' as [Es _].
  - replace (length sched - length out)%nat with (length hs) in H2 by lia. destruct (Schedule_inv headers q q' ins _ hs HI H1 H2) as (HI' & _ & Em).
    split; [congruence|]. split; [done|]. exists (hs ++ ins). split; [by rewrite Es, app_assoc|done].
  - apply Hkeep. by eapply reserve_inv.
  - apply Hkeep. split; [by apply cancel_inv|by destruct k].
  - apply Hkeep. split; [by apply Revoke_inv|done].
  - apply Hkeep. split; [by apply expire_inv|by destruct k].
  - apply Hkeep. unfold DeliverBodies in H1. destruct (_ <? _)%nat; [done|]. injection H1 as H1. pose proof (deliver_inv Bodies id (length txs) _ q _ hs (body_recon_ok txs uncles) HI) as H. by rewrite H1 in H.
  - apply Hkeep. apply deliver_inv; [apply receipt_recon_ok|done].
  - destruct (Results_inv _ _ _ _ _ _ HI H1) as (hs' & E & Hc & Em & HI'). split; [congruence|]. split; [apply Forall_app; by split|].
    exists hs'. rewrite map_app. split; [by rewrite Es, E, app_assoc|done].
  - apply Hkeep. split; [by destruct HI; split|done].
Qed.

Lemma runs_good q offset m s : 0 <= offset < 2 ^ 63 -> runs (start q offset m) s -> good m s.
Proof using W laws. intros Ho. induction 1 as [|s s' _ IH Hst]; [by apply start_good|by eapply step_good]. Qed.

(** The tasks of a lane and what it has done make up its headers. *)
Lemma lane_partition (l : lane) hs : NoDup hs -> (forall h k, h ∈ hs -> k ∈ hs -> HeaderHash h = HeaderHash k -> h = k) -> lane_ok l hs [] ->
  hs ≡ₚ pq_items (taskQueue l) ++ inflight l ++ filter (fun h => HeaderHash h ∈ donePool l) hs.
Proof.
  intros Hnd Hinj [L1 L2 L3]. rewrite app_nil_r in L2. rewrite app_assoc, L2.
  assert (Hp : (map_to_list (taskPool l)).*2 ≡ₚ filter (fun h => HeaderHash h ∉ donePool l) hs).
  { apply NoDup_Permutation.
    - apply NoDup_alt. intros i j h Hi Hj. rewrite list_lookup_fmap in Hi, Hj. apply fmap_Some in Hi as ([x h1] & Hi & ->). apply fmap_Some in Hj as ([y h2] & Hj & E). cbn in E. subst h2.
      assert (x = y) as <-. { pose proof (list_elem_of_lookup_2 _ _ _ Hi) as A. pose proof (list_elem_of_lookup_2 _ _ _ Hj) as B. apply elem_of_map_to_list in A, B. destruct (L1 _ _ A) as [_ ->], (L1 _ _ B) as [_ ->]. done. }
      eapply NoDup_lookup; [apply (NoDup_map_to_list (taskPool l))|exact Hi|exact Hj].
    - by apply NoDup_filter.
    - intros h. rewrite list_elem_of_filter, L3, list_elem_of_fmap. split.
      + intros ([x h'] & -> & Hin). apply elem_of_map_to_list in Hin. destruct (L1 _ _ Hin) as [Hh ->]. split; [|done]. intros (k & Hk & E & Hn). cbn in *. congruence.
      + intros [Hn Hh]. destruct (taskPool l !! HeaderHash h) as [h'|] eqn:E; [|destruct Hn; by exists h]. destruct (L1 _ _ E) as [Hh' E']. exists (HeaderHash h, h'). split; [|by apply elem_of_map_to_list].
        cbn. by apply Hinj. }
  rewrite Hp. clear. induction hs as [|h hs IH]; [done|]. rewrite !filter_cons. destruct (decide (HeaderHash h ∈ donePool l)) as [Hd|Hd].
  - rewrite decide_False by tauto. rewrite <- Permutation_middle. by constructor.
  - rewrite decide_True by done. cbn. by constructor.
Qed.

(** C16: In every run of a synchronisation, each header accepted by [Schedule] is in
    exactly one place: its result was handed out; or, for the bodies and in fast sync for
    the receipts, it waits in the task queue, or is in exactly one peer's request, or its
    part is done. The results handed out are those of the first headers, in order.  (A run
    ends when a reservation reports an invalid chain: the downloader then gives up the
    synchronisation and its queue.) *)
Theorem downloads_conserved q0 offset m q sched out : 0 <= offset < 2 ^ 63 -> runs (start q0 offset m) (q, sched, out) ->
  exists hs, sched = map ResHeader out ++ hs /\ NoDup hs /\ forall k, active m k = true ->
    hs ≡ₚ pq_items (taskQueue (lane_of k q)) ++ inflight (lane_of k q) ++ filter (fun h => HeaderHash h ∈ donePool (lane_of k q)) hs.
Proof using W laws.
  intros Ho Hr. destruct (runs_good _ _ _ _ Ho Hr) as (Hm & _ & hs & Es & HI). exists hs. split; [done|]. split; [by eapply Inv_NoDup|]. intros k Hk.
  pose proof (i_lanes _ _ _ _ HI k) as Hl. unfold lane_headers in Hl. rewrite Hm, Hk in Hl. by apply (lane_partition _ _ (Inv_NoDup _ _ _ _ HI)); [intros h h' Hh Hh'; apply (ho_inj W); by eapply Inv_P|].
Qed.

(** C17: The results handed out are the blocks of the accepted headers from the first on,
    without gaps: each follows the one before by its parent hash, its transactions and
    uncles hash to what its header says, and in fast sync its receipts do too. *)
Theorem results_in_order q0 offset m q sched out : 0 <= offset < 2 ^ 63 -> runs (start q0 offset m) (q, sched, out) ->
  map ResHeader out = take (length out) sched /\
  (forall j a b, sched !! j = Some a -> sched !! S j = Some b -> ParentHash b = HeaderHash a) /\
  Forall (fun r => TxRoot (Transactions r) = TxHash (ResHeader r) /\ UncleRoot (Uncles r) = UncleHash (ResHeader r) /\ (m = FastSync -> ReceiptRoot (Receipts r) = ReceiptHash (ResHeader r))) out.
Proof using W laws.
  intros Ho Hr. destruct (runs_good _ _ _ _ Ho Hr) as (Hm & Hc & hs & Es & HI). split; [rewrite Es, take_app_length'; [done|by rewrite length_map]|]. split; [rewrite Es; apply HI|].
  eapply Forall_impl; [exact Hc|]. intros r Hr'. destruct (Hr' Bodies eq_refl). split; [done|]. split; [done|]. intros ->. by apply (Hr' ReceiptsOf).
Qed.

(** When the queue says that it is idle, the results of all accepted headers have
    been handed out. *)
Theorem idle_means_done q0 offset m q sched out : 0 <= offset < 2 ^ 63 -> runs (start q0 offset m) (q, sched, out) -> Idle q = true -> map ResHeader out = sched.
Proof using W laws.
  intros Ho Hr Hi. destruct (runs_good _ _ _ _ Ho Hr) as (Hm & _ & hs & Es & HI). pose proof (i_lanes _ _ _ _ HI Bodies) as [L1 L2 L3]. unfold lane_headers in *. cbn [active] in *.
  unfold Idle in Hi. apply Nat.eqb_eq in Hi. unfold PendingBlocks in Hi. assert (hs = []) as ->; [|by rewrite Es, app_nil_r]. destruct hs as [|h hs]; [done|]. exfalso. cbn [lane_of] in *.
  assert (E1 : pq_items (taskQueue (bodies q)) = []) by (apply length_zero_iff_nil; lia). assert (E2 : pendPool (bodies q) = ∅) by (apply map_size_empty_inv; lia).
  assert (E3 : donePool (bodies q) = ∅) by (apply leibniz_equiv, size_empty_inv; lia). unfold inflight in L2. rewrite E1, E2, map_to_list_empty in L2. cbn in L2. symmetry in L2. apply Permutation_nil_r, fmap_nil_inv, map_to_list_empty_iff in L2.
  assert (Hin : HeaderHash h ∈ donePool (bodies q)) by (apply L3; exists h; split; [by left|]; split; [done|]; by rewrite L2). rewrite E3 in Hin. by apply not_elem_of_empty in Hin.
Qed.

End Props.

(** ** A small synchronisation *)

Module Toy.

Definition hash (h : Header) : Hash := 1 + Number h.
Definition root (l : list Z) : Hash := foldr Z.add 0 l.
Definition uncle_root (l : list Header) : Hash := Z.of_nat (length l).
Definition header (n parent txs : Z) : Header := mkHeader parent 0 0 0 txs 0 0 1 n 100 0 n [] 0 0 0 0 "" 0 0.
Definition h1 : Header := header 1 1 7.
Definition h2 : Header := header 2 2 0.
Definition all (h : Header) : Prop := h = h1 \/ h = h2.

Lemma ok : headers_ok hash root uncle_root root 0 0 all.
Proof.
  split; [intros h k [->| ->] [->| ->]; cbn; done|by intros h [->| ->]|by intros h [->| ->]|done].
Qed.

Abbreviation queue := (@queue Z Z (list Header) (list Z)).
Definition q0 : queue := newQueue.
Definition q1 : queue := fst (Schedule hash [h1; h2] 1 (Prepare 1 FullSync (Reset q0))).
Definition taken : outcome (queue * (option fetchRequest * bool * option QueueError)) := ReserveBodies hash 0 0 blockCacheItems "peer"%string (fun _ => false) 5 10 q1.
Definition q2 : queue := match taken with Ret (q, _) => q | Panic => q1 end.
Definition given : outcome (queue * (nat * option QueueError) * list Hash) := DeliverBodies hash root uncle_root "peer"%string [[3; 4]] [[]] q2.
Definition q3 : queue := match given with Ret (q, _, _) => q | Panic => q2 end.
Definition handed : queue * list fetchResult := default (q3, []) (Results hash false q3).

Abbreviation runs := (runs hash root uncle_root root 0 0 all).

Lemma run1 : runs (start q0 1 FullSync) (q1, [h1; h2], []).
Proof.
  eapply runs_step; [apply runs_start|]. apply (step_schedule hash root uncle_root root 0 0 all (Prepare 1 FullSync (Reset q0)) [] [] [h1; h2] q1 [h1; h2]);
    [apply Forall_cons; split; [by left|]; apply Forall_cons; split; [by right|]; by apply Forall_nil|vm_compute; reflexivity].
Qed.
Lemma run2 : runs (start q0 1 FullSync) (q2, [h1; h2], []).
Proof.
  eapply runs_step; [apply run1|]. eapply (step_reserve hash root uncle_root root 0 0 all q1 [h1; h2] [] Bodies blockCacheItems "peer"%string (fun _ => false) 5 10 q2 (Some (MkRequest "peer"%string 0 [h1] 5)) true).
  vm_compute. reflexivity.
Qed.
Lemma run3 : runs (start q0 1 FullSync) (q3, [h1; h2], []).
Proof.
  eapply runs_step; [apply run2|]. eapply (step_bodies hash root uncle_root root 0 0 all q2 [h1; h2] [] "peer"%string [[3; 4]] [[]] q3 (1%nat, None) []). vm_compute. reflexivity.
Qed.
Lemma run4 : runs (start q0 1 FullSync) (fst handed, [h1; h2], snd handed).
Proof.
  eapply runs_step; [apply run3|]. change (snd handed) with ([] ++ snd handed). apply (step_results hash root uncle_root root 0 0 all q3 [h1; h2] [] false). vm_compute. reflexivity.
Qed.

End Toy.

Lemma downloads_conserved_witness : inflight (bodies Toy.q2) = [Toy.h1] /\ exists hs, [Toy.h1; Toy.h2] = map ResHeader (@nil (@fetchResult Z Z)) ++ hs /\ NoDup hs /\ forall k, active FullSync k = true ->
    hs ≡ₚ pq_items (taskQueue (lane_of k Toy.q2)) ++ inflight (lane_of k Toy.q2) ++ filter (fun h => Toy.hash h ∈ donePool (lane_of k Toy.q2)) hs.
Proof.
  split; [by vm_compute|]. apply (downloads_conserved Toy.hash Toy.root Toy.uncle_root Toy.root 0 0 Toy.all Toy.ok Toy.q0 1 FullSync Toy.q2 [Toy.h1; Toy.h2] []); [lia|apply Toy.run2].
Defined.

Lemma results_in_order_witness : map ResHeader (snd Toy.handed) = take (length (snd Toy.handed)) [Toy.h1; Toy.h2] /\ length (snd Toy.handed) = 2%nat.
Proof.
  split; [|by vm_compute].
  apply (results_in_order Toy.hash Toy.root Toy.uncle_root Toy.root 0 0 Toy.all Toy.ok Toy.q0 1 FullSync (fst Toy.handed) [Toy.h1; Toy.h2] (snd Toy.handed)); [lia|apply Toy.run4].
Defined.

Lemma idle_means_done_witness : Idle Toy.q3 = false /\ Idle (fst Toy.handed) = true /\ map ResHeader (snd Toy.handed) = [Toy.h1; Toy.h2].
Proof.
  split; [by vm_compute|]. assert (Hi : Idle (fst Toy.handed) = true) by (by vm_compute). split; [exact Hi|].
  apply (idle_means_done Toy.hash Toy.root Toy.uncle_root Toy.root 0 0 Toy.all Toy.ok Toy.q0 1 FullSync (fst Toy.handed) [Toy.h1; Toy.h2] (snd Toy.handed)); [lia|apply Toy.run4|exact Hi].
Defined.

End QueueProps.
