(* ===== verification/Packager.v ===== *)
(** The block packager: the header [GenerateNewBlock] of
    [consensus/dpos/worker.go] builds on top of the current block, the gas limit
    it chooses ([CalcGasLimit] of [core/block_validator.go]), uncle selection
    and the set of unconfirmed blocks ([consensus/dpos/unconfirmed.go]). *)

From S2P Require Import Prelude Params Consensus.

(** ** core/block_validator.go *)

(** [TargetGasLimit] is a variable of the process, set by a flag; [Params.TargetGasLimit]
    is its default. *)
Definition CalcGasLimit (TargetGasLimit : Z) (parent : Header) : Z :=
  let contrib := u64 (GasUsed parent + GasUsed parent / 2) / GasLimitBoundDivisor in
  let decay := u64 (GasLimit parent / GasLimitBoundDivisor - 1) in
  let limit := u64 (u64 (GasLimit parent - decay) + contrib) in
  let limit := if limit <? MinGasLimit then MinGasLimit else limit in
  if limit <? TargetGasLimit then
    let limit := u64 (GasLimit parent + decay) in
    if TargetGasLimit <? limit then TargetGasLimit else limit
  else limit.

(** ** consensus/dpos/worker.go *)

Section Packager.
Context (headerHash : Header -> Hash) (EmptyUncleHash : Hash) (TargetGasLimit : Z).

(** [big.Int.Int64] keeps the low 64 bits as a signed integer. *)
Definition big_Int64 (z : Z) : Z := i64 z.

(** The header literal of [GenerateNewBlock], at wall-clock second [now];
    fields the literal does not mention have Go's zero value (the difficulty
    pointer is filled in by [Prepare]). *)
Definition newHeader (now round : Z) (presidentId : string) (coinbase : Address)
    (extra : list Z) (parent : Header) : Header :=
  let tstamp := if now <=? Time parent then i64 (big_Int64 (Time parent) + 1) else now in
  mkHeader (headerHash parent) 0 coinbase 0 0 0 0 0 (Number parent + 1) (CalcGasLimit TargetGasLimit parent)
    0 tstamp extra 0 0 round 0 presidentId 0 0.

(** The header after [engine.Prepare]. *)
Definition preparedHeader (chain : ChainReader) (now round : Z) (presidentId : string)
    (coinbase : Address) (extra : list Z) (parent : Header) : VerifyError + Header :=
  Dpos.Prepare EmptyUncleHash chain (newHeader now round presidentId coinbase extra parent).

(** The sets of a [Work] that uncle selection uses. *)
Record WorkSets := mkWorkSets {
  w_ancestors : gset Hash;
  w_family : gset Hash;
  w_uncles : gset Hash
}.

Inductive UncleError := UncleNotUnique | UncleParentUnknown | UncleInFamily.

Definition commitUncle (work : WorkSets) (uncle : Header) : UncleError + WorkSets :=
  let hash := headerHash uncle in
  if bool_decide (hash ∈ w_uncles work) then inl UncleNotUnique else
  if negb (bool_decide (ParentHash uncle ∈ w_ancestors work)) then inl UncleParentUnknown else
  if bool_decide (hash ∈ w_family work) then inl UncleInFamily else
  inr (mkWorkSets (w_ancestors work) (w_family work) ({[hash]} ∪ w_uncles work)).

(** The loop over [possibleUncles] in one iteration order of that map: the
    chosen uncles and the hashes to forget. *)
Fixpoint selectUncles (work : WorkSets) (possible : list (Hash * Header))
    (chosen : list Header) (bad : list Hash) : WorkSets * list Header * list Hash :=
  match possible with
  | [] => (work, chosen, bad)
  | (hash, uncle) :: possible =>
      if (length chosen =? 2)%nat then (work, chosen, bad) else
      match commitUncle work uncle with
      | inl _ => selectUncles work possible chosen (bad ++ [hash])
      | inr work => selectUncles work possible (chosen ++ [uncle]) bad
      end
  end.

End Packager.

(** ** consensus/dpos/unconfirmed.go *)

Record unconfirmedBlock := mkUnconfirmed { ub_index : Z; ub_hash : Hash }.

(** What [Shift] logs about a block it drops. *)
Inductive report := HeaderMissing (b : unconfirmedBlock)
| ReachedCanonical (b : unconfirmedBlock)
| BecameSideFork (b : unconfirmedBlock).

(** The ring is the list of its values starting at [set.blocks]; nil is []. *)
Record unconfirmedBlocks := mkUnconfirmedBlocks { ub_depth : Z; ub_blocks : list unconfirmedBlock }.

Section Unconfirmed.
Context (headerHash : Header -> Hash) (GetHeaderByNumber : Z -> option Header).

Definition classify (next : unconfirmedBlock) : report :=
  match GetHeaderByNumber (ub_index next) with
  | None => HeaderMissing next
  | Some h => if headerHash h =? ub_hash next then ReachedCanonical next else BecameSideFork next
  end.

Fixpoint shiftLoop (depth height : Z) (blocks : list unconfirmedBlock)
    : list unconfirmedBlock * list report :=
  match blocks with
  | [] => ([], [])
  | next :: rest =>
      if height <? u64 (ub_index next + depth) then (blocks, [])
      else let '(kept, reports) := shiftLoop depth height rest in (kept, classify next :: reports)
  end.

Definition Shift (set : unconfirmedBlocks) (height : Z) : unconfirmedBlocks * list report :=
  let '(kept, reports) := shiftLoop (ub_depth set) height (ub_blocks set) in
  (mkUnconfirmedBlocks (ub_depth set) kept, reports).

Definition Insert (set : unconfirmedBlocks) (index : Z) (hash : Hash)
    : unconfirmedBlocks * list report :=
  let '(set, reports) := Shift set index in
  (mkUnconfirmedBlocks (ub_depth set) (ub_blocks set ++ [mkUnconfirmed index hash]), reports).

End Unconfirmed.

(** ** Properties *)

Module PackagerProps.

(** The gas limit the packager picks is one the engine accepts, apart from nearly full
    blocks with a limit below 5120, which it may raise by one unit too much. *)
Lemma CalcGasLimit_bounds target parent :
  is_u64 target -> (GasLimit parent < 5120 -> GasLimit parent + 4 < target) ->
  MinGasLimit <= GasLimit parent ->
  GasLimit parent + GasLimit parent / 1024 <= MaxInt64 ->
  0 <= GasUsed parent <= GasLimit parent ->
  MinGasLimit <= CalcGasLimit target parent <= MaxInt64 /\
  Z.abs (GasLimit parent - CalcGasLimit target parent) < GasLimit parent / GasLimitBoundDivisor.
Proof.
  unfold CalcGasLimit, MinGasLimit, GasLimitBoundDivisor, is_u64.
  intros Htarget Hsmall Hmin Hmax Hused.
  set (p := GasLimit parent) in *. set (g := GasUsed parent) in *.
  rewrite (u64_id (g + g / 2)) by div_lia.
  rewrite (u64_id (p / 1024 - 1)) by div_lia.
  set (contrib := (g + g / 2) / 1024). set (decay := p / 1024 - 1).
  assert (0 <= contrib <= 2 * (p / 1024) + 1) by (subst contrib; div_lia).
  rewrite (u64_id (p - decay)) by (subst decay; div_lia).
  rewrite (u64_id (p - decay + contrib)) by (subst decay; clearbody contrib; div_lia).
  rewrite (u64_id (p + decay)) by (subst decay; div_lia).
  assert (2048 * contrib <= 3 * p) by (subst contrib; div_lia).
  assert (1024 * (p / 1024) <= p < 1024 * (p / 1024) + 1024) by div_lia.
  subst decay. clearbody contrib. set (q := p / 1024) in *. clearbody q.
  repeat case_match; bool_to_prop; unfold MaxUint64, MaxInt64 in *; lia.
Qed.

(** [h'] is [h] after the body of the block has been assembled: transactions,
    receipts, root and gas used filled in, the consensus fields untouched. *)
Definition assembled (h h' : Header) : Prop :=
  Extra h' = Extra h /\ Time h' = Time h /\ DAppID h' = DAppID h /\
  Difficulty h' = Difficulty h /\ GasLimit h' = GasLimit h /\ Number h' = Number h /\
  0 <= GasUsed h' <= GasLimit h.

(** C30: a block packaged on top of a known [parent], judged by an engine whose clock shows
    the same second: the header is prepared without error, and for every assembled version
    of it [verifyHeader], seal included, accepts it when the parent is at most 14 seconds
    ahead of the clock and otherwise answers that the block is in the future.  (A parent is
    accepted up to 15 seconds ahead, and the packager does not wait for its own timestamp.)
    [target] is the gas limit the node aims at, whatever the flag sets it to, except that
    for a parent whose limit is below 5120 it has to exceed this limit by more than 4 (see
    [tiny_gas_limit_refused]). *)
Theorem mined_header_valid headerHash EmptyUncleHash target chain now round pid coinbase extra parent :
  is_u64 target -> (GasLimit parent < 5120 -> GasLimit parent + 4 < target) ->
  GetHeader chain (headerHash parent) (Number parent) = Some parent ->
  0 <= Number parent < MaxUint64 ->
  0 <= Time parent < MaxInt64 -> 0 <= now <= MaxInt64 ->
  Z.of_nat (length extra) <= MaximumExtraDataSize ->
  MinGasLimit <= GasLimit parent -> GasLimit parent + GasLimit parent / 1024 <= MaxInt64 ->
  0 <= GasUsed parent <= GasLimit parent ->
  exists h,
    preparedHeader headerHash EmptyUncleHash target chain now round pid coinbase extra parent = inr h /\
    forall h', assembled h h' ->
      Dpos.verifyHeader EmptyUncleHash now h' parent false true =
        if Time parent <=? now + 14 then None else Some ErrFutureBlock.
Proof.
  intros Htarget Hsmall Hp Hnum Htime Hnow Hex Hgmin Hgmax Hgu.
  pose proof (CalcGasLimit_bounds target parent Htarget Hsmall Hgmin Hgmax Hgu) as [Hcg Hdiff].
  unfold preparedHeader, Dpos.Prepare, newHeader. simpl.
  rewrite big_Uint64_id by go_lia. replace (Number parent + 1 - 1) with (Number parent) by lia.
  rewrite u64_id by go_lia. rewrite Hp. eexists. split; [done|].
  intros h' (He & Ht & Hd & Hdf & Hgl & Hn & Hu). simpl in *.
  set (ts := if _ <=? _ then _ else _) in *.
  assert (ts = Z.max now (Time parent + 1)) as Hts.
  { subst ts. unfold big_Int64. rewrite (i64_id (Time parent)), i64_id by go_lia.
    case_match; bool_to_prop; lia. }
  destruct (Time parent <=? now + 14) eqn:Eclock; bool_to_prop.
  - unfold MinGasLimit in *. apply DposProps.verifyHeader_valid; [lia|div_lia|].
    split; rewrite ?He, ?Ht, ?Hgl, ?Hn, ?Hdf; unfold allowedFutureBlockTime, MinGasLimit; try lia.
    intros _. pose proof (DposProps.difficulty_floor EmptyUncleHash (big_Uint64 ts) parent).
    unfold MinimumDifficulty in *. lia.
  - unfold Dpos.verifyHeader. rewrite He, Ht, Hts. rewrite (proj2 (Z.ltb_ge _ (Z.of_nat _))) by done.
    cbn [andb negb]. rewrite (proj2 (Z.ltb_lt _ (Z.max _ _))) by (unfold allowedFutureBlockTime; lia). done.
Qed.

Lemma mined_header_valid_witness :
  let parent := DposClaims.sampleHeader 9 100 41424776 131072 in
  let chain := mkChainReader (fun _ n => if n =? 9 then Some parent else None)
                 (fun _ _ => None) in
  exists h, preparedHeader (fun _ => 1) 0 5000000 chain 100 4 "node" 7 [] parent = inr h /\
    Time h = 101 /\ Dpos.verifyHeader 0 100 h parent false true = None.
Proof.
  intros parent chain. eexists. split; [vm_compute; reflexivity|]. split; [reflexivity|].
  unshelve epose proof (mined_header_valid (fun _ => 1) 0 5000000 chain 100 4 "node" 7 [] parent
                          _ _ _ _ _ _ _ _ _ _) as (h & Hh & Hv).
  3: reflexivity.
  1-9: vm_compute; intuition discriminate.
  vm_compute in Hh. injection Hh as <-. etransitivity; [apply Hv|reflexivity]. vm_compute. intuition discriminate.
Defined.

(** With a low target, a nearly full block at the smallest gas limit makes the packager
    choose a limit that the engine refuses. *)
Lemma tiny_gas_limit_refused :
  let parent := mkHeader 0 0 0 0 0 0 0 131072 9 5000 4800 100 [] 0 0 0 0 "" 0 0 in
  let chain := mkChainReader (fun _ _ => Some parent) (fun _ _ => None) in
  match preparedHeader (fun _ => 1) 0 5000 chain 110 4 "node" 7 [] parent with
  | inr h => GasLimit h = 5004 /\ Dpos.verifyHeader 0 110 h parent false true = Some errGasLimitBounds
  | inl _ => False
  end.
Proof. by vm_compute. Qed.

(** *** Unconfirmed blocks *)

(** The indices are nondecreasing from the front of the ring and small enough
    for [index + depth] not to wrap. *)
Definition ring_ordered (set : unconfirmedBlocks) : Prop :=
  StronglySorted (fun a b => ub_index a <= ub_index b) (ub_blocks set) /\
  Forall (fun b => 0 <= ub_index b /\ ub_index b + ub_depth set <= MaxUint64) (ub_blocks set) /\
  0 <= ub_depth set.

Definition fresh (depth height : Z) (b : unconfirmedBlock) : Prop := height < ub_index b + depth.

#[export] Instance fresh_dec depth height b : Decision (fresh depth height b).
Proof. unfold fresh. apply _. Defined.

Lemma shiftLoop_spec headerHash get depth height blocks :
  StronglySorted (fun a b => ub_index a <= ub_index b) blocks ->
  Forall (fun b => 0 <= ub_index b /\ ub_index b + depth <= MaxUint64) blocks -> 0 <= depth ->
  shiftLoop headerHash get depth height blocks =
    (filter (fresh depth height) blocks,
     classify headerHash get <$> filter (fun b => ~ fresh depth height b) blocks).
Proof.
  intros Hs Hf Hd. induction Hs as [|x l Hs IH Hx]; [done|].
  apply Forall_cons in Hf as [[Hx0 Hxd] Hf]. simpl. rewrite u64_id by go_lia.
  destruct (Z.ltb_spec height (ub_index x + depth)) as [Hlt|Hge].
  - assert (Forall (fresh depth height) (x :: l)) as Hall.
    { constructor; [done|]. eapply Forall_impl; [exact Hx|]. unfold fresh. simpl. lia. }
    rewrite (filter_all (fresh depth height)) by done.
    rewrite (filter_none (fun b => ~ fresh depth height b)); [done|].
    eapply Forall_impl; [exact Hall|]. auto.
  - rewrite IH by done. rewrite !filter_cons.
    rewrite decide_False by (unfold fresh; lia). rewrite decide_True by (unfold fresh; lia). done.
Qed.

(** [Shift] drops exactly the blocks that are [depth] or more below the new
    height, reporting each of them once in order as canonical, side fork or
    missing, keeps every younger block, and keeps the ring ordered; [Insert] adds
    the new block behind them. *)
Theorem unconfirmed_shift_insert headerHash get set height hash :
  ring_ordered set ->
  Shift headerHash get set height =
    (mkUnconfirmedBlocks (ub_depth set) (filter (fresh (ub_depth set) height) (ub_blocks set)),
     classify headerHash get <$>
       filter (fun b => ~ fresh (ub_depth set) height b) (ub_blocks set)) /\
  ring_ordered (Shift headerHash get set height).1 /\
  (0 <= height -> height + ub_depth set <= MaxUint64 ->
   Forall (fun b => ub_index b <= height) (ub_blocks set) ->
   ring_ordered (Insert headerHash get set height hash).1 /\
   ub_blocks (Insert headerHash get set height hash).1 =
     filter (fresh (ub_depth set) height) (ub_blocks set) ++ [mkUnconfirmed height hash]).
Proof.
  intros (Hs & Hf & Hd).
  eassert (Shift headerHash get set height = _) as Hsh.
  { unfold Shift. rewrite shiftLoop_spec by done. reflexivity. }
  assert (StronglySorted (fun a b => ub_index a <= ub_index b)
            (filter (fresh (ub_depth set) height) (ub_blocks set))) as Hs'.
  { by apply StronglySorted_filter. }
  assert (Forall (fun b => 0 <= ub_index b /\ ub_index b + ub_depth set <= MaxUint64)
            (filter (fresh (ub_depth set) height) (ub_blocks set))) as Hf'
    by (by apply Forall_filter).
  split; [done|]. split; [rewrite Hsh; split_and!; done|].
  intros H0 Hmax Hle. unfold Insert. rewrite Hsh. simpl. split; [|done].
  split_and!; simpl; [|apply Forall_app; split; [done|by constructor]|done].
  apply StronglySorted_snoc; [done|]. apply Forall_filter. exact Hle.
Qed.

(** Two blocks mined at heights 3 and 9, a new one at height 12, depth 5. *)
Lemma unconfirmed_shift_insert_witness :
  let set := mkUnconfirmedBlocks 5 [mkUnconfirmed 3 30; mkUnconfirmed 9 90] in
  Shift (fun _ => 30) (fun _ => None) set 12 =
    (mkUnconfirmedBlocks 5 [mkUnconfirmed 9 90], [HeaderMissing (mkUnconfirmed 3 30)]).
Proof.
  intros set.
  refine (proj1 (unconfirmed_shift_insert (fun _ => 30) (fun _ => None) set 12 0 _)).
  split_and!; [|repeat constructor; simpl; unfold MaxUint64; lia|simpl; lia].
  repeat constructor; simpl; lia.
Defined.
End PackagerProps.
