(* ===== verification/GigPeriod.v ===== *)
(** The big-period table of the delegated packaging process: whose turn it is to
    package ([GigPeriodTable] of [p2p/protocol/dposhandler.go]) and the check of
    a propagated block ([NewBlockMsg] of [p2p/protocol/handler.go]). *)

From S2P Require Import Prelude Params.

Definition TotalDelegatorNumber : Z := 31.
Definition SmallPeriodInterval : Z := 5.
Definition GigPeriodInterval : Z := TotalDelegatorNumber * 5.
Definition BigPeriodHistorySize : Z := 10.

Definition STATE_LOOKING : Z := 0xc0.
Definition STATE_CONFIRMED : Z := 0xc1.
Definition STATE_MISMATCHED_ROUND : Z := 0xc2.
Definition STATE_MISMATCHED_DNUMBER : Z := 0xc3.

(** The data of a table; the values stored in [confirmedBestNode] are tables
    whose own two maps are nil, so they are exactly this. *)
Record PeriodData := mkPeriodData {
  pd_round : Z;
  pd_state : Z;
  pd_delegatedNodes : list string;
  pd_delegatedNodesSign : Hash;
  pd_activeTime : Z
}.

Record GigPeriodTable := mkGigPeriodTable {
  gp_round : Z;
  gp_state : Z;
  delegatedNodes : list string;
  delegatedNodesSign : Hash;
  confirmedTickets : gmap string Z;
  confirmedBestNode : gmap string PeriodData;
  gp_activeTime : Z
}.

(** [beatStartTime] of position [i]; int64 arithmetic. *)
Definition beatStartTime (t : GigPeriodTable) (i : nat) : Z :=
  i64 (i64 (gp_activeTime t) + i64 (Z.of_nat i * SmallPeriodInterval)).

Definition isMyTurn (currNodeId : string) (t : GigPeriodTable) (currTime : Z) : bool :=
  exists_from (fun i node =>
    bool_decide (node = currNodeId) &&
    ((beatStartTime t i <=? currTime) &&
     (currTime <? i64 (beatStartTime t i + SmallPeriodInterval)))) 0 (delegatedNodes t).

(** The position and delegator [whosTurn] prints, if any. *)
Fixpoint whosTurn_from (t : GigPeriodTable) (currTime : Z) (i : nat) (l : list string)
    : option (nat * string) :=
  match l with
  | [] => None
  | node :: l =>
      if (beatStartTime t i <=? currTime) &&
         (currTime <=? i64 (beatStartTime t i + SmallPeriodInterval))
      then Some (i, node) else whosTurn_from t currTime (S i) l
  end.
Definition whosTurn (t : GigPeriodTable) (currTime : Z) : option (nat * string) :=
  whosTurn_from t currTime 0 (delegatedNodes t).

Definition isDelegatedNode (t : GigPeriodTable) (nodeId : string) : bool :=
  existsb (fun n => bool_decide (n = nodeId)) (delegatedNodes t).

(** [wasHisTurn]; the [round] argument is not used by the code. *)
Definition wasHisTurn (history : list GigPeriodTable) (t : GigPeriodTable)
    (nodeId : string) (minedTime : Z) : bool :=
  exists_from (fun i node =>
    bool_decide (node = nodeId) &&
    ((beatStartTime t i <=? minedTime) &&
     (minedTime <=? i64 (beatStartTime t i + SmallPeriodInterval)))) 0 (delegatedNodes t)
  || existsb (fun v =>
       (i64 (gp_activeTime v) <=? minedTime) &&
       (minedTime <=? i64 (i64 (gp_activeTime v) + SmallPeriodInterval)) &&
       isDelegatedNode v nodeId) history.

(** [SignCandidates] aside, [RemoveCanditate] swaps the i-th entry with the last
    one and drops it; an index out of range panics. *)
Definition RemoveCanditate (s : list string) (i : nat) : outcome (list string) :=
  x ← deref (s !! i);
  y ← deref (s !! (length s - 1)%nat);
  Ret (take (length s - 1) (<[i := y]> (<[(length s - 1)%nat := x]> s))).

(** The guard of the [NewBlockMsg] handler: [true] when the propagated block is
    refused with [ErrInvalidTimestamp]. *)
Definition newBlockRefused (history : list GigPeriodTable) (instance : option GigPeriodTable)
    (presidentId : string) (minedTime : Z) : bool :=
  match instance with
  | Some t => wasHisTurn history t presidentId minedTime
  | None => false
  end.

(** ** Properties *)

Module GigPeriodProps.

(** The period of the table lies in the int64 range of Unix seconds. *)
Definition period_ok (t : GigPeriodTable) : Prop :=
  0 <= gp_activeTime t /\
  gp_activeTime t + SmallPeriodInterval * (Z.of_nat (length (delegatedNodes t)) + 1) < 2 ^ 63.

Lemma beatStartTime_eq t i :
  period_ok t -> (i < length (delegatedNodes t))%nat ->
  beatStartTime t i = gp_activeTime t + SmallPeriodInterval * Z.of_nat i /\
  i64 (beatStartTime t i + SmallPeriodInterval) =
    gp_activeTime t + SmallPeriodInterval * (Z.of_nat i + 1).
Proof.
  unfold period_ok, SmallPeriodInterval. intros [H0 H1] Hi.
  assert (beatStartTime t i = gp_activeTime t + 5 * Z.of_nat i) as ->.
  { unfold beatStartTime, SmallPeriodInterval. rewrite !i64_id; rewrite ?i64_id; lia. }
  rewrite i64_id; lia.
Qed.

(** The turn of a position is the half-open slot [5 i, 5 i + 5) of the period. *)
Lemma isMyTurn_spec node t now :
  period_ok t ->
  isMyTurn node t now = true <->
  exists i, delegatedNodes t !! i = Some node /\
            gp_activeTime t + 5 * Z.of_nat i <= now < gp_activeTime t + 5 * Z.of_nat i + 5.
Proof.
  intros Hok. unfold isMyTurn. rewrite exists_from_spec. split.
  - intros (k & x & Hk & Hf). bool_to_prop. subst x. exists k. split; [done|].
    destruct (beatStartTime_eq t k Hok) as [E1 E2]; [by eapply lookup_lt_Some|].
    unfold SmallPeriodInterval in *. simpl in *. lia.
  - intros (k & Hk & Ht). exists k, node. split; [done|].
    destruct (beatStartTime_eq t k Hok) as [E1 E2]; [by eapply lookup_lt_Some|].
    rewrite bool_decide_true by done. simpl. rewrite E2, E1. unfold SmallPeriodInterval. lia.
Qed.

Lemma slot_unique i j a now :
  a + 5 * Z.of_nat i <= now < a + 5 * Z.of_nat i + 5 ->
  a + 5 * Z.of_nat j <= now < a + 5 * Z.of_nat j + 5 -> i = j.
Proof. lia. Qed.

Lemma isMyTurn_slot t now :
  period_ok t ->
  gp_activeTime t <= now < gp_activeTime t + 5 * Z.of_nat (length (delegatedNodes t)) ->
  exists node, delegatedNodes t !! Z.to_nat ((now - gp_activeTime t) / 5) = Some node /\
               isMyTurn node t now = true.
Proof.
  intros Hok Ht. set (i := Z.to_nat ((now - gp_activeTime t) / 5)).
  assert (Z.of_nat i = (now - gp_activeTime t) / 5) as Hi by (subst i; div_lia).
  destruct (lookup_lt_is_Some_2 (delegatedNodes t) i) as [node Hn]; [div_lia|].
  exists node. split; [done|]. apply isMyTurn_spec; [done|]. exists i. split; [done|]. div_lia.
Qed.

Lemma wasHisTurn_of_isMyTurn history node t now :
  isMyTurn node t now = true -> wasHisTurn history t node now = true.
Proof.
  unfold isMyTurn, wasHisTurn. rewrite !exists_from_spec, orb_true_iff.
  intros (k & x & Hk & Hf). left. apply exists_from_spec. exists k, x. split; [done|].
  bool_to_prop. rewrite bool_decide_true by done. lia.
Qed.

(** During a big period exactly one delegator may package at any second: the
    one at position [(now - activeTime) / 5] of the table; before and after the
    period nobody may. *)
Theorem turns_round_robin t now :
  period_ok t -> NoDup (delegatedNodes t) ->
  (forall node, isMyTurn node t now = true <->
     gp_activeTime t <= now /\
     delegatedNodes t !! Z.to_nat ((now - gp_activeTime t) / 5) = Some node) /\
  (gp_activeTime t <= now < gp_activeTime t + 5 * Z.of_nat (length (delegatedNodes t)) ->
   exists! node, isMyTurn node t now = true).
Proof.
  intros Hok Hnd.
  assert (forall node, isMyTurn node t now = true <->
     gp_activeTime t <= now /\
     delegatedNodes t !! Z.to_nat ((now - gp_activeTime t) / 5) = Some node) as Hiff.
  { intros node. rewrite isMyTurn_spec by done. split.
    - intros (i & Hi & Ht). split; [lia|].
      replace (Z.to_nat ((now - gp_activeTime t) / 5)) with i by div_lia. done.
    - intros [H0 Hi]. eexists. split; [exact Hi|]. div_lia. }
  split; [done|]. intros Ht.
  destruct (isMyTurn_slot t now Hok Ht) as (node & Hn & Hm). exists node. split; [done|].
  intros node' Hm'. apply Hiff in Hm' as [_ Hn']. congruence.
Qed.

Definition sampleTable : GigPeriodTable :=
  mkGigPeriodTable 1 STATE_CONFIRMED ["a"; "b"; "c"] 0 ∅ ∅ 1000.

Lemma turns_round_robin_witness :
  isMyTurn "b" sampleTable 1007 = true /\
  exists! node, isMyTurn node sampleTable 1007 = true.
Proof.
  split; [vm_compute; reflexivity|].
  refine (proj2 (turns_round_robin sampleTable 1007 _ _) _).
  - vm_compute. intuition discriminate.
  - apply (bool_decide_unpack _). vm_compute. exact I.
  - vm_compute. intuition discriminate.
Defined.

(** The check of propagated blocks is inverted: once a big period is active,
    every block packaged by a delegator during its own turn is refused, while a
    block whose president is in no table passes at any time. *)
Theorem in_turn_blocks_refused history t node mined :
  (isMyTurn node t mined = true -> newBlockRefused history (Some t) node mined = true) /\
  (node ∉ delegatedNodes t -> Forall (fun v => node ∉ delegatedNodes v) history ->
   newBlockRefused history (Some t) node mined = false).
Proof.
  split; [apply wasHisTurn_of_isMyTurn|]. intros Hn Hh. simpl. unfold wasHisTurn.
  apply orb_false_iff. split.
  - apply not_true_iff_false. rewrite exists_from_spec. intros (k & x & Hk & Hf).
    bool_to_prop. subst x. apply Hn. by eapply list_elem_of_lookup_2.
  - induction Hh as [|v l Hv Hl IH]; [done|]. simpl. rewrite IH, orb_false_r.
    apply andb_false_iff. right. apply not_true_iff_false. unfold isDelegatedNode.
    rewrite existsb_exists. intros (x & Hx & Hd). bool_to_prop. subst x.
    apply Hv. by apply list_elem_of_In.
Qed.

End GigPeriodProps.
