(* ===== verification/DposHandler.v ===== *)
(** The delegated packaging process: [DPoSProtocolManager] of
    [p2p/protocol/dposhandler.go] with the messages of
    [p2p/protocol/dposprotocol.go].

    The package-level variables of [package protocol] are one record, [Globals].
    A handler runs under its manager's lock, so it is one atomic transition; the
    messages it sends, the goroutines and timers it starts are its [Action]s.
    The wall clock, the answer of the voting contract, the connected peers and
    Go's map iteration order are inputs ([Env]). *)

From S2P Require Import Prelude Params GigPeriod.

Abbreviation Node := Z.

Record SyncBigPeriodRequest := mkSyncRequest {
  rq_Round : Z; rq_ActiveTime : Z; rq_DelegatedTable : list string;
  rq_DelegatedTableSign : Hash; rq_NodeId : string }.

Record SyncBigPeriodResponse := mkSyncResponse {
  rs_Round : Z; rs_ActiveTime : Z; rs_DelegatedTable : list string;
  rs_DelegatedTableSign : Hash; rs_State : Z; rs_NodeId : string }.

(** [ElectionInfo] of [p2p/protocol/dvotehandler.go]; node ids are the hex
    strings, [electionNodeIdHash] is the one of the decoded bytes. *)
Record ElectionInfo := mkElectionInfo {
  ei_round : Z;
  enodestate : Z;
  electionTickets : Z;
  electionNodeId : string;
  electionNodeIdHash : string;
  ei_activeTime : Z;
  latestActiveENode : Z;
  ei_confirmedTickets : gmap string Z;
  confirmedActiveTimes : gmap string Z
}.

(** Package variables and the timers of the two managers ([t1] is nil or not). *)
Record Globals := mkGlobals {
  DelegatorsTable : list string;
  DelegatorNodeInfo : list Node;
  GigPeriodHistory : list GigPeriodTable;
  GigPeriodInstance : option GigPeriodTable;
  NextGigPeriodInstance : option GigPeriodTable;
  ElectionInfo0 : option ElectionInfo;
  NextElectionInfo : option ElectionInfo;
  LastElectedNodeId : string;
  dpos_t1 : bool;
  dvote_t1 : bool
}.

Definition set_Delegators (g : Globals) a b : Globals :=
  mkGlobals a b (GigPeriodHistory g) (GigPeriodInstance g) (NextGigPeriodInstance g)
    (ElectionInfo0 g) (NextElectionInfo g) (LastElectedNodeId g) (dpos_t1 g) (dvote_t1 g).
Definition set_History (g : Globals) h : Globals :=
  mkGlobals (DelegatorsTable g) (DelegatorNodeInfo g) h (GigPeriodInstance g)
    (NextGigPeriodInstance g) (ElectionInfo0 g) (NextElectionInfo g) (LastElectedNodeId g)
    (dpos_t1 g) (dvote_t1 g).
Definition set_Instance (g : Globals) i : Globals :=
  mkGlobals (DelegatorsTable g) (DelegatorNodeInfo g) (GigPeriodHistory g) i
    (NextGigPeriodInstance g) (ElectionInfo0 g) (NextElectionInfo g) (LastElectedNodeId g)
    (dpos_t1 g) (dvote_t1 g).
Definition set_NextGig (g : Globals) n : Globals :=
  mkGlobals (DelegatorsTable g) (DelegatorNodeInfo g) (GigPeriodHistory g) (GigPeriodInstance g)
    n (ElectionInfo0 g) (NextElectionInfo g) (LastElectedNodeId g) (dpos_t1 g) (dvote_t1 g).
Definition set_Election0 (g : Globals) e : Globals :=
  mkGlobals (DelegatorsTable g) (DelegatorNodeInfo g) (GigPeriodHistory g) (GigPeriodInstance g)
    (NextGigPeriodInstance g) e (NextElectionInfo g) (LastElectedNodeId g) (dpos_t1 g) (dvote_t1 g).
Definition set_NextElection (g : Globals) e : Globals :=
  mkGlobals (DelegatorsTable g) (DelegatorNodeInfo g) (GigPeriodHistory g) (GigPeriodInstance g)
    (NextGigPeriodInstance g) (ElectionInfo0 g) e (LastElectedNodeId g) (dpos_t1 g) (dvote_t1 g).
Definition set_LastElected (g : Globals) s : Globals :=
  mkGlobals (DelegatorsTable g) (DelegatorNodeInfo g) (GigPeriodHistory g) (GigPeriodInstance g)
    (NextGigPeriodInstance g) (ElectionInfo0 g) (NextElectionInfo g) s (dpos_t1 g) (dvote_t1 g).
Definition set_dpos_t1 (g : Globals) b : Globals :=
  mkGlobals (DelegatorsTable g) (DelegatorNodeInfo g) (GigPeriodHistory g) (GigPeriodInstance g)
    (NextGigPeriodInstance g) (ElectionInfo0 g) (NextElectionInfo g) (LastElectedNodeId g) b
    (dvote_t1 g).
Definition set_dvote_t1 (g : Globals) b : Globals :=
  mkGlobals (DelegatorsTable g) (DelegatorNodeInfo g) (GigPeriodHistory g) (GigPeriodInstance g)
    (NextGigPeriodInstance g) (ElectionInfo0 g) (NextElectionInfo g) (LastElectedNodeId g)
    (dpos_t1 g) b.

Inductive DposAction :=
| SendSyncRequest (to : string) (m : SyncBigPeriodRequest)
| SendSyncResponse (to : string) (m : SyncBigPeriodResponse)
| AddPeer (n : Node)
| GoSyncDelegatedNode
| StopTimer
| AfterFunc (seconds : Z)
| GenerateNewBlock (round : Z).

Inductive DposError := DPOSErrDecode | DPOSErroDelegatorSign | ErrInvalidMsgCode | ErrSend.

(** Inputs of one handler run: [clock k] is the k-th reading of
    [time.Now().Unix()], [refresh] the answer of [VotingAccessor.Refresh()]
    ([None]: it returned an error and two nil tables), [peers] the ids of the
    connected peers, [iter] the order in which Go ranges over a ticket map,
    [sendErr] what [p.Send...] returns, [headRound] the round of the head block. *)
Record Env := mkEnv {
  clock : nat -> Z;
  refresh : option (list string * list Node);
  peers : list string;
  iter : gmap string Z -> list (string * Z);
  sendErr : option DposError;
  headRound : Z;
  rand100 : Z;
  rand5 : Z
}.

(** Go ranges over every entry of a map once, in an unspecified order. *)
Definition iter_ok (env : Env) : Prop :=
  forall m, iter env m ≡ₚ map_to_list m.

(** [a, b, _ = VotingAccessor.Refresh()]: on an error both tables become nil. *)
Definition refresh_or_nil (env : Env) : list string * list Node :=
  default ([], []) (refresh env).

(** [maxTickets, bestNodeId] of the loop over a ticket map. *)
Definition maxStep (acc : Z * string) (entry : string * Z) : Z * string :=
  let '(maxTickets, bestNodeId) := acc in
  let '(key, value) := entry in
  if maxTickets <? value then (value, key) else (maxTickets, bestNodeId).
Definition maxTicketsOf (l : list (string * Z)) : Z * string := fold_left maxStep l (0, "").

(** [m[key]++] on a map[string]uint32. *)
Definition bump (m : gmap string Z) (key : string) : gmap string Z :=
  <[key := u32 (default 0 (m !! key) + 1)]> m.

Section Dpos.
Context (SignCandidates : list string -> Hash).
Context (currNodeId : string) (TestMode : bool).

Abbreviation HandlerResult := (outcome (Globals * list DposAction * option DposError)).

Definition isDelegated (g : Globals) (nodeId : string) : bool :=
  existsb (fun n => bool_decide (n = nodeId)) (DelegatorsTable g).

Definition setNextRoundTimer (g : Globals) (now : Z) : outcome (Globals * list DposAction) :=
  next ← deref (NextGigPeriodInstance g);
  let leftTime := i64 (i64 (gp_activeTime next) - now) in
  if leftTime <? 1 then Ret (g, [GoSyncDelegatedNode])
  else if dpos_t1 g then Ret (g, [StopTimer; AfterFunc leftTime])
  else Ret (set_dpos_t1 g true, [AfterFunc leftTime]).

(** The inner loop of [trySyncAllDelegators]: the position of the delegator. *)
Definition tryAddPeer (g : Globals) (delegator : string) : outcome (list DposAction) :=
  match list_find (fun e => e = delegator) (DelegatorsTable g) with
  | None => Ret []
  | Some (i, _) => n ← deref (DelegatorNodeInfo g !! i); Ret [AddPeer n]
  end.

Fixpoint trySyncEach (g : Globals) (env : Env) (next : GigPeriodTable) (l : list string)
    : outcome (list DposAction) :=
  match l with
  | [] => Ret []
  | delegator :: l =>
      acts ← (if bool_decide (delegator ∈ peers env) then
                Ret [SendSyncRequest delegator
                       (mkSyncRequest (gp_round next) (gp_activeTime next) (delegatedNodes next)
                          (delegatedNodesSign next) currNodeId)]
              else tryAddPeer g delegator);
      rest ← trySyncEach g env next l;
      Ret (acts ++ rest)
  end.

Definition trySyncAllDelegators (g : Globals) (env : Env) : outcome (list DposAction) :=
  if TestMode then Ret [] else
  next ← deref (NextGigPeriodInstance g);
  trySyncEach g env next (delegatedNodes next).

(** [GigPeriodHistory[len(GigPeriodHistory)-1] = v]. *)
Definition setLastHistory (g : Globals) (v : GigPeriodTable) : outcome Globals :=
  match GigPeriodHistory g with
  | [] => Panic
  | h => Ret (set_History g (<[(length h - 1)%nat := v]> h))
  end.

Definition newTable (round : Z) (nodes : list string) (sign : Hash) (activeTime : Z)
    : GigPeriodTable :=
  mkGigPeriodTable round STATE_LOOKING nodes sign ∅ ∅ activeTime.

Definition syncDelegatedNodeSafely (g : Globals) (env : Env) : HandlerResult :=
  if negb (isDelegated g currNodeId) then Ret (g, [], None) else
  match refresh env with
  | None => Ret (g, [], None)
  | Some (a, b) =>
      let g := set_Delegators g a b in
      let g := if BigPeriodHistorySize <=? u8 (Z.of_nat (length (GigPeriodHistory g)))
               then set_History g (tail (GigPeriodHistory g)) else g in
      if (length (DelegatorsTable g) =? 0)%nat || (length (peers env) =? 0)%nat
      then Ret (g, [], None) else
      let start g round activeTime :=
        let g := set_NextGig g
          (Some (newTable round (DelegatorsTable g) (SignCandidates (DelegatorsTable g))
                   activeTime)) in
        acts ← trySyncAllDelegators g env; Ret (g, acts, None) in
      match NextGigPeriodInstance g with
      | None => start g 1 (u64 (clock env 0 + GigPeriodInterval))
      | Some next =>
          let gap := i64 (i64 (gp_activeTime next) - clock env 1) in
          if negb TestMode && ((2 <? gap) || (gap <? -2)) then
            Ret (set_NextElection g None, [GoSyncDelegatedNode], None)
          else
            inst ← deref (GigPeriodInstance g);
            g ← setLastHistory g next;
            start (set_Instance g (Some next)) (u64 (gp_round next + 1))
              (u64 (gp_activeTime inst + GigPeriodInterval))
      end
  end.

Definition responseOf (t : GigPeriodTable) (state : Z) : SyncBigPeriodResponse :=
  mkSyncResponse (gp_round t) (gp_activeTime t) (delegatedNodes t) (delegatedNodesSign t)
    state currNodeId.

Definition adopt (t : GigPeriodTable) (nodes : list string) (sign : Hash) (activeTime : Z)
    : GigPeriodTable :=
  mkGigPeriodTable (gp_round t) STATE_CONFIRMED nodes sign (confirmedTickets t)
    (confirmedBestNode t) activeTime.

(** [case msg.Code == SYNC_BIGPERIOD_REQUEST] after decoding, from peer [p]. *)
Definition handleSyncRequest (g : Globals) (env : Env) (p : string)
    (request : SyncBigPeriodRequest) : HandlerResult :=
  if negb (SignCandidates (rq_DelegatedTable request) =? rq_DelegatedTableSign request)
  then Ret (g, [], Some DPOSErroDelegatorSign) else
  if (length (DelegatorsTable g) =? 0)%nat then Ret (g, [], None) else
  next ← deref (NextGigPeriodInstance g);
  let reply state := if TestMode then Ret (g, [], None)
    else Ret (g, [SendSyncResponse p (responseOf next state)], sendErr env) in
  if rq_Round request =? gp_round next then
    if gp_state next =? STATE_CONFIRMED then reply STATE_CONFIRMED
    else
      let same g := bool_decide (DelegatorsTable g = rq_DelegatedTable request) in
      let g1 := if negb (same g) &&
                   (length (DelegatorsTable g) <? length (rq_DelegatedTable request))%nat
                then set_Delegators g (refresh_or_nil env).1 (refresh_or_nil env).2 else g in
      if negb (same g) && negb (same g1) then
        if TestMode then Ret (g1, [], None)
        else Ret (g1, [SendSyncResponse p (responseOf next STATE_MISMATCHED_DNUMBER)], sendErr env)
      else
        let next := adopt next (rq_DelegatedTable request) (rq_DelegatedTableSign request)
                      (rq_ActiveTime request) in
        '(g2, acts) ← setNextRoundTimer (set_NextGig g1 (Some next)) (clock env 0);
        if TestMode then Ret (g2, acts, None)
        else Ret (g2, acts ++ ((fun peer => SendSyncResponse peer (responseOf next STATE_CONFIRMED))
                                 <$> peers env), None)
  else if rq_Round request <? gp_round next then reply STATE_MISMATCHED_ROUND
  else
    (* [request.Round - NextElectionInfo.round]: both branches are empty, but the
       pointer of the voting process is dereferenced *)
    _ ← deref (NextElectionInfo g); Ret (g, [], None).

(** [case msg.Code == SYNC_BIGPERIOD_RESPONSE] after decoding. *)
Definition handleSyncResponse (g : Globals) (env : Env) (response : SyncBigPeriodResponse)
    : HandlerResult :=
  next ← deref (NextGigPeriodInstance g);
  if negb (rs_Round response =? gp_round next) then Ret (g, [], None) else
  if negb (SignCandidates (rs_DelegatedTable response) =? rs_DelegatedTableSign response)
  then Ret (g, [], Some DPOSErroDelegatorSign) else
  let nodeId := rs_NodeId response in
  let tickets := bump (confirmedTickets next) nodeId in
  let best := <[nodeId := mkPeriodData (rs_Round response) STATE_CONFIRMED
                            (rs_DelegatedTable response) (rs_DelegatedTableSign response)
                            (rs_ActiveTime response)]> (confirmedBestNode next) in
  let next := mkGigPeriodTable (gp_round next) (gp_state next) (delegatedNodes next)
                (delegatedNodesSign next) tickets best (gp_activeTime next) in
  let g := set_NextGig g (Some next) in
  let '(maxTickets, bestNodeId) := maxTicketsOf (iter env tickets) in
  if gp_state next =? STATE_CONFIRMED then
    bestNode ← deref (best !! bestNodeId);
    let next := adopt next (pd_delegatedNodes bestNode) (pd_delegatedNodesSign bestNode)
                  (pd_activeTime bestNode) in
    '(g, acts) ← setNextRoundTimer (set_NextGig g (Some next)) (clock env 0);
    Ret (g, acts, None)
  else if (gp_state next =? STATE_LOOKING) &&
          (u32 (Z.of_nat (length (delegatedNodes next))) <? default 0 (tickets !! bestNodeId)) then
    let next := adopt next (rs_DelegatedTable response) (rs_DelegatedTableSign response)
                  (rs_ActiveTime response) in
    '(g, acts) ← setNextRoundTimer (set_NextGig g (Some next)) (clock env 0);
    Ret (g, acts, None)
  else if rs_State response =? STATE_MISMATCHED_ROUND then
    let g := set_NextGig g
      (Some (newTable (rs_Round response) (rs_DelegatedTable response)
               (rs_DelegatedTableSign response) (rs_ActiveTime response))) in
    acts ← trySyncAllDelegators g env; Ret (g, acts, None)
  else if rs_State response =? STATE_MISMATCHED_DNUMBER then
    Ret (set_Delegators g (refresh_or_nil env).1 (refresh_or_nil env).2, [], None)
  else Ret (g, [], None).

(** A message as the handler sees it: its code, and the payload unless decoding
    failed. *)
Inductive DposMsg :=
| SYNC_BIGPERIOD_REQUEST (payload : option SyncBigPeriodRequest)
| SYNC_BIGPERIOD_RESPONSE (payload : option SyncBigPeriodResponse)
| OtherCode (code : Z).

Definition handleMsg (g : Globals) (env : Env) (p : string) (msg : DposMsg) : HandlerResult :=
  match msg with
  | SYNC_BIGPERIOD_REQUEST (Some request) => handleSyncRequest g env p request
  | SYNC_BIGPERIOD_RESPONSE (Some response) => handleSyncResponse g env response
  | SYNC_BIGPERIOD_REQUEST None | SYNC_BIGPERIOD_RESPONSE None => Ret (g, [], Some DPOSErrDecode)
  | OtherCode _ => Ret (g, [], Some ErrInvalidMsgCode)
  end.

Definition roundRobinSafely (g : Globals) (env : Env) : Globals * list DposAction :=
  if negb (isDelegated g currNodeId) then (g, []) else
  match GigPeriodInstance g with
  | None => (g, [])
  | Some t => if isMyTurn currNodeId t (clock env 0)
              then (g, [GenerateNewBlock (u64 (headRound env + 1))]) else (g, [])
  end.

(** The transitions of a delegated node. *)
Inductive dpos_step : Globals -> list DposAction -> Globals -> Prop :=
| dpos_sync g env g' acts err :
    iter_ok env -> syncDelegatedNodeSafely g env = Ret (g', acts, err) -> dpos_step g acts g'
| dpos_msg g env p msg g' acts err :
    iter_ok env -> handleMsg g env p msg = Ret (g', acts, err) -> dpos_step g acts g'
| dpos_turn g env g' acts :
    roundRobinSafely g env = (g', acts) -> dpos_step g acts g'.

(** After [NewDPoSProtocolManager]: the tables of the first refresh, every
    pointer of the packaging process nil, the history empty. *)
Definition dpos_initial (g : Globals) : Prop :=
  GigPeriodHistory g = [] /\ GigPeriodInstance g = None /\ NextGigPeriodInstance g = None.

End Dpos.

(** ** Properties *)

Module DposHandlerProps.
Section Props.
Context (SignCandidates : list string -> Hash).
Context (currNodeId : string) (TestMode : bool).

Notation sync := (syncDelegatedNodeSafely SignCandidates currNodeId TestMode).
Notation request_ := (handleSyncRequest SignCandidates currNodeId TestMode).
Notation response_ := (handleSyncResponse SignCandidates currNodeId TestMode).
Notation step := (dpos_step SignCandidates currNodeId TestMode).

Definition reach (g g' : Globals) : Prop := rtc (fun a b => exists acts, step a acts b) g g'.

(** *** What each helper leaves alone *)

Lemma setNextRoundTimer_frame g now g' acts :
  setNextRoundTimer g now = Ret (g', acts) ->
  g' = set_dpos_t1 g (dpos_t1 g') /\ (forall r, GenerateNewBlock r ∉ acts).
Proof.
  unfold setNextRoundTimer. destruct (NextGigPeriodInstance g) eqn:E; [|done]. simpl.
  repeat case_match; intros; simplify_eq; (split; [reflexivity || by destruct g'|set_solver]).
Qed.

Lemma trySyncEach_noblock g env next l acts r :
  trySyncEach currNodeId g env next l = Ret acts -> GenerateNewBlock r ∉ acts.
Proof.
  revert acts. induction l as [|d l IH]; intros acts; simpl; [intros; simplify_eq; set_solver|].
  intros (a & Ha & (b & Hb & Hr)%bind_Ret)%bind_Ret. simplify_eq. apply IH in Hb.
  case_bool_decide; simplify_eq; [set_solver|].
  unfold tryAddPeer in Ha. case_match; simplify_eq; [|set_solver].
  case_match. apply bind_Ret in Ha as (? & _ & ?). simplify_eq. set_solver.
Qed.

Lemma trySyncAll_noblock g env acts r :
  trySyncAllDelegators currNodeId TestMode g env = Ret acts -> GenerateNewBlock r ∉ acts.
Proof.
  unfold trySyncAllDelegators. destruct TestMode; [intros; simplify_eq; set_solver|].
  intros (n & _ & H)%bind_Ret. by eapply trySyncEach_noblock.
Qed.

(** Break a handler's result into its branches. *)
Ltac handler_cases :=
  repeat match goal with
  | H : (_ ≫= _) = Ret _ |- _ => apply bind_Ret in H as (? & ? & H)
  | H : deref _ = Ret _ |- _ => apply deref_Ret in H
  | H : context [if ?b then set_Delegators _ _ _ else _] |- _ => destruct b eqn:?
  | H : context [let '(_, _) := ?x in _] |- _ => destruct x eqn:?
  | H : context [match ?x with (_, _) => _ end] |- _ => destruct x eqn:?
  | H : (if ?b then _ else _) = Ret _ |- _ => destruct b eqn:?
  | H : match ?x with _ => _ end = Ret _ |- _ => destruct x eqn:?
  | H : Ret _ = Ret _ |- _ => injection H; clear H; intros; subst
  end.

(** *** The period never becomes active *)

Definition dormant (g : Globals) : Prop :=
  GigPeriodInstance g = None /\ GigPeriodHistory g = [].

Lemma sync_dormant g env g' acts err :
  dormant g -> sync g env = Ret (g', acts, err) ->
  dormant g' /\ (forall r, GenerateNewBlock r ∉ acts).
Proof.
  intros [Hi Hh] H. unfold syncDelegatedNodeSafely in H. simpl in H.
  handler_cases; simpl in *; rewrite ?Hh in *; simpl in *;
    try (split; [by split|set_solver]); try congruence;
    try (split; [by split|]; intros r; by eapply trySyncAll_noblock).
Qed.

(** What a handler that is not the scheduler may touch: the delegator tables,
    [NextGigPeriodInstance] and the timer. *)
Record quiet (g g' : Globals) (acts : list DposAction) : Prop := {
  q_inst : GigPeriodInstance g' = GigPeriodInstance g;
  q_hist : GigPeriodHistory g' = GigPeriodHistory g;
  q_elec : NextElectionInfo g' = NextElectionInfo g;
  q_acts : forall r, GenerateNewBlock r ∉ acts
}.

(** A request either leaves the next table alone or, when the node is still
    looking for this very round and its own (possibly refreshed) delegator table
    is the one in the request, adopts the signed table of the request. *)
Lemma request_effect g env p rq g' acts err :
  request_ g env p rq = Ret (g', acts, err) ->
  quiet g g' acts /\
  (NextGigPeriodInstance g' = NextGigPeriodInstance g \/
   exists next, NextGigPeriodInstance g = Some next /\ gp_state next <> STATE_CONFIRMED /\
     rq_Round rq = gp_round next /\
     SignCandidates (rq_DelegatedTable rq) = rq_DelegatedTableSign rq /\
     NextGigPeriodInstance g' =
       Some (adopt next (rq_DelegatedTable rq) (rq_DelegatedTableSign rq) (rq_ActiveTime rq)) /\
     DelegatorsTable g' = rq_DelegatedTable rq).
Proof.
  intros H. unfold handleSyncRequest in H. simpl in H.
  handler_cases;
    try (split; [split; simpl; try done; set_solver|by left]).
  all: match goal with H : setNextRoundTimer _ _ = Ret _ |- _ =>
         apply setNextRoundTimer_frame in H as [-> ?] end.
  all: split; [split; simpl; try done; set_solver|right].
  all: eexists; split; [done|]; bool_to_prop; simpl; split_and!; try done.
  all: destruct_or?; bool_to_prop; done.
Qed.

(** *** Integrity of the tables *)

(** The stored signature is the one of the stored delegators, also in every
    confirmation collected from a peer. *)
Definition table_signed (t : GigPeriodTable) : Prop :=
  SignCandidates (delegatedNodes t) = delegatedNodesSign t /\
  map_Forall (fun _ d => SignCandidates (pd_delegatedNodes d) = pd_delegatedNodesSign d)
    (confirmedBestNode t).

Definition globals_signed (g : Globals) : Prop :=
  match NextGigPeriodInstance g with Some t => table_signed t | None => True end.

Lemma adopt_signed t nodes sign time :
  table_signed t -> SignCandidates nodes = sign -> table_signed (adopt t nodes sign time).
Proof. intros [_ Hb] Hs. by split. Qed.

Lemma newTable_signed round nodes sign time :
  SignCandidates nodes = sign -> table_signed (newTable round nodes sign time).
Proof. intros Hs. split; [done|]. apply map_Forall_empty. Qed.

(** A response never changes the round; the table stays signed. *)
Lemma response_effect g env rs g' acts err :
  response_ g env rs = Ret (g', acts, err) ->
  quiet g g' acts /\
  exists next, NextGigPeriodInstance g = Some next /\
  exists next', NextGigPeriodInstance g' = Some next' /\
    gp_round next' = gp_round next /\ (table_signed next -> table_signed next') /\
    (gp_round next <> rs_Round rs -> g' = g).
Proof.
  intros H. unfold handleSyncResponse in H. handler_cases; simpl in *; bool_to_prop;
    try match goal with H : setNextRoundTimer _ _ = Ret _ |- _ =>
      apply setNextRoundTimer_frame in H as [-> ?] end.
  all: match goal with H : NextGigPeriodInstance _ = Some ?n |- _ => rename n into next end.
  all: split; [split; simpl; try done; try set_solver; intros; by eapply trySyncAll_noblock|].
  all: exists next; split; [done|]; eexists; split; [done|]; split; [done|].
  all: split; [|by intros Hne; (done || (exfalso; apply Hne; done))].
  all: intros [Hs Hb]; try (by split).
  all: assert (map_Forall (fun _ d => SignCandidates (pd_delegatedNodes d) = pd_delegatedNodesSign d)
           (<[rs_NodeId rs := mkPeriodData (rs_Round rs) STATE_CONFIRMED
                (rs_DelegatedTable rs) (rs_DelegatedTableSign rs) (rs_ActiveTime rs)]>
              (confirmedBestNode next))) as Hb' by (apply map_Forall_insert_2; done || exact Hb).
  all: try (by split); try (by apply newTable_signed).
  all: apply adopt_signed; [by split|]; try done.
  all: match goal with H : _ !! _ = Some ?x |- SignCandidates (pd_delegatedNodes ?x) = _ =>
         exact (Hb' _ _ H) end.
Qed.

(** *** Reachable states *)

Lemma quiet_dormant g g' acts : quiet g g' acts -> dormant g -> dormant g'.
Proof. intros [Hi Hh _ _] [Gi Gh]. split; congruence. Qed.

Lemma step_dormant g acts g' :
  step g acts g' -> dormant g -> dormant g' /\ (forall r, GenerateNewBlock r ∉ acts).
Proof.
  intros Hs Hd. destruct Hs as [g env g' acts err _ H|g env p msg g' acts err _ H|g env g' acts H].
  - by eapply sync_dormant.
  - unfold handleMsg in H. destruct msg as [[rq|]|[rs|]|]; simplify_eq;
      try (split; [done|set_solver]).
    + apply request_effect in H as [Hq _]. split; [by eapply quiet_dormant|apply Hq].
    + apply response_effect in H as [Hq _]. split; [by eapply quiet_dormant|apply Hq].
  - unfold roundRobinSafely in H. destruct Hd as [Hi Hh]. rewrite Hi in H.
    case_match; simplify_eq; (split; [by split|set_solver]).
Qed.

Lemma reach_dormant g0 g : dpos_initial g0 -> reach g0 g -> dormant g.
Proof.
  intros (Hh & Hi & _). apply (rtc_ind_r dormant g0); [by split|].
  intros y z _ [acts Hs] Hd. by eapply step_dormant.
Qed.

Lemma sync_signed g env g' acts err :
  globals_signed g -> sync g env = Ret (g', acts, err) -> globals_signed g'.
Proof.
  intros Hg H. unfold syncDelegatedNodeSafely in H. simpl in H.
  handler_cases; unfold globals_signed in *; simpl in *; try done;
    repeat match goal with |- context [if ?b then _ else _] => destruct b end; simpl in *; try done;
    try (apply newTable_signed; done).
Qed.

Lemma step_signed g acts g' : step g acts g' -> globals_signed g -> globals_signed g'.
Proof.
  intros Hs Hg. destruct Hs as [g env g' acts err _ H|g env p msg g' acts err _ H|g env g' acts H].
  - by eapply sync_signed.
  - unfold handleMsg in H. destruct msg as [[rq|]|[rs|]|]; simplify_eq; try done.
    + apply request_effect in H as [_ [E|(next & Hn & _ & _ & Hsg & E & _)]];
        unfold globals_signed in *; rewrite E; [done|]. rewrite Hn in Hg. by apply adopt_signed.
    + apply response_effect in H as (_ & next & Hn & next' & Hn' & _ & Himp & _).
      unfold globals_signed in *. rewrite Hn', Hn in *. auto.
  - unfold roundRobinSafely in H. repeat case_match; by simplify_eq.
Qed.

Lemma reach_signed g0 g : dpos_initial g0 -> reach g0 g -> globals_signed g.
Proof.
  intros (_ & _ & Hn). apply (rtc_ind_r globals_signed g0); [unfold globals_signed; by rewrite Hn|].
  intros y z _ [acts Hs] Hg. by eapply step_signed.
Qed.
End Props.
End DposHandlerProps.

Module DposHandlerClaims.
Import DposHandlerProps.

(** In every state a delegated node can reach, and on every path to it, no
    big period has become active, so no block is ever packaged in a delegator's
    turn: the switch to the first prepared period dereferences the nil
    [GigPeriodInstance] and panics. *)
Theorem first_period_switch_panics SignCandidates currNodeId TestMode g0 g :
  dpos_initial g0 -> reach SignCandidates currNodeId TestMode g0 g ->
  GigPeriodInstance g = None /\
  (forall acts g' r, dpos_step SignCandidates currNodeId TestMode g acts g' ->
     GenerateNewBlock r ∉ acts) /\
  (forall env a b next, refresh env = Some (a, b) -> isDelegated g currNodeId = true ->
     a <> [] -> peers env <> [] -> NextGigPeriodInstance g = Some next ->
     -2 <= i64 (i64 (gp_activeTime next) - clock env 1) <= 2 ->
     syncDelegatedNodeSafely SignCandidates currNodeId TestMode g env = Panic).
Proof.
  intros H0 Hr. destruct (reach_dormant _ _ _ _ _ H0 Hr) as [Hi Hh]. split_and!; [done|..].
  - intros acts g' r Hs. by eapply step_dormant.
  - intros env a b next Hre Hd Ha Hp Hn Hgap. unfold syncDelegatedNodeSafely.
    rewrite Hd, Hre. simpl. rewrite Hh. simpl. destruct a; [done|]. destruct (peers env); [done|]. simpl.
    rewrite Hn. replace (_ || _) with false by lia. rewrite andb_false_r. by rewrite Hi.
Qed.

Definition sampleGlobals : Globals :=
  mkGlobals ["a"; "b"; "c"] [1; 2; 3] [] None None None None "" false false.
Definition sampleEnv (now : Z) : Env :=
  mkEnv (fun _ => now) (Some (["a"; "b"; "c"], [1; 2; 3])) ["b"; "c"] map_to_list None 0 0 0.

Lemma sampleEnv_ok now : iter_ok (sampleEnv now).
Proof. intros m. reflexivity. Qed.

(** A first scheduling run at time 1000 prepares round 1 for time 1155; the run
    at its activation time panics. *)
Lemma first_period_switch_panics_witness :
  let sign := fun _ => 7 in
  exists g, reach sign "a" false sampleGlobals g /\
    GigPeriodInstance g = None /\
    syncDelegatedNodeSafely sign "a" false g (sampleEnv 1155) = Panic.
Proof.
  intros sign. eexists.
  assert (reach sign "a" false sampleGlobals
            (set_NextGig sampleGlobals (Some (newTable 1 ["a"; "b"; "c"] 7 1155)))) as Hr.
  { eapply rtc_once. eexists. eapply (dpos_sync _ _ _ _ (sampleEnv 1000)); [apply sampleEnv_ok|].
    vm_compute. reflexivity. }
  split; [exact Hr|]. split; [reflexivity|].
  eapply (proj2 (proj2 (first_period_switch_panics sign "a" false sampleGlobals _
            ltac:(repeat split) Hr))); [done|done|done|done|done|].
  vm_compute. intuition discriminate.
Defined.

(** C40: every table the node holds for the next period, and every confirmation
    collected for it, carries the signature of exactly the delegators it lists,
    in every reachable state: a message with a wrong signature changes nothing. *)
Theorem period_tables_signed SignCandidates currNodeId TestMode g0 g :
  dpos_initial g0 -> reach SignCandidates currNodeId TestMode g0 g ->
  globals_signed SignCandidates g /\
  (forall env p rq, SignCandidates (rq_DelegatedTable rq) <> rq_DelegatedTableSign rq ->
     handleMsg SignCandidates currNodeId TestMode g env p (SYNC_BIGPERIOD_REQUEST (Some rq)) =
       Ret (g, [], Some DPOSErroDelegatorSign)).
Proof.
  intros H0 Hr. split; [by eapply reach_signed|].
  intros env p rq Hne. simpl. unfold handleSyncRequest.
  by rewrite (proj2 (Z.eqb_neq _ _) Hne).
Qed.

Lemma period_tables_signed_witness :
  let sign := fun l => Z.of_nat (length l) in
  exists g, reach sign "a" false sampleGlobals g /\ globals_signed sign g /\
    NextGigPeriodInstance g = Some (newTable 1 ["a"; "b"; "c"] 3 1155).
Proof.
  intros sign.
  assert (reach sign "a" false sampleGlobals
            (set_NextGig sampleGlobals (Some (newTable 1 ["a"; "b"; "c"] 3 1155)))) as Hr.
  { eapply rtc_once. eexists. eapply (dpos_sync _ _ _ _ (sampleEnv 1000)); [apply sampleEnv_ok|].
    vm_compute. reflexivity. }
  eexists. split; [exact Hr|]. split; [|reflexivity].
  exact (proj1 (period_tables_signed sign "a" false sampleGlobals _ ltac:(repeat split) Hr)).
Defined.

(** A request changes the table of the next period only by adopting the
    requested one, and only when the node is still looking, the round is its own,
    the signature is right and its own delegator table (refreshed from the voting
    contract if it was shorter) is the requested one. *)
Theorem request_adopts_only_own_table SignCandidates currNodeId TestMode g env p rq g' acts err :
  handleMsg SignCandidates currNodeId TestMode g env p (SYNC_BIGPERIOD_REQUEST (Some rq)) =
    Ret (g', acts, err) ->
  NextGigPeriodInstance g' = NextGigPeriodInstance g \/
  exists next, NextGigPeriodInstance g = Some next /\ gp_state next <> STATE_CONFIRMED /\
    rq_Round rq = gp_round next /\
    SignCandidates (rq_DelegatedTable rq) = rq_DelegatedTableSign rq /\
    NextGigPeriodInstance g' =
      Some (adopt next (rq_DelegatedTable rq) (rq_DelegatedTableSign rq) (rq_ActiveTime rq)) /\
    DelegatorsTable g' = rq_DelegatedTable rq.
Proof. intros H. by apply request_effect in H as [_ ?]. Qed.

Definition samplePrepared : Globals :=
  set_NextGig sampleGlobals (Some (newTable 1 ["a"; "b"; "c"] 3 1155)).

Lemma request_adopts_only_own_table_witness :
  let sign := fun l => Z.of_nat (length l) in
  let rq := mkSyncRequest 1 1150 ["a"; "b"; "c"] 3 "b" in
  exists g' acts, handleMsg sign "a" false samplePrepared (sampleEnv 1001) "b"
      (SYNC_BIGPERIOD_REQUEST (Some rq)) = Ret (g', acts, None) /\
    DelegatorsTable g' = ["a"; "b"; "c"].
Proof.
  intros sign rq.
  destruct (handleMsg sign "a" false samplePrepared (sampleEnv 1001) "b"
              (SYNC_BIGPERIOD_REQUEST (Some rq))) as [[[g' acts] err]|] eqn:E;
    [|vm_compute in E; discriminate].
  exists g', acts.
  destruct (request_adopts_only_own_table _ _ _ _ _ _ _ _ _ _ E)
    as [H|(next & _ & _ & _ & _ & _ & Ht)].
  - exfalso. vm_compute in E. injection E as <- _ _. vm_compute in H. discriminate.
  - split; [|exact Ht]. vm_compute in E. injection E as <- <- <-. reflexivity.
Defined.

(** The process panics on a request exactly when the request is correctly
    signed, the node knows delegators, and either no period is being prepared or
    the request names a later round while no election is running; any response
    panics the process while no period is being prepared. *)
Theorem remote_panic_conditions SignCandidates currNodeId TestMode g env p rq rs :
  (handleMsg SignCandidates currNodeId TestMode g env p (SYNC_BIGPERIOD_REQUEST (Some rq)) = Panic
   <-> SignCandidates (rq_DelegatedTable rq) = rq_DelegatedTableSign rq /\
       DelegatorsTable g <> [] /\
       match NextGigPeriodInstance g with
       | None => True
       | Some next => gp_round next < rq_Round rq /\ NextElectionInfo g = None
       end) /\
  (NextGigPeriodInstance g = None ->
   handleMsg SignCandidates currNodeId TestMode g env p (SYNC_BIGPERIOD_RESPONSE (Some rs)) = Panic).
Proof.
  split.
  - simpl. unfold handleSyncRequest.
    destruct (Z.eqb_spec (SignCandidates (rq_DelegatedTable rq)) (rq_DelegatedTableSign rq));
      simpl; [|split; [done|naive_solver]].
    destruct (DelegatorsTable g) eqn:Ed; simpl; [split; [done|naive_solver]|].
    destruct (NextGigPeriodInstance g) as [next|] eqn:En; simpl; [|naive_solver].
    destruct (Z.eqb_spec (rq_Round rq) (gp_round next)).
    { split; [|naive_solver lia].
      unfold setNextRoundTimer. repeat (case_match; simpl; try done). }
    destruct (Z.ltb_spec (rq_Round rq) (gp_round next)).
    { split; [|naive_solver lia]. by destruct TestMode. }
    destruct (NextElectionInfo g); simpl; split; try done; naive_solver lia.
  - intros Hn. simpl. unfold handleSyncResponse. by rewrite Hn.
Qed.

(** A response never moves the node to another round: one that carries a
    different round (in particular every [STATE_MISMATCHED_ROUND] answer to a node
    that lags behind) is dropped without any effect. *)
Theorem response_never_changes_round SignCandidates currNodeId TestMode g env p rs g' acts err :
  handleMsg SignCandidates currNodeId TestMode g env p (SYNC_BIGPERIOD_RESPONSE (Some rs)) =
    Ret (g', acts, err) ->
  exists next next', NextGigPeriodInstance g = Some next /\
    NextGigPeriodInstance g' = Some next' /\ gp_round next' = gp_round next /\
    (rs_Round rs <> gp_round next -> g' = g).
Proof.
  intros H. apply response_effect in H as (_ & next & Hn & next' & Hn' & Hr & _ & Hsame).
  exists next, next'. split_and!; try done. intros Hne. apply Hsame. congruence.
Qed.

Lemma response_never_changes_round_witness :
  let sign := fun l => Z.of_nat (length l) in
  let rs := mkSyncResponse 9 2000 ["b"] 1 STATE_MISMATCHED_ROUND "b" in
  handleMsg sign "a" false samplePrepared (sampleEnv 1001) "b"
    (SYNC_BIGPERIOD_RESPONSE (Some rs)) = Ret (samplePrepared, [], None).
Proof.
  intros sign rs.
  destruct (handleMsg sign "a" false samplePrepared (sampleEnv 1001) "b"
              (SYNC_BIGPERIOD_RESPONSE (Some rs))) as [[[g' acts] err]|] eqn:E;
    [|vm_compute in E; discriminate].
  destruct (response_never_changes_round _ _ _ _ _ _ _ _ _ _ E)
    as (next & next' & Hn & _ & _ & Hsame).
  injection Hn as <-. rewrite Hsame in * by (vm_compute; discriminate).
  vm_compute in E. injection E as <- <-. reflexivity.
Defined.

(** Runs of the scheduler alone, all of them after time [T]. *)
Definition sync_after SignCandidates currNodeId T (g g' : Globals) : Prop :=
  exists env acts err, T <= clock env 1 <= MaxInt64 /\
    syncDelegatedNodeSafely SignCandidates currNodeId false g env = Ret (g', acts, err).

(** A node that misses the activation of its prepared period by more than two
    seconds never prepares another one: however often the scheduler restarts
    itself, the stale table stays. *)
Theorem missed_activation_is_permanent SignCandidates currNodeId g next T g' :
  NextGigPeriodInstance g = Some next -> 0 <= gp_activeTime next -> gp_activeTime next + 2 < T ->
  rtc (sync_after SignCandidates currNodeId T) g g' ->
  NextGigPeriodInstance g' = Some next.
Proof.
  intros Hn Ha HT. apply (rtc_ind_r (fun x => NextGigPeriodInstance x = Some next) g); [done|].
  intros y z _ (env & acts & err & Hc & H) Hy. unfold MaxInt64 in *.
  unfold syncDelegatedNodeSafely in H. repeat (case_match; simplify_eq/=; try done).
  all: try (rewrite Hy in *; simplify_eq).
  all: exfalso; match goal with H : _ || _ = false |- _ => revert H end.
  all: rewrite (i64_id (gp_activeTime _)), i64_id; lia.
Qed.

Lemma missed_activation_is_permanent_witness :
  let sign := fun l => Z.of_nat (length l) in
  exists g', syncDelegatedNodeSafely sign "a" false samplePrepared (sampleEnv 1200) =
               Ret (g', [GoSyncDelegatedNode], None) /\
    NextGigPeriodInstance g' = Some (newTable 1 ["a"; "b"; "c"] 3 1155).
Proof.
  intros sign. eexists. split; [vm_compute; reflexivity|].
  eapply (missed_activation_is_permanent sign "a" samplePrepared
            (newTable 1 ["a"; "b"; "c"] 3 1155) 1200); [reflexivity|simpl; lia|simpl; lia|].
  eapply rtc_once. exists (sampleEnv 1200), [GoSyncDelegatedNode], None.
  split; [unfold MaxInt64; simpl; lia|]. vm_compute. reflexivity.
Defined.
End DposHandlerClaims.
