(* ===== verification/DVoteHandler.v ===== *)
(** The voting process that elects one packaging node per round:
    [DVoteProtocolManager] of [p2p/protocol/dvotehandler.go].

    Byte slices that hold node ids are represented by their lowercase hex string
    (two characters per byte), so [Bytes2Hex] and [Hex2Bytes] are the identity
    and [id[:8]] is the first sixteen characters. *)

From S2P Require Import Prelude Params GigPeriod DposHandler.

Definition PackagingInterval : Z := 2.
Definition ElectingInterval : Z := 15.
Definition BNConflictInterval : Z := 4.

Definition VOTESTATE_LOOKING : Z := 0xb0.
Definition VOTESTATE_SELECTED : Z := 0xb1.
Definition VOTESTATE_STOP : Z := 0xb2.
Definition VOTESTATE_MISMATCHED_ROUND : Z := 0xb2.

Record VoteElectionRequest := mkVoteRequest {
  vr_Round : Z; vr_Tickets : Z; vr_ActiveTime : Z; vr_NodeId : string }.
Record VoteElectionResponse := mkVoteResponse {
  vs_Round : Z; vs_Tickets : Z; vs_ActiveTime : Z; vs_State : Z; vs_ElectionNodeId : string }.
Record BroadcastVotedElection := mkBroadcast {
  vb_Round : Z; vb_Tickets : Z; vb_ActiveTime : Z; vb_State : Z; vb_ElectionNodeId : string }.
Record BroadcastBestNodeConflict := mkConflict {
  vc_Round : Z; vc_Tickets : Z; vc_ActiveTime : Z; vc_ElectionNodeId : string }.

Inductive VoteAction :=
| SendVoteElectionRequest (to : string) (m : VoteElectionRequest)
| SendVoteElectionResponse (to : string) (m : VoteElectionResponse)
| SendBroadcastVotedElection (to : string) (m : BroadcastVotedElection)
| SendBestNodeConflict (to : string) (m : BroadcastBestNodeConflict)
| GoScheduleElecting
| VoteStopTimer
| AfterScheduleElecting (seconds : Z)
| AfterElectNode (seconds : Z)
| AfterCheckConflict (seconds : Z)
| AfterSchedule (seconds : Z)
| PackageBlock (round : Z)
| StartDelegation
| StopDelegation
| StopPackager
| Delegated (a : DposAction).

Inductive VoteMsg :=
| VOTE_ElectionNode_Request (payload : option VoteElectionRequest)
| VOTE_ElectionNode_Response (payload : option VoteElectionResponse)
| VOTE_BESTNODE_CONFLICT (payload : option BroadcastBestNodeConflict)
| VOTE_ElectionNode_Broadcast (payload : option BroadcastVotedElection)
| DelegationMsg (m : DposMsg).

(** [id[:8]] of a node id: slicing a shorter id panics. *)
Definition first8 (id : string) : outcome string :=
  if (16 <=? String.length id)%nat then Ret (String.substring 0 16 id) else Panic.

(** *** The best node *)

Definition getBestNodeInfo (order : gmap string Z -> list (string * Z)) (e : ElectionInfo)
    : string * Z * Z :=
  if (size (ei_confirmedTickets e) =? 0)%nat
  then (electionNodeIdHash e, electionTickets e, ei_activeTime e) else
  let '(maxTickets, bestNodeId) := maxTicketsOf (order (ei_confirmedTickets e)) in
  (bestNodeId, maxTickets, default 0 (confirmedActiveTimes e !! bestNodeId)).

(** The two loops of [getBestNodeInfo2] may range in different orders. *)
Definition getBestNodeInfo2 (order1 order2 : gmap string Z -> list (string * Z))
    (e : ElectionInfo) : string * Z * Z :=
  if (size (ei_confirmedTickets e) =? 0)%nat
  then (electionNodeIdHash e, electionTickets e, ei_activeTime e) else
  let '(maxTickets, bestNodeId) := maxTicketsOf (order1 (ei_confirmedTickets e)) in
  let counter := length (filter (fun kv => kv.2 = maxTickets) (order2 (ei_confirmedTickets e))) in
  if (1 <? counter)%nat then ("", 0, 0)
  else (bestNodeId, maxTickets, default 0 (confirmedActiveTimes e !! bestNodeId)).

(** [confirmedTickets[id]++; confirmedActiveTimes[id] = t]. *)
Definition confirm (e : ElectionInfo) (id : string) (t : Z) : ElectionInfo :=
  mkElectionInfo (ei_round e) (enodestate e) (electionTickets e) (electionNodeId e)
    (electionNodeIdHash e) (ei_activeTime e) (latestActiveENode e)
    (bump (ei_confirmedTickets e) id) (<[id := t]> (confirmedActiveTimes e)).

Definition set_enodestate (e : ElectionInfo) (s : Z) : ElectionInfo :=
  mkElectionInfo (ei_round e) s (electionTickets e) (electionNodeId e)
    (electionNodeIdHash e) (ei_activeTime e) (latestActiveENode e)
    (ei_confirmedTickets e) (confirmedActiveTimes e).

Definition set_latest (e : ElectionInfo) (t : Z) : ElectionInfo :=
  mkElectionInfo (ei_round e) (enodestate e) (electionTickets e) (electionNodeId e)
    (electionNodeIdHash e) (ei_activeTime e) t (ei_confirmedTickets e) (confirmedActiveTimes e).

(** [electionNodeId], [electionNodeIdHash] and [activeTime] of the best node. *)
Definition set_elected (e : ElectionInfo) (id : string) (t : Z) : ElectionInfo :=
  mkElectionInfo (ei_round e) (enodestate e) (electionTickets e) id id t
    (latestActiveENode e) (ei_confirmedTickets e) (confirmedActiveTimes e).

Section DVote.
Context (SignCandidates : list string -> Hash).
Context (currNodeId : string) (TestMode : bool).

Abbreviation VoteResult := (outcome (Globals * list VoteAction * option DposError)).

Definition newElection (round tickets activeTime now : Z) : ElectionInfo :=
  mkElectionInfo round VOTESTATE_LOOKING tickets currNodeId currNodeId activeTime now ∅ ∅.

Definition vote_setNextRoundTimer (g : Globals) (now bestActiveTime : Z)
    : outcome (Globals * list VoteAction) :=
  let leftTime := i64 (i64 bestActiveTime - now) in
  if leftTime <? 1 then Ret (g, [GoScheduleElecting]) else
  _ ← deref (NextElectionInfo g);
  Ret (set_dvote_t1 g true,
       (if dvote_t1 g then [VoteStopTimer] else []) ++ [AfterScheduleElecting leftTime]).

Definition electNodeSafely (g : Globals) (env : Env) : outcome (Globals * list VoteAction) :=
  e ← deref (NextElectionInfo g);
  if enodestate e =? VOTESTATE_STOP then Ret (g, []) else
  if enodestate e =? VOTESTATE_LOOKING then
    if TestMode then Ret (g, []) else
    let e := set_latest e (clock env 3) in
    let g := set_NextElection g (Some e) in
    if (length (peers env) =? 0)%nat then Ret (g, [AfterElectNode (rand5 env)]) else
    Ret (g, (fun peer => SendVoteElectionRequest peer
               (mkVoteRequest (ei_round e) (electionTickets e) (ei_activeTime e) currNodeId))
            <$> peers env)
  else Ret (g, []).

Definition scheduleElecting (g : Globals) (env : Env) (order2 : gmap string Z -> list (string * Z))
    : outcome (Globals * list VoteAction) :=
  let g := set_Delegators g (refresh_or_nil env).1 (refresh_or_nil env).2 in
  if (2 <? length (DelegatorsTable g))%nat then Ret (g, []) else
  let g := set_dvote_t1 g false in
  let start g round :=
    let g := set_NextElection g
      (Some (newElection round (u32 (rand100 env)) (u64 (clock env 1 + ElectingInterval))
               (clock env 2))) in
    '(g, acts) ← electNodeSafely g env;
    Ret (g, acts ++ [AfterCheckConflict BNConflictInterval]) in
  match NextElectionInfo g with
  | None => start g 1
  | Some e =>
      let '(bestNodeId, tickets, activeTime) := getBestNodeInfo2 (iter env) order2 e in
      if tickets =? 0 then Ret (set_NextElection g None, [GoScheduleElecting]) else
      let gap := i64 (i64 activeTime - clock env 0) in
      if negb TestMode && ((2 <? gap) || (gap <? -2)) then
        Ret (set_NextElection g None, [GoScheduleElecting])
      else
        let elected := mkElectionInfo (ei_round e) VOTESTATE_SELECTED tickets bestNodeId bestNodeId
          activeTime (latestActiveENode e) (ei_confirmedTickets e) (confirmedActiveTimes e) in
        start (set_Election0 (set_LastElected g bestNodeId) (Some elected)) (u64 (ei_round e + 1))
  end.

(** Broadcast of the best node to every peer. *)
Definition broadcastBest (env : Env) (e : ElectionInfo) (best : string * Z * Z) : list VoteAction :=
  let '(bestNodeId, tickets, activeTime) := best in
  (fun peer => SendBroadcastVotedElection peer
     (mkBroadcast (ei_round e) tickets activeTime VOTESTATE_SELECTED bestNodeId)) <$> peers env.

Definition replyBest (p : string) (e : ElectionInfo) (state : Z) (best : string * Z * Z)
    : VoteAction :=
  let '(bestNodeId, tickets, activeTime) := best in
  SendVoteElectionResponse p (mkVoteResponse (ei_round e) tickets activeTime state bestNodeId).

Definition handleVoteRequest (g : Globals) (env : Env) (p : string) (rq : VoteElectionRequest)
    : VoteResult :=
  match NextElectionInfo g with
  | None => Ret (g, [], None)
  | Some e =>
      if vr_Round rq =? ei_round e then
        if enodestate e =? VOTESTATE_SELECTED then
          if TestMode then Ret (g, [], None) else
          nodeId ← first8 (vr_NodeId rq);
          let e := confirm e nodeId (vr_ActiveTime rq) in
          let best := getBestNodeInfo (iter env) e in
          '(g, acts) ← vote_setNextRoundTimer (set_NextElection g (Some e)) (clock env 1) best.2;
          Ret (g, acts ++ [replyBest p e VOTESTATE_SELECTED best], sendErr env)
        else
          e ← (if electionTickets e <? vr_Tickets rq then
                 nodeId ← first8 (vr_NodeId rq); Ret (confirm e nodeId (vr_ActiveTime rq))
               else Ret (confirm e currNodeId (ei_activeTime e)));
          let e := set_enodestate e VOTESTATE_SELECTED in
          let g := set_NextElection g (Some e) in
          if TestMode then Ret (g, [], None) else
          let best := getBestNodeInfo (iter env) e in
          '(g, acts) ← vote_setNextRoundTimer g (clock env 1) best.2;
          Ret (g, acts ++ broadcastBest env e best, None)
      else if vr_Round rq <? ei_round e then
        if TestMode then Ret (g, [], None) else
        Ret (g, [replyBest p e VOTESTATE_MISMATCHED_ROUND (getBestNodeInfo (iter env) e)],
             sendErr env)
      else Ret (g, [], None)
  end.

Definition handleVoteResponse (g : Globals) (env : Env) (rs : VoteElectionResponse) : VoteResult :=
  match NextElectionInfo g with
  | None => Ret (g, [], None)
  | Some e =>
      if (vs_State rs =? VOTESTATE_SELECTED) && (ei_round e =? vs_Round rs) then
        let e := confirm e (vs_ElectionNodeId rs) (vs_ActiveTime rs) in
        let best := getBestNodeInfo (iter env) e in
        '(g, acts) ← vote_setNextRoundTimer (set_NextElection g (Some e)) (clock env 1) best.2;
        if TestMode then Ret (g, acts, None)
        else Ret (g, acts ++ broadcastBest env e best, None)
      else if (vs_State rs =? VOTESTATE_MISMATCHED_ROUND) && (enodestate e =? VOTESTATE_LOOKING)
      then
        let g := set_NextElection g
          (Some (newElection (vs_Round rs) 0 (vs_ActiveTime rs) (clock env 1))) in
        '(g, acts) ← electNodeSafely g env; Ret (g, acts, None)
      else Ret (g, [], None)
  end.

Definition handleConflict (g : Globals) (env : Env) (p : string) (rs : BroadcastBestNodeConflict)
    : VoteResult :=
  match NextElectionInfo g with
  | None => Ret (g, [], None)
  | Some e =>
      if negb (vc_Round rs =? ei_round e) then Ret (g, [], None) else
      let best := getBestNodeInfo (iter env) e in
      '(g, acts) ← vote_setNextRoundTimer g (clock env 1) best.2;
      if TestMode then Ret (g, acts, None)
      else Ret (g, acts ++ [replyBest p e VOTESTATE_SELECTED best], sendErr env)
  end.

Definition handleBroadcast (g : Globals) (env : Env) (rs : BroadcastVotedElection) : VoteResult :=
  match NextElectionInfo g with
  | None => Ret (g, [], None)
  | Some e =>
      if negb (vb_Round rs =? ei_round e) then Ret (g, [], None) else
      let e := confirm e (vb_ElectionNodeId rs) (vb_ActiveTime rs) in
      let g := set_NextElection g (Some e) in
      let '(bestNodeId, _, activeTime) := getBestNodeInfo (iter env) e in
      if enodestate e =? VOTESTATE_SELECTED then
        if negb (bool_decide (electionNodeIdHash e = bestNodeId)) then
          '(g, acts) ← vote_setNextRoundTimer
             (set_NextElection g (Some (set_elected e bestNodeId activeTime)))
             (clock env 1) activeTime;
          Ret (g, acts, None)
        else Ret (g, [], None)
      else if enodestate e =? VOTESTATE_LOOKING then
        '(g, acts) ← vote_setNextRoundTimer
           (set_NextElection g
              (Some (set_elected (set_enodestate e VOTESTATE_SELECTED) bestNodeId activeTime)))
           (clock env 1) activeTime;
        Ret (g, acts, None)
      else Ret (g, [], None)
  end.

Definition vote_handleMsg (g : Globals) (env : Env) (p : string) (msg : VoteMsg) : VoteResult :=
  let g := set_Election0 g (option_map (fun e => set_latest e (clock env 0)) (ElectionInfo0 g)) in
  match msg with
  | VOTE_ElectionNode_Request (Some rq) => handleVoteRequest g env p rq
  | VOTE_ElectionNode_Response (Some rs) => handleVoteResponse g env rs
  | VOTE_BESTNODE_CONFLICT (Some rs) => handleConflict g env p rs
  | VOTE_ElectionNode_Broadcast (Some rs) => handleBroadcast g env rs
  | DelegationMsg m =>
      match handleMsg SignCandidates currNodeId TestMode g env p m with
      | Ret (g, acts, err) => Ret (g, map Delegated acts, err)
      | Panic => Panic
      end
  | _ => Ret (g, [], Some DPOSErrDecode)
  end.

Definition checkBestNodeConflict (g : Globals) (env : Env)
    (order2 : gmap string Z -> list (string * Z)) : outcome (list VoteAction) :=
  e ← deref (NextElectionInfo g);
  if (1 <? size (ei_confirmedTickets e))%nat then
    let '(_, tickets, _) := getBestNodeInfo2 (iter env) order2 e in
    if tickets =? 0 then
      Ret (((fun peer => SendBestNodeConflict peer
               (mkConflict (ei_round e) 1 (ei_activeTime e) currNodeId)) <$> peers env)
           ++ [AfterCheckConflict BNConflictInterval])
    else Ret []
  else Ret [].

Definition isElectionNode (g : Globals) : bool :=
  match ElectionInfo0 g with
  | Some e => bool_decide (electionNodeId e = currNodeId)
  | None => false
  end.

Definition schedule (g : Globals) (env : Env) : list VoteAction :=
  if (2 <? length (DelegatorsTable g))%nat then [StartDelegation] else
  (if isElectionNode g then [PackageBlock (u64 (headRound env + 1))] else [])
  ++ [AfterSchedule PackagingInterval].

Definition Stop (g : Globals) : Globals * list VoteAction :=
  if (0 <? length (DelegatorsTable g))%nat then (g, [StopDelegation]) else
  let stop e := set_enodestate e VOTESTATE_STOP in
  (set_NextElection (set_Election0 g (option_map stop (ElectionInfo0 g)))
     (option_map stop (NextElectionInfo g)),
   [StopPackager]).

End DVote.

(** ** Properties *)

Module DVoteProps.

(** [id] has strictly more tickets than every other node. *)
Definition unique_winner (T : gmap string Z) (id : string) (m : Z) : Prop :=
  T !! id = Some m /\ 0 < m /\ forall k v, T !! k = Some v -> k <> id -> v < m.

Definition perm_order (order : gmap string Z -> list (string * Z)) : Prop :=
  forall m, order m ≡ₚ map_to_list m.

(** The loop keeps a maximum of what it has seen. *)
Lemma maxTickets_fold l m0 b0 m b :
  fold_left maxStep l (m0, b0) = (m, b) ->
  m0 <= m /\ (forall k v, (k, v) ∈ l -> v <= m) /\
  ((m = m0 /\ b = b0) \/ (m0 < m /\ (b, m) ∈ l)).
Proof.
  revert m0 b0. induction l as [|[k v] l IH]; intros m0 b0; cbn [fold_left maxStep].
  - intros [= -> ->]. split_and!; [lia|set_solver|by left].
  - destruct (Z.ltb_spec m0 v) as [Hlt|Hge]; intros H; destruct (IH _ _ H) as (Hm & Hall & Hb).
    + split_and!; [lia| |].
      * intros k' v' [[= -> ->]|Hin]%elem_of_cons; [lia|eauto].
      * right. destruct Hb as [[-> ->]|[? ?]]; [split; [lia|set_solver]|split; [lia|set_solver]].
    + split_and!; [lia| |].
      * intros k' v' [[= -> ->]|Hin]%elem_of_cons; [lia|eauto].
      * destruct Hb as [?|[? ?]]; [by left|right; set_solver].
Qed.

Lemma maxTicketsOf_map order T m b :
  perm_order order -> maxTicketsOf (order T) = (m, b) ->
  (forall k v, T !! k = Some v -> v <= m) /\
  ((m = 0 /\ b = "") \/ (0 < m /\ T !! b = Some m)).
Proof.
  intros Ho H. apply maxTickets_fold in H as (Hm & Hall & Hb). split.
  - intros k v Hk. apply (Hall k). rewrite (Ho T). by apply elem_of_map_to_list.
  - destruct Hb as [?|[? Hin]]; [by left|right]. split; [done|].
    rewrite (Ho T) in Hin. by apply elem_of_map_to_list.
Qed.

(** The second loop counts the nodes that hold the maximum. *)
Lemma count_perm order T m :
  perm_order order ->
  length (filter (fun kv : string * Z => kv.2 = m) (order T)) =
  length (filter (fun kv : string * Z => kv.2 = m) (map_to_list T)).
Proof. intros Ho. by rewrite (Ho T). Qed.

Lemma NoDup_fst_filter (T : gmap string Z) (P : string * Z -> Prop) `{forall x, Decision (P x)} :
  NoDup (filter P (map_to_list T)).*1.
Proof.
  eapply sublist_NoDup; [apply (NoDup_fst_map_to_list T)|]. apply fmap_sublist, sublist_filter.
Qed.

Lemma count_two T m b k :
  T !! b = Some m -> T !! k = Some m -> k <> b ->
  (1 < length (filter (fun kv : string * Z => kv.2 = m) (map_to_list T)))%nat.
Proof.
  intros Hb Hk Hne.
  assert (forall x, T !! x = Some m -> (x, m) ∈ filter (fun kv : string * Z => kv.2 = m)
            (map_to_list T)) as Hin.
  { intros x Hx. apply list_elem_of_filter. split; [done|]. by apply elem_of_map_to_list. }
  pose proof (Hin _ Hb) as H1. pose proof (Hin _ Hk) as H2.
  destruct (filter _ _) as [|x [|y l]]; simpl; [set_solver|set_solver|lia].
Qed.

Lemma count_unique T id m :
  unique_winner T id m ->
  length (filter (fun kv : string * Z => kv.2 = m) (map_to_list T)) = 1%nat.
Proof.
  intros (Hi & Hp & Hlt). set (l := filter _ _).
  assert (forall x v, (x, v) ∈ l -> x = id) as Hall.
  { intros x v [Hv Hx]%list_elem_of_filter. simpl in Hv. subst v.
    apply elem_of_map_to_list in Hx. destruct (decide (x = id)); [done|].
    pose proof (Hlt _ _ Hx n). lia. }
  assert ((id, m) ∈ l) as Hin by (apply list_elem_of_filter; split; [done|];
                                  by apply elem_of_map_to_list).
  pose proof (NoDup_fst_filter T (fun kv => kv.2 = m)) as Hnd. fold l in Hnd.
  destruct l as [|[x1 v1] [|[x2 v2] l']]; [set_solver|done|].
  assert (x1 = id) as -> by (apply (Hall x1 v1); set_solver).
  assert (x2 = id) as -> by (apply (Hall x2 v2); set_solver).
  apply NoDup_cons in Hnd as [Hni _]. set_solver.
Qed.

(** [getBestNodeInfo2] decides: own proposal, unique winner, or conflict. *)
Lemma best2_spec o1 o2 e id m t :
  perm_order o1 -> perm_order o2 ->
  getBestNodeInfo2 o1 o2 e = (id, m, t) ->
  (ei_confirmedTickets e = ∅ /\ id = electionNodeIdHash e /\ m = electionTickets e /\
   t = ei_activeTime e) \/
  (unique_winner (ei_confirmedTickets e) id m /\
   t = default 0 (confirmedActiveTimes e !! id)) \/
  (ei_confirmedTickets e <> ∅ /\ m = 0 /\
   forall id' m', ~ unique_winner (ei_confirmedTickets e) id' m').
Proof.
  intros Ho1 Ho2. unfold getBestNodeInfo2.
  destruct (Nat.eqb_spec (size (ei_confirmedTickets e)) 0) as [Hs|Hs].
  { intros [= <- <- <-]. left. by apply map_size_empty_iff in Hs. }
  assert (ei_confirmedTickets e <> ∅) as Hne by (by intros E; apply Hs, map_size_empty_iff).
  destruct (maxTicketsOf (o1 _)) as [m0 b0] eqn:Em.
  destruct (maxTicketsOf_map _ _ _ _ Ho1 Em) as [Hmax Hb].
  rewrite (count_perm _ _ _ Ho2). set (c := length _).
  assert (forall id' m', unique_winner (ei_confirmedTickets e) id' m' -> m0 = m') as Huw.
  { intros id' m' (Hi & Hp & Hlt). pose proof (Hmax _ _ Hi).
    destruct Hb as [[-> ->]|[Hp0 Hb0]]; [lia|].
    destruct (decide (b0 = id')) as [->|Hd]; [congruence|].
    pose proof (Hlt _ _ Hb0 Hd). lia. }
  destruct (Nat.ltb_spec 1 c) as [Hc|Hc]; intros [= <- <- <-]; right.
  - right. split_and!; [done|done|]. intros id' m' Hu. pose proof (Huw _ _ Hu) as <-.
    pose proof (count_unique _ _ _ Hu). subst c. lia.
  - destruct Hb as [[-> ->]|[Hp Hb]].
    + right. split_and!; [done|done|]. intros id' m' Hu. pose proof (Huw _ _ Hu) as <-.
      destruct Hu as (_ & ? & _). lia.
    + left. split; [|done]. split_and!; [done|done|]. intros k v Hk Hkb.
      pose proof (Hmax _ _ Hk). destruct (decide (v = m0)) as [->|]; [|lia].
      pose proof (count_two _ _ _ _ Hb Hk Hkb). subst c. lia.
Qed.

Lemma unique_winner_unique T id m id' m' :
  unique_winner T id m -> unique_winner T id' m' -> id = id' /\ m = m'.
Proof.
  intros (H1 & _ & L1) (H2 & _ & L2). destruct (decide (id = id')) as [->|Hne].
  - split; congruence.
  - pose proof (L1 _ _ H2 (not_eq_sym Hne)). pose proof (L2 _ _ H1 Hne). lia.
Qed.

Lemma unique_winner_nonempty id m : ~ unique_winner ∅ id m.
Proof. intros (H & _). by rewrite lookup_empty in H. Qed.

Section Handlers.
Context (SignCandidates : list string -> Hash).
Context (currNodeId : string) (TestMode : bool).

(** One message casts at most one vote. *)
Definition one_vote (e e' : ElectionInfo) : Prop :=
  ei_confirmedTickets e' = ei_confirmedTickets e \/
  exists id, ei_confirmedTickets e' = bump (ei_confirmedTickets e) id.

(** A handler's effect on an election that is already decided. *)
Definition keeps_selected (g g' : Globals) : Prop :=
  forall e, NextElectionInfo g = Some e -> enodestate e = VOTESTATE_SELECTED ->
  exists e', NextElectionInfo g' = Some e' /\ enodestate e' = VOTESTATE_SELECTED /\
    ei_round e' = ei_round e /\ one_vote e e'.

Lemma keeps_selected_refl g : keeps_selected g g.
Proof. intros e He Hs. exists e. split_and!; [done..|by left]. Qed.

Lemma vote_timer_frame g now t g' acts :
  vote_setNextRoundTimer g now t = Ret (g', acts) -> NextElectionInfo g' = NextElectionInfo g.
Proof.
  unfold vote_setNextRoundTimer. destruct (_ <? 1); [intros; by simplify_eq|].
  intros (x & _ & H)%bind_Ret. by simplify_eq.
Qed.

Ltac vote_cases :=
  repeat match goal with
  | H : (_ ≫= _) = Ret _ |- _ => apply bind_Ret in H as (? & ? & H)
  | H : context [match ?x with (_, _) => _ end] |- _ => destruct x eqn:?
  | H : (if ?b then _ else _) = Ret _ |- _ => destruct b eqn:?
  | H : match ?x with _ => _ end = Ret _ |- _ => destruct x eqn:?
  | H : Ret _ = Ret _ |- _ => injection H; clear H; intros; subst
  | H : vote_setNextRoundTimer _ _ _ = Ret _ |- _ => apply vote_timer_frame in H; simpl in H
  end.

Ltac vote_solve :=
  intros ? He Hs; simplify_eq/=; rewrite ?He in *; simplify_eq/=;
  rewrite ?Hs in *; unfold VOTESTATE_SELECTED, VOTESTATE_LOOKING in *; simpl in *; try discriminate;
  eexists; (split; [eassumption || reflexivity || (etransitivity; eassumption)|]);
  split_and!; simpl; try done; try (by left); right; eexists; reflexivity.

Lemma request_keeps g env p rq g' acts err :
  handleVoteRequest currNodeId TestMode g env p rq = Ret (g', acts, err) -> keeps_selected g g'.
Proof.
  intros H. unfold handleVoteRequest in H. vote_cases; try apply keeps_selected_refl; vote_solve.
Qed.

Lemma response_keeps g env rs g' acts err :
  handleVoteResponse currNodeId TestMode g env rs = Ret (g', acts, err) -> keeps_selected g g'.
Proof.
  intros H. unfold handleVoteResponse in H. vote_cases; try apply keeps_selected_refl; bool_to_prop;
    vote_solve.
Qed.

Lemma conflict_keeps g env p rs g' acts err :
  handleConflict TestMode g env p rs = Ret (g', acts, err) -> keeps_selected g g'.
Proof.
  intros H. unfold handleConflict in H. vote_cases; try apply keeps_selected_refl; vote_solve.
Qed.

Lemma broadcast_keeps g env rs g' acts err :
  handleBroadcast g env rs = Ret (g', acts, err) -> keeps_selected g g'.
Proof.
  intros H. unfold handleBroadcast in H. vote_cases; try apply keeps_selected_refl; vote_solve.
Qed.
End Handlers.
End DVoteProps.

Module DVoteClaims.
Import DVoteProps.

(** The node elected for a round does not depend on the order in which Go
    ranges over the ticket map: two evaluations agree on the tickets, and unless
    they report a conflict (zero tickets) also on the node and its active time;
    the reported node then is the only one with the highest ticket count. *)
Theorem best_node_order_independent o1 o2 o1' o2' e id m t id' m' t' :
  perm_order o1 -> perm_order o2 -> perm_order o1' -> perm_order o2' ->
  getBestNodeInfo2 o1 o2 e = (id, m, t) -> getBestNodeInfo2 o1' o2' e = (id', m', t') ->
  m = m' /\ (m <> 0 -> id = id' /\ t = t') /\
  (m <> 0 -> ei_confirmedTickets e <> ∅ -> unique_winner (ei_confirmedTickets e) id m).
Proof.
  intros H1 H2 H1' H2' E E'.
  apply best2_spec in E; [|done..]. apply best2_spec in E'; [|done..].
  destruct E as [(Ee & -> & -> & ->)|[[Hu ->]|(Hne & -> & Hno)]];
  destruct E' as [(Ee' & -> & -> & ->)|[[Hu' ->]|(Hne' & -> & Hno')]]; try done;
    try (by rewrite ?Ee, ?Ee' in *; exfalso; eapply unique_winner_nonempty);
    try (by exfalso; eapply Hno); try (by exfalso; eapply Hno').
  destruct (unique_winner_unique _ _ _ _ _ Hu Hu') as [<- <-]. by split_and!.
Qed.

Definition sampleElection : ElectionInfo :=
  mkElectionInfo 4 VOTESTATE_SELECTED 50 "aa" "aa" 1000 0
    (<["aa" := 2]> (<["bb" := 3]> ∅)) (<["aa" := 1000]> (<["bb" := 1001]> ∅)).

Lemma best_node_order_independent_witness :
  getBestNodeInfo2 map_to_list (fun m => reverse (map_to_list m)) sampleElection = ("bb", 3, 1001) /\
  unique_winner (ei_confirmedTickets sampleElection) "bb" 3.
Proof.
  assert (perm_order map_to_list) as H1 by (intros m; reflexivity).
  assert (perm_order (fun m => reverse (map_to_list m))) as H2
    by (intros m; apply reverse_Permutation).
  assert (getBestNodeInfo2 map_to_list (fun m => reverse (map_to_list m)) sampleElection
          = ("bb", 3, 1001)) as E by (vm_compute; reflexivity).
  split; [exact E|].
  refine (proj2 (proj2 (best_node_order_independent _ _ _ _ sampleElection _ _ _ _ _ _
            H1 H2 H1 H2 E E)) _ _); [done|]. intros C.
  apply (f_equal (fun m : gmap string Z => m !! "aa")) in C. vm_compute in C. discriminate.
Defined.

(** C39: When an electing run installs a new packaging node, that node won the
    prepared round: it is the only holder of the highest ticket count (or the
    node's own proposal if nobody voted), has at least one ticket, its active time
    is within two seconds of the clock, and the next round starts undecided. *)
Theorem elected_node_won currNodeId TestMode g env order2 g' acts :
  iter_ok env -> perm_order order2 ->
  scheduleElecting currNodeId TestMode g env order2 = Ret (g', acts) ->
  ElectionInfo0 g' = ElectionInfo0 g \/
  exists e el e', NextElectionInfo g = Some e /\ ElectionInfo0 g' = Some el /\
    NextElectionInfo g' = Some e' /\
    ei_round el = ei_round e /\ ei_round e' = u64 (ei_round e + 1) /\
    enodestate el = VOTESTATE_SELECTED /\ enodestate e' = VOTESTATE_LOOKING /\
    ei_confirmedTickets e' = ∅ /\ electionTickets el <> 0 /\
    LastElectedNodeId g' = electionNodeId el /\
    ((ei_confirmedTickets e = ∅ /\ electionNodeId el = electionNodeIdHash e) \/
     unique_winner (ei_confirmedTickets e) (electionNodeId el) (electionTickets el)) /\
    (TestMode = false -> -2 <= i64 (i64 (ei_activeTime el) - clock env 0) <= 2).
Proof.
  intros Hi Ho H. unfold scheduleElecting in H. simpl in H.
  destruct (2 <? _)%nat; [left; by simplify_eq|].
  destruct (NextElectionInfo g) as [e|] eqn:He.
  2:{ left. apply bind_Ret in H as ([g1 a1] & H1 & H). simplify_eq.
      unfold electNodeSafely in H1. simpl in H1. repeat case_match; by simplify_eq. }
  destruct (getBestNodeInfo2 _ _ _) as [[id m] t] eqn:Hb.
  destruct (Z.eqb_spec m 0) as [|Hm]; [left; by simplify_eq|].
  destruct (negb TestMode && _) eqn:Hgap; [left; by simplify_eq|].
  apply bind_Ret in H as ([g1 a1] & H1 & H). simplify_eq.
  apply best2_spec in Hb; [|done..]. right.
  unfold electNodeSafely in H1. simpl in H1.
  assert (exists e', NextElectionInfo g' = Some e' /\ ei_round e' = u64 (ei_round e + 1) /\
            enodestate e' = VOTESTATE_LOOKING /\ ei_confirmedTickets e' = ∅ /\
            ElectionInfo0 g' = Some (mkElectionInfo (ei_round e) VOTESTATE_SELECTED m id id t
              (latestActiveENode e) (ei_confirmedTickets e) (confirmedActiveTimes e)) /\
            LastElectedNodeId g' = id) as (e' & Hn & Hr & Hst & Ht & H0 & Hl).
  { destruct TestMode; [simplify_eq; eexists; by split_and!|].
    case_match; simplify_eq; eexists; by split_and!. }
  exists e. eexists. exists e'. split_and!; try eassumption; try done; simpl.
  - destruct Hb as [(? & -> & _)|[[Hu _]|(_ & ? & _)]]; [by left|by right|lia].
  - intros ->. simpl in Hgap. lia.
Qed.

Definition votingGlobals (e : ElectionInfo) : Globals :=
  mkGlobals [] [] [] None None None (Some e) "" false false.
Definition votingEnv (now : Z) : Env :=
  mkEnv (fun _ => now) (Some ([], [])) ["bb"] map_to_list None 0 7 1.

Lemma elected_node_won_witness :
  exists g' acts, scheduleElecting "aa" false (votingGlobals sampleElection) (votingEnv 1000)
                    map_to_list = Ret (g', acts) /\ LastElectedNodeId g' = "bb".
Proof.
  destruct (scheduleElecting "aa" false (votingGlobals sampleElection) (votingEnv 1000)
              map_to_list) as [[g' acts]|] eqn:E; [|vm_compute in E; discriminate].
  exists g', acts. split; [reflexivity|].
  destruct (elected_node_won "aa" false (votingGlobals sampleElection) (votingEnv 1000)
              map_to_list g' acts) as [H|(e & el & e' & He & H0 & H1 & _ & _ & _ & _ & _ & _ & Hl & Hw & _)];
    [intros m; reflexivity|intros m; reflexivity|exact E|..].
  - exfalso. vm_compute in E. injection E as <- _. vm_compute in H. discriminate.
  - rewrite Hl. simpl in He. injection He as <-. destruct Hw as [[Hw _]|Hw].
    + apply (f_equal (fun m : gmap string Z => m !! "aa")) in Hw. vm_compute in Hw. discriminate.
    + apply (unique_winner_unique _ _ _ "bb" 3 Hw). split; [reflexivity|]. split; [lia|].
      intros k v Hk Hne. simpl in Hk. apply lookup_insert_Some in Hk as [[<- <-]|[_ Hk]]; [lia|].
      apply lookup_insert_Some in Hk as [[<- <-]|[_ Hk]]; [done|]. by rewrite lookup_empty in Hk.
Defined.

(** Once a node has selected the packaging node of a round, no message makes
    it leave that state or that round, and one message adds at most one vote. *)
Theorem selection_is_stable SignCandidates currNodeId TestMode g env p msg g' acts err e :
  vote_handleMsg SignCandidates currNodeId TestMode g env p msg = Ret (g', acts, err) ->
  NextElectionInfo g = Some e -> enodestate e = VOTESTATE_SELECTED ->
  exists e', NextElectionInfo g' = Some e' /\ enodestate e' = VOTESTATE_SELECTED /\
    ei_round e' = ei_round e /\ one_vote e e'.
Proof.
  intros H He Hs.
  set (g0 := set_Election0 g (option_map (fun e => set_latest e (clock env 0)) (ElectionInfo0 g))).
  assert (keeps_selected g0 g') as Hk; [|exact (Hk e He Hs)].
  unfold vote_handleMsg in H. fold g0 in H.
  destruct msg as [[rq|]|[rs|]|[rs|]|[rs|]|m]; try (simplify_eq; apply keeps_selected_refl).
  - by eapply request_keeps.
  - by eapply response_keeps.
  - by eapply conflict_keeps.
  - by eapply broadcast_keeps.
  - destruct (handleMsg _ _ _ _ _ _ _) as [[[g1 a1] e1]|] eqn:Hm; simplify_eq.
    assert (NextElectionInfo g' = NextElectionInfo g0) as Hq.
    { unfold handleMsg in Hm. destruct m as [[rq|]|[rs|]|]; simplify_eq; try done.
      - apply DposHandlerProps.request_effect in Hm as [Hq _]. apply Hq.
      - apply DposHandlerProps.response_effect in Hm as [Hq _]. apply Hq. }
    intros e0 He0 Hs0. rewrite Hq. by apply keeps_selected_refl.
Qed.

Lemma selection_is_stable_witness :
  exists g' acts e', vote_handleMsg (fun _ => 0) "aa" false (votingGlobals sampleElection)
      (votingEnv 990) "bb" (VOTE_ElectionNode_Broadcast (Some (mkBroadcast 4 1 1002 0xb1 "cc")))
      = Ret (g', acts, None) /\
    NextElectionInfo g' = Some e' /\ enodestate e' = VOTESTATE_SELECTED /\ ei_round e' = 4.
Proof.
  destruct (vote_handleMsg (fun _ => 0) "aa" false (votingGlobals sampleElection)
      (votingEnv 990) "bb" (VOTE_ElectionNode_Broadcast (Some (mkBroadcast 4 1 1002 0xb1 "cc"))))
    as [[[g' acts] err]|] eqn:E; [|vm_compute in E; discriminate].
  destruct (selection_is_stable _ _ _ _ _ _ _ _ _ _ sampleElection E) as (e' & H1 & H2 & H3 & _);
    [reflexivity|reflexivity|].
  exists g', acts, e'. split; [|split_and!; done].
  vm_compute in E. injection E as <- <- <-. reflexivity.
Defined.

(** The vote handler panics exactly on a vote of the current round whose node
    id is shorter than eight bytes and would be counted; every other vote request
    is answered. *)
Theorem short_node_id_panics SignCandidates currNodeId TestMode g env p rq :
  vote_handleMsg SignCandidates currNodeId TestMode g env p
    (VOTE_ElectionNode_Request (Some rq)) = Panic <->
  exists e, NextElectionInfo g = Some e /\ vr_Round rq = ei_round e /\
    (String.length (vr_NodeId rq) < 16)%nat /\
    (if enodestate e =? VOTESTATE_SELECTED then TestMode = false
     else electionTickets e < vr_Tickets rq).
Proof.
  simpl. unfold handleVoteRequest. simpl.
  destruct (NextElectionInfo g) as [e|] eqn:He; [|split; [done|naive_solver]].
  destruct (Z.eqb_spec (vr_Round rq) (ei_round e)) as [Hr|Hr].
  2:{ split; [|naive_solver]. repeat case_match; done. }
  unfold first8, vote_setNextRoundTimer.
  destruct (enodestate e =? VOTESTATE_SELECTED) eqn:Hs.
  - destruct TestMode; [split; [done|]; intros (? & [= <-] & _ & _ & Hx); by rewrite Hs in Hx|].
    destruct (Nat.leb_spec 16 (String.length (vr_NodeId rq))); simpl.
    + split; [|naive_solver lia]. repeat case_match; done.
    + split; [|done]. intros _. exists e. by rewrite Hs.
  - destruct (Z.ltb_spec (electionTickets e) (vr_Tickets rq)).
    + destruct (Nat.leb_spec 16 (String.length (vr_NodeId rq))); simpl.
      * split; [|naive_solver lia]. destruct TestMode; [done|]. simpl. repeat case_match; done.
      * split; [|done]. intros _. exists e. by rewrite Hs.
    + simpl. split; [destruct TestMode; [done|]; simpl; repeat case_match; done|].
      intros (e0 & [= <-] & _ & _ & Hx). rewrite Hs in Hx. lia.
Qed.
End DVoteClaims.
