(* ===== verification/StateDB.v ===== *)
(** World state ([core/state]): accounts cached over a Merkle trie, the journal of
    modifications, snapshots and their reversal, finalisation and copying.

    The trie and the database behind the state are interfaces of the source
    ([state.Trie], [state.Database]); here they are type classes over which the
    component is written. Objects are held by value: the only pointer to a state
    object is the one in [stateObjects] (or, once replaced, the one in the journal),
    and a [big.Int] is never changed in place. *)

From S2P Require Import Prelude Params Bytes RlpEncode RlpDecode RlpRaw.

(** An error value; only whether and which one matters. *)
Abbreviation Error := string.

(** [state.Trie] *)
Class TrieOps (T : Type) := {
  TryGet : T -> bytes -> bytes * option Error;
  TryUpdate : T -> bytes -> bytes -> T * option Error;
  TryDelete : T -> bytes -> T * option Error;
  TrieHash : T -> Hash
}.

(** [state.Database]; the storage trie of the zero root is the empty trie and always
    opens. *)
Class DbOps (DB T : Type) := {
  OpenTrie : DB -> Hash -> Error + T;
  OpenStorageTrie : DB -> Hash -> Hash -> Error + T;
  OpenEmptyTrie : DB -> Hash -> T;
  ContractCode : DB -> Hash -> Hash -> option bytes * option Error;
  ContractCodeSize : DB -> Hash -> Hash -> Z * option Error
}.

Module State.

Record Account := MkAccount { Nonce : Z; Balance : Z; Root : Hash; CodeHash : bytes }.

Record Log := MkLog {
  LogAddress : Address; Topics : list Hash; Data : bytes; BlockNumber : Z;
  TxHash : Hash; TxIndex : Z; BlockHash : Hash; Index : Z; Removed : bool
}.

Section StateDB.
Context {T DB : Type} {trie_ops : TrieOps T} {db_ops : DbOps DB T} (Keccak256Hash : bytes -> Hash).

Definition emptyCodeHash : bytes := hash_bytes (Keccak256Hash []).

(** The RLP type of [Account], and its encoding and decoding. *)
Definition account_type : Rlp.typ := Rlp.TStruct
  [(Rlp.TUint 64, Rlp.notags); (Rlp.TBig, Rlp.notags); (Rlp.TByteArray 32, Rlp.notags);
   (Rlp.TBytes, Rlp.notags)].

Definition account_val (a : Account) : Rlp.val := Rlp.VList
  [Rlp.VUint (Nonce a); Rlp.VBig (Some (Balance a)); Rlp.VBytes (hash_bytes (Root a));
   Rlp.VBytes (CodeHash a)].

Definition EncodeRLP (a : Account) : outcome (Rlp.rlp_error + bytes) :=
  Rlp.EncodeToBytes account_type (account_val a).

Definition decodeAccount (enc : bytes) : option Account :=
  match RlpStream.DecodeBytes account_type enc with
  | inr (Rlp.VList [Rlp.VUint n; Rlp.VBig (Some b); Rlp.VBytes r; Rlp.VBytes c]) =>
      Some (MkAccount n b (BytesToHash r) c)
  | _ => None
  end.

(** ** state_object.go *)

Record stateObject := MkObject {
  address : Address;
  addrHash : Hash;
  data : Account;
  dbErr : option Error;
  otrie : option T;
  code : option bytes;
  cachedStorage : gmap Hash Hash;
  dirtyStorage : gmap Hash Hash;
  dirtyCode : bool;
  suicided : bool;
  deleted : bool
}.

Definition empty (o : stateObject) : bool :=
  (Nonce (data o) =? 0) && (Balance (data o) =? 0) && bool_decide (CodeHash (data o) = emptyCodeHash).

(** [newObject]; [None] for the fields [Balance] and [CodeHash] of [Account{}] is
    replaced by zero and the empty code hash, see [emptyAccount]. *)
Definition newObject (a : Address) (d : Account) : stateObject :=
  MkObject a (Keccak256Hash (address_bytes a)) d None None None ∅ ∅ false false false.

Definition emptyAccount : Account := MkAccount 0 0 0 emptyCodeHash.

Definition with_data (o : stateObject) (d : Account) : stateObject :=
  MkObject (address o) (addrHash o) d (dbErr o) (otrie o) (code o) (cachedStorage o)
    (dirtyStorage o) (dirtyCode o) (suicided o) (deleted o).

Definition obj_setError (o : stateObject) (err : option Error) : stateObject :=
  MkObject (address o) (addrHash o) (data o)
    (match dbErr o with None => err | Some e => Some e end) (otrie o) (code o) (cachedStorage o)
    (dirtyStorage o) (dirtyCode o) (suicided o) (deleted o).

Definition with_trie (o : stateObject) (t : T) : stateObject :=
  MkObject (address o) (addrHash o) (data o) (dbErr o) (Some t) (code o) (cachedStorage o)
    (dirtyStorage o) (dirtyCode o) (suicided o) (deleted o).

Definition getTrie (db : DB) (o : stateObject) : stateObject * T :=
  match otrie o with
  | Some t => (o, t)
  | None =>
      match OpenStorageTrie db (addrHash o) (Root (data o)) with
      | inr t => (with_trie o t, t)
      | inl _ =>
          let t := OpenEmptyTrie db (addrHash o) in
          (obj_setError (with_trie o t) (Some "can't create storage trie"%string), t)
      end
  end.

Definition with_cached (o : stateObject) (c : gmap Hash Hash) : stateObject :=
  MkObject (address o) (addrHash o) (data o) (dbErr o) (otrie o) (code o) c
    (dirtyStorage o) (dirtyCode o) (suicided o) (deleted o).

(** The value of a storage entry read from the trie; [rlp.Split] may panic. *)
Definition storageValue (enc : bytes) : outcome (Hash * option Error) :=
  match enc with
  | [] => Ret (0, None)
  | _ =>
      r ← RlpRaw.Split enc;
      Ret match r with
          | inl _ => (0, Some "rlp"%string)
          | inr (_, content, _) => (BytesToHash content, None)
          end
  end.

Definition obj_GetState (db : DB) (o : stateObject) (key : Hash) : outcome (stateObject * Hash) :=
  match cachedStorage o !! key with
  | Some value => Ret (o, value)
  | None =>
      let '(o, t) := getTrie db o in
      match TryGet t (hash_bytes key) with
      | (_, Some err) => Ret (obj_setError o (Some err), 0)
      | (enc, None) =>
          '(value, err) ← storageValue enc;
          let o := obj_setError o err in
          Ret (with_cached o (<[key := value]> (cachedStorage o)), value)
      end
  end.

Definition setState (o : stateObject) (key value : Hash) : stateObject :=
  MkObject (address o) (addrHash o) (data o) (dbErr o) (otrie o) (code o)
    (<[key := value]> (cachedStorage o)) (<[key := value]> (dirtyStorage o))
    (dirtyCode o) (suicided o) (deleted o).

Definition setBalance (o : stateObject) (amount : Z) : stateObject :=
  with_data o (MkAccount (Nonce (data o)) amount (Root (data o)) (CodeHash (data o))).
Definition setNonce (o : stateObject) (nonce : Z) : stateObject :=
  with_data o (MkAccount nonce (Balance (data o)) (Root (data o)) (CodeHash (data o))).
Definition setCode (o : stateObject) (codeHash : Hash) (c : option bytes) : stateObject :=
  MkObject (address o) (addrHash o)
    (MkAccount (Nonce (data o)) (Balance (data o)) (Root (data o)) (hash_bytes codeHash))
    (dbErr o) (otrie o) c (cachedStorage o) (dirtyStorage o) true (suicided o) (deleted o).
Definition set_suicided (o : stateObject) (b : bool) : stateObject :=
  MkObject (address o) (addrHash o) (data o) (dbErr o) (otrie o) (code o) (cachedStorage o)
    (dirtyStorage o) (dirtyCode o) b (deleted o).
Definition set_deleted (o : stateObject) (b : bool) : stateObject :=
  MkObject (address o) (addrHash o) (data o) (dbErr o) (otrie o) (code o) (cachedStorage o)
    (dirtyStorage o) (dirtyCode o) (suicided o) b.

(** [Code] loads the code on first use. *)
Definition obj_Code (db : DB) (o : stateObject) : stateObject * option bytes :=
  match code o with
  | Some c => (o, Some c)
  | None =>
      if bool_decide (CodeHash (data o) = emptyCodeHash) then (o, None)
      else
        let '(c, err) := ContractCode db (addrHash o) (BytesToHash (CodeHash (data o))) in
        let o := match err with Some _ => obj_setError o (Some "can't load code hash"%string) | None => o end in
        (MkObject (address o) (addrHash o) (data o) (dbErr o) (otrie o) c (cachedStorage o)
           (dirtyStorage o) (dirtyCode o) (suicided o) (deleted o), c)
  end.

(** [deepCopy]: the cache of the copy is the dirty storage. *)
Definition deepCopy (o : stateObject) : stateObject :=
  MkObject (address o) (Keccak256Hash (address_bytes (address o))) (data o) None (otrie o) (code o)
    (dirtyStorage o) (dirtyStorage o) (dirtyCode o) (suicided o) (deleted o).

(** ** journal.go *)

Inductive journalEntry :=
| createObjectChange (account : Address)
| resetObjectChange (prev : stateObject)
| suicideChange (account : Address) (prev : bool) (prevbalance : Z)
| balanceChange (account : Address) (prev : Z)
| nonceChange (account : Address) (prev : Z)
| storageChange (account : Address) (key prevalue : Hash)
| codeChange (account : Address) (prevcode : option bytes) (prevhash : bytes)
| refundChange (prev : Z)
| addLogChange (txhash : Hash)
| addPreimageChange (hash : Hash)
| touchChange (account : Address).

Definition dirtied (e : journalEntry) : option Address :=
  match e with
  | createObjectChange a | suicideChange a _ _ | balanceChange a _ | nonceChange a _
  | storageChange a _ _ | codeChange a _ _ | touchChange a => Some a
  | resetObjectChange _ | refundChange _ | addLogChange _ | addPreimageChange _ => None
  end.

Record journal := MkJournal { entries : list journalEntry; dirties : gmap Address Z }.
Definition newJournal : journal := MkJournal [] ∅.

(** [j.dirties[addr]++]: a missing key reads as zero. *)
Definition dirty (a : Address) (d : gmap Address Z) : gmap Address Z :=
  <[a := default 0 (d !! a) + 1]> d.

Definition journal_append (e : journalEntry) (j : journal) : journal :=
  MkJournal (entries j ++ [e]) (match dirtied e with Some a => dirty a (dirties j) | None => dirties j end).

(** [if j.dirties[addr]--; j.dirties[addr] == 0 { delete }] *)
Definition undirty (a : Address) (d : gmap Address Z) : gmap Address Z :=
  let n := default 0 (d !! a) - 1 in
  if n =? 0 then delete a d else <[a := n]> d.

(** ** statedb.go *)

Record StateDB := MkState {
  db : DB;
  trie : T;
  stateObjects : gmap Address stateObject;
  stateObjectsDirty : gset Address;
  sdbErr : option Error;
  refund : Z;
  thash : Hash;
  bhash : Hash;
  txIndex : Z;
  logs : gmap Hash (list Log);
  logSize : Z;
  preimages : gmap Hash bytes;
  jrnl : journal;
  validRevisions : list (Z * nat);
  nextRevisionId : Z
}.

Definition with_objects (st : StateDB) (m : gmap Address stateObject) : StateDB :=
  MkState (db st) (trie st) m (stateObjectsDirty st) (sdbErr st) (refund st) (thash st) (bhash st)
    (txIndex st) (logs st) (logSize st) (preimages st) (jrnl st) (validRevisions st) (nextRevisionId st).
Definition with_dirty (st : StateDB) (s : gset Address) : StateDB :=
  MkState (db st) (trie st) (stateObjects st) s (sdbErr st) (refund st) (thash st) (bhash st)
    (txIndex st) (logs st) (logSize st) (preimages st) (jrnl st) (validRevisions st) (nextRevisionId st).
Definition setError (st : StateDB) (err : option Error) : StateDB :=
  MkState (db st) (trie st) (stateObjects st) (stateObjectsDirty st)
    (match sdbErr st with None => err | Some e => Some e end) (refund st) (thash st) (bhash st)
    (txIndex st) (logs st) (logSize st) (preimages st) (jrnl st) (validRevisions st) (nextRevisionId st).
Definition with_trie_db (st : StateDB) (t : T) : StateDB :=
  MkState (db st) t (stateObjects st) (stateObjectsDirty st) (sdbErr st) (refund st) (thash st) (bhash st)
    (txIndex st) (logs st) (logSize st) (preimages st) (jrnl st) (validRevisions st) (nextRevisionId st).
Definition with_refund (st : StateDB) (r : Z) : StateDB :=
  MkState (db st) (trie st) (stateObjects st) (stateObjectsDirty st) (sdbErr st) r (thash st) (bhash st)
    (txIndex st) (logs st) (logSize st) (preimages st) (jrnl st) (validRevisions st) (nextRevisionId st).
Definition with_logs (st : StateDB) (l : gmap Hash (list Log)) (n : Z) : StateDB :=
  MkState (db st) (trie st) (stateObjects st) (stateObjectsDirty st) (sdbErr st) (refund st) (thash st)
    (bhash st) (txIndex st) l n (preimages st) (jrnl st) (validRevisions st) (nextRevisionId st).
Definition with_preimages (st : StateDB) (p : gmap Hash bytes) : StateDB :=
  MkState (db st) (trie st) (stateObjects st) (stateObjectsDirty st) (sdbErr st) (refund st) (thash st)
    (bhash st) (txIndex st) (logs st) (logSize st) p (jrnl st) (validRevisions st) (nextRevisionId st).
Definition with_journal (st : StateDB) (j : journal) : StateDB :=
  MkState (db st) (trie st) (stateObjects st) (stateObjectsDirty st) (sdbErr st) (refund st) (thash st)
    (bhash st) (txIndex st) (logs st) (logSize st) (preimages st) j (validRevisions st) (nextRevisionId st).
Definition with_revisions (st : StateDB) (v : list (Z * nat)) (n : Z) : StateDB :=
  MkState (db st) (trie st) (stateObjects st) (stateObjectsDirty st) (sdbErr st) (refund st) (thash st)
    (bhash st) (txIndex st) (logs st) (logSize st) (preimages st) (jrnl st) v n.

(** [New] over an opened trie. *)
Definition New (root : Hash) (d : DB) : Error + StateDB :=
  match OpenTrie d root with
  | inl err => inl err
  | inr tr => inr (MkState d tr ∅ ∅ None 0 0 0 0 ∅ 0 ∅ newJournal [] 0)
  end.

Definition append (e : journalEntry) (st : StateDB) : StateDB :=
  with_journal st (journal_append e (jrnl st)).

Definition setStateObject (o : stateObject) (st : StateDB) : StateDB :=
  with_objects st (<[address o := o]> (stateObjects st)).

Definition getStateObject (st : StateDB) (a : Address) : StateDB * option stateObject :=
  match stateObjects st !! a with
  | Some obj => if deleted obj then (st, None) else (st, Some obj)
  | None =>
      match TryGet (trie st) (address_bytes a) with
      | ([], err) => (setError st err, None)
      | (enc, _) =>
          match decodeAccount enc with
          | None => (st, None)
          | Some d => let obj := newObject a d in (setStateObject obj st, Some obj)
          end
      end
  end.

Definition createObject (st : StateDB) (a : Address) : StateDB * stateObject * option stateObject :=
  let '(st, prev) := getStateObject st a in
  let newobj := setNonce (newObject a emptyAccount) 0 in
  let st := match prev with
            | None => append (createObjectChange a) st
            | Some p => append (resetObjectChange p) st
            end in
  (setStateObject newobj st, newobj, prev).

Definition GetOrNewStateObject (st : StateDB) (a : Address) : StateDB * stateObject :=
  match getStateObject st a with
  | (st, Some o) => if deleted o then (createObject st a).1 else (st, o)
  | (st, None) => (createObject st a).1
  end.

Definition CreateAccount (st : StateDB) (a : Address) : StateDB :=
  let '(st, new, prev) := createObject st a in
  match prev with
  | Some p => setStateObject (setBalance new (Balance (data p))) st
  | None => st
  end.

(** [address 0x03]: the account the source calls [ripemd]. *)
Definition ripemd : Address := 3.

Definition touch (o : stateObject) (st : StateDB) : StateDB :=
  let st := append (touchChange (address o)) st in
  if address o =? ripemd
  then with_journal st (MkJournal (entries (jrnl st)) (dirty (address o) (dirties (jrnl st))))
  else st.

Definition obj_SetBalance (o : stateObject) (amount : Z) (st : StateDB) : StateDB :=
  setStateObject (setBalance o amount) (append (balanceChange (address o) (Balance (data o))) st).

Definition AddBalance (st : StateDB) (a : Address) (amount : Z) : StateDB :=
  let '(st, o) := GetOrNewStateObject st a in
  if amount =? 0 then (if empty o then touch o st else st)
  else obj_SetBalance o (Balance (data o) + amount) st.

Definition SubBalance (st : StateDB) (a : Address) (amount : Z) : StateDB :=
  let '(st, o) := GetOrNewStateObject st a in
  if amount =? 0 then st else obj_SetBalance o (Balance (data o) - amount) st.

Definition SetBalance (st : StateDB) (a : Address) (amount : Z) : StateDB :=
  let '(st, o) := GetOrNewStateObject st a in obj_SetBalance o amount st.

Definition SetNonce (st : StateDB) (a : Address) (nonce : Z) : StateDB :=
  let '(st, o) := GetOrNewStateObject st a in
  setStateObject (setNonce o nonce) (append (nonceChange (address o) (Nonce (data o))) st).

Definition SetCode (st : StateDB) (a : Address) (c : bytes) : StateDB :=
  let '(st, o) := GetOrNewStateObject st a in
  let '(o, prevcode) := obj_Code (db st) o in
  setStateObject (setCode o (Keccak256Hash c) (Some c))
    (append (codeChange (address o) prevcode (CodeHash (data o))) st).

Definition SetState (st : StateDB) (a : Address) (key value : Hash) : outcome StateDB :=
  let '(st, o) := GetOrNewStateObject st a in
  '(o, prev) ← obj_GetState (db st) o key;
  Ret (setStateObject (setState o key value) (append (storageChange (address o) key prev) st)).

Definition Suicide (st : StateDB) (a : Address) : StateDB * bool :=
  match getStateObject st a with
  | (st, None) => (st, false)
  | (st, Some o) =>
      let st := append (suicideChange a (suicided o) (Balance (data o))) st in
      (setStateObject (setBalance (set_suicided o true) 0) st, true)
  end.

Definition AddLog (st : StateDB) (l : Log) : StateDB :=
  let st := append (addLogChange (thash st)) st in
  let l := MkLog (LogAddress l) (Topics l) (Data l) (BlockNumber l) (thash st) (u64 (txIndex st))
             (bhash st) (logSize st) (Removed l) in
  with_logs st (<[thash st := default [] (logs st !! thash st) ++ [l]]> (logs st)) (logSize st + 1).

Definition AddPreimage (st : StateDB) (h : Hash) (p : bytes) : StateDB :=
  match preimages st !! h with
  | Some _ => st
  | None =>
      let st := append (addPreimageChange h) st in
      with_preimages st (<[h := p]> (preimages st))
  end.

Definition AddRefund (st : StateDB) (gas : Z) : StateDB :=
  let st := append (refundChange (refund st)) st in with_refund st (u64 (refund st + gas)).

(** *** Queries *)

Definition Exist (st : StateDB) (a : Address) : StateDB * bool :=
  let '(st, o) := getStateObject st a in (st, bool_decide (is_Some o)).
Definition Empty (st : StateDB) (a : Address) : StateDB * bool :=
  let '(st, o) := getStateObject st a in
  (st, match o with None => true | Some o => empty o end).
Definition GetBalance (st : StateDB) (a : Address) : StateDB * Z :=
  let '(st, o) := getStateObject st a in
  (st, match o with Some o => Balance (data o) | None => 0 end).
Definition GetNonce (st : StateDB) (a : Address) : StateDB * Z :=
  let '(st, o) := getStateObject st a in
  (st, match o with Some o => Nonce (data o) | None => 0 end).
Definition GetCodeHash (st : StateDB) (a : Address) : StateDB * Hash :=
  let '(st, o) := getStateObject st a in
  (st, match o with Some o => BytesToHash (CodeHash (data o)) | None => 0 end).
Definition HasSuicided (st : StateDB) (a : Address) : StateDB * bool :=
  let '(st, o) := getStateObject st a in
  (st, match o with Some o => suicided o | None => false end).

Definition GetCode (st : StateDB) (a : Address) : StateDB * option bytes :=
  match getStateObject st a with
  | (st, None) => (st, None)
  | (st, Some o) => let '(o, c) := obj_Code (db st) o in (setStateObject o st, c)
  end.

Definition GetCodeSize (st : StateDB) (a : Address) : StateDB * Z :=
  match getStateObject st a with
  | (st, None) => (st, 0)
  | (st, Some o) =>
      match code o with
      | Some c => (st, len c)
      | None =>
          let '(size, err) := ContractCodeSize (db st) (addrHash o) (BytesToHash (CodeHash (data o))) in
          (match err with Some _ => setError st err | None => st end, size)
      end
  end.

Definition GetState (st : StateDB) (a : Address) (key : Hash) : outcome (StateDB * Hash) :=
  match getStateObject st a with
  | (st, None) => Ret (st, 0)
  | (st, Some o) => '(o, v) ← obj_GetState (db st) o key; Ret (setStateObject o st, v)
  end.

Definition GetLogs (st : StateDB) (h : Hash) : list Log := default [] (logs st !! h).

(** *** Undoing journal entries *)

Definition revert_entry (e : journalEntry) (st : StateDB) : outcome StateDB :=
  (* entries that dereference the account's object *)
  let on_object a (f : stateObject -> stateObject) :=
    match getStateObject st a with
    | (st, Some o) => Ret (setStateObject (f o) st)
    | (_, None) => Panic
    end in
  match e with
  | createObjectChange a =>
      Ret (with_dirty (with_objects st (delete a (stateObjects st))) (stateObjectsDirty st ∖ {[a]}))
  | resetObjectChange prev => Ret (setStateObject prev st)
  | suicideChange a prev prevbalance =>
      match getStateObject st a with
      | (st, Some o) => Ret (setStateObject (setBalance (set_suicided o prev) prevbalance) st)
      | (st, None) => Ret st
      end
  | touchChange _ => Ret st
  | balanceChange a prev => on_object a (fun o => setBalance o prev)
  | nonceChange a prev => on_object a (fun o => setNonce o prev)
  | codeChange a prevcode prevhash => on_object a (fun o => setCode o (BytesToHash prevhash) prevcode)
  | storageChange a key prevalue => on_object a (fun o => setState o key prevalue)
  | refundChange prev => Ret (with_refund st prev)
  | addLogChange h =>
      match default [] (logs st !! h) with
      | [] => Panic
      | [_] => Ret (with_logs st (delete h (logs st)) (logSize st - 1))
      | l => Ret (with_logs st (<[h := take (length l - 1) l]> (logs st)) (logSize st - 1))
      end
  | addPreimageChange h => Ret (with_preimages st (delete h (preimages st)))
  end.

(** One turn of the loop of [journal.revert]: undo the entry and its dirty mark. *)
Definition undo (e : journalEntry) (st : StateDB) : outcome StateDB :=
  st ← revert_entry e st;
  Ret (with_journal st (MkJournal (entries (jrnl st))
         (match dirtied e with Some a => undirty a (dirties (jrnl st)) | None => dirties (jrnl st) end))).

(** The entries given, last one first. *)
Fixpoint undo_all (rev_entries : list journalEntry) (st : StateDB) : outcome StateDB :=
  match rev_entries with
  | [] => Ret st
  | e :: es => st ← undo e st; undo_all es st
  end.

(** [journal.revert] *)
Definition journal_revert (snapshot : nat) (st : StateDB) : outcome StateDB :=
  let es := entries (jrnl st) in
  if (length es <? snapshot)%nat then Panic else
  st ← undo_all (reverse (drop snapshot es)) st;
  Ret (with_journal st (MkJournal (take snapshot es) (dirties (jrnl st)))).

Definition Snapshot (st : StateDB) : StateDB * Z :=
  let id := nextRevisionId st in
  (with_revisions st (validRevisions st ++ [(id, length (entries (jrnl st)))]) (id + 1), id).

(** [sort.Search]: binary search for the smallest index in [[i, j)] with [f], [j] if none;
    [j - i] turns are more than enough. *)
Fixpoint sort_search (fuel : nat) (f : nat -> bool) (i j : nat) : nat :=
  match fuel with
  | O => i
  | S fuel =>
      if (i <? j)%nat then
        let h := Nat.div (i + j) 2 in
        if f h then sort_search fuel f i h else sort_search fuel f (S h) j
      else i
  end.

Definition RevertToSnapshot (st : StateDB) (revid : Z) : outcome StateDB :=
  let rs := validRevisions st in
  let f i := match rs !! i with Some (id, _) => revid <=? id | None => false end in
  let idx := sort_search (length rs) f 0 (length rs) in
  match rs !! idx with
  | None => Panic
  | Some (id, snapshot) =>
      if negb (id =? revid) then Panic
      else
        st ← journal_revert snapshot st;
        Ret (with_revisions st (take idx (validRevisions st)) (nextRevisionId st))
  end.

(** *** Between transactions *)

Definition Prepare (st : StateDB) (th bh : Hash) (ti : Z) : StateDB :=
  MkState (db st) (trie st) (stateObjects st) (stateObjectsDirty st) (sdbErr st) (refund st) th bh ti
    (logs st) (logSize st) (preimages st) (jrnl st) (validRevisions st) (nextRevisionId st).

Definition clearJournalAndRefund (st : StateDB) : StateDB :=
  with_refund (with_revisions (with_journal st newJournal) [] (nextRevisionId st)) 0.

(** [Reset] to another root. *)
Definition Reset (st : StateDB) (root : Hash) : StateDB * option Error :=
  match OpenTrie (db st) root with
  | inl err => (st, Some err)
  | inr tr =>
      (clearJournalAndRefund
        (MkState (db st) tr ∅ ∅ (sdbErr st) (refund st) 0 0 0 ∅ 0 ∅ (jrnl st) (validRevisions st)
           (nextRevisionId st)), None)
  end.

(** [updateTrie] writes the dirty storage to the trie; [keys] is the order in which
    Go iterates over the map. *)
Fixpoint updateTrie_loop (keys : list Hash) (o : stateObject) (tr : T) : outcome (stateObject * T) :=
  match keys with
  | [] => Ret (o, tr)
  | key :: keys =>
      match dirtyStorage o !! key with
      | None => updateTrie_loop keys o tr
      | Some value =>
          let o := MkObject (address o) (addrHash o) (data o) (dbErr o) (otrie o) (code o)
                     (cachedStorage o) (delete key (dirtyStorage o)) (dirtyCode o) (suicided o) (deleted o) in
          if value =? 0 then
            let '(tr, err) := TryDelete tr (hash_bytes key) in
            updateTrie_loop keys (obj_setError o err) tr
          else
            match Rlp.EncodeToBytes Rlp.TBytes (Rlp.VBytes (trim_left_zeros (hash_bytes value))) with
            | Ret r =>
                let v := match r with inr v => v | inl _ => [] end in
                let '(tr, err) := TryUpdate tr (hash_bytes key) v in
                updateTrie_loop keys (obj_setError o err) tr
            | Panic => Panic
            end
      end
  end.
Definition updateTrie (d : DB) (keys : list Hash) (o : stateObject) : outcome stateObject :=
  let '(o, tr) := getTrie d o in
  '(o, tr) ← updateTrie_loop keys o tr;
  Ret (with_trie o tr).

Definition updateRoot (d : DB) (keys : list Hash) (o : stateObject) : outcome stateObject :=
  o ← updateTrie d keys o;
  Ret match otrie o with
      | Some tr => with_data o (MkAccount (Nonce (data o)) (Balance (data o)) (TrieHash tr) (CodeHash (data o)))
      | None => o
      end.

Definition updateStateObject (st : StateDB) (o : stateObject) : outcome StateDB :=
  match EncodeRLP (data o) with
  | Ret (inr d) =>
      let '(tr, err) := TryUpdate (trie st) (address_bytes (address o)) d in
      Ret (setError (with_trie_db st tr) err)
  | _ => Panic
  end.

Definition deleteStateObject (st : StateDB) (o : stateObject) : StateDB :=
  let st := setStateObject (set_deleted o true) st in
  let '(tr, err) := TryDelete (trie st) (address_bytes (address o)) in
  setError (with_trie_db st tr) err.

(** One turn of the loop of [Finalise]. *)
Definition finalise_one (deleteEmptyObjects : bool) (keys : Address -> list Hash) (a : Address)
    (st : StateDB) : outcome StateDB :=
  match stateObjects st !! a with
  | None => Ret st
  | Some o =>
      st ← (if suicided o || (deleteEmptyObjects && empty o) then Ret (deleteStateObject st o)
            else
              o ← updateRoot (db st) (keys a) o;
              updateStateObject (setStateObject o st) o);
      Ret (with_dirty st (stateObjectsDirty st ∪ {[a]}))
  end.

Fixpoint finalise_loop (del : bool) (keys : Address -> list Hash) (order : list Address) (st : StateDB)
    : outcome StateDB :=
  match order with
  | [] => Ret st
  | a :: order => st ← finalise_one del keys a st; finalise_loop del keys order st
  end.

(** [Finalise]; [order] and [keys] are the iteration orders over the dirty accounts
    and over their dirty storage. *)
Definition Finalise (del : bool) (keys : Address -> list Hash) (order : list Address) (st : StateDB)
    : outcome StateDB :=
  st ← finalise_loop del keys order st; Ret (clearJournalAndRefund st).

Definition IntermediateRoot (del : bool) (keys : Address -> list Hash) (order : list Address)
    (st : StateDB) : outcome (StateDB * Hash) :=
  st ← Finalise del keys order st; Ret (st, TrieHash (trie st)).

(** [Copy]: dirty objects of the journal, then those of earlier transactions. *)
Definition Copy (st : StateDB) : outcome StateDB :=
  let fromJournal := filter (fun p => p.1 ∈ dom (dirties (jrnl st))) (stateObjects st) in
  let rest := stateObjectsDirty st ∖ dom fromJournal in
  if bool_decide (rest ⊆ dom (stateObjects st)) then
    let objs := deepCopy <$> filter (fun p => p.1 ∈ dom fromJournal ∪ rest) (stateObjects st) in
    Ret (MkState (db st) (trie st) objs (dom objs) None (refund st) 0 0 0 (logs st) (logSize st)
           (preimages st) newJournal [] 0)
  else Panic.

End StateDB.

End State.
