(* ===== verification/Receipt.v ===== *)
(** Receipts, logs and log blooms ([core/types/receipt.go], [log.go], [bloom9.go]): the
    consensus and the storage encodings, and the 2048-bit filter of the addresses and
    topics of logs.

    A bloom is the value of its 256 bytes, as in a header.  Logs are those of the state
    ([State.Log]).

    Receipts read back from storage as they were written, up to what the encodings leave
    out, and log blooms contain every address and topic of the logs. *)

From S2P Require Import Prelude Params Bytes RlpEncode RlpDecode RlpRoundtrip ChainDb ChainDbProps StateDB.
Module Receipt.

Abbreviation Log := State.Log.

Record Receipt := MkReceipt {
  PostState : bytes;
  Status : Z;
  CumulativeGasUsed : Z;
  rBloom : Z;
  Logs : list Log;
  rTxHash : Hash;
  ContractAddress : Address;
  rGasUsed : Z
}.

Definition ReceiptStatusFailed : Z := 0.
Definition ReceiptStatusSuccessful : Z := 1.
Definition receiptStatusFailedRLP : bytes := [].
Definition receiptStatusSuccessfulRLP : bytes := [1].

Definition NewReceipt (root : bytes) (failed : bool) (cumulativeGasUsed : Z) : Receipt :=
  MkReceipt root (if failed then ReceiptStatusFailed else ReceiptStatusSuccessful) cumulativeGasUsed 0 [] 0 0 0.

Definition statusEncoding (r : Receipt) : bytes :=
  match PostState r with
  | [] => if Status r =? ReceiptStatusFailed then receiptStatusFailedRLP else receiptStatusSuccessfulRLP
  | root => root
  end.

(** [setStatus] on a new receipt: the post state and the status, or nothing for an error. *)
Definition setStatus (postStateOrStatus : bytes) : option (bytes * Z) :=
  if bool_decide (postStateOrStatus = receiptStatusSuccessfulRLP) then Some ([], ReceiptStatusSuccessful)
  else if bool_decide (postStateOrStatus = receiptStatusFailedRLP) then Some ([], ReceiptStatusFailed)
  else if bool_decide (length postStateOrStatus = HashLength) then Some (postStateOrStatus, 0)
  else None.

(** ** Encodings *)

Definition plain (ts : list Rlp.typ) : Rlp.typ := Rlp.TStruct (map (fun t => (t, Rlp.notags)) ts).

Definition rlpLog : Rlp.typ := plain [Rlp.TByteArray 20; Rlp.TSlice (Rlp.TByteArray 32); Rlp.TBytes].
Definition log_val (l : Log) : Rlp.val := Rlp.VList
  [Rlp.VBytes (address_bytes (State.LogAddress l)); Rlp.VList (map (fun t => Rlp.VBytes (hash_bytes t)) (State.Topics l)); Rlp.VBytes (State.Data l)].

(** The values of a list of byte arrays. *)
Definition arrays (vs : list Rlp.val) : option (list Z) := mapM (fun v => match v with Rlp.VBytes b => Some (be_value b) | _ => None end) vs.

(** [Log.DecodeRLP] keeps the derived fields, which a new log has zero. *)
Definition log_of_val (v : Rlp.val) : option Log :=
  match v with
  | Rlp.VList [Rlp.VBytes a; Rlp.VList ts; Rlp.VBytes d] => ts ← arrays ts; Some (State.MkLog (be_value a) ts d 0 0 0 0 0 false)
  | _ => None
  end.

Definition rlpStorageLog : Rlp.typ := plain
  [Rlp.TByteArray 20; Rlp.TSlice (Rlp.TByteArray 32); Rlp.TBytes; Rlp.TUint 64; Rlp.TByteArray 32; Rlp.TUint 64; Rlp.TByteArray 32; Rlp.TUint 64].
Definition storage_log_val (l : Log) : Rlp.val := Rlp.VList
  [Rlp.VBytes (address_bytes (State.LogAddress l)); Rlp.VList (map (fun t => Rlp.VBytes (hash_bytes t)) (State.Topics l)); Rlp.VBytes (State.Data l);
   Rlp.VUint (State.BlockNumber l); Rlp.VBytes (hash_bytes (State.TxHash l)); Rlp.VUint (State.TxIndex l); Rlp.VBytes (hash_bytes (State.BlockHash l)); Rlp.VUint (State.Index l)].
Definition storage_log_of_val (v : Rlp.val) : option Log :=
  match v with
  | Rlp.VList [Rlp.VBytes a; Rlp.VList ts; Rlp.VBytes d; Rlp.VUint n; Rlp.VBytes th; Rlp.VUint ti; Rlp.VBytes bh; Rlp.VUint i] =>
      ts ← arrays ts; Some (State.MkLog (be_value a) ts d n (be_value th) ti (be_value bh) i false)
  | _ => None
  end.

(** A slice of pointers. *)
Definition pointers (vs : list Rlp.val) : option (list Rlp.val) := mapM (fun v => match v with Rlp.VPtr p => p | _ => None end) vs.

Definition receiptRLP : Rlp.typ := plain [Rlp.TBytes; Rlp.TUint 64; Rlp.TByteArray 256; Rlp.TSlice (Rlp.TPtr rlpLog)].
Definition receipt_val (r : Receipt) : Rlp.val := Rlp.VList
  [Rlp.VBytes (statusEncoding r); Rlp.VUint (CumulativeGasUsed r); Rlp.VBytes (be_bytes 256 (rBloom r)); Rlp.VList (map (fun l => Rlp.VPtr (Some (log_val l))) (Logs r))].
Definition receipt_of_val (v : Rlp.val) : option Receipt :=
  match v with
  | Rlp.VList [Rlp.VBytes s; Rlp.VUint g; Rlp.VBytes b; Rlp.VList ls] =>
      '(post, status) ← setStatus s; ls ← pointers ls; ls ← mapM log_of_val ls; Some (MkReceipt post status g (be_value b) ls 0 0 0)
  | _ => None
  end.

Definition receiptStorageRLP : Rlp.typ := plain
  [Rlp.TBytes; Rlp.TUint 64; Rlp.TByteArray 256; Rlp.TByteArray 32; Rlp.TByteArray 20; Rlp.TSlice (Rlp.TPtr rlpStorageLog); Rlp.TUint 64].
Definition storage_receipt_val (r : Receipt) : Rlp.val := Rlp.VList
  [Rlp.VBytes (statusEncoding r); Rlp.VUint (CumulativeGasUsed r); Rlp.VBytes (be_bytes 256 (rBloom r)); Rlp.VBytes (hash_bytes (rTxHash r));
   Rlp.VBytes (address_bytes (ContractAddress r)); Rlp.VList (map (fun l => Rlp.VPtr (Some (storage_log_val l))) (Logs r)); Rlp.VUint (rGasUsed r)].
Definition storage_receipt_of_val (v : Rlp.val) : option Receipt :=
  match v with
  | Rlp.VList [Rlp.VBytes s; Rlp.VUint g; Rlp.VBytes b; Rlp.VBytes th; Rlp.VBytes ca; Rlp.VList ls; Rlp.VUint gu] =>
      '(post, status) ← setStatus s; ls ← pointers ls; ls ← mapM storage_log_of_val ls;
      Some (MkReceipt post status g (be_value b) ls (be_value th) (be_value ca) gu)
  | _ => None
  end.

(** [Receipts.GetRlp]; it panics on an error of the encoder. *)
Definition EncodeReceipt (r : Receipt) : outcome (Rlp.rlp_error + bytes) := Rlp.EncodeToBytes receiptRLP (receipt_val r).
Definition DecodeReceipt (b : bytes) : option Receipt :=
  match RlpStream.DecodeBytes receiptRLP b with inr v => receipt_of_val v | inl _ => None end.

(** The receipts of a block as [WriteBlockReceipts] and [GetBlockReceipts] store them. *)
Definition receipts_type : Rlp.typ := Rlp.TSlice (Rlp.TPtr receiptStorageRLP).
Definition EncodeReceipts (rs : list Receipt) : outcome (Rlp.rlp_error + bytes) :=
  Rlp.EncodeToBytes receipts_type (Rlp.VList (map (fun r => Rlp.VPtr (Some (storage_receipt_val r))) rs)).
Definition DecodeReceipts (b : bytes) : option (list Receipt) :=
  match RlpStream.DecodeBytes receipts_type b with
  | inr (Rlp.VList vs) => vs ← pointers vs; mapM storage_receipt_of_val vs
  | _ => None
  end.

(** ** Blooms *)

Definition BloomByteLength : nat := 256.

(** [Bloom.SetBytes]: the bytes in front of the copied ones stay. *)
Definition SetBytes (b : Z) (d : bytes) : outcome Z :=
  if Z.of_nat BloomByteLength <? len d then Panic else Ret (be_value (take (BloomByteLength - length d) (be_bytes BloomByteLength b) ++ d)).
Definition BytesToBloom (d : bytes) : outcome Z := SetBytes 0 d.

Section Blooms.
Context (Keccak256 : bytes -> Hash).

(** The three bits that the first three pairs of bytes of the hash select. *)
Definition bloom_bit (b : bytes) (i : nat) : Z := Z.land (nth (S i) b 0 + Z.shiftl (nth i b 0) 8) 2047.
Definition bloom9 (b : bytes) : Z :=
  let b := hash_bytes (Keccak256 b) in
  fold_left (fun r i => Z.lor r (Z.shiftl 1 (bloom_bit b i))) [0; 2; 4]%nat 0.

Definition LogsBloom (logs : list Log) : Z :=
  fold_left (fun bin l => fold_left (fun bin t => Z.lor bin (bloom9 (hash_bytes t))) (State.Topics l) (Z.lor bin (bloom9 (address_bytes (State.LogAddress l))))) logs 0.

Definition CreateBloom (receipts : list Receipt) : outcome Z :=
  BytesToBloom (big_Bytes (fold_left (fun bin r => Z.lor bin (LogsBloom (Logs r))) receipts 0)).

(** [BloomLookup] with the bytes of the topic. *)
Definition BloomLookup (bin : Z) (topic : bytes) : bool := let cmp := bloom9 topic in Z.land bin cmp =? cmp.

(** The bytes of a [big.Int] have no leading zeros. *)
Definition Add (b : Z) (d : Z) : outcome Z := SetBytes b (big_Bytes (Z.lor b (bloom9 (big_Bytes d)))).
Definition Test (b : Z) (test : Z) : bool := BloomLookup b (big_Bytes test).
Definition TestBytes (b : Z) (test : bytes) : bool := Test b (be_value test).

End Blooms.

End Receipt.

Import ChainDbProps Receipt.

Module ReceiptProps.

(** ** Encodings *)

Definition is_address (a : Z) : Prop := 0 <= a < 2 ^ 160.

Record log_ok (l : Log) : Prop := {
  lo_address : is_address (State.LogAddress l);
  lo_topics : Forall is_hash (State.Topics l);
  lo_data : is_bytes (State.Data l);
  lo_words : Forall is_u64 [State.BlockNumber l; State.TxIndex l; State.Index l];
  lo_hashes : is_hash (State.TxHash l) /\ is_hash (State.BlockHash l)
}.

(** A post state is absent or a hash. *)
Record receipt_ok (r : Receipt) : Prop := {
  ro_post : is_bytes (PostState r) /\ (PostState r = [] \/ length (PostState r) = HashLength);
  ro_words : is_u64 (CumulativeGasUsed r) /\ is_u64 (rGasUsed r);
  ro_bloom : 0 <= rBloom r < 2 ^ 2048;
  ro_hash : is_hash (rTxHash r) /\ is_address (ContractAddress r);
  ro_logs : Forall log_ok (Logs r)
}.

(** What comes back: a receipt with a post state has lost its status, and any status but
    failure is success; a log has lost the removal flag. *)
Definition stored_status (r : Receipt) : Z := if decide (PostState r = []) then (if Status r =? 0 then 0 else 1) else 0.
Definition stored_log (l : Log) : Log :=
  State.MkLog (State.LogAddress l) (State.Topics l) (State.Data l) (State.BlockNumber l) (State.TxHash l) (State.TxIndex l) (State.BlockHash l) (State.Index l) false.
Definition stored (r : Receipt) : Receipt :=
  MkReceipt (PostState r) (stored_status r) (CumulativeGasUsed r) (rBloom r) (map stored_log (Logs r)) (rTxHash r) (ContractAddress r) (rGasUsed r).

(** The consensus part. *)
Definition agreed_log (l : Log) : Log := State.MkLog (State.LogAddress l) (State.Topics l) (State.Data l) 0 0 0 0 0 false.
Definition agreed (r : Receipt) : Receipt := MkReceipt (PostState r) (stored_status r) (CumulativeGasUsed r) (rBloom r) (map agreed_log (Logs r)) 0 0 0.

Lemma setStatus_statusEncoding r : receipt_ok r -> setStatus (statusEncoding r) = Some (PostState r, stored_status r).
Proof.
  intros [[_ Hp] _ _ _ _]. unfold statusEncoding, setStatus, stored_status. destruct (PostState r) as [|x p] eqn:E.
  - by destruct (Status r =? ReceiptStatusFailed) eqn:Es; unfold ReceiptStatusFailed in Es; rewrite Es.
  - destruct Hp as [|Hl]; [done|]. rewrite bool_decide_false by (intros [= -> ->]; done). rewrite bool_decide_false by done. by rewrite bool_decide_true, decide_False by done.
Qed.

Lemma arrays_map (n : nat) ts : Forall (fun t => 0 <= t < 256 ^ Z.of_nat n) ts -> arrays (map (fun t => Rlp.VBytes (be_bytes n t)) ts) = Some ts.
Proof.
  induction 1 as [|t ts Ht Hts IH]; [done|]. unfold arrays in *. cbn [map mapM]. cbn [mbind option_bind]. rewrite be_value_be_bytes, Z.mod_small by done.
  rewrite IH. done.
Qed.

Lemma mapM_map {A B} (f : A -> Rlp.val) (g : Rlp.val -> option B) (h : A -> B) l : Forall (fun x => g (f x) = Some (h x)) l -> mapM g (map f l) = Some (map h l).
Proof. induction 1 as [|x l E _ IH]; [done|]. cbn. by rewrite E, IH. Qed.

Lemma pointers_map {A} (f : A -> Rlp.val) l : pointers (map (fun x => Rlp.VPtr (Some (f x))) l) = Some (map f l).
Proof. apply mapM_map. by apply Forall_true. Qed.

Lemma topics_map ts : Forall is_hash ts -> arrays (map (fun t => Rlp.VBytes (hash_bytes t)) ts) = Some ts.
Proof. intros H. apply (arrays_map 32). exact H. Qed.

Lemma log_of_log_val l : log_ok l -> log_of_val (log_val l) = Some (agreed_log l).
Proof. intros [Ha Ht _ _ _]. unfold log_of_val, log_val. rewrite topics_map by done. cbn [mbind option_bind]. by rewrite be_value_address. Qed.
Lemma storage_log_of_log_val l : log_ok l -> storage_log_of_val (storage_log_val l) = Some (stored_log l).
Proof. intros [Ha Ht _ _ [? ?]]. unfold storage_log_of_val, storage_log_val. rewrite topics_map by done. cbn [mbind option_bind]. by rewrite be_value_address, !be_value_hash. Qed.

Lemma Forall_pointed {A} (P : A -> Prop) (t : Rlp.typ) (f : A -> Rlp.val) l :
  (forall x, P x -> RlpCodec.rt_ok t Rlp.notags (f x)) -> Forall P l -> RlpCodec.rt_ok (Rlp.TSlice (Rlp.TPtr t)) Rlp.notags (Rlp.VList (map (fun x => Rlp.VPtr (Some (f x))) l)).
Proof. intros Hf Hl. cbn. apply Forall_map. eapply Forall_impl; [exact Hl|]. intros x Hx. split; [by apply Hf|done]. Qed.

Lemma topics_rt_ok ts : RlpCodec.rt_ok (Rlp.TSlice (Rlp.TByteArray 32)) Rlp.notags (Rlp.VList (map (fun t => Rlp.VBytes (hash_bytes t)) ts)).
Proof. cbn. apply Forall_map. apply Forall_true. intros t. apply (array_ok 32). lia. Qed.

Lemma word_ok n : is_u64 n -> RlpCodec.rt_ok (Rlp.TUint 64) Rlp.notags (Rlp.VUint n).
Proof. intros Hn. cbn. split; [by vm_compute; tauto|go_lia]. Qed.

(** The fields of a record, one after the other. *)
Ltac fields := unfold plain; cbn [map RlpCodec.rt_ok];
  repeat (split; [first [apply (array_ok 20); lia|apply (array_ok 32); lia|apply (array_ok 256); lia|apply topics_rt_ok|by apply word_ok|done]|split; [done|]]).

Lemma log_rt_ok l : log_ok l -> RlpCodec.rt_ok rlpLog Rlp.notags (log_val l).
Proof. intros [_ _ Hd _ _]. unfold rlpLog, log_val. fields. done. Qed.
Lemma storage_log_rt_ok l : log_ok l -> RlpCodec.rt_ok rlpStorageLog Rlp.notags (storage_log_val l).
Proof. intros [_ _ Hd Hw _]. repeat (apply Forall_cons in Hw as [? Hw]). unfold rlpStorageLog, storage_log_val. fields. done. Qed.

Lemma status_is_bytes r : receipt_ok r -> is_bytes (statusEncoding r).
Proof. intros [[H _] _ _ _ _]. unfold statusEncoding. destruct (PostState r); [case_match; by repeat constructor|done]. Qed.

Lemma receipt_rt_ok r : receipt_ok r -> RlpCodec.rt_ok receiptRLP Rlp.notags (receipt_val r).
Proof.
  intros Hr. pose proof (status_is_bytes r Hr). destruct Hr as [_ [? ?] _ _ Hl]. unfold receiptRLP, receipt_val. fields.
  split; [|done]. by apply (Forall_pointed log_ok), Hl; apply log_rt_ok.
Qed.
Lemma storage_receipt_rt_ok r : receipt_ok r -> RlpCodec.rt_ok receiptStorageRLP Rlp.notags (storage_receipt_val r).
Proof.
  intros Hr. pose proof (status_is_bytes r Hr). destruct Hr as [_ [? ?] _ _ Hl]. unfold receiptStorageRLP, storage_receipt_val. fields.
  split; [by apply (Forall_pointed log_ok), Hl; apply storage_log_rt_ok|]. split; [done|]. fields. done.
Qed.

Lemma receipt_of_receipt_val r : receipt_ok r -> receipt_of_val (receipt_val r) = Some (agreed r).
Proof.
  intros Hr. pose proof (setStatus_statusEncoding r Hr) as E. destruct Hr as [_ _ Hb _ Hl]. unfold receipt_of_val, receipt_val. rewrite E. cbn [mbind option_bind]. rewrite pointers_map. cbn [mbind option_bind].
  rewrite (mapM_map log_val log_of_val agreed_log) by (eapply Forall_impl; [exact Hl|apply log_of_log_val]). cbn [mbind option_bind]. by rewrite be_value_bloom.
Qed.
Lemma storage_receipt_of_receipt_val r : receipt_ok r -> storage_receipt_of_val (storage_receipt_val r) = Some (stored r).
Proof.
  intros Hr. pose proof (setStatus_statusEncoding r Hr) as E. destruct Hr as [_ _ Hb [? ?] Hl]. unfold storage_receipt_of_val, storage_receipt_val. rewrite E. cbn [mbind option_bind]. rewrite pointers_map. cbn [mbind option_bind].
  rewrite (mapM_map storage_log_val storage_log_of_val stored_log) by (eapply Forall_impl; [exact Hl|apply storage_log_of_log_val]). cbn [mbind option_bind].
  by rewrite be_value_bloom, be_value_hash, be_value_address.
Qed.

Definition fits (t : Rlp.typ) (v : Rlp.val) : Prop := forall b, RlpRef.enc t Rlp.notags v = Ret (inr b) -> len b < 2 ^ 63.
Definition receipts_val (rs : list Receipt) : Rlp.val := Rlp.VList (map (fun r => Rlp.VPtr (Some (storage_receipt_val r))) rs).

Lemma receipts_decode rs : Forall receipt_ok rs -> fits receipts_type (receipts_val rs) ->
  exists b, EncodeReceipts rs = Ret (inr b) /\ b <> [] /\ DecodeReceipts b = Some (map stored rs).
Proof.
  intros Hrs Hf. destruct (RlpClaims.encode_decode receipts_type (receipts_val rs)) as (b & He & Hne & Hd).
  { apply (Forall_pointed receipt_ok); [apply storage_receipt_rt_ok|done]. }
  destruct (Hd (Hf b He)) as (E1 & E2 & _). exists b. split; [exact E1|]. split; [done|]. unfold DecodeReceipts. rewrite E2. unfold receipts_val. rewrite pointers_map. cbn [mbind option_bind].
  apply mapM_map. eapply Forall_impl; [exact Hrs|]. apply storage_receipt_of_receipt_val.
Qed.

Lemma receipt_decode r : receipt_ok r -> fits receiptRLP (receipt_val r) -> exists b, EncodeReceipt r = Ret (inr b) /\ DecodeReceipt b = Some (agreed r).
Proof.
  intros Hr Hf. destruct (RlpClaims.encode_decode receiptRLP (receipt_val r) (receipt_rt_ok r Hr)) as (b & He & _ & Hd). destruct (Hd (Hf b He)) as (E1 & E2 & _).
  exists b. split; [done|]. unfold DecodeReceipt. rewrite E2. by apply receipt_of_receipt_val.
Qed.

(** ** Blooms *)

Definition in_range (z : Z) : Prop := 0 <= z < 2 ^ 2048.

Lemma in_range_bits z : in_range z <-> 0 <= z /\ forall i, 2048 <= i -> Z.testbit z i = false.
Proof.
  unfold in_range. split.
  - intros [H0 H1]. split; [done|]. intros i Hi. destruct (decide (z = 0)) as [->|Hz]; [apply Z.testbit_0_l|]. apply Z.bits_above_log2; [done|].
    assert (Z.log2 z < 2048) by (apply Z.log2_lt_pow2; lia). lia.
  - intros [H0 Hb]. split; [done|]. destruct (decide (z = 0)) as [->|Hz]; [done|]. apply Z.log2_lt_pow2; [lia|]. destruct (decide (Z.log2 z < 2048)); [done|].
    pose proof (Z.bit_log2 z ltac:(lia)) as H. by rewrite Hb in H by lia.
Qed.

Lemma fold_lor_bit {A} (f : A -> Z) l acc i : Z.testbit (fold_left (fun r x => Z.lor r (f x)) l acc) i = Z.testbit acc i || existsb (fun x => Z.testbit (f x) i) l.
Proof. revert acc. induction l as [|x l IH]; intros acc; cbn [fold_left existsb]; [by rewrite orb_false_r|]. by rewrite IH, Z.lor_spec, orb_assoc. Qed.
Lemma fold_lor_nonneg {A} (f : A -> Z) l acc : 0 <= acc -> Forall (fun x => 0 <= f x) l -> 0 <= fold_left (fun r x => Z.lor r (f x)) l acc.
Proof. intros Ha Hl. revert acc Ha. induction Hl as [|x l Hx _ IH]; intros acc Ha; [done|]. cbn. apply IH. by apply Z.lor_nonneg. Qed.
Lemma fold_lor_range {A} (f : A -> Z) l acc : in_range acc -> Forall (fun x => in_range (f x)) l -> in_range (fold_left (fun r x => Z.lor r (f x)) l acc).
Proof.
  intros Ha Hl. apply in_range_bits in Ha as [Ha Hab]. apply in_range_bits. split; [apply fold_lor_nonneg; [done|]; eapply Forall_impl; [exact Hl|]; by intros ? [? _]|].
  intros i Hi. rewrite fold_lor_bit, Hab by done. cbn. induction Hl as [|x l Hx _ IH]; [done|]. cbn. apply in_range_bits in Hx as [_ Hx]. by rewrite Hx, IH.
Qed.

Lemma SetBytes_big b z : in_range b -> in_range z -> b <= z -> SetBytes b (big_Bytes z) = Ret z.
Proof.
  intros [Hb0 Hb1] [Hz0 Hz1] Hle. unfold SetBytes. assert (Hl : (length (big_Bytes z) <= 256)%nat).
  { unfold big_Bytes. rewrite length_be_bytes, Z.abs_eq by done. destruct (decide (z = 0)) as [->|]; [by vm_compute; lia|].
    pose proof (RlpEncodeProps.byte_len_le 256 z) as H. change (256 ^ Z.of_nat 256) with (2 ^ 2048) in H. lia. }
  destruct (_ <? _) eqn:E; bool_to_prop; [unfold len, BloomByteLength in E; lia|]. f_equal. unfold BloomByteLength.
  rewrite be_value_app, be_value_big_Bytes by done. assert (Hsplit : be_bytes 256 b = take (256 - length (big_Bytes z)) (be_bytes 256 b) ++ drop (256 - length (big_Bytes z)) (be_bytes 256 b)) by (by rewrite take_drop).
  apply (f_equal be_value) in Hsplit. rewrite be_value_bloom, be_value_app in Hsplit by done. set (hi := be_value (take _ _)) in *.
  assert (Hd : len (drop (256 - length (big_Bytes z)) (be_bytes 256 b)) = len (big_Bytes z)) by (unfold len; rewrite length_drop, length_be_bytes; lia).
  rewrite Hd in Hsplit. assert (Hhi : 0 <= hi) by (apply be_value_bound, Forall_take, be_bytes_is_bytes).
  assert (Hlo : 0 <= be_value (drop (256 - length (big_Bytes z)) (be_bytes 256 b))) by (apply be_value_bound, Forall_drop, be_bytes_is_bytes).
  pose proof (be_value_bound (big_Bytes z) (big_Bytes_is_bytes z)) as Hz. rewrite be_value_big_Bytes in Hz by done.
  destruct (decide (hi = 0)) as [->|Hne]; [done|]. pose proof (Z.mul_le_mono_nonneg_r 1 hi (256 ^ len (big_Bytes z))). lia.
Qed.

Section Blooms.
Context (Keccak256 : bytes -> Hash).
Abbreviation bloom9 := (bloom9 Keccak256).
Abbreviation LogsBloom := (LogsBloom Keccak256).
Abbreviation CreateBloom := (CreateBloom Keccak256).
Abbreviation BloomLookup := (BloomLookup Keccak256).

Lemma existsb_map {A B} (f : A -> B) (p : B -> bool) l : existsb p (map f l) = existsb (fun x => p (f x)) l.
Proof. induction l as [|x l IH]; [done|]. cbn. by rewrite IH. Qed.

(** What the logs of the receipts put into the filter. *)
Definition log_items (l : Log) : list bytes := address_bytes (State.LogAddress l) :: map hash_bytes (State.Topics l).
Definition items (rs : list Receipt) : list bytes := rs ≫= fun r => Logs r ≫= log_items.

Lemma bloom_bit_range b i : 0 <= bloom_bit b i < 2048.
Proof. unfold bloom_bit. change 2047 with (Z.ones 11). rewrite Z.land_ones by done. apply Z.mod_pos_bound. done. Qed.

Lemma bloom9_range b : in_range (bloom9 b).
Proof.
  apply fold_lor_range; [by split|]. apply Forall_true. intros i. pose proof (bloom_bit_range (hash_bytes (Keccak256 b)) i). unfold in_range. rewrite Z.shiftl_1_l.
  split; [apply Z.pow_nonneg; lia|]. apply Z.pow_lt_mono_r; lia.
Qed.

Lemma LogsBloom_bit logs i : Z.testbit (LogsBloom logs) i = existsb (fun x => Z.testbit (bloom9 x) i) (logs ≫= log_items).
Proof.
  unfold Receipt.LogsBloom. enough (H : forall acc, Z.testbit (fold_left (fun bin l => fold_left (fun bin t => Z.lor bin (bloom9 (hash_bytes t))) (State.Topics l)
    (Z.lor bin (bloom9 (address_bytes (State.LogAddress l))))) logs acc) i = Z.testbit acc i || existsb (fun x => Z.testbit (bloom9 x) i) (logs ≫= log_items)).
  { rewrite H, Z.testbit_0_l. done. }
  induction logs as [|l logs IH]; intros acc; [by rewrite orb_false_r|]. cbn [fold_left mbind list_bind]. rewrite IH, existsb_app. cbn [log_items existsb].
  rewrite (fold_lor_bit (fun t => bloom9 (hash_bytes t))), Z.lor_spec, existsb_map, !orb_assoc. done.
Qed.

Lemma LogsBloom_range logs : in_range (LogsBloom logs).
Proof.
  unfold Receipt.LogsBloom. assert (H : forall acc, in_range acc -> in_range (fold_left (fun bin l => fold_left (fun bin t => Z.lor bin (bloom9 (hash_bytes t))) (State.Topics l)
    (Z.lor bin (bloom9 (address_bytes (State.LogAddress l))))) logs acc)); [|by apply H].
  induction logs as [|l logs IH]; intros acc Ha; [done|]. cbn [fold_left]. apply IH. apply (fold_lor_range (fun t => bloom9 (hash_bytes t))); [|apply Forall_true; intros; apply bloom9_range].
  apply (fold_lor_range bloom9 [_] acc); [done|]. apply Forall_singleton, bloom9_range.
Qed.

Lemma lookup_bits bl x : (forall i, Z.testbit (bloom9 x) i = true -> Z.testbit bl i = true) <-> BloomLookup bl x = true.
Proof.
  unfold Receipt.BloomLookup. rewrite Z.eqb_eq. split.
  - intros H. apply Z.bits_inj. intros i. rewrite Z.land_spec. destruct (Z.testbit (bloom9 x) i) eqn:E; [by rewrite H|by rewrite andb_false_r].
  - intros H i Hi. apply (f_equal (fun z => Z.testbit z i)) in H. rewrite Z.land_spec, Hi in H. by destruct (Z.testbit bl i).
Qed.

Definition bloom_value (rs : list Receipt) : Z := fold_left (fun bin r => Z.lor bin (LogsBloom (Logs r))) rs 0.
Lemma bloom_value_range rs : in_range (bloom_value rs).
Proof. apply fold_lor_range; [by split|apply Forall_true; intros; apply LogsBloom_range]. Qed.
Lemma CreateBloom_value rs : CreateBloom rs = Ret (bloom_value rs).
Proof. apply SetBytes_big; [by split|apply bloom_value_range|apply bloom_value_range]. Qed.

(** C33: The bloom of a list of receipts is computed without a panic, is exactly the union of
    the three bits of every address and topic of their logs, fits its 256 bytes, and a look-up
    of any of those addresses and topics succeeds. *)
Theorem bloom_complete rs : exists bl, CreateBloom rs = Ret bl /\ 0 <= bl < 2 ^ 2048 /\
  (forall i, Z.testbit bl i = existsb (fun x => Z.testbit (bloom9 x) i) (items rs)) /\
  (forall r l, r ∈ rs -> l ∈ Logs r -> BloomLookup bl (address_bytes (State.LogAddress l)) = true /\
     forall t, t ∈ State.Topics l -> BloomLookup bl (hash_bytes t) = true).
Proof.
  set (bl := bloom_value rs). exists bl. split; [apply CreateBloom_value|]. split; [apply bloom_value_range|].
  assert (Hbits : forall i, Z.testbit bl i = existsb (fun x => Z.testbit (bloom9 x) i) (items rs)).
  { intros i. unfold bl, bloom_value. rewrite fold_lor_bit, Z.testbit_0_l. cbn. unfold items. clear. induction rs as [|r rs IH]; [done|]. cbn [existsb mbind list_bind]. by rewrite existsb_app, LogsBloom_bit, IH. }
  split; [done|]. intros r l Hr' Hl. assert (Hin : forall x, x ∈ log_items l -> BloomLookup bl x = true).
  { intros x Hx. apply lookup_bits. intros i Hi. rewrite Hbits. apply existsb_exists. exists x. split; [|done]. apply list_elem_of_In. apply list_elem_of_bind. exists r. split; [|done].
    apply list_elem_of_bind. by exists l. }
  split; [apply Hin; by constructor|]. intros t Ht. apply Hin. apply elem_of_cons. right. apply list_elem_of_fmap. by exists t.
Qed.

(** Adding to a filter keeps what it had, and testing finds what was added. *)
Lemma add_then_test b d : in_range b -> exists b', Add Keccak256 b d = Ret b' /\ in_range b' /\ Test Keccak256 b' d = true /\ forall x, BloomLookup b x = true -> BloomLookup b' x = true.
Proof.
  intros Hb. set (z := Z.lor b (bloom9 (big_Bytes d))). assert (Hz : in_range z) by (apply (fold_lor_range bloom9 [_] b); [done|apply Forall_singleton, bloom9_range]).
  exists z. split; [|split; [done|split]].
  - apply SetBytes_big; [done|done|]. unfold z. destruct Hb as [Hb _]. pose proof (bloom9_range (big_Bytes d)) as [H9 _].
    apply Z.ldiff_le; [by apply Z.lor_nonneg|]. apply Z.bits_inj'. intros i Hi. rewrite Z.ldiff_spec, Z.lor_spec, Z.testbit_0_l. by destruct (Z.testbit b i).
  - apply lookup_bits. intros i Hi. unfold z. by rewrite Z.lor_spec, Hi, orb_true_r.
  - intros x Hx. apply lookup_bits. intros i Hi. unfold z. rewrite Z.lor_spec. apply (proj2 (lookup_bits b x)) with (i := i) in Hx; [|done]. by rewrite Hx.
Qed.

(** [TestBytes] goes through a [big.Int], so it looks up the topic without its leading zeros. *)
Lemma TestBytes_trims b (n : nat) t : TestBytes Keccak256 b (replicate n 0 ++ t) = TestBytes Keccak256 b t.
Proof. unfold TestBytes. by rewrite be_value_zeros. Qed.

End Blooms.

End ReceiptProps.
