(* ===== verification/Heap.v ===== *)
(** Binary heaps on slices: Go's [container/heap] as the transaction pool uses it, over
    any [Less] that is a strict weak order, with the heap property of every operation. *)

From S2P Require Import Prelude.

Module Heap.

Section Heap.
Context {A : Type} `{Inhabited A} (Less : A -> A -> bool).

Definition Swap (i j : nat) (l : list A) : list A := <[i := l !!! j]> (<[j := l !!! i]> l).

(** [(j - 1) / 2], which is 0 for [j = 0]. *)
Definition parent (j : nat) : nat := Nat.div (j - 1) 2.

(** [up]; [j] turns suffice. *)
Fixpoint up (fuel : nat) (l : list A) (j : nat) : list A :=
  match fuel with
  | O => l
  | S fuel =>
      let i := parent j in
      if (i =? j)%nat || negb (Less (l !!! j) (l !!! i)) then l
      else up fuel (Swap i j l) i
  end.

(** [down] on the first [n] elements: the slice and where it stopped; [n] turns suffice. *)
Fixpoint down_loop (fuel : nat) (l : list A) (i n : nat) : list A * nat :=
  match fuel with
  | O => (l, i)
  | S fuel =>
      let j1 := (2 * i + 1)%nat in
      if (n <=? j1)%nat then (l, i) else
      let j2 := S j1 in
      let j := if (j2 <? n)%nat && Less (l !!! j2) (l !!! j1) then j2 else j1 in
      if negb (Less (l !!! j) (l !!! i)) then (l, i)
      else down_loop fuel (Swap i j l) j n
  end.
Definition down (l : list A) (i0 n : nat) : list A * bool :=
  let '(l, i) := down_loop n l i0 n in (l, (i0 <? i)%nat).

Fixpoint init_loop (i : nat) (l : list A) : list A :=
  match i with
  | O => l
  | S i => init_loop i (fst (down l i (length l)))
  end.
Definition Init (l : list A) : list A := init_loop (Nat.div (length l) 2) l.

Definition Push (x : A) (l : list A) : list A := up (length l) (l ++ [x]) (length l).

(** The last element is removed by the heap's own [Pop]; on an empty slice it panics. *)
Definition pop_last (l : list A) : outcome (list A * A) :=
  match last l with Some x => Ret (take (length l - 1) l, x) | None => Panic end.

Definition Pop (l : list A) : outcome (list A * A) :=
  let n := (length l - 1)%nat in
  pop_last (fst (down (Swap 0 n l) 0 n)).

Definition Remove (i : nat) (l : list A) : outcome (list A * A) :=
  let n := (length l - 1)%nat in
  pop_last
    (if (n =? i)%nat then l
     else
       let '(l, moved) := down (Swap i n l) i n in
       if moved then l else up i l i).

(** [Fix] after element [i] was changed. *)
Definition Fix (i : nat) (l : list A) : list A :=
  let '(l, moved) := down l i (length l) in if moved then l else up i l i.

End Heap.

End Heap.

(** ** Properties *)

Module HeapProps.
Import Heap.

(** A strict weak order. *)
Class LessLaws {A : Type} (Less : A -> A -> bool) : Prop := {
  Less_asym : forall x y, Less x y = true -> Less y x = false;
  Less_trans : forall x y z, Less y x = false -> Less z y = false -> Less z x = false
}.

Section Props.
Context {A : Type} `{Inhabited A} (Less : A -> A -> bool) {laws : LessLaws Less}.

(** [x] may stand above [y]. *)
Definition le (x y : A) : Prop := Less y x = false.

Lemma le_trans x y z : le x y -> le y z -> le x z.
Proof. apply Less_trans. Qed.
Lemma le_refl x : le x x.
Proof. unfold le. destruct (Less x x) eqn:E; [|done]. pose proof (Less_asym _ _ E). congruence. Qed.
Lemma lt_le x y : Less x y = true -> le x y.
Proof. apply Less_asym. Qed.

(** Every element below [n] but those excluded is not less than its parent. *)
Definition edge_ok (l : list A) (k : nat) : Prop := le (l !!! parent k) (l !!! k).
Definition heap (n : nat) (l : list A) : Prop := forall k, (1 <= k < n)%nat -> edge_ok l k.

(** *** Indices *)

Lemma parent_lt k : (1 <= k)%nat -> (parent k < k)%nat.
Proof. intros Hk. unfold parent. apply Nat.Div0.div_lt_upper_bound. lia. Qed.

Lemma parent_child k i : (1 <= k)%nat -> parent k = i <-> k = (2 * i + 1)%nat \/ k = (2 * i + 2)%nat.
Proof.
  intros Hk. unfold parent. pose proof (Nat.div_mod_eq (k - 1) 2). pose proof (Nat.mod_upper_bound (k - 1) 2 ltac:(lia)). lia.
Qed.

(** *** Swaps *)

Lemma Swap_lookup i j (l : list A) k : (i < length l)%nat -> (j < length l)%nat ->
  Swap i j l !!! k = if decide (k = i) then l !!! j else if decide (k = j) then l !!! i else l !!! k.
Proof.
  intros Hi Hj. unfold Swap. destruct (decide (k = i)) as [->|Hki].
  - rewrite list_lookup_total_insert_eq; [done|by rewrite length_insert].
  - rewrite list_lookup_total_insert_ne by done. destruct (decide (k = j)) as [->|Hkj].
    + by rewrite list_lookup_total_insert_eq.
    + by rewrite list_lookup_total_insert_ne.
Qed.

Lemma length_Swap i j (l : list A) : length (Swap i j l) = length l.
Proof. unfold Swap. by rewrite !length_insert. Qed.

Lemma Swap_perm i j (l : list A) : (i < length l)%nat -> (j < length l)%nat -> Swap i j l ≡ₚ l.
Proof.
  intros Hi Hj. unfold Swap. apply Permutation_insert_swap; by apply list_lookup_lookup_total_lt.
Qed.

(** *** [up] *)

(** Only the edge above [j] may be wrong. *)
Record up_inv (n j : nat) (l : list A) : Prop := {
  ui_edges : forall k, (1 <= k < n)%nat -> k <> j -> edge_ok l k;
  ui_children : forall k, (1 <= k < n)%nat -> parent k = j -> (1 <= j)%nat -> le (l !!! parent j) (l !!! k)
}.

Lemma heap_up_inv n j l : heap n l -> up_inv n j l.
Proof.
  intros Hh. split; [auto|]. intros k Hk Hp Hj. apply le_trans with (l !!! j).
  - apply Hh. pose proof (parent_lt k ltac:(lia)). lia.
  - rewrite <- Hp. by apply Hh.
Qed.

Lemma up_step n j (l : list A) : (n <= length l)%nat -> (1 <= j < n)%nat -> up_inv n j l ->
  Less (l !!! j) (l !!! parent j) = true -> up_inv n (parent j) (Swap (parent j) j l).
Proof.
  intros Hn Hj [He Hc] Hl. pose proof (parent_lt j ltac:(lia)) as Hp. set (i := parent j) in *.
  assert (Hs : forall k, Swap i j l !!! k = if decide (k = i) then l !!! j else if decide (k = j) then l !!! i else l !!! k)
    by (intros k; apply Swap_lookup; lia).
  split.
  - intros k Hk Hki. unfold edge_ok. rewrite !Hs. rewrite (decide_False (P:=k = i)) by done.
    destruct (decide (k = j)) as [->|Hkj].
    { fold i. rewrite decide_True by done. by apply lt_le. }
    destruct (decide (parent k = i)) as [Hpi|Hpi].
    { apply le_trans with (l !!! i); [by apply lt_le|]. rewrite <- Hpi. by apply He. }
    destruct (decide (parent k = j)) as [Hpj|Hpj]; [apply Hc; try done; lia|]. by apply He.
  - intros k Hk Hpk Hi. rewrite !Hs. pose proof (parent_lt i Hi). pose proof (parent_lt k ltac:(lia)).
    rewrite (decide_False (P:=parent i = i)), (decide_False (P:=parent i = j)), (decide_False (P:=k = i)) by lia.
    destruct (decide (k = j)) as [->|Hkj]; [apply He; lia|].
    apply le_trans with (l !!! i); [apply He; lia|]. rewrite <- Hpk. apply He; lia.
Qed.

Lemma up_spec fuel n j (l : list A) : (n <= length l)%nat -> (j < n)%nat -> (j <= fuel)%nat -> up_inv n j l ->
  heap n (up Less fuel l j) /\ up Less fuel l j ≡ₚ l /\ (forall k, (n <= k)%nat -> up Less fuel l j !!! k = l !!! k).
Proof.
  revert l j. induction fuel as [|fuel IH]; intros l j Hn Hj Hf Hi; simpl.
  { split_and!; [|done|done]. intros k Hk. apply Hi; lia. }
  destruct (parent j =? j)%nat eqn:Ej; simpl.
  { apply Nat.eqb_eq in Ej. split_and!; [|done|done]. intros k Hk. apply Hi; [done|]. intros ->.
    pose proof (parent_lt j ltac:(lia)). lia. }
  apply Nat.eqb_neq in Ej. assert (1 <= j)%nat by (destruct j; [by vm_compute in Ej|lia]).
  pose proof (parent_lt j ltac:(lia)). destruct (Less (l !!! j) (l !!! parent j)) eqn:El; simpl.
  - destruct (IH (Swap (parent j) j l) (parent j)) as (Hh & Hpm & Hr); [by rewrite length_Swap|lia|lia| |].
    { apply up_step; [done|lia|done|done]. }
    split_and!; [done| |].
    + rewrite Hpm. apply Swap_perm; lia.
    + intros k Hk. rewrite Hr by done. rewrite Swap_lookup by lia. rewrite !decide_False by lia. done.
  - split_and!; [|done|done]. intros k Hk. destruct (decide (k = j)) as [->|]; [done|by apply Hi].
Qed.

(** *** [down] *)

(** From [lo] on, only the edges below [i] may be wrong. *)
Record down_inv (lo n i : nat) (l : list A) : Prop := {
  di_edges : forall k, (1 <= k < n)%nat -> (lo <= parent k)%nat -> parent k <> i -> edge_ok l k;
  di_children : forall k, (1 <= k < n)%nat -> parent k = i -> (1 <= i)%nat -> (lo <= parent i)%nat -> le (l !!! parent i) (l !!! k)
}.

Definition heap_from (lo n : nat) (l : list A) : Prop := forall k, (1 <= k < n)%nat -> (lo <= parent k)%nat -> edge_ok l k.

Lemma heap_from_0 n l : heap_from 0 n l <-> heap n l.
Proof. split; intros Hh k Hk; [apply Hh; lia|]. intros _. by apply Hh. Qed.

(** The smaller child. *)
Definition smaller (l : list A) (i n : nat) : nat :=
  let j1 := (2 * i + 1)%nat in
  if (S j1 <? n)%nat && Less (l !!! S j1) (l !!! j1) then S j1 else j1.

Lemma smaller_spec (l : list A) i n : (2 * i + 1 < n)%nat ->
  let j := smaller l i n in (1 <= j < n)%nat /\ parent j = i /\
  forall k, (1 <= k < n)%nat -> parent k = i -> le (l !!! j) (l !!! k).
Proof.
  intros Hn j. unfold j, smaller. destruct ((_ <? n)%nat && _) eqn:E;
    [apply andb_true_iff in E as [E%Nat.ltb_lt El]|apply andb_false_iff in E].
  - split; [lia|]. split; [apply parent_child; lia|].
    intros k Hk [->| ->]%parent_child; [by apply lt_le| |lia]. replace (2 * i + 2)%nat with (S (2 * i + 1)) by lia.
    apply le_refl.
  - split; [lia|]. split; [apply parent_child; lia|]. intros k Hk [->| ->]%parent_child; [| |lia].
    + apply le_refl.
    + replace (2 * i + 2)%nat with (S (2 * i + 1)) in * by lia. destruct E as [E|E]; [apply Nat.ltb_ge in E; lia|done].
Qed.

Lemma down_step lo n i (l : list A) : (n <= length l)%nat -> (lo <= i)%nat -> (2 * i + 1 < n)%nat -> down_inv lo n i l ->
  let j := smaller l i n in
  Less (l !!! j) (l !!! i) = true -> down_inv lo n j (Swap i j l).
Proof.
  intros Hn Hlo Hin [He Hc] j Hl. destruct (smaller_spec l i n Hin) as (Hj & Hpj & Hmin). fold j in Hj, Hpj, Hmin.
  pose proof (parent_lt j ltac:(lia)) as Hlt.
  assert (Hs : forall k, Swap i j l !!! k = if decide (k = i) then l !!! j else if decide (k = j) then l !!! i else l !!! k)
    by (intros k; apply Swap_lookup; lia).
  split.
  - intros k Hk Hlk Hkj. unfold edge_ok. rewrite !Hs. rewrite (decide_False (P:=parent k = j)) by done.
    destruct (decide (parent k = i)) as [Hpi|Hpi].
    + rewrite (decide_False (P:=k = i)) by (pose proof (parent_lt k ltac:(lia)); lia).
      destruct (decide (k = j)) as [->|]; [by apply lt_le|]. by apply Hmin.
    + rewrite (decide_False (P:=k = j)) by congruence.
      destruct (decide (k = i)) as [->|]; [|by apply He]. apply Hc; try done; lia.
  - intros k Hk Hpk Hj1 Hlj. rewrite !Hs, Hpj. pose proof (parent_lt k ltac:(lia)).
    rewrite (decide_True (P:=i = i)), (decide_False (P:=k = i)), (decide_False (P:=k = j)) by lia.
    rewrite <- Hpk. apply He; [done|lia|lia].
Qed.

Lemma down_inv_done lo n i l : down_inv lo n i l -> (forall k, (1 <= k < n)%nat -> parent k = i -> edge_ok l k) -> heap_from lo n l.
Proof. intros [He _] Hd k Hk Hlo. destruct (decide (parent k = i)); [by apply Hd|by apply He]. Qed.

Lemma down_loop_spec fuel lo n i (l : list A) : (n <= length l)%nat -> (lo <= i)%nat -> (n <= i + fuel)%nat -> down_inv lo n i l ->
  let '(l', i') := down_loop Less fuel l i n in
  heap_from lo n l' /\ l' ≡ₚ l /\ (i <= i')%nat /\ (i' = i -> l' = l) /\ (forall k, (n <= k)%nat -> l' !!! k = l !!! k).
Proof.
  revert l i. induction fuel as [|fuel IH]; intros l i Hn Hlo Hf Hi.
  { simpl. split_and!; try done. apply (down_inv_done lo n i); [done|]. intros k Hk Hp. pose proof (parent_lt k ltac:(lia)). lia. }
  cbn [down_loop]. destruct (n <=? 2 * i + 1)%nat eqn:En.
  { apply Nat.leb_le in En. split_and!; try done. apply (down_inv_done lo n i); [done|].
    intros k Hk [->| ->]%parent_child; lia. }
  apply Nat.leb_gt in En. cbv zeta. fold (smaller l i n). destruct (smaller_spec l i n En) as (Hj & Hpj & Hmin).
  set (j := smaller l i n) in *. pose proof (parent_lt j ltac:(lia)).
  destruct (Less (l !!! j) (l !!! i)) eqn:El; simpl.
  - specialize (IH (Swap i j l) j). rewrite length_Swap in IH.
    destruct (down_loop Less fuel (Swap i j l) j n) as [l' i']. destruct IH as (Hh & Hpm & Hle & _ & Hr); [done|lia|lia| |].
    { by apply down_step. }
    split_and!; [done| |lia|lia|].
    + rewrite Hpm. apply Swap_perm; lia.
    + intros k Hk. rewrite Hr by done. rewrite Swap_lookup by lia. rewrite !decide_False by lia. done.
  - split_and!; try done. apply (down_inv_done lo n i); [done|]. intros k Hk Hp. unfold edge_ok. rewrite Hp.
    apply le_trans with (l !!! j); [done|]. by apply Hmin.
Qed.

Lemma down_spec lo n i (l : list A) : (n <= length l)%nat -> (lo <= i)%nat -> down_inv lo n i l ->
  let '(l', moved) := down Less l i n in
  heap_from lo n l' /\ l' ≡ₚ l /\ (moved = false -> l' = l) /\ (forall k, (n <= k)%nat -> l' !!! k = l !!! k).
Proof.
  intros Hn Hlo Hi. unfold down. pose proof (down_loop_spec n lo n i l Hn Hlo ltac:(lia) Hi) as Hd.
  destruct (down_loop Less n l i n) as [l' i']. destruct Hd as (Hh & Hp & Hle & Hs & Hr). split_and!; try done.
  intros Hm. apply Nat.ltb_ge in Hm. apply Hs. lia.
Qed.

(** *** The operations *)

Abbreviation is_heap l := (heap (length l) l).

Lemma edge_ok_eq (l l' : list A) k : l !!! parent k = l' !!! parent k -> l !!! k = l' !!! k -> edge_ok l k -> edge_ok l' k.
Proof. unfold edge_ok. by intros -> ->. Qed.

(** The root is a least element. *)
Lemma heap_min l y : is_heap l -> y ∈ l -> le (l !!! 0%nat) y.
Proof.
  intros Hh [k Hk]%list_elem_of_lookup. pose proof (lookup_lt_Some _ _ _ Hk) as Hlt.
  apply list_lookup_total_correct in Hk as <-. induction k as [k IH] using lt_wf_ind.
  destruct (decide (k = 0%nat)) as [->|]; [apply le_refl|]. pose proof (parent_lt k ltac:(lia)).
  apply le_trans with (l !!! parent k); [apply IH; lia|]. apply Hh. lia.
Qed.

Lemma Push_spec x l : is_heap l -> is_heap (Push Less x l) /\ Push Less x l ≡ₚ x :: l.
Proof.
  intros Hh. unfold Push.
  destruct (up_spec (length l) (S (length l)) (length l) (l ++ [x])) as (Hu & Hp & _); [rewrite length_app; simpl; lia|lia|lia| |].
  - split.
    + intros k Hk Hne. pose proof (parent_lt k ltac:(lia)).
      apply (edge_ok_eq l); [rewrite lookup_total_app_l; [done|lia]..|]. apply Hh. lia.
    + intros k Hk Hpk. pose proof (parent_lt k ltac:(lia)). lia.
  - split.
    + rewrite (Permutation_length Hp), length_app. simpl. by rewrite Nat.add_1_r.
    + rewrite Hp. symmetry. apply Permutation_cons_append.
Qed.

Lemma heap_take n (l : list A) : (n <= length l)%nat -> heap n l -> is_heap (take n l).
Proof.
  intros Hn Hh k Hk. rewrite length_take in Hk. pose proof (parent_lt k ltac:(lia)).
  apply (edge_ok_eq l); [rewrite lookup_total_take_lt; [done|lia]..|]. apply Hh. lia.
Qed.

Lemma pop_last_spec (l : list A) x : (1 <= length l)%nat -> l !!! (length l - 1)%nat = x ->
  pop_last l = Ret (take (length l - 1) l, x) /\ l ≡ₚ x :: take (length l - 1) l.
Proof.
  intros Hl Hx. assert (Hlast : l !! (length l - 1)%nat = Some x).
  { rewrite <- Hx. apply list_lookup_lookup_total_lt. lia. }
  unfold pop_last. rewrite last_lookup. replace (Init.Nat.pred (length l)) with (length l - 1)%nat by lia. rewrite Hlast. split; [done|].
  rewrite <- (take_drop (length l - 1) l) at 1. rewrite (drop_S _ _ _ Hlast), drop_ge by lia.
  symmetry. apply Permutation_cons_append.
Qed.

(** A heap of which the last element was exchanged with [i]. *)
Lemma swapped_edges i (l : list A) k : is_heap l -> (i < length l)%nat -> (1 <= k < length l - 1)%nat -> k <> i -> parent k <> i ->
  edge_ok (Swap i (length l - 1) l) k.
Proof.
  intros Hh Hi Hk Hki Hpi. pose proof (parent_lt k ltac:(lia)).
  apply (edge_ok_eq l); [rewrite Swap_lookup by lia; rewrite !decide_False by lia; done..|]. apply Hh. lia.
Qed.

Lemma Pop_spec l : is_heap l -> l <> [] ->
  exists l', Pop Less l = Ret (l', l !!! 0%nat) /\ l ≡ₚ l !!! 0%nat :: l' /\ is_heap l'.
Proof.
  intros Hh Hne. assert (Hl : (1 <= length l)%nat) by (destruct l; [done|simpl; lia]). unfold Pop.
  set (n := (length l - 1)%nat). pose proof (down_spec 0 n 0 (Swap 0 n l)) as Hd. rewrite length_Swap in Hd.
  destruct (down Less (Swap 0 n l) 0 n) as [l1 mv]. destruct Hd as (H1 & H2 & _ & H3); [lia|lia| |].
  { split; [|lia]. intros k Hk _ Hp. apply swapped_edges; try lia; done. }
  assert (Hlen : length l1 = length l) by (by rewrite H2, length_Swap). simpl.
  destruct (pop_last_spec l1 (l !!! 0%nat)) as [Hpl Hpm]; [lia| |].
  { rewrite Hlen, H3 by lia. rewrite Swap_lookup by lia. destruct (decide _) as [E|]; [|by rewrite decide_True].
    f_equal. unfold n in *. lia. }
  exists (take (length l1 - 1) l1). split_and!; [done| |].
  - rewrite <- Hpm, H2, Swap_perm; [done|lia|lia].
  - apply heap_take; [lia|]. rewrite Hlen. by apply heap_from_0.
Qed.

Lemma init_loop_spec i l : heap_from i (length l) l -> is_heap (init_loop Less i l) /\ init_loop Less i l ≡ₚ l.
Proof.
  revert l. induction i as [|i IH]; intros l Hh; simpl; [split; [by apply heap_from_0|done]|].
  pose proof (down_spec i (length l) i l (le_n _) (le_n _)) as Hd. destruct (down Less l i (length l)) as [l1 mv]. simpl.
  destruct Hd as (H1 & H2 & _ & _).
  { split.
    - intros k Hk Hlo Hp. apply Hh; [done|lia].
    - intros k Hk Hp Hi Hlo. pose proof (parent_lt i Hi). lia. }
  destruct (IH l1) as [H4 H5]; [by rewrite (Permutation_length H2)|]. split; [done|by rewrite H5].
Qed.

Lemma Init_spec l : is_heap (Init Less l) /\ Init Less l ≡ₚ l.
Proof.
  unfold Init. apply init_loop_spec. intros k Hk Hlo.
  pose proof (Nat.div_mod_eq (length l) 2). pose proof (Nat.mod_upper_bound (length l) 2 ltac:(lia)).
  assert (k = 2 * parent k + 1 \/ k = 2 * parent k + 2)%nat by (by apply parent_child; [lia|]). lia.
Qed.

(** The slice after [Remove] exchanged and repaired element [i], before its end is cut. *)
Definition repair (i n : nat) (l : list A) : list A :=
  let '(l, moved) := down Less (Swap i n l) i n in if moved then l else up Less i l i.

#[local] Instance edge_ok_dec l k : Decision (edge_ok l k).
Proof. unfold edge_ok, le. apply _. Defined.

Lemma swapped_children i (l : list A) k : is_heap l -> (1 <= k < length l - 1)%nat -> parent k = i -> (1 <= i)%nat ->
  le (Swap i (length l - 1) l !!! parent i) (Swap i (length l - 1) l !!! k).
Proof.
  intros Hh Hk Hp Hi. pose proof (parent_lt i Hi). pose proof (parent_lt k ltac:(lia)).
  rewrite !Swap_lookup by lia. rewrite !decide_False by lia.
  apply le_trans with (l !!! i); [apply Hh; lia|]. rewrite <- Hp. apply Hh. lia.
Qed.

(** [down] stops at once when the edges below [i] are right. *)
Lemma down_stops i n (s : list A) : (forall k, (1 <= k < n)%nat -> parent k = i -> edge_ok s k) -> down Less s i n = (s, false).
Proof.
  intros Hok. unfold down. destruct n as [|n']; [simpl; by rewrite Nat.ltb_irrefl|]. cbn [down_loop].
  destruct (S n' <=? 2 * i + 1)%nat eqn:E; [by rewrite Nat.ltb_irrefl|]. apply Nat.leb_gt in E. cbv zeta. fold (smaller s i (S n')).
  destruct (smaller_spec s i (S n') E) as (Hj & Hpj & _). specialize (Hok _ Hj Hpj). unfold edge_ok, le in Hok.
  rewrite Hpj in Hok. rewrite Hok. simpl. by rewrite Nat.ltb_irrefl.
Qed.

Lemma repair_spec i l : is_heap l -> (i < length l - 1)%nat ->
  let n := (length l - 1)%nat in
  heap n (repair i n l) /\ repair i n l ≡ₚ l /\ repair i n l !!! n = l !!! i.
Proof.
  intros Hh Hi n. unfold repair. set (s := Swap i n l).
  assert (Hlen : length s = length l) by apply length_Swap.
  assert (Hsp : s ≡ₚ l) by (apply Swap_perm; unfold n; lia).
  assert (Hsn : s !!! n = l !!! i).
  { unfold s. rewrite Swap_lookup by (unfold n; lia). rewrite decide_False by (unfold n; lia). by rewrite decide_True. }
  assert (Hrest : forall k, (1 <= k < n)%nat -> k <> i -> parent k <> i -> edge_ok s k)
    by (intros k Hk Hki Hpi; apply swapped_edges; (done || unfold n in *; lia)).
  pose proof (fun k => swapped_children i l k Hh) as Hch. fold n in Hch. fold s in Hch.
  destruct (decide (i = 0%nat \/ edge_ok s i)) as [Hgood|Hbad].
  - assert (Hdi : down_inv 0 n i s).
    { split; [|intros k Hk Hp H1 _; by apply Hch]. intros k Hk _ Hp. destruct (decide (k = i)) as [->|]; [|by apply Hrest].
      destruct Hgood; [lia|done]. }
    pose proof (down_spec 0 n i s ltac:(unfold n; lia) ltac:(lia) Hdi) as Hd. destruct (down Less s i n) as [l1 mv].
    destruct Hd as (H1%heap_from_0 & H2 & H3 & H4). assert (Hl1n : l1 !!! n = l !!! i) by (rewrite H4 by lia; done).
    destruct mv; [split_and!; [done|by rewrite H2|done]|].
    destruct (up_spec i n i l1) as (H5 & H6 & H7); [rewrite (Permutation_length H2); unfold n; lia|unfold n; lia|lia|by apply heap_up_inv|].
    split_and!; [done|by rewrite H6, H2|]. by rewrite H7.
  - (* the moved element is less than its parent, hence than its children *)
    assert (Hi1 : (1 <= i)%nat) by (destruct (decide (i = 0%nat)); [tauto|lia]).
    assert (Hlt : Less (s !!! i) (s !!! parent i) = true).
    { unfold edge_ok, le in Hbad. destruct (Less _ _); [done|tauto]. }
    assert (Hcl : forall k, (1 <= k < n)%nat -> parent k = i -> edge_ok s k).
    { intros k Hk Hp. unfold edge_ok. rewrite Hp. apply le_trans with (s !!! parent i); [by apply lt_le|]. by apply Hch. }
    rewrite down_stops by done. destruct (up_spec i n i s) as (H5 & H6 & H7); [unfold n; lia|unfold n; lia|lia| |].
    { split; [|intros k Hk Hp _; by apply Hch]. intros k Hk Hki. destruct (decide (parent k = i)); auto. }
    split_and!; [done|by rewrite H6|]. by rewrite H7.
Qed.

Lemma Remove_spec i l : is_heap l -> (i < length l)%nat ->
  exists l', Remove Less i l = Ret (l', l !!! i) /\ l ≡ₚ l !!! i :: l' /\ is_heap l'.
Proof.
  intros Hh Hi. unfold Remove. destruct (length l - 1 =? i)%nat eqn:En.
  - apply Nat.eqb_eq in En. destruct (pop_last_spec l (l !!! i)) as [Hp Hpm]; [lia|by rewrite En|].
    exists (take (length l - 1) l). split_and!; [done|done|]. apply heap_take; [lia|]. intros k Hk. apply Hh. lia.
  - apply Nat.eqb_neq in En. destruct (repair_spec i l Hh ltac:(lia)) as (H1 & H2 & H3). unfold repair in *.
    set (r := let '(l, moved) := _ in _) in *. pose proof (Permutation_length H2) as Hlen.
    destruct (pop_last_spec r (l !!! i)) as [Hp Hpm]; [lia|by rewrite Hlen|].
    exists (take (length r - 1) r). split_and!; [done|by rewrite <- Hpm|]. apply heap_take; [lia|]. by rewrite Hlen.
Qed.

(** The root of a heap exchanged for another element and repaired. *)
Lemma Fix_root_spec x y l : is_heap (x :: l) -> is_heap (Fix Less 0 (y :: l)) /\ Fix Less 0 (y :: l) ≡ₚ y :: l.
Proof.
  intros Hh. unfold Fix. assert (Hdi : down_inv 0 (length (y :: l)) 0 (y :: l)).
  { split; [|intros; lia]. intros k Hk _ Hp. apply (edge_ok_eq (x :: l)); [| |by apply Hh].
    - destruct (parent k) eqn:E; [done|]. done.
    - destruct k; [lia|done]. }
  pose proof (down_spec 0 (length (y :: l)) 0 (y :: l) (le_n _) ltac:(lia) Hdi) as Hd.
  destruct (down Less (y :: l) 0 (length (y :: l))) as [l1 mv]. destruct Hd as (H1%heap_from_0 & H2 & _ & _).
  destruct mv; [by rewrite (Permutation_length H2)|]. simpl. by rewrite (Permutation_length H2).
Qed.

End Props.
End HeapProps.
