(* ===== verification/TxTypes.v ===== *)
(** Transactions ([core/types/transaction.go]): the data, its constructors, what the wire
    encoding keeps of it, and the set the packager draws transactions from by price. *)

From S2P Require Import Prelude Params Bytes Heap.

Module TxTypes.

(** A pointer to an address or a hash: nil, the package's variable for "empty"
    ([EmptyDAppIdHash], [EmptyHash]: zero values), or any other place with its value. The
    code compares such pointers with [==], which tells the last two apart. *)
Inductive ptr := PNil | PEmpty | PTo (v : Z).
#[export] Instance ptr_eq_dec : EqDecision ptr.
Proof. solve_decision. Defined.

Definition ptr_value (p : ptr) : outcome Z :=
  match p with PNil => Panic | PEmpty => Ret 0 | PTo v => Ret v end.

Record txdata := MkTxdata {
  DAppId : ptr; RefHashId : ptr; AccountNonce : Z; Price : Z; GasLimit : Z; Recipient : ptr;
  Amount : Z; Payload : bytes; SigV : Z; SigR : Z; SigS : Z
}.
#[export] Instance txdata_eq_dec : EqDecision txdata.
Proof. solve_decision. Defined.

(** The caches hold what [Hash], [Size] and [types.Sender] return: the hash and the size of
    the encoding, and the sender recovered from the signature, if it is valid. *)
Inductive Transaction := MkTx {
  dappTx : option Transaction; data : txdata; TxHash : Hash; TxSize : Z; TxSender : option Address
}.

#[export] Instance Transaction_eq_dec : EqDecision Transaction.
Proof.
  refine (fix go (x y : Transaction) : Decision (x = y) :=
    match x, y with
    | MkTx d1 a1 h1 s1 f1, MkTx d2 a2 h2 s2 f2 =>
        match decide (a1 = a2), decide (h1 = h2), decide (s1 = s2), decide (f1 = f2) with
        | left _, left _, left _, left _ =>
            match d1, d2 with
            | None, None => left _
            | Some x, Some y => match go x y with left _ => left _ | right _ => right _ end
            | _, _ => right _
            end
        | _, _, _, _ => right _
        end
    end); congruence.
Defined.

Definition nil_data : txdata := MkTxdata PNil PNil 0 0 0 PNil 0 [] 0 0 0.
Definition nil_tx : Transaction := MkTx None nil_data 0 0 None.
#[export] Instance Transaction_inhabited : Inhabited Transaction := populate nil_tx.

Definition Nonce (tx : Transaction) : Z := AccountNonce (data tx).
Definition GasPrice (tx : Transaction) : Z := Price (data tx).
Definition Gas (tx : Transaction) : Z := GasLimit (data tx).
Definition Value (tx : Transaction) : Z := Amount (data tx).

(** [To]: nil also for the pointer to the empty address. *)
Definition To (tx : Transaction) : option Address :=
  match Recipient (data tx) with PTo a => Some a | _ => None end.

(** [Cost]: amount and gas at the gas price. *)
Definition Cost (tx : Transaction) : Z := GasPrice tx * Gas tx + Value tx.

(** [from, _ := types.Sender(signer, tx)]: the zero address if there is none. *)
Definition from_of (tx : Transaction) : Address := default 0 (TxSender tx).

(** ** Constructors *)

Section Create.
(** The hash and the size of an encoding. *)
Context (rlpHash : txdata -> Hash) (encSize : txdata -> Z).

Definition unsigned (d : txdata) : Transaction := MkTx None d (rlpHash d) (encSize d) None.

Definition newDAppTransaction (dappId refHashId : ptr) (nonce gasLimit gasPrice : Z) (data : bytes) : Transaction :=
  unsigned (MkTxdata dappId refHashId nonce gasPrice gasLimit PNil 0 data 0 0 0).

Definition is_dapp (dappId : ptr) : bool :=
  match dappId with PTo v => negb (v =? 0) | _ => false end.

(** The hash of the DApp transaction is taken, and cached, before it refers to the main
    transaction. *)
Definition newTransaction (dappId : ptr) (nonce : Z) (to : ptr) (amount gasLimit gasPrice : Z) (data : bytes) : Transaction :=
  if is_dapp dappId then
    let dapp := newDAppTransaction dappId PEmpty nonce gasLimit gasPrice data in
    let d := MkTxdata dappId PEmpty nonce gasPrice gasLimit to amount (hash_bytes (TxHash dapp)) 0 0 0 in
    let hash := rlpHash d in
    let dd := TxTypes.data dapp in
    let dd := MkTxdata (DAppId dd) (PTo hash) (AccountNonce dd) (Price dd) (GasLimit dd) (Recipient dd)
                (Amount dd) (Payload dd) (SigV dd) (SigR dd) (SigS dd) in
    MkTx (Some (MkTx None dd (TxHash dapp) (encSize dd) None)) d hash (encSize d) None
  else unsigned (MkTxdata PEmpty PEmpty nonce gasPrice gasLimit to amount data 0 0 0).

Definition NewTransaction (nonce : Z) (to : Address) (amount gasLimit gasPrice : Z) (data : bytes) : Transaction :=
  newTransaction PEmpty nonce (PTo to) amount gasLimit gasPrice data.
Definition NewDAppTransaction (dappId : Address) (nonce gasLimit gasPrice : Z) (data : bytes) : Transaction :=
  newTransaction (PTo dappId) nonce PEmpty 0 gasLimit gasPrice data.
Definition NewContractCreation (nonce amount gasLimit gasPrice : Z) (data : bytes) : Transaction :=
  newTransaction PEmpty nonce PNil amount gasLimit gasPrice data.

End Create.

(** ** The wire *)

(** A transaction encoded and decoded again: the pointers are new places, a nil recipient
    stays nil (its field is tagged so), and the DApp transaction stays behind. The other two
    pointers have no encoding the decoder accepts when they are nil. *)
Definition fresh (p : ptr) : option ptr :=
  match p with PNil => None | PEmpty => Some (PTo 0) | PTo v => Some (PTo v) end.

Definition transmit (tx : Transaction) : option Transaction :=
  let d := data tx in
  dappId ← fresh (DAppId d); refHashId ← fresh (RefHashId d);
  Some (MkTx None
    (MkTxdata dappId refHashId (AccountNonce d) (Price d) (GasLimit d) (default PNil (fresh (Recipient d)))
       (Amount d) (Payload d) (SigV d) (SigR d) (SigS d)) (TxHash tx) (TxSize tx) (TxSender tx)).

(** ** Sets of transactions *)

(** [TxDifference]: what of [a] is not in [b], by hash. *)
Definition TxDifference (a b : list Transaction) : list Transaction :=
  let remove := list_to_set (TxHash <$> b) : gset Hash in
  filter (fun tx => TxHash tx ∉ remove) a.

(** [TxByPrice.Less]: the dearer first. *)
Definition byPriceLess (x y : Transaction) : bool := GasPrice y <? GasPrice x.

End TxTypes.

(** ** TransactionsByPriceAndNonce *)

Module TxOrder.
Import TxTypes.

Record PricedSet := MkPricedSet { ptxs : gmap Address (list Transaction); heads : list Transaction }.

(** The loop of the constructor over the accounts in the order the map yields them. *)
Fixpoint heads_loop (order : list Address) (txs : gmap Address (list Transaction)) (heads : list Transaction)
    : outcome (gmap Address (list Transaction) * list Transaction) :=
  match order with
  | [] => Ret (txs, heads)
  | from :: order =>
      match txs !! from with
      | None => heads_loop order txs heads
      | Some [] => Panic
      | Some (tx :: rest) =>
          let acc := from_of tx in
          let txs := <[acc := rest]> txs in
          heads_loop order (if decide (from = acc) then txs else delete from txs) (heads ++ [tx])
      end
  end.

Definition NewTransactionsByPriceAndNonce (order : list Address) (txs : gmap Address (list Transaction)) : outcome PricedSet :=
  '(txs, heads) ← heads_loop order txs [];
  Ret (MkPricedSet txs (Heap.Init byPriceLess heads)).

Definition Peek (t : PricedSet) : option Transaction := head (heads t).

Definition Shift (t : PricedSet) : outcome PricedSet :=
  match heads t with
  | [] => Panic
  | h :: hs =>
      let acc := from_of h in
      match ptxs t !! acc with
      | Some (tx :: rest) => Ret (MkPricedSet (<[acc := rest]> (ptxs t)) (Heap.Fix byPriceLess 0 (tx :: hs)))
      | _ => '(hs, _) ← Heap.Pop byPriceLess (heads t); Ret (MkPricedSet (ptxs t) hs)
      end
  end.

Definition Pop (t : PricedSet) : outcome PricedSet :=
  '(hs, _) ← Heap.Pop byPriceLess (heads t); Ret (MkPricedSet (ptxs t) hs).

End TxOrder.
