(* ===== verification/TxPriced.v ===== *)
(** The price-ordered heap of the pool's transactions ([core/tx_list.go]).

    The heap by price keeps every transaction of the pool it is not asked to give up, and
    gives up the cheapest first. *)

From S2P Require Import Prelude Params Bytes Heap TxTypes.
Import TxTypes.

Module TxPriced.

(** [priceHeap.Less]: cheaper first, and of equal ones the higher nonce. *)
Definition priceLess (x y : Transaction) : bool :=
  match GasPrice x ?= GasPrice y with
  | Lt => true
  | Gt => false
  | Eq => Nonce y <? Nonce x
  end.

(** The pool's map of all transactions is passed to the operations that read it. *)
Record txPricedList := MkPriced { pitems : list Transaction; stales : Z }.
Definition newTxPricedList : txPricedList := MkPriced [] 0.

Definition Put (tx : Transaction) (l : txPricedList) : txPricedList :=
  MkPriced (Heap.Push priceLess tx (pitems l)) (stales l).

(** [order]: the order in which the rebuilding loop meets the map. *)
Definition Removed (order : gmap Hash Transaction -> list (Hash * Transaction)) (all : gmap Hash Transaction)
    (l : txPricedList) : txPricedList :=
  let stales := stales l + 1 in
  if stales <=? len (pitems l) `quot` 4 then MkPriced (pitems l) stales
  else MkPriced (Heap.Init priceLess (order all).*2) 0.

(** [accountSet.containsTx] *)
Definition containsTx (local : gset Address) (tx : Transaction) : bool :=
  match TxSender tx with Some a => bool_decide (a ∈ local) | None => false end.

Definition known (all : gmap Hash Transaction) (tx : Transaction) : bool := bool_decide (is_Some (all !! TxHash tx)).

Definition push_all (save items : list Transaction) : list Transaction :=
  fold_left (fun items tx => Heap.Push priceLess tx items) save items.

(** The loop of [Cap]; the length of the heap bounds its turns. *)
Fixpoint cap_loop (fuel : nat) (threshold : Z) (local : gset Address) (all : gmap Hash Transaction)
    (items : list Transaction) (stales : Z) (drop save : list Transaction)
    : outcome (list Transaction * Z * list Transaction * list Transaction) :=
  match fuel, items with
  | S fuel, _ :: _ =>
      '(items, tx) ← Heap.Pop priceLess items;
      if negb (known all tx) then cap_loop fuel threshold local all items (stales - 1) drop save else
      if threshold <=? GasPrice tx then Ret (items, stales, drop, save ++ [tx]) else
      if containsTx local tx then cap_loop fuel threshold local all items stales drop (save ++ [tx])
      else cap_loop fuel threshold local all items stales (drop ++ [tx]) save
  | _, _ => Ret (items, stales, drop, save)
  end.

Definition Cap (threshold : Z) (local : gset Address) (all : gmap Hash Transaction) (l : txPricedList)
    : outcome (txPricedList * list Transaction) :=
  '(items, stales, drop, save) ← cap_loop (length (pitems l)) threshold local all (pitems l) (stales l) [] [];
  Ret (MkPriced (push_all save items) stales, drop).

Fixpoint clean_loop (fuel : nat) (all : gmap Hash Transaction) (items : list Transaction) (stales : Z)
    : outcome (list Transaction * Z) :=
  match fuel, items with
  | S fuel, head :: _ =>
      if negb (known all head) then
        '(items, _) ← Heap.Pop priceLess items; clean_loop fuel all items (stales - 1)
      else Ret (items, stales)
  | _, _ => Ret (items, stales)
  end.

Definition Underpriced (tx : Transaction) (local : gset Address) (all : gmap Hash Transaction) (l : txPricedList)
    : outcome (txPricedList * bool) :=
  if containsTx local tx then Ret (l, false) else
  '(items, stales) ← clean_loop (length (pitems l)) all (pitems l) (stales l);
  Ret (MkPriced items stales, match items with [] => false | cheapest :: _ => GasPrice tx <=? GasPrice cheapest end).

Fixpoint discard_loop (fuel : nat) (count : Z) (local : gset Address) (all : gmap Hash Transaction)
    (items : list Transaction) (stales : Z) (drop save : list Transaction)
    : outcome (list Transaction * Z * list Transaction * list Transaction) :=
  match fuel, items with
  | S fuel, _ :: _ =>
      if 0 <? count then
        '(items, tx) ← Heap.Pop priceLess items;
        if negb (known all tx) then discard_loop fuel count local all items (stales - 1) drop save else
        if containsTx local tx then discard_loop fuel count local all items stales drop (save ++ [tx])
        else discard_loop fuel (count - 1) local all items stales (drop ++ [tx]) save
      else Ret (items, stales, drop, save)
  | _, _ => Ret (items, stales, drop, save)
  end.

(** A negative [count] panics when the slice of the dropped ones is made. *)
Definition Discard (count : Z) (local : gset Address) (all : gmap Hash Transaction) (l : txPricedList)
    : outcome (txPricedList * list Transaction) :=
  if count <? 0 then Panic else
  '(items, stales, drop, save) ← discard_loop (length (pitems l)) count local all (pitems l) (stales l) [] [];
  Ret (MkPriced (push_all save items) stales, drop).

End TxPriced.

Import TxTypes TxPriced HeapProps.

Module TxPricedProps.

#[export] Instance priceLess_laws : LessLaws priceLess.
Proof.
  split; unfold priceLess.
  - intros x y. destruct (Z.compare_spec (GasPrice x) (GasPrice y)), (Z.compare_spec (GasPrice y) (GasPrice x));
      intros Hl; bool_to_prop; try done; try lia.
  - intros x y z. destruct (Z.compare_spec (GasPrice y) (GasPrice x)), (Z.compare_spec (GasPrice z) (GasPrice y)),
      (Z.compare_spec (GasPrice z) (GasPrice x)); intros; bool_to_prop; try done; try lia; apply Z.ltb_ge; lia.
Qed.

Abbreviation price_heap l := (heap priceLess (length l) l).

Lemma le_price x y : le priceLess x y -> GasPrice x <= GasPrice y.
Proof. unfold le, priceLess. destruct (_ ?= _) eqn:E; [apply Z.compare_eq_iff in E; lia|done|apply Z.compare_gt_iff in E; lia]. Qed.

(** A transaction of the map. *)
Definition mapped (all : gmap Hash Transaction) (tx : Transaction) : Prop := all !! TxHash tx = Some tx.

Lemma Put_spec tx l : price_heap (pitems l) -> price_heap (pitems (Put tx l)) /\ pitems (Put tx l) ≡ₚ tx :: pitems l.
Proof. intros Hh. apply Push_spec, Hh. apply _. Qed.

Definition iterates_all (order : gmap Hash Transaction -> list (Hash * Transaction)) : Prop := forall m, order m ≡ₚ map_to_list m.

(** Nothing that is left in the map is lost. *)
Lemma Removed_spec order all l : iterates_all order -> price_heap (pitems l) ->
  price_heap (pitems (Removed order all l)) /\
  (forall h tx, all !! h = Some tx -> tx ∈ pitems l -> tx ∈ pitems (Removed order all l)).
Proof.
  intros Ho Hh. unfold Removed. destruct (_ <=? _); simpl; [done|].
  destruct (Init_spec priceLess (order all).*2) as [Hi Hp]. split; [done|]. intros h tx Hl _. rewrite Hp, (Ho all).
  apply list_elem_of_fmap. exists (h, tx). split; [done|by apply elem_of_map_to_list].
Qed.

Lemma push_all_spec save items : price_heap items -> price_heap (push_all save items) /\ push_all save items ≡ₚ save ++ items.
Proof.
  unfold push_all. revert items. induction save as [|tx save IH]; intros items Hh; simpl; [done|].
  destruct (Push_spec priceLess tx items Hh) as [H1 H2]. destruct (IH _ H1) as [H3 H4]. split; [done|].
  rewrite H4, H2. symmetry. apply Permutation_middle.
Qed.

(** Popping a heap with something in it. *)
Lemma pop_min x items : price_heap (x :: items) -> exists items', Heap.Pop priceLess (x :: items) = Ret (items', x) /\
  x :: items ≡ₚ x :: items' /\ price_heap items' /\ Forall (fun y => GasPrice x <= GasPrice y) items'.
Proof.
  intros Hh. destruct (Pop_spec priceLess (x :: items) Hh ltac:(done)) as (items' & Hp & Hperm & Hh'). simpl in Hp, Hperm.
  exists items'. split_and!; [done|done|done|]. apply Forall_forall. intros y Hy. apply le_price.
  apply (heap_min priceLess (x :: items) y Hh). rewrite Hperm. by right.
Qed.

Section Loops.
Context (threshold : Z) (local : gset Address) (all : gmap Hash Transaction).

(** The four parts into which a loop sorts the heap: what stays, what is dropped, what is
    saved and what was stale. *)
Record sorted_out (items items' drop' save' : list Transaction) (dropped : Transaction -> Prop) : Prop := {
  so_heap : price_heap items';
  so_parts : exists dead, items ≡ₚ items' ++ drop' ++ save' ++ dead /\ Forall (fun tx => known all tx = false) dead;
  so_drop : Forall (fun tx => known all tx = true /\ containsTx local tx = false /\ dropped tx) drop';
  so_save : Forall (fun tx => containsTx local tx = true \/ ~ dropped tx) save'
}.

Lemma sorted_out_nil dropped items : price_heap items -> sorted_out items items [] [] dropped.
Proof. intros Hh. split; [done| |constructor|constructor]. exists []. by rewrite app_nil_r. Qed.

Lemma sorted_out_dead dropped x items1 items items' d s : x :: items1 ≡ₚ x :: items -> known all x = false ->
  sorted_out items items' d s dropped -> sorted_out (x :: items1) items' d s dropped.
Proof.
  intros Hx Hk [H1 (dead & H2 & H3) H4 H5]. split; try done. exists (x :: dead). split; [|by constructor].
  rewrite Hx, H2, !app_assoc. apply Permutation_middle.
Qed.

Lemma sorted_out_drop (dropped : Transaction -> Prop) x items1 items items' d s : x :: items1 ≡ₚ x :: items ->
  known all x = true -> containsTx local x = false -> dropped x ->
  sorted_out items items' d s dropped -> sorted_out (x :: items1) items' (x :: d) s dropped.
Proof.
  intros Hx Hk Hl Hd [H1 (dead & H2 & H3) H4 H5]. split; try done; [|by constructor]. exists dead. split; [|done].
  rewrite Hx, H2. simpl. apply Permutation_middle.
Qed.

Lemma sorted_out_save (dropped : Transaction -> Prop) x items1 items items' d s : x :: items1 ≡ₚ x :: items ->
  containsTx local x = true \/ ~ dropped x ->
  sorted_out items items' d s dropped -> sorted_out (x :: items1) items' d (x :: s) dropped.
Proof.
  intros Hx Hl [H1 (dead & H2 & H3) H4 H5]. split; try done; [|by constructor]. exists dead. split; [|done].
  rewrite Hx, H2, !(app_assoc items' d). simpl. apply Permutation_middle.
Qed.

Lemma priced_cap_loop_spec fuel items st drop save : (length items <= fuel)%nat -> price_heap items ->
  exists items' st' d s, cap_loop fuel threshold local all items st drop save = Ret (items', st', drop ++ d, save ++ s) /\
    sorted_out items items' d s (fun tx => GasPrice tx < threshold) /\
    Forall (fun tx => threshold <= GasPrice tx) items'.
Proof.
  revert items st drop save. induction fuel as [|fuel IH]; intros items st drop save Hf Hh.
  { assert (items = []) as -> by (destruct items; [done|simpl in Hf; lia]). exists [], st, [], []. simpl. rewrite !app_nil_r.
    split_and!; [done|by apply sorted_out_nil|constructor]. }
  destruct items as [|x items1]; [exists [], st, [], []; simpl; rewrite !app_nil_r; split_and!; [done|by apply sorted_out_nil|constructor]|].
  destruct (pop_min x items1 Hh) as (items & Hp & Hx & Hh' & Hmin). cbn [cap_loop]. rewrite Hp. cbn [mbind outcome_bind].
  assert (Hf' : (length items <= fuel)%nat) by (apply Permutation_length in Hx; simpl in *; lia).
  destruct (known all x) eqn:Ek; simpl.
  2:{ destruct (IH items (st - 1) drop save Hf' Hh') as (items' & st' & d & s & -> & Hs & Hge). exists items', st', d, s.
      split_and!; [done|by eapply sorted_out_dead|done]. }
  destruct (threshold <=? GasPrice x) eqn:Et; bool_to_prop.
  { exists items, st, [], [x]. rewrite app_nil_r. split_and!; [done| |].
    - eapply sorted_out_save; [exact Hx| |by apply sorted_out_nil]. right. lia.
    - eapply Forall_impl; [exact Hmin|]. simpl. lia. }
  destruct (containsTx local x) eqn:El.
  - destruct (IH items st drop (save ++ [x]) Hf' Hh') as (items' & st' & d & s & -> & Hs & Hge).
    exists items', st', d, (x :: s). rewrite <- app_assoc. split_and!; [done| |done]. eapply sorted_out_save; [exact Hx| |exact Hs]. by left.
  - destruct (IH items st (drop ++ [x]) save Hf' Hh') as (items' & st' & d & s & -> & Hs & Hge).
    exists items', st', (x :: d), s. rewrite <- app_assoc. split_and!; [done| |done]. by eapply sorted_out_drop.
Qed.

Lemma discard_loop_spec fuel count items st drop save : (length items <= fuel)%nat -> price_heap items -> 0 <= count ->
  exists items' st' d s, discard_loop fuel count local all items st drop save = Ret (items', st', drop ++ d, save ++ s) /\
    sorted_out items items' d s (fun _ => True) /\
    Forall (fun x => Forall (fun y => GasPrice x <= GasPrice y) items') d /\
    (len d <= count /\ (len d < count -> items' = [])).
Proof.
  revert count items st drop save. induction fuel as [|fuel IH]; intros count items st drop save Hf Hh Hc.
  { assert (items = []) as -> by (destruct items; [done|simpl in Hf; lia]). exists [], st, [], []. simpl. rewrite !app_nil_r.
    split_and!; [done|by apply sorted_out_nil|constructor|by rewrite len_nil|done]. }
  destruct items as [|x items1]; [exists [], st, [], []; simpl; rewrite !app_nil_r, len_nil; split_and!; [done|by apply sorted_out_nil|constructor|done|done]|].
  cbn [discard_loop]. destruct (0 <? count) eqn:Ec; bool_to_prop.
  2:{ exists (x :: items1), st, [], []. rewrite !app_nil_r, len_nil. split_and!; [done|by apply sorted_out_nil|constructor|done|lia]. }
  destruct (pop_min x items1 Hh) as (items & Hp & Hx & Hh' & Hmin). rewrite Hp. cbn [mbind outcome_bind].
  assert (Hf' : (length items <= fuel)%nat) by (apply Permutation_length in Hx; simpl in *; lia).
  destruct (known all x) eqn:Ek; simpl.
  2:{ destruct (IH count items (st - 1) drop save Hf' Hh' Hc) as (items' & st' & d & s & -> & Hs & Hge). exists items', st', d, s.
      split_and!; try tauto. by eapply sorted_out_dead. }
  destruct (containsTx local x) eqn:El.
  - destruct (IH count items st drop (save ++ [x]) Hf' Hh' Hc) as (items' & st' & d & s & -> & Hs & Hge).
    exists items', st', d, (x :: s). rewrite <- app_assoc. split_and!; try tauto. eapply sorted_out_save; [exact Hx| |exact Hs]. by left.
  - destruct (IH (count - 1) items st (drop ++ [x]) save Hf' Hh' ltac:(lia)) as (items' & st' & d & s & -> & Hs & Hge & Hn & Hlt).
    exists items', st', (x :: d), s. rewrite <- app_assoc, len_cons. split_and!; [done|by eapply sorted_out_drop| |lia|intros; apply Hlt; lia].
    constructor; [|done]. destruct Hs as [_ (dead & Hperm & _) _ _]. rewrite Hperm in Hmin. by apply Forall_app in Hmin as [? _].
Qed.

Lemma clean_loop_spec fuel items st : (length items <= fuel)%nat -> price_heap items ->
  exists items' st', clean_loop fuel all items st = Ret (items', st') /\
    sorted_out items items' [] [] (fun _ => True) /\ (forall x r, items' = x :: r -> known all x = true).
Proof.
  revert items st. induction fuel as [|fuel IH]; intros items st Hf Hh.
  { assert (items = []) as -> by (destruct items; [done|simpl in Hf; lia]). exists [], st. split_and!; [done|by apply sorted_out_nil|done]. }
  destruct items as [|x items1]; [exists [], st; split_and!; [done|by apply sorted_out_nil|done]|].
  cbn [clean_loop]. destruct (known all x) eqn:Ek; simpl.
  { exists (x :: items1), st. split_and!; [done|by apply sorted_out_nil|]. by intros y r [= <- <-]. }
  destruct (pop_min x items1 Hh) as (items & Hp & Hx & Hh' & Hmin). rewrite Hp. cbn [mbind outcome_bind].
  destruct (IH items (st - 1)) as (items' & st' & -> & Hs & Hk); [apply Permutation_length in Hx; simpl in *; lia|done|].
  exists items', st'. split_and!; [done|by eapply sorted_out_dead|done].
Qed.

(** What is mapped and in the heap stays there or is dropped. *)
Lemma sorted_out_keeps dropped items items' d s tx : sorted_out items items' d s dropped -> mapped all tx -> tx ∈ items ->
  tx ∈ push_all s items' \/ tx ∈ d.
Proof.
  intros [Hh (dead & Hp & Hdead) _ _] Hm Hin. rewrite Hp, !elem_of_app in Hin. rewrite (proj2 (push_all_spec s items' Hh)), elem_of_app.
  destruct Hin as [?|[?|[?|Hin]]]; [tauto|tauto|tauto|]. rewrite Forall_forall in Hdead. specialize (Hdead tx Hin).
  unfold known, mapped in *. apply bool_decide_eq_false in Hdead. exfalso. apply Hdead. by rewrite Hm.
Qed.

Lemma Cap_spec l : price_heap (pitems l) -> exists l' d, Cap threshold local all l = Ret (l', d) /\ price_heap (pitems l') /\
  (forall tx, mapped all tx -> tx ∈ pitems l -> tx ∈ pitems l' \/ tx ∈ d) /\
  Forall (fun tx => known all tx = true /\ containsTx local tx = false /\ GasPrice tx < threshold) d /\
  (forall tx, mapped all tx -> tx ∈ pitems l -> containsTx local tx = false -> GasPrice tx < threshold -> tx ∈ d).
Proof.
  intros Hh. unfold Cap. destruct (priced_cap_loop_spec (length (pitems l)) (pitems l) (stales l) [] [] (le_n _) Hh) as (items & st & d & s & -> & Hs & Hge).
  simpl. eexists _, d. split; [done|]. simpl. split_and!.
  - apply push_all_spec, Hs.
  - intros tx Hm Hin. by eapply sorted_out_keeps.
  - apply Hs.
  - intros tx Hm Hin Hl Ht. destruct (sorted_out_keeps _ _ _ _ _ tx Hs Hm Hin) as [Hk|?]; [|done]. exfalso.
    rewrite (proj2 (push_all_spec s items (so_heap _ _ _ _ _ Hs))) in Hk. apply elem_of_app in Hk as [Hk|Hk].
    + pose proof (so_save _ _ _ _ _ Hs) as Hsave. rewrite Forall_forall in Hsave. specialize (Hsave tx Hk) as [?|?]; [congruence|done].
    + rewrite Forall_forall in Hge. specialize (Hge tx Hk). lia.
Qed.

Lemma Discard_spec count l : price_heap (pitems l) -> 0 <= count -> exists l' d, Discard count local all l = Ret (l', d) /\
  price_heap (pitems l') /\ (forall tx, mapped all tx -> tx ∈ pitems l -> tx ∈ pitems l' \/ tx ∈ d) /\
  Forall (fun tx => known all tx = true /\ containsTx local tx = false) d /\ len d <= count.
Proof.
  intros Hh Hc. unfold Discard. rewrite (proj2 (Z.ltb_ge _ _) Hc).
  destruct (discard_loop_spec (length (pitems l)) count (pitems l) (stales l) [] [] (le_n _) Hh Hc) as (items & st & d & s & -> & Hs & _ & Hn & _).
  simpl. eexists _, d. split; [done|]. simpl. split_and!.
  - apply push_all_spec, Hs.
  - intros tx Hm Hin. by eapply sorted_out_keeps.
  - eapply Forall_impl; [apply Hs|]. simpl. tauto.
  - done.
Qed.

Lemma Underpriced_spec tx l : price_heap (pitems l) -> exists l' b, Underpriced tx local all l = Ret (l', b) /\
  price_heap (pitems l') /\ (forall y, mapped all y -> y ∈ pitems l -> y ∈ pitems l') /\
  (b = true -> forall y, mapped all y -> y ∈ pitems l -> GasPrice tx <= GasPrice y).
Proof.
  intros Hh. unfold Underpriced. destruct (containsTx local tx); [by eexists _, _|].
  destruct (clean_loop_spec (length (pitems l)) (pitems l) (stales l) (le_n _) Hh) as (items & st & -> & Hs & _). simpl.
  assert (Hkeep : forall y, mapped all y -> y ∈ pitems l -> y ∈ items).
  { intros y Hm Hin. destruct (sorted_out_keeps _ _ _ _ _ y Hs Hm Hin) as [?|Hd]; [done|by apply not_elem_of_nil in Hd]. }
  eexists _, _. split; [done|]. simpl. split_and!; [apply Hs|done|]. intros Hb y Hm Hin. specialize (Hkeep y Hm Hin).
  destruct items as [|c items]; [done|]. apply Z.leb_le in Hb. pose proof (heap_min priceLess _ y (so_heap _ _ _ _ _ Hs) Hkeep) as Hle.
  apply le_price in Hle. simpl in Hle. lia.
Qed.

End Loops.
End TxPricedProps.
