(* ===== verification/Block.v ===== *)
(** Blocks and their bodies ([core/types/block.go], [derive_sha.go], the encoding of
    [core/types/transaction.go]) and their records in the chain database
    ([core/database_util.go]).

    A block holds its transactions and uncles by value.  The hash and the size of a
    transaction are functions of its encoding, its sender one of its signature, which a
    parameter recovers. *)

From S2P Require Import Prelude Params Bytes RlpEncode RlpDecode Trie TrieHasher Consensus Heap TxTypes ChainDb StateDB Receipt.
Import ChainDb Receipt.

Module Block.

Abbreviation Transaction := TxTypes.Transaction.
Abbreviation txdata := TxTypes.txdata.

Record Body := MkBody { bodyTransactions : list Transaction; bodyUncles : list Header }.
Record Block := MkBlock { header : Header; transactions : list Transaction; uncles : list Header }.

Definition NumberU64 (b : Block) : Z := big_Uint64 (Number (header b)).
Definition body_of (b : Block) : Body := MkBody (transactions b) (uncles b).

(** ** The encoding of transactions *)

Definition nil_ok : Rlp.tags := Rlp.Tags true false.

(** The tags [gencodec:nil] of the first two fields are none of the RLP package's. *)
Definition txdata_type : Rlp.typ := Rlp.TStruct
  [(Rlp.TPtr (Rlp.TByteArray 20), Rlp.notags); (Rlp.TPtr (Rlp.TByteArray 32), Rlp.notags); (Rlp.TUint 64, Rlp.notags); (Rlp.TBig, Rlp.notags); (Rlp.TUint 64, Rlp.notags);
   (Rlp.TPtr (Rlp.TByteArray 20), nil_ok); (Rlp.TBig, Rlp.notags); (Rlp.TBytes, Rlp.notags); (Rlp.TBig, Rlp.notags); (Rlp.TBig, Rlp.notags); (Rlp.TBig, Rlp.notags)].

Definition ptr_val (n : nat) (p : TxTypes.ptr) : Rlp.val := Rlp.VPtr
  match p with TxTypes.PNil => None | TxTypes.PEmpty => Some (Rlp.VBytes (be_bytes n 0)) | TxTypes.PTo v => Some (Rlp.VBytes (be_bytes n v)) end.
Definition ptr_of_val (v : Rlp.val) : option TxTypes.ptr :=
  match v with Rlp.VPtr None => Some TxTypes.PNil | Rlp.VPtr (Some (Rlp.VBytes b)) => Some (TxTypes.PTo (be_value b)) | _ => None end.

Definition tx_val (d : txdata) : Rlp.val := Rlp.VList
  [ptr_val 20 (TxTypes.DAppId d); ptr_val 32 (TxTypes.RefHashId d); Rlp.VUint (TxTypes.AccountNonce d); Rlp.VBig (Some (TxTypes.Price d)); Rlp.VUint (TxTypes.GasLimit d);
   ptr_val 20 (TxTypes.Recipient d); Rlp.VBig (Some (TxTypes.Amount d)); Rlp.VBytes (TxTypes.Payload d);
   Rlp.VBig (Some (TxTypes.SigV d)); Rlp.VBig (Some (TxTypes.SigR d)); Rlp.VBig (Some (TxTypes.SigS d))].
Definition tx_of_val (v : Rlp.val) : option txdata :=
  match v with
  | Rlp.VList [id; ref; Rlp.VUint nonce; Rlp.VBig (Some price); Rlp.VUint gas; to; Rlp.VBig (Some amount); Rlp.VBytes payload;
      Rlp.VBig (Some v); Rlp.VBig (Some r); Rlp.VBig (Some s)] =>
      id ← ptr_of_val id; ref ← ptr_of_val ref; to ← ptr_of_val to; Some (TxTypes.MkTxdata id ref nonce price gas to amount payload v r s)
  | _ => None
  end.

Definition EncodeTx (d : txdata) : outcome (Rlp.rlp_error + bytes) := Rlp.EncodeToBytes txdata_type (tx_val d).

(** What [rlp.Encode] wrote, which is nothing on an error. *)
Definition written (r : outcome (Rlp.rlp_error + bytes)) : bytes := match r with Ret (inr b) => b | _ => [] end.

(** ** Blocks on the wire *)

Definition txs_type : Rlp.typ := Rlp.TSlice (Rlp.TPtr txdata_type).
Definition headers_type : Rlp.typ := Rlp.TSlice (Rlp.TPtr header_type).
Definition txs_val (txs : list Transaction) : Rlp.val := Rlp.VList (map (fun tx => Rlp.VPtr (Some (tx_val (TxTypes.data tx)))) txs).
Definition headers_val (hs : list Header) : Rlp.val := Rlp.VList (map (fun h => Rlp.VPtr (Some (header_val h))) hs).

Definition body_type : Rlp.typ := plain [txs_type; headers_type].
Definition body_val (b : Body) : Rlp.val := Rlp.VList [txs_val (bodyTransactions b); headers_val (bodyUncles b)].
Definition EncodeBody (b : Body) : outcome (Rlp.rlp_error + bytes) := Rlp.EncodeToBytes body_type (body_val b).

Definition extblock : Rlp.typ := plain [Rlp.TPtr header_type; txs_type; headers_type].
Definition extblock_val (b : Block) : Rlp.val := Rlp.VList [Rlp.VPtr (Some (header_val (header b))); txs_val (transactions b); headers_val (uncles b)].
Definition EncodeRLP (b : Block) : outcome (Rlp.rlp_error + bytes) := Rlp.EncodeToBytes extblock (extblock_val b).

Section Blocks.
Context (Keccak256 : bytes -> Hash) (Sender : txdata -> option Address).
Abbreviation HeaderHash := (HeaderHash Keccak256).

Definition BlockHash (b : Block) : Hash := HeaderHash (header b).

Definition rlpHash (d : txdata) : Hash := Keccak256 (written (EncodeTx d)).
Definition encSize (d : txdata) : Z := len (written (EncodeTx d)).

(** [Transaction.DecodeRLP] *)
Definition decoded (d : txdata) : Transaction := TxTypes.MkTx None d (rlpHash d) (encSize d) (Sender d).

Definition txs_of_val (v : Rlp.val) : option (list Transaction) :=
  match v with Rlp.VList vs => vs ← pointers vs; ds ← mapM tx_of_val vs; Some (map decoded ds) | _ => None end.
Definition headers_of_val (v : Rlp.val) : option (list Header) :=
  match v with Rlp.VList vs => vs ← pointers vs; mapM header_of_val vs | _ => None end.
Definition body_of_val (v : Rlp.val) : option Body :=
  match v with Rlp.VList [ts; us] => ts ← txs_of_val ts; us ← headers_of_val us; Some (MkBody ts us) | _ => None end.

Definition DecodeRLP (b : bytes) : option Block :=
  match RlpStream.DecodeBytes extblock b with
  | inr (Rlp.VList [Rlp.VPtr (Some h); ts; us]) => h ← header_of_val h; ts ← txs_of_val ts; us ← headers_of_val us; Some (MkBlock h ts us)
  | _ => None
  end.

(** ** Roots *)

Definition uint_type : Rlp.typ := Rlp.TUint 64.

(** The loop of [DeriveSha] over the encodings of the elements.  The trie has no database,
    and no node of it is ever looked for in one. *)
Fixpoint derive (i : Z) (list : list bytes) (t : Trie.Trie) : outcome Trie.Trie :=
  match list with
  | [] => Ret t
  | e :: list =>
      k ← Rlp.EncodeToBytes uint_type (Rlp.VUint i);
      '(t, _) ← Trie.TryUpdate (TrieDb.Node (TrieDb.NewDatabase ∅)) t (match k with inr k => k | inl _ => [] end) e;
      derive (i + 1) list t
  end.
Definition DeriveSha (list : list bytes) : outcome Hash :=
  t ← derive 0 list (Trie.MkTrie None 0 0 0);
  '(_, h) ← TrieHash.Hash_ Keccak256 t;
  Ret h.

(** [Transactions.GetRlp], and [Receipts.GetRlp], which panics on an error. *)
Definition txs_rlp (txs : list Transaction) : list bytes := map (fun tx => written (EncodeTx (TxTypes.data tx))) txs.
Definition receipts_rlp (rs : list Receipt) : outcome (list bytes) :=
  foldr (fun r rest => e ← EncodeReceipt r; match e with inr b => rest ← rest; Ret (b :: rest) | inl _ => Panic end) (Ret []) rs.

Definition CalcUncleHash (us : list Header) : Hash := Keccak256 (written (Rlp.EncodeToBytes headers_type (headers_val us))).

Definition EmptyRootHash : Hash := Trie.emptyRoot.
Definition EmptyUncleHash : Hash := CalcUncleHash [].

Definition with_roots (h : Header) (txHash receiptHash : Hash) (bloom : Z) (uncleHash : Hash) : Header :=
  mkHeader (ParentHash h) uncleHash (Coinbase h) (Root h) txHash receiptHash bloom (Difficulty h) (Number h) (GasLimit h) (GasUsed h) (Time h) (Extra h) (MixDigest h) (Nonce h)
    (Round h) (Round2 h) (PresidentId h) (DAppID h) (DAppMainHash h).

Definition NewBlock (h : Header) (txs : list Transaction) (us : list Header) (rs : list Receipt) : outcome Block :=
  txHash ← match txs with [] => Ret EmptyRootHash | _ => DeriveSha (txs_rlp txs) end;
  '(receiptHash, bloom) ←
    match rs with
    | [] => Ret (EmptyRootHash, Bloom h)
    | _ => l ← receipts_rlp rs; r ← DeriveSha l; b ← CreateBloom Keccak256 rs; Ret (r, b)
    end;
  Ret (MkBlock (with_roots h txHash receiptHash bloom (match us with [] => EmptyUncleHash | _ => CalcUncleHash us end)) txs us).

(** The two comparisons at the end of [ValidateBody] ([core/block_validator.go]). *)
Inductive RootError := ErrUncleRoot | ErrTxRoot.
Definition validate_roots (b : Block) : outcome (option RootError) :=
  if negb (CalcUncleHash (uncles b) =? UncleHash (header b)) then Ret (Some ErrUncleRoot)
  else h ← DeriveSha (txs_rlp (transactions b)); Ret (if negb (h =? TxHash (header b)) then Some ErrTxRoot else None).

Definition NewBlockWithHeader (h : Header) : Block := MkBlock h [] [].
Definition WithBody (b : Block) (txs : list Transaction) (us : list Header) : Block := MkBlock (header b) txs us.
Definition WithSeal (b : Block) (h : Header) : Block := MkBlock h (transactions b) (uncles b).

(** [Block.Transaction] *)
Definition TransactionByHash (b : Block) (hash : Hash) : option Transaction := list_find (fun tx => TxTypes.TxHash tx = hash) (transactions b) ≫= fun r => Some r.2.

(** [AppendTx] on a slice of pointers: a nil slice is replaced by one with a nil pointer. *)
Definition AppendTx (txs : option (list (option Transaction))) (tx : Transaction) : list (option Transaction) := default [None] txs ++ [Some tx].

(** ** The database *)

Definition GetBody (db : DB) (hash : Hash) (number : Z) : option Body :=
  match GetBodyRLP db hash number with
  | [] => None
  | data => match RlpStream.Decode body_type data with inr v => body_of_val v | inl _ => None end
  end.

Definition GetBlock (db : DB) (hash : Hash) (number : Z) : option Block :=
  h ← GetHeader db hash number;
  b ← GetBody db hash number;
  Some (WithBody (NewBlockWithHeader h) (bodyTransactions b) (bodyUncles b)).

Definition WriteBody (db : DB) (hash : Hash) (number : Z) (b : Body) : outcome (Rlp.rlp_error + DB) :=
  r ← EncodeBody b;
  Ret match r with inl e => inl e | inr data => inr (WriteBodyRLP db hash number data) end.

Definition WriteBlock (db : DB) (b : Block) : outcome (Rlp.rlp_error + DB) :=
  r ← WriteBody db (BlockHash b) (NumberU64 b) (body_of b);
  match r with
  | inl e => Ret (inl e)
  | inr db => WriteHeader Keccak256 db (header b)
  end.

Definition WriteBlockReceipts (db : DB) (hash : Hash) (number : Z) (rs : list Receipt) : outcome (Rlp.rlp_error + DB) :=
  r ← EncodeReceipts rs;
  Ret match r with inl e => inl e | inr data => inr (ChainDb.WriteBlockReceipts db hash number data) end.

Definition GetBlockReceipts (db : DB) (hash : Hash) (number : Z) : list Receipt :=
  match get db (receiptsKey hash number) with [] => [] | data => default [] (DecodeReceipts data) end.

(** The entries written before an error stay. *)
Definition WriteTxLookupEntries (db : DB) (b : Block) : outcome (DB * option Rlp.rlp_error) :=
  ChainDb.WriteTxLookupEntries db (BlockHash b) (NumberU64 b) (map TxTypes.TxHash (transactions b)).

Definition oldReceiptsPrefix : bytes := string_bytes "receipts-".
Definition oldTxMetaSuffix : bytes := [1].
Definition decode_lookup (data : bytes) : option (Hash * Z * Z) :=
  match RlpStream.DecodeBytes lookup_type data with inr (Rlp.VList [Rlp.VBytes h; Rlp.VUint n; Rlp.VUint i]) => Some (be_value h, n, i) | _ => None end.

(** The element at an index of type [uint64], guarded by [len <= int(index)]. *)
Definition guarded {A} (l : list A) (i : Z) : outcome (option A) := if len l <=? i64 i then Ret None else x ← deref (l !! Z.to_nat i); Ret (Some x).

Definition no_meta {A} : option A * Hash * Z * Z := (None, 0, 0, 0).

Definition GetTransaction (db : DB) (hash : Hash) : outcome (option Transaction * Hash * Z * Z) :=
  let '(blockHash, blockNumber, txIndex) := GetTxLookupEntry db hash in
  if negb (blockHash =? 0) then
    match GetBody db blockHash blockNumber with
    | None => Ret no_meta
    | Some b => r ← guarded (bodyTransactions b) txIndex; Ret match r with None => no_meta | Some tx => (Some tx, blockHash, blockNumber, txIndex) end
    end
  else
    Ret match get db (hash_bytes hash) with
        | [] => no_meta
        | data =>
            match RlpStream.DecodeBytes txdata_type data with
            | inl _ => no_meta
            | inr v =>
                match get db (hash_bytes hash ++ oldTxMetaSuffix) with
                | [] => no_meta
                | meta => match tx_of_val v, decode_lookup meta with Some d, Some (h, n, i) => (Some (decoded d), h, n, i) | _, _ => no_meta end
                end
            end
        end.

(** An old receipt that does not decode is returned empty, one with bytes after it as it is. *)
Definition GetReceipt (db : DB) (hash : Hash) : outcome (option Receipt * Hash * Z * Z) :=
  let '(blockHash, blockNumber, receiptIndex) := GetTxLookupEntry db hash in
  if negb (blockHash =? 0) then
    r ← guarded (GetBlockReceipts db blockHash blockNumber) receiptIndex;
    Ret match r with None => no_meta | Some rc => (Some rc, blockHash, blockNumber, receiptIndex) end
  else
    Ret match get db (oldReceiptsPrefix ++ hash_bytes hash) with
        | [] => no_meta
        | data =>
            let r := match RlpStream.Decode receiptStorageRLP data with inr v => storage_receipt_of_val v | inl _ => None end in
            (Some (default (MkReceipt [] 0 0 0 [] 0 0 0) r), 0, 0, 0)
        end.

Definition preimagePrefix : bytes := string_bytes "secure-key-".

(** The preimages that are new, in one batch. *)
Definition WritePreimages (db : DB) (preimages : list (Hash * bytes)) : DB :=
  foldl (fun d kv => match db !! (preimagePrefix ++ hash_bytes kv.1) with Some _ => d | None => <[preimagePrefix ++ hash_bytes kv.1 := kv.2]> d end) db preimages.

End Blocks.

End Block.
