(* ===== verification/BlockProps.v ===== *)
(** Blocks, receipts and look-up entries read back as they were written; the roots in a
    header determine the transactions and the uncles. *)

From S2P Require Import Prelude Params Bytes RlpEncode RlpDecode RlpRoundtrip TrieEncoding Trie TrieHasher TrieSpec TrieRefine TrieHashProps TrieClaims Consensus Heap TxTypes ChainDb ChainDbProps StateDB Receipt Block.
Import ChainDb ChainDbProps Receipt ReceiptProps Block.

Module BlockProps.

(** ** Encodings *)

Lemma inr_inj {A B} (x y : B) : (inr x : A + B) = inr y -> x = y.
Proof. by intros [= ->]. Qed.

Lemma encode_bytes t v : RlpCodec.rt_ok t Rlp.notags v -> fits t v ->
  exists b, Rlp.EncodeToBytes t v = Ret (inr b) /\ RlpRef.enc t Rlp.notags v = Ret (inr b) /\ b <> [] /\ is_bytes b /\ RlpStream.DecodeBytes t b = inr v /\ RlpStream.Decode t b = inr v.
Proof.
  intros Hv Hf. destruct (RlpClaims.encode_decode t v Hv) as (b & He & Hne & Hd). destruct (Hd (Hf b He)) as (E1 & E2 & E3). exists b. split; [done|]. split; [done|]. split; [done|]. split; [|done].
  destruct (RlpCodec.rt_all t Rlp.notags v Hv) as (b' & He' & Hg & _). rewrite He in He'. injection He' as <-. by destruct (proj1 (Hg eq_refl) (Hf b He)).
Qed.

Definition ptr_ok (n : nat) (p : TxTypes.ptr) : Prop := match p with TxTypes.PTo v => 0 <= v < 256 ^ Z.of_nat n | _ => False end.

(** A transaction as the decoder makes it. *)
Record tx_ok (d : txdata) : Prop := {
  xo_pointers : ptr_ok 20 (TxTypes.DAppId d) /\ ptr_ok 32 (TxTypes.RefHashId d);
  xo_recipient : TxTypes.Recipient d = TxTypes.PNil \/ ptr_ok 20 (TxTypes.Recipient d);
  xo_words : is_u64 (TxTypes.AccountNonce d) /\ is_u64 (TxTypes.GasLimit d);
  xo_bigs : Forall (fun z => 0 <= z) [TxTypes.Price d; TxTypes.Amount d; TxTypes.SigV d; TxTypes.SigR d; TxTypes.SigS d];
  xo_payload : is_bytes (TxTypes.Payload d);
  xo_size : forall b, RlpRef.enc txdata_type Rlp.notags (tx_val d) = Ret (inr b) -> len b < 2 ^ 60
}.

Lemma ptr_rt_ok n p ts : (1 < n)%nat -> ptr_ok n p -> (Rlp.nilOK ts = true -> n = 20%nat) -> RlpCodec.rt_ok (Rlp.TPtr (Rlp.TByteArray n)) ts (ptr_val n p).
Proof.
  intros Hn Hp Hts. destruct p as [| |v]; [done|done|]. cbn [ptr_val RlpCodec.rt_ok]. split; [by apply array_ok|]. intros E. rewrite (Hts E).
  assert (Hl : forall e, RlpRef.enc (Rlp.TByteArray 20) Rlp.notags (Rlp.VBytes (be_bytes 20 v)) <> Ret (inr [e])).
  { intros e. change (RlpRef.enc _ _ _) with (Ret (inr (RlpRef.enc_str (be_bytes 20 v))) : outcome (Rlp.rlp_error + bytes)). unfold RlpRef.enc_str. cbn [be_bytes]. done. }
  split; apply Hl.
Qed.

Lemma tx_rt_ok d : tx_ok d -> RlpCodec.rt_ok txdata_type Rlp.notags (tx_val d).
Proof.
  intros [[H1 H2] Hr [H3 H4] Hb Hp _]. repeat (apply Forall_cons in Hb as [? Hb]). unfold txdata_type, tx_val. cbn [RlpCodec.rt_ok].
  split; [by apply ptr_rt_ok; [lia|done|]|]. split; [done|]. split; [by apply ptr_rt_ok; [lia|done|]|]. split; [done|].
  split; [by apply word_ok|]. split; [done|]. split; [done|]. split; [done|]. split; [by apply word_ok|]. split; [done|].
  split; [destruct Hr as [->|Hr]; [by split; [|left]|by apply ptr_rt_ok; [lia|done|]]|]. repeat (split; [done|]). done.
Qed.

Lemma ptr_of_ptr_val n p : ptr_ok n p -> ptr_of_val (ptr_val n p) = Some p.
Proof. destruct p as [| |v]; [done|done|]. intros Hv. unfold ptr_of_val, ptr_val. by rewrite be_value_be_bytes, Z.mod_small. Qed.

Lemma tx_of_tx_val d : tx_ok d -> tx_of_val (tx_val d) = Some d.
Proof.
  intros [[H1 H2] Hr _ _ _ _]. unfold tx_of_val, tx_val. rewrite (ptr_of_ptr_val 20 (TxTypes.DAppId d)), (ptr_of_ptr_val 32 (TxTypes.RefHashId d)) by done. cbn [mbind option_bind].
  replace (ptr_of_val (ptr_val 20 (TxTypes.Recipient d))) with (Some (TxTypes.Recipient d)) by (destruct Hr as [->|Hr]; [done|by rewrite ptr_of_ptr_val]). by destruct d.
Qed.

Lemma tx_encode d : tx_ok d -> exists b, EncodeTx d = Ret (inr b) /\ b <> [] /\ is_bytes b /\ len b < 2 ^ 60 /\ RlpStream.DecodeBytes txdata_type b = inr (tx_val d).
Proof.
  intros Hd. destruct (encode_bytes txdata_type (tx_val d) (tx_rt_ok d Hd)) as (b & E & He & Hne & Hb & Hdec & _); [intros b Hb; pose proof (xo_size d Hd b Hb); lia|].
  exists b. split; [done|]. split; [done|]. split; [done|]. split; [by apply (xo_size d Hd)|done].
Qed.

(** *** Look-up entries *)

Lemma header_short small large n : 0 <= n < 2 ^ 56 -> len (RlpRef.header small large n) <= 9.
Proof.
  intros Hn. unfold RlpRef.header. destruct (n <? 56) eqn:E; bool_to_prop; [by vm_compute|]. rewrite len_cons, len_be_bytes. pose proof (RlpEncodeProps.byte_len_le 7 n) as H.
  change (256 ^ Z.of_nat 7) with (2 ^ 56) in H. lia.
Qed.

Lemma enc_str_short b : len b < 2 ^ 56 -> len (RlpRef.enc_str b) <= 9 + len b.
Proof.
  intros Hl. pose proof (len_nonneg b). pose proof (header_short 128 183 (len b) ltac:(lia)) as Hh. unfold RlpRef.enc_str. destruct b as [|x [|y b]]; [by vm_compute| |by rewrite len_app; lia].
  change (len [x]) with 1 in *. destruct (x <=? 127); [done|]. rewrite len_app. change (len [x]) with 1. lia.
Qed.

Lemma word_bytes n : is_u64 n -> len (big_Bytes n) <= 8.
Proof.
  intros Hn. unfold big_Bytes. rewrite len_be_bytes, Z.abs_eq by go_lia. destruct (decide (n = 0)) as [->|]; [by vm_compute|]. pose proof (RlpEncodeProps.byte_len_le 8 n) as H.
  change (256 ^ Z.of_nat 8) with (MaxUint64 + 1) in H. go_lia.
Qed.

Definition decode_entry (data : bytes) : Hash * Z * Z :=
  match data with
  | [] => (0, 0, 0)
  | data => match RlpStream.DecodeBytes lookup_type data with inr (Rlp.VList [Rlp.VBytes h; Rlp.VUint n; Rlp.VUint i]) => (be_value h, n, i) | _ => (0, 0, 0) end
  end.
Lemma decode_entry_get db x : GetTxLookupEntry db x = decode_entry (get db (key (ILookup x))).
Proof. unfold GetTxLookupEntry, decode_entry. cbn [key]. by destruct (get db (lookupKey x)). Qed.

Lemma entry_encode x n i : is_hash x -> is_u64 n -> is_u64 i ->
  exists data, Rlp.EncodeToBytes lookup_type (lookup_val (MkLookup x n i)) = Ret (inr data) /\ decode_entry data = (x, n, i).
Proof.
  intros Hx Hn Hi. destruct (encode_bytes lookup_type (lookup_val (MkLookup x n i))) as (data & E & _ & Hne & _ & Hd & _).
  - unfold lookup_type, lookup_val. cbn [map RlpCodec.rt_ok]. split; [apply (array_ok 32); lia|]. split; [done|]. split; [by apply word_ok|]. split; [done|]. split; [by apply word_ok|]. done.
  - intros b Hb.
    change (RlpRef.enc _ _ _) with (Ret (inr (RlpRef.enc_list (RlpRef.enc_str (hash_bytes x) ++ RlpRef.enc_str (big_Bytes (u64 n)) ++ RlpRef.enc_str (big_Bytes (u64 i)) ++ []))) : outcome (Rlp.rlp_error + bytes)) in Hb.
    rewrite !u64_id in Hb by done. set (c := RlpRef.enc_str (hash_bytes x) ++ RlpRef.enc_str (big_Bytes n) ++ RlpRef.enc_str (big_Bytes i) ++ []) in Hb. apply (f_equal (fun r => match r with Ret (inr e) => len e | _ => 0 end)) in Hb. cbv beta iota in Hb.
    assert (H32 : len (hash_bytes x) = 32) by apply len_be_bytes. pose proof (word_bytes n Hn) as Hwn. pose proof (word_bytes i Hi) as Hwi.
    pose proof (enc_str_short (hash_bytes x) ltac:(lia)). pose proof (enc_str_short (big_Bytes n) ltac:(lia)). pose proof (enc_str_short (big_Bytes i) ltac:(lia)).
    assert (Hc : len c <= 80) by (unfold c; rewrite !len_app, ?len_nil; lia). pose proof (len_nonneg c).
    unfold RlpRef.enc_list in Hb. rewrite len_app in Hb. pose proof (header_short 192 247 (len c) ltac:(lia)). lia.
  - exists data. split; [done|]. unfold decode_entry. destruct data as [|z data]; [done|]. rewrite Hd. unfold lookup_val. cbn [leBlockHash leBlockIndex leIndex]. by rewrite be_value_hash.
Qed.

(** The last position of a hash in a list, counted from [i]. *)
Fixpoint last_at (i : Z) (txs : list Hash) (x : Hash) : option Z :=
  match txs with
  | [] => None
  | tx :: txs => match last_at (i + 1) txs x with Some j => Some j | None => if decide (tx = x) then Some i else None end
  end.

Lemma last_at_spec txs : forall i x, match last_at i txs x with Some j => i <= j < i + len txs /\ txs !! Z.to_nat (j - i) = Some x | None => x ∉ txs end.
Proof.
  induction txs as [|tx txs IH]; intros i x; cbn [last_at]; [by apply not_elem_of_nil|]. specialize (IH (i + 1) x). rewrite len_cons. destruct (last_at (i + 1) txs x) as [j|].
  - destruct IH as [Hj E]. split; [lia|]. replace (Z.to_nat (j - i)) with (S (Z.to_nat (j - (i + 1)))) by lia. done.
  - case_decide as E; [subst; pose proof (len_nonneg txs); split; [lia|by rewrite Z.sub_diag]|]. apply not_elem_of_cons. by split.
Qed.

(** Only entries for the given transactions change. *)
Definition only_lookups (db db' : DB) (txs : list Hash) : Prop := forall i, item_ok i -> (forall x, i = ILookup x -> x ∉ txs) -> db' !! key i = db !! key i.

Lemma write_lookups_spec bh n txs : is_hash bh -> is_u64 n -> Forall is_hash txs -> forall i db, 0 <= i -> i + len txs <= MaxUint64 ->
  exists db', write_lookups bh n i txs db = Ret (db', None) /\ only_lookups db db' txs /\
    forall x, is_hash x -> GetTxLookupEntry db' x = match last_at i txs x with Some j => (bh, n, j) | None => GetTxLookupEntry db x end.
Proof.
  intros Hbh Hn. induction 1 as [|tx txs Htx Htxs IH]; intros i db Hi Hl; cbn [write_lookups last_at]; [by exists db|]. rewrite len_cons in Hl. pose proof (len_nonneg txs).
  destruct (entry_encode bh n i Hbh Hn) as (data & E & Hd); [go_lia|]. rewrite E. cbn [mbind outcome_bind]. destruct (IH (i + 1) (<[lookupKey tx := data]> db)) as (db' & E' & Ho & Hg); [lia|lia|].
  exists db'. split; [done|]. change (lookupKey tx) with (key (ILookup tx)) in *. split.
  - intros j Hj Hne. rewrite Ho; [|done|intros x Ex; specialize (Hne x Ex); by apply not_elem_of_cons in Hne as [_ ?]]. rewrite lookup_insert_ne; [done|]. intros Ek. apply key_inj in Ek; [|done|done]. subst j. by apply (Hne tx eq_refl), elem_of_cons; left.
  - intros x Hx. rewrite Hg by done. destruct (last_at (i + 1) txs x); [done|]. rewrite !decode_entry_get. case_decide as Ed; [subst; by rewrite get_put_same|]. rewrite get_put_other; [done|done|done|congruence].
Qed.

(** *** Receipts *)

Lemma GetBlockReceipts_get db x n : GetBlockReceipts db x n = match get db (key (IReceipts x n)) with [] => [] | data => default [] (DecodeReceipts data) end.
Proof. done. Qed.

Lemma WriteBlockReceipts_spec db x n rs : Forall receipt_ok rs -> fits receipts_type (receipts_val rs) -> is_hash x -> is_u64 n ->
  exists data, Block.WriteBlockReceipts db x n rs = Ret (inr (<[key (IReceipts x n) := data]> db)) /\ GetBlockReceipts (<[key (IReceipts x n) := data]> db) x n = map stored rs.
Proof.
  intros Hrs Hf Hx Hn. destruct (receipts_decode rs Hrs Hf) as (data & E & Hne & Hd). exists data. unfold Block.WriteBlockReceipts. rewrite E. split; [done|].
  rewrite GetBlockReceipts_get, get_put_same. destruct data; [done|]. by rewrite Hd.
Qed.

Section Blocks.
Context (Keccak256 : bytes -> Hash) (Sender : txdata -> option Address).
Abbreviation HeaderHash := (HeaderHash Keccak256).
Abbreviation decoded := (decoded Keccak256 Sender).
Abbreviation BlockHash := (BlockHash Keccak256).
Abbreviation GetBody := (GetBody Keccak256 Sender).
Abbreviation GetBlock := (GetBlock Keccak256 Sender).

Definition transaction_ok (tx : Transaction) : Prop := tx = decoded (TxTypes.data tx) /\ tx_ok (TxTypes.data tx).

Record body_ok (b : Body) : Prop := {
  bo_txs : Forall transaction_ok (bodyTransactions b);
  bo_uncles : Forall header_ok (bodyUncles b);
  bo_size : fits body_type (body_val b)
}.

Record block_ok (b : Block) : Prop := { ko_header : header_ok (header b); ko_body : body_ok (body_of b) }.

Lemma txs_rt_ok txs : Forall transaction_ok txs -> RlpCodec.rt_ok txs_type Rlp.notags (txs_val txs).
Proof. apply (Forall_pointed transaction_ok txdata_type (fun tx => tx_val (TxTypes.data tx))). intros tx [_ H]. by apply tx_rt_ok. Qed.
Lemma headers_rt_ok hs : Forall header_ok hs -> RlpCodec.rt_ok headers_type Rlp.notags (headers_val hs).
Proof. apply (Forall_pointed header_ok header_type header_val). apply header_rt_ok. Qed.

Lemma txs_of_txs_val txs : Forall transaction_ok txs -> txs_of_val Keccak256 Sender (txs_val txs) = Some txs.
Proof.
  intros H. unfold txs_of_val, txs_val. rewrite (pointers_map (fun tx => tx_val (TxTypes.data tx))). cbn [mbind option_bind].
  rewrite (mapM_map (fun tx => tx_val (TxTypes.data tx)) tx_of_val TxTypes.data) by (eapply Forall_impl; [exact H|]; intros tx [_ Htx]; by apply tx_of_tx_val). cbn [mbind option_bind]. f_equal.
  rewrite map_map. induction H as [|tx txs [E _] _ IH]; [done|]. cbn [map]. by rewrite IH, <- E.
Qed.
Lemma headers_of_headers_val hs : Forall header_ok hs -> headers_of_val (headers_val hs) = Some hs.
Proof.
  intros H. unfold headers_of_val, headers_val. rewrite pointers_map. cbn [mbind option_bind]. rewrite (mapM_map header_val header_of_val id); [by rewrite map_id|].
  eapply Forall_impl; [exact H|]. apply header_of_header_val.
Qed.

Lemma body_encode b : body_ok b -> exists data, EncodeBody b = Ret (inr data) /\ data <> [] /\
  (match RlpStream.Decode body_type data with inr v => body_of_val Keccak256 Sender v | inl _ => None end) = Some b.
Proof.
  intros [Ht Hu Hf]. destruct (encode_bytes body_type (body_val b)) as (data & E & _ & Hne & _ & _ & Hd); [|done|].
  { unfold body_type, body_val, plain. cbn [map RlpCodec.rt_ok]. split; [by apply txs_rt_ok|]. split; [done|]. split; [by apply headers_rt_ok|]. done. }
  exists data. split; [done|]. split; [done|]. rewrite Hd. unfold body_of_val, body_val. rewrite txs_of_txs_val by done. cbn [mbind option_bind]. rewrite headers_of_headers_val by done. by destruct b.
Qed.

(** A block encoded for the network decodes to itself. *)
Lemma block_wire b : block_ok b -> fits extblock (extblock_val b) -> exists data, EncodeRLP b = Ret (inr data) /\ DecodeRLP Keccak256 Sender data = Some b.
Proof.
  intros [Hh [Ht Hu _]] Hf. destruct (encode_bytes extblock (extblock_val b)) as (data & E & _ & _ & _ & Hd & _); [|done|].
  { unfold extblock, extblock_val, plain. cbn [map RlpCodec.rt_ok]. split; [by split; [apply header_rt_ok|]|]. split; [done|]. split; [by apply txs_rt_ok|]. split; [done|]. split; [by apply headers_rt_ok|]. done. }
  exists data. split; [done|]. unfold DecodeRLP. rewrite Hd. unfold extblock_val. rewrite header_of_header_val by done. cbn [mbind option_bind].
  rewrite (txs_of_txs_val (transactions b)) by done. cbn [mbind option_bind]. rewrite (headers_of_headers_val (uncles b)) by done. by destruct b.
Qed.

(** ** The database *)

Context (HK : forall b, is_hash (Keccak256 b)).

Definition decode_body (data : bytes) : option Body :=
  match data with [] => None | data => match RlpStream.Decode body_type data with inr v => body_of_val Keccak256 Sender v | inl _ => None end end.
Lemma decode_body_get db x n : GetBody db x n = decode_body (get db (key (IBody x n))).
Proof. unfold Block.GetBody, GetBodyRLP, decode_body. cbn [key]. by destruct (get db (blockBodyKey x n)). Qed.

Lemma GetBody_put db i v x n : item_ok i -> is_hash x -> is_u64 n -> GetBody (<[key i := v]> db) x n = if decide (i = IBody x n) then decode_body v else GetBody db x n.
Proof. intros Hi Hx Hn. rewrite !decode_body_get. case_decide as E; [by rewrite E, get_put_same|by rewrite get_put_other]. Qed.

Lemma block_number b : header_ok (header b) -> NumberU64 b = Number (header b) /\ is_u64 (Number (header b)).
Proof. intros [_ _ Hw _ _ _ _]. repeat (apply Forall_cons in Hw as [? Hw]). unfold NumberU64. by rewrite big_Uint64_id. Qed.

(** [WriteBlock] adds the body and the header. *)
Lemma WriteBlock_spec db b : block_ok b -> exists db1 db', WriteBlock Keccak256 db b = Ret (inr db') /\ WriteHeader Keccak256 db1 (header b) = Ret (inr db') /\ same_headers db db1 /\
  (forall n, is_u64 n -> GetCanonicalHash db1 n = GetCanonicalHash db n) /\
  (forall x n, is_hash x -> is_u64 n -> GetBody db' x n = if decide (x = BlockHash b /\ n = Number (header b)) then Some (body_of b) else GetBody db x n) /\
  (forall i, item_ok i -> i <> IBody (BlockHash b) (Number (header b)) -> i <> IHeader (BlockHash b) (Number (header b)) -> i <> INumber (BlockHash b) -> get db' (key i) = get db (key i)).
Proof using HK.
  intros [Hh Hb]. destruct (block_number b Hh) as [En Hn]. destruct (body_encode _ Hb) as (data & E & Hne & Hd). pose proof (HeaderHash_ok Keccak256 HK (header b)) as Hx.
  unfold Block.WriteBlock, WriteBody. rewrite E, En. cbn [mbind outcome_bind]. unfold WriteBodyRLP. change (blockBodyKey _ _) with (key (IBody (BlockHash b) (Number (header b)))).
  set (db1 := <[key _ := data]> db). destruct (WriteHeader_spec Keccak256 HK db1 (header b) Hh) as (db' & E' & _). exists db1, db'. rewrite E'. split; [done|]. split; [done|].
  split; [by apply put_same_headers|]. split; [intros n Hnn; unfold db1; rewrite GetCanonicalHash_put by done; by rewrite decide_False|].
  assert (G : forall i, item_ok i -> i <> IHeader (BlockHash b) (Number (header b)) -> i <> INumber (BlockHash b) -> get db' (key i) = get db1 (key i)).
  { intros i Hi H1 H2. unfold WriteHeader in E'. destruct (EncodeHeader (header b)) as [[e|h]|]; [done| |done]. cbn [mbind outcome_bind] in E'. injection E' as <-.
    unfold NumberU64 in En. rewrite En. change (numberKey _) with (key (INumber (BlockHash b))). change (headerKey _ _) with (key (IHeader (BlockHash b) (Number (header b)))).
    by rewrite !get_put_other by (done || congruence). }
  split.
  - intros x n Hxx Hnn. rewrite (decode_body_get db'), G, <- decode_body_get by done. unfold db1. rewrite GetBody_put by done. case_decide as Ed.
    + injection Ed as <- <-. rewrite decide_True by done. unfold decode_body. by destruct data.
    + rewrite decide_False; [done|]. intros [-> ->]. done.
  - intros i Hi H1 H2 H3. rewrite G by done. unfold db1. by rewrite get_put_other by (done || congruence).
Qed.

Lemma GetBlock_eq db x n : GetBlock db x n = (h ← GetHeader db x n; b ← GetBody db x n; Some (MkBlock h (bodyTransactions b) (bodyUncles b))).
Proof. done. Qed.

(** ** Roots *)

Definition ikey (i : Z) : bytes := written (Rlp.EncodeToBytes uint_type (Rlp.VUint i)).

Lemma ikey_ok i : is_u64 i -> Rlp.EncodeToBytes uint_type (Rlp.VUint i) = Ret (inr (ikey i)) /\ is_bytes (ikey i) /\ len (ikey i) <= 17 /\ RlpStream.DecodeBytes uint_type (ikey i) = inr (Rlp.VUint i).
Proof.
  intros Hi. assert (He : forall b, RlpRef.enc uint_type Rlp.notags (Rlp.VUint i) = Ret (inr b) -> len b <= 17).
  { intros b Hb. change (RlpRef.enc _ _ _) with (Ret (inr (RlpRef.enc_str (big_Bytes (u64 i)))) : outcome (Rlp.rlp_error + bytes)) in Hb. rewrite u64_id in Hb by done.
    apply (f_equal (fun r => match r with Ret (inr e) => len e | _ => 0 end)) in Hb. cbv beta iota in Hb. pose proof (word_bytes i Hi). pose proof (enc_str_short (big_Bytes i) ltac:(lia)). lia. }
  destruct (encode_bytes uint_type (Rlp.VUint i) (word_ok i Hi)) as (b & E & E' & _ & Hb & Hd & _); [intros b Hb; specialize (He b Hb); lia|].
  unfold ikey. rewrite E. cbn [written]. split; [done|]. split; [done|]. split; [by apply He|done].
Qed.
Lemma ikey_inj i j : is_u64 i -> is_u64 j -> ikey i = ikey j -> i = j.
Proof. intros Hi Hj E. destruct (ikey_ok i Hi) as (_ & _ & _ & H1), (ikey_ok j Hj) as (_ & _ & _ & H2). rewrite E, H2 in H1. by injection H1. Qed.

(** The map that [DeriveSha] hashes. *)
Fixpoint index_map (i : Z) (l : list bytes) (m : gmap bytes bytes) : gmap bytes bytes :=
  match l with [] => m | e :: l => index_map (i + 1) l (<[ikey i := e]> m) end.

Definition elem_ok (e : bytes) : Prop := is_bytes e /\ e <> [] /\ len e < 2 ^ 60.
Definition elems_ok (l : list bytes) : Prop := Forall elem_ok l /\ len l <= MaxUint64.

Lemma index_map_get l : forall i m j, 0 <= i -> i + len l <= MaxUint64 -> is_u64 j ->
  index_map i l m !! ikey j = if decide (i <= j < i + len l) then l !! Z.to_nat (j - i) else m !! ikey j.
Proof.
  induction l as [|e l IH]; intros i m j Hi Hl Hj; cbn [index_map]; [rewrite decide_False; [done|rewrite len_nil; lia]|]. rewrite len_cons in *. pose proof (len_nonneg l).
  rewrite IH by (done || lia). destruct (decide (j = i)) as [->|Hne].
  - rewrite decide_False by lia. rewrite decide_True by lia. rewrite lookup_insert, decide_True by done. by rewrite Z.sub_diag.
  - destruct (decide (i + 1 <= j < i + 1 + len l)).
    + rewrite decide_True by lia. replace (Z.to_nat (j - i)) with (S (Z.to_nat (j - (i + 1)))) by lia. done.
    + rewrite decide_False by lia. rewrite lookup_insert_ne; [done|]. intros E. apply ikey_inj in E; [done|go_lia|done].
Qed.

Lemma index_map_good l : Forall elem_ok l -> forall i m, 0 <= i -> i + len l <= MaxUint64 -> TrieClaims.good_map m -> TrieClaims.good_map (index_map i l m).
Proof.
  induction 1 as [|e l (H1 & H2 & H3) _ IH]; intros i m Hi Hl Hm; [done|]. cbn [index_map]. rewrite len_cons in Hl. pose proof (len_nonneg l). apply IH; [lia|lia|].
  destruct (ikey_ok i) as (_ & K1 & K2 & _); [go_lia|]. apply map_Forall_insert_2; [|done]. split; [done|]. split; [done|]. split; [done|]. split; [lia|done].
Qed.

Lemma index_map_inj l1 l2 : elems_ok l1 -> elems_ok l2 -> index_map 0 l1 ∅ = index_map 0 l2 ∅ -> l1 = l2.
Proof.
  intros [_ H1] [_ H2] E. apply list_eq. intros j. destruct (decide (Z.of_nat j <= MaxUint64)) as [Hj|Hj].
  - assert (Hg : forall l, len l <= MaxUint64 -> index_map 0 l ∅ !! ikey (Z.of_nat j) = l !! j).
    { intros l Hl. rewrite index_map_get by (lia || go_lia). rewrite Z.sub_0_r, Nat2Z.id. case_decide as Ed; [done|]. rewrite lookup_empty. symmetry. apply lookup_ge_None. unfold len in Ed. lia. }
    by rewrite <- (Hg l1), <- (Hg l2), E.
  - rewrite !lookup_ge_None_2; [done|unfold len in *; lia..].
Qed.

Lemma derive_spec l : Forall elem_ok l -> forall i t m, 0 <= i -> i + len l <= MaxUint64 -> TrieClaims.inv Keccak256 [] (TrieDb.NewDatabase ∅) t m ->
  exists t', derive i l t = Ret t' /\ TrieClaims.inv Keccak256 [] (TrieDb.NewDatabase ∅) t' (index_map i l m).
Proof using HK.
  induction 1 as [|e l (H1 & H2 & H3) _ IH]; intros i t m Hi Hl Hinv; cbn [derive index_map]; [by exists t|]. rewrite len_cons in Hl. pose proof (len_nonneg l).
  destruct (ikey_ok i) as (-> & K1 & K2 & _); [go_lia|]. cbn [mbind outcome_bind].
  destruct (TrieClaims.insert_step Keccak256 HK [] (TrieDb.NewDatabase ∅) t m (ikey i) e) as (t1 & E1 & Hi1); [split; [done|split; [done|split; [lia|done]]]|done|done|].
  unfold Trie.TryUpdate. rewrite (proj2 (Z.eqb_neq (len e) 0)) by (intros E; by apply len_0 in E). cbn [negb]. rewrite E1. cbn [mbind outcome_bind]. apply IH; [lia|lia|done].
Qed.

Lemma DeriveSha_spec l : elems_ok l -> DeriveSha Keccak256 l = Ret (TrieClaims.root_hash Keccak256 (index_map 0 l ∅)).
Proof using HK.
  intros [Hl Hlen]. assert (Hfree : TrieClaims.collision_free Keccak256 []) by (split; constructor). unfold DeriveSha.
  destruct (derive_spec l Hl 0 _ _ ltac:(lia) ltac:(lia) (TrieClaims.inv_empty Keccak256 [] Hfree)) as (t & -> & Hi). cbn [mbind outcome_bind].
  destruct (TrieClaims.hash_step Keccak256 HK [] Hfree _ t _ Hi) as (t' & -> & _). done.
Qed.

Lemma txs_rlp_ok txs : Forall transaction_ok txs -> Forall elem_ok (txs_rlp txs).
Proof. intros H. apply Forall_map. eapply Forall_impl; [exact H|]. intros tx [_ Hd]. destruct (tx_encode _ Hd) as (b & E & ? & ? & ? & _). cbn. by rewrite E. Qed.

Lemma txs_rlp_inj t1 t2 : Forall transaction_ok t1 -> Forall transaction_ok t2 -> txs_rlp t1 = txs_rlp t2 -> t1 = t2.
Proof.
  intros H1. revert t2. induction H1 as [|x t1 [Ex Hx] _ IH]; intros [|y t2] H2 E; [done|done|done|]. apply Forall_cons in H2 as [[Ey Hy] H2]. injection E as E E'. f_equal; [|by apply IH].
  destruct (tx_encode _ Hx) as (bx & Ebx & _ & _ & _ & Dx), (tx_encode _ Hy) as (by_ & Eby & _ & _ & _ & Dy). rewrite Ebx, Eby in E. cbn [written] in E. subst by_.
  rewrite Dx in Dy. apply inr_inj, (f_equal tx_of_val) in Dy. rewrite !tx_of_tx_val in Dy by done. injection Dy as Ev. by rewrite Ex, Ey, Ev.
Qed.

(** The node encodings of the trie of a block's transactions. *)
Definition tx_nodes (b : Block) : list bytes := TrieClaims.map_encodings Keccak256 (index_map 0 (txs_rlp (transactions b)) ∅).
Definition uncles_rlp (b : Block) : bytes := written (Rlp.EncodeToBytes headers_type (headers_val (uncles b))).

Definition roots_ok (b : Block) : Prop := validate_roots Keccak256 b = Ret None.

Lemma roots_inj b1 b2 : block_ok b1 -> block_ok b2 -> fits headers_type (headers_val (uncles b1)) -> fits headers_type (headers_val (uncles b2)) ->
  len (transactions b1) <= MaxUint64 -> len (transactions b2) <= MaxUint64 ->
  TrieClaims.collision_free Keccak256 (tx_nodes b1 ++ tx_nodes b2) -> (Keccak256 (uncles_rlp b1) = Keccak256 (uncles_rlp b2) -> uncles_rlp b1 = uncles_rlp b2) ->
  header b1 = header b2 -> roots_ok b1 -> roots_ok b2 -> b1 = b2.
Proof using HK.
  intros [_ [Ht1 Hu1 _]] [_ [Ht2 Hu2 _]] Hf1 Hf2 Hn1 Hn2 Hfree HKu Eh. cbn [body_of bodyTransactions bodyUncles] in *.
  assert (He : forall b, Forall transaction_ok (transactions b) -> len (transactions b) <= MaxUint64 -> elems_ok (txs_rlp (transactions b))).
  { intros b Hb Hn. split; [by apply txs_rlp_ok|]. unfold txs_rlp, len in *. by rewrite length_map. }
  assert (Hr : forall b, Forall transaction_ok (transactions b) -> len (transactions b) <= MaxUint64 -> roots_ok b ->
    Keccak256 (uncles_rlp b) = UncleHash (header b) /\ TrieClaims.root_hash Keccak256 (index_map 0 (txs_rlp (transactions b)) ∅) = TxHash (header b)).
  { intros b Hb Hn. unfold roots_ok, validate_roots. rewrite DeriveSha_spec by auto. cbn [mbind outcome_bind]. fold (uncles_rlp b). unfold CalcUncleHash. fold (uncles_rlp b).
    destruct (Keccak256 _ =? UncleHash _) eqn:E1; [|done]. destruct (_ =? TxHash _) eqn:E2; [|done]. bool_to_prop. done. }
  intros R1 R2. destruct (Hr b1) as [U1 T1]; [done..|]. destruct (Hr b2) as [U2 T2]; [done..|].
  assert (Etx : transactions b1 = transactions b2).
  { apply txs_rlp_inj; [done|done|]. apply index_map_inj; [by apply He..|]. apply (TrieClaims.root_hash_inj Keccak256); [done| | |done|congruence].
    - apply index_map_good; [by apply txs_rlp_ok|lia|by apply (He b1)|apply map_Forall_empty].
    - apply index_map_good; [by apply txs_rlp_ok|lia|by apply (He b2)|apply map_Forall_empty]. }
  assert (Eu : uncles b1 = uncles b2).
  { assert (E : uncles_rlp b1 = uncles_rlp b2) by (apply HKu; congruence). unfold uncles_rlp in E.
    destruct (encode_bytes headers_type (headers_val (uncles b1))) as (x1 & E1 & _ & _ & _ & D1 & _); [by apply headers_rt_ok|done|].
    destruct (encode_bytes headers_type (headers_val (uncles b2))) as (x2 & E2 & _ & _ & _ & D2 & _); [by apply headers_rt_ok|done|].
    rewrite E1, E2 in E. cbn [written] in E. subst x2. rewrite D1 in D2. apply inr_inj, (f_equal headers_of_val) in D2.
    rewrite !headers_of_headers_val in D2 by done. by injection D2. }
  destruct b1, b2; cbn in *. congruence.
Qed.

(** [NewBlock] makes blocks that pass the comparisons. *)
Lemma receipts_rlp_ok rs : Forall receipt_ok rs -> Forall (fun r => forall b, RlpRef.enc receiptRLP Rlp.notags (receipt_val r) = Ret (inr b) -> len b < 2 ^ 60) rs ->
  exists l, receipts_rlp rs = Ret l /\ Forall elem_ok l /\ length l = length rs.
Proof.
  intros Hr Hs. induction Hr as [|r rs Hr _ IH]; [by exists []|]. apply Forall_cons in Hs as [Hs1 Hs]. destruct (IH Hs) as (l & E & Hl & Hlen).
  destruct (encode_bytes receiptRLP (receipt_val r) (receipt_rt_ok r Hr)) as (b & Eb & He & Hne & Hb & _); [intros b Hb; specialize (Hs1 b Hb); lia|].
  exists (b :: l). unfold receipts_rlp in *. cbn [foldr]. rewrite E. unfold EncodeReceipt. rewrite Eb. split; [done|]. split; [|cbn; lia].
  constructor; [|done]. split; [done|]. split; [done|]. by apply Hs1.
Qed.

Lemma DeriveSha_nil : DeriveSha Keccak256 [] = Ret EmptyRootHash.
Proof. unfold DeriveSha. cbn [derive mbind outcome_bind]. unfold TrieHash.Hash_, TrieHash.hashRoot. cbn [Trie.root mbind outcome_bind TrieHash.asHash]. by rewrite TrieClaims.emptyRoot_bytes. Qed.

Lemma NewBlock_roots h txs us rs : Forall transaction_ok txs -> len txs <= MaxUint64 -> Forall receipt_ok rs -> len rs <= MaxUint64 ->
  Forall (fun r => forall b, RlpRef.enc receiptRLP Rlp.notags (receipt_val r) = Ret (inr b) -> len b < 2 ^ 60) rs ->
  exists b, NewBlock Keccak256 h txs us rs = Ret b /\ transactions b = txs /\ uncles b = us /\ roots_ok b.
Proof using HK.
  intros Ht Hn Hr Hnr Hs. assert (Hd : exists x, DeriveSha Keccak256 (txs_rlp txs) = Ret x /\ match txs with [] => Ret EmptyRootHash | _ => DeriveSha Keccak256 (txs_rlp txs) end = Ret x).
  { destruct txs as [|tx txs]; [exists EmptyRootHash; split; [apply DeriveSha_nil|done]|]. eexists. rewrite DeriveSha_spec; [done|]. split; [by apply txs_rlp_ok|]. unfold txs_rlp, len in *. by rewrite length_map. }
  destruct Hd as (x & E1 & E2). unfold NewBlock. rewrite E2. cbn [mbind outcome_bind].
  assert (Hrc : exists y, match rs with [] => Ret (EmptyRootHash, Bloom h) | _ => l ← receipts_rlp rs; r ← DeriveSha Keccak256 l; b ← CreateBloom Keccak256 rs; Ret (r, b) end = Ret y).
  { destruct rs as [|r rs]; [by eexists|]. destruct (receipts_rlp_ok (r :: rs) Hr Hs) as (l & -> & Hl & Hlen). cbn [mbind outcome_bind]. rewrite DeriveSha_spec by (split; [done|unfold len in *; lia]). cbn [mbind outcome_bind].
    assert (Hb : exists bl, CreateBloom Keccak256 (r :: rs) = Ret bl); [|destruct Hb as [bl ->]; by eexists]. eexists. apply CreateBloom_value. }
  destruct Hrc as ([rh bl] & ->). cbn [mbind outcome_bind]. eexists. split; [done|]. cbn [transactions uncles]. split; [done|]. split; [done|].
  unfold roots_ok, validate_roots. cbn [transactions uncles header with_roots UncleHash TxHash]. rewrite E1. cbn [mbind outcome_bind]. rewrite Z.eqb_refl.
  replace (match us with [] => EmptyUncleHash Keccak256 | _ :: _ => CalcUncleHash Keccak256 us end) with (CalcUncleHash Keccak256 us) by (by destruct us). by rewrite Z.eqb_refl.
Qed.

End Blocks.

End BlockProps.
