(* ===== verification/BlockChain.v ===== *)
(** The block chain ([core/blockchain.go]) and the block validator
    ([core/block_validator.go]): heads, caches, insertion of blocks, fork choice,
    reorganisation, rewinding, and the collection of tries.

    The header chain holds the database.  The world state, its tries and the execution of
    transactions are interfaces ([StateOps], [Process]); the engine's verdicts, the clock,
    the interrupt flag and the coin are functions of a counter of the questions asked so
    far.  The mutexes serialise the operations; a second lock of the same mutex never
    returns, which is a panic here. Events are appended to [feed] as they are sent. *)

From S2P Require Import Prelude Params Bytes Cache RlpEncode RlpDecode Trie Consensus Heap TxTypes ChainDb HeaderChain Queue StateDB Receipt Block.
Import ChainDb HeaderChain Receipt Block.

(** A cache with removal and a list of its keys, oldest first. *)
Class LruOps (C : Type -> Type) := {
  lru_cache :: forall V, CacheOps (C V) V;
  lru_Remove : forall V, C V -> Hash -> C V;
  lru_Keys : forall V, C V -> list Hash;
  lru_Peek : forall V, C V -> Hash -> option V
}.
Arguments lru_Remove {_ _ V}.
Arguments lru_Keys {_ _ V}.
Arguments lru_Peek {_ _ V}.

(** The state cache [S] with its trie database, and states [St]. *)
Class StateOps (S St : Type) := {
  state_New : S -> Hash -> Error + St;
  trie_NewSecure : S -> Hash -> option Error;
  state_Commit : St -> S -> S * (Error + Hash);
  state_Root : St -> Hash;
  state_Preimages : St -> list (Hash * bytes);
  trie_Commit : S -> Hash -> S * option Error;
  trie_Reference : S -> Hash -> S;
  trie_Dereference : S -> Hash -> S;
  trie_Size : S -> Z
}.

Module BlockChain.

Inductive Event :=
| EChain (b : Block) (hash : Hash) (logs : list Log) | EHead (b : Block) | ESide (b : Block) | ERemovedLogs (logs : list Log) | ELogs (logs : list Log).

(** The errors of package [core] are values of their own: [errors.New] in [core/error.go]
    and in [consensus/errors.go] makes different values for the same text. *)
Inductive InsertError :=
| ErrKnownBlock | ErrUnknownAncestor | ErrPrunedAncestor | ErrFutureBlock
| ErrConsensus (e : VerifyError) | ErrUncles (e : Error) | ErrRoots (e : RootError)
| ErrGasUsed | ErrBloom | ErrReceiptRoot | ErrStateRoot
| ErrState (e : Error) | ErrProcess (e : Error) | ErrRlp (e : Rlp.rlp_error)
| ErrOldChain | ErrNewChain | ErrNonContiguousBlocks | ErrTooFarAhead | ErrReceiptCount | ErrHeaderUnknown | ErrNoBlock | ErrGenesisMissing.

Definition triesInMemory : Z := 128.
Definition maxTimeFutureBlocks : Z := 30.

(** [float32(n)] of a [uint64]: rounded to 24 bits, to even. *)
Definition float32 (z : Z) : Z :=
  if z <? 2 ^ 24 then z
  else
    let e := Z.log2 z - 23 in
    let q := z / 2 ^ e in
    let r := z mod 2 ^ e in
    (q + (if (2 ^ (e - 1) <? r) || (r =? 2 ^ (e - 1)) && Z.odd q then 1 else 0)) * 2 ^ e.

Record BlockChain {C : Type -> Type} {S Q : Type} := MkBc {
  hc : HeaderChain (C Header) (C Z) (C Z);
  genesisBlock : Block;
  currentBlock : option (option Block);
  currentFastBlock : option (option Block);
  bodyCache : C Body;
  bodyRLPCache : C bytes;
  blockCache : C Block;
  futureBlocks : C Block;
  badBlocks : C Header;
  stateCache : S;
  triegc : Q;
  gcproc : Z;
  lastWrite : Z;
  feed : list Event;
  tick : nat
}.
Arguments BlockChain : clear implicits.
Arguments MkBc {_ _ _}.

(** What lies outside: the configuration of the caches, and what is asked of the world. *)
Record World := MkWorld {
  archive : bool;
  TrieNodeLimit : Z;
  TrieTimeLimit : Z;
  coin : nat -> bool;
  interrupted : nat -> bool;
  now : nat -> Z;
  proctime : nat -> Z;
  VerifyHeaders : nat -> list Header -> list (option VerifyError);
  VerifyUncles : nat -> Block -> option Error
}.

Section Chain.
Context {C : Type -> Type} {S Q St : Type} {lru : LruOps C} {state_ops : StateOps S St} {pq : PrqueOps Q (Hash * Z)}.
Context (Keccak256 : bytes -> Hash) (Sender : txdata -> option Address) (world : World).
Context (Process : Block -> St -> St * (Error + (list Receipt * list Log * Z))).

Abbreviation bc := (BlockChain C S Q).
Abbreviation M := (SM bc).
Abbreviation HeaderHash := (HeaderHash Keccak256).
Abbreviation BlockHash := (BlockHash Keccak256).

Definition with_hc x (b : bc) : bc := MkBc x (genesisBlock b) (currentBlock b) (currentFastBlock b) (bodyCache b) (bodyRLPCache b) (blockCache b) (futureBlocks b) (badBlocks b) (stateCache b) (triegc b) (gcproc b) (lastWrite b) (feed b) (tick b).
Definition with_genesis x (b : bc) : bc := MkBc (hc b) x (currentBlock b) (currentFastBlock b) (bodyCache b) (bodyRLPCache b) (blockCache b) (futureBlocks b) (badBlocks b) (stateCache b) (triegc b) (gcproc b) (lastWrite b) (feed b) (tick b).
Definition with_block x (b : bc) : bc := MkBc (hc b) (genesisBlock b) (Some x) (currentFastBlock b) (bodyCache b) (bodyRLPCache b) (blockCache b) (futureBlocks b) (badBlocks b) (stateCache b) (triegc b) (gcproc b) (lastWrite b) (feed b) (tick b).
Definition with_fast x (b : bc) : bc := MkBc (hc b) (genesisBlock b) (currentBlock b) (Some x) (bodyCache b) (bodyRLPCache b) (blockCache b) (futureBlocks b) (badBlocks b) (stateCache b) (triegc b) (gcproc b) (lastWrite b) (feed b) (tick b).
Definition with_bodies x (b : bc) : bc := MkBc (hc b) (genesisBlock b) (currentBlock b) (currentFastBlock b) x (bodyRLPCache b) (blockCache b) (futureBlocks b) (badBlocks b) (stateCache b) (triegc b) (gcproc b) (lastWrite b) (feed b) (tick b).
Definition with_rlps x (b : bc) : bc := MkBc (hc b) (genesisBlock b) (currentBlock b) (currentFastBlock b) (bodyCache b) x (blockCache b) (futureBlocks b) (badBlocks b) (stateCache b) (triegc b) (gcproc b) (lastWrite b) (feed b) (tick b).
Definition with_blocks x (b : bc) : bc := MkBc (hc b) (genesisBlock b) (currentBlock b) (currentFastBlock b) (bodyCache b) (bodyRLPCache b) x (futureBlocks b) (badBlocks b) (stateCache b) (triegc b) (gcproc b) (lastWrite b) (feed b) (tick b).
Definition with_future x (b : bc) : bc := MkBc (hc b) (genesisBlock b) (currentBlock b) (currentFastBlock b) (bodyCache b) (bodyRLPCache b) (blockCache b) x (badBlocks b) (stateCache b) (triegc b) (gcproc b) (lastWrite b) (feed b) (tick b).
Definition with_bad x (b : bc) : bc := MkBc (hc b) (genesisBlock b) (currentBlock b) (currentFastBlock b) (bodyCache b) (bodyRLPCache b) (blockCache b) (futureBlocks b) x (stateCache b) (triegc b) (gcproc b) (lastWrite b) (feed b) (tick b).
Definition with_state x (b : bc) : bc := MkBc (hc b) (genesisBlock b) (currentBlock b) (currentFastBlock b) (bodyCache b) (bodyRLPCache b) (blockCache b) (futureBlocks b) (badBlocks b) x (triegc b) (gcproc b) (lastWrite b) (feed b) (tick b).
Definition with_gc x g l (b : bc) : bc := MkBc (hc b) (genesisBlock b) (currentBlock b) (currentFastBlock b) (bodyCache b) (bodyRLPCache b) (blockCache b) (futureBlocks b) (badBlocks b) (stateCache b) x g l (feed b) (tick b).
Definition with_feed x t (b : bc) : bc := MkBc (hc b) (genesisBlock b) (currentBlock b) (currentFastBlock b) (bodyCache b) (bodyRLPCache b) (blockCache b) (futureBlocks b) (badBlocks b) (stateCache b) (triegc b) (gcproc b) (lastWrite b) x t.

(** A step of the header chain; the database; the world. *)
Definition on_hc {A} (m : SM (HeaderChain (C Header) (C Z) (C Z)) A) : M A := fun b => '(h, x) ← m (hc b); Ret (with_hc h b, x).
Definition db (b : bc) : DB := chainDb (hc b).
Definition set_db (d : DB) : M unit := modify (fun b => with_hc (HeaderChain.with_db d (hc b)) b).
Definition update_db (f : DB -> DB) : M unit := d ← gets db; set_db (f d).
Definition ask {A} (f : World -> nat -> A) : M A := fun b => Ret (with_feed (feed b) (Datatypes.S (tick b)) b, f world (tick b)).
Definition send (es : list Event) : M unit := modify (fun b => with_feed (feed b ++ es) (tick b) b).

(** The atomic values: the type assertion on what was loaded panics before the first store. *)
Definition CurrentBlock : M (option Block) := b ← gets currentBlock; lift (deref b).
Definition CurrentFastBlock : M (option Block) := b ← gets currentFastBlock; lift (deref b).
Definition the {A} (p : option A) : M A := lift (deref p).

(** ** Reading *)

Definition GetBody (hash : Hash) : M (option Body) :=
  '(x, r) ← gets (fun b => cache_Get (bodyCache b) hash);
  _ ← modify (with_bodies x);
  match r with
  | Some body => mret (Some body)
  | None =>
      number ← on_hc (GetBlockNumber hash);
      d ← gets db;
      match Block.GetBody Keccak256 Sender d hash number with
      | None => mret None
      | Some body => _ ← modify (fun b => with_bodies (cache_Add (bodyCache b) hash body) b); mret (Some body)
      end
  end.

Definition GetBodyRLP (hash : Hash) : M bytes :=
  '(x, r) ← gets (fun b => cache_Get (bodyRLPCache b) hash);
  _ ← modify (with_rlps x);
  match r with
  | Some body => mret body
  | None =>
      number ← on_hc (GetBlockNumber hash);
      d ← gets db;
      match ChainDb.GetBodyRLP d hash number with
      | [] => mret []
      | body => _ ← modify (fun b => with_rlps (cache_Add (bodyRLPCache b) hash body) b); mret body
      end
  end.

Definition HasBlock (hash : Hash) (number : Z) : M bool :=
  gets (fun b => cache_Contains (blockCache b) hash || bool_decide (is_Some (db b !! blockBodyKey hash number))).

Definition has_state (s : S) (root : Hash) : bool := match state_New s root with inr _ => true | inl _ => false end.
Definition HasState (root : Hash) : M bool := gets (fun b => has_state (stateCache b) root).

Definition GetBlock (hash : Hash) (number : Z) : M (option Block) :=
  '(x, r) ← gets (fun b => cache_Get (blockCache b) hash);
  _ ← modify (with_blocks x);
  match r with
  | Some block => mret (Some block)
  | None =>
      d ← gets db;
      match Block.GetBlock Keccak256 Sender d hash number with
      | None => mret None
      | Some block => _ ← modify (fun b => with_blocks (cache_Add (blockCache b) (BlockHash block) block) b); mret (Some block)
      end
  end.

Definition HasBlockAndState (hash : Hash) (number : Z) : M bool :=
  block ← GetBlock hash number;
  match block with None => mret false | Some block => HasState (Root (header block)) end.

Definition GetBlockByHash (hash : Hash) : M (option Block) := number ← on_hc (GetBlockNumber hash); GetBlock hash number.
Definition GetBlockByNumber (number : Z) : M (option Block) :=
  d ← gets db;
  let hash := GetCanonicalHash d number in
  if hash =? 0 then mret None else GetBlock hash number.
Definition GetReceiptsByHash (hash : Hash) : M (list Receipt) :=
  d ← gets db; n ← lift (ChainDb.GetBlockNumber d hash); mret (GetBlockReceipts d hash n).

(** The parent, as several loops look it up. *)
Definition parent (b : Block) : M (option Block) := GetBlock (ParentHash (header b)) (u64 (NumberU64 b - 1)).

Fixpoint blocks_from (n : nat) (hash : Hash) (number : Z) : M (list Block) :=
  match n with
  | O => mret []
  | Datatypes.S n =>
      block ← GetBlock hash number;
      match block with
      | None => mret []
      | Some b => rest ← blocks_from n (ParentHash (header b)) (u64 (number - 1)); mret (b :: rest)
      end
  end.
Definition GetBlocksFromHash (hash : Hash) (n : nat) : M (list Block) := number ← on_hc (GetBlockNumber hash); blocks_from n hash number.

Fixpoint GetUnclesInChain (block : option Block) (length : nat) : M (list Header) :=
  match length, block with
  | Datatypes.S length, Some b => p ← parent b; rest ← GetUnclesInChain p length; mret (uncles b ++ rest)
  | _, _ => mret []
  end.

(** ** Heads *)

Definition insert (block : Block) : M unit :=
  d ← gets db;
  let updateHeads := negb (GetCanonicalHash d (NumberU64 block) =? BlockHash block) in
  _ ← update_db (fun d => WriteCanonicalHash d (BlockHash block) (NumberU64 block));
  _ ← update_db (fun d => WriteHeadBlockHash d (BlockHash block));
  _ ← modify (with_block (Some block));
  if updateHeads then
    _ ← on_hc (SetCurrentHeader Keccak256 (header block));
    _ ← update_db (fun d => WriteHeadFastBlockHash d (BlockHash block));
    modify (with_fast (Some block))
  else mret tt.

(** [repair]: back to a block with a state; a missing one is dereferenced. *)
Fixpoint repair (fuel : nat) (head : option Block) : M Block :=
  match fuel with
  | O => panic
  | Datatypes.S fuel =>
      head ← the head;
      ok ← HasState (Root (header head));
      if ok : bool then mret head else p ← parent head; repair fuel p
  end.

(** [loadLastState], with what [Reset] does when it is called. *)
Definition load_last_state (Reset : M (option InsertError)) : M (option InsertError) :=
  d ← gets db;
  let head := GetHeadBlockHash d in
  if head =? 0 then Reset
  else
    current ← GetBlockByHash head;
    match current with
    | None => Reset
    | Some current =>
        ok ← HasState (Root (header current));
        current ← (if ok : bool then mret current else repair (Datatypes.S (Z.to_nat (NumberU64 current))) (Some current));
        _ ← modify (with_block (Some current));
        d ← gets db;
        let headHeader := GetHeadHeaderHash d in
        currentHeader ←
          (if headHeader =? 0 then mret (header current)
           else h ← on_hc (GetHeaderByHash headHeader); mret (default (header current) h));
        _ ← on_hc (SetCurrentHeader Keccak256 currentHeader);
        _ ← modify (with_fast (Some current));
        d ← gets db;
        let headFast := GetHeadFastBlockHash d in
        _ ← (if headFast =? 0 then mret tt
             else fast ← GetBlockByHash headFast; match fast with Some b => modify (with_fast (Some b)) | None => mret tt end);
        fast ← CurrentFastBlock;
        fast ← the fast;
        _ ← on_hc (GetTd (HeaderHash currentHeader) (big_Uint64 (Number currentHeader)));
        _ ← on_hc (GetTd (BlockHash current) (NumberU64 current));
        _ ← on_hc (GetTd (BlockHash fast) (NumberU64 fast));
        mret None
    end.

(** [SetHead] holds the mutex while it reloads the state, and [Reset] locks it again. *)
Definition SetHead (head : Z) : M (option InsertError) :=
  _ ← on_hc (HeaderChain.SetHead Keccak256 head (Some (fun hash num d => DeleteBody d hash num)));
  currentHeader ← on_hc CurrentHeader;
  _ ← modify (fun b => with_bodies (cache_Purge (bodyCache b)) (with_rlps (cache_Purge (bodyRLPCache b)) (with_blocks (cache_Purge (blockCache b)) (with_future (cache_Purge (futureBlocks b)) b))));
  let number := big_Uint64 (Number currentHeader) in
  current ← CurrentBlock;
  _ ← match current with
      | Some b => if number <? NumberU64 b then p ← GetBlock (HeaderHash currentHeader) number; modify (with_block p) else mret tt
      | None => mret tt
      end;
  current ← CurrentBlock;
  _ ← match current with
      | Some b => ok ← HasState (Root (header b)); if ok : bool then mret tt else modify (fun b => with_block (Some (genesisBlock b)) b)
      | None => mret tt
      end;
  fast ← CurrentFastBlock;
  _ ← match fast with
      | Some b => if number <? NumberU64 b then p ← GetBlock (HeaderHash currentHeader) number; modify (with_fast p) else mret tt
      | None => mret tt
      end;
  current ← CurrentBlock;
  _ ← match current with None => modify (fun b => with_block (Some (genesisBlock b)) b) | Some _ => mret tt end;
  fast ← CurrentFastBlock;
  _ ← match fast with None => modify (fun b => with_fast (Some (genesisBlock b)) b) | Some _ => mret tt end;
  current ← CurrentBlock;
  current ← the current;
  fast ← CurrentFastBlock;
  fast ← the fast;
  _ ← update_db (fun d => WriteHeadBlockHash d (BlockHash current));
  _ ← update_db (fun d => WriteHeadFastBlockHash d (BlockHash fast));
  load_last_state panic.

Definition ResetWithGenesisBlock (genesis : Block) : M (option InsertError) :=
  err ← SetHead 0;
  match err with
  | Some e => mret (Some e)
  | None =>
      e ← on_hc (WriteTd (BlockHash genesis) (NumberU64 genesis) (Difficulty (header genesis)));
      match e with
      | Some _ => panic
      | None =>
          d ← gets db;
          r ← lift (WriteBlock Keccak256 d genesis);
          match r with
          | inl _ => panic
          | inr d =>
              _ ← set_db d;
              _ ← modify (with_genesis genesis);
              _ ← insert genesis;
              _ ← modify (with_block (Some genesis));
              _ ← on_hc (SetGenesis (header genesis));
              _ ← on_hc (SetCurrentHeader Keccak256 (header genesis));
              _ ← modify (with_fast (Some genesis));
              mret None
          end
      end
  end.
Definition Reset : M (option InsertError) := g ← gets genesisBlock; ResetWithGenesisBlock g.
Definition loadLastState : M (option InsertError) := load_last_state Reset.

Definition FastSyncCommitHead (hash : Hash) : M (option InsertError) :=
  block ← GetBlockByHash hash;
  match block with
  | None => mret (Some ErrNoBlock)
  | Some block =>
      s ← gets stateCache;
      match trie_NewSecure s (Root (header block)) with
      | Some e => mret (Some (ErrState e))
      | None => _ ← modify (with_block (Some block)); mret None
      end
  end.

(** ** Reorganisation *)

Definition collectLogs (h : Hash) : M (list Log) :=
  number ← on_hc (GetBlockNumber h);
  d ← gets db;
  let removed l := State.MkLog (State.LogAddress l) (State.Topics l) (State.Data l) (State.BlockNumber l) (State.TxHash l) (State.TxIndex l) (State.BlockHash l) (State.Index l) true in
  mret (GetBlockReceipts d h number ≫= fun r => map removed (Logs r)).

(** The first two loops: back to the height [target]; the blocks passed, newest first, and
    the logs of those of the old chain. *)
Fixpoint reduce (fuel : nat) (logs : bool) (block : option Block) (target : Z) : M (option Block * list Block * list Log) :=
  match fuel with
  | O => panic
  | Datatypes.S fuel =>
      match block with
      | None => mret (None, [], [])
      | Some b =>
          if NumberU64 b =? target then mret (Some b, [], [])
          else
            ls ← (if logs then collectLogs (BlockHash b) else mret []);
            p ← parent b;
            '(r, bs, ls') ← reduce fuel logs p target;
            mret (r, b :: bs, ls ++ ls')
      end
  end.

(** The third loop: back on both chains to the common block. *)
Fixpoint common (fuel : nat) (old new : Block) : M (InsertError + (list Block * list Block * list Log)) :=
  match fuel with
  | O => panic
  | Datatypes.S fuel =>
      if BlockHash old =? BlockHash new then mret (inr ([], [], []))
      else
        ls ← collectLogs (BlockHash old);
        po ← parent old;
        pn ← parent new;
        match po, pn with
        | None, _ => mret (inl ErrOldChain)
        | Some _, None => mret (inl ErrNewChain)
        | Some po, Some pn =>
            r ← common fuel po pn;
            match r with
            | inl e => mret (inl e)
            | inr (os, ns, ls') => mret (inr (old :: os, new :: ns, ls ++ ls'))
            end
        end
  end.

(** The insertion of the new chain, oldest first. *)
Fixpoint adopt (newChain : list Block) : M (option Rlp.rlp_error) :=
  match newChain with
  | [] => mret None
  | b :: newChain =>
      _ ← insert b;
      d ← gets db;
      '(d, e) ← lift (WriteTxLookupEntries Keccak256 d b);
      _ ← set_db d;
      match e with Some e => mret (Some e) | None => adopt newChain end
  end.

Definition reorg (oldBlock newBlock : Block) : M (option InsertError) :=
  let fuel b := Datatypes.S (Z.to_nat (NumberU64 b)) in
  '(old, os, dl, new, ns) ←
    (if NumberU64 newBlock <? NumberU64 oldBlock
     then '(r, os, dl) ← reduce (fuel oldBlock) true (Some oldBlock) (NumberU64 newBlock); mret (r, os, dl, Some newBlock, [])
     else '(r, ns, _) ← reduce (fuel newBlock) false (Some newBlock) (NumberU64 oldBlock); mret (Some oldBlock, [], [], r, ns));
  match old, new with
  | None, _ => mret (Some ErrOldChain)
  | Some _, None => mret (Some ErrNewChain)
  | Some old, Some new =>
      r ← common (fuel old) old new;
      match r with
      | inl e => mret (Some e)
      | inr (os', ns', dl') =>
          let oldChain := os ++ os' in
          let newChain := ns ++ ns' in
          e ← adopt (reverse newChain);
          match e with
          | Some e => mret (Some (ErrRlp e))
          | None =>
              let diff := TxTypes.TxDifference (oldChain ≫= transactions) (reverse newChain ≫= transactions) in
              _ ← update_db (fun d => fold_left (fun d tx => DeleteTxLookupEntry d (TxTypes.TxHash tx)) diff d);
              _ ← (match dl ++ dl' with [] => mret tt | ls => send [ERemovedLogs ls] end);
              _ ← send (map ESide oldChain);
              mret None
          end
      end
  end.

(** ** Writing blocks *)

Definition WriteBlockWithoutState (block : Block) (td : Z) : M (option Rlp.rlp_error) :=
  e ← on_hc (WriteTd (BlockHash block) (NumberU64 block) td);
  match e with
  | Some e => mret (Some e)
  | None =>
      d ← gets db;
      r ← lift (WriteBlock Keccak256 d block);
      match r with inl e => mret (Some e) | inr d => _ ← set_db d; mret None end
  end.

(** Dereference the tries up to the chosen number. *)
Fixpoint collect (fuel : nat) (chosen : Z) (q : Q) (s : S) : Q * S :=
  match fuel with
  | O => (q, s)
  | Datatypes.S fuel =>
      match pq_Pop q with
      | None => (q, s)
      | Some ((root, number), q) => if chosen <? u64 (- number) then (pq_Push (root, number) number q, s) else collect fuel chosen q (trie_Dereference s root)
      end
  end.

(** The part of [WriteBlockWithState] that keeps the recent tries in memory. *)
Definition manage_tries (block : Block) (root : Hash) : M unit :=
  _ ← modify (fun b => with_state (trie_Reference (stateCache b) root) b);
  let priority := - float32 (NumberU64 block) in
  _ ← modify (fun b => with_gc (pq_Push (root, priority) priority (triegc b)) (gcproc b) (lastWrite b) b);
  let current := NumberU64 block in
  if negb (triesInMemory <? current) then mret tt
  else
    h ← on_hc (GetHeaderByNumber (u64 (current - triesInMemory)));
    h ← the h;
    let chosen := big_Uint64 (Number h) in
    let limit := TrieNodeLimit world * 1024 * 1024 in
    size ← gets (fun b => trie_Size (stateCache b));
    gc ← gets gcproc;
    last ← gets lastWrite;
    _ ← (if ((limit <? size) || (TrieTimeLimit world <? gc)) && ((u64 (last + triesInMemory) <=? chosen) || (2 * limit <=? size) || (2 * TrieTimeLimit world <=? gc))
         then modify (fun b => with_gc (triegc b) 0 chosen (with_state (fst (trie_Commit (stateCache b) (Root h))) b))
         else mret tt);
    modify (fun b => let '(q, s) := collect (Datatypes.S (length (pq_items (triegc b)))) chosen (triegc b) (stateCache b) in with_gc q (gcproc b) (lastWrite b) (with_state s b)).

(** The fork choice: by difficulty, then by number, then by the coin. *)
Definition is_better (block current : Block) (externTd localTd : Z) : M bool :=
  if localTd <? externTd then mret true
  else if externTd =? localTd then
    if NumberU64 block <? NumberU64 current then mret true
    else if NumberU64 block =? NumberU64 current then ask coin
    else mret false
  else mret false.

(** [batch.Write] *)
Definition write_batch (batch : DB) : M unit := update_db (fun d => batch ∪ d).

(** The new head: reorganise unless it extends the current one, then write the rest. *)
Definition make_head (block current : Block) (st : St) (batch : DB) : M (InsertError + WriteStatus) :=
  e ← (if ParentHash (header block) =? BlockHash current then mret None else reorg current block);
  match e with
  | Some e => mret (inl e)
  | None =>
      '(batch, e) ← lift (WriteTxLookupEntries Keccak256 batch block);
      match e with
      | Some e => mret (inl (ErrRlp e))
      | None =>
          _ ← update_db (fun d => WritePreimages d (state_Preimages st));
          _ ← write_batch batch;
          _ ← insert block;
          _ ← modify (fun b => with_future (lru_Remove (futureBlocks b) (BlockHash block)) b);
          mret (inr CanonStatTy)
      end
  end.

(** The end of [WriteBlockWithState]: fork choice and the writes that depend on it. *)
Definition settle (block : Block) (st : St) (batch : DB) (externTd : Z) (localTd : option Z) : M (InsertError + WriteStatus) :=
  localTd ← the localTd;
  current ← CurrentBlock;
  current ← the current;
  better ← is_better block current externTd localTd;
  if better : bool then make_head block current st batch
  else
    _ ← write_batch batch;
    _ ← modify (fun b => with_future (lru_Remove (futureBlocks b) (BlockHash block)) b);
    mret (inr SideStatTy).

(** The tries: an archive writes them all, other nodes keep the recent ones in memory. *)
Definition keep_state (block : Block) (root : Hash) : M (option Error) :=
  if archive world
  then s ← gets stateCache; let '(s, e) := trie_Commit s root in _ ← modify (with_state s); mret e
  else _ ← manage_tries block root; mret None.

Definition WriteBlockWithState (block : Block) (receipts : list Receipt) (st : St) : M (InsertError + WriteStatus) :=
  ptd ← on_hc (GetTd (ParentHash (header block)) (u64 (NumberU64 block - 1)));
  match ptd with
  | None => mret (inl (ErrConsensus Consensus.ErrUnknownAncestor))
  | Some ptd =>
      current ← CurrentBlock;
      current ← the current;
      localTd ← on_hc (GetTd (BlockHash current) (NumberU64 current));
      let externTd := Difficulty (header block) + ptd in
      e ← on_hc (WriteTd (BlockHash block) (NumberU64 block) externTd);
      match e with
      | Some e => mret (inl (ErrRlp e))
      | None =>
          r ← lift (WriteBlock Keccak256 ∅ block);
          match r with
          | inl e => mret (inl (ErrRlp e))
          | inr batch =>
              s ← gets stateCache;
              let '(s, r) := state_Commit st s in
              _ ← modify (with_state s);
              match r with
              | inl e => mret (inl (ErrState e))
              | inr root =>
                  e ← keep_state block root;
                  match e with
                  | Some e => mret (inl (ErrState e))
                  | None =>
                      r ← lift (WriteBlockReceipts batch (BlockHash block) (NumberU64 block) receipts);
                      match r with
                      | inl e => mret (inl (ErrRlp e))
                      | inr batch => settle block st batch externTd localTd
                      end
                  end
              end
          end
      end
  end.

(** ** The validator *)

Definition ValidateBody (block : Block) : M (option InsertError) :=
  known ← HasBlockAndState (BlockHash block) (NumberU64 block);
  if known : bool then mret (Some ErrKnownBlock)
  else
    linkable ← HasBlockAndState (ParentHash (header block)) (u64 (NumberU64 block - 1));
    if negb linkable then
      there ← HasBlock (ParentHash (header block)) (u64 (NumberU64 block - 1));
      mret (Some (if there : bool then ErrPrunedAncestor else ErrUnknownAncestor))
    else
      e ← ask (fun w t => VerifyUncles w t block);
      match e with
      | Some e => mret (Some (ErrUncles e))
      | None => r ← lift (validate_roots Keccak256 block); mret (option_map ErrRoots r)
      end.

Definition ValidateState (block : Block) (st : St) (receipts : list Receipt) (usedGas : Z) : outcome (option InsertError) :=
  let h := header block in
  if negb (GasUsed h =? usedGas) then Ret (Some ErrGasUsed)
  else
    rbloom ← CreateBloom Keccak256 receipts;
    if negb (rbloom =? Bloom h) then Ret (Some ErrBloom)
    else
      l ← receipts_rlp receipts;
      receiptSha ← DeriveSha Keccak256 l;
      if negb (receiptSha =? ReceiptHash h) then Ret (Some ErrReceiptRoot)
      else Ret (if negb (Root h =? state_Root st) then Some ErrStateRoot else None).

(** ** Inserting chains *)

Definition reportBlock (block : Block) : M unit := modify (fun b => with_bad (cache_Add (badBlocks b) (HeaderHash (header block)) (header block)) b).

Fixpoint contiguous (chain : list Block) : bool :=
  match chain with
  | a :: (b :: _) as rest => (NumberU64 b =? u64 (NumberU64 a + 1)) && (ParentHash (header b) =? BlockHash a) && contiguous rest
  | _ => true
  end.

(** The ancestors without a state, oldest first. *)
Fixpoint gather (fuel : nat) (p : option Block) (winner : list Block) : M (list Block) :=
  match fuel with
  | O => panic
  | Datatypes.S fuel =>
      p ← the p;
      ok ← HasState (Root (header p));
      if ok : bool then mret winner else q ← parent p; gather fuel q (p :: winner)
  end.

(** What a call returns: a position, the events, the logs and an error. *)
Definition Inserted : Type := nat * list Event * list Log * option InsertError.

(** What to do with a block after its verdict. *)
Inductive verdict := VSkip | VFail (e : InsertError) | VQueue | VGo | VReplay (winner : list Block).

Definition judge (block : Block) (err : option InsertError) : M verdict :=
  future ← gets (fun b => cache_Contains (futureBlocks b) (ParentHash (header block)));
  match err with
  | None => mret VGo
  | Some ErrKnownBlock =>
      current ← CurrentBlock;
      current ← the current;
      mret (if NumberU64 block <=? NumberU64 current then VSkip else VGo)
  | Some ErrFutureBlock =>
      t ← ask now;
      mret (if t + maxTimeFutureBlocks <? Time (header block) then VFail ErrTooFarAhead else VQueue)
  | Some ErrUnknownAncestor => if future : bool then mret VQueue else _ ← reportBlock block; mret (VFail ErrUnknownAncestor)
  | Some ErrPrunedAncestor =>
      current ← CurrentBlock;
      current ← the current;
      localTd ← on_hc (GetTd (BlockHash current) (NumberU64 current));
      ptd ← on_hc (GetTd (ParentHash (header block)) (u64 (NumberU64 block - 1)));
      ptd ← the ptd;
      localTd ← the localTd;
      let externTd := ptd + Difficulty (header block) in
      if externTd <? localTd then
        e ← WriteBlockWithoutState block externTd;
        mret (match e with Some e => VFail (ErrRlp e) | None => VSkip end)
      else
        p ← parent block;
        winner ← gather (Datatypes.S (Z.to_nat (NumberU64 block))) p [];
        mret (VReplay winner)
  | Some e => _ ← reportBlock block; mret (VFail e)
  end.

(** Execute a block on the state of its parent and write it; the event, and the logs. *)
Definition execute (block : Block) (p : option Block) : M (InsertError + (list Event * list Log * bool)) :=
  p ← the p;
  s ← gets stateCache;
  match state_New s (Root (header p)) with
  | inl e => mret (inl (ErrState e))
  | inr st =>
      let '(st, r) := Process block st in
      match r with
      | inl e => _ ← reportBlock block; mret (inl (ErrProcess e))
      | inr (receipts, logs, usedGas) =>
          e ← lift (ValidateState block st receipts usedGas);
          match e with
          | Some e => _ ← reportBlock block; mret (inl e)
          | None =>
              r ← WriteBlockWithState block receipts st;
              match r with
              | inl e => mret (inl e)
              | inr CanonStatTy =>
                  t ← ask proctime;
                  _ ← modify (fun b => with_gc (triegc b) (gcproc b + t) (lastWrite b) b);
                  mret (inr ([EChain block (BlockHash block) logs], logs, true))
              | inr SideStatTy => mret (inr ([ESide block], [], false))
              | inr NonStatTy => mret (inr ([], [], false))
              end
          end
      end
  end.

(** The loop over the blocks at position [i] of [chain]; [insertChain] is what a nested call
    does. *)
Section Loop.
Context (insertChain : list Block -> M Inserted).

Fixpoint insert_blocks (i : nat) (prev : option Block) (chain : list Block) (results : list (option VerifyError)) (events : list Event) (logs : list Log) (lastCanon : option Block) : M (Inserted * option Block) :=
  match chain with
  | [] => mret (0%nat, events, logs, None, lastCanon)
  | block :: chain =>
      stop ← ask interrupted;
      if stop : bool then mret (0%nat, events, logs, None, lastCanon)
      else
        verdict ← the (head results);
        err ← (match verdict with Some e => mret (Some (ErrConsensus e)) | None => ValidateBody block end);
        v ← judge block err;
        let next := insert_blocks (Datatypes.S i) (Some block) chain (tail results) in
        let go events logs :=
          p ← (match prev with None => parent block | Some b => mret (Some b) end);
          r ← execute block p;
          match r with
          | inl e => mret (i, events, logs, Some e, lastCanon)
          | inr (evs, ls, canon) => next (events ++ evs) (logs ++ ls) (if canon : bool then Some block else lastCanon)
          end in
        match v with
        | VSkip => next events logs lastCanon
        | VFail e => mret (i, events, logs, Some e, lastCanon)
        | VQueue => _ ← modify (fun b => with_future (cache_Add (futureBlocks b) (BlockHash block) block) b); next events logs lastCanon
        | VGo => go events logs
        | VReplay winner =>
            '(_, evs, ls, err) ← insertChain winner;
            match err with
            | Some e => mret (i, evs, ls, Some e, lastCanon)
            | None => go evs ls
            end
        end
  end.

(** The sanity check, the loop, and the event for the new head. *)
Definition insert_chain (chain : list Block) : M Inserted :=
  if negb (contiguous chain) then mret (0%nat, [], [], Some ErrNonContiguousBlocks)
  else
    results ← ask (fun w t => VerifyHeaders w t (map header chain));
    '(r, lastCanon) ← insert_blocks 0 None chain results [] [] None;
    let '(n, events, logs, err) := r in
    match err with
    | Some _ => mret r
    | None =>
        match lastCanon with
        | None => mret r
        | Some b =>
            current ← CurrentBlock;
            current ← the current;
            mret (n, if BlockHash current =? BlockHash b then events ++ [EHead b] else events, logs, None)
        end
    end.

End Loop.

(** A nested call is for blocks with smaller numbers. *)
Fixpoint insertChain (fuel : nat) (chain : list Block) : M Inserted :=
  match fuel with
  | O => panic
  | Datatypes.S fuel => insert_chain (insertChain fuel) chain
  end.

Definition highest (chain : list Block) : nat := foldr (fun b n => Nat.max (Z.to_nat (NumberU64 b)) n) 0%nat chain.

Definition PostChainEvents (events : list Event) (logs : list Log) : M unit :=
  _ ← (match logs with [] => mret tt | _ => send [ELogs logs] end);
  send events.

Definition InsertChain (chain : list Block) : M (nat * option InsertError) :=
  '(n, events, logs, err) ← insertChain (Datatypes.S (Datatypes.S (highest chain))) chain;
  _ ← PostChainEvents events logs;
  mret (n, err).

(** The queued blocks by number, in an order [sort] makes, one by one. *)
Definition procFutureBlocks (sort : list Block -> list Block) : M unit :=
  blocks ← gets (fun b => omap (lru_Peek (futureBlocks b)) (lru_Keys (futureBlocks b)));
  for_each (sort blocks) (fun b => _ ← InsertChain [b]; mret tt).

(** ** Rolling back, and receipts *)

Definition roll_back (hash : Hash) : M unit :=
  h ← on_hc CurrentHeader;
  _ ← (if HeaderHash h =? hash
       then p ← on_hc (GetHeader (ParentHash h) (u64 (big_Uint64 (Number h) - 1))); p ← the p; on_hc (SetCurrentHeader Keccak256 p)
       else mret tt);
  fast ← CurrentFastBlock;
  fast ← the fast;
  _ ← (if BlockHash fast =? hash
       then p ← parent fast; _ ← modify (with_fast p); p ← the p; update_db (fun d => WriteHeadFastBlockHash d (BlockHash p))
       else mret tt);
  current ← CurrentBlock;
  current ← the current;
  if BlockHash current =? hash
  then p ← parent current; _ ← modify (with_block p); p ← the p; update_db (fun d => WriteHeadBlockHash d (BlockHash p))
  else mret tt.
Definition Rollback (chain : list Hash) : M unit := for_each (reverse chain) roll_back.

(** [SetReceiptsData]: the fields of the receipts and logs that are not part of the
    consensus.  [CreateAddress] derives the address of a new contract. *)
Section Receipts.
Context (CreateAddress : Address -> Z -> Address).

Fixpoint number_logs (block : Block) (txHash : Hash) (j logIndex : Z) (logs : list Log) : list Log * Z :=
  match logs with
  | [] => ([], logIndex)
  | l :: logs =>
      let '(rest, n) := number_logs block txHash j (logIndex + 1) logs in
      (State.MkLog (State.LogAddress l) (State.Topics l) (State.Data l) (NumberU64 block) txHash j (BlockHash block) logIndex (State.Removed l) :: rest, n)
  end.

Fixpoint set_receipts (block : Block) (j logIndex previous : Z) (rs : list Receipt) (txs : list Transaction) : list Receipt :=
  match rs, txs with
  | r :: rs, tx :: txs =>
      let txHash := TxTypes.TxHash tx in
      let address := match TxTypes.To tx with None => CreateAddress (TxTypes.from_of tx) (TxTypes.Nonce tx) | Some _ => ContractAddress r end in
      let gas := if j =? 0 then CumulativeGasUsed r else u64 (CumulativeGasUsed r - previous) in
      let '(logs, logIndex) := number_logs block txHash j logIndex (Logs r) in
      MkReceipt (PostState r) (Status r) (CumulativeGasUsed r) (rBloom r) logs txHash address gas :: set_receipts block (j + 1) logIndex (CumulativeGasUsed r) rs txs
  | _, _ => rs
  end.

Definition SetReceiptsData (block : Block) (receipts : list Receipt) : InsertError + list Receipt :=
  if negb (len (transactions block) =? len receipts) then inl ErrReceiptCount
  else inr (set_receipts block 0 0 0 receipts (transactions block)).

(** The loop of [InsertReceiptChain]: [flush] says after which blocks the batch is large
    enough to be written; what is not written when an error ends the loop is lost. *)
Fixpoint insert_receipts (flush : nat -> bool) (i : nat) (blocks : list Block) (receipts : list (list Receipt)) (batch : DB) : M (option (nat * option InsertError) * DB) :=
  match blocks with
  | [] => mret (None, batch)
  | block :: blocks =>
      rs ← the (head receipts);
      stop ← ask interrupted;
      if stop : bool then mret (Some (0%nat, None), batch)
      else
        known ← on_hc (HasHeader (BlockHash block) (NumberU64 block));
        if negb known then mret (Some (i, Some ErrHeaderUnknown), batch)
        else
          have ← HasBlock (BlockHash block) (NumberU64 block);
          if have : bool then insert_receipts flush (Datatypes.S i) blocks (tail receipts) batch
          else
            match SetReceiptsData block rs with
            | inl e => mret (Some (i, Some e), batch)
            | inr rs =>
                r ← lift (WriteBody batch (BlockHash block) (NumberU64 block) (body_of block));
                match r with
                | inl e => mret (Some (i, Some (ErrRlp e)), batch)
                | inr batch =>
                    r ← lift (WriteBlockReceipts batch (BlockHash block) (NumberU64 block) rs);
                    match r with
                    | inl e => mret (Some (i, Some (ErrRlp e)), batch)
                    | inr batch =>
                        '(batch, e) ← lift (WriteTxLookupEntries Keccak256 batch block);
                        match e with
                        | Some e => mret (Some (i, Some (ErrRlp e)), batch)
                        | None =>
                            if flush i then _ ← write_batch batch; insert_receipts flush (Datatypes.S i) blocks (tail receipts) ∅
                            else insert_receipts flush (Datatypes.S i) blocks (tail receipts) batch
                        end
                    end
                end
            end
  end.

(** The last block is read even if there is none. *)
Definition InsertReceiptChain (flush : nat -> bool) (blocks : list Block) (receipts : list (list Receipt)) : M (nat * option InsertError) :=
  if negb (contiguous blocks) then mret (0%nat, Some ErrNonContiguousBlocks)
  else
    '(r, batch) ← insert_receipts flush 0 blocks receipts ∅;
    match r with
    | Some r => mret r
    | None =>
        _ ← write_batch batch;
        head ← the (last blocks);
        td ← on_hc (GetTd (BlockHash head) (NumberU64 head));
        match td with
        | None => mret (0%nat, None)
        | Some td =>
            fast ← CurrentFastBlock;
            fast ← the fast;
            ftd ← on_hc (GetTd (BlockHash fast) (NumberU64 fast));
            ftd ← the ftd;
            _ ← (if ftd <? td then _ ← update_db (fun d => WriteHeadFastBlockHash d (BlockHash head)); modify (with_fast (Some head)) else mret tt);
            mret (0%nat, None)
        end
    end.

End Receipts.

(** ** Opening and stopping *)

Definition NewBlockChain (d : DB) (s : S) (last : Z) (c : forall V, C V) : outcome (InsertError + bc) :=
  r ← NewHeaderChain Keccak256 d (c Header) (c Z) (c Z);
  match r with
  | inl _ => Ret (inl ErrGenesisMissing)
  | inr h =>
      let blank := MkBlock (genesisHeader h) [] [] in
      let b := MkBc h blank None None (c Body) (c bytes) (c Block) (c Block) (c Header) s pq_New 0 last [] 0%nat in
      '(b, g) ← GetBlockByNumber 0 b;
      match g with
      | None => Ret (inl ErrGenesisMissing)
      | Some g => '(b, e) ← loadLastState (with_genesis g b); Ret match e with Some e => inl e | None => inr b end
      end
  end.

(** [Stop], not interrupted: three states are written, then all tries are let go. *)
Definition commit_recent (offset : Z) : M unit :=
  current ← CurrentBlock;
  current ← the current;
  let number := NumberU64 current in
  if offset <? number then
    recent ← GetBlockByNumber (number - offset);
    recent ← the recent;
    modify (fun b => with_state (fst (trie_Commit (stateCache b) (Root (header recent)))) b)
  else mret tt.
Fixpoint release (fuel : nat) (q : Q) (s : S) : Q * S :=
  match fuel with
  | O => (q, s)
  | Datatypes.S fuel => match pq_Pop q with None => (q, s) | Some ((root, _), q) => release fuel q (trie_Dereference s root) end
  end.
Definition Stop : M unit :=
  if archive world then mret tt
  else
    _ ← for_each [0; 1; triesInMemory - 1] commit_recent;
    modify (fun b => let '(q, s) := release (Datatypes.S (length (pq_items (triegc b)))) (triegc b) (stateCache b) in with_gc q (gcproc b) (lastWrite b) (with_state s b)).

Definition InsertHeaderChain (verify : list Header -> list bool -> list (option VerifyError)) (stop : nat -> bool) (coins : nat -> bool) (chain : list Header) (checkFreq : nat) (rand : nat -> nat) : M (nat * option ChainError) :=
  '(i, err) ← lift (ValidateHeaderChain Keccak256 stop verify chain checkFreq rand);
  match err with
  | Some e => mret (i, Some e)
  | None => on_hc (HeaderChain.InsertHeaderChain Keccak256 stop coins chain)
  end.

End Chain.

End BlockChain.
