(* ===== verification/BlockChainProps.v ===== *)
(** The block chain: what the database holds of blocks, what reading through the caches
    returns, and what reorganisation does to the index and to the look-up entries. *)

From S2P Require Import Prelude Params Bytes Cache RlpEncode RlpDecode RlpRoundtrip Trie Consensus Heap TxTypes ChainDb ChainDbProps HeaderChain HeaderChainProps Queue StateDB Receipt Block BlockProps BlockChain.
Import ChainDb ChainDbProps HeaderChain HeaderChainProps Receipt ReceiptProps Block BlockProps BlockChain.

Module BlockChainProps.

(** ** Runs *)

(** The run returns, with a state and a result of which [Q] holds, or it may panic if [p]. *)
Definition runs {St A} (p : Prop) (m : SM St A) (s : St) (Q : St -> A -> Prop) : Prop := match m s with Ret (s', x) => Q s' x | Panic => p end.

Lemma runs_bind {St A B} p (m : SM St A) (k : A -> SM St B) s (Q : St -> A -> Prop) (R : St -> B -> Prop) :
  runs p m s Q -> (forall s' x, Q s' x -> runs p (k x) s' R) -> runs p (m ≫= k) s R.
Proof. intros H1 H2. unfold runs, mbind, SM_bind in *. destruct (m s) as [[s' x]|]; [exact (H2 _ _ H1)|exact H1]. Qed.
Lemma runs_ret {St A} p (x : A) (s : St) (Q : St -> A -> Prop) : Q s x -> runs p (mret x) s Q.
Proof. done. Qed.
Lemma runs_gets {St A B} p (f : St -> A) (k : A -> SM St B) s R : runs p (k (f s)) s R -> runs p (gets f ≫= k) s R.
Proof. done. Qed.
Lemma runs_modify {St B} p (f : St -> St) (k : unit -> SM St B) s R : runs p (k tt) (f s) R -> runs p (modify f ≫= k) s R.
Proof. done. Qed.
Lemma runs_lift {St A B} p (m : outcome A) (k : A -> SM St B) s x R : m = Ret x -> runs p (k x) s R -> runs p (lift m ≫= k) s R.
Proof. unfold runs. intros E. by rewrite (bind_lift _ _ _ _ E). Qed.
Lemma runs_eval {St A B} p (m : SM St A) (k : A -> SM St B) s s' x R : m s = Ret (s', x) -> runs p (k x) s' R -> runs p (m ≫= k) s R.
Proof. unfold runs. intros E. by rewrite (bind_eval _ _ _ _ _ E). Qed.
Lemma runs_mono {St A} p (m : SM St A) s (Q R : St -> A -> Prop) : runs p m s Q -> (forall s' x, Q s' x -> R s' x) -> runs p m s R.
Proof. unfold runs. destruct (m s) as [[s' x]|]; auto. Qed.
Lemma runs_safe {St A} (m : SM St A) s Q : runs False m s Q -> exists s' x, m s = Ret (s', x) /\ Q s' x.
Proof. unfold runs. destruct (m s) as [[s' x]|]; [eauto|done]. Qed.
Lemma runs_at {St A} p (m : SM St A) s s' x (Q : St -> A -> Prop) : runs p m s Q -> m s = Ret (s', x) -> Q s' x.
Proof. unfold runs. intros H E. by rewrite E in H. Qed.

(** ** Caches *)

Class LruLaws (C : Type -> Type) {lru : LruOps C} : Prop := {
  lru_laws :: forall V, CacheLaws (lru_cache V);
  lru_Remove_held : forall V (c : C V) h, cached (lru_Remove c h) ⊆ cached c
}.

(** ** Items of the database *)

(** The records of blocks, and the others. *)
Definition block_item (i : item) : Prop := match i with IHeader _ _ | ITd _ _ | INumber _ | IBody _ _ => True | _ => False end.
#[export] Instance block_item_dec i : Decision (block_item i).
Proof. destruct i; cbn; apply _. Defined.

(** No record of a block changed. *)
Definition calm (d d' : DB) : Prop := forall i, item_ok i -> block_item i -> d' !! key i = d !! key i.
#[export] Instance calm_equiv : Equivalence calm.
Proof. split; [done|intros d d' H i Hi Hb; symmetry; by apply H|intros a b c H1 H2 i Hi Hb; by rewrite H2, H1]. Qed.

Lemma get_eq (d d' : DB) k : d' !! k = d !! k -> get d' k = get d k.
Proof. intros E. unfold get. by rewrite E. Qed.

Lemma calm_headers d d' : calm d d' -> same_headers d d'.
Proof.
  intros H. split; intros.
  - rewrite !decode_header_get. f_equal. apply get_eq, H; done.
  - unfold ChainDb.GetTd. change (tdKey x n) with (key (ITd x n)). erewrite get_eq; [done|by apply H].
  - apply (H (INumber x)); done.
  - apply (H (IHeader x n)); done.
Qed.

Lemma calm_put d i v : item_ok i -> ~ block_item i -> calm d (<[key i := v]> d).
Proof. intros Hi Hb j Hj Hbj. rewrite lookup_insert_ne; [done|]. intros E. apply key_inj in E; [|done|done]. by subst. Qed.
Lemma calm_del d i : item_ok i -> ~ block_item i -> calm d (delete (key i) d).
Proof. intros Hi Hb j Hj Hbj. rewrite lookup_delete_ne; [done|]. intros E. apply key_inj in E; [|done|done]. by subst. Qed.

Lemma canon_same d d' n : is_u64 n -> d' !! key (ICanon n) = d !! key (ICanon n) -> GetCanonicalHash d' n = GetCanonicalHash d n.
Proof. intros Hn E. unfold GetCanonicalHash. change (canonKey n) with (key (ICanon n)). by rewrite (get_eq _ _ _ E). Qed.
Lemma lookup_same d d' x : is_hash x -> d' !! key (ILookup x) = d !! key (ILookup x) -> GetTxLookupEntry d' x = GetTxLookupEntry d x.
Proof. intros Hx E. rewrite !decode_entry_get. by rewrite (get_eq _ _ _ E). Qed.

(** Only the given items change. *)
Definition within (I : item -> Prop) (d d' : DB) : Prop := forall i, item_ok i -> ~ I i -> d' !! key i = d !! key i.
Lemma within_trans I a b c : within I a b -> within I b c -> within I a c.
Proof. intros H1 H2 i Hi Hn. by rewrite H2, H1. Qed.
Lemma within_mono (I J : item -> Prop) d d' : (forall i, I i -> J i) -> within I d d' -> within J d d'.
Proof. intros HIJ H i Hi Hn. apply H; auto. Qed.
Lemma within_put (I : item -> Prop) d i v : item_ok i -> I i -> within I d (<[key i := v]> d).
Proof. intros Hi HI j Hj Hn. rewrite lookup_insert_ne; [done|]. intros E. apply key_inj in E; [|done|done]. by subst. Qed.
Lemma within_del (I : item -> Prop) d i : item_ok i -> I i -> within I d (delete (key i) d).
Proof. intros Hi HI j Hj Hn. rewrite lookup_delete_ne; [done|]. intros E. apply key_inj in E; [|done|done]. by subst. Qed.
Lemma within_calm I d d' : (forall i, I i -> ~ block_item i) -> within I d d' -> calm d d'.
Proof. intros HI H i Hi Hb. apply H; [done|]. intros Hii. by apply (HI i). Qed.

Section Chain.
Context (Keccak256 : bytes -> Hash) (Sender : txdata -> option Address) (g : Block) (P : Block -> Prop).
Abbreviation HeaderHash := (HeaderHash Keccak256).
Abbreviation BlockHash := (BlockHash Keccak256).
Abbreviation DbBlock := (Block.GetBlock Keccak256 Sender).

(** The headers of the blocks that occur. *)
Definition PH (h : Header) : Prop := exists b, P b /\ header b = h.

Record blocks_ok : Prop := {
  bk_world : world_ok Keccak256 (header g) PH;
  bk_genesis : P g;
  bk_block : forall b, P b -> block_ok Keccak256 Sender b;
  bk_inj : forall b c, P b -> P c -> header b = header c -> b = c;
  bk_pos : forall b, P b -> 0 < Difficulty (header b);
  bk_count : forall b, P b -> len (transactions b) <= MaxInt64
}.

Context (W : blocks_ok).
Abbreviation tree_ok := (tree_ok Keccak256 (header g) PH).
Abbreviation has := (has Keccak256 PH).
Abbreviation td := (td Keccak256).
Abbreviation caches_ok := (caches_ok Keccak256 PH).

Lemma P_PH b : P b -> PH (header b).
Proof. intros Hb. by exists b. Qed.
Lemma blk_hash b : is_hash (BlockHash b).
Proof using W. apply (P_hash _ _ _ (bk_world W)). Qed.
Lemma blk_u64 b : P b -> is_u64 (Number (header b)).
Proof using W. intros Hb. by apply (P_u64 _ _ _ (bk_world W)), P_PH. Qed.
Lemma blk_number b : P b -> NumberU64 b = Number (header b).
Proof using W. intros Hb. unfold NumberU64. by apply big_Uint64_id, blk_u64. Qed.
Lemma blk_parent b : P b -> is_hash (ParentHash (header b)).
Proof using W. intros Hb. by apply (P_parent _ _ _ (bk_world W)), P_PH. Qed.
Lemma blk_inj b c : P b -> P c -> BlockHash b = BlockHash c -> b = c.
Proof using W. intros Hb Hc E. apply (bk_inj W); [done|done|]. apply (w_inj _ _ _ (bk_world W)); [by apply P_PH..|done]. Qed.
Lemma blk_nonzero b : P b -> BlockHash b <> 0.
Proof using W. intros Hb. by apply (w_nonzero _ _ _ (bk_world W)), P_PH. Qed.
Lemma blk_child b p : P b -> P p -> BlockHash p = ParentHash (header b) -> Number (header b) = Number (header p) + 1.
Proof using W. intros Hb Hp E. apply (w_number _ _ _ (bk_world W)); [by apply P_PH..|done]. Qed.

(** ** Stored blocks *)

Definition stored (d : DB) (b : Block) : Prop := P b /\ DbBlock d (BlockHash b) (Number (header b)) = Some b.

Record store_ok (d : DB) : Prop := {
  so_tree : tree_ok d;
  so_block : forall h, has d h -> exists b, header b = h /\ stored d b;
  so_body : forall x n, is_hash x -> is_u64 n -> is_Some (d !! key (IBody x n)) -> exists b, stored d b /\ x = BlockHash b /\ n = Number (header b)
}.

Lemma stored_has d b : stored d b -> has d (header b).
Proof.
  intros [Hb E]. split; [by apply P_PH|]. rewrite GetBlock_eq in E. destruct (ChainDb.GetHeader d (BlockHash b) (Number (header b))) as [h|] eqn:Eh; [|done]. cbn [mbind option_bind] in E.
  destruct (Block.GetBody _ _ _ _ _); [|done]. injection E as <-. done.
Qed.
Lemma has_stored d b : store_ok d -> P b -> has d (header b) -> stored d b.
Proof using W. intros Hs Hb Hh. destruct (so_block d Hs _ Hh) as (c & E & Hc). by rewrite (bk_inj W b c Hb (proj1 Hc)). Qed.

Lemma db_block_is d x n b : store_ok d -> is_hash x -> is_u64 n -> DbBlock d x n = Some b -> stored d b /\ x = BlockHash b /\ n = Number (header b).
Proof using W.
  intros Hs Hx Hn E. pose proof E as E0. rewrite GetBlock_eq in E. destruct (ChainDb.GetHeader d x n) as [h|] eqn:Eh; [|done]. cbn [mbind option_bind] in E.
  destruct (self_has _ _ _ _ _ _ _ (so_tree d Hs) Hx Hn Eh) as (Hh & -> & ->). destruct (so_block d Hs h Hh) as (c & <- & Hc). destruct Hc as [Hc Ec]. change (BlockHash c) with (HeaderHash (header c)) in Ec.
  rewrite E0 in Ec. injection Ec as ->. done.
Qed.

Lemma calm_body d d' x n : calm d d' -> is_hash x -> is_u64 n -> Block.GetBody Keccak256 Sender d' x n = Block.GetBody Keccak256 Sender d x n.
Proof. intros H Hx Hn. rewrite !decode_body_get. f_equal. apply get_eq, H; done. Qed.
Lemma calm_block d d' x n : calm d d' -> is_hash x -> is_u64 n -> DbBlock d' x n = DbBlock d x n.
Proof. intros H Hx Hn. rewrite !GetBlock_eq. rewrite (same_header _ _ (calm_headers _ _ H)) by done. by rewrite (calm_body d d' x n H). Qed.
Lemma calm_stored d d' b : calm d d' -> stored d b -> stored d' b.
Proof using W. intros H [Hb E]. split; [done|]. rewrite (calm_block d d') by (done || apply blk_hash || by apply blk_u64). done. Qed.
Lemma calm_store d d' : calm d d' -> store_ok d -> store_ok d'.
Proof using W.
  intros H [Ht Hb Hraw]. pose proof (calm_headers _ _ H) as Hs. split; [by eapply (same_tree _ _ _ (bk_world W))| |intros x n Hx Hn Hi; rewrite (H (IBody x n)) in Hi by done; destruct (Hraw x n Hx Hn Hi) as (b & Hst & ?); exists b; split; [by eapply calm_stored|done]]. intros h Hh. apply (same_has _ _ _ (bk_world W) _ _ _ Hs) in Hh.
  destruct (Hb h Hh) as (b & E & Hst). exists b. split; [done|]. by eapply calm_stored.
Qed.
Lemma calm_td d d' b : calm d d' -> P b -> td d' (header b) = td d (header b).
Proof using W. intros H Hb. apply (same_td_of _ _ _ (bk_world W)); [by apply calm_headers|by apply P_PH]. Qed.
Lemma calm_has d d' h : calm d d' -> has d' h <-> has d h.
Proof using W. intros H. by apply (same_has _ _ _ (bk_world W)), calm_headers. Qed.
Lemma calm_grown d d' : calm d d' -> grown Keccak256 PH d d'.
Proof using W. intros H. by apply (same_grown _ _ _ (bk_world W)), calm_headers. Qed.

(** ** Reading through the caches *)

Context {C : Type -> Type} {S Q St : Type} {lru : LruOps C} {laws : LruLaws C} {state_ops : StateOps S St} {pq : PrqueOps Q (Hash * Z)} (p : Prop).
Abbreviation bc := (BlockChain C S Q).
Abbreviation GetBlock := (BlockChain.GetBlock Keccak256 Sender).
Abbreviation parent := (BlockChain.parent Keccak256 Sender).
Abbreviation collectLogs := (BlockChain.collectLogs (C := C) (S := S) (Q := Q)).

(** The caches hold what is stored in [v]. *)
Record cached_ok (v : DB) (b : bc) : Prop := {
  co_headers : caches_ok v (hc b);
  co_blocks : forall x c, cached (blockCache b) !! x = Some c -> stored v c /\ x = BlockHash c
}.

(** The block with the hash [x] and its number read as in [v]. *)
Definition sees (d v : DB) (x : Hash) : Prop := (forall n, is_u64 n -> DbBlock d x n = DbBlock v x n) /\ number_at d x = number_at v x.

(** Only the caches changed. *)
Record quiet (b b' : bc) : Prop := {
  q_hc : cache_step (hc b) (hc b');
  q_genesis : genesisBlock b' = genesisBlock b;
  q_current : currentBlock b' = currentBlock b;
  q_fast : currentFastBlock b' = currentFastBlock b;
  q_future : futureBlocks b' = futureBlocks b;
  q_state : stateCache b' = stateCache b
}.
#[export] Instance quiet_preorder : PreOrder quiet.
Proof.
  split; [by split|]. intros a b c [(H1 & H2 & H3 & H4) ? ? ? ? ?] [(K1 & K2 & K3 & K4) ? ? ? ? ?]. split; try congruence. unfold cache_step. by rewrite K1, K2, K3, K4.
Qed.
Lemma q_db b b' : quiet b b' -> db b' = db b.
Proof. by intros [(H & _) _ _ _ _ _]. Qed.

Lemma GetBlock_runs (b : bc) v x n : store_ok v -> cached_ok v b -> sees (db b) v x -> is_hash x -> is_u64 n -> (forall c, stored v c -> BlockHash c = x -> n = Number (header c)) ->
  runs p (GetBlock x n) b (fun b' r => r = DbBlock v x n /\ quiet b b' /\ cached_ok v b').
Proof using W laws.
  intros Hv [K1 K2] Hs Hx Hn Hr. unfold BlockChain.GetBlock. apply runs_gets. destruct (cache_Get (blockCache b) x) as [y r] eqn:Eg. apply runs_modify.
  assert (Ky : forall z c, cached y !! z = Some c -> stored v c /\ z = BlockHash c) by (pose proof (cache_Get_forall (fun z c => stored v c /\ z = BlockHash c) (blockCache b) x K2) as H; by rewrite Eg in H).
  destruct r as [c|].
  - destruct (K2 x c) as [Hc ->]; [apply cache_Get_found; by rewrite Eg|]. apply runs_ret. rewrite (Hr c Hc eq_refl). destruct Hc as [_ Hc]. split; [done|]. split; [by split|]. by split.
  - apply runs_gets. change (db (with_blocks y b)) with (db b). rewrite (proj1 Hs n Hn). destruct (DbBlock v x n) as [c|] eqn:Ec; [|apply runs_ret; split; [done|]; split; [by split|]; by split].
    apply runs_modify, runs_ret. split; [done|]. split; [by split|]. split; [done|]. cbn [blockCache with_blocks].
    apply cache_Add_forall; [done|]. destruct (db_block_is _ _ _ _ Hv Hx Hn Ec) as (Hc & _). done.
Qed.

Lemma parent_runs (b : bc) v c : store_ok v -> cached_ok v b -> sees (db b) v (ParentHash (header c)) -> P c ->
  runs p (parent c) b (fun b' r => quiet b b' /\ cached_ok v b' /\
    match r with Some q => stored v q /\ BlockHash q = ParentHash (header c) | None => forall q, stored v q -> BlockHash q <> ParentHash (header c) end).
Proof using W laws.
  intros Hv Hk Hs Hc. unfold BlockChain.parent. set (n := u64 (NumberU64 c - 1)). assert (Hn : is_u64 n) by apply u64_range.
  assert (Hnum : forall q, stored v q -> BlockHash q = ParentHash (header c) -> n = Number (header q)).
  { intros q [Hq _] E. pose proof (blk_child c q Hc Hq E). pose proof (blk_u64 q Hq). unfold n. rewrite blk_number by done. rewrite u64_id by go_lia. lia. }
  eapply runs_mono; [apply (GetBlock_runs b v); [done|done|done|by apply blk_parent|done|done]|]. intros b' r (-> & Hq & Hk'). split; [done|]. split; [done|].
  destruct (DbBlock v _ n) as [q|] eqn:Eq.
  - destruct (db_block_is _ _ _ _ Hv (blk_parent c Hc) Hn Eq) as (Hst & E & _). by split.
  - intros q Hq' E. rewrite (Hnum q Hq' E), <- E in Eq. destruct Hq' as [_ Hq']. congruence.
Qed.

Lemma number_runs (b : bc) v c : store_ok v -> cached_ok v b -> sees (db b) v (BlockHash c) -> stored v c ->
  runs p (on_hc (GetBlockNumber (BlockHash c))) b (fun b' r => r = Number (header c) /\ quiet b b' /\ cached_ok v b').
Proof using W laws.
  intros Hv [[K1 K2 K3] K4] Hs Hc. pose proof (blk_u64 c (proj1 Hc)) as Hu. unfold runs, on_hc, GetBlockNumber. destruct (cache_Get (numberCache (hc b)) (BlockHash c)) as [y r] eqn:Eg.
  set (R := fun x n => exists h, has v h /\ x = HeaderHash h /\ n = Number h).
  assert (K3' : forall z n, cached y !! z = Some n -> R z n) by (pose proof (cache_Get_forall R (numberCache (hc b)) (BlockHash c) K3) as H; by rewrite Eg in H).
  destruct r as [n|].
  - destruct (K3 (BlockHash c) n) as (h & Hh & E & ->); [apply cache_Get_found; by rewrite Eg|]. cbn [mbind outcome_bind].
    assert (header c = h) as <- by (apply (w_inj _ _ _ (bk_world W)); [by apply P_PH, Hc|apply Hh|done]). split; [done|]. split; [by split|]. by split.
  - cbn [chainDb with_numbers]. unfold GetBlockNumber2. change (numberKey (BlockHash c)) with (key (INumber (BlockHash c))).
    change (chainDb (hc b)) with (db b). change (db b !! key (INumber (BlockHash c))) with (number_at (db b) (BlockHash c)). rewrite (proj2 Hs). pose proof (t_index _ _ _ _ (so_tree v Hv) (header c) (stored_has _ _ Hc)) as Ei.
    change (HeaderHash (header c)) with (BlockHash c) in Ei. rewrite Ei.
    assert (Eb : be_Uint64 (encodeBlockNumber (Number (header c))) = Ret (Number (header c))).
    { unfold be_Uint64, len. rewrite length_encodeBlockNumber. cbn [Z.ltb]. rewrite take_ge by (by rewrite length_encodeBlockNumber). by rewrite be_value_word. }
    destruct (encodeBlockNumber (Number (header c))) as [|z bs] eqn:Ee; [by pose proof (length_encodeBlockNumber (Number (header c))) as H; rewrite Ee in H|].
    rewrite Eb. cbn [mbind outcome_bind]. split; [done|]. split; [by split|]. split; [|done]. split; [done|done|]. apply (cache_Add_forall R); [done|]. exists (header c). split; [by apply stored_has|done].
Qed.

Lemma collectLogs_runs (b : bc) v c : store_ok v -> cached_ok v b -> sees (db b) v (BlockHash c) -> stored v c ->
  runs p (collectLogs (BlockHash c)) b (fun b' _ => quiet b b' /\ cached_ok v b').
Proof using W laws.
  intros Hv Hk Hs Hc. unfold BlockChain.collectLogs. eapply runs_bind; [by apply (number_runs b v c)|]. intros b' n (_ & Hq & Hk'). apply runs_gets, runs_ret. done.
Qed.

(** ** Inserting a head *)

Abbreviation insert := (BlockChain.insert (C := C) (S := S) (Q := Q) Keccak256).

Definition put_db (d : DB) (b : bc) : bc := with_hc (HeaderChain.with_db d (hc b)) b.
Lemma runs_update {A : Type} (f : DB -> DB) (k : unit -> SM bc A) b R : runs p (k tt) (put_db (f (db b)) b) R -> runs p (update_db f ≫= k) b R.
Proof. done. Qed.
Lemma runs_set {A : Type} (d : DB) (k : unit -> SM bc A) b R : runs p (k tt) (put_db d b) R -> runs p (set_db d ≫= k) b R.
Proof. done. Qed.

Lemma cached_move v (b b' : bc) : headerCache (hc b') = headerCache (hc b) -> tdCache (hc b') = tdCache (hc b) -> numberCache (hc b') = numberCache (hc b) -> blockCache b' = blockCache b ->
  cached_ok v b -> cached_ok v b'.
Proof. intros E1 E2 E3 E4 [[K1 K2 K3] K4]. split; [split|]; rewrite ?E1, ?E2, ?E3, ?E4; done. Qed.

(** The items that heads, the index and the look-ups are made of. *)
Definition head_item (i : item) : Prop := match i with ICanon _ | IHeadBlock | IHeadHeader | IHeadFast | ILookup _ => True | _ => False end.
Lemma head_item_calm i : head_item i -> ~ block_item i.
Proof. destruct i; cbn; tauto. Qed.

(** The database changed within [I], the caches hold blocks of [v], and the rest that
    matters is the same. *)
Record moved (I : item -> Prop) (v : DB) (b b' : bc) : Prop := {
  m_db : within I (db b) (db b');
  m_genesis : genesisBlock b' = genesisBlock b /\ genesisHeader (hc b') = genesisHeader (hc b);
  m_future : futureBlocks b' = futureBlocks b;
  m_state : stateCache b' = stateCache b;
  m_cached : cached_ok v b'
}.

Lemma moved_trans I v a b c : moved I v a b -> moved I v b c -> moved I v a c.
Proof. intros [H1 [H2 H3] H4 H5 H6] [K1 [K2 K3] K4 K5 K6]. split; [by eapply within_trans|split; congruence|congruence|congruence|done]. Qed.
Lemma quiet_moved I v b b' : quiet b b' -> cached_ok v b' -> moved I v b b'.
Proof. intros [(H1 & H2 & _) ? ? ? ? ?] Hk. split; [|done..]. intros i _ _. unfold db. by rewrite H1. Qed.
Lemma moved_weaken (I J : item -> Prop) v b b' : (forall i, I i -> J i) -> moved I v b b' -> moved J v b b'.
Proof. intros HIJ [H1 ? ? ? ?]. split; [by eapply within_mono|done..]. Qed.

(** The head of the blocks, in memory and on disk; the other two heads.  The genesis
    block is committed without a fast head. *)
Definition block_head (b : bc) (c : Block) : Prop := currentBlock b = Some (Some c) /\ GetHeadBlockHash (db b) = BlockHash c.
Record other_heads (b : bc) (c : Block) : Prop := {
  oh_header : currentHeader (hc b) = Some (header c) /\ currentHeaderHash (hc b) = BlockHash c;
  oh_fast : currentFastBlock b = Some (Some c);
  oh_disk : GetHeadHeaderHash (db b) = BlockHash c /\ (GetHeadFastBlockHash (db b) = BlockHash c \/ GetHeadFastBlockHash (db b) = 0)
}.

Lemma head_put d i x j : item_ok i -> item_ok j -> is_hash x -> read_hash (get (<[key i := hash_bytes x]> d) (key j)) = if decide (i = j) then x else read_hash (get d (key j)).
Proof. intros Hi Hj Hx. case_decide as E; [subst; by rewrite get_put_same, read_hash_bytes|by rewrite get_put_other]. Qed.

(** What one [insert] does. *)
Record inserted_head (c : Block) (b b' : bc) : Prop := {
  ih_canon : forall n, is_u64 n -> GetCanonicalHash (db b') n = if decide (n = Number (header c)) then BlockHash c else GetCanonicalHash (db b) n;
  ih_lookup : forall x, is_hash x -> GetTxLookupEntry (db b') x = GetTxLookupEntry (db b) x;
  ih_head : block_head b' c;
  ih_others : if decide (GetCanonicalHash (db b) (Number (header c)) = BlockHash c) then forall k, other_heads b k -> other_heads b' k else other_heads b' c
}.

Lemma insert_runs (b : bc) v c : P c -> cached_ok v b -> runs p (insert c) b (fun b' _ => moved head_item v b b' /\ inserted_head c b b').
Proof using W.
  intros Hc Hk. pose proof (blk_u64 c Hc) as Hu. pose proof (blk_hash c) as Hx. unfold BlockChain.insert. rewrite (blk_number c Hc). apply runs_gets. cbn zeta.
  apply runs_update, runs_update, runs_modify. match goal with |- runs _ _ ?x _ => set (b1 := x) end.
  set (d0 := db b). set (d1 := <[key (ICanon (Number (header c))) := hash_bytes (BlockHash c)]> d0). set (d2 := <[key IHeadBlock := hash_bytes (BlockHash c)]> d1).
  assert (Ed1 : db b1 = d2) by done. assert (Hw2 : within head_item d0 d2) by (apply (within_trans _ d0 d1 d2); by apply within_put).
  assert (Hcan : forall i v n, item_ok i -> match i with ICanon _ => False | _ => True end -> is_u64 n -> forall d, GetCanonicalHash (<[key i := v]> d) n = GetCanonicalHash d n).
  { intros i w n Hi Hne Hn d. rewrite GetCanonicalHash_put by done. rewrite decide_False; [done|]. by intros ->. }
  assert (Hc2 : forall n, is_u64 n -> GetCanonicalHash d2 n = if decide (n = Number (header c)) then BlockHash c else GetCanonicalHash d0 n).
  { intros n Hn. unfold d2. rewrite Hcan by done. unfold d1. rewrite GetCanonicalHash_put by done. rewrite read_hash_bytes by done. repeat case_decide; congruence. }
  assert (Hlk : forall i w d x, item_ok i -> match i with ILookup _ => False | _ => True end -> is_hash x -> GetTxLookupEntry (<[key i := w]> d) x = GetTxLookupEntry d x).
  { intros i w d x Hi Hne Hxx. apply lookup_same; [done|]. rewrite lookup_insert_ne; [done|]. intros E. apply key_inj in E; [|done|done]. by subst. }
  destruct (GetCanonicalHash d0 (Number (header c)) =? BlockHash c) eqn:Ec; bool_to_prop; cbn [negb].
  - apply runs_ret. split; [split; [by rewrite Ed1|done|done|done|by apply (cached_move v b)]|]. split; [by rewrite Ed1| | |].
    + intros x Hxx. rewrite Ed1. unfold d2. rewrite Hlk by done. unfold d1. by rewrite Hlk.
    + split; [done|]. rewrite Ed1. unfold GetHeadBlockHash, d2. change headBlockKey with (key IHeadBlock). by rewrite head_put, decide_True.
    + rewrite decide_True by done. intros k [H1 H2 [H3 H4]]. split; [done|done|]. rewrite Ed1. unfold GetHeadHeaderHash, GetHeadFastBlockHash, d2, d1 in *. change headHeaderKey with (key IHeadHeader) in *. change headFastKey with (key IHeadFast) in *.
      rewrite !head_put, !decide_False by done. done.
  - eapply runs_eval; [reflexivity|]. apply runs_update. set (d3 := <[key IHeadHeader := hash_bytes (BlockHash c)]> d2). set (d4 := <[key IHeadFast := hash_bytes (BlockHash c)]> d3).
    match goal with |- runs _ _ ?x _ => set (b2 := x) end. assert (Ed2 : db b2 = d4) by done. unfold runs, modify. set (b3 := with_fast (Some c) b2). assert (Ed3 : db b3 = d4) by done.
    split; [split; [rewrite Ed3; eapply within_trans; [exact Hw2|]; apply (within_trans _ d2 d3 d4); by apply within_put|done|done|done|by apply (cached_move v b)]|]. split.
    + intros n Hn. rewrite Ed3. unfold d4. rewrite Hcan by done. unfold d3. rewrite Hcan by done. by apply Hc2.
    + intros x Hxx. rewrite Ed3. unfold d4, d3, d2, d1. by rewrite !Hlk.
    + split; [done|]. rewrite Ed3. unfold GetHeadBlockHash, d4, d3, d2. change headBlockKey with (key IHeadBlock). rewrite !head_put by done. by repeat case_decide.
    + rewrite decide_False by done. split; [done|done|]. rewrite Ed3. unfold GetHeadHeaderHash, GetHeadFastBlockHash, d4, d3. change headHeaderKey with (key IHeadHeader). change headFastKey with (key IHeadFast).
      rewrite !head_put by done. split; [by repeat case_decide|left; by repeat case_decide].
Qed.

(** ** Lines of blocks *)

Inductive bline : Block -> list Block -> Prop :=
| bl_genesis : bline g [g]
| bl_child c q l : bline q l -> BlockHash q = ParentHash (header c) -> bline c (c :: l).

(** From a block back to one of its ancestors, which is not part of the list. *)
Inductive path : Block -> list Block -> Block -> Prop :=
| path_nil c : path c [] c
| path_cons c q bs t : BlockHash q = ParentHash (header c) -> path q bs t -> path c (c :: bs) t.

Lemma bline_top c l : bline c l -> exists l', l = c :: l'.
Proof. by inversion 1; eexists. Qed.
Lemma path_line c bs t l : path c bs t -> bline t l -> bline c (bs ++ l).
Proof. induction 1 as [|c q bs t E _ IH]; intros L; [done|]. econstructor; [by apply IH|done]. Qed.
Lemma path_app a xs b ys c : path a xs b -> path b ys c -> path a (xs ++ ys) c.
Proof. induction 1 as [|a q bs t E _ IH]; intros L; [done|]. econstructor; [done|by apply IH]. Qed.

Lemma genesis_number : Number (header g) = 0.
Proof using W. apply (w_genesis _ _ _ (bk_world W)). Qed.
Lemma number_zero c : P c -> Number (header c) = 0 -> c = g.
Proof using W. intros Hc E. apply (bk_inj W); [done|apply W|]. apply (w_root _ _ _ (bk_world W)); [by apply P_PH|done]. Qed.

Lemma bline_unique c l l' : bline c l -> bline c l' -> Forall P l -> Forall P l' -> l = l'.
Proof using W.
  intros L. revert l'. induction L as [|c q l L IH E]; intros l' L' HP HP'.
  - inversion L' as [|c q l'' L'' E E']; subst; [done|]. apply Forall_cons in HP' as [Hg HP']. destruct (bline_top _ _ L'') as [l3 ->]. apply Forall_cons in HP' as [Hq _].
    pose proof (blk_child g q Hg Hq E). pose proof genesis_number. pose proof (blk_u64 q Hq). go_lia.
  - apply Forall_cons in HP as [Hc HP]. destruct (bline_top _ _ L) as [lq El]. assert (Hq : P q) by (subst l; by apply Forall_cons in HP as [? _]).
    inversion L' as [|c' q' l'' L'' E' Ec]; subst.
    + pose proof (blk_child g q Hc Hq E). pose proof genesis_number. pose proof (blk_u64 q Hq). go_lia.
    + apply Forall_cons in HP' as [_ HP']. destruct (bline_top _ _ L'') as [lq' El']. assert (Hq' : P q') by (subst l''; by apply Forall_cons in HP' as [? _]).
      assert (q' = q) as -> by (apply blk_inj; [done|done|congruence]). f_equal. by apply IH.
Qed.

Lemma bline_below c l : bline c l -> Forall P l -> exists l', l = c :: l' /\ Forall (fun k => Number (header k) < Number (header c)) l'.
Proof using W.
  induction 1 as [|c q l L IH E]; intros HP; [by exists []|]. exists l. split; [done|]. apply Forall_cons in HP as [Hc HP]. destruct (IH HP) as (l' & -> & Hl'). apply Forall_cons in HP as [Hq HP].
  pose proof (blk_child c q Hc Hq E). constructor; [lia|]. eapply Forall_impl; [exact Hl'|]. cbn. lia.
Qed.

Lemma stored_line d c : store_ok d -> stored d c -> exists l, bline c l /\ Forall (stored d) l.
Proof using W.
  intros Hs. remember (Z.to_nat (Number (header c))) as n eqn:En. revert c En. induction n as [|n IH]; intros c En Hc; pose proof (blk_u64 c (proj1 Hc)) as Hu.
  - rewrite (number_zero c) by (apply Hc || go_lia). rewrite (number_zero c) in Hc by (apply Hc || go_lia). exists [g]. split; [constructor|by apply Forall_singleton].
  - destruct (t_parent _ _ _ _ (so_tree d Hs) (header c) (stored_has _ _ Hc)) as (h & Hh & Eh); [go_lia|]. destruct (so_block d Hs h Hh) as (q & <- & Hq).
    pose proof (blk_child c q (proj1 Hc) (proj1 Hq) Eh). destruct (IH q) as (l & L & Hl); [lia|done|]. exists (c :: l). split; [by econstructor|by constructor].
Qed.

Lemma stored_P d l : Forall (stored d) l -> Forall P l.
Proof. intros H. eapply Forall_impl; [exact H|]. by intros c [? _]. Qed.

(** ** Walking back *)

(** A new block [N] on its way into the database: [v] is the database with it, and [old]
    are the blocks without it. *)
Record arriving (v : DB) (N : Block) (old : Block -> Prop) : Prop := {
  ar_store : store_ok v;
  ar_stored : forall c, stored v c <-> c = N \/ old c;
  ar_genesis : old g;
  ar_parent : forall c, old c \/ c = N -> 0 < Number (header c) -> exists q, old q /\ BlockHash q = ParentHash (header c)
}.

Definition mid (v : DB) (N : Block) (old : Block -> Prop) (b : bc) : Prop :=
  cached_ok v b /\ forall x, is_hash x -> x <> BlockHash N \/ old N -> sees (db b) v x.

Lemma calm_sees d d' v x : calm d d' -> is_hash x -> sees d v x -> sees d' v x.
Proof. intros Hc Hx [H1 H2]. split; [intros n Hn; rewrite (calm_block d d') by done; by apply H1|]. rewrite <- H2. by apply (Hc (INumber x)). Qed.
Lemma mid_moved I v N old b b' : (forall i, I i -> ~ block_item i) -> moved I v b b' -> mid v N old b -> mid v N old b'.
Proof. intros HI [H1 _ _ _ Hk] [_ Hs]. split; [done|]. intros x Hx Hn. eapply calm_sees; [by eapply within_calm|done|by apply Hs]. Qed.

Section Walk.
Context (v : DB) (N : Block) (old : Block -> Prop) (A : arriving v N old).
Definition arrived (c : Block) : Prop := old c \/ c = N.

Lemma arrived_stored c : arrived c -> stored v c.
Proof using A. unfold arrived. intros H. apply (ar_stored _ _ _ A). tauto. Qed.
Lemma arrived_P c : arrived c -> P c.
Proof using A. intros H. by apply arrived_stored in H as [? _]. Qed.

(** The parent of a block, and its hash can be read. *)
Lemma parent_seen (b : bc) c : mid v N old b -> arrived c -> sees (db b) v (ParentHash (header c)).
Proof using W A.
  intros [_ Hs] Hc. pose proof (arrived_P c Hc) as HP. apply Hs; [by apply blk_parent|]. destruct (decide (ParentHash (header c) = BlockHash N)) as [E|]; [right|by left].
  assert (HN : P N) by (apply arrived_P; by right). pose proof (blk_child c N HP HN (eq_sym E)) as Hnum. pose proof (blk_u64 N HN).
  destruct (ar_parent _ _ _ A c Hc) as (q & Hq & Eq); [go_lia|]. assert (q = N) as <-; [|done]. apply blk_inj; [by apply arrived_P; left|done|congruence].
Qed.

Lemma walk_parent (b : bc) c : mid v N old b -> arrived c -> runs p (parent c) b (fun b' r => quiet b b' /\ mid v N old b' /\
    if decide (Number (header c) = 0) then r = None else exists q, r = Some q /\ old q /\ BlockHash q = ParentHash (header c) /\ Number (header c) = Number (header q) + 1).
Proof using W A laws.
  intros Hm Hc. pose proof (arrived_P c Hc) as HP. pose proof Hm as [Hk Hs]. eapply runs_mono; [apply (parent_runs b v); [apply A|done|by apply parent_seen|done]|].
  intros b' r (Hq & Hk' & Hr). split; [done|]. split; [split; [done|]; rewrite (q_db _ _ Hq); apply Hs|]. pose proof (blk_u64 c HP) as Hu. case_decide as E0.
  - destruct r as [q|]; [|done]. destruct Hr as [[Hq' _] Eq]. pose proof (blk_child c q HP Hq' Eq). pose proof (blk_u64 q Hq'). go_lia.
  - destruct (ar_parent _ _ _ A c Hc) as (q & Hq' & Eq); [go_lia|]. destruct r as [r|].
    + destruct Hr as [Hr Er]. assert (r = q) as -> by (apply blk_inj; [apply Hr|by apply arrived_P; left|congruence]). exists q. split; [done|]. split; [done|]. split; [done|]. apply blk_child; [done|by apply arrived_P; left|done].
    + exfalso. apply (Hr q); [apply arrived_stored; by left|done].
Qed.

Lemma walk_logs (b : bc) c : mid v N old b -> old c -> runs p (collectLogs (BlockHash c)) b (fun b' _ => quiet b b' /\ mid v N old b').
Proof using W A laws.
  intros [Hk Hs] Hc. eapply runs_mono; [apply (collectLogs_runs b v c); [apply A|done| |apply arrived_stored; by left]|].
  - apply Hs; [apply blk_hash|]. destruct (decide (BlockHash c = BlockHash N)) as [E|]; [right|by left]. assert (c = N) as <-; [|done]. apply blk_inj; [by apply arrived_P; left|by apply arrived_P; right|done].
  - intros b' _ [Hq Hk']. split; [done|]. split; [done|]. rewrite (q_db _ _ Hq). apply Hs.
Qed.

Lemma reduce_runs fuel : forall (b : bc) logs c target, mid v N old b -> arrived c -> (logs = true -> old c) -> 0 <= target <= Number (header c) -> (Z.to_nat (Number (header c)) < fuel)%nat ->
  runs p (BlockChain.reduce Keccak256 Sender fuel logs (Some c) target) b (fun b' r => quiet b b' /\ mid v N old b' /\
    exists t bs ls, r = (Some t, bs, ls) /\ path c bs t /\ Number (header t) = target /\ arrived t /\ (old c -> old t /\ Forall old bs) /\ Forall arrived bs).
Proof using W A laws.
  induction fuel as [|fuel IH]; intros b logs c target Hm Hc Hl Ht Hf; [lia|]. cbn [BlockChain.reduce]. rewrite (blk_number c (arrived_P c Hc)). destruct (_ =? target) eqn:E; bool_to_prop.
  - apply runs_ret. split; [done|]. split; [done|]. exists c, [], []. split; [done|]. split; [constructor|]. auto.
  - eapply runs_bind with (Q := fun b' _ => quiet b b' /\ mid v N old b'); [destruct logs; [apply walk_logs; auto|by apply runs_ret]|]. intros b1 ls [Hq1 Hm1].
    eapply runs_bind; [by apply walk_parent|]. intros b2 r (Hq2 & Hm2 & Hr). rewrite decide_False in Hr by lia. destruct Hr as (q & -> & Hqo & Eq & Hnum).
    eapply runs_bind; [apply (IH b2 logs q target); [done|by left|done|lia|lia]|]. intros b3 r (Hq3 & Hm3 & t & bs & ls' & -> & Hp & Hn & Ha & Ho & Hbs). apply runs_ret. destruct (Ho Hqo) as [Hot Hob].
    split; [by do 2 (etrans; [eassumption|])|]. split; [done|]. exists t, (c :: bs), (ls ++ ls'). split; [done|]. split; [by econstructor|]. split; [done|]. split; [done|]. split; [intros Hco; split; [done|by constructor]|by constructor].
Qed.

Lemma common_runs fuel : forall (b : bc) o n, mid v N old b -> old o -> arrived n -> Number (header o) = Number (header n) -> (Z.to_nat (Number (header o)) < fuel)%nat ->
  runs p (BlockChain.common Keccak256 Sender fuel o n) b (fun b' r => quiet b b' /\ mid v N old b' /\
    exists os ns ls a, r = inr (os, ns, ls) /\ path o os a /\ path n ns a /\ old a /\ Forall old os /\ Forall arrived ns).
Proof using W A laws.
  induction fuel as [|fuel IH]; intros b o n Hm Ho Hn Hnum Hf; [lia|]. cbn [BlockChain.common]. assert (HPo : P o) by (apply arrived_P; by left). pose proof (arrived_P n Hn) as HPn. destruct (_ =? _) eqn:E; bool_to_prop.
  - apply blk_inj in E as ->; [|done|done]. apply runs_ret. split; [done|]. split; [done|]. exists [], [], [], n. split; [done|]. split; [constructor|]. split; [constructor|]. by repeat constructor.
  - assert (Hpos : Number (header o) <> 0) by (intros E0; apply E; rewrite (number_zero o), (number_zero n) by (done || lia); done).
    eapply runs_bind; [by apply walk_logs|]. intros b1 ls [Hq1 Hm1]. eapply runs_bind; [apply walk_parent; [done|by left]|]. intros b2 ro (Hq2 & Hm2 & Hro). rewrite decide_False in Hro by done.
    destruct Hro as (qo & -> & Hqo & Eo & Hno). eapply runs_bind; [by apply walk_parent|]. intros b3 rn (Hq3 & Hm3 & Hrn). rewrite decide_False in Hrn by lia. destruct Hrn as (qn & -> & Hqn & En & Hnn).
    pose proof (blk_u64 qo (arrived_P qo (or_introl Hqo))). eapply runs_bind; [apply (IH b3 qo qn); [done|done|by left|lia|go_lia]|]. intros b4 r (Hq4 & Hm4 & os & ns & ls' & a & -> & Po & Pn & Ha & Hos & Hns). apply runs_ret.
    split; [by do 3 (etrans; [eassumption|])|]. split; [done|]. exists (o :: os), (n :: ns), (ls ++ ls'), a. split; [done|]. split; [by econstructor|]. split; [by econstructor|]. split; [done|]. split; by constructor.
Qed.

End Walk.

(** ** Adopting a chain *)

Definition tx_hashes (c : Block) : list Hash := map TxTypes.TxHash (transactions c).

(** The blocks of a line above the genesis block, which is written without look-up entries
    for its transactions. *)
Definition above (l : list Block) : list Block := filter (fun c => Number (header c) <> 0) l.
Lemma above_app l l' : above (l ++ l') = above l ++ above l'.
Proof. apply filter_app. Qed.
Lemma above_all l : Forall (fun c => Number (header c) <> 0) l -> above l = l.
Proof. apply filter_all. Qed.
Lemma elem_of_above c l : c ∈ above l <-> Number (header c) <> 0 /\ c ∈ l.
Proof. unfold above. by rewrite list_elem_of_filter. Qed.

(** The entry of [x] is its place in a block of the list. *)
Definition points (cs : list Block) (d : DB) (x : Hash) : Prop :=
  exists c j, c ∈ cs /\ 0 <= j /\ tx_hashes c !! Z.to_nat j = Some x /\ GetTxLookupEntry d x = (BlockHash c, Number (header c), j).
Definition absent (d : DB) (x : Hash) : Prop := GetTxLookupEntry d x = (0, 0, 0).

Lemma tx_hashes_ok c : P c -> Forall is_hash (tx_hashes c).
Proof using W.
  intros Hc. destruct (bk_block W c Hc) as [_ [Ht _ _]]. apply Forall_map. eapply Forall_impl; [exact Ht|]. intros tx [E _]. cbn. rewrite E. apply (w_hash _ _ _ (bk_world W)).
Qed.

Definition lookup_item (i : item) : Prop := match i with ILookup _ => True | _ => False end.

Lemma WriteTxLookupEntries_runs c d : P c -> exists d', WriteTxLookupEntries Keccak256 d c = Ret (d', None) /\ within lookup_item d d' /\
  forall x, is_hash x -> (x ∈ tx_hashes c /\ points [c] d' x) \/ (x ∉ tx_hashes c /\ GetTxLookupEntry d' x = GetTxLookupEntry d x).
Proof using W.
  intros Hc. unfold WriteTxLookupEntries, ChainDb.WriteTxLookupEntries. rewrite (blk_number c Hc).
  destruct (write_lookups_spec (BlockHash c) (Number (header c)) (tx_hashes c) (blk_hash c) (blk_u64 c Hc) (tx_hashes_ok c Hc) 0 d) as (d' & E & Hw & Hl); [lia|pose proof (bk_count W c Hc); unfold tx_hashes, len in *; rewrite length_map; go_lia|].
  exists d'. split; [exact E|]. split.
  - intros i Hi Hn. apply Hw; [done|]. intros x ->. by destruct Hn.
  - intros x Hx. rewrite Hl by done. pose proof (last_at_spec (tx_hashes c) 0 x) as H. destruct (last_at 0 (tx_hashes c) x) as [j|] eqn:Ej; [left|by right].
    destruct H as [Hj Hjx]. rewrite Z.sub_0_r in Hjx. split; [by eapply list_elem_of_lookup_2|]. exists c, j. split; [by apply list_elem_of_singleton|]. split; [lia|]. split; [done|]. by rewrite Hl, Ej.
Qed.

Definition ascending : list Block -> Prop := StronglySorted (fun a b => Number (header a) < Number (header b)).

Record adopted (ch : list Block) (b b' : bc) : Prop := {
  ad_canon : forall c, c ∈ ch -> GetCanonicalHash (db b') (Number (header c)) = BlockHash c;
  ad_others : forall n, is_u64 n -> (forall c, c ∈ ch -> Number (header c) <> n) -> GetCanonicalHash (db b') n = GetCanonicalHash (db b) n;
  ad_lookup : forall x, is_hash x -> (x ∈ ch ≫= tx_hashes /\ points ch (db b') x) \/ (x ∉ ch ≫= tx_hashes /\ GetTxLookupEntry (db b') x = GetTxLookupEntry (db b) x);
  ad_head : forall c, last ch = Some c -> block_head b' c /\ (GetCanonicalHash (db b) (Number (header c)) <> BlockHash c -> other_heads b' c);
  ad_none : ch = [] -> b' = b
}.

Lemma points_mono cs cs' d x : cs ⊆ cs' -> points cs d x -> points cs' d x.
Proof. intros H (c & j & Hc & Hr). exists c, j. split; [by apply H|done]. Qed.
Lemma points_same cs d d' x : GetTxLookupEntry d' x = GetTxLookupEntry d x -> points cs d x -> points cs d' x.
Proof. intros E (c & j & H1 & H2 & H3 & H4). exists c, j. by rewrite E. Qed.

(** The heads are not touched by look-up entries. *)
Lemma heads_within (I : item -> Prop) d (b b' : bc) : (forall i, I i -> match i with IHeadBlock | IHeadHeader | IHeadFast => False | _ => True end) ->
  within I (db b) d -> b' = put_db d b -> (forall c, block_head b c -> block_head b' c) /\ forall c, other_heads b c -> other_heads b' c.
Proof.
  intros HI Hw ->. assert (H : forall i, item_ok i -> match i with IHeadBlock | IHeadHeader | IHeadFast => True | _ => False end -> get d (key i) = get (db b) (key i)).
  { intros i Hi Hh. apply get_eq, Hw; [done|]. intros HIi. specialize (HI i HIi). by destruct i. }
  split.
  - intros c [H1 H2]. split; [done|]. unfold GetHeadBlockHash in *. change headBlockKey with (key IHeadBlock) in *. change (db (put_db d b)) with d. by rewrite H.
  - intros c [H1 H2 [H3 H4]]. split; [done|done|]. unfold GetHeadHeaderHash, GetHeadFastBlockHash in *. change headHeaderKey with (key IHeadHeader) in *. change headFastKey with (key IHeadFast) in *.
    change (db (put_db d b)) with d. by rewrite !H.
Qed.

Lemma within_canon (I : item -> Prop) d d' n : (forall i, I i -> match i with ICanon _ => False | _ => True end) -> within I d d' -> is_u64 n -> GetCanonicalHash d' n = GetCanonicalHash d n.
Proof. intros HI Hw Hn. apply canon_same; [done|]. apply Hw; [done|]. intros H. by apply (HI _ H). Qed.

Lemma put_moved (I : item -> Prop) v d (b : bc) : within I (db b) d -> cached_ok v b -> moved I v b (put_db d b).
Proof. intros Hw Hk. split; [done|done|done|done|by apply (cached_move v b)]. Qed.

Lemma adopt_runs v ch : Forall P ch -> ascending ch -> forall b : bc, cached_ok v b ->
  runs p (adopt Keccak256 ch) b (fun b' r => r = None /\ moved head_item v b b' /\ adopted ch b b').
Proof using W.
  induction 1 as [|c ch Hc HP IH]; intros Hs b Hk; cbn [adopt].
  { apply runs_ret. split; [done|]. split; [by apply quiet_moved|]. split; [by intros c ?%elem_of_nil|done| |done|done]. intros x Hx. right. split; [apply not_elem_of_nil|done]. }
  inversion Hs as [|? ? Hs' Hlt]; subst. rewrite Forall_forall in Hlt. pose proof (blk_u64 c Hc) as Hu.
  eapply runs_bind; [by apply (insert_runs b v)|]. intros b1 [] [Hm1 [I1 I2 I3 I4]]. apply runs_gets. destruct (WriteTxLookupEntries_runs c (db b1) Hc) as (d2 & E2 & Hw2 & Hl2).
  eapply runs_lift; [exact E2|]. apply runs_set. set (b2 := put_db d2 b1).
  assert (Hm2 : moved head_item v b1 b2) by (apply put_moved; [eapply within_mono; [|exact Hw2]; by intros []|apply Hm1]).
  destruct (heads_within lookup_item d2 b1 b2 ltac:(by intros []) Hw2 eq_refl) as [Hhb Hho]. assert (Hcan2 : forall n, is_u64 n -> GetCanonicalHash (db b2) n = GetCanonicalHash (db b1) n) by (intros n Hn; eapply within_canon; [|exact Hw2|done]; by intros []).
  eapply runs_mono; [apply (IH Hs' b2); apply Hm2|]. intros b3 r (-> & Hm3 & [A1 A2 A3 A4 A5]). split; [done|]. split; [by do 2 (eapply moved_trans; [eassumption|])|]. split.
  - intros k Hk'. apply elem_of_cons in Hk' as [->|Hk']; [|by apply A1]. rewrite A2, Hcan2, I1, decide_True by done || (intros k Hk'; specialize (Hlt k Hk'); cbn in Hlt; lia). done.
  - intros n Hn Hne. rewrite A2, Hcan2, I1 by (done || intros k Hk'; apply Hne; by apply elem_of_cons; right). rewrite decide_False; [done|]. intros ->. apply (Hne c); [by apply elem_of_cons; left|done].
  - intros x Hx. cbn [mbind list_bind]. rewrite elem_of_app. destruct (A3 x Hx) as [[Hin Hp]|[Hout E]].
    + left. split; [by right|]. eapply points_mono; [|exact Hp]. intros k Hk'. apply elem_of_cons. by right.
    + destruct (Hl2 x Hx) as [[Hin Hp]|[Hout' E']].
      * left. split; [by left|]. eapply points_mono; [|eapply points_same; [exact E|exact Hp]]. intros k Hk'%list_elem_of_singleton. subst. by apply elem_of_cons; left.
      * right. split; [tauto|]. change (db b2) with d2 in E. rewrite E, E'. by apply I2.
  - intros k El. destruct ch as [|k' ch].
    + injection El as <-. rewrite (A5 eq_refl). split; [by apply Hhb|]. intros Hne. rewrite decide_False in I4 by done. by apply Hho.
    + change (last (k' :: ch) = Some k) in El. destruct (A4 k El) as [B1 B2]. split; [done|]. intros Hne. apply B2.
      assert (Hin : k ∈ k' :: ch) by (by apply last_Some_elem_of). specialize (Hlt k Hin). cbn in Hlt. assert (HPk : P k) by (rewrite Forall_forall in HP; by apply HP).
      rewrite Hcan2, I1, decide_False by (lia || by apply blk_u64). done.
  - done.
Qed.

(** ** Reorganising *)

Lemma delete_lookups txs : Forall is_hash (map TxTypes.TxHash txs) -> forall d, let d' := fold_left (fun d tx => DeleteTxLookupEntry d (TxTypes.TxHash tx)) txs d in
  within lookup_item d d' /\ forall x, is_hash x -> GetTxLookupEntry d' x = if decide (x ∈ map TxTypes.TxHash txs) then (0, 0, 0) else GetTxLookupEntry d x.
Proof.
  induction txs as [|tx txs IH]; intros Hh d; cbn [fold_left map] in *; [by split; [|intros x Hx; rewrite decide_False by apply not_elem_of_nil]|]. apply Forall_cons in Hh as [Hx0 Hh].
  destruct (IH Hh (DeleteTxLookupEntry d (TxTypes.TxHash tx))) as [Hw Hl]. change (DeleteTxLookupEntry d (TxTypes.TxHash tx)) with (delete (key (ILookup (TxTypes.TxHash tx))) d) in *. split.
  - eapply within_trans; [|exact Hw]. by apply within_del.
  - intros x Hx. rewrite Hl by done. destruct (decide (x ∈ map TxTypes.TxHash txs)) as [Hin|Hout]; [rewrite decide_True; [done|by apply elem_of_cons; right]|]. rewrite !decode_entry_get.
    destruct (decide (x = TxTypes.TxHash tx)) as [->|Hne].
    + rewrite decide_True by (by apply elem_of_cons; left). by rewrite get_del_same.
    + rewrite decide_False by (by apply not_elem_of_cons). rewrite get_del_other; [done|done|done|congruence].
Qed.

Lemma bind_hashes (cs : list Block) : map TxTypes.TxHash (cs ≫= transactions) = cs ≫= tx_hashes.
Proof. induction cs as [|c cs IH]; [done|]. cbn [mbind list_bind]. rewrite map_app. by rewrite IH. Qed.

Lemma diff_hashes os ns x : x ∈ map TxTypes.TxHash (TxTypes.TxDifference (os ≫= transactions) (ns ≫= transactions)) <-> x ∈ os ≫= tx_hashes /\ x ∉ ns ≫= tx_hashes.
Proof.
  unfold TxTypes.TxDifference. rewrite <- !bind_hashes. split.
  - intros Hx. apply list_elem_of_fmap in Hx as (tx & -> & Hx). apply list_elem_of_filter in Hx as [Hn Hin]. rewrite elem_of_list_to_set in Hn. split; [apply list_elem_of_fmap; by exists tx|done].
  - intros [Hin Hn]. apply list_elem_of_fmap in Hin as (tx & -> & Hin). apply list_elem_of_fmap. exists tx. split; [done|]. apply list_elem_of_filter. split; [|done]. by rewrite elem_of_list_to_set.
Qed.

Lemma path_ascending c bs t : path c bs t -> Forall P bs -> P t -> ascending (reverse bs) /\ Forall (fun k => Number (header t) < Number (header k)) bs /\ (bs = [] -> c = t).
Proof using W.
  induction 1 as [c|c q bs t E Hp IH]; intros HP Ht; [split; [constructor|done]|]. apply Forall_cons in HP as [Hc HP]. destruct (IH HP Ht) as (H1 & H2 & H3).
  assert (Hq : P q) by (inversion Hp; subst; [done|by apply Forall_cons in HP as [? _]]). pose proof (blk_child c q Hc Hq E) as Hn.
  assert (Hlt : Forall (fun k => Number (header k) < Number (header c)) bs).
  { clear -W Hp HP Hn Ht. assert (H : Forall (fun k => Number (header k) <= Number (header q)) bs); [|eapply Forall_impl; [exact H|]; cbn; lia]. clear Hn.
    induction Hp as [|q r bs t E Hp IH]; [done|]. apply Forall_cons in HP as [Hq HP]. constructor; [lia|]. assert (Hr : P r) by (inversion Hp; subst; [done|by apply Forall_cons in HP as [? _]]).
    pose proof (blk_child q r Hq Hr E). eapply Forall_impl; [by apply IH|]. cbn. lia. }
  split; [rewrite reverse_cons; apply StronglySorted_snoc; [done|by apply Forall_reverse]|]. split; [|done]. constructor; [|done].
  destruct bs as [|k bs]; [rewrite <- H3 by done; lia|]. apply Forall_cons in H2 as [? _]. inversion Hp; subst. lia.
Qed.

(** What a reorganisation from [H] with the line [lH] to [N] did. *)
Record reorged (N : Block) (lH : list Block) (b b' : bc) : Prop := {
  re_chains : exists oldChain newChain la a, lH = oldChain ++ la /\ bline a la /\ path N newChain a /\ Forall P newChain /\
    (forall c, c ∈ newChain -> GetCanonicalHash (db b') (Number (header c)) = BlockHash c) /\
    (forall n, is_u64 n -> (forall c, c ∈ newChain -> Number (header c) <> n) -> GetCanonicalHash (db b') n = GetCanonicalHash (db b) n) /\
    (forall x, is_hash x -> (x ∈ newChain ≫= tx_hashes /\ points newChain (db b') x) \/
       (x ∉ newChain ≫= tx_hashes /\ if decide (x ∈ oldChain ≫= tx_hashes) then absent (db b') x else GetTxLookupEntry (db b') x = GetTxLookupEntry (db b) x)) /\
    (newChain = [] -> N = a /\ (forall k, block_head b k -> block_head b' k) /\ forall k, other_heads b k -> other_heads b' k) /\
    (newChain <> [] -> block_head b' N /\ (GetCanonicalHash (db b) (Number (header N)) <> BlockHash N -> other_heads b' N))
}.

Lemma elem_of_bind_reverse (cs : list Block) x : x ∈ reverse cs ≫= tx_hashes <-> x ∈ cs ≫= tx_hashes.
Proof. rewrite !list_elem_of_bind. by setoid_rewrite elem_of_reverse. Qed.

Lemma quiet_heads (b b' : bc) : quiet b b' -> (forall k, block_head b k -> block_head b' k) /\ forall k, other_heads b k -> other_heads b' k.
Proof.
  intros [(H1 & _ & H2 & H3) _ H4 H5 _ _]. split.
  - intros k [E1 E2]. split; [congruence|]. unfold db in *. by rewrite H1.
  - intros k [[E1 E2] E3 [E4 E5]]. split; [split; congruence|congruence|]. unfold db in *. by rewrite H1.
Qed.

(** Sending events changes nothing that is read. *)
Lemma runs_send {B : Type} es (k : unit -> SM bc B) (b : bc) R : runs p (k tt) (with_feed (feed b ++ es) (tick b) b) R -> runs p (send es ≫= k) b R.
Proof. done. Qed.
Lemma feed_quiet (b : bc) es t : quiet b (with_feed es t b).
Proof. by split. Qed.
Lemma feed_cached v (b : bc) es t : cached_ok v b -> cached_ok v (with_feed es t b).
Proof. by apply cached_move. Qed.

Lemma path_top c bs t : path c bs t -> bs <> [] -> head bs = Some c.
Proof. by inversion 1. Qed.

(** The last part of [reorg]: the chains are known. *)
Lemma switch_runs v N oldChain newChain la a lH dl (b : bc) : cached_ok v b -> lH = oldChain ++ la -> bline a la -> path N newChain a -> P a -> Forall P oldChain -> Forall P newChain ->
  runs p (e ← adopt Keccak256 (reverse newChain);
          match e with
          | Some e => mret (Some (ErrRlp e))
          | None =>
              let diff := TxTypes.TxDifference (oldChain ≫= transactions) (reverse newChain ≫= transactions) in
              _ ← update_db (fun d => fold_left (fun d tx => DeleteTxLookupEntry d (TxTypes.TxHash tx)) diff d);
              _ ← (match dl with [] => mret tt | l :: ls => send [ERemovedLogs (l :: ls)] end);
              _ ← send (map ESide oldChain);
              mret None
          end) b (fun b' r => r = None /\ moved head_item v b b' /\ reorged N lH b b').
Proof using W.
  intros Hk ElH Hla Hp Ha Hos Hns. destruct (path_ascending N newChain a Hp Hns Ha) as (Hasc & Habove & Hnil).
  eapply runs_bind; [apply (adopt_runs v); [by apply Forall_reverse|done|done]|]. intros b1 r (-> & Hm1 & [A1 A2 A3 A4 A5]). cbn zeta. apply runs_update.
  set (diff := TxTypes.TxDifference _ _). assert (Hdh : Forall is_hash (map TxTypes.TxHash diff)).
  { apply Forall_forall. intros x Hx. apply diff_hashes in Hx as [Hx _]. apply list_elem_of_bind in Hx as (c & Hx & Hc). rewrite Forall_forall in Hos. specialize (Hos c Hc). pose proof (tx_hashes_ok c Hos) as H. rewrite Forall_forall in H. by apply H. }
  destruct (delete_lookups diff Hdh (db b1)) as [Hw Hl]. set (d2 := fold_left _ diff (db b1)) in *. set (b2 := put_db d2 b1).
  assert (Hm2 : moved head_item v b1 b2) by (apply put_moved; [eapply within_mono; [|exact Hw]; by intros []|apply Hm1]).
  destruct (heads_within lookup_item d2 b1 b2 ltac:(by intros []) Hw eq_refl) as [Hhb Hho].
  assert (Hcan2 : forall n, is_u64 n -> GetCanonicalHash (db b2) n = GetCanonicalHash (db b1) n) by (intros n Hn; eapply within_canon; [|exact Hw|done]; by intros []).
  eapply runs_bind with (Q := fun b' _ => quiet b2 b' /\ cached_ok v b'); [destruct dl; [apply runs_ret; split; [done|apply Hm2]|split; [by apply feed_quiet|by apply feed_cached, Hm2]]|].
  intros b3 [] [Hq3 Hk3]. apply runs_send, runs_ret. match goal with |- _ = _ /\ moved _ _ _ ?x /\ _ => set (b4 := x) end. assert (Hq4 : quiet b3 b4) by apply feed_quiet. assert (Hq : quiet b2 b4) by (by etrans).
  split; [done|]. split; [eapply moved_trans; [exact Hm1|]; eapply moved_trans; [exact Hm2|]; apply quiet_moved; [done|by apply feed_cached]|].
  destruct (quiet_heads b2 b4 Hq) as [Hqb Hqo]. pose proof (q_db _ _ Hq) as Ed4. split. exists oldChain, newChain, la, a. rewrite Ed4.
  split; [done|]. split; [done|]. split; [done|]. split; [done|]. split; [|split; [|split; [|split]]].
  - intros c Hc. assert (Pc : P c) by (rewrite Forall_forall in Hns; by apply Hns). rewrite Hcan2 by (by apply blk_u64). apply A1. by apply elem_of_reverse.
  - intros n Hn Hne. rewrite Hcan2 by done. apply A2; [done|]. intros c Hc. rewrite elem_of_reverse in Hc. by apply Hne.
  - intros x Hx. destruct (A3 x Hx) as [[Hin Hpt]|[Hout E]].
    + left. rewrite elem_of_bind_reverse in Hin. split; [done|]. destruct Hpt as (c & j & H1 & H2 & H3 & H4). exists c, j. rewrite elem_of_reverse in H1. split; [done|]. split; [done|]. split; [done|].
      change (db b2) with d2. rewrite Hl by done. rewrite decide_False; [done|]. intros Hd. apply diff_hashes in Hd as [_ Hd]. apply Hd. by apply elem_of_bind_reverse.
    + right. rewrite elem_of_bind_reverse in Hout. split; [done|]. change (db b2) with d2. unfold absent. rewrite Hl by done. case_decide as Ed.
      * rewrite decide_True; [done|]. apply diff_hashes. split; [done|]. by rewrite elem_of_bind_reverse.
      * rewrite decide_False; [done|]. intros Hd. apply diff_hashes in Hd as [Hd _]. done.
  - intros Hn. subst newChain. split; [by apply Hnil|]. assert (E : b1 = b) by (by apply A5). subst b1. split; intros k H; [by apply Hqb, Hhb|by apply Hqo, Hho].
  - intros Hn. assert (Hlast : last (reverse newChain) = Some N) by (rewrite last_reverse; by eapply path_top). destruct (A4 N Hlast) as [B1 B2]. split; [by apply Hqb, Hhb|]. intros Hc. by apply Hqo, Hho, B2.
Qed.

Lemma reorg_runs v N old (b : bc) H lH : arriving v N old -> mid v N old b -> old H -> bline H lH -> Forall old lH ->
  runs p (reorg Keccak256 Sender H N) b (fun b' r => r = None /\ moved head_item v b b' /\ reorged N lH b b').
Proof using W laws.
  intros A Hm HH HlH Hold. assert (HPH : P H) by (eapply arrived_P; [done|by left]). assert (HPN : P N) by (eapply arrived_P; [done|by right]). unfold reorg. cbn zeta.
  rewrite (blk_number H HPH), (blk_number N HPN). pose proof (blk_u64 H HPH) as HuH. pose proof (blk_u64 N HPN) as HuN.
  assert (HlP : Forall P lH) by (eapply Forall_impl; [exact Hold|]; intros c Hc; eapply arrived_P; [done|by left]).
  eapply runs_bind with (Q := fun b' r => quiet b b' /\ mid v N old b' /\ exists o os dl n ns, r = (Some o, os, dl, Some n, ns) /\ path H os o /\ path N ns n /\ old o /\ arrived N old n /\
    Number (header o) = Number (header n) /\ Forall old os /\ Forall (arrived N old) ns).
  { destruct (_ <? _) eqn:E; bool_to_prop.
    - eapply runs_bind; [apply (reduce_runs v N old A _ b true H); [done|by left|done|go_lia|lia]|]. intros b1 r (Hq & Hm1 & t & bs & ls & -> & Hp & Hn & _ & Ho & _). destruct (Ho HH) as [Hot Hob]. apply runs_ret.
      split; [done|]. split; [done|]. exists t, bs, ls, N, []. split; [done|]. split; [done|]. split; [constructor|]. split; [done|]. split; [by right|]. auto.
    - eapply runs_bind; [apply (reduce_runs v N old A _ b false N); [done|by right|done|go_lia|lia]|]. intros b1 r (Hq & Hm1 & t & bs & ls & -> & Hp & Hn & Hat & _ & Hbs). apply runs_ret.
      split; [done|]. split; [done|]. exists H, [], [], t, bs. split; [done|]. split; [constructor|]. split; [done|]. split; [done|]. split; [done|]. auto. }
  intros b1 r (Hq1 & Hm1 & o & os & dl & n & ns & -> & Po & Pn & Hoo & Han & Enum & Hos & Hns).
  assert (HPo : P o) by (eapply arrived_P; [done|by left]). rewrite (blk_number o HPo).
  eapply runs_bind; [apply (common_runs v N old A _ b1 o n); [done|done|done|done|lia]|]. intros b2 r (Hq2 & Hm2 & os' & ns' & dl' & a & -> & Po' & Pn' & Hoa & Hos' & Hns').
  assert (HPa : P a) by (eapply arrived_P; [done|by left]). destruct (stored_line v a (ar_store _ _ _ A)) as (la & Hla & Hsa); [eapply arrived_stored; [done|by left]|]. apply stored_P in Hsa.
  assert (HoldP : forall l, Forall old l -> Forall P l) by (intros l Hl; eapply Forall_impl; [exact Hl|]; intros c Hc; eapply arrived_P; [done|by left]).
  assert (HarrP : forall l, Forall (arrived N old) l -> Forall P l) by (intros l Hl; eapply Forall_impl; [exact Hl|]; intros c Hc; by eapply arrived_P).
  assert (Hq : quiet b b2) by (by etrans).
  eapply runs_mono; [apply (switch_runs v N (os ++ os') (ns ++ ns') la a lH (dl ++ dl') b2)|].
  - apply Hm2.
  - eapply bline_unique; [exact HlH|apply (path_line _ _ _ _ (path_app _ _ _ _ _ Po Po') Hla)|done|]. apply Forall_app. split; [apply Forall_app; split; auto|done].
  - done.
  - by eapply path_app.
  - done.
  - apply Forall_app. split; auto.
  - apply Forall_app. split; auto.
  - intros b3 r (-> & Hm3 & [Hre]). split; [done|]. split; [eapply moved_trans; [apply quiet_moved; [exact Hq|apply Hm2]|done]|]. destruct (quiet_heads b b2 Hq) as [Hhb Hho]. pose proof (q_db _ _ Hq) as Ed. rewrite Ed in Hre.
    split. destruct Hre as (oc & nc & la' & a' & R1 & R2 & R3 & R4 & R5 & R6 & R7 & R8 & R9). exists oc, nc, la', a'. do 7 (split; [done|]). split; [|done].
    intros En. destruct (R8 En) as (B1 & B2 & B3). split; [done|]. split; auto.
Qed.

End Chain.

End BlockChainProps.
