(* ===== verification/BlockWrite.v ===== *)
(** Writing a block with its state ([WriteBlockWithState]): the block arrives in the
    database, the fork choice is made, and the chain keeps its invariant. *)

From S2P Require Import Prelude Params Bytes Cache RlpEncode RlpDecode RlpRoundtrip Trie Consensus Heap TxTypes ChainDb ChainDbProps HeaderChain HeaderChainProps Queue StateDB Receipt Block BlockProps BlockChain BlockChainProps.
Import ChainDb ChainDbProps HeaderChain HeaderChainProps Receipt ReceiptProps Block BlockProps BlockChain BlockChainProps.

Module BlockWrite.

(** [durable]: the state with this root is on disk.  Collecting garbage in memory never
    removes it, and a commit of both the state and its trie makes the root durable. *)
Class StateLaws (S St : Type) {ops : StateOps S St} := {
  durable : S -> Hash -> Prop;
  durable_New : forall s r, durable s r -> exists st, state_New s r = inr st;
  durable_Commit : forall st s r, durable s r -> durable (fst (state_Commit st s)) r;
  durable_trie : forall s h r, durable s r -> durable (fst (trie_Commit s h)) r;
  durable_Reference : forall s h r, durable s r -> durable (trie_Reference s h) r;
  durable_Dereference : forall s h r, durable s r -> durable (trie_Dereference s h) r;
  Commit_root : forall st s s' r, state_Commit st s = (s', inr r) -> r = state_Root st;
  Commit_durable : forall st s s' r s'', state_Commit st s = (s', inr r) -> trie_Commit s' r = (s'', None) -> durable s'' r
}.

(** ** Batches *)

Lemma write_lookups_union bh n txs : forall i b1 b2 d, write_lookups bh n i txs b1 = Ret (b2, None) -> write_lookups bh n i txs (b1 ∪ d) = Ret (b2 ∪ d, None).
Proof.
  induction txs as [|tx txs IH]; intros i b1 b2 d E; cbn [write_lookups] in *; [by injection E as <-|]. destruct (Rlp.EncodeToBytes _ _) as [[e|data]|]; [done| |done]. cbn [mbind outcome_bind] in *.
  rewrite insert_union_l. by apply IH.
Qed.

Section Write.
Context (Keccak256 : bytes -> Hash) (Sender : txdata -> option Address) (g : Block) (P : Block -> Prop).
Abbreviation HeaderHash := (HeaderHash Keccak256).
Abbreviation BlockHash := (BlockHash Keccak256).
Abbreviation DbBlock := (Block.GetBlock Keccak256 Sender).
Context (W : blocks_ok Keccak256 Sender g P).
Abbreviation PH := (PH P).
Abbreviation tree_ok := (tree_ok Keccak256 (header g) PH).
Abbreviation has := (has Keccak256 PH).
Abbreviation td := (td Keccak256).
Abbreviation added := (added Keccak256 PH).
Abbreviation stored := (stored Keccak256 Sender P).
Abbreviation store_ok := (store_ok Keccak256 Sender g P).
Abbreviation bline := (bline Keccak256 g).
Abbreviation path := (path Keccak256).
Abbreviation points := (points Keccak256).
Abbreviation sees := (sees Keccak256 Sender).

(** The records that [WriteBlock] writes. *)
Definition put_block (N : Block) (bd hd : bytes) (d : DB) : DB :=
  <[key (IHeader (BlockHash N) (Number (header N))) := hd]> (<[key (INumber (BlockHash N)) := encodeBlockNumber (Number (header N))]> (<[key (IBody (BlockHash N) (Number (header N))) := bd]> d)).

Lemma WriteBlock_puts N : P N -> exists bd hd, (forall d, WriteBlock Keccak256 d N = Ret (inr (put_block N bd hd d))) /\ decode_body Keccak256 Sender bd = Some (body_of N) /\ EncodeHeader (header N) = Ret (inr hd).
Proof using W.
  intros HN. destruct (bk_block _ _ _ _ W N HN) as [Hh Hb]. destruct (block_number N Hh) as [En Hn]. destruct (body_encode Keccak256 Sender _ Hb) as (bd & E & Hne & Hd). destruct (header_roundtrip _ Hh) as (hd & Eh & _).
  exists bd, hd. split; [|split; [unfold decode_body; by destruct bd|done]]. intros d. unfold WriteBlock, WriteBody, ChainDb.WriteHeader. rewrite E, En. cbn [mbind outcome_bind]. rewrite Eh. cbn [mbind outcome_bind]. unfold NumberU64 in En. by rewrite En.
Qed.

Lemma put_block_union N bd hd b d : put_block N bd hd b ∪ d = put_block N bd hd (b ∪ d).
Proof. unfold put_block. by rewrite !insert_union_l. Qed.

Definition block_items (N : Block) (i : item) : Prop := i = IHeader (BlockHash N) (Number (header N)) \/ i = INumber (BlockHash N) \/ i = IBody (BlockHash N) (Number (header N)).
Lemma put_block_within N bd hd d : P N -> within (block_items N) d (put_block N bd hd d).
Proof using W.
  intros HN. pose proof (blk_hash _ _ _ _ W N) as Hx. pose proof (blk_u64 _ _ _ _ W N HN) as Hn. unfold put_block.
  eapply within_trans; [|apply within_put; [done|by left]]. eapply within_trans; [|apply within_put; [done|by right; left]]. apply within_put; [done|by right; right].
Qed.
Lemma put_block_agree N bd hd d d' i : item_ok i -> d' !! key i = d !! key i -> put_block N bd hd d' !! key i = put_block N bd hd d !! key i.
Proof. intros Hi E. unfold put_block. rewrite !lookup_insert. by repeat case_decide. Qed.

Lemma added_same d h w d1 d2 : added d h w d1 -> same_headers d1 d2 -> (forall n, is_u64 n -> GetCanonicalHash d2 n = GetCanonicalHash d1 n) -> PH h -> added d h w d2.
Proof using W.
  intros [A1 A2 A3 A4 A5 A6 A7] Hs Hc Hh. split.
  - intros k. rewrite <- A1. apply (same_has _ _ _ (bk_world _ _ _ _ W) _ _ _ Hs).
  - intros k Hk. rewrite <- A2 by done. by apply (same_td_of _ _ _ (bk_world _ _ _ _ W)).
  - intros n Hn. by rewrite Hc, A3.
  - intros x n Hx Hn. rewrite <- A4 by done. by apply Hs.
  - intros x n Hx Hn. rewrite <- A5 by done. by apply Hs.
  - intros x Hx. rewrite <- A6 by done. by apply Hs.
  - intros x n Hx Hn. rewrite (same_raw _ _ Hs) by done. by apply A7.
Qed.

(** A block on top of a stored one is written: [d1] with its difficulty, [v] with all of
    it. *)
Record arrives (d : DB) (N : Block) (w : Z) (d1 v : DB) : Prop := {
  av_td : ChainDb.WriteTd d (BlockHash N) (Number (header N)) w = Ret (inr d1);
  av_within : within (fun i => i = ITd (BlockHash N) (Number (header N))) d d1;
  av_block : exists bd hd, v = put_block N bd hd d1 /\ forall d', WriteBlock Keccak256 d' N = Ret (inr (put_block N bd hd d'));
  av_added : added d (header N) w v;
  av_grown : grown Keccak256 PH d v;
  av_arriving : arriving Keccak256 Sender g P v N (stored d);
  av_sees : forall x, is_hash x -> x <> BlockHash N \/ stored d N -> sees d1 v x;
  av_above : Number (header N) <> 0
}.

Lemma WriteTd_put d x n w : 0 <= w < 2 ^ 400 -> exists data, ChainDb.WriteTd d x n w = Ret (inr (<[key (ITd x n) := data]> d)).
Proof. intros Hw. destruct (td_roundtrip w Hw) as (data & E & _). exists data. unfold ChainDb.WriteTd. by rewrite E. Qed.

Lemma put_block_canon N bd hd d n : P N -> is_u64 n -> GetCanonicalHash (put_block N bd hd d) n = GetCanonicalHash d n.
Proof using W. intros HN Hn. eapply within_canon; [|by apply put_block_within|done]. intros i [->|[->| ->]]; done. Qed.

Lemma put_block_body N bd hd d x n : P N -> is_hash x -> is_u64 n -> decode_body Keccak256 Sender bd = Some (body_of N) ->
  Block.GetBody Keccak256 Sender (put_block N bd hd d) x n = if decide (x = BlockHash N /\ n = Number (header N)) then Some (body_of N) else Block.GetBody Keccak256 Sender d x n.
Proof using W.
  intros HN Hx Hn Hbd. pose proof (blk_hash _ _ _ _ W N) as Hy. pose proof (blk_u64 _ _ _ _ W N HN) as Hu. unfold put_block. rewrite !GetBody_put by done.
  rewrite (decide_False (P := IHeader _ _ = _)), (decide_False (P := INumber _ = _)) by done. destruct (decide (IBody _ _ = _)) as [E|E].
  - injection E as <- <-. by rewrite decide_True.
  - rewrite decide_False; [done|]. intros [-> ->]. done.
Qed.

Lemma block_arrives d N q wp : store_ok d -> P N -> stored d q -> BlockHash q = ParentHash (header N) -> td d (header q) = Some wp -> exists d1 v, arrives d N (Difficulty (header N) + wp) d1 v.
Proof using W.
  intros Hd HN Hq Epar Ewp. pose proof (bk_world _ _ _ _ W) as W0. set (w := Difficulty (header N) + wp). pose proof (blk_hash _ _ _ _ W N) as Hx. pose proof (blk_u64 _ _ _ _ W N HN) as Hu.
  assert (HPN : PH (header N)) by (by exists N). assert (HPq : has d (header q)) by (by eapply stored_has).
  assert (Hw : 0 <= w < 2 ^ 400).
  { destruct (td_small _ _ _ W0 d _ _ (so_tree _ _ _ _ _ Hd) HPq Ewp). destruct (w_header _ _ _ W0 _ HPN) as [_ _ _ _ [? _] _ _]. pose proof (w_bound _ _ _ W0 _ HPN) as [_ ?]. unfold w. lia. }
  destruct (WriteTd_put d (BlockHash N) (Number (header N)) w Hw) as [data E1]. destruct (WriteBlock_puts N HN) as (bd & hd & Eb & Hbd & Ehd).
  set (d1 := <[key _ := data]> d) in *. set (v := put_block N bd hd d1). destruct (add_header _ _ _ W0 d (header N) w (so_tree _ _ _ _ _ Hd) HPN Hw) as (d1' & d2 & E1' & E2 & Hadd).
  change (HeaderHash (header N)) with (BlockHash N) in E1'. rewrite E1 in E1'. injection E1' as <-.
  assert (Hsame : same_headers d2 v /\ forall n, is_u64 n -> GetCanonicalHash v n = GetCanonicalHash d2 n).
  { unfold ChainDb.WriteHeader in E2. rewrite Ehd in E2. cbn [mbind outcome_bind] in E2. change (HeaderHash (header N)) with (BlockHash N) in E2. rewrite big_Uint64_id in E2 by done. injection E2 as <-.
    assert (Hag : forall i, item_ok i -> i <> IBody (BlockHash N) (Number (header N)) -> v !! key i = <[headerKey (BlockHash N) (Number (header N)) := hd]> (<[numberKey (BlockHash N) := encodeBlockNumber (Number (header N))]> d1) !! key i).
    { intros i Hi Hne. unfold v, put_block. rewrite !lookup_insert. repeat case_decide; try done. exfalso. apply Hne. by apply key_inj. }
    split; [split|]; intros.
    - rewrite !decode_header_get. f_equal. by apply get_eq, Hag.
    - unfold ChainDb.GetTd. change (tdKey x n) with (key (ITd x n)). erewrite get_eq; [done|by apply Hag].
    - by apply (Hag (INumber x)).
    - by apply (Hag (IHeader x n)).
    - unfold GetCanonicalHash. change (canonKey n) with (key (ICanon n)). erewrite get_eq; [done|by apply Hag]. }
  destruct Hsame as [Hsame Hcan]. assert (Hav : added d (header N) w v) by (by eapply added_same).
  destruct (added_tree _ _ _ W0 d (header N) (header q) wp v (so_tree _ _ _ _ _ Hd) HPN HPq Epar Ewp Hav) as [Htree Hgrown].
  assert (Hblock : forall x n, is_hash x -> is_u64 n -> DbBlock v x n = if decide (x = BlockHash N /\ n = Number (header N)) then Some N else DbBlock d x n).
  { intros x n Hxx Hn. rewrite !GetBlock_eq. rewrite (a_header _ _ _ _ _ _ Hav) by done. unfold v. rewrite put_block_body by done. change (HeaderHash (header N)) with (BlockHash N). case_decide as E.
    - cbn [mbind option_bind]. by destruct N.
    - rewrite !decode_body_get. unfold d1. by rewrite get_put_other. }
  pose proof (blk_hash _ _ _ _ W) as Hbh. pose proof (blk_u64 _ _ _ _ W) as Hbu. assert (Hst : forall c, stored v c <-> c = N \/ stored d c).
  { intros c. unfold BlockChainProps.stored. split.
    - intros [Hc E]. rewrite Hblock in E by (apply Hbh || by apply Hbu). case_decide; [left; congruence|by right].
    - intros [->|[Hc E]]; (split; [done|]); rewrite Hblock by (apply Hbh || by apply Hbu); case_decide as Ed; [done|tauto| |done].
      f_equal. symmetry. eapply blk_inj; [done|done|done|apply Ed]. }
  assert (Hstore : store_ok v).
  { split; [done| |].
    2: { intros x n Hxx Hn Hi. destruct (decide (IBody x n = IBody (BlockHash N) (Number (header N)))) as [E|E]; [injection E as -> ->; exists N; split; [apply Hst; by left|done]|].
      unfold v in Hi. rewrite (put_block_within N bd hd d1 HN (IBody x n)) in Hi by (done || intros [?|[?|?]]; done). unfold d1 in Hi. rewrite lookup_insert_ne in Hi by (intros Ek; apply key_inj in Ek; done).
      destruct (so_body _ _ _ _ _ Hd x n Hxx Hn Hi) as (b & Hb & ?). exists b. split; [apply Hst; by right|done]. }
    intros h Hh. apply (a_has _ _ _ _ _ _ Hav) in Hh as [->|Hh]; [exists N; split; [done|apply Hst; by left]|]. destruct (so_block _ _ _ _ _ Hd h Hh) as (b & E & Hb). exists b. split; [done|]. apply Hst. by right. }
  assert (Hold : forall b, (stored d b \/ b = N) -> 0 < Number (header b) -> exists q, stored d q /\ BlockHash q = ParentHash (header b)).
  { intros b [Hb| ->] Hpos; [|by exists q]. destruct (t_parent _ _ _ _ (so_tree _ _ _ _ _ Hd) _ (stored_has _ _ _ _ _ Hb) Hpos) as (h & Hh & Eh). destruct (so_block _ _ _ _ _ Hd h Hh) as (c & <- & Hc). by exists c. }
  assert (Hgen : stored d g) by (eapply has_stored; [done|done|apply W|apply (t_genesis _ _ _ _ (so_tree _ _ _ _ _ Hd))]).
  assert (Hd1 : forall i, item_ok i -> (match i with ITd _ _ => False | _ => True end) -> d1 !! key i = d !! key i) by (intros i Hi Hne; unfold d1; rewrite lookup_insert_ne; [done|]; intros E; apply key_inj in E; [by subst|done|done]).
  exists d1, v. split; [done|by apply within_put|by exists bd, hd|done|done|by split| |pose proof (blk_child _ _ _ _ W N q HN (proj1 Hq) Epar); pose proof (Hbu q (proj1 Hq)); go_lia].
  intros x Hxx Hor. assert (E1b : forall n, is_u64 n -> DbBlock d1 x n = DbBlock d x n).
  { intros n Hn. rewrite !GetBlock_eq, !decode_header_get, !decode_body_get. by rewrite !(get_eq d d1) by (by apply Hd1). }
  split.
  - intros n Hn. rewrite E1b, Hblock by done. case_decide as E; [|done]. destruct E as [-> ->]. destruct Hor as [?|[_ Hs]]; done.
  - rewrite (a_number _ _ _ _ _ _ Hav) by done. unfold number_at. change (numberKey x) with (key (INumber x)). rewrite Hd1 by done. case_decide as E; [|done]. destruct Hor as [?|Hs]; [done|].
    rewrite E. apply (t_index _ _ _ _ (so_tree _ _ _ _ _ Hd) (header N)). by eapply stored_has.
Qed.

(** ** The invariant *)

Context (once : forall c l, bline c l -> Forall P l -> NoDup (above l ≫= tx_hashes)).

(** The line of the head is canonical, nothing is heavier than the head, and the look-up
    entries are those of the transactions of the line above the genesis block. *)
Record db_ok (d : DB) (head : Block) : Prop := {
  do_store : store_ok d;
  do_head : stored d head;
  do_line : forall l, bline head l -> Forall P l -> Forall (fun c => GetCanonicalHash d (Number (header c)) = BlockHash c) l;
  do_index : forall n, is_u64 n -> GetCanonicalHash d n <> 0 -> exists c, stored d c /\ Number (header c) = n /\ GetCanonicalHash d n = BlockHash c;
  do_heaviest : heaviest Keccak256 PH d (header head);
  do_lookup : forall l x, bline head l -> Forall P l -> is_hash x -> (x ∈ above l ≫= tx_hashes /\ points (above l) d x) \/ (x ∉ above l ≫= tx_hashes /\ absent d x);
  do_heads : GetHeadBlockHash d = BlockHash head /\ GetHeadHeaderHash d = BlockHash head /\ (GetHeadFastBlockHash d = BlockHash head \/ GetHeadFastBlockHash d = 0);
  do_root : td d (header g) = Some (Difficulty (header g))
}.

Lemma stored_td d c : store_ok d -> stored d c -> exists w, td d (header c) = Some w.
Proof. intros Hd Hc. destruct (t_td _ _ _ _ (so_tree _ _ _ _ _ Hd) _ (stored_has _ _ _ _ _ Hc)) as (w & E & _). by exists w. Qed.

Lemma line_stored d h l : store_ok d -> stored d h -> bline h l -> Forall P l -> Forall (stored d) l.
Proof using W. intros Hd Hh L HP. destruct (stored_line _ _ _ _ W d h Hd Hh) as (l' & L' & Hl'). by rewrite (bline_unique _ _ _ _ W h l l' L L' HP (stored_P _ _ _ _ _ Hl')). Qed.

(** Difficulties grow along a line. *)
Lemma line_lighter d h l : store_ok d -> bline h l -> Forall (stored d) l -> forall c w w', c ∈ l -> c <> h -> td d (header c) = Some w -> td d (header h) = Some w' -> w < w'.
Proof using W.
  intros Hd. induction 1 as [|h q l L IH E]; intros Hl c w w' Hc Hne Ew Ew'; [by apply list_elem_of_singleton in Hc|]. apply Forall_cons in Hl as [Hh Hl]. apply elem_of_cons in Hc as [->|Hc]; [done|].
  destruct (bline_top _ _ _ _ L) as [l' El]. assert (Hq : stored d q) by (subst l; by apply Forall_cons in Hl as [? _]). destruct (stored_td d q Hd Hq) as [wq Eq].
  destruct (t_td _ _ _ _ (so_tree _ _ _ _ _ Hd) _ (stored_has _ _ _ _ _ Hh)) as (w2 & E2 & _ & Hpar). rewrite Ew' in E2. injection E2 as <-. rewrite (Hpar (header q) wq (stored_has _ _ _ _ _ Hq) E Eq).
  pose proof (bk_pos _ _ _ _ W h (proj1 Hh)). assert (Hcs : stored d c) by (rewrite Forall_forall in Hl; by apply Hl). destruct (decide (BlockHash c = BlockHash q)) as [Ecq|Hcq]; [apply (blk_inj _ _ _ _ W) in Ecq as ->; [rewrite Ew in Eq; injection Eq as <-; lia|apply Hcs|apply Hq]|]. pose proof (IH Hl c w wq Hc ltac:(congruence) Ew Eq). lia.
Qed.

(** A line has a block of every number up to the top. *)
Lemma line_at h l : bline h l -> Forall P l -> forall n, 0 <= n <= Number (header h) -> exists c, c ∈ l /\ Number (header c) = n.
Proof using W.
  induction 1 as [|h q l L IH E]; intros HP n Hn.
  - exists g. pose proof (genesis_number _ _ _ _ W). split; [by apply list_elem_of_singleton|lia].
  - apply Forall_cons in HP as [Hh HP]. destruct (bline_top _ _ _ _ L) as [l' El]. assert (Hq : P q) by (subst l; by apply Forall_cons in HP as [? _]). pose proof (blk_child _ _ _ _ W h q Hh Hq E).
    destruct (decide (n = Number (header h))) as [->|]; [exists h; split; [by apply elem_of_cons; left|done]|]. destruct (IH HP n) as (c & Hc & En); [lia|]. exists c. split; [by apply elem_of_cons; right|done].
Qed.

(** The difficulty of a block is the sum along its line. *)
Definition total (l : list Block) : Z := foldr (fun c w => Difficulty (header c) + w) 0 l.
Lemma line_total d h l : store_ok d -> td d (header g) = Some (Difficulty (header g)) -> bline h l -> Forall (stored d) l -> td d (header h) = Some (total l).
Proof.
  intros Hd Hg. induction 1 as [|h q l L IH E]; intros Hl; [rewrite Hg; cbn; f_equal; lia|]. apply Forall_cons in Hl as [Hh Hl]. destruct (bline_top _ _ _ _ L) as [l' El]. assert (Hq : stored d q) by (subst l; by apply Forall_cons in Hl as [? _]).
  destruct (t_td _ _ _ _ (so_tree _ _ _ _ _ Hd) _ (stored_has _ _ _ _ _ Hh)) as (w & -> & _ & Hpar). rewrite (Hpar (header q) (total l) (stored_has _ _ _ _ _ Hq) E (IH Hl)). cbn. f_equal. fold (total l). lia.
Qed.

(** The canonical entry of a block that may become the head is another block. *)
Lemma better_elsewhere d head N wN wH l : db_ok d head -> P N -> bline head l -> Forall P l -> N <> head -> (stored d N -> td d (header N) = Some wN) -> td d (header head) = Some wH ->
  wH <= wN -> (wH = wN -> Number (header N) <= Number (header head)) -> GetCanonicalHash d (Number (header N)) <> BlockHash N /\ N ∉ l.
Proof using W.
  intros [D1 D2 D3 D4 D5 _ _ _] HN L HP Hne EwN EwH Hle Hnum. pose proof (line_stored _ _ _ D1 D2 L HP) as Hst. assert (Hout : N ∉ l).
  { intros Hin. rewrite Forall_forall in Hst. pose proof (line_lighter d head l D1 L ltac:(by apply Forall_forall) N wN wH Hin Hne (EwN (Hst N Hin)) EwH). lia. }
  split; [|done]. intros Ec. pose proof (blk_u64 _ _ _ _ W N HN) as Hu. destruct (D4 (Number (header N)) Hu) as (c & Hc & En & E); [rewrite Ec; by apply (blk_nonzero _ _ _ _ W)|].
  assert (c = N) as -> by (eapply blk_inj; [done|apply Hc|done|congruence]). specialize (EwN Hc). pose proof (D5 _ _ _ (stored_has _ _ _ _ _ Hc) EwN EwH). assert (Heq : wH = wN) by lia.
  destruct (line_at head l L HP (Number (header N))) as (k & Hk & Ek); [specialize (Hnum Heq); go_lia|]. specialize (D3 l L HP). rewrite Forall_forall in D3, HP. specialize (D3 k Hk). cbn in D3. rewrite Ek, Ec in D3.
  apply Hout. assert (k = N) as <-; [|done]. eapply blk_inj; [done|by apply HP|done|done].
Qed.

Lemma calm_heaviest d d' h : calm d d' -> PH h -> heaviest Keccak256 PH d h -> heaviest Keccak256 PH d' h.
Proof using W.
  intros Hc Hh H k w w' Hk. pose proof (calm_headers _ _ Hc) as Hs. rewrite !(same_td_of _ _ _ (bk_world _ _ _ _ W) d d') by (done || apply Hk). apply H. by apply (calm_has _ _ _ _ W d d').
Qed.

Lemma arrived_kept d N w d1 v d' : arrives d N w d1 v -> calm v d' -> store_ok d' /\ stored d' N /\ forall c, stored d c -> stored d' c.
Proof using W.
  intros Ha Hc. pose proof (av_arriving _ _ _ _ _ Ha) as A. assert (Hs : forall c, stored v c -> stored d' c) by (intros c; by apply (calm_stored _ _ _ _ W)).
  split; [eapply calm_store; [done|done|apply A]|]. split; [apply Hs, (ar_stored _ _ _ _ _ _ _ A); by left|]. intros c Hst. apply Hs, (ar_stored _ _ _ _ _ _ _ A). by right.
Qed.

Lemma arrived_root d N w d1 v d' : store_ok d -> arrives d N w d1 v -> calm v d' -> td d' (header g) = td d (header g).
Proof using W.
  intros Hd Ha Hc. rewrite (calm_td _ _ _ _ W v d') by (done || apply W). apply (av_grown _ _ _ _ _ Ha). apply (t_genesis _ _ _ _ (so_tree _ _ _ _ _ Hd)).
Qed.

Lemma db_side d head N w wc d1 v d' : db_ok d head -> arrives d N w d1 v -> calm v d' -> td d (header head) = Some wc -> w <= wc -> within (fun i => block_item i \/ match i with IReceipts _ _ => True | _ => False end) d d' -> db_ok d' head.
Proof using W.
  intros [D1 D2 D3 D4 D5 D6 D7 D8] Ha Hcalm Ewc Hle Hw. destruct (arrived_kept _ _ _ _ _ _ Ha Hcalm) as (K1 & _ & K2).
  assert (Hcan : forall n, is_u64 n -> GetCanonicalHash d' n = GetCanonicalHash d n) by (intros n Hn; eapply within_canon; [|exact Hw|done]; intros [] []; done).
  assert (Hlk : forall x, is_hash x -> GetTxLookupEntry d' x = GetTxLookupEntry d x) by (intros x Hx; apply lookup_same; [done|]; apply Hw; [done|]; by intros []).
  assert (Hhd : forall i, item_ok i -> match i with IHeadBlock | IHeadHeader | IHeadFast => True | _ => False end -> get d' (key i) = get d (key i)) by (intros i Hi Hh; apply get_eq, Hw; [done|]; by destruct i; intros []).
  split; [done|by apply K2| | | | | |by rewrite (arrived_root _ _ _ _ _ _ D1 Ha Hcalm)].
  - intros l L HP. specialize (D3 l L HP). rewrite Forall_forall in D3, HP. apply Forall_forall. intros c Hc. rewrite Hcan by (eapply blk_u64; [done|by apply HP]). by apply D3.
  - intros n Hn Hnz. rewrite Hcan in * by done. destruct (D4 n Hn Hnz) as (c & Hc & ?). exists c. split; [by apply K2|done].
  - eapply calm_heaviest; [done|exists head; split; [apply D2|done]|]. apply (proj2 (heaviest_extended Keccak256 PH d v (header N) w wc (header head) (av_added _ _ _ _ _ Ha) (av_grown _ _ _ _ _ Ha) D5 (stored_has _ _ _ _ _ D2) Ewc)). done.
  - intros l x L HP Hx. destruct (D6 l x L HP Hx) as [[H1 H2]|[H1 H2]]; [left|right]; (split; [done|]); [eapply points_same; [by apply Hlk|done]|unfold absent; by rewrite Hlk].
  - unfold GetHeadBlockHash, GetHeadHeaderHash, GetHeadFastBlockHash in *. change headBlockKey with (key IHeadBlock) in *. change headHeaderKey with (key IHeadHeader) in *. change headFastKey with (key IHeadFast) in *. by rewrite !Hhd.
Qed.

(** The switch to a new head [N]: [ns] are the blocks on its line that the line of the old
    head has not. *)
Record switched (d : DB) (os ns la : list Block) (d' : DB) : Prop := {
  sw_new : forall c, c ∈ ns -> GetCanonicalHash d' (Number (header c)) = BlockHash c;
  sw_rest : forall n, is_u64 n -> (forall c, c ∈ ns -> Number (header c) <> n) -> GetCanonicalHash d' n = GetCanonicalHash d n;
  sw_lookup : forall x, is_hash x -> (x ∈ (ns ++ above la) ≫= tx_hashes /\ points (ns ++ above la) d' x) \/
    (x ∉ ns ≫= tx_hashes /\ if decide (x ∈ os ≫= tx_hashes) then absent d' x else GetTxLookupEntry d' x = GetTxLookupEntry d x)
}.

(** Only the last block of a line is the genesis block. *)
Lemma line_above h os la : bline h (os ++ la) -> la <> [] -> Forall P (os ++ la) -> Forall (fun c => Number (header c) <> 0) os.
Proof using W.
  clear once. revert h. induction os as [|c os IH]; intros h L Hla HP; [done|]. inversion L as [|c' q l Lq E]; subst; [by destruct os|]. apply Forall_cons in HP as [Hc HP]. change (Forall P (os ++ la)) in HP. constructor; [|by eapply IH].
  destruct (bline_top _ _ _ _ Lq) as [l' El]. assert (Hq : P q) by (rewrite El in HP; by apply Forall_cons in HP as [? _]). pose proof (blk_child _ _ _ _ W c q Hc Hq E). pose proof (blk_u64 _ _ _ _ W q Hq). go_lia.
Qed.

Lemma db_switch d head N w wc d1 v d' os ns la a : db_ok d head -> arrives d N w d1 v -> calm v d' -> td d (header head) = Some wc -> wc <= w ->
  bline head (os ++ la) -> Forall P (os ++ la) -> bline a la -> path N ns a -> Forall P ns -> switched d os ns la d' ->
  GetHeadBlockHash d' = BlockHash N /\ GetHeadHeaderHash d' = BlockHash N /\ (GetHeadFastBlockHash d' = BlockHash N \/ GetHeadFastBlockHash d' = 0) -> db_ok d' N.
Proof using W once.
  intros [D1 D2 D3 D4 D5 D6 D7 D8] Ha Hcalm Ewc Hle LH HPH La Hp HPn [S1 S2 S3] Hheads. destruct (arrived_kept _ _ _ _ _ _ Ha Hcalm) as (K1 & KN & K2).
  pose proof HPH as HPH0. apply Forall_app in HPH as [HPo HPa]. pose proof (path_line _ _ _ _ _ _ Hp La) as LN. assert (HPN : Forall P (ns ++ la)) by (by apply Forall_app).
  assert (Hone : forall l, bline N l -> Forall P l -> l = ns ++ la) by (intros l L HP; by apply (bline_unique _ _ _ _ W N)).
  assert (Ha' : P a) by (destruct (bline_top _ _ _ _ La) as [la' ->]; by apply Forall_cons in HPa as [? _]). destruct (path_ascending _ _ _ _ W N ns a Hp HPn Ha') as (_ & Habove & _).
  rewrite Forall_forall in Habove. destruct (bline_below _ _ _ _ W a la La HPa) as (la' & Ela & Hbelow). rewrite Forall_forall in Hbelow.
  assert (Hla : forall c k, c ∈ ns -> k ∈ la -> Number (header c) <> Number (header k)).
  { intros c k Hc Hk. specialize (Habove c Hc). cbn in Habove. rewrite Ela in Hk. apply elem_of_cons in Hk as [->|Hk]; [lia|]. specialize (Hbelow k Hk). cbn in Hbelow. lia. }
  split; [done|done| | | | |done|by rewrite (arrived_root _ _ _ _ _ _ D1 Ha Hcalm)].
  - intros l L HP. rewrite (Hone l L HP). apply Forall_app. split; apply Forall_forall; [intros c Hc; by apply S1|]. intros c Hc. rewrite S2.
    + specialize (D3 _ LH HPH0). apply Forall_app in D3 as [_ D3]. rewrite Forall_forall in D3. by apply D3.
    + rewrite Forall_forall in HPa. eapply blk_u64; [done|by apply HPa].
    + intros k Hk. by apply Hla.
  - intros n Hn Hnz. destruct (decide (Exists (fun c => Number (header c) = n) ns)) as [He|He].
    + apply Exists_exists in He as (c & Hc & <-). exists c. split; [|split; [done|by apply S1]]. pose proof (line_stored _ _ _ K1 KN LN HPN) as Hst. rewrite Forall_forall in Hst. apply Hst, elem_of_app. by left.
    + assert (Hout : forall c, c ∈ ns -> Number (header c) <> n) by (intros c Hc E; apply He, Exists_exists; by exists c). rewrite S2 in * by done. destruct (D4 n Hn Hnz) as (c & Hc & ?). exists c. split; [by apply K2|done].
  - eapply calm_heaviest; [done|exists N; split; [apply KN|done]|]. apply (proj1 (heaviest_extended Keccak256 PH d v (header N) w wc (header head) (av_added _ _ _ _ _ Ha) (av_grown _ _ _ _ _ Ha) D5 (stored_has _ _ _ _ _ D2) Ewc)). done.
  - assert (Hla0 : la <> []) by (by rewrite Ela). assert (Eo : above (os ++ la) = os ++ above la) by (rewrite above_app, (above_all os); [done|by eapply line_above]).
    assert (En : above (ns ++ la) = ns ++ above la) by (rewrite above_app, (above_all ns); [done|by eapply line_above]).
    intros l x L HP Hx. rewrite (Hone l L HP), En. destruct (S3 x Hx) as [?|[Hn Hr]]; [by left|]. pose proof (once _ _ LH HPH0) as Hnd. specialize (D6 _ x LH HPH0 Hx). rewrite Eo in Hnd, D6. clear Eo. rewrite bind_app in *. apply NoDup_app in Hnd as (_ & Hdis & _). rewrite elem_of_app. case_decide as Eo.
    + right. split; [|done]. intros [?|Hl]; [done|]. by apply (Hdis x).
    + destruct D6 as [[Hin Hpt]|[Hout Hab]].
      * rewrite elem_of_app in Hin. left. split; [tauto|]. destruct Hpt as (c & j & Hc & Hj & Hjx & E). exists c, j. rewrite Hr. split; [|done]. apply elem_of_app. right.
        apply elem_of_app in Hc as [Hc|Hc]; [|done]. exfalso. apply Eo, list_elem_of_bind. exists c. split; [by eapply list_elem_of_lookup_2|done].
      * right. rewrite elem_of_app in Hout. split; [tauto|]. unfold absent. by rewrite Hr.
Qed.

(** ** The chain *)

Context {C : Type -> Type} {S Q St : Type} {lru : LruOps C} {laws : LruLaws C} {state_ops : StateOps S St} {state_laws : StateLaws S St} {pq : PrqueOps Q (Hash * Z)}.
Context (world : World) (p : Prop).
Abbreviation bc := (BlockChain C S Q).
Abbreviation cached_ok := (cached_ok Keccak256 Sender P).
Abbreviation block_head := (block_head Keccak256).
Abbreviation other_heads := (other_heads Keccak256).
Abbreviation mid := (mid Keccak256 Sender P).
Abbreviation moved := (moved Keccak256 Sender P).

(** What does not depend on the block that is written. *)
Record rest_ok (head : Block) (b : bc) : Prop := {
  ro_heads : block_head b head /\ other_heads b head;
  ro_genesis : genesisBlock b = g /\ genesisHeader (hc b) = header g;
  ro_future : cached (futureBlocks b) = ∅;
  ro_state : durable (stateCache b) (Root (header g)) /\ (archive world = true -> durable (stateCache b) (Root (header head)))
}.

Record Inv (b : bc) (head : Block) : Prop := { iv_db : db_ok (db b) head; iv_cached : cached_ok (db b) b; iv_rest : rest_ok head b }.

(** Before the fork choice. *)
Record waiting (d : DB) (N : Block) (w : Z) (v : DB) (head : Block) (b : bc) : Prop := {
  wt_db : db_ok d head;
  wt_arrives : arrives d N w (db b) v;
  wt_cached : cached_ok v b;
  wt_rest : rest_ok head b;
  wt_state : archive world = true -> durable (stateCache b) (Root (header N))
}.

Lemma waiting_mid d N w v head b : waiting d N w v head b -> mid v N (stored d) b.
Proof. intros [_ Ha Hk _ _]. split; [done|]. intros x Hx Ho. by apply (av_sees _ _ _ _ _ Ha). Qed.

Lemma waiting_canon d N w v head b n : waiting d N w v head b -> is_u64 n -> GetCanonicalHash (db b) n = GetCanonicalHash d n.
Proof. intros [_ Ha _ _ _] Hn. eapply within_canon; [|apply (av_within _ _ _ _ _ Ha)|done]. by intros i ->. Qed.
Lemma waiting_lookup d N w v head b x : waiting d N w v head b -> is_hash x -> GetTxLookupEntry (db b) x = GetTxLookupEntry d x.
Proof. intros [_ Ha _ _ _] Hx. apply lookup_same; [done|]. by apply (av_within _ _ _ _ _ Ha). Qed.

(** After the reorganisation, before the rest of the new head is written. *)
Record prepared (d : DB) (N : Block) (os ns la : list Block) (a : Block) (b : bc) : Prop := {
  pr_line : bline a la /\ path N ns a /\ Forall P ns;
  pr_new : forall c, c ∈ ns -> c <> N -> GetCanonicalHash (db b) (Number (header c)) = BlockHash c;
  pr_rest : forall n, is_u64 n -> (forall c, c ∈ ns -> Number (header c) <> n) -> GetCanonicalHash (db b) n = GetCanonicalHash d n;
  pr_lookup : forall x, is_hash x -> x ∉ tx_hashes N -> (x ∈ ns ≫= tx_hashes /\ points ns (db b) x) \/
    (x ∉ ns ≫= tx_hashes /\ if decide (x ∈ os ≫= tx_hashes) then absent (db b) x else GetTxLookupEntry (db b) x = GetTxLookupEntry d x);
  pr_heads : GetCanonicalHash (db b) (Number (header N)) = BlockHash N -> other_heads b N
}.

Lemma reorg_self N (b : bc) : reorg Keccak256 Sender N N b = Ret (with_feed (feed b ++ []) (tick b) b, None).
Proof.
  unfold reorg. cbn zeta. rewrite Z.ltb_irrefl. unfold mbind, SM_bind. cbn [reduce common]. rewrite !Z.eqb_refl. cbv beta iota delta [mret SM_ret]. cbn [common]. rewrite !Z.eqb_refl.
  by destruct b as [[] ? ? ? ? ? ? ? ? ? ? ? ? ? ?].
Qed.

Lemma arrives_td d N w d1 v : arrives d N w d1 v -> P N -> td v (header N) = Some w /\ (stored d N -> td d (header N) = Some w).
Proof.
  intros Ha HN. assert (E : td v (header N) = Some w) by (rewrite (a_td _ _ _ _ _ _ (av_added _ _ _ _ _ Ha)) by (by exists N); by rewrite decide_True). split; [done|].
  intros Hs. destruct (av_grown _ _ _ _ _ Ha _ (stored_has _ _ _ _ _ Hs)) as [_ Et]. by rewrite <- Et.
Qed.

Lemma prepare_runs d N w v head (b : bc) wc lH : waiting d N w v head b -> P N -> td d (header head) = Some wc -> wc <= w -> (wc = w -> Number (header N) <= Number (header head)) ->
  bline head lH -> Forall P lH ->
  runs p (if ParentHash (header N) =? BlockHash head then mret None else reorg Keccak256 Sender head N) b
    (fun b1 r => r = None /\ moved head_item v b b1 /\ exists os ns la a, lH = os ++ la /\ prepared d N os ns la a b1).
Proof using W laws.
  intros Hwt HN Ewc Hle Hnum LH HPH. pose proof Hwt as [Hdb Ha Hk Hr Hs]. destruct (arrives_td _ _ _ _ _ Ha HN) as [_ EwN]. assert (Hhead : stored d head) by apply Hdb.
  assert (Hcan : forall n, is_u64 n -> GetCanonicalHash (db b) n = GetCanonicalHash d n) by (intros n Hn; by eapply waiting_canon).
  assert (Hlk : forall x, is_hash x -> GetTxLookupEntry (db b) x = GetTxLookupEntry d x) by (intros x Hx; by eapply waiting_lookup).
  assert (Helse : N <> head -> GetCanonicalHash d (Number (header N)) <> BlockHash N /\ N ∉ lH) by (intros Hne; by eapply better_elsewhere).
  destruct (ParentHash (header N) =? BlockHash head) eqn:Ep; bool_to_prop.
  - apply runs_ret. split; [done|]. split; [by apply quiet_moved|]. exists [], [N], lH, head. split; [done|]. split.
    + split; [done|]. split; [econstructor; [done|constructor]|by constructor].
    + intros c Hc Hne. by apply list_elem_of_singleton in Hc.
    + intros n Hn _. by apply Hcan.
    + intros x Hx Hout. right. cbn [mbind list_bind]. rewrite app_nil_r. split; [done|]. rewrite decide_False by apply not_elem_of_nil. by apply Hlk.
    + rewrite Hcan by (by eapply blk_u64). intros E. exfalso. apply (proj1 (Helse ltac:(intros ->; pose proof (blk_child _ _ _ _ W head head HN HN (eq_sym Ep)); lia))). done.
  - destruct (decide (BlockHash N = BlockHash head)) as [E|Hne].
    + apply (blk_inj _ _ _ _ W) in E as ->; [|done|apply Hhead]. unfold runs. rewrite reorg_self. split; [done|]. split; [apply quiet_moved; [by apply feed_quiet|by apply feed_cached]|].
      exists [], [], lH, head. split; [done|]. split.
      * split; [done|]. split; [constructor|done].
      * by intros c ?%elem_of_nil.
      * intros n Hn _. by apply Hcan.
      * intros x Hx Hout. right. split; [apply not_elem_of_nil|]. rewrite decide_False by apply not_elem_of_nil. by apply Hlk.
      * intros _. destruct (quiet_heads Keccak256 b (with_feed (feed b ++ []) (tick b) b)) as [_ H]; [by apply feed_quiet|]. apply H, Hr.
    + eapply runs_mono; [apply (reorg_runs _ _ _ _ W p v N (stored d) b head lH); [apply Ha|by eapply waiting_mid|done|done|by eapply line_stored; [apply Hdb|..]]|].
      intros b1 r (-> & Hm & [(os & ns & la & a & R1 & R2 & R3 & R4 & R5 & R6 & R7 & R8 & R9)]). split; [done|]. split; [done|]. exists os, ns, la, a. split; [done|]. destruct (Helse ltac:(congruence)) as [He1 He2]. split.
      * done.
      * intros c Hc _. by apply R5.
      * intros n Hn Ho. rewrite R6 by done. by apply Hcan.
      * intros x Hx _. destruct (R7 x Hx) as [H|[H1 H2]]; [by left|right]. split; [done|]. case_decide; [done|]. rewrite H2. by apply Hlk.
      * intros _. assert (Hnn : ns <> []). { intros ->. destruct (R8 eq_refl) as [-> _]. apply He2. rewrite R1. destruct (bline_top _ _ _ _ R2) as [la' ->]. apply elem_of_app. right. by apply elem_of_cons; left. }
        destruct (R9 Hnn) as [_ H]. apply H. rewrite Hcan by (by eapply blk_u64). done.
Qed.

(** What is in the batch. *)
Definition is_batch (N : Block) (v d1 batch : DB) : Prop := exists bd hd rd, v = put_block N bd hd d1 /\ batch = <[key (IReceipts (BlockHash N) (Number (header N))) := rd]> (put_block N bd hd ∅).

Lemma batch_union N v d1 batch : P N -> is_batch N v d1 batch -> forall d, within (fun i => block_items N i \/ i = IReceipts (BlockHash N) (Number (header N))) d (batch ∪ d) /\ (calm d1 d -> calm v (batch ∪ d)).
Proof using W.
  intros HN (bd & hd & rd & -> & ->) d. rewrite <- insert_union_l, put_block_union, (left_id_L ∅ (∪)). pose proof (blk_hash _ _ _ _ W N) as Hx. pose proof (blk_u64 _ _ _ _ W N HN) as Hu. split.
  - eapply within_trans; [eapply within_mono; [|by apply (put_block_within N bd hd d)]; by left|]. apply within_put; [done|by right].
  - intros Hc i Hi Hb. assert (E : put_block N bd hd d !! key i = put_block N bd hd d1 !! key i) by (apply put_block_agree; [done|by apply Hc]). rewrite <- E. rewrite lookup_insert_ne; [done|].
    intros Ek. apply key_inj in Ek; [by subst i|done|done].
Qed.

Lemma batch_lookups N batch : P N -> exists batch', WriteTxLookupEntries Keccak256 batch N = Ret (batch', None) /\ forall d, within lookup_item (batch ∪ d) (batch' ∪ d) /\
  forall x, is_hash x -> (x ∈ tx_hashes N /\ points [N] (batch' ∪ d) x) \/ (x ∉ tx_hashes N /\ GetTxLookupEntry (batch' ∪ d) x = GetTxLookupEntry (batch ∪ d) x).
Proof using W.
  intros HN. destruct (WriteTxLookupEntries_runs _ _ _ _ W N batch HN) as (batch' & E & _). exists batch'. split; [done|]. intros d. destruct (WriteTxLookupEntries_runs _ _ _ _ W N (batch ∪ d) HN) as (d' & E' & H).
  unfold WriteTxLookupEntries, ChainDb.WriteTxLookupEntries in E, E'. rewrite (write_lookups_union _ _ _ _ _ _ d E) in E'. injection E' as <-. exact H.
Qed.

Lemma preimages_within d pre : within (fun _ => False) d (WritePreimages d pre).
Proof.
  intros i Hi _. unfold WritePreimages. assert (H : forall (l : list (Hash * bytes)) (d' : DB), foldl (fun d' kv => match d !! (preimagePrefix ++ hash_bytes kv.1) with Some _ => d' | None => <[preimagePrefix ++ hash_bytes kv.1 := kv.2]> d' end) d' l !! key i = d' !! key i); [|apply H].
  induction l as [|kv l IH]; intros d'; [done|]. cbn [foldl]. rewrite IH. destruct (d !! _); [done|]. rewrite lookup_insert_ne; [done|]. intros E. pose proof (key_shape i) as Hsh. rewrite <- E in Hsh. by destruct i.
Qed.

Lemma cached_calm v d (b : bc) : calm v d -> cached_ok v b -> cached_ok d b.
Proof using W.
  intros Hc [K1 K2]. split; [eapply caches_grown; [by apply (calm_grown _ _ _ _ W)|done]|]. intros x c Hx. destruct (K2 x c Hx) as [Hs ->]. split; [|done]. by eapply calm_stored.
Qed.

(** The writes of the new head, after the reorganisation. *)
Lemma switched_db d N w v head os ns la a d1 d2 d3 d4 batch : db_ok d head -> arrives d N w d1 v -> P N -> bline head (os ++ la) -> Forall P (os ++ la) ->
  forall b : bc, db b = d2 -> prepared d N os ns la a b ->
  within (fun _ => False) d2 d3 -> within lookup_item (batch ∪ d3) d4 -> within (fun i => block_items N i \/ i = IReceipts (BlockHash N) (Number (header N))) d3 (batch ∪ d3) ->
  (forall x, is_hash x -> (x ∈ tx_hashes N /\ points [N] d4 x) \/ (x ∉ tx_hashes N /\ GetTxLookupEntry d4 x = GetTxLookupEntry (batch ∪ d3) x)) ->
  forall d5, (forall n, is_u64 n -> GetCanonicalHash d5 n = if decide (n = Number (header N)) then BlockHash N else GetCanonicalHash d4 n) -> (forall x, is_hash x -> GetTxLookupEntry d5 x = GetTxLookupEntry d4 x) ->
  switched d os ns la d5.
Proof using W.
  intros Hdb Ha HN LH HPH b Eb [(La & Hp & HPn) Q1 Q2 Q3 _] Hw3 Hw4 Hwb Hlk d5 Hc5 Hl5. apply Forall_app in HPH as [HPo HPa]. pose proof (blk_u64 _ _ _ _ W) as Hu.
  assert (Hcan : forall n, is_u64 n -> GetCanonicalHash d4 n = GetCanonicalHash d2 n).
  { intros n Hn. rewrite (within_canon lookup_item _ d4) by (done || by intros []). assert (GetCanonicalHash (batch ∪ d3) n = GetCanonicalHash d3 n) as -> by (eapply within_canon; [|exact Hwb|done]; intros i [[->|[->| ->]]| ->]; done). by rewrite (within_canon (fun _ => False) d2 d3). }
  assert (Hsame : forall x, is_hash x -> GetTxLookupEntry (batch ∪ d3) x = GetTxLookupEntry d2 x).
  { intros x Hx. apply lookup_same; [done|]. rewrite Hwb; [apply Hw3; [done|by intros []]|done|]. intros [[E|[E|E]]|E]; done. }
  pose proof (path_line _ _ _ _ _ _ Hp La) as LN. assert (HPN : Forall P (ns ++ la)) by (by apply Forall_app). destruct (bline_below _ _ _ _ W _ _ LN HPN) as (l' & El & Hbelow). rewrite Forall_forall in Hbelow.
  rewrite Eb in Q1, Q2, Q3. split.
  - intros c Hc. assert (Pc : P c) by (rewrite Forall_forall in HPn; by apply HPn). rewrite Hc5 by (by apply Hu). assert (Hin : c ∈ N :: l') by (rewrite <- El; apply elem_of_app; by left).
    apply elem_of_cons in Hin as [->|Hin]; [by rewrite decide_True|]. specialize (Hbelow c Hin). cbn in Hbelow. rewrite decide_False, Hcan by (lia || by apply Hu). apply Q1; [done|]. intros ->. lia.
  - intros n Hn Hout. rewrite Hc5 by done. case_decide as E; [|rewrite Hcan by done; by apply Q2]. subst n. assert (ns = []) as -> by (destruct ns as [|k ns]; [done|]; exfalso; pose proof (path_top _ _ _ _ Hp ltac:(done)) as Ek; injection Ek as ->; by apply (Hout N); [apply elem_of_cons; left|]).
    pose proof (do_line _ _ Hdb _ LH ltac:(by apply Forall_app)) as Hl. apply Forall_app in Hl as [_ Hl]. inversion Hp; subst a. destruct (bline_top _ _ _ _ La) as [la' ->]. by apply Forall_cons in Hl as [? _].
  - intros x Hx. unfold absent. rewrite Hl5 by done. destruct (Hlk x Hx) as [[Hin Hpt]|[Hout E]].
    + left. assert (HinN : N ∈ ns ++ above la) by (assert (H : N ∈ ns ++ la) by (rewrite El; apply elem_of_cons; by left); apply elem_of_app in H as [H|H]; apply elem_of_app; [by left|right]; apply elem_of_above; split; [apply (av_above _ _ _ _ _ Ha)|done]). split; [apply list_elem_of_bind; by exists N|]. eapply points_mono; [|eapply points_same; [by apply Hl5|exact Hpt]]. intros k Hk%list_elem_of_singleton. by subst.
    + rewrite E, Hsame by done. destruct (Q3 x Hx Hout) as [[Hin Hpt]|[Hno Hr]]; [left|by right]. split; [rewrite bind_app; apply elem_of_app; by left|].
      eapply points_mono; [|eapply points_same; [|exact Hpt]]; [intros k Hk; apply elem_of_app; by left|]. by rewrite Hl5, E, Hsame.
Qed.

(** The block leaves the queue of future blocks. *)
Definition unqueue (N : Block) (b : bc) : bc := with_future (lru_Remove (futureBlocks b) (BlockHash N)) b.
Lemma unqueue_rest N head b : rest_ok head b -> rest_ok head (unqueue N b).
Proof using laws. intros [[H1 [A1 A2 A3]] H2 H3 H4]. split; [split; [done|by split]|done| |done]. cbn. pose proof (lru_Remove_held Block (futureBlocks b) (BlockHash N)) as H. rewrite H3 in H. apply map_eq. intros x. rewrite lookup_empty. destruct (cached _ !! x) as [c|] eqn:E; [|done]. by eapply lookup_weaken in E; [|exact H]. Qed.

Lemma moved_rest I v (b b' : bc) head N : moved I v b b' -> rest_ok head b -> block_head b' N -> other_heads b' N -> (archive world = true -> durable (stateCache b) (Root (header N))) -> rest_ok N b'.
Proof. intros [_ [E1 E2] E3 E4 _] [_ [G1 G2] Hf [Hs _]] H1 H2 H3. split; [done|split; congruence|congruence|]. by rewrite E4. Qed.

Lemma make_head_runs d N w v head (b : bc) wc st batch : waiting d N w v head b -> P N -> td d (header head) = Some wc -> wc <= w -> (wc = w -> Number (header N) <= Number (header head)) ->
  is_batch N v (db b) batch -> runs p (make_head Keccak256 Sender N head st batch) b (fun b' r => r = inr CanonStatTy /\ Inv b' N /\ calm v (db b')).
Proof using W once laws.
  intros Hwt HN Ewc Hle Hnum Hb. pose proof Hwt as [Hdb Ha Hk Hr Hs]. destruct (stored_line _ _ _ _ W d head (do_store _ _ Hdb) (do_head _ _ Hdb)) as (lH & LH & HlH). apply stored_P in HlH. unfold make_head.
  eapply runs_bind; [by eapply prepare_runs|]. intros b1 r (-> & Hm1 & os & ns & la & a & -> & Hpr). destruct (batch_lookups N batch HN) as (batch' & Eb & Hbl). eapply runs_lift; [exact Eb|].
  apply runs_update, runs_update. set (d3 := WritePreimages (db b1) (state_Preimages st)). set (b2 := put_db (batch' ∪ d3) (put_db d3 b1)). destruct (Hbl d3) as [Hw4 Hl4]. destruct (batch_union N v (db b) batch HN Hb d3) as [Hwb Hcb].
  pose proof (preimages_within (db b1) (state_Preimages st)) as Hw3. assert (Hcalm3 : calm (db b) d3) by (etrans; [eapply within_calm; [|apply Hm1]; apply head_item_calm|]; by eapply within_calm; [|exact Hw3]).
  assert (Hw : within (fun i => block_items N i \/ i = IReceipts (BlockHash N) (Number (header N)) \/ lookup_item i) (db b1) (batch' ∪ d3)).
  { eapply within_trans; [eapply within_mono; [|exact Hw3]; by intros ? []|]. eapply within_trans; [eapply within_mono; [|exact Hwb]; intros i [H|H]; [by left|by right; left]|]. eapply within_mono; [|exact Hw4]. intros i H. by right; right. }
  assert (Hnoh : forall i, block_items N i \/ i = IReceipts (BlockHash N) (Number (header N)) \/ lookup_item i -> match i with IHeadBlock | IHeadHeader | IHeadFast | ICanon _ => False | _ => True end) by (intros i [[->|[->| ->]]|[->|Hi]]; [done..|by destruct i]).
  assert (Hm2 : moved (fun _ => True) v b b2).
  { eapply moved_trans; [eapply moved_weaken; [|exact Hm1]; done|]. eapply moved_trans; [apply (put_moved _ _ _ _ v d3); [by intros i _ []|apply Hm1]|]. apply put_moved; [by intros i _ []|]. apply (cached_move _ _ _ v b1); [done..|apply Hm1]. }
  destruct (heads_within Keccak256 _ (batch' ∪ d3) b1 b2 ltac:(intros i Hi; specialize (Hnoh i Hi); by destruct i) Hw eq_refl) as [_ Hoh].
  assert (Hcan2 : GetCanonicalHash (db b2) (Number (header N)) = GetCanonicalHash (db b1) (Number (header N))) by (eapply within_canon; [|exact Hw|by eapply blk_u64]; intros i Hi; specialize (Hnoh i Hi); by destruct i).
  eapply runs_bind; [apply (insert_runs _ _ _ _ W p b2 v N HN); apply Hm2|]. intros b3 [] [Hm3 [I1 I2 I3 I4]]. apply runs_modify, runs_ret. fold (unqueue N b3).
  assert (Hoth : other_heads b3 N) by (rewrite Hcan2 in I4; case_decide as E; [|done]; by apply I4, Hoh, (pr_heads _ _ _ _ _ _ _ Hpr)).
  assert (Hcalm : calm v (db b3)).
  { etrans; [by apply Hcb|]. etrans; [eapply within_calm; [|exact Hw4]; by intros [] H1 H2|]. eapply within_calm; [|apply Hm3]. apply head_item_calm. }
  split; [done|]. split; [|done]. split.
  - change (db (unqueue N b3)) with (db b3). destruct (pr_line _ _ _ _ _ _ _ Hpr) as (La & Hp & HPn). eapply (db_switch d head N w wc (db b) v (db b3) os ns la a); try done.
    + eapply (switched_db d N w v head os ns la a (db b) (db b1) d3 (batch' ∪ d3) batch); try done.
    + destruct I3 as [_ E1], Hoth as [_ _ [E2 E3]]. done.
  - change (db (unqueue N b3)) with (db b3). apply (cached_calm v); [done|]. apply (cached_move _ _ _ v b3); [done..|apply Hm3].
  - apply unqueue_rest. eapply moved_rest; [eapply moved_trans; [exact Hm2|eapply moved_weaken; [|exact Hm3]; done]|done|done|done|done].
Qed.

(** Caches and states may change, durable states stay. *)
Record drift (b b' : bc) : Prop := {
  dr_hc : cache_step (hc b) (hc b');
  dr_genesis : genesisBlock b' = genesisBlock b;
  dr_heads : currentBlock b' = currentBlock b /\ currentFastBlock b' = currentFastBlock b;
  dr_future : futureBlocks b' = futureBlocks b;
  dr_state : forall r, durable (stateCache b) r -> durable (stateCache b') r
}.
#[export] Instance drift_preorder : PreOrder drift.
Proof.
  split; [by split|]. intros a b c [(H1 & H2 & H3 & H4) E1 [E2 E3] E4 E5] [(K1 & K2 & K3 & K4) F1 [F2 F3] F4 F5]. split; [by unfold cache_step; rewrite K1, K2, K3, K4|congruence|split; congruence|congruence|auto].
Qed.
Lemma quiet_drift (b b' : bc) : quiet b b' -> drift b b'.
Proof. intros [H1 H2 H3 H4 H5 H6]. split; [done|done|done|done|]. by rewrite H6. Qed.
Lemma drift_db (b b' : bc) : drift b b' -> db b' = db b.
Proof. by intros [(H & _) _ _ _ _]. Qed.
Lemma drift_rest head (b b' : bc) : drift b b' -> rest_ok head b -> rest_ok head b'.
Proof.
  intros Hd [[[H1 H2] [[A1 A1'] A2 A3]] [G1 G2] H3 [H4 H5]]. pose proof (drift_db _ _ Hd) as Ed. destruct Hd as [(D1 & D2 & D3 & D4) E1 [E2 E3] E4 E5]. split; [|split; congruence|congruence|split; auto].
  split; [split; [congruence|by rewrite Ed]|]. split; [split; congruence|congruence|by rewrite Ed].
Qed.
Lemma drift_waiting d N w v head (b b' : bc) : drift b b' -> cached_ok v b' -> waiting d N w v head b -> waiting d N w v head b'.
Proof. intros Hd Hk [H1 H2 _ H4 H5]. split; [done|by rewrite (drift_db _ _ Hd)|done|by eapply drift_rest|]. intros Har. apply Hd. auto. Qed.
Lemma drift_Inv head (b b' : bc) : drift b b' -> cached_ok (db b) b' -> Inv b head -> Inv b' head.
Proof. intros Hd Hk [H1 H2 H3]. split; [by rewrite (drift_db _ _ Hd)|by rewrite (drift_db _ _ Hd)|by eapply drift_rest]. Qed.

(** Steps. *)
Lemma runs_hc {A B : Type} (m : SM (HeaderChain (C Header) (C Z) (C Z)) A) (k : A -> SM bc B) (b : bc) h x R : m (hc b) = Ret (h, x) -> runs p (k x) (with_hc h b) R -> runs p (on_hc m ≫= k) b R.
Proof. unfold runs, mbind, SM_bind, on_hc. intros E. by rewrite E. Qed.
Lemma runs_the {A B : Type} (o : option A) (k : A -> SM bc B) b R : match o with Some x => runs p (k x) b R | None => p end -> runs p (the o ≫= k) b R.
Proof. by destruct o. Qed.
Lemma runs_current {B : Type} (k : Block -> SM bc B) (b : bc) head R : block_head b head -> runs p (k head) b R -> runs p (CurrentBlock ≫= fun c => the c ≫= k) b R.
Proof. intros [E _] H. unfold runs, CurrentBlock, mbind, SM_bind, gets, lift, deref, the in *. by rewrite E. Qed.
Lemma runs_ask {A B : Type} (f : World -> nat -> A) (k : A -> SM bc B) (b : bc) R : runs p (k (f world (tick b))) (with_feed (feed b) (Datatypes.S (tick b)) b) R -> runs p (ask world f ≫= k) b R.
Proof. done. Qed.

Lemma hc_quiet h (b : bc) : cache_step (hc b) h -> quiet b (with_hc h b).
Proof. by split. Qed.
Lemma hc_cached v h (b : bc) : caches_ok Keccak256 PH v h -> cached_ok v b -> cached_ok v (with_hc h b).
Proof. intros H [_ K]. by split. Qed.

Lemma settle_runs d N w v head (b : bc) wc st batch : waiting d N w v head b -> P N -> td d (header head) = Some wc -> is_batch N v (db b) batch ->
  runs p (settle Keccak256 Sender world N st batch w (Some wc)) b
    (fun b' r => calm v (db b') /\ ((r = inr CanonStatTy /\ Inv b' N /\ wc <= w) \/ (r = inr SideStatTy /\ Inv b' head /\ w <= wc))).
Proof using W once laws.
  intros Hwt HN Ewc Hb. pose proof (ro_heads _ _ (wt_rest _ _ _ _ _ _ Hwt)) as [Hh _]. pose proof (do_head _ _ (wt_db _ _ _ _ _ _ Hwt)) as Hhd. unfold settle. apply runs_the, (runs_current _ _ head); [done|].
  set (better := fun bt : bool => if bt then wc <= w /\ (wc = w -> Number (header N) <= Number (header head)) else w <= wc).
  eapply runs_bind with (Q := fun b' bt => quiet b b' /\ cached_ok v b' /\ better bt).
  - unfold is_better. rewrite (blk_number _ _ _ _ W N HN), (blk_number _ _ _ _ W head (proj1 Hhd)). pose proof (wt_cached _ _ _ _ _ _ Hwt) as Hk. unfold better. destruct (wc <? w) eqn:E1; bool_to_prop; [apply runs_ret; split; [done|]; split; [done|lia]|].
    destruct (w =? wc) eqn:E2; bool_to_prop; [|apply runs_ret; split; [done|]; split; [done|lia]]. destruct (_ <? _) eqn:E3; bool_to_prop; [apply runs_ret; split; [done|]; split; [done|lia]|].
    destruct (_ =? _) eqn:E4; bool_to_prop; [|apply runs_ret; split; [done|]; split; [done|lia]]. split; [by apply feed_quiet|]. split; [by apply feed_cached|]. destruct (coin world (tick b)); lia.
  - intros b1 bt (Hq & Hk & Hbt). pose proof (drift_waiting _ _ _ _ _ _ _ (quiet_drift _ _ Hq) Hk Hwt) as Hwt1. pose proof (q_db _ _ Hq) as Ed. rewrite <- Ed in Hb. destruct bt; cbn in Hbt.
    + destruct Hbt as [Hle Hnum]. eapply runs_mono; [by eapply (make_head_runs d N w v head b1 wc)|]. intros b' r (-> & HI & Hc). split; [done|]. left. done.
    + pose proof Hwt1 as [Hdb Ha _ Hr _]. destruct (batch_union N v (db b1) batch HN Hb (db b1)) as [Hwb Hcb]. apply runs_update, runs_modify, runs_ret. set (b2 := put_db (batch ∪ db b1) b1). fold (unqueue N b2).
      assert (Hc : calm v (db b2)) by (by apply Hcb). split; [done|]. right. split; [done|]. split; [|done].
      assert (Hw : within (fun i => block_item i \/ match i with IReceipts _ _ => True | _ => False end) d (batch ∪ db b1)).
      { eapply within_trans; [eapply within_mono; [|apply (av_within _ _ _ _ _ Ha)]; intros i ->; by left|]. eapply within_mono; [|exact Hwb]. intros i [[->|[->| ->]]| ->]; [by left..|by right]. }
      split.
      * eapply (db_side d head N w wc (db b1) v); done.
      * apply (cached_calm v); [done|]. by apply (cached_move _ _ _ v b1).
      * apply unqueue_rest. destruct Hr as [[[H1 H2] [A1 A2 A3]] H3 H4 H5]. split; [|done|done|done].
        destruct (heads_within Keccak256 (fun i => block_items N i \/ i = IReceipts (BlockHash N) (Number (header N))) (batch ∪ db b1) b1 b2) as [K1 K2]; [intros i [[->|[->| ->]]| ->]; done|done|done|]. split; [by apply K1|by apply K2].
Qed.

(** ** States *)

Lemma collect_durable fuel chosen r : forall (q : Q) (s : S), durable s r -> durable (snd (collect fuel chosen q s)) r.
Proof.
  induction fuel as [|fuel IH]; intros q s Hs; [done|]. cbn [collect]. destruct (pq_Pop q) as [[[root number] q']|]; [|done]. destruct (_ <? _); [done|]. by apply IH, durable_Dereference.
Qed.

Lemma header_at_runs v (b : bc) n : cached_ok v b -> is_u64 n -> (forall x m h, is_hash x -> is_u64 m -> ChainDb.GetHeader (db b) x m = Some h -> has v h /\ x = HeaderHash h) ->
  (GetCanonicalHash (db b) n <> 0 -> is_hash (GetCanonicalHash (db b) n)) -> runs p (on_hc (GetHeaderByNumber n)) b (fun b' _ => quiet b b' /\ cached_ok v b').
Proof using laws.
  intros [[K1 K2 K3] K4] Hn Hread Hcan. unfold runs, on_hc, GetHeaderByNumber. unfold mbind at 2, SM_bind, gets. cbv zeta. change (chainDb (hc b)) with (db b). destruct (_ =? 0) eqn:E; bool_to_prop; [by split|].
  unfold GetHeader. destruct (cache_Get (headerCache (hc b)) _) as [y r] eqn:Eg.
  assert (Ky : forall z h, cached y !! z = Some h -> has v h /\ z = HeaderHash h) by (pose proof (cache_Get_forall (fun z h => has v h /\ z = HeaderHash h) (headerCache (hc b)) (GetCanonicalHash (db b) n) K1) as H; by rewrite Eg in H).
  destruct r as [h|]; [split; [by split|]; by split|]. change (chainDb (with_headers y (hc b))) with (db b). destruct (ChainDb.GetHeader (db b) _ n) as [h|] eqn:Eh; [|split; [by split|]; by split].
  split; [by split|]. split; [|done]. split; [|done|done]. apply (cache_Add_forall (fun z h => has v h /\ z = HeaderHash h)); [done|]. by apply (Hread _ n); auto.
Qed.

Lemma with_state_drift (f : S -> S) q gc lw (b : bc) : (forall r, durable (stateCache b) r -> durable (f (stateCache b)) r) -> drift b (with_gc q gc lw (with_state (f (stateCache b)) b)).
Proof. by split. Qed.

Lemma manage_tries_runs v (b : bc) N root : p -> cached_ok v b -> (forall x m h, is_hash x -> is_u64 m -> ChainDb.GetHeader (db b) x m = Some h -> has v h /\ x = HeaderHash h) ->
  (forall n, is_u64 n -> GetCanonicalHash (db b) n <> 0 -> is_hash (GetCanonicalHash (db b) n)) -> runs p (manage_tries world N root) b (fun b' _ => drift b b' /\ cached_ok v b').
Proof using laws.
  intros Hp Hk Hread Hcan. unfold manage_tries. apply runs_modify. cbn zeta. apply runs_modify. match goal with |- runs _ _ ?x _ => set (b1 := x) end.
  assert (Hd1 : drift b b1) by (apply (with_state_drift (fun s => trie_Reference s root)); intros r; apply durable_Reference). assert (Hk1 : cached_ok v b1) by (by apply (cached_move _ _ _ v b)).
  destruct (negb _); [by apply runs_ret|]. eapply runs_bind; [apply (header_at_runs v b1); [done|apply u64_range|done|apply Hcan, u64_range]|]. intros b2 h [Hq2 Hk2]. apply runs_the. destruct h as [h|]; [|done]. cbn zeta.
  apply runs_gets, runs_gets, runs_gets. eapply runs_bind with (Q := fun b' _ => drift b2 b' /\ cached_ok v b').
  { destruct (_ && _); [|by apply runs_ret]. unfold runs, modify. split; [apply (with_state_drift (fun s => fst (trie_Commit s (Root h)))); intros r; apply durable_trie|by apply (cached_move _ _ _ v b2)]. }
  intros b3 [] [Hd3 Hk3]. unfold runs, modify. destruct (collect _ _ _ _) as [q s'] eqn:Ec. split; [|by apply (cached_move _ _ _ v b3)]. etrans; [exact Hd1|]. etrans; [by apply quiet_drift|]. etrans; [exact Hd3|].
  split; try done. intros r Hr. change s' with (snd (q, s')). rewrite <- Ec. by apply collect_durable.
Qed.

(** The disk does not fail; only a node that is not an archive may panic. *)
Record disk_ok : Prop := {
  dk_state : forall (st : St) (s : S), exists s' r, state_Commit st s = (s', inr r);
  dk_trie : forall (s : S) h, snd (trie_Commit s h) = None
}.
Context (disk : disk_ok) (Hp : archive world = false -> p).

Lemma canon_is_hash d head n : db_ok d head -> is_u64 n -> GetCanonicalHash d n <> 0 -> is_hash (GetCanonicalHash d n).
Proof using W. intros Hd Hn Hnz. destruct (do_index _ _ Hd n Hn Hnz) as (c & _ & _ & ->). by apply (blk_hash _ _ _ _ W). Qed.

Lemma keep_state_runs d N w v head (b : bc) st s0 root : db_ok d head -> arrives d N w (db b) v -> cached_ok v b -> rest_ok head b ->
  state_Commit st s0 = (stateCache b, inr root) -> (archive world = true -> root = Root (header N)) ->
  runs p (keep_state world N root) b (fun b' r => r = None /\ db b' = db b /\ waiting d N w v head b').
Proof using W laws disk Hp.
  intros Hdb Ha Hk Hr Ec Er. unfold keep_state.
  destruct (archive world) eqn:Ear.
  - apply runs_gets. destruct (trie_Commit (stateCache b) root) as [s e] eqn:Et. apply runs_modify, runs_ret. pose proof (dk_trie disk (stateCache b) root) as He. rewrite Et in He. cbn in He. subst e. split; [done|]. split; [done|].
    assert (Hd : drift b (with_state s b)) by (split; try done; intros r Hd; change s with (fst (s, None : option Error)); rewrite <- Et; by apply durable_trie).
    split; [done|done|by apply (cached_move _ _ _ v b)|by eapply drift_rest|]. intros _. cbn. rewrite <- (Er eq_refl). by eapply Commit_durable.
  - assert (Hwt : waiting d N w v head b) by (by split; try done; rewrite Ear). eapply runs_bind; [apply (manage_tries_runs v b); [by apply Hp|done| |]|].
    + intros x m h Hx Hm Eh. pose proof (av_within _ _ _ _ _ Ha (IHeader x m) ltac:(done) ltac:(done)) as Ei. rewrite decode_header_get, (get_eq d _ _ Ei), <- decode_header_get in Eh.
      destruct (self_has _ _ _ _ _ _ _ (so_tree _ _ _ _ _ (do_store _ _ Hdb)) Hx Hm Eh) as (Hh & -> & _). split; [|done]. by apply (av_grown _ _ _ _ _ Ha).
    + intros n Hn. rewrite (waiting_canon _ _ _ _ _ _ n Hwt Hn). by eapply canon_is_hash.
    + intros b' [] [Hd Hk']. apply runs_ret. split; [done|]. split; [by apply drift_db|]. by eapply drift_waiting.
Qed.

(** What writing a block does. *)
Record written (N : Block) (b : bc) (head : Block) (b' : bc) (head' : Block) (status : WriteStatus) : Prop := {
  wn_stored : forall c, stored (db b') c <-> c = N \/ stored (db b) c;
  wn_td : exists q wq w, stored (db b) q /\ BlockHash q = ParentHash (header N) /\ td (db b) (header q) = Some wq /\ w = Difficulty (header N) + wq /\ td (db b') (header N) = Some w /\
    match status with CanonStatTy => head' = N | SideStatTy => head' = head /\ forall wc, td (db b) (header head) = Some wc -> w <= wc | NonStatTy => False end
}.

Lemma WriteBlockWithState_runs N rs st (b : bc) head : Inv b head -> P N -> Forall receipt_ok rs -> fits receipts_type (receipts_val rs) -> state_Root st = Root (header N) ->
  runs p (WriteBlockWithState Keccak256 Sender world N rs st) b (fun b' r => exists head', Inv b' head' /\
    match r with
    | inl e => e = ErrConsensus Consensus.ErrUnknownAncestor /\ head' = head /\ db b' = db b /\ forall q, stored (db b) q -> BlockHash q <> ParentHash (header N)
    | inr status => written N b head b' head' status
    end).
Proof using W once laws disk Hp.
  intros HI HN Hrs Hfit Hroot. pose proof HI as [Hdb Hk Hr]. pose proof (bk_world _ _ _ _ W) as W0. set (d := db b) in *. pose proof (do_store _ _ Hdb) as Hst. pose proof (so_tree _ _ _ _ _ Hst) as Ht. assert (HPN : PH (header N)) by (by exists N).
  unfold WriteBlockWithState. destruct (parent_td _ _ _ W0 (hc b) (header N) Ht (co_headers _ _ _ _ _ Hk) HPN) as (h1 & r & E1 & Hs1 & Hk1 & Hr1). eapply runs_hc; [exact E1|]. set (b1 := with_hc h1 b).
  assert (Hq1 : quiet b b1) by (by apply hc_quiet). assert (Hkb1 : cached_ok d b1) by (by apply hc_cached). destruct r as [wp|].
  2: { apply runs_ret. exists head. split; [by apply (drift_Inv head b); [apply quiet_drift|..]|]. split; [done|]. split; [done|]. split; [by apply q_db|]. intros q Hq E. apply (Hr1 (header q)); [by eapply stored_has|done]. }
  destruct Hr1 as (hq & Hhq & Epar & Ewp). destruct (so_block _ _ _ _ _ Hst hq Hhq) as (q & <- & Hq). apply (runs_current _ _ head); [apply (drift_rest head b b1 (quiet_drift _ _ Hq1) Hr)|].
  assert (Edb1 : chainDb h1 = d) by apply Hs1. assert (Hhd : has (chainDb h1) (header head)) by (rewrite Edb1; eapply stored_has, Hdb).
  destruct (td_spec _ _ _ W0 h1 (header head)) as (h2 & E2 & Hs2 & Hk2); [by rewrite Edb1|by rewrite Edb1|done|]. rewrite Edb1 in *. eapply runs_hc; [exact E2|]. cbn zeta. set (b2 := with_hc h2 b1).
  destruct (stored_td d head Hst (do_head _ _ Hdb)) as [wc Ewc]. change (td d (header head)) with (HeaderChainProps.td Keccak256 d (header head)). rewrite Ewc.
  assert (Hq2 : quiet b b2) by (etrans; [exact Hq1|by apply hc_quiet]). assert (Hkb2 : cached_ok d b2) by (by apply hc_cached).
  destruct (block_arrives d N q wp Hst HN Hq Epar Ewp) as (d1 & v & Ha). pose proof (av_td _ _ _ _ _ Ha) as Etd. set (w := Difficulty (header N) + wp) in *.
  assert (Ed2 : chainDb h2 = d) by (rewrite <- Edb1; apply Hs2). set (b2' := with_hc (with_tds (cache_Add (tdCache h2) (BlockHash N) w) h2) b2). set (b3 := put_db d1 b2').
  assert (E3 : WriteTd (BlockHash N) (NumberU64 N) w (hc b2) = Ret (hc b3, None)).
  { unfold WriteTd. change (chainDb (hc b2)) with (chainDb h2). rewrite Ed2, (blk_number _ _ _ _ W N HN), Etd. done. }
  eapply runs_hc; [exact E3|]. change (with_hc (hc b3) b2) with b3. assert (Hq3 : quiet b b2') by (etrans; [exact Hq2|by split]).
  assert (Hk3 : cached_ok v b3).
  { split.
    - pose proof (added_caches _ _ d v (header N) w h2 (av_grown _ _ _ _ _ Ha) Hk2 (av_added _ _ _ _ _ Ha) HPN) as [K1 K2 K3]. by split.
    - intros x c Hx. destruct (co_blocks _ _ _ _ _ Hkb2 x c Hx) as [Hc ->]. split; [|done]. apply (ar_stored _ _ _ _ _ _ _ (av_arriving _ _ _ _ _ Ha)). by right. }
  assert (Hr3 : rest_ok head b3).
  { pose proof (drift_rest head b b2' (quiet_drift _ _ Hq3) Hr) as [[H1 H2] H3 H4 H5]. pose proof (q_db _ _ Hq3) as Ed3. destruct (heads_within Keccak256 (fun i => i = ITd (BlockHash N) (Number (header N))) d1 b2' b3) as [A1 A2]; [by intros i ->|rewrite Ed3; apply Ha|done|].
    split; [split; auto|done|done|done]. }
  destruct (av_block _ _ _ _ _ Ha) as (bd & hd & Ev & Eb). eapply runs_lift; [apply Eb|]. apply runs_gets. destruct (dk_state disk st (stateCache b3)) as (s' & root & Ec). rewrite Ec. apply runs_modify. set (b4 := with_state s' b3).
  assert (Hd4 : drift b3 b4) by (split; try done; intros r Hd; change (stateCache b4) with (fst (s', inr root : Error + Hash)); rewrite <- Ec; by apply durable_Commit).
  eapply runs_bind; [apply (keep_state_runs d N w v head b4 st (stateCache b3) root); [done|done|by apply (cached_move _ _ _ v b3)|by eapply drift_rest|done|intros _; rewrite <- Hroot; by eapply Commit_root]|].
  intros b5 r (-> & Ed5 & Hwt). destruct (WriteBlockReceipts_spec (put_block N bd hd ∅) (BlockHash N) (Number (header N)) rs Hrs Hfit) as (rd & Erd & _); [by apply (blk_hash _ _ _ _ W)|by eapply blk_u64|].
  rewrite (blk_number _ _ _ _ W N HN). eapply runs_lift; [exact Erd|]. eapply runs_mono; [apply (settle_runs d N w v head b5 wc); [done|done|done|]|].
  - exists bd, hd, rd. split; [|done]. rewrite Ed5. exact Ev.
  - intros b6 r (Hcalm & Hres). assert (Hsto : forall c, stored (db b6) c <-> c = N \/ stored d c).
    { intros c. rewrite <- (ar_stored _ _ _ _ _ _ _ (av_arriving _ _ _ _ _ Ha)). split; apply (calm_stored _ _ _ _ W); [by symmetry|done]. }
    assert (Etd6 : td (db b6) (header N) = Some w) by (rewrite (calm_td _ _ _ _ W v) by done; by apply (arrives_td _ _ _ _ _ Ha HN)).
    destruct Hres as [(-> & HI' & Hle)|(-> & HI' & Hle)]; [exists N|exists head]; (split; [done|]); (split; [done|]); exists q, wp, w; repeat (split; [done|]); [done|]. intros wc' E. change (db b) with d in E. rewrite Ewc in E. injection E as <-. done.
Qed.

End Write.
End BlockWrite.
