(* ===== verification/BlockInsert.v ===== *)
(** Inserting chains of blocks ([insertChain]): every outcome keeps the invariant of the
    chain, and the insertion returns. *)

From S2P Require Import Prelude Params Bytes Cache RlpEncode RlpDecode RlpRoundtrip Trie Consensus Heap TxTypes ChainDb ChainDbProps HeaderChain HeaderChainProps Queue StateDB Receipt Block BlockProps BlockChain BlockChainProps BlockWrite.
Import ChainDb ChainDbProps HeaderChain HeaderChainProps Receipt ReceiptProps Block BlockProps BlockChain BlockChainProps BlockWrite.

Module BlockInsert.

Section Insert.
Context (Keccak256 : bytes -> Hash) (Sender : txdata -> option Address) (g : Block) (P : Block -> Prop).
Abbreviation HeaderHash := (HeaderHash Keccak256).
Abbreviation BlockHash := (BlockHash Keccak256).
Abbreviation DbBlock := (Block.GetBlock Keccak256 Sender).
Context (W : blocks_ok Keccak256 Sender g P).
Abbreviation PH := (PH P).
Abbreviation has := (has Keccak256 PH).
Abbreviation td := (td Keccak256).
Abbreviation stored := (stored Keccak256 Sender P).
Abbreviation store_ok := (store_ok Keccak256 Sender g P).
Abbreviation bline := (bline Keccak256 g).
Context (once : forall c l, bline c l -> Forall P l -> NoDup (above l ≫= tx_hashes)).
Context {C : Type -> Type} {S Q St : Type} {lru : LruOps C} {laws : LruLaws C} {state_ops : StateOps S St} {state_laws : StateLaws S St} {pq : PrqueOps Q (Hash * Z)}.
Context (world : World) (p : Prop) (disk : disk_ok (S := S) (St := St)) (Hp : archive world = false -> p).
Abbreviation bc := (BlockChain C S Q).
Abbreviation Inv := (Inv Keccak256 Sender g P world).
Abbreviation db_ok := (db_ok Keccak256 Sender g P).
Abbreviation cached_ok := (cached_ok Keccak256 Sender P).

(** The receipts of an execution are well formed and of bounded size. *)
Record receipts_ok (rs : list Receipt) : Prop := {
  rc_ok : Forall receipt_ok rs;
  rc_fits : fits receipts_type (receipts_val rs);
  rc_each : Forall (fun r => forall b, RlpRef.enc receiptRLP Rlp.notags (receipt_val r) = Ret (inr b) -> len b < 2 ^ 60) rs;
  rc_count : len rs <= MaxUint64
}.

(** A step that only reads: the caches and the bookkeeping may change. *)
Definition reads (b b' : bc) : Prop := quiet b b' /\ cached_ok (db b) b'.
Lemma reads_Inv (b b' : bc) head : reads b b' -> Inv b head -> Inv b' head.
Proof. intros [Hq Hk] HI. eapply drift_Inv; [by apply quiet_drift|done|done]. Qed.
Lemma reads_db (b b' : bc) : reads b b' -> db b' = db b.
Proof. intros [Hq _]. by apply q_db. Qed.
Lemma reads_trans (b b1 b2 : bc) : reads b b1 -> reads b1 b2 -> reads b b2.
Proof. intros H1 [Hq2 Hk2]. rewrite (reads_db _ _ H1) in Hk2. split; [by etrans; [apply H1|]|done]. Qed.
Lemma reads_refl (b : bc) head : Inv b head -> reads b b.
Proof. intros [_ Hk _]. by split. Qed.
Lemma reads_has (b b' : bc) r : reads b b' -> has_state (stateCache b') r = has_state (stateCache b) r.
Proof. intros [Hq _]. by rewrite (q_state _ _ Hq). Qed.

Lemma sees_refl d x : sees Keccak256 Sender d d x.
Proof. by split. Qed.

(** Asking the world, reporting a bad block and moving the clock only touch bookkeeping. *)
Lemma book_reads (b b' : bc) head : Inv b head -> hc b' = hc b -> genesisBlock b' = genesisBlock b -> currentBlock b' = currentBlock b -> currentFastBlock b' = currentFastBlock b -> futureBlocks b' = futureBlocks b ->
  stateCache b' = stateCache b -> blockCache b' = blockCache b -> reads b b'.
Proof. intros [_ Hk _] E1 E2 E3 E4 E5 E6 E7. split; [split; [by rewrite E1|done..]|]. apply (cached_move _ _ _ _ b); [by rewrite E1..|done|done]. Qed.
Lemma ask_reads (b : bc) head fd t : Inv b head -> reads b (with_feed fd t b).
Proof. intros HI. by eapply book_reads. Qed.

Lemma block_runs (b : bc) head N : Inv b head -> P N ->
  runs p (GetBlock Keccak256 Sender (BlockHash N) (NumberU64 N)) b (fun b' r => reads b b' /\ (r = Some N /\ stored (db b) N \/ r = None /\ ~ stored (db b) N)).
Proof using W laws.
  intros [Hdb Hk Hr] HN. rewrite (blk_number _ _ _ _ W N HN). pose proof (do_store _ _ _ _ _ _ Hdb) as Hs. pose proof (blk_hash _ _ _ _ W N) as Hx. pose proof (blk_u64 _ _ _ _ W N HN) as Hu.
  eapply runs_mono; [apply (GetBlock_runs _ _ _ _ W p b (db b)); [done|done|apply sees_refl|done|done|]|].
  - intros c [Hc _] E. apply (blk_inj _ _ _ _ W) in E as ->; done.
  - intros b' r (-> & Hq & Hk'). split; [by split|]. destruct (DbBlock (db b) (BlockHash N) (Number (header N))) as [c|] eqn:E.
    + left. destruct (db_block_is _ _ _ _ W _ _ _ _ Hs Hx Hu E) as (Hc & Ex & _). assert (c = N) as -> by (eapply blk_inj; [done|apply Hc|done|done]). done.
    + right. split; [done|]. intros [_ E']. congruence.
Qed.

Lemma parent_at_runs (b : bc) head N : Inv b head -> P N ->
  runs p (parent Keccak256 Sender N) b (fun b' r => reads b b' /\ match r with Some q => stored (db b) q /\ BlockHash q = ParentHash (header N) | None => forall q, stored (db b) q -> BlockHash q <> ParentHash (header N) end).
Proof using W laws.
  intros [Hdb Hk Hr] HN. eapply runs_mono; [apply (parent_runs _ _ _ _ W p b (db b) N); [apply Hdb|done|apply sees_refl|done]|]. intros b' r (Hq & Hk' & H). split; [by split|done].
Qed.

(** The ancestors of the head all are there. *)
Lemma stored_parent (b : bc) head c : Inv b head -> stored (db b) c -> 0 < Number (header c) -> exists q, stored (db b) q /\ BlockHash q = ParentHash (header c) /\ Number (header c) = Number (header q) + 1.
Proof using W.
  intros [Hdb _ _] Hc Hpos. pose proof (do_store _ _ _ _ _ _ Hdb) as Hs. destruct (t_parent _ _ _ _ (so_tree _ _ _ _ _ Hs) _ (stored_has _ _ _ _ _ Hc) Hpos) as (h & Hh & E). destruct (so_block _ _ _ _ _ Hs h Hh) as (q & <- & Hq).
  exists q. split; [done|]. split; [done|]. eapply blk_child; [done|apply Hc|apply Hq|done].
Qed.

(** Back to a block with a state: the genesis block has one. *)
Lemma gather_runs fuel : forall (b : bc) head c ws, Inv b head -> stored (db b) c -> (Z.to_nat (Number (header c)) < fuel)%nat -> Forall (stored (db b)) ws -> Forall (fun k => Number (header c) < Number (header k)) ws ->
  runs p (gather Keccak256 Sender fuel (Some c) ws) b (fun b' r => reads b b' /\ Forall (stored (db b)) r /\ forall m, Number (header c) <= m -> Forall (fun k => Number (header k) <= m) ws -> Forall (fun k => Number (header k) <= m) r).
Proof using W laws.
  induction fuel as [|fuel IH]; intros b head c ws HI Hc Hf Hws Hab; [lia|]. cbn [gather]. apply runs_the, runs_gets. destruct (has_state _ _) eqn:Eh.
  - apply runs_ret. split; [by eapply reads_refl|]. split; [done|]. done.
  - pose proof (blk_u64 _ _ _ _ W c (proj1 Hc)) as Hu. assert (Hpos : 0 < Number (header c)).
    { destruct (decide (Number (header c) = 0)) as [E|]; [|go_lia]. exfalso. assert (c = g) as -> by (eapply number_zero; [done|apply Hc|done]). destruct (ro_state _ _ _ _ _ (iv_rest _ _ _ _ _ _ _ HI)) as [Hd _].
      destruct (durable_New _ _ Hd) as [st E']. unfold has_state in Eh. by rewrite E' in Eh. }
    destruct (stored_parent b head c HI Hc Hpos) as (q & Hq & Eq & Hn). eapply runs_bind; [by apply (parent_at_runs b head c HI), Hc|]. intros b1 r [Hr1 Hr]. destruct r as [q'|]; [|by destruct (Hr q Hq)].
    destruct Hr as [Hq' Eq']. assert (q' = q) as -> by (eapply blk_inj; [done|apply Hq'|apply Hq|congruence]). pose proof (reads_db _ _ Hr1) as Ed. pose proof (blk_u64 _ _ _ _ W q (proj1 Hq)).
    eapply runs_mono; [apply (IH b1 head q (c :: ws)); [by eapply reads_Inv|by rewrite Ed|go_lia|rewrite Ed; by constructor|constructor; [lia|eapply Forall_impl; [exact Hab|]; cbn; lia]]|].
    intros b2 r (Hr2 & Hst & Hbound). rewrite Ed in Hst. split; [by eapply reads_trans|]. split; [done|]. intros m Hm Hwm. apply Hbound; [lia|by constructor].
Qed.

(** ** Validation *)

Definition has_parent (d : DB) (N : Block) : Prop := exists q, stored d q /\ BlockHash q = ParentHash (header N).

(** What an error of the first validation says. *)
Definition says (d : DB) (N : Block) (err : option InsertError) : Prop :=
  match err with
  | None | Some ErrPrunedAncestor => has_parent d N
  | Some ErrKnownBlock => stored d N
  | Some ErrFutureBlock => False
  | _ => True
  end.

Lemma roots_returns N : P N -> exists r, validate_roots Keccak256 N = Ret r.
Proof using W.
  intros HN. destruct (bk_block _ _ _ _ W N HN) as [_ [Ht _ _]]. unfold validate_roots. destruct (negb _); [by eexists|]. rewrite DeriveSha_spec; [by eexists|apply (w_hash _ _ _ (bk_world _ _ _ _ W))|].
  split; [by eapply txs_rlp_ok|]. pose proof (bk_count _ _ _ _ W N HN). unfold txs_rlp, len in *. rewrite length_map. go_lia.
Qed.

Lemma there_runs (b : bc) head N : Inv b head -> P N -> runs p (HasBlock (ParentHash (header N)) (u64 (NumberU64 N - 1))) b (fun b' r => b' = b /\ (r = true -> has_parent (db b) N)).
Proof using W laws.
  intros [Hdb [_ Hk] _] HN. unfold runs, HasBlock, gets. split; [done|]. intros Ht. apply orb_true_iff in Ht as [Hc|Hb].
  - apply cache_Contains_held in Hc as [c Hc]. destruct (Hk _ _ Hc) as [Hst E]. by exists c.
  - apply bool_decide_eq_true in Hb. destruct (so_body _ _ _ _ _ (do_store _ _ _ _ _ _ Hdb) (ParentHash (header N)) (u64 (NumberU64 N - 1))) as (c & Hc & E & _); [by eapply blk_parent|apply u64_range|done|]. by exists c.
Qed.

Lemma ValidateBody_runs (b : bc) head N : Inv b head -> P N -> runs p (ValidateBody Keccak256 Sender world N) b (fun b' r => reads b b' /\ says (db b) N r).
Proof using W laws.
  intros HI HN. unfold ValidateBody. unfold HasBlockAndState at 1. eapply runs_bind with (Q := fun b' (known : bool) => reads b b' /\ (known = true -> stored (db b) N)).
  { eapply runs_bind; [by apply (block_runs b head N)|]. intros b1 r [Hr [[-> Hst]|[-> Hst]]]; [|by apply runs_ret]. split; [done|]. done. }
  intros b1 known [Hr1 Hkn]. pose proof (reads_db _ _ Hr1) as Ed1. pose proof (reads_Inv _ _ _ Hr1 HI) as HI1. destruct known; [apply runs_ret; split; [done|]; by apply Hkn|].
  unfold HasBlockAndState. eapply runs_bind with (Q := fun b' (ok : bool) => reads b b' /\ (ok = true -> has_parent (db b) N)).
  { eapply runs_bind; [by apply (parent_at_runs b1 head N)|]. intros b2 r [Hr2 Hr]. rewrite Ed1 in Hr. destruct r as [q|]; [|apply runs_ret; split; [by eapply reads_trans|done]].
    unfold runs, HasState, gets. split; [by eapply reads_trans|]. intros _. by exists q. }
  intros b2 ok [Hr2 Hok]. pose proof (reads_db _ _ Hr2) as Ed2. pose proof (reads_Inv _ _ _ Hr2 HI) as HI2. destruct ok; cbn [negb].
  - apply runs_ask. set (b3 := with_feed _ _ b2). assert (Hr3 : reads b b3) by (eapply reads_trans; [exact Hr2|by eapply ask_reads]). destruct (VerifyUncles world _ N); [by apply runs_ret|].
    destruct (roots_returns N HN) as [r Er]. eapply runs_lift; [exact Er|]. apply runs_ret. split; [done|]. destruct r; [done|]. by apply Hok.
  - eapply runs_bind; [by apply (there_runs b2 head N)|]. intros b3 there [-> Hth]. rewrite Ed2 in Hth. apply runs_ret. split; [done|]. destruct there; [by apply Hth|done].
Qed.

(** ** Growth *)

(** The chain is in order and only blocks of [new] came in. *)
Record grew (new : Block -> Prop) (b b' : bc) : Prop := {
  gw_inv : exists head, Inv b' head;
  gw_kept : forall c, stored (db b) c -> stored (db b') c;
  gw_new : forall c, stored (db b') c -> stored (db b) c \/ new c
}.
Lemma grew_trans new b b1 b2 : grew new b b1 -> grew new b1 b2 -> grew new b b2.
Proof. intros [_ K1 N1] [I2 K2 N2]. split; [done|auto|]. intros c Hc. destruct (N2 c Hc) as [Hc'|]; [by apply N1|by right]. Qed.
Lemma reads_grew new (b b' : bc) head : reads b b' -> Inv b head -> grew new b b'.
Proof. intros Hr HI. pose proof (reads_db _ _ Hr) as Ed. split; [exists head; by eapply reads_Inv|by rewrite Ed|rewrite Ed; by left]. Qed.
Lemma grew_mono (A B : Block -> Prop) b b' : (forall c, A c -> stored (db b) c \/ B c) -> grew A b b' -> grew B b b'.
Proof. intros H [I K N]. split; [done|done|]. intros c Hc. destruct (N c Hc) as [|Ha]; [by left|by apply H]. Qed.

Lemma has_parent_grew new b b' N : grew new b b' -> has_parent (db b) N -> has_parent (db b') N.
Proof. intros Hg (q & Hq & E). exists q. split; [by apply Hg|done]. Qed.

(** A side block whose state is not computed. *)
Lemma without_runs (b : bc) head N wq wc : Inv b head -> P N -> (exists q, stored (db b) q /\ BlockHash q = ParentHash (header N) /\ td (db b) (header q) = Some wq) -> td (db b) (header head) = Some wc -> wq + Difficulty (header N) < wc ->
  runs p (WriteBlockWithoutState Keccak256 N (wq + Difficulty (header N))) b (fun b' r => r = None /\ grew (eq N) b b' /\ stored (db b') N).
Proof using W laws.
  intros HI HN (q & Hq & Eq & Ewq) Ewc Hlt. pose proof HI as [Hdb Hk Hr]. destruct (block_arrives _ _ _ _ W (db b) N q wq (do_store _ _ _ _ _ _ Hdb) HN Hq Eq Ewq) as (d1 & v & Ha). pose proof (av_td _ _ _ _ _ _ _ _ _ Ha) as Etd.
  destruct (av_block _ _ _ _ _ _ _ _ _ Ha) as (bd & hd & Ev & Eb). pose proof (av_arriving _ _ _ _ _ _ _ _ _ Ha) as A. rewrite (Z.add_comm wq). set (w := Difficulty (header N) + wq) in *. unfold WriteBlockWithoutState.
  set (b1 := with_hc (with_tds (cache_Add (tdCache (hc b)) (BlockHash N) w) (HeaderChain.with_db d1 (hc b))) b). eapply runs_hc; [unfold WriteTd; rewrite (blk_number _ _ _ _ W N HN); change (chainDb (hc b)) with (db b); rewrite Etd; reflexivity|]. fold b1.
  apply runs_gets. change (db b1) with d1. eapply runs_lift; [apply Eb|]. rewrite <- Ev. apply runs_set, runs_ret. set (b2 := put_db v b1). split; [done|].
  assert (Hst : forall c, stored v c <-> c = N \/ stored (db b) c) by (intros c; apply A). split; [|apply Hst; by left]. split; [|intros c Hc; apply Hst; by right|intros c Hc; apply Hst in Hc as [->|Hc]; [by right|by left]].
  exists head. assert (Hw : within block_item (db b) v).
  { eapply within_trans; [eapply within_mono; [|apply (av_within _ _ _ _ _ _ _ _ _ Ha)]; by intros i ->|]. rewrite Ev. eapply within_mono; [|by apply (put_block_within Keccak256 Sender g P W)]. intros i [->|[->| ->]]; done. }
  split.
  - eapply (db_side Keccak256 Sender g P W (db b) head N w wc d1 v v); [done|done|done|done|unfold w; lia|]. eapply within_mono; [|exact Hw]. by left.
  - split.
    + pose proof (added_caches _ _ (db b) v (header N) w (hc b) (av_grown _ _ _ _ _ _ _ _ _ Ha) (co_headers _ _ _ _ _ Hk) (av_added _ _ _ _ _ _ _ _ _ Ha) (ex_intro _ N (conj HN eq_refl))) as [K1 K2 K3]. by split.
    + intros x c Hx. destruct (co_blocks _ _ _ _ _ Hk x c Hx) as [Hc ->]. split; [|done]. apply Hst. by right.
  - destruct Hr as [[[H1 H2] [H3 H4 H5]] H6 H7 H8]. set (b1' := with_hc (with_tds (cache_Add (tdCache (hc b)) (BlockHash N) w) (hc b)) b).
    destruct (heads_within Keccak256 block_item v b1' b2) as [A1 A2]; [by intros []|done|done|]. split; [split; [apply A1; by split|apply A2; by split]|done|done|done].
Qed.

(** ** The verdict *)

Definition judged (b : bc) (N : Block) (b' : bc) (v : verdict) : Prop :=
  match v with
  | VSkip => grew (eq N) b b' /\ stored (db b') N
  | VFail _ => grew (eq N) b b'
  | VQueue => False
  | VGo => reads b b' /\ has_parent (db b) N
  | VReplay ws => reads b b' /\ has_parent (db b) N /\ Forall (stored (db b)) ws /\ Forall (fun k => Number (header k) < Number (header N)) ws
  end.

Lemma report_reads (b : bc) head N : Inv b head -> reads b (with_bad (cache_Add (badBlocks b) (HeaderHash (header N)) (header N)) b).
Proof. intros HI. by eapply book_reads. Qed.

Lemma pruned_runs (b : bc) head N : Inv b head -> P N -> has_parent (db b) N ->
  runs p (localTd ← on_hc (GetTd (BlockHash head) (NumberU64 head));
          ptd ← on_hc (GetTd (ParentHash (header N)) (u64 (NumberU64 N - 1)));
          ptd ← the ptd;
          localTd ← the localTd;
          let externTd := ptd + Difficulty (header N) in
          if externTd <? localTd then
            e ← WriteBlockWithoutState Keccak256 N externTd;
            mret (match e with Some e => VFail (ErrRlp e) | None => VSkip end)
          else
            q ← parent Keccak256 Sender N;
            winner ← gather Keccak256 Sender (Datatypes.S (Z.to_nat (NumberU64 N))) q [];
            mret (VReplay winner)) b (judged b N).
Proof using W laws.
  intros HI HN Hpar. pose proof (bk_world _ _ _ _ W) as W0. pose proof HI as [Hdb Hk Hr]. pose proof (do_store _ _ _ _ _ _ Hdb) as Hs. pose proof (so_tree _ _ _ _ _ Hs) as Ht. pose proof (do_head _ _ _ _ _ _ Hdb) as Hhd.
  destruct (td_spec _ _ _ W0 (hc b) (header head) Ht (co_headers _ _ _ _ _ Hk) (stored_has _ _ _ _ _ Hhd)) as (h1 & E1 & Hs1 & Hk1). eapply runs_hc; [exact E1|]. set (b1 := with_hc h1 b).
  assert (Hr1 : reads b b1) by (split; [by apply hc_quiet|by apply hc_cached]). assert (Ed1 : chainDb h1 = db b) by apply Hs1.
  destruct (parent_td _ _ _ W0 h1 (header N)) as (h2 & r & E2 & Hs2 & Hk2 & Hr2); [by rewrite Ed1|by rewrite Ed1|by exists N|]. rewrite Ed1 in Hk2, Hr2. eapply runs_hc; [exact E2|]. set (b2 := with_hc h2 b1).
  assert (Hr2' : reads b b2) by (split; [etrans; [apply Hr1|by apply hc_quiet]|by apply hc_cached; [|apply Hr1]]). pose proof (reads_db _ _ Hr2') as Ed2. pose proof (reads_Inv _ _ _ Hr2' HI) as HI2.
  destruct Hpar as (q & Hq & Eq). apply runs_the. destruct r as [wp|]; [|by destruct (Hr2 (header q)); [eapply stored_has|]]. destruct Hr2 as (hq & Hhq & Ehq & Ewp).
  assert (hq = header q) as -> by (apply (w_inj _ _ _ W0); [apply Hhq|exists q; split; [apply Hq|done]|]; by rewrite Ehq). destruct (stored_td _ _ _ _ _ _ Hs Hhd) as [wc Ewc]. change (chainDb (hc b)) with (db b). rewrite Ewc. apply runs_the. cbn zeta. destruct (_ <? wc) eqn:El; bool_to_prop.
  - eapply runs_bind; [apply (without_runs b2 head N wp wc HI2 HN); rewrite ?Ed2; [by exists q|done|done]|]. intros b3 e (-> & Hg & Hst). apply runs_ret. split; [|done]. eapply grew_trans; [eapply reads_grew; [exact Hr2'|done]|done].
  - eapply runs_bind; [by apply (parent_at_runs b2 head N)|]. intros b3 r [Hr3 Hpr]. rewrite Ed2 in Hpr. destruct r as [q'|]; [|by destruct (Hpr q)]. destruct Hpr as [Hq' Eq']. assert (q' = q) as -> by (eapply blk_inj; [done|apply Hq'|apply Hq|congruence]).
    pose proof (blk_child _ _ _ _ W N q HN (proj1 Hq) Eq) as Hn. pose proof (blk_u64 _ _ _ _ W N HN). pose proof (blk_u64 _ _ _ _ W q (proj1 Hq)). pose proof (reads_trans _ _ _ Hr2' Hr3) as Hr3'. pose proof (reads_db _ _ Hr3') as Ed3.
    eapply runs_bind; [apply (gather_runs _ b3 head q []); [by eapply reads_Inv|by rewrite Ed3|rewrite (blk_number _ _ _ _ W N HN); go_lia|done|done]|]. intros b4 ws (Hr4 & Hws & Hb). rewrite Ed3 in Hws. apply runs_ret.
    split; [by eapply reads_trans|]. split; [by exists q|]. split; [done|]. eapply Forall_impl; [apply (Hb (Number (header q))); [lia|done]|]. cbn. lia.
Qed.

Lemma judge_runs (b : bc) head N err : Inv b head -> P N -> says (db b) N err -> runs p (judge Keccak256 Sender world N err) b (judged b N).
Proof using W laws.
  intros HI HN Hsay. pose proof HI as [Hdb Hk Hr]. pose proof (ro_heads _ _ _ _ _ Hr) as [Hh _]. pose proof (reads_refl b head HI) as Hrr. unfold judge. apply runs_gets.
  assert (Hfail : forall e, runs p (_ ← reportBlock Keccak256 N; mret (VFail e)) b (judged b N)) by (intros e; apply runs_modify, runs_ret; eapply reads_grew; [by eapply report_reads|done]).
  assert (Hfut : cache_Contains (futureBlocks b) (ParentHash (header N)) = false).
  { destruct (cache_Contains _ _) eqn:E; [|done]. apply cache_Contains_held in E as [c E]. rewrite (ro_future _ _ _ _ _ Hr) in E. done. }
  rewrite Hfut. destruct err as [[]|]; try apply Hfail.
  - eapply runs_current; [exact Hh|]. apply runs_ret. rewrite (blk_number _ _ _ _ W N HN), (blk_number _ _ _ _ W head) by apply (do_head _ _ _ _ _ _ Hdb). destruct (_ <=? _) eqn:E; bool_to_prop; cbn [judged].
    + split; [by eapply reads_grew|done].
    + split; [done|]. pose proof (blk_u64 _ _ _ _ W head (proj1 (do_head _ _ _ _ _ _ Hdb))). destruct (stored_parent b head N HI Hsay) as (q & Hq & Eq & _); [go_lia|]. by exists q.
  - eapply runs_current; [exact Hh|]. by apply pruned_runs.
  - done.
  - apply runs_ret. done.
Qed.

(** ** Execution *)

Context (Process : Block -> St -> St * (Error + (list Receipt * list Log * Z))).
Context (process_ok : forall N st st' rs ls gas, P N -> Process N st = (st', inr (rs, ls, gas)) -> receipts_ok rs).

Lemma ValidateState_returns N (st : St) rs gas : receipts_ok rs -> exists r, ValidateState Keccak256 N st rs gas = Ret r /\ (r = None -> state_Root st = Root (header N)).
Proof using W.
  intros [H1 _ H3 H4]. unfold ValidateState. destruct (negb (GasUsed _ =? _)); [by eexists|]. rewrite CreateBloom_value. cbn [mbind outcome_bind]. destruct (negb (_ =? Bloom _)); [by eexists|].
  destruct (receipts_rlp_ok rs H1 H3) as (l & -> & Hl & Hlen). cbn [mbind outcome_bind]. rewrite DeriveSha_spec; [|apply (w_hash _ _ _ (bk_world _ _ _ _ W))|split; [done|unfold len in *; lia]]. cbn [mbind outcome_bind].
  destruct (negb (_ =? ReceiptHash _)); [by eexists|]. eexists. split; [reflexivity|]. destruct (Root (header N) =? state_Root st) eqn:E; bool_to_prop; done.
Qed.

Lemma execute_runs (b : bc) head N q : Inv b head -> P N ->
  runs p (execute Keccak256 Sender world Process N (Some q)) b (fun b' r => grew (eq N) b b' /\ match r with inr _ => stored (db b') N | inl _ => True end).
Proof using W once laws disk Hp process_ok.
  intros HI HN. unfold execute. apply runs_the, runs_gets. assert (Hrr : grew (eq N) b b) by (eapply reads_grew; [by eapply reads_refl|done]). destruct (state_New _ _) as [e|st]; [by apply runs_ret|].
  assert (Hrep : forall e, runs p (_ ← reportBlock Keccak256 N; mret (inl e)) b (fun b' (r : InsertError + (list Event * list Log * bool)) => grew (eq N) b b' /\ match r with inr _ => stored (db b') N | inl _ => True end)).
  { intros e. apply runs_modify, runs_ret. split; [|done]. eapply reads_grew; [by eapply report_reads|done]. }
  destruct (Process N st) as [st' r] eqn:Ep. destruct r as [e|[[rs ls] gas]]; [by apply Hrep|]. pose proof (process_ok N st st' rs ls gas HN Ep) as Hrs. destruct (ValidateState_returns N st' rs gas Hrs) as (r & Er & Hroot).
  eapply runs_lift; [exact Er|]. destruct r as [e|]; [by apply Hrep|]. eapply runs_bind; [apply (WriteBlockWithState_runs _ _ _ _ W once world p disk Hp N rs st' b head HI HN (rc_ok _ Hrs) (rc_fits _ Hrs) (Hroot eq_refl))|].
  intros b1 r (head' & HI' & Hr). destruct r as [e|status].
  { apply runs_ret. destruct Hr as (_ & _ & Ed & _). split; [|done]. split; [by exists head'|by rewrite Ed|rewrite Ed; by left]. }
  destruct Hr as [Hst Htd]. assert (Hg : grew (eq N) b b1) by (split; [by exists head'|intros c Hc; apply Hst; by right|intros c Hc; apply Hst in Hc as [->|Hc]; [by right|by left]]). assert (HN1 : stored (db b1) N) by (apply Hst; by left).
  destruct status; [by apply runs_ret| |by apply runs_ret]. apply runs_ask, runs_modify, runs_ret. match goal with |- grew _ _ ?x /\ _ => assert (Hr1 : reads b1 x) by (by eapply book_reads) end. split; [|done].
  eapply grew_trans; [exact Hg|]. by eapply reads_grew.
Qed.

(** ** The loop *)

Context (results_ok : forall t hs, length (VerifyHeaders world t hs) = length hs).

Definition inserts (m : list Block -> SM bc Inserted) (bound : Z) : Prop :=
  forall chain b head, Inv b head -> Forall P chain -> Forall (fun k => Number (header k) < bound) chain -> runs p (m chain) b (fun b' _ => grew (.∈ chain) b b').

Lemma eq_grew N (chain : list Block) b b' : grew (eq N) b b' -> grew (.∈ N :: chain) b b'.
Proof. apply grew_mono. intros c <-. right. by apply elem_of_cons; left. Qed.

(** What the loop returns. *)
Definition looped (chain : list Block) (b b' : bc) (err : option InsertError) : Prop :=
  grew (.∈ chain) b b' /\ ((forall t, interrupted world t = false) -> err = None -> Forall (stored (db b')) chain).

Lemma looped_cons N chain b b1 b' err : grew (eq N) b b1 -> stored (db b1) N -> looped chain b1 b' err -> looped (N :: chain) b b' err.
Proof.
  intros Hg HN [Hg' Hall]. split; [eapply grew_trans; [by apply eq_grew|]; eapply grew_mono; [|exact Hg']; intros c Hc; right; by apply elem_of_cons; right|]. intros Ht He. constructor; [by apply Hg'|by apply Hall].
Qed.

Lemma insert_blocks_runs m chain : Forall P chain -> Forall (fun N => inserts m (Number (header N))) chain -> forall i prev results events logs lc b head, Inv b head -> length results = length chain ->
  runs p (insert_blocks Keccak256 Sender world Process m i prev chain results events logs lc) b (fun b' r => looped chain b b' (snd (fst r))).
Proof using W once laws disk Hp process_ok.
  induction 1 as [|N chain HN HP IH]; intros Hm i prev results events logs lc b head HI Hlen; cbn [insert_blocks]; [apply runs_ret; split; [eapply reads_grew; [by eapply reads_refl|done]|done]|].
  apply Forall_cons in Hm as [HmN Hm]. apply runs_ask. set (b0 := with_feed _ _ b). assert (Hr0 : reads b b0) by (by eapply ask_reads). pose proof (reads_Inv _ _ _ Hr0 HI) as HI0. pose proof (reads_grew (.∈ N :: chain) _ _ _ Hr0 HI) as Hg0.
  destruct (interrupted world (tick b)) eqn:Eint; [apply runs_ret; split; [done|]; intros Ht; by rewrite Ht in Eint|]. destruct results as [|res results]; [done|]. change (tail (res :: results)) with results. change (list.head (res :: results)) with (Some res). apply runs_the.
  eapply runs_bind with (Q := fun b' err => reads b b' /\ says (db b) N err).
  { destruct res as [e|]; [by apply runs_ret|]. eapply runs_mono; [by apply (ValidateBody_runs b0 head N)|]. intros b1 r [Hr Hsay]. split; [by eapply reads_trans|]. by rewrite (reads_db _ _ Hr0) in Hsay. }
  intros b1 err [Hr1 Hsay]. pose proof (reads_Inv _ _ _ Hr1 HI) as HI1. pose proof (reads_db _ _ Hr1) as Ed1. rewrite <- Ed1 in Hsay. eapply runs_bind; [by apply (judge_runs b1 head N err)|]. intros b2 vd Hv. cbn zeta.
  assert (Hgrew : forall b', grew (eq N) b1 b' -> grew (eq N) b b') by (intros b' H; eapply grew_trans; [by eapply reads_grew|done]).
  assert (Hgo : forall events logs b3, grew (eq N) b b3 -> has_parent (db b3) N -> runs p
      (p0 ← (match prev with None => parent Keccak256 Sender N | Some b => mret (Some b) end);
       r ← execute Keccak256 Sender world Process N p0;
       match r with
       | inl e => mret (i, events, logs, Some e, lc)
       | inr (evs, ls, canon) => insert_blocks Keccak256 Sender world Process m (Datatypes.S i) (Some N) chain results (events ++ evs) (logs ++ ls) (if canon : bool then Some N else lc)
       end) b3 (fun b' r => looped (N :: chain) b b' (snd (fst r)))).
  { intros evs ls b3 Hg3 (q & Hq & Eq). destruct (gw_inv _ _ _ Hg3) as [head3 HI3]. eapply runs_bind with (Q := fun b' r => reads b3 b' /\ is_Some r).
    { destruct prev; [apply runs_ret; split; [by eapply reads_refl|done]|]. eapply runs_mono; [by apply (parent_at_runs b3 head3 N)|]. intros b' r [Hr Hpr]. split; [done|]. destruct r; [done|]. by destruct (Hpr q). }
    intros b4 r [Hr4 [q' ->]]. pose proof (reads_Inv _ _ _ Hr4 HI3) as HI4. eapply runs_bind; [by apply (execute_runs b4 head3 N q')|]. intros b5 r [Hg5 Hst].
    assert (Hg : grew (eq N) b b5) by (eapply grew_trans; [exact Hg3|]; eapply grew_trans; [by eapply reads_grew|done]). destruct r as [e|[[evs' ls'] canon]]; [apply runs_ret; split; [by apply eq_grew|done]|].
    destruct (gw_inv _ _ _ Hg5) as [head5 HI5]. eapply runs_mono; [apply (IH Hm _ _ _ _ _ _ b5 head5 HI5); by injection Hlen|]. intros b' r' Hl. by eapply looped_cons. }
  destruct vd as [|e| | |ws]; cbn [judged] in Hv.
  - destruct Hv as [Hg Hst]. destruct (gw_inv _ _ _ Hg) as [head2 HI2]. eapply runs_mono; [apply (IH Hm _ _ _ _ _ _ b2 head2 HI2); by injection Hlen|]. intros b' r' Hl. eapply looped_cons; [by apply Hgrew|done|done].
  - apply runs_ret. split; [by apply eq_grew, Hgrew|done].
  - done.
  - destruct Hv as [Hr2 Hpar]. apply Hgo; [apply Hgrew; by eapply reads_grew|]. by rewrite (reads_db _ _ Hr2).
  - destruct Hv as (Hr2 & Hpar & Hws & Hnum). pose proof (reads_Inv _ _ _ Hr2 HI1) as HI2. eapply runs_bind; [apply (HmN ws b2 head HI2); [by eapply stored_P|done]|]. intros b3 [[[n evs] ls] er] Hg3.
    assert (Hg3' : grew (eq N) b b3).
    { apply Hgrew. eapply grew_trans; [eapply reads_grew; [exact Hr2|done]|]. eapply grew_mono; [|exact Hg3]. intros c Hc. left. rewrite (reads_db _ _ Hr2). rewrite Forall_forall in Hws. by apply Hws. }
    destruct er as [e|]; [apply runs_ret; split; [by apply eq_grew|done]|]. apply Hgo; [done|]. eapply has_parent_grew; [exact Hg3|]. by rewrite (reads_db _ _ Hr2).
Qed.

(** ** Chains *)

Lemma insert_chain_runs m chain (b : bc) head : Forall P chain -> Forall (fun N => inserts m (Number (header N))) chain -> Inv b head ->
  runs p (insert_chain Keccak256 Sender world Process m chain) b (fun b' r => looped chain b b' (snd r)).
Proof using W once laws disk Hp process_ok results_ok.
  intros HP Hm HI. unfold insert_chain. destruct (negb _); [apply runs_ret; split; [eapply reads_grew; [by eapply reads_refl|done]|done]|]. apply runs_ask. set (b0 := with_feed _ _ b).
  assert (Hr0 : reads b b0) by (by eapply ask_reads). pose proof (reads_Inv _ _ _ Hr0 HI) as HI0. eapply runs_bind; [apply (insert_blocks_runs m chain HP Hm _ _ _ _ _ _ b0 head HI0); by rewrite results_ok, length_map|].
  intros b1 [[[[n events] logs] err] lc] [Hg Hall]. cbn [fst snd] in Hg, Hall. assert (Hl : looped chain b b1 err) by (split; [eapply grew_trans; [by eapply reads_grew|done]|done]).
  destruct err as [e|]; [by apply runs_ret|]. destruct lc as [c|]; [|by apply runs_ret]. destruct (gw_inv _ _ _ Hg) as [head1 HI1]. eapply runs_current; [apply HI1|]. by apply runs_ret.
Qed.

Definition need (chain : list Block) : nat := foldr (fun b n => Nat.max (Datatypes.S (Z.to_nat (Number (header b)))) n) 0%nat chain.
Lemma need_in chain N : N ∈ chain -> (Z.to_nat (Number (header N)) < need chain)%nat.
Proof. induction 1 as [? ?|? ? ? _ IH]; cbn [need foldr]; [lia|]. fold (need l) in *. lia. Qed.
Lemma need_below chain n : Forall P chain -> Forall (fun k => Number (header k) < n) chain -> (need chain <= Z.to_nat n)%nat.
Proof using W.
  induction 1 as [|N chain HN _ IH]; intros Hn; cbn [need foldr]; [lia|]. fold (need chain). apply Forall_cons in Hn as [Hn Hc]. specialize (IH Hc). pose proof (blk_u64 _ _ _ _ W N HN). go_lia.
Qed.
Lemma need_highest chain : Forall P chain -> (need chain <= Datatypes.S (highest chain))%nat.
Proof using W.
  induction 1 as [|N chain HN _ IH]; cbn [need highest foldr]; [lia|]. fold (need chain) (highest chain). rewrite (blk_number _ _ _ _ W N HN). lia.
Qed.

Lemma insertChain_runs fuel : forall chain (b : bc) head, (need chain < fuel)%nat -> Forall P chain -> Inv b head -> runs p (insertChain Keccak256 Sender world Process fuel chain) b (fun b' r => looped chain b b' (snd r)).
Proof using W once laws disk Hp process_ok results_ok.
  induction fuel as [|fuel IH]; intros chain b head Hf HP HI; [lia|]. cbn [insertChain]. apply (insert_chain_runs _ chain b head); [done| |done]. apply Forall_forall. intros N HN ws b' head' HI' HPw Hw.
  eapply runs_mono; [apply (IH ws b' head'); [|done|done]|by intros b'' r [Hg _]]. pose proof (need_below ws _ HPw Hw). pose proof (need_in chain N HN). lia.
Qed.

Lemma InsertChain_runs chain (b : bc) head : Forall P chain -> Inv b head -> runs p (InsertChain Keccak256 Sender world Process chain) b (fun b' r => looped chain b b' (snd r)).
Proof using W once laws disk Hp process_ok results_ok.
  intros HP HI. unfold InsertChain. eapply runs_bind; [apply (insertChain_runs _ chain b head); [pose proof (need_highest chain HP); lia|done|done]|]. intros b1 [[[n events] logs] err] [Hg Hall]. cbn [snd] in *.
  destruct (gw_inv _ _ _ Hg) as [head1 HI1]. eapply runs_bind with (Q := fun b' _ => reads b1 b').
  { unfold PostChainEvents. destruct logs as [|l ls]; [apply (ask_reads b1 head1); done|]. apply runs_send. unfold runs, send, modify. by apply (book_reads b1 _ head1). }
  intros b2 _ Hr2. apply runs_ret. split; [eapply grew_trans; [exact Hg|by eapply reads_grew]|]. intros Ht He. rewrite (reads_db _ _ Hr2). by apply Hall.
Qed.

(** A sequence of chains, with the results. *)
Fixpoint insert_all (chains : list (list Block)) : SM bc (list (nat * option InsertError)) :=
  match chains with
  | [] => mret []
  | chain :: chains => r ← InsertChain Keccak256 Sender world Process chain; rs ← insert_all chains; mret (r :: rs)
  end.

Lemma insert_all_runs chains : Forall (Forall P) chains -> forall (b : bc) head, Inv b head ->
  runs p (insert_all chains) b (fun b' rs => grew (fun c => exists chain, chain ∈ chains /\ c ∈ chain) b b' /\
    ((forall t, interrupted world t = false) -> Forall2 (fun chain r => snd r = None -> Forall (stored (db b')) chain) chains rs)).
Proof using W once laws disk Hp process_ok results_ok.
  induction 1 as [|chain chains Hc HP IH]; intros b head HI; cbn [insert_all]; [apply runs_ret; split; [eapply reads_grew; [by eapply reads_refl|done]|constructor]|].
  eapply runs_bind; [by apply (InsertChain_runs chain b head)|]. intros b1 r [Hg1 Hall1]. destruct (gw_inv _ _ _ Hg1) as [head1 HI1]. eapply runs_bind; [by apply (IH b1 head1)|]. intros b2 rs [Hg2 Hall2]. apply runs_ret. split.
  - eapply grew_trans; [eapply grew_mono; [|exact Hg1]; intros c Hin; right; exists chain; split; [by apply elem_of_cons; left|done]|]. eapply grew_mono; [|exact Hg2]. intros c (k & Hk & Hin). right. exists k. split; [by apply elem_of_cons; right|done].
  - intros Ht. constructor; [|by apply Hall2]. intros He. eapply Forall_impl; [by apply Hall1|]. intros c Hst. by apply Hg2.
Qed.

End Insert.
End BlockInsert.
