(* ===== verification/BlockOpen.v ===== *)
(** Opening a chain ([NewBlockChain]) on a database that an earlier run left: the head is
    found again, and the chain is in order. *)

From S2P Require Import Prelude Params Bytes Cache RlpEncode RlpDecode RlpRoundtrip Trie Consensus Heap TxTypes ChainDb ChainDbProps HeaderChain HeaderChainProps Genesis HeaderChainClaims Queue StateDB Receipt Block BlockProps BlockChain BlockChainProps BlockWrite BlockInsert.
Import ChainDb ChainDbProps HeaderChain HeaderChainProps Receipt ReceiptProps Block BlockProps BlockChain BlockChainProps BlockWrite BlockInsert.

Module BlockOpen.

Section Open.
Context (Keccak256 : bytes -> Hash) (Sender : txdata -> option Address) (g : Block) (P : Block -> Prop).
Abbreviation HeaderHash := (HeaderHash Keccak256).
Abbreviation BlockHash := (BlockHash Keccak256).
Context (W : blocks_ok Keccak256 Sender g P).
Abbreviation PH := (PH P).
Abbreviation has := (has Keccak256 PH).
Abbreviation stored := (stored Keccak256 Sender P).
Context {C : Type -> Type} {S Q St : Type} {lru : LruOps C} {laws : LruLaws C} {state_ops : StateOps S St} {state_laws : StateLaws S St} {pq : PrqueOps Q (Hash * Z)}.
Context (world : World).
Abbreviation bc := (BlockChain C S Q).
Abbreviation Inv := (Inv Keccak256 Sender g P world).
Abbreviation db_ok := (db_ok Keccak256 Sender g P).
Abbreviation cached_ok := (cached_ok Keccak256 Sender P).

(** The database may change where nothing of this is kept. *)
Lemma db_same d d' head : db_ok d head -> calm d d' -> (forall n, is_u64 n -> GetCanonicalHash d' n = GetCanonicalHash d n) -> (forall x, is_hash x -> GetTxLookupEntry d' x = GetTxLookupEntry d x) ->
  GetHeadBlockHash d' = GetHeadBlockHash d /\ GetHeadHeaderHash d' = GetHeadHeaderHash d /\ GetHeadFastBlockHash d' = GetHeadFastBlockHash d -> db_ok d' head.
Proof using W.
  intros [D1 D2 D3 D4 D5 D6 D7 D8] Hc Hcan Hlk (E1 & E2 & E3). split; [by eapply calm_store|by eapply calm_stored| | | | |by rewrite E1, E2, E3|rewrite (calm_td _ _ _ _ W d) by (done || apply W); done].
  - intros l L HP. specialize (D3 l L HP). rewrite Forall_forall in D3, HP. apply Forall_forall. intros c Hin. rewrite Hcan by (eapply blk_u64; [done|by apply HP]). by apply D3.
  - intros n Hn Hnz. rewrite Hcan in * by done. destruct (D4 n Hn Hnz) as (c & Hst & ?). exists c. split; [by eapply calm_stored|done].
  - eapply calm_heaviest; [done|done|exists head; split; [apply D2|done]|done].
  - intros l x L HP Hx. destruct (D6 l x L HP Hx) as [[H1 H2]|[H1 H2]]; [left|right]; (split; [done|]); [eapply points_same; [by apply Hlk|done]|unfold absent; by rewrite Hlk].
Qed.

Lemma genesis_canonical d head : db_ok d head -> stored d g /\ GetCanonicalHash d 0 = BlockHash g.
Proof using W.
  intros Hdb. pose proof (do_store _ _ _ _ _ _ Hdb) as Hs. assert (Hg : stored d g) by (eapply has_stored; [done|done|apply W|apply (t_genesis _ _ _ _ (so_tree _ _ _ _ _ Hs))]). split; [done|].
  destruct (stored_line _ _ _ _ W d head Hs (do_head _ _ _ _ _ _ Hdb)) as (l & L & Hl). apply stored_P in Hl. destruct (line_at _ _ _ _ W head l L Hl 0) as (c & Hc & En); [pose proof (blk_u64 _ _ _ _ W head (proj1 (do_head _ _ _ _ _ _ Hdb))); go_lia|].
  pose proof (do_line _ _ _ _ _ _ Hdb l L Hl) as Hcan. rewrite Forall_forall in Hcan, Hl. specialize (Hcan c Hc). cbn in Hcan. rewrite En in Hcan. rewrite Hcan. f_equal. eapply number_zero; [done|by apply Hl|done].
Qed.

Lemma NewHeaderChain_opens d head (k1 : C Header) (k2 k3 : C Z) : db_ok d head -> cached k1 = ∅ -> cached k2 = ∅ -> cached k3 = ∅ ->
  exists h, NewHeaderChain Keccak256 d k1 k2 k3 = Ret (inr h) /\ chainDb h = d /\ genesisHeader h = header g /\ caches_ok Keccak256 PH d h.
Proof using W laws.
  intros Hdb E1 E2 E3. pose proof (bk_world _ _ _ _ W) as W0. pose proof (do_store _ _ _ _ _ _ Hdb) as Hs. pose proof (so_tree _ _ _ _ _ Hs) as Ht. destruct (genesis_canonical d head Hdb) as [Hg Hcan].
  unfold NewHeaderChain. set (blank := mkHeader _ _ _ _ _ _ _ _ _ _ _ _ _ _ _ _ _ _ _ _). set (c0 := MkHc d blank None 0 k1 k2 k3).
  assert (Hk0 : caches_ok Keccak256 PH d c0) by (split; cbn; intros x y; rewrite ?E1, ?E2, ?E3, lookup_empty; done).
  unfold GetHeaderByNumber. rewrite bind_gets. cbn [chainDb c0]. rewrite Hcan. destruct (_ =? 0) eqn:Ez; bool_to_prop; [by apply (blk_nonzero _ _ _ _ W g (proj1 Hg)) in Ez|].
  destruct (GetHeader_spec Keccak256 (header g) PH c0 (BlockHash g) 0 Ht Hk0 (blk_hash _ _ _ _ W g)) as (c1 & E & (D1 & _) & Hk1); [go_lia| |].
  { intros k Hk Ek. rewrite <- (genesis_number _ _ _ _ W). f_equal. symmetry. apply (w_inj _ _ _ W0); [apply Hk|apply stored_has in Hg; apply Hg|done]. }
  rewrite E. cbn [mbind outcome_bind chainDb c0]. pose proof (proj2 (stored_has _ _ _ _ _ Hg)) as Eg. rewrite (genesis_number _ _ _ _ W) in Eg. change (ChainDb.GetHeader d (BlockHash g) 0 = Some (header g)) in Eg. rewrite Eg.
  cbn zeta. cbn [chainDb]. rewrite D1. cbn [chainDb c0]. rewrite (proj1 (do_heads _ _ _ _ _ _ Hdb)). pose proof (do_head _ _ _ _ _ _ Hdb) as Hhd. destruct (_ =? 0) eqn:Ez'; bool_to_prop; [by apply (blk_nonzero _ _ _ _ W head (proj1 Hhd)) in Ez'|].
  set (c2 := MkHc _ (header g) (Some (header g)) 0 _ _ _). destruct (HeaderChainClaims.GetHeaderByHash_spec Keccak256 (header g) PH W0 c2 (header head)) as (c3 & E3' & (D3 & G3 & H3 & X3) & Hk3); [done|by destruct Hk1|by eapply stored_has|].
  change (HeaderHash (header head)) with (BlockHash head) in E3'. rewrite E3'. cbn [mbind outcome_bind]. eexists. split; [reflexivity|]. split; [by cbn; rewrite D3|]. split; [by cbn; rewrite G3|]. by destruct Hk3.
Qed.

(** ** The last state *)

Lemma by_hash_runs p v (b : bc) c : db b = v -> BlockChainProps.store_ok Keccak256 Sender g P v -> cached_ok v b -> stored v c ->
  runs p (GetBlockByHash Keccak256 Sender (BlockHash c)) b (fun b' r => r = Some c /\ quiet b b' /\ cached_ok v b').
Proof using W laws.
  intros Eb Hs Hk Hc. unfold GetBlockByHash. eapply runs_bind; [apply (number_runs _ _ _ _ W p b v c); [done|done|rewrite Eb; by split|done]|]. intros b1 n (-> & Hq & Hk1).
  eapply runs_mono; [apply (GetBlock_runs _ _ _ _ W p b1 v); [done|done|rewrite (q_db _ _ Hq), Eb; by split|apply (blk_hash _ _ _ _ W)|eapply blk_u64; [done|apply Hc]|]|].
  - intros k [Hpk _] E. apply (blk_inj _ _ _ _ W) in E as ->; [done|done|apply Hc].
  - intros b2 r (-> & Hq2 & Hk2). split; [apply Hc|]. split; [by etrans|done].
Qed.

Lemma header_by_hash_runs p v (b : bc) c : db b = v -> BlockChainProps.store_ok Keccak256 Sender g P v -> cached_ok v b -> stored v c ->
  runs p (on_hc (GetHeaderByHash (BlockHash c))) b (fun b' r => r = Some (header c) /\ quiet b b' /\ cached_ok v b').
Proof using W laws.
  intros Eb Hs Hk Hc. subst v. destruct (HeaderChainClaims.GetHeaderByHash_spec Keccak256 (header g) PH (bk_world _ _ _ _ W) (hc b) (header c) (so_tree _ _ _ _ _ Hs) (co_headers _ _ _ _ _ Hk) (stored_has _ _ _ _ _ Hc)) as (h & E & Hst & Hk').
  change (HeaderHash (header c)) with (BlockHash c) in E. unfold runs, on_hc. rewrite E. cbn [mbind outcome_bind]. split; [done|]. split; [by apply hc_quiet|by apply hc_cached].
Qed.

Lemma td_runs p v (b : bc) c : db b = v -> BlockChainProps.store_ok Keccak256 Sender g P v -> cached_ok v b -> stored v c ->
  runs p (on_hc (GetTd (BlockHash c) (NumberU64 c))) b (fun b' _ => quiet b b' /\ cached_ok v b').
Proof using W laws.
  intros Eb Hs Hk Hc. subst v. destruct (td_spec Keccak256 (header g) PH (bk_world _ _ _ _ W) (hc b) (header c) (so_tree _ _ _ _ _ Hs) (co_headers _ _ _ _ _ Hk) (stored_has _ _ _ _ _ Hc)) as (h & E & Hst & Hk').
  change (HeaderHash (header c)) with (BlockHash c) in E. unfold runs, on_hc, NumberU64. rewrite E. cbn [mbind outcome_bind]. split; [by apply hc_quiet|by apply hc_cached].
Qed.

Lemma durable_has (s : S) r : durable s r -> has_state s r = true.
Proof. intros H. destruct (durable_New _ _ H) as [st E]. unfold has_state. by rewrite E. Qed.

Lemma rewrite_head d head : db_ok d head -> let d' := <[key IHeadHeader := hash_bytes (BlockHash head)]> d in calm d d' /\ db_ok d' head.
Proof using W.
  intros Hdb d'. assert (Hc : calm d d') by (apply calm_put; [done|cbn; tauto]). split; [done|]. apply (db_same d); [done|done| | |].
  - intros n Hn. unfold d'. rewrite GetCanonicalHash_put by done. by rewrite decide_False.
  - intros x Hx. apply lookup_same; [done|]. unfold d'. rewrite lookup_insert_ne; [done|]. intros E. apply key_inj in E; done.
  - pose proof (blk_hash _ _ _ _ W head) as Hx. destruct (do_heads _ _ _ _ _ _ Hdb) as (_ & E & _). unfold GetHeadBlockHash, GetHeadHeaderHash, GetHeadFastBlockHash in *. change headBlockKey with (key IHeadBlock). change headHeaderKey with (key IHeadHeader) in *. change headFastKey with (key IHeadFast).
    unfold d'. rewrite !head_put by done. rewrite (decide_False (P := IHeadHeader = IHeadBlock)), (decide_True (P := IHeadHeader = IHeadHeader)), (decide_False (P := IHeadHeader = IHeadFast)) by done. done.
Qed.

Lemma load_runs p (b : bc) head : db_ok (db b) head -> cached_ok (db b) b -> genesisBlock b = g -> genesisHeader (hc b) = header g -> cached (futureBlocks b) = ∅ -> durable (stateCache b) (Root (header g)) -> durable (stateCache b) (Root (header head)) ->
  runs p (loadLastState Keccak256 Sender) b (fun b' e => e = None /\ Inv b' head /\ db b' = <[key IHeadHeader := hash_bytes (BlockHash head)]> (db b)).
Proof using W laws.
  intros Hdb Hk Eg Egh Ef Hdg Hdh. set (v := db b) in *. pose proof (do_store _ _ _ _ _ _ Hdb) as Hs. pose proof (do_head _ _ _ _ _ _ Hdb) as Hhd. destruct (do_heads _ _ _ _ _ _ Hdb) as (F1 & F2 & F3). pose proof (blk_nonzero _ _ _ _ W head (proj1 Hhd)) as Hnz.
  unfold loadLastState, load_last_state. apply runs_gets. fold v. rewrite F1. destruct (_ =? 0) eqn:Ez; bool_to_prop; [done|]. eapply runs_bind; [by apply (by_hash_runs p v b head)|]. intros b1 r (-> & Hq1 & Hk1).
  apply runs_gets. rewrite durable_has by (by rewrite (q_state _ _ Hq1)). eapply runs_bind; [by apply (runs_ret p _ _ (fun b' c => b' = b1 /\ c = head))|]. intros ? ? [-> ->]. apply runs_modify. set (b2 := with_block (Some head) b1).
  pose proof (q_db _ _ Hq1) as Ed1. apply runs_gets. change (db b2) with (db b1). rewrite Ed1. fold v. rewrite F2. destruct (_ =? 0) eqn:Ez2; bool_to_prop; [done|].
  assert (Hk2 : cached_ok v b2) by (by apply (cached_move _ _ _ v b1)). eapply runs_bind with (Q := fun b' r => r = header head /\ quiet b2 b' /\ cached_ok v b').
  { eapply runs_bind; [by apply (header_by_hash_runs p v b2 head)|]. intros b3 r (-> & Hq & Hk3). by apply runs_ret. }
  intros b3 r (-> & Hq3 & Hk3). set (v' := <[key IHeadHeader := hash_bytes (BlockHash head)]> v). destruct (rewrite_head v head Hdb) as [Hcalm Hdb']. fold v' in Hcalm, Hdb'.
  pose proof (do_store _ _ _ _ _ _ Hdb') as Hs'. pose proof (do_head _ _ _ _ _ _ Hdb') as Hhd'. destruct (do_heads _ _ _ _ _ _ Hdb') as (F1' & F2' & F3').
  assert (Ed3 : db b3 = v) by (rewrite (q_db _ _ Hq3); exact Ed1). eapply runs_eval; [reflexivity|]. apply runs_modify. match goal with |- runs _ _ ?x _ => set (b4 := x) end.
  assert (Ed4 : db b4 = v') by (unfold v'; rewrite <- Ed3; done). assert (Hk4 : cached_ok v' b4) by (apply (cached_calm _ _ _ _ W v); [done|]; by apply (cached_move _ _ _ v b3)).
  apply runs_gets. rewrite Ed4. eapply runs_bind with (Q := fun b' _ => exists b5, quiet b4 b5 /\ cached_ok v' b5 /\ b' = with_fast (Some head) b5).
  { destruct (_ =? 0) eqn:Ez4; bool_to_prop; [apply runs_ret; by exists b4|]. destruct F3' as [-> | ?]; [|done]. eapply runs_bind; [by apply (by_hash_runs p v' b4 head)|]. intros b5 r (-> & Hq5 & Hk5). unfold runs, modify. by exists b5. }
  intros ? [] (b5 & Hq5 & Hk5 & ->). set (b6 := with_fast (Some head) b5). assert (Ed6 : db b6 = v') by (change (db b6) with (db b5); by rewrite (q_db _ _ Hq5)). assert (Hk6 : cached_ok v' b6) by (by apply (cached_move _ _ _ v' b5)).
  eapply runs_eval; [reflexivity|]. apply runs_the. eapply runs_bind; [apply (td_runs p v' b6 head); done|]. intros b7 _ [Hq7 Hk7]. assert (Ed7 : db b7 = v') by (by rewrite (q_db _ _ Hq7)).
  eapply runs_bind; [apply (td_runs p v' b7 head); done|]. intros b8 _ [Hq8 Hk8]. assert (Ed8 : db b8 = v') by (by rewrite (q_db _ _ Hq8)). eapply runs_bind; [apply (td_runs p v' b8 head); done|]. intros b9 _ [Hq9 Hk9]. apply runs_ret. split; [done|].
  assert (Hq : quiet b6 b9) by (by do 2 (etrans; [eassumption|])). assert (HI : Inv b6 head); [|split; [by eapply drift_Inv; [apply quiet_drift| |]; [done|rewrite Ed6|done]|by rewrite (q_db _ _ Hq)]].
  split; [by rewrite Ed6|by rewrite Ed6|]. assert (Hq34 : cache_step (hc b4) (hc b5)) by apply Hq5. destruct Hq34 as (_ & G1 & G2 & G3). destruct Hq5 as [_ A1 A2 A3 A4 A5], Hq3 as [(_ & B0 & _) B1 B2 B3 B4 B5], Hq1 as [(_ & C0 & _) C1 C2 C3 C4 C5].
  assert (Es : stateCache b6 = stateCache b) by (change (stateCache b6) with (stateCache b5); rewrite A5; change (stateCache b4) with (stateCache b3); by rewrite B5). split.
  - split.
    + split; [change (currentBlock b6) with (currentBlock b5); rewrite A2; change (currentBlock b4) with (currentBlock b3); by rewrite B2|by rewrite Ed6].
    + split; [change (hc b6) with (hc b5); rewrite G2, G3; done|done|by rewrite Ed6].
  - split.
    + change (genesisBlock b6) with (genesisBlock b5). rewrite A1. change (genesisBlock b4) with (genesisBlock b3). rewrite B1. change (genesisBlock b2) with (genesisBlock b1). congruence.
    + change (hc b6) with (hc b5). rewrite G1. change (genesisHeader (hc b4)) with (genesisHeader (hc b3)). rewrite B0. change (hc b2) with (hc b1). congruence.
  - change (futureBlocks b6) with (futureBlocks b5). rewrite A4. change (futureBlocks b4) with (futureBlocks b3). rewrite B4. change (futureBlocks b2) with (futureBlocks b1). congruence.
  - rewrite Es. done.
Qed.

Lemma NewBlockChain_opens d head s last (c : forall V, C V) : db_ok d head -> (forall V, cached (c V) = ∅) -> durable s (Root (header g)) -> durable s (Root (header head)) ->
  exists b : bc, NewBlockChain Keccak256 Sender d s last c = Ret (inr b) /\ Inv b head /\ db b = <[key IHeadHeader := hash_bytes (BlockHash head)]> d.
Proof using W laws.
  intros Hdb Hc Hdg Hdh. unfold NewBlockChain. destruct (NewHeaderChain_opens d head (c Header) (c Z) (c Z) Hdb (Hc _) (Hc _) (Hc _)) as (h & -> & Ed & Egh & Hk). cbn [mbind outcome_bind]. cbv zeta.
  set (b0 := MkBc h _ None None _ _ _ _ _ s _ 0 last [] 0%nat). assert (Hk0 : cached_ok d b0) by (split; [done|intros x y; cbn; by rewrite Hc, lookup_empty]). destruct (genesis_canonical d head Hdb) as [Hg Hcan]. pose proof (genesis_number _ _ _ _ W) as Hn0.
  assert (Hrun : runs False (GetBlockByNumber Keccak256 Sender 0) b0 (fun b' r => r = Some g /\ quiet b0 b' /\ cached_ok d b')).
  { unfold GetBlockByNumber. apply runs_gets. change (db b0) with (chainDb h). rewrite Ed, Hcan. cbv zeta. destruct (_ =? 0) eqn:Ez; bool_to_prop; [by apply (blk_nonzero _ _ _ _ W g (proj1 Hg)) in Ez|].
    eapply runs_mono; [apply (GetBlock_runs _ _ _ _ W False b0 d); [apply Hdb|done|change (db b0) with (chainDb h); rewrite Ed; by split|apply (blk_hash _ _ _ _ W)|go_lia|]|].
    - intros k [Hpk _] E. apply (blk_inj _ _ _ _ W) in E as ->; [done|done|apply Hg].
    - intros b' r (-> & Hq & Hk'). split; [|done]. rewrite <- Hn0. apply Hg. }
  destruct (runs_safe _ _ _ Hrun) as (b1 & r & -> & -> & Hq1 & Hk1). cbn [mbind outcome_bind]. pose proof (q_db _ _ Hq1) as Ed1. change (db b0) with (chainDb h) in Ed1. rewrite Ed in Ed1.
  assert (Hl : runs False (loadLastState Keccak256 Sender) (with_genesis g b1) (fun b' e => e = None /\ Inv b' head /\ db b' = <[key IHeadHeader := hash_bytes (BlockHash head)]> d)).
  { destruct Hq1 as [(_ & C0 & _) C1 C2 C3 C4 C5]. rewrite <- Ed1. change (db b1) with (db (with_genesis g b1)). apply load_runs; change (db (with_genesis g b1)) with (db b1); rewrite ?Ed1; try done.
    - by apply (cached_move _ _ _ d b1).
    - cbn. by rewrite C0.
    - cbn. rewrite C4. apply Hc.
    - cbn. by rewrite C5.
    - cbn. by rewrite C5. }
  destruct (runs_safe _ _ _ Hl) as (b2 & e & -> & -> & HI & Ed2). cbn [mbind outcome_bind]. by exists b2.
Qed.

(** ** The genesis block *)

Context (Marshal : Genesis.ChainConfig -> bytes).

Lemma Commit_items gen body d : Genesis.Commit Keccak256 Marshal ∅ gen (Some (header g, body)) = Ret (d, inr (header g, body)) ->
  d !! key (IBody (BlockHash g) 0) = Some body /\ d !! key IHeadHeader = Some (hash_bytes (BlockHash g)) /\
  forall i, item_ok i -> match i with IBody _ _ => i <> IBody (BlockHash g) 0 | ILookup _ | IHeadFast => True | _ => False end -> d !! key i = None.
Proof using W.
  intros E. pose proof (blk_hash _ _ _ _ W g) as Hx. pose proof (genesis_number _ _ _ _ W) as Hn. cbn [Genesis.Commit] in E. unfold Genesis.commit_block in E. rewrite Hn in E. cbn [Z.eqb negb] in E. change (big_Uint64 0) with 0 in E.
  destruct (Rlp.EncodeToBytes _ _) as [[e|td]|]; [done| |done]. cbn [mbind outcome_bind] in E. unfold ChainDb.WriteBlock, ChainDb.WriteHeader in E. destruct (EncodeHeader (header g)) as [[e|hd]|]; [done| |done]. cbn [mbind outcome_bind] in E.
  rewrite Hn in E. change (big_Uint64 0) with 0 in E. injection E as <-. change (HeaderHash (header g)) with (BlockHash g).
  unfold WriteChainConfig, WriteHeadHeaderHash, WriteHeadBlockHash, WriteCanonicalHash, ChainDb.WriteBlockReceipts, WriteBodyRLP.
  change (configKey (BlockHash g)) with (key (IConfig (BlockHash g))). change headHeaderKey with (key IHeadHeader). change headBlockKey with (key IHeadBlock). change (canonKey 0) with (key (ICanon 0)).
  change (receiptsKey (BlockHash g) 0) with (key (IReceipts (BlockHash g) 0)). change (headerKey (BlockHash g) 0) with (key (IHeader (BlockHash g) 0)). change (numberKey (BlockHash g)) with (key (INumber (BlockHash g))).
  change (blockBodyKey (BlockHash g) 0) with (key (IBody (BlockHash g) 0)). change (tdKey (BlockHash g) 0) with (key (ITd (BlockHash g) 0)).
  assert (Hput : forall i j (v : bytes) (m : DB), item_ok i -> item_ok j -> <[key i := v]> m !! key j = if decide (i = j) then Some v else m !! key j).
  { intros i j v m Hi Hj. case_decide as Eij; [subst; by rewrite lookup_insert_eq|]. rewrite lookup_insert_ne; [done|]. intros Ek. by apply key_inj in Ek. }
  split; [|split].
  - rewrite 9!Hput by done. repeat case_decide; done.
  - rewrite 9!Hput by done. repeat case_decide; done.
  - intros i Hi Hk. rewrite 9!Hput by done. rewrite lookup_empty. repeat case_decide; subst; done.
Qed.

Lemma genesis_db_ok gen body d : Genesis.gDifficulty gen = Some (Difficulty (header g)) -> EncodeBody (body_of g) = Ret (inr body) ->
  Genesis.Commit Keccak256 Marshal ∅ gen (Some (header g, body)) = Ret (d, inr (header g, body)) -> db_ok d g.
Proof using W.
  intros Hdf Eb E. pose proof (bk_world _ _ _ _ W) as W0. destruct (HeaderChainClaims.Commit_view Keccak256 (header g) PH W0 Marshal gen body Hdf) as (d' & E' & V). rewrite E in E'. injection E' as <-.
  destruct (HeaderChainClaims.genesis_tree Keccak256 (header g) PH W0 d V) as (Ht & Hhas & Htd). destruct (Commit_items gen body d E) as (I1 & I2 & I3). pose proof (genesis_number _ _ _ _ W) as Hn. pose proof (bk_genesis _ _ _ _ W) as Pg. pose proof (blk_hash _ _ _ _ W g) as Hx.
  assert (Hbody : Block.GetBody Keccak256 Sender d (BlockHash g) 0 = Some (body_of g)).
  { rewrite decode_body_get. unfold get. rewrite I1. cbn [default]. destruct (body_encode Keccak256 Sender _ (ko_body _ _ _ (bk_block _ _ _ _ W g Pg))) as (data & Ed & Hne & Hdec). rewrite Eb in Ed. injection Ed as <-. unfold decode_body. by destruct body. }
  assert (Hst : stored d g).
  { split; [done|]. rewrite GetBlock_eq, Hn, Hbody. rewrite (HeaderChainClaims.gv_header _ _ _ V) by (done || go_lia). rewrite decide_True by done. cbn [mbind option_bind]. by destruct g. }
  assert (Honly : forall c, stored d c -> c = g) by (intros c Hc; apply (bk_inj _ _ _ _ W); [apply Hc|done|]; apply Hhas; by eapply stored_has).
  assert (Hline : forall l, bline Keccak256 g g l -> Forall P l -> l = [g]) by (intros l L HP; eapply bline_unique; [done|exact L|constructor|done|by constructor]).
  assert (Hcan : forall n, is_u64 n -> GetCanonicalHash d n = if decide (n = 0) then BlockHash g else 0) by (apply (HeaderChainClaims.gv_canon _ _ _ V)).
  split.
  - split; [done| |].
    + intros h Hh. apply Hhas in Hh as ->. by exists g.
    + intros x n Hxx Hnn Hi. destruct (decide (IBody x n = IBody (BlockHash g) 0)) as [Ei|Ei]; [injection Ei as -> ->; exists g; by rewrite Hn|]. rewrite I3 in Hi by done. by destruct Hi.
  - done.
  - intros l L HP. rewrite (Hline l L HP). constructor; [|done]. rewrite Hn, Hcan by go_lia. done.
  - intros n Hnn Hnz. rewrite Hcan in * by done. case_decide; [|done]. exists g. subst n. done.
  - intros h w w' Hh Ew Ew'. apply Hhas in Hh as ->. rewrite Ew in Ew'. injection Ew' as <-. lia.
  - intros l x L HP Hxx. rewrite (Hline l L HP). right. assert (above [g] = []) as -> by (unfold above; rewrite filter_cons, decide_False by (rewrite Hn; tauto); done). split; [apply not_elem_of_nil|]. unfold absent. rewrite decode_entry_get. unfold get. by rewrite I3.
  - split; [apply (HeaderChainClaims.gv_head _ _ _ V)|]. unfold GetHeadHeaderHash, GetHeadFastBlockHash, get. change headHeaderKey with (key IHeadHeader). change headFastKey with (key IHeadFast). rewrite I2, I3 by done. cbn [default]. split; [by apply read_hash_bytes|by right].
  - done.
Qed.

End Open.
End BlockOpen.
