(* ===== verification/BlockChainClaims.v ===== *)
(** The block chain: its head is the top of a heaviest line, the index and the look-up
    entries are those of that line, insertions return, and a restart finds the same head. *)

From S2P Require Import Prelude Params Bytes Cache RlpEncode RlpDecode RlpRoundtrip Trie TrieClaims Consensus Heap TxTypes ChainDb ChainDbProps HeaderChain HeaderChainProps Genesis HeaderChainClaims Queue StateDB Receipt Block BlockProps BlockChain BlockChainProps BlockWrite BlockInsert BlockOpen.
Import ChainDb ChainDbProps HeaderChain HeaderChainProps Receipt ReceiptProps Block BlockProps BlockChain BlockChainProps BlockWrite BlockInsert BlockOpen.

(** The claims are about any set [P] of well-formed blocks with the genesis block [g]: their
    headers do not collide under the hash, a child has the number after its parent's,
    difficulties are positive, and no line has a transaction twice above the genesis block
    ([once]).  [g] is any genesis block, with the creation of a contract as on the main chain
    or empty as on a DApp chain.  The state database keeps what was committed, commits do not
    fail, receipts can be encoded, and the engine gives one verdict per header. *)

Module BlockChainClaims.

Section Claims.
Context (Keccak256 : bytes -> Hash) (Sender : txdata -> option Address) (g : Block) (P : Block -> Prop).
Abbreviation HeaderHash := (HeaderHash Keccak256).
Abbreviation BlockHash := (BlockHash Keccak256).
Context (W : blocks_ok Keccak256 Sender g P).
Abbreviation stored := (stored Keccak256 Sender P).
Abbreviation bline := (bline Keccak256 g).
Context (once : forall c l, bline c l -> Forall P l -> NoDup (above l ≫= tx_hashes)).
Context {C : Type -> Type} {S Q St : Type} {lru : LruOps C} {laws : LruLaws C} {state_ops : StateOps S St} {state_laws : StateLaws S St} {pq : PrqueOps Q (Hash * Z)}.
Context (world : World) (disk : disk_ok (S := S) (St := St)).
Context (Process : Block -> St -> St * (Error + (list Receipt * list Log * Z))).
Context (process_ok : forall N st st' rs ls gas, P N -> Process N st = (st', inr (rs, ls, gas)) -> receipts_ok rs).
Context (results_ok : forall t hs, length (VerifyHeaders world t hs) = length hs).
Abbreviation bc := (BlockChain C S Q).
Abbreviation Inv := (Inv Keccak256 Sender g P world).
Abbreviation insert_all := (insert_all Keccak256 Sender (C := C) (S := S) (Q := Q) world Process).

(** The database of a committed genesis block - whatever its transactions - whose
    specification gives the difficulty, its state on disk, and fresh caches. *)
Record fresh (Marshal : Genesis.ChainConfig -> bytes) (gen : Genesis.Genesis) (body : bytes) (d0 : DB) (s : S) (c : forall V, C V) : Prop := {
  fr_difficulty : Genesis.gDifficulty gen = Some (Difficulty (header g));
  fr_body : EncodeBody (body_of g) = Ret (inr body);
  fr_commit : Genesis.Commit Keccak256 Marshal ∅ gen (Some (header g, body)) = Ret (d0, inr (header g, body));
  fr_state : durable s (Root (header g));
  fr_caches : forall V, cached (c V) = ∅
}.

Lemma fresh_opens Marshal gen body d0 s c last : fresh Marshal gen body d0 s c -> exists b0 : bc, NewBlockChain Keccak256 Sender d0 s last c = Ret (inr b0) /\ Inv b0 g.
Proof using W laws.
  intros [H1 H2 H3 H4 H5]. pose proof (genesis_db_ok Keccak256 Sender g P W Marshal gen body d0 H1 H2 H3) as Hdb.
  destruct (NewBlockChain_opens Keccak256 Sender g P W (Q := Q) world d0 g s last c Hdb H5 H4 H4) as (b0 & E & HI & _). by exists b0.
Qed.

Lemma all_run p chains (b0 : bc) : (archive world = false -> p) -> Forall (Forall P) chains -> Inv b0 g ->
  runs p (insert_all chains) b0 (fun b rs => grew Keccak256 Sender g P world (fun c => exists chain, chain ∈ chains /\ c ∈ chain) b0 b /\
    ((forall t, interrupted world t = false) -> Forall2 (fun chain r => snd r = None -> Forall (stored (db b)) chain) chains rs)).
Proof using W once laws disk process_ok results_ok. intros Hp HP HI. by apply (insert_all_runs Keccak256 Sender g P W once world p disk Hp Process process_ok results_ok chains HP b0 g). Qed.

(** The view of a reader. *)
Lemma chain_view (b : bc) head : Inv b head -> exists l, bline head l /\ Forall (stored (db b)) l /\ Forall (fun c => GetCanonicalHash (db b) (Number (header c)) = BlockHash c) l /\
  forall c, stored (db b) c -> exists lc, bline c lc /\ Forall (stored (db b)) lc /\ total lc <= total l.
Proof using W.
  intros [Hdb _ _]. pose proof (do_store _ _ _ _ _ _ Hdb) as Hs. pose proof (do_root _ _ _ _ _ _ Hdb) as Hr. destruct (stored_line _ _ _ _ W _ head Hs (do_head _ _ _ _ _ _ Hdb)) as (l & L & Hl). exists l. split; [done|]. split; [done|].
  split; [apply (do_line _ _ _ _ _ _ Hdb l L); by eapply stored_P|]. intros c Hc. destruct (stored_line _ _ _ _ W _ c Hs Hc) as (lc & Lc & Hlc). exists lc. split; [done|]. split; [done|].
  apply (do_heaviest _ _ _ _ _ _ Hdb (header c)); [by eapply stored_has|by eapply line_total|by eapply line_total].
Qed.

(** C3: A chain opened on a committed genesis block (of any contents, with the difficulty its
    specification gives, and its state on disk), after any sequence of calls of
    InsertChain, whatever the verdicts of the engine, the results of the executions, the
    interrupts and the coins: the three heads in memory and the head on disk are one block,
    the top of a line of stored blocks no other stored block's line is heavier than, every
    block of this line is the canonical one at its number, all stored blocks were given to
    InsertChain, and no block waits in the queue of future blocks.  Only a node that
    collects tries can panic. *)
Theorem chain_follows_heaviest Marshal gen body d0 s c last chains : fresh Marshal gen body d0 s c -> Forall (Forall P) chains ->
  exists b0 : bc, NewBlockChain Keccak256 Sender d0 s last c = Ret (inr b0) /\
    match insert_all chains b0 with
    | Ret (b, _) => exists head l,
        currentBlock b = Some (Some head) /\ currentFastBlock b = Some (Some head) /\ currentHeader (hc b) = Some (header head) /\ GetHeadBlockHash (db b) = BlockHash head /\
        bline head l /\ Forall (stored (db b)) l /\ Forall (fun c => GetCanonicalHash (db b) (Number (header c)) = BlockHash c) l /\
        (forall c, stored (db b) c -> (exists lc, bline c lc /\ Forall (stored (db b)) lc /\ total lc <= total l) /\ (stored (db b0) c \/ exists chain, chain ∈ chains /\ c ∈ chain)) /\
        cached (futureBlocks b) = ∅
    | Panic => archive world = false
    end.
Proof using W once laws disk process_ok results_ok.
  intros Hf HP. destruct (fresh_opens Marshal gen body d0 s c last Hf) as (b0 & E0 & HI0). exists b0. split; [done|]. pose proof (all_run (archive world = false) chains b0 (fun e => e) HP HI0) as Hrun. unfold runs in Hrun.
  destruct (insert_all chains b0) as [[b rs]|]; [|done]. destruct Hrun as [[[head HI] _ Hnew] _]. destruct (chain_view b head HI) as (l & L & Hl & Hc & Hh). pose proof HI as [_ _ [[[H1 H2] [[H3 _] H4 _]] _ H5 _]].
  exists head, l. do 7 (split; [done|]). split; [|done]. intros k Hk. split; [by apply Hh|by apply Hnew].
Qed.

(** C12: On an archive node opened on a committed genesis block (of any contents) every
    sequence of calls of InsertChain returns: no loop runs out of its bound (the walk to the
    common ancestor, the walk to an ancestor with a state, the nested insertion of the blocks
    found there) and no nil pointer is met.  When a call
    reports no error and was not interrupted, all its blocks are stored, with all their
    ancestors. *)
Theorem insertion_returns Marshal gen body d0 s c last chains (b0 : bc) : archive world = true -> fresh Marshal gen body d0 s c -> NewBlockChain Keccak256 Sender d0 s last c = Ret (inr b0) ->
  Forall (Forall P) chains -> exists b rs, insert_all chains b0 = Ret (b, rs) /\ (forall c, stored (db b0) c -> stored (db b) c) /\
    ((forall t, interrupted world t = false) -> Forall2 (fun chain r => snd r = None -> Forall (fun c => exists l, bline c l /\ Forall (stored (db b)) l) chain) chains rs).
Proof using W once laws disk process_ok results_ok.
  intros Har Hf E0 HP. destruct (fresh_opens Marshal gen body d0 s c last Hf) as (b0' & E0' & HI0). rewrite E0 in E0'. injection E0' as <-.
  destruct (runs_safe _ _ _ (all_run False chains b0 ltac:(by rewrite Har) HP HI0)) as (b & rs & E & Hg & Hall). exists b, rs. split; [done|]. split; [apply Hg|]. intros Ht. destruct (gw_inv _ _ _ _ _ _ _ _ Hg) as [head [Hdb _ _]].
  eapply Forall2_impl; [by apply Hall|]. intros chain r Hr He. eapply Forall_impl; [by apply Hr|]. intros k Hk. eapply stored_line; [done|apply Hdb|done].
Qed.



(** C21: An archive node, opened on a committed genesis block (of any contents), that is
    stopped after any insertions and opened again on its database, with empty caches and a state database that still has what was on disk, has
    the same head, the same blocks, the same canonical index and the same look-up entries,
    and is ready for insertions. *)
Theorem restart_restores Marshal gen body d0 s c last chains (b0 b : bc) rs s' last' : archive world = true -> fresh Marshal gen body d0 s c -> NewBlockChain Keccak256 Sender d0 s last c = Ret (inr b0) -> Forall (Forall P) chains ->
  insert_all chains b0 = Ret (b, rs) -> (forall r, durable (stateCache b) r -> durable s' r) ->
  exists b', NewBlockChain Keccak256 Sender (db b) s' last' c = Ret (inr b') /\ currentBlock b' = currentBlock b /\ currentHeader (hc b') = currentHeader (hc b) /\
    (forall k, stored (db b') k <-> stored (db b) k) /\ (forall n, is_u64 n -> GetCanonicalHash (db b') n = GetCanonicalHash (db b) n) /\
    (forall x, is_hash x -> GetTxLookupEntry (db b') x = GetTxLookupEntry (db b) x) /\ exists head, Inv b' head.
Proof using W once laws disk process_ok results_ok.
  intros Har Hf E0 HP E Hd. destruct (fresh_opens Marshal gen body d0 s c last Hf) as (b0' & E0' & HI0). rewrite E0 in E0'. injection E0' as <-. destruct (runs_at _ _ _ _ _ _ (all_run True chains b0 (fun _ => I) HP HI0) E) as [[[head HI] _ _] _].
  pose proof HI as [Hdb _ [[[H1 _] [[H2 _] _ _]] _ _ [H3 H4]]]. destruct (NewBlockChain_opens Keccak256 Sender g P W (Q := Q) world (db b) head s' last' c Hdb (fr_caches _ _ _ _ _ _ Hf) (Hd _ H3) (Hd _ (H4 Har))) as (b' & Eb & HI' & Ed).
  pose proof HI' as [_ _ [[[H1' _] [[H2' _] _ _]] _ _ _]]. destruct (rewrite_head Keccak256 Sender g P W (db b) head Hdb) as [Hcalm _]. rewrite <- Ed in Hcalm. exists b'. split; [done|]. split; [congruence|]. split; [congruence|].
  split; [intros k; split; apply (calm_stored _ _ _ _ W); [by symmetry|done]|]. split; [intros n Hn|split; [intros x Hx|by exists head]]; rewrite Ed.
  - rewrite GetCanonicalHash_put by done. by rewrite decide_False.
  - apply lookup_same; [done|]. rewrite lookup_insert_ne; [done|]. intros Ek. apply key_inj in Ek; done.
Qed.

End Claims.
(** C22: The header of a block commits to its transactions and uncles: when one block with
    this header passes the root checks of ValidateBody, any other block with the same header
    is rejected by them, if the hash has no collision on the encodings involved. *)
Theorem roots_bind Keccak256 Sender b1 b2 : (forall b, is_hash (Keccak256 b)) -> block_ok Keccak256 Sender b1 -> block_ok Keccak256 Sender b2 ->
  fits headers_type (headers_val (uncles b1)) -> fits headers_type (headers_val (uncles b2)) -> len (transactions b1) <= MaxUint64 -> len (transactions b2) <= MaxUint64 ->
  TrieClaims.collision_free Keccak256 (tx_nodes Keccak256 b1 ++ tx_nodes Keccak256 b2) ->
  (Keccak256 (uncles_rlp b1) = Keccak256 (uncles_rlp b2) -> uncles_rlp b1 = uncles_rlp b2) ->
  header b1 = header b2 -> validate_roots Keccak256 b1 = Ret None -> b2 <> b1 -> exists e, validate_roots Keccak256 b2 = Ret (Some e).
Proof.
  intros HK H1 H2 Hf1 Hf2 Hn1 Hn2 Hfree Hu Eh Hr Hne. assert (Hret : exists r, validate_roots Keccak256 b2 = Ret r).
  { destruct H2 as [_ [Ht _ _]]. unfold validate_roots. destruct (negb _); [by eexists|]. rewrite DeriveSha_spec; [by eexists|done|]. split; [by eapply txs_rlp_ok|]. unfold txs_rlp, len in *. by rewrite length_map. }
  destruct Hret as [[e|] E]; [by exists e|]. destruct Hne. symmetry. by apply (roots_inj Keccak256 Sender HK).
Qed.

(** ** A small chain *)

Module Toy.

Definition K (b : bytes) : Hash := 1 + fold_left (fun h x => (257 * h + x) mod 2305843009213693951) b 0.
Definition sender (d : txdata) : option Address := Some 1.
Abbreviation hash := (Block.BlockHash K).

Definition transfer (n : Z) : Transaction := decoded K sender (TxTypes.MkTxdata (TxTypes.PTo 0) (TxTypes.PTo 0) n 1 21000 (TxTypes.PTo 9) n [] 27 1 1).
Definition t1 : Transaction := Eval vm_compute in transfer 1.
Definition t2 : Transaction := Eval vm_compute in transfer 2.
Definition t3 : Transaction := Eval vm_compute in transfer 3.
(** A creation of a contract, as the genesis block of the main chain has one. *)
Definition deploy : Transaction := Eval vm_compute in decoded K sender (TxTypes.MkTxdata (TxTypes.PTo 0) (TxTypes.PTo 0) 0 300000 100 TxTypes.PNil 0 [96; 1] 0 0 0).
Definition make (parent number difficulty root : Z) (txs : list Transaction) : Block :=
  match NewBlock K (mkHeader parent 0 0 root 0 0 0 difficulty number 100 0 number [] 0 0 0 0 "" 0 0) txs [] [] with Ret b => b | Panic => MkBlock (mkHeader 0 0 0 0 0 0 0 0 0 0 0 0 [] 0 0 0 0 "" 0 0) [] [] end.

(** The block [a1], and the heavier line of [b1] and [b2]; one transaction is on both. *)
Definition g : Block := Eval vm_compute in make 0 0 7 100 [deploy].
Definition a1 : Block := Eval vm_compute in make (hash g) 1 5 101 [t1; t2].
Definition b1 : Block := Eval vm_compute in make (hash g) 1 3 102 [t3].
Definition b2 : Block := Eval vm_compute in make (hash b1) 2 4 103 [t1].
Definition all : list Block := [g; a1; b1; b2].

#[export] Instance map_lru : LruOps (gmap Hash) := {| lru_cache V := map_cache V; lru_Remove V c h := delete h c; lru_Keys V c := map fst (map_to_list c); lru_Peek V c h := c !! h |}.
#[export] Instance map_lru_laws : LruLaws (gmap Hash).
Proof. split; [intros V; apply map_cache_laws|]. intros V c h. apply delete_subseteq. Qed.

(** States are their roots, and all are on disk. *)
#[export] Instance states : StateOps (gset Hash) Hash := {|
  state_New s r := if decide (r ∈ s) then inr r else inl "missing trie node"%string; trie_NewSecure s r := None; state_Commit st s := ({[st]} ∪ s, inr st); state_Root st := st; state_Preimages st := [];
  trie_Commit s r := (s, None); trie_Reference s r := s; trie_Dereference s r := s; trie_Size s := 0 |}.
#[export] Instance states_laws : StateLaws (gset Hash) Hash.
Proof.
  refine (Build_StateLaws _ _ states (fun (s : gset Hash) r => r ∈ s) _ _ _ _ _ _ _); cbn.
  - intros s r H. exists r. by rewrite decide_True.
  - set_solver.
  - done.
  - done.
  - done.
  - intros st s s' r [= _ <-]. done.
  - intros st s s' r s'' [= <- <-] [= <-]. set_solver.
Defined.
Lemma disk : disk_ok (S := gset Hash) (St := Hash).
Proof. split; [intros st s; by do 2 eexists|done]. Qed.

Definition world : World := MkWorld true 0 0 (fun _ => false) (fun _ => false) (fun _ => 0) (fun _ => 0) (fun _ hs => map (fun _ => None) hs) (fun _ _ => None).
Definition process (b : Block) (st : Hash) : Hash * (Error + (list Receipt * list Log * Z)) := (Root (header b), inr ([], [], 0)).

Ltac blocks := repeat match goal with H : ?h ∈ all |- _ => unfold all in H; repeat (apply elem_of_cons in H as [->|H]); [..|by apply elem_of_nil in H] end.
Ltac computed := apply (bool_decide_unpack _); by vm_compute.

Lemma block_header_oks b : b ∈ all -> header_ok (header b).
Proof. intros H. blocks; (split; [computed..|intros e E; vm_compute in E; by injection E as <-]). Qed.

Lemma tx_oks b : b ∈ all -> Forall (transaction_ok K sender) (transactions b).
Proof.
  intros H. blocks; repeat (constructor; [split; [by vm_compute|]|]); try (by constructor); (split; [by split; vm_compute|first [right; by vm_compute|left; by vm_compute]|by split; vm_compute|computed|computed|intros e E; vm_compute in E; by injection E as <-]).
Qed.

Lemma block_oks b : b ∈ all -> block_ok K sender b.
Proof.
  intros H. split; [by apply block_header_oks|]. split; [by apply tx_oks|by blocks|]. intros e E. blocks; vm_compute in E; by injection E as <-.
Qed.

(** The hashes, computed once. *)
Definition table : list (Header * Hash) := Eval vm_compute in map (fun b => (header b, hash b)) all.
Lemma toy_table : map (fun b => (header b, hash b)) all = table.
Proof. vm_compute. reflexivity. Qed.

Lemma toy_pairs (R : Header * Hash -> Header * Hash -> Prop) `{forall h k, Decision (R h k)} : bool_decide (Forall (fun h => Forall (R h) table) table) = true ->
  forall b c, b ∈ all -> c ∈ all -> R (header b, hash b) (header c, hash c).
Proof.
  intros E b c Hb Hc. apply bool_decide_eq_true in E. rewrite <- toy_table in E. rewrite Forall_map, Forall_forall in E. specialize (E b Hb). unfold compose in E. cbv beta in E.
  rewrite Forall_map, Forall_forall in E. by apply E.
Qed.

Lemma toy_K_range b : 0 < K b < 2 ^ 256.
Proof.
  unfold K. assert (H : forall l h, 0 <= h < 2305843009213693951 -> 0 <= fold_left (fun h x => (257 * h + x) mod 2305843009213693951) l h < 2305843009213693951); [|specialize (H b 0); lia].
  induction l as [|x l IH]; intros h Hh; [done|]. apply IH, Z.mod_pos_bound. lia.
Qed.

Lemma headers_world : world_ok K (header g) (PH (.∈ all)).
Proof.
  split.
  - intros b. pose proof (toy_K_range b). unfold is_hash. lia.
  - intros h (b & Hb & <-). by apply block_header_oks.
  - intros h _. unfold ChainDb.HeaderHash. repeat case_match; intros E; match type of E with K ?b = 0 => pose proof (toy_K_range b) end; lia.
  - intros h k (b & Hb & <-) (c & Hc & <-). apply (toy_pairs (fun h k => snd h = snd k -> fst h = fst k)); [by vm_compute|done|done].
  - intros h k (b & Hb & <-) (c & Hc & <-). apply (toy_pairs (fun h k => snd k = ParentHash (fst h) -> Number (fst h) = Number (fst k) + 1)); [by vm_compute|done|done].
  - intros h (b & Hb & <-). blocks; done.
  - split; [exists g; split; [by constructor|done]|done].
  - intros h (b & Hb & <-). blocks; done.
Qed.

Lemma blocks_world : blocks_ok K sender g (.∈ all).
Proof.
  split; [apply headers_world|by constructor|apply block_oks| |intros b Hb; blocks; done|intros b Hb; blocks; done].
  intros b c Hb Hc E. apply (f_equal Difficulty) in E. blocks; first [reflexivity|vm_compute in E; discriminate E].
Qed.

Lemma once c l : bline K g c l -> Forall (.∈ all) l -> NoDup (above l ≫= tx_hashes).
Proof.
  intros L HP. assert (Hc : c ∈ all) by (inversion L; subst; by apply Forall_cons in HP as [? _]).
  assert (Hl : exists l', bline K g c l' /\ Forall (.∈ all) l' /\ NoDup (above l' ≫= tx_hashes)).
  { assert (Lg : bline K g g [g]) by constructor. assert (Lb : bline K g b1 [b1; g]) by (econstructor; [exact Lg|by vm_compute]).
    blocks; [exists [g]|exists [a1; g]|exists [b1; g]|exists [b2; b1; g]]; (split; [first [done|econstructor; [eassumption|by vm_compute]]|]); (split; [repeat constructor|computed]). }
  destruct Hl as (l' & L' & HP' & Hn). by rewrite (bline_unique K sender g _ blocks_world c l l' L L' HP HP').
Qed.

Lemma process_ok N st st' rs ls gas : N ∈ all -> process N st = (st', inr (rs, ls, gas)) -> receipts_ok rs.
Proof. intros _ [= _ <- _ _]. split; [done|intros b E; vm_compute in E; by injection E as <-|done|by vm_compute]. Qed.
Lemma results_ok t hs : length (VerifyHeaders world t hs) = length hs.
Proof. apply length_map. Qed.

Abbreviation state := (BlockChain (gmap Hash) (gset Hash) (list (Hash * Z))).
Definition gen : Genesis.Genesis := Genesis.MkGenesis None 0 0 [] 100 (Some 7) 0 0 ∅ 0 0 0.
Definition marshal (c : Genesis.ChainConfig) : bytes := [123; 125].
Definition body : bytes := Eval vm_compute in match EncodeBody (body_of g) with Ret (inr b) => b | _ => [] end.
Definition of_commit {A} (r : outcome (DB * A)) : DB := match r with Ret (d, _) => d | Panic => ∅ end.
Definition d0 : DB := of_commit (Genesis.Commit K marshal ∅ gen (Some (header g, body))).
Definition s0 : gset Hash := {[100]}.
Definition blank : state := MkBc (MkHc ∅ (header g) None 0 ∅ ∅ ∅) g None None ∅ ∅ ∅ ∅ ∅ ∅ [] 0 0 [] 0%nat.
Definition nothing (V : Type) : gmap Hash V := ∅.
Abbreviation open d s := (NewBlockChain (C := gmap Hash) (S := gset Hash) (Q := list (Hash * Z)) (St := Hash) K sender d s 0 nothing).
Definition of_open (r : outcome (InsertError + state)) : state := match r with Ret (inr b) => b | _ => blank end.
Definition of_insert {A} (r : outcome (state * A)) : state := match r with Ret (b, _) => b | Panic => blank end.
Lemma of_open_eq r b : r = Ret (inr b) -> r = Ret (inr (of_open r)) /\ b = of_open r.
Proof. by intros ->. Qed.
Lemma of_insert_eq {A} (r : outcome (state * list A)) b rs : r = Ret (b, rs) -> exists rs, r = Ret (of_insert r, rs).
Proof. intros ->. by exists rs. Qed.
Definition c0 : state := of_open (open d0 s0).
Abbreviation insert := (insert_all (C := gmap Hash) (S := gset Hash) (Q := list (Hash * Z)) (St := Hash) K sender world process).
Definition c2 : state := of_insert (insert [[a1]; [b1; b2]] c0).

Lemma committed : Genesis.Commit K marshal ∅ gen (Some (header g, body)) = Ret (d0, inr (header g, body)).
Proof. destruct (HeaderChainClaims.Commit_view K (header g) _ headers_world marshal gen body eq_refl) as (d & E & _). unfold d0. by rewrite E. Qed.
Lemma is_fresh : fresh (C := gmap Hash) K g marshal gen body d0 s0 nothing.
Proof. split; [done|by vm_compute|apply committed|change (Root (header g) ∈ s0); by apply elem_of_singleton|done]. Qed.
Lemma opened : open d0 s0 = Ret (inr c0).
Proof. destruct (fresh_opens K sender g _ blocks_world (Q := list (Hash * Z)) world marshal gen body d0 s0 nothing 0 is_fresh) as (b & E & _). exact (proj1 (of_open_eq _ b E)). Qed.
Lemma chains_in : Forall (Forall (.∈ all)) [[a1]; [b1; b2]].
Proof. by repeat constructor. Qed.

(** The first chain makes [a1] the head, the second is heavier. *)
Lemma c0_inv : Inv K sender g (.∈ all) world c0 g.
Proof.
  destruct (fresh_opens K sender g _ blocks_world (Q := list (Hash * Z)) world marshal gen body d0 s0 nothing 0 is_fresh) as (b & E & HI). destruct (of_open_eq _ b E) as [_ Eb]. change (b = c0) in Eb. rewrite <- Eb. exact HI.
Qed.
Lemma inserted : exists rs, insert [[a1]; [b1; b2]] c0 = Ret (c2, rs).
Proof.
  destruct (runs_safe _ _ _ (all_run K sender g _ blocks_world once world disk process process_ok results_ok False _ c0 ltac:(done) chains_in c0_inv)) as (b & rs & E & _). exact (of_insert_eq _ b rs E).
Qed.

End Toy.

#[local] Existing Instances Toy.map_lru Toy.map_lru_laws Toy.states Toy.states_laws.

Lemma chain_follows_heaviest_witness :
  exists b0, Toy.open Toy.d0 Toy.s0 = Ret (inr b0) /\
    match Toy.insert [[Toy.a1]; [Toy.b1; Toy.b2]] b0 with
    | Ret (b, _) => exists head l,
        currentBlock b = Some (Some head) /\ currentFastBlock b = Some (Some head) /\ currentHeader (hc b) = Some (header head) /\ GetHeadBlockHash (db b) = Toy.hash head /\
        bline Toy.K Toy.g head l /\ Forall (stored Toy.K Toy.sender (.∈ Toy.all) (db b)) l /\ Forall (fun c => GetCanonicalHash (db b) (Number (header c)) = Toy.hash c) l /\
        (forall c, stored Toy.K Toy.sender (.∈ Toy.all) (db b) c -> (exists lc, bline Toy.K Toy.g c lc /\ Forall (stored Toy.K Toy.sender (.∈ Toy.all) (db b)) lc /\ total lc <= total l) /\
          (stored Toy.K Toy.sender (.∈ Toy.all) (db b0) c \/ exists chain, chain ∈ [[Toy.a1]; [Toy.b1; Toy.b2]] /\ c ∈ chain)) /\
        cached (futureBlocks b) = ∅
    | Panic => archive Toy.world = false
    end.
Proof.
  exact (chain_follows_heaviest Toy.K Toy.sender Toy.g _ Toy.blocks_world Toy.once Toy.world Toy.disk Toy.process Toy.process_ok Toy.results_ok Toy.marshal Toy.gen Toy.body Toy.d0 Toy.s0 Toy.nothing 0 _ Toy.is_fresh Toy.chains_in).
Defined.

Lemma insertion_returns_witness : exists b rs, Toy.insert [[Toy.a1]; [Toy.b1; Toy.b2]] Toy.c0 = Ret (b, rs) /\
  (forall c, stored Toy.K Toy.sender (.∈ Toy.all) (db Toy.c0) c -> stored Toy.K Toy.sender (.∈ Toy.all) (db b) c) /\
  ((forall t, interrupted Toy.world t = false) -> Forall2 (fun chain r => snd r = None -> Forall (fun c => exists l, bline Toy.K Toy.g c l /\ Forall (stored Toy.K Toy.sender (.∈ Toy.all) (db b)) l) chain) [[Toy.a1]; [Toy.b1; Toy.b2]] rs).
Proof.
  exact (insertion_returns Toy.K Toy.sender Toy.g _ Toy.blocks_world Toy.once Toy.world Toy.disk Toy.process Toy.process_ok Toy.results_ok Toy.marshal Toy.gen Toy.body Toy.d0 Toy.s0 Toy.nothing 0 _ Toy.c0 eq_refl Toy.is_fresh Toy.opened Toy.chains_in).
Defined.


Lemma restart_restores_witness : exists b', Toy.open (db Toy.c2) (stateCache Toy.c2) = Ret (inr b') /\ currentBlock b' = currentBlock Toy.c2 /\ currentHeader (hc b') = currentHeader (hc Toy.c2) /\
    (forall k, stored Toy.K Toy.sender (.∈ Toy.all) (db b') k <-> stored Toy.K Toy.sender (.∈ Toy.all) (db Toy.c2) k) /\ (forall n, is_u64 n -> GetCanonicalHash (db b') n = GetCanonicalHash (db Toy.c2) n) /\
    (forall x, is_hash x -> GetTxLookupEntry (db b') x = GetTxLookupEntry (db Toy.c2) x) /\ exists head, Inv Toy.K Toy.sender Toy.g (.∈ Toy.all) Toy.world b' head.
Proof.
  destruct Toy.inserted as [rs E].
  exact (restart_restores Toy.K Toy.sender Toy.g _ Toy.blocks_world Toy.once Toy.world Toy.disk Toy.process Toy.process_ok Toy.results_ok Toy.marshal Toy.gen Toy.body Toy.d0 Toy.s0 Toy.nothing 0 _ Toy.c0 Toy.c2 rs (stateCache Toy.c2) 0 eq_refl Toy.is_fresh Toy.opened Toy.chains_in E (fun r H => H)).
Defined.

(** The block [a1] with one of its two transactions. *)
Lemma roots_bind_witness : let b := MkBlock (header Toy.a1) [Toy.t1] [] in exists e, validate_roots Toy.K b = Ret (Some e).
Proof.
  intros b. assert (Hin : Toy.a1 ∈ Toy.all) by (by repeat constructor). assert (Hb : block_ok Toy.K Toy.sender b).
  { split; [exact (Toy.block_header_oks _ Hin)|]. split; [|done|intros e E; vm_compute in E; by injection E as <-]. pose proof (Toy.tx_oks _ Hin) as H. apply Forall_cons in H as [H _]. by constructor. }
  apply (roots_bind Toy.K Toy.sender Toy.a1 b); [intros x; pose proof (Toy.toy_K_range x); unfold is_hash; lia|exact (Toy.block_oks _ Hin)|exact Hb| | |done|done| | |reflexivity|by vm_compute|done].
  - intros e E. vm_compute in E. by injection E as <-.
  - intros e E. vm_compute in E. by injection E as <-.
  - Toy.computed.
  - reflexivity.
Defined.

(** ** What the code does not do *)

(** The verdict of the engine on a block from the near future is a value of another
    package, so the block is reported as bad and not queued. *)
Lemma future_blocks_fail N (b : Toy.state) : exists b', judge Toy.K Toy.sender Toy.world N (Some (ErrConsensus Consensus.ErrFutureBlock)) b = Ret (b', VFail (ErrConsensus Consensus.ErrFutureBlock)) /\ futureBlocks b' = futureBlocks b.
Proof. eexists. split; [reflexivity|done]. Qed.

End BlockChainClaims.
