(* ===== verification/StateDBSpec.v ===== *)
(** Abstract specification of the world state: accounts as a function of the
    address, and snapshots as saved copies. [StateDBRefine] proves that [StateDB]
    with its caches and its undo journal implements it. *)

From S2P Require Import Prelude Params Bytes RlpEncode RlpDecode RlpRaw StateDB.
Import State.

(** What the state database relies on of its backend. *)
Class BackendLaws {T DB : Type} (trie_ops : TrieOps T) (db_ops : DbOps DB T)
    (Keccak256Hash : bytes -> Hash) : Prop := {
  keccak_range : forall b, 0 <= Keccak256Hash b < 2 ^ 256;
  (** the zero root opens the empty trie *)
  open_zero : forall d h, OpenStorageTrie d h 0 = inr (OpenEmptyTrie d h);
  empty_get : forall d h k, TryGet (OpenEmptyTrie d h) k = ([], None);
  (** the size of a contract is the length of its code, and nothing is stored under
      the hash of the empty code *)
  code_size : forall d h c, fst (ContractCodeSize d h c) = len (default [] (fst (ContractCode d h c)));
  code_empty : forall d h, fst (ContractCode d h (Keccak256Hash [])) = None
}.

Module StateSpec.

(** An account as callers see it. *)
Record Acct := MkAcct {
  a_nonce : Z; a_balance : Z; a_codeHash : bytes; a_code : option bytes;
  a_storage : Hash -> Hash; a_suicided : bool
}.

(** Equality of accounts, with storage compared pointwise. *)
#[export] Instance Acct_equiv : Equiv Acct := fun x y =>
  a_nonce x = a_nonce y /\ a_balance x = a_balance y /\ a_codeHash x = a_codeHash y /\
  a_code x = a_code y /\ (forall k, a_storage x k = a_storage y k) /\ a_suicided x = a_suicided y.

#[export] Instance Acct_equivalence : Equivalence (≡@{Acct}).
Proof.
  split.
  - by intros x.
  - intros x y (?&?&?&?&?&?). repeat split; intros; symmetry; auto.
  - intros x y z (?&?&?&?&?&?) (?&?&?&?&?&?). repeat split; intros; etransitivity; eauto.
Qed.

(** The whole state: accounts, the accounts touched since the last finalisation,
    refund counter, logs and preimages, and the context of the running transaction. *)
Record World := MkWorld {
  accts : Address -> option Acct;
  touched : Address -> bool;
  w_refund : Z;
  w_logs : gmap Hash (list Log);
  w_logSize : Z;
  w_preimages : gmap Hash bytes;
  w_thash : Hash; w_bhash : Hash; w_txIndex : Z
}.

(** Equality of worlds; the touched mark of [ripemd] is outside the contract (it is
    deliberately kept across reverts). *)
#[export] Instance World_equiv : Equiv World := fun x y =>
  (forall a, accts x a ≡ accts y a) /\ (forall a, a <> ripemd -> touched x a = touched y a) /\
  w_refund x = w_refund y /\ w_logs x = w_logs y /\ w_logSize x = w_logSize y /\
  w_preimages x = w_preimages y /\ w_thash x = w_thash y /\ w_bhash x = w_bhash y /\
  w_txIndex x = w_txIndex y.

#[export] Instance World_equivalence : Equivalence (≡@{World}).
Proof.
  split.
  - by intros x.
  - intros x y (?&?&?&?&?&?&?&?&?). repeat split; intros; symmetry; auto.
  - intros x y z (?&?&?&?&?&?&?&?&?) (?&?&?&?&?&?&?&?&?).
    repeat split; intros; etransitivity; eauto.
Qed.

Section Spec.
Context (Keccak256Hash : bytes -> Hash).

Definition fresh : Acct := MkAcct 0 0 (emptyCodeHash Keccak256Hash) None (fun _ => 0) false.

Definition a_empty (x : Acct) : bool :=
  (a_nonce x =? 0) && (a_balance x =? 0) && bool_decide (a_codeHash x = emptyCodeHash Keccak256Hash).

(** Store an account and mark it touched. *)
Definition put (w : World) (a : Address) (x : Acct) : World :=
  MkWorld (fun b => if decide (b = a) then Some x else accts w b) (touched w)
    (w_refund w) (w_logs w) (w_logSize w) (w_preimages w) (w_thash w) (w_bhash w) (w_txIndex w).
Definition mark (w : World) (a : Address) : World :=
  MkWorld (accts w) (fun b => bool_decide (b = a) || touched w b)
    (w_refund w) (w_logs w) (w_logSize w) (w_preimages w) (w_thash w) (w_bhash w) (w_txIndex w).

(** Get the account, creating a fresh one where there is none. *)
Definition ensure (w : World) (a : Address) : World * Acct :=
  match accts w a with
  | Some x => (w, x)
  | None => (mark (put w a fresh) a, fresh)
  end.

Definition modify (w : World) (a : Address) (f : Acct -> Acct) : World :=
  let '(w, x) := ensure w a in mark (put w a (f x)) a.

Definition bal (f : Z -> Z) (x : Acct) : Acct :=
  MkAcct (a_nonce x) (f (a_balance x)) (a_codeHash x) (a_code x) (a_storage x) (a_suicided x).

(** Operations of the state database and their results. *)
Inductive op :=
| OAddBalance (a : Address) (n : Z) | OSubBalance (a : Address) (n : Z) | OSetBalance (a : Address) (n : Z)
| OSetNonce (a : Address) (n : Z) | OSetCode (a : Address) (c : bytes)
| OSetState (a : Address) (k v : Hash) | OSuicide (a : Address) | OCreateAccount (a : Address)
| OAddLog (l : Log) | OAddPreimage (h : Hash) (p : bytes) | OAddRefund (g : Z)
| OExist (a : Address) | OEmpty (a : Address) | OGetBalance (a : Address) | OGetNonce (a : Address)
| OGetCode (a : Address) | OGetCodeSize (a : Address) | OGetCodeHash (a : Address)
| OGetState (a : Address) (k : Hash) | OHasSuicided (a : Address)
| OGetRefund | OGetLogs (h : Hash)
| OSnapshot | ORevert (id : Z).

Inductive result := RUnit | RBool (b : bool) | RZ (z : Z) | RCode (c : option bytes) | RLogs (l : list Log).

(** The current world, the saved copies (innermost last) and the next identifier. *)
Record Machine := MkMachine { cur : World; saved : list (Z * World); next : Z }.

Definition step_world (m : Machine) (w : World) : option (Machine * result) :=
  Some (MkMachine w (saved m) (next m), RUnit).
Definition answer (m : Machine) (r : result) : option (Machine * result) := Some (m, r).

Definition of_acct {A} (w : World) (a : Address) (f : Acct -> A) (none : A) : A :=
  match accts w a with Some x => f x | None => none end.

(** The saved copy with an identifier, and the copies before it. *)
Fixpoint find_saved (id : Z) (l : list (Z * World)) : option (list (Z * World) * World) :=
  match l with
  | [] => None
  | (i, w) :: l =>
      if i =? id then Some ([], w)
      else '(pre, w') ← find_saved id l; Some ((i, w) :: pre, w')
  end.

Definition astep (o : op) (m : Machine) : option (Machine * result) :=
  let w := cur m in
  match o with
  | OAddBalance a n =>
      if n =? 0 then
        let '(w, x) := ensure w a in step_world m (if a_empty x then mark w a else w)
      else step_world m (modify w a (bal (fun b => b + n)))
  | OSubBalance a n =>
      if n =? 0 then step_world m (ensure w a).1 else step_world m (modify w a (bal (fun b => b - n)))
  | OSetBalance a n => step_world m (modify w a (bal (fun _ => n)))
  | OSetNonce a n => step_world m (modify w a (fun x =>
      MkAcct n (a_balance x) (a_codeHash x) (a_code x) (a_storage x) (a_suicided x)))
  | OSetCode a c => step_world m (modify w a (fun x =>
      MkAcct (a_nonce x) (a_balance x) (hash_bytes (Keccak256Hash c)) (Some c) (a_storage x) (a_suicided x)))
  | OSetState a k v => step_world m (modify w a (fun x =>
      MkAcct (a_nonce x) (a_balance x) (a_codeHash x) (a_code x)
        (fun k' => if decide (k' = k) then v else a_storage x k') (a_suicided x)))
  | OSuicide a =>
      match accts w a with
      | None => Some (m, RBool false)
      | Some x => Some (MkMachine (mark (put w a
          (MkAcct (a_nonce x) 0 (a_codeHash x) (a_code x) (a_storage x) true)) a) (saved m) (next m), RBool true)
      end
  | OCreateAccount a =>
      match accts w a with
      | None => step_world m (mark (put w a fresh) a)
      | Some x => step_world m (put w a (bal (fun _ => a_balance x) fresh))
      end
  | OAddLog l =>
      let l := MkLog (LogAddress l) (Topics l) (Data l) (BlockNumber l) (w_thash w) (u64 (w_txIndex w))
                 (w_bhash w) (w_logSize w) (Removed l) in
      step_world m (MkWorld (accts w) (touched w) (w_refund w)
        (<[w_thash w := default [] (w_logs w !! w_thash w) ++ [l]]> (w_logs w)) (w_logSize w + 1)
        (w_preimages w) (w_thash w) (w_bhash w) (w_txIndex w))
  | OAddPreimage h p =>
      step_world m (MkWorld (accts w) (touched w) (w_refund w) (w_logs w) (w_logSize w)
        (match w_preimages w !! h with Some _ => w_preimages w | None => <[h := p]> (w_preimages w) end)
        (w_thash w) (w_bhash w) (w_txIndex w))
  | OAddRefund g =>
      step_world m (MkWorld (accts w) (touched w) (u64 (w_refund w + g)) (w_logs w) (w_logSize w)
        (w_preimages w) (w_thash w) (w_bhash w) (w_txIndex w))
  | OExist a => answer m (RBool (bool_decide (is_Some (accts w a))))
  | OEmpty a => answer m (RBool (of_acct w a a_empty true))
  | OGetBalance a => answer m (RZ (of_acct w a a_balance 0))
  | OGetNonce a => answer m (RZ (of_acct w a a_nonce 0))
  | OGetCode a => answer m (RCode (of_acct w a a_code None))
  | OGetCodeSize a => answer m (RZ (of_acct w a (fun x => len (default [] (a_code x))) 0))
  | OGetCodeHash a => answer m (RZ (of_acct w a (fun x => BytesToHash (a_codeHash x)) 0))
  | OGetState a k => answer m (RZ (of_acct w a (fun x => a_storage x k) 0))
  | OHasSuicided a => answer m (RBool (of_acct w a a_suicided false))
  | OGetRefund => answer m (RZ (w_refund w))
  | OGetLogs h => answer m (RLogs (default [] (w_logs w !! h)))
  | OSnapshot => Some (MkMachine w (saved m ++ [(next m, w)]) (next m + 1), RZ (next m))
  | ORevert id =>
      '(pre, w) ← find_saved id (saved m); Some (MkMachine w pre (next m), RUnit)
  end.

Fixpoint arun (os : list op) (m : Machine) : option (Machine * list result) :=
  match os with
  | [] => Some (m, [])
  | o :: os => '(m, r) ← astep o m; '(m, rs) ← arun os m; Some (m, r :: rs)
  end.

(** The same operations on the implementation. *)
Context {T DB : Type} {trie_ops : TrieOps T} {db_ops : DbOps DB T}.
Abbreviation StateDB := (State.StateDB (T:=T) (DB:=DB)).

Definition unit_result (st : StateDB) : outcome (StateDB * result) := Ret (st, RUnit).
Definition give {A} (f : A -> result) (p : StateDB * A) : outcome (StateDB * result) := Ret (p.1, f p.2).

Definition exec (o : op) (st : StateDB) : outcome (StateDB * result) :=
  match o with
  | OAddBalance a n => unit_result (AddBalance Keccak256Hash st a n)
  | OSubBalance a n => unit_result (SubBalance Keccak256Hash st a n)
  | OSetBalance a n => unit_result (SetBalance Keccak256Hash st a n)
  | OSetNonce a n => unit_result (SetNonce Keccak256Hash st a n)
  | OSetCode a c => unit_result (SetCode Keccak256Hash st a c)
  | OSetState a k v => st ← SetState Keccak256Hash st a k v; unit_result st
  | OSuicide a => give RBool (Suicide Keccak256Hash st a)
  | OCreateAccount a => unit_result (CreateAccount Keccak256Hash st a)
  | OAddLog l => unit_result (AddLog st l)
  | OAddPreimage h p => unit_result (AddPreimage st h p)
  | OAddRefund g => unit_result (AddRefund st g)
  | OExist a => give RBool (Exist Keccak256Hash st a)
  | OEmpty a => give RBool (Empty Keccak256Hash st a)
  | OGetBalance a => give RZ (GetBalance Keccak256Hash st a)
  | OGetNonce a => give RZ (GetNonce Keccak256Hash st a)
  | OGetCode a => give RCode (GetCode Keccak256Hash st a)
  | OGetCodeSize a => give RZ (GetCodeSize Keccak256Hash st a)
  | OGetCodeHash a => give RZ (GetCodeHash Keccak256Hash st a)
  | OGetState a k => p ← GetState Keccak256Hash st a k; give RZ p
  | OHasSuicided a => give RBool (HasSuicided Keccak256Hash st a)
  | OGetRefund => Ret (st, RZ (refund st))
  | OGetLogs h => Ret (st, RLogs (GetLogs st h))
  | OSnapshot => give RZ (Snapshot st)
  | ORevert id => st ← RevertToSnapshot Keccak256Hash st id; unit_result st
  end.

Fixpoint run (os : list op) (st : StateDB) : outcome (StateDB * list result) :=
  match os with
  | [] => Ret (st, [])
  | o :: os =>
      match exec o st with
      | Panic => Panic
      | Ret (st, r) =>
          match run os st with
          | Panic => Panic
          | Ret (st, rs) => Ret (st, r :: rs)
          end
      end
  end.

End Spec.

End StateSpec.
