(* ===== verification/StateDBRefine.v ===== *)
(** [StateDB] implements the specification of [StateDBSpec]: loading and caching are
    invisible, every modification is undone exactly by its journal entries, and
    [RevertToSnapshot] restores the saved world. *)

From S2P Require Import Prelude Params Bytes RlpEncode RlpDecode RlpRaw StateDB StateDBSpec.
Import State StateSpec.

Module StateRefine.

Section Refine.
Context {T DB : Type} {trie_ops : TrieOps T} {db_ops : DbOps DB T} (K : bytes -> Hash).
Context {laws : BackendLaws trie_ops db_ops K}.
Abbreviation StateDB := (State.StateDB (T:=T) (DB:=DB)).
Abbreviation stateObject := (State.stateObject (T:=T)).
Abbreviation journalEntry := (State.journalEntry (T:=T)).

(** ** What callers see of an object and of a state *)

(** The trie behind an object, opened if it is not yet. *)
Definition obj_trie (d : DB) (o : stateObject) : T :=
  match otrie o with
  | Some t => t
  | None => match OpenStorageTrie d (addrHash o) (Root (data o)) with
            | inr t => t
            | inl _ => OpenEmptyTrie d (addrHash o)
            end
  end.

Definition trie_value (t : T) (k : Hash) : Hash :=
  match TryGet t (hash_bytes k) with
  | (_, Some _) => 0
  | (enc, None) => match storageValue enc with Ret (v, _) => v | Panic => 0 end
  end.

Definition storage (d : DB) (o : stateObject) (k : Hash) : Hash :=
  default (trie_value (obj_trie d o) k) (cachedStorage o !! k).

Definition code_of (d : DB) (o : stateObject) : option bytes :=
  match code o with
  | Some c => Some c
  | None => if bool_decide (CodeHash (data o) = emptyCodeHash K) then None
            else fst (ContractCode d (addrHash o) (BytesToHash (CodeHash (data o))))
  end.

Definition view (d : DB) (o : stateObject) : Acct :=
  MkAcct (Nonce (data o)) (Balance (data o)) (CodeHash (data o)) (code_of d o) (storage d o) (suicided o).

(** The object stored in the trie, and the object a lookup returns. *)
Definition load (st : StateDB) (a : Address) : option stateObject :=
  match TryGet (trie st) (address_bytes a) with
  | ([], _) => None
  | (enc, _) => newObject K a <$> decodeAccount enc
  end.

Definition peek (st : StateDB) (a : Address) : option stateObject :=
  match stateObjects st !! a with
  | Some o => if deleted o then None else Some o
  | None => load st a
  end.

Definition world (st : StateDB) : World :=
  MkWorld (fun a => view (db st) <$> peek st a)
    (fun a => bool_decide (is_Some (dirties (jrnl st) !! a)))
    (refund st) (logs st) (logSize st) (preimages st) (thash st) (bhash st) (txIndex st).

(** ** Invariant *)

Definition storage_ok (d : DB) (o : stateObject) : Prop :=
  forall k enc, TryGet (obj_trie d o) (hash_bytes k) = (enc, None) -> storageValue enc <> Panic.

Definition hash_ok (h : bytes) : Prop := is_bytes h /\ length h = HashLength.

Record obj_ok (d : DB) (o : stateObject) : Prop := {
  ok_addrHash : addrHash o = K (address_bytes (address o));
  ok_codeHash : hash_ok (CodeHash (data o));
  ok_storage : storage_ok d o
}.

Definition entry_ok (d : DB) (e : journalEntry) : Prop :=
  match e with
  | resetObjectChange prev => obj_ok d prev /\ deleted prev = false
  | codeChange _ _ h => hash_ok h
  | _ => True
  end.

(** The number of entries that dirtied an account. *)
Fixpoint dirt (a : Address) (es : list journalEntry) : Z :=
  match es with
  | [] => 0
  | e :: es => (if decide (dirtied e = Some a) then 1 else 0) + dirt a es
  end.

(** The invariant of a state whose entries still to be undone are [es]. *)
Record inv_at (es : list journalEntry) (st : StateDB) : Prop := {
  inv_objects : forall a o, stateObjects st !! a = Some o ->
    address o = a /\ obj_ok (db st) o /\ (deleted o = true -> load st a = None);
  inv_load : forall a o, load st a = Some o -> obj_ok (db st) o;
  inv_entries : Forall (entry_ok (db st)) es;
  inv_dirties : forall a n, dirties (jrnl st) !! a = Some n -> 0 < n;
  inv_dirt : forall a, dirt a es <= default 0 (dirties (jrnl st) !! a);
  inv_logs : forall h, logs st !! h <> Some []
}.
Abbreviation inv st := (inv_at (entries (jrnl st)) st).

Lemma load_new st a o : load st a = Some o -> exists d, o = newObject K a d.
Proof. unfold load. repeat case_match; try done. intros Hf. apply fmap_Some in Hf as (d & _ & ->). eauto. Qed.

Lemma peek_ok es st a o : inv_at es st -> peek st a = Some o ->
  address o = a /\ obj_ok (db st) o /\ deleted o = false.
Proof.
  intros Hi Hp. unfold peek in Hp. destruct (stateObjects st !! a) as [x|] eqn:E.
  - destruct (deleted x) eqn:Ed; [done|]. simplify_eq.
    destruct (inv_objects _ _ Hi _ _ E) as (? & ? & _). done.
  - pose proof (inv_load _ _ Hi _ _ Hp). destruct (load_new _ _ _ Hp) as [d ->]. done.
Qed.

(** ** Equivalence of states *)

(** Same world, backend and dirty counters (but those of [ripemd]). *)
Record eqv (s1 s2 : StateDB) : Prop := {
  eqv_db : db s1 = db s2;
  eqv_trie : trie s1 = trie s2;
  eqv_world : world s1 ≡ world s2;
  eqv_dirties : forall a, a <> ripemd -> dirties (jrnl s1) !! a = dirties (jrnl s2) !! a
}.

#[local] Instance eqv_equivalence : Equivalence eqv.
Proof.
  split.
  - by intros s.
  - intros s1 s2 [? ? ? Hd]. split; try by symmetry. intros a Ha. symmetry. by apply Hd.
  - intros s1 s2 s3 [? ? ? Hd] [? ? ? Hd']. split; try by etransitivity.
    intros a Ha. by rewrite Hd, Hd'.
Qed.

Lemma eqv_load s1 s2 a : eqv s1 s2 -> load s1 a = load s2 a.
Proof. intros [_ Ht _ _]. unfold load. by rewrite Ht. Qed.

(** What a state component change does to the world. *)
Lemma peek_setStateObject o st a :
  peek (setStateObject o st) a =
    if decide (a = address o) then (if deleted o then None else Some o) else peek st a.
Proof.
  unfold peek, setStateObject, with_objects, load. simpl. case_decide as E.
  - subst. by rewrite lookup_insert_eq.
  - by rewrite lookup_insert_ne.
Qed.

Lemma accts_setStateObject o st a : deleted o = false ->
  accts (world (setStateObject o st)) a =
    if decide (a = address o) then Some (view (db st) o) else accts (world st) a.
Proof.
  intros Hd. simpl. rewrite peek_setStateObject. case_decide; [by rewrite Hd|done].
Qed.

Lemma inv_setStateObject es o st : inv_at es st -> obj_ok (db st) o -> deleted o = false ->
  inv_at es (setStateObject o st).
Proof.
  intros [H1 H2 H3 H4 H5 H6] Ho Hd. split; try done. simpl. intros a x.
  destruct (decide (a = address o)) as [->|Hne].
  - rewrite lookup_insert_eq. intros [= <-]. by rewrite Hd.
  - rewrite lookup_insert_ne by done. apply H1.
Qed.

Lemma getStateObject_spec es st a st' r : inv_at es st -> getStateObject K st a = (st', r) ->
  r = peek st a /\ inv_at es st' /\ eqv st' st /\ jrnl st' = jrnl st /\
  validRevisions st' = validRevisions st /\ nextRevisionId st' = nextRevisionId st /\
  (forall b, peek st' b = peek st b).
Proof.
  intros Hi. unfold getStateObject.
  assert (Hload : forall b, stateObjects st !! a = None -> load st a = Some b ->
    inv_at es (setStateObject b st) /\ eqv (setStateObject b st) st /\
    (forall c, peek (setStateObject b st) c = peek st c)).
  { intros b Hn Hl. destruct (load_new _ _ _ Hl) as [d Hb].
    assert (Hpk : forall c, peek (setStateObject b st) c = peek st c).
    { intros c. rewrite peek_setStateObject. subst b. simpl. case_decide; [subst c|done].
      unfold peek. by rewrite Hn, Hl. }
    split_and!; [|split; try done|done].
    - apply inv_setStateObject; [done|by eapply inv_load|by subst b].
    - split; [|done]. intros c. change (db (setStateObject b st)) with (db st).
      change (accts (world ?s) c) with (view (db s) <$> peek s c).
      unfold world. cbn [accts]. by rewrite Hpk. }
  unfold peek at 1. destruct (stateObjects st !! a) as [o|] eqn:Eo.
  - destruct (deleted o); intros [= <- <-]; by split_and!.
  - unfold load in *. destruct (TryGet (trie st) (address_bytes a)) as [enc err] eqn:Et.
    destruct enc as [|x enc].
    + intros [= <- <-]. split_and!; try done. by destruct Hi.
    + destruct (decodeAccount (x :: enc)) as [d|] eqn:Ed; intros [= <- <-]; [|by split_and!].
      destruct (Hload (newObject K a d) eq_refl eq_refl) as (? & ? & ?). by split_and!.
Qed.

Lemma mk_eqv s1 s2 : db s1 = db s2 -> trie s1 = trie s2 ->
  (forall a, accts (world s1) a ≡ accts (world s2) a) -> refund s1 = refund s2 ->
  logs s1 = logs s2 -> logSize s1 = logSize s2 -> preimages s1 = preimages s2 ->
  thash s1 = thash s2 -> bhash s1 = bhash s2 -> txIndex s1 = txIndex s2 ->
  (forall a, a <> ripemd -> dirties (jrnl s1) !! a = dirties (jrnl s2) !! a) -> eqv s1 s2.
Proof.
  intros ? ? Ha ? ? ? ? ? ? ? Hd. split; try done. split_and!; try done. simpl. intros a Hn. by rewrite Hd.
Qed.

Lemma eqv_accts s1 s2 a : eqv s1 s2 -> accts (world s1) a ≡ accts (world s2) a.
Proof. intros [_ _ (Ha & _) _]. apply Ha. Qed.

(** Replacing the journal keeps everything but the dirty counters. *)
Lemma eqv_journal s1 s2 j1 j2 : eqv s1 s2 ->
  (forall a, a <> ripemd -> dirties j1 !! a = dirties j2 !! a) ->
  eqv (with_journal s1 j1) (with_journal s2 j2).
Proof.
  intros [Hdb Ht (Ha & _ & ? & ? & ? & ? & ? & ? & ?) _] Hd. apply mk_eqv; try done.
Qed.

Lemma inv_journal es es' st j : inv_at es st -> Forall (entry_ok (db st)) es' ->
  (forall a n, dirties j !! a = Some n -> 0 < n) ->
  (forall a, dirt a es' <= default 0 (dirties j !! a)) -> inv_at es' (with_journal st j).
Proof. intros [H1 H2 H3 H4 H5 H6] He Hd Hc. by split. Qed.

Lemma eqv_setStateObject s1 s2 o1 o2 : eqv s1 s2 -> address o1 = address o2 ->
  deleted o1 = false -> deleted o2 = false -> view (db s1) o1 ≡ view (db s1) o2 ->
  eqv (setStateObject o1 s1) (setStateObject o2 s2).
Proof.
  intros Hs Ha Hd1 Hd2 Hv. pose proof Hs as [Hdb Ht (Hw & _ & ? & ? & ? & ? & ? & ? & ?) Hd].
  apply mk_eqv; try done. intros a. rewrite !accts_setStateObject by done. rewrite Ha, <- Hdb.
  case_decide; [by constructor|apply Hw].
Qed.

(** Updates of an object that depend only on what is seen of it. *)
Record update_ok (d : DB) (f : stateObject -> stateObject) : Prop := {
  upd_address : forall o, address (f o) = address o;
  upd_deleted : forall o, deleted (f o) = deleted o;
  upd_ok : forall o, obj_ok d o -> obj_ok d (f o);
  upd_view : forall o1 o2, addrHash o1 = addrHash o2 -> view d o1 ≡ view d o2 -> view d (f o1) ≡ view d (f o2)
}.

Lemma update_setBalance d n : update_ok d (fun o => setBalance o n).
Proof.
  split; try done.
  - intros o [H1 H2 H3]. by split.
  - intros o1 o2 Ha (?&?&?&?&?&?). by repeat split.
Qed.

Lemma update_setNonce d n : update_ok d (fun o => setNonce o n).
Proof.
  split; try done.
  - intros o [H1 H2 H3]. by split.
  - intros o1 o2 Ha (?&?&?&?&?&?). by repeat split.
Qed.

Lemma update_suicide d b n : update_ok d (fun o => setBalance (set_suicided o b) n).
Proof.
  split; try done.
  - intros o [H1 H2 H3]. by split.
  - intros o1 o2 Ha (?&?&?&?&?&?). by repeat split.
Qed.

Lemma hash_bytes_ok h : hash_ok (hash_bytes h).
Proof. split; [apply be_bytes_is_bytes|apply length_be_bytes]. Qed.

Lemma update_setCode d h c : update_ok d (fun o => setCode o h c).
Proof.
  split; try done.
  - intros o [H1 H2 H3]. split; [done|apply hash_bytes_ok|done].
  - intros o1 o2 Ha (?&?&?&?&?&?). repeat split; try done. simpl. unfold code_of. simpl. by rewrite Ha.
Qed.

Lemma update_setState d k v : update_ok d (fun o => setState o k v).
Proof.
  split; try done.
  - intros o [H1 H2 H3]. by split.
  - intros o1 o2 Ha (?&?&?&?&Hs&?). repeat split; try done. intros k'. simpl. unfold storage. simpl.
    destruct (decide (k' = k)) as [->|Hn]; [by rewrite !lookup_insert_eq|].
    rewrite !lookup_insert_ne by done. apply (Hs k').
Qed.

(** Two equivalent states agree on whether an account exists, and on its view. *)
Lemma eqv_peek es s1 s2 a o1 : inv_at es s1 -> inv_at es s2 -> eqv s1 s2 -> peek s1 a = Some o1 ->
  exists o2, peek s2 a = Some o2 /\ address o1 = a /\ address o2 = a /\ addrHash o1 = addrHash o2 /\
    deleted o1 = false /\ deleted o2 = false /\ obj_ok (db s1) o1 /\ obj_ok (db s2) o2 /\
    view (db s1) o1 ≡ view (db s1) o2.
Proof.
  intros Hi1 Hi2 Hs Hp. pose proof (eqv_accts s1 s2 a Hs) as Ha. simpl in Ha. rewrite Hp in Ha. simpl in Ha.
  destruct (peek s2 a) as [o2|] eqn:Hp2; [|by inversion Ha].
  destruct (peek_ok _ _ _ _ Hi1 Hp) as (Ha1 & Ho1 & Hd1).
  destruct (peek_ok _ _ _ _ Hi2 Hp2) as (Ha2 & Ho2 & Hd2).
  exists o2. split_and!; try done.
  - by rewrite (ok_addrHash _ _ Ho1), (ok_addrHash _ _ Ho2), Ha1, Ha2.
  - inversion Ha; subst. by rewrite (eqv_db _ _ Hs) at 2.
Qed.

(** ** Undoing one entry *)

(** States that agree on everything but objects and errors. *)
Definition frame (s s' : StateDB) : Prop :=
  db s' = db s /\ trie s' = trie s /\ jrnl s' = jrnl s /\ validRevisions s' = validRevisions s /\
  nextRevisionId s' = nextRevisionId s.

Definition on_object (a : Address) (f : stateObject -> stateObject) (s : StateDB) : outcome StateDB :=
  match getStateObject K s a with
  | (st, Some o) => Ret (setStateObject (f o) st)
  | (_, None) => Panic
  end.

Lemma on_object_inv es a f s s' : inv_at es s -> update_ok (db s) f -> on_object a f s = Ret s' ->
  inv_at es s' /\ frame s s'.
Proof.
  intros Hi Hf. unfold on_object. destruct (getStateObject K s a) as [st [o|]] eqn:Eg; [|done].
  destruct (getStateObject_spec _ _ _ _ _ Hi Eg) as (Hp & Hi' & He & Hj & Hv & Hn & _).
  destruct (peek_ok _ _ _ _ Hi (eq_sym Hp)) as (Ha & Ho & Hd). intros [= <-].
  pose proof (eqv_db _ _ He) as Hdb. split.
  - apply inv_setStateObject; [done|rewrite Hdb; by apply Hf|by rewrite (upd_deleted _ _ Hf)].
  - split_and!; try done. by rewrite <- (eqv_trie _ _ He).
Qed.

Lemma on_object_eqv es a f s1 s2 t1 : inv_at es s1 -> inv_at es s2 -> eqv s1 s2 ->
  update_ok (db s1) f -> on_object a f s1 = Ret t1 ->
  exists t2, on_object a f s2 = Ret t2 /\ eqv t1 t2.
Proof.
  intros Hi1 Hi2 Hs Hf. unfold on_object.
  destruct (getStateObject K s1 a) as [st1 [o1|]] eqn:E1; [|done].
  destruct (getStateObject_spec _ _ _ _ _ Hi1 E1) as (Hp1 & _ & He1 & _).
  destruct (eqv_peek _ _ _ _ _ Hi1 Hi2 Hs (eq_sym Hp1))
    as (o2 & Hp2 & Ha1 & Ha2 & Hah & Hd1 & Hd2 & _ & _ & Hv).
  destruct (getStateObject K s2 a) as [st2 r2] eqn:E2.
  destruct (getStateObject_spec _ _ _ _ _ Hi2 E2) as (Hr2 & _ & He2 & _). rewrite Hp2 in Hr2. subst r2.
  intros [= <-]. eexists. split; [done|]. destruct Hf as [Fa Fd _ Fv].
  apply eqv_setStateObject; rewrite ?Fa, ?Fd; try congruence.
  - rewrite He1, He2. done.
  - rewrite (eqv_db _ _ He1). by apply Fv.
Qed.

(** Undoing a log entry only needs the logs. *)
Definition pop_log (h : Hash) (s : StateDB) : outcome StateDB :=
  match default [] (logs s !! h) with
  | [] => Panic
  | [_] => Ret (with_logs s (delete h (logs s)) (logSize s - 1))
  | l => Ret (with_logs s (<[h := take (length l - 1) l]> (logs s)) (logSize s - 1))
  end.

Lemma pop_log_eqv h s1 s2 t1 : eqv s1 s2 -> pop_log h s1 = Ret t1 ->
  exists t2, pop_log h s2 = Ret t2 /\ eqv t1 t2.
Proof.
  intros Hs. pose proof Hs as [Hdb Ht (Hw & _ & ? & Hl & Hz & ? & ? & ? & ?) Hd]. simpl in Hl, Hz.
  unfold pop_log. rewrite <- Hl, <- Hz.
  destruct (default [] (logs s1 !! h)) as [|x [|y l]]; [done|..]; intros [= <-];
    (eexists; split; [done|]); by apply mk_eqv.
Qed.

Lemma pop_log_inv es h s s' : inv_at es s -> pop_log h s = Ret s' -> inv_at es s' /\ frame s s'.
Proof.
  intros [H1 H2 H3 H4 H5 H6]. unfold pop_log.
  destruct (default [] (logs s !! h)) as [|x [|y l]] eqn:El; [done|..]; intros [= <-]; split; try done;
    split; try done; simpl; intros k.
  - rewrite lookup_delete_Some. intros [_ Hk]. by apply (H6 k).
  - destruct (decide (k = h)) as [->|Hne]; [by rewrite lookup_insert_eq|].
    rewrite lookup_insert_ne by done. apply H6.
Qed.

Lemma revert_inv es e s s' : inv_at es s -> entry_ok (db s) e -> revert_entry K e s = Ret s' ->
  inv_at es s' /\ frame s s'.
Proof.
  intros Hi He. pose proof Hi as [H1 H2 H3 H4 H5 H6].
  destruct e as [a|prev|a b n|a n|a n|a k v|a c h|n|h|h|a]; cbn [revert_entry].
  - intros [= <-]. split; [|done]. split; try done. simpl. intros b o.
    rewrite lookup_delete_Some. intros [_ Hb]. by apply H1.
  - intros [= <-]. destruct He as [Ho Hd]. split; [|done]. by apply inv_setStateObject.
  - pose proof (on_object_inv es a _ s s' Hi (update_suicide (db s) b n)) as Ho.
    unfold on_object in Ho. destruct (getStateObject K s a) as [st [o|]] eqn:Eg; [done|].
    intros [= <-]. destruct (getStateObject_spec _ _ _ _ _ Hi Eg) as (_ & Hi' & Hq & Hj & Hv & Hn & _).
    split; [done|]. destruct Hq. by split_and!.
  - apply (on_object_inv es a); [done|apply update_setBalance].
  - apply (on_object_inv es a); [done|apply update_setNonce].
  - apply (on_object_inv es a); [done|apply update_setState].
  - apply (on_object_inv es a); [done|apply update_setCode].
  - intros [= <-]. by split; [split|].
  - by apply (pop_log_inv es h).
  - intros [= <-]. by split; [split|].
  - intros [= <-]. by split.
Qed.

Lemma revert_eqv es e s1 s2 t1 : inv_at es s1 -> inv_at es s2 -> entry_ok (db s1) e -> eqv s1 s2 ->
  revert_entry K e s1 = Ret t1 -> exists t2, revert_entry K e s2 = Ret t2 /\ eqv t1 t2.
Proof.
  intros Hi1 Hi2 He Hs. pose proof Hs as [Hdb Ht (Hw & _ & ? & ? & ? & Hpre & ? & ? & ?) Hd].
  destruct e as [a|prev|a b n|a n|a n|a k v|a c h|n|h|h|a]; cbn [revert_entry].
  - intros [= <-]. eexists. split; [done|]. apply mk_eqv; try done. intros b. simpl.
    specialize (Hw b). simpl in Hw. unfold peek in *. simpl.
    destruct (decide (b = a)) as [->|Hn].
    + rewrite !lookup_delete_eq. unfold load. simpl. by rewrite Ht, Hdb.
    + rewrite !lookup_delete_ne by done. exact Hw.
  - intros [= <-]. destruct He as [Ho Hdl]. eexists. split; [done|]. by apply eqv_setStateObject.
  - pose proof (on_object_eqv es a _ s1 s2 t1 Hi1 Hi2 Hs (update_suicide (db s1) b n)) as Ho.
    unfold on_object in Ho. destruct (getStateObject K s1 a) as [st1 [o1|]] eqn:E1.
    + intros Hr. destruct (Ho Hr) as (t2 & Ht2 & Hq).
      destruct (getStateObject K s2 a) as [st2 [o2|]] eqn:E2; [|done]. eauto.
    + clear Ho. intros [= <-]. destruct (getStateObject_spec _ _ _ _ _ Hi1 E1) as (Hp1 & _ & He1 & _).
      destruct (getStateObject K s2 a) as [st2 r2] eqn:E2.
      destruct (getStateObject_spec _ _ _ _ _ Hi2 E2) as (Hr2 & _ & He2 & _).
      destruct r2 as [o2|]; [|eexists; split; [done|]; by rewrite He1, He2].
      destruct (eqv_peek _ _ _ _ _ Hi2 Hi1 (symmetry Hs) (eq_sym Hr2)) as (o1 & Hp & _). congruence.
  - apply (on_object_eqv es a); [done|done|done|apply update_setBalance].
  - apply (on_object_eqv es a); [done|done|done|apply update_setNonce].
  - apply (on_object_eqv es a); [done|done|done|apply update_setState].
  - apply (on_object_eqv es a); [done|done|done|apply update_setCode].
  - intros [= <-]. eexists. split; [done|]. by apply mk_eqv.
  - by apply (pop_log_eqv h).
  - intros [= <-]. eexists. split; [done|]. simpl in Hpre. apply mk_eqv; try done. simpl. by rewrite Hpre.
  - intros [= <-]. eauto.
Qed.

(** *** Dirty counters *)

Lemma lookup_undirty a d b : undirty a d !! b =
  if decide (b = a) then (if default 0 (d !! a) - 1 =? 0 then None else Some (default 0 (d !! a) - 1))
  else d !! b.
Proof.
  unfold undirty. case_decide as E.
  - subst. case_match; [by rewrite lookup_delete_eq|by rewrite lookup_insert_eq].
  - case_match; [by rewrite lookup_delete_ne|by rewrite lookup_insert_ne].
Qed.

Lemma lookup_dirty a d b :
  dirty a d !! b = if decide (b = a) then Some (default 0 (d !! a) + 1) else d !! b.
Proof.
  unfold dirty. case_decide as E; [subst; by rewrite lookup_insert_eq|by rewrite lookup_insert_ne].
Qed.

Definition dirties_ok (d : gmap Address Z) : Prop := forall a n, d !! a = Some n -> 0 < n.

Lemma dirties_default d a : dirties_ok d -> 0 <= default 0 (d !! a).
Proof. intros Hd. destruct (d !! a) as [n|] eqn:E; simpl; [|done]. apply Hd in E. lia. Qed.

Lemma dirty_ok a d : dirties_ok d -> dirties_ok (dirty a d).
Proof.
  intros Hd b n. rewrite lookup_dirty. pose proof (dirties_default d a Hd).
  case_decide; [intros [= <-]; lia|apply Hd].
Qed.

Lemma undirty_dirty a d b : dirties_ok d -> undirty a (dirty a d) !! b = d !! b.
Proof.
  intros Hd. rewrite lookup_undirty, !lookup_dirty, (decide_True (P := a = a)) by done. simpl.
  case_decide as E; [subst|done]. replace (_ + 1 - 1) with (default 0 (d !! a)) by lia.
  destruct (d !! a) as [n|] eqn:En; simpl; [|done]. apply Hd in En.
  by rewrite (proj2 (Z.eqb_neq _ _)) by lia.
Qed.

Lemma dirt_app a es es' : dirt a (es ++ es') = dirt a es + dirt a es'.
Proof. induction es; simpl; lia. Qed.

Definition undirty_entry (e : journalEntry) (d : gmap Address Z) : gmap Address Z :=
  match dirtied e with Some a => undirty a d | None => d end.
Definition dirty_entry (e : journalEntry) (d : gmap Address Z) : gmap Address Z :=
  match dirtied e with Some a => dirty a d | None => d end.

Lemma undirty_entry_ok es e d :
  dirties_ok d -> (forall a, dirt a (es ++ [e]) <= default 0 (d !! a)) ->
  dirties_ok (undirty_entry e d) /\ (forall a, dirt a es <= default 0 (undirty_entry e d !! a)).
Proof.
  intros Hd Hc. unfold undirty_entry. destruct (dirtied e) as [a|] eqn:Ee.
  - split.
    + intros b n. rewrite lookup_undirty. case_decide; [|apply Hd].
      specialize (Hc a). rewrite dirt_app in Hc. simpl in Hc. rewrite Ee, decide_True in Hc by done.
      assert (0 <= dirt a es) by (clear; induction es; simpl; [lia|case_decide; lia]).
      case_match; [done|]. bool_to_prop. intros [= <-]. lia.
    + intros b. specialize (Hc b). rewrite dirt_app in Hc. simpl in Hc. rewrite Ee in Hc.
      rewrite lookup_undirty. destruct (decide (b = a)) as [->|Hne].
      * rewrite decide_True in Hc by done. case_match; bool_to_prop; simpl; lia.
      * rewrite decide_False in Hc by congruence. lia.
  - split; [done|]. intros a. specialize (Hc a). rewrite dirt_app in Hc. simpl in Hc.
    rewrite Ee, decide_False in Hc by done. lia.
Qed.

Lemma undirty_entry_eqv e d1 d2 : (forall a, a <> ripemd -> d1 !! a = d2 !! a) ->
  forall a, a <> ripemd -> undirty_entry e d1 !! a = undirty_entry e d2 !! a.
Proof.
  intros Hd a Ha. unfold undirty_entry. destruct (dirtied e) as [b|]; [|auto].
  rewrite !lookup_undirty. case_decide; [subst; by rewrite Hd|auto].
Qed.

(** *** Undoing a list of entries *)

Definition kept (s s' : StateDB) : Prop :=
  db s' = db s /\ trie s' = trie s /\ entries (jrnl s') = entries (jrnl s) /\
  validRevisions s' = validRevisions s /\ nextRevisionId s' = nextRevisionId s.

Lemma kept_trans s1 s2 s3 : kept s1 s2 -> kept s2 s3 -> kept s1 s3.
Proof. unfold kept. intuition congruence. Qed.

Lemma undo_unfold e (s : StateDB) : undo K e s = (st ← revert_entry K e s;
  Ret (with_journal st (MkJournal (entries (jrnl st)) (undirty_entry e (dirties (jrnl st)))))).
Proof. done. Qed.

Lemma undo_inv es e s s' : inv_at (es ++ [e]) s -> undo K e s = Ret s' -> inv_at es s' /\ kept s s'.
Proof.
  intros Hi. rewrite undo_unfold. destruct (revert_entry K e s) as [s1|] eqn:Er; [|done]. intros [= <-].
  pose proof (inv_entries _ _ Hi) as [Hes [He _]%Forall_cons]%Forall_app.
  destruct (revert_inv _ _ _ _ Hi He Er) as (Hi1 & Hdb & Htr & Hj & Hv & Hn).
  split; [|by split_and!; simpl; congruence].
  destruct (undirty_entry_ok es e (dirties (jrnl s1)) (inv_dirties _ _ Hi1) (inv_dirt _ _ Hi1)).
  apply (inv_journal (es ++ [e])); try done. by rewrite Hdb.
Qed.

Lemma undo_eqv es e s1 s2 t1 : inv_at (es ++ [e]) s1 -> inv_at (es ++ [e]) s2 -> eqv s1 s2 ->
  undo K e s1 = Ret t1 -> exists t2, undo K e s2 = Ret t2 /\ eqv t1 t2.
Proof.
  intros Hi1 Hi2 Hs. rewrite undo_unfold.
  destruct (revert_entry K e s1) as [r1|] eqn:Er; [|done]. intros [= <-].
  pose proof (inv_entries _ _ Hi1) as [_ [He _]%Forall_cons]%Forall_app.
  destruct (revert_eqv _ _ _ _ _ Hi1 Hi2 He Hs Er) as (r2 & Er2 & Hr).
  rewrite undo_unfold, Er2. eexists. split; [done|]. apply eqv_journal; [done|]. simpl.
  apply undirty_entry_eqv, Hr.
Qed.

Lemma undo_all_app es1 es2 (s : StateDB) : undo_all K (es1 ++ es2) s = (s' ← undo_all K es1 s; undo_all K es2 s').
Proof.
  revert s. induction es1 as [|e es1 IH]; intros s; [done|]. simpl.
  destruct (undo K e s) as [s1|]; simpl; [apply IH|done].
Qed.

Lemma undo_all_inv es es' s s' : inv_at (es ++ es') s -> undo_all K (reverse es') s = Ret s' ->
  inv_at es s' /\ kept s s'.
Proof.
  revert s. induction es' as [|e es' IH] using rev_ind; intros s Hi.
  - rewrite app_nil_r in Hi. intros [= <-]. by split.
  - rewrite reverse_snoc. simpl. rewrite app_assoc in Hi.
    destruct (undo K e s) as [s1|] eqn:Eu; [|done]. simpl. intros Hr.
    destruct (undo_inv _ _ _ _ Hi Eu) as [Hi1 Hk1]. destruct (IH s1 Hi1 Hr) as [Hi2 Hk2].
    split; [done|]. by eapply kept_trans.
Qed.

Lemma undo_all_eqv es es' s1 s2 t1 : inv_at (es ++ es') s1 -> inv_at (es ++ es') s2 -> eqv s1 s2 ->
  undo_all K (reverse es') s1 = Ret t1 -> exists t2, undo_all K (reverse es') s2 = Ret t2 /\ eqv t1 t2.
Proof.
  revert s1 s2. induction es' as [|e es' IH] using rev_ind; intros s1 s2 Hi1 Hi2 Hs.
  - intros [= <-]. eauto.
  - rewrite reverse_snoc. simpl. rewrite app_assoc in Hi1, Hi2.
    destruct (undo K e s1) as [r1|] eqn:Eu; [|done]. simpl. intros Hr.
    destruct (undo_eqv _ _ _ _ _ Hi1 Hi2 Hs Eu) as (r2 & Er2 & Hq). rewrite Er2. simpl.
    eapply IH; [apply (undo_inv _ _ _ _ Hi1 Eu)|apply (undo_inv _ _ _ _ Hi2 Er2)|exact Hq|exact Hr].
Qed.

(** ** Undoable modifications *)

(** [s'] is a modification of [s] that its new journal entries undo. *)
Record undoable (s s' : StateDB) : Prop := {
  und_inv : inv s';
  und_rev : validRevisions s' = validRevisions s /\ nextRevisionId s' = nextRevisionId s;
  und_undo : exists es t, entries (jrnl s') = entries (jrnl s) ++ es /\
    undo_all K (reverse es) s' = Ret t /\ eqv t s
}.

Lemma undoable_refl s : inv s -> undoable s s.
Proof.
  intros Hi. split; [done|done|]. exists [], s. rewrite app_nil_r. split_and!; [done|done|reflexivity].
Qed.

Lemma undoable_trans s1 s2 s3 : inv s1 -> undoable s1 s2 -> undoable s2 s3 -> undoable s1 s3.
Proof.
  intros Hi [Hi2 [Hv2 Hn2] (es & t & He & Hu & Hq)] [Hi3 [Hv3 Hn3] (es' & t' & He' & Hu' & Hq')].
  split; [done|split; congruence|].
  rewrite He' in Hi3. destruct (undo_all_inv _ _ _ _ Hi3 Hu') as [Hit _].
  assert (exists r, undo_all K (reverse es) t' = Ret r /\ eqv t r) as (r & Hr & Hqr).
  { rewrite He in Hit, Hi2. by apply (undo_all_eqv (entries (jrnl s1)) es s2 t' t). }
  exists (es ++ es'), r. split_and!.
  - by rewrite He', He, app_assoc.
  - rewrite reverse_app, undo_all_app, Hu'. done.
  - by rewrite <- Hqr.
Qed.

(** A state reached by loading or caching only. *)
Lemma undoable_cache s s' : inv s' -> jrnl s' = jrnl s -> validRevisions s' = validRevisions s ->
  nextRevisionId s' = nextRevisionId s -> eqv s' s -> undoable s s'.
Proof.
  intros Hi Hj Hv Hn He. split; [done|done|]. exists [], s'. rewrite app_nil_r. split_and!; [|done|done].
  by rewrite Hj.
Qed.

(** A modification with one journal entry. *)
Lemma undoable_one s s' e t : inv s' -> entries (jrnl s') = entries (jrnl s) ++ [e] ->
  validRevisions s' = validRevisions s -> nextRevisionId s' = nextRevisionId s ->
  revert_entry K e s' = Ret t ->
  (forall j, (forall a, a <> ripemd -> dirties j !! a = dirties (jrnl s) !! a) -> eqv (with_journal t j) s) ->
  (forall a, a <> ripemd -> undirty_entry e (dirties (jrnl t)) !! a = dirties (jrnl s) !! a) ->
  undoable s s'.
Proof.
  intros Hi He Hv Hn Hr Hq Hd. split; [done|done|]. exists [e]. eexists. split_and!; [done| |].
  - rewrite reverse_singleton. simpl. rewrite undo_unfold, Hr. done.
  - apply Hq. exact Hd.
Qed.

Lemma inv_append es e (s : StateDB) : inv_at es s -> entry_ok (db s) e -> inv_at (es ++ [e]) (append e s).
Proof.
  intros [H1 H2 H3 H4 H5 H6] He. split; try done; simpl.
  - apply Forall_app. by split; [|constructor].
  - intros a n. fold (dirty_entry e (dirties (jrnl s))). unfold dirty_entry.
    destruct (dirtied e); [by apply dirty_ok|apply H4].
  - intros a. rewrite dirt_app. simpl. specialize (H5 a). destruct (dirtied e) as [b|] eqn:Ed.
    + rewrite lookup_dirty. destruct (decide (a = b)) as [->|Hne].
      * rewrite decide_True by done. simpl. lia.
      * rewrite decide_False by congruence. lia.
    + rewrite decide_False by done. lia.
Qed.

Lemma undirty_append e (s : StateDB) b :
  dirties_ok (dirties (jrnl s)) -> undirty_entry e (dirties (jrnl (append e s))) !! b = dirties (jrnl s) !! b.
Proof.
  intros Hd. unfold undirty_entry, append. simpl. destruct (dirtied e); [by apply undirty_dirty|done].
Qed.

(** *** Operations on worlds respect equality *)

#[local] Instance put_proper : Proper ((≡) ==> (=) ==> (≡) ==> (≡)) put.
Proof.
  intros w1 w2 (Ha & Ht & ?) a ? <- x y Hxy. split_and!; try apply H; [|done]. simpl. intros b.
  case_decide; [by constructor|apply Ha].
Qed.

#[local] Instance mark_proper : Proper ((≡) ==> (=) ==> (≡)) mark.
Proof.
  intros w1 w2 (Ha & Ht & ?) a ? <-. split_and!; try apply H; [done|]. simpl. intros b Hb. by rewrite Ht.
Qed.

Lemma ensure_proper w1 w2 a : w1 ≡ w2 ->
  (ensure K w1 a).1 ≡ (ensure K w2 a).1 /\ (ensure K w1 a).2 ≡ (ensure K w2 a).2.
Proof.
  intros Hw. unfold ensure. pose proof Hw as (Ha & _). specialize (Ha a).
  destruct (accts w1 a) as [x|], (accts w2 a) as [y|]; try by inversion Ha.
  split; [|done]. simpl. by rewrite Hw.
Qed.

Lemma modify_proper w1 w2 a f : w1 ≡ w2 -> Proper ((≡) ==> (≡)) f -> modify K w1 a f ≡ modify K w2 a f.
Proof.
  intros Hw Hf. unfold modify. destruct (ensure_proper w1 w2 a Hw) as [H1 H2].
  destruct (ensure K w1 a) as [v1 x1], (ensure K w2 a) as [v2 x2]. simpl in *. by rewrite H1, H2.
Qed.

Lemma touched_dirty a d b :
  bool_decide (is_Some (dirty a d !! b)) = bool_decide (b = a) || bool_decide (is_Some (d !! b)).
Proof.
  rewrite lookup_dirty. destruct (decide (b = a)) as [->|Hne].
  - by rewrite (bool_decide_true (a = a)).
  - by rewrite (bool_decide_false (b = a)).
Qed.

(** *** Creating objects *)

Lemma new_view d a : view d (setNonce (newObject K a (emptyAccount K)) 0) ≡ fresh K.
Proof.
  repeat split; simpl.
  - unfold code_of. simpl. by rewrite bool_decide_true.
  - intros k. unfold storage, obj_trie, trie_value. simpl. rewrite lookup_empty, open_zero, empty_get. done.
Qed.

Lemma new_ok d a : obj_ok d (setNonce (newObject K a (emptyAccount K)) 0).
Proof.
  split; simpl; [done|apply hash_bytes_ok|]. intros k enc. unfold obj_trie. simpl.
  rewrite open_zero, empty_get. by intros [= <-].
Qed.

Lemma peek_None_load s a : inv s -> peek s a = None -> load s a = None.
Proof.
  intros Hi. unfold peek. destruct (stateObjects s !! a) as [o|] eqn:E; [|done].
  destruct (deleted o) eqn:Ed; [|done]. intros _. by apply (inv_objects _ _ Hi a o).
Qed.

Lemma accts_put w a x b : accts (put w a x) b = if decide (b = a) then Some x else accts w b.
Proof. done. Qed.

(** A new object replaces the old one, if any, and the entry restores it. *)
Definition replace_entry (a : Address) (p : option stateObject) : journalEntry :=
  match p with None => createObjectChange a | Some p => resetObjectChange p end.

Lemma replace_undone s a o j : inv s -> address o = a ->
  let s' := setStateObject o (append (replace_entry a (peek s a)) s) in
  (forall b, b <> ripemd -> dirties j !! b = dirties (jrnl s) !! b) ->
  exists t, revert_entry K (replace_entry a (peek s a)) s' = Ret t /\ jrnl t = jrnl s' /\
    eqv (with_journal t j) s.
Proof.
  intros Hi Ha s' Hd. destruct (peek s a) as [p|] eqn:Hp; cbn [replace_entry revert_entry]; eexists;
    (split; [done|]); (split; [done|]); (apply mk_eqv; try done); intros b; subst s'.
  - destruct (peek_ok _ _ _ _ Hi Hp) as (Hpa & _ & Hpd).
    simpl. unfold peek, load. simpl. rewrite Hpa, Ha. destruct (decide (b = a)) as [->|Hne].
    + rewrite lookup_insert_eq, Hpd. fold (load s a). fold (peek s a). by rewrite Hp.
    + by rewrite !lookup_insert_ne.
  - simpl. unfold peek, load. simpl. rewrite Ha. destruct (decide (b = a)) as [->|Hne].
    + rewrite lookup_delete_eq. fold (load s a). fold (peek s a).
      by rewrite (peek_None_load s a Hi Hp), Hp.
    + by rewrite lookup_delete_ne, lookup_insert_ne.
Qed.

Lemma replace_spec s a o : inv s -> address o = a -> deleted o = false -> obj_ok (db s) o ->
  let s' := setStateObject o (append (replace_entry a (peek s a)) s) in
  undoable s s' /\ world s' ≡ match peek s a with
    | None => mark (put (world s) a (view (db s) o)) a
    | Some _ => put (world s) a (view (db s) o)
    end.
Proof.
  intros Hi Ha Hd Ho s'. set (e := replace_entry a (peek s a)) in *.
  assert (He : entry_ok (db s) e).
  { unfold e. destruct (peek s a) as [p|] eqn:Hp; [|done].
    destruct (peek_ok _ _ _ _ Hi Hp) as (_ & ? & ?). by split. }
  assert (Hi' : inv s') by (apply inv_setStateObject; [by apply inv_append|done|done]).
  assert (Hund : forall b, undirty_entry e (dirties (jrnl s')) !! b = dirties (jrnl s) !! b).
  { intros b. apply undirty_append. exact (inv_dirties _ _ Hi). }
  split.
  - destruct (replace_undone s a o (jrnl s) Hi Ha ltac:(done)) as (t & Ht & Hjt & _).
    apply (undoable_one s s' e t); try done.
    + intros j Hj. destruct (replace_undone s a o j Hi Ha Hj) as (t' & Ht' & _ & Hq).
      fold e in Ht, Ht'. fold s' in Ht, Ht'. rewrite Ht in Ht'. by simplify_eq.
    + intros b _. by rewrite Hjt.
  - assert (Hput : forall b, accts (world s') b ≡ accts (put (world s) a (view (db s) o)) b).
    { intros b. unfold s'. rewrite accts_setStateObject, accts_put, Ha by done. done. }
    unfold s', e in *. destruct (peek s a); (split; [exact Hput|]); (split; [|done]); simpl; [done|].
    intros b _. apply touched_dirty.
Qed.

Lemma createObject_eq (s : StateDB) a s1 p : getStateObject K s a = (s1, p) ->
  createObject K s a = (let new := setNonce (newObject K a (emptyAccount K)) 0 in
    (setStateObject new (append (replace_entry a p) s1), new, p)).
Proof. intros Hg. unfold createObject. rewrite Hg. by destruct p. Qed.

(** A lookup: cached load of the object, then its view. *)
Lemma lookup_spec s a s' r : inv s -> getStateObject K s a = (s', r) ->
  undoable s s' /\ world s' ≡ world s /\ db s' = db s /\ r = peek s a /\ peek s' a = r.
Proof.
  intros Hi Hg. destruct (getStateObject_spec _ _ _ _ _ Hi Hg) as (Hr & Hi1 & He & Hj & Hv & Hn & Hpk).
  rewrite <- Hj in Hi1. split_and!; [by apply undoable_cache|apply He|apply He|done|by rewrite Hpk].
Qed.

Lemma createObject_spec s a s' new prev : inv s -> createObject K s a = (s', new, prev) ->
  undoable s s' /\ db s' = db s /\ prev = peek s a /\ peek s' a = Some new /\
  new = setNonce (newObject K a (emptyAccount K)) 0 /\
  world s' ≡ (match prev with None => mark (put (world s) a (fresh K)) a
                           | Some _ => put (world s) a (fresh K) end).
Proof.
  intros Hi. destruct (getStateObject K s a) as [s1 p] eqn:Hg. rewrite (createObject_eq _ _ _ _ Hg).
  destruct (lookup_spec s a s1 p Hi Hg) as (Hu & Hw & Hdb & Hp & Hp1). intros [= <- <- <-].
  set (new := setNonce _ _).
  destruct (replace_spec s1 a new (und_inv _ _ Hu) eq_refl eq_refl (new_ok _ _)) as [Hu2 Hw2].
  rewrite Hp1 in Hu2, Hw2. split_and!; [by eapply undoable_trans|done|done| |done|].
  - by rewrite peek_setStateObject, decide_True.
  - rewrite Hw2. unfold new. destruct p; by rewrite Hw, (new_view (db s1) a).
Qed.

Lemma ensure_spec s a s' o : inv s -> GetOrNewStateObject K s a = (s', o) ->
  undoable s s' /\ db s' = db s /\ peek s' a = Some o /\
  world s' ≡ (ensure K (world s) a).1 /\ view (db s) o ≡ (ensure K (world s) a).2.
Proof.
  intros Hi. unfold GetOrNewStateObject.
  destruct (getStateObject K s a) as [s1 r] eqn:Eg.
  destruct (getStateObject_spec _ _ _ _ _ Hi Eg) as (Hr & Hi1 & He1 & Hj1 & Hv1 & Hn1 & Hpk).
  rewrite <- Hj1 in Hi1. pose proof (undoable_cache s s1 Hi1 Hj1 Hv1 Hn1 He1) as Hu1.
  pose proof (eqv_db _ _ He1) as Hdb.
  assert (Hw : world s1 ≡ world s) by apply He1.
  unfold ensure. change (accts (world s) a) with (view (db s) <$> peek s a). rewrite <- Hr.
  destruct r as [x|]; simpl.
  - destruct (peek_ok _ _ _ _ Hi (eq_sym Hr)) as (_ & _ & Hd). rewrite Hd. intros [= <- <-].
    split_and!; try done. by rewrite Hpk.
  - destruct (createObject K s1 a) as [[s2 new] prev] eqn:Ec. simpl. intros [= <- <-].
    destruct (createObject_spec _ _ _ _ _ Hi1 Ec) as (Hu2 & Hdb2 & Hp2 & Hpk2 & -> & Hw2).
    rewrite Hpk, <- Hr in Hp2. subst prev.
    split_and!; [by eapply undoable_trans|congruence|done| |apply new_view].
    rewrite Hw2. by rewrite Hw.
Qed.

(** On an existing object, undoing [e] is the update [g]. *)
Definition reverts (e : journalEntry) (a : Address) (g : stateObject -> stateObject) : Prop :=
  forall (s st : StateDB) o, getStateObject K s a = (st, Some o) -> revert_entry K e s = Ret (setStateObject (g o) st).

Lemma on_object_reverts e a g : revert_entry K e = on_object a g -> reverts e a g.
Proof. intros He s st o Hg. rewrite He. unfold on_object. by rewrite Hg. Qed.

(** An update of a live object with its journal entry. *)
Lemma update_spec s a o e f g : inv s -> peek s a = Some o -> update_ok (db s) f -> update_ok (db s) g ->
  dirtied e = Some a -> entry_ok (db s) e -> reverts e a g ->
  view (db s) (g (f o)) ≡ view (db s) o ->
  let s' := setStateObject (f o) (append e s) in
  undoable s s' /\ world s' ≡ mark (put (world s) a (view (db s) (f o))) a.
Proof.
  intros Hi Hp Hf Hg Hd He Hrev Hgf s'.
  destruct (peek_ok _ _ _ _ Hi Hp) as (Ha & Ho & Hdel).
  assert (Hfa : address (f o) = a) by (by rewrite (upd_address _ _ Hf)).
  assert (Hfd : deleted (f o) = false) by (by rewrite (upd_deleted _ _ Hf)).
  assert (Hi' : inv s').
  { apply inv_setStateObject; [by apply inv_append|by apply Hf|done]. }
  split.
  - apply (undoable_one s s' e (setStateObject (g (f o)) s')); try done.
    + apply Hrev. unfold getStateObject, s', setStateObject. simpl.
      by rewrite Hfa, lookup_insert_eq, Hfd.
    + intros j Hj. apply mk_eqv; try done. intros b.
      change (accts (world (with_journal (setStateObject (g (f o)) s') j)) b) with
        (accts (world (setStateObject (g (f o)) s')) b).
      rewrite accts_setStateObject by (by rewrite (upd_deleted _ _ Hg)).
      rewrite (upd_address _ _ Hg), Hfa. unfold s'. rewrite accts_setStateObject by done. rewrite Hfa.
      destruct (decide (b = a)) as [->|Hne]; [|done]. simpl. rewrite Hp. by constructor.
    + intros b _. apply undirty_append. exact (inv_dirties _ _ Hi).
  - split_and!; try done.
    + intros b. unfold s'. rewrite accts_setStateObject by done. by rewrite Hfa.
    + intros b _. simpl. rewrite Hd. apply touched_dirty.
Qed.

(** The general form of a setter: get or create the object, journal, update. *)
Lemma setter_spec s a s1 o e f g (h : Acct -> Acct) :
  inv s -> GetOrNewStateObject K s a = (s1, o) -> update_ok (db s) f -> update_ok (db s) g ->
  dirtied e = Some a -> entry_ok (db s) e -> reverts e a g ->
  view (db s) (g (f o)) ≡ view (db s) o -> view (db s) (f o) ≡ h (view (db s) o) ->
  Proper ((≡) ==> (≡)) h ->
  let s' := setStateObject (f o) (append e s1) in
  undoable s s' /\ world s' ≡ modify K (world s) a h.
Proof.
  intros Hi Hg Hf Hgg Hd He Hrev Hgf Hh Hp s'.
  destruct (ensure_spec s a s1 o Hi Hg) as (Hu1 & Hdb & Hpk & Hw & Hv).
  destruct (update_spec s1 a o e f g) as [Hu2 Hw2]; rewrite ?Hdb; try done; [apply Hu1|].
  split; [by eapply undoable_trans|]. unfold s'. rewrite Hw2. unfold modify.
  destruct (ensure K (world s) a) as [w x]. simpl in *. by rewrite Hw, Hdb, Hh, Hv.
Qed.

#[local] Instance bal_proper f : Proper ((≡) ==> (≡)) (bal f).
Proof. intros x y (?&Hb&?&?&?&?). repeat split; try done. simpl. by rewrite Hb. Qed.

Lemma ensure_address s a s1 o : inv s -> GetOrNewStateObject K s a = (s1, o) ->
  address o = a /\ obj_ok (db s) o.
Proof.
  intros Hi Hg. destruct (ensure_spec s a s1 o Hi Hg) as (Hu & Hdb & Hp & _).
  destruct (peek_ok _ _ _ _ (und_inv _ _ Hu) Hp) as (? & ? & _). by rewrite <- Hdb.
Qed.

Lemma obj_SetBalance_spec s a s1 o n f : inv s -> GetOrNewStateObject K s a = (s1, o) ->
  n = f (Balance (data o)) ->
  undoable s (obj_SetBalance o n s1) /\ world (obj_SetBalance o n s1) ≡ modify K (world s) a (bal f).
Proof.
  intros Hi Hg ->. destruct (ensure_address s a s1 o Hi Hg) as [Ha Ho].
  unfold obj_SetBalance. rewrite Ha.
  apply (setter_spec s a s1 o (balanceChange a (Balance (data o)))
    (fun x => setBalance x (f (Balance (data o))))
    (fun x => setBalance x (Balance (data o))) (bal f)); try done;
    [apply update_setBalance|apply update_setBalance|by apply on_object_reverts|apply _].
Qed.

Lemma SetNonce_spec s a n : inv s -> undoable s (SetNonce K s a n) /\
  world (SetNonce K s a n) ≡ modify K (world s) a (fun x =>
    MkAcct n (a_balance x) (a_codeHash x) (a_code x) (a_storage x) (a_suicided x)).
Proof.
  intros Hi. unfold SetNonce. destruct (GetOrNewStateObject K s a) as [s1 o] eqn:Hg.
  destruct (ensure_address s a s1 o Hi Hg) as [Ha Ho]. rewrite Ha.
  apply (setter_spec s a s1 o (nonceChange a (Nonce (data o))) (fun o => setNonce o n)
    (fun x => setNonce x (Nonce (data o)))); try done;
    [apply update_setNonce|apply update_setNonce|by apply on_object_reverts|].
  intros x y (?&?&?&?&?&?). by repeat split.
Qed.

(** *** Caching inside an object *)

(** [o'] is [o] after loading code or storage. *)
Record cached (d : DB) (o o' : stateObject) : Prop := {
  ca_address : address o' = address o;
  ca_deleted : deleted o' = deleted o;
  ca_data : data o' = data o;
  ca_ok : obj_ok d o -> obj_ok d o';
  ca_view : view d o' ≡ view d o
}.

Lemma cached_spec s a o o' : inv s -> peek s a = Some o -> cached (db s) o o' ->
  undoable s (setStateObject o' s) /\ eqv (setStateObject o' s) s /\
  peek (setStateObject o' s) a = Some o'.
Proof.
  intros Hi Hp [Ha Hd _ Hok Hv]. destruct (peek_ok _ _ _ _ Hi Hp) as (Hoa & Ho & Hdel).
  assert (He : eqv (setStateObject o' s) s).
  { apply mk_eqv; try done. intros b. rewrite accts_setStateObject by congruence.
    rewrite Ha, Hoa. destruct (decide (b = a)) as [->|]; [|done]. simpl. rewrite Hp. by constructor. }
  split_and!; [|done|].
  - apply undoable_cache; try done. apply inv_setStateObject; [done|by apply Hok|congruence].
  - rewrite peek_setStateObject, decide_True by congruence. by rewrite Hd, Hdel.
Qed.

Lemma set_set_object e (o o' : stateObject) (s : StateDB) : address o' = address o ->
  setStateObject o' (append e (setStateObject o s)) = setStateObject o' (append e s).
Proof.
  intros Ha. unfold setStateObject, append, with_objects, with_journal. simpl. by rewrite Ha, insert_insert_eq.
Qed.

Lemma set_set_object' (o o' : stateObject) (s : StateDB) : address o' = address o ->
  setStateObject o' (setStateObject o s) = setStateObject o' s.
Proof. intros Ha. unfold setStateObject, with_objects. simpl. by rewrite Ha, insert_insert_eq. Qed.

Lemma obj_Code_spec d o : let '(o', c) := obj_Code K d o in cached d o o' /\ c = code_of d o.
Proof.
  unfold obj_Code, code_of. destruct (code o) as [c|] eqn:Ec; [done|].
  case_bool_decide as Eh; [done|].
  destruct (ContractCode d (addrHash o) (BytesToHash (CodeHash (data o)))) as [c err] eqn:Ecc.
  assert (Hv : forall o', address o' = address o -> addrHash o' = addrHash o -> data o' = data o ->
    otrie o' = otrie o -> cachedStorage o' = cachedStorage o -> suicided o' = suicided o ->
    deleted o' = deleted o -> code o' = c -> cached d o o').
  { intros o' Ha Hh Hdt Ht Hc Hs Hdl Hco. split; try done.
    - intros [H1 H2 H3]. split; [congruence|by rewrite Hdt|].
      intros k enc. unfold obj_trie. rewrite Ht, Hh, Hdt. apply H3.
    - repeat split; simpl; rewrite ?Hdt; try done.
      + unfold code_of. rewrite Hco, Hdt, Ec, Hh, bool_decide_false, Ecc by done. by destruct c.
      + intros k. unfold storage, obj_trie. by rewrite Hc, Ht, Hh, Hdt. }
  split; [|done]. apply Hv; by destruct err.
Qed.

Lemma obj_GetState_spec d o k : obj_ok d o ->
  exists o', obj_GetState d o k = Ret (o', storage d o k) /\ cached d o o'.
Proof.
  intros Ho. unfold obj_GetState, storage. destruct (cachedStorage o !! k) as [v|] eqn:Ec; simpl.
  { exists o. split; [done|]. by split. }
  assert (Hget : let '(o1, t) := getTrie d o in t = obj_trie d o /\ cached d o o1 /\
    cachedStorage o1 = cachedStorage o /\ otrie o1 = Some t).
  { unfold getTrie, obj_trie. destruct (otrie o) as [t|] eqn:Et; [done|].
    destruct (OpenStorageTrie d (addrHash o) (Root (data o))) as [e|t] eqn:Eo; split_and!; try done.
    all: split; try done.
    all: try (intros [H1 H2 H3]; split; [done|done|]; intros k' enc; unfold obj_trie; simpl;
              specialize (H3 k' enc); unfold obj_trie in H3; by rewrite Et, Eo in H3).
    all: repeat split; try done; intros k'; simpl; unfold storage, obj_trie; simpl; by rewrite Et, Eo. }
  destruct (getTrie d o) as [o1 t]. destruct Hget as (Ht & Hc1 & Hcs & Hot). unfold trie_value. rewrite <- Ht.
  destruct (TryGet t (hash_bytes k)) as [enc [err|]] eqn:Eg.
  - exists (obj_setError o1 (Some err)). split; [done|]. destruct Hc1 as [H1 H2 H3 H4 H5].
    split; try done. intros Hx. specialize (H4 Hx) as [? ? ?]. by split.
  - destruct (storageValue enc) as [[v err]|] eqn:Es; simpl.
    + eexists. split; [done|]. destruct Hc1 as [H1 H2 H3 H4 H5]. split; try done.
      * intros Hx. specialize (H4 Hx) as [? ? ?]. by split.
      * destruct H5 as (?&?&?&?&Hst&?). repeat split; try done. intros k'. rewrite <- (Hst k').
        simpl. unfold storage. simpl. destruct (decide (k' = k)) as [->|Hne].
        -- rewrite lookup_insert_eq, Hcs, Ec. simpl. unfold obj_trie. rewrite Hot. unfold trie_value.
           by rewrite Eg, Es.
        -- by rewrite lookup_insert_ne.
    + exfalso. apply (ok_storage _ _ Ho k enc); [by rewrite <- Ht|done].
Qed.

(** *** The operations *)

(** A touch only changes the journal; its extra mark on [ripemd] survives the undo. *)
Lemma touch_journal s a j : inv s ->
  let e := touchChange a : journalEntry in
  j = jrnl (append e s) \/
  (a = ripemd /\ j = MkJournal (entries (jrnl (append e s))) (dirty a (dirties (jrnl (append e s))))) ->
  undoable s (with_journal s j) /\ world (with_journal s j) ≡ mark (world s) a.
Proof.
  intros Hi e Hj. pose proof (inv_append _ e _ Hi I) as Hia.
  assert (Hents : entries j = entries (jrnl s) ++ [e]) by (by destruct Hj as [->|[_ ->]]).
  assert (Hdok : dirties_ok (dirties (jrnl s))) by exact (inv_dirties _ _ Hi).
  assert (Hi2 : inv (with_journal s j)).
  { simpl. rewrite Hents. apply (inv_journal (entries (jrnl s))); [done|by apply Hia| |];
      intros b; destruct Hj as [->|[_ ->]]; simpl.
    - intros m. by apply dirty_ok.
    - intros m. by apply dirty_ok, dirty_ok.
    - apply (inv_dirt _ _ Hia).
    - pose proof (inv_dirt _ _ Hia b) as Hb. simpl in Hb. rewrite lookup_dirty.
      destruct (decide (b = a)) as [->|]; [simpl; lia|done]. }
  split.
  - apply (undoable_one s _ e (with_journal s j)); try done.
    + intros j' Hjd. by apply mk_eqv.
    + intros b Hb. destruct Hj as [->|[-> ->]]; [by apply undirty_append|].
      unfold undirty_entry. simpl. rewrite lookup_undirty, decide_False by done.
      by rewrite !lookup_dirty, !decide_False.
  - split_and!; try done. intros b Hb. simpl.
    destruct Hj as [->|[-> ->]]; simpl; rewrite ?touched_dirty; [done|].
    by rewrite (bool_decide_false (b = ripemd)).
Qed.

Lemma touch_spec s o : inv s -> undoable s (touch o s) /\ world (touch o s) ≡ mark (world s) (address o).
Proof.
  intros Hi. unfold touch. destruct (address o =? ripemd) eqn:Er; bool_to_prop.
  - apply (touch_journal s (address o) (MkJournal _ _)); [done|]. right. by split.
  - apply (touch_journal s (address o)); [done|]. by left.
Qed.

Lemma AddBalance_spec s a n : inv s -> undoable s (AddBalance K s a n) /\
  world (AddBalance K s a n) ≡
    (if n =? 0 then let '(w, x) := ensure K (world s) a in if a_empty K x then mark w a else w
     else modify K (world s) a (bal (fun b => b + n))).
Proof.
  intros Hi. unfold AddBalance. destruct (GetOrNewStateObject K s a) as [s1 o] eqn:Hg.
  destruct (ensure_spec s a s1 o Hi Hg) as (Hu & Hdb & Hp & Hw & Hv).
  destruct (ensure_address s a s1 o Hi Hg) as [Ha Ho].
  destruct (n =? 0); [|by apply (obj_SetBalance_spec s a)].
  destruct (ensure K (world s) a) as [w x]. simpl in Hw, Hv.
  assert (empty K o = a_empty K x) as ->.
  { destruct Hv as (Hn & Hb & Hc & _). unfold empty, a_empty. simpl in *. by rewrite Hn, Hb, Hc. }
  destruct (a_empty K x); [|done].
  destruct (touch_spec s1 o (und_inv _ _ Hu)) as [H1 H2].
  split; [by eapply undoable_trans|]. by rewrite H2, Hw, Ha.
Qed.

Lemma SubBalance_spec s a n : inv s -> undoable s (SubBalance K s a n) /\
  world (SubBalance K s a n) ≡
    (if n =? 0 then (ensure K (world s) a).1 else modify K (world s) a (bal (fun b => b - n))).
Proof.
  intros Hi. unfold SubBalance. destruct (GetOrNewStateObject K s a) as [s1 o] eqn:Hg.
  destruct (ensure_spec s a s1 o Hi Hg) as (Hu & _ & _ & Hw & _).
  destruct (n =? 0); [done|by apply (obj_SetBalance_spec s a)].
Qed.

Lemma SetBalance_spec s a n : inv s -> undoable s (SetBalance K s a n) /\
  world (SetBalance K s a n) ≡ modify K (world s) a (bal (fun _ => n)).
Proof.
  intros Hi. unfold SetBalance. destruct (GetOrNewStateObject K s a) as [s1 o] eqn:Hg.
  by apply (obj_SetBalance_spec s a).
Qed.

(** A setter whose object first loads code or storage. *)
Lemma setter_cached_spec s a s1 o o' e f g (h : Acct -> Acct) :
  inv s -> GetOrNewStateObject K s a = (s1, o) -> cached (db s) o o' ->
  update_ok (db s) f -> update_ok (db s) g ->
  dirtied e = Some a -> entry_ok (db s) e -> reverts e a g ->
  view (db s) (g (f o')) ≡ view (db s) o' -> view (db s) (f o') ≡ h (view (db s) o') ->
  Proper ((≡) ==> (≡)) h ->
  let s' := setStateObject (f o') (append e s1) in
  undoable s s' /\ world s' ≡ modify K (world s) a h.
Proof.
  intros Hi Hg Hca Hf Hgg Hd He Hrev Hgf Hh Hp s'.
  destruct (ensure_spec s a s1 o Hi Hg) as (Hu1 & Hdb & Hpk & Hw & Hv).
  assert (Hi1 : inv s1) by apply Hu1.
  destruct (cached_spec s1 a o o' Hi1 Hpk) as (Hu2 & He2 & Hpk2); [by rewrite Hdb|].
  destruct (update_spec (setStateObject o' s1) a o' e f g) as [Hu3 Hw3]; simpl; rewrite ?Hdb; try done;
    [apply Hu2|].
  rewrite set_set_object in Hu3, Hw3 by (apply Hf).
  split; [eapply undoable_trans; [done|done|by eapply undoable_trans]|].
  unfold s'. rewrite Hw3. unfold modify. destruct (ensure K (world s) a) as [w x]. simpl in *.
  rewrite (eqv_world _ _ He2), Hw, Hdb, Hh. by rewrite (ca_view _ _ _ Hca), Hv.
Qed.

Lemma SetCode_spec s a c : inv s -> undoable s (SetCode K s a c) /\
  world (SetCode K s a c) ≡ modify K (world s) a (fun x =>
    MkAcct (a_nonce x) (a_balance x) (hash_bytes (K c)) (Some c) (a_storage x) (a_suicided x)).
Proof.
  intros Hi. unfold SetCode. destruct (GetOrNewStateObject K s a) as [s1 o] eqn:Hg.
  destruct (ensure_address s a s1 o Hi Hg) as [Ha Ho].
  destruct (ensure_spec s a s1 o Hi Hg) as (_ & Hdb & _). rewrite Hdb.
  pose proof (obj_Code_spec (db s) o) as Hc. destruct (obj_Code K (db s) o) as [o' pc].
  destruct Hc as [Hca ->]. rewrite (ca_address _ _ _ Hca), Ha, (ca_data _ _ _ Hca).
  pose proof (ok_codeHash _ _ Ho) as [Hb Hl].
  assert (Hho : addrHash o' = addrHash o).
  { rewrite (ok_addrHash _ _ (ca_ok _ _ _ Hca Ho)), (ok_addrHash _ _ Ho). by rewrite (ca_address _ _ _ Hca). }
  apply (setter_cached_spec s a s1 o o' (codeChange a (code_of (db s) o) (CodeHash (data o)))
    (fun x => setCode x (K c) (Some c))
    (fun x => setCode x (BytesToHash (CodeHash (data o))) (code_of (db s) o))); try done.
  - apply update_setCode.
  - apply update_setCode.
  - by apply on_object_reverts.
  - pose proof (ca_view _ _ _ Hca) as (?&?&?&Hcode&?&?). repeat split; simpl; try done.
    + by rewrite hash_bytes_BytesToHash, (ca_data _ _ _ Hca).
    + simpl in Hcode. rewrite Hcode. unfold code_of at 1. simpl. rewrite hash_bytes_BytesToHash by done.
      destruct (code_of (db s) o) as [c'|] eqn:Ec; [done|]. unfold code_of in Ec.
      destruct (code o); [done|]. case_bool_decide; [done|]. by rewrite Hho.
  - intros x y (?&?&?&?&?&?). by repeat split.
Qed.

Lemma SetState_spec s a k v : inv s -> exists s', SetState K s a k v = Ret s' /\ undoable s s' /\
  world s' ≡ modify K (world s) a (fun x =>
    MkAcct (a_nonce x) (a_balance x) (a_codeHash x) (a_code x)
      (fun k' => if decide (k' = k) then v else a_storage x k') (a_suicided x)).
Proof.
  intros Hi. unfold SetState. destruct (GetOrNewStateObject K s a) as [s1 o] eqn:Hg.
  destruct (ensure_address s a s1 o Hi Hg) as [Ha Ho].
  destruct (ensure_spec s a s1 o Hi Hg) as (_ & Hdb & _). rewrite Hdb.
  destruct (obj_GetState_spec (db s) o k Ho) as (o' & -> & Hca). simpl.
  eexists. split; [done|]. rewrite (ca_address _ _ _ Hca), Ha.
  apply (setter_cached_spec s a s1 o o' (storageChange a k (storage (db s) o k))
    (fun x => setState x k v) (fun x => setState x k (storage (db s) o k))); try done.
  - apply update_setState.
  - apply update_setState.
  - by apply on_object_reverts.
  - pose proof (ca_view _ _ _ Hca) as (?&?&?&?&Hst&?). repeat split; simpl; try done.
    intros k'. unfold storage at 1. simpl. destruct (decide (k' = k)) as [->|Hne].
    + rewrite lookup_insert_eq. simpl. symmetry. apply (Hst k).
    + by rewrite !lookup_insert_ne.
  - repeat split; simpl; try done. intros k'. unfold storage. simpl.
    destruct (decide (k' = k)) as [->|Hne]; [by rewrite lookup_insert_eq|by rewrite lookup_insert_ne].
  - intros x y (?&?&?&?&Hst&?). repeat split; try done. simpl. intros k'. case_decide; [done|apply Hst].
Qed.

Lemma Suicide_spec s a : inv s -> let '(s', b) := Suicide K s a in undoable s s' /\
  match accts (world s) a with
  | None => b = false /\ world s' ≡ world s
  | Some x => b = true /\ world s' ≡ mark (put (world s) a
      (MkAcct (a_nonce x) 0 (a_codeHash x) (a_code x) (a_storage x) true)) a
  end.
Proof.
  intros Hi. unfold Suicide. destruct (getStateObject K s a) as [s1 r] eqn:Hg.
  destruct (lookup_spec s a s1 r Hi Hg) as (Hu & Hw & Hdb & Hr & Hp). simpl. rewrite <- Hr.
  destruct r as [o|]; simpl; [|done].
  destruct (update_spec s1 a o (suicideChange a (suicided o) (Balance (data o)))
    (fun x => setBalance (set_suicided x true) 0)
    (fun x => setBalance (set_suicided x (suicided o)) (Balance (data o)))) as [Hu2 Hw2];
    try done; [apply Hu|apply update_suicide|apply update_suicide| |].
  - intros s2 st x Hx. cbn [revert_entry]. by rewrite Hx.
  - split; [by eapply undoable_trans|]. split; [done|]. by rewrite Hw2, Hw, Hdb.
Qed.

Lemma CreateAccount_spec s a : inv s -> undoable s (CreateAccount K s a) /\
  world (CreateAccount K s a) ≡
    match accts (world s) a with
    | None => mark (put (world s) a (fresh K)) a
    | Some x => put (world s) a (bal (fun _ => a_balance x) (fresh K))
    end.
Proof.
  intros Hi. unfold CreateAccount. destruct (getStateObject K s a) as [s1 p] eqn:Hg.
  rewrite (createObject_eq _ _ _ _ Hg).
  destruct (lookup_spec s a s1 p Hi Hg) as (Hu & Hw & Hdb & Hp & Hp1). simpl. rewrite <- Hp.
  set (new := setNonce _ _).
  assert (Hi1 : inv s1) by apply Hu.
  destruct p as [o|]; simpl.
  - assert (Hok : obj_ok (db s1) (setBalance new (Balance (data o)))) by (apply update_setBalance, new_ok).
    destruct (replace_spec s1 a (setBalance new (Balance (data o))) Hi1 eq_refl eq_refl Hok) as [Hu2 Hw2].
    rewrite Hp1 in Hu2, Hw2. rewrite set_set_object' by done. split; [by eapply undoable_trans|].
    rewrite Hw2, Hw. apply put_proper; [done|done|].
    pose proof (new_view (db s1) a) as (?&?&?&?&?&?). by repeat split.
  - destruct (replace_spec s1 a new Hi1 eq_refl eq_refl (new_ok _ _)) as [Hu2 Hw2].
    rewrite Hp1 in Hu2, Hw2. split; [by eapply undoable_trans|].
    rewrite Hw2. unfold new. by rewrite Hw, (new_view (db s1) a).
Qed.

Lemma inv_append' e (s s' : StateDB) : inv s -> entry_ok (db s) e -> jrnl s' = jrnl (append e s) ->
  db s' = db s -> trie s' = trie s -> stateObjects s' = stateObjects s ->
  (forall h, logs s' !! h <> Some []) -> inv s'.
Proof.
  intros Hi He Hj Hdb Ht Ho Hlg. destruct (inv_append _ e _ Hi He) as [H1 H2 H3 H4 H5 _].
  rewrite Hj. split; rewrite ?Hdb, ?Ho; try done.
  - intros a o Hao. destruct (H1 a o Hao) as (? & ? & Hl). split_and!; try done.
    intros Hdel. unfold load. rewrite Ht. by apply Hl.
  - intros a o. unfold load. rewrite Ht. apply H2.
  - by rewrite Hj.
  - by rewrite Hj.
Qed.

Lemma accts_same (s s' : StateDB) a : db s' = db s -> trie s' = trie s -> stateObjects s' = stateObjects s ->
  accts (world s') a = accts (world s) a.
Proof. intros Hdb Ht Ho. simpl. unfold peek, load. by rewrite Hdb, Ht, Ho. Qed.

Lemma AddRefund_spec s g : inv s -> undoable s (AddRefund s g) /\
  world (AddRefund s g) ≡ MkWorld (accts (world s)) (touched (world s)) (u64 (w_refund (world s) + g))
    (w_logs (world s)) (w_logSize (world s)) (w_preimages (world s)) (w_thash (world s))
    (w_bhash (world s)) (w_txIndex (world s)).
Proof.
  intros Hi. split; [|by split_and!].
  apply (undoable_one s _ (refundChange (refund s)) (with_refund (AddRefund s g) (refund s))); try done.
  - apply (inv_append' (refundChange (refund s)) s); try done. apply Hi.
  - intros j Hj. by apply mk_eqv.
Qed.

Lemma AddPreimage_spec s h q : inv s -> undoable s (AddPreimage s h q) /\
  world (AddPreimage s h q) ≡ MkWorld (accts (world s)) (touched (world s)) (w_refund (world s))
    (w_logs (world s)) (w_logSize (world s))
    (match w_preimages (world s) !! h with
     | Some _ => w_preimages (world s) | None => <[h := q]> (w_preimages (world s)) end)
    (w_thash (world s)) (w_bhash (world s)) (w_txIndex (world s)).
Proof.
  intros Hi. unfold AddPreimage. simpl. destruct (preimages s !! h) as [x|] eqn:Ep.
  { split; [by apply undoable_refl|by split_and!]. }
  split; [|by split_and!].
  eapply (undoable_one s _ (addPreimageChange h)); try done.
  - apply (inv_append' (addPreimageChange h) s); try done. apply Hi.
  - intros j Hj. apply mk_eqv; try done. simpl. by rewrite delete_insert_id.
Qed.

Lemma AddLog_spec s l : inv s -> undoable s (AddLog s l) /\
  world (AddLog s l) ≡ MkWorld (accts (world s)) (touched (world s)) (w_refund (world s))
    (<[w_thash (world s) := default [] (w_logs (world s) !! w_thash (world s)) ++
        [MkLog (LogAddress l) (Topics l) (Data l) (BlockNumber l) (w_thash (world s))
           (u64 (w_txIndex (world s))) (w_bhash (world s)) (w_logSize (world s)) (Removed l)]]>
      (w_logs (world s))) (w_logSize (world s) + 1) (w_preimages (world s))
    (w_thash (world s)) (w_bhash (world s)) (w_txIndex (world s)).
Proof.
  intros Hi. split; [|by split_and!]. set (e := addLogChange (thash s) : journalEntry).
  set (s' := AddLog s l). set (ls := default [] (logs s !! thash s)).
  assert (Hl : exists x, logs s' = <[thash s := ls ++ [x]]> (logs s)) by (by eexists).
  destruct Hl as [x Hl].
  assert (Hpop : revert_entry K e s' = Ret (with_logs s' (logs s) (logSize s))).
  { cbn [revert_entry e]. rewrite Hl, lookup_insert_eq. simpl.
    assert (Hsz : logSize s + 1 - 1 = logSize s) by lia. rewrite Hsz. unfold ls in *.
    destruct (logs s !! thash s) as [[|y k]|] eqn:Ek; simpl.
    - by apply (inv_logs _ _ Hi) in Ek.
    - assert (Htk : take (length (y :: k ++ [x]) - 1) (y :: k ++ [x]) = y :: k).
      { change (y :: k ++ [x]) with ((y :: k) ++ [x]). apply take_app_length'.
        rewrite length_app. simpl. lia. }
      destruct (k ++ [x]) as [|z r] eqn:Er; [by apply app_nil in Er as [_ ?]|].
      simpl in Htk. simpl. rewrite Htk, insert_insert_eq, insert_id by done. done.
    - by rewrite delete_insert_eq, delete_id. }
  apply (undoable_one s s' e (with_logs s' (logs s) (logSize s))); try done.
  - apply (inv_append' e s); try done. rewrite Hl. intros h.
    destruct (decide (h = thash s)) as [->|]; [rewrite lookup_insert_eq; by destruct ls|].
    rewrite lookup_insert_ne by done. apply Hi.
  - intros j Hj. by apply mk_eqv.
Qed.

(** ** Snapshots *)

(** A valid revision and the world saved for it: undoing the entries after its
    journal index gives that world back. *)
Definition rev_ok (st : StateDB) (rv : Z * nat) (sv : Z * World) : Prop :=
  fst rv = fst sv /\ (snd rv <= length (entries (jrnl st)))%nat /\
  exists t, undo_all K (reverse (drop (snd rv) (entries (jrnl st)))) st = Ret t /\ world t ≡ snd sv.

Record rel (st : StateDB) (m : Machine) : Prop := {
  rel_inv : inv st;
  rel_cur : world st ≡ cur m;
  rel_next : nextRevisionId st = next m;
  rel_revs : Forall2 (rev_ok st) (validRevisions st) (saved m);
  rel_ids : StronglySorted (fun x y => fst x < fst y /\ (snd x <= snd y)%nat) (validRevisions st);
  rel_bound : Forall (fun x => fst x < nextRevisionId st) (validRevisions st)
}.

(** Undoing [es] from a state equivalent to one where it works. *)
Lemma rev_ok_undoable st st' rv sv : inv st -> undoable st st' -> rev_ok st rv sv -> rev_ok st' rv sv.
Proof.
  intros Hi [Hi' _ (es & t & He & Hu & Hq)] (Hid & Hle & t0 & Hu0 & Hw0). split; [done|].
  rewrite He. split; [rewrite length_app; lia|]. rewrite drop_app_le, reverse_app, undo_all_app, Hu by done. simpl.
  rewrite He in Hi'. destruct (undo_all_inv _ _ _ _ Hi' Hu) as [Hit _].
  rewrite <- (take_drop (snd rv) (entries (jrnl st))) in Hi, Hit.
  destruct (undo_all_eqv _ _ _ t _ Hi Hit (symmetry Hq) Hu0) as (t1 & Ht1 & Hq1).
  exists t1. split; [done|]. by rewrite <- (eqv_world _ _ Hq1).
Qed.

Lemma rel_undoable st st' m w : rel st m -> undoable st st' -> world st' ≡ w ->
  rel st' (MkMachine w (saved m) (next m)).
Proof.
  intros [Hi Hc Hn Hr Hs Hb] Hu Hw. pose proof (und_rev _ _ Hu) as [Hv Hn'].
  split; simpl; rewrite ?Hv, ?Hn'; try done; [apply Hu|].
  eapply Forall2_impl; [exact Hr|]. intros rv sv Hok. by eapply rev_ok_undoable.
Qed.

Lemma rel_snapshot st m : rel st m ->
  rel (Snapshot st).1 (MkMachine (cur m) (saved m ++ [(next m, cur m)]) (next m + 1)).
Proof.
  intros [Hi Hc Hn Hr Hs Hb]. split; simpl; try done.
  - destruct Hi. by split.
  - by rewrite Hn.
  - apply Forall2_app.
    + eapply Forall2_impl; [exact Hr|]. intros rv sv (Hid & Hle & t & Hu & Hw).
      split_and!; try done. simpl.
      assert (Hst : exists t', undo_all K (reverse (drop (snd rv) (entries (jrnl st)))) (Snapshot st).1 = Ret t' /\ eqv t t').
      { rewrite <- (take_drop (snd rv) (entries (jrnl st))) in Hi.
        apply (undo_all_eqv (take (snd rv) (entries (jrnl st))) _ st); [done| | |done].
        - destruct Hi. by split.
        - by apply mk_eqv. }
      destruct Hst as (t' & Ht' & Hq). exists t'. split; [done|]. by rewrite <- (eqv_world _ _ Hq).
    + constructor; [|constructor]. split_and!; simpl; [done|done|]. eexists.
      rewrite drop_all. split; [done|]. exact Hc.
  - rewrite Forall_forall in Hb. apply StronglySorted_app_2; [|done|repeat constructor].
    intros rv ? Hrv ->%list_elem_of_singleton. split; [by apply Hb|]. simpl.
    apply list_elem_of_lookup in Hrv as [k Hk]. destruct (Forall2_lookup_l _ _ _ _ _ Hr Hk) as (sv & _ & _ & Hle & _).
    done.
  - apply Forall_app. split; [|repeat constructor; simpl; lia].
    eapply Forall_impl; [exact Hb|]. simpl. lia.
Qed.

(** *** Binary search *)

Lemma sort_search_spec fuel f i j : (j - i <= fuel)%nat -> (i <= j)%nat ->
  (forall k k', (k <= k')%nat -> f k = true -> (k' < j)%nat -> f k' = true) ->
  let r := sort_search fuel f i j in
  (i <= r <= j)%nat /\ (forall k, (i <= k < r)%nat -> f k = false) /\ ((r < j)%nat -> f r = true).
Proof.
  revert i j. induction fuel as [|fuel IH]; intros i j Hf Hij Hm; cbn [sort_search]; cbv zeta.
  { split_and!; lia. }
  destruct (i <? j)%nat eqn:E; [apply Nat.ltb_lt in E|apply Nat.ltb_ge in E; split_and!; lia].
  pose proof (Nat.div_mod_eq (i + j) 2) as Hdm. pose proof (Nat.mod_upper_bound (i + j) 2 ltac:(lia)).
  set (h := Nat.div (i + j) 2) in *. destruct (f h) eqn:Eh.
  - destruct (IH i h) as (H1 & H2 & H3); [lia|lia| |].
    { intros k k' Hk Hfk Hk'. apply (Hm k k'); [done|done|lia]. }
    split_and!; [lia|lia|done|]. intros Hr.
    destruct (decide (sort_search fuel f i h < h)%nat) as [|Hge]; [auto|].
    by replace (sort_search fuel f i h) with h by lia.
  - destruct (IH (S h) j) as (H1 & H2 & H3); [lia|lia|done|].
    split_and!; [lia|lia| |done]. intros k Hk. destruct (decide (S h <= k)%nat); [apply H2; lia|].
    destruct (f k) eqn:Ek; [|done]. rewrite (Hm k h) in Eh; [done|lia|done|lia].
Qed.

Lemma find_saved_at id l k w : StronglySorted (fun x y : Z * World => fst x < fst y) l ->
  l !! k = Some (id, w) -> find_saved id l = Some (take k l, w).
Proof.
  intros Hs. revert k. induction Hs as [|[i v] l Hl IH Hf]; intros [|k] Hk; simplify_eq/=.
  - by rewrite Z.eqb_refl.
  - rewrite Forall_forall in Hf. pose proof (Hf _ (list_elem_of_lookup_2 _ _ _ Hk)) as Hlt. simpl in Hlt.
    rewrite (proj2 (Z.eqb_neq _ _)) by lia. by rewrite (IH k Hk).
Qed.

Lemma find_saved_None id l : Forall (fun x : Z * World => fst x <> id) l -> find_saved id l = None.
Proof.
  induction 1 as [|[i v] l Hne _ IH]; [done|]. simpl in *. by rewrite (proj2 (Z.eqb_neq _ _)), IH.
Qed.

(** The revision found by [RevertToSnapshot]. *)
Definition search (rs : list (Z * nat)) (revid : Z) : nat :=
  sort_search (length rs) (fun i => match rs !! i with Some (id, _) => revid <=? id | None => false end) 0 (length rs).

Lemma search_spec rs revid : StronglySorted (fun x y => fst x < fst y /\ (snd x <= snd y)%nat) rs ->
  match rs !! search rs revid with
  | Some (id, _) => id = revid \/ Forall (fun x => fst x <> revid) rs
  | None => Forall (fun x => fst x <> revid) rs
  end.
Proof.
  intros Hs. unfold search. set (f := fun i => _).
  assert (Hlt : forall k k' x y, (k < k')%nat -> rs !! k = Some x -> rs !! k' = Some y -> fst x < fst y).
  { intros k k' x y Hk Hx Hy. by apply (StronglySorted_lookup _ _ _ _ _ _ Hs Hx Hy Hk). }
  destruct (sort_search_spec (length rs) f 0 (length rs)) as (H1 & H2 & H3); [lia|lia| |].
  { intros k k' Hk Hf Hk'. unfold f in *. destruct (rs !! k) as [[i n]|] eqn:Ek; [|done].
    destruct (lookup_lt_is_Some_2 rs k' Hk') as [[i' n'] Ek']. rewrite Ek'.
    destruct (decide (k = k')) as [->|]; [by simplify_eq|].
    pose proof (Hlt k k' _ _ ltac:(lia) Ek Ek') as Hlt'. simpl in Hlt'. apply Z.leb_le in Hf. apply Z.leb_le. lia. }
  set (r := sort_search _ _ _ _) in *.
  assert (Hbefore : forall k x, rs !! k = Some x -> (k < r)%nat -> fst x < revid).
  { intros k [i n] Hk Hr. specialize (H2 k ltac:(lia)). unfold f in H2. rewrite Hk in H2. by apply Z.leb_gt in H2. }
  destruct (rs !! r) as [[i n]|] eqn:Er.
  - destruct (decide (i = revid)) as [|Hne]; [by left|right]. apply Forall_lookup. intros k x Hk.
    specialize (H3 ltac:(by eapply lookup_lt_Some)). unfold f in H3. rewrite Er in H3. apply Z.leb_le in H3.
    destruct (decide (k < r)%nat) as [Hlt'|]; [pose proof (Hbefore k x Hk Hlt'); lia|].
    destruct (decide (k = r)) as [->|]; [by simplify_eq/=|].
    pose proof (Hlt r k _ _ ltac:(lia) Er Hk). simpl in *. lia.
  - apply lookup_ge_None in Er. apply Forall_lookup. intros k x Hk.
    pose proof (lookup_lt_Some _ _ _ Hk). pose proof (Hbefore k x Hk ltac:(lia)). lia.
Qed.

Lemma saved_sorted st m : rel st m -> StronglySorted (fun x y : Z * World => fst x < fst y) (saved m).
Proof.
  intros [_ _ _ Hr Hs _]. induction Hr as [|rv sv rs ss Hok Hr IH]; [constructor|].
  apply StronglySorted_cons in Hs as [Hf Hs]. constructor; [auto|]. apply Forall_lookup. intros k sv' Hk.
  destruct (Forall2_lookup_r _ _ _ _ _ Hr Hk) as (rv' & Hk' & Hid & _). destruct Hok as [Hid0 _].
  rewrite Forall_lookup in Hf. specialize (Hf _ _ Hk'). simpl in Hf. lia.
Qed.

(** A revision below the journal position reverted to survives the revert. *)
Lemma rev_ok_reverted st t j n rv sv : inv st ->
  undo_all K (reverse (drop n (entries (jrnl st)))) st = Ret t ->
  (snd rv <= n <= length (entries (jrnl st)))%nat -> rev_ok st rv sv ->
  entries j = take n (entries (jrnl st)) -> dirties j = dirties (jrnl t) -> inv_at (entries j) (with_journal t j) ->
  rev_ok (with_journal t j) rv sv.
Proof.
  intros Hi Hu Hn (Hid & Hle & t0 & Hu0 & Hw) He Hd Hit. split; [done|]. cbn [jrnl with_journal].
  rewrite He, length_take. split; [lia|].
  rewrite <- (take_drop n (entries (jrnl st))) in Hu0 at 1.
  rewrite drop_app_le, reverse_app, undo_all_app, Hu in Hu0 by (rewrite length_take; lia). simpl in Hu0.
  rewrite <- (take_drop n (entries (jrnl st))) in Hi. destruct (undo_all_inv _ _ _ _ Hi Hu) as [Ht _].
  rewrite He in Hit. rewrite <- (take_drop (snd rv) (take n _)) in Ht, Hit.
  assert (Hq0 : eqv t (with_journal t j)) by (apply mk_eqv; try done; simpl; by rewrite Hd).
  destruct (undo_all_eqv _ _ _ _ _ Ht Hit Hq0 Hu0) as (t1 & Ht1 & Hq).
  exists t1. split; [done|]. by rewrite <- (eqv_world _ _ Hq).
Qed.

Lemma rev_ok_revisions st v n rv sv : inv st -> rev_ok st rv sv -> rev_ok (with_revisions st v n) rv sv.
Proof.
  intros Hi (Hid & Hle & t & Hu & Hw). split_and!; try done. simpl.
  rewrite <- (take_drop (snd rv) (entries (jrnl st))) in Hi.
  destruct (undo_all_eqv _ _ st (with_revisions st v n) t Hi) as (t' & Ht' & Hq); [by destruct Hi|by apply mk_eqv|done|].
  exists t'. split; [done|]. by rewrite <- (eqv_world _ _ Hq).
Qed.

Lemma Revert_spec st m id : rel st m ->
  match find_saved id (saved m) with
  | None => RevertToSnapshot K st id = Panic
  | Some (pre, w) => exists st', RevertToSnapshot K st id = Ret st' /\ rel st' (MkMachine w pre (next m))
  end.
Proof.
  intros Hrel. pose proof (saved_sorted _ _ Hrel) as Hss. pose proof Hrel as [Hi Hc Hn Hr Hs Hb].
  pose proof (search_spec _ id Hs) as Hsearch. unfold RevertToSnapshot. cbv zeta.
  change (sort_search _ _ _ _) with (search (validRevisions st) id).
  assert (Hnone : Forall (fun x => fst x <> id) (validRevisions st) -> find_saved id (saved m) = None).
  { intros Hf. apply find_saved_None. apply Forall_lookup. intros k sv Hk.
    destruct (Forall2_lookup_r _ _ _ _ _ Hr Hk) as (rv & Hk' & <- & _). rewrite Forall_lookup in Hf. eauto. }
  destruct (validRevisions st !! search _ _) as [[i n]|] eqn:El; [|by rewrite Hnone].
  destruct (decide (i = id)) as [->|Hne].
  2:{ destruct Hsearch as [?|Hf]; [done|]. by rewrite Hnone, (proj2 (Z.eqb_neq _ _)). }
  clear Hsearch Hnone. set (k := search _ _) in *.
  destruct (Forall2_lookup_l _ _ _ _ _ Hr El) as ([? w] & Ek & Heq & Hle & t & Hu & Hw). simpl in Heq, Hle, Hu, Hw. subst.
  rewrite (find_saved_at _ _ _ _ Hss Ek), Z.eqb_refl. simpl. unfold journal_revert.
  rewrite (proj2 (Nat.ltb_ge _ _)), Hu by done. simpl. eexists. split; [done|].
  set (j := MkJournal _ _). pose proof Hi as Hi'.
  rewrite <- (take_drop n (entries (jrnl st))) in Hi'. destruct (undo_all_inv _ _ _ _ Hi' Hu) as [Ht Hk].
  assert (Hj : inv_at (entries j) (with_journal t j)) by (by destruct Ht).
  destruct Hk as (Hkd & Hkt & Hke & Hkv & Hkn). split; simpl; rewrite ?Hkv, ?Hkn.
  - by destruct Hj.
  - exact Hw.
  - done.
  - apply Forall2_same_length_lookup. split; [by rewrite !length_take, (Forall2_length _ _ _ Hr)|].
    intros x rv sv [Hx Hlt]%lookup_take_Some [Hy _]%lookup_take_Some.
    apply rev_ok_revisions; [done|].
    apply (rev_ok_reverted st t j n); try done.
    + split; [|done]. eapply (StronglySorted_lookup _ _ _ _ _ _ Hs Hx El Hlt).
    + by eapply Forall2_lookup_lr.
  - rewrite <- (take_drop k (validRevisions st)) in Hs. by apply StronglySorted_app_1_l in Hs.
  - by apply Forall_take.
Qed.

End Refine.

End StateRefine.
