(* ===== verification/StateDBProps.v ===== *)
(** The refinement theorem of the state database: any sequence of operations,
    snapshots and reverts gives the results of the specification, and panics exactly
    where the specification has no step.

    The consensus engine credits block rewards through the interface [BalanceDB];
    the state database discharges it, so the engine's reward theorem holds of the
    real state. *)

From S2P Require Import Prelude Params Bytes RlpEncode RlpDecode RlpRaw Consensus StateDB StateDBSpec StateDBRefine.
Import State StateSpec StateRefine.

Module StateProps.

Section Props.
Context {T DB : Type} {trie_ops : TrieOps T} {db_ops : DbOps DB T} (K : bytes -> Hash).
Context {laws : BackendLaws trie_ops db_ops K}.
Abbreviation StateDB := (State.StateDB (T:=T) (DB:=DB)).
Abbreviation stateObject := (State.stateObject (T:=T)).
#[local] Existing Instances put_proper mark_proper bal_proper.

(** ** Queries *)

Lemma of_acct_proper {A} w1 w2 a (f : Acct -> A) none : w1 ≡ w2 ->
  (forall x y, x ≡ y -> f x = f y) -> of_acct w1 a f none = of_acct w2 a f none.
Proof.
  intros (Ha & _) Hf. unfold of_acct. specialize (Ha a). destruct (accts w1 a), (accts w2 a); inversion Ha; auto.
Qed.

Lemma rel_same st st' m : rel K st m -> undoable K st st' -> world K st' ≡ world K st -> rel K st' m.
Proof.
  intros Hr Hu Hw. destruct m as [c sv n]. apply (rel_undoable K st st' (MkMachine c sv n) c Hr Hu).
  rewrite Hw. apply Hr.
Qed.

Lemma query_spec {A} st m a st' r (f : stateObject -> A) (g : Acct -> A) none :
  rel K st m -> getStateObject K st a = (st', r) ->
  (forall x y, x ≡ y -> g x = g y) -> (forall o, peek K st a = Some o -> f o = g (view K (db st) o)) ->
  rel K st' m /\ match r with Some o => f o | None => none end = of_acct (cur m) a g none.
Proof.
  intros Hr Hg Hp Hf. destruct (lookup_spec K st a st' r (rel_inv _ _ _ Hr) Hg) as (Hu & Hw & _ & -> & _).
  split; [by eapply rel_same|].
  rewrite <- (of_acct_proper (world K st) (cur m)) by (done || apply Hr).
  unfold of_acct. simpl. destruct (peek K st a) as [o|] eqn:Ep; simpl; [by apply Hf|done].
Qed.

(** A query that caches what it read in the object. *)
Lemma query_cached st m a o st' o' : rel K st m -> getStateObject K st a = (st', Some o) ->
  cached K (db st) o o' -> rel K (setStateObject o' st') m.
Proof.
  intros Hr Hg Hc. destruct (lookup_spec K st a st' _ (rel_inv _ _ _ Hr) Hg) as (Hu & Hw & Hdb & _ & Hp).
  rewrite <- Hdb in Hc. destruct (cached_spec K st' a o o' (und_inv _ _ _ Hu) Hp Hc) as (Hu' & He & _).
  apply (rel_same st'); [by apply (rel_same st)|done|apply He].
Qed.

Lemma a_empty_proper x y : x ≡ y -> a_empty K x = a_empty K y.
Proof. intros (Hn & Hb & Hc & _). unfold a_empty. by rewrite Hn, Hb, Hc. Qed.

Lemma GetCode_refines st m a : rel K st m ->
  let '(st', c) := GetCode K st a in rel K st' m /\ c = of_acct (cur m) a a_code None.
Proof.
  intros Hr. unfold GetCode. destruct (getStateObject K st a) as [st' r] eqn:Hg.
  destruct (query_spec st m a st' r (code_of K (db st)) a_code None Hr Hg) as [Hr' Hq]; [by intros x y (_&_&_&?&_)|done|].
  destruct r as [o|]; [|done].
  destruct (lookup_spec K st a st' _ (rel_inv _ _ _ Hr) Hg) as (_ & _ & -> & _).
  pose proof (obj_Code_spec K (db st) o) as Hc. destruct (obj_Code K (db st) o) as [o' c]. destruct Hc as [Hca ->].
  split; [by apply (query_cached st m a o)|done].
Qed.

Lemma GetState_refines st m a k : rel K st m ->
  exists st', GetState K st a k = Ret (st', of_acct (cur m) a (fun x => a_storage x k) 0) /\ rel K st' m.
Proof.
  intros Hr. unfold GetState. destruct (getStateObject K st a) as [st' r] eqn:Hg.
  destruct (query_spec st m a st' r (fun o => storage (db st) o k) (fun x => a_storage x k) 0 Hr Hg)
    as [Hr' Hq]; [by intros x y (_&_&_&_&?&_)|done|].
  destruct r as [o|]; [|by rewrite <- Hq; eauto].
  destruct (lookup_spec K st a st' _ (rel_inv _ _ _ Hr) Hg) as (_ & _ & -> & Hpk & _).
  destruct (peek_ok _ _ _ _ _ (rel_inv _ _ _ Hr) (eq_sym Hpk)) as (_ & Ho & _).
  destruct (obj_GetState_spec K (db st) o k Ho) as (o' & -> & Hca). simpl. rewrite Hq.
  eexists. split; [done|]. by apply (query_cached st m a o).
Qed.

(** The size of the code, whether it is loaded or asked of the database. *)
Lemma code_of_size (st : StateDB) (o : stateObject) : obj_ok K (db st) o -> code o = None ->
  fst (ContractCodeSize (db st) (addrHash o) (BytesToHash (CodeHash (data o)))) =
  len (default [] (code_of K (db st) o)).
Proof.
  intros Ho Hc. rewrite (code_size (Keccak256Hash:=K)). unfold code_of. rewrite Hc. case_bool_decide as Eh; [|done].
  rewrite Eh. unfold emptyCodeHash. rewrite BytesToHash_hash_bytes by apply keccak_range.
  by rewrite code_empty.
Qed.

Lemma GetCodeSize_refines st m a : rel K st m ->
  let '(st', n) := GetCodeSize K st a in
  rel K st' m /\ n = of_acct (cur m) a (fun x => len (default [] (a_code x))) 0.
Proof.
  intros Hr. unfold GetCodeSize. destruct (getStateObject K st a) as [st' r] eqn:Hg.
  destruct (query_spec st m a st' r (fun o => len (default [] (code_of K (db st) o)))
    (fun x => len (default [] (a_code x))) 0 Hr Hg) as [Hr' Hq]; [by intros x y (_&_&_&->&_)|done|].
  destruct r as [o|]; [|done].
  destruct (lookup_spec K st a st' _ (rel_inv _ _ _ Hr) Hg) as (_ & _ & Hdb & Hpk & _).
  destruct (peek_ok _ _ _ _ _ (rel_inv _ _ _ Hr) (eq_sym Hpk)) as (_ & Ho & _).
  destruct (code o) as [c|] eqn:Ec.
  { split; [done|]. rewrite <- Hq. unfold code_of. by rewrite Ec. }
  rewrite Hdb. pose proof (code_of_size st o Ho Ec) as Hs.
  destruct (ContractCodeSize _ _ _) as [n err]. simpl in Hs. rewrite Hs, Hq. split; [|done].
  destruct err as [e|]; [|done]. eapply rel_same; [done| |done].
  apply undoable_cache; try done. destruct (rel_inv _ _ _ Hr'). by split.
Qed.

(** ** One operation *)

(** The outcome of an operation against that of the specification. *)
Definition agrees {A} (r : outcome (StateDB * A)) (ar : option (Machine * A)) : Prop :=
  match ar with
  | None => r = Panic
  | Some (m, x) => exists st, r = Ret (st, x) /\ rel K st m
  end.

Lemma mutator_agrees st m st' (F : World -> World) : rel K st m -> Proper ((≡) ==> (≡)) F ->
  undoable K st st' /\ world K st' ≡ F (world K st) -> agrees (unit_result st') (step_world m (F (cur m))).
Proof.
  intros Hr HF [Hu Hw]. exists st'. split; [done|]. apply (rel_undoable K st); [done|done|].
  rewrite Hw. apply HF. apply Hr.
Qed.

Lemma query_agrees {A} m (p : StateDB * A) (f : A -> result) x :
  rel K p.1 m /\ p.2 = x -> agrees (give f p) (answer m (f x)).
Proof. intros [Hr <-]. by exists p.1. Qed.

Lemma modify_proper' a f : Proper ((≡) ==> (≡)) f -> Proper ((≡) ==> (≡)) (fun w => modify K w a f).
Proof. intros Hf w1 w2 Hw. by apply modify_proper. Qed.

Lemma add_zero_proper a : Proper ((≡) ==> (≡))
  (fun w => let '(w, x) := ensure K w a in if a_empty K x then mark w a else w).
Proof.
  intros w1 w2 Hw. destruct (ensure_proper K w1 w2 a Hw) as [H1 H2].
  destruct (ensure K w1 a) as [v1 x1], (ensure K w2 a) as [v2 x2]. simpl in *.
  rewrite (a_empty_proper _ _ H2). destruct (a_empty K x2); by rewrite H1.
Qed.

Lemma create_proper a : Proper ((≡) ==> (≡)) (fun w =>
  match accts w a with
  | None => mark (put w a (fresh K)) a
  | Some x => put w a (bal (fun _ => a_balance x) (fresh K))
  end).
Proof.
  intros w1 w2 Hw. pose proof Hw as (Ha & _). specialize (Ha a).
  destruct (accts w1 a) as [x|], (accts w2 a) as [y|]; inversion Ha as [? ? Hxy|]; subst; rewrite Hw; [|done].
  by destruct Hxy as (_ & -> & _).
Qed.

Lemma Suicide_refines st m a : rel K st m -> agrees (give RBool (Suicide K st a)) (astep K (OSuicide a) m).
Proof.
  intros Hr. pose proof (Suicide_spec K st a (rel_inv _ _ _ Hr)) as Hs. unfold give.
  destruct (Suicide K st a) as [st' b]. destruct Hs as [Hu Hs]. simpl astep.
  pose proof (rel_cur _ _ _ Hr) as Hw. pose proof Hw as (Ha & _). specialize (Ha a).
  destruct (accts (world K st) a) as [x|], (accts (cur m) a) as [y|]; inversion Ha as [? ? Hxy|]; subst;
    destruct Hs as [-> Hs]; exists st'; (split; [done|]).
  - apply (rel_undoable K st); [done|done|]. rewrite Hs. apply mark_proper; [|done]. apply put_proper; [done|done|].
    destruct Hxy as (?&?&?&?&?&?). by repeat split.
  - by apply (rel_same st).
Qed.

Lemma AddBalance_refines st m a n : rel K st m ->
  agrees (unit_result (AddBalance K st a n)) (astep K (OAddBalance a n) m).
Proof.
  intros Hr. pose proof (AddBalance_spec K st a n (rel_inv _ _ _ Hr)) as Hs. simpl astep. destruct (n =? 0).
  - pose proof (mutator_agrees st m _ _ Hr (add_zero_proper a) Hs) as Hm.
    cbv beta in Hm. revert Hm. by destruct (ensure K (cur m) a).
  - by apply (mutator_agrees st m _ (fun w => modify K w a _) Hr (modify_proper' _ _ _)).
Qed.

Lemma SubBalance_refines st m a n : rel K st m ->
  agrees (unit_result (SubBalance K st a n)) (astep K (OSubBalance a n) m).
Proof.
  intros Hr. pose proof (SubBalance_spec K st a n (rel_inv _ _ _ Hr)) as Hs. simpl astep. destruct (n =? 0).
  - apply (mutator_agrees st m _ (fun w => (ensure K w a).1) Hr); [|done].
    intros w1 w2 Hw. by apply ensure_proper.
  - by apply (mutator_agrees st m _ (fun w => modify K w a _) Hr (modify_proper' _ _ _)).
Qed.

Lemma CreateAccount_refines st m a : rel K st m ->
  agrees (unit_result (CreateAccount K st a)) (astep K (OCreateAccount a) m).
Proof.
  intros Hr. pose proof (CreateAccount_spec K st a (rel_inv _ _ _ Hr)) as Hs.
  pose proof (mutator_agrees st m _ _ Hr (create_proper a) Hs) as Hm. simpl astep.
  cbv beta in Hm. revert Hm. by destruct (accts (cur m) a).
Qed.

Lemma SetState_refines st m a k v : rel K st m ->
  agrees (st ← SetState K st a k v; unit_result st) (astep K (OSetState a k v) m).
Proof.
  intros Hr. destruct (SetState_spec K st a k v (rel_inv _ _ _ Hr)) as (st' & -> & Hs). simpl astep. simpl.
  apply (mutator_agrees st m _ (fun w => modify K w a _) Hr); [|exact Hs].
  apply modify_proper'. intros x y (?&?&?&?&Hst&?). repeat split; try done. intros k'. simpl. by case_decide.
Qed.

(** Functions of an account that copy its other fields. *)
Ltac acct_proper := apply modify_proper'; intros x y (?&?&?&?&?&?); by repeat split.

(** Worlds built from the fields of equal worlds. *)
Ltac world_eq H := destruct H as (?&?&->&->&->&->&->&->&->); by split_and!.

Lemma exec_refines o st m : rel K st m -> agrees (exec K o st) (astep K o m).
Proof.
  intros Hr. pose proof (rel_inv _ _ _ Hr) as Hi. pose proof (rel_cur _ _ _ Hr) as Hc. destruct o.
  - by apply AddBalance_refines.
  - by apply SubBalance_refines.
  - apply (mutator_agrees st m _ (fun w => modify K w a _) Hr); [acct_proper|by apply SetBalance_spec].
  - apply (mutator_agrees st m _ (fun w => modify K w a _) Hr); [acct_proper|by apply SetNonce_spec].
  - apply (mutator_agrees st m _ (fun w => modify K w a _) Hr); [acct_proper|by apply SetCode_spec].
  - by apply SetState_refines.
  - by apply Suicide_refines.
  - by apply CreateAccount_refines.
  - exists (AddLog st l). destruct (AddLog_spec K st l Hi) as [Hu Hw]. split; [done|].
    apply (rel_undoable K st); [done|done|]. rewrite Hw. world_eq Hc.
  - exists (AddPreimage st h p). destruct (AddPreimage_spec K st h p Hi) as [Hu Hw]. split; [done|].
    apply (rel_undoable K st); [done|done|]. rewrite Hw. world_eq Hc.
  - exists (AddRefund st g). destruct (AddRefund_spec K st g Hi) as [Hu Hw]. split; [done|].
    apply (rel_undoable K st); [done|done|]. rewrite Hw. world_eq Hc.
  - cbn [exec astep]. apply query_agrees. unfold Exist. destruct (getStateObject K st a) as [st' r] eqn:Hg. simpl.
    destruct (query_spec st m a st' r (fun _ => true) (fun _ => true) false Hr Hg) as [? Hq]; [done|done|].
    split; [done|]. destruct (accts (cur m) a) eqn:Ea; unfold of_acct in Hq; rewrite Ea in Hq; by destruct r.
  - apply query_agrees. unfold Empty. destruct (getStateObject K st a) as [st' r] eqn:Hg.
    apply (query_spec st m a st' r _ _ _ Hr Hg); [apply a_empty_proper|done].
  - apply query_agrees. unfold GetBalance. destruct (getStateObject K st a) as [st' r] eqn:Hg.
    apply (query_spec st m a st' r _ _ _ Hr Hg); [by intros x y (_&?&_)|done].
  - apply query_agrees. unfold GetNonce. destruct (getStateObject K st a) as [st' r] eqn:Hg.
    apply (query_spec st m a st' r _ _ _ Hr Hg); [by intros x y (?&_)|done].
  - apply query_agrees. pose proof (GetCode_refines st m a Hr) as Hq. revert Hq. by destruct (GetCode K st a).
  - apply query_agrees. pose proof (GetCodeSize_refines st m a Hr) as Hq. revert Hq. by destruct (GetCodeSize K st a).
  - apply query_agrees. unfold GetCodeHash. destruct (getStateObject K st a) as [st' r] eqn:Hg.
    apply (query_spec st m a st' r _ _ _ Hr Hg); [by intros x y (_&_&->&_)|done].
  - cbn [exec astep]. destruct (GetState_refines st m a k Hr) as (st' & -> & Hr'). by exists st'.
  - apply query_agrees. unfold HasSuicided. destruct (getStateObject K st a) as [st' r] eqn:Hg.
    apply (query_spec st m a st' r _ _ _ Hr Hg); [by intros x y (_&_&_&_&_&?)|done].
  - exists st. split; [|done]. simpl. by destruct Hc as (_&_&<-&_).
  - exists st. split; [|done]. simpl. unfold GetLogs. by destruct Hc as (_&_&_&<-&_).
  - exists (Snapshot st).1. split; [|by apply rel_snapshot]. cbn [exec].
    unfold give, Snapshot. simpl. by rewrite <- (rel_next _ _ _ Hr).
  - cbn [exec astep]. pose proof (Revert_spec K st m id Hr) as Hs.
    destruct (find_saved id (saved m)) as [[pre w]|]; simpl.
    + destruct Hs as (st' & -> & Hr'). by exists st'.
    + by rewrite Hs.
Qed.

Lemma run_agrees os st m : rel K st m -> agrees (run K os st) (arun K os m).
Proof.
  revert st m. induction os as [|o os IH]; intros st m Hr; [by exists st|]. simpl.
  pose proof (exec_refines o st m Hr) as Ho. destruct (astep K o m) as [[m1 r]|]; simpl; [|by rewrite Ho].
  destruct Ho as (st1 & -> & Hr1). specialize (IH st1 m1 Hr1).
  destruct (arun K os m1) as [[m2 rs]|]; simpl; [|by rewrite IH].
  destruct IH as (st2 & -> & Hr2). by exists st2.
Qed.

(** A state freshly opened on a root whose trie is well formed is related to the
    world the trie stands for. *)
Lemma rel_New root d st : New root d = inr st ->
  (forall a o, load K st a = Some o -> obj_ok K d o) ->
  rel K st (MkMachine (world K st) [] 0).
Proof.
  unfold New. destruct (OpenTrie d root) as [e|t]; [done|]. intros [= <-] Hl.
  split; simpl; [split; simpl|..]; try done; try (by constructor); by intros ? ? ?%lookup_empty_Some.
Qed.

(** Snapshot identifiers are below the next one. *)
Lemma rel_fresh st m : rel K st m -> Forall (fun p => fst p < next m) (saved m).
Proof.
  intros Hr. apply Forall_lookup. intros k sv Hk. pose proof (rel_bound _ _ _ Hr) as Hb. rewrite (rel_next _ _ _ Hr) in Hb.
  destruct (Forall2_lookup_r _ _ _ _ _ (rel_revs _ _ _ Hr) Hk) as (rv & Hv & <- & _).
  rewrite Forall_lookup in Hb. eauto.
Qed.

(** ** Theorems *)

(** Every loaded account has a 32-byte code hash and storage values that decode. *)
Definition well_formed (st : StateDB) : Prop := forall a o, load K st a = Some o -> obj_ok K (db st) o.

(** C1: [StateDB] refines its specification. From a state opened with [New], a
    sequence of any of the modifications, queries, [Snapshot] and [RevertToSnapshot]
    returns what the specification returns (accounts as a function, snapshots as saved
    copies, no caches and no journal) and ends in the specification's world; it panics
    exactly when the specification has no such snapshot to revert to. *)
Theorem statedb_refines root d st os : New root d = inr st -> well_formed st ->
  match arun K os (MkMachine (world K st) [] 0) with
  | None => run K os st = Panic
  | Some (m, rs) => exists st', run K os st = Ret (st', rs) /\ world K st' ≡ cur m
  end.
Proof.
  intros Hn Hw. assert (Hl : forall a o, load K st a = Some o -> obj_ok K d o).
  { intros a o Ho. pose proof (Hw a o Ho) as Hok. revert Hn Hok. unfold New. case_match; [done|]. by intros [= <-]. }
  pose proof (run_agrees os st _ (rel_New root d st Hn Hl)) as H.
  destruct (arun _ _ _) as [[m rs]|]; [|done]. destruct H as (st' & Hr & Hrel). exists st'. split; [done|apply Hrel].
Qed.

(** Operations that do not revert to a snapshot taken before [id]. *)
Definition keeps (id : Z) (o : op) : bool := match o with ORevert i => id <? i | _ => true end.

Lemma find_saved_app id l l' : find_saved id (l ++ l') =
  match find_saved id l with
  | Some p => Some p
  | None => '(pre, w) ← find_saved id l'; Some (l ++ pre, w)
  end.
Proof.
  induction l as [|[i w] l IH]; simpl.
  - by destruct (find_saved id l') as [[? ?]|].
  - destruct (i =? id); [done|]. rewrite IH.
    destruct (find_saved id l) as [[? ?]|]; [done|]. by destruct (find_saved id l') as [[? ?]|].
Qed.

(** Until then the saved copies up to [id] stay. *)
Lemma astep_keeps o m m' r id w pre l : keeps id o = true -> astep K o m = Some (m', r) ->
  saved m = pre ++ (id, w) :: l -> Forall (fun x => fst x <= id) pre ->
  exists l', saved m' = pre ++ (id, w) :: l'.
Proof.
  intros Hk Hs Hm Hp.
  assert (Hsame : saved m' = saved m \/ (exists x, saved m' = saved m ++ [x]) \/
    exists i, o = ORevert i).
  { destruct o; simpl in Hs; unfold step_world, answer in Hs; repeat case_match; simplify_eq/=; eauto. }
  destruct Hsame as [->|[[x ->]|[i ->]]]; [by exists l|exists (l ++ [x]); by rewrite Hm, <- app_assoc|].
  simpl in Hs, Hk. apply Z.ltb_lt in Hk. rewrite Hm, find_saved_app in Hs.
  rewrite find_saved_None in Hs by (eapply Forall_impl; [exact Hp|]; simpl; lia).
  simpl in Hs. rewrite (proj2 (Z.eqb_neq _ _)) in Hs by lia.
  destruct (find_saved i l) as [[pre' w']|]; [|done]. simplify_eq/=. by exists pre'.
Qed.

Lemma arun_keeps os m m' rs id w pre l : forallb (keeps id) os = true -> arun K os m = Some (m', rs) ->
  saved m = pre ++ (id, w) :: l -> Forall (fun x => fst x <= id) pre ->
  exists l', saved m' = pre ++ (id, w) :: l'.
Proof.
  revert m rs l. induction os as [|o os IH]; intros m rs l Hk Hr Hm Hp; simplify_eq/=; [by exists l|].
  apply andb_true_iff in Hk as [Hk1 Hk2]. destruct (astep K o m) as [[m1 r]|] eqn:Eo; [|done]. simpl in Hr.
  destruct (arun K os m1) as [[m2 rs2]|] eqn:Er; [|done]. simplify_eq/=.
  destruct (astep_keeps _ _ _ _ _ _ _ _ Hk1 Eo Hm Hp) as [l1 Hl1]. by apply (IH m1 rs2 l1).
Qed.

Lemma run_app os os' st : run K (os ++ os') st =
  match run K os st with
  | Panic => Panic
  | Ret (st, rs) => match run K os' st with Panic => Panic | Ret (st', rs') => Ret (st', rs ++ rs') end
  end.
Proof.
  revert st. induction os as [|o os IH]; intros st; simpl.
  - by destruct (run K os' st) as [[? ?]|].
  - destruct (exec K o st) as [[st1 r]|]; [|done]. rewrite IH.
    destruct (run K os st1) as [[st2 rs]|]; [|done]. by destruct (run K os' st2) as [[? ?]|].
Qed.

(** C24: a snapshot is restored exactly. Take a snapshot of any reachable state, run
    any operations that do not revert past it, then revert to it: the revert succeeds
    and every account, its code and storage, the logs, preimages, refund counter and
    touched marks (but that of the RIPEMD precompile) are as they were. *)
Theorem snapshot_revert_restores root d st os1 st1 rs1 os2 st2 rs2 :
  New root d = inr st -> well_formed st -> run K os1 st = Ret (st1, rs1) ->
  forallb (keeps (nextRevisionId st1)) os2 = true -> run K os2 (Snapshot st1).1 = Ret (st2, rs2) ->
  exists st3, RevertToSnapshot K st2 (nextRevisionId st1) = Ret st3 /\ world K st3 ≡ world K st1.
Proof.
  intros Hn Hw Hr1 Hk Hr2. assert (Hl : forall a o, load K st a = Some o -> obj_ok K d o).
  { intros a o Ho. pose proof (Hw a o Ho) as Hok. revert Hn Hok. unfold New. case_match; [done|]. by intros [= <-]. }
  pose proof (run_agrees os1 st _ (rel_New root d st Hn Hl)) as H1. rewrite Hr1 in H1.
  destruct (arun K os1 _) as [[m1 r1]|]; [|done]. destruct H1 as (x & Hx & Hrel1). simplify_eq.
  rewrite (rel_next _ _ _ Hrel1) in *. pose proof (rel_snapshot K x m1 Hrel1) as Hsn.
  pose proof (run_agrees os2 _ _ Hsn) as H2. rewrite Hr2 in H2.
  destruct (arun K os2 _) as [[m2 r2]|] eqn:Ea; [|done]. destruct H2 as (y & Hy & Hrel2). simplify_eq.
  pose proof (rel_fresh _ _ Hrel1) as Hlt.
  destruct (arun_keeps os2 _ _ _ (next m1) (cur m1) (saved m1) [] Hk Ea) as [l' Hl']; [done| |].
  { eapply Forall_impl; [exact Hlt|]. simpl. lia. }
  pose proof (Revert_spec K y m2 (next m1) Hrel2) as Hrev. rewrite Hl', find_saved_app, find_saved_None in Hrev.
  2:{ eapply Forall_impl; [exact Hlt|]. simpl. lia. }
  simpl in Hrev. rewrite Z.eqb_refl in Hrev. destruct Hrev as (st3 & -> & Hrel3). exists st3. split; [done|].
  rewrite (rel_cur _ _ _ Hrel3). simpl. symmetry. apply Hrel1.
Qed.

End Props.

(** ** A backend in memory, for the witnesses *)

Module Mem.

Definition hash (b : bytes) : Hash := (be_value b + len b + 1) mod 2 ^ 256.

#[export] Instance mem_trie : TrieOps (gmap bytes bytes) := {|
  TryGet t k := (default [] (t !! k), None);
  TryUpdate t k v := (match v with [] => delete k t | _ => <[k := v]> t end, None);
  TryDelete t k := (delete k t, None);
  TrieHash t := hash (concat (map (fun p => p.1 ++ p.2) (map_to_list t)))
|}.

(** The database holds one state trie and no storage and no code. *)
#[export] Instance mem_db : DbOps (gmap bytes bytes) (gmap bytes bytes) := {|
  OpenTrie d _ := inr d;
  OpenStorageTrie _ _ root := if root =? 0 then inr ∅ else inl "missing trie node"%string;
  OpenEmptyTrie _ _ := ∅;
  ContractCode _ _ _ := (None, None);
  ContractCodeSize _ _ _ := (0, None)
|}.

#[export] Instance mem_laws : BackendLaws mem_trie mem_db hash.
Proof.
  split; try done. intros b. apply Z.mod_pos_bound. done.
Qed.

(** One account, of nonce 1 and balance 10. *)
Definition account : Account := MkAccount 1 10 0 (emptyCodeHash hash).
Definition enc : bytes := match EncodeRLP account with Ret (inr b) => b | _ => [] end.
Definition opened (d : gmap bytes bytes) : State.StateDB (T:=gmap bytes bytes) (DB:=gmap bytes bytes) :=
  MkState d d ∅ ∅ None 0 0 0 0 ∅ 0 ∅ newJournal [] 0.
Definition root_trie : gmap bytes bytes := {[ address_bytes 7 := enc ]}.
Definition state := opened root_trie.

Lemma opened_wf k e acc : decodeAccount e = Some acc -> hash_ok (CodeHash acc) -> Root acc = 0 ->
  well_formed hash (opened {[ k := e ]}).
Proof.
  intros Hd Hc Hr a o Hl. unfold load in Hl. cbn [trie opened TryGet mem_trie] in Hl.
  destruct (decide (k = address_bytes a)) as [->|Ha].
  - rewrite lookup_singleton_eq in Hl. destruct e as [|x e]; cbn [default] in Hl; unfold id in Hl; [done|].
    rewrite Hd in Hl. injection Hl as <-. split; [done|done|].
    intros k enc. unfold obj_trie. cbn [otrie newObject data OpenStorageTrie mem_db]. rewrite Hr. simpl.
    rewrite lookup_empty. by intros [= <-].
  - by rewrite lookup_singleton_ne in Hl.
Qed.

Lemma state_wf : well_formed hash state.
Proof.
  apply (opened_wf _ _ account); [vm_compute; reflexivity| |reflexivity].
  apply (bool_decide_unpack _). vm_compute. exact I.
Qed.

End Mem.
Import Mem.

Definition ops : list op :=
  [OAddBalance 7 5; OSnapshot; OSetState 7 1 2; OSetCode 9 [96; 0]; OSuicide 7; OGetBalance 7; OSnapshot;
   ORevert 0; OGetState 7 1; OGetBalance 7; OExist 9].

(** The operations evaluate, also the reverts. *)
Example ops_run : exists st, run Mem.hash ops Mem.state =
  Ret (st, [RUnit; RZ 0; RUnit; RUnit; RBool true; RZ 0; RZ 1; RUnit; RZ 0; RZ 15; RBool false]).
Proof. eexists. vm_compute. reflexivity. Qed.

Lemma statedb_refines_witness :
  match arun Mem.hash ops (MkMachine (world Mem.hash Mem.state) [] 0) with
  | None => run Mem.hash ops Mem.state = Panic
  | Some (m, rs) => exists st', run Mem.hash ops Mem.state = Ret (st', rs) /\ world Mem.hash st' ≡ cur m
  end.
Proof. apply (statedb_refines Mem.hash 0 Mem.root_trie Mem.state ops); [reflexivity|apply Mem.state_wf]. Defined.

Definition final (r : outcome (State.StateDB (T:=gmap bytes bytes) (DB:=gmap bytes bytes) * list result)) :=
  match r with Ret p => p | Panic => (Mem.state, []) end.
Definition before := final (run Mem.hash [OAddBalance 7 5] Mem.state).
Definition inner : list op := [OSetState 7 1 2; OSuicide 7; OSnapshot; ORevert 1].
Definition after := final (run Mem.hash inner (Snapshot before.1).1).

Lemma snapshot_revert_restores_witness : exists st3,
  RevertToSnapshot Mem.hash after.1 (nextRevisionId before.1) = Ret st3 /\
  world Mem.hash st3 ≡ world Mem.hash before.1.
Proof.
  apply (snapshot_revert_restores Mem.hash 0 Mem.root_trie Mem.state [OAddBalance 7 5] before.1 before.2
    inner after.1 after.2); [reflexivity|apply Mem.state_wf|vm_compute; reflexivity..].
Defined.

End StateProps.

Import State StateSpec StateRefine StateProps.

Module StateRewards.

Section Rewards.
Context {T DB : Type} {trie_ops : TrieOps T} {db_ops : DbOps DB T} (K : bytes -> Hash).
Context {laws : BackendLaws trie_ops db_ops K}.

(** State databases that satisfy the invariant (every reachable one does). *)
Definition ValidState : Type := { st : State.StateDB (T:=T) (DB:=DB) | inv_at K (entries (jrnl st)) st }.

#[export] Instance StateDB_BalanceDB : BalanceDB ValidState := {
  db_GetBalance s a := (GetBalance K (proj1_sig s) a).2;
  db_AddBalance s a v := AddBalance K (proj1_sig s) a v ↾
    und_inv _ _ _ (proj1 (AddBalance_spec K (proj1_sig s) a v (proj2_sig s)))
}.

Lemma GetBalance_world (st : State.StateDB) a : inv_at K (entries (jrnl st)) st ->
  (GetBalance K st a).2 = of_acct (world K st) a a_balance 0.
Proof.
  intros Hi. unfold GetBalance. destruct (getStateObject K st a) as [st' r] eqn:Hg.
  destruct (lookup_spec K st a st' r Hi Hg) as (_ & _ & _ & -> & _). unfold of_acct. simpl.
  by destruct (peek K st a).
Qed.

Lemma put_balance w a x b : of_acct (mark (put w a x) a) b a_balance 0 =
  if decide (b = a) then a_balance x else of_acct w b a_balance 0.
Proof. unfold of_acct. simpl. by case_decide. Qed.

#[export] Instance StateDB_BalanceDBLaws : BalanceDBLaws ValidState.
Proof.
  split. intros [st Hi] a v b. simpl. destruct (AddBalance_spec K st a v Hi) as [Hu Hw].
  rewrite !GetBalance_world by (done || apply Hu).
  rewrite (of_acct_proper _ _ b a_balance 0 Hw) by (by intros x y (_ & ? & _)).
  assert (He : of_acct (ensure K (world K st) a).1 b a_balance 0 = of_acct (world K st) b a_balance 0 /\
    a_balance (ensure K (world K st) a).2 = of_acct (world K st) a a_balance 0).
  { unfold ensure, of_acct. destruct (accts (world K st) a) as [x|] eqn:Ea; [done|]. simpl. split; [|done].
    case_decide as Eb; [|done]. subst b. simpl in Ea. by rewrite Ea. }
  destruct (v =? 0) eqn:Ev; [apply Z.eqb_eq in Ev; subst v|].
  - destruct (ensure K (world K st) a) as [w x]. simpl in He. destruct He as [<- _].
    replace (if bool_decide (a = b) then 0 else 0) with 0 by (by case_bool_decide).
    rewrite Z.add_0_r. by destruct (a_empty K x).
  - unfold modify. destruct (ensure K (world K st) a) as [w x]. simpl in He. destruct He as [He1 He2].
    rewrite put_balance. case_decide; case_bool_decide; subst; try done; simpl; [by rewrite He2|].
    rewrite He1. lia.
Qed.

(** Crediting the rewards of a block on the state database changes exactly the
    balances it should: every address gains its uncle shares and the coinbase the
    block reward and its share per uncle, whatever was cached before. *)
Theorem rewards_on_state (s : ValidState) (h : Header) (us : list Header) (b : Address) :
  (GetBalance K (proj1_sig (Dpos.accumulateRewards s h us)) b).2 =
  (GetBalance K (proj1_sig s) b).2 + DposProps.uncleCredits h us b +
    (if bool_decide (Coinbase h = b) then DposProps.minerReward us else 0).
Proof. exact (DposProps.accumulateRewards_spec (St:=ValidState) h us s b). Qed.

End Rewards.

Import Mem.

Lemma mem_inv : inv_at Mem.hash (entries (jrnl Mem.state)) Mem.state.
Proof.
  refine (rel_inv _ _ _ (rel_New Mem.hash 0 Mem.root_trie Mem.state _ _)); [reflexivity|apply Mem.state_wf].
Qed.

Lemma rewards_on_state_witness :
  let h := header DposClaims.sampleBlock in
  let us := uncles DposClaims.sampleBlock in
  (GetBalance Mem.hash (proj1_sig (Dpos.accumulateRewards (Mem.state ↾ mem_inv : ValidState Mem.hash) h us)) 7).2 = 10 /\
  (GetBalance Mem.hash (proj1_sig (Dpos.accumulateRewards (Mem.state ↾ mem_inv : ValidState Mem.hash) h us)) 55).2
    = 2625000000000000000.
Proof.
  split; rewrite rewards_on_state; vm_compute; reflexivity.
Defined.

End StateRewards.
