(* ===== verification/Evm.v ===== *)
(** Message calls and contract creation of the EVM ([vm/solc/evm.go],
    [vm/solc/contract.go], [core/evm.go]), over the state interface [vm.StateDB].

    The functions are written against [StateOps], the operations of the state
    interface, so that the same text runs on the state database and on its
    specification; whatever holds of the one then holds of the other ([Sim]). *)

From S2P Require Import Prelude Params Bytes RlpEncode RlpDecode RlpRaw StateDB StateDBSpec StateDBRefine StateDBProps.
Import StateSpec.

(** [vm.StateDB]: one operation of the state, with its result. *)
Class StateOps (St : Type) := sstep : op -> St -> outcome (St * result).

(** ** The methods of the interface *)

Module Sdb.
Section Ops.
Context {St : Type} {ops : StateOps St}.

Definition unit_op (o : op) : SM St unit := fun s => '(s, _) ← sstep o s; Ret (s, tt).
Definition bool_op (o : op) : SM St bool := fun s =>
  '(s, r) ← sstep o s; Ret (s, match r with RBool b => b | _ => false end).
Definition num_op (o : op) : SM St Z := fun s =>
  '(s, r) ← sstep o s; Ret (s, match r with RZ z => z | _ => 0 end).
Definition code_op (o : op) : SM St bytes := fun s =>
  '(s, r) ← sstep o s; Ret (s, match r with RCode (Some c) => c | _ => [] end).

Definition CreateAccount a := unit_op (OCreateAccount a).
Definition SubBalance a n := unit_op (OSubBalance a n).
Definition AddBalance a n := unit_op (OAddBalance a n).
Definition GetBalance a := num_op (OGetBalance a).
Definition GetNonce a := num_op (OGetNonce a).
Definition SetNonce a n := unit_op (OSetNonce a n).
Definition GetCodeHash a := num_op (OGetCodeHash a).
Definition GetCode a := code_op (OGetCode a).
Definition SetCode a c := unit_op (OSetCode a c).
Definition GetCodeSize a := num_op (OGetCodeSize a).
Definition AddRefund g := unit_op (OAddRefund g).
Definition GetRefund := num_op OGetRefund.
Definition GetState a k := num_op (OGetState a k).
Definition SetState a k v := unit_op (OSetState a k v).
Definition Suicide a := bool_op (OSuicide a).
Definition HasSuicided a := bool_op (OHasSuicided a).
Definition Exist a := bool_op (OExist a).
Definition Empty a := bool_op (OEmpty a).
Definition RevertToSnapshot i := unit_op (ORevert i).
Definition Snapshot := num_op OSnapshot.
Definition AddLog l := unit_op (OAddLog l).
Definition AddPreimage h p := unit_op (OAddPreimage h p).
End Ops.
End Sdb.

Module Evm.

Definition CallCreateDepth : Z := 1024.
Definition MaxCodeSize : Z := 24576.
Definition CreateDataGas : Z := 200.

Inductive VmError :=
| ErrOutOfGas | ErrCodeStoreOutOfGas | ErrDepth | ErrTraceLimitReached | ErrInsufficientBalance
| ErrContractAddressCollision
| errWriteProtection | errReturnDataOutOfBounds | errExecutionReverted | errMaxCodeSizeExceeded
| errGasUintOverflow | errPrecompile (msg : string) | errOther (msg : string).

#[export] Instance VmError_eq_dec : EqDecision VmError.
Proof. solve_decision. Defined.

(** ** contract.go *)

(** A [ContractRef]: an account, or a running contract, of which only the address,
    the caller's address and the value are read. *)
Inductive ContractRef :=
| AccountRef (a : Address)
| ParentContract (a : Address) (callerAddress : Address) (value : Z).

Definition ref_Address (r : ContractRef) : Address :=
  match r with AccountRef a | ParentContract a _ _ => a end.

Record Contract := MkContract {
  CallerAddress : Address;
  caller : ContractRef;
  self : Address;
  Code : bytes;
  CodeHash : Hash;
  CodeAddr : option Address;
  Gas : Z;
  value : Z;
  DelegateCall : bool
}.

(** The zero value of the fields [SetCallCode] sets is nil. *)
Definition NewContract (c : ContractRef) (object : Address) (v gas : Z) : Contract :=
  MkContract (ref_Address c) c object [] 0 None gas v false.

Definition AsDelegate (c : Contract) : outcome Contract :=
  match caller c with
  | AccountRef _ => Panic
  | ParentContract _ ca v =>
      Ret (MkContract ca (caller c) (self c) (Code c) (CodeHash c) (CodeAddr c) (Gas c) v true)
  end.

Definition SetCallCode (c : Contract) (addr : Address) (hash : Hash) (code : bytes) : Contract :=
  MkContract (CallerAddress c) (caller c) (self c) code hash (Some addr) (Gas c) (value c) (DelegateCall c).

Definition with_Gas (c : Contract) (g : Z) : Contract :=
  MkContract (CallerAddress c) (caller c) (self c) (Code c) (CodeHash c) (CodeAddr c) g (value c) (DelegateCall c).

Definition UseGas (c : Contract) (gas : Z) : Contract * bool :=
  if Gas c <? gas then (c, false) else (with_Gas c (Gas c - gas), true).

Definition GetByte (c : Contract) (n : Z) : Z := if n <? len (Code c) then default 0 (Code c !! Z.to_nat n) else 0.

(** ** The environment of an execution *)

Record EVM := MkEVM {
  Origin : Address; GasPrice : Z; Coinbase : Address; GasLimit : Z; BlockNumber : Z; Time : Z; Difficulty : Z;
  GetHash : Z -> Hash;
  depth : Z;
  ByzantiumBlock : option Z;
  NoRecursion : bool;
  readOnly : bool;
  EnablePreimageRecording : bool
}.

Definition isForked (s : option Z) (head : Z) : bool :=
  match s with None => false | Some s => s <=? head end.
Definition IsByzantium (evm : EVM) : bool := isForked (ByzantiumBlock evm) (BlockNumber evm).

(** [evm.interpreter.readOnly = true] for the duration of a static call. *)
Definition as_readOnly (evm : EVM) : EVM :=
  MkEVM (Origin evm) (GasPrice evm) (Coinbase evm) (GasLimit evm) (BlockNumber evm) (Time evm) (Difficulty evm)
    (GetHash evm) (depth evm) (ByzantiumBlock evm) (NoRecursion evm) true (EnablePreimageRecording evm).

(** ** Precompiled contracts *)

Inductive PrecompiledContract :=
| ecrecover | sha256hash | ripemd160hash | dataCopy | bigModExp | bn256Add | bn256ScalarMul | bn256Pairing.

Definition PrecompiledContractsHomestead (a : Address) : option PrecompiledContract :=
  match a with 1 => Some ecrecover | 2 => Some sha256hash | 3 => Some ripemd160hash | 4 => Some dataCopy | _ => None end.
Definition PrecompiledContractsByzantium (a : Address) : option PrecompiledContract :=
  match a with
  | 1 => Some ecrecover | 2 => Some sha256hash | 3 => Some ripemd160hash | 4 => Some dataCopy
  | 5 => Some bigModExp | 6 => Some bn256Add | 7 => Some bn256ScalarMul | 8 => Some bn256Pairing
  | _ => None
  end.
Definition precompiles (evm : EVM) : Address -> option PrecompiledContract :=
  if IsByzantium evm then PrecompiledContractsByzantium else PrecompiledContractsHomestead.

(** The cost and the result of a precompiled contract: cryptography. *)
Class Precompiles := {
  RequiredGas : PrecompiledContract -> bytes -> Z;
  RunPrecompile : PrecompiledContract -> bytes -> bytes * option VmError
}.

(** [evm.interpreter.Run]: what the byte code does to the state, the bytes it
    returns, the gas it leaves and its error. *)
Class Interpreter := {
  InterpreterRun : forall {St : Type} {ops : StateOps St}, EVM -> Contract -> bytes -> SM St (bytes * Z * option VmError)
}.

(** [crypto.CreateAddress]: the list of the address and the nonce, each written by the
    RLP writer of its dynamic type, hashed. *)
Definition createAddress_type : Rlp.typ :=
  Rlp.TStruct [(Rlp.TByteArray 20, Rlp.notags); (Rlp.TUint 64, Rlp.notags)].
Definition CreateAddress (Keccak256Hash : bytes -> Hash) (b : Address) (nonce : Z) : Address :=
  let data := match Rlp.EncodeToBytes createAddress_type (Rlp.VList [Rlp.VBytes (address_bytes b); Rlp.VUint nonce]) with
              | Ret (inr d) => d
              | _ => []
              end in
  BytesToAddress (drop 12 (hash_bytes (Keccak256Hash data))).

(** ** Calls *)

Section Calls.
Context {St : Type} {ops : StateOps St} {pre : Precompiles} {interp : Interpreter} (Keccak256Hash : bytes -> Hash).

(** [core.CanTransfer] and [core.Transfer] *)
Definition CanTransfer (a : Address) (amount : Z) : SM St bool :=
  b ← Sdb.GetBalance a; mret (amount <=? b).
Definition Transfer (sender recipient : Address) (amount : Z) : SM St unit :=
  _ ← Sdb.SubBalance sender amount; Sdb.AddBalance recipient amount.

Definition RunPrecompiledContract (p : PrecompiledContract) (input : bytes) (c : Contract)
    : bytes * Contract * option VmError :=
  let gas := RequiredGas p input in
  match UseGas c gas with
  | (c, true) => let '(ret, err) := RunPrecompile p input in (ret, c, err)
  | (c, false) => ([], c, Some ErrOutOfGas)
  end.

Definition run (evm : EVM) (c : Contract) (input : bytes) : SM St (bytes * Contract * option VmError) :=
  match CodeAddr c ≫= precompiles evm with
  | Some p => mret (RunPrecompiledContract p input c)
  | None => '(ret, gas, err) ← InterpreterRun evm c input; mret (ret, with_Gas c gas, err)
  end.

(** On an error: back to the snapshot, and all gas is used unless the code reverted. *)
Definition handleError (snapshot : Z) (err : option VmError) (c : Contract) : SM St Contract :=
  match err with
  | None => mret c
  | Some e =>
      _ ← Sdb.RevertToSnapshot snapshot;
      mret (if decide (e = errExecutionReverted) then c else fst (UseGas c (Gas c)))
  end.

Definition SetCallCode_of (c : Contract) (addr : Address) : SM St Contract :=
  h ← Sdb.GetCodeHash addr; code ← Sdb.GetCode addr; mret (SetCallCode c addr h code).

(** The common end of the four kinds of call. *)
Definition runCall (evm : EVM) (snapshot : Z) (c : Contract) (input : bytes) : SM St (bytes * Z * option VmError) :=
  '(ret, c, err) ← run evm c input;
  c ← handleError snapshot err c;
  mret (ret, Gas c, err).

Definition Call (evm : EVM) (caller : ContractRef) (addr : Address) (input : bytes) (gas value : Z)
    : SM St (bytes * Z * option VmError) :=
  if NoRecursion evm && (0 <? depth evm) then mret ([], gas, None) else
  if CallCreateDepth <? depth evm then mret ([], gas, Some ErrDepth) else
  ok ← CanTransfer (ref_Address caller) value;
  if negb ok then mret ([], gas, Some ErrInsufficientBalance) else
  snapshot ← Sdb.Snapshot;
  exist ← Sdb.Exist addr;
  if negb exist && bool_decide (precompiles evm addr = None) && (value =? 0) then mret ([], gas, None) else
  _ ← (if negb exist then Sdb.CreateAccount addr else mret tt);
  _ ← Transfer (ref_Address caller) addr value;
  c ← SetCallCode_of (NewContract caller addr value gas) addr;
  runCall evm snapshot c input.

Definition CallCode (evm : EVM) (caller : ContractRef) (addr : Address) (input : bytes) (gas value : Z)
    : SM St (bytes * Z * option VmError) :=
  if NoRecursion evm && (0 <? depth evm) then mret ([], gas, None) else
  if CallCreateDepth <? depth evm then mret ([], gas, Some ErrDepth) else
  ok ← CanTransfer (ref_Address caller) value;
  if negb ok then mret ([], gas, Some ErrInsufficientBalance) else
  snapshot ← Sdb.Snapshot;
  c ← SetCallCode_of (NewContract caller (ref_Address caller) value gas) addr;
  runCall evm snapshot c input.

(** [value] is nil in the new contract until [AsDelegate] sets it. *)
Definition DelegateCall_ (evm : EVM) (caller : ContractRef) (addr : Address) (input : bytes) (gas : Z)
    : SM St (bytes * Z * option VmError) :=
  if NoRecursion evm && (0 <? depth evm) then mret ([], gas, None) else
  if CallCreateDepth <? depth evm then mret ([], gas, Some ErrDepth) else
  snapshot ← Sdb.Snapshot;
  match AsDelegate (NewContract caller (ref_Address caller) 0 gas) with
  | Panic => panic
  | Ret c =>
      c ← SetCallCode_of c addr;
      runCall evm snapshot c input
  end.

Definition StaticCall (evm : EVM) (caller : ContractRef) (addr : Address) (input : bytes) (gas : Z)
    : SM St (bytes * Z * option VmError) :=
  if NoRecursion evm && (0 <? depth evm) then mret ([], gas, None) else
  if CallCreateDepth <? depth evm then mret ([], gas, Some ErrDepth) else
  snapshot ← Sdb.Snapshot;
  c ← SetCallCode_of (NewContract caller addr 0 gas) addr;
  runCall (as_readOnly evm) snapshot c input.

Definition emptyCodeHash : Hash := Keccak256Hash [].

(** The end of [Create]: pay for storing the code, then handle errors. *)
Definition storeCode (contractAddr : Address) (ret : bytes) (err : option VmError) (c : Contract)
    : SM St (Contract * option VmError) :=
  if bool_decide (err = None) && negb (MaxCodeSize <? len ret) then
    match UseGas c (u64 (len ret * CreateDataGas)) with
    | (c, true) => _ ← Sdb.SetCode contractAddr ret; mret (c, err)
    | (c, false) => mret (c, Some ErrCodeStoreOutOfGas)
    end
  else mret (c, err).

Definition Create (evm : EVM) (caller : ContractRef) (code : bytes) (gas value : Z)
    : SM St (bytes * Address * Z * option VmError) :=
  if CallCreateDepth <? depth evm then mret ([], 0, gas, Some ErrDepth) else
  ok ← CanTransfer (ref_Address caller) value;
  if negb ok then mret ([], 0, gas, Some ErrInsufficientBalance) else
  nonce ← Sdb.GetNonce (ref_Address caller);
  _ ← Sdb.SetNonce (ref_Address caller) (u64 (nonce + 1));
  let contractAddr := CreateAddress Keccak256Hash (ref_Address caller) nonce in
  contractHash ← Sdb.GetCodeHash contractAddr;
  n ← Sdb.GetNonce contractAddr;
  if negb (n =? 0) || (negb (contractHash =? 0) && negb (contractHash =? emptyCodeHash))
  then mret ([], 0, 0, Some ErrContractAddressCollision) else
  snapshot ← Sdb.Snapshot;
  _ ← Sdb.CreateAccount contractAddr;
  _ ← Sdb.SetNonce contractAddr 1;
  _ ← Transfer (ref_Address caller) contractAddr value;
  let c := SetCallCode (NewContract caller contractAddr value gas) contractAddr (Keccak256Hash code) code in
  if NoRecursion evm && (0 <? depth evm) then mret ([], contractAddr, gas, None) else
  '(ret, c, err) ← run evm c [];
  let maxCodeSizeExceeded := MaxCodeSize <? len ret in
  '(c, err) ← storeCode contractAddr ret err c;
  c ← (if maxCodeSizeExceeded || (bool_decide (err <> None) && bool_decide (err <> Some ErrCodeStoreOutOfGas)) then
         _ ← Sdb.RevertToSnapshot snapshot;
         mret (if decide (err = Some errExecutionReverted) then c else fst (UseGas c (Gas c)))
       else mret c);
  let err := if maxCodeSizeExceeded && bool_decide (err = None) then Some errMaxCodeSizeExceeded else err in
  mret (ret, contractAddr, Gas c, err).

End Calls.

End Evm.
