(* ===== verification/EvmProps.v ===== *)
(** Message calls: what they promise about gas and about the state on every error
    path, proved on the specification of the state and transferred to the state
    database by simulation. *)

From S2P Require Import Prelude Params Bytes RlpEncode RlpDecode RlpRaw StateDB StateDBSpec StateDBRefine StateDBProps Evm.
Import State StateSpec StateRefine StateProps Evm.

(** ** Simulation *)

(** Same panics and results, related states. *)
Definition out_rel {S1 S2 A} (R : S1 -> S2 -> Prop) (r1 : outcome (S1 * A)) (r2 : outcome (S2 * A)) : Prop :=
  match r2 with
  | Panic => r1 = Panic
  | Ret (s2, x) => exists s1, r1 = Ret (s1, x) /\ R s1 s2
  end.

(** The operations of two states correspond. *)
Class Sim {S1 S2 : Type} {ops1 : StateOps S1} {ops2 : StateOps S2} (R : S1 -> S2 -> Prop) : Prop :=
  sim_step : forall o s1 s2, R s1 s2 -> out_rel R (sstep o s1) (sstep o s2).

Definition sim {S1 S2 A} (R : S1 -> S2 -> Prop) (m1 : SM S1 A) (m2 : SM S2 A) : Prop :=
  forall s1 s2, R s1 s2 -> out_rel R (m1 s1) (m2 s2).

(** What the EVM relies on of the interpreter: it only touches the state through the
    interface, uses no more than the gas it is given, leaves the snapshots taken before
    alone, keeps the state sane, and changes nothing in a static call. *)
Definition fresh_ids (m : Machine) : Prop := Forall (fun x => fst x < next m) (saved m).
Definition extends (m m' : Machine) : Prop :=
  exists l, saved m' = saved m ++ l /\ next m <= next m' /\ fresh_ids m'.

(** No account is in debt, and code has the length of a slice. *)
Definition sane_acct (x : Acct) : Prop := 0 <= a_balance x /\ len (default [] (a_code x)) < 2 ^ 62.
Definition sane (w : World) : Prop := forall a x, accts w a = Some x -> sane_acct x.

(** The accounts as the getters show them, refund and logs are the same. *)
Definition seen (K : bytes -> Hash) (w : World) (a : Address) : Acct := default (fresh K) (accts w a).
Definition quiet (K : bytes -> Hash) (w w' : World) : Prop :=
  (forall a, seen K w' a = seen K w a) /\ w_refund w' = w_refund w /\ w_logs w' = w_logs w /\ w_logSize w' = w_logSize w.

(** Writing is forbidden: the interpreter is read-only and the rules know about it. *)
Definition static (evm : EVM) : bool := readOnly evm && IsByzantium evm.

(** What a part of an execution does to the state. *)
Record progresses (K : bytes -> Hash) (evm : EVM) (m m' : Machine) : Prop := {
  pg_extends : extends m m';
  pg_sane : sane (cur m');
  pg_quiet : static evm = true -> quiet K (cur m) (cur m')
}.

(** Environments and contracts as the callers of the interpreter set them up. *)
Record run_pre (evm : EVM) (c : Contract) (input : bytes) : Prop := {
  rp_gas : is_u64 (Gas c); rp_value : 0 <= value c; rp_price : 0 <= GasPrice evm;
  rp_depth : 0 <= depth evm <= CallCreateDepth;
  rp_code : len (Evm.Code c) < 2 ^ 62; rp_input : len input < 2 ^ 62
}.

Definition Machine_ops (K : bytes -> Hash) : StateOps Machine := fun o m =>
  match astep K o m with Some p => Ret p | None => Panic end.

Class InterpreterSim `{Interpreter} : Prop :=
  run_sim : forall S1 S2 (ops1 : StateOps S1) (ops2 : StateOps S2) (R : S1 -> S2 -> Prop), Sim R ->
    forall evm c input, sim R (InterpreterRun evm c input) (InterpreterRun evm c input).

(** At depth [d0] and below. *)
Class InterpreterLaws (K : bytes -> Hash) `{Interpreter} (d0 : Z) : Prop := {
  laws_sim :: InterpreterSim;
  run_spec : forall evm c input m, fresh_ids m -> sane (cur m) -> run_pre evm c input -> d0 <= depth evm ->
    exists m' ret g err, InterpreterRun (ops:=Machine_ops K) evm c input m = Ret (m', (ret, g, err)) /\
      0 <= g <= Gas c /\ progresses K evm m m';
  run_empty : forall S (ops : StateOps S) evm c input (s : S), Evm.Code c = [] -> d0 <= depth evm <= CallCreateDepth ->
    InterpreterRun evm c input s = Ret (s, ([], Gas c, None))
}.

(** Gas costs are unsigned. *)
Class PrecompilesLaws `{Precompiles} : Prop := {
  RequiredGas_nonneg : forall p input, 0 <= RequiredGas p input
}.

Module EvmProps.

Section Sim.
Context {S1 S2 : Type} {ops1 : StateOps S1} {ops2 : StateOps S2} (R : S1 -> S2 -> Prop) {simR : Sim R}.

Lemma sim_ret {A} (x : A) : sim R (mret x) (mret x).
Proof. intros s1 s2 Hr. by exists s1. Qed.

Lemma sim_panic {A} : sim R (panic : SM S1 A) panic.
Proof. by intros s1 s2 Hr. Qed.

Lemma sim_bind {A B} (m1 : SM S1 A) m2 (k1 : A -> SM S1 B) k2 :
  sim R m1 m2 -> (forall x, sim R (k1 x) (k2 x)) -> sim R (m1 ≫= k1) (m2 ≫= k2).
Proof.
  intros Hm Hk s1 s2 Hr. unfold mbind, SM_bind. specialize (Hm s1 s2 Hr). unfold out_rel in Hm.
  destruct (m2 s2) as [[s2' x]|]; [|by rewrite Hm]. destruct Hm as (s1' & -> & Hr'). by apply Hk.
Qed.

Lemma sim_unit o : sim R (Sdb.unit_op o) (Sdb.unit_op o).
Proof.
  intros s1 s2 Hr. pose proof (sim_step o s1 s2 Hr) as Hs. unfold Sdb.unit_op. unfold out_rel in Hs.
  destruct (sstep o s2) as [[s2' x]|]; simpl; [|by rewrite Hs]. destruct Hs as (s1' & -> & Hr'). by exists s1'.
Qed.
Lemma sim_bool o : sim R (Sdb.bool_op o) (Sdb.bool_op o).
Proof.
  intros s1 s2 Hr. pose proof (sim_step o s1 s2 Hr) as Hs. unfold Sdb.bool_op. unfold out_rel in Hs.
  destruct (sstep o s2) as [[s2' x]|]; simpl; [|by rewrite Hs]. destruct Hs as (s1' & -> & Hr'). by exists s1'.
Qed.
Lemma sim_num o : sim R (Sdb.num_op o) (Sdb.num_op o).
Proof.
  intros s1 s2 Hr. pose proof (sim_step o s1 s2 Hr) as Hs. unfold Sdb.num_op. unfold out_rel in Hs.
  destruct (sstep o s2) as [[s2' x]|]; simpl; [|by rewrite Hs]. destruct Hs as (s1' & -> & Hr'). by exists s1'.
Qed.
Lemma sim_code o : sim R (Sdb.code_op o) (Sdb.code_op o).
Proof.
  intros s1 s2 Hr. pose proof (sim_step o s1 s2 Hr) as Hs. unfold Sdb.code_op. unfold out_rel in Hs.
  destruct (sstep o s2) as [[s2' x]|]; simpl; [|by rewrite Hs]. destruct Hs as (s1' & -> & Hr'). by exists s1'.
Qed.

End Sim.

Create HintDb sim discriminated.
#[export] Hint Resolve sim_ret sim_panic sim_unit sim_bool sim_num sim_code run_sim : sim.

Ltac unfold_ops :=
  unfold Sdb.CreateAccount, Sdb.SubBalance, Sdb.AddBalance, Sdb.GetBalance, Sdb.GetNonce, Sdb.SetNonce,
    Sdb.GetCodeHash, Sdb.GetCode, Sdb.SetCode, Sdb.GetCodeSize, Sdb.AddRefund, Sdb.GetRefund, Sdb.GetState,
    Sdb.SetState, Sdb.Suicide, Sdb.HasSuicided, Sdb.Exist, Sdb.Empty, Sdb.RevertToSnapshot, Sdb.Snapshot,
    Sdb.AddLog, Sdb.AddPreimage.

(** Simulation of a program by itself, following its structure. *)
Ltac sim_steps :=
  repeat first
    [ progress intros
    | progress unfold_ops
    | solve [auto with sim typeclass_instances]
    | apply sim_bind
    | match goal with |- sim _ (match ?x with _ => _ end) _ => destruct x eqn:?; cbn beta iota end
    | match goal with |- sim _ (let '(_, _) := ?x in _) _ => destruct x end ].

Section CallSim.
Context `{Precompiles} `{Interpreter} (K : bytes -> Hash) {isim : InterpreterSim}.
Context {S1 S2 : Type} {ops1 : StateOps S1} {ops2 : StateOps S2} (R : S1 -> S2 -> Prop) {simR : Sim R}.

Lemma run_sim' evm c input : sim R (run evm c input) (run evm c input).
Proof.
  unfold run. destruct (CodeAddr c ≫= precompiles evm); [apply sim_ret|].
  apply sim_bind; [by apply run_sim|]. intros [[? ?] ?]. apply sim_ret.
Qed.

Lemma runCall_sim evm i c input : sim R (runCall evm i c input) (runCall evm i c input).
Proof.
  unfold runCall. apply sim_bind; [apply run_sim'|]. intros [[ret c'] [e|]]; unfold handleError; sim_steps.
Qed.

Lemma SetCallCode_sim c a : sim R (SetCallCode_of c a) (SetCallCode_of c a).
Proof. unfold SetCallCode_of. sim_steps. Qed.

Lemma Transfer_sim a b v : sim R (Transfer a b v) (Transfer a b v).
Proof. unfold Transfer. sim_steps. Qed.

Lemma CanTransfer_sim a v : sim R (CanTransfer a v) (CanTransfer a v).
Proof. unfold CanTransfer. sim_steps. Qed.

#[local] Hint Resolve run_sim' runCall_sim SetCallCode_sim Transfer_sim CanTransfer_sim : sim.

Lemma Call_sim evm c a input gas v : sim R (Call evm c a input gas v) (Call evm c a input gas v).
Proof. unfold Call. sim_steps. Qed.

Lemma CallCode_sim evm c a input gas v : sim R (CallCode evm c a input gas v) (CallCode evm c a input gas v).
Proof. unfold CallCode. sim_steps. Qed.

Lemma DelegateCall_sim evm c a input gas : sim R (DelegateCall_ evm c a input gas) (DelegateCall_ evm c a input gas).
Proof. unfold DelegateCall_. sim_steps. Qed.

Lemma StaticCall_sim evm c a input gas : sim R (StaticCall evm c a input gas) (StaticCall evm c a input gas).
Proof. unfold StaticCall. sim_steps. Qed.

Lemma storeCode_sim a ret err c : sim R (storeCode a ret err c) (storeCode a ret err c).
Proof. unfold storeCode. sim_steps. Qed.
#[local] Hint Resolve storeCode_sim : sim.

Lemma Create_sim evm c code gas v : sim R (Create K evm c code gas v) (Create K evm c code gas v).
Proof. unfold Create. sim_steps. Qed.

End CallSim.

(** ** Calls on the specification *)

(** The program returns, in a state and with a result that satisfy [Q]. *)
Definition ens {S A} (m : SM S A) (s : S) (Q : S -> A -> Prop) : Prop :=
  exists s' x, m s = Ret (s', x) /\ Q s' x.

Lemma ens_ret {S A} (x : A) (s : S) (Q : S -> A -> Prop) : Q s x -> ens (mret x) s Q.
Proof. intros Hq. by exists s, x. Qed.

Lemma ens_bind {S A B} (m : SM S A) (k : A -> SM S B) s Q :
  ens m s (fun s' x => ens (k x) s' Q) -> ens (m ≫= k) s Q.
Proof. intros (s' & x & Hm & s'' & y & Hk & Hq). exists s'', y. unfold mbind, SM_bind. by rewrite Hm. Qed.

Lemma ens_mono {S A} (m : SM S A) s (P Q : S -> A -> Prop) :
  ens m s P -> (forall s' x, P s' x -> Q s' x) -> ens m s Q.
Proof. intros (s' & x & Hm & Hp) Hq. exists s', x. auto. Qed.

Section CallSpec.
Context `{Precompiles} `{Interpreter} (K : bytes -> Hash) {d0 : Z} {ilaws : InterpreterLaws K d0} {plaws : PrecompilesLaws}.
#[local] Instance machine_ops : StateOps Machine := Machine_ops K.

(** Operations that leave the saved copies alone. *)
Definition plain (o : op) : bool := match o with OSnapshot | ORevert _ => false | _ => true end.
Definition frame (m m' : Machine) : Prop := saved m' = saved m /\ next m' = next m.

Lemma plain_step o m : plain o = true -> exists m' r, astep K o m = Some (m', r) /\ frame m m'.
Proof.
  intros Hp. unfold frame. destruct o; try done; simpl; unfold step_world, answer; repeat case_match; eauto.
Qed.

Lemma frame_refl m : frame m m.
Proof. done. Qed.

(** *** Operations that keep the state sane, and those that change nothing *)

Definition balance_of (w : World) (a : Address) : Z := of_acct w a a_balance 0.

Definition sound_op (o : op) (w : World) : Prop :=
  match o with
  | OAddBalance a n | OSetBalance a n => 0 <= n
  | OSubBalance a n => n <= balance_of w a
  | OSetCode a c => len c < 2 ^ 62
  | OSnapshot | ORevert _ => False
  | _ => True
  end.

Definition quiet_op (o : op) (w : World) : Prop :=
  match o with
  | OAddBalance a n | OSubBalance a n => n = 0
  | OCreateAccount a => accts w a = None
  | OSetBalance _ _ | OSetNonce _ _ | OSetCode _ _ | OSetState _ _ _ | OSuicide _ | OAddLog _ | OAddRefund _
  | OSnapshot | ORevert _ => False
  | _ => True
  end.

Lemma sane_put w a x : sane w -> sane_acct x -> sane (put w a x).
Proof. intros Hw Hx b y. simpl. case_decide; [intros [= <-]; done|apply Hw]. Qed.
Lemma sane_mark w a : sane w -> sane (mark w a).
Proof. done. Qed.
Lemma sane_fresh : sane_acct (fresh K).
Proof. by vm_compute. Qed.
Lemma sane_ensure w a : sane w -> sane (ensure K w a).1 /\ sane_acct (ensure K w a).2 /\ a_balance (ensure K w a).2 = balance_of w a.
Proof.
  intros Hw. unfold ensure, balance_of, of_acct. destruct (accts w a) as [x|] eqn:E; simpl; [by eauto|].
  split_and!; [|apply sane_fresh|done]. apply sane_mark, sane_put; [done|apply sane_fresh].
Qed.
Lemma sane_modify w a f : sane w -> (forall x, sane_acct x -> a_balance x = balance_of w a -> sane_acct (f x)) -> sane (modify K w a f).
Proof.
  intros Hw Hf. unfold modify. destruct (sane_ensure w a Hw) as (H1 & H2 & H3). destruct (ensure K w a) as [w' x].
  apply sane_mark, sane_put; [done|]. by apply Hf.
Qed.

Lemma sane_step o m m' r : sound_op o (cur m) -> sane (cur m) -> astep K o m = Some (m', r) -> sane (cur m').
Proof.
  intros Ho Hs Ha. destruct o; simpl in *; unfold step_world, answer in *; try done;
    try (simplify_eq/=; apply sane_modify; [done|]; intros x [Hx1 Hx2] Hx; unfold sane_acct; simpl in *; split; [lia|done]).
  - pose proof (sane_ensure (cur m) a Hs) as (H1 & _). destruct (n =? 0).
    + destruct (ensure K (cur m) a) as [w x]. simplify_eq/=. by destruct (a_empty K x).
    + simplify_eq/=. apply sane_modify; [done|]. intros x [Hx1 Hx2] Hx. split; [simpl; lia|done].
  - destruct (n =? 0); simplify_eq/=; [by apply sane_ensure|]. apply sane_modify; [done|].
    intros x [Hx1 Hx2] Hx. split; [simpl; lia|done].
  - destruct (accts (cur m) a) as [x|] eqn:E; simplify_eq/=; [|done]. apply sane_mark, sane_put; [done|].
    destruct (Hs a x E). by split.
  - destruct (accts (cur m) a) as [x|] eqn:E; simplify_eq/=; [|by apply sane_mark, sane_put; [|apply sane_fresh]].
    apply sane_put; [done|]. destruct (Hs a x E). by split.
  - by simplify_eq/=.
  - by simplify_eq/=.
  - by simplify_eq/=.
  - by simplify_eq/=.
  - by simplify_eq/=.
  - by simplify_eq/=.
  - by simplify_eq/=.
  - by simplify_eq/=.
  - by simplify_eq/=.
  - by simplify_eq/=.
  - by simplify_eq/=.
  - by simplify_eq/=.
  - by simplify_eq/=.
  - by simplify_eq/=.
Qed.

Lemma quiet_refl w : quiet K w w.
Proof. done. Qed.
Lemma quiet_trans w1 w2 w3 : quiet K w1 w2 -> quiet K w2 w3 -> quiet K w1 w3.
Proof. intros (A1 & A2 & A3 & A4) (B1 & B2 & B3 & B4). split_and!; [|congruence..]. intros a. by rewrite B1. Qed.

Lemma quiet_ensure w a : quiet K w (ensure K w a).1.
Proof.
  unfold ensure. destruct (accts w a) as [x|] eqn:E; [done|]. split_and!; try done. intros b. unfold seen. simpl.
  case_decide; [subst; by rewrite E|done].
Qed.

Lemma quiet_step o m m' r : quiet_op o (cur m) -> astep K o m = Some (m', r) -> quiet K (cur m) (cur m').
Proof.
  intros Ho Ha. destruct o; simpl in *; unfold step_world, answer in *; try done; subst; try (by simplify_eq/=).
  - rewrite Z.eqb_refl in Ha. pose proof (quiet_ensure (cur m) a) as Hq. destruct (ensure K (cur m) a) as [w x]. simplify_eq/=.
    by destruct (a_empty K x).
  - rewrite Z.eqb_refl in Ha. simplify_eq/=. apply quiet_ensure.
  - rewrite Ho in Ha. simplify_eq/=. split_and!; try done. intros b. unfold seen. simpl. case_decide; [subst; by rewrite Ho|done].
Qed.

(** *** Progress of the specification *)

Lemma extends_refl m : fresh_ids m -> extends m m.
Proof. intros Hf. exists []. rewrite app_nil_r. by split_and!. Qed.
Lemma extends_trans m1 m2 m3 : extends m1 m2 -> extends m2 m3 -> extends m1 m3.
Proof.
  intros (l & H1 & H2 & _) (l' & H3 & H4 & H5). exists (l ++ l'). split_and!; [|lia|done].
  by rewrite H3, H1, <- app_assoc.
Qed.
Lemma extends_fresh m m' : extends m m' -> fresh_ids m'.
Proof. by intros (_ & _ & _ & ?). Qed.
Lemma frame_extends m m' : fresh_ids m -> frame m m' -> extends m m'.
Proof.
  intros Hf [Hs Hn]. exists []. rewrite app_nil_r. unfold fresh_ids in *. rewrite Hs, Hn. by split_and!.
Qed.

Lemma progresses_refl evm m : fresh_ids m -> sane (cur m) -> progresses K evm m m.
Proof. intros Hf Hs. split; [by apply extends_refl|done|done]. Qed.
Lemma progresses_trans evm m1 m2 m3 : progresses K evm m1 m2 -> progresses K evm m2 m3 -> progresses K evm m1 m3.
Proof.
  intros [E1 S1 Q1] [E2 S2 Q2]. split; [by eapply extends_trans|done|]. intros Hs. eapply quiet_trans; auto.
Qed.

Lemma step_progresses evm o m m' r : fresh_ids m -> sane (cur m) -> sound_op o (cur m) ->
  (static evm = true -> quiet_op o (cur m)) -> astep K o m = Some (m', r) -> progresses K evm m m' /\ frame m m'.
Proof.
  intros Hf Hs Ho Hq Ha. assert (Hp : plain o = true) by (by destruct o).
  destruct (plain_step o m Hp) as (m1 & r1 & Ha1 & Hfr). rewrite Ha in Ha1. injection Ha1 as <- <-.
  split; [|done]. split; [by apply frame_extends|by eapply sane_step|]. intros Hst. eapply quiet_step; eauto.
Qed.

(** One operation; [plain_op] applies the lemma for its kind of result. *)
Section Op.
Context (evm : EVM) (o : op) (m : Machine) (Hf : fresh_ids m) (Hs : sane (cur m)) (Ho : sound_op o (cur m))
  (Hq : static evm = true -> quiet_op o (cur m)).

Lemma ens_unit (Q : Machine -> unit -> Prop) :
  (forall m', progresses K evm m m' -> frame m m' -> Q m' tt) -> ens (Sdb.unit_op o) m Q.
Proof.
  intros HQ. assert (Hp : plain o = true) by (by destruct o). destruct (plain_step o m Hp) as (m' & r & Ha & _).
  destruct (step_progresses evm o m m' r Hf Hs Ho Hq Ha). exists m', tt.
  unfold Sdb.unit_op, sstep, machine_ops, Machine_ops. rewrite Ha. auto.
Qed.
Lemma ens_bool (Q : Machine -> bool -> Prop) :
  (forall m' b, progresses K evm m m' -> frame m m' -> Q m' b) -> ens (Sdb.bool_op o) m Q.
Proof.
  intros HQ. assert (Hp : plain o = true) by (by destruct o). destruct (plain_step o m Hp) as (m' & r & Ha & _).
  destruct (step_progresses evm o m m' r Hf Hs Ho Hq Ha). eexists m', _.
  unfold Sdb.bool_op, sstep, machine_ops, Machine_ops. rewrite Ha. simpl. auto.
Qed.
End Op.

(** Queries change nothing. *)
Lemma ens_GetNonce a m (Q : Machine -> Z -> Prop) : Q m (of_acct (cur m) a a_nonce 0) -> ens (Sdb.GetNonce a) m Q.
Proof. intros Hq. by eexists m, _. Qed.
Lemma ens_GetCodeHash a m (Q : Machine -> Z -> Prop) : (forall h, Q m h) -> ens (Sdb.GetCodeHash a) m Q.
Proof. intros Hq. by eexists m, _. Qed.
Lemma ens_GetBalance a m (Q : Machine -> Z -> Prop) : Q m (balance_of (cur m) a) -> ens (Sdb.GetBalance a) m Q.
Proof. intros Hq. by eexists m, _. Qed.
Lemma ens_GetCodeSize a m (Q : Machine -> Z -> Prop) : (forall n, Q m n) -> ens (Sdb.GetCodeSize a) m Q.
Proof. intros Hq. by eexists m, _. Qed.
Lemma ens_GetState a k m (Q : Machine -> Z -> Prop) : (forall v, Q m v) -> ens (Sdb.GetState a k) m Q.
Proof. intros Hq. by eexists m, _. Qed.
Lemma ens_Exist a m (Q : Machine -> bool -> Prop) : Q m (bool_decide (is_Some (accts (cur m) a))) -> ens (Sdb.Exist a) m Q.
Proof. intros Hq. by eexists m, _. Qed.
Lemma ens_Empty a m (Q : Machine -> bool -> Prop) : (forall b, Q m b) -> ens (Sdb.Empty a) m Q.
Proof. intros Hq. by eexists m, _. Qed.
Lemma ens_HasSuicided a m (Q : Machine -> bool -> Prop) : (forall b, Q m b) -> ens (Sdb.HasSuicided a) m Q.
Proof. intros Hq. by eexists m, _. Qed.
Lemma ens_GetCode a m (Q : Machine -> bytes -> Prop) : sane (cur m) -> (forall c, len c < 2 ^ 62 -> Q m c) -> ens (Sdb.GetCode a) m Q.
Proof.
  intros Hs Hq. eexists m, _. split; [done|]. simpl. unfold of_acct. destruct (accts (cur m) a) as [x|] eqn:E; [|by apply Hq].
  destruct (Hs a x E) as [_ Hl]. destruct (a_code x); [by apply Hq|by apply Hq].
Qed.

(** Copy [w] is saved under [id], above the copies [pre]. *)
Definition under (pre : list (Z * World)) (id : Z) (w : World) (m : Machine) : Prop :=
  (exists l, saved m = pre ++ (id, w) :: l) /\ Forall (fun x => fst x < id) pre /\ fresh_ids m.

Lemma under_extends pre id w m m' : under pre id w m -> extends m m' -> under pre id w m'.
Proof.
  intros ([l Hl] & Hp & _) (l' & Hs & _ & Hf). split; [|done]. exists (l ++ l').
  by rewrite Hs, Hl, <- app_assoc.
Qed.

Lemma under_fresh pre id w m : under pre id w m -> fresh_ids m.
Proof. by intros (_ & _ & ?). Qed.

(** Between a snapshot of [m0] and the end of its scope. *)
Definition within (evm : EVM) (m0 m : Machine) : Prop :=
  under (saved m0) (next m0) (cur m0) m /\ next m0 <= next m /\ sane (cur m) /\
  (static evm = true -> quiet K (cur m0) (cur m)).

Lemma within_progresses evm m0 m m' : within evm m0 m -> progresses K evm m m' -> within evm m0 m'.
Proof.
  intros (Hu & Hn & Hs & Hq) [He Hs' Hq']. split_and!; [by eapply under_extends| |done|].
  - destruct He as (_ & _ & ? & _). lia.
  - intros Hst. eapply quiet_trans; auto.
Qed.
Lemma within_fresh evm m0 m : within evm m0 m -> fresh_ids m.
Proof. intros (Hu & _). by eapply under_fresh. Qed.
Lemma within_end evm m0 m : within evm m0 m -> progresses K evm m0 m.
Proof.
  intros (([l Hl] & _ & Hf) & Hn & Hs & Hq). split; [|done|done]. exists ((next m0, cur m0) :: l). by split_and!.
Qed.

(** Taking a snapshot and going back to it. *)
Lemma ens_snapshot evm m Q : fresh_ids m -> sane (cur m) ->
  (forall m', cur m' = cur m -> within evm m m' -> Q m' (next m)) ->
  ens Sdb.Snapshot m Q.
Proof.
  intros Hf Hs Hq. eexists _, _. split; [done|]. simpl. apply Hq; simpl; [done|]. split_and!; [|simpl; lia|done|by intros _].
  split; [by eexists|]. split; [done|]. unfold fresh_ids in *. simpl. apply Forall_app. split; [|repeat constructor; simpl; lia].
  eapply Forall_impl; [exact Hf|]. simpl. lia.
Qed.

Lemma ens_revert evm m0 m Q : within evm m0 m -> Q (MkMachine (cur m0) (saved m0) (next m)) tt ->
  ens (Sdb.RevertToSnapshot (next m0)) m Q.
Proof.
  intros (([l Hl] & Hp & _) & _) Hq. exists (MkMachine (cur m0) (saved m0) (next m)), tt. split; [|done].
  unfold Sdb.RevertToSnapshot, Sdb.unit_op, sstep, machine_ops, Machine_ops. simpl.
  rewrite Hl, find_saved_app, find_saved_None; [|eapply Forall_impl; [exact Hp|]; simpl; lia].
  simpl. rewrite Z.eqb_refl. simpl. by rewrite app_nil_r.
Qed.

Lemma reverted_progresses evm m0 n : fresh_ids m0 -> sane (cur m0) -> next m0 <= n ->
  progresses K evm m0 (MkMachine (cur m0) (saved m0) n).
Proof.
  intros Hf Hs Hn. split; [|done|done]. exists []. rewrite app_nil_r. split_and!; [done|done|]. unfold fresh_ids in *. simpl.
  eapply Forall_impl; [exact Hf|]. simpl. lia.
Qed.

Lemma ens_run evm c input m Q : fresh_ids m -> sane (cur m) -> run_pre evm c input -> d0 <= depth evm ->
  (forall m' ret c' err, progresses K evm m m' -> 0 <= Gas c' <= Gas c -> Q m' (ret, c', err)) ->
  ens (run evm c input) m Q.
Proof.
  intros Hf Hs Hp Hd Hq. unfold run. destruct (CodeAddr c ≫= precompiles evm) as [p|].
  - pose proof (rp_gas _ _ _ Hp). apply ens_ret. unfold RunPrecompiledContract, UseGas. pose proof (RequiredGas_nonneg p input).
    destruct (Gas c <? RequiredGas p input) eqn:E; [|destruct (RunPrecompile p input)]; apply Hq;
      try (by apply progresses_refl); simpl; go_lia.
  - apply ens_bind. destruct (run_spec evm c input m Hf Hs Hp Hd) as (m' & ret & g & err & Hr & Hle & Hx).
    exists m', (ret, g, err). split; [done|]. by apply ens_ret, Hq.
Qed.

(** What every kind of call ensures. *)
Definition call_post (evm : EVM) (m : Machine) (gas : Z) (m' : Machine) (r : bytes * Z * option VmError) : Prop :=
  let '(_, g, err) := r in
  progresses K evm m m' /\ 0 <= g <= gas /\
  match err with
  | None => True
  | Some e => cur m' = cur m /\ saved m' = saved m /\
      (g = 0 \/ e = errExecutionReverted \/ (g = gas /\ (e = ErrDepth \/ e = ErrInsufficientBalance)))
  end.

(** What every kind of call expects. *)
Record call_pre (evm : EVM) (gas v : Z) (input : bytes) : Prop := {
  cp_gas : is_u64 gas; cp_value : 0 <= v; cp_price : 0 <= GasPrice evm; cp_depth : 0 <= d0 <= depth evm;
  cp_input : len input < 2 ^ 62
}.

Lemma ens_runCall evm c input m0 m : fresh_ids m0 -> sane (cur m0) -> within evm m0 m -> run_pre evm c input -> d0 <= depth evm ->
  ens (runCall evm (next m0) c input) m (call_post evm m0 (Gas c)).
Proof.
  intros Hf Hs Hw Hp Hd. unfold runCall. apply ens_bind. apply ens_run; [by eapply within_fresh|apply Hw|done|done|].
  intros m' ret c' err Hpr Hg'. pose proof (within_progresses _ _ _ _ Hw Hpr) as Hw'. apply ens_bind. unfold handleError.
  destruct err as [e|].
  - apply ens_bind. eapply ens_revert; [done|]. apply ens_ret, ens_ret. split_and!; simpl.
    + apply reverted_progresses; [done|done|]. apply Hw'.
    + case_decide; unfold UseGas; rewrite ?Z.ltb_irrefl; simpl; lia.
    + case_decide; unfold UseGas; rewrite ?Z.ltb_irrefl; simpl; lia.
    + done.
    + done.
    + case_decide; [by auto|]. left. unfold UseGas. rewrite Z.ltb_irrefl. simpl. lia.
  - apply ens_ret, ens_ret. split_and!; try done; try lia. by apply within_end.
Qed.

Lemma call_refused evm m gas e : fresh_ids m -> sane (cur m) -> is_u64 gas ->
  e = None \/ e = Some ErrDepth \/ e = Some ErrInsufficientBalance -> call_post evm m gas m ([], gas, e).
Proof.
  intros Hf Hs Hg He. split_and!; try go_lia; [by apply progresses_refl|].
  destruct e as [e|]; [|done]. split_and!; try done. right. right. split; [done|].
  destruct He as [|[[=]|[=]]]; by auto.
Qed.

Lemma ens_CanTransfer a v m Q : (forall b, (b = true -> v <= balance_of (cur m) a) -> Q m b) -> ens (CanTransfer a v) m Q.
Proof. intros Hq. eexists _, _. split; [done|]. apply Hq. intros. by bool_to_prop. Qed.

Lemma ensure_balance w a b : of_acct (ensure K w a).1 b a_balance 0 = of_acct w b a_balance 0 /\
  a_balance (ensure K w a).2 = of_acct w a a_balance 0.
Proof.
  unfold ensure, of_acct. destruct (accts w a) as [x|] eqn:Ea; [by rewrite ?Ea|]. simpl. rewrite ?Ea. split; [|done].
  case_decide as Eb; [|done]. subst b. by rewrite Ea.
Qed.

Lemma ens_Transfer evm a b v m Q : fresh_ids m -> sane (cur m) -> 0 <= v <= balance_of (cur m) a ->
  (static evm = true -> v = 0) -> (forall m', progresses K evm m m' -> Q m' tt) -> ens (Transfer a b v) m Q.
Proof.
  intros Hf Hs Hv Hst Hq. unfold Transfer. apply ens_bind. apply (ens_unit evm); [done|done|simpl; lia|done|].
  intros m1 Hp1 _. pose proof Hp1 as [He1 Hs1 _]. apply (ens_unit evm); [by eapply extends_fresh|done|simpl; lia|done|].
  intros m2 Hp2 _. apply Hq. by eapply progresses_trans.
Qed.

Lemma ens_SetCallCode c a m Q : sane (cur m) -> (forall h code, len code < 2 ^ 62 -> Q m (SetCallCode c a h code)) ->
  ens (SetCallCode_of c a) m Q.
Proof.
  intros Hs Hq. unfold SetCallCode_of. apply ens_bind, ens_GetCodeHash. intros h.
  apply ens_bind, ens_GetCode; [done|]. intros code Hl. by apply ens_ret, Hq.
Qed.

Lemma call_run_pre evm c gas v input a h code : call_pre evm gas v input -> depth evm <= CallCreateDepth ->
  Gas c = gas -> value c = v -> len code < 2 ^ 62 -> run_pre evm (SetCallCode c a h code) input.
Proof. intros [] Hd <- <- Hl. split; simpl; try done. lia. Qed.

Lemma ens_Call evm c a input gas v m : fresh_ids m -> sane (cur m) -> call_pre evm gas v input ->
  (static evm = true -> v = 0) -> ens (Call evm c a input gas v) m (call_post evm m gas).
Proof.
  intros Hf Hs Hp Hst. pose proof (cp_gas _ _ _ _ Hp) as Hg. unfold Call.
  destruct (_ && _); [by apply ens_ret, call_refused; auto|].
  destruct (_ <? _) eqn:Ed; [by apply ens_ret, call_refused; auto|]. bool_to_prop.
  apply ens_bind, ens_CanTransfer. intros [|] Hb; simpl; [|by apply ens_ret, call_refused; auto]. specialize (Hb eq_refl).
  apply ens_bind, (ens_snapshot evm); [done|done|]. intros m1 Hc Hw. apply ens_bind, ens_Exist. rewrite Hc.
  destruct (negb _ && _ && _).
  { apply ens_ret. split_and!; try done; try go_lia. by apply within_end. }
  assert (Hrest : forall m2, progresses K evm m1 m2 -> balance_of (cur m2) (ref_Address c) = balance_of (cur m) (ref_Address c) ->
    ens (_ ← Transfer (ref_Address c) a v;
    c ← SetCallCode_of (NewContract c a v gas) a; runCall evm (next m) c input) m2 (call_post evm m gas)).
  { intros m2 Hp2 Hb2. pose proof (within_progresses _ _ _ _ Hw Hp2) as Hw2. pose proof (cp_value _ _ _ _ Hp).
    apply ens_bind, (ens_Transfer evm); [by eapply within_fresh|apply Hw2|lia|done|]. intros m3 Hp3.
    pose proof (within_progresses _ _ _ _ Hw2 Hp3) as Hw3.
    apply ens_bind, ens_SetCallCode; [apply Hw3|]. intros h code Hl.
    apply (ens_runCall evm (SetCallCode (NewContract c a v gas) a h code)); [done|done|done| |apply Hp]. by eapply call_run_pre. }
  apply ens_bind. case_bool_decide as Ex; simpl.
  - apply ens_ret, Hrest; [|by rewrite Hc]. apply progresses_refl; [by eapply within_fresh|apply Hw].
  - assert (Hn : accts (cur m1) a = None) by (rewrite Hc; by apply eq_None_not_Some).
    destruct (plain_step (OCreateAccount a) m1 eq_refl) as (m2 & r & Ha & _). exists m2, tt.
    unfold Sdb.CreateAccount, Sdb.unit_op, sstep, machine_ops, Machine_ops. rewrite Ha. split; [done|]. apply Hrest.
    + eapply (step_progresses evm (OCreateAccount a)); [by eapply within_fresh|apply Hw|done|done|done].
    + simpl in Ha. rewrite Hn in Ha. unfold step_world in Ha. simplify_eq/=. unfold balance_of, of_acct. simpl.
      rewrite Hc in *. case_decide; [subst; by rewrite Hn|done].
Qed.

Lemma ens_CallCode evm c a input gas v m : fresh_ids m -> sane (cur m) -> call_pre evm gas v input ->
  ens (CallCode evm c a input gas v) m (call_post evm m gas).
Proof.
  intros Hf Hs Hp. pose proof (cp_gas _ _ _ _ Hp) as Hg. unfold CallCode.
  destruct (_ && _); [by apply ens_ret, call_refused; auto|].
  destruct (_ <? _) eqn:Ed; [by apply ens_ret, call_refused; auto|]. bool_to_prop.
  apply ens_bind, ens_CanTransfer. intros [|] _; simpl; [|by apply ens_ret, call_refused; auto].
  apply ens_bind, (ens_snapshot evm); [done|done|]. intros m1 Hc Hw. apply ens_bind, ens_SetCallCode; [apply Hw|]. intros h code Hl.
  apply (ens_runCall evm (SetCallCode (NewContract c _ v gas) a h code)); [done|done|done| |apply Hp]. by eapply call_run_pre.
Qed.

(** A static call is read-only whatever its caller is. *)
Lemma within_weaken evm evm' m0 m : (static evm = true -> static evm' = true) -> within evm' m0 m -> within evm m0 m.
Proof. intros Hi (? & ? & ? & ?). split_and!; auto. Qed.
Lemma call_post_weaken evm evm' m gas m' r : (static evm = true -> static evm' = true) ->
  call_post evm' m gas m' r -> call_post evm m gas m' r.
Proof. intros Hi. destruct r as [[ret g] err]. intros ([] & ?). split; [|done]. split; auto. Qed.

Lemma ens_StaticCall evm c a input gas m : fresh_ids m -> sane (cur m) -> call_pre evm gas 0 input ->
  ens (StaticCall evm c a input gas) m (call_post (as_readOnly evm) m gas).
Proof.
  intros Hf Hs Hp. pose proof (cp_gas _ _ _ _ Hp) as Hg. unfold StaticCall.
  destruct (_ && _); [by apply ens_ret, call_refused; auto|].
  destruct (_ <? _) eqn:Ed; [by apply ens_ret, call_refused; auto|]. bool_to_prop.
  apply ens_bind, (ens_snapshot (as_readOnly evm)); [done|done|]. intros m1 Hc Hw. apply ens_bind, ens_SetCallCode; [apply Hw|].
  intros h code Hl. apply (ens_runCall _ (SetCallCode (NewContract c a 0 gas) a h code)); [done|done|done| |apply Hp].
  eapply call_run_pre; [|done..]. by destruct Hp; split.
Qed.

Lemma ens_DelegateCall evm p ca pv a input gas m : fresh_ids m -> sane (cur m) -> call_pre evm gas pv input ->
  ens (DelegateCall_ evm (ParentContract p ca pv) a input gas) m (call_post evm m gas).
Proof.
  intros Hf Hs Hp. pose proof (cp_gas _ _ _ _ Hp) as Hg. unfold DelegateCall_.
  destruct (_ && _); [by apply ens_ret, call_refused; auto|].
  destruct (_ <? _) eqn:Ed; [by apply ens_ret, call_refused; auto|]. bool_to_prop.
  apply ens_bind, (ens_snapshot evm); [done|done|]. intros m1 Hc Hw. simpl. apply ens_bind, ens_SetCallCode; [apply Hw|].
  intros h code Hl. refine (ens_runCall evm (SetCallCode _ a h code) _ _ _ _ _ _ _ _); [done|done|done| |apply Hp]. by eapply call_run_pre.
Qed.

(** The world after the caller's nonce is increased. *)
Definition bumped (w : World) (a : Address) : World :=
  modify K w a (fun x => MkAcct (u64 (of_acct w a a_nonce 0 + 1)) (a_balance x) (a_codeHash x) (a_code x)
                           (a_storage x) (a_suicided x)).

(** What creation ensures. The error [ErrCodeStoreOutOfGas] is the exception: it is
    reported without going back to the snapshot. *)
Definition create_post (evm : EVM) (m : Machine) (caller : Address) (gas : Z) (m' : Machine)
    (r : bytes * Address * Z * option VmError) : Prop :=
  let '(_, _, g, err) := r in
  progresses K evm m m' /\ 0 <= g <= gas /\
  match err with
  | None | Some ErrCodeStoreOutOfGas => True
  | Some e =>
      cur m' = cur m /\ g = gas /\ (e = ErrDepth \/ e = ErrInsufficientBalance) \/
      cur m' = bumped (cur m) caller /\ (g = 0 \/ e = errExecutionReverted)
  end.

(** Creating is writing. *)
Section Create.
Context (evm : EVM) (Hst : static evm = false).

Lemma not_static {P : Prop} : static evm = true -> P.
Proof. by rewrite Hst. Qed.

Lemma ens_storeCode a ret err c m Q : fresh_ids m -> sane (cur m) -> 0 <= Gas c ->
  (forall m' c' err', progresses K evm m m' -> 0 <= Gas c' <= Gas c -> (err' = err \/ err' = Some ErrCodeStoreOutOfGas) ->
     (MaxCodeSize < len ret -> err' = err) -> Q m' (c', err')) ->
  ens (storeCode a ret err c) m Q.
Proof.
  intros Hf Hs Hg Hq. pose proof (progresses_refl evm m Hf Hs). unfold storeCode. destruct (bool_decide (err = None) && _) eqn:E.
  - unfold UseGas. pose proof (u64_range (len ret * CreateDataGas)).
    destruct (Gas c <? _) eqn:Eg; bool_to_prop.
    + apply ens_ret, Hq; auto; lia.
    + apply ens_bind. apply (ens_unit evm); [done|done|unfold sound_op, MaxCodeSize in *; lia|apply not_static|].
      intros m' Hp _. apply ens_ret, Hq; auto. simpl. go_lia.
  - apply ens_ret, Hq; auto; lia.
Qed.

(** The end of a creation, from the run of its code. *)
Lemma ens_create_end c a m0 m : fresh_ids m0 -> sane (cur m0) -> within evm m0 m -> run_pre evm c [] -> d0 <= depth evm ->
  ens ('(ret, c, err) ← run evm c [];
       let maxCodeSizeExceeded := MaxCodeSize <? len ret in
       '(c, err) ← storeCode a ret err c;
       c ← (if maxCodeSizeExceeded || (bool_decide (err <> None) && bool_decide (err <> Some ErrCodeStoreOutOfGas)) then
              _ ← Sdb.RevertToSnapshot (next m0);
              mret (if decide (err = Some errExecutionReverted) then c else fst (UseGas c (Gas c)))
            else mret c);
       let err := if maxCodeSizeExceeded && bool_decide (err = None) then Some errMaxCodeSizeExceeded else err in
       mret (ret, a, Gas c, err)) m
    (fun m' r => let '(_, _, g, err) := r in progresses K evm m0 m' /\ 0 <= g <= Gas c /\
       match err with
       | None | Some ErrCodeStoreOutOfGas => True
       | Some e => cur m' = cur m0 /\ (g = 0 \/ e = errExecutionReverted)
       end).
Proof.
  intros Hf Hs Hw Hp Hd. apply ens_bind, ens_run; [by eapply within_fresh|apply Hw|done|done|]. intros m1 ret c1 err1 Hp1 Hg1. cbv zeta.
  pose proof (within_progresses _ _ _ _ Hw Hp1) as Hw1.
  apply ens_bind, ens_storeCode; [by eapply within_fresh|apply Hw1|lia|]. intros m2 c2 err Hp2 Hg2 Herr Hmax.
  pose proof (within_progresses _ _ _ _ Hw1 Hp2) as Hw2. apply ens_bind. destruct (_ || _) eqn:Erev.
  - apply ens_bind. eapply ens_revert; [done|]. apply ens_ret, ens_ret.
    set (g := Gas _). assert (Hgz : 0 <= g <= Gas c /\ (g = 0 \/ err = Some errExecutionReverted)).
    { subst g. clear -Hg1 Hg2. destruct (decide _); [split; [lia|auto]|]. unfold UseGas. rewrite Z.ltb_irrefl. simpl. lia. }
    destruct Hgz as [Hgr Hgz]. split_and!; try lia.
    + apply reverted_progresses; [done|done|apply Hw2].
    + destruct (_ && bool_decide (err = None)) eqn:Em; [|destruct err as [[]|]]; try done; simpl; split; auto.
      all: bool_to_prop; destruct Hgz as [?|Hgz]; auto; simplify_eq; auto.
  - apply ens_ret, ens_ret. apply orb_false_iff in Erev as [Emax Erev]. rewrite Emax. simpl. split_and!; try lia.
    + by apply within_end.
    + apply andb_false_iff in Erev as [Erev|Erev]; bool_to_prop; destruct err as [[]|]; try done; naive_solver.
Qed.

Lemma ens_Create c code gas v m : fresh_ids m -> sane (cur m) -> call_pre evm gas v code ->
  ens (Create K evm c code gas v) m (create_post evm m (ref_Address c) gas).
Proof.
  intros Hf Hs Hpre. pose proof (cp_gas _ _ _ _ Hpre) as Hg. pose proof (cp_value _ _ _ _ Hpre) as Hv. unfold Create.
  assert (Href : forall e, e = ErrDepth \/ e = ErrInsufficientBalance ->
    create_post evm m (ref_Address c) gas m ([], 0, gas, Some e)).
  { intros e He. split_and!; [by apply progresses_refl|go_lia|go_lia|]. destruct He as [-> | ->]; left; auto. }
  destruct (_ <? _) eqn:Ed; [by apply ens_ret, Href; auto|]. bool_to_prop.
  apply ens_bind, ens_CanTransfer. intros [|] Hb; simpl; [|by apply ens_ret, Href; auto]. specialize (Hb eq_refl).
  set (m1 := MkMachine (bumped (cur m) (ref_Address c)) (saved m) (next m)).
  assert (Hp1 : progresses K evm m m1).
  { split; [by apply frame_extends| |apply not_static]. by apply sane_modify. }
  assert (Hb1 : balance_of (cur m1) (ref_Address c) = balance_of (cur m) (ref_Address c)).
  { simpl. unfold bumped, modify. destruct (sane_ensure (cur m) (ref_Address c) Hs) as (_ & _ & <-).
    destruct (ensure K (cur m) (ref_Address c)) as [w x]. unfold balance_of, of_acct. simpl. by rewrite decide_True. }
  pose proof Hp1 as [He1 Hs1 _]. assert (Hf1 : fresh_ids m1) by done.
  apply ens_bind, ens_GetNonce, ens_bind. eexists m1, tt. split; [reflexivity|].
  cbv zeta. set (a := CreateAddress _ _ _). apply ens_bind, ens_GetCodeHash. intros h.
  apply ens_bind, ens_GetNonce. destruct (_ || _).
  { apply ens_ret. split_and!; [done|lia|go_lia|]. right. auto. }
  apply ens_bind, (ens_snapshot evm); [done|done|]. intros m2 Hc Hw2.
  destruct (plain_step (OCreateAccount a) m2 eq_refl) as (m3 & r & Ha & _).
  destruct (step_progresses evm (OCreateAccount a) m2 m3 r) as [Hp3 _]; [by eapply within_fresh|apply Hw2|done|apply not_static|done|].
  assert (Hb3 : balance_of (cur m3) (ref_Address c) = balance_of (cur m) (ref_Address c)).
  { rewrite <- Hb1, <- Hc. simpl in Ha. unfold step_world in Ha. unfold balance_of, of_acct.
    destruct (accts (cur m2) a) as [x|] eqn:Ea; simplify_eq/=; case_decide as Eq; try done; rewrite Eq; by rewrite Ea. }
  pose proof (within_progresses _ _ _ _ Hw2 Hp3) as Hw3.
  apply ens_bind. exists m3, tt. unfold Sdb.CreateAccount, Sdb.unit_op at 1, sstep, machine_ops, Machine_ops. rewrite Ha. split; [done|].
  set (m4 := MkMachine (modify K (cur m3) a (fun x => MkAcct 1 (a_balance x) (a_codeHash x) (a_code x) (a_storage x) (a_suicided x)))
              (saved m3) (next m3)).
  destruct (step_progresses evm (OSetNonce a 1) m3 m4 RUnit) as [Hp4 _];
    [by eapply within_fresh|apply Hw3|done|apply not_static|done|].
  assert (Hb4 : balance_of (cur m4) (ref_Address c) = balance_of (cur m3) (ref_Address c)).
  { simpl. unfold modify. destruct (ensure_balance (cur m3) a (ref_Address c)) as [H1 H2]. unfold balance_of in *.
    destruct (ensure K (cur m3) a) as [w x]. unfold of_acct in *. simpl in *. case_decide as Eq; [by rewrite Eq, H2|done]. }
  pose proof (within_progresses _ _ _ _ Hw3 Hp4) as Hw4.
  apply ens_bind. exists m4, tt. split; [reflexivity|].
  apply ens_bind, (ens_Transfer evm); [by eapply within_fresh|apply Hw4|lia|apply not_static|]. intros m5 Hp5.
  pose proof (within_progresses _ _ _ _ Hw4 Hp5) as Hw5. destruct (_ && _).
  { apply ens_ret. split_and!; try done; try go_lia. eapply progresses_trans; [done|]. by apply within_end. }
  eapply ens_mono; [apply (ens_create_end (SetCallCode (NewContract c a v gas) a (K code) code) a m1); [done|done|done| |apply Hpre]|].
  { destruct Hpre. split; simpl; try done. lia. }
  intros m' [[[ret a'] g] err] (Hx & Hgr & He). split_and!; try (simpl in *; go_lia); [by eapply progresses_trans|].
  destruct err as [[]|]; try done; right; done.
Qed.

End Create.

End CallSpec.

(** ** On the state database *)

Section OnState.
Context {T DB : Type} {trie_ops : TrieOps T} {db_ops : DbOps DB T} (K : bytes -> Hash).
Context {laws : BackendLaws trie_ops db_ops K} `{Precompiles} `{Interpreter}.
Abbreviation StateDB := (State.StateDB (T:=T) (DB:=DB)).

(** [state.StateDB] implements [vm.StateDB]. *)
#[local] Instance StateDB_ops : StateOps StateDB := exec K.
#[local] Instance spec_ops : StateOps Machine := Machine_ops K.

(** The refund counter is a 64-bit number, now and in every saved copy. *)
Definition good (m : Machine) : Prop :=
  is_u64 (w_refund (cur m)) /\ Forall (fun x => is_u64 (w_refund (snd x))) (saved m).

Lemma find_saved_good id l pre w : Forall (fun x : Z * World => is_u64 (w_refund (snd x))) l ->
  find_saved id l = Some (pre, w) -> is_u64 (w_refund w) /\ Forall (fun x => is_u64 (w_refund (snd x))) pre.
Proof.
  intros Hl. revert pre. induction Hl as [|[i v] l Hv Hl IH]; intros pre Hf; simpl in Hf; [done|].
  destruct (i =? id); [by simplify_eq|]. destruct (find_saved id l) as [[pre' w']|] eqn:E; [|done]. simplify_eq/=.
  destruct (IH pre' eq_refl). split; [done|]. by constructor.
Qed.

Lemma ensure_refund w a : w_refund (ensure K w a).1 = w_refund w.
Proof. unfold ensure. by destruct (accts w a). Qed.
Lemma modify_refund w a f : w_refund (modify K w a f) = w_refund w.
Proof. unfold modify. pose proof (ensure_refund w a). by destruct (ensure K w a). Qed.

Lemma astep_good o m m' r : good m -> astep K o m = Some (m', r) -> good m'.
Proof.
  intros [Hc Hs] Ho. unfold good. destruct o; simpl in Ho; unfold step_world, answer in Ho.
  - pose proof (ensure_refund (cur m) a) as He. destruct (n =? 0); [destruct (ensure K (cur m) a)|];
      simplify_eq/=; rewrite ?modify_refund; [|done]. destruct (a_empty K _); simpl; by rewrite He.
  - destruct (n =? 0); simplify_eq/=; by rewrite ?modify_refund, ?ensure_refund.
  - simplify_eq/=. by rewrite modify_refund.
  - simplify_eq/=. by rewrite modify_refund.
  - simplify_eq/=. by rewrite modify_refund.
  - simplify_eq/=. by rewrite modify_refund.
  - destruct (accts (cur m) a); by simplify_eq/=.
  - destruct (accts (cur m) a); by simplify_eq/=.
  - by simplify_eq/=.
  - by simplify_eq/=.
  - simplify_eq/=. split; [apply u64_range|done].
  - by simplify_eq/=.
  - by simplify_eq/=.
  - by simplify_eq/=.
  - by simplify_eq/=.
  - by simplify_eq/=.
  - by simplify_eq/=.
  - by simplify_eq/=.
  - by simplify_eq/=.
  - by simplify_eq/=.
  - by simplify_eq/=.
  - by simplify_eq/=.
  - simplify_eq/=. split; [done|]. apply Forall_app. split; [done|]. by apply Forall_singleton.
  - destruct (find_saved id (saved m)) as [[pre w]|] eqn:E; [|done]. simplify_eq/=.
    by apply (find_saved_good id (saved m)).
Qed.

(** A state reached from a freshly opened one; see [rel_New]. *)
Definition impl (st : StateDB) (m : Machine) : Prop := rel K st m /\ good m.
Definition valid (st : StateDB) : Prop := exists m, impl st m.

#[export] Instance impl_sim : Sim impl.
Proof.
  intros o st m [Hr Hg]. pose proof (exec_refines K o st m Hr) as Ha. unfold sstep, spec_ops, Machine_ops, StateDB_ops.
  destruct (astep K o m) as [[m' r]|] eqn:E; [|done]. destruct Ha as (st' & He & Hr'). exists st'. split; [done|].
  split; [done|]. by eapply astep_good.
Qed.

Lemma lift_ens {A} (p1 : SM StateDB A) (p2 : SM Machine A) st m Q : sim impl p1 p2 -> impl st m -> ens p2 m Q ->
  exists st' m' x, p1 st = Ret (st', x) /\ impl st' m' /\ Q m' x.
Proof.
  intros Hs Hr (m' & x & Hm & Hq). specialize (Hs st m Hr). rewrite Hm in Hs. destruct Hs as (st' & Hp & Hr').
  eauto 10.
Qed.

(** The accounts as their getters show them, logs and refund: what a static call must
    leave alone. Only whether an untouched account exists is not among it. *)
Definition observer (o : op) : bool :=
  match o with
  | OEmpty _ | OGetBalance _ | OGetNonce _ | OGetCode _ | OGetCodeSize _ | OGetState _ _ | OHasSuicided _
  | OGetRefund | OGetLogs _ => true
  | _ => false
  end.
Definition answer_of (o : op) (st : StateDB) : option result := match exec K o st with Ret (_, r) => Some r | Panic => None end.
Definition same_answers (st st' : StateDB) : Prop := forall o, observer o = true -> answer_of o st' = answer_of o st.

Lemma seen_of_acct {A} w a (f : Acct -> A) none : f (fresh K) = none -> of_acct w a f none = f (seen K w a).
Proof. intros <-. unfold of_acct, seen. by destruct (accts w a). Qed.

Lemma quiet_answers m m' o : quiet K (cur m) (cur m') -> observer o = true -> snd <$> astep K o m' = snd <$> astep K o m.
Proof.
  intros (Hq & Hr & Hl & _) Ho. destruct o; try done; simpl; unfold answer; simpl; rewrite ?Hr, ?Hl; try done; do 2 f_equal.
  - rewrite !seen_of_acct by (unfold a_empty; simpl; by rewrite bool_decide_true). by rewrite Hq.
  - rewrite !seen_of_acct by done. by rewrite Hq.
  - rewrite !seen_of_acct by done. by rewrite Hq.
  - rewrite !seen_of_acct by done. by rewrite Hq.
  - rewrite !seen_of_acct by done. by rewrite Hq.
  - rewrite !seen_of_acct by done. by rewrite Hq.
  - rewrite !seen_of_acct by done. by rewrite Hq.
Qed.

Lemma impl_answer st m o : impl st m -> observer o = true -> answer_of o st = snd <$> astep K o m.
Proof.
  intros [Hr _] Ho. pose proof (exec_refines K o st m Hr) as Ha. unfold answer_of.
  destruct (astep K o m) as [[m' r]|]; [|by rewrite Ha]. destruct Ha as (st' & -> & _). done.
Qed.

Lemma sane_proper w w' : w ≡ w' -> sane w -> sane w'.
Proof.
  intros (Ha & _) Hs a x Hx. specialize (Ha a). rewrite Hx in Ha. inversion Ha as [y x' Hy E1 E2|]; subst.
  destruct (Hs a y (eq_sym E1)) as [H1 H2]. destruct Hy as (_ & Hb & _ & Hc & _). unfold sane_acct. by rewrite <- Hb, <- Hc.
Qed.
Lemma impl_sane st m : impl st m -> sane (world K st) <-> sane (cur m).
Proof. intros [Hr _]. pose proof (rel_cur _ _ _ Hr) as Hw. split; apply sane_proper; [done|by symmetry]. Qed.

(** What callers of the EVM rely on: it returns, within the gas, an error leaves the
    state as it was, no account gets in debt, and a static call changes nothing. *)
Definition call_ok (evm : EVM) (st : StateDB) (gas : Z) (r : outcome (StateDB * (bytes * Z * option VmError))) : Prop :=
  exists st' ret g err, r = Ret (st', (ret, g, err)) /\ valid st' /\ sane (world K st') /\ 0 <= g <= gas /\
  (static evm = true -> same_answers st st') /\
  match err with
  | None => True
  | Some e => world K st' ≡ world K st /\
      (g = 0 \/ e = errExecutionReverted \/ (g = gas /\ (e = ErrDepth \/ e = ErrInsufficientBalance)))
  end.

Lemma lift_call evm p1 p2 st m gas : sim impl p1 p2 -> impl st m -> ens p2 m (call_post K evm m gas) -> call_ok evm st gas (p1 st).
Proof.
  intros Hs Hr He. destruct (lift_ens _ _ _ _ _ Hs Hr He) as (st' & m' & [[ret g] err] & Hp & Hr' & [_ Hsane Hquiet] & Hg & Hq).
  exists st', ret, g, err. split_and!; try done; try lia; [by exists m'|by apply (impl_sane _ m')| |].
  { intros Hst o Ho. rewrite (impl_answer _ _ _ Hr Ho), (impl_answer _ _ _ Hr' Ho). by apply quiet_answers; auto. }
  destruct err as [e|]; [|done].
  destruct Hq as (Hc & _ & Hq). split; [|done]. rewrite (rel_cur _ _ _ (proj1 Hr')), Hc. symmetry. apply Hr.
Qed.

Lemma impl_fresh st m : impl st m -> fresh_ids m.
Proof. intros [Hr _]. by apply (rel_fresh K st). Qed.

Context {ilaws : InterpreterLaws K 0} {plaws : PrecompilesLaws}.

(** C8: message calls are transactional. Each of the four kinds of call returns on every
    valid state without panicking, leaves at most the gas it was given, and if it reports
    an error the whole world (accounts, code, storage, logs, refund) is as before the
    call; the gas is then all used, except when the code reverted or the call was refused
    for its depth or for lack of balance, which costs nothing. No account gets in debt.
    A call within a static call, and every static call itself, changes no balance, nonce,
    code, storage slot, log or refund at all. *)
Theorem calls_are_transactional evm c a input gas v p ca pv st : valid st -> sane (world K st) ->
  call_pre (d0:=0) evm gas v input -> 0 <= pv -> (static evm = true -> v = 0) ->
  call_ok evm st gas (Call evm c a input gas v st) /\
  call_ok evm st gas (CallCode evm c a input gas v st) /\
  call_ok evm st gas (DelegateCall_ evm (ParentContract p ca pv) a input gas st) /\
  call_ok (as_readOnly evm) st gas (StaticCall evm c a input gas st).
Proof.
  intros [m Hr] Hs Hp Hpv Hv. pose proof (impl_fresh st m Hr) as Hf. rewrite (impl_sane st m Hr) in Hs.
  assert (Hp0 : forall v', 0 <= v' -> call_pre (d0:=0) evm gas v' input) by (intros v' Hv'; by destruct Hp; split).
  split_and!.
  - by apply (lift_call _ _ _ _ m gas (Call_sim impl _ _ _ _ _ _) Hr), (ens_Call K (d0:=0)).
  - by apply (lift_call _ _ _ _ m gas (CallCode_sim impl _ _ _ _ _ _) Hr), (ens_CallCode K (d0:=0)).
  - by apply (lift_call _ _ _ _ m gas (DelegateCall_sim impl _ _ _ _ _) Hr), (ens_DelegateCall K (d0:=0)); auto.
  - by apply (lift_call _ _ _ _ m gas (StaticCall_sim impl _ _ _ _ _) Hr), (ens_StaticCall K (d0:=0)); auto with lia.
Qed.

(** What a creation ensures on the state database. *)
Definition create_ok (st : StateDB) (caller : Address) (gas : Z)
    (r : outcome (StateDB * (bytes * Address * Z * option VmError))) : Prop :=
  exists st' ret a g err, r = Ret (st', (ret, a, g, err)) /\ valid st' /\ sane (world K st') /\ 0 <= g <= gas /\
  match err with
  | None | Some ErrCodeStoreOutOfGas => True
  | Some e =>
      world K st' ≡ world K st /\ g = gas /\ (e = ErrDepth \/ e = ErrInsufficientBalance) \/
      world K st' ≡ bumped K (world K st) caller /\ (g = 0 \/ e = errExecutionReverted)
  end.

(** Contract creation returns on every valid state within its gas. A refused creation
    changes nothing; any other error but one leaves only the caller's nonce increased and
    all gas used (unless the code reverted). The exception is [ErrCodeStoreOutOfGas]. *)
Theorem create_error_effects evm c code gas v st : valid st -> sane (world K st) -> call_pre (d0:=0) evm gas v code ->
  static evm = false -> create_ok st (ref_Address c) gas (Create K evm c code gas v st).
Proof.
  intros [m Hi] Hs Hpre Hst. pose proof (impl_fresh st m Hi) as Hf. rewrite (impl_sane st m Hi) in Hs.
  destruct (lift_ens _ _ _ _ _ (Create_sim K impl evm c code gas v) Hi (ens_Create K evm Hst c code gas v m Hf Hs Hpre))
    as (st' & m' & [[[ret a] g] err] & Hp & Hi' & [_ Hs' _] & Hgr & Hq). pose proof Hi as [Hr _]. pose proof Hi' as [Hr' _].
  exists st', ret, a, g, err. split_and!; try done; try lia; [by exists m'|by apply (impl_sane _ m')|].
  assert (Hb : bumped K (cur m) (ref_Address c) ≡ bumped K (world K st) (ref_Address c)).
  { unfold bumped. rewrite (of_acct_proper (world K st) (cur m)) by (apply Hr || by intros x y (? & _)).
    apply modify_proper; [symmetry; apply Hr|]. intros x y (?&?&?&?&?&?). by repeat split. }
  assert (Hc : cur m' = cur m -> world K st' ≡ world K st).
  { intros Hc. rewrite (rel_cur _ _ _ Hr'), Hc. symmetry. apply Hr. }
  assert (Hd : cur m' = bumped K (cur m) (ref_Address c) -> world K st' ≡ bumped K (world K st) (ref_Address c)).
  { intros Hd. by rewrite (rel_cur _ _ _ Hr'), Hd. }
  destruct err as [[]|]; naive_solver.
Qed.

End OnState.

(** ** A small interpreter, for the witnesses *)

Module Toy.

(** Empty code stops. Other code writes a storage slot (and fails where writing is
    forbidden), then its first byte decides: 0xfd reverts, 0xfe fails, 0xf3 returns a
    hundred bytes. *)
Definition toy_run {St : Type} {ops : StateOps St} (evm : EVM) (c : Contract) (input : bytes)
    : SM St (bytes * Z * option VmError) :=
  match Evm.Code c with
  | [] => mret ([], Gas c, None)
  | b :: _ =>
      if static evm then mret ([], 0, Some errWriteProtection) else
      _ ← Sdb.SetState (self c) 1 2;
      mret (if b =? 0xfd then ([], Gas c, Some errExecutionReverted)
            else if b =? 0xfe then ([], 0, Some ErrOutOfGas)
            else if b =? 0xf3 then (replicate 100 1, Gas c, None)
            else ([], Gas c, None))
  end.
#[export] Instance toy : Interpreter := {| InterpreterRun := @toy_run |}.
#[export] Instance toy_precompiles : Precompiles := {|
  RequiredGas _ input := 15 + len input;
  RunPrecompile _ input := (input, None)
|}.

#[export] Instance toy_plaws : PrecompilesLaws.
Proof. split. intros p input. simpl. pose proof (len_nonneg input). lia. Qed.

#[export] Instance toy_laws K : InterpreterLaws K 0.
Proof.
  split.
  - intros S1 S2 o1 o2 R HR evm c input. simpl. unfold toy_run. destruct (Evm.Code c); [|destruct (static evm)]; sim_steps.
  - intros evm c input m Hf Hs [Hg _ _ _ _ _] _. simpl. unfold toy_run. pose proof (progresses_refl K evm m Hf Hs).
    destruct (Evm.Code c) as [|b code]; [by exists m, [], (Gas c), None; split_and!; try done; go_lia|].
    destruct (static evm) eqn:Est; [by exists m, [], 0, (Some errWriteProtection); split_and!; try done; go_lia|].
    destruct (plain_step K (OSetState (self c) 1 2) m eq_refl) as (m' & r & Ho & Hfr).
    unfold mbind, SM_bind, Sdb.SetState, Sdb.unit_op, sstep, Machine_ops. rewrite Ho. simpl.
    destruct (step_progresses K evm (OSetState (self c) 1 2) m m' r Hf Hs I ltac:(by rewrite Est) Ho) as [Hp _].
    repeat case_match; (do 4 eexists; split_and!; [reflexivity|go_lia|go_lia|done]).
  - intros S ops evm c input s Hc _. simpl. unfold toy_run. by rewrite Hc.
Qed.

Definition evm : EVM := MkEVM 7 2 99 8000000 1 1000 131072 (fun _ => 0) 0 (Some 0) false false false.

End Toy.
Import Toy Mem.

Lemma mem_valid : valid Mem.hash Mem.state.
Proof.
  eexists. split; [apply (rel_New Mem.hash 0 Mem.root_trie Mem.state); [reflexivity|apply Mem.state_wf]|].
  split; [simpl; go_lia|constructor].
Qed.

Lemma opened_sane k e acc : State.decodeAccount e = Some acc -> 0 <= State.Balance acc ->
  sane (world Mem.hash (Mem.opened {[ k := e ]})).
Proof.
  intros Hd Hb a x Hx. unfold world in Hx. cbn [accts] in Hx. apply fmap_Some in Hx as (o & Ho & ->).
  unfold peek in Ho. cbn [State.stateObjects opened] in Ho. rewrite lookup_empty in Ho. unfold load in Ho.
  cbn [State.trie opened TryGet mem_trie] in Ho. destruct (decide (k = address_bytes a)) as [->|Ha].
  - rewrite lookup_singleton_eq in Ho. destruct e as [|y e]; cbn [default] in Ho; unfold id in Ho; [done|].
    rewrite Hd in Ho. injection Ho as <-. split; [done|]. simpl. unfold code_of. simpl. by case_bool_decide.
  - by rewrite lookup_singleton_ne in Ho.
Qed.

Lemma mem_sane : sane (world Mem.hash Mem.state).
Proof. by apply (opened_sane _ _ Mem.account); vm_compute. Qed.

Lemma calls_are_transactional_witness :
  call_ok Mem.hash Toy.evm Mem.state 5000 (Call (ops:=StateDB_ops Mem.hash) Toy.evm (AccountRef 7) 4 [1; 2] 5000 6 Mem.state).
Proof.
  refine (proj1 (calls_are_transactional Mem.hash Toy.evm (AccountRef 7) 4 [1; 2] 5000 6 0 0 0 Mem.state _ _ _ _ _)).
  - apply mem_valid.
  - apply mem_sane.
  - split; vm_compute; try discriminate; split; discriminate.
  - lia.
  - discriminate.
Defined.

(** A creation by account 7 with value 5 and gas 1000. *)
Definition creation (code : bytes) :=
  match Create (ops:=StateDB_ops Mem.hash) Mem.hash Toy.evm (AccountRef 7) code 1000 5 Mem.state with
  | Ret p => p
  | Panic => (Mem.state, ([], 0, 0, None))
  end.
Definition created (code : bytes) : bytes * Address * Z * option VmError := (creation code).2.

Lemma create_error_effects_witness : exists st' ret a,
  Create (ops:=StateDB_ops Mem.hash) Mem.hash Toy.evm (AccountRef 7) [0xfe] 1000 5 Mem.state
    = Ret (st', (ret, a, 0, Some ErrOutOfGas)) /\
  world Mem.hash st' ≡ bumped Mem.hash (world Mem.hash Mem.state) 7.
Proof.
  destruct (create_error_effects Mem.hash Toy.evm (AccountRef 7) [0xfe] 1000 5 Mem.state mem_valid mem_sane
    ltac:(split; vm_compute; try discriminate; split; discriminate) eq_refl) as (st' & ret & a & g & err & Hc & _ & _ & _ & He).
  assert (Hr : (ret, a, g, err) = created [0xfe]) by (unfold created, creation; rewrite Hc; reflexivity).
  assert (Hg : (created [0xfe]).1.2 = 0 /\ (created [0xfe]).2 = Some ErrOutOfGas) by (vm_compute; split; reflexivity).
  rewrite <- Hr in Hg. simpl in Hg. destruct Hg as [-> ->]. exists st', ret, a. split; [exact Hc|].
  destruct He as [(_ & _ & [He|He])|[Hw _]]; [discriminate He|discriminate He|exact Hw].
Defined.

(** A creation that cannot pay for storing its code is not undone. The error
    [ErrCodeStoreOutOfGas] is returned, but the new account keeps the value it was sent
    and its nonce, without code, and the gas is not used up. *)
Theorem create_code_store_not_reverted :
  exists st' ret a, Create (ops:=StateDB_ops Mem.hash) Mem.hash Toy.evm (AccountRef 7) [0xf3] 1000 5 Mem.state
    = Ret (st', (ret, a, 1000, Some ErrCodeStoreOutOfGas)) /\
  (GetBalance Mem.hash st' a).2 = 5 /\ (GetNonce Mem.hash st' a).2 = 1 /\ (GetCodeSize Mem.hash st' a).2 = 0 /\
  (GetState Mem.hash st' a 1) = Ret (st', 2) /\ (GetBalance Mem.hash st' 7).2 = 5.
Proof.
  exists (creation [0xf3]).1, (created [0xf3]).1.1.1, (created [0xf3]).1.1.2.
  split_and!; vm_compute; reflexivity.
Qed.

End EvmProps.
