(* ===== verification/StateTransition.v ===== *)
(** Applying a message to the state ([core/state_transition.go],
    [core/gaspool.go]): nonce check, buying gas from the sender and from the block's
    gas pool, intrinsic gas, the EVM call, the refund and the fee. *)

From S2P Require Import Prelude Params Bytes StateDBSpec Evm.
Import Evm.

Module Transition.
#[local] Open Scope go_scope.

(** ** core/gaspool.go *)

Definition AddGas (gp amount : Z) : outcome Z :=
  if MaxUint64 - amount <? gp then Panic else Ret (gp + amount).
(** [None] is [ErrGasLimitReached]. *)
Definition SubGas (gp amount : Z) : option Z := if gp <? amount then None else Some (gp - amount).

(** ** core/state_transition.go *)

Inductive TxError :=
| ErrNonceTooHigh | ErrNonceTooLow | errInsufficientBalanceForGas | ErrGasLimitReached | TxVmError (e : VmError).

(** The interface [Message]; [To] is nil for a contract creation. *)
Record Message := MkMessage {
  From : Address; To : option Address; MsgGasPrice : Z; MsgGas : Z; MsgValue : Z; Nonce : Z; CheckNonce : bool;
  MsgData : bytes
}.

(** The fields of [StateTransition] that change. *)
Record StateTransition := MkTransition { gp : Z; gas : Z; initialGas : Z }.

Fixpoint count_nonzero (data : bytes) : Z :=
  match data with
  | [] => 0
  | b :: data => (if b =? 0 then 0 else 1) + count_nonzero data
  end.

Definition IntrinsicGas (data : bytes) (contractCreation : bool) : VmError + Z :=
  let gas := if contractCreation then TxGasContractCreation else TxGas in
  if 0 <? len data then
    let nz := count_nonzero data in
    if (MaxUint64 - gas) / TxDataNonZeroGas <? nz then inl ErrOutOfGas else
    let gas := gas +64 nz *64 TxDataNonZeroGas in
    let z := len data -64 nz in
    if (MaxUint64 - gas) / TxDataZeroGas <? z then inl ErrOutOfGas else
    inr (gas +64 z *64 TxDataZeroGas)
  else inr gas.

Definition useGas (st : StateTransition) (amount : Z) : VmError + StateTransition :=
  if gas st <? amount then inl ErrOutOfGas else inr (MkTransition (gp st) (gas st - amount) (initialGas st)).

Definition gasUsed (st : StateTransition) : Z := initialGas st -64 gas st.

Definition to (msg : Message) : Address := match To msg with None => 0 | Some a => a end.

Section Transition.
Context {St : Type} {ops : StateOps St} {pre : Precompiles} {interp : Interpreter} (Keccak256Hash : bytes -> Hash).

Definition buyGas (msg : Message) (st : StateTransition) : SM St (StateTransition * option TxError) :=
  let mgval := MsgGas msg * MsgGasPrice msg in
  b ← Sdb.GetBalance (From msg);
  if b <? mgval then mret (st, Some errInsufficientBalanceForGas) else
  match SubGas (gp st) (MsgGas msg) with
  | None => mret (st, Some ErrGasLimitReached)
  | Some gp =>
      let st := MkTransition gp (gas st +64 MsgGas msg) (MsgGas msg) in
      _ ← Sdb.SubBalance (From msg) mgval;
      mret (st, None)
  end.

Definition preCheck (msg : Message) (st : StateTransition) : SM St (StateTransition * option TxError) :=
  if CheckNonce msg then
    nonce ← Sdb.GetNonce (From msg);
    if nonce <? Nonce msg then mret (st, Some ErrNonceTooHigh)
    else if Nonce msg <? nonce then mret (st, Some ErrNonceTooLow)
    else buyGas msg st
  else buyGas msg st.

Definition refundGas (msg : Message) (st : StateTransition) : SM St StateTransition :=
  let refund := gasUsed st / 2 in
  r ← Sdb.GetRefund;
  let refund := if r <? refund then r else refund in
  let st := MkTransition (gp st) (gas st +64 refund) (initialGas st) in
  let remaining := gas st * MsgGasPrice msg in
  _ ← Sdb.AddBalance (From msg) remaining;
  match AddGas (gp st) (gas st) with
  | Panic => panic
  | Ret gp => mret (MkTransition gp (gas st) (initialGas st))
  end.

(** The call or creation: what it returns, the gas left and the error. *)
Definition execute (evm : EVM) (msg : Message) (g : Z) : SM St (bytes * Z * option VmError) :=
  match To msg with
  | None =>
      '(ret, _, g, vmerr) ← Create Keccak256Hash evm (AccountRef (From msg)) (MsgData msg) g (MsgValue msg);
      mret (ret, g, vmerr)
  | Some _ =>
      n ← Sdb.GetNonce (From msg);
      _ ← Sdb.SetNonce (From msg) (n +64 1);
      Call evm (AccountRef (From msg)) (to msg) (MsgData msg) g (MsgValue msg)
  end.

Definition TransitionDb (evm : EVM) (msg : Message) (st : StateTransition)
    : SM St (StateTransition * (TxError + bytes * Z * bool)) :=
  '(st, err) ← preCheck msg st;
  match err with
  | Some e => mret (st, inl e)
  | None =>
      match IntrinsicGas (MsgData msg) (bool_decide (To msg = None)) with
      | inl e => mret (st, inl (TxVmError e))
      | inr g =>
          match useGas st g with
          | inl e => mret (st, inl (TxVmError e))
          | inr st =>
              '(ret, g, vmerr) ← execute evm msg (gas st);
              let st := MkTransition (gp st) g (initialGas st) in
              if decide (vmerr = Some ErrInsufficientBalance) then mret (st, inl (TxVmError ErrInsufficientBalance)) else
              st ← refundGas msg st;
              _ ← Sdb.AddBalance (Coinbase evm) (gasUsed st * MsgGasPrice msg);
              mret (st, inr (ret, gasUsed st, bool_decide (vmerr <> None)))
          end
      end
  end.

(** [ApplyMessage]: the pool left and the result. *)
Definition ApplyMessage (evm : EVM) (msg : Message) (pool : Z) : SM St (Z * (TxError + bytes * Z * bool)) :=
  '(st, r) ← TransitionDb evm msg (MkTransition pool 0 0);
  mret (gp st, r).

End Transition.

End Transition.
