(* ===== verification/StateTransitionProps.v ===== *)
(** Applying a message: intrinsic gas, gas accounting between the sender, the coinbase
    and the block's gas pool, and what is left behind on every error. *)

From S2P Require Import Prelude Params Bytes RlpEncode RlpDecode RlpRaw StateDB StateDBSpec StateDBRefine StateDBProps Evm EvmProps StateTransition.
Import StateSpec StateRefine StateProps Evm EvmProps Transition.

Module TransitionProps.

(** ** Intrinsic gas *)

Lemma count_nonzero_bound data : 0 <= count_nonzero data <= len data.
Proof.
  induction data as [|b data IH]; [done|]. rewrite len_cons. simpl. destruct (b =? 0); lia.
Qed.

(** The gas a message costs before anything runs. *)
Definition intrinsic (data : bytes) (creation : bool) : Z :=
  (if creation then 53000 else 21000) + 68 * count_nonzero data + 4 * (len data - count_nonzero data).

Lemma IntrinsicGas_eq data creation : len data <= MaxUint64 ->
  IntrinsicGas data creation =
    if intrinsic data creation <=? MaxUint64 then inr (intrinsic data creation) else inl ErrOutOfGas.
Proof.
  intros Hl. pose proof (count_nonzero_bound data) as Hn. pose proof (len_nonneg data).
  unfold IntrinsicGas, intrinsic, TxGasContractCreation, TxGas, TxDataNonZeroGas, TxDataZeroGas.
  set (nz := count_nonzero data) in *. set (n := len data) in *. set (g := if creation then 53000 else 21000).
  assert (Hg : g = 53000 \/ g = 21000) by (unfold g; destruct creation; auto).
  destruct (0 <? n) eqn:E0.
  2:{ assert (nz = 0 /\ n = 0) as [-> ->] by go_lia. rewrite (proj2 (Z.leb_le _ _)) by go_lia. f_equal. lia. }
  destruct ((MaxUint64 - g) / 68 <? nz) eqn:E1.
  { rewrite (proj2 (Z.leb_gt _ _)); [done|]. div_lia. }
  rewrite (u64_id (nz * 68)) by div_lia. rewrite (u64_id (g + nz * 68)) by div_lia. rewrite (u64_id (n - nz)) by go_lia.
  destruct ((MaxUint64 - (g + nz * 68)) / 4 <? n - nz) eqn:E2.
  { rewrite (proj2 (Z.leb_gt _ _)); [done|]. div_lia. }
  rewrite (u64_id ((n - nz) * 4)) by div_lia. rewrite u64_id by div_lia.
  rewrite (proj2 (Z.leb_le _ _)) by div_lia. f_equal. lia.
Qed.

(** [IntrinsicGas] is 21000 (53000 for a creation) plus 68 for each non-zero and 4 for
    each zero byte of data, computed without wrapping around; it fails exactly when that
    number does not fit 64 bits. *)
Theorem intrinsic_gas_exact data creation : len data <= MaxUint64 ->
  (forall g, IntrinsicGas data creation = inr g <-> g = intrinsic data creation /\ g <= MaxUint64) /\
  (IntrinsicGas data creation = inl ErrOutOfGas <-> MaxUint64 < intrinsic data creation).
Proof.
  intros Hl. rewrite (IntrinsicGas_eq data creation Hl). destruct (_ <=? _) eqn:E; bool_to_prop; split.
  - intros g. split; [intros [= <-]; by split|by intros [-> _]].
  - split; [done|lia].
  - intros g. split; [done|lia].
  - done.
Qed.

Lemma intrinsic_gas_exact_witness : IntrinsicGas [0; 1; 2; 0] true = inr 53144.
Proof. apply intrinsic_gas_exact; [vm_compute; discriminate|split; [reflexivity|vm_compute; discriminate]]. Defined.

(** ** Accounting *)

Section Accounting.
Context {T DB : Type} {trie_ops : TrieOps T} {db_ops : DbOps DB T} (K : bytes -> Hash).
Context {laws : BackendLaws trie_ops db_ops K} {pre : Precompiles} {interp : Interpreter}.
Context {ilaws : InterpreterLaws K 0} {plaws : PrecompilesLaws}.
Abbreviation StateDB := (State.StateDB (T:=T) (DB:=DB)).
#[local] Instance on_state : StateOps StateDB := StateDB_ops K.
#[local] Instance on_spec : StateOps Machine := Machine_ops K.
#[local] Instance on_sim : Sim (impl K) := impl_sim K.

(** The balance of an account, and how an operation moves it. *)
Definition bal_of (st : StateDB) (b : Address) : Z := (State.GetBalance K st b).2.
Definition moved (st st' : StateDB) (a : Address) (n : Z) : Prop :=
  forall b, bal_of st' b = bal_of st b + (if decide (b = a) then n else 0).

(** The program returns in a valid state satisfying [Q]. *)
Definition ensS {A} (p : SM StateDB A) (st : StateDB) (Q : StateDB -> A -> Prop) : Prop :=
  exists st' x, p st = Ret (st', x) /\ valid K st' /\ Q st' x.

Lemma ensS_ret {A} (x : A) st (Q : StateDB -> A -> Prop) : valid K st -> Q st x -> ensS (mret x) st Q.
Proof. intros Hv Hq. by exists st, x. Qed.

Lemma ensS_bind {A B} (p : SM StateDB A) (k : A -> SM StateDB B) st Q :
  ensS p st (fun st' x => ensS (k x) st' Q) -> ensS (p ≫= k) st Q.
Proof. intros (s' & x & Hm & _ & s'' & y & Hk & Hv & Hq). exists s'', y. unfold mbind, SM_bind. by rewrite Hm. Qed.

Lemma rel_balance st m b : impl K st m -> bal_of st b = of_acct (cur m) b a_balance 0.
Proof.
  intros [Hr _]. pose proof (exec_refines K (OGetBalance b) st m Hr) as (st' & He & _). simpl in He.
  unfold give in He. unfold bal_of. by injection He as _ ->.
Qed.

(** One operation on a valid state, against the specification. *)
Lemma valid_step o st : plain o = true -> valid K st -> exists m m' r st', impl K st m /\ impl K st' m' /\
  astep K o m = Some (m', r) /\ exec K o st = Ret (st', r).
Proof.
  intros Hp [m Hr]. destruct (plain_step K o m Hp) as (m' & r & Ho & _).
  pose proof (sim_step o st m Hr) as Ha. unfold sstep, on_state, StateDB_ops, on_spec, Machine_ops in Ha. rewrite Ho in Ha.
  destruct Ha as (st' & He & Hr'). by exists m, m', r, st'.
Qed.

Lemma modify_balance w a f b : of_acct (modify K w a f) b a_balance 0 =
  if decide (b = a) then a_balance (f (ensure K w a).2) else of_acct w b a_balance 0.
Proof.
  unfold modify. destruct (ensure_balance K w a b) as [He _]. destruct (ensure K w a) as [w' x]. simpl in *.
  unfold of_acct in *. simpl. by case_decide.
Qed.

(** A sound operation keeps a valid state sane. *)
Lemma step_sane o st st' m m' r : impl K st m -> impl K st' m' -> sane (world K st) -> sound_op o (cur m) ->
  astep K o m = Some (m', r) -> sane (world K st').
Proof.
  intros Hr Hr' Hs Ho Ha. rewrite (impl_sane K st' m' Hr'). rewrite (impl_sane K st m Hr) in Hs. by eapply sane_step.
Qed.

Lemma AddBalance_moves a n st Q : valid K st ->
  (forall st', valid K st' -> moved st st' a n -> (0 <= n -> sane (world K st) -> sane (world K st')) -> Q st' tt) ->
  ensS (Sdb.AddBalance a n) st Q.
Proof.
  intros Hv Hq. destruct (valid_step (OAddBalance a n) st eq_refl Hv) as (m & m' & r & st' & Hr & Hr' & Ho & He).
  exists st', tt. unfold Sdb.AddBalance, Sdb.unit_op, sstep, on_state, StateDB_ops. rewrite He. split; [done|].
  assert (valid K st') by (by exists m'). split; [done|].
  apply Hq; [done| |by intros Hn Hs; apply (step_sane (OAddBalance a n) _ _ _ _ _ Hr Hr' Hs Hn Ho)]. intros b.
  rewrite (rel_balance _ _ b Hr), (rel_balance _ _ b Hr'). simpl in Ho. destruct (ensure_balance K (cur m) a b) as [H1 H2].
  destruct (n =? 0) eqn:En; bool_to_prop; subst.
  - destruct (ensure K (cur m) a) as [w x]. unfold step_world in Ho. simplify_eq/=.
    transitivity (of_acct w b a_balance 0); [by destruct (a_empty K x)|]. rewrite H1. case_decide; lia.
  - unfold step_world in Ho. simplify_eq/=. rewrite modify_balance. simpl. rewrite H2. case_decide; subst; lia.
Qed.

Lemma SubBalance_moves a n st Q : valid K st ->
  (forall st', valid K st' -> moved st st' a (- n) -> (n <= bal_of st a -> sane (world K st) -> sane (world K st')) -> Q st' tt) ->
  ensS (Sdb.SubBalance a n) st Q.
Proof.
  intros Hv Hq. destruct (valid_step (OSubBalance a n) st eq_refl Hv) as (m & m' & r & st' & Hr & Hr' & Ho & He).
  exists st', tt. unfold Sdb.SubBalance, Sdb.unit_op, sstep, on_state, StateDB_ops. rewrite He. split; [done|].
  assert (valid K st') by (by exists m'). split; [done|].
  apply Hq; [done| |].
  2:{ intros Hn Hs. apply (step_sane (OSubBalance a n) _ _ _ _ r Hr Hr' Hs); [|done]. simpl. unfold balance_of. by rewrite <- (rel_balance _ _ a Hr). }
  intros b. rewrite (rel_balance _ _ b Hr), (rel_balance _ _ b Hr'). simpl in Ho. destruct (ensure_balance K (cur m) a b) as [H1 H2].
  destruct (n =? 0) eqn:En; bool_to_prop; subst; unfold step_world in Ho; simplify_eq/=.
  - rewrite H1. case_decide; lia.
  - rewrite modify_balance. simpl. rewrite H2. case_decide; subst; lia.
Qed.

(** Queries of numbers change nothing. *)
Definition query (o : op) : bool :=
  match o with OGetNonce _ | OGetCodeHash _ | OGetBalance _ | OGetRefund => true | _ => false end.

Lemma GetBalance_spec a st Q : valid K st ->
  (forall st', valid K st' -> world K st' ≡ world K st -> Q st' (bal_of st a)) -> ensS (Sdb.GetBalance a) st Q.
Proof.
  intros Hv Hq. destruct (valid_step (OGetBalance a) st eq_refl Hv) as (m & m' & r & st' & Hr & Hr' & Ha & He).
  unfold answer in Ha. simpl in Ha. injection Ha as <- <-.
  eexists st', _. unfold Sdb.GetBalance, Sdb.num_op, sstep, on_state, StateDB_ops. rewrite He. split; [done|].
  assert (valid K st') by (by exists m). split; [done|]. rewrite <- (rel_balance _ _ a Hr). apply Hq; [done|].
  rewrite (rel_cur _ _ _ (proj1 Hr')). symmetry. apply Hr.
Qed.

(** A query keeps the world. *)
Lemma query_keeps o st Q : query o = true -> valid K st ->
  (forall st' n, valid K st' -> world K st' ≡ world K st -> Q st' n) -> ensS (Sdb.num_op o) st Q.
Proof.
  intros Ho Hv Hq. assert (Hp : plain o = true) by (by destruct o).
  destruct (valid_step o st Hp Hv) as (m & m' & r & st' & Hr & Hr' & Ha & He).
  assert (m' = m) as -> by (by destruct o; simplify_eq/=; unfold answer in Ha; simplify_eq).
  eexists st', _. unfold Sdb.num_op, sstep, on_state, StateDB_ops. rewrite He. split; [done|].
  assert (valid K st') by (by exists m). split; [done|]. apply Hq; [done|].
  rewrite (rel_cur _ _ _ (proj1 Hr')). symmetry. apply Hr.
Qed.

Lemma world_balance st st' b : valid K st -> valid K st' -> world K st' ≡ world K st -> bal_of st' b = bal_of st b.
Proof.
  intros [m Hr] [m' Hr'] Hw. rewrite (rel_balance _ _ b Hr), (rel_balance _ _ b Hr').
  apply of_acct_proper; [|by intros x y (_ & ? & _)].
  rewrite <- (rel_cur _ _ _ (proj1 Hr')), <- (rel_cur _ _ _ (proj1 Hr)). done.
Qed.

(** The refund counter of a valid state. *)
Lemma GetRefund_range st Q : valid K st ->
  (forall st' n, valid K st' -> world K st' ≡ world K st -> 0 <= n -> Q st' n) -> ensS Sdb.GetRefund st Q.
Proof.
  intros Hv Hq. destruct (valid_step OGetRefund st eq_refl Hv) as (m & m' & r & st' & Hr & Hr' & Ha & He).
  unfold answer in Ha. simpl in Ha. injection Ha as <- <-.
  eexists st', _. unfold Sdb.GetRefund, Sdb.num_op, sstep, on_state, StateDB_ops. rewrite He. split; [done|].
  assert (valid K st') by (by exists m). split; [done|]. apply Hq; [done| |].
  - rewrite (rel_cur _ _ _ (proj1 Hr')). symmetry. apply Hr.
  - destruct Hr as [_ [Hc _]]. go_lia.
Qed.

(** ** Running the message *)

Lemma execute_sim evm msg g : sim (impl K) (execute K evm msg g) (execute K evm msg g).
Proof.
  unfold execute. destruct (To msg).
  - apply sim_bind; [apply sim_num; apply _|]. intros n. apply sim_bind; [apply sim_unit; apply _|]. intros _.
    apply Call_sim. apply _.
  - apply sim_bind; [apply (Create_sim K); apply _|]. intros [[[? ?] ?] ?]. apply sim_ret.
Qed.

Lemma nonce_balance w a n b :
  of_acct (modify K w a (fun x => MkAcct n (a_balance x) (a_codeHash x) (a_code x) (a_storage x) (a_suicided x))) b a_balance 0
  = of_acct w b a_balance 0.
Proof.
  rewrite modify_balance. case_decide as E; [|done]. subst. simpl. apply ensure_balance. exact 0.
Qed.

(** What is assumed of a message and of the environment it runs in. *)
Record msg_pre (evm : EVM) (msg : Message) : Prop := {
  mp_gas : is_u64 (MsgGas msg); mp_price : 0 <= MsgGasPrice msg; mp_value : 0 <= MsgValue msg;
  mp_data : len (MsgData msg) < 2 ^ 62;
  mp_evm : 0 <= GasPrice evm /\ 0 <= depth evm /\ static evm = false
}.

Lemma msg_call_pre evm msg g : msg_pre evm msg -> 0 <= g <= MsgGas msg -> call_pre (d0:=0) evm g (MsgValue msg) (MsgData msg).
Proof. intros [Hg _ Hv Hd (? & ? & _)] Hle. split; try done. go_lia. Qed.

Lemma ens_execute evm msg g m : fresh_ids m -> sane (cur m) -> msg_pre evm msg -> 0 <= g <= MsgGas msg ->
  ens (execute K evm msg g) m (fun m' '(_, g', err) => 0 <= g' <= g /\ sane (cur m') /\
    (err = Some ErrInsufficientBalance ->
     forall b, of_acct (cur m') b a_balance 0 = of_acct (cur m) b a_balance 0)).
Proof.
  intros Hf Hs Hm Hg. pose proof (msg_call_pre evm msg g Hm Hg) as Hc. destruct (mp_evm _ _ Hm) as (_ & _ & Hst).
  unfold execute. destruct (To msg).
  - apply ens_bind, ens_GetNonce, ens_bind. eexists _, tt. split; [reflexivity|].
    eapply ens_mono; [apply (ens_Call K (d0:=0)); [done|by apply sane_modify|done|by rewrite Hst]|].
    intros m' [[ret g'] err] ([_ Hs' _] & Hg' & He). split_and!; try done; try lia.
    intros ->. destruct He as (-> & _ & _). intros b. apply nonce_balance.
  - apply ens_bind. eapply ens_mono; [by apply (ens_Create K (d0:=0))|]. intros m' [[[ret c] g'] err] ([_ Hs' _] & Hg' & He).
    apply ens_ret. split_and!; try done; try lia. intros ->. destruct He as [(-> & _ & _)|[-> _]]; [done|].
    intros b. apply nonce_balance.
Qed.

Lemma execute_on_state evm msg g st Q : valid K st -> sane (world K st) -> msg_pre evm msg -> 0 <= g <= MsgGas msg ->
  (forall st' ret g' err, valid K st' -> sane (world K st') -> execute K evm msg g st = Ret (st', (ret, g', err)) -> 0 <= g' <= g ->
     (err = Some ErrInsufficientBalance -> forall b, bal_of st' b = bal_of st b) -> Q st' (ret, g', err)) ->
  ensS (execute K evm msg g) st Q.
Proof.
  intros [m Hi] Hs Hm Hg Hq. rewrite (impl_sane K st m Hi) in Hs.
  destruct (lift_ens K _ _ _ _ _ (execute_sim evm msg g) Hi (ens_execute evm msg g m (impl_fresh K st m Hi) Hs Hm Hg))
    as (st' & m' & [[ret g'] err] & Hp & Hi' & Hg' & Hs' & He).
  assert (valid K st') by (by exists m'). exists st', (ret, g', err). split_and!; [done|done|].
  apply Hq; try done; [by apply (impl_sane K _ m')|].
  intros Hb b. rewrite (rel_balance _ _ b Hi), (rel_balance _ _ b Hi'). by apply He.
Qed.

(** Errors of the checks made before anything is changed. *)
Definition refused (e : TxError) : Prop := match e with TxVmError _ => False | _ => True end.

Abbreviation cost msg := (MsgGas msg * MsgGasPrice msg).

Lemma buyGas_spec msg t st st0 Q : valid K st -> world K st ≡ world K st0 -> valid K st0 -> sane (world K st0) ->
  (forall st' e, valid K st' -> world K st' ≡ world K st0 -> refused e -> Q st' (t, Some e)) ->
  (forall st', valid K st' -> sane (world K st') -> MsgGas msg <= gp t -> moved st0 st' (From msg) (- cost msg) ->
     Q st' (MkTransition (gp t - MsgGas msg) (u64 (gas t + MsgGas msg)) (MsgGas msg), None)) ->
  ensS (buyGas msg t) st Q.
Proof.
  intros Hv Hw Hv0 Hs Hno Hyes. unfold buyGas. apply ensS_bind, GetBalance_spec; [done|]. intros st1 Hv1 Hw1.
  assert (Hw' : world K st1 ≡ world K st0) by (by rewrite Hw1). destruct (bal_of st (From msg) <? _) eqn:Eb; [apply ensS_ret; [done|by apply Hno]|].
  unfold SubGas. destruct (gp t <? MsgGas msg) eqn:Eg; [apply ensS_ret; [done|by apply Hno]|]. bool_to_prop.
  apply ensS_bind, SubBalance_moves; [done|]. intros st2 Hv2 Hm Hs2. apply ensS_ret; [done|]. apply Hyes; [done| |done|].
  { apply Hs2; [|by eapply sane_proper; [symmetry|]]. rewrite (world_balance st st1 _ Hv Hv1 Hw1). lia. }
  intros b'. rewrite (Hm b'). f_equal. by apply world_balance.
Qed.

Lemma preCheck_spec msg t st Q : valid K st -> sane (world K st) ->
  (forall st' e, valid K st' -> world K st' ≡ world K st -> refused e -> Q st' (t, Some e)) ->
  (forall st', valid K st' -> sane (world K st') -> MsgGas msg <= gp t -> moved st st' (From msg) (- cost msg) ->
     Q st' (MkTransition (gp t - MsgGas msg) (u64 (gas t + MsgGas msg)) (MsgGas msg), None)) ->
  ensS (preCheck msg t) st Q.
Proof.
  intros Hv Hs Hno Hyes. unfold preCheck. destruct (CheckNonce msg); [|by apply (buyGas_spec msg t st st)].
  apply ensS_bind. apply query_keeps; [done|done|]. intros st1 n Hv1 Hw1.
  destruct (n <? _); [apply ensS_ret; [done|by apply Hno]|]. destruct (_ <? n); [apply ensS_ret; [done|by apply Hno]|].
  by apply (buyGas_spec msg t st1 st).
Qed.

(** After the run: the refund to the sender and to the pool. *)
Lemma refundGas_spec msg t st Q : valid K st -> 0 <= gp t -> 0 <= gas t <= initialGas t -> is_u64 (gp t + initialGas t) ->
  (forall st' r, valid K st' -> 0 <= r <= (initialGas t - gas t) / 2 ->
     moved st st' (From msg) ((gas t + r) * MsgGasPrice msg) ->
     (0 <= MsgGasPrice msg -> sane (world K st) -> sane (world K st')) ->
     Q st' (MkTransition (gp t + (gas t + r)) (gas t + r) (initialGas t))) ->
  ensS (refundGas msg t) st Q.
Proof.
  intros Hv Hp Hg Hu Hq. unfold refundGas, gasUsed. rewrite (u64_id (initialGas t - gas t)) by go_lia.
  apply ensS_bind, GetRefund_range; [done|]. intros st1 n Hv1 Hw1 Hn. cbv zeta.
  set (r := if n <? _ then n else _). assert (Hr : 0 <= r <= (initialGas t - gas t) / 2).
  { unfold r. destruct (n <? _) eqn:E; div_lia. }
  cbn [gas gp initialGas]. rewrite (u64_id (gas t + r)) by div_lia.
  apply ensS_bind, AddBalance_moves; [done|]. intros st2 Hv2 Hm Hs2. unfold AddGas.
  rewrite (proj2 (Z.ltb_ge _ _)) by div_lia. apply ensS_ret; [done|]. apply Hq; [done|done| |].
  2:{ intros Hpr Hs. apply Hs2; [apply Z.mul_nonneg_nonneg; lia|]. by eapply sane_proper; [symmetry|]. }
  intros b. rewrite (Hm b). f_equal. by apply world_balance.
Qed.

(** C2: gas accounting of a message. On every valid state [ApplyMessage] returns. Failed
    checks (nonce, balance for gas, block gas) change neither the state nor the pool. An
    applied message takes its whole gas allowance from the sender at its price, runs with
    the allowance less the intrinsic gas, is refunded at most half of what it used, and
    then the sender gets back exactly the unused gas, the coinbase is paid exactly the
    used gas and the pool is lower by exactly that amount. An error after the gas was bought
    (intrinsic gas, or balance for the transfer) returns neither the sender's payment
    nor the pool's gas. No account ever gets in debt. *)
Theorem apply_message_accounting evm msg pool st :
  valid K st -> sane (world K st) -> is_u64 pool -> msg_pre evm msg ->
  exists st' pool' r, ApplyMessage K evm msg pool st = Ret (st', (pool', r)) /\ valid K st' /\ sane (world K st') /\
  match r with
  | inl (TxVmError _) => pool' = pool - MsgGas msg /\ moved st st' (From msg) (- cost msg)
  | inl _ => pool' = pool /\ world K st' ≡ world K st
  | inr (ret, used, failed) =>
      let g0 := MsgGas msg - intrinsic (MsgData msg) (bool_decide (To msg = None)) in
      exists st0 st1 g err,
        moved st st0 (From msg) (- cost msg) /\
        execute K evm msg g0 st0 = Ret (st1, (ret, g, err)) /\ failed = bool_decide (err <> None) /\
        0 <= g <= g0 /\ (MsgGas msg - g) - (MsgGas msg - g) / 2 <= used <= MsgGas msg - g /\
        pool' = pool - used /\
        (forall b, bal_of st' b = bal_of st1 b
           + (if decide (b = From msg) then (MsgGas msg - used) * MsgGasPrice msg else 0)
           + (if decide (b = Coinbase evm) then used * MsgGasPrice msg else 0))
  end.
Proof.
  intros Hv Hs Hp Hmp. pose proof (mp_gas _ _ Hmp) as Hg. assert (Hl : len (MsgData msg) <= MaxUint64) by (destruct Hmp; go_lia).
  unfold ApplyMessage.
  match goal with |- exists st' pool' r, ?p st = _ /\ _ /\ @?Q st' pool' r =>
    enough (ensS p st (fun st' x => Q st' x.1 x.2)) as (st' & [pool' r] & ? & ? & ?) by (by exists st', pool', r) end.
  apply ensS_bind. unfold TransitionDb. apply ensS_bind, preCheck_spec; [done|done| |].
  { intros st' e Hv' Hw He. apply ensS_ret, ensS_ret; [done|done|]. split; [by eapply sane_proper; [symmetry|]|by destruct e]. }
  intros st1 Hv1 Hs1 Hle Hm. cbn [gp gas initialGas] in *. rewrite (u64_id (0 + MsgGas msg)) by go_lia.
  rewrite (IntrinsicGas_eq _ _ Hl). set (ig := intrinsic _ _). destruct (ig <=? MaxUint64) eqn:Ei.
  2:{ apply ensS_ret, ensS_ret; by try done. }
  unfold useGas. cbn [gas]. destruct (0 + MsgGas msg <? ig) eqn:Eu; [by apply ensS_ret, ensS_ret|].
  assert (Hig : 0 <= ig).
  { unfold ig, intrinsic. pose proof (count_nonzero_bound (MsgData msg)). destruct (bool_decide _); lia. }
  bool_to_prop. cbn [gp gas initialGas]. replace (0 + MsgGas msg - ig) with (MsgGas msg - ig) by lia.
  apply ensS_bind, execute_on_state; [done|done|done|lia|]. intros st2 ret g err Hv2 Hs2 He Hgr Hins.
  cbn [gp gas initialGas]. destruct (decide (err = Some ErrInsufficientBalance)) as [Herr|Herr].
  { apply ensS_ret, ensS_ret; [done|done|]. split; [done|]. split; [done|]. intros b. rewrite (Hins Herr b). apply Hm. }
  apply ensS_bind, refundGas_spec; cbn [gp gas initialGas]; [done|lia|lia|go_lia|].
  intros st3 rf Hv3 Hrf Hm3 Hs3. assert (Hused : gasUsed (MkTransition (pool - MsgGas msg + (g + rf)) (g + rf) (MsgGas msg)) = MsgGas msg - (g + rf)).
  { unfold gasUsed. cbn [gas initialGas]. apply u64_id. div_lia. }
  apply ensS_bind, AddBalance_moves; [done|]. intros st4 Hv4 Hm4 Hs4. rewrite Hused in *. apply ensS_ret, ensS_ret; [done|done|].
  cbn [fst snd gp]. split.
  { pose proof (mp_price _ _ Hmp). apply Hs4; [apply Z.mul_nonneg_nonneg; div_lia|]. by apply Hs3. }
  exists st1, st2, g, err. split_and!; try done; try div_lia.
  intros b. rewrite (Hm4 b), (Hm3 b). case_decide; case_decide; lia.
Qed.

(** ** Plain transfers *)

Definition balw (w : World) (b : Address) : Z := of_acct w b a_balance 0.
Definition codew (w : World) (b : Address) : bytes := default [] (of_acct w b a_code None).

(** The world changes in nothing but nonces, existence of accounts, and the balance of one. *)
Record moves (w w' : World) (a : Address) (n : Z) : Prop := {
  mv_bal : forall b, balw w' b = balw w b + (if decide (b = a) then n else 0);
  mv_code : forall b, codew w' b = codew w b;
  mv_refund : w_refund w' = w_refund w
}.

Lemma ensure_code w a b : codew (ensure K w a).1 b = codew w b /\ default [] (a_code (ensure K w a).2) = codew w a.
Proof.
  unfold ensure, codew, of_acct. destruct (accts w a) as [x|] eqn:Ea; simpl; rewrite ?Ea; [done|]. split; [|done].
  case_decide; [subst; by rewrite Ea|done].
Qed.

Lemma modify_moves w a f n : (forall x, a_balance (f x) = a_balance x + n) -> (forall x, a_code (f x) = a_code x) ->
  moves w (modify K w a f) a n.
Proof.
  intros Hb Hc. split; [..|apply modify_refund].
  - intros b. unfold balw. rewrite modify_balance, Hb. destruct (ensure_balance K w a b) as [_ He].
    case_decide; [subst|]; lia.
  - intros b. unfold modify. destruct (ensure_code w a b) as [H1 H2]. destruct (ensure K w a) as [w' x]. simpl in *.
    unfold codew, of_acct in *. simpl. case_decide; [subst; by rewrite Hc|done].
Qed.

Lemma AddBalance_mv a n m m' r : astep K (OAddBalance a n) m = Some (m', r) -> moves (cur m) (cur m') a n.
Proof.
  intros Ho. simpl in Ho. unfold step_world in Ho. destruct (n =? 0) eqn:En; bool_to_prop; subst.
  - pose proof (ensure_balance K (cur m) a) as Hb. pose proof (ensure_code (cur m) a) as Hc.
    pose proof (ensure_refund K (cur m) a) as Hr. destruct (ensure K (cur m) a) as [w x]. simplify_eq/=.
    assert (Hw : moves (cur m) w a 0).
    { split; [|by apply Hc|done]. intros b. unfold balw. destruct (Hb b) as [-> _]. case_decide; lia. }
    destruct Hw. by destruct (a_empty K x).
  - simplify_eq/=. by apply modify_moves.
Qed.

Lemma SubBalance_mv a n m m' r : astep K (OSubBalance a n) m = Some (m', r) -> moves (cur m) (cur m') a (- n).
Proof.
  intros Ho. simpl in Ho. unfold step_world in Ho. destruct (n =? 0) eqn:En; bool_to_prop; subst; simplify_eq/=.
  - split; [|by intros b; apply ensure_code|apply ensure_refund].
    intros b. unfold balw. destruct (ensure_balance K (cur m) a b) as [-> _]. case_decide; lia.
  - apply modify_moves; [|done]. intros x. simpl. lia.
Qed.

Lemma SetNonce_mv a n m m' r : astep K (OSetNonce a n) m = Some (m', r) -> moves (cur m) (cur m') a 0.
Proof. intros Ho. simpl in Ho. unfold step_world in Ho. simplify_eq/=. apply modify_moves; [|done]. intros x. simpl. lia. Qed.

Lemma CreateAccount_mv a m m' r : accts (cur m) a = None -> astep K (OCreateAccount a) m = Some (m', r) ->
  moves (cur m) (cur m') a 0.
Proof.
  intros Ha Ho. simpl in Ho. rewrite Ha in Ho. unfold step_world in Ho. simplify_eq/=. split; [..|done]; intros b.
  - unfold balw, of_acct. simpl. case_decide; [subst; by rewrite Ha|lia].
  - unfold codew, of_acct. simpl. case_decide; [subst; by rewrite Ha|done].
Qed.

(** The same for programs. *)
Lemma ens_mv o a n m Q : plain o = true ->
  (forall m' r, astep K o m = Some (m', r) -> moves (cur m) (cur m') a n) ->
  (forall m', frame m m' -> moves (cur m) (cur m') a n -> Q m' tt) -> ens (Sdb.unit_op o) m Q.
Proof.
  intros Hp Hm Hq. destruct (plain_step K o m Hp) as (m' & r & Ho & Hf). exists m', tt.
  unfold Sdb.unit_op, sstep, on_spec, Machine_ops. rewrite Ho. split; [done|]. apply Hq; [done|]. by eapply Hm.
Qed.

(** The code of an account without code does nothing. *)
Lemma run_no_code evm c input (s : Machine) : depth evm = 0 -> Evm.Code c = [] -> CodeAddr c ≫= precompiles evm = None ->
  run evm c input s = Ret (s, ([], c, None)).
Proof.
  intros Hd Hc Hp. unfold run. rewrite Hp. unfold mbind, SM_bind. rewrite (run_empty (K:=K) (d0:=0)) by (done || by rewrite Hd). by destruct c.
Qed.

Lemma ens_plain_call evm from a input g v m : depth evm = 0 -> precompiles evm a = None -> codew (cur m) a = [] ->
  v <= balw (cur m) from ->
  ens (Call evm (AccountRef from) a input g v) m (fun m' r => r = ([], g, None) /\ w_refund (cur m') = w_refund (cur m) /\
    forall b, balw (cur m') b = balw (cur m) b - (if decide (b = from) then v else 0) + (if decide (b = a) then v else 0)).
Proof.
  intros Hd Hp Hc Hv. unfold Call. rewrite Hd, andb_false_r by done. simpl.
  apply ens_bind. eexists m, (v <=? balw (cur m) from). split; [reflexivity|]. rewrite (proj2 (Z.leb_le _ _) Hv). simpl.
  apply ens_bind. eexists (MkMachine (cur m) _ _), _. split; [reflexivity|].
  set (m1 := MkMachine (cur m) _ _). apply ens_bind. eexists m1, (bool_decide (is_Some (accts (cur m) a))). split; [reflexivity|].
  rewrite (bool_decide_true (precompiles evm a = None)), andb_true_r by done.
  destruct (negb _ && (v =? 0)) eqn:Ez.
  { apply ens_ret. split_and!; [done|done|]. intros b. bool_to_prop. repeat case_decide; simpl; lia. }
  assert (Hrest : forall m2, (forall b, balw (cur m2) b = balw (cur m) b) -> codew (cur m2) a = [] -> w_refund (cur m2) = w_refund (cur m) ->
    ens (_ ← Transfer from a v; c ← SetCallCode_of (NewContract (AccountRef from) a v g) a; runCall evm (next m) c input) m2
      (fun m' r => r = ([], g, None) /\ w_refund (cur m') = w_refund (cur m) /\
         forall b, balw (cur m') b = balw (cur m) b - (if decide (b = from) then v else 0) + (if decide (b = a) then v else 0))).
  { intros m2 Hb2 Hc2 Hr2. apply ens_bind. unfold Transfer. apply ens_bind.
    apply (ens_mv (OSubBalance from v) from (- v)); [done|apply SubBalance_mv|]. intros m3 _ [Hb3 Hc3 Hr3].
    apply (ens_mv (OAddBalance a v) a v); [done|apply AddBalance_mv|]. intros m4 _ [Hb4 Hc4 Hr4].
    apply ens_bind. unfold SetCallCode_of. apply ens_bind. eexists m4, _. split; [reflexivity|].
    apply ens_bind. eexists m4, (codew (cur m4) a). split.
    { unfold codew, Sdb.GetCode, Sdb.code_op. simpl. unfold of_acct. by destruct (accts (cur m4) a) as [[? ? ? [?|] ? ?]|]. }
    apply ens_ret. unfold runCall. apply ens_bind. eexists m4, _. split.
    { apply run_no_code; [done| |done]. simpl. congruence. }
    apply ens_ret. split_and!; [done|congruence|]. intros b. rewrite Hb4, Hb3, Hb2. repeat case_decide; lia. }
  apply ens_bind. case_bool_decide as Ex; simpl.
  - apply ens_ret, Hrest; [done|done|done].
  - apply (ens_mv (OCreateAccount a) a 0); [done| |].
    { intros m' r. apply CreateAccount_mv. by apply eq_None_not_Some. }
    intros m2 _ [Hb2 Hc2 Hr2]. apply Hrest; [|by rewrite Hc2|done]. intros b. rewrite Hb2. simpl. case_decide; lia.
Qed.

Lemma ApplyMessage_sim evm msg pool : sim (impl K) (ApplyMessage K evm msg pool) (ApplyMessage K evm msg pool).
Proof.
  pose proof (execute_sim evm msg) as Hx. unfold ApplyMessage, TransitionDb, preCheck, buyGas, refundGas.
  sim_steps; try apply Hx; sim_steps.
Qed.

(** The balance changes of a transfer with its fee. *)
Definition transferred (evm : EVM) (msg : Message) (a : Address) (used : Z) (before after : Address -> Z) : Prop :=
  forall b, after b = before b
    - (if decide (b = From msg) then MsgValue msg + used * MsgGasPrice msg else 0)
    + (if decide (b = a) then MsgValue msg else 0)
    + (if decide (b = Coinbase evm) then used * MsgGasPrice msg else 0).

Lemma ens_plain_buy msg pool m : (CheckNonce msg = true -> of_acct (cur m) (From msg) a_nonce 0 = Nonce msg) ->
  cost msg <= balw (cur m) (From msg) -> 0 <= MsgGas msg <= pool -> is_u64 pool ->
  ens (preCheck msg (MkTransition pool 0 0)) m (fun m' r =>
    r = (MkTransition (pool - MsgGas msg) (MsgGas msg) (MsgGas msg), None) /\ moves (cur m) (cur m') (From msg) (- cost msg)).
Proof.
  intros Hn Hb Hg Hp. unfold preCheck.
  assert (Hbuy : ens (buyGas msg (MkTransition pool 0 0)) m (fun m' r =>
    r = (MkTransition (pool - MsgGas msg) (MsgGas msg) (MsgGas msg), None) /\ moves (cur m) (cur m') (From msg) (- cost msg))).
  { unfold buyGas. apply ens_bind. eexists m, (balw (cur m) (From msg)). split; [reflexivity|].
    rewrite (proj2 (Z.ltb_ge _ _)) by lia. unfold SubGas. cbn [gp gas]. rewrite (proj2 (Z.ltb_ge _ _)) by lia.
    apply ens_bind, (ens_mv (OSubBalance (From msg) (cost msg)) (From msg) (- cost msg)); [done|apply SubBalance_mv|].
    intros m1 _ Hm. apply ens_ret. split; [|done]. rewrite u64_id by go_lia. do 2 f_equal. }
  destruct (CheckNonce msg); [|done]. apply ens_bind.
  eexists m, (of_acct (cur m) (From msg) a_nonce 0). split; [reflexivity|]. rewrite Hn by done. by rewrite Z.ltb_irrefl.
Qed.

Lemma ens_plain_apply evm msg pool m a :
  let ig := intrinsic (MsgData msg) false in
  To msg = Some a -> depth evm = 0 -> precompiles evm a = None -> codew (cur m) a = [] -> w_refund (cur m) = 0 ->
  (CheckNonce msg = true -> of_acct (cur m) (From msg) a_nonce 0 = Nonce msg) ->
  cost msg + MsgValue msg <= balw (cur m) (From msg) -> 0 <= MsgValue msg -> 0 <= ig <= MsgGas msg -> MsgGas msg <= pool -> is_u64 pool ->
  len (MsgData msg) <= MaxUint64 ->
  ens (ApplyMessage K evm msg pool) m (fun m' r => r = (pool - ig, inr ([], ig, false)) /\
    transferred evm msg a ig (balw (cur m)) (balw (cur m'))).
Proof.
  intros ig Hto Hd Hpc Hc Hr Hn Hb Hv Hig Hpool Hp Hl. unfold ApplyMessage. apply ens_bind. unfold TransitionDb. apply ens_bind.
  eapply ens_mono; [by apply ens_plain_buy; try lia|]. intros m1 ? [-> [Hb1 Hc1 Hr1]].
  rewrite bool_decide_false, (IntrinsicGas_eq _ _ Hl) by (by rewrite Hto). fold ig.
  rewrite (proj2 (Z.leb_le _ _)) by go_lia. unfold useGas. cbn [gp gas initialGas]. rewrite (proj2 (Z.ltb_ge _ _)) by lia.
  cbn [gp gas initialGas]. apply ens_bind. unfold execute. rewrite Hto. apply ens_bind. eexists m1, _. split; [reflexivity|].
  apply ens_bind, (ens_mv (OSetNonce (From msg) _) (From msg) 0); [done|apply SetNonce_mv|]. intros m2 _ [Hb2 Hc2 Hr2].
  unfold to. rewrite Hto. eapply ens_mono; [apply ens_plain_call; try done|].
  { by rewrite Hc2, Hc1. }
  { rewrite Hb2, Hb1. repeat case_decide; try done. lia. }
  intros m3 ? (-> & Hr3 & Hb3). cbn [gp gas initialGas]. rewrite decide_False by done. apply ens_bind. unfold refundGas, gasUsed.
  cbn [gp gas initialGas]. apply ens_bind. eexists m3, (w_refund (cur m3)). split; [reflexivity|].
  rewrite Hr3, Hr2, Hr1, Hr. cbv zeta. rewrite (u64_id (MsgGas msg - (MsgGas msg - ig))) by go_lia.
  assert ((if 0 <? (MsgGas msg - (MsgGas msg - ig)) / 2 then 0 else (MsgGas msg - (MsgGas msg - ig)) / 2) = 0) as ->.
  { destruct (0 <? _) eqn:E; [done|]. div_lia. }
  cbn [gp gas initialGas]. rewrite (u64_id (MsgGas msg - ig + 0)) by go_lia.
  apply ens_bind, (ens_mv (OAddBalance (From msg) _) (From msg) ((MsgGas msg - ig + 0) * MsgGasPrice msg)); [done|apply AddBalance_mv|].
  intros m4 _ [Hb4 _ _]. unfold AddGas. rewrite (proj2 (Z.ltb_ge _ _)) by go_lia. apply ens_ret. cbn [gp gas initialGas].
  rewrite (u64_id (MsgGas msg - (MsgGas msg - ig + 0))) by go_lia.
  apply ens_bind, (ens_mv (OAddBalance (Coinbase evm) _) (Coinbase evm) ((MsgGas msg - (MsgGas msg - ig + 0)) * MsgGasPrice msg)); [done|apply AddBalance_mv|].
  intros m5 _ [Hb5 _ _]. apply ens_ret, ens_ret. cbn [gp]. split; [repeat f_equal; lia|].
  intros b. rewrite Hb5, Hb4, Hb3, Hb2, Hb1. repeat case_decide; lia.
Qed.

(** A plain transfer moves exactly its value and its fee. A message to an account
    without code, from a sender with the right nonce and enough balance, on a state
    between transactions, succeeds with the intrinsic gas: the sender pays the value and
    the fee, the recipient gets the value, the coinbase the fee, nobody else changes
    (also when these accounts coincide), and the pool is lower by the intrinsic gas. *)
Theorem plain_transfer_exact evm msg pool st a :
  let ig := intrinsic (MsgData msg) false in
  valid K st -> To msg = Some a -> depth evm = 0 -> precompiles evm a = None ->
  codew (world K st) a = [] -> State.refund st = 0 ->
  (CheckNonce msg = true -> (State.GetNonce K st (From msg)).2 = Nonce msg) ->
  cost msg + MsgValue msg <= bal_of st (From msg) -> 0 <= MsgValue msg ->
  ig <= MsgGas msg -> MsgGas msg <= pool -> is_u64 pool -> len (MsgData msg) <= MaxUint64 ->
  exists st', ApplyMessage K evm msg pool st = Ret (st', (pool - ig, inr ([], ig, false))) /\ valid K st' /\
    transferred evm msg a ig (bal_of st) (bal_of st').
Proof.
  intros ig [m Hi] Hto Hd Hp Hc Hr Hn Hb Hv Hig Hpool Hu Hl. pose proof Hi as [Hrel _]. pose proof (rel_cur _ _ _ Hrel) as Hw.
  assert (Hig0 : 0 <= ig) by (unfold ig, intrinsic; pose proof (count_nonzero_bound (MsgData msg)); lia).
  destruct (lift_ens K _ _ st m _ (ApplyMessage_sim evm msg pool) Hi
    (ens_plain_apply evm msg pool m a Hto Hd Hp
       ltac:(rewrite <- Hc; unfold codew; f_equal; symmetry; by apply of_acct_proper; [|intros x y (_&_&_&?&_)])
       ltac:(rewrite <- Hr; destruct Hw as (_&_&<-&_); done)
       ltac:(intros Hck; rewrite <- (Hn Hck); pose proof (exec_refines K (OGetNonce (From msg)) st m Hrel) as (s & He & _);
             unfold exec, give in He; by injection He as _ ->)
       ltac:(unfold balw; by rewrite <- (rel_balance _ _ _ Hi)) Hv (conj Hig0 Hig) Hpool Hu Hl))
    as (st' & m' & x & Ha & Hi' & -> & Ht).
  exists st'. split_and!; [done|by exists m'|]. intros b. rewrite (rel_balance _ _ b Hi), (rel_balance _ _ b Hi'). apply Ht.
Qed.

End Accounting.

(** ** Witnesses *)

Import Toy Mem.

Definition rich : State.Account := State.MkAccount 1 1000000 0 (State.emptyCodeHash Mem.hash).
Definition rich_enc : bytes := match State.EncodeRLP rich with Ret (inr b) => b | _ => [] end.
Definition rich_state := Mem.opened {[ address_bytes 7 := rich_enc ]}.

Lemma rich_valid : valid Mem.hash rich_state.
Proof.
  eexists. split; [apply (rel_New Mem.hash 0 {[ address_bytes 7 := rich_enc ]} rich_state)|].
  - reflexivity.
  - apply (Mem.opened_wf _ _ rich); [vm_compute; reflexivity| |reflexivity].
    apply (bool_decide_unpack _). vm_compute. exact I.
  - split; [simpl; go_lia|constructor].
Qed.

Lemma rich_sane : sane (world Mem.hash rich_state).
Proof. by apply (opened_sane _ _ rich); vm_compute. Qed.

(** A transfer of 500 from account 7 to account 12. *)
Definition transfer_msg : Message := MkMessage 7 (Some 12) 2 30000 500 1 true [].

Lemma apply_message_accounting_witness : exists st' pool' r,
  ApplyMessage (ops:=StateDB_ops Mem.hash) Mem.hash Toy.evm transfer_msg 100000 rich_state = Ret (st', (pool', r)) /\
  valid Mem.hash st'.
Proof.
  destruct (apply_message_accounting Mem.hash Toy.evm transfer_msg 100000 rich_state rich_valid rich_sane
    ltac:(go_lia) ltac:(split; vm_compute; repeat split; discriminate)) as (st' & pool' & r & Ha & Hv & _).
  exists st', pool', r. split; assumption.
Defined.

Lemma plain_transfer_exact_witness : exists st',
  ApplyMessage (ops:=StateDB_ops Mem.hash) Mem.hash Toy.evm transfer_msg 100000 rich_state
    = Ret (st', (79000, inr ([], 21000, false))) /\
  bal_of Mem.hash st' 12 = 500 /\ bal_of Mem.hash st' 99 = 42000.
Proof.
  destruct (plain_transfer_exact Mem.hash Toy.evm transfer_msg 100000 rich_state 12 rich_valid)
    as (st' & Ha & _ & Ht); try reflexivity.
  - vm_compute. discriminate.
  - vm_compute. discriminate.
  - vm_compute. discriminate.
  - vm_compute. discriminate.
  - go_lia.
  - vm_compute. discriminate.
  - exists st'. split; [exact Ha|]. split; rewrite Ht; vm_compute; reflexivity.
Defined.

End TransitionProps.
