(* ===== verification/VmBase.v ===== *)
(** The building blocks of the EVM interpreter: big-integer helpers
    ([common/math/big.go], [common/math/integer.go]), the operand stack
    ([vm/solc/stack.go], [stack_table.go]), memory ([memory.go], [memory_table.go]), data
    slices ([common.go]), the gas of a call ([gas.go]) and the analysis of jump
    destinations ([analysis.go]).

    A [*big.Int] is its value: the integers that instructions give back to the pool of
    [intpool.go] are those they have popped and do not push again, so no stack entry is
    changed through another one. *)

From S2P Require Import Prelude Params Bytes Evm.
Import Evm.

Module Vm.
#[local] Open Scope go_scope.

(** ** common/math *)

Definition tt255 : Z := 2 ^ 255.
Definition tt256 : Z := 2 ^ 256.
Definition tt256m1 : Z := tt256 - 1.

Definition U256 (x : Z) : Z := Z.land x tt256m1.
Definition S256 (x : Z) : Z := if x <? tt255 then x else x - tt256.

Definition BigMax (x y : Z) : Z := if x <? y then y else x.
Definition BigMin (x y : Z) : Z := if y <? x then y else x.

(** [big.Int]: the length in bits and the 64-bit words of the absolute value, lowest
    first; reading unsigned bytes; conversion to [int64]. *)
Definition BitLen (x : Z) : Z := if x =? 0 then 0 else Z.log2 (Z.abs x) + 1.
Definition Bits (x : Z) : list Z :=
  (fun i => u64 (Z.shiftr (Z.abs x) (64 * Z.of_nat i))) <$> seq 0 (Z.to_nat ((BitLen x + 63) / 64)).
Definition SetBytes (b : bytes) : Z := be_value (u8 <$> b).
Definition big_Int64 (x : Z) : Z := i64 x.

Definition bigEndianByteAt (x n : Z) : Z :=
  match Bits x !! Z.to_nat (n / 8) with
  | None => 0
  | Some word => u8 (Z.shiftr word (8 * (n mod 8)))
  end.
Definition Byte (x padlength n : Z) : Z :=
  if padlength <=? n then 0 else bigEndianByteAt x (padlength - 1 - n).

(** The buffer is filled from its end, byte by byte of each word. *)
Definition word_bytes (d : Z) : bytes := (fun j => u8 (Z.shiftr d (8 * Z.of_nat j))) <$> seq 0 8.
Definition ReadBits (x : Z) (n : nat) : bytes :=
  reverse (take n ((Bits x ≫= word_bytes) ++ replicate n 0)).
Definition PaddedBigBytes (x : Z) (n : nat) : bytes :=
  if Z.of_nat n <=? BitLen x / 8 then big_Bytes x else ReadBits x n.

(** Exponentiation by squaring over the bits of the words of the exponent. *)
Fixpoint exp_word (n : nat) (word base result : Z) : Z * Z :=
  match n with
  | O => (base, result)
  | S n =>
      let result := if Z.land word 1 =? 1 then U256 (result * base) else result in
      let base := U256 (base * base) in
      exp_word n (Z.shiftr word 1) base result
  end.
Fixpoint exp_words (words : list Z) (base result : Z) : Z :=
  match words with
  | [] => result
  | word :: words => let '(base, result) := exp_word 64 word base result in exp_words words base result
  end.
Definition Exp (base exponent : Z) : Z := exp_words (Bits exponent) base 1.

Definition SafeAdd (x y : Z) : Z * bool := (x +64 y, MaxUint64 - x <? y).
Definition SafeMul (x y : Z) : Z * bool :=
  if (x =? 0) || (y =? 0) then (0, false) else (x *64 y, MaxUint64 / x <? y).

(** ** common/types.go, common/bytes.go *)

Definition BigToHash (b : Z) : Hash := BytesToHash (big_Bytes b).
Definition BigToAddress (b : Z) : Address := BytesToAddress (big_Bytes b).
Definition Hash_Big (h : Hash) : Z := SetBytes (hash_bytes h).
Definition Address_Big (a : Address) : Z := SetBytes (address_bytes a).
Definition EmptyHash (h : Hash) : bool := h =? 0.

Definition RightPadBytes (slice : bytes) (l : Z) : bytes :=
  if l <=? len slice then slice else slice ++ replicate (Z.to_nat (l - len slice)) 0.

(** [s[lo:hi]]; slicing beyond the length is a panic here. *)
Definition slice (s : bytes) (lo hi : Z) : outcome bytes :=
  if (0 <=? lo) && (lo <=? hi) && (hi <=? len s)
  then Ret (take (Z.to_nat (hi - lo)) (drop (Z.to_nat lo) s)) else Panic.

(** ** common.go *)

Definition calcMemSize (off l : Z) : Z := if l =? 0 then 0 else off + l.

Definition getDataBig (data : bytes) (start size : Z) : outcome bytes :=
  let dlen := len data in
  let s := BigMin start dlen in
  let e := BigMin (s + size) dlen in
  d ← slice data (big_Uint64 s) (big_Uint64 e);
  Ret (RightPadBytes d (i64 (big_Uint64 size))).

Definition bigUint64 (v : Z) : Z * bool := (big_Uint64 v, 64 <? BitLen v).

Definition toWordSize (size : Z) : Z :=
  if MaxUint64 - 31 <? size then MaxUint64 / 32 + 1 else (size + 31) / 32.

(** ** stack.go, stack_table.go

    [data], with the top first. *)

Abbreviation Stack := (list Z).

Definition Back (st : Stack) (n : nat) : outcome Z := deref (st !! n).

(** [swap n] exchanges the top with the [n]-th entry from the top, counted from one. *)
Definition swap (n : nat) (st : Stack) : outcome Stack :=
  x ← deref (st !! (n - 1)%nat); y ← deref (st !! 0%nat);
  Ret (<[(n - 1)%nat := y]> (<[0%nat := x]> st)).
Definition dup (n : nat) (st : Stack) : outcome Stack := x ← deref (st !! (n - 1)%nat); Ret (x :: st).

Definition StackLimit : Z := 1024.
Definition errStackUnderflow : VmError := errOther "stack underflow".
Definition errStackLimit : VmError := errOther "stack limit reached".

Definition require (st : Stack) (n : Z) : option VmError := if len st <? n then Some errStackUnderflow else None.
Definition makeStackFunc (pop push : Z) (st : Stack) : option VmError :=
  match require st pop with
  | Some e => Some e
  | None => if StackLimit <? len st + push - pop then Some errStackLimit else None
  end.
Definition makeDupStackFunc (n : Z) : Stack -> option VmError := makeStackFunc n (n + 1).
Definition makeSwapStackFunc (n : Z) : Stack -> option VmError := makeStackFunc n n.

(** ** memory.go *)

Record Memory := MkMemory { store : bytes; lastGasCost : Z }.
Definition NewMemory : Memory := MkMemory [] 0.

(** [copy(dst[off:], src)] within the bounds of [dst]. *)
Definition splice (dst : bytes) (off : nat) (src : bytes) : bytes :=
  take off dst ++ src ++ drop (off + length src) dst.

Definition mem_Set (m : Memory) (offset size : Z) (value : bytes) : outcome Memory :=
  if len (store m) <? size then Panic else
  if 0 <? size then
    dst ← slice (store m) offset (offset +64 size);
    Ret (MkMemory (splice (store m) (Z.to_nat offset) (take (length dst) value)) (lastGasCost m))
  else Ret m.

Definition Resize (m : Memory) (size : Z) : Memory :=
  if len (store m) <? size
  then MkMemory (store m ++ replicate (Z.to_nat (size - len (store m))) 0) (lastGasCost m) else m.

(** [Get] copies, [GetPtr] aliases the store; what they return is used only after the
    last write to the memory, so both are the bytes. *)
Definition mem_Get (m : Memory) (offset size : Z) : outcome bytes :=
  if size =? 0 then Ret [] else
  if offset <? len (store m) then
    if size <? 0 then Panic else slice (store m) offset (i64 (offset + size))
  else Ret [].
Definition GetPtr (m : Memory) (offset size : Z) : outcome bytes :=
  if size =? 0 then Ret [] else
  if offset <? len (store m) then slice (store m) offset (i64 (offset + size)) else Ret [].

(** ** memory_table.go *)

Definition memoryArgs (off size : nat) (st : Stack) : outcome Z :=
  o ← Back st off; l ← Back st size; Ret (calcMemSize o l).
Definition memorySha3 := memoryArgs 0 1.
Definition memoryCallDataCopy := memoryArgs 0 2.
Definition memoryReturnDataCopy := memoryArgs 0 2.
Definition memoryCodeCopy := memoryArgs 0 2.
Definition memoryExtCodeCopy := memoryArgs 1 3.
Definition memoryMLoad (st : Stack) : outcome Z := o ← Back st 0; Ret (calcMemSize o 32).
Definition memoryMStore8 (st : Stack) : outcome Z := o ← Back st 0; Ret (calcMemSize o 1).
Definition memoryMStore (st : Stack) : outcome Z := o ← Back st 0; Ret (calcMemSize o 32).
Definition memoryCreate := memoryArgs 1 2.
Definition memoryArgs2 (off size off' size' : nat) (st : Stack) : outcome Z :=
  x ← memoryArgs off size st; y ← memoryArgs off' size' st; Ret (BigMax x y).
Definition memoryCall := memoryArgs2 5 6 3 4.
Definition memoryCallCode := memoryArgs2 5 6 3 4.
Definition memoryDelegateCall := memoryArgs2 4 5 2 3.
Definition memoryStaticCall := memoryArgs2 4 5 2 3.
Definition memoryReturn := memoryArgs 0 1.
Definition memoryRevert := memoryArgs 0 1.
Definition memoryLog := memoryArgs 0 1.

(** ** gas.go, config/gas_table.go *)

Definition GasQuickStep : Z := 2.
Definition GasFastestStep : Z := 3.
Definition GasFastStep : Z := 5.
Definition GasMidStep : Z := 8.
Definition GasSlowStep : Z := 10.
Definition GasExtStep : Z := 20.

Record GasTable := MkGasTable {
  gt_ExtcodeSize : Z; gt_ExtcodeCopy : Z; gt_Balance : Z; gt_SLoad : Z; gt_Calls : Z; gt_Suicide : Z;
  gt_ExpByte : Z; gt_CreateBySuicide : Z
}.
Definition GasTableEIP158 : GasTable := MkGasTable 700 700 400 200 700 5000 50 25000.

Definition callGas (gt : GasTable) (availableGas base callCost : Z) : VmError + Z :=
  let rest := if 64 <? BitLen callCost then inl errGasUintOverflow else inr (big_Uint64 callCost) in
  if 0 <? gt_CreateBySuicide gt then
    let availableGas := availableGas -64 base in
    let gas := availableGas -64 availableGas / 64 in
    if (64 <? BitLen callCost) || (gas <? big_Uint64 callCost) then inr gas else rest
  else rest.

(** ** analysis.go *)

Definition PUSH1 : Z := 0x60.
Definition PUSH32 : Z := 0x7f.
Definition JUMPDEST : Z := 0x5b.

(** A [bitvec] is a byte slice; writing outside of it is a panic. *)
Abbreviation bitvec := bytes (only parsing).
Definition or_at (bits : bitvec) (i mask : Z) : outcome bitvec :=
  b ← deref (bits !! Z.to_nat i); Ret (<[Z.to_nat i := Z.lor b mask]> bits).
Definition bv_set (bits : bitvec) (pos : Z) : outcome bitvec := or_at bits (pos / 8) (Z.shiftr 0x80 (pos mod 8)).
Definition bv_set8 (bits : bitvec) (pos : Z) : outcome bitvec :=
  bits ← or_at bits (pos / 8) (Z.shiftr 0xFF (pos mod 8));
  or_at bits (pos / 8 + 1) (u8 (Z.lnot (Z.shiftr 0xFF (pos mod 8)))).
Definition codeSegment (bits : bitvec) (pos : Z) : outcome bool :=
  b ← deref (bits !! Z.to_nat (pos / 8)); Ret (Z.land b (Z.shiftr 0x80 (pos mod 8)) =? 0).

(** The two inner loops: [numbits] positions from [pc] are data. *)
Fixpoint mark8 (n : nat) (numbits pc : Z) (bits : bitvec) : outcome (Z * Z * bitvec) :=
  match n with
  | O => Ret (numbits, pc, bits)
  | S n =>
      if 8 <=? numbits then bits ← bv_set8 bits pc; mark8 n (numbits - 8) (pc + 8) bits
      else Ret (numbits, pc, bits)
  end.
Fixpoint mark1 (n : nat) (pc : Z) (bits : bitvec) : outcome (Z * bitvec) :=
  match n with
  | O => Ret (pc, bits)
  | S n => bits ← bv_set bits pc; mark1 n (pc + 1) bits
  end.

(** The outer loop moves [pc] at each turn, so the length of the code bounds it. *)
Fixpoint bitmap_loop (fuel : nat) (code : bytes) (pc : Z) (bits : bitvec) : outcome bitvec :=
  match fuel with
  | O => Ret bits
  | S fuel =>
      if pc <? len code then
        op ← deref (code !! Z.to_nat pc);
        if (PUSH1 <=? op) && (op <=? PUSH32) then
          '(numbits, pc, bits) ← mark8 4 (op - PUSH1 + 1) (pc + 1) bits;
          '(pc, bits) ← mark1 (Z.to_nat numbits) pc bits;
          bitmap_loop fuel code pc bits
        else bitmap_loop fuel code (pc + 1) bits
      else Ret bits
  end.
Definition codeBitmap (code : bytes) : outcome bitvec :=
  bitmap_loop (length code) code 0 (replicate (length code / 8 + 1 + 4) 0).

(** [destinations]: the bitmaps computed so far, by the hash of the code. *)
Definition has (d : gmap Hash bitvec) (codehash : Hash) (code : bytes) (dest : Z) : outcome (gmap Hash bitvec * bool) :=
  let udest := big_Uint64 dest in
  if (63 <=? BitLen dest) || (len code <=? udest) then Ret (d, false) else
  '(d, m) ← (match d !! codehash with
             | Some m => Ret (d, m)
             | None => m ← codeBitmap code; Ret (<[codehash := m]> d, m)
             end);
  op ← deref (code !! Z.to_nat udest);
  if op =? JUMPDEST then seg ← codeSegment m udest; Ret (d, seg) else Ret (d, false).

End Vm.
