(* ===== verification/VmGas.v ===== *)
(** The frame of a running contract and the gas of its instructions
    ([vm/solc/gas_table.go]).

    A frame holds what one call of [Interpreter.Run] keeps: program counter, stack,
    memory, the contract with its gas, and the jump destinations found.  The fields
    [returnData] of the interpreter and [callGasTemp] of the EVM are part of it too:
    every instruction that runs another contract sets the first when it is done, and the
    second is read by the instruction that has just set it. *)

From S2P Require Import Prelude Params Bytes StateDBSpec Evm VmBase.
Import Evm Vm.

Module VmGas.
#[local] Open Scope go_scope.

Record Frame := MkFrame {
  pc : Z; stack : Stack; mem : Memory; contract : Contract; Input : bytes;
  returnData : bytes; callGasTemp : Z; jumpdests : gmap Hash bytes
}.

Definition with_pc (n : Z) (f : Frame) : Frame :=
  MkFrame n (stack f) (mem f) (contract f) (Input f) (returnData f) (callGasTemp f) (jumpdests f).
Definition with_stack (s : Stack) (f : Frame) : Frame :=
  MkFrame (pc f) s (mem f) (contract f) (Input f) (returnData f) (callGasTemp f) (jumpdests f).
Definition with_mem (m : Memory) (f : Frame) : Frame :=
  MkFrame (pc f) (stack f) m (contract f) (Input f) (returnData f) (callGasTemp f) (jumpdests f).
Definition with_contract (c : Contract) (f : Frame) : Frame :=
  MkFrame (pc f) (stack f) (mem f) c (Input f) (returnData f) (callGasTemp f) (jumpdests f).
Definition with_returnData (d : bytes) (f : Frame) : Frame :=
  MkFrame (pc f) (stack f) (mem f) (contract f) (Input f) d (callGasTemp f) (jumpdests f).
Definition with_callGasTemp (g : Z) (f : Frame) : Frame :=
  MkFrame (pc f) (stack f) (mem f) (contract f) (Input f) (returnData f) g (jumpdests f).
Definition with_jumpdests (d : gmap Hash bytes) (f : Frame) : Frame :=
  MkFrame (pc f) (stack f) (mem f) (contract f) (Input f) (returnData f) (callGasTemp f) d.

(** ** config/protocol_params.go *)
Definition MemoryGas : Z := 3.
Definition QuadCoeffDiv : Z := 512.
Definition CopyGas : Z := 3.
Definition SstoreSetGas : Z := 20000.
Definition SstoreClearGas : Z := 5000.
Definition SstoreResetGas : Z := 5000.
Definition SstoreRefundGas : Z := 15000.
Definition LogGas : Z := 375.
Definition LogTopicGas : Z := 375.
Definition LogDataGas : Z := 8.
Definition Sha3Gas : Z := 30.
Definition Sha3WordGas : Z := 6.
Definition CreateGas : Z := 32000.
Definition CallNewAccountGas : Z := 25000.
Definition CallValueTransferGas : Z := 9000.
Definition CallStipend : Z := 2300.
Definition SuicideRefundGas : Z := 24000.
Definition JumpdestGas : Z := 1.

(** ** Code that works on a frame and on the state *)

Section Gas.
Context {St : Type} {ops : StateOps St}.

Abbreviation XM := (SM (Frame * St)).

Definition getf {A} (g : Frame -> A) : XM A := fun s => Ret (s, g s.1).
Definition modf (g : Frame -> Frame) : XM unit := fun s => Ret ((g s.1, s.2), tt).
Definition onst {A} (m : SM St A) : XM A := fun s => '(s', x) ← m s.2; Ret ((s.1, s'), x).

Definition back (n : nat) : XM Z := st ← getf stack; lift (Back st n).

(** Steps that may fail with an error. *)
Definition try {A B} (m : XM (VmError + A)) (k : A -> XM (VmError + B)) : XM (VmError + B) :=
  r ← m; match r with inl e => mret (inl e) | inr x => k x end.
Notation "x <~ m ; k" := (try m (fun x => k)) (at level 20, m at level 100, k at level 200, right associativity).
Definition safe (r : Z * bool) : XM (VmError + Z) := mret (if r.2 then inl errGasUintOverflow else inr r.1).

(** ** gas_table.go *)

Definition memoryGasCost (newMemSize : Z) : XM (VmError + Z) :=
  m ← getf mem;
  if newMemSize =? 0 then mret (inr 0) else
  if 0xffffffffe0 <? newMemSize then mret (inl errGasUintOverflow) else
  let newMemSizeWords := toWordSize newMemSize in
  let newMemSize := newMemSizeWords *64 32 in
  if len (store m) <? newMemSize then
    let square := newMemSizeWords *64 newMemSizeWords in
    let linCoef := newMemSizeWords *64 MemoryGas in
    let quadCoef := square / QuadCoeffDiv in
    let newTotalFee := linCoef +64 quadCoef in
    let fee := newTotalFee -64 lastGasCost m in
    _ ← modf (with_mem (MkMemory (store m) newTotalFee));
    mret (inr fee)
  else mret (inr 0).

Abbreviation gasFunc := (GasTable -> Z -> XM (VmError + Z)).

Definition constGasFunc (gas : Z) : gasFunc := fun _ _ => mret (inr gas).

(** The shape of the copying instructions and of [SHA3]: memory, a base price and a
    price for each word of the size found on the stack. *)
Definition gasWords (base : Z) (size : nat) (perWord : Z) (memorySize : Z) : XM (VmError + Z) :=
  gas <~ memoryGasCost memorySize;
  gas <~ safe (SafeAdd gas base);
  l ← back size;
  words <~ safe (bigUint64 l);
  words <~ safe (SafeMul (toWordSize words) perWord);
  safe (SafeAdd gas words).

Definition gasCallDataCopy : gasFunc := fun gt memorySize => gasWords GasFastestStep 2 CopyGas memorySize.
Definition gasReturnDataCopy : gasFunc := fun gt memorySize => gasWords GasFastestStep 2 CopyGas memorySize.
Definition gasSha3 : gasFunc := fun gt memorySize => gasWords Sha3Gas 1 Sha3WordGas memorySize.
Definition gasCodeCopy : gasFunc := fun gt memorySize => gasWords GasFastestStep 2 CopyGas memorySize.
Definition gasExtCodeCopy : gasFunc := fun gt memorySize => gasWords (gt_ExtcodeCopy gt) 3 CopyGas memorySize.

Definition gasSStore : gasFunc := fun gt memorySize =>
  y ← back 1; x ← back 0;
  c ← getf contract;
  val ← onst (Sdb.GetState (self c) (BigToHash x));
  if EmptyHash val && negb (EmptyHash (BigToHash y)) then mret (inr SstoreSetGas)
  else if negb (EmptyHash val) && EmptyHash (BigToHash y) then
    _ ← onst (Sdb.AddRefund SstoreRefundGas); mret (inr SstoreClearGas)
  else mret (inr SstoreResetGas).

Definition makeGasLog (n : Z) : gasFunc := fun gt memorySize =>
  l ← back 1;
  requestedSize <~ safe (bigUint64 l);
  gas <~ memoryGasCost memorySize;
  gas <~ safe (SafeAdd gas LogGas);
  gas <~ safe (SafeAdd gas (n *64 LogTopicGas));
  memorySizeGas <~ safe (SafeMul requestedSize LogDataGas);
  safe (SafeAdd gas memorySizeGas).

Definition gasMemory (base : Z) (memorySize : Z) : XM (VmError + Z) :=
  gas <~ memoryGasCost memorySize; safe (SafeAdd gas base).
Definition gasMLoad : gasFunc := fun gt memorySize => gasMemory GasFastestStep memorySize.
Definition gasMStore8 : gasFunc := fun gt memorySize => gasMemory GasFastestStep memorySize.
Definition gasMStore : gasFunc := fun gt memorySize => gasMemory GasFastestStep memorySize.
Definition gasCreate : gasFunc := fun gt memorySize => gasMemory CreateGas memorySize.

Definition gasBalance : gasFunc := fun gt _ => mret (inr (gt_Balance gt)).
Definition gasExtCodeSize : gasFunc := fun gt _ => mret (inr (gt_ExtcodeSize gt)).
Definition gasSLoad : gasFunc := fun gt _ => mret (inr (gt_SLoad gt)).

Definition gasExp : gasFunc := fun gt _ =>
  e ← back 1;
  let expByteLen := (BitLen e + 7) / 8 in
  let gas := expByteLen *64 gt_ExpByte gt in
  safe (SafeAdd gas GasSlowStep).

(** The common end of the gas of the four calls: the gas they pass on is kept in
    [callGasTemp] and is part of the price. *)
Definition passOn (gt : GasTable) (gas : Z) : XM (VmError + Z) :=
  c ← getf contract;
  requested ← back 0;
  match callGas gt (Gas c) gas requested with
  | inl e => _ ← modf (with_callGasTemp 0); mret (inl e)
  | inr t => _ ← modf (with_callGasTemp t); safe (SafeAdd gas t)
  end.

Definition gasCall : gasFunc := fun gt memorySize =>
  v ← back 2; a ← back 1;
  let transfersValue := negb (v =? 0) in
  let address := BigToAddress a in
  empty ← (if transfersValue then onst (Sdb.Empty address) else mret false);
  let gas := if transfersValue && empty then gt_Calls gt +64 CallNewAccountGas else gt_Calls gt in
  let gas := if transfersValue then gas +64 CallValueTransferGas else gas in
  memoryGas <~ memoryGasCost memorySize;
  gas <~ safe (SafeAdd gas memoryGas);
  passOn gt gas.

Definition gasCallCode : gasFunc := fun gt memorySize =>
  v ← back 2;
  let gas := if negb (v =? 0) then gt_Calls gt +64 CallValueTransferGas else gt_Calls gt in
  memoryGas <~ memoryGasCost memorySize;
  gas <~ safe (SafeAdd gas memoryGas);
  passOn gt gas.

Definition gasReturn : gasFunc := fun gt memorySize => memoryGasCost memorySize.
Definition gasRevert : gasFunc := fun gt memorySize => memoryGasCost memorySize.

Definition gasSuicide : gasFunc := fun gt _ =>
  b ← back 0;
  c ← getf contract;
  empty ← onst (Sdb.Empty (BigToAddress b));
  balance ← (if empty then onst (Sdb.GetBalance (self c)) else mret 0);
  let gas := if empty && negb (balance =? 0) then gt_Suicide gt +64 gt_CreateBySuicide gt else gt_Suicide gt in
  dead ← onst (Sdb.HasSuicided (self c));
  _ ← (if negb dead then onst (Sdb.AddRefund SuicideRefundGas) else mret tt);
  mret (inr gas).

Definition gasDelegateCall : gasFunc := fun gt memorySize =>
  gas <~ memoryGasCost memorySize;
  gas <~ safe (SafeAdd gas (gt_Calls gt));
  passOn gt gas.
Definition gasStaticCall : gasFunc := fun gt memorySize =>
  gas <~ memoryGasCost memorySize;
  gas <~ safe (SafeAdd gas (gt_Calls gt));
  passOn gt gas.

Definition gasPush : gasFunc := fun _ _ => mret (inr GasFastestStep).
Definition gasSwap : gasFunc := fun _ _ => mret (inr GasFastestStep).
Definition gasDup : gasFunc := fun _ _ => mret (inr GasFastestStep).

End Gas.

End VmGas.
