(* ===== verification/VmInstr.v ===== *)
(** The instructions of the EVM ([vm/solc/instructions.go]), each as a step on the frame
    of the running contract and on the state. *)

From S2P Require Import Prelude Params Bytes StateDB StateDBSpec Evm VmBase VmGas.
Import Evm Vm VmGas.

Module VmInstr.
#[local] Open Scope go_scope.

Section Instr.
Context {St : Type} {ops : StateOps St} {pre : Precompiles} {interp : Interpreter} (Keccak256Hash : bytes -> Hash).

Abbreviation XM := (SM (Frame * St)).
Abbreviation executionFunc := (EVM -> XM (bytes * option VmError)).

Definition ok : XM (bytes * option VmError) := mret ([], None).
Definition fail (e : VmError) : XM (bytes * option VmError) := mret ([], Some e).

(** ** Stack access; [set_top] writes the integer that [peek] points to *)
Definition pop : XM Z :=
  st ← getf stack;
  match st with
  | [] => panic
  | x :: st => _ ← modf (with_stack st); mret x
  end.
Definition push (x : Z) : XM unit := st ← getf stack; modf (with_stack (x :: st)).
Definition peek : XM Z := st ← getf stack; lift (deref (head st)).
Definition set_top (x : Z) : XM unit := st ← getf stack; modf (with_stack (x :: tail st)).

(** ** Arithmetic *)

Definition opAdd : executionFunc := fun _ => x ← pop; y ← peek; _ ← set_top (U256 (x + y)); ok.
Definition opSub : executionFunc := fun _ => x ← pop; y ← peek; _ ← set_top (U256 (x - y)); ok.
Definition opMul : executionFunc := fun _ => x ← pop; y ← pop; _ ← push (U256 (x * y)); ok.
Definition opDiv : executionFunc := fun _ =>
  x ← pop; y ← peek; _ ← set_top (if negb (y =? 0) then U256 (x / y) else 0); ok.

(** [big.Int.Div] and [Mod] are Euclidean; here the divisor is positive. *)
Definition opSdiv : executionFunc := fun _ =>
  a ← pop; b ← pop;
  let x := S256 a in let y := S256 b in
  _ ← push (if (y =? 0) || (x =? 0) then 0
            else U256 (if negb (Z.sgn x =? Z.sgn y) then - (Z.abs x / Z.abs y) else Z.abs x / Z.abs y));
  ok.
Definition opMod : executionFunc := fun _ =>
  x ← pop; y ← pop; _ ← push (if y =? 0 then 0 else U256 (x mod y)); ok.
Definition opSmod : executionFunc := fun _ =>
  a ← pop; b ← pop;
  let x := S256 a in let y := S256 b in
  _ ← push (if y =? 0 then 0
            else U256 (if Z.sgn x <? 0 then - (Z.abs x mod Z.abs y) else Z.abs x mod Z.abs y));
  ok.
Definition opExp : executionFunc := fun _ => base ← pop; exponent ← pop; _ ← push (Exp base exponent); ok.

Definition opSignExtend : executionFunc := fun _ =>
  back ← pop;
  if back <? 31 then
    let bit := big_Uint64 back *64 8 +64 7 in
    num ← pop;
    let mask := Z.shiftl 1 bit - 1 in
    _ ← push (U256 (if Z.testbit num bit then Z.lor num (Z.lnot mask) else Z.land num mask));
    ok
  else ok.

Definition opNot : executionFunc := fun _ => x ← peek; _ ← set_top (U256 (Z.lnot x)); ok.
Definition opLt : executionFunc := fun _ => x ← pop; y ← peek; _ ← set_top (if x <? y then 1 else 0); ok.
Definition opGt : executionFunc := fun _ => x ← pop; y ← peek; _ ← set_top (if y <? x then 1 else 0); ok.
Definition opSlt : executionFunc := fun _ =>
  x ← pop; y ← peek;
  _ ← set_top (if (tt255 <=? x) && (y <? tt255) then 1
               else if (x <? tt255) && (tt255 <=? y) then 0
               else if x <? y then 1 else 0);
  ok.
Definition opSgt : executionFunc := fun _ =>
  x ← pop; y ← peek;
  _ ← set_top (if (tt255 <=? x) && (y <? tt255) then 0
               else if (x <? tt255) && (tt255 <=? y) then 1
               else if y <? x then 1 else 0);
  ok.
Definition opEq : executionFunc := fun _ => x ← pop; y ← peek; _ ← set_top (if x =? y then 1 else 0); ok.
Definition opIszero : executionFunc := fun _ => x ← peek; _ ← set_top (if 0 <? x then 0 else 1); ok.
Definition opAnd : executionFunc := fun _ => x ← pop; y ← pop; _ ← push (Z.land x y); ok.
Definition opOr : executionFunc := fun _ => x ← pop; y ← peek; _ ← set_top (Z.lor x y); ok.
Definition opXor : executionFunc := fun _ => x ← pop; y ← peek; _ ← set_top (Z.lxor x y); ok.
Definition opByte : executionFunc := fun _ =>
  th ← pop; val ← peek;
  _ ← set_top (if th <? 32 then Byte val 32 (big_Int64 th) else 0); ok.
Definition opAddmod : executionFunc := fun _ =>
  x ← pop; y ← pop; z ← pop; _ ← push (if 0 <? z then U256 ((x + y) mod z) else 0); ok.
Definition opMulmod : executionFunc := fun _ =>
  x ← pop; y ← pop; z ← pop; _ ← push (if 0 <? z then U256 ((x * y) mod z) else 0); ok.

(** The shifts are in no instruction set. *)
Definition opSHL : executionFunc := fun _ =>
  s ← pop; v ← peek;
  let shift := U256 s in let value := U256 v in
  _ ← set_top (if 256 <=? shift then 0 else U256 (Z.shiftl value (big_Uint64 shift))); ok.
Definition opSHR : executionFunc := fun _ =>
  s ← pop; v ← peek;
  let shift := U256 s in let value := U256 v in
  _ ← set_top (if 256 <=? shift then 0 else U256 (Z.shiftr value (big_Uint64 shift))); ok.
Definition opSAR : executionFunc := fun _ =>
  s ← pop; v ← pop;
  let shift := U256 s in let value := S256 v in
  _ ← push (U256 (if 256 <=? shift then (if 0 <? Z.sgn value then 0 else -1)
                  else Z.shiftr value (big_Uint64 shift)));
  ok.

(** ** Environment *)

Definition opSha3 : executionFunc := fun evm =>
  offset ← pop; size ← pop;
  m ← getf mem;
  data ← lift (mem_Get m (big_Int64 offset) (big_Int64 size));
  let hash := hash_bytes (Keccak256Hash data) in
  _ ← (if EnablePreimageRecording evm then onst (Sdb.AddPreimage (BytesToHash hash) data) else mret tt);
  _ ← push (SetBytes hash); ok.

Definition opAddress : executionFunc := fun _ => c ← getf contract; _ ← push (Address_Big (self c)); ok.
Definition opBalance : executionFunc := fun _ =>
  slot ← peek; b ← onst (Sdb.GetBalance (BigToAddress slot)); _ ← set_top b; ok.
Definition opOrigin : executionFunc := fun evm => _ ← push (Address_Big (Origin evm)); ok.
Definition opCaller : executionFunc := fun _ => c ← getf contract; _ ← push (Address_Big (CallerAddress c)); ok.
Definition opCallValue : executionFunc := fun _ => c ← getf contract; _ ← push (value c); ok.

Definition opCallDataLoad : executionFunc := fun _ =>
  start ← pop; i ← getf Input; d ← lift (getDataBig i start 32); _ ← push (SetBytes d); ok.
Definition opCallDataSize : executionFunc := fun _ => i ← getf Input; _ ← push (len i); ok.

(** [memory.Set] *)
Definition set_mem (offset size : Z) (value : bytes) : XM unit :=
  m ← getf mem; m ← lift (mem_Set m offset size value); modf (with_mem m).

Definition opCallDataCopy : executionFunc := fun _ =>
  memOffset ← pop; dataOffset ← pop; length ← pop;
  i ← getf Input;
  d ← lift (getDataBig i dataOffset length);
  _ ← set_mem (big_Uint64 memOffset) (big_Uint64 length) d; ok.

Definition opReturnDataSize : executionFunc := fun _ => d ← getf returnData; _ ← push (len d); ok.
Definition opReturnDataCopy : executionFunc := fun _ =>
  memOffset ← pop; dataOffset ← pop; length ← pop;
  let end_ := dataOffset + length in
  d ← getf returnData;
  if (64 <? BitLen end_) || (len d <? big_Uint64 end_) then fail errReturnDataOutOfBounds else
  s ← lift (slice d (big_Uint64 dataOffset) (big_Uint64 end_));
  _ ← set_mem (big_Uint64 memOffset) (big_Uint64 length) s; ok.

Definition opExtCodeSize : executionFunc := fun _ =>
  slot ← peek; n ← onst (Sdb.GetCodeSize (BigToAddress slot)); _ ← set_top (u64 n); ok.
Definition opCodeSize : executionFunc := fun _ => c ← getf contract; _ ← push (len (Code c)); ok.
Definition opCodeCopy : executionFunc := fun _ =>
  memOffset ← pop; codeOffset ← pop; length ← pop;
  c ← getf contract;
  d ← lift (getDataBig (Code c) codeOffset length);
  _ ← set_mem (big_Uint64 memOffset) (big_Uint64 length) d; ok.
Definition opExtCodeCopy : executionFunc := fun _ =>
  addr ← pop; memOffset ← pop; codeOffset ← pop; length ← pop;
  code ← onst (Sdb.GetCode (BigToAddress addr));
  d ← lift (getDataBig code codeOffset length);
  _ ← set_mem (big_Uint64 memOffset) (big_Uint64 length) d; ok.

Definition opGasprice : executionFunc := fun evm => _ ← push (GasPrice evm); ok.
Definition opBlockhash : executionFunc := fun evm =>
  num ← pop;
  let n := BlockNumber evm - 257 in
  _ ← push (if (n <? num) && (num <? BlockNumber evm) then Hash_Big (GetHash evm (big_Uint64 num)) else 0); ok.
Definition opCoinbase : executionFunc := fun evm => _ ← push (Address_Big (Coinbase evm)); ok.
Definition opTimestamp : executionFunc := fun evm => _ ← push (U256 (Time evm)); ok.
Definition opNumber : executionFunc := fun evm => _ ← push (U256 (BlockNumber evm)); ok.
Definition opDifficulty : executionFunc := fun evm => _ ← push (U256 (Difficulty evm)); ok.
Definition opGasLimit : executionFunc := fun evm => _ ← push (U256 (GasLimit evm)); ok.

(** ** Stack, memory, storage and control *)

Definition opPop : executionFunc := fun _ => _ ← pop; ok.
Definition opMload : executionFunc := fun _ =>
  offset ← pop; m ← getf mem; d ← lift (mem_Get m (big_Int64 offset) 32); _ ← push (SetBytes d); ok.
Definition opMstore : executionFunc := fun _ =>
  mStart ← pop; val ← pop; _ ← set_mem (big_Uint64 mStart) 32 (PaddedBigBytes val 32); ok.
Definition opMstore8 : executionFunc := fun _ =>
  o ← pop; v ← pop;
  let off := big_Int64 o in
  m ← getf mem;
  if (0 <=? off) && (off <? len (store m)) then
    _ ← modf (with_mem (MkMemory (<[Z.to_nat off := u8 (Z.land (big_Int64 v) 0xff)]> (store m)) (lastGasCost m))); ok
  else panic.

Definition opSload : executionFunc := fun _ =>
  l ← pop; c ← getf contract; v ← onst (Sdb.GetState (self c) (BigToHash l)); _ ← push (Hash_Big v); ok.
Definition opSstore : executionFunc := fun _ =>
  l ← pop; val ← pop; c ← getf contract;
  _ ← onst (Sdb.SetState (self c) (BigToHash l) (BigToHash val)); ok.

(** Whether the code of the contract has a jump destination there. *)
Definition valid_dest (pos : Z) : XM bool :=
  d ← getf jumpdests; c ← getf contract;
  '(d, b) ← lift (has d (CodeHash c) (Code c) pos);
  _ ← modf (with_jumpdests d); mret b.
Definition errInvalidJump : VmError := errOther "invalid jump destination".

Definition opJump : executionFunc := fun _ =>
  pos ← pop;
  valid ← valid_dest pos;
  if negb valid then fail errInvalidJump else
  _ ← modf (with_pc (big_Uint64 pos)); ok.
Definition opJumpi : executionFunc := fun _ =>
  pos ← pop; cond ← pop;
  if negb (cond =? 0) then
    valid ← valid_dest pos;
    if negb valid then fail errInvalidJump else
    _ ← modf (with_pc (big_Uint64 pos)); ok
  else p ← getf pc; _ ← modf (with_pc (p +64 1)); ok.
Definition opJumpdest : executionFunc := fun _ => ok.
Definition opPc : executionFunc := fun _ => p ← getf pc; _ ← push p; ok.
Definition opMsize : executionFunc := fun _ => m ← getf mem; _ ← push (len (store m)); ok.
Definition opGas : executionFunc := fun _ => c ← getf contract; _ ← push (Gas c); ok.

(** ** Calls and creation *)

(** The running contract as the caller of another one. *)
Definition as_caller (c : Contract) : ContractRef := ParentContract (self c) (CallerAddress c) (value c).
Definition add_gas (g : Z) : XM unit := c ← getf contract; modf (with_contract (with_Gas c (Gas c +64 g))).

Definition opCreate : executionFunc := fun evm =>
  v ← pop; offset ← pop; size ← pop;
  m ← getf mem;
  input ← lift (mem_Get m (big_Int64 offset) (big_Int64 size));
  c ← getf contract;
  let gas := Gas c -64 Gas c / 64 in
  _ ← modf (with_contract (fst (UseGas c gas)));
  '(res, addr, returnGas, suberr) ← onst (Create Keccak256Hash evm (as_caller c) input gas v);
  _ ← push (match suberr with
            | Some ErrCodeStoreOutOfGas => 0
            | Some _ => 0
            | None => Address_Big addr
            end);
  _ ← add_gas returnGas;
  mret (if decide (suberr = Some errExecutionReverted) then res else [], None).

(** The common end of the four calls. *)
Definition finish_call (retOffset retSize : Z) (r : bytes * Z * option VmError) : XM (bytes * option VmError) :=
  let '(ret, returnGas, err) := r in
  _ ← push (match err with Some _ => 0 | None => 1 end);
  _ ← (if bool_decide (err = None) || bool_decide (err = Some errExecutionReverted)
       then set_mem (big_Uint64 retOffset) (big_Uint64 retSize) ret else mret tt);
  _ ← add_gas returnGas;
  mret (ret, None).

Definition opCall : executionFunc := fun evm =>
  _ ← pop;
  gas ← getf callGasTemp;
  addr ← pop; v ← pop; inOffset ← pop; inSize ← pop; retOffset ← pop; retSize ← pop;
  let toAddr := BigToAddress addr in
  let v := U256 v in
  m ← getf mem; args ← lift (mem_Get m (big_Int64 inOffset) (big_Int64 inSize));
  let gas := if negb (v =? 0) then gas +64 CallStipend else gas in
  c ← getf contract;
  r ← onst (Call evm (as_caller c) toAddr args gas v);
  finish_call retOffset retSize r.

Definition opCallCode : executionFunc := fun evm =>
  _ ← pop;
  gas ← getf callGasTemp;
  addr ← pop; v ← pop; inOffset ← pop; inSize ← pop; retOffset ← pop; retSize ← pop;
  let toAddr := BigToAddress addr in
  let v := U256 v in
  m ← getf mem; args ← lift (mem_Get m (big_Int64 inOffset) (big_Int64 inSize));
  let gas := if negb (v =? 0) then gas +64 CallStipend else gas in
  c ← getf contract;
  r ← onst (CallCode evm (as_caller c) toAddr args gas v);
  finish_call retOffset retSize r.

Definition opDelegateCall : executionFunc := fun evm =>
  _ ← pop;
  gas ← getf callGasTemp;
  addr ← pop; inOffset ← pop; inSize ← pop; retOffset ← pop; retSize ← pop;
  let toAddr := BigToAddress addr in
  m ← getf mem; args ← lift (mem_Get m (big_Int64 inOffset) (big_Int64 inSize));
  c ← getf contract;
  r ← onst (DelegateCall_ evm (as_caller c) toAddr args gas);
  finish_call retOffset retSize r.

Definition opStaticCall : executionFunc := fun evm =>
  _ ← pop;
  gas ← getf callGasTemp;
  addr ← pop; inOffset ← pop; inSize ← pop; retOffset ← pop; retSize ← pop;
  let toAddr := BigToAddress addr in
  m ← getf mem; args ← lift (mem_Get m (big_Int64 inOffset) (big_Int64 inSize));
  c ← getf contract;
  r ← onst (StaticCall evm (as_caller c) toAddr args gas);
  finish_call retOffset retSize r.

Definition opReturn : executionFunc := fun _ =>
  offset ← pop; size ← pop; m ← getf mem;
  ret ← lift (GetPtr m (big_Int64 offset) (big_Int64 size)); mret (ret, None).
Definition opRevert : executionFunc := fun _ =>
  offset ← pop; size ← pop; m ← getf mem;
  ret ← lift (GetPtr m (big_Int64 offset) (big_Int64 size)); mret (ret, None).
Definition opStop : executionFunc := fun _ => ok.
Definition opSuicide : executionFunc := fun _ =>
  c ← getf contract;
  balance ← onst (Sdb.GetBalance (self c));
  b ← pop;
  _ ← onst (Sdb.AddBalance (BigToAddress b) balance);
  _ ← onst (Sdb.Suicide (self c)); ok.

(** ** Families *)

Fixpoint pop_topics (n : nat) : XM (list Hash) :=
  match n with
  | O => mret []
  | S n => t ← pop; ts ← pop_topics n; mret (BigToHash t :: ts)
  end.
Definition makeLog (size : nat) : executionFunc := fun evm =>
  mStart ← pop; mSize ← pop;
  topics ← pop_topics size;
  m ← getf mem; d ← lift (mem_Get m (big_Int64 mStart) (big_Int64 mSize));
  c ← getf contract;
  _ ← onst (Sdb.AddLog (State.MkLog (self c) topics d (big_Uint64 (BlockNumber evm)) 0 0 0 0 false)); ok.

Definition makePush (size pushByteSize : Z) : executionFunc := fun _ =>
  c ← getf contract; p ← getf pc;
  let codeLen := len (Code c) in
  let startMin := if i64 (p +64 1) <? codeLen then i64 (p +64 1) else codeLen in
  let endMin := if startMin + pushByteSize <? codeLen then startMin + pushByteSize else codeLen in
  d ← lift (slice (Code c) startMin endMin);
  _ ← push (SetBytes (RightPadBytes d pushByteSize));
  _ ← modf (with_pc (p +64 size)); ok.

Definition makeDup (size : nat) : executionFunc := fun _ =>
  st ← getf stack; st ← lift (dup size st); _ ← modf (with_stack st); ok.
Definition makeSwap (size : nat) : executionFunc := fun _ =>
  st ← getf stack; st ← lift (swap (size + 1) st); _ ← modf (with_stack st); ok.

End Instr.

End VmInstr.
