(* ===== verification/VmInterp.v ===== *)
(** The instruction tables ([vm/solc/jump_table.go]) and the interpreter loop
    ([vm/solc/interpreter.go]), closed over the message calls of [Evm]: the instructions
    that call or create run the interpreter again, one level deeper. *)

From S2P Require Import Prelude Params Bytes StateDB StateDBSpec Evm VmBase VmGas VmInstr.
Import Evm Vm VmGas VmInstr.

Module VmInterp.
#[local] Open Scope go_scope.

Section Interp.
Context {St : Type} {ops : StateOps St} {pre : Precompiles} {interp : Interpreter} (Keccak256Hash : bytes -> Hash).

Abbreviation XM := (SM (Frame * St)).

(** ** jump_table.go

    A table is an association list; an opcode without an entry is not [valid]. *)

Record operation := MkOperation {
  execute : EVM -> XM (bytes * option VmError);
  gasCost : GasTable -> Z -> XM (VmError + Z);
  validateStack : Stack -> option VmError;
  memorySize : option (Stack -> outcome Z);
  halts : bool; jumps : bool; writes : bool; reverts : bool; returns : bool
}.

Definition arithmetic_ops : list (Z * operation) := [
  (0x00 (* STOP *), MkOperation opStop (constGasFunc 0) (makeStackFunc 0 0) None true false false false false);
  (0x01 (* ADD *), MkOperation opAdd (constGasFunc GasFastestStep) (makeStackFunc 2 1) None false false false false false);
  (0x02 (* MUL *), MkOperation opMul (constGasFunc GasFastStep) (makeStackFunc 2 1) None false false false false false);
  (0x03 (* SUB *), MkOperation opSub (constGasFunc GasFastestStep) (makeStackFunc 2 1) None false false false false false);
  (0x04 (* DIV *), MkOperation opDiv (constGasFunc GasFastStep) (makeStackFunc 2 1) None false false false false false);
  (0x05 (* SDIV *), MkOperation opSdiv (constGasFunc GasFastStep) (makeStackFunc 2 1) None false false false false false);
  (0x06 (* MOD *), MkOperation opMod (constGasFunc GasFastStep) (makeStackFunc 2 1) None false false false false false);
  (0x07 (* SMOD *), MkOperation opSmod (constGasFunc GasFastStep) (makeStackFunc 2 1) None false false false false false);
  (0x08 (* ADDMOD *), MkOperation opAddmod (constGasFunc GasMidStep) (makeStackFunc 3 1) None false false false false false);
  (0x09 (* MULMOD *), MkOperation opMulmod (constGasFunc GasMidStep) (makeStackFunc 3 1) None false false false false false);
  (0x0a (* EXP *), MkOperation opExp gasExp (makeStackFunc 2 1) None false false false false false);
  (0x0b (* SIGNEXTEND *), MkOperation opSignExtend (constGasFunc GasFastStep) (makeStackFunc 2 1) None false false false false false)].
Definition comparison_ops : list (Z * operation) := [
  (0x10 (* LT *), MkOperation opLt (constGasFunc GasFastestStep) (makeStackFunc 2 1) None false false false false false);
  (0x11 (* GT *), MkOperation opGt (constGasFunc GasFastestStep) (makeStackFunc 2 1) None false false false false false);
  (0x12 (* SLT *), MkOperation opSlt (constGasFunc GasFastestStep) (makeStackFunc 2 1) None false false false false false);
  (0x13 (* SGT *), MkOperation opSgt (constGasFunc GasFastestStep) (makeStackFunc 2 1) None false false false false false);
  (0x14 (* EQ *), MkOperation opEq (constGasFunc GasFastestStep) (makeStackFunc 2 1) None false false false false false);
  (0x15 (* ISZERO *), MkOperation opIszero (constGasFunc GasFastestStep) (makeStackFunc 1 1) None false false false false false);
  (0x16 (* AND *), MkOperation opAnd (constGasFunc GasFastestStep) (makeStackFunc 2 1) None false false false false false);
  (0x18 (* XOR *), MkOperation opXor (constGasFunc GasFastestStep) (makeStackFunc 2 1) None false false false false false);
  (0x17 (* OR *), MkOperation opOr (constGasFunc GasFastestStep) (makeStackFunc 2 1) None false false false false false);
  (0x19 (* NOT *), MkOperation opNot (constGasFunc GasFastestStep) (makeStackFunc 1 1) None false false false false false);
  (0x1a (* BYTE *), MkOperation opByte (constGasFunc GasFastestStep) (makeStackFunc 2 1) None false false false false false)].
Definition environment_ops : list (Z * operation) := [
  (0x20 (* SHA3 *), MkOperation (opSha3 Keccak256Hash) gasSha3 (makeStackFunc 2 1) (Some memorySha3) false false false false false);
  (0x30 (* ADDRESS *), MkOperation opAddress (constGasFunc GasQuickStep) (makeStackFunc 0 1) None false false false false false);
  (0x31 (* BALANCE *), MkOperation opBalance gasBalance (makeStackFunc 1 1) None false false false false false);
  (0x32 (* ORIGIN *), MkOperation opOrigin (constGasFunc GasQuickStep) (makeStackFunc 0 1) None false false false false false);
  (0x33 (* CALLER *), MkOperation opCaller (constGasFunc GasQuickStep) (makeStackFunc 0 1) None false false false false false);
  (0x34 (* CALLVALUE *), MkOperation opCallValue (constGasFunc GasQuickStep) (makeStackFunc 0 1) None false false false false false);
  (0x35 (* CALLDATALOAD *), MkOperation opCallDataLoad (constGasFunc GasFastestStep) (makeStackFunc 1 1) None false false false false false);
  (0x36 (* CALLDATASIZE *), MkOperation opCallDataSize (constGasFunc GasQuickStep) (makeStackFunc 0 1) None false false false false false);
  (0x37 (* CALLDATACOPY *), MkOperation opCallDataCopy gasCallDataCopy (makeStackFunc 3 0) (Some memoryCallDataCopy) false false false false false);
  (0x38 (* CODESIZE *), MkOperation opCodeSize (constGasFunc GasQuickStep) (makeStackFunc 0 1) None false false false false false);
  (0x39 (* CODECOPY *), MkOperation opCodeCopy gasCodeCopy (makeStackFunc 3 0) (Some memoryCodeCopy) false false false false false);
  (0x3a (* GASPRICE *), MkOperation opGasprice (constGasFunc GasQuickStep) (makeStackFunc 0 1) None false false false false false);
  (0x3b (* EXTCODESIZE *), MkOperation opExtCodeSize gasExtCodeSize (makeStackFunc 1 1) None false false false false false);
  (0x3c (* EXTCODECOPY *), MkOperation opExtCodeCopy gasExtCodeCopy (makeStackFunc 4 0) (Some memoryExtCodeCopy) false false false false false);
  (0x40 (* BLOCKHASH *), MkOperation opBlockhash (constGasFunc GasExtStep) (makeStackFunc 1 1) None false false false false false);
  (0x41 (* COINBASE *), MkOperation opCoinbase (constGasFunc GasQuickStep) (makeStackFunc 0 1) None false false false false false);
  (0x42 (* TIMESTAMP *), MkOperation opTimestamp (constGasFunc GasQuickStep) (makeStackFunc 0 1) None false false false false false);
  (0x43 (* NUMBER *), MkOperation opNumber (constGasFunc GasQuickStep) (makeStackFunc 0 1) None false false false false false);
  (0x44 (* DIFFICULTY *), MkOperation opDifficulty (constGasFunc GasQuickStep) (makeStackFunc 0 1) None false false false false false);
  (0x45 (* GASLIMIT *), MkOperation opGasLimit (constGasFunc GasQuickStep) (makeStackFunc 0 1) None false false false false false)].
Definition storage_ops : list (Z * operation) := [
  (0x50 (* POP *), MkOperation opPop (constGasFunc GasQuickStep) (makeStackFunc 1 0) None false false false false false);
  (0x51 (* MLOAD *), MkOperation opMload gasMLoad (makeStackFunc 1 1) (Some memoryMLoad) false false false false false);
  (0x52 (* MSTORE *), MkOperation opMstore gasMStore (makeStackFunc 2 0) (Some memoryMStore) false false false false false);
  (0x53 (* MSTORE8 *), MkOperation opMstore8 gasMStore8 (makeStackFunc 2 0) (Some memoryMStore8) false false false false false);
  (0x54 (* SLOAD *), MkOperation opSload gasSLoad (makeStackFunc 1 1) None false false false false false);
  (0x55 (* SSTORE *), MkOperation opSstore gasSStore (makeStackFunc 2 0) None false false true false false);
  (0x56 (* JUMP *), MkOperation opJump (constGasFunc GasMidStep) (makeStackFunc 1 0) None false true false false false);
  (0x57 (* JUMPI *), MkOperation opJumpi (constGasFunc GasSlowStep) (makeStackFunc 2 0) None false true false false false);
  (0x58 (* PC *), MkOperation opPc (constGasFunc GasQuickStep) (makeStackFunc 0 1) None false false false false false);
  (0x59 (* MSIZE *), MkOperation opMsize (constGasFunc GasQuickStep) (makeStackFunc 0 1) None false false false false false);
  (0x5a (* GAS *), MkOperation opGas (constGasFunc GasQuickStep) (makeStackFunc 0 1) None false false false false false);
  (0x5b (* JUMPDEST *), MkOperation opJumpdest (constGasFunc JumpdestGas) (makeStackFunc 0 0) None false false false false false)].
Definition push_ops : list (Z * operation) := [
  (0x60 (* PUSH1 *), MkOperation (makePush 1 1) gasPush (makeStackFunc 0 1) None false false false false false);
  (0x61 (* PUSH2 *), MkOperation (makePush 2 2) gasPush (makeStackFunc 0 1) None false false false false false);
  (0x62 (* PUSH3 *), MkOperation (makePush 3 3) gasPush (makeStackFunc 0 1) None false false false false false);
  (0x63 (* PUSH4 *), MkOperation (makePush 4 4) gasPush (makeStackFunc 0 1) None false false false false false);
  (0x64 (* PUSH5 *), MkOperation (makePush 5 5) gasPush (makeStackFunc 0 1) None false false false false false);
  (0x65 (* PUSH6 *), MkOperation (makePush 6 6) gasPush (makeStackFunc 0 1) None false false false false false);
  (0x66 (* PUSH7 *), MkOperation (makePush 7 7) gasPush (makeStackFunc 0 1) None false false false false false);
  (0x67 (* PUSH8 *), MkOperation (makePush 8 8) gasPush (makeStackFunc 0 1) None false false false false false);
  (0x68 (* PUSH9 *), MkOperation (makePush 9 9) gasPush (makeStackFunc 0 1) None false false false false false);
  (0x69 (* PUSH10 *), MkOperation (makePush 10 10) gasPush (makeStackFunc 0 1) None false false false false false);
  (0x6a (* PUSH11 *), MkOperation (makePush 11 11) gasPush (makeStackFunc 0 1) None false false false false false);
  (0x6b (* PUSH12 *), MkOperation (makePush 12 12) gasPush (makeStackFunc 0 1) None false false false false false);
  (0x6c (* PUSH13 *), MkOperation (makePush 13 13) gasPush (makeStackFunc 0 1) None false false false false false);
  (0x6d (* PUSH14 *), MkOperation (makePush 14 14) gasPush (makeStackFunc 0 1) None false false false false false);
  (0x6e (* PUSH15 *), MkOperation (makePush 15 15) gasPush (makeStackFunc 0 1) None false false false false false);
  (0x6f (* PUSH16 *), MkOperation (makePush 16 16) gasPush (makeStackFunc 0 1) None false false false false false);
  (0x70 (* PUSH17 *), MkOperation (makePush 17 17) gasPush (makeStackFunc 0 1) None false false false false false);
  (0x71 (* PUSH18 *), MkOperation (makePush 18 18) gasPush (makeStackFunc 0 1) None false false false false false);
  (0x72 (* PUSH19 *), MkOperation (makePush 19 19) gasPush (makeStackFunc 0 1) None false false false false false);
  (0x73 (* PUSH20 *), MkOperation (makePush 20 20) gasPush (makeStackFunc 0 1) None false false false false false);
  (0x74 (* PUSH21 *), MkOperation (makePush 21 21) gasPush (makeStackFunc 0 1) None false false false false false);
  (0x75 (* PUSH22 *), MkOperation (makePush 22 22) gasPush (makeStackFunc 0 1) None false false false false false);
  (0x76 (* PUSH23 *), MkOperation (makePush 23 23) gasPush (makeStackFunc 0 1) None false false false false false);
  (0x77 (* PUSH24 *), MkOperation (makePush 24 24) gasPush (makeStackFunc 0 1) None false false false false false);
  (0x78 (* PUSH25 *), MkOperation (makePush 25 25) gasPush (makeStackFunc 0 1) None false false false false false);
  (0x79 (* PUSH26 *), MkOperation (makePush 26 26) gasPush (makeStackFunc 0 1) None false false false false false);
  (0x7a (* PUSH27 *), MkOperation (makePush 27 27) gasPush (makeStackFunc 0 1) None false false false false false);
  (0x7b (* PUSH28 *), MkOperation (makePush 28 28) gasPush (makeStackFunc 0 1) None false false false false false);
  (0x7c (* PUSH29 *), MkOperation (makePush 29 29) gasPush (makeStackFunc 0 1) None false false false false false);
  (0x7d (* PUSH30 *), MkOperation (makePush 30 30) gasPush (makeStackFunc 0 1) None false false false false false);
  (0x7e (* PUSH31 *), MkOperation (makePush 31 31) gasPush (makeStackFunc 0 1) None false false false false false);
  (0x7f (* PUSH32 *), MkOperation (makePush 32 32) gasPush (makeStackFunc 0 1) None false false false false false)].
Definition dup_ops : list (Z * operation) := [
  (0x80 (* DUP1 *), MkOperation (makeDup 1) gasDup (makeDupStackFunc 1) None false false false false false);
  (0x81 (* DUP2 *), MkOperation (makeDup 2) gasDup (makeDupStackFunc 2) None false false false false false);
  (0x82 (* DUP3 *), MkOperation (makeDup 3) gasDup (makeDupStackFunc 3) None false false false false false);
  (0x83 (* DUP4 *), MkOperation (makeDup 4) gasDup (makeDupStackFunc 4) None false false false false false);
  (0x84 (* DUP5 *), MkOperation (makeDup 5) gasDup (makeDupStackFunc 5) None false false false false false);
  (0x85 (* DUP6 *), MkOperation (makeDup 6) gasDup (makeDupStackFunc 6) None false false false false false);
  (0x86 (* DUP7 *), MkOperation (makeDup 7) gasDup (makeDupStackFunc 7) None false false false false false);
  (0x87 (* DUP8 *), MkOperation (makeDup 8) gasDup (makeDupStackFunc 8) None false false false false false);
  (0x88 (* DUP9 *), MkOperation (makeDup 9) gasDup (makeDupStackFunc 9) None false false false false false);
  (0x89 (* DUP10 *), MkOperation (makeDup 10) gasDup (makeDupStackFunc 10) None false false false false false);
  (0x8a (* DUP11 *), MkOperation (makeDup 11) gasDup (makeDupStackFunc 11) None false false false false false);
  (0x8b (* DUP12 *), MkOperation (makeDup 12) gasDup (makeDupStackFunc 12) None false false false false false);
  (0x8c (* DUP13 *), MkOperation (makeDup 13) gasDup (makeDupStackFunc 13) None false false false false false);
  (0x8d (* DUP14 *), MkOperation (makeDup 14) gasDup (makeDupStackFunc 14) None false false false false false);
  (0x8e (* DUP15 *), MkOperation (makeDup 15) gasDup (makeDupStackFunc 15) None false false false false false);
  (0x8f (* DUP16 *), MkOperation (makeDup 16) gasDup (makeDupStackFunc 16) None false false false false false)].
Definition swap_ops : list (Z * operation) := [
  (0x90 (* SWAP1 *), MkOperation (makeSwap 1) gasSwap (makeSwapStackFunc 2) None false false false false false);
  (0x91 (* SWAP2 *), MkOperation (makeSwap 2) gasSwap (makeSwapStackFunc 3) None false false false false false);
  (0x92 (* SWAP3 *), MkOperation (makeSwap 3) gasSwap (makeSwapStackFunc 4) None false false false false false);
  (0x93 (* SWAP4 *), MkOperation (makeSwap 4) gasSwap (makeSwapStackFunc 5) None false false false false false);
  (0x94 (* SWAP5 *), MkOperation (makeSwap 5) gasSwap (makeSwapStackFunc 6) None false false false false false);
  (0x95 (* SWAP6 *), MkOperation (makeSwap 6) gasSwap (makeSwapStackFunc 7) None false false false false false);
  (0x96 (* SWAP7 *), MkOperation (makeSwap 7) gasSwap (makeSwapStackFunc 8) None false false false false false);
  (0x97 (* SWAP8 *), MkOperation (makeSwap 8) gasSwap (makeSwapStackFunc 9) None false false false false false);
  (0x98 (* SWAP9 *), MkOperation (makeSwap 9) gasSwap (makeSwapStackFunc 10) None false false false false false);
  (0x99 (* SWAP10 *), MkOperation (makeSwap 10) gasSwap (makeSwapStackFunc 11) None false false false false false);
  (0x9a (* SWAP11 *), MkOperation (makeSwap 11) gasSwap (makeSwapStackFunc 12) None false false false false false);
  (0x9b (* SWAP12 *), MkOperation (makeSwap 12) gasSwap (makeSwapStackFunc 13) None false false false false false);
  (0x9c (* SWAP13 *), MkOperation (makeSwap 13) gasSwap (makeSwapStackFunc 14) None false false false false false);
  (0x9d (* SWAP14 *), MkOperation (makeSwap 14) gasSwap (makeSwapStackFunc 15) None false false false false false);
  (0x9e (* SWAP15 *), MkOperation (makeSwap 15) gasSwap (makeSwapStackFunc 16) None false false false false false);
  (0x9f (* SWAP16 *), MkOperation (makeSwap 16) gasSwap (makeSwapStackFunc 17) None false false false false false)].
Definition system_ops : list (Z * operation) := [
  (0xa0 (* LOG0 *), MkOperation (makeLog 0) (makeGasLog 0) (makeStackFunc 2 0) (Some memoryLog) false false true false false);
  (0xa1 (* LOG1 *), MkOperation (makeLog 1) (makeGasLog 1) (makeStackFunc 3 0) (Some memoryLog) false false true false false);
  (0xa2 (* LOG2 *), MkOperation (makeLog 2) (makeGasLog 2) (makeStackFunc 4 0) (Some memoryLog) false false true false false);
  (0xa3 (* LOG3 *), MkOperation (makeLog 3) (makeGasLog 3) (makeStackFunc 5 0) (Some memoryLog) false false true false false);
  (0xa4 (* LOG4 *), MkOperation (makeLog 4) (makeGasLog 4) (makeStackFunc 6 0) (Some memoryLog) false false true false false);
  (0xf0 (* CREATE *), MkOperation (opCreate Keccak256Hash) gasCreate (makeStackFunc 3 1) (Some memoryCreate) false false true false true);
  (0xf1 (* CALL *), MkOperation opCall gasCall (makeStackFunc 7 1) (Some memoryCall) false false false false true);
  (0xf2 (* CALLCODE *), MkOperation opCallCode gasCallCode (makeStackFunc 7 1) (Some memoryCall) false false false false true);
  (0xf3 (* RETURN *), MkOperation opReturn gasReturn (makeStackFunc 2 0) (Some memoryReturn) true false false false false);
  (0xff (* SELFDESTRUCT *), MkOperation opSuicide gasSuicide (makeStackFunc 1 0) None true false true false false)].

Definition frontierInstructionSet : list (Z * operation) :=
  arithmetic_ops ++ comparison_ops ++ environment_ops ++ storage_ops ++ push_ops ++ dup_ops ++ swap_ops ++ system_ops.
Definition homestead_ops : list (Z * operation) := [
  (0xf4 (* DELEGATECALL *), MkOperation opDelegateCall gasDelegateCall (makeStackFunc 6 1) (Some memoryDelegateCall) false false false false true)].
Definition homesteadInstructionSet : list (Z * operation) := homestead_ops ++ frontierInstructionSet.
Definition byzantium_ops : list (Z * operation) := [
  (0xfa (* STATICCALL *), MkOperation opStaticCall gasStaticCall (makeStackFunc 6 1) (Some memoryStaticCall) false false false false true);
  (0x3d (* RETURNDATASIZE *), MkOperation opReturnDataSize (constGasFunc GasQuickStep) (makeStackFunc 0 1) None false false false false false);
  (0x3e (* RETURNDATACOPY *), MkOperation opReturnDataCopy gasReturnDataCopy (makeStackFunc 3 0) (Some memoryReturnDataCopy) false false false false false);
  (0xfd (* REVERT *), MkOperation opRevert gasRevert (makeStackFunc 2 0) (Some memoryRevert) false false false true true)].
Definition byzantiumInstructionSet : list (Z * operation) := byzantium_ops ++ homesteadInstructionSet.

Fixpoint find_op (op : Z) (table : list (Z * operation)) : option operation :=
  match table with
  | [] => None
  | (o, x) :: table => if o =? op then Some x else find_op op table
  end.

(** The table [NewInterpreter] chooses. *)
Definition JumpTable (evm : EVM) : list (Z * operation) :=
  if IsByzantium evm then byzantiumInstructionSet else frontierInstructionSet.

(** ** interpreter.go *)

Definition CALL : Z := 0xf1.
Definition errInvalidOpcode : VmError := errOther "invalid opcode".

Definition enforceRestrictions (evm : EVM) (op : Z) (o : operation) (st : Stack) : outcome (option VmError) :=
  if IsByzantium evm then
    if readOnly evm then
      if writes o then Ret (Some errWriteProtection)
      else if op =? CALL then
        v ← Back st 2; Ret (if 0 <? BitLen v then Some errWriteProtection else None)
      else Ret None
    else Ret None
  else Ret None.

(** The memory an instruction needs, in whole words. *)
Definition requiredMemory (o : operation) (st : Stack) : outcome (VmError + Z) :=
  match memorySize o with
  | None => Ret (inr 0)
  | Some f =>
      size ← f st;
      let '(memSize, overflow) := bigUint64 size in
      if overflow then Ret (inl errGasUintOverflow) else
      let '(ms, overflow) := SafeMul (toWordSize memSize) 32 in
      Ret (if overflow then inl errGasUintOverflow else inr ms)
  end.

(** What the end of an instruction means for the loop: the result of the run, if any. *)
Definition continue (o : operation) (res : bytes) (err : option VmError) : XM (option (bytes * option VmError)) :=
  _ ← (if returns o then modf (with_returnData res) else mret tt);
  match err with
  | Some e => mret (Some ([], Some e))
  | None =>
      if reverts o then mret (Some (res, Some errExecutionReverted))
      else if halts o then mret (Some (res, None))
      else if negb (jumps o) then p ← getf pc; _ ← modf (with_pc (p +64 1)); mret None
      else mret None
  end.

(** Paying for an instruction; [false] when the gas does not suffice. *)
Definition pay (o : operation) (ms : Z) : XM bool :=
  cost ← gasCost o GasTableEIP158 ms;
  match cost with
  | inl _ => mret false
  | inr cost => c ← getf contract; let '(c, b) := UseGas c cost in _ ← modf (with_contract c); mret b
  end.

(** One turn of the loop. *)
Definition step (evm : EVM) : XM (option (bytes * option VmError)) :=
  c ← getf contract; p ← getf pc; st ← getf stack;
  let op := GetByte c p in
  match find_op op (JumpTable evm) with
  | None => mret (Some ([], Some errInvalidOpcode))
  | Some o =>
      match validateStack o st with
      | Some e => mret (Some ([], Some e))
      | None =>
          r ← lift (enforceRestrictions evm op o st);
          match r with
          | Some e => mret (Some ([], Some e))
          | None =>
              ms ← lift (requiredMemory o st);
              match ms with
              | inl e => mret (Some ([], Some e))
              | inr ms =>
                  paid ← pay o ms;
                  if negb paid then mret (Some ([], Some ErrOutOfGas)) else
                  _ ← (if 0 <? ms then m ← getf mem; modf (with_mem (Resize m ms)) else mret tt);
                  '(res, err) ← execute o evm;
                  continue o res err
              end
          end
      end
  end.

Fixpoint loop (fuel : nat) (evm : EVM) : XM (bytes * option VmError) :=
  match fuel with
  | O => panic
  | S fuel => r ← step evm; match r with Some r => mret r | None => loop fuel evm end
  end.

Definition deeper (evm : EVM) : EVM :=
  MkEVM (Origin evm) (GasPrice evm) (Coinbase evm) (GasLimit evm) (BlockNumber evm) (Time evm) (Difficulty evm)
    (GetHash evm) (depth evm + 1) (ByzantiumBlock evm) (NoRecursion evm) (readOnly evm) (EnablePreimageRecording evm).

(** Each turn but the last costs gas, so the gas bounds the turns. *)
Definition Run (evm : EVM) (c : Contract) (input : bytes) : SM St (bytes * Z * option VmError) := fun s =>
  match Code c with
  | [] => Ret (s, ([], Gas c, None))
  | _ =>
      '((f, s), (ret, err)) ← loop (S (Z.to_nat (Gas c))) (deeper evm) (MkFrame 0 [] NewMemory c input [] 0 ∅, s);
      Ret (s, (ret, Gas (contract f), err))
  end.

End Interp.

(** ** Tying the knot

    Calls are refused below depth [CallCreateDepth], so this many levels suffice. *)

Fixpoint levels {pre : Precompiles} (K : bytes -> Hash) (n : nat) : Interpreter :=
  {| InterpreterRun := fun St ops =>
       match n with
       | O => fun _ _ _ => panic
       | S n => Run (interp := levels K n) K
       end |}.

Definition evm_interpreter {pre : Precompiles} (K : bytes -> Hash) : Interpreter :=
  {| InterpreterRun := fun St ops evm =>
       InterpreterRun (Interpreter := levels K (Z.to_nat (CallCreateDepth + 1 - depth evm))) evm |}.

End VmInterp.
