(* ===== verification/VmSim.v ===== *)
(** The interpreter touches the state only through the interface: run on two states that
    correspond, it does the same and leaves states that correspond. *)

From S2P Require Import Prelude Params Bytes StateDB StateDBSpec StateDBRefine StateDBProps Evm EvmProps VmBase VmGas VmInstr VmInterp.
Import Evm EvmProps Vm VmGas VmInstr VmInterp.

Module VmSim.

Section Sim.
Context {pre : Precompiles} {interp : Interpreter} {isim : InterpreterSim} (K : bytes -> Hash).
Context {S1 S2 : Type} {ops1 : StateOps S1} {ops2 : StateOps S2} (R : S1 -> S2 -> Prop) {simR : Sim R}.

(** The same frame, states that correspond. *)
Definition framed (x : Frame * S1) (y : Frame * S2) : Prop := x.1 = y.1 /\ R x.2 y.2.

Lemma sim_getf {A} (g : Frame -> A) : sim framed (getf g) (getf g).
Proof. intros [f1 s1] [f2 s2] [Hf Hr]. simpl in *. subst. by eexists. Qed.
Lemma sim_modf g : sim framed (modf g) (modf g).
Proof. intros [f1 s1] [f2 s2] [Hf Hr]. simpl in *. subst. by eexists. Qed.
Lemma sim_lift {A} (m : outcome A) : sim framed (lift m) (lift m).
Proof. intros x y Hr. unfold lift. destruct m; [by eexists|done]. Qed.
Lemma sim_onst {A} (m1 : SM S1 A) m2 : sim R m1 m2 -> sim framed (onst m1) (onst m2).
Proof.
  intros Hm [f1 s1] [f2 s2] [Hf Hr]. simpl in *. subst. unfold onst. simpl. specialize (Hm s1 s2 Hr).
  destruct (m2 s2) as [[s2' x]|]; simpl in *; [|by rewrite Hm]. destruct Hm as (s1' & -> & Hr'). by eexists.
Qed.

Lemma sim_bind_framed {A B} (m1 : SM (Frame * S1) A) m2 (k1 : A -> SM (Frame * S1) B) k2 :
  sim framed m1 m2 -> (forall x, sim framed (k1 x) (k2 x)) -> sim framed (m1 ≫= k1) (m2 ≫= k2).
Proof. apply sim_bind. Qed.
Lemma sim_ret_framed {A} (x : A) : sim framed (mret x) (mret x).
Proof. apply sim_ret. Qed.
Lemma sim_panic_framed {A} : sim framed (panic : SM (Frame * S1) A) panic.
Proof. apply sim_panic. Qed.

Ltac xsim :=
  repeat first
    [ progress intros
    | progress unfold_ops
    | apply sim_ret_framed | apply sim_panic_framed | apply sim_getf | apply sim_modf | apply sim_lift
    | apply sim_onst; first
        [ apply sim_unit; exact _ | apply sim_bool; exact _ | apply sim_num; exact _ | apply sim_code; exact _
        | apply Call_sim; exact _ | apply CallCode_sim; exact _ | apply DelegateCall_sim; exact _
        | apply StaticCall_sim; exact _ | apply Create_sim; exact _ ]
    | apply sim_bind_framed
    | match goal with |- sim _ (match ?x with _ => _ end) _ => destruct x; cbn beta iota end
    | match goal with |- sim _ (let '(_, _) := ?x in _) _ => destruct x end ].

(** Entries of the two tables: the same but for the state they work on. *)
Record op_sim (o1 : operation (St:=S1)) (o2 : operation (St:=S2)) : Prop := {
  os_validate : validateStack o1 = validateStack o2;
  os_memory : memorySize o1 = memorySize o2;
  os_flags : (halts o1, jumps o1, writes o1, reverts o1, returns o1) = (halts o2, jumps o2, writes o2, reverts o2, returns o2);
  os_gas : forall gt ms, sim framed (gasCost o1 gt ms) (gasCost o2 gt ms);
  os_execute : forall evm, sim framed (execute o1 evm) (execute o2 evm)
}.

Definition entry_sim (e1 : Z * operation (St:=S1)) (e2 : Z * operation (St:=S2)) : Prop := e1.1 = e2.1 /\ op_sim e1.2 e2.2.

Lemma memoryGasCost_sim ms : sim framed (memoryGasCost ms) (memoryGasCost ms).
Proof. unfold memoryGasCost. xsim. Qed.
Lemma try_sim {A B} (m1 : SM (Frame * S1) (VmError + A)) m2 (k1 : A -> SM (Frame * S1) (VmError + B)) k2 :
  sim framed m1 m2 -> (forall x, sim framed (k1 x) (k2 x)) -> sim framed (try m1 k1) (try m2 k2).
Proof. intros Hm Hk. unfold try. apply sim_bind_framed; [done|]. intros [e|x]; [xsim|apply Hk]. Qed.
Lemma safe_sim r : sim framed (safe r) (safe r).
Proof. unfold safe. xsim. Qed.
Lemma back_sim n : sim framed (back n) (back n).
Proof. unfold back. xsim. Qed.
Lemma passOn_sim gt g : sim framed (passOn gt g) (passOn gt g).
Proof. unfold passOn, back, safe. xsim. Qed.

Ltac gsim :=
  repeat first [ apply memoryGasCost_sim | apply passOn_sim | apply safe_sim | apply back_sim | apply try_sim; [|intros ?] | progress xsim ].

Lemma set_mem_sim o s v : sim framed (set_mem o s v) (set_mem o s v).
Proof. unfold set_mem. xsim. Qed.
Lemma pop_sim : sim framed pop pop.
Proof. unfold pop. xsim. Qed.
Lemma push_sim x : sim framed (push x) (push x).
Proof. unfold push. xsim. Qed.
Lemma peek_sim : sim framed peek peek.
Proof. unfold peek. xsim. Qed.
Lemma set_top_sim x : sim framed (set_top x) (set_top x).
Proof. unfold set_top. xsim. Qed.
Lemma add_gas_sim g : sim framed (add_gas g) (add_gas g).
Proof. unfold add_gas. xsim. Qed.
Lemma valid_dest_sim p : sim framed (valid_dest p) (valid_dest p).
Proof. unfold valid_dest. xsim. Qed.
Lemma pop_topics_sim n : sim framed (pop_topics n) (pop_topics n).
Proof. induction n; simpl; [xsim|]. apply sim_bind_framed; [apply pop_sim|]. intros t. xsim. apply IHn. Qed.

Ltac isim_steps :=
  repeat first
    [ apply set_mem_sim | apply pop_sim | apply push_sim | apply peek_sim | apply set_top_sim | apply add_gas_sim
    | apply valid_dest_sim | apply pop_topics_sim | progress xsim ].

Lemma finish_call_sim o s r : sim framed (finish_call o s r) (finish_call o s r).
Proof. unfold finish_call. destruct r as [[ret g] err]. isim_steps. Qed.

Ltac head_of e := lazymatch e with ?f _ => head_of f | _ => e end.
Ltac unfold_head :=
  match goal with |- sim _ ?e _ => let h := head_of e in unfold h end.

Ltac entry_tac :=
  split; [reflexivity|]; split; [reflexivity|reflexivity|reflexivity| |];
  [ intros gt ms; cbn [gasCost snd]; repeat first [ progress gsim | unfold_head ]
  | intros evm; cbn [execute snd]; unfold_head; unfold ok, fail; repeat first [ apply finish_call_sim | progress isim_steps ] ].
Ltac table_tac := repeat (apply Forall2_cons; split; [entry_tac|]); apply Forall2_nil; exact I.

Lemma arithmetic_sim : Forall2 entry_sim arithmetic_ops arithmetic_ops.
Proof. unfold arithmetic_ops. table_tac. Qed.
Lemma comparison_sim : Forall2 entry_sim comparison_ops comparison_ops.
Proof. unfold comparison_ops. table_tac. Qed.
Lemma environment_sim : Forall2 entry_sim (environment_ops K) (environment_ops K).
Proof. unfold environment_ops. table_tac. Qed.
Lemma storage_sim : Forall2 entry_sim storage_ops storage_ops.
Proof. unfold storage_ops. table_tac. Qed.
Lemma push_ops_sim : Forall2 entry_sim push_ops push_ops.
Proof. unfold push_ops. table_tac. Qed.
Lemma dup_ops_sim : Forall2 entry_sim dup_ops dup_ops.
Proof. unfold dup_ops. table_tac. Qed.
Lemma swap_ops_sim : Forall2 entry_sim swap_ops swap_ops.
Proof. unfold swap_ops. table_tac. Qed.
Lemma system_sim : Forall2 entry_sim (system_ops K) (system_ops K).
Proof. unfold system_ops. table_tac. Qed.
Lemma homestead_sim : Forall2 entry_sim homestead_ops homestead_ops.
Proof. unfold homestead_ops. table_tac. Qed.
Lemma byzantium_sim : Forall2 entry_sim byzantium_ops byzantium_ops.
Proof. unfold byzantium_ops. table_tac. Qed.

Lemma JumpTable_sim evm : Forall2 entry_sim (JumpTable K evm) (JumpTable K evm).
Proof.
  assert (Hf : Forall2 entry_sim (frontierInstructionSet K) (frontierInstructionSet K)).
  { unfold frontierInstructionSet. repeat apply Forall2_app.
    - apply arithmetic_sim.
    - apply comparison_sim.
    - apply environment_sim.
    - apply storage_sim.
    - apply push_ops_sim.
    - apply dup_ops_sim.
    - apply swap_ops_sim.
    - apply system_sim. }
  unfold JumpTable. destruct (IsByzantium evm); [|done]. unfold byzantiumInstructionSet, homesteadInstructionSet.
  apply Forall2_app; [apply byzantium_sim|]. apply Forall2_app; [apply homestead_sim|done].
Qed.

Lemma find_op_sim op t1 t2 : Forall2 entry_sim t1 t2 ->
  match find_op op t1, find_op op t2 with
  | Some o1, Some o2 => op_sim o1 o2
  | None, None => True
  | _, _ => False
  end.
Proof.
  induction 1 as [|[a x] [b y] t1 t2 [Hab Hxy] _ IH]; simpl; [done|]. simpl in Hab. subst. by destruct (b =? op).
Qed.

Lemma pay_sim o1 o2 ms : op_sim o1 o2 -> sim framed (pay o1 ms) (pay o2 ms).
Proof. intros Ho. unfold pay. apply sim_bind_framed; [apply Ho|]. intros [e|cost]; xsim. Qed.

Lemma continue_sim o1 o2 res err : op_sim o1 o2 -> sim framed (continue o1 res err) (continue o2 res err).
Proof. intros [_ _ [= H1 H2 H3 H4 H5] _ _]. unfold continue. rewrite H1, H2, H4, H5. xsim. Qed.

Lemma step_sim evm : sim framed (step K evm) (step K evm).
Proof.
  unfold step. apply sim_bind_framed; [apply sim_getf|]. intros c. apply sim_bind_framed; [apply sim_getf|]. intros p.
  apply sim_bind_framed; [apply sim_getf|]. intros st. cbv zeta.
  pose proof (find_op_sim (GetByte c p) _ _ (JumpTable_sim evm)) as Hf.
  destruct (find_op _ (JumpTable K evm)) as [o1|], (find_op _ (JumpTable K evm)) as [o2|]; try done; [|xsim].
  pose proof Hf as [Hv Hm [= _ _ Hw _ _] _ He]. rewrite Hv. unfold enforceRestrictions, requiredMemory. rewrite Hm, Hw.
  destruct (validateStack o2 st); [xsim|]. apply sim_bind_framed; [xsim|]. intros [e|]; [xsim|].
  apply sim_bind_framed; [xsim|]. intros [e|ms]; [xsim|]. apply sim_bind_framed; [by apply pay_sim|]. intros [|]; simpl; [|xsim].
  apply sim_bind_framed; [xsim|]. intros _. apply sim_bind_framed; [apply He|]. intros [res err]. by apply continue_sim.
Qed.

Lemma loop_sim n evm : sim framed (loop K n evm) (loop K n evm).
Proof.
  induction n; simpl; [xsim|]. apply sim_bind_framed; [apply step_sim|]. intros [r|]; [xsim|done].
Qed.

Lemma Run_sim evm c input : sim R (Run K evm c input) (Run K evm c input).
Proof.
  intros s1 s2 Hr. unfold Run. destruct (Evm.Code c); [by exists s1|].
  pose proof (loop_sim (S (Z.to_nat (Gas c))) (deeper evm) (MkFrame 0 [] NewMemory c input [] 0 ∅, s1)
    (MkFrame 0 [] NewMemory c input [] 0 ∅, s2) (conj eq_refl Hr)) as Hl.
  destruct (loop K _ (deeper evm) (_, s2)) as [[[f2 s2'] [ret err]]|]; cbn [out_rel] in Hl; [|by rewrite Hl].
  destruct Hl as ([f1 s1'] & -> & [Hf Hr']). simpl in *. subst. by exists s1'.
Qed.

End Sim.

#[export] Instance levels_sim {pre : Precompiles} K n : InterpreterSim (H:=levels K n).
Proof.
  induction n; intros S1 S2 ops1 ops2 R HR evm c input; simpl; [by intros s1 s2 Hr|]. by apply Run_sim.
Qed.

End VmSim.
