(* ===== verification/VmBaseProps.v ===== *)
(** What the building blocks of the interpreter guarantee: 256-bit words, memory within
    its bounds, the size an instruction asks for, and the bitmap of jump destinations. *)

From S2P Require Import Prelude Params Bytes Evm VmBase.
Import Evm Vm.

Module VmBaseProps.
#[local] Open Scope go_scope.

(** ** Words *)

Lemma U256_mod x : U256 x = x mod 2 ^ 256.
Proof. unfold U256, tt256m1, tt256. rewrite <- Z.land_ones by lia. by rewrite Z.ones_equiv. Qed.
Lemma U256_range x : 0 <= U256 x < 2 ^ 256.
Proof. rewrite U256_mod. by apply Z.mod_pos_bound. Qed.
Lemma U256_id x : 0 <= x < 2 ^ 256 -> U256 x = x.
Proof. rewrite U256_mod. apply Z.mod_small. Qed.

Lemma u8_range x : 0 <= u8 x <= 255.
Proof. unfold u8. pose proof (Z.mod_pos_bound x (2 ^ 8)). lia. Qed.
Lemma SetBytes_range b : 0 <= SetBytes b < 256 ^ len b.
Proof.
  unfold SetBytes. pose proof (be_value_bound (u8 <$> b)) as Hb.
  replace (len (u8 <$> b)) with (len b) in Hb by (unfold len; by rewrite length_fmap). apply Hb.
  apply Forall_fmap, Forall_true. intros x. simpl. apply u8_range.
Qed.
Lemma SetBytes_nonneg b : 0 <= SetBytes b.
Proof. apply SetBytes_range. Qed.

Lemma BitLen_le x n : 0 <= x -> 0 <= n -> BitLen x <= n <-> x < 2 ^ n.
Proof.
  intros Hx Hn. unfold BitLen. destruct (x =? 0) eqn:E; bool_to_prop; [subst; split; [intros _; lia|done]|].
  rewrite Z.abs_eq by done. rewrite (Z.log2_lt_pow2 x n) by lia. lia.
Qed.
Lemma BitLen_pos x : 0 < BitLen x <-> x <> 0.
Proof. unfold BitLen. destruct (x =? 0) eqn:E; bool_to_prop; [lia|]. pose proof (Z.log2_nonneg (Z.abs x)). lia. Qed.

Lemma bigUint64_ok x v : 0 <= x -> bigUint64 x = (v, false) -> v = x /\ is_u64 x.
Proof.
  intros Hx [= <- Hl]. bool_to_prop. apply BitLen_le in Hl; [|done|lia].
  assert (is_u64 x) by go_lia. split; [by apply big_Uint64_id|done].
Qed.

Lemma SafeAdd_ok x y v : is_u64 x -> is_u64 y -> SafeAdd x y = (v, false) -> v = x + y /\ is_u64 v.
Proof. intros Hx Hy [= <- Ho]. bool_to_prop. rewrite u64_id by go_lia. split; [done|go_lia]. Qed.
Lemma SafeMul_ok x y v : is_u64 x -> is_u64 y -> SafeMul x y = (v, false) -> v = x * y /\ is_u64 v.
Proof.
  intros Hx Hy. unfold SafeMul. destruct (_ || _) eqn:E.
  - intros [= <-]. apply orb_true_iff in E as [E|E]; bool_to_prop; subst; split; go_lia.
  - intros [= <- Ho]. bool_to_prop. assert (x * y <= MaxUint64).
    { assert (0 < x) by go_lia. etransitivity; [apply Z.mul_le_mono_nonneg_l; [lia|exact Ho]|]. apply Z.mul_div_le. lia. }
    rewrite u64_id by go_lia. split; [done|]. unfold is_u64 in *. nia.
Qed.

Lemma toWordSize_ge n : is_u64 n -> n <= 32 * toWordSize n /\ is_u64 (toWordSize n).
Proof. intros Hn. unfold toWordSize. destruct (_ <? _) eqn:E; div_lia. Qed.

(** ** Slices *)

Lemma slice_ok (s : bytes) lo hi : 0 <= lo -> lo <= hi -> hi <= len s ->
  exists d, slice s lo hi = Ret d /\ len d = hi - lo.
Proof.
  intros H1 H2 H3. unfold slice. rewrite (proj2 (Z.leb_le _ _) H1), (proj2 (Z.leb_le _ _) H2), (proj2 (Z.leb_le _ _) H3).
  simpl. eexists. split; [done|]. rewrite len_take, len_drop. lia.
Qed.

Lemma getDataBig_ok data start size : 0 <= start -> 0 <= size -> len data < 2 ^ 62 -> exists d, getDataBig data start size = Ret d.
Proof.
  intros Hs Hz Hl. unfold getDataBig, BigMin. cbv zeta. pose proof (len_nonneg data).
  set (s := if len data <? start then len data else start). assert (Hsr : 0 <= s <= len data) by (unfold s; destruct (_ <? _) eqn:E; bool_to_prop; lia).
  clearbody s. set (e := if len data <? s + size then len data else s + size).
  assert (Her : s <= e <= len data) by (unfold e; destruct (_ <? _) eqn:E; bool_to_prop; lia).
  clearbody e. rewrite (big_Uint64_id s), (big_Uint64_id e) by go_lia. destruct (slice_ok data s e) as (d & -> & _); [lia..|]. by eexists.
Qed.

(** ** Memory

    The store grows by whole words, and what has been paid for it is its price. *)

Definition maxMemory : Z := 0xffffffffe0.
(** The price of a memory as the code computes it: the square wraps around. *)
Definition mem_fee (size : Z) : Z := 3 * (size / 32) + u64 ((size / 32) * (size / 32)) / 512.

Record mem_ok (m : Memory) : Prop := {
  mo_words : len (store m) mod 32 = 0;
  mo_max : len (store m) <= maxMemory;
  mo_fee : lastGasCost m = mem_fee (len (store m))
}.

Lemma len_splice dst off src : (off + length src <= length dst)%nat -> len (splice dst off src) = len dst.
Proof. intros H. unfold splice. rewrite !len_app, len_take, len_drop. unfold len. lia. Qed.

Lemma mem_Set_ok m offset size value : mem_ok m -> 0 <= offset -> 0 <= size -> (size <> 0 -> offset + size <= len (store m)) ->
  exists m', mem_Set m offset size value = Ret m' /\ mem_ok m' /\ len (store m') = len (store m).
Proof.
  intros Hm Ho Hs Hb. unfold mem_Set. destruct (decide (size = 0)) as [->|Hz].
  { rewrite (proj2 (Z.ltb_ge _ _)) by apply len_nonneg. by exists m. }
  specialize (Hb Hz). pose proof (mo_max m Hm) as Hmax. unfold maxMemory in Hmax.
  rewrite (proj2 (Z.ltb_ge _ _)), (proj2 (Z.ltb_lt _ _)), u64_id by go_lia.
  destruct (slice_ok (store m) offset (offset + size)) as (d & -> & Hd); [lia..|]. simpl. eexists. split; [done|].
  assert (Hl : len (splice (store m) (Z.to_nat offset) (take (length d) value)) = len (store m)).
  { apply len_splice. rewrite length_take. unfold len in *. lia. }
  split; [|done]. destruct Hm. by split; simpl; rewrite ?Hl.
Qed.

Lemma mem_Get_ok m offset size : mem_ok m -> 0 <= offset -> 0 <= size -> (size <> 0 -> offset + size <= len (store m)) ->
  exists d, mem_Get m (big_Int64 offset) (big_Int64 size) = Ret d /\ len d < 2 ^ 62.
Proof.
  intros Hm Ho Hs Hb. unfold mem_Get. destruct (decide (size = 0)) as [->|Hz]; [by exists []|].
  specialize (Hb Hz). pose proof (mo_max m Hm) as Hmax. unfold maxMemory in Hmax. unfold big_Int64. rewrite !i64_id by lia.
  rewrite (proj2 (Z.eqb_neq _ _) Hz), (proj2 (Z.ltb_lt _ _)), (proj2 (Z.ltb_ge _ _)) by lia.
  destruct (slice_ok (store m) offset (offset + size)) as (d & -> & Hd); [lia..|]. exists d. split; [done|]. lia.
Qed.

Lemma GetPtr_ok m offset size : mem_ok m -> 0 <= offset -> 0 <= size -> (size <> 0 -> offset + size <= len (store m)) ->
  exists d, GetPtr m (big_Int64 offset) (big_Int64 size) = Ret d.
Proof.
  intros Hm Ho Hs Hb. unfold GetPtr. destruct (decide (size = 0)) as [->|Hz]; [by exists []|].
  specialize (Hb Hz). pose proof (mo_max m Hm) as Hmax. unfold maxMemory in Hmax. unfold big_Int64. rewrite !i64_id by lia.
  rewrite (proj2 (Z.eqb_neq _ _) Hz), (proj2 (Z.ltb_lt _ _)) by lia.
  destruct (slice_ok (store m) offset (offset + size)) as (d & -> & Hd); [lia..|]. by exists d.
Qed.

Lemma len_Resize m ms : 0 <= ms -> len (store (Resize m ms)) = Z.max (len (store m)) ms.
Proof.
  intros H. unfold Resize. destruct (_ <? _) eqn:E; bool_to_prop; [|lia]. simpl. rewrite len_app, len_replicate. lia.
Qed.

(** A memory whose expansion to [ms] has been paid. *)
Lemma Resize_ok m ms : ms mod 32 = 0 -> 0 <= ms <= maxMemory -> len (store m) mod 32 = 0 -> len (store m) <= maxMemory ->
  lastGasCost m = mem_fee (Z.max (len (store m)) ms) -> mem_ok (Resize m ms).
Proof.
  intros H1 H2 H3 H4 H5. split; rewrite len_Resize by lia.
  - destruct (Z.max_spec (len (store m)) ms) as [[_ ->]|[_ ->]]; done.
  - lia.
  - rewrite <- H5. unfold Resize. by destruct (_ <? _).
Qed.

(** ** The size an instruction asks for *)

Lemma calcMemSize_ge off l n : 0 <= off -> 0 <= l -> calcMemSize off l <= n -> l <> 0 -> off + l <= n.
Proof. unfold calcMemSize. intros Ho Hl Hn Hz. destruct (l =? 0) eqn:E; bool_to_prop; lia. Qed.
Lemma calcMemSize_nonneg off l : 0 <= off -> 0 <= l -> 0 <= calcMemSize off l.
Proof. unfold calcMemSize. destruct (l =? 0); lia. Qed.

(** ** The bitmap of data bytes *)

(** Bit [q] of the vector. *)
Definition marked (bits : bytes) (q : Z) : bool :=
  match bits !! Z.to_nat (q / 8) with Some b => Z.testbit b (7 - q mod 8) | None => false end.

Lemma or_at_spec bits i mask : 0 <= i < len bits -> exists bits', or_at bits i mask = Ret bits' /\ length bits' = length bits /\
  forall q, 0 <= q -> marked bits' q = marked bits q || ((q / 8 =? i) && Z.testbit mask (7 - q mod 8)).
Proof.
  intros Hi. unfold or_at. assert (Hlt : (Z.to_nat i < length bits)%nat) by (unfold len in Hi; lia).
  destruct (lookup_lt_is_Some_2 bits _ Hlt) as [b Hb]. rewrite Hb.
  eexists. split; [done|]. split; [by rewrite length_insert|]. intros q Hq. unfold marked.
  destruct (q / 8 =? i) eqn:E; bool_to_prop.
  - subst. rewrite list_lookup_insert_eq by done. by rewrite Hb, Z.lor_spec.
  - rewrite list_lookup_insert_ne by (pose proof (Z.div_pos q 8); lia). by rewrite orb_false_r.
Qed.

Ltac octal r := assert (r = 0 \/ r = 1 \/ r = 2 \/ r = 3 \/ r = 4 \/ r = 5 \/ r = 6 \/ r = 7) as Hr8 by lia;
  destruct Hr8 as [-> | [-> | [-> | [-> | [-> | [-> | [-> | ->]]]]]]].

Lemma bit_masks r k : 0 <= r < 8 -> 0 <= k < 8 ->
  Z.testbit (Z.shiftr 0x80 r) (7 - k) = (k =? r) /\ Z.testbit (Z.shiftr 0xFF r) (7 - k) = (r <=? k) /\
  Z.testbit (u8 (Z.lnot (Z.shiftr 0xFF r))) (7 - k) = (k <? r).
Proof. intros Hr Hk. octal r; octal k; by vm_compute. Qed.

Lemma bv_set_spec bits pos : 0 <= pos -> pos / 8 < len bits -> exists bits', bv_set bits pos = Ret bits' /\ length bits' = length bits /\
  forall q, 0 <= q -> marked bits' q = marked bits q || (q =? pos).
Proof.
  intros Hp Hl. unfold bv_set. destruct (or_at_spec bits (pos / 8) (Z.shiftr 0x80 (pos mod 8))) as (bits' & -> & Hlen & Hm); [div_lia|].
  exists bits'. split_and!; [done|done|]. intros q Hq. rewrite Hm by done. f_equal.
  destruct (bit_masks (pos mod 8) (q mod 8)) as (-> & _ & _); [div_lia..|].
  destruct (q =? pos) eqn:E; bool_to_prop; [subst; by rewrite !Z.eqb_refl|].
  destruct (q / 8 =? pos / 8) eqn:E1, (q mod 8 =? pos mod 8) eqn:E2; try done. div_lia.
Qed.

Lemma bv_set8_spec bits pos : 0 <= pos -> pos / 8 + 1 < len bits -> exists bits', bv_set8 bits pos = Ret bits' /\ length bits' = length bits /\
  forall q, 0 <= q -> marked bits' q = marked bits q || ((pos <=? q) && (q <? pos + 8)).
Proof.
  intros Hp Hl. unfold bv_set8.
  destruct (or_at_spec bits (pos / 8) (Z.shiftr 0xFF (pos mod 8))) as (b1 & -> & Hl1 & Hm1); [div_lia|]. simpl.
  destruct (or_at_spec b1 (pos / 8 + 1) (u8 (Z.lnot (Z.shiftr 0xFF (pos mod 8))))) as (b2 & -> & Hl2 & Hm2); [unfold len in *; div_lia|].
  exists b2. split_and!; [done|congruence|]. intros q Hq. rewrite Hm2, Hm1 by done. rewrite <- orb_assoc. f_equal.
  destruct (bit_masks (pos mod 8) (q mod 8)) as (_ & -> & ->); [div_lia..|].
  destruct (q / 8 =? pos / 8) eqn:E1, (q / 8 =? pos / 8 + 1) eqn:E2, (pos mod 8 <=? q mod 8) eqn:E3,
    (q mod 8 <? pos mod 8) eqn:E4, (pos <=? q) eqn:E5, (q <? pos + 8) eqn:E6; try done; exfalso; div_lia.
Qed.

Lemma mark1_spec n pc bits : 0 <= pc -> (pc + Z.of_nat n) / 8 < len bits -> exists bits',
  mark1 n pc bits = Ret (pc + Z.of_nat n, bits') /\ length bits' = length bits /\
  forall q, 0 <= q -> marked bits' q = marked bits q || ((pc <=? q) && (q <? pc + Z.of_nat n)).
Proof.
  revert pc bits. induction n as [|n IH]; intros pc bits Hp Hl; simpl mark1.
  - exists bits. split_and!; [do 2 f_equal; lia|done|]. intros q Hq. destruct (pc <=? q) eqn:E; simpl; [|by rewrite orb_false_r].
    rewrite (proj2 (Z.ltb_ge _ _)) by (bool_to_prop; lia). by rewrite orb_false_r.
  - destruct (bv_set_spec bits pc) as (b1 & -> & Hl1 & Hm1); [done|div_lia|]. simpl.
    destruct (IH (pc + 1) b1) as (b2 & -> & Hl2 & Hm2); [lia|unfold len in *; div_lia|].
    exists b2. split_and!; [do 2 f_equal; lia|congruence|]. intros q Hq. rewrite Hm2, Hm1 by done. rewrite <- orb_assoc. f_equal.
    destruct (q =? pc) eqn:E1, (pc + 1 <=? q) eqn:E2, (q <? pc + 1 + Z.of_nat n) eqn:E3, (pc <=? q) eqn:E4,
      (q <? pc + Z.of_nat (S n)) eqn:E5; try done; exfalso; bool_to_prop; lia.
Qed.

Lemma mark8_spec n k pc bits : 0 <= pc -> 0 <= k < 8 * Z.of_nat (S n) -> pc / 8 + Z.of_nat n < len bits -> exists bits' k' pc',
  mark8 n k pc bits = Ret (k', pc', bits') /\ length bits' = length bits /\ pc' + k' = pc + k /\ pc <= pc' /\ 0 <= k' < 8 /\
  forall q, 0 <= q -> marked bits' q = marked bits q || ((pc <=? q) && (q <? pc')).
Proof.
  revert k pc bits. induction n as [|n IH]; intros k pc bits Hp Hk Hl; simpl mark8.
  - exists bits, k, pc. split_and!; try done; try lia. intros q Hq. destruct (pc <=? q) eqn:E; simpl; [|by rewrite orb_false_r].
    rewrite (proj2 (Z.ltb_ge _ _)) by (bool_to_prop; lia). by rewrite orb_false_r.
  - destruct (8 <=? k) eqn:E8.
    + destruct (bv_set8_spec bits pc) as (b1 & -> & Hl1 & Hm1); [done|div_lia|]. simpl.
      destruct (IH (k - 8) (pc + 8) b1) as (b2 & k' & pc' & -> & Hl2 & Hs & Hge & Hk' & Hm2); [lia|go_lia|unfold len in *; div_lia|].
      exists b2, k', pc'. split_and!; try done; try lia. intros q Hq. rewrite Hm2, Hm1 by done. rewrite <- orb_assoc. f_equal.
      destruct (pc <=? q) eqn:E1, (q <? pc + 8) eqn:E2, (pc + 8 <=? q) eqn:E3, (q <? pc') eqn:E4; try done; exfalso; bool_to_prop; lia.
    + exists bits, k, pc. split_and!; try done; try go_lia. intros q Hq. destruct (pc <=? q) eqn:E; simpl; [|by rewrite orb_false_r].
      rewrite (proj2 (Z.ltb_ge _ _)) by (bool_to_prop; lia). by rewrite orb_false_r.
Qed.

(** Where the instructions of a program begin. *)
Definition push_len (op : Z) : Z := if (PUSH1 <=? op) && (op <=? PUSH32) then op - PUSH1 + 1 else 0.
Inductive instr_start (code : bytes) : Z -> Prop :=
| start_first : instr_start code 0
| start_next pc op : instr_start code pc -> code !! Z.to_nat pc = Some op -> instr_start code (pc + 1 + push_len op).

Lemma push_len_range op : 0 <= push_len op <= 32.
Proof. unfold push_len, PUSH1, PUSH32. destruct (_ && _) eqn:E; bool_to_prop; lia. Qed.

Lemma instr_start_nonneg code q : instr_start code q -> 0 <= q.
Proof. induction 1 as [|pc op]; [done|]. pose proof (push_len_range op). lia. Qed.

(** No instruction begins within another one. *)
Lemma instr_start_apart code p q op : instr_start code p -> instr_start code q -> code !! Z.to_nat p = Some op -> p < q ->
  p + 1 + push_len op <= q.
Proof.
  intros Hp Hq Ho Hlt. assert (exists n, q <= Z.of_nat n) as [n Hn] by (exists (Z.to_nat q); lia).
  revert p q op Hp Hq Ho Hlt Hn. induction n as [|n IH]; intros p q op Hp Hq Ho Hlt Hn.
  { apply instr_start_nonneg in Hp. lia. }
  inversion Hq as [|p' op' Hp' Ho' Hq']; [apply instr_start_nonneg in Hp; lia|].
  pose proof (push_len_range op'). destruct (Z.lt_trichotomy p p') as [Hl|[->|Hl]].
  - pose proof (IH p p' op Hp Hp' Ho Hl). lia.
  - rewrite Ho in Ho'. injection Ho' as ->. lia.
  - pose proof (IH p' p op' Hp' Hp Ho' Hl). lia.
Qed.

Lemma bitmap_loop_spec code fuel pc bits : instr_start code pc -> len code - pc <= Z.of_nat fuel -> len bits = len code / 8 + 5 ->
  (forall q, 0 <= q < pc -> marked bits q = false <-> instr_start code q) -> (forall q, pc <= q -> marked bits q = false) ->
  exists bits', bitmap_loop fuel code pc bits = Ret bits' /\ length bits' = length bits /\
    forall q, 0 <= q < len code -> marked bits' q = false <-> instr_start code q.
Proof.
  revert pc bits. induction fuel as [|fuel IH]; intros pc bits Hst Hf Hl Hlo Hhi; cbn [bitmap_loop].
  { exists bits. split_and!; [done|done|]. intros q Hq. apply Hlo. lia. }
  pose proof (instr_start_nonneg _ _ Hst) as Hp. destruct (pc <? len code) eqn:E; bool_to_prop.
  2:{ exists bits. split_and!; [done|done|]. intros q Hq. apply Hlo. lia. }
  destruct (lookup_lt_is_Some_2 code (Z.to_nat pc)) as [op Hop]; [unfold len in E; lia|]. rewrite Hop. cbn [deref mbind outcome_bind].
  assert (Hnext : instr_start code (pc + 1 + push_len op)) by (by constructor).
  (* marking [push_len op] positions after the instruction keeps the invariant *)
  assert (Hinv : forall bits', length bits' = length bits ->
    (forall q, 0 <= q -> marked bits' q = marked bits q || ((pc + 1 <=? q) && (q <? pc + 1 + push_len op))) ->
    exists b, bitmap_loop fuel code (pc + 1 + push_len op) bits' = Ret b /\ length b = length bits /\
      forall q, 0 <= q < len code -> marked b q = false <-> instr_start code q).
  { intros bits' Hlen Hm. pose proof (push_len_range op) as Hpl.
    destruct (IH (pc + 1 + push_len op) bits') as (b & -> & Hlb & Hb); [done|lia|unfold len in *; lia| | |by exists b; split_and!; [done|congruence|]].
    - intros q Hq. rewrite Hm by lia. destruct (decide (q < pc)) as [Hlt|Hge].
      + rewrite (proj2 (Z.leb_gt _ _)) by lia. rewrite orb_false_r. apply Hlo. lia.
      + rewrite (Hhi q) by lia. simpl. destruct (decide (q = pc)) as [->|Hne].
        * rewrite (proj2 (Z.leb_gt _ _)) by lia. done.
        * rewrite (proj2 (Z.leb_le _ _)), (proj2 (Z.ltb_lt _ _)) by lia. simpl. split; [done|]. intros Hq'.
          pose proof (instr_start_apart code pc q op Hst Hq' Hop). lia.
    - intros q Hq. rewrite Hm, Hhi by lia. rewrite (proj2 (Z.ltb_ge q _)) by lia. by rewrite andb_false_r. }
  unfold push_len in Hinv. destruct ((PUSH1 <=? op) && (op <=? PUSH32)) eqn:Epush.
  - unfold PUSH1, PUSH32 in *. bool_to_prop. pose proof (len_nonneg code).
    destruct (mark8_spec 4 (op - 96 + 1) (pc + 1) bits) as (b1 & k & pc1 & Hm8 & Hl1 & Hs1 & Hge1 & Hk1 & Hm1); [lia|lia|div_lia|].
    rewrite Hm8. cbn [mbind outcome_bind]. destruct (mark1_spec (Z.to_nat k) pc1 b1) as (b2 & Hm2 & Hl2 & Hmm2); [lia|unfold len in *; div_lia|].
    rewrite Hm2. cbn [mbind outcome_bind]. replace (pc1 + Z.of_nat (Z.to_nat k)) with (pc + 1 + (op - 96 + 1)) in * by lia.
    apply Hinv; [congruence|]. intros q Hq. rewrite Hmm2, Hm1 by done. rewrite <- orb_assoc. f_equal.
    destruct (pc + 1 <=? q) eqn:E1, (q <? pc1) eqn:E2, (pc1 <=? q) eqn:E3, (q <? pc + 1 + (op - 96 + 1)) eqn:E4; try done; exfalso; bool_to_prop; lia.
  - replace (pc + 1 + 0) with (pc + 1) in Hinv by lia. apply Hinv; [done|]. intros q Hq.
    destruct (pc + 1 <=? q) eqn:E1; simpl; [|by rewrite orb_false_r]. rewrite (proj2 (Z.ltb_ge _ _)) by (bool_to_prop; lia). by rewrite orb_false_r.
Qed.

Lemma marked_zeros n q : marked (replicate n 0) q = false.
Proof.
  unfold marked. destruct (replicate n 0 !! _) as [b|] eqn:E; [|done]. apply lookup_replicate in E as [-> _]. apply Z.testbit_0_l.
Qed.

Lemma codeBitmap_spec code : exists bits, codeBitmap code = Ret bits /\ len bits = len code / 8 + 5 /\
  forall q, 0 <= q < len code -> marked bits q = false <-> instr_start code q.
Proof.
  assert (Hlen : len (replicate (length code / 8 + 1 + 4) 0) = len code / 8 + 5).
  { rewrite len_replicate. unfold len. rewrite !Nat2Z.inj_add, Nat2Z.inj_div. lia. }
  destruct (bitmap_loop_spec code (length code) 0 (replicate (length code / 8 + 1 + 4) 0)) as (bits & Hb & Hl & Hm);
    [constructor|unfold len; lia|done|lia|intros; apply marked_zeros|].
  exists bits. split_and!; [done| |done]. unfold len in *. lia.
Qed.

Lemma codeSegment_spec bits q : 0 <= q -> q / 8 < len bits -> codeSegment bits q = Ret (negb (marked bits q)).
Proof.
  intros Hq Hl. unfold codeSegment, marked. destruct (lookup_lt_is_Some_2 bits (Z.to_nat (q / 8))) as [b ->]; [unfold len in Hl; div_lia|].
  simpl. f_equal. assert (Hmask : Z.shiftr 0x80 (q mod 8) = 2 ^ (7 - q mod 8)).
  { assert (0 <= q mod 8 < 8) as Hr by div_lia. generalize dependent (q mod 8). intros r Hr. octal r; by vm_compute. }
  rewrite Hmask. destruct (Z.testbit b (7 - q mod 8)) eqn:E; simpl.
  - apply Z.eqb_neq. intros H0. assert (Z.testbit (Z.land b (2 ^ (7 - q mod 8))) (7 - q mod 8) = true) as H1; [|by rewrite H0, Z.testbit_0_l in H1].
    rewrite Z.land_spec, E, Z.pow2_bits_true; [done|div_lia].
  - apply Z.eqb_eq. apply Z.bits_inj'. intros n Hn. rewrite Z.land_spec, Z.testbit_0_l.
    destruct (decide (n = 7 - q mod 8)) as [->|Hne]; [by rewrite E|]. rewrite Z.pow2_bits_false by lia. apply andb_false_r.
Qed.

(** A cache that only holds bitmaps of this code under its hash. *)
Definition cache_ok (d : gmap Hash bytes) (h : Hash) (code : bytes) : Prop := forall m, d !! h = Some m -> codeBitmap code = Ret m.

Lemma has_spec d h code dest : cache_ok d h code -> 0 <= dest -> len code < 2 ^ 62 -> exists d' b, has d h code dest = Ret (d', b) /\
  cache_ok d' h code /\ (b = true <-> dest < len code /\ code !! Z.to_nat dest = Some JUMPDEST /\ instr_start code dest).
Proof.
  intros Hc Hd Hl. unfold has. destruct (63 <=? BitLen dest) eqn:E63; simpl.
  { exists d, false. split_and!; [done|done|]. split; [done|]. intros (H & _). apply Z.leb_le in E63.
    assert (BitLen dest <= 62) by (apply BitLen_le; lia). lia. }
  assert (Hd63 : dest < 2 ^ 62 \/ 2 ^ 62 <= dest) by lia. apply Z.leb_gt in E63. assert (dest < 2 ^ 62) by (apply BitLen_le; lia).
  rewrite big_Uint64_id by go_lia. destruct (len code <=? dest) eqn:El; bool_to_prop.
  { exists d, false. split_and!; [done|done|]. split; [done|lia]. }
  destruct (codeBitmap_spec code) as (bits & Hb & Hlb & Hbits).
  assert (exists d', (match d !! h with Some m => Ret (d, m) | None => m ← codeBitmap code; Ret (<[h:=m]> d, m) end) = Ret (d', bits) /\ cache_ok d' h code)
    as (d' & -> & Hc').
  { destruct (d !! h) as [m|] eqn:Em; [rewrite (Hc m Em) in Hb; injection Hb as ->; by exists d|]. rewrite Hb. simpl.
    eexists. split; [done|]. intros m. rewrite lookup_insert_eq. by intros [= <-]. }
  simpl. destruct (lookup_lt_is_Some_2 code (Z.to_nat dest)) as [op Hop]; [unfold len in El; lia|]. rewrite Hop. simpl.
  destruct (op =? JUMPDEST) eqn:Eo; bool_to_prop.
  - subst op. rewrite codeSegment_spec by div_lia. simpl. exists d', (negb (marked bits dest)). split_and!; [done|done|].
    rewrite negb_true_iff, Hbits by lia. naive_solver.
  - exists d', false. split_and!; [done|done|]. split; [done|]. intros (_ & [= ->] & _). done.
Qed.

(** The analysis of jump destinations, eight bits at a time over a bit vector and
    cached by code hash, accepts exactly the positions within the code that hold a
    [JUMPDEST] byte at which an instruction begins; it never indexes out of bounds, not
    even for a [PUSH32] at the very end of the code. *)
Theorem jump_analysis_exact d h code dest : cache_ok d h code -> 0 <= dest -> len code < 2 ^ 62 -> exists d' b,
  has d h code dest = Ret (d', b) /\ cache_ok d' h code /\
  (b = true <-> dest < len code /\ code !! Z.to_nat dest = Some JUMPDEST /\ instr_start code dest).
Proof. apply has_spec. Qed.

(** PUSH2 with a data byte 0x5b, then a real destination. *)
Lemma jump_analysis_exact_witness : let code := [0x61; 0x5b; 0x5b; 0x5b] in
  (has ∅ 1 code 1 ≫= fun r => Ret r.2) = Ret false /\ instr_start code 3.
Proof.
  intros code. split.
  - destruct (jump_analysis_exact ∅ 1 code 1 ltac:(intros m Hm; rewrite lookup_empty in Hm; discriminate Hm) ltac:(lia) ltac:(by vm_compute))
      as (d' & b & Hh & _). rewrite Hh. revert Hh. vm_compute. by intros [= _ <-].
  - destruct (jump_analysis_exact ∅ 1 code 3 ltac:(intros m Hm; rewrite lookup_empty in Hm; discriminate Hm) ltac:(lia) ltac:(by vm_compute))
      as (d' & b & Hh & _ & Hb). apply Hb. revert Hh. vm_compute. by intros [= _ <-].
Defined.

End VmBaseProps.
