(* ===== verification/VmSafe.v ===== *)
(** The interpreter never panics: on every code, input and state, whatever the stack and
    the memory hold, each instruction finds its operands, stays within the memory it has
    paid for, and leaves the frame as the next one expects it. *)

From S2P Require Import Prelude Params Bytes StateDB StateDBSpec StateDBRefine StateDBProps Evm EvmProps VmBase VmGas VmInstr VmInterp VmBaseProps.
Import StateSpec Evm EvmProps Vm VmGas VmInstr VmInterp VmBaseProps.

Module VmSafe.

(** ** Rules for code on frames *)

Section Rules.
Context {St : Type} {ops : StateOps St}.

Lemma ens_getf {A} (g : Frame -> A) s (Q : Frame * St -> A -> Prop) : Q s (g s.1) -> ens (getf (St:=St) g) s Q.
Proof. intros H. by eexists _, _. Qed.
Lemma ens_modf g s (Q : Frame * St -> unit -> Prop) : Q (g s.1, s.2) tt -> ens (modf (St:=St) g) s Q.
Proof. intros H. by eexists _, _. Qed.
Lemma ens_lift {S A} (m : outcome A) x (s : S) (Q : S -> A -> Prop) : m = Ret x -> Q s x -> ens (lift m) s Q.
Proof. intros -> H. by eexists _, _. Qed.
Lemma ens_onst {A} (p : SM St A) s (Q : Frame * St -> A -> Prop) : ens p s.2 (fun s' x => Q (s.1, s') x) -> ens (onst p) s Q.
Proof. intros (s' & x & Hp & Hq). exists (s.1, s'), x. unfold onst. by rewrite Hp. Qed.
Lemma ens_try {A B} (p : SM (Frame * St) (VmError + A)) (k : A -> SM (Frame * St) (VmError + B)) s Q :
  ens p s (fun s' r => match r with inl e => Q s' (inl e) | inr x => ens (k x) s' Q end) -> ens (try p k) s Q.
Proof. intros Hp. apply ens_bind. eapply ens_mono; [exact Hp|]. intros s' [e|x]; [apply ens_ret|done]. Qed.
Lemma ens_safe r s (Q : Frame * St -> VmError + Z -> Prop) : Q s (inl errGasUintOverflow) -> (forall v, r = (v, false) -> Q s (inr v)) -> ens (safe r) s Q.
Proof. intros H1 H2. unfold safe. apply ens_ret. destruct r as [v [|]]; simpl; auto. Qed.
Lemma ens_back n x s (Q : Frame * St -> Z -> Prop) : stack s.1 !! n = Some x -> Q s x -> ens (back n) s Q.
Proof. intros Hx Hq. apply ens_bind, ens_getf. apply (ens_lift _ x); [|done]. unfold Back. by rewrite Hx. Qed.
End Rules.

Lemma makeStackFunc_None a b st : makeStackFunc a b st = None -> a <= len st /\ len st + b - a <= StackLimit.
Proof.
  unfold makeStackFunc, require. destruct (len st <? a) eqn:E; [done|]. destruct (StackLimit <? len st + b - a) eqn:E2; [done|]. intros _. bool_to_prop. lia.
Qed.

Section Safe.
Context {pre : Precompiles} {plaws : PrecompilesLaws} {interp : Interpreter} (K : bytes -> Hash) {d0 : Z} {ilaws : InterpreterLaws K d0}.
#[local] Instance spec_ops : StateOps Machine := Machine_ops K.

(** The contract, its input and the environment of one run. *)
Context (c0 : Contract) (input0 : bytes) (Hvalue : 0 <= value c0) (Hcode : len (Evm.Code c0) < 2 ^ 62) (Hinput : len input0 < 2 ^ 62).
Context (evm : EVM) (Hprice : 0 <= GasPrice evm) (Hdepth : 0 <= d0 <= depth evm).

(** *** The invariant of a frame *)

Record frame_ok (f : Frame) : Prop := {
  fo_contract : contract f = with_Gas c0 (Gas (contract f));
  fo_gas : is_u64 (Gas (contract f));
  fo_input : Input f = input0;
  fo_stack : Forall (fun x => 0 <= x) (stack f);
  fo_limit : len (stack f) <= StackLimit;
  fo_mem : mem_ok (mem f);
  fo_dests : cache_ok (jumpdests f) (CodeHash c0) (Evm.Code c0);
  fo_temp : 0 <= callGasTemp f;
  fo_pc : 0 <= pc f <= len (Evm.Code c0) + 33
}.

(** What an instruction may give back, at most, on top of the gas it finds. *)
Abbreviation allowance := (Frame -> Z).

(** The frame after the price is fixed: memory up to [ms] is paid for. *)
Definition priced (f f' : Frame) (ms : Z) : Prop := exists t,
  f' = with_callGasTemp t (with_mem (MkMemory (store (mem f)) (mem_fee (Z.max (len (store (mem f))) ms))) f) /\ 0 <= t /\ ms <= maxMemory.

Definition gas_spec (o : operation) (allow : allowance) : Prop := forall f m ms,
  frame_ok f -> fresh_ids m -> sane (cur m) -> validateStack o (stack f) = None ->
  requiredMemory o (stack f) = Ret (inr ms) -> ms mod 32 = 0 -> 0 <= ms -> (static evm = true -> writes o = false) ->
  ens (gasCost o GasTableEIP158 ms) (f, m) (fun s' r => progresses K evm m s'.2 /\ contract s'.1 = contract f /\
    match r with
    | inl _ => True
    | inr cost => priced f s'.1 ms /\ allow s'.1 + (if halts o || reverts o then 0 else 1) <= cost /\ 0 <= allow s'.1
    end).

Definition exec_post (f : Frame) (m : Machine) (a : Z) (s' : Frame * Machine) (r : bytes * option VmError) : Prop :=
  progresses K evm m s'.2 /\ contract s'.1 = with_Gas c0 (Gas (contract s'.1)) /\
  0 <= Gas (contract s'.1) <= Gas (contract f) + a /\
  (r.2 = None -> frame_ok (with_pc 0 s'.1) /\ 0 <= pc s'.1 <= Z.max (pc f) (len (Evm.Code c0)) + 32).

Definition exec_spec (op : Z) (o : operation) (allow : allowance) : Prop := forall f m ms,
  frame_ok f -> fresh_ids m -> sane (cur m) -> validateStack o (stack f) = None ->
  requiredMemory o (stack f) = Ret (inr ms) -> ms <= len (store (mem f)) -> Gas (contract f) + allow f <= MaxUint64 ->
  enforceRestrictions evm op o (stack f) = Ret None -> (static evm = true -> writes o = false) ->
  ens (execute o evm) (f, m) (exec_post f m (allow f)).

(** Allowances that do not depend on what paying and resizing change. *)
Definition stable (allow : allowance) : Prop := forall f c mm, allow (with_contract c (with_mem mm f)) = allow f.

Definition entry_ok (e : Z * operation) : Prop := exists allow, stable allow /\ gas_spec e.2 allow /\ exec_spec e.1 e.2 allow.

(** *** One turn of the loop *)

Definition turn_post (f : Frame) (m : Machine) (s' : Frame * Machine) (r : option (bytes * option VmError)) : Prop :=
  progresses K evm m s'.2 /\
  match r with
  | Some _ => 0 <= Gas (contract s'.1) <= Gas (contract f)
  | None => frame_ok s'.1 /\ Gas (contract s'.1) < Gas (contract f)
  end.

Lemma requiredMemory_inv (o : operation (St:=Machine)) st ms : requiredMemory o st = Ret (inr ms) -> (forall f, memorySize o = Some f -> forall n, f st = Ret n -> 0 <= n) ->
  ms mod 32 = 0 /\ 0 <= ms /\ forall f, memorySize o = Some f -> exists n, f st = Ret n /\ n <= ms.
Proof.
  unfold requiredMemory. destruct (memorySize o) as [f|]; [|by intros [= <-]]. intros Hr Hn.
  destruct (f st) as [n|] eqn:Ef; [|done]. cbn [mbind outcome_bind] in Hr. specialize (Hn f eq_refl n Ef).
  destruct (bigUint64 n) as [v [|]] eqn:Eb; [done|]. apply bigUint64_ok in Eb as [-> Hu]; [|done].
  destruct (toWordSize_ge n Hu) as [Hw Hwu]. destruct (SafeMul (toWordSize n) 32) as [v [|]] eqn:Em; [done|].
  apply SafeMul_ok in Em as [-> Hvu]; [|done|go_lia]. injection Hr as <-.
  rewrite Z.mod_mul by done. split_and!; [done|go_lia|]. intros f' [= <-]. exists n. split; [done|lia].
Qed.

(** *** The loop around an instruction *)

Lemma fo_with_pc f n : frame_ok (with_pc 0 f) -> 0 <= n <= len (Evm.Code c0) + 33 -> frame_ok (with_pc n f).
Proof. intros [] Hn. by split. Qed.

Lemma frame_ok_pc f : frame_ok (with_pc 0 f) -> 0 <= pc f <= len (Evm.Code c0) + 33 -> frame_ok f.
Proof. intros Hf Hn. pose proof (fo_with_pc f (pc f) Hf Hn) as H. by destruct f. Qed.

Lemma continue_ok (o : operation (St:=Machine)) res err f1 f m m1 a : progresses K evm m m1 -> 0 <= Gas (contract f1) <= Gas (contract f) - a ->
  (halts o || reverts o = false -> 1 <= a) -> 0 <= a ->
  (err = None -> frame_ok (with_pc 0 f1) /\ (halts o || reverts o = false -> 0 <= pc f1 <= len (Evm.Code c0) + 32)) ->
  ens (continue o res err) (f1, m1) (turn_post f m).
Proof.
  intros Hp Hg Ha Ha0 Hok. unfold continue. apply ens_bind.
  assert (Hr : exists f2, ens (if returns o then modf (with_returnData res) else mret tt) (f1, m1)
    (fun s _ => s = (f2, m1)) /\ Gas (contract f2) = Gas (contract f1) /\ pc f2 = pc f1 /\
    (frame_ok (with_pc 0 f1) -> frame_ok (with_pc 0 f2))).
  { destruct (returns o); [exists (with_returnData res f1)|exists f1]; split_and!; try done.
    - by apply ens_modf.
    - intros []. by split.
    - by apply ens_ret. }
  destruct Hr as (f2 & Hr & Hg2 & Hpc2 & Hf2). eapply ens_mono; [exact Hr|]. intros ? [] ->.
  destruct err as [e|]; [apply ens_ret; split; [done|simpl; lia]|]. destruct (Hok eq_refl) as [Hf1 Hpc1].
  destruct (reverts o); [apply ens_ret; split; [done|simpl; lia]|].
  destruct (halts o); [apply ens_ret; split; [done|simpl; lia]|]. specialize (Hpc1 eq_refl). specialize (Ha eq_refl).
  destruct (jumps o); simpl.
  - apply ens_ret. split; [done|]. split; [|simpl; lia]. cbn [fst]. apply frame_ok_pc; [by apply Hf2|]. rewrite Hpc2. lia.
  - apply ens_bind, ens_getf, ens_bind, ens_modf, ens_ret. split; [done|]. cbn [fst snd]. split; [|simpl; lia].
    assert (len (Evm.Code c0) < 2 ^ 62) by done. rewrite Hpc2, u64_id by go_lia. apply fo_with_pc; [by apply Hf2|]. lia.
Qed.

Lemma pay_ok o allow f m ms : gas_spec o allow -> stable allow -> frame_ok f -> fresh_ids m -> sane (cur m) ->
  validateStack o (stack f) = None -> requiredMemory o (stack f) = Ret (inr ms) -> ms mod 32 = 0 -> 0 <= ms ->
  (static evm = true -> writes o = false) ->
  ens (pay o ms) (f, m) (fun s' b => progresses K evm m s'.2 /\
    if b then exists f1 cost, priced f f1 ms /\ 0 <= allow f1 /\ allow f1 + (if halts o || reverts o then 0 else 1) <= cost /\
      cost <= Gas (contract f) /\ s'.1 = with_contract (with_Gas c0 (Gas (contract f) - cost)) f1
    else Gas (contract s'.1) = Gas (contract f)).
Proof.
  intros Hgs Hst Hf Hfr Hs Hval Hreq Hmod Hms Hw. unfold pay. apply ens_bind.
  eapply ens_mono; [by apply (Hgs f m ms)|]. intros [f1 m1] [e|cost] (Hp & Hc & Hr); simpl in *.
  { apply ens_ret. split; [done|]. simpl. by rewrite Hc. }
  destruct Hr as (Hpr & Hcost & Ha). apply ens_bind, ens_getf. simpl. unfold UseGas. rewrite Hc.
  destruct (Gas (contract f) <? cost) eqn:E; bool_to_prop.
  - apply ens_bind, ens_modf, ens_ret. split; [done|]. done.
  - apply ens_bind, ens_modf, ens_ret. split; [done|]. simpl. exists f1, cost. split_and!; try done.
    f_equal. by rewrite (fo_contract f Hf).
Qed.

Lemma priced_resized f f1 ms cost : frame_ok f -> priced f f1 ms -> ms mod 32 = 0 -> 0 <= ms -> 0 <= cost <= Gas (contract f) ->
  let f2 := with_contract (with_Gas c0 (Gas (contract f) - cost)) f1 in
  frame_ok (if 0 <? ms then with_mem (Resize (mem f2) ms) f2 else f2) /\
  ms <= len (store (mem (if 0 <? ms then with_mem (Resize (mem f2) ms) f2 else f2))).
Proof.
  intros [H1 H2 H3 H4 H5 H6 H7 H8 H9] (t & -> & Ht & Hms) Hmod Hms0 Hc. cbv zeta. destruct H6 as [Hw Hmax Hfee].
  pose proof (len_nonneg (store (mem f))). destruct (0 <? ms) eqn:E; bool_to_prop.
  - split; [|simpl; rewrite len_Resize by lia; simpl; lia]. split; simpl; try done; [go_lia|]. by apply Resize_ok.
  - assert (ms = 0) as -> by lia. split; [|simpl; lia]. split; simpl; try done; [go_lia|]. split; simpl; try done.
    by rewrite Z.max_l.
Qed.

(** Every valid entry makes a good turn. *)
Lemma step_ok f m : (forall e, e ∈ JumpTable K evm -> entry_ok e) ->
  (forall op o, (op, o) ∈ JumpTable K evm -> forall g st n, memorySize o = Some g -> Forall (fun x => 0 <= x) st -> g st = Ret n -> 0 <= n) ->
  (forall o, find_op 0 (JumpTable K evm) = Some o -> halts o = true) ->
  (forall op o, (op, o) ∈ JumpTable K evm -> op = CALL -> forall st, validateStack o st = None -> exists v, st !! 2%nat = Some v) ->
  (forall op o, (op, o) ∈ JumpTable K evm -> forall g st, memorySize o = Some g -> validateStack o st = None -> exists n, g st = Ret n) ->
  frame_ok f -> fresh_ids m -> sane (cur m) -> ens (step K evm) (f, m) (turn_post f m).
Proof.
  intros Htab Hnn Hstop Hcall Hreqd Hf Hfr Hs. pose proof Hf as [Hc Hg Hin Hst Hlim Hm Hd Ht Hpc].
  assert (Hend : forall e, turn_post f m (f, m) (Some ([], Some e))).
  { intros e. split; [by apply progresses_refl|]. simpl. go_lia. }
  unfold step. apply ens_bind, ens_getf, ens_bind, ens_getf, ens_bind, ens_getf. cbn [fst].
  set (op := GetByte (contract f) (pc f)). destruct (find_op op (JumpTable K evm)) as [o|] eqn:Eo; [|by apply ens_ret].
  assert (Hin' : (op, o) ∈ JumpTable K evm).
  { clear -Eo. induction (JumpTable K evm) as [|[k x] t IH]; simpl in Eo; [done|]. destruct (k =? op) eqn:Ek.
    - injection Eo as ->. apply Z.eqb_eq in Ek as ->. constructor.
    - constructor. by apply IH. }
  destruct (Htab _ Hin') as (allow & Hstab & Hgs & Hes). simpl in Hgs, Hes.
  destruct (validateStack o (stack f)) as [e|] eqn:Eval; [by apply ens_ret|].
  assert (exists r, enforceRestrictions evm op o (stack f) = Ret r) as [r Er].
  { unfold enforceRestrictions. destruct (IsByzantium evm), (readOnly evm), (writes o); try by eexists.
    destruct (op =? CALL) eqn:Ecall; [|by eexists]. bool_to_prop. destruct (Hcall _ _ Hin' Ecall _ Eval) as [v Hv]. unfold Back. rewrite Hv. by eexists. }
  apply ens_bind, (ens_lift _ r); [done|]. destruct r as [e|]; [by apply ens_ret|].
  assert (Hwr : static evm = true -> writes o = false).
  { unfold static. intros [H1 H2]%andb_true_iff. unfold enforceRestrictions in Er. rewrite H1, H2 in Er. by destruct (writes o). }
  assert (exists r, requiredMemory o (stack f) = Ret r) as [ms Ems].
  { unfold requiredMemory. destruct (memorySize o) as [g|] eqn:Eg; [|by eexists]. destruct (Hreqd _ _ Hin' _ _ Eg Eval) as [n ->]. cbn [mbind outcome_bind].
    destruct (bigUint64 n) as [v [|]]; [by eexists|]. destruct (SafeMul _ _) as [v' [|]]; by eexists. }
  apply ens_bind, (ens_lift _ ms); [done|]. destruct ms as [e|ms]; [by apply ens_ret|].
  destruct (requiredMemory_inv o (stack f) ms Ems) as (Hmod & Hms & _); [by eauto|].
  apply ens_bind. eapply ens_mono; [by apply (pay_ok o allow f m ms)|]. intros [f1 m1] [|] (Hp1 & Hr1); simpl.
  2:{ apply ens_ret. split; [done|]. simpl in *. rewrite Hr1. go_lia. }
  simpl in Hr1. destruct Hr1 as (f' & cost & Hpr & Ha & Hcost & Hle & ->).
  assert (Hcost0 : 0 <= cost) by (destruct (_ || _); lia).
  destruct (priced_resized f f' ms cost Hf Hpr Hmod Hms (conj Hcost0 Hle)) as [Hf2 Hcov]. cbv zeta in Hf2, Hcov.
  set (fa := with_contract (with_Gas c0 (Gas (contract f) - cost)) f') in *.
  set (f2 := if 0 <? ms then with_mem (Resize (mem fa) ms) fa else fa) in *.
  assert (Hsame : stack f2 = stack f /\ pc f2 = pc f /\ Gas (contract f2) = Gas (contract f) - cost /\ allow f2 = allow f').
  { destruct Hpr as (t & -> & _). unfold f2, fa. destruct (0 <? ms); split_and!; try done.
    - match goal with |- _ = allow ?g => exact (Hstab g (with_Gas c0 (Gas (contract f) - cost)) (Resize (mem fa) ms)) end.
    - match goal with |- _ = allow ?g => exact (Hstab g (with_Gas c0 (Gas (contract f) - cost)) (mem fa)) end. }
  destruct Hsame as (Hs2 & Hpc2 & Hg2 & Ha2). apply ens_bind.
  assert (Hres : ens (if 0 <? ms then m0 ← getf mem; modf (with_mem (Resize m0 ms)) else mret tt) (fa, m1) (fun s _ => s = (f2, m1))).
  { unfold f2. destruct (0 <? ms); [|by apply ens_ret]. by apply ens_bind, ens_getf, ens_modf. }
  eapply ens_mono; [exact Hres|]. intros ? [] ->. apply ens_bind.
  eapply ens_mono.
  { apply (Hes f2 m1 ms); try done.
    - eapply extends_fresh, Hp1.
    - apply Hp1.
    - by rewrite Hs2.
    - by rewrite Hs2.
    - rewrite Hg2, Ha2. destruct (_ || _); go_lia.
    - by rewrite Hs2. }
  intros [f3 m3] [res err] (Hp3 & Hc3 & Hg3 & Hok3). cbn [fst snd] in *.
  apply (continue_ok o res err f3 f m m3 (cost - allow f')).
  - by eapply progresses_trans.
  - rewrite Hg2, Ha2 in Hg3. lia.
  - intros Hh. rewrite Hh in Hcost. lia.
  - destruct (_ || _); lia.
  - intros He. destruct (Hok3 He) as [Hf3 Hpc3]. split; [done|]. intros Hh.
    destruct (decide (pc f < len (Evm.Code c0))) as [Hlt|Hge]; [rewrite Hpc2 in Hpc3; lia|]. exfalso.
    assert (op = 0) as Eop. { unfold op, GetByte. rewrite Hc. simpl. by rewrite (proj2 (Z.ltb_ge _ _)) by lia. }
    rewrite Eop in Eo. apply Hstop in Eo. by rewrite Eo in Hh.
Qed.

End Safe.

End VmSafe.
