(* ===== verification/VmPrice.v ===== *)
(** The prices of the instructions: each covers what the instruction may give back and the
    memory it touches, and all but the last instruction of a run cost something. *)

From S2P Require Import Prelude Params Bytes StateDB StateDBSpec StateDBRefine StateDBProps Evm EvmProps VmBase VmGas VmInstr VmInterp VmBaseProps VmSafe.
Import StateSpec Evm EvmProps Vm VmGas VmInstr VmInterp VmBaseProps VmSafe.

Module VmPrice.

Section Ops.
Context {pre : Precompiles} {plaws : PrecompilesLaws} {interp : Interpreter} (K : bytes -> Hash) {d0 : Z} {ilaws : InterpreterLaws K d0}.
#[local] Instance spec_ops : StateOps Machine := Machine_ops K.
Context (c0 : Contract) (input0 : bytes) (Hvalue : 0 <= value c0) (Hcode : len (Evm.Code c0) < 2 ^ 62) (Hinput : len input0 < 2 ^ 62).
Context (evm : EVM) (Hprice : 0 <= GasPrice evm) (Hdepth : 0 <= d0 <= depth evm).

Abbreviation frame_ok := (frame_ok c0 input0).
Abbreviation gas_spec := (gas_spec K c0 input0 evm).
Abbreviation exec_spec := (exec_spec K c0 input0 evm).
Abbreviation exec_post := (exec_post K c0 input0 evm).
Abbreviation entry_ok := (entry_ok K c0 input0 evm).
Abbreviation operation := (operation (St:=Machine)).

Definition nothing : Frame -> Z := fun _ => 0.
Lemma nothing_stable : stable nothing.
Proof. done. Qed.

(** ** Prices *)

Lemma priced_unchanged f : frame_ok f -> priced f f 0.
Proof.
  intros Hf. destruct f as [p st [s l] c i rd cg jd]. destruct (fo_mem _ _ _ Hf) as [_ Hmax Hfee]. simpl in *.
  exists cg. split_and!; [|apply (fo_temp _ _ _ Hf)|done]. pose proof (len_nonneg s). unfold with_callGasTemp, with_mem. cbn [pc stack mem contract Input returnData callGasTemp jumpdests store]. rewrite Z.max_l by lia. by rewrite <- Hfee.
Qed.

Lemma ens_memoryGasCost f (m : Machine) ms Q : frame_ok f -> ms mod 32 = 0 -> 0 <= ms -> Q (f, m) (inl errGasUintOverflow) ->
  (forall f' fee, priced f f' ms -> contract f' = contract f -> stack f' = stack f -> is_u64 fee -> Q (f', m) (inr fee)) ->
  ens (memoryGasCost ms) (f, m) Q.
Proof.
  intros Hf Hmod Hms Hbad Hq. unfold memoryGasCost. apply ens_bind, ens_getf. cbn [fst].
  destruct (ms =? 0) eqn:E0; bool_to_prop.
  { subst. apply ens_ret, Hq; try done. by apply priced_unchanged. }
  destruct (0xffffffffe0 <? ms) eqn:Emax; bool_to_prop; [by apply ens_ret|]. cbv zeta.
  assert (Hw : toWordSize ms = ms / 32).
  { unfold toWordSize. rewrite (proj2 (Z.ltb_ge _ _)) by go_lia. div_lia. }
  rewrite Hw. assert (Hsz : u64 (ms / 32 * 32) = ms) by (rewrite u64_id by div_lia; div_lia). rewrite Hsz.
  destruct (fo_mem _ _ _ Hf) as [Hw0 Hmax Hfee]. destruct (len (store (mem f)) <? ms) eqn:El; bool_to_prop.
  - assert (Htot : u64 (u64 (ms / 32 * MemoryGas) + u64 (ms / 32 * (ms / 32)) / QuadCoeffDiv) = mem_fee ms).
    { unfold MemoryGas, QuadCoeffDiv. unfold mem_fee. rewrite (u64_id (ms / 32 * 3)) by div_lia. pose proof (u64_range (ms / 32 * (ms / 32))) as Hsq.
      generalize dependent (u64 (ms / 32 * (ms / 32))). intros sq Hsq. rewrite u64_id by div_lia. lia. }
    rewrite Htot. apply ens_bind, ens_modf, ens_ret. apply Hq; [|done|done|apply u64_range].
    exists (callGasTemp f). split_and!; [|apply (fo_temp _ _ _ Hf)|done]. cbn [fst]. rewrite Z.max_r by lia. done.
  - apply ens_ret, Hq; try done. destruct (priced_unchanged f Hf) as (t & Ht & Ht0 & _).
    exists t. split_and!; [|done|unfold maxMemory; lia]. rewrite Z.max_l in * by (pose proof (len_nonneg (store (mem f))); lia). done.
Qed.

(** Instructions without memory and with a fixed price. *)
Lemma gas_const (o : operation) g : (forall ms, gasCost o GasTableEIP158 ms = mret (inr g)) -> memorySize o = None ->
  (if halts o || reverts o then 0 else 1) <= g -> gas_spec o nothing.
Proof.
  intros Hg Hm Hp f m ms Hf Hfr Hs _ Hr _ _ _. rewrite Hg. unfold requiredMemory in Hr. rewrite Hm in Hr. injection Hr as <-.
  apply ens_ret. split_and!; [by apply progresses_refl|done|by apply priced_unchanged|done|done].
Qed.

(** The rest of a price, once the memory is paid. *)
Lemma ens_add (g b : Z) s (Q : Frame * Machine -> VmError + Z -> Prop) : is_u64 g -> is_u64 b -> Q s (inl errGasUintOverflow) ->
  (is_u64 (g + b) -> Q s (inr (g + b))) -> ens (safe (SafeAdd g b)) s Q.
Proof. intros Hg Hb H1 H2. apply ens_safe; [done|]. intros v Hv. apply SafeAdd_ok in Hv as [-> Hu]; auto. Qed.
Lemma ens_mul (g b : Z) s (Q : Frame * Machine -> VmError + Z -> Prop) : is_u64 g -> is_u64 b -> Q s (inl errGasUintOverflow) ->
  (is_u64 (g * b) -> Q s (inr (g * b))) -> ens (safe (SafeMul g b)) s Q.
Proof. intros Hg Hb H1 H2. apply ens_safe; [done|]. intros v Hv. apply SafeMul_ok in Hv as [-> Hu]; auto. Qed.
Lemma ens_big x s (Q : Frame * Machine -> VmError + Z -> Prop) : 0 <= x -> Q s (inl errGasUintOverflow) ->
  (is_u64 x -> Q s (inr x)) -> ens (safe (bigUint64 x)) s Q.
Proof. intros Hx H1 H2. apply ens_safe; [done|]. intros v Hv. apply bigUint64_ok in Hv as [-> Hu]; auto. Qed.

Lemma stack_nonneg f n x : frame_ok f -> stack f !! n = Some x -> 0 <= x.
Proof. intros Hf Hx. eapply (Forall_lookup_1 (fun x => 0 <= x)); [apply Hf|done]. Qed.

Lemma stack_has (st : Stack) n : Z.of_nat n < len st -> exists x, st !! n = Some x.
Proof. intros H. apply lookup_lt_is_Some_2. unfold len in H. lia. Qed.

Lemma gas_words (o : operation) base size perWord a b : (forall ms, gasCost o GasTableEIP158 ms = gasWords base size perWord ms) ->
  validateStack o = makeStackFunc a b -> Z.of_nat size < a -> 1 <= base -> is_u64 base -> is_u64 perWord -> gas_spec o nothing.
Proof.
  intros Hg Hv Hsz Hb Hbu Hpw f m ms Hf Hfr Hs Hval Hr Hmod Hms _. rewrite Hg. rewrite Hv in Hval. apply makeStackFunc_None in Hval as [Hlen _].
  pose proof (progresses_refl K evm m Hfr Hs) as Hp. unfold gasWords. apply ens_try, ens_memoryGasCost; [done..|].
  intros f1 fee Hpr Hc Hst Hfee. apply ens_try, ens_add; [done|done|done|]. intros Hu1.
  destruct (stack_has (stack f) size) as [x Hx]; [lia|]. apply ens_bind, (ens_back _ x); [cbn [fst]; by rewrite Hst|].
  pose proof (stack_nonneg f size x Hf Hx). apply ens_try, ens_big; [done|done|]. intros Hxu.
  destruct (toWordSize_ge x Hxu) as [_ Hwu]. apply ens_try, ens_mul; [done|done|done|]. intros Hu2.
  apply ens_add; [done|done|done|]. intros Hu3. split_and!; [done|done|done| |done].
  unfold nothing. destruct (_ || _); go_lia.
Qed.

Lemma gas_memory (o : operation) base : (forall ms, gasCost o GasTableEIP158 ms = gasMemory base ms) ->
  1 <= base -> is_u64 base -> gas_spec o nothing.
Proof.
  intros Hg Hb Hbu f m ms Hf Hfr Hs _ _ Hmod Hms _. rewrite Hg. pose proof (progresses_refl K evm m Hfr Hs) as Hp.
  unfold gasMemory. apply ens_try, ens_memoryGasCost; [done..|]. intros f1 fee Hpr Hc Hst Hfee.
  apply ens_add; [done|done|done|]. intros Hu. split_and!; [done|done|done| |done]. unfold nothing. destruct (_ || _); go_lia.
Qed.

Lemma gas_halting (o : operation) : (forall ms, gasCost o GasTableEIP158 ms = memoryGasCost ms) -> halts o || reverts o = true -> gas_spec o nothing.
Proof.
  intros Hg Hh f m ms Hf Hfr Hs _ _ Hmod Hms _. rewrite Hg. pose proof (progresses_refl K evm m Hfr Hs) as Hp.
  apply ens_memoryGasCost; [done..|]. intros f1 fee Hpr Hc Hst Hfee. rewrite Hh.
  split_and!; [done|done|done|unfold nothing; go_lia|done].
Qed.

Lemma gas_log (o : operation) n a b : (forall ms, gasCost o GasTableEIP158 ms = makeGasLog n GasTableEIP158 ms) ->
  validateStack o = makeStackFunc a b -> 1 < a -> gas_spec o nothing.
Proof.
  intros Hg Hv Ha f m ms Hf Hfr Hs Hval _ Hmod Hms _. rewrite Hg. rewrite Hv in Hval. apply makeStackFunc_None in Hval as [Hlen _].
  pose proof (progresses_refl K evm m Hfr Hs) as Hp. unfold makeGasLog. destruct (stack_has (stack f) 1) as [x Hx]; [lia|].
  apply ens_bind, (ens_back _ x); [done|]. pose proof (stack_nonneg f 1 x Hf Hx). apply ens_try, ens_big; [done|done|]. intros Hxu.
  apply ens_try, ens_memoryGasCost; [done..|]. intros f1 fee Hpr Hc Hst Hfee. apply ens_try, ens_add; [done|by vm_compute|done|]. intros Hu1.
  apply ens_try, ens_add; [done|apply u64_range|done|]. intros Hu2. apply ens_try, ens_mul; [done|by vm_compute|done|]. intros Hu3.
  apply ens_add; [done|done|done|]. intros Hu4. split_and!; [done|done|done| |done].
  pose proof (u64_range (n * LogTopicGas)). unfold nothing, LogGas in *. destruct (_ || _); go_lia.
Qed.

Lemma gas_exp (o : operation) b : gasCost o = gasExp -> validateStack o = makeStackFunc 2 b -> memorySize o = None -> gas_spec o nothing.
Proof.
  intros Hg Hv Hm f m ms Hf Hfr Hs Hval Hr _ _ _. rewrite Hg. rewrite Hv in Hval. apply makeStackFunc_None in Hval as [Hlen _].
  unfold requiredMemory in Hr. rewrite Hm in Hr. injection Hr as <-. pose proof (progresses_refl K evm m Hfr Hs) as Hp.
  unfold gasExp. destruct (stack_has (stack f) 1) as [x Hx]; [lia|]. apply ens_bind, (ens_back _ x); [done|]. cbv zeta.
  pose proof (u64_range ((BitLen x + 7) / 8 * gt_ExpByte GasTableEIP158)). apply ens_add; [done|by vm_compute|done|]. intros Hu.
  split_and!; [done|done|by apply priced_unchanged| |done]. unfold nothing, GasSlowStep in *. destruct (_ || _); go_lia.
Qed.

Lemma gas_sstore (o : operation) b : gasCost o = gasSStore -> validateStack o = makeStackFunc 2 b -> memorySize o = None -> writes o = true ->
  gas_spec o nothing.
Proof.
  intros Hg Hv Hm Hw f m ms Hf Hfr Hs Hval Hr _ _ Hst. rewrite Hg. rewrite Hv in Hval. apply makeStackFunc_None in Hval as [Hlen _].
  unfold requiredMemory in Hr. rewrite Hm in Hr. injection Hr as <-. pose proof (progresses_refl K evm m Hfr Hs) as Hp.
  assert (Hns : static evm = true -> False) by (intros Ht; specialize (Hst Ht); congruence).
  unfold gasSStore. destruct (stack_has (stack f) 1) as [y Hy]; [lia|]. destruct (stack_has (stack f) 0) as [x Hx]; [lia|].
  apply ens_bind, (ens_back _ y); [done|]. apply ens_bind, (ens_back _ x); [done|]. apply ens_bind, ens_getf, ens_bind, ens_onst, ens_GetState.
  intros v. destruct (EmptyHash v && _); [|destruct (negb _ && _)].
  - apply ens_ret. split_and!; [done|done|by apply priced_unchanged| |done]. by destruct (_ || _).
  - apply ens_bind, ens_onst. apply (ens_unit K evm); [done|done|done|by intros []%Hns|]. intros m1 Hp1 _. apply ens_ret. split_and!; [done|done|by apply priced_unchanged| |done]. by destruct (_ || _).
  - apply ens_ret. split_and!; [done|done|by apply priced_unchanged| |done]. by destruct (_ || _).
Qed.

Lemma gas_suicide (o : operation) b : gasCost o = gasSuicide -> validateStack o = makeStackFunc 1 b -> memorySize o = None -> writes o = true ->
  gas_spec o nothing.
Proof.
  intros Hg Hv Hm Hw f m ms Hf Hfr Hs Hval Hr _ _ Hst. rewrite Hg. rewrite Hv in Hval. apply makeStackFunc_None in Hval as [Hlen _].
  unfold requiredMemory in Hr. rewrite Hm in Hr. injection Hr as <-. pose proof (progresses_refl K evm m Hfr Hs) as Hp.
  assert (Hns : static evm = true -> False) by (intros Ht; specialize (Hst Ht); congruence).
  unfold gasSuicide. destruct (stack_has (stack f) 0) as [x Hx]; [lia|]. apply ens_bind, (ens_back _ x); [done|].
  apply ens_bind, ens_getf, ens_bind, ens_onst, ens_Empty. intros e. apply ens_bind.
  assert (Hrest : forall bal, ens (let gas := if e && negb (bal =? 0) then u64 (gt_Suicide GasTableEIP158 + gt_CreateBySuicide GasTableEIP158) else gt_Suicide GasTableEIP158 in
    dead ← onst (Sdb.HasSuicided (self (contract f)));
    _ ← (if negb dead then onst (Sdb.AddRefund SuicideRefundGas) else mret tt); mret (inr gas : VmError + Z)) (f, m)
    (fun s' r => progresses K evm m s'.2 /\ contract s'.1 = contract f /\
      match r with inl _ => True | inr cost => priced f s'.1 0 /\ nothing s'.1 + (if halts o || reverts o then 0 else 1) <= cost /\ 0 <= nothing s'.1 end)).
  { intros bal. cbv zeta. set (g := if e && negb (bal =? 0) then _ else gt_Suicide GasTableEIP158). assert (1 <= g) by (unfold g; destruct (_ && _); by vm_compute).
    apply ens_bind, ens_onst, ens_HasSuicided. intros [|]; simpl.
    - apply ens_bind, ens_ret, ens_ret. split_and!; [done|done|by apply priced_unchanged| |done]. unfold nothing. destruct (_ || _); lia.
    - apply ens_bind, ens_onst. apply (ens_unit K evm); [done|done|done|by intros []%Hns|]. intros m1 Hp1 _. apply ens_ret.
      split_and!; [done|done|by apply priced_unchanged| |done]. unfold nothing. destruct (_ || _); lia. }
  destruct e; [apply ens_onst, ens_GetBalance|apply ens_ret]; apply Hrest.
Qed.

(** *** Calls: the gas passed on, and the stipend of a transfer *)

Definition passes : Frame -> Z := callGasTemp.
Definition pays : Frame -> Z := fun f =>
  callGasTemp f + match stack f !! 2%nat with Some v => if v =? 0 then 0 else CallStipend | None => 0 end.
Lemma passes_stable : stable passes.
Proof. done. Qed.
Lemma pays_stable : stable pays.
Proof. done. Qed.

Lemma callGas_nonneg gt av base req t : callGas gt av base req = inr t -> 0 <= t.
Proof.
  unfold callGas. cbv zeta. pose proof (u64_range (Z.abs req)). unfold big_Uint64.
  pose proof (u64_range (u64 (av - base) - u64 (av - base) / 64)). repeat case_match; intros [= <-]; go_lia.
Qed.

Lemma ens_passOn f f1 (m : Machine) ms g Q : priced f f1 ms -> len (stack f1) > 0 -> is_u64 g ->
  (forall f2 e, contract f2 = contract f1 -> Q (f2, m) (inl e)) ->
  (forall f2, priced f f2 ms -> contract f2 = contract f1 -> stack f2 = stack f1 -> 0 <= callGasTemp f2 ->
     Q (f2, m) (inr (g + callGasTemp f2))) ->
  ens (passOn GasTableEIP158 g) (f1, m) Q.
Proof.
  intros (t0 & Hf1 & Ht0 & Hms) Hl Hg Hbad Hq. unfold passOn. apply ens_bind, ens_getf. destruct (stack_has (stack f1) 0) as [x Hx]; [lia|].
  apply ens_bind, (ens_back _ x); [done|]. cbn [fst]. destruct (callGas _ _ _ _) as [e|t] eqn:Ec.
  - apply ens_bind, ens_modf, ens_ret. by apply Hbad.
  - pose proof (callGas_nonneg _ _ _ _ _ Ec) as Ht. assert (Htu : is_u64 t).
    { revert Ec. unfold callGas. cbv zeta. unfold big_Uint64. repeat case_match; intros [= <-]; apply u64_range. }
    apply ens_bind, ens_modf. cbn [fst snd]. apply ens_add; [done|done|by apply Hbad|]. intros _. apply (Hq (with_callGasTemp t f1)); try done.
    exists t. by rewrite Hf1.
Qed.

Lemma gas_call (o : operation) b : gasCost o = gasCall \/ gasCost o = gasCallCode -> validateStack o = makeStackFunc 7 b -> gas_spec o pays.
Proof.
  intros Hg Hv f m ms Hf Hfr Hs Hval _ Hmod Hms _. rewrite Hv in Hval. apply makeStackFunc_None in Hval as [Hlen _].
  pose proof (progresses_refl K evm m Hfr Hs) as Hp. destruct (stack_has (stack f) 2) as [v Hv2]; [lia|].
  destruct (stack_has (stack f) 1) as [a Ha1]; [lia|].
  assert (Hrest : forall base, 700 + (if v =? 0 then 0 else 9000) <= base -> is_u64 base ->
    ens (try (memoryGasCost ms) (fun mg => try (safe (SafeAdd base mg)) (fun gas => passOn GasTableEIP158 gas))) (f, m)
      (fun s' r => progresses K evm m s'.2 /\ contract s'.1 = contract f /\
        match r with inl _ => True | inr cost => priced f s'.1 ms /\ pays s'.1 + (if halts o || reverts o then 0 else 1) <= cost /\ 0 <= pays s'.1 end)).
  { intros base Hb Hbu. apply ens_try, ens_memoryGasCost; [done..|]. intros f1 fee Hpr Hc Hst Hfee.
    apply ens_try, ens_add; [done|done|done|]. intros Hu. apply (ens_passOn f f1 m ms); [done|rewrite Hst; lia|done|by intros f2 e Hce; split_and!; [done|simpl; congruence|done]|].
    intros f2 Hpr2 Hc2 Hst2 Ht2. split_and!; [done|simpl; congruence|done| |]; unfold pays; cbn [fst]; rewrite Hst2, Hst, Hv2; unfold CallStipend.
    - destruct (v =? 0), (_ || _); go_lia.
    - destruct (v =? 0); lia. }
  destruct Hg as [-> | ->].
  - unfold gasCall. apply ens_bind, (ens_back _ v); [done|]. apply ens_bind, (ens_back _ a); [done|]. cbv zeta. apply ens_bind.
    destruct (v =? 0) eqn:Ev; simpl negb; cbn match.
    + apply ens_ret, Hrest; [by vm_compute|by vm_compute].
    + apply ens_onst, ens_Empty. intros [|]; apply Hrest; by vm_compute.
  - unfold gasCallCode. apply ens_bind, (ens_back _ v); [done|]. cbv zeta. destruct (v =? 0) eqn:Ev; apply Hrest; by vm_compute.
Qed.

Lemma gas_pass (o : operation) b : gasCost o = gasDelegateCall \/ gasCost o = gasStaticCall -> validateStack o = makeStackFunc 6 b -> gas_spec o passes.
Proof.
  intros Hg Hv f m ms Hf Hfr Hs Hval _ Hmod Hms _. rewrite Hv in Hval. apply makeStackFunc_None in Hval as [Hlen _].
  pose proof (progresses_refl K evm m Hfr Hs) as Hp.
  assert (Hrest : ens (try (memoryGasCost ms) (fun gas => try (safe (SafeAdd gas (gt_Calls GasTableEIP158))) (fun gas => passOn GasTableEIP158 gas))) (f, m)
      (fun s' r => progresses K evm m s'.2 /\ contract s'.1 = contract f /\
        match r with inl _ => True | inr cost => priced f s'.1 ms /\ passes s'.1 + (if halts o || reverts o then 0 else 1) <= cost /\ 0 <= passes s'.1 end)).
  { apply ens_try, ens_memoryGasCost; [done..|]. intros f1 fee Hpr Hc Hst Hfee.
    apply ens_try, ens_add; [done|by vm_compute|done|]. intros Hu. apply (ens_passOn f f1 m ms); [done|rewrite Hst; lia|done|by intros f2 e Hce; split_and!; [done|simpl; congruence|done]|].
    intros f2 Hpr2 Hc2 Hst2 Ht2. unfold passes. split_and!; [done|simpl; congruence|done| |done]. simpl in *. destruct (_ || _); go_lia. }
  by destruct Hg as [-> | ->].
Qed.

End Ops.

End VmPrice.
