(* ===== verification/VmExec.v ===== *)
(** The execution of the instructions: each finds its operands, stays within the memory
    paid for and keeps the invariant of the frame. *)

From S2P Require Import Prelude Params Bytes StateDB StateDBSpec StateDBRefine StateDBProps Evm EvmProps VmBase VmGas VmInstr VmInterp VmBaseProps VmSafe VmPrice.
Import StateSpec Evm EvmProps Vm VmGas VmInstr VmInterp VmBaseProps VmSafe VmPrice.

Module VmExec.

Section Ops.
Context {pre : Precompiles} {plaws : PrecompilesLaws} {interp : Interpreter} (K : bytes -> Hash) {d0 : Z} {ilaws : InterpreterLaws K d0}.
#[local] Instance spec_ops : StateOps Machine := Machine_ops K.
Context (c0 : Contract) (input0 : bytes) (Hvalue : 0 <= value c0) (Hcode : len (Evm.Code c0) < 2 ^ 62) (Hinput : len input0 < 2 ^ 62).
Context (evm : EVM) (Hprice : 0 <= GasPrice evm) (Hdepth : 0 <= d0 <= depth evm).

Abbreviation frame_ok := (frame_ok c0 input0).
Abbreviation gas_spec := (gas_spec K c0 input0 evm).
Abbreviation exec_spec := (exec_spec K c0 input0 evm).
Abbreviation exec_post := (exec_post K c0 input0 evm).
Abbreviation entry_ok := (entry_ok K c0 input0 evm).
Abbreviation operation := (operation (St:=Machine)).

(** ** Execution *)

Lemma exp_word_nonneg n w base r : 0 <= r -> 0 <= (exp_word n w base r).2.
Proof.
  revert w base r. induction n as [|n IH]; intros w base r Hr; [done|]. cbn [exp_word]. apply IH.
  destruct (_ =? _); [apply U256_range|done].
Qed.
Lemma exp_words_nonneg ws base r : 0 <= r -> 0 <= exp_words ws base r.
Proof.
  revert base r. induction ws as [|w ws IH]; intros base r Hr; [done|]. cbn [exp_words].
  pose proof (exp_word_nonneg 64 w base r Hr) as Hw. destruct (exp_word 64 w base r) as [b' r']. by apply IH.
Qed.
Lemma Exp_nonneg b e : 0 <= Exp b e.
Proof. by apply exp_words_nonneg. Qed.
Lemma Byte_nonneg x p n : 0 <= Byte x p n.
Proof. unfold Byte, bigEndianByteAt. repeat case_match; try done. apply u8_range. Qed.
Lemma balance_nonneg (w : World) a : sane w -> 0 <= balance_of w a.
Proof. intros Hs. unfold balance_of, of_acct. destruct (accts w a) as [x|] eqn:E; [|done]. apply (Hs a x E). Qed.

(** Results of instructions are not negative. *)
Ltac nonneg :=
  first
    [ assumption | lia | apply U256_range | match goal with H : is_u64 ?x |- 0 <= ?x => apply H end | apply SetBytes_nonneg | apply len_nonneg | apply Exp_nonneg | apply Byte_nonneg
    | apply u64_range | by apply balance_nonneg | by apply Z.land_nonneg; auto | by apply Z.lor_nonneg | by apply Z.lxor_nonneg
    | match goal with H : ?c = with_Gas c0 _ |- 0 <= value ?c => rewrite H; exact Hvalue end
    | match goal with |- 0 <= (if ?b then _ else _) => destruct b; nonneg end ].

(** *** Instructions that change the stack and the memory only *)

Definition sizes_ok (o : operation) : Prop := forall g st n,
  memorySize o = Some g -> Forall (fun x => 0 <= x) st -> g st = Ret n -> 0 <= n.

Definition local_post (f : Frame) (m : Machine) (l : Z) (s' : Frame * Machine) (r : bytes * option VmError) : Prop := exists st' mm,
  s'.1 = with_stack st' (with_mem mm f) /\ progresses K evm m s'.2 /\
  (r.2 = None -> Forall (fun x => 0 <= x) st' /\ len st' = l /\ mem_ok mm).

Lemma exec_local op (o : operation) a b : validateStack o = makeStackFunc a b -> sizes_ok o ->
  (forall f m, frame_ok f -> sane (cur m) -> a <= len (stack f) -> fresh_ids m ->
     (forall g, memorySize o = Some g -> exists n, g (stack f) = Ret n /\ n <= len (store (mem f))) ->
     (static evm = true -> writes o = false) ->
     ens (execute o evm) (f, m) (local_post f m (len (stack f) + b - a))) ->
  exec_spec op o nothing.
Proof.
  intros Hv Hsz He f m ms Hf Hfr Hs Hval Hreq Hcov _ _ Hwr. rewrite Hv in Hval. apply makeStackFunc_None in Hval as [Hlen Hlim].
  pose proof Hf as [Hc Hg Hi Hst _ Hmem Hd Ht Hpc]. pose proof (len_nonneg (Evm.Code c0)).
  eapply ens_mono; [apply (He f m Hf Hs Hlen Hfr); [|done]|].
  { intros g Eg. destruct (requiredMemory_inv o (stack f) ms Hreq) as (_ & _ & Hn); [by eauto|].
    destruct (Hn g Eg) as (n & Hgn & Hle). exists n. split; [done|lia]. }
  intros [f' m'] r (st' & mm & Hr & Hp & Hok). simpl in Hr, Hp. subst f'.
  split_and!; simpl; [done|done|go_lia|unfold nothing; lia|]. intros Hn.
  destruct (Hok Hn) as (Hnn & Hl & Hmm). split; [|lia]. split; simpl; try done; [|lia]. lia.
Qed.

Lemma no_size (o : operation) : memorySize o = None -> sizes_ok o.
Proof. intros Hn g st n Hg. congruence. Qed.

(** Instructions that only change the stack. *)
Lemma exec_stack op (o : operation) a b : validateStack o = makeStackFunc a b -> memorySize o = None ->
  (forall f m, frame_ok f -> sane (cur m) -> a <= len (stack f) -> exists st',
     execute o evm (f, m) = Ret ((with_stack st' f, m), ([], None)) /\ Forall (fun x => 0 <= x) st' /\ len st' = len (stack f) + b - a) ->
  exec_spec op o nothing.
Proof.
  intros Hv Hn He. apply (exec_local op o a b Hv (no_size o Hn)). intros f m Hf Hs Hl Hfr _ _.
  destruct (He f m Hf Hs Hl) as (st' & Hr & Hnn & Hlen). eexists _, _. split; [exact Hr|]. exists st', (mem f). split_and!.
  - by destruct f.
  - by apply progresses_refl.
  - intros _. split_and!; [done|done|apply (fo_mem _ _ _ Hf)].
Qed.

Ltac reduce := cbn [pc stack mem contract Input returnData callGasTemp jumpdests with_pc with_stack with_mem with_contract with_returnData
  with_callGasTemp with_jumpdests fst snd tail].

(** The stack opened up: its first [n] entries. *)
Tactic Notation "opened" int_or_var(n) :=
  intros [p st mm c i rd cg jd] m Hf Hs Hlen;
  pose proof (fo_contract _ _ _ Hf) as Hc; pose proof (fo_stack _ _ _ Hf) as Hst; pose proof (fo_gas _ _ _ Hf) as Hg;
  pose proof (fo_pc _ _ _ Hf) as Hpc; pose proof (fo_input _ _ _ Hf) as Hi; pose proof (fo_mem _ _ _ Hf) as Hmem;
  cbn [stack contract pc Input mem] in *; subst i;
  do n (destruct st as [|? st]; [exfalso; unfold len in Hlen; simpl in Hlen; lia|]);
  repeat match goal with H : Forall _ (_ :: _) |- _ => apply Forall_cons in H as [? ?] end.
Tactic Notation "stacked" int_or_var(n) := eapply exec_stack; [reflexivity|reflexivity|]; opened n.

(** Running an instruction, with the values it computes left alone. *)
Ltac run_op := cbv [execute opStop opAdd opSub opMul opDiv opSdiv opMod opSmod opExp opSignExtend opNot opLt opGt opSlt opSgt opEq
  opIszero opAnd opOr opXor opByte opAddmod opMulmod opAddress opBalance opOrigin opCaller opCallValue opCallDataSize
  opReturnDataSize opExtCodeSize opCodeSize opGasprice opBlockhash opCoinbase opTimestamp opNumber opDifficulty opGasLimit opPop
  opSload opJumpdest opPc opMsize opGas mbind mret SM_bind SM_ret outcome_bind pop push peek set_top getf modf lift deref head
  ok fst snd tail pc stack mem contract Input returnData callGasTemp jumpdests with_stack onst
  Sdb.GetBalance Sdb.GetCodeSize Sdb.GetState Sdb.num_op sstep spec_ops Machine_ops astep answer].
Ltac stack_done := split_and!; [run_op; reflexivity | reduce; repeat (apply Forall_cons; split); try assumption; try nonneg | reduce; rewrite ?len_cons; lia].
Tactic Notation "pure" int_or_var(n) := stacked n; eexists; stack_done.

Lemma exec_arithmetic : Forall (fun e => exec_spec e.1 e.2 nothing) arithmetic_ops.
Proof.
  unfold arithmetic_ops. repeat (apply Forall_cons; split); try apply Forall_nil_2; cbn [fst snd]; [pure 0|pure 2..|pure 3|pure 3|pure 2|].
  stacked 2. run_op. destruct (z <? 31); eexists; stack_done.
Qed.

Lemma exec_comparison : Forall (fun e => exec_spec e.1 e.2 nothing) comparison_ops.
Proof.
  unfold comparison_ops. repeat (apply Forall_cons; split); try apply Forall_nil_2; cbn [fst snd]; [pure 2..|pure 1|pure 2|pure 2|pure 2|pure 1|pure 2].
Qed.

(** *** Memory *)

Lemma sizes_args off size : forall g st n, Some (memoryArgs off size) = Some g -> Forall (fun x => 0 <= x) st -> g st = Ret n -> 0 <= n.
Proof.
  intros g st n [= <-] Hst. unfold memoryArgs, Back. destruct (st !! off) as [o|] eqn:Eo; [|done]. destruct (st !! size) as [l|] eqn:El; [|done].
  intros [= <-]. apply calcMemSize_nonneg; by eapply (Forall_lookup_1 (fun x => 0 <= x)).
Qed.
Lemma sizes_args2 a b c d : forall g st n, Some (memoryArgs2 a b c d) = Some g -> Forall (fun x => 0 <= x) st -> g st = Ret n -> 0 <= n.
Proof.
  intros g st n [= <-] Hst. unfold memoryArgs2. destruct (memoryArgs a b st) as [x|] eqn:E1; [|done]. destruct (memoryArgs c d st) as [y|] eqn:E2; [|done].
  intros [= <-]. pose proof (sizes_args _ _ _ _ _ eq_refl Hst E1). pose proof (sizes_args _ _ _ _ _ eq_refl Hst E2). unfold BigMax. by destruct (_ <? _).
Qed.
Lemma sizes_word k : 0 <= k -> forall g st n, Some (fun st => o ← Back st 0; Ret (calcMemSize o k)) = Some g -> Forall (fun x => 0 <= x) st -> g st = Ret n -> 0 <= n.
Proof.
  intros Hk g st n [= <-] Hst. unfold Back. destruct (st !! 0%nat) as [o|] eqn:Eo; [|done]. intros [= <-].
  apply calcMemSize_nonneg; [|done]. by eapply (Forall_lookup_1 (fun x => 0 <= x)).
Qed.

Lemma ens_pop x st f (m : Machine) Q : stack f = x :: st -> Q (with_stack st f, m) x -> ens pop (f, m) Q.
Proof. intros Hx Hq. unfold pop. apply ens_bind, ens_getf. cbn [fst]. rewrite Hx. apply ens_bind, ens_modf, ens_ret, Hq. Qed.
Lemma ens_push x f (m : Machine) Q : Q (with_stack (x :: stack f) f, m) tt -> ens (push x) (f, m) Q.
Proof. intros Hq. by apply ens_bind, ens_getf, ens_modf. Qed.
Lemma ens_set_mem off size v f (m : Machine) Q : mem_ok (mem f) -> 0 <= off -> 0 <= size -> (size <> 0 -> off + size <= len (store (mem f))) ->
  (forall mm, mem_ok mm -> Q (with_mem mm f, m) tt) -> ens (set_mem (big_Uint64 off) (big_Uint64 size) v) (f, m) Q.
Proof.
  intros Hm Ho Hs Hb Hq. unfold set_mem. apply ens_bind, ens_getf, ens_bind. cbn [fst].
  destruct (mem_Set_ok (mem f) (big_Uint64 off) (big_Uint64 size) v) as (mm & Hset & Hmm & _); [done|apply u64_range..| |].
  - intros Hne. pose proof (mo_max _ Hm). unfold maxMemory in *. destruct (decide (size = 0)) as [->|Hz]; [done|]. rewrite !big_Uint64_id by go_lia. auto.
  - eapply ens_lift; [exact Hset|]. apply ens_modf, Hq, Hmm.
Qed.

Ltac sized := first [exact (sizes_args _ _)|exact (sizes_args2 _ _ _ _)|exact (sizes_word 32 ltac:(lia))|exact (sizes_word 1 ltac:(lia))].

(** The stack and the size of the memory an instruction needs, opened up. *)
Tactic Notation "memorised" int_or_var(n) :=
  eapply exec_local; [reflexivity|sized|];
  opened n; intros Hfr Hcov Hwr;
  match goal with
  | Hfr : fresh_ids ?m, Hs : sane (cur ?m), Hcov : forall g, _ = Some g -> _ |- _ =>
      destruct (Hcov _ eq_refl) as (n0 & Hn0 & Hcov'); cbn in Hn0; injection Hn0 as <-;
      pose proof (progresses_refl K evm m Hfr Hs) as Hp
  end; cbn [execute].
Ltac pops := repeat (eapply ens_bind, ens_pop; [reflexivity|]; reduce).
Ltac local_done := eexists _, _; split_and!; [reflexivity|assumption|intros _; split_and!; reduce; [repeat (apply Forall_cons; split); try assumption; try nonneg|rewrite ?len_cons; lia|assumption]].

(** Copying [l] bytes of [data] to the memory, and the end of such an instruction. *)
Lemma ens_copy data off memOff l f (m : Machine) Q : mem_ok (mem f) -> 0 <= off -> 0 <= memOff -> 0 <= l -> len data < 2 ^ 62 ->
  calcMemSize memOff l <= len (store (mem f)) -> (forall mm, mem_ok mm -> Q (with_mem mm f, m) ([], None)) ->
  ens (d ← lift (getDataBig data off l); _ ← set_mem (big_Uint64 memOff) (big_Uint64 l) d; ok) (f, m) Q.
Proof.
  intros Hm Ho Hmo Hl Hd Hcov Hq. destruct (getDataBig_ok data off l) as [d Hget]; [done..|].
  apply ens_bind, (ens_lift _ d); [done|]. apply ens_bind, ens_set_mem; [done..|by apply calcMemSize_ge|]. intros mm Hmm. by apply ens_ret, Hq.
Qed.

Lemma ens_load off l f (m : Machine) (Q : Frame * Machine -> bytes -> Prop) : mem_ok (mem f) -> 0 <= off -> 0 <= l ->
  calcMemSize off l <= len (store (mem f)) -> (forall d, len d < 2 ^ 62 -> Q (f, m) d) ->
  ens (m ← getf mem; lift (mem_Get m (big_Int64 off) (big_Int64 l))) (f, m) Q.
Proof.
  intros Hm Ho Hl Hcov Hq. apply ens_bind, ens_getf. cbn [fst].
  destruct (mem_Get_ok (mem f) off l) as (d & Hd & Hdl); [done..|by apply calcMemSize_ge|]. eapply ens_lift; [exact Hd|]. by apply Hq.
Qed.

Lemma exec_environment : Forall (fun e => exec_spec e.1 e.2 nothing) (environment_ops K).
Proof.
  unfold environment_ops. repeat (apply Forall_cons; split); try apply Forall_nil_2; cbn [fst snd].
  - memorised 2. unfold opSha3. pops. apply ens_bind, ens_getf, ens_bind. reduce.
    destruct (mem_Get_ok mm z z0) as (d & Hd & _); [done..|by apply calcMemSize_ge|]. eapply ens_lift; [exact Hd|]. cbv zeta. apply ens_bind.
    destruct (EnablePreimageRecording evm).
    + apply ens_onst. apply (ens_unit K evm); [done|done|done|done|]. intros m' Hp' _. apply ens_bind, ens_push, ens_ret. local_done.
    + apply ens_ret, ens_bind, ens_push, ens_ret. local_done.
  - pure 0.
  - pure 1.
  - pure 0.
  - pure 0.
  - pure 0.
  - stacked 1. destruct (getDataBig_ok input0 z 32) as [d Hd]; [done..|]. eexists.
    split_and!; [cbv [opCallDataLoad]; run_op; rewrite Hd; reflexivity|reduce; apply Forall_cons; split; [nonneg|done]|reduce; rewrite ?len_cons; lia].
  - pure 0.
  - memorised 3. unfold opCallDataCopy. pops. apply ens_bind, ens_getf, ens_copy; [done..|]. intros mm' Hmm. local_done.
  - pure 0.
  - memorised 3. unfold opCodeCopy. pops. apply ens_bind, ens_getf, ens_copy; [done..| |done|]; [by reduce; rewrite Hc|]. intros mm' Hmm. local_done.
  - pure 0.
  - pure 1.
  - memorised 4. unfold opExtCodeCopy. pops. apply ens_bind, ens_onst, ens_GetCode; [done|]. intros code Hcl. apply ens_copy; [done..|]. intros mm' Hmm. local_done.
  - pure 1.
  - pure 0.
  - pure 0.
  - pure 0.
  - pure 0.
  - pure 0.
Qed.

(** *** Storage and control *)

Lemma ens_valid_dest pos f (m : Machine) Q : frame_ok f -> 0 <= pos ->
  (forall d b, cache_ok d (CodeHash c0) (Evm.Code c0) -> (b = true -> pos < len (Evm.Code c0)) -> Q (with_jumpdests d f, m) b) ->
  ens (valid_dest pos) (f, m) Q.
Proof.
  intros Hf Hpos Hq. unfold valid_dest. apply ens_bind, ens_getf, ens_bind, ens_getf, ens_bind. cbn [fst].
  destruct (has_spec (jumpdests f) (CodeHash c0) (Evm.Code c0) pos) as (d & b & Hh & Hd & Hb); [apply Hf|done|done|].
  rewrite (fo_contract _ _ _ Hf). eapply ens_lift; [exact Hh|]. apply ens_bind, ens_modf, ens_ret, Hq; [done|naive_solver].
Qed.

(** Going to a destination, if it is valid. *)
Lemma ens_goto pos st f m : frame_ok f -> fresh_ids m -> sane (cur m) -> 0 <= pos -> Forall (fun x => 0 <= x) st -> len st <= StackLimit ->
  ens (valid ← valid_dest pos; if negb valid then fail errInvalidJump else _ ← modf (with_pc (big_Uint64 pos)); ok) (with_stack st f, m)
    (exec_post f m 0).
Proof.
  intros Hf Hfr Hs Hpos Hst Hlim. pose proof Hf as [Hc Hg Hi _ _ Hmem Hd Ht Hpc]. apply ens_bind, ens_valid_dest; [|done|].
  { by split. }
  pose proof (progresses_refl K evm m Hfr Hs) as Hp. pose proof (len_nonneg (Evm.Code c0)). intros d [|] Hd' Hb; simpl negb; cbn match.
  - specialize (Hb eq_refl). apply ens_bind, ens_modf, ens_ret. rewrite big_Uint64_id by go_lia. split_and!; simpl; [done|done|go_lia|lia|].
    intros _. split; [|lia]. split; simpl; try done; lia.
  - apply ens_ret. split_and!; simpl; [done|done|go_lia|lia|done].
Qed.

Lemma exec_jump op g : exec_spec op (MkOperation opJump g (makeStackFunc 1 0) None false true false false false) nothing.
Proof.
  intros f m ms Hf Hfr Hs Hval _ _ _ _ _. apply makeStackFunc_None in Hval as [Hlen Hlim]. pose proof (fo_stack _ _ _ Hf) as Hst.
  destruct (stack f) as [|x st] eqn:Est; [exfalso; unfold len in Hlen; simpl in Hlen; lia|]. apply Forall_cons in Hst as [Hx Hst].
  cbn [execute]. unfold opJump. eapply ens_bind, ens_pop; [exact Est|]. rewrite len_cons in *. apply ens_goto; try done. lia.
Qed.

Lemma exec_jumpi op g : exec_spec op (MkOperation opJumpi g (makeStackFunc 2 0) None false true false false false) nothing.
Proof.
  intros f m ms Hf Hfr Hs Hval _ _ _ _ _. apply makeStackFunc_None in Hval as [Hlen Hlim]. pose proof (fo_stack _ _ _ Hf) as Hst.
  destruct (stack f) as [|x [|y st]] eqn:Est; [exfalso; unfold len in Hlen; simpl in Hlen; lia..|].
  apply Forall_cons in Hst as [Hx [Hy Hst]%Forall_cons]. rewrite !len_cons in *.
  cbn [execute]. unfold opJumpi. eapply ens_bind, ens_pop; [exact Est|]. eapply ens_bind, ens_pop; [reflexivity|].
  destruct (y =? 0); cbn [negb].
  - apply ens_bind, ens_getf, ens_bind, ens_modf, ens_ret. pose proof Hf as [Hc Hg Hi _ _ Hmem Hd Ht Hpc]. pose proof (len_nonneg (Evm.Code c0)).
    reduce. rewrite u64_id by go_lia. split_and!; simpl; [by apply progresses_refl|done|go_lia|unfold nothing; lia|]. intros _.
    split; [|lia]. split; simpl; try done; lia.
  - refine (ens_goto x st f m Hf Hfr Hs Hx Hst _). lia.
Qed.

Lemma exec_storage : Forall (fun e => exec_spec e.1 e.2 nothing) storage_ops.
Proof.
  unfold storage_ops. repeat (apply Forall_cons; split); try apply Forall_nil_2; cbn [fst snd].
  - pure 1.
  - memorised 1. unfold opMload. pops. apply ens_bind, ens_getf, ens_bind. reduce.
    destruct (mem_Get_ok mm z 32) as (d & Hd & _); [done..|lia|by apply calcMemSize_ge|]. eapply ens_lift; [exact Hd|].
    apply ens_bind, ens_push, ens_ret. local_done.
  - memorised 2. unfold opMstore. pops. change 32 with (big_Uint64 32) at 1. apply ens_bind, ens_set_mem; [done|done|lia|by apply calcMemSize_ge|].
    intros mm' Hmm. apply ens_ret. local_done.
  - memorised 2. unfold opMstore8. pops. cbv zeta. apply ens_bind, ens_getf. reduce. pose proof (mo_max _ Hmem).
    assert (z + 1 <= len (store mm)) by (by apply (calcMemSize_ge z 1)). unfold maxMemory, big_Int64 in *. rewrite i64_id by lia.
    rewrite (proj2 (Z.leb_le 0 z)), (proj2 (Z.ltb_lt z _)) by lia. apply ens_bind, ens_modf, ens_ret. reduce.
    eexists _, _. split_and!; [reflexivity|assumption|intros _; split_and!; reduce; [assumption|rewrite ?len_cons; lia|]].
    destruct Hmem as [Hw Hmx Hfee]. split; simpl; unfold len; by rewrite length_insert.
  - pure 1.
  - eapply exec_local; [reflexivity|by apply no_size|]. opened 2. intros Hfr _ Hwr. cbn [execute]. unfold opSstore. pops.
    apply ens_bind, ens_getf, ens_bind, ens_onst. apply (ens_unit K evm); [done|done|done|by intros ?%Hwr|]. intros m' Hp' _. apply ens_ret. local_done.
  - apply exec_jump.
  - apply exec_jumpi.
  - pure 0.
  - pure 0.
  - pure 0.
  - pure 0.
Qed.

(** *** Families *)

Definition plain_op (e : EVM -> SM (Frame * Machine) (bytes * option VmError)) (g : GasTable -> Z -> SM (Frame * Machine) (VmError + Z)) v : operation :=
  MkOperation e g v None false false false false false.

Lemma exec_push op n g : 1 <= n <= 32 -> exec_spec op (plain_op (makePush n n) g (makeStackFunc 0 1)) nothing.
Proof.
  intros Hn f m ms Hf Hfr Hs Hval _ _ _ _ _. apply makeStackFunc_None in Hval as [_ Hlim]. pose proof Hf as [Hc Hg Hi Hst _ Hmem Hd Ht Hpc].
  cbn [execute plain_op]. unfold makePush. apply ens_bind, ens_getf, ens_bind, ens_getf. cbv zeta. reduce.
  assert (Hcc : Evm.Code (contract f) = Evm.Code c0) by (by rewrite Hc). rewrite Hcc. pose proof (len_nonneg (Evm.Code c0)).
  rewrite (u64_id (pc f + 1)), (u64_id (pc f + n)), i64_id by go_lia.
  set (lo := if pc f + 1 <? _ then _ else _). assert (0 <= lo <= len (Evm.Code c0)) by (subst lo; destruct (_ <? _) eqn:E; bool_to_prop; lia).
  clearbody lo. set (hi := if lo + n <? _ then _ else _). assert (lo <= hi <= len (Evm.Code c0)) by (subst hi; destruct (_ <? _) eqn:E; bool_to_prop; lia).
  clearbody hi. destruct (slice_ok (Evm.Code c0) lo hi) as (d & Hsl & _); [lia..|]. apply ens_bind, (ens_lift _ d); [done|].
  apply ens_bind, ens_push, ens_bind, ens_modf, ens_ret. pose proof (SetBytes_nonneg (RightPadBytes d n)).
  split_and!; simpl; [by apply progresses_refl|done|go_lia|unfold nothing; lia|]. intros _. split; [|lia].
  split; simpl; try done; [by apply Forall_cons|rewrite len_cons; lia|lia].
Qed.

Lemma exec_dup op n g : (1 <= n)%nat -> exec_spec op (plain_op (makeDup n) g (makeDupStackFunc (Z.of_nat n))) nothing.
Proof.
  intros Hn. eapply exec_stack; [reflexivity|reflexivity|]. intros f m Hf Hs Hl. destruct (stack_has (stack f) (n - 1)) as [x Hx]; [lia|].
  eexists. split_and!.
  - cbn [execute plain_op]. unfold makeDup, dup. cbv [mbind SM_bind getf lift outcome_bind fst]. rewrite Hx. reflexivity.
  - apply Forall_cons. split; [by eapply stack_nonneg|apply Hf].
  - rewrite len_cons. lia.
Qed.

Lemma exec_swap op n g : exec_spec op (plain_op (makeSwap n) g (makeSwapStackFunc (Z.of_nat (S n)))) nothing.
Proof.
  eapply exec_stack; [reflexivity|reflexivity|]. intros f m Hf Hs Hl. destruct (stack_has (stack f) (n + 1 - 1)) as [x Hx]; [lia|].
  destruct (stack_has (stack f) 0) as [y Hy]; [lia|]. eexists. split_and!.
  - cbn [execute plain_op]. unfold makeSwap, swap. cbv [mbind SM_bind getf lift outcome_bind fst]. rewrite Hx, Hy. reflexivity.
  - apply Forall_insert; [apply Forall_insert; [apply Hf|]|]; by eapply stack_nonneg.
  - unfold len. rewrite !length_insert. lia.
Qed.

Lemma ens_pop_topics n f (m : Machine) Q : Z.of_nat n <= len (stack f) -> (forall ts, Q (with_stack (drop n (stack f)) f, m) ts) -> ens (pop_topics n) (f, m) Q.
Proof.
  revert f Q. induction n as [|n IH]; intros f Q Hl Hq; cbn [pop_topics].
  - apply ens_ret. specialize (Hq []). by destruct f.
  - destruct (stack f) as [|x st] eqn:Est; [unfold len in Hl; simpl in Hl; lia|]. rewrite len_cons in Hl. eapply ens_bind, ens_pop; [done|].
    apply ens_bind, IH; [reduce; lia|]. intros ts. apply ens_ret, Hq.
Qed.

Lemma exec_log op n g a : Z.of_nat n + 2 = a ->
  exec_spec op (MkOperation (makeLog n) g (makeStackFunc a 0) (Some memoryLog) false false true false false) nothing.
Proof.
  intros Ha. assert (0 <= Z.of_nat n) by lia. memorised 2. unfold makeLog. pops. rewrite !len_cons in *. apply ens_bind, ens_pop_topics; [reduce; lia|]. intros ts. reduce.
  apply ens_bind, ens_getf, ens_bind. reduce. destruct (mem_Get_ok mm z z0) as (d & Hd & _); [done..|by apply calcMemSize_ge|]. eapply ens_lift; [exact Hd|].
  apply ens_bind, ens_getf, ens_bind, ens_onst. apply (ens_unit K evm); [done|done|done|by intros ?%Hwr|]. intros m' Hp' _. apply ens_ret.
  eexists _, _. split_and!; [reflexivity|assumption|intros _; split_and!; reduce; [by apply Forall_drop|rewrite len_drop; lia|assumption]].
Qed.

(** *** Calls *)

Lemma ens_finish f st m gas retOffset retSize (call : SM Machine (bytes * Z * option VmError)) allow : frame_ok f ->
  ens call m (call_post K evm m gas) -> gas <= allow -> Gas (contract f) + allow <= MaxUint64 ->
  Forall (fun x => 0 <= x) st -> len st + 1 <= StackLimit -> 0 <= retOffset -> 0 <= retSize ->
  calcMemSize retOffset retSize <= len (store (mem f)) ->
  ens (r ← onst call; finish_call retOffset retSize r) (with_stack st f, m) (exec_post f m allow).
Proof.
  intros Hf Hcall Hga Hmax Hst Hlim Ho Hsz Hcov. pose proof Hf as [Hc Hg Hi _ _ Hmem Hd Ht Hpc]. pose proof (len_nonneg (Evm.Code c0)).
  apply ens_bind, ens_onst. eapply ens_mono; [exact Hcall|]. intros m' [[ret g] err] (Hp & Hgr & _). reduce. unfold finish_call.
  apply ens_bind, ens_push. apply ens_bind.
  assert (Hend : forall mm, mem_ok mm -> ens (_ ← add_gas g; mret (ret, None))
    (with_mem mm (with_stack ((match err with Some _ => 0 | None => 1 end) :: st) f), m') (exec_post f m allow)).
  { intros mm Hmm. apply ens_bind, ens_bind, ens_getf, ens_modf, ens_ret. reduce. rewrite u64_id by go_lia.
    split_and!; simpl; [done|by rewrite Hc|go_lia|lia|]. intros _. split; [|lia].
    split; simpl; try done; [by rewrite Hc|go_lia|apply Forall_cons; split; [by destruct err|done]|rewrite len_cons; lia|lia]. }
  destruct (_ || _).
  - apply ens_set_mem; [done..|by apply calcMemSize_ge|]. intros mm Hmm. by apply Hend.
  - apply ens_ret. specialize (Hend (mem f) Hmem). by destruct f.
Qed.

Lemma BigMax_le x y n : BigMax x y <= n -> x <= n /\ y <= n.
Proof. unfold BigMax. destruct (_ <? _) eqn:E; bool_to_prop; lia. Qed.
Lemma BitLen_0 v : (0 <? BitLen v) = false -> v = 0.
Proof. intros E. bool_to_prop. destruct (decide (v = 0)) as [|Hne]; [done|]. apply BitLen_pos in Hne. lia. Qed.

Lemma pass_pre gas v d : is_u64 gas -> 0 <= v -> len d < 2 ^ 62 -> call_pre (d0:=d0) evm gas v d.
Proof. by split. Qed.

(** The operands of a call, opened up, and its arguments loaded. *)
Tactic Notation "calling" int_or_var(n) :=
  intros [p st mm c i rd cg jd] m ms Hf Hfr Hs Hval Hreq Hcov Hmax Henf Hwr;
  pose proof (fo_contract _ _ _ Hf) as Hc; pose proof (fo_stack _ _ _ Hf) as Hst; pose proof (fo_gas _ _ _ Hf) as Hg;
  pose proof (fo_temp _ _ _ Hf) as Ht; pose proof (fo_mem _ _ _ Hf) as Hmem;
  cbn [validateStack] in Hval; apply makeStackFunc_None in Hval as [Hlen Hlim]; cbn [stack contract mem callGasTemp] in *;
  do n (destruct st as [|? st]; [exfalso; unfold len in Hlen; simpl in Hlen; lia|]);
  repeat match goal with H : Forall _ (_ :: _) |- _ => apply Forall_cons in H as [? ?] end; rewrite ?len_cons in *;
  apply requiredMemory_inv in Hreq as (_ & _ & Hreq); [|intros sz Hsz n1 Hn1; eapply (sizes_args2 _ _ _ _ sz); [exact Hsz| |exact Hn1]; repeat (apply Forall_cons; split); assumption];
  destruct (Hreq _ eq_refl) as (n0 & Hn0 & Hle); cbn in Hn0; injection Hn0 as <-; pose proof Hle as Hb;
  apply (fun H => BigMax_le _ _ _ (Z.le_trans _ _ _ H Hcov)) in Hb as [Hb1 Hb2]; cbn [execute].

Definition call_op (e : EVM -> SM (Frame * Machine) (bytes * option VmError)) g a mem : operation :=
  MkOperation e g (makeStackFunc a 1) (Some mem) false false false false true.

(** The arguments, the call itself and its end. *)
Lemma ens_args f f0 inOffset inSize m k Q : mem_ok (mem f) -> 0 <= inOffset -> 0 <= inSize -> calcMemSize inOffset inSize <= len (store (mem f)) ->
  f = f0 -> (forall d, len d < 2 ^ 62 -> ens (k d (contract f0)) (f0, m) Q) ->
  ens (m ← getf mem; args ← lift (mem_Get m (big_Int64 inOffset) (big_Int64 inSize)); c ← getf contract; k args c : SM (Frame * Machine) (bytes * option VmError)) (f, m) Q.
Proof.
  intros Hm Ho Hs Hcov <- Hk. apply ens_bind, ens_getf, ens_bind. cbn [fst].
  destruct (mem_Get_ok (mem f) inOffset inSize) as (d & Hd & Hdl); [done..|by apply calcMemSize_ge|]. eapply ens_lift; [exact Hd|].
  by apply ens_bind, ens_getf, Hk.
Qed.

(** With the stipend, as long as the price of it has been taken into account. *)
Lemma stipend_ok (cg v : Z) : 0 <= cg -> 0 <= v ->
  forall g, is_u64 g -> g + (cg + (if v =? 0 then 0 else CallStipend)) <= MaxUint64 ->
  let gas := if negb (U256 v =? 0) then u64 (cg + CallStipend) else cg in
  is_u64 gas /\ gas <= cg + (if v =? 0 then 0 else CallStipend).
Proof.
  intros Hcg Hv g Hg Hmax. cbv zeta. unfold CallStipend in *. destruct (v =? 0) eqn:Ev; bool_to_prop.
  - subst v. change (U256 0) with 0. simpl. go_lia.
  - destruct (negb _); [rewrite u64_id by go_lia|]; go_lia.
Qed.

Lemma exec_call g : exec_spec CALL (call_op opCall g 7 memoryCall) pays.
Proof.
  calling 7. unfold opCall. eapply ens_bind, ens_pop; [reflexivity|]. reduce. apply ens_bind, ens_getf. pops. cbv zeta.
  set (f := MkFrame _ _ _ _ _ _ _ _) in *. unfold pays in Hmax |- *. cbn [f callGasTemp stack lookup list_lookup] in Hmax |- *.
  destruct (stipend_ok cg z1 Ht H1 (Gas c) Hg Hmax) as [Hgu Hgl]. cbv zeta in Hgu, Hgl. set (gas := if negb _ then _ else cg) in *.
  apply (ens_args _ (with_stack st f)); [done..|]. intros d Hd. apply (ens_finish f st m gas z4 z5 _ _ Hf); try done; [|lia].
  apply (ens_Call K); [done|done|by apply pass_pre; [|apply U256_range|]|]. intros Hst.
  unfold static in Hst. apply andb_true_iff in Hst as [Hro Hby]. unfold enforceRestrictions in Henf. rewrite Hro, Hby in Henf. cbn in Henf.
  destruct (0 <? BitLen z1) eqn:E; [done|]. apply BitLen_0 in E. by subst z1.
Qed.

Lemma exec_callcode op g : exec_spec op (call_op opCallCode g 7 memoryCallCode) pays.
Proof.
  calling 7. unfold opCallCode. eapply ens_bind, ens_pop; [reflexivity|]. reduce. apply ens_bind, ens_getf. pops. cbv zeta.
  set (f := MkFrame _ _ _ _ _ _ _ _) in *. unfold pays in Hmax |- *. cbn [f callGasTemp stack lookup list_lookup] in Hmax |- *.
  destruct (stipend_ok cg z1 Ht H1 (Gas c) Hg Hmax) as [Hgu Hgl]. cbv zeta in Hgu, Hgl. set (gas := if negb _ then _ else cg) in *.
  apply (ens_args _ (with_stack st f)); [done..|]. intros d Hd. apply (ens_finish f st m gas z4 z5 _ _ Hf); try done; [|lia].
  apply (ens_CallCode K); [done|done|by apply pass_pre; [|apply U256_range|]].
Qed.

Lemma exec_delegatecall op g : exec_spec op (call_op opDelegateCall g 6 memoryDelegateCall) passes.
Proof.
  calling 6. unfold opDelegateCall. eapply ens_bind, ens_pop; [reflexivity|]. reduce. apply ens_bind, ens_getf. pops. cbv zeta.
  set (f := MkFrame _ _ _ _ _ _ _ _) in *. unfold passes in Hmax |- *. cbn [f callGasTemp] in Hmax |- *.
  apply (ens_args _ (with_stack st f)); [done..|]. intros d Hd. apply (ens_finish f st m cg z3 z4 _ _ Hf); try done; [|lia].
  apply (ens_DelegateCall K); [done|done|]. apply pass_pre; [go_lia| |done]. change (0 <= value c). by rewrite Hc.
Qed.

Lemma exec_staticcall op g : exec_spec op (call_op opStaticCall g 6 memoryStaticCall) passes.
Proof.
  calling 6. unfold opStaticCall. eapply ens_bind, ens_pop; [reflexivity|]. reduce. apply ens_bind, ens_getf. pops. cbv zeta.
  set (f := MkFrame _ _ _ _ _ _ _ _) in *. unfold passes in Hmax |- *. cbn [f callGasTemp] in Hmax |- *.
  apply (ens_args _ (with_stack st f)); [done..|]. intros d Hd. apply (ens_finish f st m cg z3 z4 _ _ Hf); try done; [|lia].
  eapply ens_mono; [apply (ens_StaticCall K); [done|done|by apply pass_pre; [go_lia| |]]|]. intros m' r. apply call_post_weaken.
  unfold static. intros [_ Hby]%andb_true_iff. exact Hby.
Qed.

Lemma exec_create op g : exec_spec op (MkOperation (opCreate K) g (makeStackFunc 3 1) (Some memoryCreate) false false true false true) nothing.
Proof.
  intros f m ms Hf Hfr Hs Hval Hreq Hcov _ _ Hwr. apply makeStackFunc_None in Hval as [Hlen Hlim].
  pose proof Hf as [Hc Hg Hi Hst _ Hmem Hd Ht Hpc]. pose proof (len_nonneg (Evm.Code c0)).
  destruct (stack f) as [|v [|off [|sz st]]] eqn:Est; [exfalso; unfold len in Hlen; simpl in Hlen; lia..|]. rewrite !len_cons in *.
  apply Forall_cons in Hst as [Hv [Ho [Hz Hst]%Forall_cons]%Forall_cons]. rewrite <- Est in Hreq.
  apply requiredMemory_inv in Hreq as (_ & _ & Hreq).
  2:{ intros g' Hg' n Hn. eapply (sizes_args 1 2 g'); [exact Hg'|apply Hf|exact Hn]. }
  destruct (Hreq _ eq_refl) as (n & Hn & Hle). rewrite Est in Hn. cbn in Hn. injection Hn as <-.
  cbn [execute]. unfold opCreate. eapply ens_bind, ens_pop; [exact Est|]. reduce. pops. set (f1 := with_stack st _).
  apply (ens_args f1 f1); [done..|cbn; lia|done|]. intros d Hdl. cbv zeta. change (contract f1) with (contract f).
  assert (Hns : static evm = false) by (destruct (static evm); [by specialize (Hwr eq_refl)|done]).
  assert (Hq : 0 <= Gas (contract f) / 64 <= Gas (contract f)) by div_lia.
  rewrite (u64_id (Gas (contract f) - Gas (contract f) / 64)) by go_lia. set (gas := Gas (contract f) - Gas (contract f) / 64).
  apply ens_bind, ens_modf. unfold UseGas. rewrite (proj2 (Z.ltb_ge _ _)) by lia. reduce.
  apply ens_bind, ens_onst. eapply ens_mono; [apply (ens_Create K evm Hns); [done|done|apply pass_pre; [unfold gas; go_lia|done|done]]|].
  intros m' [[[res a] rg] err] (Hp & Hrg & _). apply ens_bind, ens_push, ens_bind, ens_bind, ens_getf, ens_modf, ens_ret. reduce. simpl Gas.
  replace (Gas (contract f) - gas) with (Gas (contract f) / 64) in * by (unfold gas; lia). rewrite u64_id by (unfold gas in *; go_lia).
  split_and!; simpl; [done|by rewrite Hc|unfold gas in *; go_lia|unfold nothing, gas in *; lia|]. intros _. split; [|lia].
  split; simpl; try done; [by rewrite Hc|unfold gas in *; go_lia|apply Forall_cons; split; [destruct err as [[]|]; nonneg|done]|rewrite len_cons; lia|lia].
Qed.

Lemma exec_return op g h r : exec_spec op (MkOperation opReturn g (makeStackFunc 2 0) (Some memoryReturn) h false false r r) nothing.
Proof.
  memorised 2. unfold opReturn. pops. apply ens_bind, ens_getf, ens_bind. reduce.
  destruct (GetPtr_ok mm z z0) as (d & Hd); [done..|by apply calcMemSize_ge|]. eapply ens_lift; [exact Hd|]. apply ens_ret. local_done.
Qed.

Lemma exec_suicide op g : exec_spec op (MkOperation opSuicide g (makeStackFunc 1 0) None true false true false false) nothing.
Proof.
  eapply exec_local; [reflexivity|by apply no_size|]. opened 1. intros Hfr _ Hwr. cbn [execute]. unfold opSuicide.
  assert (Hns : static evm = true -> False) by (intros Hs'; by specialize (Hwr Hs')).
  apply ens_bind, ens_getf, ens_bind, ens_onst, ens_GetBalance. pops. apply ens_bind, ens_onst.
  apply (ens_unit K evm); [done|done|by apply balance_nonneg|by intros []%Hns|]. intros m1 Hp1 _. apply ens_bind, ens_onst.
  apply (ens_bool K evm); [by eapply extends_fresh, Hp1|apply Hp1|done|by intros []%Hns|]. intros m2 b Hp2 _.
  pose proof (progresses_trans _ _ _ _ _ Hp1 Hp2). apply ens_ret. local_done.
Qed.

Lemma exec_returndatacopy op g :
  exec_spec op (MkOperation opReturnDataCopy g (makeStackFunc 3 0) (Some memoryReturnDataCopy) false false false false false) nothing.
Proof.
  memorised 3. unfold opReturnDataCopy. pops. cbv zeta. apply ens_bind, ens_getf. reduce.
  destruct (_ || _) eqn:E; [apply ens_ret; eexists _, _; split_and!; [reflexivity|assumption|done]|].
  apply orb_false_iff in E as [E1 E2]. bool_to_prop. apply BitLen_le in E1; [|lia|lia]. rewrite !(big_Uint64_id (z0 + z1)) in * by go_lia.
  apply ens_bind. destruct (slice_ok rd (big_Uint64 z0) (z0 + z1)) as (d & Hd & _); [apply u64_range|rewrite big_Uint64_id by go_lia; lia|done|].
  apply (ens_lift _ d); [done|]. apply ens_bind, ens_set_mem; [done..|by apply calcMemSize_ge|]. intros mm' Hmm. apply ens_ret. local_done.
Qed.

Lemma exec_returndatasize op g : exec_spec op (plain_op opReturnDataSize g (makeStackFunc 0 1)) nothing.
Proof. pure 0. Qed.

End Ops.

End VmExec.
