(* ===== verification/VmLaws.v ===== *)
(** The interpreter keeps what the message calls expect of it: every entry of the
    instruction tables is safe, the loop ends before its fuel, and a run at any depth
    returns within its gas and leaves the state as a caller can rely on. *)

From S2P Require Import Prelude Params Bytes StateDB StateDBSpec StateDBRefine StateDBProps Evm EvmProps VmBase VmGas VmInstr VmInterp VmBaseProps VmSafe VmPrice VmExec VmSim.
Import StateSpec Evm EvmProps Vm VmGas VmInstr VmInterp VmBaseProps VmSafe VmPrice VmExec VmSim.

Module VmLaws.

(** ** The tables *)

Section Table.
Context {pre : Precompiles} {plaws : PrecompilesLaws} {interp : Interpreter} (K : bytes -> Hash) {d0 : Z} {ilaws : InterpreterLaws K d0}.
#[local] Instance spec_ops : StateOps Machine := Machine_ops K.
Context (c0 : Contract) (input0 : bytes) (Hvalue : 0 <= value c0) (Hcode : len (Evm.Code c0) < 2 ^ 62) (Hinput : len input0 < 2 ^ 62).
Context (evm : EVM) (Hprice : 0 <= GasPrice evm) (Hdepth : 0 <= d0 <= depth evm).

Abbreviation operation := (operation (St:=Machine)).
Abbreviation entry_ok := (entry_ok K c0 input0 evm).
Abbreviation gas_spec := (gas_spec K c0 input0 evm).
Abbreviation exec_spec := (exec_spec K c0 input0 evm).

Lemma entries l : Forall (fun e => gas_spec e.2 nothing) l -> Forall (fun e => exec_spec e.1 e.2 nothing) l -> Forall entry_ok l.
Proof. intros Hg He. apply Forall_forall. intros e Hin. rewrite Forall_forall in Hg, He. exists nothing. split_and!; [done|by apply Hg|by apply He]. Qed.

Lemma entry_one op (o : operation) allow : stable allow -> gas_spec o allow -> exec_spec op o allow -> entry_ok (op, o).
Proof. intros H1 H2 H3. by exists allow. Qed.

Ltac each := repeat (apply Forall_cons; split); try apply Forall_nil_2; cbn [fst snd].
Ltac const := eapply gas_const; [reflexivity|reflexivity|by vm_compute].

Lemma arithmetic_entries : Forall entry_ok arithmetic_ops.
Proof.
  apply entries; [|by eapply exec_arithmetic]. unfold arithmetic_ops. each; try const. by eapply gas_exp.
Qed.
Lemma comparison_entries : Forall entry_ok comparison_ops.
Proof. apply entries; [|by eapply exec_comparison]. unfold comparison_ops. each; const. Qed.

Ltac words := eapply gas_words; [reflexivity|reflexivity|by vm_compute..].

Lemma environment_entries : Forall entry_ok (environment_ops K).
Proof. apply entries; [|by eapply exec_environment]. unfold environment_ops. each; try const; words. Qed.

Ltac mems := eapply gas_memory; [reflexivity|by vm_compute..].

Lemma storage_entries : Forall entry_ok storage_ops.
Proof.
  apply entries; [|by eapply exec_storage]. unfold storage_ops. each; try const; try mems. by eapply gas_sstore.
Qed.

Lemma push_entries : Forall entry_ok push_ops.
Proof. apply entries; unfold push_ops; [each; const|each; by eapply exec_push]. Qed.
Lemma dup_entries : Forall entry_ok dup_ops.
Proof. apply entries; unfold dup_ops; [each; const|each; eapply (exec_dup K c0 input0 evm); lia]. Qed.
Lemma swap_entries : Forall entry_ok swap_ops.
Proof. apply entries; unfold swap_ops; [each; const|each; eapply (exec_swap K c0 input0 evm)]. Qed.

Ltac logs := eapply gas_log; [reflexivity|reflexivity|by vm_compute].

Lemma system_entries : Forall entry_ok (system_ops K).
Proof.
  unfold system_ops. each.
  1-5: eapply entry_one; [apply nothing_stable|logs|by eapply exec_log].
  - eapply entry_one; [apply nothing_stable|mems|by eapply exec_create].
  - eapply entry_one; [apply pays_stable|eapply gas_call; [by left|reflexivity]|by eapply exec_call].
  - eapply entry_one; [apply pays_stable|eapply gas_call; [by right|reflexivity]|by eapply exec_callcode].
  - eapply entry_one; [apply nothing_stable|by eapply gas_halting|by eapply exec_return].
  - eapply entry_one; [apply nothing_stable|by eapply gas_suicide|by eapply exec_suicide].
Qed.

Lemma homestead_entries : Forall entry_ok homestead_ops.
Proof.
  unfold homestead_ops. each. eapply entry_one; [apply passes_stable|eapply gas_pass; [by left|reflexivity]|by eapply exec_delegatecall].
Qed.

Lemma byzantium_entries : Forall entry_ok byzantium_ops.
Proof.
  unfold byzantium_ops. each.
  - eapply entry_one; [apply passes_stable|eapply gas_pass; [by right|reflexivity]|by eapply exec_staticcall].
  - eapply entry_one; [apply nothing_stable|const|by eapply exec_returndatasize].
  - eapply entry_one; [apply nothing_stable|words|by eapply exec_returndatacopy].
  - eapply entry_one; [apply nothing_stable|by eapply gas_halting|by eapply exec_return].
Qed.

(** ** What the loop needs of an entry besides *)

Record shaped (e : Z * operation) : Prop := {
  sh_sizes : sizes_ok e.2;
  sh_call : e.1 = CALL -> forall st, validateStack e.2 st = None -> exists v, st !! 2%nat = Some v;
  sh_total : forall g st, memorySize e.2 = Some g -> validateStack e.2 st = None -> exists n, g st = Ret n
}.

Lemma shaped_none op (o : operation) : op <> CALL -> memorySize o = None -> shaped (op, o).
Proof. intros Hop Hn. split; simpl; [by apply no_size|done|congruence]. Qed.

Lemma args_total off size st : Z.of_nat off < len st -> Z.of_nat size < len st -> exists n, memoryArgs off size st = Ret n.
Proof.
  intros H1 H2. destruct (stack_has st off H1) as [x Hx], (stack_has st size H2) as [y Hy]. unfold memoryArgs, Back. rewrite Hx, Hy. by eexists.
Qed.

Lemma shaped_args op (o : operation) off size a b : op <> CALL -> memorySize o = Some (memoryArgs off size) -> validateStack o = makeStackFunc a b ->
  Z.of_nat off < a -> Z.of_nat size < a -> shaped (op, o).
Proof.
  intros Hop Hm Hv H1 H2. split; simpl; [|done|].
  - intros g st n. rewrite Hm. apply sizes_args.
  - intros g st. rewrite Hm, Hv. intros [= <-] [Hl _]%makeStackFunc_None. apply args_total; lia.
Qed.

Lemma shaped_args2 op (o : operation) p q r s a b : memorySize o = Some (memoryArgs2 p q r s) -> validateStack o = makeStackFunc a b ->
  Z.of_nat p < a -> Z.of_nat q < a -> Z.of_nat r < a -> Z.of_nat s < a -> 2 < a -> shaped (op, o).
Proof.
  intros Hm Hv H1 H2 H3 H4 Ha. split; simpl.
  - intros g st n. rewrite Hm. apply sizes_args2.
  - intros _ st. rewrite Hv. intros [Hl _]%makeStackFunc_None. apply stack_has. lia.
  - intros g st. rewrite Hm, Hv. intros [= <-] [Hl _]%makeStackFunc_None. unfold memoryArgs2.
    destruct (args_total p q st) as [x ->]; [lia..|]. destruct (args_total r s st) as [y ->]; [lia..|]. by eexists.
Qed.

Lemma shaped_word op (o : operation) k a b : op <> CALL -> 0 <= k -> memorySize o = Some (fun st => o ← Back st 0; Ret (calcMemSize o k)) ->
  validateStack o = makeStackFunc a b -> 0 < a -> shaped (op, o).
Proof.
  intros Hop Hk Hm Hv Ha. split; simpl; [|done|].
  - intros g st n. rewrite Hm. by apply sizes_word.
  - intros g st. rewrite Hm, Hv. intros [= <-] [Hl _]%makeStackFunc_None. destruct (stack_has st 0) as [x Hx]; [lia|]. unfold Back. rewrite Hx. by eexists.
Qed.

Ltac shape := first
  [ apply shaped_none; [discriminate|reflexivity]
  | eapply shaped_args; [discriminate|reflexivity|reflexivity|lia|lia]
  | eapply shaped_args2; [reflexivity|reflexivity|lia..]
  | eapply (shaped_word _ _ 32); [discriminate|lia|reflexivity|reflexivity|lia]
  | eapply (shaped_word _ _ 1); [discriminate|lia|reflexivity|reflexivity|lia] ].

Lemma frontier_shaped : Forall shaped (frontierInstructionSet K).
Proof.
  unfold frontierInstructionSet. rewrite !Forall_app. split_and!.
  - unfold arithmetic_ops. each; shape.
  - unfold comparison_ops. each; shape.
  - unfold environment_ops. each; shape.
  - unfold storage_ops. each; shape.
  - unfold push_ops. each; shape.
  - unfold dup_ops. each; shape.
  - unfold swap_ops. each; shape.
  - unfold system_ops. each; shape.
Qed.

Lemma table_shaped : Forall shaped (JumpTable K evm).
Proof.
  unfold JumpTable. destruct (IsByzantium evm); [|apply frontier_shaped]. unfold byzantiumInstructionSet, homesteadInstructionSet.
  rewrite !Forall_app. split_and!; [unfold byzantium_ops; each; shape|unfold homestead_ops; each; shape|apply frontier_shaped].
Qed.

Lemma table_entries : Forall entry_ok (JumpTable K evm).
Proof.
  assert (Hf : Forall entry_ok (frontierInstructionSet K)).
  { unfold frontierInstructionSet. rewrite !Forall_app. split_and!; [apply arithmetic_entries|apply comparison_entries|apply environment_entries|
      apply storage_entries|apply push_entries|apply dup_entries|apply swap_entries|apply system_entries]. }
  unfold JumpTable. destruct (IsByzantium evm); [|done]. unfold byzantiumInstructionSet, homesteadInstructionSet.
  rewrite !Forall_app. split_and!; [apply byzantium_entries|apply homestead_entries|done].
Qed.

Lemma table_stop o : find_op 0 (JumpTable K evm) = Some o -> halts o = true.
Proof. unfold JumpTable. destruct (IsByzantium evm); cbn; by intros [= <-]. Qed.

(** ** The loop *)

Lemma step_safe f m : frame_ok c0 input0 f -> fresh_ids m -> sane (cur m) -> ens (step K evm) (f, m) (turn_post K c0 input0 evm f m).
Proof.
  intros Hf Hfr Hs. pose proof table_shaped as Hsh. rewrite Forall_forall in Hsh. apply step_ok; try done.
  - apply Forall_forall, table_entries.
  - intros op o Hin g st n. apply (sh_sizes _ (Hsh _ Hin)).
  - apply table_stop.
  - intros op o Hin. apply (sh_call _ (Hsh _ Hin)).
  - intros op o Hin. apply (sh_total _ (Hsh _ Hin)).
Qed.

(** Each turn but the last uses gas: as many turns as there is gas are enough. *)
Lemma loop_safe n f m : frame_ok c0 input0 f -> fresh_ids m -> sane (cur m) -> Gas (contract f) < Z.of_nat n ->
  ens (loop K n evm) (f, m) (fun s' _ => progresses K evm m s'.2 /\ 0 <= Gas (contract s'.1) <= Gas (contract f)).
Proof.
  revert f m. induction n as [|n IH]; intros f m Hf Hfr Hs Hn; [pose proof (fo_gas _ _ _ Hf); go_lia|]. cbn [loop].
  apply ens_bind. eapply ens_mono; [by apply step_safe|]. intros [f' m'] [r|] (Hp & Hr); simpl in Hp, Hr.
  - by apply ens_ret.
  - destruct Hr as [Hf' Hg]. eapply ens_mono; [apply IH; [done|eapply extends_fresh, Hp|apply Hp|lia]|].
    intros s' _ (Hp' & Hg'). split; [by eapply progresses_trans|lia].
Qed.

End Table.

(** ** A run, at every depth *)

Section Run.
Context {pre : Precompiles} {plaws : PrecompilesLaws} (K : bytes -> Hash).

Lemma Run_safe (interp : Interpreter) d0 (ilaws : InterpreterLaws K d0) evm c input m : 0 <= d0 <= depth evm + 1 ->
  fresh_ids m -> sane (cur m) -> run_pre evm c input ->
  exists m' ret g err, Run (ops:=Machine_ops K) (interp:=interp) K evm c input m = Ret (m', (ret, g, err)) /\
    0 <= g <= Gas c /\ progresses K evm m m'.
Proof.
  intros Hd Hfr Hs [Hg Hv Hp Hdep Hc Hi]. unfold Run. destruct (Evm.Code c) as [|b code] eqn:Ec.
  { exists m, [], (Gas c), None. split_and!; [done|go_lia|done|by apply progresses_refl]. }
  rewrite <- Ec in Hc. clear b code Ec.
  destruct (loop_safe K c input Hv Hc Hi (deeper evm) Hp Hd (S (Z.to_nat (Gas c))) (MkFrame 0 [] NewMemory c input [] 0 ∅) m)
    as ([f m'] & [ret err] & Hl & Hpr & Hgr); try done.
  - pose proof (len_nonneg (Evm.Code c)). split; simpl; try done; [by destruct c|lia].
  - simpl. go_lia.
  - unfold spec_ops in Hl. rewrite Hl. simpl in *. exists m', ret, (Gas (contract f)), err. split_and!; try done; try lia. by destruct Hpr.
Qed.

Lemma levels_laws n : Z.of_nat n <= CallCreateDepth + 1 -> InterpreterLaws (H:=levels K n) K (CallCreateDepth + 1 - Z.of_nat n).
Proof.
  induction n as [|n IH]; intros Hn; (split; [apply levels_sim|..]).
  - intros evm c input m _ _ [_ _ _ Hd _ _] Hle. lia.
  - intros. lia.
  - intros evm c input m Hf Hs Hp Hle. apply (Run_safe (levels K n) (CallCreateDepth + 1 - Z.of_nat n)); [apply IH; lia|lia|done..].
  - intros S ops evm c input s Hc Hd. cbn [levels InterpreterRun]. unfold Run. by rewrite Hc.
Qed.

#[export] Instance evm_laws : InterpreterLaws (H:=evm_interpreter K) K 0.
Proof.
  split.
  - intros S1 S2 ops1 ops2 R HR evm c input. apply (levels_sim K _ S1 S2 ops1 ops2 R HR).
  - intros evm c input m Hf Hs Hp _. pose proof (rp_depth _ _ _ Hp) as Hd. cbn [evm_interpreter InterpreterRun].
    pose proof (levels_laws (Z.to_nat (CallCreateDepth + 1 - depth evm)) ltac:(lia)) as Hl. by apply (@run_spec _ _ _ Hl); [..|lia].
  - intros S ops evm c input s Hc Hd. cbn [evm_interpreter InterpreterRun].
    pose proof (levels_laws (Z.to_nat (CallCreateDepth + 1 - depth evm)) ltac:(lia)) as Hl. by apply (@run_empty _ _ _ Hl); [|lia].
Qed.

End Run.

End VmLaws.
