(* ===== verification/VmArith.v ===== *)
(** The arithmetic of the EVM against its mathematical meaning: what the instructions
    compute on 256-bit words with [big.Int] and the helpers of [common/math] (exponentiation by
    squaring over machine words, sign extension by masks, comparison by the sign bit, bytes
    of the word array) are the operations on integers modulo 2^256.

    What the interpreter promises to the rest of the node, on the state database: it
    always returns, within the gas, and the memory it uses is paid for. *)

From Stdlib Require Import Zpow_facts.
From S2P Require Import Prelude Params Bytes StateDB StateDBSpec StateDBRefine StateDBProps Evm EvmProps VmBase VmGas VmInstr VmInterp VmSim VmBaseProps VmSafe VmLaws.
Import Evm Vm VmGas VmInstr VmBaseProps.

Module VmArith.

(** ** The meaning of words *)

Definition word (x : Z) : Prop := 0 <= x < 2 ^ 256.
(** The low [n] bits of [x] as a signed number. *)
Definition signed (n x : Z) : Z := (x + 2 ^ (n - 1)) mod 2 ^ n - 2 ^ (n - 1).

Lemma S256_signed x : word x -> S256 x = signed 256 x.
Proof.
  unfold word, S256, signed, tt255, tt256. intros Hx. change (256 - 1) with 255. destruct (x <? 2 ^ 255) eqn:E; bool_to_prop.
  - rewrite Z.mod_small; lia.
  - replace (x + 2 ^ 255) with ((x - 2 ^ 255) + 1 * 2 ^ 256) by lia. rewrite Z.mod_add by done. rewrite Z.mod_small; lia.
Qed.
Lemma signed_zero x : word x -> signed 256 x = 0 <-> x = 0.
Proof. intros Hx. rewrite <- S256_signed by done. unfold word, S256, tt255, tt256 in *. destruct (x <? 2 ^ 255) eqn:E; bool_to_prop; lia. Qed.

(** ** Exponentiation *)

Lemma exp_word_spec n w b r : 0 <= w -> 0 <= r < 2 ^ 256 -> 0 <= (exp_word n w b r).2 < 2 ^ 256 /\
  (exp_word n w b r).2 mod 2 ^ 256 = (r * b ^ (w mod 2 ^ Z.of_nat n)) mod 2 ^ 256 /\
  (exp_word n w b r).1 mod 2 ^ 256 = (b ^ 2 ^ Z.of_nat n) mod 2 ^ 256.
Proof.
  revert w b r. induction n as [|n IH]; intros w b r Hw Hr.
  { cbn [exp_word fst snd]. change (2 ^ Z.of_nat 0) with 1. rewrite Z.mod_1_r, Z.pow_1_r, Z.pow_0_r, Z.mul_1_r. done. }
  cbn [exp_word]. set (r1 := if Z.land w 1 =? 1 then _ else r). assert (Hr1 : 0 <= r1 < 2 ^ 256) by (unfold r1; destruct (_ =? _); [apply U256_range|done]).
  assert (Hr1m : r1 mod 2 ^ 256 = (r * b ^ (w mod 2)) mod 2 ^ 256).
  { unfold r1. change 1 with (Z.ones 1) at 1. rewrite Z.land_ones by lia. change (2 ^ 1) with 2. pose proof (Z.mod_pos_bound w 2).
    destruct (w mod 2 =? 1) eqn:E; bool_to_prop.
    - rewrite E, Z.pow_1_r, U256_mod, Z.mod_mod by done. done.
    - replace (w mod 2) with 0 by lia. by rewrite Z.pow_0_r, Z.mul_1_r. }
  clearbody r1. assert (Hsh : Z.shiftr w 1 = w / 2) by (by rewrite Z.shiftr_div_pow2).
  rewrite Hsh. destruct (IH (w / 2) (U256 (b * b)) r1) as (H1 & H2 & H3); [apply Z.div_pos; lia|done|]. split_and!; [apply H1..| |].
  - rewrite H2, U256_mod, Z.mul_mod, <- Zpower_mod, <- Z.mul_mod by done. rewrite Z.mul_mod, Hr1m, <- Z.mul_mod by done. f_equal.
    rewrite Nat2Z.inj_succ, Z.pow_succ_r, Z.rem_mul_r by lia. rewrite Z.pow_add_r, Z.pow_mul_r, Z.pow_2_r; [ring|..].
    all: try apply Z.mul_nonneg_nonneg; try lia; apply Z.mod_pos_bound; lia.
  - rewrite H3, U256_mod, <- Zpower_mod by done. f_equal. rewrite <- Z.pow_2_r, <- Z.pow_mul_r by lia. f_equal. rewrite Nat2Z.inj_succ, Z.pow_succ_r by lia. done.
Qed.

Lemma pow64_pos n : 0 < 2 ^ (64 * Z.of_nat n).
Proof. apply Z.pow_pos_nonneg; lia. Qed.

(** Dropping one word more. *)
Lemma words_next x i : x / 2 ^ (64 * Z.of_nat (S i)) = x / 2 ^ (64 * Z.of_nat i) / 2 ^ 64.
Proof.
  pose proof (pow64_pos i). rewrite Z.div_div by lia. f_equal. rewrite <- Z.pow_add_r by lia. f_equal. lia.
Qed.
Lemma words_split y n : y mod 2 ^ (64 * Z.of_nat (S n)) = y mod 2 ^ 64 + 2 ^ 64 * ((y / 2 ^ 64) mod 2 ^ (64 * Z.of_nat n)).
Proof.
  pose proof (pow64_pos n). rewrite <- Z.rem_mul_r by lia. f_equal. rewrite <- Z.pow_add_r by lia. f_equal. lia.
Qed.

(** The words of [x] from the [i]-th on. *)
Lemma exp_words_spec n i x b r : 0 <= x -> 0 <= r < 2 ^ 256 ->
  let ws := (fun i => u64 (Z.shiftr x (64 * Z.of_nat i))) <$> seq i n in
  0 <= exp_words ws b r < 2 ^ 256 /\
  exp_words ws b r mod 2 ^ 256 = (r * b ^ ((x / 2 ^ (64 * Z.of_nat i)) mod 2 ^ (64 * Z.of_nat n))) mod 2 ^ 256.
Proof.
  revert i b r. induction n as [|n IH]; intros i b r Hx Hr; cbv zeta.
  { cbn [seq fmap list_fmap exp_words]. change (2 ^ (64 * Z.of_nat 0)) with 1. by rewrite Z.mod_1_r, Z.pow_0_r, Z.mul_1_r. }
  cbn [seq fmap list_fmap exp_words]. set (w := u64 _).
  assert (Hw : w = (x / 2 ^ (64 * Z.of_nat i)) mod 2 ^ 64) by (unfold w, u64; by rewrite Z.shiftr_div_pow2 by lia).
  assert (Hwr : 0 <= w) by (rewrite Hw; by apply Z.mod_pos_bound). assert (Hws : w mod 2 ^ 64 = w) by (rewrite Hw; by apply Z.mod_mod). clearbody w.
  destruct (exp_word_spec 64 w b r Hwr Hr) as (H1 & H2 & H3). change (2 ^ Z.of_nat 64) with (2 ^ 64) in *. rewrite Hws in H2.
  generalize dependent (exp_word 64 w b r). intros [b' r'] H1 H2 H3. cbn [fst snd] in H1, H2, H3.
  destruct (IH (S i) b' r' Hx H1) as (H4 & H5). cbv zeta in H4, H5. split; [done|]. rewrite H5, words_next, words_split, <- Hw. clear H4 H5 IH Hw Hws H1.
  pose proof (pow64_pos n). assert (Hk : 0 <= (x / 2 ^ (64 * Z.of_nat i) / 2 ^ 64) mod 2 ^ (64 * Z.of_nat n)) by (by apply Z.mod_pos_bound).
  generalize dependent ((x / 2 ^ (64 * Z.of_nat i) / 2 ^ 64) mod 2 ^ (64 * Z.of_nat n)). intros k Hk.
  rewrite Z.mul_mod, H2, <- Z.mul_mod by done. rewrite Z.mul_mod, (Zpower_mod b' k), H3, <- Zpower_mod, <- Z.mul_mod by done.
  rewrite Z.pow_add_r; [|exact Hwr|apply Z.mul_nonneg_nonneg; [discriminate|exact Hk]]. rewrite Z.pow_mul_r; [|discriminate|exact Hk].
  rewrite Z.mul_assoc. reflexivity.
Qed.

Lemma Bits_covers x : 0 <= x -> x < 2 ^ (64 * Z.of_nat (Z.to_nat ((BitLen x + 63) / 64))).
Proof.
  intros Hx. assert (Hb : 0 <= BitLen x) by (unfold BitLen; destruct (x =? 0); [done|]; pose proof (Z.log2_nonneg (Z.abs x)); lia).
  rewrite Z2Nat.id by div_lia. eapply Z.lt_le_trans; [apply (BitLen_le x (BitLen x)); lia|]. apply Z.pow_le_mono_r; [lia|]. div_lia.
Qed.

Lemma Exp_spec b e : 0 <= e -> Exp b e = (b ^ e) mod 2 ^ 256.
Proof.
  intros He. unfold Exp, Bits. rewrite Z.abs_eq by done. set (n := Z.to_nat _).
  destruct (exp_words_spec n 0 e b 1 He) as [H1 H2]; [done|]. cbv zeta in H1, H2. rewrite Z.mod_small in H2 by done. rewrite H2.
  rewrite Z.mul_1_l. change (2 ^ (64 * Z.of_nat 0)) with 1. rewrite Z.div_1_r. rewrite (Z.mod_small e); [done|]. split; [done|]. by apply Bits_covers.
Qed.

(** ** Signed division *)

Lemma sdiv_spec x y : word x -> word y ->
  (if (S256 y =? 0) || (S256 x =? 0) then 0
   else U256 (if negb (Z.sgn (S256 x) =? Z.sgn (S256 y)) then - (Z.abs (S256 x) / Z.abs (S256 y)) else Z.abs (S256 x) / Z.abs (S256 y)))
  = (if y =? 0 then 0 else Z.quot (signed 256 x) (signed 256 y) mod 2 ^ 256).
Proof.
  intros Hx Hy. pose proof (signed_zero y Hy) as Hz. rewrite !S256_signed by done.
  generalize dependent (signed 256 y). generalize (signed 256 x). intros a b Hz. destruct (y =? 0) eqn:Ey; bool_to_prop.
  { rewrite (proj2 Hz) by done. done. }
  assert (Hb : b <> 0) by (intros ->; apply Ey, Hz; done). rewrite (proj2 (Z.eqb_neq b 0) Hb). cbn [orb].
  destruct (a =? 0) eqn:Ea; bool_to_prop; [subst; by rewrite Z.quot_0_l|]. rewrite U256_mod. f_equal. rewrite Z.quot_div by done. generalize (Z.abs a / Z.abs b). intros q.
  destruct (Z.sgn_spec a) as [[? ->]|[[? ->]|[? ->]]]; [|lia|]; destruct (Z.sgn_spec b) as [[? ->]|[[? ->]|[? ->]]]; try lia; simpl; lia.
Qed.

Lemma smod_spec x y : word x -> word y ->
  (if S256 y =? 0 then 0 else U256 (if Z.sgn (S256 x) <? 0 then - (Z.abs (S256 x) mod Z.abs (S256 y)) else Z.abs (S256 x) mod Z.abs (S256 y)))
  = (if y =? 0 then 0 else Z.rem (signed 256 x) (signed 256 y) mod 2 ^ 256).
Proof.
  intros Hx Hy. pose proof (signed_zero y Hy) as Hz. rewrite !S256_signed by done.
  generalize dependent (signed 256 y). generalize (signed 256 x). intros a b Hz. destruct (y =? 0) eqn:Ey; bool_to_prop.
  { rewrite (proj2 Hz) by done. done. }
  assert (Hb : b <> 0) by (intros ->; apply Ey, Hz; done). rewrite (proj2 (Z.eqb_neq b 0) Hb). rewrite U256_mod. f_equal. rewrite Z.rem_mod by done.
  destruct (Z.sgn_spec a) as [[? ->]|[[<- ->]|[? ->]]]; simpl; [|by rewrite Z.mod_0_l by lia|]; generalize (Z.abs a mod Z.abs b); lia.
Qed.

Ltac cases := repeat match goal with |- context [?a <? ?b] => destruct (Z.ltb_spec a b) end.

Lemma slt_spec x y : word x -> word y ->
  (if (tt255 <=? x) && (y <? tt255) then 1 else if (x <? tt255) && (tt255 <=? y) then 0 else if x <? y then 1 else 0)
  = (if signed 256 x <? signed 256 y then 1 else 0).
Proof.
  intros Hx Hy. rewrite <- !S256_signed by done. unfold word, S256, tt255, tt256 in *. change (2 ^ 256) with (2 * 2 ^ 255) in *.
  generalize dependent (2 ^ 255). intros h Hx Hy.
  destruct (Z.ltb_spec x h), (Z.ltb_spec y h), (Z.leb_spec h x), (Z.leb_spec h y); cbn [andb]; cases; lia.
Qed.

Lemma sgt_spec x y : word x -> word y ->
  (if (tt255 <=? x) && (y <? tt255) then 0 else if (x <? tt255) && (tt255 <=? y) then 1 else if y <? x then 1 else 0)
  = (if signed 256 y <? signed 256 x then 1 else 0).
Proof.
  intros Hx Hy. rewrite <- !S256_signed by done. unfold word, S256, tt255, tt256 in *. change (2 ^ 256) with (2 * 2 ^ 255) in *.
  generalize dependent (2 ^ 255). intros h Hx Hy.
  destruct (Z.ltb_spec x h), (Z.ltb_spec y h), (Z.leb_spec h x), (Z.leb_spec h y); cbn [andb]; cases; lia.
Qed.

(** ** Bits and bytes *)

(** The mask of the low bits, as the code builds it. *)
Lemma mask_ones n : Z.shiftl 1 n - 1 = Z.ones n.
Proof. rewrite Z.ones_equiv, Z.shiftl_1_l. lia. Qed.

Lemma lor_lnot_ones x n : 0 <= n -> Z.lor x (Z.lnot (Z.ones n)) = x mod 2 ^ n - 2 ^ n.
Proof.
  intros Hn. pose proof (Z.add_lor_land x (Z.lnot (Z.ones n))) as H. rewrite <- Z.ldiff_land, Z.ldiff_ones_r, Z.shiftl_mul_pow2, Z.shiftr_div_pow2 in H by done.
  rewrite Z.lnot_eq_pred_opp, Z.ones_equiv in *. pose proof (Z.div_mod x (2 ^ n)) as Hd. assert (0 < 2 ^ n) by (by apply Z.pow_pos_nonneg). lia.
Qed.

Lemma signextend_spec x n : 0 <= n ->
  (if Z.testbit x n then Z.lor x (Z.lnot (Z.shiftl 1 n - 1)) else Z.land x (Z.shiftl 1 n - 1)) = signed (n + 1) x.
Proof.
  intros Hn. rewrite mask_ones, lor_lnot_ones, Z.land_ones by done. unfold signed. replace (n + 1 - 1) with n by lia.
  assert (Hp : 0 < 2 ^ n) by (by apply Z.pow_pos_nonneg). rewrite Z.pow_add_r by lia. change (2 ^ 1) with 2.
  assert (Hb : Z.b2z (Z.testbit x n) = (x / 2 ^ n) mod 2) by (by rewrite Z.testbit_spec').
  pose proof (Z.mod_pos_bound x (2 ^ n) Hp) as Hr. pose proof (Z.div_mod (x / 2 ^ n) 2 ltac:(done)) as Hq. rewrite <- Hb in Hq.
  pose proof (Z.div_mod x (2 ^ n) ltac:(lia)) as Hd. rewrite Hq in Hd. clear Hq Hb.
  generalize dependent (Z.testbit x n). generalize dependent (x mod 2 ^ n). generalize (x / 2 ^ n / 2). generalize dependent (2 ^ n).
  intros P Hp k r Hr bit ->. destruct bit; cbn [Z.b2z].
  - replace (P * (2 * k + 1) + r + P) with (r + (k + 1) * (P * 2)) by ring. rewrite Z.mod_add by lia. rewrite Z.mod_small; lia.
  - replace (P * (2 * k + 0) + r + P) with (r + P + k * (P * 2)) by ring. rewrite Z.mod_add by lia. rewrite Z.mod_small; lia.
Qed.

Lemma byte_spec x n : 0 <= x -> 0 <= n -> bigEndianByteAt x n = (x / 2 ^ (8 * n)) mod 256.
Proof.
  intros Hx Hn. unfold bigEndianByteAt, Bits. rewrite list_lookup_fmap, Z.abs_eq by done. pose proof (Z.div_pos n 8 Hn). pose proof (Z.mod_pos_bound n 8).
  pose proof (Bits_covers x Hx) as Hc. set (k := Z.to_nat (n / 8)). set (len := Z.to_nat ((BitLen x + 63) / 64)) in *.
  assert (Hnk : 8 * n = 64 * Z.of_nat k + 8 * (n mod 8)) by (pose proof (Z.div_mod n 8); lia). rewrite Hnk.
  destruct (decide (k < len)%nat) as [Hl|Hge].
  - rewrite lookup_seq_lt by done. simpl. apply Z.bits_inj'. intros i Hi. unfold u8, u64. change 256 with (2 ^ 8).
    rewrite !Z.testbit_mod_pow2, Z.shiftr_spec, Z.testbit_mod_pow2, Z.shiftr_spec, Z.div_pow2_bits by lia.
    destruct (i <? 8) eqn:E; [|done]. bool_to_prop. rewrite (proj2 (Z.ltb_lt _ _)) by lia. cbn [andb]. f_equal. lia.
  - rewrite (proj2 (lookup_ge_None _ _)) by (rewrite length_seq; lia). simpl. rewrite Z.div_small; [done|]. split; [done|].
    eapply Z.lt_le_trans; [exact Hc|]. apply Z.pow_le_mono_r; lia.
Qed.

(** ** The instructions *)

Section Reference.
Context {St : Type}.

(** The instruction takes [args] from the stack and leaves [v] in their place. *)
Definition computes (op : EVM -> SM (Frame * St) (bytes * option VmError)) (args : list Z) (v : Z) : Prop := forall evm f s st,
  stack f = args ++ st -> op evm (f, s) = Ret ((with_stack (v :: st) f, s), ([], None)).

Definition truth (b : bool) : Z := if b then 1 else 0.

Ltac run_word := intros evm [p st' mm c inp rd cg jd] s st Hst; cbn [stack app] in Hst; subst st';
  cbv [opAdd opSub opMul opDiv opSdiv opMod opSmod opExp opSignExtend opNot opLt opGt opSlt opSgt opEq
  opIszero opAnd opOr opXor opByte opAddmod opMulmod mbind mret SM_bind SM_ret outcome_bind pop push peek set_top getf modf lift deref head
  ok fst snd tail pc stack mem contract Input returnData callGasTemp jumpdests with_stack truth].

Lemma opSignExtend_spec k x : word k -> word x -> computes opSignExtend [k; x] (if k <? 31 then signed (8 * (k + 1)) x mod 2 ^ 256 else x).
Proof.
  intros Hk Hx. run_word. destruct (k <? 31) eqn:E; [|done]. bool_to_prop. unfold word in *.
  rewrite big_Uint64_id, (u64_id (k * 8)), u64_id, signextend_spec, U256_mod by go_lia. replace (k * 8 + 7 + 1) with (8 * (k + 1)) by lia. done.
Qed.

Lemma opByte_spec i x : word i -> word x -> computes opByte [i; x] (if i <? 32 then (x / 2 ^ (8 * (31 - i))) mod 256 else 0).
Proof.
  intros Hi Hx. run_word. destruct (i <? 32) eqn:E; [|done]. bool_to_prop. unfold word in *. unfold Byte, big_Int64. rewrite i64_id by lia.
  rewrite (proj2 (Z.leb_gt _ _)), byte_spec by lia. done.
Qed.

(** C28: the arithmetic, comparison and bitwise instructions compute, on every pair (or
    triple) of 256-bit words, the operations of the integers modulo 2^256: wrapping sum,
    difference and product; division and remainder that are zero for a zero divisor;
    signed division that truncates and signed remainder with the sign of the dividend;
    sums and products modulo the third operand without intermediate wrapping; powers;
    extension of the sign of a byte; signed comparison; and the bytes of a word from the
    left. *)
Theorem arithmetic_is_exact x y z : word x -> word y -> word z ->
  computes opAdd [x; y] ((x + y) mod 2 ^ 256) /\ computes opSub [x; y] ((x - y) mod 2 ^ 256) /\
  computes opMul [x; y] ((x * y) mod 2 ^ 256) /\
  computes opDiv [x; y] (if y =? 0 then 0 else x / y) /\
  computes opMod [x; y] (if y =? 0 then 0 else x mod y) /\
  computes opSdiv [x; y] (if y =? 0 then 0 else Z.quot (signed 256 x) (signed 256 y) mod 2 ^ 256) /\
  computes opSmod [x; y] (if y =? 0 then 0 else Z.rem (signed 256 x) (signed 256 y) mod 2 ^ 256) /\
  computes opAddmod [x; y; z] (if z =? 0 then 0 else (x + y) mod z) /\
  computes opMulmod [x; y; z] (if z =? 0 then 0 else (x * y) mod z) /\
  computes opExp [x; y] (x ^ y mod 2 ^ 256) /\
  computes opSignExtend [x; y] (if x <? 31 then signed (8 * (x + 1)) y mod 2 ^ 256 else y) /\
  computes opNot [x] (2 ^ 256 - 1 - x) /\
  computes opSlt [x; y] (truth (signed 256 x <? signed 256 y)) /\ computes opSgt [x; y] (truth (signed 256 y <? signed 256 x)) /\
  computes opIszero [x] (truth (x =? 0)) /\
  computes opByte [x; y] (if x <? 32 then (y / 2 ^ (8 * (31 - x))) mod 256 else 0).
Proof.
  intros Hx Hy Hz. assert (Hd : forall a b, word a -> word b -> U256 (a / b) = a / b).
  { intros a b [Ha Ha'] [Hb _]. destruct (decide (b = 0)) as [->|Hb0]; [by destruct a|]. apply U256_id. split; [apply Z.div_pos; lia|].
    eapply Z.le_lt_trans; [|exact Ha']. apply Z.div_le_upper_bound; [lia|]. replace a with (1 * a) at 1 by lia. apply Z.mul_le_mono_nonneg_r; lia. }
  assert (Hm : forall a b, word b -> 0 < b -> U256 (a mod b) = a mod b).
  { intros a b [_ Hb] Hb0. pose proof (Z.mod_pos_bound a b Hb0). apply U256_id. lia. }
  split_and!; try (by apply opSignExtend_spec); try (by apply opByte_spec); run_word; rewrite ?U256_mod; try reflexivity.
  - destruct (y =? 0); [reflexivity|]. cbn [negb]. rewrite <- U256_mod, Hd by done. reflexivity.
  - destruct (y =? 0) eqn:E; [reflexivity|]. bool_to_prop. rewrite <- U256_mod, Hm; [reflexivity|done|]. unfold word in *. lia.
  - rewrite <- sdiv_spec, U256_mod by done. reflexivity.
  - rewrite <- smod_spec, U256_mod by done. reflexivity.
  - unfold word in *. destruct (Z.ltb_spec 0 z), (Z.eqb_spec z 0); try lia; [|reflexivity]. rewrite <- U256_mod, Hm by done. reflexivity.
  - unfold word in *. destruct (Z.ltb_spec 0 z), (Z.eqb_spec z 0); try lia; [|reflexivity]. rewrite <- U256_mod, Hm by done. reflexivity.
  - rewrite Exp_spec by apply Hy. reflexivity.
  - unfold word in Hx. unfold Z.lnot. replace (Z.pred (- x)) with (2 ^ 256 - 1 - x + (-1) * 2 ^ 256) by lia.
    rewrite Z.mod_add, Z.mod_small by lia. reflexivity.
  - rewrite slt_spec by done. reflexivity.
  - rewrite sgt_spec by done. reflexivity.
  - unfold word in *. destruct (Z.ltb_spec 0 x), (Z.eqb_spec x 0); try lia; reflexivity.
Qed.

End Reference.

(** -7 / 2 is -3 and the remainder is -1. *)
Lemma arithmetic_is_exact_witness : computes (St:=unit) opSdiv [2 ^ 256 - 7; 2] (2 ^ 256 - 3) /\
  computes (St:=unit) opSmod [2 ^ 256 - 7; 2] (2 ^ 256 - 1).
Proof.
  destruct (arithmetic_is_exact (St:=unit) (2 ^ 256 - 7) 2 5) as (_ & _ & _ & _ & _ & Hd & Hm & _);
    [split; [discriminate|reflexivity]..|]. split; [exact Hd|exact Hm].
Defined.

End VmArith.

Import State StateSpec StateRefine StateProps Evm EvmProps Vm VmGas VmInstr VmInterp VmBaseProps VmSim VmSafe VmLaws VmArith.

Module VmClaims.
Import Toy Mem.

Section OnState.
Context {T DB : Type} {trie_ops : TrieOps T} {db_ops : DbOps DB T} (K : bytes -> Hash).
Context {laws : BackendLaws trie_ops db_ops K} {pre : Precompiles} {plaws : PrecompilesLaws}.
Abbreviation StateDB := (State.StateDB (T:=T) (DB:=DB)).
#[local] Instance on_state : StateOps StateDB := StateDB_ops K.

(** C7: the interpreter is total and safe. Whatever bytes the code and the input are, on
    every valid state it returns: no instruction underflows or overflows the stack, reads
    or writes outside the memory that was paid for, jumps into data, or slices out of
    range, and the gas bounds the number of turns (through all nested calls, to the depth
    limit). It leaves at most the gas it was given, no account in debt, and a state that
    later operations can go on with; when it is read-only, every balance, nonce, code,
    storage slot, log and the refund are as before. *)
Theorem interpreter_is_safe evm c input (st : StateDB) : valid K st -> sane (world K st) -> run_pre evm c input ->
  exists st' ret g err, InterpreterRun (Interpreter:=evm_interpreter K) evm c input st = Ret (st', (ret, g, err)) /\
    valid K st' /\ sane (world K st') /\ 0 <= g <= Gas c /\ (static evm = true -> same_answers K st st').
Proof.
  intros [m Hr] Hs Hp. pose proof (impl_fresh _ _ _ Hr) as Hf. rewrite (impl_sane _ _ _ Hr) in Hs.
  destruct (run_spec (H:=evm_interpreter K) evm c input m Hf Hs Hp ltac:(apply Hp)) as (m' & ret & g & err & Hrun & Hg & [Hx Hs' Hq]).
  assert (Hsim : out_rel (impl K) (InterpreterRun (Interpreter:=evm_interpreter K) evm c input st)
    (InterpreterRun (Interpreter:=evm_interpreter K) (ops:=Machine_ops K) evm c input m)) by exact (run_sim (H:=evm_interpreter K) _ _ _ _ (impl K) (impl_sim K) evm c input st m Hr).
  rewrite Hrun in Hsim.
  destruct Hsim as (st' & Hst & Hr'). exists st', ret, g, err. split_and!; try done; try lia; [by exists m'|by apply (impl_sane _ _ m')|].
  intros Hst' o Ho. rewrite (impl_answer _ _ _ _ Hr Ho), (impl_answer _ _ _ _ Hr' Ho). by apply quiet_answers; auto.
Qed.

End OnState.

(** [PUSH1 0x2a; PUSH1 1; SSTORE; PUSH1 3; PUSH1 0; MSTORE; PUSH1 32; PUSH1 0; RETURN] *)
Definition program : bytes := [0x60; 0x2a; 0x60; 1; 0x55; 0x60; 3; 0x60; 0; 0x52; 0x60; 32; 0x60; 0; 0xf3].
Definition contract9 : Contract := MkContract 7 (AccountRef 7) 9 program 0 (Some 9) 30000 5 false.
Definition ran := InterpreterRun (Interpreter:=evm_interpreter Mem.hash) (ops:=StateDB_ops Mem.hash) Toy.evm contract9 [] Mem.state.

(** The program returns a word and has set a slot; 9976 of 30000 units are left. *)
Lemma interpreter_is_safe_witness : exists st', ran = Ret (st', (replicate 31 0 ++ [3], 9976, None)) /\ valid Mem.hash st' /\
  State.GetState Mem.hash st' 9 1 = Ret (st', 0x2a).
Proof.
  destruct (interpreter_is_safe Mem.hash Toy.evm contract9 [] Mem.state mem_valid mem_sane
    ltac:(split; vm_compute; try split; discriminate || reflexivity)) as (st' & ret & g & err & Hr & Hv & _).
  change (ran = Ret (st', (ret, g, err))) in Hr. exists st'.
  assert (Hc : match ran with Ret (s, (ret, g, err)) => ret = replicate 31 0 ++ [3] /\ g = 9976 /\ err = None /\ State.GetState Mem.hash s 9 1 = Ret (s, 0x2a) | Panic => False end)
    by (vm_compute; split_and!; reflexivity).
  rewrite Hr in Hc. destruct Hc as (-> & -> & -> & Hg). split; [exact Hr|split; [exact Hv|exact Hg]].
Defined.

(** ** The price of memory *)

(** Up to 2^32 - 1 words (a little under 128 GiB) the price of growing the memory to
    [size] bytes is exact: the difference of the quadratic totals [3 w + w^2 / 512] of the new
    and the old size in words, nothing if the memory is large enough already; the
    new total is remembered. *)
Theorem memory_price_exact {St : Type} size f (s : St) : mem_ok (mem f) -> size mod 32 = 0 -> 0 <= size <= 0x1fffffffe0 -> len (store (mem f)) <= 0x1fffffffe0 ->
  let total n := 3 * (n / 32) + (n / 32) * (n / 32) / 512 in
  let old := len (store (mem f)) in
  exists fee, memoryGasCost size (f, s) = Ret ((with_mem (MkMemory (store (mem f)) (total (Z.max old size))) f, s), inr fee) /\
    fee = total (Z.max old size) - total old /\ 0 <= fee.
Proof.
  intros Hm Hmod Hsz Hold total old. pose proof Hm as [Hw Hmax Hfee].
  assert (Ht : forall n, 0 <= n <= 0x1fffffffe0 -> mem_fee n = total n /\ is_u64 (total n)).
  { intros n Hn. unfold mem_fee, total. assert (0 <= n / 32 <= 2 ^ 32 - 1) by div_lia. generalize dependent (n / 32). intros w Hw'.
    assert (Hsq : 0 <= w * w <= (2 ^ 32 - 1) * (2 ^ 32 - 1)) by (split; [lia|apply Z.mul_le_mono_nonneg; lia]). rewrite u64_id by go_lia.
    split; [done|]. generalize dependent (w * w). intros q Hq. div_lia. }
  pose proof (len_nonneg (store (mem f))). destruct (Ht old) as [Ho Hou]; [unfold old; lia|]. fold old in Hfee. rewrite Ho in Hfee.
  assert (Hsame : size <= old -> with_mem (MkMemory (store (mem f)) (total (Z.max old size))) f = f).
  { intros Hle. rewrite Z.max_l, <- Hfee by lia. by destruct f as [? ? [] ? ? ? ? ?]. }
  unfold memoryGasCost. cbv [mbind SM_bind getf fst]. destruct (size =? 0) eqn:E0; bool_to_prop.
  { exists 0. rewrite Hsame by (unfold old; lia). rewrite Z.max_l by (unfold old; lia). split_and!; [done|lia|done]. }
  rewrite (proj2 (Z.ltb_ge _ _)) by lia. cbv zeta.
  assert (Hws : toWordSize size = size / 32). { unfold toWordSize. rewrite (proj2 (Z.ltb_ge _ _)) by go_lia. div_lia. }
  rewrite Hws. assert (Hsz' : u64 (size / 32 * 32) = size) by (rewrite u64_id by div_lia; div_lia). rewrite Hsz'. fold old.
  destruct (Ht size) as [Hts Htu]; [lia|]. destruct (old <? size) eqn:El; bool_to_prop.
  2:{ exists 0. rewrite Hsame by lia. rewrite Z.max_l by lia. split_and!; [done|lia|done]. }
  rewrite Z.max_r by lia. unfold MemoryGas, QuadCoeffDiv.
  assert (Htot : u64 (u64 (size / 32 * 3) + u64 (size / 32 * (size / 32)) / 512) = total size).
  { rewrite <- Hts. unfold mem_fee. rewrite (u64_id (size / 32 * 3)) by div_lia. pose proof (u64_range (size / 32 * (size / 32))).
    generalize dependent (u64 (size / 32 * (size / 32))). intros sq Hsq. rewrite u64_id by div_lia. lia. }
  rewrite Htot, Hfee. assert (Hle : total old <= total size).
  { unfold total. assert (0 <= old / 32 <= size / 32) by (unfold old in *; div_lia). apply Z.add_le_mono; [lia|]. apply Z.div_le_mono; [done|]. apply Z.mul_le_mono_nonneg; lia. }
  rewrite u64_id by go_lia. eexists. split; [reflexivity|]. split; [done|lia].
Qed.

Definition frame0 : Frame := MkFrame 0 [] NewMemory contract9 [] [] 0 ∅.
Lemma memory_price_exact_witness : memoryGasCost (St:=unit) 1024 (frame0, tt) = Ret ((with_mem (MkMemory [] 98) frame0, tt), inr 98).
Proof.
  destruct (memory_price_exact 1024 frame0 tt ltac:(by split) eq_refl ltac:(lia) ltac:(vm_compute; discriminate)) as (fee & Hm & Hf & _).
  rewrite Hm, Hf. vm_compute. reflexivity.
Defined.

(** Above that size the square wraps around: the comment in the code gives 0xffffffffe0 as
    the largest size for which it does not, but 2^37 bytes cost only the linear part. *)
Lemma memory_price_wraps : memoryGasCost (St:=unit) (2 ^ 37) (frame0, tt) = Ret ((with_mem (MkMemory [] (3 * 2 ^ 32)) frame0, tt), inr (3 * 2 ^ 32)).
Proof. vm_compute. reflexivity. Qed.

(** An arithmetic shift of zero by 256 or more gives -1. The instruction is in no table. *)
Lemma shift_of_zero : computes (St:=unit) opSAR [256; 0] (2 ^ 256 - 1).
Proof. intros evm [p st' mm c i rd cg jd] s st Hst. cbn [stack app] in Hst. by subst st'. Qed.

End VmClaims.
