(* ===== verification/TxList.v ===== *)
(** Per-account transaction lists of the pool ([core/tx_list.go]): a map by nonce with a
    heap of nonces and a cached sorted slice, and the strict and non-strict lists built
    on it. *)

From stdpp Require Import sorting.
From S2P Require Import Prelude Params Bytes Heap TxTypes.
Import Heap.
Import TxTypes.

Module TxList.

(** ** txSortedMap *)

Record txSortedMap := MkSorted {
  items : gmap Z Transaction;
  index : list Z;
  cache : option (list Transaction)
}.
Definition newTxSortedMap : txSortedMap := MkSorted ∅ [] None.

(** [nonceHeap.Less] *)
Definition nonceLess (x y : Z) : bool := x <? y.

Definition Get (m : txSortedMap) (nonce : Z) : option Transaction := items m !! nonce.

Definition Put (tx : Transaction) (m : txSortedMap) : txSortedMap :=
  let nonce := Nonce tx in
  let index := match items m !! nonce with
               | None => Push nonceLess nonce (index m)
               | Some _ => index m
               end in
  MkSorted (<[nonce := tx]> (items m)) index None.

(** The loop of [Forward]; the length of the heap bounds its turns. *)
Fixpoint forward_loop (fuel : nat) (threshold : Z) (items : gmap Z Transaction) (index : list Z)
    (removed : list Transaction) : outcome (gmap Z Transaction * list Z * list Transaction) :=
  match fuel, index with
  | S fuel, i :: _ =>
      if i <? threshold then
        '(index, nonce) ← Pop nonceLess index;
        forward_loop fuel threshold (delete nonce items) index (removed ++ [items !!! nonce])
      else Ret (items, index, removed)
  | _, _ => Ret (items, index, removed)
  end.

(** [s[n:]] and [s[:n]] of a slice *)
Definition slice_from {A} (n : nat) (l : list A) : outcome (list A) :=
  if (n <=? length l)%nat then Ret (drop n l) else Panic.
Definition slice_to {A} (n : nat) (l : list A) : outcome (list A) :=
  if (n <=? length l)%nat then Ret (take n l) else Panic.

Definition on_cache (f : list Transaction -> outcome (list Transaction)) (c : option (list Transaction))
    : outcome (option (list Transaction)) :=
  match c with None => Ret None | Some l => l ← f l; Ret (Some l) end.

Definition Forward (threshold : Z) (m : txSortedMap) : outcome (txSortedMap * list Transaction) :=
  '(its, idx, removed) ← forward_loop (length (index m)) threshold (items m) (index m) [];
  c ← on_cache (slice_from (length removed)) (cache m);
  Ret (MkSorted its idx c, removed).

(** [Filter]; [order] and [order'] are the orders in which the two loops meet the map. *)
Fixpoint filter_loop (f : Transaction -> bool) (order : list (Z * Transaction)) (items : gmap Z Transaction)
    (removed : list Transaction) : gmap Z Transaction * list Transaction :=
  match order with
  | [] => (items, removed)
  | (nonce, tx) :: order =>
      if f tx then filter_loop f order (delete nonce items) (removed ++ [tx])
      else filter_loop f order items removed
  end.

Definition Filter (order order' : gmap Z Transaction -> list (Z * Transaction)) (f : Transaction -> bool)
    (m : txSortedMap) : txSortedMap * list Transaction :=
  let '(its, removed) := filter_loop f (order (items m)) (items m) [] in
  if (0 <? length removed)%nat
  then (MkSorted its (Init nonceLess (order' its).*1) None, removed)
  else (MkSorted its (index m) (cache m), removed).

(** The loop of [Cap], dropping from the end of the sorted nonces. *)
Fixpoint cap_loop (n : nat) (threshold : nat) (sorted : list Z) (items : gmap Z Transaction) (drops : list Transaction)
    : outcome (gmap Z Transaction * list Transaction) :=
  match n with
  | O => Ret (items, drops)
  | S n =>
      match sorted !! (threshold + n)%nat with
      | None => Panic
      | Some nonce => cap_loop n threshold sorted (delete nonce items) (drops ++ [items !!! nonce])
      end
  end.

Definition Cap (threshold : nat) (m : txSortedMap) : outcome (txSortedMap * list Transaction) :=
  if (size (items m) <=? threshold)%nat then Ret (m, []) else
  let sorted := merge_sort Z.le (index m) in
  '(its, drops) ← cap_loop (size (items m) - threshold) threshold sorted (items m) [];
  idx ← slice_to threshold sorted;
  c ← on_cache (fun l => if (length drops <=? length l)%nat then slice_to (length l - length drops) l else Panic) (cache m);
  Ret (MkSorted its (Init nonceLess idx) c, drops).

(** The first position of a nonce. *)
Fixpoint find_index (nonce : Z) (i : nat) (l : list Z) : option nat :=
  match l with
  | [] => None
  | x :: l => if x =? nonce then Some i else find_index nonce (S i) l
  end.

Definition Remove (nonce : Z) (m : txSortedMap) : outcome (txSortedMap * bool) :=
  match items m !! nonce with
  | None => Ret (m, false)
  | Some _ =>
      idx ← match find_index nonce 0 (index m) with
            | Some i => '(l, _) ← Heap.Remove nonceLess i (index m); Ret l
            | None => Ret (index m)
            end;
      Ret (MkSorted (delete nonce (items m)) idx None, true)
  end.

Fixpoint ready_loop (fuel : nat) (next : Z) (items : gmap Z Transaction) (index : list Z) (ready : list Transaction)
    : outcome (gmap Z Transaction * list Z * list Transaction) :=
  match fuel, index with
  | S fuel, i :: _ =>
      if i =? next then
        '(idx, _) ← Pop nonceLess index;
        ready_loop fuel (u64 (next + 1)) (delete next items) idx (ready ++ [items !!! next])
      else Ret (items, index, ready)
  | _, _ => Ret (items, index, ready)
  end.

Definition Ready (start : Z) (m : txSortedMap) : outcome (txSortedMap * list Transaction) :=
  match index m with
  | [] => Ret (m, [])
  | i :: _ =>
      if start <? i then Ret (m, []) else
      '(its, idx, ready) ← ready_loop (length (index m)) i (items m) (index m) [];
      Ret (MkSorted its idx None, ready)
  end.

Definition Len (m : txSortedMap) : nat := size (items m).

(** [types.TxByNonce] *)
Definition by_nonce (x y : Transaction) : Prop := Nonce x <= Nonce y.
#[export] Instance by_nonce_dec x y : Decision (by_nonce x y).
Proof. unfold by_nonce. apply _. Defined.

Definition Flatten (order : gmap Z Transaction -> list (Z * Transaction)) (m : txSortedMap) : txSortedMap * list Transaction :=
  match cache m with
  | Some l => (m, l)
  | None =>
      let l := merge_sort by_nonce (order (items m)).*2 in
      (MkSorted (items m) (index m) (Some l), l)
  end.

(** ** txList *)

Record txList := MkList { strict : bool; txs : txSortedMap; costcap : Z; gascap : Z }.
Definition newTxList (strict : bool) : txList := MkList strict newTxSortedMap 0 0.
Definition with_txs (l : txList) (m : txSortedMap) : txList := MkList (strict l) m (costcap l) (gascap l).

Definition Overlaps (l : txList) (tx : Transaction) : bool := bool_decide (is_Some (Get (txs l) (Nonce tx))).

Definition Add (tx : Transaction) (priceBump : Z) (l : txList) : txList * bool * option Transaction :=
  let old := Get (txs l) (Nonce tx) in
  let better := match old with
                | None => true
                | Some old =>
                    let threshold := GasPrice old * i64 (100 + i64 priceBump) / 100 in
                    negb ((GasPrice tx <=? GasPrice old) || (GasPrice tx <? threshold))
                end in
  if negb better then (l, false, None) else
  let cost := Cost tx in
  (MkList (strict l) (Put tx (txs l)) (if costcap l <? cost then cost else costcap l)
     (if gascap l <? Gas tx then Gas tx else gascap l), true, old).

Definition lowest_nonce (removed : list Transaction) : Z :=
  fold_left (fun lowest tx => if Nonce tx <? lowest then Nonce tx else lowest) removed MaxUint64.

Definition FilterList (order order' : gmap Z Transaction -> list (Z * Transaction)) (costLimit gasLimit : Z) (l : txList)
    : txList * list Transaction * list Transaction :=
  if (costcap l <=? costLimit) && (gascap l <=? gasLimit) then (l, [], []) else
  let '(m, removed) := Filter order order' (fun tx => (costLimit <? Cost tx) || (gasLimit <? Gas tx)) (txs l) in
  let '(m, invalids) :=
    if strict l && (0 <? length removed)%nat
    then Filter order order' (fun tx => lowest_nonce removed <? Nonce tx) m
    else (m, []) in
  (MkList (strict l) m costLimit gasLimit, removed, invalids).

Definition RemoveList (order order' : gmap Z Transaction -> list (Z * Transaction)) (tx : Transaction) (l : txList)
    : outcome (txList * bool * list Transaction) :=
  let nonce := Nonce tx in
  '(m, removed) ← Remove nonce (txs l);
  Ret (if negb removed then (with_txs l m, false, [])
       else if strict l then
         let '(m, invalids) := Filter order order' (fun tx => nonce <? Nonce tx) m in (with_txs l m, true, invalids)
       else (with_txs l m, true, [])).

End TxList.
