(* ===== verification/TxListProps.v ===== *)
(** The heap-indexed map of transactions implements a list of transactions sorted by
    nonce, and the list built on it keeps its caps and its contiguity. *)

From stdpp Require Import sorting.
From S2P Require Import Prelude Params Bytes Heap TxTypes TxList.
Import TxTypes TxList HeapProps.

Module TxListProps.

#[export] Instance nonceLess_laws : LessLaws nonceLess.
Proof. split; unfold nonceLess; intros; bool_to_prop; [apply Z.ltb_ge|apply Z.ltb_ge]; lia. Qed.

Abbreviation nonce_heap l := (heap nonceLess (length l) l).

(** ** The map of a list of transactions *)

Definition before (x y : Transaction) : Prop := Nonce x < Nonce y.
Definition of_list (l : list Transaction) : gmap Z Transaction := list_to_map ((fun tx => (Nonce tx, tx)) <$> l).

Lemma of_list_cons tx l : of_list (tx :: l) = <[Nonce tx := tx]> (of_list l).
Proof. done. Qed.

Lemma sorted_nodup l : StronglySorted before l -> NoDup (Nonce <$> l).
Proof.
  induction 1 as [|x l Hl IH Hx]; [constructor|]. simpl. constructor; [|done].
  intros (y & Hy & Hin)%list_elem_of_fmap. rewrite Forall_forall in Hx. specialize (Hx y Hin). unfold before in Hx. lia.
Qed.

Lemma of_list_lookup l k tx : StronglySorted before l -> of_list l !! k = Some tx <-> tx ∈ l /\ Nonce tx = k.
Proof.
  intros Hs. unfold of_list. rewrite <- elem_of_list_to_map.
  - rewrite list_elem_of_fmap. split; [intros (y & [= -> ->] & ?); done|]. intros [? <-]. by exists tx.
  - rewrite <- list_fmap_compose. change (fst ∘ _) with Nonce. by apply sorted_nodup.
Qed.

Lemma of_list_perm l : StronglySorted before l -> map_to_list (of_list l) ≡ₚ (fun tx => (Nonce tx, tx)) <$> l.
Proof.
  intros Hs. unfold of_list. apply map_to_list_to_map. rewrite <- list_fmap_compose. by apply sorted_nodup.
Qed.

Lemma of_list_size l : StronglySorted before l -> size (of_list l) = length l.
Proof. intros Hs. rewrite <- length_map_to_list, of_list_perm by done. by rewrite length_fmap. Qed.

Lemma of_list_None l k : of_list l !! k = None <-> Forall (fun tx => Nonce tx <> k) l.
Proof.
  induction l as [|tx l IH]; [split; [constructor|done]|]. rewrite of_list_cons, lookup_insert_None, Forall_cons, IH. tauto.
Qed.

Lemma of_list_filter (P : Transaction -> Prop) `{forall x, Decision (P x)} l : StronglySorted before l ->
  of_list (filter P l) = filter (fun p => P p.2) (of_list l).
Proof.
  intros Hs. apply map_eq. intros k. apply option_eq. intros tx.
  rewrite map_lookup_filter_Some, !of_list_lookup by (done || by apply StronglySorted_filter).
  rewrite list_elem_of_filter. simpl. tauto.
Qed.

Lemma of_list_delete l k : StronglySorted before l -> delete k (of_list l) = of_list (filter (fun tx => Nonce tx <> k) l).
Proof.
  intros Hs. rewrite of_list_filter by done. apply map_eq. intros i. apply option_eq. intros tx.
  rewrite lookup_delete_Some, map_lookup_filter_Some, of_list_lookup by done. simpl. naive_solver.
Qed.

(** The transaction of a nonce. *)
Fixpoint list_find_nonce (k : Z) (l : list Transaction) : option Transaction :=
  match l with
  | [] => None
  | tx :: l => if Nonce tx =? k then Some tx else list_find_nonce k l
  end.

Lemma list_find_nonce_spec k l : StronglySorted before l -> of_list l !! k = list_find_nonce k l.
Proof.
  induction 1 as [|y l Hl IH Hy]; [done|]. rewrite of_list_cons. simpl. destruct (_ =? _) eqn:E; bool_to_prop.
  - subst. by rewrite lookup_insert_eq.
  - by rewrite lookup_insert_ne.
Qed.

(** ** Representation *)

Record repr (m : txSortedMap) (l : list Transaction) : Prop := {
  r_sorted : StronglySorted before l;
  r_range : Forall (fun tx => is_u64 (Nonce tx)) l;
  r_items : items m = of_list l;
  r_heap : nonce_heap (index m);
  r_index : index m ≡ₚ Nonce <$> l;
  r_cache : forall c, cache m = Some c -> c = l
}.

(** The heap of the nonces of a sorted list. *)
Record heap_of (idx : list Z) (l : list Transaction) : Prop := {
  h_heap : nonce_heap idx;
  h_perm : idx ≡ₚ Nonce <$> l
}.

Lemma heap_of_nil idx : heap_of idx [] -> idx = [].
Proof. intros [_ Hp]. by apply Permutation_nil_r in Hp. Qed.

(** The root of the heap is the first nonce. *)
Lemma heap_of_cons idx tx l : StronglySorted before (tx :: l) -> heap_of idx (tx :: l) ->
  (exists r, idx = Nonce tx :: r) /\ exists idx', Heap.Pop nonceLess idx = Ret (idx', Nonce tx) /\ heap_of idx' l.
Proof.
  intros Hs [Hh Hp]. destruct idx as [|i r]; [by apply Permutation_nil_l in Hp|].
  destruct (Pop_spec nonceLess (i :: r) Hh ltac:(done)) as (idx' & Hpop & Hperm & Hh'). simpl in Hpop, Hperm.
  assert (Hmin : i = Nonce tx).
  { assert (Hin : i ∈ Nonce <$> tx :: l) by (rewrite <- Hp; by left).
    apply list_elem_of_fmap in Hin as (y & Hy & Hin). apply StronglySorted_cons in Hs as [Hf _]. rewrite Forall_forall in Hf.
    assert (Htx : Nonce tx ∈ i :: r) by (rewrite Hp; by left).
    pose proof (heap_min nonceLess (i :: r) (Nonce tx) Hh Htx) as Hle. unfold le, nonceLess in Hle. apply Z.ltb_ge in Hle. simpl in Hle.
    apply elem_of_cons in Hin as [->|Hin]; [done|]. specialize (Hf y Hin). unfold before in Hf. lia. }
  subst i. split; [by eexists|]. exists idx'. split; [done|]. split; [done|].
  rewrite Hperm in Hp. simpl in Hp. by apply Permutation_cons_inv in Hp.
Qed.

Lemma repr_heap m l : repr m l -> heap_of (index m) l.
Proof. intros [_ _ _ Hh Hp _]. by split. Qed.

Lemma mk_repr l its idx c : StronglySorted before l -> Forall (fun tx => is_u64 (Nonce tx)) l -> its = of_list l ->
  heap_of idx l -> (forall x, c = Some x -> x = l) -> repr (MkSorted its idx c) l.
Proof. intros ? ? ? [? ?] ?. by split. Qed.

(** ** Insertion *)

(** The sorted list with a transaction inserted, in place of one of the same nonce. *)
Fixpoint put (tx : Transaction) (l : list Transaction) : list Transaction :=
  match l with
  | [] => [tx]
  | y :: l' =>
      if Nonce tx <? Nonce y then tx :: l
      else if Nonce tx =? Nonce y then tx :: l' else y :: put tx l'
  end.

Lemma put_elem tx l y : y ∈ put tx l -> y = tx \/ y ∈ l.
Proof.
  induction l as [|z l IH]; simpl; [set_solver|]. destruct (_ <? _); [set_solver|]. destruct (_ =? _); set_solver.
Qed.

Lemma put_sorted tx l : StronglySorted before l -> StronglySorted before (put tx l).
Proof.
  induction 1 as [|y l Hl IH Hy]; simpl; [repeat constructor|]. rewrite Forall_forall in Hy. destruct (_ <? _) eqn:E1.
  { bool_to_prop. constructor; [constructor; [done|by apply Forall_forall]|]. constructor; [done|].
    apply Forall_forall. intros z Hz. specialize (Hy z Hz). unfold before in *. lia. }
  destruct (_ =? _) eqn:E2; bool_to_prop; constructor; try done; apply Forall_forall; intros z Hz.
  - specialize (Hy z Hz). unfold before in *. lia.
  - apply put_elem in Hz as [->|Hz]; [unfold before; lia|by apply Hy].
Qed.

Lemma put_items tx l : of_list (put tx l) = <[Nonce tx := tx]> (of_list l).
Proof.
  induction l as [|y l IH]; simpl; [done|]. destruct (_ <? _) eqn:E1; [done|]. destruct (_ =? _) eqn:E2; bool_to_prop.
  - rewrite !of_list_cons, <- E2. by rewrite insert_insert_eq.
  - rewrite !of_list_cons, IH, insert_insert_ne by done. done.
Qed.

Lemma put_nonces tx l : StronglySorted before l ->
  Nonce <$> put tx l ≡ₚ match of_list l !! Nonce tx with Some _ => Nonce <$> l | None => Nonce tx :: (Nonce <$> l) end.
Proof.
  induction 1 as [|y l Hl IH Hy]; [done|]. cbn [put]. rewrite of_list_cons. destruct (_ <? _) eqn:E1; bool_to_prop.
  { rewrite lookup_insert_ne by lia. replace (of_list l !! Nonce tx) with (@None Transaction); [done|]. symmetry. apply of_list_None.
    eapply Forall_impl; [exact Hy|]. unfold before. simpl. lia. }
  destruct (_ =? _) eqn:E2; bool_to_prop.
  - rewrite E2, lookup_insert_eq. simpl. by rewrite E2.
  - rewrite lookup_insert_ne by done. simpl. rewrite IH. destruct (of_list l !! Nonce tx); [done|]. constructor.
Qed.

Lemma Put_repr tx m l : repr m l -> is_u64 (Nonce tx) -> repr (Put tx m) (put tx l).
Proof.
  intros [Hs Hr Hi Hh Hp Hc] Hn. unfold Put. apply mk_repr.
  - by apply put_sorted.
  - apply Forall_forall. rewrite Forall_forall in Hr. intros y [->|Hy]%put_elem; auto.
  - by rewrite put_items, Hi.
  - pose proof (put_nonces tx l Hs) as Hpn. rewrite Hi. destruct (of_list l !! Nonce tx).
    + split; [done|]. by rewrite Hpn.
    + destruct (Push_spec nonceLess (Nonce tx) (index m) Hh) as [Hh' Hp']. split; [done|]. by rewrite Hp', Hpn, Hp.
  - done.
Qed.

(** ** Forward *)

Lemma sorted_split t l : StronglySorted before l ->
  filter (fun tx => Nonce tx < t) l ++ filter (fun tx => t <= Nonce tx) l = l.
Proof.
  induction 1 as [|y l Hl IH Hy]; [done|]. rewrite !filter_cons. destruct (decide (Nonce y < t)).
  - rewrite (decide_False (P:=t <= Nonce y)) by lia. simpl. by rewrite IH.
  - rewrite decide_True by lia. rewrite filter_none, filter_all; [done| |];
      (eapply Forall_impl; [exact Hy|]; unfold before; simpl; lia).
Qed.

Lemma slice_from_app {A} (a b : list A) : slice_from (length a) (a ++ b) = Ret b.
Proof. unfold slice_from. rewrite length_app, (proj2 (Nat.leb_le _ _)) by lia. by rewrite drop_app_length. Qed.

Lemma slice_to_take {A} n (l : list A) : (n <= length l)%nat -> slice_to n l = Ret (take n l).
Proof. intros Hn. unfold slice_to. by rewrite (proj2 (Nat.leb_le _ _)). Qed.

(** A step of the loops that pop the first transaction. *)
Lemma pop_first tx l : StronglySorted before (tx :: l) ->
  delete (Nonce tx) (of_list (tx :: l)) = of_list l /\ of_list (tx :: l) !!! Nonce tx = tx.
Proof.
  intros Hs. apply StronglySorted_cons in Hs as [Hf _]. rewrite of_list_cons. split; [|apply lookup_total_insert_eq].
  apply delete_insert_id, of_list_None. eapply Forall_impl; [exact Hf|]. unfold before. simpl. lia.
Qed.

Lemma forward_loop_spec fuel t l idx removed : (length l <= fuel)%nat -> StronglySorted before l -> heap_of idx l ->
  exists idx', forward_loop fuel t (of_list l) idx removed =
    Ret (of_list (filter (fun tx => t <= Nonce tx) l), idx', removed ++ filter (fun tx => Nonce tx < t) l) /\
    heap_of idx' (filter (fun tx => t <= Nonce tx) l).
Proof.
  revert fuel idx removed. induction l as [|tx l IH]; intros fuel idx removed Hf Hs Hh.
  { rewrite (heap_of_nil _ Hh). exists []. destruct fuel; simpl; rewrite app_nil_r; (split; [done|]); by split. }
  destruct fuel as [|fuel]; [simpl in Hf; lia|]. destruct (heap_of_cons _ _ _ Hs Hh) as [[r ->] (idx' & Hpop & Hh')].
  cbn [forward_loop]. rewrite !filter_cons. destruct (Nonce tx <? t) eqn:E; bool_to_prop.
  - rewrite Hpop. simpl. rewrite (decide_False (P:=t <= Nonce tx)), (decide_True (P:=Nonce tx < t)) by lia.
    destruct (pop_first tx l Hs) as [Hd Hg]. apply StronglySorted_cons in Hs as [Hf' Hs].
    rewrite Hd, Hg. destruct (IH fuel idx' (removed ++ [tx])) as (idx2 & H1 & H2); [simpl in Hf; lia|done|done|].
    exists idx2. split; [|done]. by rewrite H1, <- app_assoc.
  - apply StronglySorted_cons in Hs as [Hf' Hs].
    rewrite (decide_True (P:=t <= Nonce tx)), (decide_False (P:=Nonce tx < t)) by lia.
    rewrite (filter_none (fun tx => Nonce tx < t)), (filter_all (fun tx => t <= Nonce tx)), app_nil_r by (eapply Forall_impl; [exact Hf'|]; unfold before; simpl; lia).
    eexists. split; [done|done].
Qed.

Lemma Forward_repr t m l : repr m l -> exists m', Forward t m = Ret (m', filter (fun tx => Nonce tx < t) l) /\
  repr m' (filter (fun tx => t <= Nonce tx) l).
Proof.
  intros Hr. pose proof (repr_heap m l Hr) as Hh. destruct Hr as [Hs Hra Hi _ Hp Hc]. unfold Forward.
  destruct (forward_loop_spec (length (index m)) t l (index m) []) as (idx' & H1 & H2); [by rewrite Hp, length_fmap|done|done|].
  rewrite Hi, H1. simpl.
  assert (Hca : exists c', on_cache (slice_from (length (filter (fun tx => Nonce tx < t) l))) (cache m) = Ret c' /\
    forall x, c' = Some x -> x = filter (fun tx => t <= Nonce tx) l).
  { destruct (cache m) as [c|] eqn:Ec; simpl; [|by exists None]. rewrite (Hc c eq_refl).
    pose proof (slice_from_app (filter (fun tx => Nonce tx < t) l) (filter (fun tx => t <= Nonce tx) l)) as Hsl.
    rewrite sorted_split in Hsl by done. rewrite Hsl. simpl. eexists. split; [done|]. by intros x [= <-]. }
  destruct Hca as (c' & -> & Hc'). simpl. eexists. split; [done|]. apply mk_repr; try done.
  - by apply StronglySorted_filter.
  - by apply Forall_filter.
Qed.

(** ** Filter *)

(** An order of iteration over a map. *)
Definition iterates (order : gmap Z Transaction -> list (Z * Transaction)) : Prop := forall m, order m ≡ₚ map_to_list m.

Lemma filter_loop_spec f ord its removed : filter_loop f ord its removed =
  (foldr delete its (reverse (fst <$> filter (fun p => f p.2 = true) ord)), removed ++ (snd <$> filter (fun p => f p.2 = true) ord)).
Proof.
  revert its removed. induction ord as [|[k tx] ord IH]; intros its removed; simpl; [by rewrite app_nil_r|].
  rewrite filter_cons. simpl. destruct (f tx) eqn:E.
  - rewrite decide_True by done. rewrite IH. simpl. rewrite reverse_cons, foldr_app, <- app_assoc. done.
  - rewrite decide_False by done. by rewrite IH.
Qed.

Lemma foldr_delete_lookup (its : gmap Z Transaction) ks k tx :
  foldr delete its ks !! k = Some tx <-> its !! k = Some tx /\ k ∉ ks.
Proof.
  induction ks as [|x ks IH]; simpl; [set_solver|]. rewrite lookup_delete_Some, IH. set_solver.
Qed.

Lemma filter_loop_repr f order l : iterates order -> StronglySorted before l ->
  let '(its, removed) := filter_loop f (order (of_list l)) (of_list l) [] in
  its = of_list (filter (fun tx => f tx = false) l) /\ removed ≡ₚ filter (fun tx => f tx = true) l.
Proof.
  intros Ho Hs. rewrite filter_loop_spec. split.
  - apply map_eq. intros k. apply option_eq. intros tx. rewrite foldr_delete_lookup, of_list_filter, map_lookup_filter_Some by done.
    rewrite elem_of_reverse. split; intros [Hk Hf]; (split; [done|]).
    + simpl. destruct (f tx) eqn:E; [|done]. exfalso. apply Hf. apply list_elem_of_fmap. exists (k, tx). split; [done|].
      apply list_elem_of_filter. split; [done|]. rewrite (Ho (of_list l)). by apply elem_of_map_to_list.
    + intros ([k' tx'] & -> & [Hf' Hin]%list_elem_of_filter)%list_elem_of_fmap. simpl in *.
      rewrite (Ho (of_list l)) in Hin. apply elem_of_map_to_list in Hin. simplify_eq. congruence.
  - simpl. rewrite (Ho (of_list l)), of_list_perm by done. clear Hs. induction l as [|tx l IH]; [done|].
    rewrite fmap_cons, !filter_cons. simpl. destruct (decide (f tx = true)); simpl; by rewrite IH.
Qed.

Lemma filter_false_all f (l : list Transaction) : filter (fun tx => f tx = true) l = [] -> filter (fun tx => f tx = false) l = l.
Proof.
  induction l as [|tx l IH]; [done|]. rewrite !filter_cons. destruct (f tx); [done|]. intros Hl. simpl. by rewrite IH.
Qed.

Lemma Init_heap_of ks l : ks ≡ₚ Nonce <$> l -> heap_of (Heap.Init nonceLess ks) l.
Proof. intros Hk. destruct (Init_spec nonceLess ks) as [Hh Hp]. split; [done|]. by rewrite Hp. Qed.

Lemma keys_perm order l : iterates order -> StronglySorted before l -> (order (of_list l)).*1 ≡ₚ Nonce <$> l.
Proof. intros Ho Hs. rewrite (Ho (of_list l)), of_list_perm by done. rewrite <- list_fmap_compose. done. Qed.

Lemma Filter_repr order order' f m l : iterates order -> iterates order' -> repr m l ->
  let '(m', removed) := Filter order order' f m in
  repr m' (filter (fun tx => f tx = false) l) /\ removed ≡ₚ filter (fun tx => f tx = true) l.
Proof.
  intros Ho Ho' [Hs Hr Hi Hh Hp Hc]. unfold Filter. rewrite Hi. pose proof (filter_loop_repr f order l Ho Hs) as Hl.
  destruct (filter_loop f _ _ []) as [its removed]. destruct Hl as [-> Hrem].
  assert (Hs' : StronglySorted before (filter (fun tx => f tx = false) l)) by (by apply StronglySorted_filter).
  destruct (0 <? length removed)%nat eqn:E; (split; [|done]).
  - apply mk_repr; try done; [by apply Forall_filter|]. apply Init_heap_of. by apply keys_perm.
  - apply Nat.ltb_ge in E. assert (removed = []) as -> by (destruct removed; [done|simpl in E; lia]).
    rewrite filter_false_all by (by apply Permutation_nil_l in Hrem). by apply mk_repr.
Qed.

(** ** Cap *)

Lemma sorted_index idx l : StronglySorted before l -> idx ≡ₚ Nonce <$> l -> merge_sort Z.le idx = Nonce <$> l.
Proof.
  intros Hs Hp. apply (StronglySorted_unique Z.le).
  - apply StronglySorted_merge_sort; apply _.
  - clear Hp. induction Hs as [|x l Hl IH Hx]; simpl; constructor; [done|]. apply Forall_fmap.
    eapply Forall_impl; [exact Hx|]. unfold before. simpl. lia.
  - by rewrite merge_sort_Permutation.
Qed.

Lemma of_list_snoc tx l : StronglySorted before (l ++ [tx]) ->
  delete (Nonce tx) (of_list (l ++ [tx])) = of_list l /\ of_list (l ++ [tx]) !!! Nonce tx = tx.
Proof.
  intros Hs. split.
  - rewrite of_list_delete by done. f_equal. rewrite filter_app, filter_cons, decide_False, filter_nil, app_nil_r by auto.
    apply filter_all. apply Forall_forall. intros y Hy. apply StronglySorted_app in Hs as [Hb _].
    specialize (Hb y tx Hy ltac:(set_solver)). unfold before in Hb. lia.
  - apply lookup_total_correct. apply of_list_lookup; [done|]. set_solver.
Qed.

Lemma cap_loop_spec k n l drops : StronglySorted before l -> length l = (n + k)%nat ->
  forall l', cap_loop k n (Nonce <$> l ++ l') (of_list l) drops = Ret (of_list (take n l), drops ++ reverse (drop n l)).
Proof.
  revert l drops. induction k as [|k IH]; intros l drops Hs Hl l'; simpl.
  { rewrite take_ge, drop_ge by lia. by rewrite app_nil_r. }
  destruct l as [|tx l _] using rev_ind; [simpl in Hl; lia|]. rewrite length_app in Hl. simpl in Hl.
  assert (Hlk : (Nonce <$> (l ++ [tx]) ++ l') !! (n + k)%nat = Some (Nonce tx)).
  { rewrite list_lookup_fmap, lookup_app_l by (rewrite length_app; simpl; lia). rewrite lookup_app_r by lia.
    by replace (n + k - length l)%nat with 0%nat by lia. }
  rewrite Hlk. destruct (of_list_snoc tx l Hs) as [-> ->]. rewrite <- app_assoc.
  rewrite IH; [|by apply StronglySorted_app in Hs as (_ & ? & _)|lia].
  rewrite take_app_le, drop_app_le, reverse_snoc by lia. by rewrite <- app_assoc.
Qed.

Lemma Cap_repr n m l : repr m l -> exists m', Cap n m = Ret (m', reverse (drop n l)) /\ repr m' (take n l).
Proof.
  intros Hr. pose proof Hr as [Hs Hra Hi Hh Hp Hc]. unfold Cap. rewrite Hi, of_list_size by done.
  destruct (length l <=? n)%nat eqn:E.
  { apply Nat.leb_le in E. rewrite take_ge, drop_ge by lia. by exists m. }
  apply Nat.leb_gt in E. rewrite (sorted_index _ l Hs Hp).
  pose proof (cap_loop_spec (length l - n) n l [] Hs ltac:(lia) []) as Hcl. rewrite app_nil_r, app_nil_l in Hcl. rewrite Hcl.
  cbn [mbind outcome_bind]. rewrite (slice_to_take n (Nonce <$> l)) by (rewrite length_fmap; lia). cbn [mbind outcome_bind].
  set (d := reverse (drop n l)). assert (Hd : length d = (length l - n)%nat) by (unfold d; by rewrite length_reverse, length_drop).
  assert (Hca : exists c', on_cache (fun l0 => if (length d <=? length l0)%nat then slice_to (length l0 - length d) l0 else Panic) (cache m) = Ret c' /\
    forall x, c' = Some x -> x = take n l).
  { destruct (cache m) as [c|] eqn:Ec; simpl; [|by exists None]. rewrite (Hc c eq_refl), Hd, (proj2 (Nat.leb_le _ _)) by lia.
    rewrite slice_to_take by lia. simpl. eexists. split; [done|]. intros x [= <-]. f_equal. lia. }
  destruct Hca as (c' & -> & Hc'). simpl. eexists. split; [done|].
  assert (Hs' : StronglySorted before (take n l)).
  { rewrite <- (take_drop n l) in Hs. by apply StronglySorted_app in Hs as (_ & ? & _). }
  apply mk_repr; try done; [by apply Forall_take|]. apply Init_heap_of. by rewrite <- fmap_take.
Qed.

(** ** Remove, Ready, Flatten *)

Lemma find_index_spec nonce i l : nonce ∈ l -> exists k, find_index nonce i l = Some (i + k)%nat /\ l !! k = Some nonce.
Proof.
  revert i. induction l as [|x l IH]; intros i Hin; [by apply not_elem_of_nil in Hin|]. simpl. destruct (x =? nonce) eqn:E; bool_to_prop.
  - subst. exists 0%nat. by rewrite Nat.add_0_r.
  - apply elem_of_cons in Hin as [->|Hin]; [done|]. destruct (IH (S i) Hin) as (k & -> & Hk). exists (S k). split; [f_equal; lia|done].
Qed.

Lemma nonces_without tx l : StronglySorted before l -> tx ∈ l ->
  Nonce <$> l ≡ₚ Nonce tx :: (Nonce <$> filter (fun y => Nonce y <> Nonce tx) l).
Proof.
  intros Hs. induction Hs as [|y l Hl IH Hy]; intros Hin; [by apply not_elem_of_nil in Hin|]. rewrite filter_cons.
  rewrite Forall_forall in Hy. apply elem_of_cons in Hin as [->|Hin].
  - rewrite decide_False by auto. simpl. f_equiv. rewrite filter_all; [done|]. apply Forall_forall. intros z Hz.
    specialize (Hy z Hz). unfold before in Hy. lia.
  - specialize (Hy tx Hin). unfold before in Hy. rewrite decide_True by lia. simpl. rewrite IH by done. constructor.
Qed.

Lemma Remove_repr nonce m l : repr m l -> exists m',
  Remove nonce m = Ret (m', bool_decide (nonce ∈ Nonce <$> l)) /\ repr m' (filter (fun tx => Nonce tx <> nonce) l).
Proof.
  intros Hr. pose proof Hr as [Hs Hra Hi Hh Hp Hc]. unfold Remove. rewrite Hi. destruct (of_list l !! nonce) as [tx|] eqn:El.
  - apply of_list_lookup in El as [Hin <-]; [|done]. rewrite bool_decide_true by (apply list_elem_of_fmap; eauto).
    assert (Hix : Nonce tx ∈ index m) by (rewrite Hp; apply list_elem_of_fmap; eauto).
    destruct (find_index_spec (Nonce tx) 0 (index m) Hix) as (k & -> & Hk). simpl.
    destruct (Remove_spec nonceLess k (index m) Hh (lookup_lt_Some _ _ _ Hk)) as (idx' & -> & Hp' & Hh'). simpl.
    apply list_lookup_total_correct in Hk. rewrite Hk in Hp'. eexists. split; [done|]. apply mk_repr.
    + by apply StronglySorted_filter.
    + by apply Forall_filter.
    + by apply of_list_delete.
    + split; [done|]. rewrite Hp, nonces_without in Hp' by done. by apply Permutation_cons_inv in Hp'.
    + done.
  - apply of_list_None in El. rewrite bool_decide_false.
    + exists m. split; [done|]. by rewrite filter_all.
    + intros (tx & -> & Hin)%list_elem_of_fmap. rewrite Forall_forall in El. by apply (El tx).
Qed.

(** The longest prefix of consecutive nonces from [next], and the rest. *)
Fixpoint consecutive (next : Z) (l : list Transaction) : list Transaction * list Transaction :=
  match l with
  | [] => ([], [])
  | tx :: l' => if Nonce tx =? next then let '(r, k) := consecutive (next + 1) l' in (tx :: r, k) else ([], l)
  end.

Lemma consecutive_app next l : (consecutive next l).1 ++ (consecutive next l).2 = l.
Proof.
  revert next. induction l as [|tx l IH]; intros next; [done|]. simpl. destruct (_ =? _); [|done].
  specialize (IH (next + 1)). destruct (consecutive (next + 1) l). simpl in *. by rewrite IH.
Qed.

Lemma ready_loop_spec fuel next l idx ready : (length l <= fuel)%nat -> StronglySorted before l ->
  Forall (fun tx => is_u64 (Nonce tx) /\ next <= Nonce tx) l -> heap_of idx l ->
  exists idx', ready_loop fuel next (of_list l) idx ready =
    Ret (of_list (consecutive next l).2, idx', ready ++ (consecutive next l).1) /\ heap_of idx' (consecutive next l).2.
Proof.
  revert fuel next idx ready. induction l as [|tx l IH]; intros fuel next idx ready Hf Hs Hr Hh.
  { rewrite (heap_of_nil _ Hh). exists []. destruct fuel; simpl; rewrite app_nil_r; (split; [done|]); by split. }
  destruct fuel as [|fuel]; [simpl in Hf; lia|]. destruct (heap_of_cons _ _ _ Hs Hh) as [[r ->] (idx' & Hpop & Hh')].
  destruct (pop_first tx l Hs) as [Hdel Hget]. apply StronglySorted_cons in Hs as [Hb Hs]. apply Forall_cons in Hr as [[Hu Hn] Hr].
  cbn [ready_loop consecutive]. destruct (Nonce tx =? next) eqn:E; bool_to_prop.
  2:{ rewrite app_nil_r. eexists. split; [done|done]. }
  subst next. rewrite Hpop. cbn [mbind outcome_bind]. rewrite Hdel, Hget.
  destruct l as [|tx2 l2].
  { rewrite (heap_of_nil _ Hh'). simpl. exists []. destruct fuel; (split; [done|]); by split. }
  assert (Hlt : Nonce tx < Nonce tx2) by (by apply Forall_cons in Hb as [? _]).
  rewrite u64_id by (apply Forall_cons in Hr as [[? _] _]; go_lia).
  destruct (IH fuel (Nonce tx + 1) idx' (ready ++ [tx])) as (idx2 & H1 & H2); [simpl in *; lia|done| |done|].
  { apply Forall_forall. intros y Hy. rewrite Forall_forall in Hr, Hb. specialize (Hr y Hy). specialize (Hb y Hy).
    unfold before in Hb. split; [tauto|lia]. }
  destruct (consecutive (Nonce tx + 1) (tx2 :: l2)) as [r2 k2]. simpl in *. exists idx2. split; [|done].
  rewrite H1, <- app_assoc. done.
Qed.

(** What [Ready] returns: nothing if the first nonce is beyond [start]. *)
Definition ready_of (start : Z) (l : list Transaction) : list Transaction * list Transaction :=
  match l with
  | [] => ([], [])
  | tx :: _ => if start <? Nonce tx then ([], l) else consecutive (Nonce tx) l
  end.

Lemma Ready_repr start m l : repr m l ->
  exists m', Ready start m = Ret (m', (ready_of start l).1) /\ repr m' (ready_of start l).2.
Proof.
  intros Hr. pose proof (repr_heap m l Hr) as Hh. pose proof Hr as [Hs Hra Hi _ Hp Hc]. unfold Ready, ready_of.
  destruct l as [|tx l]; [rewrite (heap_of_nil _ Hh); by exists m|].
  destruct (heap_of_cons _ _ _ Hs Hh) as [[r Hix] _]. rewrite Hix. destruct (start <? Nonce tx); [by exists m|]. rewrite <- Hix.
  destruct (ready_loop_spec (length (index m)) (Nonce tx) (tx :: l) (index m) []) as (idx' & H1 & H2);
    [by rewrite Hp, length_fmap|done| |done|].
  { apply Forall_forall. intros y Hy. rewrite Forall_forall in Hra. split; [by apply Hra|].
    apply StronglySorted_cons in Hs as [Hb _]. rewrite Forall_forall in Hb. apply elem_of_cons in Hy as [->|Hy]; [lia|].
    specialize (Hb y Hy). unfold before in Hb. lia. }
  rewrite Hi, H1. simpl. pose proof (consecutive_app (Nonce tx) (tx :: l)) as Happ.
  set (cs := consecutive (Nonce tx) (tx :: l)) in *. eexists. split; [done|]. rewrite <- Happ in Hs, Hra.
  apply StronglySorted_app in Hs as (_ & _ & Hs). apply Forall_app in Hra as [_ Hra]. by apply mk_repr.
Qed.

Lemma Flatten_repr order m l : iterates order -> repr m l ->
  let '(m', r) := Flatten order m in r = l /\ repr m' l.
Proof.
  intros Ho Hr. pose proof Hr as [Hs Hra Hi Hh Hp Hc]. unfold Flatten. destruct (cache m) as [c|] eqn:Ec.
  { by rewrite (Hc c eq_refl). }
  assert (Hsort : merge_sort by_nonce (order (items m)).*2 = l).
  { apply (StronglySorted_unique_strong by_nonce).
    - intros x y Hx Hy H1 H2. rewrite merge_sort_Permutation, Hi, (Ho (of_list l)), of_list_perm in Hx by done.
      rewrite <- list_fmap_compose in Hx. apply list_elem_of_fmap in Hx as (x' & -> & Hx). simpl.
      assert (He : of_list l !! Nonce y = Some x') by (apply of_list_lookup; [done|]; split; [done|]; unfold by_nonce in *; simpl in *; lia).
      assert (He' : of_list l !! Nonce y = Some y) by (by apply of_list_lookup). congruence.
    - apply StronglySorted_merge_sort; [intros x y z; unfold by_nonce; lia|intros x y; unfold by_nonce; lia].
    - clear - Hs. induction Hs as [|x l Hl IH Hx]; constructor; [done|]. eapply Forall_impl; [exact Hx|]. unfold before, by_nonce. lia.
    - rewrite merge_sort_Permutation, Hi, (Ho (of_list l)), of_list_perm by done. rewrite <- list_fmap_compose.
      change (snd ∘ (fun tx => (Nonce tx, tx))) with (@id Transaction). by rewrite list_fmap_id. }
  rewrite Hsort. split; [done|]. apply mk_repr; try done. by intros x [= <-].
Qed.

(** C23: the heap-indexed map implements a list sorted by nonce. Whatever order Go iterates
    its maps in, every operation on a map that represents [l] returns, without panicking,
    what the sorted list says and represents the new list: insertion, removal of all nonces
    below a threshold in order, filtering, capping from the highest nonce down, removal,
    the maximal run of consecutive nonces, and the (cached) sorted slice. *)
Theorem tx_sorted_map_correct m l order order' : iterates order -> iterates order' -> repr m l ->
  (forall k, Get m k = list_find_nonce k l) /\ Len m = length l /\
  (forall tx, is_u64 (Nonce tx) -> repr (Put tx m) (put tx l)) /\
  (forall t, exists m', Forward t m = Ret (m', filter (fun tx => Nonce tx < t) l) /\ repr m' (filter (fun tx => t <= Nonce tx) l)) /\
  (forall f, let '(m', removed) := Filter order order' f m in
     repr m' (filter (fun tx => f tx = false) l) /\ removed ≡ₚ filter (fun tx => f tx = true) l) /\
  (forall n, exists m', Cap n m = Ret (m', reverse (drop n l)) /\ repr m' (take n l)) /\
  (forall n, exists m', Remove n m = Ret (m', bool_decide (n ∈ Nonce <$> l)) /\ repr m' (filter (fun tx => Nonce tx <> n) l)) /\
  (forall start, exists m', Ready start m = Ret (m', (ready_of start l).1) /\ repr m' (ready_of start l).2) /\
  (let '(m', r) := Flatten order m in r = l /\ repr m' l).
Proof.
  intros Ho Ho' Hr. split_and!.
  - intros k. unfold Get. rewrite (r_items _ _ Hr). apply list_find_nonce_spec, Hr.
  - unfold Len. rewrite (r_items _ _ Hr). apply of_list_size, Hr.
  - intros tx. by apply Put_repr.
  - intros t. by apply Forward_repr.
  - intros f. by apply Filter_repr.
  - intros n. by apply Cap_repr.
  - intros n. by apply Remove_repr.
  - intros start. by apply Ready_repr.
  - by apply Flatten_repr.
Qed.

Lemma newTxSortedMap_repr : repr newTxSortedMap [].
Proof. apply mk_repr; [constructor|constructor|done| |done]. split; [intros k Hk; simpl in Hk; lia|done]. Qed.

Lemma map_to_list_iterates : iterates map_to_list.
Proof. unfold iterates. reflexivity. Qed.

(** Three transactions of an account, with a gap after the first. *)
Module Three.
Definition mk (nonce price gas : Z) : Transaction :=
  MkTx None (MkTxdata PEmpty PEmpty nonce price gas (PTo 9) 5 [] 27 1 1)
    (100 + nonce) 110 (Some 7).
Definition tx4 : Transaction := mk 4 10 21000.
Definition tx6 : Transaction := mk 6 20 21000.
Definition tx7 : Transaction := mk 7 10 30000.
Definition sorted : txSortedMap := Put tx4 (Put tx7 (Put tx6 newTxSortedMap)).

Lemma sorted_repr : repr sorted [tx4; tx6; tx7].
Proof.
  apply (Put_repr tx4 _ [tx6; tx7]); [|by vm_compute]. apply (Put_repr tx7 _ [tx6]); [|by vm_compute].
  apply (Put_repr tx6 _ []); [apply newTxSortedMap_repr|by vm_compute].
Qed.
End Three.

Lemma tx_sorted_map_correct_witness :
  (exists m', Forward 5 Three.sorted = Ret (m', [Three.tx4]) /\ repr m' [Three.tx6; Three.tx7]) /\
  (exists m', Ready 4 Three.sorted = Ret (m', [Three.tx4]) /\ repr m' [Three.tx6; Three.tx7]) /\
  (exists m', Cap 1 Three.sorted = Ret (m', [Three.tx7; Three.tx6]) /\ repr m' [Three.tx4]).
Proof.
  destruct (tx_sorted_map_correct Three.sorted [Three.tx4; Three.tx6; Three.tx7] map_to_list map_to_list
    map_to_list_iterates map_to_list_iterates Three.sorted_repr) as (_ & _ & _ & Hf & _ & Hc & _ & Hr & _).
  split; [exact (Hf 5)|]. split; [exact (Hr 4)|exact (Hc 1%nat)].
Defined.

(** ** Lists of an account *)

(** The caps bound the cost and the gas of every transaction. *)
Record list_ok (L : txList) (l : list Transaction) : Prop := {
  lo_repr : repr (txs L) l;
  lo_caps : Forall (fun tx => Cost tx <= costcap L /\ Gas tx <= gascap L) l
}.

Definition too_dear (costLimit gasLimit : Z) (tx : Transaction) : bool := (costLimit <? Cost tx) || (gasLimit <? Gas tx).

(** The transactions before the first bad one. *)
Fixpoint upto (bad : Transaction -> bool) (l : list Transaction) : list Transaction :=
  match l with
  | [] => []
  | tx :: l => if bad tx then [] else tx :: upto bad l
  end.

Lemma foldr_min_acc a acc l : foldr Z.min (Z.min a acc) l = Z.min a (foldr Z.min acc l).
Proof. induction l as [|y l IH]; simpl; [done|]. rewrite IH. lia. Qed.

Lemma lowest_nonce_acc l acc : fold_left (fun lowest tx => if Nonce tx <? lowest then Nonce tx else lowest) l acc =
  foldr Z.min acc (Nonce <$> l).
Proof.
  revert acc. induction l as [|tx l IH]; intros acc; [done|]. cbn [fold_left]. rewrite IH, fmap_cons. cbn [foldr].
  rewrite <- foldr_min_acc. f_equal. destruct (_ <? _) eqn:E; bool_to_prop; lia.
Qed.

Lemma foldr_min_perm l l' acc : l ≡ₚ l' -> foldr Z.min acc l = foldr Z.min acc l'.
Proof. intros Hp. induction Hp; simpl; try congruence; lia. Qed.

Lemma foldr_min_above acc n l : n <= acc -> Forall (fun x => n <= x) l -> n <= foldr Z.min acc l.
Proof. intros Hn. induction 1; simpl; lia. Qed.

(** In a sorted list the lowest bad nonce is that of the first bad transaction. *)
Lemma upto_lowest bad l : StronglySorted before l -> Forall (fun tx => is_u64 (Nonce tx)) l -> filter (fun tx => bad tx = true) l <> [] ->
  let low := foldr Z.min MaxUint64 (Nonce <$> filter (fun tx => bad tx = true) l) in
  filter (fun tx => (low <? Nonce tx) = false) (filter (fun tx => bad tx = false) l) = upto bad l.
Proof.
  intros Hs Hr. induction Hs as [|y l Hl IH Hy]; intros Hne; [done|].
  rewrite filter_cons in Hne. rewrite !(filter_cons (fun tx => bad tx = true)), (filter_cons (fun tx => bad tx = false)). cbn [upto].
  apply Forall_cons in Hr as [Hyr Hr].
  assert (Hlow : Nonce y <= foldr Z.min MaxUint64 (Nonce <$> filter (fun tx => bad tx = true) l)).
  { apply foldr_min_above; [go_lia|]. apply Forall_fmap, Forall_filter. eapply Forall_impl; [exact Hy|]. unfold before. simpl. lia. }
  destruct (bad y) eqn:Eb.
  - rewrite decide_True, (decide_False (P:=true = false)), fmap_cons by done. cbn [foldr]. rewrite (Z.min_l _ _ Hlow).
    apply filter_none, Forall_filter. eapply Forall_impl; [exact Hy|]. unfold before. simpl.
    intros z Hz Hf. apply Z.ltb_ge in Hf. lia.
  - rewrite (decide_False (P:=false = true)) in * by done. rewrite (decide_True (P:=false = false)), filter_cons by done.
    rewrite decide_True by (by apply Z.ltb_ge). f_equal. by apply IH.
Qed.

Lemma upto_good bad l : Forall (fun tx => bad tx = false) (upto bad l).
Proof. induction l as [|tx l IH]; simpl; [constructor|]. destruct (bad tx) eqn:E; constructor; done. Qed.

Lemma upto_prefix bad l : upto bad l `prefix_of` l.
Proof. induction l as [|tx l IH]; simpl; [done|]. destruct (bad tx); [apply prefix_nil|by apply prefix_cons]. Qed.

Lemma upto_all bad l : filter (fun tx => bad tx = true) l = [] -> upto bad l = l.
Proof. induction l as [|tx l IH]; [done|]. rewrite filter_cons. simpl. destruct (bad tx); [done|]. intros H. by rewrite IH. Qed.

Lemma partition_perm (f : Transaction -> bool) l :
  l ≡ₚ filter (fun tx => f tx = false) l ++ filter (fun tx => f tx = true) l.
Proof.
  induction l as [|tx l IH]; [done|]. rewrite !filter_cons. destruct (f tx); simpl.
  - rewrite IH at 1. apply Permutation_middle.
  - by rewrite IH at 1.
Qed.

(** When a transaction may take the place of the one of its nonce. *)
Definition replaces (priceBump : Z) (tx : Transaction) (old : option Transaction) : Prop :=
  match old with
  | None => True
  | Some o => GasPrice o < GasPrice tx /\ GasPrice o * (100 + priceBump) / 100 <= GasPrice tx
  end.

Lemma Add_ok tx bump L l : list_ok L l -> is_u64 (Nonce tx) -> 0 <= bump <= MaxInt64 - 100 ->
  let '(L', ok, old) := Add tx bump L in
  if ok then replaces bump tx (list_find_nonce (Nonce tx) l) /\ old = list_find_nonce (Nonce tx) l /\ list_ok L' (put tx l) /\
    strict L' = strict L
  else ~ replaces bump tx (list_find_nonce (Nonce tx) l) /\ L' = L.
Proof.
  intros [Hr Hc] Hn Hb. unfold Add. assert (Hi : i64 (100 + i64 bump) = 100 + bump) by (rewrite (i64_id bump) by go_lia; apply i64_id; go_lia). rewrite Hi.
  assert (Hg : Get (txs L) (Nonce tx) = list_find_nonce (Nonce tx) l).
  { unfold Get. rewrite (r_items _ _ Hr). apply list_find_nonce_spec, Hr. }
  rewrite Hg. set (better := match _ with Some _ => _ | None => _ end).
  assert (Hbt : better = true <-> replaces bump tx (list_find_nonce (Nonce tx) l)).
  { unfold better, replaces. destruct (list_find_nonce _ _) as [o|]; [|tauto].
    rewrite negb_true_iff, orb_false_iff, Z.leb_gt, Z.ltb_ge. tauto. }
  destruct better; simpl; [|split; [intros Hre; by apply Hbt in Hre|done]].
  split_and!; [by apply Hbt|done| |done]. split; [by apply Put_repr|]. simpl.
  apply Forall_forall. rewrite Forall_forall in Hc. intros y [->|Hy]%put_elem.
  - destruct (costcap L <? Cost tx) eqn:E1, (gascap L <? Gas tx) eqn:E2; bool_to_prop; lia.
  - specialize (Hc y Hy). destruct (costcap L <? Cost tx) eqn:E1, (gascap L <? Gas tx) eqn:E2; bool_to_prop; lia.
Qed.

(** What a list keeps when the transactions for which [bad] holds are taken out. *)
Definition keeps (strict : bool) (bad : Transaction -> bool) (l : list Transaction) : list Transaction :=
  if strict then upto bad l else filter (fun tx => bad tx = false) l.

Lemma keeps_good s bad l : Forall (fun tx => bad tx = false) (keeps s bad l).
Proof. destruct s; simpl; [apply upto_good|]. apply Forall_forall. by intros x [? _]%list_elem_of_filter. Qed.

Lemma caps_good cl gl l : Forall (fun tx => too_dear cl gl tx = false) l -> Forall (fun tx => Cost tx <= cl /\ Gas tx <= gl) l.
Proof. intros H. eapply Forall_impl; [exact H|]. unfold too_dear. simpl. intros x [? ?]%orb_false_iff. bool_to_prop. lia. Qed.

(** Within the caps nothing is too dear. *)
Lemma capped_good L l cl gl : list_ok L l -> (costcap L <=? cl) && (gascap L <=? gl) = true ->
  filter (fun tx => too_dear cl gl tx = true) l = [].
Proof.
  intros [_ Hc] E. apply andb_true_iff in E as [E1 E2]. bool_to_prop. apply filter_none.
  eapply Forall_impl; [exact Hc|]. simpl. unfold too_dear. intros x [H1 H2] [H|H]%orb_true_iff; bool_to_prop; lia.
Qed.

Lemma keeps_all s bad l : filter (fun tx => bad tx = true) l = [] -> keeps s bad l = l.
Proof. destruct s; simpl; [apply upto_all|apply filter_false_all]. Qed.

Section Orders.
Context (order order' : gmap Z Transaction -> list (Z * Transaction)) (Ho : iterates order) (Ho' : iterates order').

Lemma FilterList_ok cl gl L l : list_ok L l ->
  let '(L', removed, invalids) := FilterList order order' cl gl L in
  list_ok L' (keeps (strict L) (too_dear cl gl) l) /\ strict L' = strict L /\
  removed ≡ₚ filter (fun tx => too_dear cl gl tx = true) l /\
  l ≡ₚ keeps (strict L) (too_dear cl gl) l ++ removed ++ invalids.
Proof.
  intros Hok. unfold FilterList. destruct (_ && _) eqn:Ecap.
  { pose proof (capped_good L l cl gl Hok Ecap) as Hnone. rewrite keeps_all, Hnone, !app_nil_r by done. done. }
  clear Ecap. destruct Hok as [Hr _]. fold (too_dear cl gl). set (bad := too_dear cl gl).
  pose proof (Filter_repr order order' bad _ _ Ho Ho' Hr) as HF. change (fun tx => _ || _) with bad.
  destruct (Filter order order' bad (txs L)) as [m1 removed]. destruct HF as [Hr1 Hrem].
  destruct (strict L && (0 <? length removed)%nat) eqn:Es.
  - apply andb_true_iff in Es as [Es El%Nat.ltb_lt].
    pose proof (Filter_repr order order' (fun tx => lowest_nonce removed <? Nonce tx) _ _ Ho Ho' Hr1) as HF2.
    destruct (Filter order order' _ m1) as [m2 invalids]. destruct HF2 as [Hr2 Hinv].
    assert (Hlow : lowest_nonce removed = foldr Z.min MaxUint64 (Nonce <$> filter (fun tx => bad tx = true) l)).
    { unfold lowest_nonce. rewrite lowest_nonce_acc. apply foldr_min_perm. by rewrite Hrem. }
    assert (Hkeep : filter (fun tx => (lowest_nonce removed <? Nonce tx) = false) (filter (fun tx => bad tx = false) l) = upto bad l).
    { rewrite Hlow. apply upto_lowest; [apply Hr|apply Hr|]. intros Hnil. rewrite Hnil in Hrem. apply Permutation_nil_r in Hrem. subst. simpl in El. lia. }
    rewrite Hkeep in Hr2. unfold keeps. rewrite Es. split_and!; [|done|done|].
    + split; [done|]. simpl. apply caps_good, upto_good.
    + rewrite (partition_perm bad l) at 1. rewrite (partition_perm (fun tx => lowest_nonce removed <? Nonce tx) (filter _ l)) at 1.
      rewrite Hkeep, <- Hinv, <- Hrem, <- app_assoc. f_equiv. apply Permutation_app_comm.
  - assert (Hk : keeps (strict L) bad l = filter (fun tx => bad tx = false) l).
    { destruct (strict L) eqn:Est; [|done]. simpl in Es. apply Nat.ltb_ge in Es.
      assert (removed = []) as -> by (destruct removed; [done|simpl in Es; lia]).
      apply Permutation_nil_l in Hrem. simpl. rewrite upto_all, filter_false_all; done. }
    rewrite Hk, app_nil_r. split_and!; [|done|done|].
    + split; [done|]. simpl. apply caps_good, (keeps_good false).
    + rewrite (partition_perm bad l) at 1. by rewrite Hrem.
Qed.

Lemma filter_perm_sub (P Q : Transaction -> Prop) `{forall x, Decision (P x)} `{forall x, Decision (Q x)} (l : list Transaction) :
  (forall x, x ∈ l -> P x <-> Q x) -> filter P l = filter Q l.
Proof.
  induction l as [|x l IH]; intros Hpq; [done|]. rewrite !filter_cons, IH by set_solver.
  destruct (Hpq x ltac:(by left)), (decide (P x)), (decide (Q x)); tauto || done.
Qed.

Lemma list_ok_sub L l m l' : list_ok L l -> repr m l' -> (forall x, x ∈ l' -> x ∈ l) -> list_ok (with_txs L m) l'.
Proof. intros [_ Hc] Hr Hsub. split; [done|]. simpl. rewrite Forall_forall in *. auto. Qed.

Lemma RemoveList_ok tx L l : list_ok L l ->
  exists L' found invalids, RemoveList order order' tx L = Ret (L', found, invalids) /\
  found = bool_decide (Nonce tx ∈ Nonce <$> l) /\ strict L' = strict L /\
  (found = false -> invalids = [] /\ list_ok L' l) /\
  (found = true -> list_ok L' (if strict L then filter (fun y => Nonce y < Nonce tx) l else filter (fun y => Nonce y <> Nonce tx) l) /\
     invalids ≡ₚ if strict L then filter (fun y => Nonce tx < Nonce y) l else []).
Proof.
  intros Hok. unfold RemoveList. destruct (Remove_repr (Nonce tx) _ _ (lo_repr _ _ Hok)) as (m1 & Hrm & Hr1). rewrite Hrm. simpl.
  destruct (bool_decide (Nonce tx ∈ Nonce <$> l)) eqn:Ef; simpl.
  - destruct (strict L) eqn:Es.
    + pose proof (Filter_repr order order' (fun y => Nonce tx <? Nonce y) _ _ Ho Ho' Hr1) as HF.
      destruct (Filter order order' _ m1) as [m2 invalids]. destruct HF as [Hr2 Hinv]. rewrite !list_filter_filter in *.
      eexists _, _, _. split_and!; [done|done|done|done|]. intros _. split.
      * rewrite (filter_perm_sub _ (fun y => Nonce y < Nonce tx)) in Hr2 by (intros x _; rewrite Z.ltb_ge; lia).
        apply (list_ok_sub L l); [done|done|]. by intros x [_ ?]%list_elem_of_filter.
      * rewrite Hinv. rewrite (filter_perm_sub _ (fun y => Nonce tx < Nonce y)); [done|]. intros x _. rewrite Z.ltb_lt. lia.
    + eexists _, _, _. split_and!; [done|done|done|done|]. intros _. split; [|done].
      apply (list_ok_sub L l); [done|done|]. by intros x [_ ?]%list_elem_of_filter.
  - eexists _, _, _. split_and!; [done|done|done| |done]. intros _. split; [done|].
    apply (list_ok_sub L l); [done| |done]. rewrite filter_all in Hr1; [done|]. apply Forall_forall. intros y Hy Hn.
    apply bool_decide_eq_false in Ef. apply Ef. rewrite <- Hn. apply list_elem_of_fmap. eauto.
Qed.

End Orders.

Lemma newTxList_ok b : list_ok (newTxList b) [].
Proof. split; [apply newTxSortedMap_repr|constructor]. Qed.

(** The list of an account. A transaction is accepted exactly if its nonce is free or
    it pays more than the one it replaces and at least the price bump; the caps on cost and
    gas bound the whole list, so that the filter may skip it; filtering takes out exactly the
    transactions over the limits and, in a strict list, everything behind the first of them,
    which leaves a prefix; removing from a strict list leaves the part before the nonce. *)
Theorem tx_list_correct L l order order' : iterates order -> iterates order' -> list_ok L l ->
  (forall tx bump, is_u64 (Nonce tx) -> 0 <= bump <= MaxInt64 - 100 ->
     let '(L', ok, old) := Add tx bump L in
     if ok then replaces bump tx (list_find_nonce (Nonce tx) l) /\ old = list_find_nonce (Nonce tx) l /\ list_ok L' (put tx l) /\
       strict L' = strict L
     else ~ replaces bump tx (list_find_nonce (Nonce tx) l) /\ L' = L) /\
  (forall cl gl, let '(L', removed, invalids) := FilterList order order' cl gl L in
     list_ok L' (keeps (strict L) (too_dear cl gl) l) /\ strict L' = strict L /\
     removed ≡ₚ filter (fun tx => too_dear cl gl tx = true) l /\
     l ≡ₚ keeps (strict L) (too_dear cl gl) l ++ removed ++ invalids /\
     (strict L = true -> keeps (strict L) (too_dear cl gl) l `prefix_of` l)) /\
  (forall tx, exists L' found invalids, RemoveList order order' tx L = Ret (L', found, invalids) /\
     found = bool_decide (Nonce tx ∈ Nonce <$> l) /\ strict L' = strict L /\
     (found = false -> invalids = [] /\ list_ok L' l) /\
     (found = true -> list_ok L' (if strict L then filter (fun y => Nonce y < Nonce tx) l else filter (fun y => Nonce y <> Nonce tx) l) /\
        invalids ≡ₚ if strict L then filter (fun y => Nonce tx < Nonce y) l else [])).
Proof.
  intros Ho Ho' Hok. split_and!.
  - intros tx bump. by apply Add_ok.
  - intros cl gl. pose proof (FilterList_ok order order' Ho Ho' cl gl L l Hok) as HF.
    destruct (FilterList order order' cl gl L) as [[L' removed] invalids]. destruct HF as (H1 & H2 & H3 & H4).
    split_and!; try done. intros ->. apply upto_prefix.
  - intros tx. by apply RemoveList_ok.
Qed.

Lemma tx_list_correct_witness :
  list_ok (MkList true Three.sorted 600005 30000) [Three.tx4; Three.tx6; Three.tx7] /\
  (let '(L', removed, invalids) := FilterList map_to_list map_to_list 400000 30000 (MkList true Three.sorted 600005 30000) in
   list_ok L' [Three.tx4] /\ removed ≡ₚ [Three.tx6] /\ [Three.tx4; Three.tx6; Three.tx7] ≡ₚ [Three.tx4] ++ removed ++ invalids).
Proof.
  assert (Hok : list_ok (MkList true Three.sorted 600005 30000) [Three.tx4; Three.tx6; Three.tx7]).
  { split; [apply Three.sorted_repr|]. repeat constructor; by vm_compute. }
  split; [exact Hok|]. destruct (tx_list_correct _ _ map_to_list map_to_list map_to_list_iterates map_to_list_iterates Hok) as (_ & HF & _).
  specialize (HF 400000 30000). destruct (FilterList _ _ _ _ _) as [[L' removed] invalids]. destruct HF as (H1 & _ & H2 & H3 & _).
  split; [exact H1|]. split; [exact H2|exact H3].
Defined.

End TxListProps.
