(* ===== verification/TxOrderProps.v ===== *)
(** The set the packager draws from offers, at each turn, the dearest among the next
    transactions of the accounts, and keeps the order of every account. *)

From S2P Require Import Prelude Params Bytes Heap TxTypes.
Import TxTypes TxOrder HeapProps.

Module TxOrderProps.

#[export] Instance byPriceLess_laws : LessLaws byPriceLess.
Proof. split; unfold byPriceLess; intros; bool_to_prop; apply Z.ltb_ge; lia. Qed.

(** ** The queues of the accounts *)

(** What is left of every account with something left. *)
Abbreviation queues := (gmap Address (list Transaction)).

Definition heads_of (m : queues) : list Transaction := omap (fun p => head p.2) (map_to_list m).

Definition queues_ok (m : queues) : Prop :=
  map_Forall (fun a l => l <> [] /\ Forall (fun tx => from_of tx = a) l) m.

(** [tx] is next for its account and no other account offers more. *)
Definition dearest (m : queues) (tx : Transaction) (rest : list Transaction) : Prop :=
  m !! from_of tx = Some (tx :: rest) /\
  forall a tx' rest', m !! a = Some (tx' :: rest') -> GasPrice tx' <= GasPrice tx.

(** The queues after [tx] was taken: the account goes on, or is given up. *)
Definition served (shift : bool) (a : Address) (rest : list Transaction) (m : queues) : queues :=
  if shift then match rest with [] => delete a m | _ => <[a := rest]> m end else delete a m.

Lemma heads_of_elem m tx : tx ∈ heads_of m <-> exists a rest, m !! a = Some (tx :: rest).
Proof.
  unfold heads_of. rewrite list_elem_of_omap. split.
  - intros ([a l] & Hin & Hh). apply elem_of_map_to_list in Hin. destruct l; simplify_eq/=. eauto.
  - intros (a & rest & Hl). exists (a, tx :: rest). split; [by apply elem_of_map_to_list|done].
Qed.

Lemma heads_of_delete m a tx rest : m !! a = Some (tx :: rest) -> heads_of m ≡ₚ tx :: heads_of (delete a m).
Proof. intros Hl. unfold heads_of. by rewrite <- (map_to_list_delete m a _ Hl). Qed.

Lemma heads_of_insert m a tx rest : m !! a = None -> heads_of (<[a := tx :: rest]> m) ≡ₚ tx :: heads_of m.
Proof. intros Hl. unfold heads_of. by rewrite (map_to_list_insert m a _ Hl). Qed.

Lemma served_ok shift a tx rest m : m !! a = Some (tx :: rest) -> queues_ok m -> queues_ok (served shift a rest m).
Proof.
  intros Hl Hok. assert (Hd : queues_ok (delete a m)) by (by apply map_Forall_delete). unfold served.
  destruct shift; [|done]. destruct rest as [|tx' rest]; [done|]. apply map_Forall_insert_2; [|done]. split; [done|].
  specialize (Hok a _ Hl) as [_ Hf]. by apply Forall_cons in Hf as [_ Hf].
Qed.

(** ** Representation *)

Record set_repr (t : PricedSet) (m : queues) : Prop := {
  sr_heap : heap byPriceLess (length (heads t)) (heads t);
  sr_heads : heads t ≡ₚ heads_of m;
  sr_ok : queues_ok m;
  sr_rest : forall a tx rest, m !! a = Some (tx :: rest) -> ptxs t !! a = Some rest
}.

Lemma Peek_spec t m : set_repr t m ->
  match Peek t with
  | None => m = ∅
  | Some tx => exists rest, dearest m tx rest
  end.
Proof.
  intros [Hh Hp Hok _]. unfold Peek. destruct (heads t) as [|tx hs] eqn:E; simpl.
  - apply map_empty. intros a. destruct (m !! a) as [l|] eqn:Hl; [|done]. destruct (Hok a l Hl) as [Hne _].
    destruct l as [|tx rest]; [done|]. assert (Hin : tx ∈ heads_of m) by (apply heads_of_elem; eauto).
    rewrite <- Hp in Hin. by apply not_elem_of_nil in Hin.
  - assert (Hin : tx ∈ heads_of m) by (rewrite <- Hp; by left). apply heads_of_elem in Hin as (a & rest & Hl).
    destruct (Hok a _ Hl) as [_ Hf]. apply Forall_cons in Hf as [Hfrom _]. subst a. exists rest. split; [done|].
    intros a tx' rest' Hl'. assert (Hin : tx' ∈ tx :: hs) by (rewrite Hp; apply heads_of_elem; eauto).
    pose proof (heap_min byPriceLess (tx :: hs) tx' Hh Hin) as Hle. unfold le, byPriceLess in Hle. simpl in Hle.
    by apply Z.ltb_ge in Hle.
Qed.

(** The root, and the heap without it. *)
Lemma root_spec t m tx : set_repr t m -> Peek t = Some tx -> exists rest hs,
  heads t = tx :: hs /\ m !! from_of tx = Some (tx :: rest) /\ ptxs t !! from_of tx = Some rest /\
  hs ≡ₚ heads_of (delete (from_of tx) m) /\
  exists hs', Heap.Pop byPriceLess (heads t) = Ret (hs', tx) /\ heap byPriceLess (length hs') hs' /\
    hs' ≡ₚ heads_of (delete (from_of tx) m).
Proof.
  intros Hr Hpk. pose proof (Peek_spec t m Hr) as Hp. rewrite Hpk in Hp. destruct Hp as (rest & Hl & _).
  destruct Hr as [Hh Hp Hok Hrest]. unfold Peek in Hpk. destruct (heads t) as [|h hs] eqn:E; [done|]. simpl in Hpk. injection Hpk as ->.
  exists rest, hs. destruct (Pop_spec byPriceLess (tx :: hs) Hh ltac:(done)) as (hs' & Hpop & Hperm & Hh'). simpl in Hpop, Hperm.
  rewrite (heads_of_delete m _ _ _ Hl) in Hp. apply Permutation_cons_inv in Hperm, Hp.
  split_and!; [done|done|eauto|done|]. exists hs'. split_and!; [done|done|]. by rewrite <- Hperm.
Qed.

Lemma popped_repr m a rest hs txs : set_repr (MkPricedSet txs rest) m -> heap byPriceLess (length hs) hs ->
  hs ≡ₚ heads_of (delete a m) -> set_repr (MkPricedSet txs hs) (delete a m).
Proof.
  intros [_ _ Hok Hrest] Hh Hp. split; [done|done|by apply map_Forall_delete|]. simpl.
  intros b tx r [_ Hl]%lookup_delete_Some. by apply (Hrest b tx).
Qed.

Lemma Pop_repr t m tx : set_repr t m -> Peek t = Some tx ->
  exists t', Pop t = Ret t' /\ set_repr t' (delete (from_of tx) m).
Proof.
  intros Hr Hpk. destruct (root_spec t m tx Hr Hpk) as (rest & hs & _ & _ & _ & _ & hs' & Hpop & Hh & Hp).
  unfold Pop. rewrite Hpop. simpl. eexists. split; [done|]. destruct t. by eapply popped_repr.
Qed.

Lemma Shift_repr t m tx rest : set_repr t m -> Peek t = Some tx -> m !! from_of tx = Some (tx :: rest) ->
  exists t', Shift t = Ret t' /\ set_repr t' (served true (from_of tx) rest m).
Proof.
  intros Hr Hpk Hm. destruct (root_spec t m tx Hr Hpk) as (rest' & hs & Ehs & Hl & Hx & Hp & hs' & Hpop & Hh' & Hp').
  assert (rest' = rest) as -> by congruence. clear Hm. unfold Shift. rewrite Ehs, Hx. destruct rest as [|tx2 rest]; simpl.
  - rewrite <- Ehs, Hpop. simpl. eexists. split; [done|]. destruct t. by eapply popped_repr.
  - eexists. split; [done|]. pose proof (sr_heap _ _ Hr) as Hheap. rewrite Ehs in Hheap.
    destruct (Fix_root_spec byPriceLess tx tx2 hs Hheap) as [Hf Hfp]. split; simpl.
    + done.
    + rewrite Hfp, Hp, <- insert_delete_eq, heads_of_insert; [done|apply lookup_delete_eq].
    + apply (served_ok true _ tx (tx2 :: rest)); [done|apply Hr].
    + intros a y r. destruct (decide (a = from_of tx)) as [->|Ha].
      * rewrite !lookup_insert_eq. congruence.
      * rewrite !lookup_insert_ne by done. apply Hr.
Qed.

(** ** The constructor *)

Lemma heads_loop_spec order m txs hs : queues_ok m -> NoDup order ->
  (forall a, a ∈ order -> txs !! a = m !! a) ->
  (forall a, a ∈ order -> is_Some (m !! a)) ->
  exists txs' hs', heads_loop order txs hs = Ret (txs', hs ++ hs') /\
    hs' = omap (fun a => l ← m !! a; head l) order /\
    (forall a tx rest, a ∈ order -> m !! a = Some (tx :: rest) -> txs' !! a = Some rest) /\
    (forall a, a ∉ order -> txs' !! a = txs !! a).
Proof.
  intros Hok. revert txs hs. induction order as [|a order IH]; intros txs hs Hnd Heq Hin.
  { exists txs, []. simpl. rewrite app_nil_r. split_and!; [done|done| |done]. intros a tx rest Ha. by apply not_elem_of_nil in Ha. }
  apply NoDup_cons in Hnd as [Hna Hnd]. destruct (Hin a ltac:(by left)) as [l Hl]. destruct (Hok a l Hl) as [Hne Hf].
  destruct l as [|tx rest]; [done|]. apply Forall_cons in Hf as [Hfrom _]. cbn [heads_loop].
  rewrite (Heq a ltac:(by left)), Hl, Hfrom, decide_True by done.
  destruct (IH (<[a := rest]> txs) (hs ++ [tx])) as (txs' & hs' & H1 & H2 & H3 & H4); [done| |set_solver|].
  { intros b Hb. rewrite lookup_insert_ne by set_solver. apply Heq. by right. }
  exists txs', (tx :: hs'). split_and!.
  - by rewrite H1, <- app_assoc.
  - simpl. rewrite Hl. simpl. by rewrite H2.
  - intros b tx' rest' [->|Hb]%elem_of_cons Hb'; [|by eapply H3]. rewrite H4, lookup_insert_eq by done. congruence.
  - intros b [Hba Hb]%not_elem_of_cons. by rewrite H4, lookup_insert_ne by done.
Qed.

Lemma omap_keys (m : queues) (l : list (Address * list Transaction)) :
  Forall (fun p => m !! p.1 = Some p.2) l -> omap (fun a => r ← m !! a; head r) l.*1 = omap (fun p => head p.2) l.
Proof.
  induction 1 as [|[a r] l Ha Hl IH]; [done|]. rewrite fmap_cons. cbn in Ha |- *. rewrite Ha. cbn.
  destruct (head r); [f_equal|]; exact IH.
Qed.

Lemma New_repr order m : queues_ok m -> order ≡ₚ (map_to_list m).*1 ->
  exists t, NewTransactionsByPriceAndNonce order m = Ret t /\ set_repr t m.
Proof.
  intros Hok Hord.
  assert (Hkeys : forall a, a ∈ order <-> is_Some (m !! a)).
  { intros a. rewrite Hord, list_elem_of_fmap. split; [intros ([b l] & -> & Hb%elem_of_map_to_list); eauto|].
    intros [l Hl]. exists (a, l). split; [done|by apply elem_of_map_to_list]. }
  destruct (heads_loop_spec order m m []) as (txs & hs & H1 & H2 & H3 & _); [done| |done|by intros a ?%Hkeys|].
  { rewrite Hord. apply NoDup_fst_map_to_list. }
  unfold NewTransactionsByPriceAndNonce. rewrite H1. simpl. eexists. split; [done|].
  destruct (Init_spec byPriceLess hs) as [Hh Hp]. split; simpl; [done| |done|].
  - rewrite Hp, H2, Hord, omap_keys; [done|]. apply Forall_forall. intros [a l] Hin. by apply elem_of_map_to_list.
  - intros a tx rest Hl. apply (H3 a tx rest); [|done]. apply Hkeys. eauto.
Qed.

(** ** Serving *)

(** The loop of the packager: take the offered transaction, then go on with its account or
    give it up. *)
Fixpoint serve (choices : list bool) (t : PricedSet) : outcome (list Transaction) :=
  match choices, Peek t with
  | c :: choices, Some tx =>
      t ← (if c then Shift t else Pop t);
      out ← serve choices t;
      Ret (tx :: out)
  | _, _ => Ret []
  end.

(** The runs of the abstract queues. *)
Inductive greedy : queues -> list bool -> list Transaction -> Prop :=
| greedy_stop m : greedy m [] []
| greedy_empty cs : greedy ∅ cs []
| greedy_next m c cs tx rest out : dearest m tx rest -> greedy (served c (from_of tx) rest m) cs out ->
    greedy m (c :: cs) (tx :: out).

Lemma serve_greedy cs t m : set_repr t m -> exists out, serve cs t = Ret out /\ greedy m cs out.
Proof.
  revert t m. induction cs as [|c cs IH]; intros t m Hr; simpl; [exists []; split; [done|constructor]|].
  pose proof (Peek_spec t m Hr) as Hp. destruct (Peek t) as [tx|] eqn:Hpk.
  2:{ subst m. exists []. split; [done|constructor]. }
  destruct Hp as (rest & Hd). assert (Hstep : exists t', (if c then Shift t else Pop t) = Ret t' /\ set_repr t' (served c (from_of tx) rest m)).
  { destruct c; [by apply Shift_repr, Hd|by apply Pop_repr]. }
  destruct Hstep as (t' & -> & Hr'). simpl. destruct (IH t' _ Hr') as (out & -> & Hg). simpl. eexists. split; [done|]. by econstructor.
Qed.

(** The number of transactions left. *)
Definition total (m : queues) : nat := map_fold (fun _ l n => (length l + n)%nat) 0%nat m.

Lemma total_delete m a l : m !! a = Some l -> total m = (length l + total (delete a m))%nat.
Proof. intros Hl. unfold total. apply (map_fold_delete_L (fun _ l n => (length l + n)%nat)); [intros; lia|done]. Qed.

Lemma total_served m a tx rest : m !! a = Some (tx :: rest) -> total m = S (total (served true a rest m)).
Proof.
  intros Hl. rewrite (total_delete m a _ Hl). unfold served. destruct rest as [|tx2 rest]; [simpl; lia|].
  rewrite (total_delete (<[a := tx2 :: rest]> m) a (tx2 :: rest)), delete_insert_eq by apply lookup_insert_eq. simpl. lia.
Qed.

(** If every account goes on until nothing is left, each keeps its order and nothing is
    lost. *)
Lemma greedy_complete m n out : queues_ok m -> (total m <= n)%nat -> greedy m (replicate n true) out ->
  forall a, filter (fun tx => from_of tx = a) out = default [] (m !! a).
Proof.
  revert m out. induction n as [|n IH]; intros m out Hok Hn Hg a; simpl in Hg.
  - assert (Hm : m !! a = None).
    { destruct (m !! a) as [l|] eqn:Hl; [|done]. rewrite (total_delete m a l Hl) in Hn. destruct (Hok a l Hl) as [Hne _].
      destruct l; simpl in Hn; [done|lia]. }
    inversion Hg; subst; by rewrite Hm.
  - inversion Hg as [|cs Hm|m' c cs tx rest out' Hd Hg']; subst; [by rewrite lookup_empty|].
    destruct Hd as [Hl _]. rewrite filter_cons.
    rewrite (IH _ out' (served_ok true _ tx rest m Hl Hok) ltac:(pose proof (total_served m _ tx rest Hl); lia) Hg' a).
    destruct (decide (from_of tx = a)) as [<-|Ha]; unfold served; destruct rest as [|tx2 rest].
    + by rewrite lookup_delete_eq, Hl.
    + by rewrite lookup_insert_eq, Hl.
    + by rewrite lookup_delete_ne by done.
    + by rewrite lookup_insert_ne by done.
Qed.

(** C27: the order in which transactions are packaged. For queues of accounts, each with its
    own transactions, the set is built without panic in any order of the map; whatever the
    packager then decides at each turn, to go on with the account or to give it up, it is
    offered the dearest transaction among the first ones left in the queues; and if it
    always goes on it gets every transaction, those of each account in their order. *)
Theorem packing_order m order : queues_ok m -> order ≡ₚ (map_to_list m).*1 ->
  exists t, NewTransactionsByPriceAndNonce order m = Ret t /\
    (forall cs, exists out, serve cs t = Ret out /\ greedy m cs out) /\
    (forall n, (total m <= n)%nat -> exists out, serve (replicate n true) t = Ret out /\
       forall a, filter (fun tx => from_of tx = a) out = default [] (m !! a)).
Proof.
  intros Hok Hord. destruct (New_repr order m Hok Hord) as (t & Hn & Hr). exists t. split; [done|]. split.
  - intros cs. by apply serve_greedy.
  - intros n Hle. destruct (serve_greedy (replicate n true) t m Hr) as (out & Hs & Hg). exists out. split; [done|].
    by apply (greedy_complete m n).
Qed.

(** Two accounts; the second pays more for its second transaction. *)
Module TwoAccounts.
Definition mk (from nonce price : Z) : Transaction :=
  MkTx None (MkTxdata PEmpty PEmpty nonce price 21000 (PTo 9) 1 [] 27 1 1) (1000 * from + nonce) 110 (Some from).
Definition txs : queues := {[ 1 := [mk 1 0 10; mk 1 1 5]; 2 := [mk 2 7 8; mk 2 8 30] ]}.
End TwoAccounts.

Lemma packing_order_witness : exists t, NewTransactionsByPriceAndNonce [2; 1] TwoAccounts.txs = Ret t /\
  serve (replicate 4 true) t = Ret [TwoAccounts.mk 1 0 10; TwoAccounts.mk 2 7 8; TwoAccounts.mk 2 8 30; TwoAccounts.mk 1 1 5].
Proof.
  destruct (packing_order TwoAccounts.txs [2; 1]) as (t & Ht & _ & _).
  - apply map_Forall_insert_2; [split; [done|by repeat constructor]|].
    apply map_Forall_singleton. split; [done|by repeat constructor].
  - by vm_compute.
  - exists t. split; [exact Ht|]. vm_compute in Ht. injection Ht as <-. by vm_compute.
Defined.

End TxOrderProps.
