(* ===== verification/ManagedState.v ===== *)
(** Virtual nonces of accounts on top of a state ([core/state/managed_state.go]), as the
    transaction pool keeps them. *)

From S2P Require Import Prelude Params Bytes.

Module ManagedState.

(** The nonce a tracked account started from and the slots handed out since. *)
Record account := MkAccount { nstart : Z; nonces : list bool }.

(** The nonces of the copied state, and the tracked accounts. *)
Record ManagedState := MkManaged { ms_nonce : Address -> Z; accounts : gmap Address account }.

Definition ManageState (nonce : Address -> Z) : ManagedState := MkManaged nonce ∅.
Definition SetState (nonce : Address -> Z) (ms : ManagedState) : ManagedState := MkManaged nonce (accounts ms).

Definition newAccount (nonce : Z) : account := MkAccount nonce [].
Definition next_nonce (a : account) : Z := (len (nonces a) +64 nstart a)%go.

Definition hasAccount (addr : Address) (ms : ManagedState) : bool := bool_decide (is_Some (accounts ms !! addr)).

(** The tracked account, started anew if the state has gone beyond it. *)
Definition getAccount (addr : Address) (ms : ManagedState) : ManagedState * account :=
  let fresh := newAccount (ms_nonce ms addr) in
  let track := (MkManaged (ms_nonce ms) (<[addr := fresh]> (accounts ms)), fresh) in
  match accounts ms !! addr with
  | None => track
  | Some a => if next_nonce a <? ms_nonce ms addr then track else (ms, a)
  end.

Definition set_nonces (addr : Address) (a : account) (l : list bool) (ms : ManagedState) : ManagedState :=
  MkManaged (ms_nonce ms) (<[addr := MkAccount (nstart a) l]> (accounts ms)).

Definition RemoveNonce (addr : Address) (n : Z) (ms : ManagedState) : ManagedState :=
  if hasAccount addr ms then
    let '(ms, a) := getAccount addr ms in
    let k := (n -64 nstart a)%go in
    if k <=? len (nonces a) then set_nonces addr a (take (Z.to_nat k) (nonces a)) ms else ms
  else ms.

Fixpoint first_free (i : Z) (l : list bool) : option Z :=
  match l with
  | [] => None
  | b :: l => if b then first_free (i + 1) l else Some i
  end.

Definition NewNonce (addr : Address) (ms : ManagedState) : ManagedState * Z :=
  let '(ms, a) := getAccount addr ms in
  match first_free 0 (nonces a) with
  | Some i => (ms, (nstart a +64 i)%go)
  | None =>
      let l := nonces a ++ [true] in
      (set_nonces addr a l ms, ((len l - 1) +64 nstart a)%go)
  end.

Definition GetNonce (addr : Address) (ms : ManagedState) : ManagedState * Z :=
  if hasAccount addr ms then let '(ms, a) := getAccount addr ms in (ms, next_nonce a)
  else (ms, ms_nonce ms addr).

Definition SetNonce (addr : Address) (nonce : Z) (ms : ManagedState) : ManagedState :=
  MkManaged (fun a => if decide (a = addr) then nonce else ms_nonce ms a) (<[addr := newAccount nonce]> (accounts ms)).

(** ** Laws *)

(** What [GetNonce] answers. *)
Definition peek (addr : Address) (ms : ManagedState) : Z := snd (GetNonce addr ms).

(** Every tracked nonce fits its type. *)
Definition managed_ok (ms : ManagedState) : Prop :=
  (forall a, is_u64 (ms_nonce ms a)) /\ map_Forall (fun _ a => is_u64 (nstart a)) (accounts ms).

Lemma getAccount_peek addr ms : is_u64 (ms_nonce ms addr) -> peek addr (fst (getAccount addr ms)) = next_nonce (snd (getAccount addr ms)).
Proof.
  intros Hu. unfold getAccount, peek, GetNonce, hasAccount. destruct (accounts ms !! addr) as [a|] eqn:E; simpl.
  - destruct (next_nonce a <? _) eqn:El; simpl.
    + rewrite lookup_insert_eq, bool_decide_true by done. unfold getAccount. simpl. rewrite lookup_insert_eq.
      destruct (next_nonce (newAccount _) <? _); reflexivity.
    + rewrite E, bool_decide_true by done. unfold getAccount. by rewrite E, El.
  - rewrite lookup_insert_eq, bool_decide_true by done. unfold getAccount. simpl. rewrite lookup_insert_eq. destruct (next_nonce (newAccount _) <? _); reflexivity.
Qed.

Lemma peek_set addr nonce ms : is_u64 nonce -> peek addr (SetNonce addr nonce ms) = nonce.
Proof.
  intros Hu. unfold peek, GetNonce, hasAccount. simpl. rewrite lookup_insert_eq, bool_decide_true by done.
  unfold getAccount. simpl. rewrite lookup_insert_eq, decide_True by done. unfold next_nonce. simpl.
  rewrite len_nil, Z.add_0_l, u64_id, Z.ltb_irrefl by done. cbn. by rewrite len_nil, Z.add_0_l, u64_id.
Qed.

Lemma getAccount_other addr b ms : b <> addr -> accounts (fst (getAccount addr ms)) !! b = accounts ms !! b /\
  ms_nonce (fst (getAccount addr ms)) = ms_nonce ms.
Proof.
  intros Hb. unfold getAccount. destruct (accounts ms !! addr) as [a|]; [destruct (_ <? _)|]; simpl;
    by rewrite ?lookup_insert_ne by done.
Qed.

Lemma peek_other addr b ms ms' : b <> addr -> accounts ms' !! b = accounts ms !! b -> ms_nonce ms' b = ms_nonce ms b ->
  peek b ms' = peek b ms.
Proof.
  intros Hb Ha Hn. unfold peek, GetNonce, hasAccount, getAccount. rewrite Ha, Hn. destruct (accounts ms !! b) as [a|]; simpl; [|done].
  by destruct (next_nonce a <? _).
Qed.

Lemma peek_set_other addr b nonce ms : b <> addr -> peek b (SetNonce addr nonce ms) = peek b ms.
Proof.
  intros Hb. apply (peek_other addr); [done| |]; simpl; [by rewrite lookup_insert_ne|by rewrite decide_False].
Qed.

(** Asking for a nonce does not change any. *)
Lemma peek_get addr b ms : is_u64 (ms_nonce ms addr) -> peek b (fst (GetNonce addr ms)) = peek b ms.
Proof.
  intros Hu. unfold GetNonce. destruct (hasAccount addr ms) eqn:Eh; [|done].
  assert (Hg : peek addr ms = next_nonce (snd (getAccount addr ms))).
  { unfold peek, GetNonce. rewrite Eh. by destruct (getAccount addr ms). }
  pose proof (getAccount_peek addr ms Hu) as Hp. pose proof (getAccount_other addr b ms) as Ho.
  destruct (getAccount addr ms) as [ms' a]. simpl in *. destruct (decide (b = addr)) as [->|Hb]; [congruence|].
  destruct (Ho Hb) as [H1 H2]. apply (peek_other addr); [done|done|by rewrite H2].
Qed.

Lemma managed_ok_get addr ms : managed_ok ms -> managed_ok (fst (GetNonce addr ms)).
Proof.
  intros [H1 H2]. unfold GetNonce. destruct (hasAccount addr ms); [|done]. unfold getAccount.
  destruct (accounts ms !! addr) as [a|]; [destruct (_ <? _)|]; simpl; (split; [done|]); try done;
    (apply map_Forall_insert_2; [apply H1|done]).
Qed.

Lemma managed_ok_set addr n ms : is_u64 n -> managed_ok ms -> managed_ok (SetNonce addr n ms).
Proof.
  intros Hn [H1 H2]. split; simpl.
  - intros a. destruct (decide (a = addr)); [done|apply H1].
  - by apply map_Forall_insert_2.
Qed.

End ManagedState.
