(* ===== verification/TxPool.v ===== *)
(** The transaction pool ([core/tx_pool.go]): executable and queued transactions of every
    account, the map of all of them and the heap by price, and the operations that add,
    promote, demote and drop them. *)

From S2P Require Import Prelude Params Bytes Heap TxTypes TxList TxPriced ManagedState Evm StateTransition.
Import TxTypes.

Module TxPool.

(** ** State *)

Record TxPoolConfig := MkConfig {
  NoLocals : bool; Rejournal : Z; PriceLimit : Z; PriceBump : Z;
  AccountSlots : Z; GlobalSlots : Z; AccountQueue : Z; GlobalQueue : Z; Lifetime : Z
}.

(** Nanoseconds. *)
Definition second : Z := 1000000000.
Definition DefaultTxPoolConfig : TxPoolConfig := MkConfig false (3600 * second) 1 10 128 4096 64 1024 (3 * 3600 * second).

Definition sanitize (c : TxPoolConfig) : TxPoolConfig :=
  MkConfig (NoLocals c) (if Rejournal c <? second then second else Rejournal c)
    (if PriceLimit c <? 1 then PriceLimit DefaultTxPoolConfig else PriceLimit c)
    (if PriceBump c <? 1 then PriceBump DefaultTxPoolConfig else PriceBump c)
    (AccountSlots c) (GlobalSlots c) (AccountQueue c) (GlobalQueue c) (Lifetime c).

(** What the pool reads of a state. *)
Record ChainState := MkChainState { cs_nonce : Address -> Z; cs_balance : Address -> Z }.

(** The journal file of local transactions holds those inserted, if it is open; the feed
    those sent to the subscribers. *)
Record TxPool := MkPool {
  config : TxPoolConfig;
  gasPrice : Z;
  currentState : ChainState;
  pendingState : ManagedState.ManagedState;
  currentMaxGas : Z;
  locals : gset Address;
  journal : option (list Transaction);
  dappPending : gmap Address TxList.txList;
  pending : gmap Address TxList.txList;
  queue : gmap Address TxList.txList;
  beats : gmap Address Z;
  all : gmap Hash Transaction;
  priced : TxPriced.txPricedList;
  txFeed : list Transaction
}.

Definition set_gasPrice x p := MkPool (config p) x (currentState p) (pendingState p) (currentMaxGas p) (locals p) (journal p)
  (dappPending p) (pending p) (queue p) (beats p) (all p) (priced p) (txFeed p).
Definition set_chain cs ms gas p := MkPool (config p) (gasPrice p) cs ms gas (locals p) (journal p)
  (dappPending p) (pending p) (queue p) (beats p) (all p) (priced p) (txFeed p).
Definition set_pendingState x p := MkPool (config p) (gasPrice p) (currentState p) x (currentMaxGas p) (locals p) (journal p)
  (dappPending p) (pending p) (queue p) (beats p) (all p) (priced p) (txFeed p).
Definition set_locals x p := MkPool (config p) (gasPrice p) (currentState p) (pendingState p) (currentMaxGas p) x (journal p)
  (dappPending p) (pending p) (queue p) (beats p) (all p) (priced p) (txFeed p).
Definition set_journal x p := MkPool (config p) (gasPrice p) (currentState p) (pendingState p) (currentMaxGas p) (locals p) x
  (dappPending p) (pending p) (queue p) (beats p) (all p) (priced p) (txFeed p).
Definition set_dappPending x p := MkPool (config p) (gasPrice p) (currentState p) (pendingState p) (currentMaxGas p) (locals p) (journal p)
  x (pending p) (queue p) (beats p) (all p) (priced p) (txFeed p).
Definition set_pending x p := MkPool (config p) (gasPrice p) (currentState p) (pendingState p) (currentMaxGas p) (locals p) (journal p)
  (dappPending p) x (queue p) (beats p) (all p) (priced p) (txFeed p).
Definition set_queue x p := MkPool (config p) (gasPrice p) (currentState p) (pendingState p) (currentMaxGas p) (locals p) (journal p)
  (dappPending p) (pending p) x (beats p) (all p) (priced p) (txFeed p).
Definition set_beats x p := MkPool (config p) (gasPrice p) (currentState p) (pendingState p) (currentMaxGas p) (locals p) (journal p)
  (dappPending p) (pending p) (queue p) x (all p) (priced p) (txFeed p).
Definition set_all a pr p := MkPool (config p) (gasPrice p) (currentState p) (pendingState p) (currentMaxGas p) (locals p) (journal p)
  (dappPending p) (pending p) (queue p) (beats p) a pr (txFeed p).
Definition set_txFeed x p := MkPool (config p) (gasPrice p) (currentState p) (pendingState p) (currentMaxGas p) (locals p) (journal p)
  (dappPending p) (pending p) (queue p) (beats p) (all p) (priced p) x.

(** ** Errors *)

Inductive PoolError :=
| ErrKnownTransaction | ErrOversizedData | ErrUnknownDApp | ErrDiskSpace | ErrNegativeValue | ErrGasLimit | ErrInvalidSender
| ErrUnderpriced | ErrNonceTooLow | ErrInsufficientFunds | ErrIntrinsic (e : Evm.VmError) | ErrIntrinsicGas | ErrReplaceUnderpriced.

(** [DAppAddress.Has], [DAppAddress.HasDiskSpace] (config/config.go) *)
Definition Has (dappAddr : ptr) : bool := true.
Definition HasDiskSpace (dappAddr : ptr) : bool := true.

(** ** Orders

    The order in which Go's loops meet the entries of a map, in which the priority queue of
    offenders yields them, and in which the unstable sort leaves the heartbeats. *)

Class Orders := {
  ord_txs : gmap Z Transaction -> list (Z * Transaction);
  ord_txs' : gmap Z Transaction -> list (Z * Transaction);
  ord_all : gmap Hash Transaction -> list (Hash * Transaction);
  ord_lists : gmap Address TxList.txList -> list (Address * TxList.txList);
  ord_set : gset Address -> list Address;
  prque_order : list (Address * Z) -> list Address;
  sort_beats : list (Address * Z) -> list (Address * Z)
}.

Section Pool.
Context {ords : Orders}.

Abbreviation PM := (SM TxPool).

(** ** Small steps *)

Definition delete_tx (hash : Hash) : PM unit :=
  modify (fun p => set_all (delete hash (all p)) (priced p) p).
(** [pool.priced.Removed()] *)
Definition priced_removed : PM unit :=
  modify (fun p => set_all (all p) (TxPriced.Removed ord_all (all p) (priced p)) p).
(** [delete(pool.all, hash); pool.priced.Removed()] *)
Definition forget (hash : Hash) : PM unit := _ ← delete_tx hash; priced_removed.
(** [pool.all[hash] = tx; pool.priced.Put(tx)] *)
Definition remember (hash : Hash) (tx : Transaction) : PM unit :=
  modify (fun p => set_all (<[hash := tx]> (all p)) (TxPriced.Put tx (priced p)) p).
Definition remember_new (hash : Hash) (tx : Transaction) : PM unit :=
  a ← gets all;
  match a !! hash with None => remember hash tx | Some _ => mret tt end.
Definition forget_old (old : option Transaction) : PM unit :=
  match old with Some o => forget (TxHash o) | None => mret tt end.
Definition send (tx : Transaction) : PM unit := modify (fun p => set_txFeed (txFeed p ++ [tx]) p).

Definition put_pending (addr : Address) (L : TxList.txList) : PM unit :=
  modify (fun p => set_pending (<[addr := L]> (pending p)) p).
Definition put_queue (addr : Address) (L : TxList.txList) : PM unit :=
  modify (fun p => set_queue (<[addr := L]> (queue p)) p).

(** A list that has become empty leaves its map, a pending one with its heartbeat. *)
Definition drop_pending (addr : Address) (L : TxList.txList) : PM unit :=
  if (TxList.Len (TxList.txs L) =? 0)%nat
  then modify (fun p => set_beats (delete addr (beats p)) (set_pending (delete addr (pending p)) p)) else mret tt.
Definition drop_queue (addr : Address) (L : TxList.txList) : PM unit :=
  if (TxList.Len (TxList.txs L) =? 0)%nat then modify (fun p => set_queue (delete addr (queue p)) p) else mret tt.

Definition getNonce (addr : Address) : PM Z := fun p =>
  let '(ms, n) := ManagedState.GetNonce addr (pendingState p) in Ret (set_pendingState ms p, n).
Definition setNonce (addr : Address) (nonce : Z) : PM unit :=
  modify (fun p => set_pendingState (ManagedState.SetNonce addr nonce (pendingState p)) p).
(** [if pool.pendingState.GetNonce(addr) > nonce { pool.pendingState.SetNonce(addr, nonce) }] *)
Definition lower_nonce (addr : Address) (nonce : Z) : PM unit :=
  n ← getNonce addr;
  if nonce <? n then setNonce addr nonce else mret tt.

Definition journalTx (from : Address) (tx : Transaction) : PM unit :=
  modify (fun p =>
    match journal p with
    | None => p
    | Some j => if decide (from ∈ locals p) then set_journal (Some (j ++ [tx])) p else p
    end).

(** ** validateTx *)

Definition validateTx (p : TxPool) (tx : Transaction) (local : bool) : option PoolError :=
  if 32 * 1024 <? TxSize tx then Some ErrOversizedData else
  let dapp_error :=
    match dappTx tx with
    | None => None
    | Some d =>
        if negb (Has (DAppId (data d))) then Some ErrUnknownDApp else
        if negb (HasDiskSpace (DAppId (data d))) then Some ErrDiskSpace else None
    end in
  match dapp_error with
  | Some e => Some e
  | None =>
      if Value tx <? 0 then Some ErrNegativeValue else
      if currentMaxGas p <? Gas tx then Some ErrGasLimit else
      match TxSender tx with
      | None => Some ErrInvalidSender
      | Some from =>
          let local := local || bool_decide (from ∈ locals p) in
          if negb local && (GasPrice tx <? gasPrice p) then Some ErrUnderpriced else
          if Nonce tx <? cs_nonce (currentState p) from then Some ErrNonceTooLow else
          if cs_balance (currentState p) from <? Cost tx then Some ErrInsufficientFunds else
          match Transition.IntrinsicGas (Payload (data tx)) (bool_decide (To tx = None)) with
          | inl e => Some (ErrIntrinsic e)
          | inr intrGas => if Gas tx <? intrGas then Some ErrIntrinsicGas else None
          end
      end
  end.

(** ** enqueueTx, promoteTx *)

Definition enqueueTx (hash : Hash) (tx : Transaction) : PM (PoolError + bool) :=
  let from := from_of tx in
  q ← gets queue;
  bump ← gets (fun p => PriceBump (config p));
  let '(L, inserted, old) := TxList.Add tx bump (default (TxList.newTxList false) (q !! from)) in
  _ ← put_queue from L;
  if negb inserted then mret (inl ErrReplaceUnderpriced) else
  _ ← forget_old old;
  _ ← remember_new hash tx;
  mret (inr (bool_decide (is_Some old))).

(** The lists of the DApps, by the nonces of transactions from any account. *)
Definition add_dapp (dappId : Address) (tx : Transaction) : PM unit :=
  d ← gets dappPending;
  bump ← gets (fun p => PriceBump (config p));
  match d !! dappId with
  | None => modify (set_dappPending (<[dappId := fst (fst (TxList.Add tx bump (TxList.newTxList true)))]> d))
  | Some L =>
      if TxList.Overlaps L tx then mret tt
      else modify (set_dappPending (<[dappId := fst (fst (TxList.Add tx bump L))]> d))
  end.

Definition promote_dapp (tx : Transaction) : PM unit :=
  _ ← match dappTx tx with
      | None => mret tt
      | Some d => dappId ← lift (ptr_value (DAppId (data d))); add_dapp dappId d
      end;
  if decide (DAppId (data tx) <> PEmpty /\ RefHashId (data tx) <> PEmpty)
  then dappId ← lift (ptr_value (DAppId (data tx))); add_dapp dappId tx
  else mret tt.

Definition promoteTx (now : Z) (addr : Address) (hash : Hash) (tx : Transaction) : PM unit :=
  pd ← gets pending;
  bump ← gets (fun p => PriceBump (config p));
  let '(L, inserted, old) := TxList.Add tx bump (default (TxList.newTxList true) (pd !! addr)) in
  _ ← put_pending addr L;
  if negb inserted then forget hash else
  _ ← forget_old old;
  _ ← remember_new hash tx;
  _ ← modify (fun p => set_beats (<[addr := now]> (beats p)) p);
  _ ← setNonce addr (u64 (Nonce tx + 1));
  _ ← promote_dapp tx;
  send tx.

(** ** removeTx *)

Definition requeue_all (txs : list Transaction) : PM unit :=
  for_each txs (fun tx => _ ← enqueueTx (TxHash tx) tx; mret tt).


(** The part of [removeTx] on the queue. *)
Definition remove_queued (addr : Address) (tx : Transaction) : PM unit :=
  q ← gets queue;
  match q !! addr with
  | None => mret tt
  | Some future =>
      '(future, _, _) ← lift (TxList.RemoveList ord_txs ord_txs' tx future);
      _ ← put_queue addr future;
      drop_queue addr future
  end.

Definition removeTx (hash : Hash) (outofbound : bool) : PM unit :=
  a ← gets all;
  match a !! hash with
  | None => mret tt
  | Some tx =>
      let addr := from_of tx in
      _ ← delete_tx hash;
      _ ← (if outofbound then priced_removed else mret tt);
      pd ← gets pending;
      match pd !! addr with
      | None => remove_queued addr tx
      | Some list =>
          '(list, removed, invalids) ← lift (TxList.RemoveList ord_txs ord_txs' tx list);
          _ ← put_pending addr list;
          if negb removed then remove_queued addr tx else
          _ ← drop_pending addr list;
          _ ← requeue_all invalids;
          lower_nonce addr (Nonce tx)
      end
  end.

(** ** add *)

(** [uint64(len(pool.all)) >= pool.config.GlobalSlots + pool.config.GlobalQueue] *)
Definition capacity (c : TxPoolConfig) : Z := (GlobalSlots c +64 GlobalQueue c)%go.

Definition underpriced (tx : Transaction) (local : bool) : PM bool :=
  if local then mret false else
  p ← gets (fun p => p);
  '(pr, b) ← lift (TxPriced.Underpriced tx (locals p) (all p) (priced p));
  _ ← modify (set_all (all p) pr);
  mret b.

(** Room is made for a new transaction, or it is refused. *)
Definition make_room (tx : Transaction) (local : bool) : PM bool :=
  p ← gets (fun p => p);
  let c := config p in
  if Z.of_nat (size (all p)) <? capacity c then mret true else
  under ← underpriced tx local;
  if (under : bool) then mret false else
  pr ← gets priced;
  '(pr, drop) ← lift (TxPriced.Discard (Z.of_nat (size (all p)) - i64 (u64 (capacity c - 1))) (locals p) (all p) pr);
  _ ← modify (set_all (all p) pr);
  _ ← for_each drop (fun tx => removeTx (TxHash tx) false);
  mret true.

Definition add (tx : Transaction) (local : bool) : PM (PoolError + bool) :=
  let hash := TxHash tx in
  p ← gets (fun p => p);
  if decide (is_Some (all p !! hash)) then mret (inl ErrKnownTransaction) else
  match validateTx p tx local with
  | Some e => mret (inl e)
  | None =>
      room ← make_room tx local;
      if negb room then mret (inl ErrUnderpriced) else
      let from := from_of tx in
      pd ← gets pending;
      let direct := match pd !! from with
                    | Some list => if TxList.Overlaps list tx then Some list else None
                    | None => None
                    end in
      match direct with
      | Some list =>
          let '(list, inserted, old) := TxList.Add tx (PriceBump (config p)) list in
          if negb inserted then mret (inl ErrReplaceUnderpriced) else
          _ ← put_pending from list;
          _ ← forget_old old;
          _ ← remember hash tx;
          _ ← journalTx from tx;
          _ ← send tx;
          mret (inr (bool_decide (is_Some old)))
      | None =>
          r ← enqueueTx hash tx;
          match r with
          | inl e => mret (inl e)
          | inr replace =>
              _ ← (if local then modify (fun p => set_locals ({[from]} ∪ locals p) p) else mret tt);
              _ ← journalTx from tx;
              mret (inr replace)
          end
      end
  end.

(** ** promoteExecutables *)

Definition forget_all (txs : list Transaction) : PM unit := for_each txs (fun tx => forget (TxHash tx)).

(** [Cap] with a limit of type [int]: below zero the loop runs off the slice. *)
Definition cap_int (limit : Z) (m : TxList.txSortedMap) : outcome (TxList.txSortedMap * list Transaction) :=
  if limit <? 0 then Panic else TxList.Cap (Z.to_nat limit) m.

(** [if !pool.locals.contains(addr)]: the list is cut to the limit of queued transactions. *)
Definition cap_queue (addr : Address) (list : TxList.txList) : PM TxList.txSortedMap :=
  p ← gets (fun p => p);
  if decide (addr ∈ locals p) then mret (TxList.txs list) else
  '(m, over) ← lift (cap_int (i64 (AccountQueue (config p))) (TxList.txs list));
  _ ← put_queue addr (TxList.with_txs list m);
  _ ← forget_all over;
  mret m.

(** The loop body for one account. *)
Definition promote_account (now : Z) (addr : Address) : PM unit :=
  q ← gets queue;
  match q !! addr with
  | None => mret tt
  | Some list =>
      cs ← gets currentState;
      gas ← gets currentMaxGas;
      '(m, old) ← lift (TxList.Forward (cs_nonce cs addr) (TxList.txs list));
      _ ← put_queue addr (TxList.with_txs list m);
      _ ← forget_all old;
      let '(list, drops, _) := TxList.FilterList ord_txs ord_txs' (cs_balance cs addr) gas (TxList.with_txs list m) in
      _ ← put_queue addr list;
      _ ← forget_all drops;
      next ← getNonce addr;
      '(m, ready) ← lift (TxList.Ready next (TxList.txs list));
      _ ← put_queue addr (TxList.with_txs list m);
      _ ← for_each ready (fun tx => promoteTx now addr (TxHash tx) tx);
      m ← cap_queue addr (TxList.with_txs list m);
      drop_queue addr (TxList.with_txs list m)
  end.

Definition total_len (m : gmap Address TxList.txList) : Z :=
  map_fold (fun _ L n => (n +64 Z.of_nat (TxList.Len (TxList.txs L)))%go) 0 m.

Definition list_len (addr : Address) : PM Z :=
  pd ← gets pending;
  L ← lift (deref (pd !! addr));
  mret (Z.of_nat (TxList.Len (TxList.txs L))).

(** [list.Cap(list.Len() - 1)] and what is done with the transaction it drops. *)
Definition drop_last (addr : Address) : PM unit :=
  pd ← gets pending;
  L ← lift (deref (pd !! addr));
  '(m, drops) ← lift (cap_int (Z.of_nat (TxList.Len (TxList.txs L)) - 1) (TxList.txs L));
  _ ← put_pending addr (TxList.with_txs L m);
  for_each drops (fun tx => _ ← forget (TxHash tx); lower_nonce addr (Nonce tx)).

(** One turn over the offenders, counting down. *)
Fixpoint drop_round (offenders : list Address) (pending : Z) : PM Z :=
  match offenders with
  | [] => mret pending
  | addr :: offenders => _ ← drop_last addr; drop_round offenders (pending -64 1)%go
  end.

(** Turns while the last of [offenders] is longer than [threshold]; its length bounds them. *)
Fixpoint drop_while (fuel : nat) (last : Address) (threshold : Z) (offenders : list Address) (pending : Z) : PM Z :=
  c ← gets config;
  if pending <=? GlobalSlots c then mret pending else
  n ← list_len last;
  if n <=? threshold then mret pending else
  match fuel with
  | O => mret pending
  | S fuel => pending ← drop_round offenders pending; drop_while fuel last threshold offenders pending
  end.

(** Offender after offender, all before it are cut to its length. *)
Fixpoint equalize (spammers offenders : list Address) (pending : Z) : PM (list Address * Z) :=
  c ← gets config;
  match spammers with
  | [] => mret (offenders, pending)
  | offender :: spammers =>
      if pending <=? GlobalSlots c then mret (offenders, pending) else
      pending ← match last offenders with
                | None => mret pending
                | Some prev =>
                    threshold ← list_len offender;
                    n ← list_len prev;
                    drop_while (Z.to_nat n) prev threshold offenders pending
                end;
      equalize spammers (offenders ++ [offender]) pending
  end.

Definition limit_pending : PM unit :=
  p ← gets (fun p => p);
  let c := config p in
  let pend := total_len (pending p) in
  if pend <=? GlobalSlots c then mret tt else
  let spam := filter (fun x => x.1 ∉ locals p /\ AccountSlots c < x.2)
                ((fun x => (x.1, Z.of_nat (TxList.Len (TxList.txs x.2)))) <$> ord_lists (pending p)) in
  '(offenders, pend) ← (equalize (prque_order spam) [] pend : PM (list Address * Z));
  if pend <=? GlobalSlots c then mret tt else
  match last offenders with
  | None => mret tt
  | Some l => n ← list_len l; _ ← drop_while (Z.to_nat n) l (AccountSlots c) offenders pend; mret tt
  end.

(** Drop up to [drop] of the transactions, which are met from the end. *)
Fixpoint drop_txs (txs : list Transaction) (drop : Z) : PM Z :=
  match txs with
  | [] => mret drop
  | tx :: txs => if 0 <? drop then _ ← removeTx (TxHash tx) true; drop_txs txs (drop - 1) else mret drop
  end.

Fixpoint drop_queued (addresses : list Address) (drop : Z) : PM unit :=
  match addresses with
  | [] => mret tt
  | addr :: addresses =>
      if 0 <? drop then
        q ← gets queue;
        L ← lift (deref (q !! addr));
        let size := Z.of_nat (TxList.Len (TxList.txs L)) in
        let '(m, txs) := TxList.Flatten ord_txs (TxList.txs L) in
        _ ← put_queue addr (TxList.with_txs L m);
        if size <=? drop
        then _ ← for_each txs (fun tx => removeTx (TxHash tx) true); drop_queued addresses (drop - size)
        else drop ← drop_txs (reverse txs) drop; drop_queued addresses drop
      else mret tt
  end.

Definition limit_queue : PM unit :=
  p ← gets (fun p => p);
  let c := config p in
  let queued := total_len (queue p) in
  if queued <=? GlobalQueue c then mret tt else
  let addresses := (fun x => (x.1, default 0 (beats p !! x.1))) <$> filter (fun x => x.1 ∉ locals p) (ord_lists (queue p)) in
  drop_queued (reverse (sort_beats addresses).*1) (queued - GlobalQueue c).

Definition promoteExecutables (now : Z) (accounts : option (list Address)) : PM unit :=
  q ← gets queue;
  _ ← for_each (default (ord_lists q).*1 accounts) (promote_account now);
  _ ← limit_pending;
  limit_queue.

(** ** Batches *)

Definition addTx (now : Z) (tx : Transaction) (local : bool) : PM (option PoolError) :=
  r ← add tx local;
  match r with
  | inl e => mret (Some e)
  | inr replace =>
      _ ← (if (replace : bool) then mret tt else promoteExecutables now (Some [from_of tx]));
      mret None
  end.

Fixpoint add_batch (txs : list Transaction) (local : bool) (dirty : gset Address) : PM (gset Address * list (option PoolError)) :=
  match txs with
  | [] => mret (dirty, [])
  | tx :: txs =>
      r ← add tx local;
      let '(dirty, e) := match r with
                         | inl e => (dirty, Some e)
                         | inr replace => (if (replace : bool) then dirty else {[from_of tx]} ∪ dirty, None)
                         end in
      '(dirty, errs) ← add_batch txs local dirty;
      mret (dirty, e :: errs)
  end.

Definition addTxsLocked (now : Z) (txs : list Transaction) (local : bool) : PM (list (option PoolError)) :=
  '(dirty, errs) ← add_batch txs local ∅;
  _ ← (if decide (dirty = ∅) then mret tt else promoteExecutables now (Some (ord_set dirty)));
  mret errs.

Definition AddLocal (now : Z) (tx : Transaction) : PM (option PoolError) :=
  c ← gets config; addTx now tx (negb (NoLocals c)).
Definition AddRemote (now : Z) (tx : Transaction) : PM (option PoolError) := addTx now tx false.
Definition AddLocals (now : Z) (txs : list Transaction) : PM (list (option PoolError)) :=
  c ← gets config; addTxsLocked now txs (negb (NoLocals c)).
Definition AddRemotes (now : Z) (txs : list Transaction) : PM (list (option PoolError)) := addTxsLocked now txs false.

(** ** Prices, eviction *)

Definition SetGasPrice (price : Z) : PM unit :=
  _ ← modify (set_gasPrice price);
  p ← gets (fun p => p);
  '(pr, drop) ← lift (TxPriced.Cap price (locals p) (all p) (priced p));
  _ ← modify (set_all (all p) pr);
  for_each drop (fun tx => removeTx (TxHash tx) false).

(** The eviction ticker of [loop]. Times are nanoseconds since the zero time, which stands
    for a missing heartbeat; [time.Since] saturates. A queue that is gone when its turn comes is not met. *)
Definition evict (now : Z) : PM unit :=
  q ← gets queue;
  for_each (ord_lists q).*1 (fun addr =>
    p ← gets (fun p => p);
    if decide (addr ∈ locals p) then mret tt else
    if Lifetime (config p) <? Z.min MaxInt64 (now - default 0 (beats p !! addr)) then
      match queue p !! addr with
      | None => mret tt
      | Some L =>
          let '(m, txs) := TxList.Flatten ord_txs (TxList.txs L) in
          _ ← put_queue addr (TxList.with_txs L m);
          for_each txs (fun tx => removeTx (TxHash tx) true)
      end
    else mret tt).

(** ** demoteUnexecutables *)

(** A gap in front: everything is postponed. *)
Definition close_gap (addr : Address) (nonce : Z) (list : TxList.txList) : PM TxList.txSortedMap :=
  if (0 <? TxList.Len (TxList.txs list))%nat && bool_decide (TxList.Get (TxList.txs list) nonce = None) then
    '(m, gapped) ← lift (TxList.Cap 0 (TxList.txs list));
    _ ← put_pending addr (TxList.with_txs list m);
    _ ← requeue_all gapped;
    mret m
  else mret (TxList.txs list).

Definition demote_account (addr : Address) : PM unit :=
  pd ← gets pending;
  match pd !! addr with
  | None => mret tt
  | Some list =>
      cs ← gets currentState;
      gas ← gets currentMaxGas;
      let nonce := cs_nonce cs addr in
      '(m, old) ← lift (TxList.Forward nonce (TxList.txs list));
      _ ← put_pending addr (TxList.with_txs list m);
      _ ← forget_all old;
      let '(list, drops, invalids) := TxList.FilterList ord_txs ord_txs' (cs_balance cs addr) gas (TxList.with_txs list m) in
      _ ← put_pending addr list;
      _ ← forget_all drops;
      _ ← requeue_all invalids;
      m ← close_gap addr nonce list;
      drop_pending addr (TxList.with_txs list m)
  end.

Definition demoteUnexecutables : PM unit :=
  pd ← gets pending;
  for_each (ord_lists pd).*1 demote_account.

(** ** Queries *)

(** The pending transactions of every account by nonce, whose order is cached. *)
Definition Pending : PM (gmap Address (list Transaction)) :=
  pd ← gets pending;
  _ ← modify (set_pending ((fun L => TxList.with_txs L (fst (TxList.Flatten ord_txs (TxList.txs L)))) <$> pd));
  mret ((fun L => snd (TxList.Flatten ord_txs (TxList.txs L))) <$> pd).

Inductive TxStatus := TxStatusUnknown | TxStatusQueued | TxStatusPending.

Definition Status (p : TxPool) (hash : Hash) : TxStatus :=
  match all p !! hash with
  | None => TxStatusUnknown
  | Some tx =>
      match L ← pending p !! from_of tx; TxList.Get (TxList.txs L) (Nonce tx) with
      | Some _ => TxStatusPending
      | None => TxStatusQueued
      end
  end.

(** ** reset *)

(** A block, or its header. *)
Record Block := MkBlock {
  b_hash : Hash; b_parent : Hash; b_number : Z; b_root : Hash; b_gasLimit : Z; b_txs : list Transaction
}.

(** What the pool asks of the chain, and the DApps that have a chain of their own. *)
Class Chain := {
  GetBlock : Hash -> Z -> option Block;
  CurrentBlock : option Block;
  StateAt : Hash -> option ChainState;
  has_dappchain : Address -> bool
}.

Context {chain : Chain}.

Definition parent_of (b : Block) : option Block := GetBlock (b_parent b) (u64 (b_number b - 1)).

(** Down to block number [target], with the transactions of the blocks left behind; [None]
    if a block is missing. The difference of the numbers bounds the turns. *)
Fixpoint descend (fuel : nat) (b : Block) (target : Z) (acc : list Transaction) : option (Block * list Transaction) :=
  if b_number b <=? target then Some (b, acc) else
  match fuel with
  | O => None
  | S fuel => b' ← parent_of b; descend fuel b' target (acc ++ b_txs b)
  end.

(** Both down to the common ancestor; the number of the blocks bounds the turns. *)
Fixpoint join (fuel : nat) (rem add : Block) (discarded included : list Transaction) : option (list Transaction * list Transaction) :=
  if b_hash rem =? b_hash add then Some (discarded, included) else
  match fuel with
  | O => None
  | S fuel =>
      rem' ← parent_of rem; add' ← parent_of add;
      join fuel rem' add' (discarded ++ b_txs rem) (included ++ b_txs add)
  end.

(** The depth goes through [float64], which is exact for block numbers below 2^53. *)
Definition reorg (oldHead newHead : Block) : outcome (option (list Transaction)) :=
  if 64 <? Z.abs (b_number oldHead - b_number newHead) then Ret (Some []) else
  rem ← deref (GetBlock (b_hash oldHead) (b_number oldHead));
  add ← deref (GetBlock (b_hash newHead) (b_number newHead));
  Ret ('(rem, discarded) ← descend (Z.to_nat (b_number rem - b_number add)) rem (b_number add) [];
       '(add, included) ← descend (Z.to_nat (b_number add - b_number rem)) add (b_number rem) [];
       '(discarded, included) ← join (S (Z.to_nat (b_number rem))) rem add discarded included;
       Some (TxDifference discarded included)).

Definition reinjected (oldHead : option Block) (newHead : Block) : outcome (option (list Transaction)) :=
  match oldHead with
  | None => Ret (Some [])
  | Some oldHead => if b_hash oldHead =? b_parent newHead then Ret (Some []) else reorg oldHead newHead
  end.

(** [RemoveByNouce]: the transaction is read, not removed. *)
Definition RemoveByNouce (nonce : Z) (L : TxList.txList) : outcome Transaction := deref (TxList.Get (TxList.txs L) nonce).

(** The transactions of a DApp's list that a block refers to. *)
Fixpoint dapp_txs (dappId : Address) (L : TxList.txList) (txs : list Transaction) : outcome (list Transaction) :=
  match txs with
  | [] => Ret []
  | tx :: txs =>
      id ← ptr_value (DAppId (data tx));
      if id =? dappId then
        d ← RemoveByNouce (Nonce tx) L; ds ← dapp_txs dappId L txs; Ret (d :: ds)
      else dapp_txs dappId L txs
  end.

(** The blocks made for the DApps; a DApp without a chain is a nil pointer. *)
Fixpoint dapp_blocks (lists : list (Address * TxList.txList)) (txs : list Transaction) : outcome (list (Address * list Transaction)) :=
  match lists with
  | [] => Ret []
  | (dappId, L) :: lists =>
      ds ← dapp_txs dappId L txs;
      if (0 <? length ds)%nat then
        if has_dappchain dappId then bs ← dapp_blocks lists txs; Ret ((dappId, ds) :: bs) else Panic
      else dapp_blocks lists txs
  end.

(** The nonce after the last pending transaction of an account; an empty list panics. *)
Definition track_nonce (addr : Address) : PM unit :=
  pd ← gets pending;
  match pd !! addr with
  | None => mret tt
  | Some L =>
      let '(m, txs) := TxList.Flatten ord_txs (TxList.txs L) in
      _ ← put_pending addr (TxList.with_txs L m);
      tx ← lift (deref (last txs));
      setNonce addr (u64 (Nonce tx + 1))
  end.

(** Without a new head there is nothing to compare an old one with: its parent hash is
    read through nil; without both, the current block of the chain is the head. *)
Definition reset (now : Z) (oldHead newHead : option Block) : PM (list (Address * list Transaction)) :=
  r ← lift (match oldHead, newHead with
            | _, Some newHead => reinjected oldHead newHead
            | Some _, None => Panic
            | None, None => Ret (Some [])
            end);
  match r with
  | None => mret []
  | Some reinject =>
      newHead ← lift (deref (match newHead with Some h => Some h | None => CurrentBlock end));
      match StateAt (b_root newHead) with
      | None => mret []
      | Some cs =>
          _ ← modify (set_chain cs (ManagedState.ManageState (cs_nonce cs)) (b_gasLimit newHead));
          _ ← addTxsLocked now reinject false;
          newBlock ← lift (deref (GetBlock (b_hash newHead) (b_number newHead)));
          d ← gets dappPending;
          blocks ← lift (if (0 <? length (b_txs newBlock))%nat then dapp_blocks (ord_lists d) (b_txs newBlock) else Ret []);
          _ ← demoteUnexecutables;
          pd ← gets pending;
          _ ← for_each (ord_lists pd).*1 track_nonce;
          _ ← promoteExecutables now None;
          mret blocks
      end
  end.

(** The pool before its first reset. *)
Definition empty_pool (c : TxPoolConfig) (j : option (list Transaction)) : TxPool :=
  let c := sanitize c in
  MkPool c (PriceLimit c) (MkChainState (fun _ => 0) (fun _ => 0)) (ManagedState.ManageState (fun _ => 0)) 0 ∅ j ∅ ∅ ∅ ∅ ∅
    TxPriced.newTxPricedList [].

Definition NewTxPool (now : Z) (c : TxPoolConfig) (j : option (list Transaction)) (head : Block) : outcome TxPool :=
  '(p, _) ← reset now None (Some head) (empty_pool c j);
  Ret p.

End Pool.
End TxPool.
