(* ===== verification/TxPoolProps.v ===== *)
(** The pool keeps its parts in step: the map of all transactions holds exactly those of
    the lists, no two of an account share a nonce, and the heap by price misses none. *)

From S2P Require Import Prelude Params Bytes Heap TxTypes TxList TxListProps TxPriced ManagedState Evm StateTransition TxPool.
Import TxTypes TxPool TxListProps TxPricedProps HeapProps.

Module TxPoolProps.

(** ** Running the pool *)

(** [m] returns from [p], in a state and with a result of [Q]. *)
Definition wp {A} (m : SM TxPool A) (p : TxPool) (Q : TxPool -> A -> Prop) : Prop :=
  exists p' x, m p = Ret (p', x) /\ Q p' x.

Section Rules.
Context {A B : Type}.
Implicit Types (m : SM TxPool A) (k : A -> SM TxPool B).

Lemma wp_bind m k p Q : wp m p (fun p' x => wp (k x) p' Q) -> wp (m ≫= k) p Q.
Proof. intros (p' & x & Hm & p'' & y & Hk & HQ). exists p'', y. unfold mbind, SM_bind. by rewrite Hm. Qed.
Lemma wp_ret (x : A) p Q : Q p x -> wp (mret x) p Q.
Proof. intros HQ. by exists p, x. Qed.
Lemma wp_gets (f : TxPool -> A) p Q : Q p (f p) -> wp (gets f) p Q.
Proof. intros HQ. by exists p, (f p). Qed.
Lemma wp_modify f p Q : Q (f p) tt -> wp (modify f) p Q.
Proof. intros HQ. by exists (f p), tt. Qed.
Lemma wp_lift (o : outcome A) x p Q : o = Ret x -> Q p x -> wp (lift o) p Q.
Proof. intros -> HQ. by exists p, x. Qed.
Lemma wp_mono m p (Q Q' : TxPool -> A -> Prop) : wp m p Q -> (forall p' x, Q p' x -> Q' p' x) -> wp m p Q'.
Proof. intros (p' & x & Hm & HQ) Hi. exists p', x. auto. Qed.

End Rules.

(** A loop keeps [I] of what is left to do. *)
Lemma wp_for_each {A} (I : list A -> TxPool -> Prop) (body : A -> SM TxPool unit) l p (Q : TxPool -> unit -> Prop) :
  (forall x l p, I (x :: l) p -> wp (body x) p (fun p' _ => I l p')) -> I l p -> (forall p', I [] p' -> Q p' tt) ->
  wp (for_each l body) p Q.
Proof.
  intros Hstep. revert p. induction l as [|x l IH]; intros p Hi HQ; simpl; [apply wp_ret; auto|].
  apply wp_bind. eapply wp_mono; [by apply Hstep|]. simpl. intros p' _ Hp'. by apply IH.
Qed.

Ltac wp_step :=
  lazymatch goal with
  | |- wp (_ ≫= _) _ _ => apply wp_bind
  | |- wp (mret _) _ _ => apply wp_ret
  | |- wp (gets _) _ _ => apply wp_gets
  | |- wp (modify _) _ _ => apply wp_modify
  end; cbv beta.

(** A step without the state, whose result is known. *)
Ltac wp_by H := apply wp_bind; eapply wp_lift; [exact H|]; cbv beta iota.

(** ** Functions changed at one account *)

Definition upd {A} (f : Address -> A) (a : Address) (x : A) : Address -> A := fun b => if decide (b = a) then x else f b.
Lemma upd_eq {A} (f : Address -> A) a x : upd f a x a = x.
Proof. unfold upd. by rewrite decide_True. Qed.
Lemma upd_ne {A} (f : Address -> A) a b x : b <> a -> upd f a x b = f b.
Proof. intros Hb. unfold upd. by rewrite decide_False. Qed.

Abbreviation contents := (Address -> list Transaction).
Definition cat (pe qu : contents) : contents := fun a => pe a ++ qu a.

(** ** What the lists hold *)

Definition lists_ok (b : bool) (m : gmap Address TxList.txList) (f : contents) : Prop :=
  forall a, match m !! a with
            | Some L => list_ok L (f a) /\ TxList.strict L = b
            | None => f a = []
            end.

Lemma lists_ok_get b m f a : lists_ok b m f ->
  list_ok (default (TxList.newTxList b) (m !! a)) (f a) /\ TxList.strict (default (TxList.newTxList b) (m !! a)) = b.
Proof. intros H. specialize (H a). destruct (m !! a); [done|]. rewrite H. split; [apply newTxList_ok|done]. Qed.

Lemma lists_ok_put b m f a L l : lists_ok b m f -> list_ok L l -> TxList.strict L = b -> lists_ok b (<[a := L]> m) (upd f a l).
Proof.
  intros H HL Hs c. destruct (decide (c = a)) as [->|Hc]; [by rewrite lookup_insert_eq, upd_eq|].
  rewrite lookup_insert_ne, upd_ne by done. apply H.
Qed.

Lemma lists_ok_delete b m f a : lists_ok b m f -> f a = [] -> lists_ok b (delete a m) f.
Proof.
  intros H Hf c. destruct (decide (c = a)) as [->|Hc]; [by rewrite lookup_delete_eq|]. rewrite lookup_delete_ne by done. apply H.
Qed.

Lemma lists_ok_ext b m f g : (forall a, f a = g a) -> lists_ok b m f -> lists_ok b m g.
Proof. intros Hfg H a. rewrite <- Hfg. apply H. Qed.

Lemma list_ok_len L l : list_ok L l -> TxList.Len (TxList.txs L) = length l.
Proof. intros [Hr _]. unfold TxList.Len. rewrite (r_items _ _ Hr). apply of_list_size, Hr. Qed.

Lemma list_ok_sorted L l : list_ok L l -> StronglySorted before l.
Proof. intros [Hr _]. apply Hr. Qed.

Lemma list_ok_get L l k : list_ok L l -> TxList.Get (TxList.txs L) k = list_find_nonce k l.
Proof. intros [Hr _]. unfold TxList.Get. rewrite (r_items _ _ Hr). apply list_find_nonce_spec, Hr. Qed.

(** ** Finding a nonce *)

Lemma find_nonce_None k l : list_find_nonce k l = None <-> k ∉ Nonce <$> l.
Proof.
  induction l as [|tx l IH]; simpl; [split; [intros _; apply not_elem_of_nil|done]|]. rewrite not_elem_of_cons.
  destruct (Nonce tx =? k) eqn:E; bool_to_prop; [split; [done|intros [? _]; congruence]|]. rewrite IH. split; [|tauto].
  intros ?. split; [congruence|done].
Qed.

Lemma find_nonce_Some k l tx : list_find_nonce k l = Some tx -> tx ∈ l /\ Nonce tx = k.
Proof.
  induction l as [|y l IH]; simpl; [done|]. destruct (Nonce y =? k) eqn:E; bool_to_prop.
  - intros [= <-]. split; [by left|done].
  - intros H. destruct (IH H). split; [by right|done].
Qed.

Lemma put_free tx l : list_find_nonce (Nonce tx) l = None -> put tx l ≡ₚ tx :: l.
Proof.
  induction l as [|y l IH]; simpl; [done|]. destruct (Nonce y =? Nonce tx) eqn:E; [done|]. intros H. rewrite Z.eqb_sym in E.
  rewrite E. destruct (_ <? _); [done|]. rewrite IH by done. constructor.
Qed.

Lemma put_replace tx l o : StronglySorted before l -> list_find_nonce (Nonce tx) l = Some o ->
  exists r, l ≡ₚ o :: r /\ put tx l ≡ₚ tx :: r.
Proof.
  induction 1 as [|y l Hl IH Hy]; simpl; [done|]. destruct (Nonce y =? Nonce tx) eqn:E; bool_to_prop.
  - intros [= <-]. rewrite E, Z.ltb_irrefl, Z.eqb_refl. by exists l.
  - intros Ho. pose proof (find_nonce_Some _ _ _ Ho) as [Hin Hn]. rewrite Forall_forall in Hy. specialize (Hy o Hin). unfold before in Hy.
    destruct (IH Ho) as (r & H1 & H2). exists (y :: r).
    rewrite (proj2 (Z.ltb_ge _ _)), (proj2 (Z.eqb_neq _ _)) by lia. split; [rewrite H1|rewrite H2]; constructor.
Qed.

Lemma sorted_perm_nodup l l' : StronglySorted before l -> l ≡ₚ l' -> NoDup (Nonce <$> l').
Proof. intros Hs Hp. rewrite <- Hp. by apply sorted_nodup. Qed.

(** ** Representation of a pool *)

Section Pool.
Context {ords : Orders}.

Class OrdersLaws : Prop := {
  ord_txs_ok : iterates ord_txs;
  ord_txs'_ok : iterates ord_txs';
  ord_all_ok : iterates_all ord_all;
  ord_lists_ok : forall m, ord_lists m ≡ₚ map_to_list m;
  ord_set_ok : forall s x, x ∈ ord_set s <-> x ∈ s;
  prque_perm : forall l, prque_order l ≡ₚ l.*1;
  prque_sorted : forall l, NoDup l.*1 -> StronglySorted (fun a b => forall x y, (a, x) ∈ l -> (b, y) ∈ l -> y <= x) (prque_order l);
  sort_beats_perm : forall l, sort_beats l ≡ₚ l
}.
Context {laws : OrdersLaws}.

(** The limits of the configuration are counts that fit an [int], and no state has a nonce
    out of range. *)
Record config_ok (c : TxPoolConfig) : Prop := {
  co_bump : 0 <= PriceBump c <= MaxInt64 - 100;
  co_slots : 0 <= AccountSlots c <= MaxInt64;
  co_accountQueue : 0 <= AccountQueue c <= MaxInt64;
  co_globalSlots : 0 <= GlobalSlots c;
  co_globalQueue : 0 <= GlobalQueue c;
  co_capacity : GlobalSlots c + GlobalQueue c <= MaxInt64
}.

(** [ex]: transactions the heap may miss. *)
Record rep (ex : list Transaction) (p : TxPool) (pe qu : contents) : Prop := {
  rep_pending : lists_ok true (pending p) pe;
  rep_queue : lists_ok false (queue p) qu;
  rep_heap : price_heap (TxPriced.pitems (priced p));
  rep_priced : forall tx, mapped (all p) tx -> tx ∈ TxPriced.pitems (priced p) \/ tx ∈ ex;
  rep_managed : ManagedState.managed_ok (pendingState p);
  rep_dapp : map_Forall (fun _ L => exists l, list_ok L l) (dappPending p);
  rep_config : config_ok (config p);
  rep_state : forall a, is_u64 (cs_nonce (currentState p) a)
}.

Lemma rep_ext ex p pe qu pe' qu' : (forall a, pe a = pe' a) -> (forall a, qu a = qu' a) -> rep ex p pe qu -> rep ex p pe' qu'.
Proof. intros H1 H2 []. split; try done; by eapply lists_ok_ext. Qed.

(** Pointers the pool follows are not nil, and the nonces fit their type. *)
Record good_tx (tx : Transaction) : Prop := {
  gt_nonce : is_u64 (Nonce tx);
  gt_dappId : DAppId (data tx) <> PNil;
  gt_dapp : forall d, dappTx tx = Some d -> DAppId (data d) <> PNil /\ is_u64 (Nonce d)
}.

Record consistent (c : contents) (al : gmap Hash Transaction) : Prop := {
  c_from : forall a tx, tx ∈ c a -> TxSender tx = Some a;
  c_nodup : forall a, NoDup (Nonce <$> c a);
  c_all : forall h tx, al !! h = Some tx <-> TxHash tx = h /\ tx ∈ c (from_of tx);
  c_good : forall a tx, tx ∈ c a -> good_tx tx
}.

(** The lists, the map of all transactions and the heap are in step. *)
Definition pool_ok (p : TxPool) : Prop := exists pe qu, rep [] p pe qu /\ consistent (cat pe qu) (all p).

Lemma from_sender tx a : TxSender tx = Some a -> from_of tx = a.
Proof. intros H. unfold from_of. by rewrite H. Qed.

Lemma consistent_perm c c' al : (forall a, c a ≡ₚ c' a) -> consistent c al -> consistent c' al.
Proof.
  intros Hp [H1 H2 H3 H4]. split.
  - intros a tx Hin. apply H1. by rewrite Hp.
  - intros a. rewrite <- Hp. apply H2.
  - intros h tx. rewrite H3, Hp. done.
  - intros a tx Hin. apply (H4 a). by rewrite Hp.
Qed.

Lemma consistent_known c al a tx : consistent c al -> tx ∈ c a -> al !! TxHash tx = Some tx.
Proof. intros H Hin. apply (c_all _ _ H). split; [done|]. by rewrite (from_sender tx a (c_from _ _ H _ _ Hin)). Qed.

Lemma consistent_mapped c al h tx : consistent c al -> al !! h = Some tx -> mapped al tx.
Proof. intros H Hl. pose proof (proj1 (c_all _ _ H h tx) Hl) as [Hh _]. unfold mapped. by rewrite Hh. Qed.

Lemma consistent_remove c al a tx r : consistent c al -> c a ≡ₚ tx :: r -> consistent (upd c a r) (delete (TxHash tx) al).
Proof.
  intros Hc Hp. pose proof Hc as [H1 H2 H3 H4]. assert (Htx : tx ∈ c a) by (rewrite Hp; by left).
  assert (Hsub : forall b y, y ∈ upd c a r b -> y ∈ c b).
  { intros b y Hin. destruct (decide (b = a)) as [->|Hb]; [rewrite upd_eq in Hin; rewrite Hp; by right|by rewrite upd_ne in Hin]. }
  assert (Hnot : tx ∉ r).
  { specialize (H2 a). rewrite Hp in H2. simpl in H2. apply NoDup_cons in H2 as [Hn _]. intros Hin. apply Hn.
    apply list_elem_of_fmap. eauto. }
  split.
  - intros b y Hin%Hsub. by apply H1.
  - intros b. destruct (decide (b = a)) as [->|Hb]; [|by rewrite upd_ne]. rewrite upd_eq. specialize (H2 a). rewrite Hp in H2.
    simpl in H2. by apply NoDup_cons in H2 as [_ ?].
  - intros h y. rewrite lookup_delete_Some, H3. split.
    + intros (Hne & <- & Hin). split; [done|]. destruct (decide (from_of y = a)) as [Ha|Ha]; [|by rewrite upd_ne].
      rewrite Ha, upd_eq. rewrite Ha, Hp in Hin. apply elem_of_cons in Hin as [->|Hin]; done.
    + intros [<- Hin]. assert (Hin' := Hsub _ _ Hin). split; [|done]. intros He.
      pose proof (consistent_known c al _ y Hc Hin') as Hy. pose proof (consistent_known c al _ tx Hc Htx) as Ht.
      assert (y = tx) as -> by congruence. rewrite (from_sender tx a (H1 _ _ Htx)), upd_eq in Hin. done.
  - intros b y Hin%Hsub. by apply (H4 b).
Qed.

Lemma consistent_insert c al a tx : consistent c al -> al !! TxHash tx = None -> TxSender tx = Some a ->
  Nonce tx ∉ Nonce <$> c a -> good_tx tx -> consistent (upd c a (tx :: c a)) (<[TxHash tx := tx]> al).
Proof.
  intros Hc Hnew Hs Hn Hg. pose proof Hc as [H1 H2 H3 H4].
  assert (Hsub : forall b y, y ∈ upd c a (tx :: c a) b -> (b = a /\ y = tx) \/ y ∈ c b).
  { intros b y Hin. destruct (decide (b = a)) as [->|Hb]; [rewrite upd_eq in Hin; set_solver|rewrite upd_ne in Hin by done; by right]. }
  split.
  - intros b y [[-> ->]|Hin]%Hsub; [done|by apply H1].
  - intros b. destruct (decide (b = a)) as [->|Hb]; [|by rewrite upd_ne]. rewrite upd_eq. simpl. by apply NoDup_cons.
  - intros h y. rewrite lookup_insert_Some, H3. split.
    + intros [[<- <-]|(Hne & <- & Hin)]; (split; [done|]).
      * rewrite (from_sender tx a Hs), upd_eq. by left.
      * destruct (decide (from_of y = a)) as [Ha|Ha]; [|by rewrite upd_ne]. rewrite Ha, upd_eq. right. by rewrite <- Ha.
    + intros [<- Hin]. destruct (decide (y = tx)) as [->|Hy]; [by left|]. right. apply Hsub in Hin as [[_ ->]|Hin]; [done|].
      split; [|done]. intros He. pose proof (consistent_known c al _ y Hc Hin). congruence.
  - intros b y [[-> ->]|Hin]%Hsub; [done|by apply (H4 b)].
Qed.

(** The same contents at one account. *)
Lemma cat_perm pe qu a l l' : l ++ l' ≡ₚ pe a ++ qu a -> forall b, cat (upd pe a l) (upd qu a l') b ≡ₚ cat pe qu b.
Proof.
  intros Hp b. unfold cat. destruct (decide (b = a)) as [->|Hb]; [by rewrite !upd_eq|by rewrite !upd_ne].
Qed.

(** ** What an operation leaves alone *)

Record same (p p' : TxPool) : Prop := {
  s_config : config p' = config p;
  s_state : currentState p' = currentState p;
  s_gas : currentMaxGas p' = currentMaxGas p;
  s_locals : locals p' = locals p
}.

(** The same but for the local accounts, which only grow. *)
Record same_chain (p p' : TxPool) : Prop := {
  sc_config : config p' = config p;
  sc_state : currentState p' = currentState p;
  sc_gas : currentMaxGas p' = currentMaxGas p;
  sc_locals : locals p ⊆ locals p'
}.

(** Only the lists of account [a] may change. *)
Record frame (a : Address) (p p' : TxPool) : Prop := {
  f_same : same p p';
  f_pending : forall b, b <> a -> pending p' !! b = pending p !! b;
  f_queue : forall b, b <> a -> queue p' !! b = queue p !! b
}.

Lemma same_refl p : same p p.
Proof. by split. Qed.
Lemma same_trans p q r : same p q -> same q r -> same p r.
Proof. intros [] []. split; congruence. Qed.
Lemma same_chain_of p p' : same p p' -> same_chain p p'.
Proof. intros []. split; [done|done|done|]. by rewrite s_locals0. Qed.
Lemma same_chain_trans p q r : same_chain p q -> same_chain q r -> same_chain p r.
Proof. intros [] []. split; [congruence|congruence|congruence|set_solver]. Qed.
Lemma pool_frame_refl a p : frame a p p.
Proof. split; [apply same_refl|done|done]. Qed.
Lemma frame_trans a p q r : frame a p q -> frame a q r -> frame a p r.
Proof.
  intros [H1 H2 H3] [H4 H5 H6]. split; [by eapply same_trans|intros b Hb; by rewrite H5, H2|intros b Hb; by rewrite H6, H3].
Qed.

(** ** Small steps *)

Lemma rep_set_all ex ex' p pe qu al pr : rep ex p pe qu -> price_heap (TxPriced.pitems pr) ->
  (forall tx, mapped al tx -> tx ∈ TxPriced.pitems pr \/ tx ∈ ex') -> rep ex' (set_all al pr p) pe qu.
Proof. intros [] Hh Hp. by split. Qed.

Lemma frame_set_all a p al pr : frame a p (set_all al pr p).
Proof. by split. Qed.

Lemma mapped_delete h al tx : mapped (delete h al) tx -> mapped al tx.
Proof. unfold mapped. rewrite lookup_delete_Some. tauto. Qed.

Lemma rep_delete_tx ex p pe qu h : rep ex p pe qu -> rep ex (set_all (delete h (all p)) (priced p) p) pe qu.
Proof. intros Hr. eapply rep_set_all; [done|apply Hr|]. intros tx Hm%mapped_delete. by apply Hr. Qed.

Lemma rep_priced_removed ex p pe qu : rep ex p pe qu ->
  rep ex (set_all (all p) (TxPriced.Removed ord_all (all p) (priced p)) p) pe qu.
Proof.
  intros Hr. destruct (Removed_spec ord_all (all p) (priced p) ord_all_ok (rep_heap _ _ _ _ Hr)) as [H1 H2].
  eapply rep_set_all; [done|done|]. intros tx Hm. destruct (rep_priced _ _ _ _ Hr tx Hm) as [?|?]; [left; by eapply H2|by right].
Qed.

Lemma rep_remember ex p pe qu h tx : rep ex p pe qu -> rep ex (set_all (<[h := tx]> (all p)) (TxPriced.Put tx (priced p)) p) pe qu.
Proof.
  intros Hr. destruct (Put_spec tx (priced p) (rep_heap _ _ _ _ Hr)) as [H1 H2]. eapply rep_set_all; [done|done|].
  intros y Hm. rewrite H2. unfold mapped in Hm. apply lookup_insert_Some in Hm as [[_ <-]|[_ Hm]]; [left; by left|].
  destruct (rep_priced _ _ _ _ Hr y Hm); [left; by right|by right].
Qed.

Section Steps.
Context (ex : list Transaction) (p : TxPool) (pe qu : contents) (Hr : rep ex p pe qu).

Lemma forget_spec h (Q : TxPool -> unit -> Prop) :
  (forall p', rep ex p' pe qu -> all p' = delete h (all p) -> (forall a, frame a p p') -> Q p' tt) -> wp (forget h) p Q.
Proof.
  intros HQ. unfold forget, delete_tx, priced_removed. repeat wp_step. apply HQ; [|done|by split].
  by apply (rep_priced_removed ex (set_all (delete h (all p)) (priced p) p)), rep_delete_tx.
Qed.

Definition forgotten (old : option Transaction) (al : gmap Hash Transaction) : gmap Hash Transaction :=
  match old with Some o => delete (TxHash o) al | None => al end.
Definition remembered (h : Hash) (tx : Transaction) (al : gmap Hash Transaction) : gmap Hash Transaction :=
  match al !! h with None => <[h := tx]> al | Some _ => al end.

Lemma forget_old_spec old (Q : TxPool -> unit -> Prop) :
  (forall p', rep ex p' pe qu -> all p' = forgotten old (all p) -> (forall a, frame a p p') -> Q p' tt) -> wp (forget_old old) p Q.
Proof. intros HQ. destruct old as [o|]; [by apply forget_spec|]. apply wp_ret, HQ; [done|done|]. intros. apply pool_frame_refl. Qed.

Lemma remember_new_spec h tx (Q : TxPool -> unit -> Prop) :
  (forall p', rep ex p' pe qu -> all p' = remembered h tx (all p) -> (forall a, frame a p p') -> Q p' tt) ->
  wp (remember_new h tx) p Q.
Proof.
  intros HQ. unfold remember_new, remembered in *. repeat wp_step. destruct (all p !! h).
  - apply wp_ret, HQ; [done|done|]. intros. apply pool_frame_refl.
  - unfold remember. wp_step. apply HQ; [by apply rep_remember|done|by split].
Qed.

Lemma put_pending_spec a L l (Q : TxPool -> unit -> Prop) : list_ok L l -> TxList.strict L = true ->
  (forall p', rep ex p' (upd pe a l) qu -> all p' = all p -> pending p' !! a = Some L -> frame a p p' -> Q p' tt) ->
  wp (put_pending a L) p Q.
Proof.
  intros HL Hs HQ. unfold put_pending. wp_step. apply HQ; [|done|simpl; apply lookup_insert_eq|].
  - destruct Hr. split; try done. simpl. by apply lists_ok_put.
  - split; [done| |done]. intros b Hb. simpl. by rewrite lookup_insert_ne.
Qed.

Lemma put_queue_spec a L l (Q : TxPool -> unit -> Prop) : list_ok L l -> TxList.strict L = false ->
  (forall p', rep ex p' pe (upd qu a l) -> all p' = all p -> queue p' !! a = Some L -> frame a p p' -> Q p' tt) ->
  wp (put_queue a L) p Q.
Proof.
  intros HL Hs HQ. unfold put_queue. wp_step. apply HQ; [|done|simpl; apply lookup_insert_eq|].
  - destruct Hr. split; try done. simpl. by apply lists_ok_put.
  - split; [done|done|]. intros b Hb. simpl. by rewrite lookup_insert_ne.
Qed.

(** A list that is dropped was empty. *)
Lemma drop_pending_spec a L (Q : TxPool -> unit -> Prop) : list_ok L (pe a) ->
  (forall p', rep ex p' pe qu -> all p' = all p -> (pe a <> [] \/ pending p' !! a = None) -> frame a p p' -> Q p' tt) ->
  wp (drop_pending a L) p Q.
Proof.
  intros HL HQ. unfold drop_pending. rewrite (list_ok_len L _ HL). destruct (length (pe a) =? 0)%nat eqn:E.
  - apply Nat.eqb_eq, nil_length_inv in E. wp_step. apply HQ; [|done| |].
    + destruct Hr. split; try done. simpl. by apply lists_ok_delete.
    + right. simpl. apply lookup_delete_eq.
    + split; [done| |done]. intros b Hb. simpl. by rewrite lookup_delete_ne.
  - apply Nat.eqb_neq in E. apply wp_ret, HQ; [done|done| |apply pool_frame_refl]. left. intros He. by rewrite He in E.
Qed.

Lemma drop_queue_spec a L (Q : TxPool -> unit -> Prop) : list_ok L (qu a) ->
  (forall p', rep ex p' pe qu -> all p' = all p -> frame a p p' -> Q p' tt) -> wp (drop_queue a L) p Q.
Proof.
  intros HL HQ. unfold drop_queue. rewrite (list_ok_len L _ HL). destruct (length (qu a) =? 0)%nat eqn:E.
  - apply Nat.eqb_eq, nil_length_inv in E. wp_step. apply HQ; [|done|].
    + destruct Hr. split; try done. simpl. by apply lists_ok_delete.
    + split; [done|done|]. intros b Hb. simpl. by rewrite lookup_delete_ne.
  - apply wp_ret, HQ; [done|done|apply pool_frame_refl].
Qed.

Lemma rep_set_pendingState ms : ManagedState.managed_ok ms -> rep ex (set_pendingState ms p) pe qu.
Proof. destruct Hr. by split. Qed.

Lemma getNonce_spec a (Q : TxPool -> Z -> Prop) :
  (forall p' n, rep ex p' pe qu -> all p' = all p -> (forall b, frame b p p') -> Q p' n) -> wp (getNonce a) p Q.
Proof.
  intros HQ. unfold wp, getNonce. pose proof (ManagedState.managed_ok_get a (pendingState p) (rep_managed _ _ _ _ Hr)) as Hm.
  destruct (ManagedState.GetNonce a (pendingState p)) as [ms n]. eexists _, n. split; [done|]. apply HQ; [|done|by split].
  by apply rep_set_pendingState.
Qed.

Lemma setNonce_spec a n (Q : TxPool -> unit -> Prop) : is_u64 n ->
  (forall p', rep ex p' pe qu -> all p' = all p -> (forall b, frame b p p') -> Q p' tt) -> wp (setNonce a n) p Q.
Proof.
  intros Hn HQ. unfold setNonce. wp_step. apply HQ; [|done|by split]. apply rep_set_pendingState.
  apply ManagedState.managed_ok_set; [done|apply Hr].
Qed.

End Steps.

Lemma lower_nonce_spec ex p pe qu a n (Q : TxPool -> unit -> Prop) : rep ex p pe qu -> is_u64 n ->
  (forall p', rep ex p' pe qu -> all p' = all p -> (forall b, frame b p p') -> Q p' tt) -> wp (lower_nonce a n) p Q.
Proof.
  intros Hr Hn HQ. unfold lower_nonce. wp_step. apply (getNonce_spec ex p pe qu Hr). intros p1 m Hr1 Ha1 Hf1.
  destruct (n <? m).
  - apply (setNonce_spec ex p1 pe qu Hr1); [done|]. intros p2 Hr2 Ha2 Hf2. apply HQ; [done|congruence|].
    intros b. by eapply frame_trans.
  - by apply wp_ret, HQ.
Qed.

(** ** enqueueTx, promoteTx *)

(** [TxList.Add] as the two callers see it. *)
Lemma Add_cases b m f tx a bump : lists_ok b m f -> is_u64 (Nonce tx) -> 0 <= bump <= MaxInt64 - 100 ->
  let '(L, inserted, old) := TxList.Add tx bump (default (TxList.newTxList b) (m !! a)) in
  TxList.strict L = b /\
  if inserted then replaces bump tx old /\ old = list_find_nonce (Nonce tx) (f a) /\ list_ok L (put tx (f a))
  else ~ replaces bump tx (list_find_nonce (Nonce tx) (f a)) /\ list_ok L (f a).
Proof.
  intros Hm Hn Hb. destruct (lists_ok_get b m f a Hm) as [HL Hs]. pose proof (Add_ok tx bump _ _ HL Hn Hb) as HA.
  destruct (TxList.Add tx bump _) as [[L []] old].
  - destruct HA as (H1 & -> & H2 & H3). by rewrite H3.
  - by destruct HA as [H1 ->].
Qed.

Lemma enqueueTx_spec ex p pe qu a tx (Q : TxPool -> PoolError + bool -> Prop) :
  rep ex p pe qu -> from_of tx = a -> is_u64 (Nonce tx) ->
  let old := list_find_nonce (Nonce tx) (qu a) in
  (forall p', ~ replaces (PriceBump (config p)) tx old -> rep ex p' pe qu -> all p' = all p -> frame a p p' ->
     Q p' (inl ErrReplaceUnderpriced)) ->
  (forall p', replaces (PriceBump (config p)) tx old -> rep ex p' pe (upd qu a (put tx (qu a))) ->
     all p' = remembered (TxHash tx) tx (forgotten old (all p)) -> frame a p p' -> Q p' (inr (bool_decide (is_Some old)))) ->
  wp (enqueueTx (TxHash tx) tx) p Q.
Proof.
  intros Hr Ha Hn old Hno Hyes. unfold enqueueTx. do 4 wp_step. rewrite Ha.
  pose proof (Add_cases false (queue p) qu tx a (PriceBump (config p)) (rep_queue _ _ _ _ Hr) Hn (co_bump _ (rep_config _ _ _ _ Hr))) as HA.
  destruct (TxList.Add tx _ _) as [[L []] o]; destruct HA as [Hs HA]; cbn [negb].
  - destruct HA as (Hre & -> & HL). wp_step. eapply (put_queue_spec ex p pe qu Hr); [done|done|]. intros p1 Hr1 Ha1 _ Hf1.
    wp_step. apply (forget_old_spec ex p1 _ _ Hr1). intros p2 Hr2 Ha2 Hf2.
    wp_step. apply (remember_new_spec ex p2 _ _ Hr2). intros p3 Hr3 Ha3 Hf3. wp_step.
    apply Hyes; [done|done|by rewrite Ha3, Ha2, Ha1|]. by eapply frame_trans; [|eapply frame_trans].
  - destruct HA as [Hre HL]. wp_step. eapply (put_queue_spec ex p pe qu Hr); [done|done|]. intros p1 Hr1 Ha1 _ Hf1. wp_step.
    apply Hno; [done| |done|done]. eapply rep_ext; [done| |exact Hr1]. intros b. unfold upd. by destruct (decide (b = a)) as [->|].
Qed.

(** A known transaction whose nonce is free in the queue. *)
Lemma enqueue_free ex p pe qu a tx (Q : TxPool -> PoolError + bool -> Prop) :
  rep ex p pe qu -> from_of tx = a -> is_u64 (Nonce tx) -> Nonce tx ∉ Nonce <$> qu a -> is_Some (all p !! TxHash tx) ->
  (forall p' l, rep ex p' pe (upd qu a l) -> l ≡ₚ tx :: qu a -> all p' = all p -> frame a p p' -> Q p' (inr false)) ->
  wp (enqueueTx (TxHash tx) tx) p Q.
Proof.
  intros Hr Ha Hn Hfree%find_nonce_None [y Hk] HQ. apply (enqueueTx_spec ex p pe qu a); [done|done|done| |].
  - intros p' Hno. rewrite Hfree in Hno. by destruct Hno.
  - rewrite Hfree. intros p' _ Hr' Ha' Hf'. rewrite bool_decide_false by (by intros [? ?]). eapply HQ; [done| |  |done].
    + by apply put_free.
    + rewrite Ha'. unfold remembered. simpl. by rewrite Hk.
Qed.

Lemma requeue_all_spec ex p pe qu a txs (Q : TxPool -> unit -> Prop) : rep ex p pe qu ->
  Forall (fun tx => from_of tx = a /\ is_u64 (Nonce tx) /\ is_Some (all p !! TxHash tx)) txs ->
  NoDup (Nonce <$> txs ++ qu a) ->
  (forall p' l, rep ex p' pe (upd qu a l) -> l ≡ₚ txs ++ qu a -> all p' = all p -> frame a p p' -> Q p' tt) ->
  wp (requeue_all txs) p Q.
Proof.
  intros Hr Htxs Hnd HQ. unfold requeue_all.
  apply (wp_for_each (fun rest q => exists l, rep ex q pe (upd qu a l) /\ rest ++ l ≡ₚ txs ++ qu a /\ all q = all p /\ frame a p q /\
    Forall (fun tx => from_of tx = a /\ is_u64 (Nonce tx) /\ is_Some (all p !! TxHash tx)) rest)).
  - intros tx rest q (l & Hq & Hl & Hal & Hf & Hall). apply Forall_cons in Hall as [(H1 & H2 & H3) Hall].
    wp_step. apply (enqueue_free ex q pe (upd qu a l) a); [done|done|done| |by rewrite Hal|].
    + rewrite upd_eq. rewrite <- Hl in Hnd. simpl in Hnd. apply NoDup_cons in Hnd as [Hni _]. rewrite fmap_app in Hni. set_solver.
    + intros q' l' Hq' Hl' Hal' Hf'. wp_step. rewrite upd_eq in Hl'. exists l'. split_and!.
      * eapply rep_ext; [done| |exact Hq']. intros b. unfold upd. by destruct (decide (b = a)).
      * rewrite Hl', <- Hl. symmetry. apply Permutation_middle.
      * congruence.
      * by eapply frame_trans.
      * done.
  - exists (qu a). split_and!; [|done|done|apply pool_frame_refl|done]. eapply rep_ext; [done| |exact Hr].
    intros b. unfold upd. by destruct (decide (b = a)) as [->|].
  - intros p' (l & Hq & Hl & Hal & Hf & _). eapply HQ; eauto.
Qed.

Lemma add_dapp_spec ex p pe qu d tx (Q : TxPool -> unit -> Prop) : rep ex p pe qu -> is_u64 (Nonce tx) ->
  (forall p', rep ex p' pe qu -> all p' = all p -> (forall a, frame a p p') -> Q p' tt) -> wp (add_dapp d tx) p Q.
Proof.
  intros Hr Hn HQ. unfold add_dapp. do 4 wp_step.
  assert (Hins : forall L l, list_ok L l -> rep ex (set_dappPending (<[d := (TxList.Add tx (PriceBump (config p)) L).1.1]> (dappPending p)) p) pe qu).
  { intros L l HL. pose proof (Add_ok tx (PriceBump (config p)) L l HL Hn (co_bump _ (rep_config _ _ _ _ Hr))) as HA.
    destruct Hr. split; try done. simpl. apply map_Forall_insert_2; [|done].
    destruct (TxList.Add tx _ L) as [[L' []] o]; simpl; [destruct HA as (_ & _ & ? & _)|destruct HA as [_ ->]]; eauto. }
  destruct (dappPending p !! d) as [L|] eqn:Ed.
  - destruct (TxList.Overlaps L tx); wp_step; [apply HQ; [done|done|]; intros; apply pool_frame_refl|].
    destruct (rep_dapp _ _ _ _ Hr d L Ed) as [l HL]. apply HQ; [by eapply Hins|done|by split].
  - wp_step. apply HQ; [eapply Hins, newTxList_ok|done|by split].
Qed.

Lemma promote_dapp_spec ex p pe qu tx (Q : TxPool -> unit -> Prop) : rep ex p pe qu -> good_tx tx ->
  (forall p', rep ex p' pe qu -> all p' = all p -> (forall a, frame a p p') -> Q p' tt) -> wp (promote_dapp tx) p Q.
Proof.
  intros Hr [Hn Hd Hdd] HQ. unfold promote_dapp. wp_step.
  assert (Hptr : forall x, x <> PNil -> exists v, ptr_value x = Ret v) by (intros []; [done|eauto|eauto]).
  assert (Hsecond : forall p1, rep ex p1 pe qu -> all p1 = all p -> (forall a, frame a p p1) ->
    wp (if decide (DAppId (data tx) <> PEmpty /\ RefHashId (data tx) <> PEmpty)
        then dappId ← lift (ptr_value (DAppId (data tx))); add_dapp dappId tx else mret tt) p1 Q).
  { intros p1 Hr1 Ha1 Hf1. destruct (decide _); [|by apply wp_ret, HQ]. destruct (Hptr _ Hd) as [v Hv].
    wp_by Hv. apply (add_dapp_spec ex p1 pe qu); [done|done|]. intros p2 Hr2 Ha2 Hf2.
    apply HQ; [done|congruence|]. intros b. by eapply frame_trans. }
  destruct (dappTx tx) as [d|].
  - destruct (Hdd d eq_refl) as [H1 H2]. destruct (Hptr _ H1) as [v Hv]. wp_by Hv.
    apply (add_dapp_spec ex p pe qu); [done|done|]. intros p1 Hr1 Ha1 Hf1. by apply Hsecond.
  - wp_step. apply Hsecond; [done|done|]. intros. apply pool_frame_refl.
Qed.


(** A known transaction whose nonce is free among the pending ones. *)
Lemma promote_free ex p pe qu a now tx (Q : TxPool -> unit -> Prop) :
  rep ex p pe qu -> good_tx tx -> Nonce tx ∉ Nonce <$> pe a -> is_Some (all p !! TxHash tx) ->
  (forall p' l, rep ex p' (upd pe a l) qu -> l ≡ₚ tx :: pe a -> all p' = all p -> frame a p p' -> Q p' tt) ->
  wp (promoteTx now a (TxHash tx) tx) p Q.
Proof.
  intros Hr Hg Hfree%find_nonce_None [y Hk] HQ. unfold promoteTx. do 4 wp_step.
  pose proof (Add_cases true (pending p) pe tx a (PriceBump (config p)) (rep_pending _ _ _ _ Hr) (gt_nonce _ Hg) (co_bump _ (rep_config _ _ _ _ Hr))) as HA.
  rewrite Hfree in HA. destruct (TxList.Add tx _ _) as [[L []] o]; destruct HA as [Hs HA]; [|by destruct HA as [[] _]].
  destruct HA as (_ & -> & HL). cbn [negb forget_old].
  wp_step. eapply (put_pending_spec ex p pe qu Hr); [done|done|]. intros p1 Hr1 Ha1 _ Hf1. do 2 wp_step.
  wp_step. apply (remember_new_spec ex p1 _ _ Hr1). intros p2 Hr2 Ha2 Hf2. do 2 wp_step.
  set (p3 := set_beats _ p2). assert (Hr3 : rep ex p3 (upd pe a (put tx (pe a))) qu) by (destruct Hr2; by split).
  wp_step. apply (setNonce_spec ex p3 _ _ Hr3); [apply u64_range|]. intros p4 Hr4 Ha4 Hf4.
  wp_step. apply (promote_dapp_spec ex p4 _ _ tx _ Hr4 Hg). intros p5 Hr5 Ha5 Hf5. unfold send. wp_step.
  eapply HQ.
  - destruct Hr5. by split.
  - by apply put_free.
  - simpl. rewrite Ha5, Ha4. simpl. rewrite Ha2, Ha1. unfold remembered. by rewrite Hk.
  - eapply frame_trans; [exact Hf1|]. eapply frame_trans; [apply Hf2|]. eapply (frame_trans _ _ p3); [by split|].
    eapply frame_trans; [apply Hf4|]. eapply frame_trans; [apply Hf5|]. by split.
Qed.

(** ** Dropping transactions *)

Lemma upd_upd_perm (c : contents) a l l' : l ≡ₚ l' -> forall b, upd c a l b ≡ₚ upd c a l' b.
Proof. intros Hl b. unfold upd. by destruct (decide (b = a)). Qed.

Lemma upd_same (c : contents) a l : l ≡ₚ c a -> forall b, upd c a l b ≡ₚ c b.
Proof. intros Hl b. unfold upd. by destruct (decide (b = a)) as [->|]. Qed.

Lemma upd_twice {A} (f : Address -> A) a x y b : upd (upd f a x) a y b = upd f a y b.
Proof. unfold upd. by destruct (decide (b = a)). Qed.

Lemma forget_all_spec ex p pe qu c a txs r (Q : TxPool -> unit -> Prop) :
  rep ex p pe qu -> consistent c (all p) -> c a ≡ₚ txs ++ r ->
  (forall p', rep ex p' pe qu -> consistent (upd c a r) (all p') -> (forall b, frame b p p') -> Q p' tt) ->
  wp (forget_all txs) p Q.
Proof.
  intros Hr Hc Hp HQ. unfold forget_all.
  apply (wp_for_each (fun rest q => rep ex q pe qu /\ consistent (upd c a (rest ++ r)) (all q) /\ (forall b, frame b p q))).
  - intros tx rest q (Hq & Hcq & Hf). apply (forget_spec ex q pe qu Hq). intros q' Hq' Ha' Hf'. split_and!; [done| |].
    + rewrite Ha'. eapply consistent_perm; [|apply (consistent_remove _ _ a tx (rest ++ r) Hcq)].
      * intros b. by rewrite upd_twice.
      * by rewrite upd_eq.
    + intros b. by eapply frame_trans.
  - split_and!; [done| |intros; apply pool_frame_refl]. eapply consistent_perm; [|exact Hc]. intros b. symmetry. by apply upd_same.
  - intros p' (Hq & Hcq & Hf). by apply HQ.
Qed.

(** A sorted list around one of its transactions. *)
Lemma sorted_around tx l : StronglySorted before l -> tx ∈ l ->
  l ≡ₚ tx :: filter (fun y => Nonce y < Nonce tx) l ++ filter (fun y => Nonce tx < Nonce y) l.
Proof.
  induction 1 as [|y l Hl IH Hy]; intros Hin; [by apply not_elem_of_nil in Hin|]. rewrite !filter_cons. rewrite Forall_forall in Hy.
  apply elem_of_cons in Hin as [->|Hin].
  - rewrite !decide_False by lia. f_equiv. rewrite filter_none, filter_all; [done| |];
      (apply Forall_forall; intros z Hz; specialize (Hy z Hz); unfold before in Hy; lia).
  - specialize (Hy tx Hin). unfold before in Hy. rewrite decide_True, decide_False by lia. rewrite (IH Hin) at 1. simpl. constructor.
Qed.

Lemma sorted_without tx l : StronglySorted before l -> tx ∈ l -> l ≡ₚ tx :: filter (fun y => Nonce y <> Nonce tx) l.
Proof.
  induction 1 as [|y l Hl IH Hy]; intros Hin; [by apply not_elem_of_nil in Hin|]. rewrite !filter_cons. rewrite Forall_forall in Hy.
  apply elem_of_cons in Hin as [->|Hin].
  - rewrite decide_False by lia. f_equiv. rewrite filter_all; [done|].
    apply Forall_forall; intros z Hz; specialize (Hy z Hz); unfold before in Hy; lia.
  - specialize (Hy tx Hin). unfold before in Hy. rewrite decide_True by lia. rewrite (IH Hin) at 1. constructor.
Qed.

Lemma lists_ok_some b m f a tx : lists_ok b m f -> tx ∈ f a -> exists L, m !! a = Some L /\ list_ok L (f a) /\ TxList.strict L = b.
Proof.
  intros H Hin. specialize (H a). destruct (m !! a) as [L|]; [eauto|]. rewrite H in Hin. by apply not_elem_of_nil in Hin.
Qed.

Lemma in_nonces tx (l : list Transaction) : tx ∈ l -> Nonce tx ∈ Nonce <$> l.
Proof. intros H. apply list_elem_of_fmap. eauto. Qed.

Lemma remove_queued_spec ex p pe qu a tx (Q : TxPool -> unit -> Prop) : rep ex p pe qu -> tx ∈ qu a ->
  (forall p', rep ex p' pe (upd qu a (filter (fun y => Nonce y <> Nonce tx) (qu a))) -> all p' = all p -> frame a p p' -> Q p' tt) ->
  wp (remove_queued a tx) p Q.
Proof.
  intros Hr Hin HQ. unfold remove_queued. do 2 wp_step. destruct (lists_ok_some _ _ _ _ _ (rep_queue _ _ _ _ Hr) Hin) as (L & HL & Hok & Hs).
  rewrite HL. destruct (RemoveList_ok _ _ ord_txs_ok ord_txs'_ok tx L (qu a) Hok) as (L' & found & inv & Hrm & Hfd & Hs' & _ & Hyes).
  rewrite bool_decide_true in Hfd by (by apply in_nonces). destruct (Hyes Hfd) as [HL' _]. rewrite Hs in HL'.
  wp_by Hrm. wp_step. eapply (put_queue_spec ex p pe qu Hr); [done|congruence|]. intros p1 Hr1 Ha1 _ Hf1.
  eapply (drop_queue_spec ex p1 _ _ Hr1); [by rewrite upd_eq|]. intros p2 Hr2 Ha2 Hf2. apply HQ; [done|congruence|by eapply frame_trans].
Qed.

(** The first steps of [removeTx]. *)
Lemma removeTx_start ex p pe qu h b tx (Q : TxPool -> unit -> Prop) : rep ex p pe qu -> all p !! h = Some tx ->
  (forall p1, rep ex p1 pe qu -> all p1 = delete h (all p) -> (forall a, frame a p p1) ->
     wp (match pending p1 !! from_of tx with
         | None => remove_queued (from_of tx) tx
         | Some list =>
             '(list, removed, invalids) ← lift (TxList.RemoveList ord_txs ord_txs' tx list);
             _ ← put_pending (from_of tx) list;
             if negb removed then remove_queued (from_of tx) tx else
             _ ← drop_pending (from_of tx) list;
             _ ← requeue_all invalids;
             lower_nonce (from_of tx) (Nonce tx)
         end) p1 Q) -> wp (removeTx h b) p Q.
Proof.
  intros Hr Hl HQ. unfold removeTx. do 2 wp_step. rewrite Hl. unfold delete_tx. do 2 wp_step.
  set (p0 := set_all _ _ p). assert (Hr0 : rep ex p0 pe qu) by (by apply rep_delete_tx).
  wp_step. destruct b; [unfold priced_removed|]; wp_step; do 2 wp_step; apply HQ; try done.
  apply (rep_priced_removed ex p0 pe qu Hr0).
Qed.

Lemma removeTx_queued ex p pe qu h b a tx (Q : TxPool -> unit -> Prop) :
  rep ex p pe qu -> consistent (cat pe qu) (all p) -> all p !! h = Some tx -> from_of tx = a -> tx ∈ qu a ->
  (forall p', rep ex p' pe (upd qu a (filter (fun y => Nonce y <> Nonce tx) (qu a))) -> all p' = delete h (all p) -> frame a p p' -> Q p' tt) ->
  wp (removeTx h b) p Q.
Proof.
  intros Hr Hc Hl Ha Hin HQ. eapply removeTx_start; [exact Hr|exact Hl|]. rewrite Ha. intros p1 Hr1 Ha1 Hf1.
  assert (Hno : Nonce tx ∉ Nonce <$> pe a).
  { pose proof (c_nodup _ _ Hc a) as Hnd. unfold cat in Hnd. rewrite fmap_app in Hnd. apply NoDup_app in Hnd as (_ & Hnd & _).
    intros Hx. by apply (Hnd _ Hx), in_nonces. }
  assert (Hrest : forall p2, rep ex p2 pe qu -> all p2 = delete h (all p) -> frame a p p2 -> wp (remove_queued a tx) p2 Q).
  { intros p2 Hr2 Ha2 Hf2. apply (remove_queued_spec ex p2 pe qu); [done|done|]. intros p3 Hr3 Ha3 Hf3.
    apply HQ; [done|congruence|by eapply frame_trans]. }
  pose proof (rep_pending _ _ _ _ Hr1 a) as Hp. destruct (pending p1 !! a) as [L|] eqn:EL; [|by apply Hrest].
  destruct Hp as [Hok Hs]. destruct (RemoveList_ok _ _ ord_txs_ok ord_txs'_ok tx L (pe a) Hok) as (L' & found & inv & Hrm & Hfd & Hs' & Hnot & _).
  rewrite bool_decide_false in Hfd by done. destruct (Hnot Hfd) as [-> HL']. wp_by Hrm.
  wp_step. eapply (put_pending_spec ex p1 pe qu Hr1); [exact HL'|congruence|]. intros p2 Hr2 Ha2 _ Hf2. rewrite Hfd. apply Hrest.
  - eapply rep_ext; [|done|exact Hr2]. intros x. unfold upd. by destruct (decide (x = a)) as [->|].
  - congruence.
  - by eapply frame_trans.
Qed.

Lemma removeTx_pending ex p pe qu h b a tx (Q : TxPool -> unit -> Prop) :
  rep ex p pe qu -> consistent (cat pe qu) (all p) -> all p !! h = Some tx -> from_of tx = a -> tx ∈ pe a ->
  (forall p' l, rep ex p' (upd pe a (filter (fun y => Nonce y < Nonce tx) (pe a))) (upd qu a l) ->
     l ≡ₚ filter (fun y => Nonce tx < Nonce y) (pe a) ++ qu a -> all p' = delete h (all p) -> frame a p p' -> Q p' tt) ->
  wp (removeTx h b) p Q.
Proof.
  intros Hr Hc Hl Ha Hin HQ. eapply removeTx_start; [exact Hr|exact Hl|]. rewrite Ha. intros p1 Hr1 Ha1 Hf1.
  destruct (lists_ok_some _ _ _ _ _ (rep_pending _ _ _ _ Hr1) Hin) as (L & HL & Hok & Hs). rewrite HL.
  destruct (RemoveList_ok _ _ ord_txs_ok ord_txs'_ok tx L (pe a) Hok) as (L' & found & inv & Hrm & Hfd & Hs' & _ & Hyes).
  rewrite bool_decide_true in Hfd by (by apply in_nonces). destruct (Hyes Hfd) as [HL' Hinv]. rewrite Hs in HL', Hinv. clear Hyes.
  assert (Hperm := sorted_around tx (pe a) (list_ok_sorted _ _ Hok) Hin).
  assert (Hsub : forall y, y ∈ inv -> y ∈ pe a /\ Nonce tx < Nonce y).
  { intros y Hy. rewrite Hinv in Hy. by apply list_elem_of_filter in Hy as [? ?]. }
  wp_by Hrm. wp_step. eapply (put_pending_spec ex p1 pe qu Hr1); [exact HL'|congruence|].
  intros p2 Hr2 Ha2 HL2 Hf2. rewrite Hfd. cbn [negb]. wp_step.
  eapply (drop_pending_spec ex p2 _ _ Hr2); [by rewrite upd_eq|]. intros p3 Hr3 Ha3 _ Hf3.
  wp_step. apply (requeue_all_spec ex p3 _ _ a inv _ Hr3).
  - apply Forall_forall. intros y Hy. destruct (Hsub y Hy) as [Hype Hlt]. assert (Hyc : y ∈ cat pe qu a) by (apply elem_of_app; by left).
    split_and!; [apply from_sender, (c_from _ _ Hc a y Hyc)|apply (gt_nonce _ (c_good _ _ Hc a y Hyc))|].
    rewrite Ha3, Ha2, Ha1, lookup_delete_ne; [rewrite (consistent_known _ _ a y Hc Hyc); eauto|].
    intros He. pose proof (consistent_known _ _ a y Hc Hyc) as Hy'. rewrite <- He in Hy'. assert (y = tx) as -> by congruence. lia.
  - pose proof (c_nodup _ _ Hc a) as Hnd. unfold cat in Hnd. rewrite Hperm in Hnd. rewrite Hinv.
    simpl in Hnd. apply NoDup_cons in Hnd as [_ Hnd]. rewrite <- app_assoc, fmap_app in Hnd. by apply NoDup_app in Hnd as (_ & _ & ?).
  - intros p4 l Hr4 Hl4 Ha4 Hf4. assert (Hg : is_u64 (Nonce tx)) by (apply gt_nonce, (c_good _ _ Hc a), elem_of_app; by left).
    apply (lower_nonce_spec ex p4 _ _ a (Nonce tx) _ Hr4 Hg). intros p5 Hr5 Ha5 Hf5. eapply HQ; [exact Hr5| |congruence|].
    + by rewrite Hl4, Hinv.
    + eapply frame_trans; [apply Hf1|]. eapply frame_trans; [exact Hf2|]. eapply frame_trans; [exact Hf3|].
      eapply frame_trans; [exact Hf4|]. apply Hf5.
Qed.

Lemma cat_upd_perm pe qu c a l l' r : (forall b, c b = upd (cat pe qu) a r b) -> r ≡ₚ l ++ l' ->
  forall b, c b ≡ₚ cat (upd pe a l) (upd qu a l') b.
Proof.
  intros Hc Hr b. rewrite Hc. unfold cat. destruct (decide (b = a)) as [->|Hb]; [by rewrite !upd_eq|by rewrite !upd_ne].
Qed.

(** What removal keeps, wherever the transaction is. *)
Lemma removeTx_spec ex p pe qu h b (Q : TxPool -> unit -> Prop) :
  rep ex p pe qu -> consistent (cat pe qu) (all p) ->
  (forall p' pe' qu', rep ex p' pe' qu' -> consistent (cat pe' qu') (all p') -> all p' = delete h (all p) ->
     (forall a tx, all p !! h = Some tx -> from_of tx = a -> frame a p p') -> same p p' -> Q p' tt) -> wp (removeTx h b) p Q.
Proof.
  intros Hr Hc HQ. destruct (all p !! h) as [tx|] eqn:El.
  2:{ unfold removeTx. do 2 wp_step. rewrite El. wp_step. apply (HQ p pe qu); [done|done|by rewrite delete_id|done|apply same_refl]. }
  pose proof (proj1 (c_all _ _ Hc h tx) El) as [Hh Hin]. set (a := from_of tx) in *. unfold cat in Hin. apply elem_of_app in Hin as [Hin|Hin].
  - apply (removeTx_pending ex p pe qu h b a tx); try done. intros p' l Hr' Hl Ha' Hf'. eapply HQ; [exact Hr'| |done| |apply Hf'].
    + rewrite Ha', <- Hh. destruct (lists_ok_some _ _ _ _ _ (rep_pending _ _ _ _ Hr) Hin) as (L & _ & Hok & _).
      eapply consistent_perm; [|apply (consistent_remove (cat pe qu) (all p) a tx
        (filter (fun y => Nonce y < Nonce tx) (pe a) ++ filter (fun y => Nonce tx < Nonce y) (pe a) ++ qu a)); [done|]].
      * eapply cat_upd_perm; [done|]. by rewrite Hl.
      * unfold cat. rewrite (sorted_around tx (pe a) (list_ok_sorted _ _ Hok) Hin) at 1. simpl. by rewrite <- app_assoc.
    + intros a' tx' [= <-] <-. done.
  - apply (removeTx_queued ex p pe qu h b a tx); try done. intros p' Hr' Ha' Hf'. eapply HQ; [exact Hr'| |done| |apply Hf'].
    + rewrite Ha', <- Hh. destruct (lists_ok_some _ _ _ _ _ (rep_queue _ _ _ _ Hr) Hin) as (L & _ & Hok & _).
      eapply consistent_perm; [|apply (consistent_remove (cat pe qu) (all p) a tx (pe a ++ filter (fun y => Nonce y <> Nonce tx) (qu a))); [done|]].
      * intros c. unfold cat. destruct (decide (c = a)) as [->|Hne]; [by rewrite !upd_eq|by rewrite !upd_ne].
      * unfold cat. rewrite (sorted_without tx (qu a) (list_ok_sorted _ _ Hok) Hin) at 1. symmetry. apply Permutation_middle.
    + intros a' tx' [= <-] <-. done.
Qed.

(** ** One account at work

    Its pending and queued transactions, and those that are in the map but, for the moment,
    in neither list. *)

Section Account.
Context (p0 : TxPool) (pe qu : contents) (a : Address).

Record at_account (p : TxPool) (l l' fl : list Transaction) : Prop := {
  aa_rep : rep [] p (upd pe a l) (upd qu a l');
  aa_cons : consistent (upd (cat pe qu) a (l ++ l' ++ fl)) (all p);
  aa_frame : frame a p0 p
}.

Lemma aa_start : rep [] p0 pe qu -> consistent (cat pe qu) (all p0) -> at_account p0 (pe a) (qu a) [].
Proof.
  intros Hr Hc. split; [|by eapply consistent_perm; [|exact Hc]; intros b; rewrite app_nil_r, upd_same|apply pool_frame_refl].
  eapply rep_ext; [| |exact Hr]; intros b; unfold upd; by destruct (decide (b = a)) as [->|].
Qed.

Lemma aa_done p l l' : at_account p l l' [] -> rep [] p (upd pe a l) (upd qu a l') /\
  consistent (cat (upd pe a l) (upd qu a l')) (all p).
Proof.
  intros [Hr Hc _]. split; [done|]. eapply consistent_perm; [|exact Hc]. intros b. rewrite app_nil_r. unfold cat, upd.
  by destruct (decide (b = a)).
Qed.

Lemma aa_ok p l l' : at_account p l l' [] -> pool_ok p.
Proof. intros H. apply aa_done in H as [? ?]. by eexists _, _. Qed.

Lemma aa_perm p l l' fl x : at_account p l l' fl -> x ≡ₚ l ++ l' ++ fl -> consistent (upd (cat pe qu) a x) (all p).
Proof. intros [_ Hc _] Hx. eapply consistent_perm; [|exact Hc]. intros b. symmetry. by apply upd_upd_perm. Qed.

(** What is known of a transaction of the account. *)
Lemma aa_elem p l l' fl tx : at_account p l l' fl -> tx ∈ l ++ l' ++ fl ->
  from_of tx = a /\ good_tx tx /\ all p !! TxHash tx = Some tx.
Proof.
  intros [_ Hc _] Hin. assert (Hin' : tx ∈ upd (cat pe qu) a (l ++ l' ++ fl) a) by (by rewrite upd_eq).
  split_and!; [apply from_sender, (c_from _ _ Hc a tx Hin')|apply (c_good _ _ Hc a tx Hin')|by eapply consistent_known].
Qed.

Lemma aa_nodup p l l' fl : at_account p l l' fl -> NoDup (Nonce <$> l ++ l' ++ fl).
Proof. intros [_ Hc _]. pose proof (c_nodup _ _ Hc a) as H. by rewrite upd_eq in H. Qed.

Lemma aa_put_queue p l l' fl L l2 fl2 (Q : TxPool -> unit -> Prop) : at_account p l l' fl -> list_ok L l2 ->
  TxList.strict L = false -> l' ++ fl ≡ₚ l2 ++ fl2 -> (forall p', at_account p' l l2 fl2 -> queue p' !! a = Some L -> Q p' tt) ->
  wp (put_queue a L) p Q.
Proof.
  intros Ha HL Hs Hp HQ. eapply (put_queue_spec [] p _ _ (aa_rep _ _ _ _ Ha)); [done|done|]. intros p' Hr' Ha' HL' Hf'. apply HQ; [|done].
  split.
  - eapply rep_ext; [done| |exact Hr']. intros b. apply upd_twice.
  - rewrite Ha'. eapply aa_perm; [exact Ha|]. by rewrite Hp.
  - eapply frame_trans; [apply Ha|done].
Qed.

Lemma aa_put_pending p l l' fl L l2 fl2 (Q : TxPool -> unit -> Prop) : at_account p l l' fl -> list_ok L l2 ->
  TxList.strict L = true -> l ++ fl ≡ₚ l2 ++ fl2 -> (forall p', at_account p' l2 l' fl2 -> pending p' !! a = Some L -> Q p' tt) ->
  wp (put_pending a L) p Q.
Proof.
  intros Ha HL Hs Hp HQ. eapply (put_pending_spec [] p _ _ (aa_rep _ _ _ _ Ha)); [done|done|]. intros p' Hr' Ha' HL' Hf'. apply HQ; [|done].
  split.
  - eapply rep_ext; [|done|exact Hr']. intros b. apply upd_twice.
  - rewrite Ha'. eapply aa_perm; [exact Ha|]. rewrite (Permutation_app_comm l' fl2), (Permutation_app_comm l' fl), !app_assoc. by rewrite Hp.
  - eapply frame_trans; [apply Ha|done].
Qed.

Lemma aa_forget p l l' fl txs fl2 (Q : TxPool -> unit -> Prop) : at_account p l l' fl -> fl ≡ₚ txs ++ fl2 ->
  (forall p', at_account p' l l' fl2 -> frame a p p' -> (forall b, pending p' !! b = pending p !! b) -> Q p' tt) -> wp (forget_all txs) p Q.
Proof.
  intros Ha Hp HQ. apply (forget_all_spec [] p _ _ (upd (cat pe qu) a (l ++ l' ++ fl)) a txs (l ++ l' ++ fl2) _ (aa_rep _ _ _ _ Ha) (aa_cons _ _ _ _ Ha)).
  - rewrite upd_eq, Hp, !(app_assoc l l'). apply Permutation_app_swap_app.
  - intros p' Hr' Hc' Hf'. apply HQ.
    + split; [done| |eapply frame_trans; [apply Ha|apply Hf']]. eapply consistent_perm; [|exact Hc']. intros b. by rewrite upd_twice.
    + apply Hf'.
    + intros b. apply (f_pending _ _ _ (Hf' (b + 1))). lia.
Qed.

Lemma aa_requeue p l l' fl txs fl2 (Q : TxPool -> unit -> Prop) : at_account p l l' fl -> fl ≡ₚ txs ++ fl2 ->
  (forall p' l2, at_account p' l l2 fl2 -> l2 ≡ₚ txs ++ l' -> frame a p p' -> Q p' tt) -> wp (requeue_all txs) p Q.
Proof.
  intros Ha Hp HQ. apply (requeue_all_spec [] p _ _ a txs _ (aa_rep _ _ _ _ Ha)).
  - apply Forall_forall. intros tx Hin. destruct (aa_elem p l l' fl tx Ha) as (H1 & H2 & H3).
    { rewrite Hp, !elem_of_app. tauto. }
    split_and!; [done|apply H2|eauto].
  - rewrite upd_eq. pose proof (aa_nodup _ _ _ _ Ha) as Hnd. rewrite Hp, (Permutation_app_swap_app l' txs fl2) in Hnd.
    rewrite (app_assoc txs l'), (Permutation_app_swap_app l), fmap_app in Hnd. by apply NoDup_app in Hnd as (? & _ & _).
  - intros p' l2 Hr' Hl2 Ha' Hf'. rewrite upd_eq in Hl2. apply (HQ p' l2); [|done|done]. split.
    + eapply rep_ext; [done| |exact Hr']. intros b. apply upd_twice.
    + rewrite Ha'. eapply aa_perm; [exact Ha|]. rewrite Hl2, Hp. f_equiv. by rewrite (Permutation_app_comm txs l'), <- app_assoc.
    + eapply frame_trans; [apply Ha|done].
Qed.

Lemma aa_promote now p l l' fl txs fl2 (Q : TxPool -> unit -> Prop) : at_account p l l' fl -> fl ≡ₚ txs ++ fl2 ->
  (forall p' l2, at_account p' l2 l' fl2 -> l2 ≡ₚ txs ++ l -> Q p' tt) ->
  wp (for_each txs (fun tx => promoteTx now a (TxHash tx) tx)) p Q.
Proof.
  intros Ha Hp HQ. apply (wp_for_each (fun rest q => exists l2, at_account q l2 l' (rest ++ fl2) /\ l2 ++ rest ≡ₚ txs ++ l)).
  - intros tx rest q (l2 & Hq & Hl2). assert (Hin : tx ∈ l2 ++ l' ++ (tx :: rest) ++ fl2) by (rewrite !elem_of_app; set_solver).
    destruct (aa_elem q _ _ _ tx Hq Hin) as (H1 & H2 & H3). apply (promote_free [] q _ _ a now tx _ (aa_rep _ _ _ _ Hq) H2); [| eauto |].
    + rewrite upd_eq. pose proof (aa_nodup _ _ _ _ Hq) as Hnd. rewrite fmap_app in Hnd. apply NoDup_app in Hnd as (_ & Hnd & _).
      intros Hx. apply (Hnd _ Hx). apply in_nonces. rewrite !elem_of_app. set_solver.
    + intros q' l3 Hr' Hl3 Ha' Hf'. rewrite upd_eq in Hl3. exists l3. split.
      * split.
        -- eapply rep_ext; [|done|exact Hr']. intros b. apply upd_twice.
        -- rewrite Ha'. eapply aa_perm; [exact Hq|]. rewrite Hl3. simpl. rewrite !(app_assoc l2 l'). apply Permutation_middle.
        -- eapply frame_trans; [apply Hq|done].
      * rewrite Hl3, <- Hl2. simpl. apply Permutation_middle.
  - exists l. split; [|apply Permutation_app_comm]. destruct Ha. split; [done| |done]. eapply aa_perm; [by split|]. by rewrite Hp.
  - intros p' (l2 & Hq & Hl2). rewrite app_nil_r in Hl2. by eapply HQ.
Qed.

End Account.

End Pool.
End TxPoolProps.
