(* ===== verification/TxPoolInv.v ===== *)
(** Every operation of the pool returns and keeps its parts in step. *)

From S2P Require Import Prelude Params Bytes Heap TxTypes TxList TxListProps TxPriced ManagedState Evm StateTransition TxPool TxPoolProps.
Import TxTypes TxPool TxListProps TxPricedProps HeapProps TxPoolProps.

Module TxPoolInv.
Section Pool.
Context {ords : Orders} {laws : OrdersLaws}.

(** [m] returns, keeps the pool in step and the chain's view as it was. *)
Definition keeps_ok {A} (m : SM TxPool A) : Prop := forall p, pool_ok p -> wp m p (fun p' _ => pool_ok p' /\ same p p').

Lemma keeps_ok_bind {A B} (m : SM TxPool A) (k : A -> SM TxPool B) : keeps_ok m -> (forall x, keeps_ok (k x)) -> keeps_ok (m ≫= k).
Proof.
  intros Hm Hk p Hp. wp_step. eapply wp_mono; [by apply Hm|]. simpl. intros p1 x [Hp1 Hs1].
  eapply wp_mono; [by apply Hk|]. simpl. intros p2 y [Hp2 Hs2]. split; [done|by eapply same_trans].
Qed.

Lemma keeps_ok_ret {A} (x : A) : keeps_ok (mret x).
Proof. intros p Hp. wp_step. split; [done|apply same_refl]. Qed.

Lemma keeps_ok_gets {A} (f : TxPool -> A) : keeps_ok (gets f).
Proof. intros p Hp. wp_step. split; [done|apply same_refl]. Qed.

Lemma keeps_ok_for_each {A} (l : list A) body : (forall x, keeps_ok (body x)) -> keeps_ok (for_each l body).
Proof. intros Hb. induction l as [|x l IH]; simpl; [apply keeps_ok_ret|]. by apply keeps_ok_bind. Qed.

Lemma aa_same p0 pe qu a p l l' : at_account p0 pe qu a p l l' [] -> pool_ok p /\ same p0 p.
Proof. intros H. split; [by eapply aa_ok|apply (aa_frame _ _ _ _ _ _ _ _ H)]. Qed.

(** ** promote_account *)

Lemma Forward_list t L l : list_ok L l -> exists m, TxList.Forward t (TxList.txs L) = Ret (m, filter (fun tx => Nonce tx < t) l) /\
  list_ok (TxList.with_txs L m) (filter (fun tx => t <= Nonce tx) l).
Proof.
  intros HL. destruct (Forward_repr t _ _ (lo_repr _ _ HL)) as (m & Hf & Hr). exists m. split; [done|].
  apply (list_ok_sub L l); [done|done|]. by intros x [_ ?]%list_elem_of_filter.
Qed.

Lemma Ready_list t L l : list_ok L l -> exists m, TxList.Ready t (TxList.txs L) = Ret (m, (ready_of t l).1) /\
  list_ok (TxList.with_txs L m) (ready_of t l).2 /\ (ready_of t l).1 ++ (ready_of t l).2 = l.
Proof.
  intros HL. destruct (Ready_repr t _ _ (lo_repr _ _ HL)) as (m & Hf & Hr). exists m.
  assert (Happ : (ready_of t l).1 ++ (ready_of t l).2 = l).
  { unfold ready_of. destruct l as [|tx l]; [done|]. destruct (_ <? _); [done|]. apply consecutive_app. }
  split_and!; [done| |done]. apply (list_ok_sub L l); [done|done|]. intros x Hx. rewrite <- Happ. apply elem_of_app. by right.
Qed.

Lemma Cap_list n L l : list_ok L l -> exists m, TxList.Cap n (TxList.txs L) = Ret (m, reverse (drop n l)) /\
  list_ok (TxList.with_txs L m) (take n l).
Proof.
  intros HL. destruct (Cap_repr n _ _ (lo_repr _ _ HL)) as (m & Hf & Hr). exists m. split; [done|].
  apply (list_ok_sub L l); [done|done|]. intros x Hx. rewrite <- (take_drop n l). apply elem_of_app. by left.
Qed.

Lemma cap_int_list z L l : 0 <= z -> list_ok L l -> exists m, cap_int z (TxList.txs L) = Ret (m, reverse (drop (Z.to_nat z) l)) /\
  list_ok (TxList.with_txs L m) (take (Z.to_nat z) l).
Proof. intros Hz HL. unfold cap_int. rewrite (proj2 (Z.ltb_ge _ _) Hz). by apply Cap_list. Qed.

Lemma Flatten_list L l : list_ok L l -> let '(m, txs) := TxList.Flatten ord_txs (TxList.txs L) in
  txs = l /\ list_ok (TxList.with_txs L m) l.
Proof.
  intros HL. pose proof (Flatten_repr _ _ _ ord_txs_ok (lo_repr _ _ HL)) as HF. destruct (TxList.Flatten _ _) as [m txs].
  destruct HF as [-> Hr]. split; [done|]. by apply (list_ok_sub L l).
Qed.

Lemma split_filter t l : l ≡ₚ filter (fun tx => Nonce tx < t) l ++ filter (fun tx => t <= Nonce tx) l.
Proof.
  induction l as [|x l IH]; [done|]. rewrite !filter_cons. destruct (decide (Nonce x < t)).
  - rewrite decide_False by lia. simpl. by rewrite IH at 1.
  - rewrite decide_True by lia. rewrite IH at 1. apply Permutation_middle.
Qed.

(** A list that is not strict has nothing invalidated. *)
Lemma FilterList_loose cl gl L l : list_ok L l -> TxList.strict L = false ->
  exists L' removed, TxList.FilterList ord_txs ord_txs' cl gl L = (L', removed, []) /\ TxList.strict L' = false /\
    list_ok L' (filter (fun tx => too_dear cl gl tx = false) l) /\ l ≡ₚ filter (fun tx => too_dear cl gl tx = false) l ++ removed.
Proof.
  intros HL Hs. pose proof (FilterList_ok _ _ ord_txs_ok ord_txs'_ok cl gl L l HL) as HF.
  destruct (TxList.FilterList ord_txs ord_txs' cl gl L) as [[L' removed] invalids]. destruct HF as (H1 & H2 & H3 & H4).
  rewrite Hs in H1, H2, H4. simpl in H1, H4. assert (invalids = []) as ->.
  { apply nil_length_inv. apply Permutation_length in H4. rewrite (Permutation_length (partition_perm (too_dear cl gl) l)) in H4.
    rewrite !length_app in H4. rewrite (Permutation_length H3) in H4. lia. }
  rewrite app_nil_r in H4. by eexists _, _.
Qed.

Lemma cap_queue_spec p0 pe qu a p l l' L (Q : TxPool -> TxList.txSortedMap -> Prop) :
  at_account p0 pe qu a p l l' [] -> list_ok L l' -> TxList.strict L = false ->
  (forall p' m l2, at_account p0 pe qu a p' l l2 [] -> list_ok (TxList.with_txs L m) l2 -> Q p' m) -> wp (cap_queue a L) p Q.
Proof.
  intros Ha HL Hs HQ. unfold cap_queue. do 2 wp_step. destruct (decide (a ∈ locals p)).
  { wp_step. eapply HQ; [done|]. by destruct L. }
  pose proof (co_accountQueue _ (rep_config _ _ _ _ (aa_rep _ _ _ _ _ _ _ _ Ha))) as Hq.
  destruct (cap_int_list (i64 (AccountQueue (config p))) L l') as (m & Hm & Hok); [rewrite i64_id; go_lia|done|].
  set (k := Z.to_nat (i64 (AccountQueue (config p)))) in *. wp_by Hm. wp_step.
  eapply (aa_put_queue p0 pe qu a p l l' [] _ (take k l') (reverse (drop k l')) _ Ha); [done|done| |].
  { rewrite app_nil_r, reverse_Permutation. by rewrite take_drop. }
  intros p1 Ha1 _. wp_step. eapply (aa_forget p0 pe qu a p1 _ _ _ _ [] _ Ha1); [by rewrite app_nil_r|]. intros p2 Ha2 _ _. wp_step.
  by eapply HQ.
Qed.

Lemma promote_account_ok now a : keeps_ok (promote_account now a).
Proof.
  intros p (pe & qu & Hr & Hc). unfold promote_account. do 2 wp_step. pose proof (rep_queue _ _ _ _ Hr a) as Hq.
  destruct (queue p !! a) as [L|] eqn:EL; [|wp_step; split; [by eexists _, _|apply same_refl]].
  destruct Hq as [HL Hs]. pose proof (aa_start p pe qu a Hr Hc) as Ha. do 4 wp_step.
  set (t := cs_nonce (currentState p) a). destruct (Forward_list t L _ HL) as (m1 & Hm1 & HL1). wp_by Hm1. wp_step.
  eapply (aa_put_queue p pe qu a p _ _ _ _ _ (filter (fun tx => Nonce tx < t) (qu a)) _ Ha HL1); [done| |].
  { rewrite app_nil_r. rewrite (split_filter t (qu a)) at 1. apply Permutation_app_comm. }
  intros p1 Ha1 _. wp_step. eapply (aa_forget p pe qu a p1 _ _ _ _ [] _ Ha1); [by rewrite app_nil_r|]. intros p2 Ha2 _ _.
  set (q1 := filter (fun tx => t <= Nonce tx) (qu a)) in *.
  destruct (FilterList_loose (cs_balance (currentState p) a) (currentMaxGas p) _ q1 HL1) as (L2 & drops & HF & Hs2 & HL2 & Hp2); [done|].
  rewrite HF. set (q2 := filter _ q1) in *. wp_step.
  eapply (aa_put_queue p pe qu a p2 _ _ _ _ q2 drops _ Ha2 HL2 Hs2); [by rewrite app_nil_r|]. intros p3 Ha3 _. wp_step.
  eapply (aa_forget p pe qu a p3 _ _ _ _ [] _ Ha3); [by rewrite app_nil_r|]. intros p4 Ha4 _ _. wp_step.
  eapply (getNonce_spec [] p4 _ _ (aa_rep _ _ _ _ _ _ _ _ Ha4)). intros p5 next Hr5 Hal5 Hf5.
  assert (Ha5 : at_account p pe qu a p5 (pe a) q2 []).
  { split; [done|rewrite Hal5; apply Ha4|]. eapply frame_trans; [apply Ha4|apply Hf5]. }
  destruct (Ready_list next L2 q2 HL2) as (m3 & Hm3 & HL3 & Happ). wp_by Hm3. wp_step.
  eapply (aa_put_queue p pe qu a p5 _ _ _ _ _ (ready_of next q2).1 _ Ha5 HL3); [done| |].
  { rewrite app_nil_r. rewrite <- Happ at 1. apply Permutation_app_comm. }
  intros p6 Ha6 _. wp_step. eapply (aa_promote p pe qu a now p6 _ _ _ _ [] _ Ha6); [by rewrite app_nil_r|]. intros p7 l7 Ha7 _.
  wp_step. eapply (cap_queue_spec p pe qu a p7 _ _ _ _ Ha7 HL3); [done|]. intros p8 m8 l8 Ha8 HL8.
  eapply (drop_queue_spec [] p8 _ _ (aa_rep _ _ _ _ _ _ _ _ Ha8)); [by rewrite upd_eq|]. intros p9 Hr9 Hal9 Hf9.
  apply (aa_same p pe qu a p9 l7 l8). split; [done|rewrite Hal9; apply Ha8|]. eapply frame_trans; [apply Ha8|done].
Qed.

(** ** demoteUnexecutables *)

Lemma FilterList_strict cl gl L l : list_ok L l -> TxList.strict L = true ->
  exists L' l' removed invalids, TxList.FilterList ord_txs ord_txs' cl gl L = (L', removed, invalids) /\ TxList.strict L' = true /\
    list_ok L' l' /\ l ≡ₚ l' ++ removed ++ invalids.
Proof.
  intros HL Hs. pose proof (FilterList_ok _ _ ord_txs_ok ord_txs'_ok cl gl L l HL) as HF.
  destruct (TxList.FilterList ord_txs ord_txs' cl gl L) as [[L' removed] invalids]. destruct HF as (H1 & H2 & H3 & H4).
  eexists _, _, _, _. split_and!; [done|congruence|exact H1|exact H4].
Qed.

Lemma close_gap_spec p0 pe qu a p l l' n L (Q : TxPool -> TxList.txSortedMap -> Prop) :
  at_account p0 pe qu a p l l' [] -> list_ok L l -> TxList.strict L = true ->
  (forall p' m l2 l2', at_account p0 pe qu a p' l2 l2' [] -> list_ok (TxList.with_txs L m) l2 -> Q p' m) ->
  wp (close_gap a n L) p Q.
Proof.
  intros Ha HL Hs HQ. unfold close_gap. destruct (_ && _).
  - destruct (Cap_list 0 L l HL) as (m & Hm & Hok). simpl in Hm, Hok. rewrite take_0 in Hok. rewrite drop_0 in Hm. wp_by Hm. wp_step.
    eapply (aa_put_pending p0 pe qu a p l l' [] _ [] (reverse l) _ Ha Hok); [done|by rewrite app_nil_r, reverse_Permutation|].
    intros p1 Ha1 Hp1. wp_step. eapply (aa_requeue p0 pe qu a p1 _ _ _ _ [] _ Ha1); [by rewrite app_nil_r|]. intros p2 l2 Ha2 _ _. wp_step.
    by eapply HQ.
  - wp_step. destruct L. by eapply HQ.
Qed.

(** Every list of pending transactions has some. *)
Definition filled (p : TxPool) (a : Address) : Prop := forall L, pending p !! a = Some L -> TxList.Len (TxList.txs L) <> 0%nat.

Lemma demote_account_spec p a : pool_ok p -> wp (demote_account a) p (fun p' _ => pool_ok p' /\ frame a p p' /\ filled p' a).
Proof.
  intros (pe & qu & Hr & Hc). unfold demote_account. do 2 wp_step. pose proof (rep_pending _ _ _ _ Hr a) as Hq.
  destruct (pending p !! a) as [L|] eqn:EL.
  2:{ wp_step. split_and!; [by eexists _, _|apply pool_frame_refl|]. intros L. by rewrite EL. }
  destruct Hq as [HL Hs]. pose proof (aa_start p pe qu a Hr Hc) as Ha. do 4 wp_step.
  set (t := cs_nonce (currentState p) a). destruct (Forward_list t L _ HL) as (m1 & Hm1 & HL1). wp_by Hm1. wp_step.
  eapply (aa_put_pending p pe qu a p _ _ _ _ _ (filter (fun tx => Nonce tx < t) (pe a)) _ Ha HL1); [done| |].
  { rewrite app_nil_r. rewrite (split_filter t (pe a)) at 1. apply Permutation_app_comm. }
  intros p1 Ha1 _. wp_step. eapply (aa_forget p pe qu a p1 _ _ _ _ [] _ Ha1); [by rewrite app_nil_r|]. intros p2 Ha2 _ _.
  set (q1 := filter (fun tx => t <= Nonce tx) (pe a)) in *.
  destruct (FilterList_strict (cs_balance (currentState p) a) (currentMaxGas p) _ q1 HL1) as (L2 & q2 & drops & invalids & HF & Hs2 & HL2 & Hp2); [done|].
  rewrite HF. wp_step.
  eapply (aa_put_pending p pe qu a p2 _ _ _ _ q2 (drops ++ invalids) _ Ha2 HL2 Hs2); [by rewrite app_nil_r|]. intros p3 Ha3 _. wp_step.
  eapply (aa_forget p pe qu a p3 _ _ _ drops invalids _ Ha3); [done|]. intros p4 Ha4 _ _. wp_step.
  eapply (aa_requeue p pe qu a p4 _ _ _ _ [] _ Ha4); [by rewrite app_nil_r|]. intros p5 l5 Ha5 _ _. wp_step.
  eapply (close_gap_spec p pe qu a p5 _ _ _ _ _ Ha5 HL2 Hs2). intros p6 m6 l6 l6' Ha6 HL6.
  eapply (drop_pending_spec [] p6 _ _ (aa_rep _ _ _ _ _ _ _ _ Ha6)); [by rewrite upd_eq|]. intros p7 Hr7 Hal7 Hdrop Hf7.
  assert (Ha7 : at_account p pe qu a p7 l6 l6' []).
  { split; [done|rewrite Hal7; apply Ha6|]. eapply frame_trans; [apply Ha6|done]. }
  split_and!; [by eapply aa_ok|apply Ha7|]. intros L7 HL7. rewrite upd_eq, HL7 in Hdrop. destruct Hdrop as [Hne|?]; [|done].
  pose proof (rep_pending _ _ _ _ Hr7 a) as Hl. rewrite HL7, upd_eq in Hl. rewrite (list_ok_len _ _ (proj1 Hl)).
  by intros ?%nil_length_inv.
Qed.

(** The loop over the accounts leaves no empty list. *)
Lemma demoteUnexecutables_spec p : pool_ok p -> wp demoteUnexecutables p (fun p' _ => pool_ok p' /\ same p p' /\ forall a, filled p' a).
Proof.
  intros Hp. unfold demoteUnexecutables. do 2 wp_step. set (keys := (ord_lists (pending p)).*1).
  assert (Hkeys : forall a, a ∉ keys -> pending p !! a = None).
  { intros a Ha. apply eq_None_not_Some. intros [L HL]. apply Ha. unfold keys. rewrite (ord_lists_ok (pending p)).
    apply list_elem_of_fmap. exists (a, L). split; [done|by apply elem_of_map_to_list]. }
  apply (wp_for_each (fun rest q => pool_ok q /\ same p q /\ forall a, a ∉ rest -> filled q a)).
  - intros a rest q (Hq & Hs & Hf). eapply wp_mono; [by apply demote_account_spec|]. simpl. intros q' _ (Hq' & Hf' & Hfa).
    split_and!; [done|eapply same_trans; [exact Hs|apply Hf']|]. intros b Hb. destruct (decide (b = a)) as [->|Hne]; [done|].
    intros L HL. rewrite (f_pending _ _ _ Hf') in HL by done. apply (Hf b); [by apply not_elem_of_cons|done].
  - split_and!; [done|apply same_refl|]. intros a Ha L. by rewrite Hkeys.
  - intros p' (Hp' & Hs & Hf). split_and!; [done|done|]. intros a. apply Hf, not_elem_of_nil.
Qed.

(** ** add *)

Lemma rep_weaken ex tx p pe qu : rep (tx :: ex) p pe qu -> ~ mapped (all p) tx -> rep ex p pe qu.
Proof.
  intros [] Hn. split; try done. intros y Hy. destruct (rep_priced0 y Hy) as [?|[->|?]%elem_of_cons]; [by left|done|by right].
Qed.

(** Dropped from the heap first, then from the pool. *)
Lemma remove_dropped p pe qu txs (Q : TxPool -> unit -> Prop) : rep txs p pe qu -> consistent (cat pe qu) (all p) ->
  (forall p', pool_ok p' -> same p p' -> all p' ⊆ all p -> Q p' tt) ->
  wp (for_each txs (fun tx => removeTx (TxHash tx) false)) p Q.
Proof.
  intros Hr Hc HQ. apply (wp_for_each (fun rest q => exists pe qu, rep rest q pe qu /\ consistent (cat pe qu) (all q) /\ same p q /\ all q ⊆ all p)).
  - intros tx rest q (pe1 & qu1 & Hr1 & Hc1 & Hs1 & Hsub). apply (removeTx_spec _ q pe1 qu1 _ _ _ Hr1 Hc1).
    intros q' pe2 qu2 Hr2 Hc2 Ha2 _ Hs2. exists pe2, qu2. split_and!; [|done|by eapply same_trans|].
    + eapply rep_weaken; [exact Hr2|]. unfold mapped. by rewrite Ha2, lookup_delete_eq.
    + rewrite Ha2. etrans; [apply delete_subseteq|done].
  - by exists pe, qu.
  - intros p' (pe1 & qu1 & Hr1 & Hc1 & Hs1 & Hsub). apply HQ; [by exists pe1, qu1|done|done].
Qed.

Lemma capacity_eq c : config_ok c -> capacity c = GlobalSlots c + GlobalQueue c.
Proof. intros []. unfold capacity. apply u64_id. go_lia. Qed.

Lemma underpriced_spec p pe qu tx local (Q : TxPool -> bool -> Prop) : rep [] p pe qu -> consistent (cat pe qu) (all p) ->
  (forall p' b, rep [] p' pe qu -> all p' = all p -> same p p' -> Q p' b) -> wp (underpriced tx local) p Q.
Proof.
  intros Hr Hc HQ. unfold underpriced. destruct local; [wp_step; apply HQ; [done|done|apply same_refl]|]. do 2 wp_step.
  destruct (Underpriced_spec (locals p) (all p) tx (priced p) (rep_heap _ _ _ _ Hr)) as (l' & b & Hu & Hh & Hk & _). wp_by Hu. do 2 wp_step. wp_step.
  apply HQ; [|done|by split]. eapply rep_set_all; [done|done|]. intros y Hy. destruct (rep_priced _ _ _ _ Hr y Hy); [left; auto|by right].
Qed.

Lemma make_room_spec p tx local (Q : TxPool -> bool -> Prop) : pool_ok p ->
  (forall p' b, pool_ok p' -> same p p' -> all p' ⊆ all p -> Q p' b) -> wp (make_room tx local) p Q.
Proof.
  intros (pe & qu & Hr & Hc) HQ. assert (Hcap := capacity_eq _ (rep_config _ _ _ _ Hr)). pose proof (rep_config _ _ _ _ Hr) as Hcfg.
  unfold make_room. do 2 wp_step. destruct (_ <? capacity _) eqn:Ec; [wp_step; apply HQ; [by exists pe, qu|apply same_refl|done]|].
  bool_to_prop. wp_step. apply (underpriced_spec p pe qu tx local _ Hr Hc). intros p1 b Hr1 Ha1 Hs1.
  assert (Hp1 : pool_ok p1) by (exists pe, qu; by rewrite Ha1). destruct b; [wp_step; apply HQ; [done|done|by rewrite Ha1]|].
  do 2 wp_step. set (count := Z.of_nat _ - _). assert (Hcount : 0 <= count).
  { unfold count. rewrite Hcap in *. destruct Hcfg. destruct (decide (GlobalSlots (config p) + GlobalQueue (config p) = 0)) as [->|].
    - by change (i64 (u64 (0 - 1))) with (-1); lia.
    - rewrite u64_id, i64_id by go_lia. lia. }
  destruct (Discard_spec (locals p) (all p) count (priced p1) (rep_heap _ _ _ _ Hr1) Hcount) as (l' & d & Hd & Hh & Hk & _ & _).
  wp_by Hd. do 2 wp_step. set (p2 := set_all (all p) l' p1). wp_step.
  assert (Hr2 : rep d p2 pe qu).
  { eapply rep_set_all; [done|done|]. intros y Hy. apply Hk; [done|]. rewrite <- Ha1 in Hy.
    destruct (rep_priced _ _ _ _ Hr1 y Hy) as [?|Hn]; [done|by apply not_elem_of_nil in Hn]. }
  apply (remove_dropped p2 pe qu d _ Hr2); [done|]. intros p3 Hp3 Hs3 Hsub. wp_step. apply HQ; [done| |done].
  eapply same_trans; [exact Hs1|]. eapply (same_trans _ p2); [by split|done].
Qed.

Lemma validate_sender p tx local : validateTx p tx local = None -> exists a, TxSender tx = Some a.
Proof. unfold validateTx. destruct (TxSender tx) as [a|]; [eauto|]. repeat case_match; done. Qed.

(** One transaction in the place of another of its nonce. *)
Lemma consistent_replace c al a o tx r : consistent c al -> c a ≡ₚ o :: r -> Nonce o = Nonce tx -> al !! TxHash tx = None ->
  TxSender tx = Some a -> good_tx tx -> consistent (upd c a (tx :: r)) (<[TxHash tx := tx]> (delete (TxHash o) al)).
Proof.
  intros Hc Hp Hn Hnew Hs Hg. pose proof (consistent_remove c al a o r Hc Hp) as Hc1. eapply consistent_perm; cycle 1.
  - apply (consistent_insert _ _ a tx Hc1); [|done| |done].
    + apply lookup_delete_None. by right.
    + rewrite upd_eq. pose proof (c_nodup _ _ Hc a) as Hnd. rewrite Hp in Hnd. simpl in Hnd. rewrite <- Hn. by apply NoDup_cons in Hnd as [? _].
  - intros b. by rewrite upd_twice, upd_eq.
Qed.

Lemma consistent_cat_pending pe qu a l r al : l ≡ₚ r -> consistent (upd (cat pe qu) a (r ++ qu a)) al -> consistent (cat (upd pe a l) qu) al.
Proof.
  intros Hl Hc. eapply consistent_perm; [|exact Hc]. intros b. unfold cat, upd. destruct (decide (b = a)) as [->|]; [by rewrite Hl|done].
Qed.

Lemma consistent_cat_queue pe qu a l r al : l ≡ₚ r -> consistent (upd (cat pe qu) a (pe a ++ r)) al -> consistent (cat pe (upd qu a l)) al.
Proof.
  intros Hl Hc. eapply consistent_perm; [|exact Hc]. intros b. unfold cat, upd. destruct (decide (b = a)) as [->|]; [by rewrite Hl|done].
Qed.

(** What becomes of the transaction. *)
Definition added (tx : Transaction) (p' : TxPool) (r : PoolError + bool) : Prop :=
  match r with
  | inl e => e = ErrKnownTransaction \/ all p' !! TxHash tx = None
  | inr _ => all p' !! TxHash tx = Some tx
  end.

Lemma rep_journalTx ex p pe qu from tx : rep ex p pe qu ->
  exists p', journalTx from tx p = Ret (p', tt) /\ rep ex p' pe qu /\ all p' = all p /\ same p p'.
Proof.
  intros Hr. eexists. split; [done|]. destruct (journal p); [destruct (decide (from ∈ locals p))|].
  - split_and!; [by destruct Hr; split|done|done].
  - split_and!; [done|done|apply same_refl].
  - split_and!; [done|done|apply same_refl].
Qed.

(** The end of [add]: bookkeeping that does not touch the lists. *)
Lemma journal_spec ex p pe qu from tx (Q : TxPool -> unit -> Prop) : rep ex p pe qu ->
  (forall p', rep ex p' pe qu -> all p' = all p -> same p p' -> Q p' tt) -> wp (journalTx from tx) p Q.
Proof. intros Hr HQ. destruct (rep_journalTx ex p pe qu from tx Hr) as (p' & Hj & H1 & H2 & H3). exists p', tt. auto. Qed.

(** The nonce of the transaction is taken by a pending one. *)
Lemma add_direct p pe qu a tx o L bump (Q : TxPool -> PoolError + bool -> Prop) :
  rep [] p pe qu -> consistent (cat pe qu) (all p) -> TxSender tx = Some a -> good_tx tx -> all p !! TxHash tx = None ->
  pending p !! a = Some L -> list_find_nonce (Nonce tx) (pe a) = Some o -> bump = PriceBump (config p) ->
  (forall p' r, pool_ok p' -> same_chain p p' -> added tx p' r -> Q p' r) ->
  wp (let '(list, inserted, old) := TxList.Add tx bump L in
      if negb inserted then mret (inl ErrReplaceUnderpriced) else
      _ ← put_pending a list; _ ← forget_old old; _ ← remember (TxHash tx) tx; _ ← journalTx a tx; _ ← send tx;
      mret (inr (bool_decide (is_Some old)))) p Q.
Proof.
  intros Hr Hc Hsd Hg Hnew HL Hfind -> HQ. pose proof (rep_pending _ _ _ _ Hr a) as Hl. rewrite HL in Hl. destruct Hl as [Hok Hs].
  pose proof (Add_ok tx (PriceBump (config p)) L (pe a) Hok (gt_nonce _ Hg) (co_bump _ (rep_config _ _ _ _ Hr))) as HA.
  destruct (TxList.Add tx _ L) as [[L' []] old]; cbn [negb].
  - destruct HA as (_ & -> & HL' & Hs'). rewrite Hfind. wp_step.
    eapply (put_pending_spec [] p pe qu Hr); [exact HL'|congruence|]. intros p1 Hr1 Ha1 _ Hf1. wp_step.
    apply (forget_old_spec [] p1 _ _ Hr1). intros p2 Hr2 Ha2 Hf2. unfold remember. do 2 wp_step. wp_step.
    apply (journal_spec [] _ _ _ a tx _ (rep_remember [] p2 _ _ (TxHash tx) tx Hr2)). intros p3 Hr3 Ha3 Hs3. unfold send. do 2 wp_step. wp_step.
    assert (Hall : all p3 = <[TxHash tx := tx]> (delete (TxHash o) (all p))) by (rewrite Ha3; simpl; by rewrite Ha2, Ha1).
    apply HQ.
    + exists (upd pe a (put tx (pe a))), qu. split; [by destruct Hr3; split|]. simpl. rewrite Hall.
      destruct (put_replace tx (pe a) o (list_ok_sorted _ _ Hok) Hfind) as (r & Hp1 & Hp2).
      apply (consistent_cat_pending pe qu a _ (tx :: r)); [done|]. apply consistent_replace; try done.
      * unfold cat. by rewrite Hp1.
      * by apply find_nonce_Some in Hfind as [_ ?].
    + apply same_chain_of. eapply same_trans; [apply Hf1|]. eapply same_trans; [apply (f_same _ _ _ (Hf2 a))|].
      eapply (same_trans _ (set_all (<[TxHash tx := tx]> (all p2)) (TxPriced.Put tx (priced p2)) p2)); [by split|].
      eapply same_trans; [exact Hs3|by split].
    + simpl. rewrite Hall. apply lookup_insert_eq.
  - destruct HA as [_ ->]. wp_step. apply HQ; [by exists pe, qu|apply same_chain_of, same_refl|by right].
Qed.

(** The nonce is free among the pending ones. *)
Lemma add_queue p pe qu a tx (local : bool) (Q : TxPool -> PoolError + bool -> Prop) :
  rep [] p pe qu -> consistent (cat pe qu) (all p) -> TxSender tx = Some a -> good_tx tx -> all p !! TxHash tx = None ->
  list_find_nonce (Nonce tx) (pe a) = None ->
  (forall p' r, pool_ok p' -> same_chain p p' -> added tx p' r -> Q p' r) ->
  wp (r ← enqueueTx (TxHash tx) tx;
      match r with
      | inl e => mret (inl e)
      | inr replace =>
          _ ← (if local then modify (fun p => set_locals ({[a]} ∪ locals p) p) else mret tt);
          _ ← journalTx a tx;
          mret (inr replace)
      end) p Q.
Proof.
  intros Hr Hc Hsd Hg Hnew Hfree HQ. wp_step. apply (enqueueTx_spec [] p pe qu a tx _ Hr (from_sender _ _ Hsd) (gt_nonce _ Hg)).
  { intros p1 _ Hr1 Ha1 Hf1. wp_step. apply HQ; [exists pe, qu; by rewrite Ha1|apply same_chain_of, Hf1|right; by rewrite Ha1]. }
  intros p1 _ Hr1 Ha1 Hf1. set (old := list_find_nonce (Nonce tx) (qu a)) in *.
  assert (Hall : all p1 = <[TxHash tx := tx]> (forgotten old (all p))).
  { rewrite Ha1. unfold remembered. replace (forgotten old (all p) !! TxHash tx) with (@None Transaction); [done|].
    destruct old; simpl; [|done]. symmetry. apply lookup_delete_None. by right. }
  assert (Hc1 : consistent (cat pe (upd qu a (put tx (qu a)))) (all p1)).
  { rewrite Hall. destruct old as [o|] eqn:Eo; simpl.
    - pose proof (rep_queue _ _ _ _ Hr) as Hq. pose proof (find_nonce_Some _ _ _ Eo) as [Hin Hno].
      destruct (lists_ok_some _ _ _ _ _ Hq Hin) as (L & _ & Hok & _).
      destruct (put_replace tx (qu a) o (list_ok_sorted _ _ Hok) Eo) as (r & Hp1 & Hp2).
      apply (consistent_cat_queue pe qu a _ (tx :: r)); [done|]. eapply consistent_perm; cycle 1.
      + apply (consistent_replace (cat pe qu) (all p) a o tx (pe a ++ r)); try done. unfold cat. rewrite Hp1. symmetry. apply Permutation_middle.
      + intros b. apply upd_upd_perm, Permutation_middle.
    - apply (consistent_cat_queue pe qu a _ (tx :: qu a)); [by apply put_free|]. eapply consistent_perm; cycle 1.
      + apply (consistent_insert (cat pe qu) (all p) a tx Hc Hnew Hsd); [|done]. unfold cat. rewrite fmap_app.
        rewrite not_elem_of_app. split; by apply find_nonce_None.
      + intros b. apply upd_upd_perm. unfold cat. apply Permutation_middle. }
  wp_step. assert (Hloc : wp (if local then modify (fun p => set_locals ({[a]} ∪ locals p) p) else mret tt) p1
    (fun q _ => q = if local then set_locals ({[a]} ∪ locals p1) p1 else p1)) by (destruct local; wp_step; done).
  eapply wp_mono; [exact Hloc|]. simpl. intros q _ ->. set (q := if local then _ else p1).
  assert (Hq : rep [] q pe (upd qu a (put tx (qu a))) /\ all q = all p1 /\ same_chain p1 q).
  { unfold q. destruct local; [|by split_and!; [|done|apply same_chain_of, same_refl]].
    split_and!; [by destruct Hr1; split|done|]. split; [done|done|done|]. simpl. set_solver. }
  destruct Hq as (Hrq & Haq & Hsq). wp_step. apply (journal_spec [] q _ _ a tx _ Hrq). intros p3 Hr3 Ha3 Hs3. wp_step.
  apply HQ.
  - exists pe, (upd qu a (put tx (qu a))). split; [done|]. by rewrite Ha3, Haq.
  - eapply same_chain_trans; [apply same_chain_of, Hf1|]. eapply same_chain_trans; [done|by apply same_chain_of].
  - simpl. rewrite Ha3, Haq, Hall. apply lookup_insert_eq.
Qed.

Lemma add_spec p tx local : pool_ok p -> good_tx tx -> wp (add tx local) p (fun p' r => pool_ok p' /\ same_chain p p' /\ added tx p' r).
Proof.
  intros Hp Hg. unfold add. do 2 wp_step. destruct (decide (is_Some (all p !! TxHash tx))) as [Hk|Hk].
  { wp_step. split_and!; [done|apply same_chain_of, same_refl|by left]. }
  apply eq_None_not_Some in Hk. destruct (validateTx p tx local) as [e|] eqn:Ev.
  { wp_step. split_and!; [done|apply same_chain_of, same_refl|by right]. }
  destruct (validate_sender p tx local Ev) as [a Ha]. wp_step. apply (make_room_spec p tx local _ Hp). intros p1 b Hp1 Hs1 Hsub.
  assert (Hk1 : all p1 !! TxHash tx = None).
  { destruct (all p1 !! TxHash tx) as [y|] eqn:E; [|done]. rewrite (lookup_weaken _ _ _ _ E Hsub) in Hk. done. }
  destruct b; cbn [negb]; [|wp_step; split_and!; [done|by apply same_chain_of|by right]].
  destruct Hp1 as (pe & qu & Hr1 & Hc1). do 2 wp_step. rewrite (from_sender tx a Ha).
  assert (Hpost : forall p' r, pool_ok p' -> same_chain p1 p' -> added tx p' r -> pool_ok p' /\ same_chain p p' /\ added tx p' r).
  { intros p' r H1 H2 H3. split_and!; [done|eapply same_chain_trans; [by apply same_chain_of|done]|done]. }
  pose proof (rep_pending _ _ _ _ Hr1 a) as Hl. destruct (pending p1 !! a) as [L|] eqn:EL.
  2:{ apply (add_queue p1 pe qu a tx local); try done. by rewrite Hl. }
  destruct Hl as [Hok Hst]. unfold TxList.Overlaps. rewrite (list_ok_get L _ (Nonce tx) Hok).
  destruct (list_find_nonce (Nonce tx) (pe a)) as [o|] eqn:Ef.
  - rewrite bool_decide_true by eauto. eapply (add_direct p1 pe qu a tx o L); try done. by rewrite (s_config _ _ Hs1).
  - rewrite bool_decide_false by (by intros [? ?]). apply (add_queue p1 pe qu a tx local); done.
Qed.

(** ** The limit of pending transactions *)

Abbreviation list_count L := (Z.of_nat (TxList.Len (TxList.txs L))).

Lemma u64_sub x y : u64 (u64 x - y) = u64 (x - y).
Proof. unfold u64. by rewrite Zminus_mod_idemp_l. Qed.
Lemma u64_add x y : u64 (u64 x + y) = u64 (x + y).
Proof. unfold u64. by rewrite Zplus_mod_idemp_l. Qed.

Lemma total_len_insert m a L : total_len (<[a := L]> m) = u64 (total_len (delete a m) + list_count L).
Proof.
  rewrite <- insert_delete_eq. unfold total_len. rewrite map_fold_insert_L; [done| |apply lookup_delete_eq].
  intros i j x y z _ _ _. rewrite !u64_add. f_equal. lia.
Qed.

Lemma total_len_range m : is_u64 (total_len m).
Proof.
  unfold total_len. apply (map_fold_weak_ind (fun r _ => is_u64 r)); [by vm_compute|]. intros. apply u64_range.
Qed.

(** One less in one list. *)
Lemma total_len_less m a L L' : m !! a = Some L -> list_count L' = list_count L - 1 ->
  total_len (<[a := L']> m) = u64 (total_len m - 1).
Proof.
  intros Hl Hn. rewrite <- (insert_id m a L Hl) at 2. rewrite !total_len_insert, u64_sub, Hn. f_equal. lia.
Qed.

Section Limit.
Context (p0 : TxPool) (qu : contents).

(** The pool with pending transactions [pe], of which there are [pend]. *)
Record at_pending (p : TxPool) (pe : contents) (pend : Z) : Prop := {
  ap_rep : rep [] p pe qu;
  ap_cons : consistent (cat pe qu) (all p);
  ap_same : same p0 p;
  ap_dom : forall a, is_Some (pending p0 !! a) -> is_Some (pending p !! a);
  ap_total : pend = total_len (pending p)
}.

Lemma ap_list p pe pend a : at_pending p pe pend -> is_Some (pending p0 !! a) ->
  exists L, pending p !! a = Some L /\ list_ok L (pe a) /\ TxList.strict L = true.
Proof.
  intros [Hr _ _ Hd _] Hs. destruct (Hd a Hs) as [L HL]. pose proof (rep_pending _ _ _ _ Hr a) as H. rewrite HL in H. eauto.
Qed.

Lemma list_len_spec p pe pend a (Q : TxPool -> Z -> Prop) : at_pending p pe pend -> is_Some (pending p0 !! a) ->
  Q p (len (pe a)) -> wp (list_len a) p Q.
Proof.
  intros Hp Hs HQ. destruct (ap_list p pe pend a Hp Hs) as (L & HL & Hok & _). unfold list_len. do 2 wp_step. rewrite HL.
  wp_step. eapply wp_lift; [done|]. wp_step. by rewrite (list_ok_len _ _ Hok).
Qed.

Lemma drop_last_spec p pe pend a l tx (Q : TxPool -> unit -> Prop) : at_pending p pe pend -> is_Some (pending p0 !! a) ->
  pe a = l ++ [tx] -> (forall p', at_pending p' (upd pe a l) (u64 (pend - 1)) -> Q p' tt) -> wp (drop_last a) p Q.
Proof.
  intros Hp Hsome Hl HQ. destruct (ap_list p pe pend a Hp Hsome) as (L & HL & Hok & Hs).
  assert (Hlen : list_count L - 1 = Z.of_nat (length l)) by (rewrite (list_ok_len _ _ Hok), Hl, length_app; simpl; lia).
  unfold drop_last. do 2 wp_step. rewrite HL. wp_step. eapply wp_lift; [done|]. rewrite Hlen.
  destruct (cap_int_list (Z.of_nat (length l)) L _ ltac:(lia) Hok) as (m & Hm & HL').
  rewrite Hl, Nat2Z.id, take_app_length in HL'. rewrite Hl, Nat2Z.id, drop_app_length in Hm. simpl in Hm. wp_by Hm. wp_step.
  pose proof (aa_start p pe qu a (ap_rep _ _ _ Hp) (ap_cons _ _ _ Hp)) as Ha.
  eapply (aa_put_pending p pe qu a p _ _ _ _ l [tx] _ Ha HL' Hs); [by rewrite app_nil_r, Hl|]. intros p1 Ha1 Hp1. simpl. do 2 wp_step.
  assert (Htx : good_tx tx) by (eapply (aa_elem _ _ _ _ p1 _ _ _ tx Ha1); rewrite !elem_of_app; right; right; by left).
  apply (forget_spec [] p1 _ _ (aa_rep _ _ _ _ _ _ _ _ Ha1)). intros p2 Hr2 Ha2 Hf2.
  apply (lower_nonce_spec [] p2 _ _ a (Nonce tx) _ Hr2 (gt_nonce _ Htx)). intros p3 Hr3 Ha3 Hf3. wp_step. apply HQ.
  assert (Hpend : pending p3 = <[a := TxList.with_txs L m]> (pending p)).
  { apply map_eq. intros b. rewrite (f_pending _ _ _ (Hf3 (b + 1))), (f_pending _ _ _ (Hf2 (b + 1))) by lia.
    destruct (decide (b = a)) as [->|Hb]; [by rewrite lookup_insert_eq|]. rewrite lookup_insert_ne by done.
    apply (f_pending _ _ _ (aa_frame _ _ _ _ _ _ _ _ Ha1)). done. }
  split.
  - eapply rep_ext; [done| |exact Hr3]. intros b. unfold upd. by destruct (decide (b = a)) as [->|].
  - rewrite Ha3, Ha2. eapply consistent_perm; [|apply (consistent_remove _ _ a tx (l ++ qu a) (aa_cons _ _ _ _ _ _ _ _ Ha1))].
    + intros b. unfold cat, upd. by destruct (decide (b = a)) as [->|].
    + rewrite upd_eq, app_assoc. symmetry. apply Permutation_cons_append.
  - eapply same_trans; [apply Hp|]. eapply same_trans; [apply (aa_frame _ _ _ _ _ _ _ _ Ha1)|].
    eapply same_trans; [apply (f_same _ _ _ (Hf2 a))|apply (f_same _ _ _ (Hf3 a))].
  - intros b Hb. rewrite Hpend. destruct (decide (b = a)) as [->|Hne]; [by rewrite lookup_insert_eq|].
    rewrite lookup_insert_ne by done. by apply Hp.
  - rewrite Hpend, (total_len_less _ _ L _ HL), <- (ap_total _ _ _ Hp); [done|].
    by rewrite (list_ok_len _ _ HL'), (list_ok_len _ _ Hok), Hl, length_app, Nat2Z.inj_add, Z.add_simpl_r.
Qed.

(** [k] transactions less at the end of each of the accounts. *)
Definition cut (k : nat) (offs : list Address) (f : contents) : contents :=
  fun a => if decide (a ∈ offs) then take (length (f a) - k) (f a) else f a.

Lemma cut_out k offs f a : a ∉ offs -> cut k offs f a = f a.
Proof. intros H. unfold cut. by rewrite decide_False. Qed.
Lemma cut_len k offs f a : a ∈ offs -> length (cut k offs f a) = (length (f a) - k)%nat.
Proof. intros H. unfold cut. rewrite decide_True, length_take by done. lia. Qed.
Lemma cut_0 offs f a : cut 0 offs f a = f a.
Proof. unfold cut. destruct (decide _); [|done]. by rewrite Nat.sub_0_r, firstn_all. Qed.
Lemma cut_cut j k offs f a : cut j offs (cut k offs f) a = cut (j + k) offs f a.
Proof. unfold cut. destruct (decide (a ∈ offs)); [|done]. rewrite take_take, length_take. f_equal. lia. Qed.

Lemma drop_round_spec offs pend p pe (Q : TxPool -> Z -> Prop) : at_pending p pe pend -> NoDup offs ->
  Forall (fun a => is_Some (pending p0 !! a) /\ pe a <> []) offs ->
  (forall p' pe' pend', at_pending p' pe' pend' -> (forall a, pe' a = cut 1 offs pe a) -> Q p' pend') -> wp (drop_round offs pend) p Q.
Proof.
  revert pend p pe Q. induction offs as [|a offs IH]; intros pend p pe Q Hp Hnd Hne HQ; simpl.
  { wp_step. by apply (HQ p pe). }
  apply NoDup_cons in Hnd as [Hna Hnd]. apply Forall_cons in Hne as [[Hs Ha] Hne].
  destruct (exists_last Ha) as (l & tx & Hl). wp_step. apply (drop_last_spec p pe pend a l tx _ Hp Hs Hl). intros p1 Hp1.
  apply (IH _ p1 (upd pe a l)); [done|done| |].
  { rewrite Forall_forall in Hne |- *. intros b Hb. rewrite upd_ne by (by intros ->). by apply Hne. }
  intros p2 pe2 pend2 Hp2 Hpe2. apply (HQ p2 pe2 _ Hp2). intros b. rewrite Hpe2. unfold cut, upd. destruct (decide (b = a)) as [->|Hb].
  - rewrite decide_False by done. rewrite decide_True by (by left). rewrite Hl, length_app. simpl.
    replace (length l + 1 - 1)%nat with (length l) by lia. by rewrite take_app_length.
  - destruct (decide (b ∈ offs)); [rewrite decide_True by (by right)|rewrite decide_False by (set_solver)]; done.
Qed.

Abbreviation slots := (GlobalSlots (config p0)).

(** Accounts with the same number of transactions are cut alike, until few enough are left
    in all or none of them has more than [th]. *)
Lemma drop_while_spec fuel lst th offs pend p pe n (Q : TxPool -> Z -> Prop) : at_pending p pe pend -> NoDup offs ->
  Forall (fun a => is_Some (pending p0 !! a)) offs -> lst ∈ offs -> (forall a, a ∈ offs -> length (pe a) = n) -> 0 <= th ->
  Z.of_nat n <= Z.of_nat fuel + th ->
  (forall p' pe' pend' k, at_pending p' pe' pend' -> (forall a, pe' a = cut k offs pe a) -> (k <= n)%nat ->
     (Z.of_nat k <= Z.max 0 (Z.of_nat n - th)) -> (pend' <= slots \/ Z.of_nat n - Z.of_nat k <= th) -> Q p' pend') ->
  wp (drop_while fuel lst th offs pend) p Q.
Proof.
  intros Hp Hnd Hs Hin Hn Hth Hf HQ. revert pend p pe n Hp Hn Hf HQ. induction fuel as [|fuel IH]; intros pend p pe n Hp Hn Hf HQ.
  all: cbn [drop_while]; do 2 wp_step; rewrite (s_config _ _ (ap_same _ _ _ Hp));
    destruct (pend <=? slots) eqn:Ep; [wp_step; bool_to_prop; apply (HQ p pe pend 0%nat); [done|by intros; rewrite cut_0|lia|lia|by left]|].
  all: wp_step; apply (list_len_spec p pe pend); [done|rewrite Forall_forall in Hs; by apply Hs|]; unfold len; rewrite (Hn lst Hin).
  all: destruct (Z.of_nat n <=? th) eqn:Et; [wp_step; bool_to_prop; apply (HQ p pe pend 0%nat); [done|by intros; rewrite cut_0|lia|lia|right; lia]|].
  all: bool_to_prop.
  { lia. }
  wp_step. apply (drop_round_spec offs pend p pe _ Hp Hnd).
  { rewrite Forall_forall in Hs |- *. intros a Ha. split; [by apply Hs|]. intros He. specialize (Hn a Ha). rewrite He in Hn. simpl in Hn. lia. }
  intros p1 pe1 pend1 Hp1 Hpe1. apply (IH pend1 p1 pe1 (n - 1)%nat Hp1); [|lia|].
  - intros a Ha. rewrite Hpe1, cut_len by done. by rewrite Hn.
  - intros p2 pe2 pend2 k Hp2 Hpe2 Hk Hk2 Hor. apply (HQ p2 pe2 pend2 (k + 1)%nat Hp2); [|lia|lia|destruct Hor; [by left|right; lia]].
    intros a. rewrite Hpe2, <- cut_cut. unfold cut at 1. by rewrite Hpe1.
Qed.

Definition shorter (pe : contents) (a b : Address) : Prop := (length (pe b) <= length (pe a))%nat.

Lemma equalize_spec spam offs pend p pe n (Q : TxPool -> list Address * Z -> Prop) : at_pending p pe pend ->
  NoDup (offs ++ spam) -> Forall (fun a => is_Some (pending p0 !! a)) (offs ++ spam) ->
  (pend <= slots \/ forall a, a ∈ offs -> length (pe a) = n) -> StronglySorted (shorter pe) spam ->
  Forall (fun b => offs = [] \/ (length (pe b) <= n)%nat) spam ->
  (forall p' pe' pend' offs' n', at_pending p' pe' pend' -> offs' `prefix_of` offs ++ spam -> (forall a, a ∉ offs ++ spam -> pe' a = pe a) ->
     (pend' <= slots \/ offs' = offs ++ spam /\ forall a, a ∈ offs' -> length (pe' a) = n') -> Q p' (offs', pend')) ->
  wp (equalize spam offs pend) p Q.
Proof.
  revert offs pend p pe n. induction spam as [|o spam IH]; intros offs pend p pe n Hp Hnd Hs Hlev Hsort Hle HQ; cbn [equalize]; do 2 wp_step.
  { wp_step. apply (HQ p pe pend offs n Hp); [by apply prefix_app_r|done|]. rewrite app_nil_r. tauto. }
  rewrite (s_config _ _ (ap_same _ _ _ Hp)). destruct (pend <=? slots) eqn:Ep; bool_to_prop.
  { wp_step. apply (HQ p pe pend offs n Hp); [by apply prefix_app_r|done|by left]. }
  destruct Hlev as [?|Hlev]; [lia|]. apply StronglySorted_cons in Hsort as [Hob Hsort]. apply Forall_cons in Hle as [Hon Hle].
  rewrite (cons_middle o offs spam), app_assoc in Hnd, Hs, HQ.
  assert (Hoffs : forall a, a ∈ offs -> a <> o /\ a ∉ spam).
  { intros a Ha. apply NoDup_app in Hnd as (Hnd1 & Hnd2 & _). split; [|apply Hnd2, elem_of_app; by left].
    apply NoDup_app in Hnd1 as (_ & Hnd1 & _). intros ->. apply (Hnd1 o Ha). by left. }
  assert (Ho : o ∉ offs) by (intros Hx; by destruct (Hoffs o Hx)).
  (* the state after the cut *)
  assert (Hnext : forall p1 pe1 pend1, at_pending p1 pe1 pend1 -> (forall a, a ∉ offs -> pe1 a = pe a) ->
    (pend1 <= slots \/ forall a, a ∈ offs ++ [o] -> length (pe1 a) = length (pe o)) ->
    wp (equalize spam (offs ++ [o]) pend1) p1 Q).
  { intros p1 pe1 pend1 Hp1 Hpe1 Hlev1. assert (Hsp : forall b, b ∈ spam -> pe1 b = pe b).
    { intros b Hb. apply Hpe1. intros Hx. by destruct (Hoffs b Hx). }
    apply (IH (offs ++ [o]) pend1 p1 pe1 (length (pe o)) Hp1 Hnd Hs Hlev1).
    - clear - Hsort Hsp. induction Hsort as [|b l Hl IHl Hb]; constructor.
      + apply IHl. intros c Hc. apply Hsp. by right.
      + rewrite Forall_forall in Hb |- *. intros c Hc. unfold shorter. rewrite !Hsp by (by left || by right). by apply Hb.
    - rewrite Forall_forall in Hob |- *. intros b Hb. right. rewrite Hsp by done. by apply Hob.
    - intros p' pe' pend' offs' n' H1 H2 H3 H4. apply (HQ p' pe' pend' offs' n' H1 H2); [|done]. intros a Ha. rewrite H3 by done.
      apply Hpe1. rewrite !elem_of_app in Ha. tauto. }
  wp_step. destruct (last offs) as [prev|] eqn:El.
  - assert (Hprev : prev ∈ offs) by (apply last_Some in El as [l' ->]; apply elem_of_app; right; by left).
    assert (Hso : is_Some (pending p0 !! o)).
    { rewrite Forall_forall in Hs. apply Hs. rewrite !elem_of_app. left; right; by left. }
    assert (Hsoffs : Forall (fun a => is_Some (pending p0 !! a)) offs) by (by apply Forall_app in Hs as [[? _]%Forall_app _]).
    wp_step. apply (list_len_spec p pe pend); [done|done|]. wp_step.
    apply (list_len_spec p pe pend); [done|rewrite Forall_forall in Hsoffs; by apply Hsoffs|].
    assert (Hno : (length (pe o) <= n)%nat) by (destruct Hon as [->|?]; [done|done]).
    apply (drop_while_spec _ prev _ offs pend p pe n); [done| |done|done|done|apply len_nonneg| |].
    + apply NoDup_app in Hnd as (Hnd & _ & _). by apply NoDup_app in Hnd as (? & _ & _).
    + unfold len. rewrite (Hlev prev Hprev). lia.
    + intros p1 pe1 pend1 k Hp1 Hpe1 Hk Hk2 Hor. apply (Hnext p1 pe1 pend1 Hp1).
      * intros a Ha. by rewrite Hpe1, cut_out.
      * destruct Hor as [?|Hor]; [by left|]. right. intros a [Ha|Ha%list_elem_of_singleton]%elem_of_app.
        -- rewrite Hpe1, cut_len, Hlev by done. unfold len in *. lia.
        -- subst a. by rewrite Hpe1, cut_out.
  - wp_step. apply last_None in El as ->. apply (Hnext p pe pend Hp); [done|]. right. by intros a ->%list_elem_of_singleton.
Qed.

(** Few enough are left in all, or no account that is not local has more than its share. *)
Definition pending_bounded (p : TxPool) : Prop :=
  total_len (pending p) <= slots \/
  forall a L, a ∉ locals p0 -> pending p !! a = Some L -> list_count L <= AccountSlots (config p0).

(** The accounts the limit is enforced on. *)
Definition spammers : list (Address * Z) :=
  filter (fun x => x.1 ∉ locals p0 /\ AccountSlots (config p0) < x.2) ((fun x => (x.1, list_count x.2)) <$> ord_lists (pending p0)).

Lemma spammers_elem a n : (a, n) ∈ spammers <->
  exists L, pending p0 !! a = Some L /\ n = list_count L /\ a ∉ locals p0 /\ AccountSlots (config p0) < n.
Proof.
  unfold spammers. rewrite list_elem_of_filter, list_elem_of_fmap. simpl. split.
  - intros [[H1 H2] ([b L] & [= -> ->] & Hin)]. rewrite (ord_lists_ok (pending p0)) in Hin. apply elem_of_map_to_list in Hin. eauto.
  - intros (L & HL & -> & H1 & H2). split; [done|]. exists (a, L). split; [done|]. rewrite (ord_lists_ok (pending p0)). by apply elem_of_map_to_list.
Qed.

Lemma spammers_nodup : NoDup spammers.*1.
Proof.
  assert (H : NoDup ((fun x => (x.1, list_count x.2)) <$> ord_lists (pending p0)).*1).
  { rewrite <- list_fmap_compose. change (fst ∘ _) with (@fst Address TxList.txList). rewrite (ord_lists_ok (pending p0)). apply NoDup_fst_map_to_list. }
  unfold spammers. eapply sublist_NoDup; [exact H|]. apply fmap_sublist, sublist_filter.
Qed.

Lemma spammers_key a : a ∈ prque_order spammers <-> exists n, (a, n) ∈ spammers.
Proof.
  rewrite (prque_perm spammers), list_elem_of_fmap. split; [intros ([b n] & -> & H); eauto|]. intros [n H]. by exists (a, n).
Qed.

Lemma spammers_sorted pe pend : at_pending p0 pe pend -> StronglySorted (shorter pe) (prque_order spammers).
Proof.
  intros Hp. pose proof (prque_sorted spammers spammers_nodup) as Hs.
  assert (Hsub : forall a, a ∈ prque_order spammers -> (a, len (pe a)) ∈ spammers).
  { intros a [n Hn]%spammers_key. pose proof Hn as (L & HL & -> & _)%spammers_elem.
    pose proof (rep_pending _ _ _ _ (ap_rep _ _ _ Hp) a) as H. rewrite HL in H. unfold len. by rewrite <- (list_ok_len _ _ (proj1 H)). }
  induction Hs as [|a l Hl IH Ha]; constructor; [apply IH; intros; apply Hsub; by right|]. rewrite Forall_forall in Ha |- *. intros b Hb.
  specialize (Ha b Hb _ _ (Hsub a ltac:(by left)) (Hsub b ltac:(by right))). unfold shorter, len in *. lia.
Qed.

Lemma ap_start pe : rep [] p0 pe qu -> consistent (cat pe qu) (all p0) -> at_pending p0 pe (total_len (pending p0)).
Proof. intros Hr Hc. split; [done|done|apply same_refl|done|done]. Qed.

Lemma ap_ok p pe pend : at_pending p pe pend -> pool_ok p.
Proof. intros [Hr Hc _ _ _]. by exists pe, qu. Qed.

Lemma limit_pending_at pe : rep [] p0 pe qu -> consistent (cat pe qu) (all p0) ->
  wp limit_pending p0 (fun p' _ => pool_ok p' /\ same p0 p' /\ pending_bounded p').
Proof.
  intros Hr Hc. pose proof (ap_start pe Hr Hc) as Hp. unfold limit_pending. do 2 wp_step. fold spammers.
  destruct (_ <=? slots) eqn:Ep; bool_to_prop; [wp_step; split_and!; [by eapply ap_ok|apply same_refl|by left]|].
  assert (Hsome : Forall (fun a => is_Some (pending p0 !! a)) (prque_order spammers)).
  { apply Forall_forall. intros a [n (L & HL & _)%spammers_elem]%spammers_key. eauto. }
  assert (Hslots := co_slots _ (rep_config _ _ _ _ Hr)).
  wp_step. apply (equalize_spec (prque_order spammers) [] _ p0 pe 0%nat); [done| |done| |by eapply spammers_sorted| |].
  { simpl. rewrite (prque_perm spammers). apply spammers_nodup. }
  { right. intros a Ha. by apply not_elem_of_nil in Ha. }
  { apply Forall_forall. by left. }
  simpl. intros p1 pe1 pend1 offs n Hp1 Hpre Hrest Hor.
  destruct (pend1 <=? slots) eqn:Ep1; bool_to_prop.
  { wp_step. split_and!; [by eapply ap_ok|apply Hp1|]. left. by rewrite <- (ap_total _ _ _ Hp1). }
  destruct Hor as [?|[-> Hlev]]; [lia|].
  assert (Hout : forall p2 pe2 pend2 a L, at_pending p2 pe2 pend2 -> (forall a, a ∉ prque_order spammers -> pe2 a = pe a) ->
    a ∉ prque_order spammers -> a ∉ locals p0 -> pending p2 !! a = Some L -> list_count L <= AccountSlots (config p0)).
  { intros p2 pe2 pend2 a L Hp2 Heq Ha Hl HL. pose proof (rep_pending _ _ _ _ Hr a) as H0. pose proof (rep_pending _ _ _ _ (ap_rep _ _ _ Hp2) a) as H2.
    rewrite HL in H2. rewrite (list_ok_len _ _ (proj1 H2)), Heq by done. destruct (pending p0 !! a) as [L0|] eqn:E0; [|rewrite H0; simpl; lia].
    rewrite <- (list_ok_len _ _ (proj1 H0)). destruct (decide (AccountSlots (config p0) < list_count L0)) as [Hgt|]; [|lia].
    exfalso. apply Ha, spammers_key. exists (list_count L0). apply spammers_elem. eauto. }
  destruct (last (prque_order spammers)) as [l|] eqn:El.
  - assert (Hin : l ∈ prque_order spammers) by (apply last_Some in El as [l' ->]; apply elem_of_app; right; by left).
    wp_step. apply (list_len_spec p1 pe1 pend1); [done|rewrite Forall_forall in Hsome; by apply Hsome|]. wp_step.
    apply (drop_while_spec _ l _ (prque_order spammers) pend1 p1 pe1 n); [done| |done|done|done|lia| |].
    + rewrite (prque_perm spammers). apply spammers_nodup.
    + unfold len. rewrite (Hlev l Hin). lia.
    + intros p2 pe2 pend2 k Hp2 Hpe2 Hk Hk2 Hor. wp_step. split_and!; [by eapply ap_ok|apply Hp2|].
      destruct Hor as [Hle|Hle]; [left; by rewrite <- (ap_total _ _ _ Hp2)|right]. intros a L Hl HL.
      destruct (decide (a ∈ prque_order spammers)) as [Ha|Ha].
      * pose proof (rep_pending _ _ _ _ (ap_rep _ _ _ Hp2) a) as H2. rewrite HL in H2.
        rewrite (list_ok_len _ _ (proj1 H2)), Hpe2, cut_len, Hlev by done. lia.
      * apply (Hout p2 pe2 pend2 a L); try done. intros b Hb. by rewrite Hpe2, cut_out, Hrest.
  - wp_step. apply last_None in El. split_and!; [by eapply ap_ok|apply Hp1|]. right. intros a L Hl HL.
    apply (Hout p1 pe1 pend1 a L); [done|done| |done|done]. rewrite El. apply not_elem_of_nil.
Qed.

End Limit.

Lemma limit_pending_spec p : pool_ok p -> wp limit_pending p (fun p' _ => pool_ok p' /\ same p p' /\ pending_bounded p p').
Proof. intros (pe & qu & Hr & Hc). by eapply limit_pending_at. Qed.

(** ** The limit of queued transactions *)

Lemma total_len_at b m f a : lists_ok b m f -> total_len m = u64 (total_len (delete a m) + len (f a)).
Proof.
  intros Hm. specialize (Hm a). destruct (m !! a) as [L|] eqn:E.
  - rewrite <- (insert_id m a L E) at 1. rewrite total_len_insert. unfold len. by rewrite (list_ok_len _ _ (proj1 Hm)).
  - rewrite Hm, len_nil, Z.add_0_r, delete_id by done. symmetry. apply u64_id, total_len_range.
Qed.

(** One less in the list of one account. *)
Lemma total_len_one b m m' f f' a : lists_ok b m f -> lists_ok b m' f' -> (forall c, c <> a -> m' !! c = m !! c) ->
  len (f' a) = len (f a) - 1 -> total_len m' = u64 (total_len m - 1).
Proof.
  intros Hm Hm' Hother Hlen. assert (Hd : delete a m' = delete a m).
  { apply map_eq. intros c. destruct (decide (c = a)) as [->|Hc]; [by rewrite !lookup_delete_eq|]. rewrite !lookup_delete_ne by done. by apply Hother. }
  rewrite (total_len_at b m f a Hm), (total_len_at b m' f' a Hm'), Hd, u64_sub, Hlen. f_equal. lia.
Qed.

Section LimitQueue.
Context (p0 : TxPool) (pe : contents).

(** The pool with queued transactions [qu], of which there are [n]. *)
Record at_queue (p : TxPool) (qu : contents) (n : Z) : Prop := {
  aq_rep : rep [] p pe qu;
  aq_cons : consistent (cat pe qu) (all p);
  aq_same : same p0 p;
  aq_total : n = total_len (queue p)
}.

Lemma aq_ok p qu n : at_queue p qu n -> pool_ok p.
Proof. intros [Hr Hc _ _]. by exists pe, qu. Qed.

Definition without (tx : Transaction) (l : list Transaction) : list Transaction := filter (fun y => Nonce y <> Nonce tx) l.

Lemma without_in tx l y : y ∈ without tx l <-> Nonce y <> Nonce tx /\ y ∈ l.
Proof. unfold without. by rewrite list_elem_of_filter. Qed.

Lemma remove_one_spec p qu n b a tx (Q : TxPool -> unit -> Prop) : at_queue p qu n -> tx ∈ qu a -> 0 < n ->
  (forall p', at_queue p' (upd qu a (without tx (qu a))) (n - 1) -> len (without tx (qu a)) = len (qu a) - 1 ->
     (forall c, c <> a -> queue p' !! c = queue p !! c) -> Q p' tt) -> wp (removeTx (TxHash tx) b) p Q.
Proof.
  intros [Hr Hc Hs Hn] Hin Hpos HQ. assert (Hinc : tx ∈ cat pe qu a) by (apply elem_of_app; by right).
  pose proof (consistent_known _ _ a tx Hc Hinc) as Hk. pose proof (from_sender _ _ (c_from _ _ Hc a tx Hinc)) as Hfrom.
  destruct (lists_ok_some _ _ _ _ _ (rep_queue _ _ _ _ Hr) Hin) as (L & _ & Hok & _).
  pose proof (sorted_without tx (qu a) (list_ok_sorted _ _ Hok) Hin) as Hperm.
  assert (Hlen : len (without tx (qu a)) = len (qu a) - 1) by (unfold len; rewrite (Permutation_length Hperm); simpl; unfold without; lia).
  apply (removeTx_queued [] p pe qu (TxHash tx) b a tx _ Hr Hc Hk Hfrom Hin). intros p' Hr' Ha' Hf'. apply HQ; [|done|apply Hf'].
  split; [done| |eapply same_trans; [done|apply Hf']|].
  - rewrite Ha'. apply (consistent_cat_queue pe qu a _ (without tx (qu a))); [done|]. apply consistent_remove; [done|].
    unfold cat. rewrite Hperm at 1. symmetry. apply Permutation_middle.
  - rewrite (total_len_one false (queue p) (queue p') qu (upd qu a (without tx (qu a))) a); [|apply Hr|apply Hr'|apply Hf'|by rewrite upd_eq].
    rewrite <- Hn. symmetry. apply u64_id. pose proof (total_len_range (queue p)). rewrite <- Hn in *. go_lia.
Qed.

(** Transactions of the queue of one account, to be removed one after the other. *)
Definition to_remove (qu : contents) (a : Address) (txs : list Transaction) : Prop :=
  Forall (fun tx => tx ∈ qu a) txs /\ NoDup (Nonce <$> txs).

Lemma to_remove_next qu a tx txs : to_remove qu a (tx :: txs) -> tx ∈ qu a /\ to_remove (upd qu a (without tx (qu a))) a txs.
Proof.
  intros [Hf Hnd]. apply Forall_cons in Hf as [Hin Hf]. simpl in Hnd. apply NoDup_cons in Hnd as [Hno Hnd]. split; [done|]. split; [|done].
  rewrite upd_eq. rewrite Forall_forall in Hf |- *. intros y Hy. apply without_in. split; [|by apply Hf]. intros He. apply Hno.
  rewrite <- He. by apply in_nonces.
Qed.

(** The queue of [a] is cut by [txs], the others stay. *)
Lemma drop_txs_spec txs drop p qu n a (Q : TxPool -> Z -> Prop) : at_queue p qu n -> to_remove qu a txs -> 0 <= drop -> drop <= n ->
  (forall p' qu' k, at_queue p' qu' (n - k) -> k = Z.min drop (len txs) -> (forall c, c <> a -> qu' c = qu c) ->
     (forall c, c <> a -> queue p' !! c = queue p !! c) -> Q p' (drop - k)) -> wp (drop_txs txs drop) p Q.
Proof.
  revert drop p qu n Q. induction txs as [|tx txs IH]; intros drop p qu n Q Hp Ht Hd Hn HQ; simpl.
  { wp_step. rewrite <- (Z.sub_0_r drop). apply (HQ p qu 0); [by rewrite Z.sub_0_r|unfold len; simpl; lia|done|done]. }
  destruct (0 <? drop) eqn:E; bool_to_prop.
  2:{ wp_step. rewrite <- (Z.sub_0_r drop). apply (HQ p qu 0); [by rewrite Z.sub_0_r| |done|done]. pose proof (len_nonneg (tx :: txs)). lia. }
  destruct (to_remove_next qu a tx txs Ht) as [Hin Ht']. wp_step. apply (remove_one_spec p qu n _ a tx _ Hp Hin); [lia|]. intros p1 Hp1 _ Hq1.
  apply (IH (drop - 1) p1 _ (n - 1) _ Hp1 Ht'); [lia|lia|]. intros p2 qu2 k Hp2 Hk Hoth Hq2.
  replace (drop - 1 - k) with (drop - (k + 1)) by lia. apply (HQ p2 qu2 (k + 1)).
  - by replace (n - (k + 1)) with (n - 1 - k) by lia.
  - rewrite len_cons. lia.
  - intros c Hc. rewrite Hoth, upd_ne by done. done.
  - intros c Hc. by rewrite Hq2, Hq1.
Qed.

Lemma remove_all_spec txs p qu n a (Q : TxPool -> unit -> Prop) : at_queue p qu n -> to_remove qu a txs -> len txs <= n ->
  len (qu a) = len txs ->
  (forall p' qu', at_queue p' qu' (n - len txs) -> qu' a = [] -> (forall c, c <> a -> qu' c = qu c) ->
     (forall c, c <> a -> queue p' !! c = queue p !! c) -> Q p' tt) ->
  wp (for_each txs (fun tx => removeTx (TxHash tx) true)) p Q.
Proof.
  revert p qu n Q. induction txs as [|tx txs IH]; intros p qu n Q Hp Ht Hn Hlen HQ; simpl.
  { wp_step. apply (HQ p qu); [by rewrite len_nil, Z.sub_0_r|by apply len_0|done|done]. }
  rewrite len_cons in Hn, Hlen. pose proof (len_nonneg txs).
  destruct (to_remove_next qu a tx txs Ht) as [Hin Ht']. wp_step. apply (remove_one_spec p qu n _ a tx _ Hp Hin); [lia|]. intros p1 Hp1 Hl1 Hq1.
  apply (IH p1 _ (n - 1) _ Hp1 Ht'); [lia|rewrite upd_eq; lia|]. intros p2 qu2 Hp2 Hnil Hoth Hq2.
  apply (HQ p2 qu2).
  - rewrite len_cons. by replace (n - (1 + len txs)) with (n - 1 - len txs) by lia.
  - done.
  - intros c Hc. rewrite Hoth, upd_ne by done. done.
  - intros c Hc. by rewrite Hq2, Hq1.
Qed.

(** Caching the order of a list changes nothing. *)
Lemma flatten_queue_spec p qu n a L (Q : TxPool -> unit -> Prop) : at_queue p qu n -> queue p !! a = Some L ->
  (forall p', at_queue p' qu n -> (forall c, c <> a -> queue p' !! c = queue p !! c) -> Q p' tt) ->
  wp (put_queue a (TxList.with_txs L (TxList.Flatten ord_txs (TxList.txs L)).1)) p Q.
Proof.
  intros [Hr Hc Hs Hn] HL HQ. pose proof (rep_queue _ _ _ _ Hr a) as Hok. rewrite HL in Hok. destruct Hok as [Hok Hst].
  pose proof (Flatten_list L _ Hok) as HF. destruct (TxList.Flatten _ _) as [m txs]. destruct HF as [_ HL']. simpl.
  unfold put_queue. wp_step. apply HQ; [|by intros c Hc'; simpl; rewrite lookup_insert_ne]. split; [|done|by destruct Hs; split|].
  - destruct Hr. split; try done. simpl. eapply lists_ok_ext; [|by apply (lists_ok_put false (queue p) qu a _ (qu a))].
    intros b. unfold upd. by destruct (decide (b = a)) as [->|].
  - simpl. rewrite total_len_insert, Hn, (total_len_at false (queue p) qu a (rep_queue _ _ _ _ Hr)). unfold len.
    by rewrite (list_ok_len _ _ HL').
Qed.

Lemma queue_to_remove p qu n a : at_queue p qu n -> to_remove qu a (qu a).
Proof.
  intros [Hr Hc _ _]. split; [by apply Forall_forall|]. pose proof (c_nodup _ _ Hc a) as H. unfold cat in H. rewrite fmap_app in H.
  by apply NoDup_app in H as (_ & _ & ?).
Qed.

Lemma drop_queued_spec addrs drop p qu m (Q : TxPool -> unit -> Prop) : at_queue p qu (m + drop) -> 0 <= drop -> 0 <= m ->
  NoDup addrs -> Forall (fun a => is_Some (queue p !! a)) addrs ->
  (forall p' qu' drop', at_queue p' qu' (m + drop') -> (drop' = 0 \/ forall a, a ∈ addrs -> qu' a = []) ->
     (forall c, c ∉ addrs -> qu' c = qu c) -> Q p' tt) -> wp (drop_queued addrs drop) p Q.
Proof.
  revert drop p qu Q. induction addrs as [|a addrs IH]; intros drop p qu Q Hp Hd Hm Hnd Hs HQ; simpl.
  { wp_step. apply (HQ p qu drop Hp); [|done]. right. intros a Ha. by apply not_elem_of_nil in Ha. }
  destruct (0 <? drop) eqn:E; bool_to_prop; [|wp_step; apply (HQ p qu drop Hp); [left; lia|done]].
  apply NoDup_cons in Hnd as [Hna Hnd]. apply Forall_cons in Hs as [[L HL] Hs].
  do 2 wp_step. rewrite HL. wp_step. eapply wp_lift; [done|]. cbv zeta.
  pose proof (rep_queue _ _ _ _ (aq_rep _ _ _ Hp) a) as Hok. rewrite HL in Hok. destruct Hok as [Hok Hst].
  pose proof (Flatten_list L _ Hok) as HF. pose proof (flatten_queue_spec p qu (m + drop) a L) as Hflat. destruct (TxList.Flatten _ _) as [mm txs].
  destruct HF as [-> _]. simpl in Hflat. wp_step. apply Hflat; [done|done|]. intros p1 Hp1 Hq1. rewrite (list_ok_len _ _ Hok).
  change (Z.of_nat (length (qu a))) with (len (qu a)).
  assert (Hnext : forall p2 qu2 drop2, at_queue p2 qu2 (m + drop2) -> 0 <= drop2 -> (drop2 = 0 \/ qu2 a = []) -> (forall c, c <> a -> qu2 c = qu c) ->
    (forall c, c <> a -> queue p2 !! c = queue p1 !! c) -> wp (drop_queued addrs drop2) p2 Q).
  { intros p2 qu2 drop2 Hp2 Hd2 Hor Hoth Hq2. destruct (decide (drop2 = 0)) as [->|Hne].
    - assert (Hstop : drop_queued addrs 0 p2 = Ret (p2, tt)) by (by destruct addrs). exists p2, tt. split; [done|].
      apply (HQ p2 qu2 0 Hp2); [by left|]. intros c Hc. apply Hoth. intros ->. apply Hc. by left.
    - destruct Hor as [?|Hnil]; [done|]. apply (IH drop2 p2 qu2 _ Hp2 Hd2 Hm Hnd).
      + rewrite Forall_forall in Hs |- *. intros c Hc. assert (c <> a) by (by intros ->). rewrite Hq2, Hq1 by done. by apply Hs.
      + intros p3 qu3 drop3 Hp3 Hor3 Hoth3. apply (HQ p3 qu3 drop3 Hp3).
        * destruct Hor3 as [?|Hall]; [by left|]. right. intros c [->|Hc]%elem_of_cons; [|by apply Hall]. by rewrite Hoth3.
        * intros c [Hca Hc]%not_elem_of_cons. by rewrite Hoth3, Hoth. }
  destruct (len (qu a) <=? drop) eqn:Es; bool_to_prop; wp_step.
  - apply (remove_all_spec (qu a) p1 qu (m + drop) a _ Hp1); [by eapply queue_to_remove|lia|done|]. intros p2 qu2 Hp2 Hnil Hoth Hq2.
    apply (Hnext p2 qu2); [|lia|by right|done|done]. by replace (m + (drop - len (qu a))) with (m + drop - len (qu a)) by lia.
  - apply (drop_txs_spec (reverse (qu a)) drop p1 qu (m + drop) a _ Hp1); [|lia|lia|].
    + destruct (queue_to_remove p1 qu _ a Hp1) as [H1 H2]. split; [by rewrite reverse_Permutation|]. by rewrite reverse_Permutation.
    + intros p2 qu2 k Hp2 Hk Hoth Hq2. unfold len in Hk. rewrite length_reverse in Hk. fold (len (qu a)) in Hk.
      apply (Hnext p2 qu2); [|lia|left; lia|done|done]. by replace (m + (drop - k)) with (m + drop - k) by lia.
Qed.

(** Few enough are left in all, or none but local ones. *)
Definition queue_bounded (p : TxPool) : Prop :=
  total_len (queue p) <= GlobalQueue (config p0) \/ forall a L, a ∉ locals p0 -> queue p !! a = Some L -> list_count L = 0.

Lemma limit_queue_at qu : rep [] p0 pe qu -> consistent (cat pe qu) (all p0) ->
  wp limit_queue p0 (fun p' _ => pool_ok p' /\ same p0 p' /\ queue_bounded p' /\ lists_ok true (pending p') pe).
Proof.
  intros Hr Hc. assert (Hp : at_queue p0 qu (total_len (queue p0))) by (split; [done|done|apply same_refl|done]).
  unfold limit_queue. do 2 wp_step. destruct (_ <=? _) eqn:E; bool_to_prop.
  { wp_step. split_and!; [by exists pe, qu|apply same_refl|by left|apply Hr]. }
  set (addrs := (fun x => (x.1, default 0 (beats p0 !! x.1))) <$> filter (fun x => x.1 ∉ locals p0) (ord_lists (queue p0))).
  assert (Hkeys : addrs.*1 = (filter (fun x => x.1 ∉ locals p0) (ord_lists (queue p0))).*1) by (unfold addrs; by rewrite <- list_fmap_compose).
  assert (Hin : forall a, a ∈ addrs.*1 <-> is_Some (queue p0 !! a) /\ a ∉ locals p0).
  { intros a. rewrite Hkeys, list_elem_of_fmap. split.
    - intros ([b L] & -> & [Hl Hin]%list_elem_of_filter). rewrite (ord_lists_ok (queue p0)) in Hin. apply elem_of_map_to_list in Hin. simpl in *. eauto.
    - intros [[L HL] Hl]. exists (a, L). split; [done|]. apply list_elem_of_filter. split; [done|]. rewrite (ord_lists_ok (queue p0)).
      by apply elem_of_map_to_list. }
  assert (Hperm : reverse (sort_beats addrs).*1 ≡ₚ addrs.*1) by (by rewrite reverse_Permutation, (sort_beats_perm addrs)).
  pose proof (co_globalQueue _ (rep_config _ _ _ _ Hr)) as Hgq.
  apply (drop_queued_spec _ _ p0 qu (GlobalQueue (config p0))); [|lia|done| | |].
  - by replace (GlobalQueue (config p0) + (total_len (queue p0) - GlobalQueue (config p0))) with (total_len (queue p0)) by lia.
  - rewrite Hperm, Hkeys. eapply sublist_NoDup; [|apply fmap_sublist, sublist_filter]. rewrite (ord_lists_ok (queue p0)). apply NoDup_fst_map_to_list.
  - apply Forall_forall. intros a Ha. rewrite Hperm in Ha. by apply Hin.
  - intros p1 qu1 drop1 Hp1 Hor Hoth. split_and!; [by eapply aq_ok|apply Hp1| |apply Hp1].
    destruct Hor as [->|Hnil]; [left; rewrite <- (aq_total _ _ _ Hp1); lia|]. right. intros a L Hl HL.
    pose proof (rep_queue _ _ _ _ (aq_rep _ _ _ Hp1) a) as Hok. rewrite HL in Hok. rewrite (list_ok_len _ _ (proj1 Hok)).
    destruct (decide (a ∈ reverse (sort_beats addrs).*1)) as [Ha|Ha]; [by rewrite Hnil|]. rewrite Hoth by done.
    rewrite Hperm, Hin in Ha. pose proof (rep_queue _ _ _ _ Hr a) as Hok0. destruct (queue p0 !! a) as [L0|] eqn:E0; [|by rewrite Hok0].
    exfalso. apply Ha. split; [eauto|done].
Qed.

End LimitQueue.

(** Totals depend on what the lists hold. *)
Lemma total_len_zero b m f : lists_ok b m f -> (forall a, f a = []) -> total_len m = 0.
Proof.
  revert f. induction m as [|a L m Hm IH] using map_ind; intros f Hl Hf; [by vm_compute|].
  rewrite (total_len_at b _ f a Hl), Hf, len_nil, Z.add_0_r, delete_insert_id by done. rewrite (u64_id _ (total_len_range m)).
  apply (IH f); [|done]. intros c. specialize (Hl c). destruct (decide (c = a)) as [->|Hc]; [by rewrite Hm|by rewrite lookup_insert_ne in Hl].
Qed.

Lemma total_len_ext b m m' f : lists_ok b m f -> lists_ok b m' f -> total_len m = total_len m'.
Proof.
  revert m' f. induction m as [|a L m Hm IH] using map_ind; intros m' f Hl Hl'.
  - rewrite (total_len_zero b m' f Hl'); [by vm_compute|]. intros a. specialize (Hl a). by rewrite lookup_empty in Hl.
  - rewrite (total_len_at b _ f a Hl), (total_len_at b _ f a Hl'), delete_insert_id by done. f_equal. f_equal. apply (IH _ (upd f a [])).
    + intros c. specialize (Hl c). destruct (decide (c = a)) as [->|Hc]; [by rewrite Hm, upd_eq|].
      rewrite lookup_insert_ne in Hl by done. by rewrite upd_ne.
    + intros c. specialize (Hl' c). destruct (decide (c = a)) as [->|Hc]; [by rewrite lookup_delete_eq, upd_eq|].
      rewrite lookup_delete_ne by done. by rewrite upd_ne.
Qed.

(** ** promoteExecutables *)

Lemma bounded_pending_ext p0 q0 p q pe : same q0 p0 -> 0 <= AccountSlots (config p0) -> lists_ok true (pending p) pe ->
  lists_ok true (pending q) pe -> pending_bounded p0 p -> pending_bounded q0 q.
Proof.
  intros [Hc _ _ Hl] H0 Hp Hq [H|H]; [left|right]; rewrite <- Hc.
  - by rewrite <- (total_len_ext true (pending p) (pending q) pe).
  - rewrite <- Hl. intros a L Ha HL. specialize (Hq a). rewrite HL in Hq. rewrite (list_ok_len _ _ (proj1 Hq)). specialize (Hp a).
    destruct (pending p !! a) as [L0|] eqn:E; [|by rewrite Hp]. rewrite <- (list_ok_len _ _ (proj1 Hp)). by apply (H a).
Qed.

Lemma bounded_queue_ext p0 q0 p : same q0 p0 -> queue_bounded p0 p -> queue_bounded q0 p.
Proof. intros [Hc _ _ Hl] [H|H]; [left|right]; [by rewrite <- Hc|by rewrite <- Hl]. Qed.

Lemma promoteExecutables_spec now accounts p : pool_ok p ->
  wp (promoteExecutables now accounts) p (fun p' _ => pool_ok p' /\ same p p' /\ pending_bounded p p' /\ queue_bounded p p').
Proof.
  intros Hp. unfold promoteExecutables. do 2 wp_step. wp_step.
  eapply wp_mono; [apply (keeps_ok_for_each _ (promote_account now) (promote_account_ok now) p Hp)|]. simpl. intros p1 _ [Hp1 Hs1].
  wp_step. eapply wp_mono; [by apply limit_pending_spec|]. simpl. intros p2 _ (Hp2 & Hs2 & Hb2). destruct Hp2 as (pe & qu & Hr2 & Hc2).
  eapply wp_mono; [by apply (limit_queue_at p2 pe qu)|]. simpl. intros p3 _ (Hp3 & Hs3 & Hb3 & Hl3).
  assert (Hs : same p p2) by (by eapply same_trans). split_and!; [done|by eapply same_trans| |by eapply bounded_queue_ext].
  apply (bounded_pending_ext p1 p p2 p3 pe); [done| |apply Hr2|done|done].
  destruct Hp1 as (pe1 & qu1 & Hr1 & _). apply co_slots, (rep_config _ _ _ _ Hr1).
Qed.

(** ** Adding *)

Lemma addTx_spec now tx local p : pool_ok p -> good_tx tx ->
  wp (addTx now tx local) p (fun p' _ => pool_ok p' /\ same_chain p p').
Proof.
  intros Hp Hg. unfold addTx. wp_step. eapply wp_mono; [by apply add_spec|]. simpl. intros p1 r (Hp1 & Hs1 & _).
  destruct r as [e|replace]; [by wp_step|]. wp_step. destruct replace.
  - do 2 wp_step. done.
  - eapply wp_mono; [by apply promoteExecutables_spec|]. simpl. intros p2 _ (Hp2 & Hs2 & _). wp_step. split; [done|].
    eapply same_chain_trans; [done|by apply same_chain_of].
Qed.

Lemma add_batch_spec txs local dirty p : pool_ok p -> Forall good_tx txs ->
  wp (add_batch txs local dirty) p (fun p' r => pool_ok p' /\ same_chain p p' /\ length r.2 = length txs).
Proof.
  intros Hp Hg. revert dirty p Hp. induction Hg as [|tx txs Htx Hg IH]; intros dirty p Hp; simpl.
  { wp_step. split_and!; [done|apply same_chain_of, same_refl|done]. }
  wp_step. eapply wp_mono; [by apply add_spec|]. simpl. intros p1 r (Hp1 & Hs1 & _).
  destruct (match r with inl _ => _ | inr _ => _ end) as [dirty1 e]. wp_step. eapply wp_mono; [by apply IH|].
  simpl. intros p2 [d errs] (Hp2 & Hs2 & Hl). wp_step. simpl in *. split_and!; [done|by eapply same_chain_trans|by rewrite Hl].
Qed.

Lemma addTxsLocked_spec now txs local p : pool_ok p -> Forall good_tx txs ->
  wp (addTxsLocked now txs local) p (fun p' errs => pool_ok p' /\ same_chain p p' /\ length errs = length txs).
Proof.
  intros Hp Hg. unfold addTxsLocked. wp_step. eapply wp_mono; [by apply add_batch_spec|]. simpl. intros p1 [dirty errs] (Hp1 & Hs1 & Hl).
  wp_step. destruct (decide (dirty = ∅)); [do 2 wp_step; done|].
  eapply wp_mono; [by apply promoteExecutables_spec|]. simpl. intros p2 _ (Hp2 & Hs2 & _). wp_step.
  split_and!; [done|eapply same_chain_trans; [done|by apply same_chain_of]|done].
Qed.

(** ** Prices, eviction *)

Lemma SetGasPrice_spec price p : pool_ok p -> wp (SetGasPrice price) p (fun p' _ => pool_ok p' /\
  forall h tx, all p' !! h = Some tx -> TxPriced.containsTx (locals p) tx = false -> price <= GasPrice tx).
Proof.
  intros (pe & qu & Hr & Hc). unfold SetGasPrice. do 4 wp_step. set (p1 := set_gasPrice price p).
  destruct (Cap_spec price (locals p) (all p) (priced p) (rep_heap _ _ _ _ Hr)) as (l' & d & Hd & Hh & Hk & Hdr & Hall).
  wp_by Hd. do 2 wp_step. set (p2 := set_all (all p1) l' p1).
  assert (Hr2 : rep d p2 pe qu).
  { eapply (rep_set_all []); [by destruct Hr; split|done|]. intros y Hy. apply Hk; [done|].
    destruct (rep_priced _ _ _ _ Hr y Hy) as [?|Hn]; [done|by apply not_elem_of_nil in Hn]. }
  apply (wp_for_each (fun rest q => exists pe qu, rep rest q pe qu /\ consistent (cat pe qu) (all q) /\ all q ⊆ all p /\
    forall tx, tx ∈ d -> tx ∈ rest \/ all q !! TxHash tx = None)).
  - intros tx rest q (pe1 & qu1 & Hr1 & Hc1 & Hsub & Hgone). apply (removeTx_spec _ q pe1 qu1 _ _ _ Hr1 Hc1).
    intros q' pe2 qu2 Hr3 Hc3 Ha3 _ _. exists pe2, qu2. split_and!; [|done| |].
    + eapply rep_weaken; [exact Hr3|]. unfold mapped. by rewrite Ha3, lookup_delete_eq.
    + rewrite Ha3. etrans; [apply delete_subseteq|done].
    + intros y Hy. rewrite Ha3. destruct (Hgone y Hy) as [[->|?]%elem_of_cons|Hn]; [right; apply lookup_delete_eq|by left|].
      right. apply lookup_delete_None. by right.
  - exists pe, qu. split_and!; [done|done|done|]. intros tx Htx. by left.
  - intros p' (pe1 & qu1 & Hr1 & Hc1 & Hsub & Hgone). split; [by exists pe1, qu1|]. intros h tx Hl Hnl.
    destruct (decide (price <= GasPrice tx)) as [|Hlt]; [done|]. exfalso.
    assert (Hm : mapped (all p) tx) by (unfold mapped; eapply lookup_weaken; [|exact Hsub]; by apply (consistent_mapped _ _ h tx Hc1)).
    assert (Hin : tx ∈ TxPriced.pitems (priced p)) by (destruct (rep_priced _ _ _ _ Hr tx Hm) as [?|Hn]; [done|by apply not_elem_of_nil in Hn]).
    specialize (Hall tx Hm Hin Hnl ltac:(lia)). destruct (Hgone tx Hall) as [Hn|Hn]; [by apply not_elem_of_nil in Hn|].
    pose proof (consistent_mapped _ _ h tx Hc1 Hl) as Hm'. unfold mapped in Hm'. congruence.
Qed.

Lemma removeTx_ok h b : keeps_ok (removeTx h b).
Proof.
  intros p (pe & qu & Hr & Hc). apply (removeTx_spec [] p pe qu _ _ _ Hr Hc). intros p' pe' qu' Hr' Hc' _ _ Hs'. split; [by exists pe', qu'|done].
Qed.

Lemma flatten_queue_ok a L p : pool_ok p -> queue p !! a = Some L ->
  wp (put_queue a (TxList.with_txs L (TxList.Flatten ord_txs (TxList.txs L)).1)) p (fun p' _ => pool_ok p' /\ same p p').
Proof.
  intros (pe & qu & Hr & Hc) HL. apply (flatten_queue_spec p pe p qu (total_len (queue p))); [|done|].
  - split; [done|done|apply same_refl|done].
  - intros p' Hp' _. split; [by eapply aq_ok|apply Hp'].
Qed.

Lemma evict_ok now : keeps_ok (evict now).
Proof.
  unfold evict. apply keeps_ok_bind; [apply keeps_ok_gets|]. intros q. apply keeps_ok_for_each. intros a p Hp. do 2 wp_step.
  destruct (decide (a ∈ locals p)); [wp_step; split; [done|apply same_refl]|].
  destruct (_ <? _); [|wp_step; split; [done|apply same_refl]].
  destruct (queue p !! a) as [L|] eqn:EL; [|wp_step; split; [done|apply same_refl]].
  pose proof (flatten_queue_ok a L p Hp EL) as Hf. destruct (TxList.Flatten ord_txs (TxList.txs L)) as [m txs]. simpl in Hf.
  wp_step. eapply wp_mono; [exact Hf|]. simpl. intros p1 _ [Hp1 Hs1].
  eapply wp_mono; [apply (keeps_ok_for_each txs (fun tx => removeTx (TxHash tx) true)); [|done]|].
  - intros tx. apply removeTx_ok.
  - simpl. intros p2 _ [Hp2 Hs2]. split; [done|by eapply same_trans].
Qed.

End Pool.
End TxPoolInv.
