(* ===== verification/TxPoolReset.v ===== *)
(** The pool follows the chain: which transactions return to it after a reorganisation,
    what a new head leaves in step, and where that goes wrong. *)

From S2P Require Import Prelude Params Bytes Heap TxTypes TxList TxListProps TxPriced ManagedState Evm StateTransition TxPool TxPoolProps TxPoolInv.
Import TxTypes TxPool TxListProps TxPricedProps HeapProps TxPoolProps TxPoolInv.

Module TxPoolReset.

(** ** Reorganisations *)

Section Reorg.
Context {chain : Chain}.

(** What the chain promises of the blocks it returns. *)
Class ChainLaws : Prop := {
  GetBlock_hash : forall h n b, GetBlock h n = Some b -> b_hash b = h;
  GetBlock_number : forall h n b, GetBlock h n = Some b -> b_number b = n /\ 0 <= n;
  GetBlock_parent : forall h n b b', GetBlock h n = Some b -> parent_of b = Some b' -> b_number b' = b_number b - 1;
  GetBlock_same : forall h n m b b', GetBlock h n = Some b -> GetBlock h m = Some b' -> b = b'
}.
Context {laws : ChainLaws}.

(** A block the chain has. *)
Definition stored (b : Block) : Prop := GetBlock (b_hash b) (b_number b) = Some b.

Lemma GetBlock_stored h n b : GetBlock h n = Some b -> stored b.
Proof. intros H. unfold stored. by rewrite (GetBlock_hash h n b H), (proj1 (GetBlock_number h n b H)). Qed.

(** The [k]-th ancestor, with the transactions of the blocks left on the way. *)
Fixpoint walk (k : nat) (b : Block) (acc : list Transaction) : option (Block * list Transaction) :=
  match k with
  | O => Some (b, acc)
  | S k => b' ← parent_of b; walk k b' (acc ++ b_txs b)
  end.

Lemma parent_stored b b' : stored b -> parent_of b = Some b' -> stored b' /\ b_number b' = b_number b - 1.
Proof. intros Hs Hp. split; [by eapply GetBlock_stored|]. by eapply GetBlock_parent. Qed.

Lemma walk_number k b acc b' acc' : stored b -> walk k b acc = Some (b', acc') -> stored b' /\ b_number b' = b_number b - Z.of_nat k.
Proof.
  revert b acc. induction k as [|k IH]; intros b acc Hs Hw; simpl in Hw; [simplify_eq; split; [done|lia]|].
  destruct (parent_of b) as [b1|] eqn:E; [|done]. destruct (parent_stored b b1 Hs E) as [H1 H2].
  destruct (IH b1 _ H1 Hw) as [H3 H4]. split; [done|lia].
Qed.

Lemma walk_add i j b acc : walk (i + j) b acc = '(b', acc') ← walk i b acc; walk j b' acc'.
Proof. revert b acc. induction i as [|i IH]; intros b acc; [done|]. simpl. destruct (parent_of b); [|done]. apply IH. Qed.

Lemma walk_le i k b acc r : (i <= k)%nat -> walk k b acc = Some r -> exists b' acc', walk i b acc = Some (b', acc') /\ walk (k - i) b' acc' = Some r.
Proof.
  intros Hik Hw. replace k with (i + (k - i))%nat in Hw by lia. rewrite walk_add in Hw.
  destruct (walk i b acc) as [[b' acc']|]; [eauto|done].
Qed.

Lemma descend_walk k b target acc : stored b -> b_number b = target + Z.of_nat k -> descend k b target acc = walk k b acc.
Proof.
  revert b acc. induction k as [|k IH]; intros b acc Hs Hn; simpl.
  - by rewrite (proj2 (Z.leb_le _ _)) by lia.
  - rewrite (proj2 (Z.leb_gt _ _)) by lia. destruct (parent_of b) as [b1|] eqn:E; [|done]. simpl.
    destruct (parent_stored b b1 Hs E). apply IH; [done|lia].
Qed.

Lemma descend_stop k b target acc : b_number b <= target -> descend k b target acc = Some (b, acc).
Proof. intros H. destruct k; simpl; by rewrite (proj2 (Z.leb_le _ _)). Qed.

(** The first pair of ancestors with the same hash. *)
Lemma join_walk fuel rem add d e k c d' e' : (k < fuel)%nat -> walk k rem d = Some (c, d') -> walk k add e = Some (c, e') ->
  exists i c' d1 e1, (i <= k)%nat /\ walk i rem d = Some (c', d1) /\ (exists c'', walk i add e = Some (c'', e1) /\ b_hash c' = b_hash c'') /\
    join fuel rem add d e = Some (d1, e1) /\
    forall j x y dx ey, (j < i)%nat -> walk j rem d = Some (x, dx) -> walk j add e = Some (y, ey) -> b_hash x <> b_hash y.
Proof.
  revert rem add d e k. induction fuel as [|fuel IH]; intros rem add d e k Hk Hr Ha; [lia|]. cbn [join].
  destruct (b_hash rem =? b_hash add) eqn:Eh; bool_to_prop.
  { exists 0%nat, rem, d, e. split_and!; [lia|done|by exists add|done|lia]. }
  destruct k as [|k]; simpl in Hr, Ha; [simplify_eq|].
  destruct (parent_of rem) as [rem1|] eqn:Er; [|done]. destruct (parent_of add) as [add1|] eqn:Ea; [|done]. simpl in *.
  destruct (IH rem1 add1 (d ++ b_txs rem) (e ++ b_txs add) k ltac:(lia) Hr Ha) as (i & c' & d1 & e1 & Hi & Hw & (c'' & Hw' & Hh) & Hj & Hmin).
  exists (S i), c', d1, e1. split_and!; [lia|simpl; by rewrite Er|exists c''; simpl; by rewrite Ea|done|].
  intros [|j] x y dx ey Hji Hx Hy; simpl in Hx, Hy; [by simplify_eq|]. rewrite Er in Hx. rewrite Ea in Hy. by apply (Hmin j x y dx ey); [lia|..].
Qed.

(** [c] is the nearest common ancestor: [i] blocks below [rem] and [j] below [add], with the
    transactions [d] and [e] of the two branches. *)
Record fork_at (rem add : Block) (i j : nat) (c : Block) (d e : list Transaction) : Prop := {
  fa_rem : walk i rem [] = Some (c, d);
  fa_add : walk j add [] = Some (c, e);
  fa_nearest : forall i' j' x dx ex, (i' < i)%nat -> walk i' rem [] = Some (x, dx) -> walk j' add [] = Some (x, ex) -> False
}.

Lemma same_hash_eq x y : stored x -> stored y -> b_hash x = b_hash y -> x = y.
Proof. intros Hx Hy Hh. unfold stored in *. rewrite Hh in Hx. by eapply GetBlock_same. Qed.

Lemma TxDifference_elem d e tx : tx ∈ TxDifference d e <-> tx ∈ d /\ TxHash tx ∉ TxHash <$> e.
Proof. unfold TxDifference. rewrite list_elem_of_filter, elem_of_list_to_set. tauto. Qed.

(** With both branches at the height of the lower head. *)
Lemma reorg_join rem add i j c d e : stored rem -> stored add -> walk i rem [] = Some (c, d) -> walk j add [] = Some (c, e) ->
  exists i' j' c' d' e', fork_at rem add i' j' c' d' e' /\ (i' <= i)%nat /\
    ('(rem, discarded) ← descend (Z.to_nat (b_number rem - b_number add)) rem (b_number add) [];
     '(add, included) ← descend (Z.to_nat (b_number add - b_number rem)) add (b_number rem) [];
     '(discarded, included) ← join (S (Z.to_nat (b_number rem))) rem add discarded included;
     Some (TxDifference discarded included)) = Some (TxDifference d' e').
Proof.
  intros Hsr Hsa Hwr Hwa. destruct (walk_number _ _ _ _ _ Hsr Hwr) as [Hsc Hnr]. destruct (walk_number _ _ _ _ _ Hsa Hwa) as [_ Hna].
  set (m := Z.to_nat (b_number rem - b_number add)). set (n := Z.to_nat (b_number add - b_number rem)).
  assert (Hc0 : 0 <= b_number c) by (by apply (proj2 (GetBlock_number _ _ _ Hsc))).
  destruct (walk_le m i rem [] (c, d) ltac:(lia) Hwr) as (r1 & d1 & Hr1 & Hr1').
  destruct (walk_le n j add [] (c, e) ltac:(lia) Hwa) as (a1 & e1 & Ha1 & Ha1').
  destruct (walk_number _ _ _ _ _ Hsr Hr1) as [Hsr1 Hnr1]. destruct (walk_number _ _ _ _ _ Hsa Ha1) as [Hsa1 Hna1].
  assert (Hdr : descend m rem (b_number add) [] = Some (r1, d1)).
  { destruct (decide (b_number add <= b_number rem)).
    - rewrite descend_walk; [done|done|lia].
    - assert (m = 0%nat) as Hm by lia. rewrite Hm in *. simpl in Hr1. simplify_eq. apply descend_stop. lia. }
  assert (Hda : descend n add (b_number r1) [] = Some (a1, e1)).
  { destruct (decide (b_number rem <= b_number add)).
    - assert (m = 0%nat) as Hm by lia. rewrite Hm in *. simpl in Hr1. simplify_eq. rewrite descend_walk; [done|done|lia].
    - assert (n = 0%nat) as Hn by lia. rewrite Hn in *. simpl in Ha1. simplify_eq. apply descend_stop. lia. }
  rewrite Hdr. cbn [mbind option_bind]. replace (Z.to_nat (b_number add - b_number r1)) with n by lia. rewrite Hda. cbn [mbind option_bind].
  replace (j - n)%nat with (i - m)%nat in Ha1' by lia.
  destruct (join_walk (S (Z.to_nat (b_number r1))) r1 a1 d1 e1 (i - m) c d e ltac:(lia) Hr1' Ha1')
    as (k & c' & d2 & e2 & Hk & Hw & (c'' & Hw' & Hh) & -> & Hmin).
  destruct (walk_number _ _ _ _ _ Hsr1 Hw) as [Hsc' Hnc']. destruct (walk_number _ _ _ _ _ Hsa1 Hw') as [Hsc'' Hnc''].
  assert (c'' = c') as -> by (symmetry; by apply same_hash_eq).
  exists (m + k)%nat, (n + k)%nat, c', d2, e2. split_and!; [|lia|done]. split.
  - rewrite walk_add, Hr1. done.
  - rewrite walk_add, Ha1. done.
  - intros i' j' x dx ex Hi' Hx Hy. destruct (walk_number _ _ _ _ _ Hsr Hx) as [Hsx Hnx]. destruct (walk_number _ _ _ _ _ Hsa Hy) as [_ Hnx'].
    destruct (decide (i' < m)%nat) as [Hlt|Hge].
    + lia.
    + assert (n <= j')%nat by lia. replace i' with (m + (i' - m))%nat in Hx by lia. replace j' with (n + (i' - m))%nat in Hy by lia.
      rewrite walk_add, Hr1 in Hx. rewrite walk_add, Ha1 in Hy. simpl in Hx, Hy.
      by apply (Hmin (i' - m)%nat x x dx ex ltac:(lia) Hx Hy).
Qed.

(** ** Missing blocks *)

Lemma walk_none k b acc acc' : walk k b acc = None -> walk k b acc' = None.
Proof.
  revert b acc acc'. induction k as [|k IH]; intros b acc acc' Hw; simpl in *; [done|].
  destruct (parent_of b) as [b1|]; [|done]. by eapply IH.
Qed.

Lemma descend_missing b target acc : stored b -> descend (Z.to_nat (b_number b - target)) b target acc = None -> walk (Z.to_nat (b_number b - target)) b acc = None.
Proof.
  intros Hs Hd. destruct (decide (b_number b <= target)); [by rewrite descend_stop in Hd|]. by rewrite descend_walk in Hd by (done || lia).
Qed.

Lemma join_missing fuel rem add d e : stored rem -> stored add -> b_number rem < Z.of_nat fuel -> join fuel rem add d e = None ->
  exists k, walk k rem d = None \/ walk k add e = None.
Proof.
  revert rem add d e. induction fuel as [|fuel IH]; intros rem add d e Hr Ha Hn Hj.
  - pose proof (proj2 (GetBlock_number _ _ _ Hr)). lia.
  - cbn [join] in Hj. destruct (_ =? _); [done|]. destruct (parent_of rem) as [r1|] eqn:Er; [|exists 1%nat; left; simpl; by rewrite Er].
    destruct (parent_of add) as [a1|] eqn:Ea; [|exists 1%nat; right; simpl; by rewrite Ea]. destruct (parent_stored _ _ Hr Er) as [Hr1 Hn1]. destruct (parent_stored _ _ Ha Ea) as [Ha1 _].
    destruct (IH r1 a1 _ _ Hr1 Ha1 ltac:(lia) Hj) as [k Hk]. exists (S k). simpl. by rewrite Er, Ea.
Qed.

Lemma descend_at b target acc b' acc' : stored b -> descend (Z.to_nat (b_number b - target)) b target acc = Some (b', acc') ->
  walk (Z.to_nat (b_number b - target)) b acc = Some (b', acc').
Proof.
  intros Hs Hd. destruct (decide (b_number b <= target)); [|by rewrite descend_walk in Hd by (done || lia)].
  rewrite descend_stop in Hd by done. by replace (Z.to_nat _) with 0%nat by lia.
Qed.

(** No transactions are determined only if one of the two lines has a gap. *)
Lemma reinjected_missing old new : stored new -> (forall o, old = Some o -> stored o) -> reinjected old new = Ret None ->
  exists o k, old = Some o /\ (walk k o [] = None \/ walk k new [] = None).
Proof.
  intros Hn Ho Hr. unfold reinjected in Hr. destruct old as [o|]; [|done]. specialize (Ho o eq_refl). exists o. destruct (_ =? _); [done|].
  unfold reorg in Hr. destruct (64 <? _); [done|]. pose proof Ho as Eo. pose proof Hn as En. unfold stored in Eo, En. rewrite Eo, En in Hr. cbn [mbind outcome_bind deref] in Hr.
  destruct (descend _ o _ _) as [[rem d]|] eqn:Ed; [|eexists; split; [done|left; by apply descend_missing]]. cbn [mbind option_bind] in Hr. apply descend_at in Ed; [|done].
  destruct (descend _ new _ _) as [[add e]|] eqn:Ee; [|eexists; split; [done|right; by apply descend_missing]]. cbn [mbind option_bind] in Hr. apply descend_at in Ee; [|done].
  destruct (join _ rem add d e) as [[? ?]|] eqn:Ej; [done|]. destruct (walk_number _ _ _ _ _ Ho Ed) as [Hsr _]. destruct (walk_number _ _ _ _ _ Hn Ee) as [Hsa _].
  destruct (join_missing (S (Z.to_nat (b_number rem))) rem add d e Hsr Hsa ltac:(lia) Ej) as [k [Hk|Hk]].
  - exists (Z.to_nat (b_number o - b_number new) + k)%nat. split; [done|]. left. by rewrite walk_add, Ed.
  - exists (Z.to_nat (b_number new - b_number rem) + k)%nat. split; [done|]. right. by rewrite walk_add, Ee.
Qed.

(** Everything met on the way comes from stored blocks. *)
Section Met.
Context (P : Transaction -> Prop) (HP : forall b, stored b -> Forall P (b_txs b)).

Lemma descend_met fuel b target acc b' acc' : stored b -> Forall P acc -> descend fuel b target acc = Some (b', acc') -> stored b' /\ Forall P acc'.
Proof.
  revert b acc. induction fuel as [|fuel IH]; intros b acc Hs Ha Hd; simpl in Hd; destruct (b_number b <=? target); simplify_eq; try done.
  destruct (parent_of b) as [b1|] eqn:E; [|done]. apply (IH b1 (acc ++ b_txs b)); [by eapply GetBlock_stored|by apply Forall_app; auto|done].
Qed.

Lemma join_met fuel rem add d e d' e' : stored rem -> Forall P d -> join fuel rem add d e = Some (d', e') -> Forall P d'.
Proof.
  revert rem add d e. induction fuel as [|fuel IH]; intros rem add d e Hs Hd Hj; simpl in Hj; destruct (_ =? _); simplify_eq; try done.
  destruct (parent_of rem) as [r1|] eqn:Er; [|done]. destruct (parent_of add) as [a1|]; [|done].
  apply (IH r1 a1 (d ++ b_txs rem) (e ++ b_txs add)); [by eapply GetBlock_stored|by apply Forall_app; auto|done].
Qed.

Lemma reinjected_met old new : stored new -> (forall o, old = Some o -> stored o) ->
  exists r, reinjected old new = Ret r /\ forall txs, r = Some txs -> Forall P txs.
Proof.
  intros Hn Ho. assert (Hnil : exists r, Ret (Some []) = Ret r /\ forall txs, r = Some txs -> Forall P txs).
  { exists (Some []). split; [done|]. by intros txs [= <-]. }
  unfold reinjected. destruct old as [o|]; [|done]. destruct (_ =? _); [done|]. unfold reorg. destruct (64 <? _); [done|].
  specialize (Ho o eq_refl). unfold stored in Ho, Hn. rewrite Ho, Hn. cbn [mbind outcome_bind deref]. eexists. split; [done|]. intros txs Htxs.
  destruct (descend _ o _ _) as [[rem d]|] eqn:Ed; [|done]. destruct (descend_met _ _ _ _ _ _ Ho (Forall_nil_2 P) Ed) as [Hsr Hd]. cbn [mbind option_bind] in Htxs.
  destruct (descend _ new _ _) as [[add e]|] eqn:Ee; [|done]. cbn [mbind option_bind] in Htxs.
  destruct (join _ rem add d e) as [[d' e']|] eqn:Ej; [|done]. cbn [mbind option_bind] in Htxs. injection Htxs as <-.
  apply Forall_filter. by eapply join_met.
Qed.

End Met.

End Reorg.

(** ** A new head *)

Section Reset.
Context {ords : Orders} {olaws : OrdersLaws} {chain : Chain} {laws : ChainLaws}.

Lemma filled_put p a L l p' : filled p a -> pending p !! a = Some L -> list_ok L l -> pending p' !! a = pending p !! a -> filled p' a.
Proof. intros Hf HL Hok He L' HL'. rewrite He in HL'. by apply Hf. Qed.

Lemma track_nonce_spec a p : pool_ok p -> (forall b, filled p b) ->
  wp (track_nonce a) p (fun p' _ => pool_ok p' /\ same p p' /\ forall b, filled p' b).
Proof.
  intros (pe & qu & Hr & Hc) Hf. unfold track_nonce. do 2 wp_step. pose proof (rep_pending _ _ _ _ Hr a) as Hok.
  destruct (pending p !! a) as [L|] eqn:EL; [|wp_step; split_and!; [by exists pe, qu|apply same_refl|done]].
  destruct Hok as [Hok Hs]. pose proof (Flatten_list L _ Hok) as HF. destruct (TxList.Flatten ord_txs (TxList.txs L)) as [m txs].
  destruct HF as [-> HL']. wp_step. apply (put_pending_spec [] p pe qu Hr a _ (pe a)); [done|done|]. intros p1 Hr1 Ha1 Hp1 Hf1.
  assert (Hne : pe a <> []). { specialize (Hf a L EL). rewrite (list_ok_len _ _ Hok) in Hf. by destruct (pe a). }
  destruct (last (pe a)) as [tx|] eqn:El; [|by apply last_None in El]. wp_step. eapply wp_lift; [done|].
  assert (Hr1' : rep [] p1 pe qu) by (eapply rep_ext; [|done|exact Hr1]; intros b; unfold upd; by destruct (decide (b = a)) as [->|]).
  apply (setNonce_spec [] p1 pe qu Hr1'); [apply u64_range|]. intros p2 Hr2 Ha2 Hf2. split_and!.
  - exists pe, qu. split; [done|]. by rewrite Ha2, Ha1.
  - eapply same_trans; [apply Hf1|apply (f_same _ _ _ (Hf2 a))].
  - intros b L2 HL2. rewrite (f_pending _ _ _ (Hf2 (b + 1))) in HL2 by lia. destruct (decide (b = a)) as [->|Hb].
    + rewrite Hp1 in HL2. simplify_eq. rewrite (list_ok_len _ _ HL'). by destruct (pe a).
    + rewrite (f_pending _ _ _ Hf1) in HL2 by done. by apply (Hf b).
Qed.

(** The last steps: demote, follow the nonces, promote. *)
Lemma reset_end now p : pool_ok p ->
  wp (_ ← demoteUnexecutables; pd ← gets pending; _ ← for_each (ord_lists pd).*1 track_nonce; promoteExecutables now None) p
    (fun p' _ => pool_ok p' /\ same p p' /\ pending_bounded p p' /\ queue_bounded p p').
Proof.
  intros Hp. wp_step. eapply wp_mono; [by apply demoteUnexecutables_spec|]. simpl. intros p1 _ (Hp1 & Hs1 & Hf1). do 2 wp_step. wp_step.
  apply (wp_for_each (fun _ q => pool_ok q /\ same p q /\ forall b, filled q b)).
  - intros a l q (Hq & Hsq & Hfq). eapply wp_mono; [by apply track_nonce_spec|]. simpl. intros q' _ (H1 & H2 & H3).
    split_and!; [done|by eapply same_trans|done].
  - done.
  - intros p2 (Hp2 & Hs2 & _). eapply wp_mono; [by apply promoteExecutables_spec|]. simpl. intros p3 _ (Hp3 & Hs3 & Hb3 & Hq3).
    split_and!; [done|by eapply same_trans| |by eapply bounded_queue_ext].
    destruct Hp3 as (pe & qu & Hr3 & _). eapply (bounded_pending_ext p2 p p3 p3 pe); [done| |apply Hr3|apply Hr3|done].
    destruct Hp2 as (pe2 & qu2 & Hr2 & _). apply co_slots, (rep_config _ _ _ _ Hr2).
Qed.

Lemma set_chain_ok p cs gas : pool_ok p -> (forall a, is_u64 (cs_nonce cs a)) ->
  pool_ok (set_chain cs (ManagedState.ManageState (cs_nonce cs)) gas p).
Proof.
  intros (pe & qu & Hr & Hc) Hu. exists pe, qu. split; [|done]. destruct Hr. split; try done.
Qed.

(** A pool at a new head. *)
Definition at_head (new : Block) (p : TxPool) : Prop :=
  exists cs, StateAt (b_root new) = Some cs /\ currentState p = cs /\ currentMaxGas p = b_gasLimit new /\
    pending_bounded p p /\ queue_bounded p p.

Lemma bounded_self p q : same p q -> pending_bounded p q -> queue_bounded p q -> pending_bounded q q /\ queue_bounded q q.
Proof.
  intros Hs Hb Hq. split.
  - destruct Hb as [H|H]; [left|right]; rewrite (s_config _ _ Hs); [done|]. by rewrite (s_locals _ _ Hs).
  - destruct Hq as [H|H]; [left|right]; [by rewrite (s_config _ _ Hs)|by rewrite (s_locals _ _ Hs)].
Qed.

Lemma dapp_blocks_nil lists : dapp_blocks lists [] = Ret [].
Proof. induction lists as [|[a L] lists IH]; [done|]. cbn [dapp_blocks dapp_txs mbind outcome_bind]. exact IH. Qed.

(** The head a call is about: its argument, or the current block of the chain. *)
Definition head_of (old new : option Block) (head : Block) : Prop := new = Some head \/ (old = None /\ new = None /\ CurrentBlock = Some head).

(** The pool on the state of the new head, with the transactions that come back. *)
Definition put_back (now : Z) (txs : list Transaction) (cs : ChainState) (head : Block) (p : TxPool) : outcome (TxPool * list (option PoolError)) :=
  addTxsLocked now txs false (set_chain cs (ManagedState.ManageState (cs_nonce cs)) (b_gasLimit head) p).

Lemma reset_head now old new head p : head_of old new head ->
  reset now old new p =
    (r ← reinjected old head;
     match r, StateAt (b_root head) with
     | Some txs, Some cs =>
         '(p2, _) ← put_back now txs cs head p;
         newBlock ← deref (GetBlock (b_hash head) (b_number head));
         blocks ← dapp_blocks (ord_lists (dappPending p2)) (b_txs newBlock);
         '(p3, _) ← (_ ← demoteUnexecutables; pd ← gets pending; _ ← for_each (ord_lists pd).*1 track_nonce; promoteExecutables now None) p2;
         Ret (p3, blocks)
     | _, _ => Ret (p, [])
     end).
Proof.
  intros Hh. unfold reset. assert (Er : (match old, new with _, Some newHead => reinjected old newHead | Some _, None => Panic | None, None => Ret (Some []) end) = reinjected old head /\
    match new with Some h => Some h | None => CurrentBlock end = Some head) by (destruct Hh as [->|(-> & -> & ->)]; [by destruct old|done]).
  destruct Er as [-> ->]. unfold put_back. unfold mbind, outcome_bind, SM_bind, lift, gets, modify, mret, SM_ret. cbn. destruct (reinjected old head) as [[txs|]|]; [|done|done]. cbn.
  destruct (StateAt (b_root head)) as [cs|]; [|done]. cbn. destruct (addTxsLocked _ _ _ _) as [[p2 errs]|]; [|done]. cbn. destruct (GetBlock _ _) as [nb|]; [|done]. cbn.
  assert (Eb : (match length (b_txs nb) with O => false | S _ => true end = false) -> dapp_blocks (ord_lists (dappPending p2)) (b_txs nb) = Ret []) by (destruct (b_txs nb); [intros _; apply dapp_blocks_nil|done]).
  destruct (match length (b_txs nb) with O => false | S _ => true end); [|rewrite (Eb eq_refl)]; clear Eb.
  1: destruct (dapp_blocks _ _) as [blocks|]; [|done].
  all: cbn; destruct (demoteUnexecutables p2) as [[q1 u1]|]; [|done]; cbn.
  all: destruct (for_each _ track_nonce q1) as [[q2 u2]|]; [|done]; cbn; by destruct (promoteExecutables now None q2) as [[q3 u3]|].
Qed.

Lemma reset_outcome now old new head p : pool_ok p -> head_of old new head -> stored head -> (forall o, old = Some o -> stored o) ->
  (forall b, stored b -> Forall good_tx (b_txs b)) -> (forall r cs, StateAt r = Some cs -> forall a, is_u64 (cs_nonce cs a)) ->
  exists r, reinjected old head = Ret r /\
  match r, StateAt (b_root head) with
  | Some txs, Some cs =>
      exists p2 errs, put_back now txs cs head p = Ret (p2, errs) /\
      match dapp_blocks (ord_lists (dappPending p2)) (b_txs head) with
      | Ret blocks => exists p', reset now old new p = Ret (p', blocks) /\ pool_ok p' /\ at_head head p'
      | Panic => reset now old new p = Panic
      end
  | _, _ => reset now old new p = Ret (p, [])
  end.
Proof.
  intros Hp Hh Hn Ho Hgood Hstate. destruct (reinjected_met good_tx Hgood old head Hn Ho) as (r & Hr & Htxs). exists r. split; [done|]. rewrite (reset_head _ _ _ _ _ Hh), Hr. cbn [mbind outcome_bind].
  destruct r as [txs|]; [|done]. destruct (StateAt (b_root head)) as [cs|] eqn:Es; [|done]. specialize (Htxs txs eq_refl).
  set (p1 := set_chain cs (ManagedState.ManageState (cs_nonce cs)) (b_gasLimit head) p). assert (Hp1 : pool_ok p1) by (apply set_chain_ok; [done|by eapply Hstate]).
  destruct (addTxsLocked_spec now txs false p1 Hp1 Htxs) as (p2 & errs & E2 & Hp2 & Hs2 & _). change (put_back now txs cs head p = Ret (p2, errs)) in E2. rewrite E2. exists p2, errs. split; [done|].
  cbn [mbind outcome_bind]. pose proof Hn as En. unfold stored in En. rewrite En. cbn [deref mbind outcome_bind]. destruct (dapp_blocks _ _) as [blocks|]; [|done]. cbn [mbind outcome_bind].
  destruct (reset_end now p2 Hp2) as (p3 & u & -> & Hp3 & Hs3 & Hb3 & Hq3). cbn [mbind outcome_bind]. exists p3. split; [done|]. split; [done|].
  assert (Hc3 : same_chain p1 p3) by (eapply same_chain_trans; [done|by apply same_chain_of]). exists cs. destruct (bounded_self _ _ Hs3 Hb3 Hq3).
  split_and!; [done|by rewrite (sc_state _ _ Hc3)|by rewrite (sc_gas _ _ Hc3)|done|done].
Qed.

End Reset.

End TxPoolReset.
