(* ===== verification/TxPoolClaims.v ===== *)
(** What the pool guarantees, at concrete pools and chains where it applies, and the run
    in which an ordinary transaction stops it. *)

From stdpp Require Import sorting.
From S2P Require Import Prelude Params Bytes Heap TxTypes TxList TxListProps TxPriced ManagedState Evm StateTransition TxPool TxPoolProps TxPoolInv TxPoolReset.
Import TxTypes TxPool TxListProps TxPricedProps HeapProps TxPoolProps TxPoolInv TxPoolReset.

Module TxPoolClaims.

(** ** Orders that satisfy the laws *)

Definition longer_first (x y : Address * Z) : Prop := y.2 <= x.2.
Definition earlier (x y : Address * Z) : Prop := x.2 <= y.2.
#[export] Instance longer_first_dec x y : Decision (longer_first x y).
Proof. unfold longer_first. apply _. Defined.
#[export] Instance earlier_dec x y : Decision (earlier x y).
Proof. unfold earlier. apply _. Defined.

#[export] Instance map_orders : Orders := {
  ord_txs := map_to_list; ord_txs' := map_to_list; ord_all := map_to_list; ord_lists := map_to_list; ord_set := elements;
  prque_order l := (merge_sort longer_first l).*1; sort_beats l := merge_sort earlier l
}.

Lemma merge_sort_longer l : StronglySorted longer_first (merge_sort longer_first l).
Proof. apply StronglySorted_merge_sort; [intros x y z; unfold longer_first; lia|intros x y; unfold longer_first; lia]. Qed.

Lemma longer_first_keys l s : NoDup l.*1 -> (forall x, x ∈ s -> x ∈ l) -> StronglySorted longer_first s ->
  StronglySorted (fun a b => forall x y, (a, x) ∈ l -> (b, y) ∈ l -> y <= x) s.*1.
Proof.
  intros Hnd Hsub. assert (Huniq : forall a (x y : Z), (a, x) ∈ l -> (a, y) ∈ l -> x = y).
  { intros a x y Hx Hy. apply (elem_of_list_to_map_1 (M:=gmap Address)) in Hx, Hy; [congruence|done|done]. }
  induction 1 as [|[a n] s Hs IH Ha]; simpl; constructor; [apply IH; intros; apply Hsub; by right|].
  rewrite Forall_forall in Ha. apply Forall_forall. intros b ([b' m] & -> & Hb)%list_elem_of_fmap x y Hx Hy. simpl in *.
  rewrite (Huniq a x n Hx) by (apply Hsub; by left). rewrite (Huniq b' y m Hy) by (apply Hsub; by right).
  specialize (Ha _ Hb). unfold longer_first in Ha. simpl in Ha. lia.
Qed.

#[export] Instance map_orders_laws : OrdersLaws.
Proof.
  split.
  - apply map_to_list_iterates.
  - apply map_to_list_iterates.
  - intros m. done.
  - intros m. done.
  - intros s x. apply elem_of_elements.
  - intros l. simpl. by rewrite merge_sort_Permutation.
  - intros l Hnd. simpl. apply longer_first_keys; [done| |apply merge_sort_longer]. intros x Hx. by rewrite merge_sort_Permutation in Hx.
  - intros l. simpl. by rewrite merge_sort_Permutation.
Qed.

(** ** A small pool *)

Module Small.

Definition config : TxPoolConfig := MkConfig false second 1 10 1 2 2 1 (60 * second).

(** Every account has ten million and nonce zero. *)
Definition state : ChainState := MkChainState (fun _ => 0) (fun _ => 10000000).

Definition tx (from nonce price : Z) : Transaction :=
  MkTx None (MkTxdata PEmpty PEmpty nonce price 21000 (PTo 9) 1 [] 27 1 1) (1000 * from + nonce) 110 (Some from).

Definition genesis : Block := MkBlock 1 0 0 1 8000000 [].

(** Two blocks on the same parent. *)
Definition left1 : Block := MkBlock 11 1 1 1 8000000 [tx 1 0 10; tx 2 0 10].
Definition right1 : Block := MkBlock 21 1 1 1 8000000 [tx 1 0 10].
Definition right2 : Block := MkBlock 22 21 2 1 8000000 [].
Definition blocks : list Block := [genesis; left1; right1; right2].

#[export] Instance chain : Chain := {
  GetBlock h n := head (filter (fun b => b_hash b = h /\ b_number b = n) blocks);
  CurrentBlock := Some genesis;
  StateAt r := if r =? 1 then Some state else None;
  has_dappchain _ := false
}.

Lemma GetBlock_elem h n b : GetBlock h n = Some b -> b ∈ blocks /\ b_hash b = h /\ b_number b = n.
Proof.
  intros H. simpl in H. assert (Hin : b ∈ filter (fun b => b_hash b = h /\ b_number b = n) blocks).
  { destruct (filter _ blocks); simplify_eq/=. by left. }
  apply list_elem_of_filter in Hin as [[? ?] ?]. done.
Qed.

Ltac each_block H := apply GetBlock_elem in H as (H & <- & <-); unfold blocks in H; rewrite !elem_of_cons, elem_of_nil in H; destruct_or! H; subst; try done.

#[export] Instance chain_laws : ChainLaws.
Proof.
  split.
  - intros h n b H. by apply GetBlock_elem in H as (_ & ? & _).
  - intros h n b H. each_block H.
  - intros h n b b' H Hp. each_block H; vm_compute in Hp; simplify_eq; done.
  - intros h n m b b' H H'. apply GetBlock_elem in H as (H & <- & <-), H' as (H' & Hh & <-). unfold blocks in H, H'.
    rewrite !elem_of_cons, elem_of_nil in H, H'. destruct_or! H; destruct_or! H'; subst; done.
Qed.

Definition start : TxPool := set_chain state (ManagedState.ManageState (cs_nonce state)) 8000000 (empty_pool config None).

End Small.

Lemma config_small : config_ok Small.config.
Proof. split; vm_compute; done. Qed.

Lemma empty_pool_ok c j : config_ok (sanitize c) -> pool_ok (empty_pool c j).
Proof.
  intros Hc. exists (fun _ => []), (fun _ => []). split.
  - by split.
  - split.
    + intros a tx Hin. by apply not_elem_of_nil in Hin.
    + intros a. constructor.
    + intros h tx. split; [done|]. intros [_ Hin]. by apply not_elem_of_nil in Hin.
    + intros a tx Hin. by apply not_elem_of_nil in Hin.
Qed.

Lemma start_ok : pool_ok Small.start.
Proof. apply set_chain_ok; [apply empty_pool_ok; split; vm_compute; done|]. intros a. by vm_compute. Qed.

Lemma tx_good from nonce price : is_u64 nonce -> good_tx (Small.tx from nonce price).
Proof. intros Hn. by split. Qed.

(** ** The claims *)

Section Claims.
Context {ords : Orders} {olaws : OrdersLaws}.

(** C6: a pool in step stays in step, whatever order the maps are met in. In step means: the
    map of all transactions holds exactly those of the pending and queued lists, by hash; no
    two transactions of an account share a nonce; every list is sorted, indexed and capped as
    its data structure requires; and the heap by price misses no transaction. Adding one or
    many, removing, promoting, demoting, changing the price and evicting all return, without
    panic, with the pool in step. An accepted transaction is in the pool, a refused one is
    not; a removed one is gone and no other; after a change of the price no transaction of a
    remote account is below it. *)
Theorem pool_stays_in_step p : pool_ok p ->
  (forall tx local, good_tx tx -> wp (add tx local) p (fun p' r => pool_ok p' /\ added tx p' r)) /\
  (forall now tx local, good_tx tx -> wp (addTx now tx local) p (fun p' _ => pool_ok p')) /\
  (forall now txs local, Forall good_tx txs ->
     wp (addTxsLocked now txs local) p (fun p' errs => pool_ok p' /\ length errs = length txs)) /\
  (forall h b, wp (removeTx h b) p (fun p' _ => pool_ok p' /\ all p' = delete h (all p))) /\
  (forall now accounts, wp (promoteExecutables now accounts) p (fun p' _ => pool_ok p')) /\
  wp demoteUnexecutables p (fun p' _ => pool_ok p' /\ forall a, filled p' a) /\
  (forall price, wp (SetGasPrice price) p (fun p' _ => pool_ok p' /\
     forall h tx, all p' !! h = Some tx -> TxPriced.containsTx (locals p) tx = false -> price <= GasPrice tx)) /\
  (forall now, wp (evict now) p (fun p' _ => pool_ok p')).
Proof.
  intros Hp. split_and!.
  - intros tx local Hg. eapply wp_mono; [by apply add_spec|]. simpl. tauto.
  - intros now tx local Hg. eapply wp_mono; [by apply addTx_spec|]. simpl. tauto.
  - intros now txs local Hg. eapply wp_mono; [by apply addTxsLocked_spec|]. simpl. tauto.
  - intros h b. destruct Hp as (pe & qu & Hr & Hc). apply (removeTx_spec [] p pe qu _ _ _ Hr Hc). intros p' pe' qu' H1 H2 H3 _ _.
    split; [by exists pe', qu'|done].
  - intros now accounts. eapply wp_mono; [by apply promoteExecutables_spec|]. simpl. tauto.
  - eapply wp_mono; [by apply demoteUnexecutables_spec|]. simpl. tauto.
  - intros price. by apply SetGasPrice_spec.
  - intros now. eapply wp_mono; [by apply evict_ok|]. simpl. tauto.
Qed.

(** C38: the limits of the pool. After a round of promotions there are no more pending
    transactions than the global limit, or no account that is not local has more than its
    guaranteed share; and no more queued ones than the global limit, or only local accounts
    have any. *)
Theorem pool_limits p now accounts : pool_ok p ->
  wp (promoteExecutables now accounts) p (fun p' _ =>
    (total_len (pending p') <= GlobalSlots (config p) \/
     forall a L, a ∉ locals p -> pending p' !! a = Some L -> Z.of_nat (TxList.Len (TxList.txs L)) <= AccountSlots (config p)) /\
    (total_len (queue p') <= GlobalQueue (config p) \/
     forall a L, a ∉ locals p -> queue p' !! a = Some L -> Z.of_nat (TxList.Len (TxList.txs L)) = 0)).
Proof. intros Hp. eapply wp_mono; [by apply promoteExecutables_spec|]. simpl. intros p' _ (_ & _ & H1 & H2). done. Qed.

Context {chain : Chain} {laws : ChainLaws}.

(** C34: after a reorganisation of at most 64 blocks between two heads with a common ancestor
    the pool gets back exactly the transactions of the abandoned branch, up to the nearest
    common ancestor, that the new branch does not contain. *)
Theorem reorg_reinjects old new i j c d e : stored old -> stored new -> b_hash old <> b_parent new ->
  Z.abs (b_number old - b_number new) <= 64 -> walk i old [] = Some (c, d) -> walk j new [] = Some (c, e) ->
  exists i' j' c' d' e' txs, fork_at old new i' j' c' d' e' /\ (i' <= i)%nat /\
    reinjected (Some old) new = Ret (Some txs) /\
    forall tx, tx ∈ txs <-> tx ∈ d' /\ TxHash tx ∉ TxHash <$> e'.
Proof.
  intros Ho Hn Hne Hdep Hwo Hwn. destruct (reorg_join old new i j c d e Ho Hn Hwo Hwn) as (i' & j' & c' & d' & e' & Hf & Hi & Hj).
  exists i', j', c', d', e', (TxDifference d' e'). split_and!; [done|done| |intros tx; apply TxDifference_elem].
  unfold reinjected, reorg. rewrite (proj2 (Z.eqb_neq _ _) Hne), (proj2 (Z.ltb_ge _ _) Hdep). unfold stored in Ho, Hn. rewrite Ho, Hn.
  cbn [mbind outcome_bind deref]. f_equal. exact Hj.
Qed.


End Claims.

(** ** Witnesses *)

#[local] Existing Instance Small.chain.
#[local] Existing Instance Small.chain_laws.


Lemma pool_stays_in_step_witness : good_tx (Small.tx 1 0 10) /\
  wp (add (Small.tx 1 0 10) false) Small.start (fun p' r => pool_ok p' /\ added (Small.tx 1 0 10) p' r) /\
  add (Small.tx 1 0 10) false Small.start <> Panic.
Proof.
  split; [apply tx_good; by vm_compute|].
  destruct (pool_stays_in_step Small.start start_ok) as (Hadd & _). split; [apply Hadd, tx_good; by vm_compute|].
  destruct (Hadd (Small.tx 1 0 10) false ltac:(apply tx_good; by vm_compute)) as (p' & r & H & _). by rewrite H.
Defined.

Lemma pool_limits_witness :
  wp (promoteExecutables 5 None) Small.start (fun p' _ =>
    (total_len (pending p') <= 2 \/
     forall a L, a ∉ locals Small.start -> pending p' !! a = Some L -> Z.of_nat (TxList.Len (TxList.txs L)) <= 1) /\
    (total_len (queue p') <= 1 \/
     forall a L, a ∉ locals Small.start -> queue p' !! a = Some L -> Z.of_nat (TxList.Len (TxList.txs L)) = 0)).
Proof. exact (pool_limits Small.start 5 None start_ok). Defined.

Lemma reorg_reinjects_witness : exists txs, reinjected (Some Small.left1) Small.right2 = Ret (Some txs) /\ txs = [Small.tx 2 0 10].
Proof.
  destruct (reorg_reinjects Small.left1 Small.right2 1 2 Small.genesis [Small.tx 1 0 10; Small.tx 2 0 10] [Small.tx 1 0 10])
    as (i & j & c & d & e & txs & _ & _ & Hr & _).
  - by vm_compute.
  - by vm_compute.
  - by vm_compute.
  - by vm_compute.
  - by vm_compute.
  - by vm_compute.
  - exists txs. split; [exact Hr|]. vm_compute in Hr. injection Hr as <-. by vm_compute.
Defined.


(** ** The pool stopped by an ordinary transaction *)

(** A transfer as a peer receives it from the wire. *)
Definition transferred : Transaction :=
  default nil_tx (transmit (MkTx None (MkTxdata PEmpty PEmpty 0 10 21000 (PTo 9) 1 [] 27 1 1) 1000 110 (Some 1))).

(** The block that contains it. *)
Definition including : Block := MkBlock 11 1 1 1 8000000 [transferred].

Definition crash_chain : Chain := {|
  GetBlock h n := if (h =? 11) && (n =? 1) then Some including else None;
  CurrentBlock := Some including;
  StateAt r := if r =? 1 then Some Small.state else None;
  has_dappchain _ := false
|}.

(** Every transaction without a DApp that was decoded from the wire counts as one of the
    DApp of the zero address: its pointers are not the ones the code compares with. *)
Lemma transmitted_is_dapp tx tx' : DAppId (data tx) = PEmpty -> RefHashId (data tx) = PEmpty -> transmit tx = Some tx' ->
  DAppId (data tx') = PTo 0 /\ DAppId (data tx') <> PEmpty /\ RefHashId (data tx') <> PEmpty.
Proof. intros H1 H2 Ht. unfold transmit in Ht. rewrite H1, H2 in Ht. simpl in Ht. by injection Ht as <-. Qed.

(** A pool that accepts it from a peer panics at the block that contains it. *)
Theorem plain_transaction_stops_pool :
  match AddRemote 5 transferred Small.start with
  | Ret (p, e) => e = None /\ is_Some (dappPending p !! 0) /\ reset (chain:=crash_chain) 6 None (Some including) p = Panic
  | Panic => False
  end.
Proof. vm_compute. split; [reflexivity|]. split; [by eexists|reflexivity]. Qed.

End TxPoolClaims.
